(* ===== verification/_CoqProject ===== *)
-Q . S2P
Prelude.v
Params.v
Errors.v
Syscall.v
Fcntl.v
RunQueue.v
UserMem.v
SemTable.v
Mpmc.v
Pipe.v
Bytes.v
Log.v
LogCrash.v
Bio.v
BioCoh.v
LogOps.v
FsLayout.v
FsBlocks.v
FsInode.v
FsBmap.v
FsData.v
FsItable.v
Strs.v
FsDir.v
FsPath.v
FileNode.v
DList.v
BuddyTree.v
Buddy.v
BuddyInit.v
BuddySpec.v
PageTable.v
PtSpec.v
UvmMem.v
Mmap.v
MmapMem.v
MmapInv.v
MmapSpec.v
MmapFault.v
MmapShm.v
MmapSafe.v
Signal.v
Spinlock.v
Procs.v
ProcsInv.v
ProcsOps.v
ProcSched.v
ProcSignals.v
NetFmt.v
Net.v
NetInv.v
NetTcp.v
NetData.v
Console.v
ConsoleSpec.v
UserIo.v
Zip.v
Psort.v
Shell.v
ShellSpec.v
ShellRun.v
ShellExec.v
SysArgs.v
Exec.v
ExecArgs.v
Sync.v
SleepLock.v
MkFs.v
MkFsSim.v
MkFsNode.v
MkFsSpec.v
UMalloc.v
UMallocSpec.v
FTable.v
Fds.v
FdsSpec.v
Task.v
TaskLive.v
Socket.v
SocketSpec.v
