(* ===== verification/Prelude.v ===== *)
(** * Verification of the Web OS kernel

    Web OS is a small multi-processor RISC-V kernel in Rust
    ([src/crates/kernel/src/]) with user programs, a tool that writes the file
    system image and a web service that runs the machine.  This development
    models the kernel's own logic, the tool that makes its disk and the user
    programs with an algorithm of their own, and proves what they promise.

    ** The program and its parts

    User programs enter the kernel through system calls ([syscall.rs]), which
    decode their arguments and call the components: processes, signals and
    scheduling ([proc.rs], [signal.rs], [runq.rs]), memory ([buddy.rs],
    [list.rs], [kalloc.rs], [vm.rs], and the mapping calls of [proc.rs] and
    [ipc.rs]), files ([file.rs], [fs.rs]) over the write-ahead log ([log.rs])
    and the buffer cache ([bio.rs]), locks on files ([fcntl.rs]), pipes
    ([pipe.rs]) over channels ([mpmc.rs]) and semaphores ([semaphore.rs]), the
    console ([console.rs]) and the network ([net.rs]).  Everything shared is
    under spin locks, sleep locks or once-cells ([spinlock.rs],
    [sleeplock.rs], [sync.rs]); each CPU also runs kernel tasks ([task.rs]).  [exec.rs] starts the programs of
    [src/crates/user/], among them the shell; [src/crates/mkfs/] writes the disk
    image all of them are on.

    ** Conventions

    - A function returns an [outcome]: [Ok], [Err] or [Panic]; panics include
      failed assertions, indices out of range and arithmetic overflow where the
      source does not say [wrapping_], [saturating_] or [checked_], as in a build
      with overflow checks (mkfs, which is installed in release mode, wraps
      around).  Stateful code is in the monad [M]: an error or a panic keeps
      the state reached.
    - Code under a lock is one step.  Code that sleeps returns [Sleeps] from
      one pass of its loop; what happens between passes is any sequence of
      other steps.  Where a function takes a lock several times, each region
      is a step of a transition system of its own (channels, the process
      table, transactions of the log).
    - Machine integers are [Z] with the width's wrap-around or overflow test
      written out; bytes are [Z] below 256; a file, a packet or a page is a
      list of bytes.  Loops the source runs until a condition are structural
      recursions on a bound that the theorems show is never reached.
    - Interfaces between components are classes: [UserMem] (copying from and
      to the caller), [BlockStore] (transactional blocks), [Txn]
      (transactions), [Image] (the address space exec fills), [Read] and [Write]
      (user streams), [ShellSys] (what the shell asks of the system); the
      client's theorems are proved against their laws, or for any instance, and
      the implementations are instances.

    ** Files

    Foundations.  Prelude.v: outcomes, the monad, shared lemmas and tactics.
    Params.v: limits.  Errors.v: error numbers.  Bytes.v, Strs.v: words and
    strings as bytes.

    System calls.  Syscall.v: numbers, the table of handlers, dispatch and
    the generated user stubs.  SysArgs.v: how handlers fetch paths, slices and
    lists of strings.  Fds.v: the calls on descriptors and what [fork], [exec]
    and [exit] do to them, over the table of files.  FdsSpec.v: they refine a
    description by the descriptor tables alone, and a file lives exactly as
    long as a descriptor refers to it.

    Locks.  Spinlock.v: mutual exclusion of CPUs with nested disabling of
    interrupts.  SleepLock.v: mutual exclusion of processes, no lost wake-up.
    Sync.v: once-cells initialise exactly once.

    Processes.  RunQueue.v: the ring buffers of [runq.rs] refine FIFO queues;
    stealing leaves no work behind.  Signal.v: the sets of [signal.rs].
    Procs.v: the process table of [proc.rs], one definition per lock region.
    ProcsInv.v, ProcsOps.v: the scheduling invariant across every region.
    ProcSched.v: the regions as steps of all CPUs; in every reachable state
    each runnable process is queued once and each running one has one CPU, no
    step panics, and [wakeup] makes exactly the sleepers on its channel
    runnable.  ProcSignals.v: [kill], delivery and [sigreturn].  Task.v: the
    executor of kernel tasks; a run with a budget ends.  TaskLive.v: tasks
    that sleep, under every interleaving of executors, clock interrupts and
    spawning threads: no wake-up is lost, none comes early, and a task is
    finished a bounded number of steps after its tick.

    Communication.  SemTable.v, Mpmc.v, Pipe.v: permits are
    conserved, also by number and under closing; channels are bounded FIFO
    queues under every interleaving; pipes transfer exactly the bytes written.
    Socket.v: Unix sockets and internet addresses of [socket.rs].
    SocketSpec.v: Unix sockets refine a description by names, queues of
    connections and bytes on their way, without channels or counts.
    Fcntl.v: advisory locks exclude each other.  Console.v: the line
    discipline; ConsoleSpec.v: it refines a line editor with a queue of lines,
    and how a full buffer breaks it.

    Storage.  Log.v: [log.rs] with the disk and the cache.  LogCrash.v: a
    crash at any write of a commit recovers to all or none of it, and
    recovery can be repeated.  LogOps.v: the log refines an abstract atomic
    disk; [BlockStore], the interface to the file system, and its two
    instances.  Bio.v, BioCoh.v: the buffer cache of [bio.rs], its list
    in order of use, and that it answers with the last data stored.

    Files.  FsLayout.v to FsPath.v: [fs.rs] from on-disk structures through
    the bitmap allocator, inodes, the block map with indirect blocks,
    reading and writing, the inode table, directories and path resolution.
    FileNode.v: reads and writes of open files, a transaction at a time.
    FTable.v: the table of open files and the destructor of [File], step by
    step: files are destroyed once and never while held, and how overlapping
    drops lose a slot.
    MkFs.v: the tool [mkfs].  MkFsSim.v: appending to a file of the image
    takes the blocks the kernel's own [bmap] would take.  MkFsNode.v: inodes
    of an image under construction.  MkFsSpec.v: the kernel can mount the
    image and finds exactly the given files.

    Memory.  DList.v, BuddyTree.v, Buddy.v, BuddyInit.v, BuddySpec.v: the
    buddy allocator; a client never gets overlapping blocks, and a request
    that fails has no free block of its size.  PageTable.v, PtSpec.v:
    [vm.rs] page tables as maps from pages to entries.  UvmMem.v: copying
    through user page tables with copy-on-write, an instance of [UserMem].
    Mmap.v: the mapping calls and shared segments.  MmapMem.v: the ledger of
    physical pages, and lists of mappings as functions of the address.
    MmapInv.v, MmapSpec.v, MmapFault.v, MmapShm.v: the invariant of an address
    space and what each call does to it.  MmapSafe.v: any sequence of calls,
    faults and stores keeps it and never panics.

    Network.  NetFmt.v: packets and checksums.  Net.v: sockets, tables and
    input of [net.rs].  NetInv.v: no frame can stop the kernel.  NetTcp.v,
    NetData.v: the handshake, transfer of data, and what is lost.

    Programs.  Exec.v: loading an ELF file and laying out the stack.
    ExecArgs.v: the program finds its arguments and environment.
    UserIo.v: strings, streams and environment of the user library.
    UMalloc.v, UMallocSpec.v: its memory allocator; the ring of
    free blocks and the blocks in use tile the heap, whatever a program does.
    Shell.v: the shell's lexer and parser.  ShellSpec.v: they invert printing.
    ShellRun.v: running a line.  ShellExec.v: it is the meaning of its chains,
    and the table of jobs stays consistent.  Zip.v: pzip and punzip are
    inverse.  Psort.v: psort sorts.

    ** Bounds

    The recursion of packets the machine sends to itself is bounded by
    [TCP_FUEL] = 4; NetInv.v shows that a segment triggers at most one reply
    and that the fuel is enough for any frame.  Folding a checksum takes at
    most three rounds ([fold16]).  Loops over files and directories are
    bounded by the number of blocks or entries they can meet, path resolution
    by the length of the path times the symbolic-link limit.  The hypotheses
    [refs_room] (MmapSafe.v) and [bs_room] (LogOps.v) say that a 16-bit
    page count or the log is not full.

    The searches of the user allocator are bounded by the number of headers in
    memory, twice for a request that extends the heap; [search_spec] shows
    that this is enough.

    Executions of TaskLive.v have fewer than [2 ^ 63] steps, so that neither
    the counter of ticks nor that of tasks wraps around.

    [LIMIT] (MkFsNode.v) is the number of blocks whose bitmap mkfs can write;
    [fits] counts the blocks and inodes a list of files takes.

    ** Not modelled

    Boot, traps, context switches and drivers (assembly and device registers;
    disk and network device are parameters); the framebuffer and the UART,
    whose output is a trace of events; memory ordering weaker than sequential
    consistency; the distributed file system client; [InetSocket], which
    picks the operation of [net.rs] for the kind of a socket; growing a
    process; the handlers of system calls that only pass decoded arguments on;
    dropping the old address space in [exec]; seeking, stat and the dispatch
    of reads and writes by kind of file; paths, files and processes of the
    user library; the servers, fsck and the small utilities; the web service.  The inode
    layer is a parameter of Mmap.v: [inodes_ok] says what is relied on.  UTF-8
    validity is modelled where the kernel tests it (Strs.v); the strings of
    user programs are lists of characters, which they cut only at characters
    they have found.

    ** Order of further work

    The other kinds of files; the remaining system-call handlers; fsck against
    FsLayout.v and MkFsSpec.v; the user library's files and processes;
    [InetSocket]. *)

From stdpp Require Import base tactics numbers gmap list.

(** ** Outcomes of kernel code

    A Rust function of the kernel returns [Ok(a)], returns [Err(e)] or
    panics ([assert!], [unwrap], [panic!], an index out of range, a checked
    subtraction that underflows).  Mutations made before an [Err] or a panic
    stay visible, so a stateful operation returns its outcome together with
    the final state. *)
Inductive outcome (E A : Type) : Type :=
| Ok (a : A)
| Err (e : E)
| Panic.
Arguments Ok {E A} a.
Arguments Err {E A} e.
Arguments Panic {E A}.

(** A stateful, fallible, possibly panicking computation. *)
Definition M (E S A : Type) : Type := S → outcome E A * S.

Global Instance M_ret {E S} : MRet (M E S) := λ A a s, (Ok a, s).
Global Instance M_bind {E S} : MBind (M E S) := λ A B f m s,
  match m s with
  | (Ok a, s') => f a s'
  | (Err e, s') => (Err e, s')
  | (Panic, s') => (Panic, s')
  end.
Definition m_get {E S} : M E S S := λ s, (Ok s, s).
Definition m_put {E S} (s' : S) : M E S () := λ _, (Ok (), s').
Definition m_err {E S A} (e : E) : M E S A := λ s, (Err e, s).
Definition m_panic {E S A} : M E S A := λ s, (Panic, s).

(** [for x in l { f(x) }] with early exit on an error or a panic. *)
Fixpoint m_for {E S A} (l : list A) (f : A → M E S ()) : M E S () :=
  match l with
  | [] => mret ()
  | x :: l => _ ← f x; m_for l f
  end.

Global Instance outcome_ret {E} : MRet (outcome E) := λ A a, Ok a.
Global Instance outcome_bind {E} : MBind (outcome E) := λ A B f m,
  match m with Ok a => f a | Err e => Err e | Panic => Panic end.

(** One pass of a loop that may put the caller to sleep: it returns, or it
    sleeps on a condition and runs the loop again when woken up. *)
Inductive blocking (E A : Type) : Type :=
| Returns (r : outcome E A)
| Sleeps.
Arguments Returns {E A} r.
Arguments Sleeps {E A}.

Declare Scope kernel_scope.
Delimit Scope kernel_scope with kernel.
Notation "'assert!' c 'in' k" := (if c then k else Panic)
  (at level 10, c at level 99, k at level 200) : kernel_scope.

Global Instance outcome_eq_dec {E A} `{EqDecision E} `{EqDecision A} :
  EqDecision (outcome E A).
Proof. solve_decision. Defined.

(** ** Machine integers

    A [w]-bit unsigned integer is a [Z] in [0 <= z < 2^w]. *)
Definition wrap (w z : Z) : Z := (z `mod` 2 ^ w)%Z.
Definition u8 : Z → Z := wrap 8.
Definition u16 : Z → Z := wrap 16.
Definition u32 : Z → Z := wrap 32.
Definition u64 : Z → Z := wrap 64.
Definition USIZE_MAX : Z := (2 ^ 64 - 1)%Z.
Definition ISIZE_MAX : Z := (2 ^ 63 - 1)%Z.

Lemma wrap_range w z : (0 ≤ w → 0 ≤ wrap w z < 2 ^ w)%Z.
Proof. intros Hw. apply Z.mod_pos_bound. lia. Qed.

Lemma wrap_small w z : (0 ≤ z < 2 ^ w → wrap w z = z)%Z.
Proof. apply Z.mod_small. Qed.

(** ** Tactics and hints of the development *)
#[global] Arguments Nat.modulo : simpl never.
#[global] Arguments Nat.div : simpl never.

Create HintDb kernel.
#[export] Hint Constructors outcome : kernel.

(** Reduce the monadic binds of a computation whose head is known. *)
Ltac bind_simpl := cbn [mbind mret outcome_bind outcome_ret M_bind M_ret].

(** Case analysis on every [match]/[if] scrutinee of the goal. *)
Ltac case_all := repeat (case_match; simplify_eq/=; try done).

(** Case analysis on a boolean comparison, reflected to a proposition. *)
Ltac bool_to_prop :=
  repeat match goal with
  | H : negb _ = true |- _ => apply negb_true_iff in H
  | H : negb _ = false |- _ => apply negb_false_iff in H
  | H : (_ && _)%bool = true |- _ => apply andb_true_iff in H as [? ?]
  | H : (_ || _)%bool = false |- _ => apply orb_false_iff in H as [? ?]
  | H : (_ =? _)%Z = true |- _ => apply Z.eqb_eq in H
  | H : (_ =? _)%Z = false |- _ => apply Z.eqb_neq in H
  | H : (_ <? _)%Z = true |- _ => apply Z.ltb_lt in H
  | H : (_ <? _)%Z = false |- _ => apply Z.ltb_ge in H
  | H : (_ <=? _)%Z = true |- _ => apply Z.leb_le in H
  | H : (_ <=? _)%Z = false |- _ => apply Z.leb_gt in H
  | H : (_ =? _)%nat = true |- _ => apply Nat.eqb_eq in H
  | H : (_ =? _)%nat = false |- _ => apply Nat.eqb_neq in H
  | H : (_ <? _)%nat = true |- _ => apply Nat.ltb_lt in H
  | H : (_ <? _)%nat = false |- _ => apply Nat.ltb_ge in H
  | H : (_ <=? _)%nat = true |- _ => apply Nat.leb_le in H
  | H : (_ <=? _)%nat = false |- _ => apply Nat.leb_gt in H
  | H : bool_decide _ = true |- _ => apply bool_decide_eq_true in H
  | H : bool_decide _ = false |- _ => apply bool_decide_eq_false in H
  end.

(** A computation that starts with one whose outcome is known. *)
Lemma bind_ok {E S A B} (m : M E S A) (f : A → M E S B) s a s' : m s = (Ok a, s') → (m ≫= f) s = f a s'.
Proof. unfold mbind, M_bind. by intros ->. Qed.

Lemma bind_err {E S A B} (m : M E S A) (f : A → M E S B) s e s' : m s = (Err e, s') → (m ≫= f) s = (Err e, s').
Proof. unfold mbind, M_bind. by intros ->. Qed.

(** ** Counting the elements of a list that satisfy a predicate *)
Lemma count_insert {A} (P : A → Prop) `{∀ x, Decision (P x)} (l : list A) i x y : l !! i = Some x →
  (length (filter P (<[i := y]> l)) + (if decide (P x) then 1 else 0) =
   length (filter P l) + (if decide (P y) then 1 else 0))%nat.
Proof.
  revert i. induction l as [|z l IH]; intros i Hi; [done|]. destruct i as [|i]; simpl in *.
  - injection Hi as ->. rewrite !filter_cons. destruct (decide (P x)), (decide (P y)); simpl; lia.
  - specialize (IH i Hi). rewrite !filter_cons. destruct (decide (P z)); simpl; lia.
Qed.

Lemma nodup_snoc {A} (l : list A) x : NoDup l → x ∉ l → NoDup (l ++ [x]).
Proof. intros Hl Hx. apply list.NoDup_app. split_and!; [done|set_solver|apply NoDup_singleton]. Qed.

Lemma filter_none {A} (P : A → Prop) `{∀ x, Decision (P x)} (l : list A) : Forall (λ x, ¬ P x) l → filter P l = [].
Proof. induction 1 as [|x l Hx _ IH]; [done|]. by rewrite filter_cons, decide_False. Qed.

(** ** Ring buffers

    The elements of a buffer of [n] slots with [len] of them in use from
    [head] on. *)
Section ring.
Local Open Scope nat_scope.
Context {A : Type} `{Inhabited A} (n : nat).
Definition ring (buf : list A) (head len : nat) : list A := (λ i, buf !!! ((head + i) mod n)) <$> seq 0 len.
Record ring_wf (buf : list A) (head tail len : nat) : Prop := {
  ring_buf : length buf = n;
  ring_head : head < n;
  ring_len : len ≤ n;
  ring_tail : tail = (head + len) mod n;
}.

Lemma length_ring buf head len : length (ring buf head len) = len.
Proof. unfold ring. by rewrite length_fmap, length_seq. Qed.

(** The slot behind the last element is none of the occupied slots. *)
Lemma ring_slot_ne h l i : i < l → l < n → (h + l) mod n ≠ (h + i) mod n.
Proof.
  intros Hi Hn Heq. pose proof (Nat.div_mod_eq (h + l) n). pose proof (Nat.div_mod_eq (h + i) n). rewrite Heq in *.
  destruct (Nat.le_gt_cases ((h + l) / n) ((h + i) / n)); nia.
Qed.

Lemma ring_store buf head tail len x : ring_wf buf head tail len → len < n →
  ring_wf (<[tail := x]> buf) head ((tail + 1) mod n) (len + 1) ∧ tail < length buf ∧
  ring (<[tail := x]> buf) head (len + 1) = ring buf head len ++ [x].
Proof.
  intros [Hb Hh Hl Ht] Hf. assert (tail < length buf) as Hlt by (rewrite Hb, Ht; apply Nat.mod_upper_bound; lia).
  split; [split|split; [done|]].
  - by rewrite length_insert.
  - done.
  - lia.
  - rewrite Ht, Nat.Div0.add_mod_idemp_l. f_equal. lia.
  - unfold ring. rewrite seq_app, fmap_app. f_equal.
    + apply list_fmap_ext. intros i y [-> Hy]%lookup_seq. rewrite list_lookup_total_insert_ne; [done|]. rewrite Ht. by apply ring_slot_ne.
    + cbn [fmap list_fmap seq Nat.add]. rewrite <- Ht. by rewrite list_lookup_total_insert_eq.
Qed.

Lemma ring_take buf head tail len : ring_wf buf head tail (S len) →
  ∃ x, buf !! head = Some x ∧ ring_wf buf ((head + 1) mod n) tail len ∧
    ring buf head (S len) = x :: ring buf ((head + 1) mod n) len.
Proof.
  intros [Hb Hh Hl Ht]. destruct (lookup_lt_is_Some_2 buf head) as [x Hx]; [lia|]. exists x. split; [done|]. split; [split|].
  - done.
  - apply Nat.mod_upper_bound. lia.
  - lia.
  - rewrite Ht, Nat.Div0.add_mod_idemp_l. f_equal. lia.
  - unfold ring. cbn [seq fmap list_fmap]. rewrite Nat.add_0_r, (Nat.mod_small head) by done. rewrite (list_lookup_total_correct _ _ _ Hx). f_equal.
    rewrite <- fmap_S_seq, <- list_fmap_compose. apply list_fmap_ext. intros i z _. cbn [compose].
    rewrite Nat.Div0.add_mod_idemp_l. do 2 f_equal. lia.
Qed.
End ring.

(** ** Weakest preconditions

    [wp m Q R s]: run from [s], [m] does not panic, and establishes [Q] of its
    result or, when it returns an error, [R] of the final state. *)
Section wp.
Context {E S : Type}.
Implicit Types (R : S → Prop) (s : S).

Definition wp {A} (m : M E S A) (Q : A → S → Prop) R s : Prop :=
  match m s with
  | (Ok a, s') => Q a s'
  | (Err _, s') => R s'
  | (Panic, _) => False
  end.

Lemma wp_bind {A B} (m : M E S A) (f : A → M E S B) Q R s :
  wp m (λ a s', wp (f a) Q R s') R s → wp (m ≫= f) Q R s.
Proof. unfold wp, mbind, M_bind. by destruct (m s) as [[]]. Qed.

Lemma wp_mono {A} (m : M E S A) (Q Q' : A → S → Prop) R R' s :
  wp m Q R s → (∀ a s', Q a s' → Q' a s') → (∀ s', R s' → R' s') → wp m Q' R' s.
Proof. unfold wp. destruct (m s) as [[]]; auto. Qed.

Lemma wp_for {A} (l : list A) (f : A → M E S ()) (I R : S → Prop) s :
  I s → (∀ x s, x ∈ l → I s → wp (f x) (λ _, I) R s) → wp (m_for l f) (λ _, I) R s.
Proof.
  revert s. induction l as [|x l IH]; intros s Hs Hf; simpl; [done|].
  apply wp_bind. eapply wp_mono; [apply Hf; [left|done]| |done].
  intros [] s' Hs'. apply IH; [done|]. intros. apply Hf; [by right|done].
Qed.
End wp.

(** ** Sequences of labelled steps *)
Inductive lsteps {S L : Type} (R : S → L → S → Prop) : S → list L → S → Prop :=
| LS_nil s : lsteps R s [] s
| LS_cons s1 l s2 ls s3 : R s1 l s2 → lsteps R s2 ls s3 → lsteps R s1 (l :: ls) s3.

(** A simulation step by step is one of every sequence. *)
Lemma lsteps_sim {S A L : Type} (R : S → L → S → Prop) (Q : A → L → A → Prop) (I : S → A → Prop) :
  (∀ s a l s', I s a → R s l s' → ∃ a', Q a l a' ∧ I s' a') →
  ∀ s a ls s', I s a → lsteps R s ls s' → ∃ a', lsteps Q a ls a' ∧ I s' a'.
Proof.
  intros Hsim s a ls s' HI Hs. revert a HI. induction Hs as [s|s1 l s2 ls s3 H12 _ IH]; intros a HI.
  - exists a. split; [constructor|done].
  - destruct (Hsim _ _ _ _ HI H12) as (a2 & Ha2 & HI2). destruct (IH a2 HI2) as (a3 & Ha3 & HI3). exists a3. split; [by econstructor|done].
Qed.
