(* ===== verification/Params.v ===== *)
(** * Kernel parameters and file types

    The limits of [kernel/src/param.rs] and the file types of
    [kernel/src/stat.rs]. *)

From stdpp Require Import base tactics numbers.
From S2P Require Import Prelude.

Definition NCPU : nat := 8.
Definition NPROC : nat := 16.
Definition NOFILE : nat := 16.
Definition NFILE : nat := 100.
Definition NINODE : nat := 50.
Definition NDEV : nat := 10.
Definition ROOTDEV : Z := 1.
Definition MAXARG : nat := 32.
Definition MAXOPBLOCKS : nat := 10.
Definition LOGSIZE : nat := MAXOPBLOCKS * 3.
Definition NBUF : nat := MAXOPBLOCKS * 3.
Definition FSSIZE : Z := 200000.
Definition MAXPATH : nat := 128.
Definition NSHM : nat := 32.
Definition NSEM : nat := 64.

(** [pub enum FileType]. *)
Inductive FileType := FT_Empty | FT_Dir | FT_File | FT_Device | FT_Symlink | FT_Socket.

Global Instance FileType_eq_dec : EqDecision FileType.
Proof. solve_decision. Defined.

(** The [#[repr(u16)]] discriminants. *)
Definition filetype_as_u16 (t : FileType) : Z :=
  match t with
  | FT_Empty => 0 | FT_Dir => 1 | FT_File => 2 | FT_Device => 3 | FT_Symlink => 4 | FT_Socket => 5
  end.
