(* ===== verification/Errors.v ===== *)
(** * Kernel errors and the system-call return convention

    [Error], [as_str] and [from_isize] of [kernel/src/error.rs]: the error
    type shared by the kernel and the user library, its discriminants and the
    decoding used on the user side of a system call. *)

From stdpp Require Import base tactics numbers strings.
From S2P Require Import Prelude.
Local Open Scope Z_scope.

(** [pub enum Error], with the discriminants of its [#[repr(isize)]]. *)
Inductive Error :=
| Uncategorized | ResourceBusy | NotFound | OutOfMemory | BadVirtAddr
| StorageFull | TooManyLinks | NoSuchProcess | WouldBlock | NoBufferSpace
| NoChildProcesses | Interrupted | BadFileDescriptor | FileDescriptorTooLarge | FileTooLarge
| AlreadyExists | IsADirectory | NotADirectory | CrossesDevices | PermissionDenied
| DirectoryNotEmpty | FileTableOverflow | InvalidArgument | NoSuchNode | BrokenPipe
| ExecFileFormatError | ArgumentListTooLong | Utf8Error | WriteZero | NotConnected.

Global Instance Error_eq_dec : EqDecision Error.
Proof. solve_decision. Defined.

(** The cast [err as isize]. *)
Definition err_as_isize (e : Error) : Z :=
  match e with
  | Uncategorized => 0 | ResourceBusy => -2 | NotFound => -3
  | OutOfMemory => -4 | BadVirtAddr => -5 | StorageFull => -6
  | TooManyLinks => -7 | NoSuchProcess => -8 | WouldBlock => -9
  | NoBufferSpace => -10 | NoChildProcesses => -11 | Interrupted => -12
  | BadFileDescriptor => -13 | FileDescriptorTooLarge => -14 | FileTooLarge => -15
  | AlreadyExists => -16 | IsADirectory => -17 | NotADirectory => -18
  | CrossesDevices => -19 | PermissionDenied => -20 | DirectoryNotEmpty => -21
  | FileTableOverflow => -22 | InvalidArgument => -23 | NoSuchNode => -24
  | BrokenPipe => -25 | ExecFileFormatError => -26 | ArgumentListTooLong => -27
  | Utf8Error => -28 | WriteZero => -29 | NotConnected => -30
  end.

(** [Error::from_isize]. *)
Definition from_isize (code : Z) : Error :=
  match code with
  | -2 => ResourceBusy | -3 => NotFound | -4 => OutOfMemory
  | -5 => BadVirtAddr | -6 => StorageFull | -7 => TooManyLinks
  | -8 => NoSuchProcess | -9 => WouldBlock | -10 => NoBufferSpace
  | -11 => NoChildProcesses | -12 => Interrupted | -13 => BadFileDescriptor
  | -14 => FileDescriptorTooLarge | -15 => FileTooLarge | -16 => AlreadyExists
  | -17 => IsADirectory | -18 => NotADirectory | -19 => CrossesDevices
  | -20 => PermissionDenied | -21 => DirectoryNotEmpty | -22 => FileTableOverflow
  | -23 => InvalidArgument | -24 => NoSuchNode | -25 => BrokenPipe
  | -26 => ExecFileFormatError | -27 => ArgumentListTooLong | -28 => Utf8Error
  | -29 => WriteZero | -30 => NotConnected
  | _ => Uncategorized
  end.

(** [Error::as_str]. *)
Definition as_str (e : Error) : string :=
  match e with
  | Uncategorized => "uncategorized error"
  | ResourceBusy => "resource busy"
  | NotFound => "entry not found"
  | OutOfMemory => "out of memory"
  | BadVirtAddr => "bad virtual address"
  | StorageFull => "no storage space"
  | TooManyLinks => "too many links"
  | NoSuchProcess => "no such process"
  | WouldBlock => "operation would block"
  | NoBufferSpace => "no buffer space available"
  | NoChildProcesses => "no child processes"
  | Interrupted => "operation interrupted"
  | BadFileDescriptor => "bad file descriptor"
  | FileDescriptorTooLarge => "file descriptor value too large"
  | FileTooLarge => "file too large"
  | AlreadyExists => "entity already exists"
  | IsADirectory => "is a directory"
  | NotADirectory => "not a directory"
  | CrossesDevices => "cross-device link or rename"
  | PermissionDenied => "permission denied"
  | DirectoryNotEmpty => "directory not empty"
  | FileTableOverflow => "inode or file table overflow in system"
  | InvalidArgument => "invalid argument"
  | NoSuchNode => "no such node or address"
  | BrokenPipe => "broken pipe"
  | ExecFileFormatError => "executable file format error"
  | ArgumentListTooLong => "argument list too long"
  | Utf8Error => "slice is not utf8"
  | WriteZero => "write zero"
  | NotConnected => "not connected"
  end.

(** The kernel's [Result<T>]. *)
Abbreviation Result := (outcome Error).

(** ** The error codes are faithful *)

(** No two variants share a discriminant, and decoding an encoded error gives
    the error back. *)
Lemma from_isize_as_isize e : from_isize (err_as_isize e) = e.
Proof. by destruct e. Qed.

Global Instance err_as_isize_inj : Inj (=) (=) err_as_isize.
Proof.
  intros e1 e2 H. by rewrite <-(from_isize_as_isize e1), H, from_isize_as_isize.
Qed.

(** Every error but [Uncategorized] is a small negative number: it can not be
    mistaken for a success value. *)
Lemma err_as_isize_range e : e <> Uncategorized → -30 ≤ err_as_isize e ≤ -2.
Proof. destruct e; simpl; try done; lia. Qed.

(** The messages identify the variant. *)
Lemma as_str_inj e1 e2 : as_str e1 = as_str e2 → e1 = e2.
Proof. destruct e1, e2; try done; intros H; discriminate H. Qed.

#[export] Hint Resolve from_isize_as_isize err_as_isize_range : kernel.
