(* ===== verification/Syscall.v ===== *)
(** * The system-call interface

    The dispatch table of [kernel/src/syscall.rs] ([SysCalls], [TABLE],
    [Fn::call], [syscall]) and the user-side stubs [gen_usys] generates from
    the same table: numbers, handlers and the encoding of results. *)

From Stdlib Require Import Ascii.
From stdpp Require Import base tactics numbers strings list.
From S2P Require Import Prelude Errors.
Local Open Scope Z_scope.

(** [pub enum Fn]: a handler that returns unit, an integer, or never. *)
Inductive FnKind := FnU | FnI | FnN.

(** [pub enum SysCalls]. *)
Inductive SysCalls :=
| SysInvalid | SysFork | SysExit | SysWait | SysPipe | SysRead | SysKill | SysExec
| SysFstat | SysChdir | SysDup | SysGetpid | SysSbrk | SysSleep | SysUptime | SysOpen
| SysWrite | SysMknod | SysUnlink | SysLink | SysMkdir | SysClose | SysDup2 | SysFcntl
| SysNonblock | SysFreepages | SysMMap | SysMunMap | SysClone | SysJoin | SysExtIrqCount | SysKTaskPolls
| SysPoll | SysSelect | SysWaitpid | SysSigaction | SysSigreturn | SysSetitimer | SysShmCreate | SysShmAttach
| SysShmDetach | SysShmDestroy | SysSemCreate | SysSemWait | SysSemTryWait | SysSemPost | SysSemClose | SysFsync
| SysSymlink | SysSocket | SysBind | SysListen | SysAccept | SysConnect | SysSetpgid | SysGetpgrp
| SysSetsid | SysTcgetpgrp | SysTcsetpgrp | SysLogCrash | SysGetnprocs | SysGetnprocsconf | SysKillpg.

(** The cast [s as usize]. *)
Definition syscall_as_usize (s : SysCalls) : Z :=
  match s with
  | SysInvalid => 0 | SysFork => 1 | SysExit => 2 | SysWait => 3 | SysPipe => 4
  | SysRead => 5 | SysKill => 6 | SysExec => 7 | SysFstat => 8 | SysChdir => 9
  | SysDup => 10 | SysGetpid => 11 | SysSbrk => 12 | SysSleep => 13 | SysUptime => 14
  | SysOpen => 15 | SysWrite => 16 | SysMknod => 17 | SysUnlink => 18 | SysLink => 19
  | SysMkdir => 20 | SysClose => 21 | SysDup2 => 22 | SysFcntl => 23 | SysNonblock => 24
  | SysFreepages => 25 | SysMMap => 26 | SysMunMap => 27 | SysClone => 28 | SysJoin => 29
  | SysExtIrqCount => 30 | SysKTaskPolls => 31 | SysPoll => 32 | SysSelect => 33 | SysWaitpid => 34
  | SysSigaction => 35 | SysSigreturn => 36 | SysSetitimer => 37 | SysShmCreate => 38 | SysShmAttach => 39
  | SysShmDetach => 40 | SysShmDestroy => 41 | SysSemCreate => 42 | SysSemWait => 43 | SysSemTryWait => 44
  | SysSemPost => 45 | SysSemClose => 46 | SysFsync => 47 | SysSymlink => 48 | SysSocket => 49
  | SysBind => 50 | SysListen => 51 | SysAccept => 52 | SysConnect => 53 | SysSetpgid => 54
  | SysGetpgrp => 55 | SysSetsid => 56 | SysTcgetpgrp => 57 | SysTcsetpgrp => 58 | SysLogCrash => 59
  | SysGetnprocs => 60 | SysGetnprocsconf => 61 | SysKillpg => 62
  end.

(** [SysCalls::from_usize]. *)
Definition syscall_from_usize (n : Z) : SysCalls :=
  match n with
  | 1 => SysFork | 2 => SysExit | 3 => SysWait | 4 => SysPipe | 5 => SysRead
  | 6 => SysKill | 7 => SysExec | 8 => SysFstat | 9 => SysChdir | 10 => SysDup
  | 11 => SysGetpid | 12 => SysSbrk | 13 => SysSleep | 14 => SysUptime | 15 => SysOpen
  | 16 => SysWrite | 17 => SysMknod | 18 => SysUnlink | 19 => SysLink | 20 => SysMkdir
  | 21 => SysClose | 22 => SysDup2 | 23 => SysFcntl | 24 => SysNonblock | 25 => SysFreepages
  | 26 => SysMMap | 27 => SysMunMap | 28 => SysClone | 29 => SysJoin | 30 => SysExtIrqCount
  | 31 => SysKTaskPolls | 32 => SysPoll | 33 => SysSelect | 34 => SysWaitpid | 35 => SysSigaction
  | 36 => SysSigreturn | 37 => SysSetitimer | 38 => SysShmCreate | 39 => SysShmAttach | 40 => SysShmDetach
  | 41 => SysShmDestroy | 42 => SysSemCreate | 43 => SysSemWait | 44 => SysSemTryWait | 45 => SysSemPost
  | 46 => SysSemClose | 47 => SysFsync | 48 => SysSymlink | 49 => SysSocket | 50 => SysBind
  | 51 => SysListen | 52 => SysAccept | 53 => SysConnect | 54 => SysSetpgid | 55 => SysGetpgrp
  | 56 => SysSetsid | 57 => SysTcgetpgrp | 58 => SysTcsetpgrp | 59 => SysLogCrash | 60 => SysGetnprocs
  | 61 => SysGetnprocsconf | 62 => SysKillpg
  | _ => SysInvalid
  end.

(** The derived [Debug] name of a variant. *)
Definition syscall_debug (s : SysCalls) : string :=
  match s with
  | SysInvalid => "Invalid" | SysFork => "Fork" | SysExit => "Exit" | SysWait => "Wait"
  | SysPipe => "Pipe" | SysRead => "Read" | SysKill => "Kill" | SysExec => "Exec"
  | SysFstat => "Fstat" | SysChdir => "Chdir" | SysDup => "Dup" | SysGetpid => "Getpid"
  | SysSbrk => "Sbrk" | SysSleep => "Sleep" | SysUptime => "Uptime" | SysOpen => "Open"
  | SysWrite => "Write" | SysMknod => "Mknod" | SysUnlink => "Unlink" | SysLink => "Link"
  | SysMkdir => "Mkdir" | SysClose => "Close" | SysDup2 => "Dup2" | SysFcntl => "Fcntl"
  | SysNonblock => "Nonblock" | SysFreepages => "Freepages" | SysMMap => "MMap" | SysMunMap => "MunMap"
  | SysClone => "Clone" | SysJoin => "Join" | SysExtIrqCount => "ExtIrqCount" | SysKTaskPolls => "KTaskPolls"
  | SysPoll => "Poll" | SysSelect => "Select" | SysWaitpid => "Waitpid" | SysSigaction => "Sigaction"
  | SysSigreturn => "Sigreturn" | SysSetitimer => "Setitimer" | SysShmCreate => "ShmCreate" | SysShmAttach => "ShmAttach"
  | SysShmDetach => "ShmDetach" | SysShmDestroy => "ShmDestroy" | SysSemCreate => "SemCreate" | SysSemWait => "SemWait"
  | SysSemTryWait => "SemTryWait" | SysSemPost => "SemPost" | SysSemClose => "SemClose" | SysFsync => "Fsync"
  | SysSymlink => "Symlink" | SysSocket => "Socket" | SysBind => "Bind" | SysListen => "Listen"
  | SysAccept => "Accept" | SysConnect => "Connect" | SysSetpgid => "Setpgid" | SysGetpgrp => "Getpgrp"
  | SysSetsid => "Setsid" | SysTcgetpgrp => "Tcgetpgrp" | SysTcsetpgrp => "Tcsetpgrp" | SysLogCrash => "LogCrash"
  | SysGetnprocs => "Getnprocs" | SysGetnprocsconf => "Getnprocsconf" | SysKillpg => "Killpg"
  end.

(** [SysCalls::TABLE]: for each index the kind of function pointer, the name
    of the handler [Self::name] and the argument list of the user stub. *)
Definition TABLE : list (FnKind * string * string) :=
  [ (FnN, "invalid", "");
    (FnI, "fork", "()");
    (FnN, "exit", "(xstatus: i32)");
    (FnI, "wait", "(xstatus: &mut i32)");
    (FnU, "pipe", "(p: &mut [usize])");
    (FnI, "read", "(fd: usize, buf: &mut [u8])");
    (FnU, "kill", "(pid: usize, sig: usize)");
    (FnI, "exec", "(filename: &str, argv: &[&str], envp: Option<&[Option<&str>]>)");
    (FnU, "fstat", "(fd: usize, st: &mut Stat)");
    (FnU, "chdir", "(dirname: &str)");
    (FnI, "dup", "(fd: usize)");
    (FnI, "getpid", "()");
    (FnI, "sbrk", "(n: usize)");
    (FnU, "sleep", "(n: usize)");
    (FnI, "uptime", "()");
    (FnI, "open", "(filename: &str, flags: usize)");
    (FnI, "write", "(fd: usize, b: &[u8])");
    (FnU, "mknod", "(file: &str, mj: usize, mi: usize)");
    (FnU, "unlink", "(file: &str)");
    (FnU, "link", "(file1: &str, file2: &str)");
    (FnU, "mkdir", "(dir: &str)");
    (FnU, "close", "(fd: usize)");
    (FnI, "dup2", "(src: usize, dst: usize)");
    (FnI, "fcntl", "(fd: usize, cmd: FcntlCmd, arg: usize)");
    (FnI, "nonblock", "(fd: usize, on: usize)");
    (FnI, "freepages", "()");
    (FnI, "mmap", "(addr: usize, len: usize, prot: usize, flags: usize, fd: usize, offset: usize)");
    (FnU, "munmap", "(addr: usize, len: usize)");
    (FnI, "clone", "(fcn: usize, arg1: usize, arg2: usize, stack: usize)");
    (FnI, "join", "(stack: &mut usize)");
    (FnI, "ext_irq_count", "()");
    (FnI, "ktaskpolls", "()");
    (FnI, "poll", "(fds: &mut [poll::PollFd], timeout: isize)");
    (FnI, "select", "(fds: &mut [poll::PollFd], timeout: isize)");
    (FnI, "waitpid", "(pid: isize, xstatus: &mut i32, options: usize)");
    (FnI, "sigaction", "(signum: usize, handler: usize, restorer: usize)");
    (FnU, "sigreturn", "()");
    (FnI, "setitimer", "(initial: usize, interval: usize)");
    (FnI, "shmcreate", "(size: usize)");
    (FnI, "shmattach", "(id: usize, prot: usize)");
    (FnU, "shmdetach", "(addr: usize)");
    (FnU, "shmdestroy", "(id: usize)");
    (FnI, "semcreate", "(value: usize)");
    (FnU, "semwait", "(id: usize)");
    (FnI, "semtrywait", "(id: usize)");
    (FnU, "sempost", "(id: usize)");
    (FnU, "semclose", "(id: usize)");
    (FnU, "fsync", "(fd: usize)");
    (FnU, "symlink", "(target: &str, linkpath: &str)");
    (FnI, "socket", "(domain: usize, stype: usize, protocol: usize)");
    (FnU, "bind", "(fd: usize, path: &str)");
    (FnU, "listen", "(fd: usize, backlog: usize)");
    (FnI, "accept", "(fd: usize)");
    (FnU, "connect", "(fd: usize, path: &str)");
    (FnU, "setpgid", "(pid: usize, pgid: usize)");
    (FnI, "getpgrp", "()");
    (FnI, "setsid", "()");
    (FnI, "tcgetpgrp", "(fd: usize)");
    (FnU, "tcsetpgrp", "(fd: usize, pgid: usize)");
    (FnU, "logcrash", "(stage: usize)");
    (FnI, "getnprocs", "()");
    (FnI, "getnprocsconf", "()");
    (FnU, "killpg", "(pgid: usize, sig: usize)") ].

(** [Fn::call] on the outcome of the handler: unit becomes [0], an integer is
    cast to [isize], an error to its discriminant.  A handler of kind [FnN]
    never returns, a panic halts the kernel: no value is produced. *)
Definition as_isize (u : Z) : Z := if bool_decide (u < 2 ^ 63) then u else u - 2 ^ 64.
Definition as_usize (i : Z) : Z := u64 i.

Definition fn_call (k : FnKind) (r : Result Z) : option Z :=
  match k, r with
  | FnN, _ => None
  | _, Panic => None
  | FnU, Ok _ => Some 0
  | FnI, Ok i => Some (as_isize i)
  | _, Err e => Some (err_as_isize e)
  end.

(** [syscall()]: the value stored in [tf.a0].  The handlers are given by
    [run]; [Sigreturn] leaves [a0] to the restored frame. *)
Definition syscall (run : string → Result Z) (a7 : Z) : option Z :=
  let syscall_id := syscall_from_usize a7 in
  match syscall_id with
  | SysSigreturn => None
  | SysInvalid => Some (as_usize (-1))
  | _ =>
      match TABLE !! Z.to_nat (syscall_as_usize syscall_id) with
      | Some (k, h, _) => as_usize <$> fn_call k (run h)
      | None => None
      end
  end.

(** The body of a generated stub: [a7] is the number, the result register is
    read as [isize] and decoded by the kind of the entry. *)
Definition stub_decode (k : FnKind) (ret : Z) : Result Z :=
  match k with
  | FnI => if 0 <=? ret then Ok (as_usize ret) else Err (from_isize ret)
  | FnU => if ret =? 0 then Ok 0 else Err (from_isize ret)
  | FnN => Panic
  end.

Definition syscall_kind (s : SysCalls) : FnKind :=
  match TABLE !! Z.to_nat (syscall_as_usize s) with Some (k, _, _) => k | None => FnN end.
Definition syscall_handler (s : SysCalls) : string :=
  match TABLE !! Z.to_nat (syscall_as_usize s) with Some (_, h, _) => h | None => "" end.

Definition gen_usys (run : string → Result Z) (s : SysCalls) : option (Result Z) :=
  (λ a0, stub_decode (syscall_kind s) (as_isize a0)) <$> syscall run (syscall_as_usize s).

(** [fn_name]: the stub is named by the lower-case debug name. *)
Definition to_lower (c : ascii) : ascii :=
  let n := nat_of_ascii c in
  if (65 <=? n)%nat && (n <=? 90)%nat then ascii_of_nat (n + 32) else c.
Fixpoint lowercase (s : string) : string :=
  match s with EmptyString => EmptyString | String c s => String (to_lower c) (lowercase s) end.
Definition fn_name (s : SysCalls) : string := lowercase (syscall_debug s).

(** Handler names are snake case, stub names have no separators. *)
Fixpoint drop_underscores (s : string) : string :=
  match s with
  | EmptyString => EmptyString
  | String c s => if ascii_dec c "_" then drop_underscores s else String c (drop_underscores s)
  end.

(** ** The table is consistent *)

(** The numbers decode to the variants they came from. *)
Lemma syscall_from_as_usize s : syscall_from_usize (syscall_as_usize s) = s.
Proof. by destruct s. Qed.

Lemma syscall_kind_handler s :
  ∃ args, TABLE !! Z.to_nat (syscall_as_usize s) = Some (syscall_kind s, syscall_handler s, args).
Proof. destruct s; eexists; reflexivity. Qed.

(** The cast of an [isize] to [usize] and back is the identity. *)
Lemma as_isize_usize i : - 2 ^ 63 ≤ i < 2 ^ 63 → as_isize (as_usize i) = i.
Proof.
  intros Hi. unfold as_isize, as_usize, u64, wrap.
  destruct (decide (0 ≤ i)).
  - rewrite Z.mod_small by lia. rewrite bool_decide_true by lia. done.
  - rewrite <-(Z.mod_add _ 1) by lia. rewrite Z.mod_small by lia.
    rewrite bool_decide_false by lia. lia.
Qed.

Lemma as_usize_small i : 0 ≤ i < 2 ^ 64 → as_usize i = i.
Proof. apply wrap_small. Qed.

(** A dispatched call runs the handler of its table entry. *)
Lemma syscall_dispatch run s :
  s ≠ SysInvalid → s ≠ SysSigreturn →
  syscall run (syscall_as_usize s)
  = as_usize <$> fn_call (syscall_kind s) (run (syscall_handler s)).
Proof.
  intros H1 H2. unfold syscall. rewrite syscall_from_as_usize.
  destruct (syscall_kind_handler s) as [args ->]. by destruct s.
Qed.

(** The results a handler of kind [k] can transmit: integers below [2^63]
    (unit is transmitted as [0]) and every error but [Uncategorized], whose
    discriminant [0] means success. *)
Definition transmissible (k : FnKind) (r : Result Z) : bool :=
  match k, r with
  | FnI, Ok i => (0 <=? i) && (i <? 2 ^ 63)
  | FnU, Ok i => i =? 0
  | FnN, _ | _, Panic => false
  | _, Err e => bool_decide (e ≠ Uncategorized)
  end.

Lemma stub_decode_fn_call k r i :
  transmissible k r = true → fn_call k r = Some i →
  - 2 ^ 63 ≤ i < 2 ^ 63 ∧ stub_decode k i = r.
Proof.
  destruct k, r as [v|e|]; simpl; intros Ht Hi; simplify_eq/=; bool_to_prop.
  - subst v. split; [lia|done].
  - pose proof (err_as_isize_range e Ht). split; [lia|].
    rewrite (proj2 (Z.eqb_neq _ _)) by lia. by rewrite from_isize_as_isize.
  - unfold as_isize. rewrite bool_decide_true by lia. split; [lia|].
    rewrite (proj2 (Z.leb_le _ _)) by lia. rewrite as_usize_small by lia. done.
  - pose proof (err_as_isize_range e Ht). split; [lia|].
    rewrite (proj2 (Z.leb_gt _ _)) by lia. by rewrite from_isize_as_isize.
Qed.

(** What the caller of the stub is told: the two results the convention cannot
    carry turn into others. *)
Definition received (k : FnKind) (r : Result Z) : Result Z :=
  match k, r with
  | FnU, Ok _ | _, Err Uncategorized => Ok 0
  | FnI, Ok i => if i <? 2 ^ 63 then Ok i else Err (from_isize (i - 2 ^ 64))
  | _, _ => r
  end.

(** The handler returns: a [usize] or an error. *)
Definition returns (k : FnKind) (r : Result Z) : Prop :=
  match k, r with FnN, _ | _, Panic => False | FnU, Ok i => i = 0 | FnI, Ok i => 0 ≤ i < 2 ^ 64 | _, Err _ => True end.

Lemma stub_received k r : returns k r →
  ∃ i, fn_call k r = Some i ∧ - 2 ^ 63 ≤ i < 2 ^ 63 ∧ stub_decode k i = received k r.
Proof.
  intros Hr. destruct (transmissible k r) eqn:Ht.
  - assert (∃ i, fn_call k r = Some i) as [i Hi] by (destruct k, r; try done; by eexists).
    exists i. destruct (stub_decode_fn_call _ _ _ Ht Hi) as [H1 ->]. split_and!; [done|lia|lia|].
    destruct k, r as [v|e|]; try done; cbn in Ht |- *; bool_to_prop; [by subst|by destruct e|by rewrite (proj2 (Z.ltb_lt _ _)) by lia|by destruct e].
  - destruct k, r as [v|e|]; try done; cbn in Hr, Ht.
    1: by rewrite (proj2 (Z.eqb_eq _ _)) in Ht.
    1,3: destruct e; try done; exists 0; by split_and!.
    assert (2 ^ 63 ≤ v) by (destruct (Z.ltb_spec v (2 ^ 63)); [rewrite (proj2 (Z.leb_le _ _)) in Ht by lia; done|done]). exists (v - 2 ^ 64). split_and!; [|lia|lia|].
    + cbn [fn_call]. unfold as_isize. by rewrite bool_decide_false by lia.
    + cbn [stub_decode received]. by rewrite (proj2 (Z.leb_gt _ _)), (proj2 (Z.ltb_ge _ _)) by lia.
Qed.

Lemma received_same k r : returns k r → received k r = r ↔ transmissible k r = true.
Proof.
  intros Hr. destruct k, r as [v|e|]; try done; cbn in Hr |- *.
  - subst v. done.
  - by destruct e.
  - destruct (Z.ltb_spec v (2 ^ 63)); [|rewrite andb_false_r; done]. rewrite (proj2 (Z.leb_le _ _)) by lia. done.
  - by destruct e.
Qed.

(** C@: what a system call returns to its caller.  For every call but
    [Invalid] and [Sigreturn] whose handler returns (a [usize] or an error),
    the value goes through [Fn::call], [a0] and the decoding of the generated
    stub.  The caller gets exactly the result of the handler its number
    selects if and only if that is an error other than [Uncategorized], unit,
    or an integer below [2^63].  The two others are misread: [Uncategorized] as
    success, an integer from [2^63] on as an error. *)
Theorem syscall_roundtrip run s :
  s ≠ SysInvalid → s ≠ SysSigreturn → returns (syscall_kind s) (run (syscall_handler s)) →
  gen_usys run s = Some (received (syscall_kind s) (run (syscall_handler s))) ∧
  (gen_usys run s = Some (run (syscall_handler s)) ↔ transmissible (syscall_kind s) (run (syscall_handler s)) = true).
Proof.
  intros H1 H2 Hr. destruct (stub_received _ _ Hr) as (i & Hi & Hrange & Hd).
  assert (gen_usys run s = Some (received (syscall_kind s) (run (syscall_handler s)))) as ->.
  { unfold gen_usys. rewrite syscall_dispatch, Hi by done. cbn. by rewrite as_isize_usize, Hd. }
  split; [done|]. rewrite <- received_same by done. split; [by intros [= ?]|by intros ->].
Qed.

(** A [read] that fails with [BadVirtAddr] and a [write] that returns 7. *)
Definition sample_handlers (h : string) : Result Z :=
  if bool_decide (h = "read") then Err BadVirtAddr else Ok 7.

Lemma syscall_roundtrip_witness :
  gen_usys sample_handlers SysRead = Some (Err BadVirtAddr) ∧
  gen_usys sample_handlers SysWrite = Some (Ok 7).
Proof.
  split.
  - apply (syscall_roundtrip sample_handlers SysRead); [done|done|exact I|vm_compute; reflexivity].
  - apply (syscall_roundtrip sample_handlers SysWrite); [done|done|vm_compute; split; [discriminate|reflexivity]|vm_compute; reflexivity].
Defined.

(** The numbering and the dispatch table agree.  The number of a call
    decodes to that call, it is an index of the table, and the handler of that
    entry is the function the generated stub is named after. *)
Theorem table_handlers s :
  syscall_from_usize (syscall_as_usize s) = s ∧
  is_Some (TABLE !! Z.to_nat (syscall_as_usize s)) ∧
  drop_underscores (syscall_handler s) = fn_name s.
Proof. destruct s; (split; [done|split; [by eexists|vm_compute; reflexivity]]). Qed.
