(* ===== verification/Fcntl.v ===== *)
(** * File-control flags and advisory file locks

    [kernel/src/fcntl.rs]: decoding of the open flags ([OMode::from_usize]),
    the command numbers ([FcntlCmd::from_usize]) and the table of whole-file
    advisory locks behind [F_SETLK]/[F_GETLK] ([LockTable], [set_lock],
    [get_lock], [clear_locks]). *)

From stdpp Require Import base tactics numbers relations list.
From S2P Require Import Prelude Errors.
Local Open Scope Z_scope.

(** ** Open flags *)
Definition O_RDONLY : Z := 0x000.
Definition O_WRONLY : Z := 0x001.
Definition O_RDWR : Z := 0x002.
Definition O_CREATE : Z := 0x200.
Definition O_TRUNC : Z := 0x400.
Definition O_APPEND : Z := 0x800.
Definition O_CLOEXEC : Z := 0x1000.
Definition O_NONBLOCK : Z := 0x2000.
Definition FD_CLOEXEC : Z := 0x1.

(** [pub struct OMode]. *)
Record OMode := mkOMode {
  om_read : bool;
  om_write : bool;
  om_truncate : bool;
  om_create : bool;
  om_append : bool;
  om_cloexec : bool;
  om_nonblock : bool;
}.

Definition OMode_new : OMode := mkOMode false false false false false false false.

(** The builder methods [read], [write], [append], ... of [OMode]. *)
Definition set_read (b : bool) (m : OMode) : OMode :=
  mkOMode b (om_write m) (om_truncate m) (om_create m) (om_append m) (om_cloexec m) (om_nonblock m).
Definition set_write (b : bool) (m : OMode) : OMode :=
  mkOMode (om_read m) b (om_truncate m) (om_create m) (om_append m) (om_cloexec m) (om_nonblock m).
Definition set_truncate (b : bool) (m : OMode) : OMode :=
  mkOMode (om_read m) (om_write m) b (om_create m) (om_append m) (om_cloexec m) (om_nonblock m).
Definition set_create (b : bool) (m : OMode) : OMode :=
  mkOMode (om_read m) (om_write m) (om_truncate m) b (om_append m) (om_cloexec m) (om_nonblock m).
Definition set_append (b : bool) (m : OMode) : OMode :=
  mkOMode (om_read m) (om_write m) (om_truncate m) (om_create m) b (om_cloexec m) (om_nonblock m).
Definition set_cloexec (b : bool) (m : OMode) : OMode :=
  mkOMode (om_read m) (om_write m) (om_truncate m) (om_create m) (om_append m) b (om_nonblock m).
Definition set_nonblock (b : bool) (m : OMode) : OMode :=
  mkOMode (om_read m) (om_write m) (om_truncate m) (om_create m) (om_append m) (om_cloexec m) b.

Definition has_bits (bits mask : Z) : bool := negb (Z.land bits mask =? 0).

(** [OMode::from_usize]. *)
Definition omode_from_usize (bits : Z) : OMode :=
  let mode := OMode_new in
  let mode := set_read (Z.land bits O_WRONLY =? 0) mode in
  let mode := set_write (has_bits bits O_WRONLY || has_bits bits O_RDWR) mode in
  let mode := set_create (has_bits bits O_CREATE) mode in
  let mode := set_truncate (has_bits bits O_TRUNC) mode in
  let mode := set_append (has_bits bits O_APPEND) mode in
  let mode := set_cloexec (has_bits bits O_CLOEXEC) mode in
  set_nonblock (has_bits bits O_NONBLOCK) mode.

Definition is_rdonly (m : OMode) : bool := om_read m && negb (om_write m).

(** [FcntlCmd] and [FcntlCmd::from_usize]. *)
Inductive FcntlCmd :=
| GetFl | SetFl | GetFd | SetFd | SetCloexec | SetNonblock | ClearNonblock | GetLk | SetLk | FcInvalid.

Definition fcntlcmd_as_usize (c : FcntlCmd) : Z :=
  match c with
  | GetFl => 1 | SetFl => 2 | GetFd => 3 | SetFd => 4 | SetCloexec => 5
  | SetNonblock => 6 | ClearNonblock => 7 | GetLk => 8 | SetLk => 9 | FcInvalid => 10
  end.

Definition fcntlcmd_from_usize (bits : Z) : FcntlCmd :=
  match bits with
  | 1 => GetFl | 2 => SetFl | 3 => GetFd | 4 => SetFd | 5 => SetCloexec
  | 6 => SetNonblock | 7 => ClearNonblock | 8 => GetLk | 9 => SetLk | _ => FcInvalid
  end.

(** ** Advisory locks *)
Definition UNLCK : Z := 0.
Definition RDLCK : Z := 1.
Definition WRLCK : Z := 2.

(** [pub struct Flock]. *)
Record Flock := mkFlock {
  l_type : Z;
  l_whence : Z;
  l_start : Z;
  l_len : Z;
  l_pid : Z;
}.

(** [enum LockKind]. *)
Inductive LockKind := LK_Read | LK_Write.

Global Instance LockKind_eq_dec : EqDecision LockKind.
Proof. solve_decision. Defined.

(** [struct LockEntry]. *)
Record LockEntry := mkLockEntry {
  le_dev : Z;
  le_inum : Z;
  le_kind : LockKind;
  le_pid : Z;
}.

Global Instance LockEntry_eq_dec : EqDecision LockEntry.
Proof. solve_decision. Defined.

(** [struct LockTable]: the vector of entries. *)
Abbreviation LockTable := (list LockEntry).

(** The two lock kinds exclude each other unless both are read locks. *)
Definition kinds_conflict (requested held : LockKind) : bool :=
  match requested, held with
  | LK_Read, LK_Write | LK_Write, _ => true
  | _, _ => false
  end.

(** [LockTable::conflict]: the first entry of another process on the same
    file that excludes the requested kind. *)
Fixpoint conflict (entries : LockTable) (dev inum pid : Z) (kind : LockKind) : option LockEntry :=
  match entries with
  | [] => None
  | entry :: rest =>
      if negb (le_dev entry =? dev) || negb (le_inum entry =? inum) || (le_pid entry =? pid)
      then conflict rest dev inum pid kind
      else if kinds_conflict kind (le_kind entry) then Some entry
      else conflict rest dev inum pid kind
  end.

(** The entries [pid] holds on [(dev, inum)]. *)
Definition owned_by (dev inum pid : Z) (entry : LockEntry) : Prop :=
  le_dev entry = dev ∧ le_inum entry = inum ∧ le_pid entry = pid.

Global Instance owned_by_dec dev inum pid entry : Decision (owned_by dev inum pid entry).
Proof. unfold owned_by. apply _. Defined.

(** [LockTable::clear_pid]: [Vec::retain]. *)
Definition clear_pid (entries : LockTable) (dev inum pid : Z) : LockTable :=
  filter (λ entry, ¬ owned_by dev inum pid entry) entries.

(** [lock_kind]. *)
Definition lock_kind (lock_type : Z) : Result (option LockKind) :=
  if lock_type =? UNLCK then Ok None
  else if lock_type =? RDLCK then Ok (Some LK_Read)
  else if lock_type =? WRLCK then Ok (Some LK_Write)
  else Err InvalidArgument.

(** [validate_flock]. *)
Definition validate_flock (lock : Flock) : Result () :=
  if negb (l_whence lock =? 0) || negb (l_start lock =? 0) || negb (l_len lock =? 0)
  then Err InvalidArgument
  else _ ← lock_kind (l_type lock); Ok ().

(** [set_lock], on the table behind [FILE_LOCKS]. *)
Definition set_lock (dev inum pid : Z) (lock : Flock) (entries : LockTable) :
    Result () * LockTable :=
  match validate_flock lock with
  | Ok _ =>
      match lock_kind (l_type lock) with
      | Ok kind =>
          let entries := clear_pid entries dev inum pid in
          match kind with
          | None => (Ok (), entries)
          | Some kind =>
              match conflict entries dev inum pid kind with
              | Some _ => (Err ResourceBusy, entries)
              | None => (Ok (), entries ++ [mkLockEntry dev inum kind pid])
              end
          end
      | Err e => (Err e, entries)
      | Panic => (Panic, entries)
      end
  | Err e => (Err e, entries)
  | Panic => (Panic, entries)
  end.

(** [get_lock]: the lock description is updated in place. *)
Definition set_type_pid (lock : Flock) (t pid : Z) : Flock :=
  mkFlock t (l_whence lock) (l_start lock) (l_len lock) pid.

Definition get_lock (dev inum pid : Z) (lock : Flock) (entries : LockTable) : Result Flock :=
  _ ← validate_flock lock;
  kind ← lock_kind (l_type lock);
  match kind with
  | None => Ok (set_type_pid lock UNLCK 0)
  | Some kind =>
      match conflict entries dev inum pid kind with
      | Some entry =>
          let t := match le_kind entry with LK_Read => RDLCK | LK_Write => WRLCK end in
          Ok (set_type_pid lock t (le_pid entry))
      | None => Ok (set_type_pid lock UNLCK 0)
      end
  end.

(** [clear_locks]: called when a process closes the file. *)
Definition clear_locks (dev inum pid : Z) (entries : LockTable) : LockTable :=
  clear_pid entries dev inum pid.

(** ** What the lock table guarantees *)

(** Two locks on one file are held by different processes and are both read
    locks. *)
Definition compatible (e1 e2 : LockEntry) : Prop :=
  le_dev e1 = le_dev e2 → le_inum e1 = le_inum e2 →
  le_pid e1 ≠ le_pid e2 ∧ le_kind e1 = LK_Read ∧ le_kind e2 = LK_Read.

Inductive locks_ok : LockTable → Prop :=
| locks_ok_nil : locks_ok []
| locks_ok_cons e es : Forall (compatible e) es → locks_ok es → locks_ok (e :: es).

#[export] Hint Constructors locks_ok : kernel.

Lemma compatible_sym e1 e2 : compatible e1 e2 → compatible e2 e1.
Proof. unfold compatible. naive_solver. Qed.

Lemma kinds_conflict_false k1 k2 :
  kinds_conflict k1 k2 = false → k1 = LK_Read ∧ k2 = LK_Read.
Proof. by destruct k1, k2. Qed.

(** [conflict] is the first conflicting entry, so its absence speaks about
    every entry. *)
Lemma conflict_None es dev inum pid kind :
  conflict es dev inum pid kind = None →
  Forall (λ e, le_dev e = dev → le_inum e = inum → le_pid e ≠ pid →
               kind = LK_Read ∧ le_kind e = LK_Read) es.
Proof.
  induction es as [|e es IH]; simpl; [constructor|].
  destruct (negb (le_dev e =? dev) || _ || _) eqn:Hskip; intros H.
  - constructor; [|by apply IH]. intros <- <- Hpid.
    rewrite !Z.eqb_refl in Hskip. simpl in Hskip. by apply Z.eqb_eq in Hskip.
  - destruct (kinds_conflict kind (le_kind e)) eqn:Hk; [done|].
    constructor; [|by apply IH]. intros _ _ _. by apply kinds_conflict_false.
Qed.

Lemma conflict_Some es dev inum pid kind e :
  conflict es dev inum pid kind = Some e →
  e ∈ es ∧ le_dev e = dev ∧ le_inum e = inum ∧ le_pid e ≠ pid ∧
  kinds_conflict kind (le_kind e) = true.
Proof.
  induction es as [|e' es IH]; simpl; [done|].
  destruct (negb (le_dev e' =? dev) || _ || _) eqn:Hskip; intros H.
  - destruct (IH H) as [? ?]. split; [by right|done].
  - destruct (kinds_conflict kind (le_kind e')) eqn:Hk; simplify_eq.
    + bool_to_prop. split_and!; try done. left.
    + destruct (IH H) as [? ?]. split; [by right|done].
Qed.

Lemma elem_of_clear_pid e es dev inum pid :
  e ∈ clear_pid es dev inum pid ↔ e ∈ es ∧ ¬ owned_by dev inum pid e.
Proof. unfold clear_pid. rewrite list_elem_of_filter. naive_solver. Qed.

Lemma locks_ok_clear_pid es dev inum pid :
  locks_ok es → locks_ok (clear_pid es dev inum pid).
Proof.
  induction 1 as [|e es Hall _ IH]; [constructor|].
  unfold clear_pid. rewrite filter_cons. case_decide; [|done].
  constructor; [|done]. apply Forall_forall. intros e' He'.
  apply (Forall_forall (compatible e) es); [done|]. by apply elem_of_clear_pid in He' as [? ?].
Qed.

Lemma locks_ok_snoc es e :
  locks_ok es → Forall (compatible e) es → locks_ok (es ++ [e]).
Proof.
  induction 1 as [|e' es Hall Hok IH]; intros Hnew; simpl.
  - repeat constructor.
  - apply Forall_cons in Hnew as [He Hnew]. constructor; [|by apply IH].
    apply Forall_app. split; [done|]. constructor; [|done]. by apply compatible_sym.
Qed.

Lemma locks_ok_set_lock dev inum pid lock es :
  locks_ok es → locks_ok (set_lock dev inum pid lock es).2.
Proof.
  intros Hok. unfold set_lock.
  destruct (validate_flock lock); [|done..].
  destruct (lock_kind (l_type lock)) as [[kind|]| |]; [|by apply locks_ok_clear_pid|done..].
  destruct (conflict (clear_pid es dev inum pid) _ _ _ _) eqn:Hc; simpl;
    [by apply locks_ok_clear_pid|].
  apply locks_ok_snoc; [by apply locks_ok_clear_pid|].
  apply Forall_forall. intros e He. simpl.
  pose proof (proj1 (Forall_forall _ _) (conflict_None _ _ _ _ _ Hc) e He) as Hfree. simpl in Hfree.
  apply elem_of_clear_pid in He as [_ Hown]. unfold owned_by in Hown.
  intros Hd Hi; simpl in *. destruct (Hfree (eq_sym Hd) (eq_sym Hi)) as [-> ?]; naive_solver.
Qed.

(** A process asks for a lock or releases its locks. *)
Inductive lock_step : LockTable → LockTable → Prop :=
| step_set dev inum pid lock es : lock_step es (set_lock dev inum pid lock es).2
| step_clear dev inum pid es : lock_step es (clear_locks dev inum pid es).

(** C2: mutual exclusion of advisory locks.  In every table reachable from the
    empty one by any sequence of [set_lock] and [clear_locks] calls, two
    entries on the same file belong to different processes and are both read
    locks: a write lock excludes every other lock. *)
Theorem file_locks_exclusive es :
  rtc lock_step [] es → locks_ok es.
Proof.
  intros Hr. cut (locks_ok ([] : LockTable) → locks_ok es); [intros H; apply H; constructor|].
  induction Hr as [|x y z [dev inum pid lock x'|dev inum pid x'] _ IH]; [done|..];
    intros Hok; apply IH.
  - by apply locks_ok_set_lock.
  - by apply locks_ok_clear_pid.
Qed.

Definition rdlock : Flock := mkFlock RDLCK 0 0 0 0.
Definition wrlock : Flock := mkFlock WRLCK 0 0 0 0.

Lemma file_locks_exclusive_witness :
  locks_ok [mkLockEntry 1 7 LK_Read 3; mkLockEntry 1 7 LK_Read 4].
Proof.
  apply file_locks_exclusive.
  eapply rtc_l; [apply (step_set 1 7 3 rdlock)|].
  eapply rtc_l; [apply (step_set 1 7 4 rdlock)|].
  apply rtc_refl.
Defined.

(** What [set_lock] does on every branch.  A malformed request changes
    nothing; an unlock removes the caller's entries; a request that no other
    process's lock excludes replaces the caller's entries by the new lock; an
    excluded request reports [ResourceBusy], and the caller has lost the lock
    it held on the file before the call. *)
Theorem set_lock_spec dev inum pid lock es :
  match validate_flock lock, lock_kind (l_type lock) with
  | Ok _, Ok None =>
      set_lock dev inum pid lock es = (Ok (), clear_pid es dev inum pid)
  | Ok _, Ok (Some kind) =>
      if decide (Exists (λ e, le_dev e = dev ∧ le_inum e = inum ∧ le_pid e ≠ pid ∧
                              kinds_conflict kind (le_kind e) = true) es)
      then set_lock dev inum pid lock es = (Err ResourceBusy, clear_pid es dev inum pid)
      else set_lock dev inum pid lock es
           = (Ok (), clear_pid es dev inum pid ++ [mkLockEntry dev inum kind pid])
  | _, _ => set_lock dev inum pid lock es = (Err InvalidArgument, es)
  end.
Proof.
  unfold set_lock.
  destruct (validate_flock lock) as [u|e|] eqn:Hv.
  - destruct (lock_kind (l_type lock)) as [[kind|]|e|] eqn:Hk.
    2: done.
    + destruct (conflict _ _ _ _ _) as [c|] eqn:Hc.
      * rewrite decide_True; [done|]. apply conflict_Some in Hc as (Hc&?&?&?&?).
        apply Exists_exists. exists c. apply elem_of_clear_pid in Hc as [? ?]. naive_solver.
      * rewrite decide_False; [done|]. intros (e&He&Hd&Hi&Hp&Hkk)%Exists_exists.
        pose proof (proj1 (Forall_forall _ _) (conflict_None _ _ _ _ _ Hc) e) as Hfree.
        destruct Hfree as [-> Hr]; [|done..|by rewrite Hr in Hkk].
        apply elem_of_clear_pid. unfold owned_by. naive_solver.
    + exfalso. unfold validate_flock in Hv. rewrite Hk in Hv. by case_match.
    + exfalso. unfold validate_flock in Hv. rewrite Hk in Hv. by case_match.
  - unfold validate_flock, lock_kind in Hv. repeat case_match; simplify_eq/=; done.
  - unfold validate_flock, lock_kind in Hv. repeat case_match; simplify_eq/=; done.
Qed.

(** A process that holds a read lock and asks for the write lock while another
    process reads loses its read lock. *)
Example set_lock_failed_upgrade :
  set_lock 1 7 3 wrlock [mkLockEntry 1 7 LK_Read 3; mkLockEntry 1 7 LK_Read 4]
  = (Err ResourceBusy, [mkLockEntry 1 7 LK_Read 4]).
Proof. reflexivity. Qed.

(** Clearing the caller's own entries does not change its conflicts. *)
Lemma conflict_clear_pid es dev inum pid kind :
  conflict (clear_pid es dev inum pid) dev inum pid kind = conflict es dev inum pid kind.
Proof.
  unfold clear_pid. induction es as [|e es IH]; [done|]. rewrite filter_cons.
  case_decide as Ho; simpl; rewrite IH; [done|].
  destruct Ho as (<-&<-&<-). by rewrite !Z.eqb_refl.
Qed.

(** [get_lock] predicts [set_lock].  For a well-formed request of a lock,
    [F_GETLK] answers [UNLCK] with pid 0 exactly when [F_SETLK] of the same
    request would be granted; otherwise it names a holder that excludes the
    request. *)
Theorem get_lock_predicts dev inum pid lock es kind :
  lock_kind (l_type lock) = Ok (Some kind) →
  validate_flock lock = Ok () →
  match get_lock dev inum pid lock es with
  | Ok lock' =>
      (l_type lock' = UNLCK ∧ l_pid lock' = 0 ∧ (set_lock dev inum pid lock es).1 = Ok ()) ∨
      ((set_lock dev inum pid lock es).1 = Err ResourceBusy ∧
       ∃ e, e ∈ es ∧ l_pid lock' = le_pid e ∧ le_pid e ≠ pid ∧
            lock_kind (l_type lock') = Ok (Some (le_kind e)) ∧
            kinds_conflict kind (le_kind e) = true)
  | _ => False
  end.
Proof.
  intros Hk Hv. unfold get_lock, set_lock. rewrite Hv; simpl. rewrite Hk; simpl.
  rewrite conflict_clear_pid. destruct (conflict es _ _ _ _) as [e|] eqn:Hc; [|by left].
  right. split; [done|]. apply conflict_Some in Hc as (?&?&?&?&?). exists e.
  split_and!; try done. by destruct (le_kind e).
Qed.
