(* ===== verification/RunQueue.v ===== *)
(** * Per-CPU run queues with work stealing

    [kernel/src/runq.rs]: the ring buffer [RunQueue] of process-table indices,
    one queue per CPU ([RUNQS]), and the scheduler's [runq_pop_or_steal].
    The queue refines a FIFO list; stealing is work conserving. *)

From stdpp Require Import base tactics numbers relations list.
From S2P Require Import Prelude Params Errors.

(** [pub struct RunQueue]. *)
Record RunQueue := mkRunQueue {
  rq_buf : list nat;
  rq_head : nat;
  rq_tail : nat;
  rq_len : nat;
}.

Definition RunQueue_new : RunQueue := mkRunQueue (replicate NPROC 0) 0 0 0.
Definition rq_is_empty (q : RunQueue) : bool := rq_len q =? 0.

(** [RunQueue::push]: two assertions, then the store at [tail]. *)
Definition rq_push (idx : nat) (q : RunQueue) : Result RunQueue :=
  if negb (idx <? NPROC) then Panic
  else if negb (rq_len q <? NPROC) then Panic
  else if negb (rq_tail q <? length (rq_buf q)) then Panic
  else Ok (mkRunQueue (<[rq_tail q := idx]> (rq_buf q)) (rq_head q)
             ((rq_tail q + 1) mod NPROC) (rq_len q + 1)).

(** [RunQueue::pop]. *)
Definition rq_pop (q : RunQueue) : Result (option nat * RunQueue) :=
  if rq_len q =? 0 then Ok (None, q)
  else match rq_buf q !! rq_head q with
       | None => Panic
       | Some idx =>
           Ok (Some idx, mkRunQueue (rq_buf q) ((rq_head q + 1) mod NPROC) (rq_tail q) (rq_len q - 1))
       end.

(** The static state: one queue per CPU and the rotating start of a steal
    scan, an [AtomicUsize]. *)
Record Runqs := mkRunqs {
  RUNQS : list RunQueue;
  STEAL_START : Z;
}.

(** [runq_push_cpu]. *)
Definition runq_push_cpu (cpu idx : nat) (s : Runqs) : Result Runqs :=
  if negb (cpu <? NCPU) then Panic
  else match RUNQS s !! cpu with
       | None => Panic
       | Some q =>
           q' ← rq_push idx q;
           Ok (mkRunqs (<[cpu := q']> (RUNQS s)) (STEAL_START s))
       end.

(** [runq_pop_local]. *)
Definition runq_pop_local (cpu : nat) (s : Runqs) : Result (option nat * Runqs) :=
  if negb (cpu <? NCPU) then Panic
  else match RUNQS s !! cpu with
       | None => Panic
       | Some q =>
           '(r, q') ← rq_pop q;
           Ok (r, mkRunqs (<[cpu := q']> (RUNQS s)) (STEAL_START s))
       end.

(** The loop [for off in 0..NCPU] of [runq_pop_or_steal]. *)
Fixpoint steal_loop (cpu start : nat) (offs : list nat) (s : Runqs) : Result (option nat * Runqs) :=
  match offs with
  | [] => Ok (None, s)
  | off :: offs =>
      let victim := (start + off) mod NCPU in
      if victim =? cpu then steal_loop cpu start offs s
      else '(r, s') ← runq_pop_local victim s;
           match r with
           | Some idx => Ok (Some idx, s')
           | None => steal_loop cpu start offs s'
           end
  end.

(** [runq_pop_or_steal]: [fetch_add] wraps at the width of [usize]. *)
Definition runq_pop_or_steal (cpu : nat) (s : Runqs) : Result (option nat * Runqs) :=
  '(r, s1) ← runq_pop_local cpu s;
  match r with
  | Some idx => Ok (Some idx, s1)
  | None =>
      let start := Z.to_nat (STEAL_START s1 `mod` Z.of_nat NCPU) in
      let s2 := mkRunqs (RUNQS s1) (u64 (STEAL_START s1 + 1)) in
      steal_loop cpu start (seq 0 NCPU) s2
  end.

(** ** The ring buffer is a FIFO queue *)

(** The queued indices, oldest first. *)
Definition contents (q : RunQueue) : list nat := ring NPROC (rq_buf q) (rq_head q) (rq_len q).
Definition rq_wf (q : RunQueue) : Prop := ring_wf NPROC (rq_buf q) (rq_head q) (rq_tail q) (rq_len q).

Lemma rq_wf_new : rq_wf RunQueue_new ∧ contents RunQueue_new = [].
Proof. split; [split; vm_compute; lia|done]. Qed.

Lemma length_contents q : length (contents q) = rq_len q.
Proof. apply length_ring. Qed.

Lemma rq_push_ok idx q :
  rq_wf q → idx < NPROC → rq_len q < NPROC →
  ∃ q', rq_push idx q = Ok q' ∧ rq_wf q' ∧ contents q' = contents q ++ [idx].
Proof.
  intros Hwf Hi Hf. destruct (ring_store _ _ _ _ _ idx Hwf Hf) as (Hwf' & Hlt & Hc). unfold rq_push.
  rewrite !(proj2 (Nat.ltb_lt _ _)) by done. cbn [negb]. by eexists.
Qed.

Lemma rq_pop_ok q :
  rq_wf q →
  match contents q with
  | [] => rq_pop q = Ok (None, q)
  | idx :: rest => ∃ q', rq_pop q = Ok (Some idx, q') ∧ rq_wf q' ∧ contents q' = rest
  end.
Proof.
  unfold rq_wf, contents, rq_pop. intros Hwf. destruct (rq_len q) as [|n] eqn:Hn; [done|].
  destruct (ring_take _ _ _ _ _ Hwf) as (x & Hx & Hwf' & Hc). rewrite Hc, Hx. cbn [Nat.eqb]. rewrite Nat.sub_succ, Nat.sub_0_r. by eexists.
Qed.

(** The abstract queue: a bounded list. *)
Inductive rq_op := OpPush (idx : nat) | OpPop.

Definition spec_step (op : rq_op) (l : list nat) : Result (option nat * list nat) :=
  match op, l with
  | OpPush idx, _ =>
      if bool_decide (idx < NPROC ∧ length l < NPROC) then Ok (None, l ++ [idx]) else Panic
  | OpPop, [] => Ok (None, [])
  | OpPop, idx :: l => Ok (Some idx, l)
  end.

Definition impl_step (op : rq_op) (q : RunQueue) : Result (option nat * RunQueue) :=
  match op with
  | OpPush idx => q' ← rq_push idx q; Ok (None, q')
  | OpPop => rq_pop q
  end.

Fixpoint run_ops {S} (step : rq_op → S → Result (option nat * S)) (ops : list rq_op) (s : S) :
    Result (list (option nat) * S) :=
  match ops with
  | [] => Ok ([], s)
  | op :: ops => '(r, s) ← step op s; '(rs, s) ← run_ops step ops s; Ok (r :: rs, s)
  end.

(** The results of two runs agree: same observations, related final states. *)
Definition sim_result (ri : Result (list (option nat) * RunQueue))
    (rs : Result (list (option nat) * list nat)) : Prop :=
  match ri, rs with
  | Ok (oi, q), Ok (os, l) => oi = os ∧ rq_wf q ∧ contents q = l
  | Panic, Panic => True
  | _, _ => False
  end.

Lemma impl_step_sim op q :
  rq_wf q →
  match impl_step op q, spec_step op (contents q) with
  | Ok (oi, q'), Ok (os, l) => oi = os ∧ rq_wf q' ∧ contents q' = l
  | Panic, Panic => True
  | _, _ => False
  end.
Proof.
  intros Hwf. destruct op as [idx|]; simpl.
  - case_bool_decide as Hd.
    + destruct Hd as [Hi Hl]. rewrite length_contents in Hl.
      destruct (rq_push_ok idx q Hwf Hi Hl) as (q'&Hp&Hwf'&Hc). by rewrite Hp.
    + rewrite length_contents in Hd. unfold rq_push.
      destruct (idx <? NPROC) eqn:E1; simpl; [|done].
      destruct (rq_len q <? NPROC) eqn:E2; simpl; [|done]. bool_to_prop. tauto.
  - pose proof (rq_pop_ok q Hwf) as Hp. destruct (contents q) as [|idx l] eqn:Hc.
    + by rewrite Hp.
    + destruct Hp as (q'&Hp&Hwf'&Hc'). by rewrite Hp.
Qed.

Lemma run_ops_sim ops q :
  rq_wf q → sim_result (run_ops impl_step ops q) (run_ops spec_step ops (contents q)).
Proof.
  revert q. induction ops as [|op ops IH]; intros q Hwf; [by simpl|]. simpl.
  pose proof (impl_step_sim op q Hwf) as Hs.
  destruct (impl_step op q) as [[oi q']| |], (spec_step op (contents q)) as [[os l]| |];
    simpl in *; try done.
  destruct Hs as (<-&Hwf'&<-). specialize (IH q' Hwf').
  destruct (run_ops impl_step ops q') as [[? ?]| |],
    (run_ops spec_step ops (contents q')) as [[? ?]| |]; simpl in *; try done.
  destruct IH as (->&?&?). done.
Qed.

(** The ring buffer implements a bounded FIFO queue.  Any sequence of
    pushes and pops on a new [RunQueue] observes the same results as on a list
    bounded by [NPROC], and panics exactly when the list queue does: on an
    index out of range or a push to a full queue. *)
Theorem runqueue_refines_fifo ops :
  sim_result (run_ops impl_step ops RunQueue_new) (run_ops spec_step ops []).
Proof. destruct rq_wf_new as [Hwf <-]. by apply run_ops_sim. Qed.

(** ** Work stealing *)

Definition runqs_wf (s : Runqs) : Prop :=
  length (RUNQS s) = NCPU ∧ Forall rq_wf (RUNQS s).

(** What CPU [cpu] has queued. *)
Definition queued (s : Runqs) (cpu : nat) : list nat :=
  default [] (contents <$> RUNQS s !! cpu).

(** One process is taken from [victim], everything else stays. *)
Definition takes (s s' : Runqs) (victim idx : nat) : Prop :=
  queued s victim = idx :: queued s' victim ∧
  ∀ c, c ≠ victim → queued s' c = queued s c.

Lemma runqs_lookup s cpu :
  runqs_wf s → cpu < NCPU → ∃ q, RUNQS s !! cpu = Some q ∧ rq_wf q ∧ queued s cpu = contents q.
Proof.
  intros [Hl Hall] Hc. destruct (lookup_lt_is_Some_2 (RUNQS s) cpu) as [q Hq]; [by rewrite Hl|].
  exists q. split; [done|]. split; [by apply (Forall_lookup_1 _ _ _ _ Hall Hq)|].
  unfold queued. by rewrite Hq.
Qed.

Lemma runqs_wf_insert s cpu q n :
  runqs_wf s → rq_wf q → runqs_wf (mkRunqs (<[cpu := q]> (RUNQS s)) n).
Proof.
  intros [Hl Hall] Hq. split; simpl; [by rewrite length_insert|]. by apply Forall_insert.
Qed.

Lemma runq_pop_local_ok s cpu :
  runqs_wf s → cpu < NCPU →
  ∃ r s', runq_pop_local cpu s = Ok (r, s') ∧ runqs_wf s' ∧ STEAL_START s' = STEAL_START s ∧
    match r with
    | Some idx => takes s s' cpu idx
    | None => queued s cpu = [] ∧ RUNQS s' = RUNQS s
    end.
Proof.
  intros Hwf Hc. destruct (runqs_lookup s cpu Hwf Hc) as (q&Hq&Hqwf&Hqd).
  unfold runq_pop_local. rewrite (proj2 (Nat.ltb_lt _ _) Hc), Hq. simpl.
  pose proof (rq_pop_ok q Hqwf) as Hp. destruct (contents q) as [|idx rest] eqn:Hcont.
  - rewrite Hp. simpl. do 2 eexists. split; [done|]. split; [by apply runqs_wf_insert|].
    split; [done|]. split; [done|]. simpl. by apply list_insert_id.
  - destruct Hp as (q'&->&Hwf'&Hc'). simpl. do 2 eexists. split; [done|].
    split; [by apply runqs_wf_insert|]. split; [done|].
    assert (cpu < length (RUNQS s)) by (by apply lookup_lt_Some in Hq).
    split; unfold queued; simpl.
    + rewrite list_lookup_insert_eq by done. rewrite Hq. simpl. by rewrite Hcont, Hc'.
    + intros c Hne. by rewrite list_lookup_insert_ne.
Qed.

Lemma steal_loop_ok cpu start offs s :
  runqs_wf s →
  ∃ r s', steal_loop cpu start offs s = Ok (r, s') ∧ runqs_wf s' ∧
    match r with
    | Some idx => ∃ victim, victim ≠ cpu ∧ victim < NCPU ∧ takes s s' victim idx
    | None => RUNQS s' = RUNQS s ∧
        ∀ off, off ∈ offs → (start + off) mod NCPU ≠ cpu → queued s ((start + off) mod NCPU) = []
    end.
Proof.
  revert s. induction offs as [|off offs IH]; intros s Hwf; simpl.
  - do 2 eexists. split; [done|]. split; [done|]. split; [done|]. intros off Ho. by inversion Ho.
  - destruct ((start + off) mod NCPU =? cpu) eqn:Hv; bool_to_prop.
    + destruct (IH s Hwf) as (r&s'&->&Hwf'&Hr). do 2 eexists. split; [done|]. split; [done|].
      destruct r; [done|]. destruct Hr as [? Hr]. split; [done|].
      intros o [->|Ho]%elem_of_cons Hne; [done|by apply Hr].
    + assert ((start + off) mod NCPU < NCPU) as Hlt by (by apply Nat.mod_upper_bound).
      destruct (runq_pop_local_ok s _ Hwf Hlt) as (r&s1&->&Hwf1&_&Hr). simpl.
      destruct r as [idx|]; [by eauto 10|]. destruct Hr as [Hempty Hsame].
      assert (Hqs : ∀ c, queued s1 c = queued s c) by (intros c; unfold queued; by rewrite Hsame).
      destruct (IH s1 Hwf1) as (r2&s2&->&Hwf2&Hr2). do 2 eexists. split; [done|]. split; [done|].
      destruct r2 as [idx|].
      * destruct Hr2 as (v&?&?&Ht1&Ht2). exists v. split; [done|]. split; [done|].
        split; [by rewrite <-Hqs|]. intros c Hne. by rewrite Ht2, Hqs.
      * destruct Hr2 as [Hs2 Hr2]. split; [by rewrite Hs2|].
        intros o [->|Ho]%elem_of_cons Hne; [done|]. rewrite <-Hqs. by apply Hr2.
Qed.

(** The steal scan visits every CPU. *)
Lemma steal_scan_covers start c :
  c < NCPU → ∃ off, off ∈ seq 0 NCPU ∧ (start + off) mod NCPU = c.
Proof.
  intros Hc. exists ((c + (NCPU - start mod NCPU)) mod NCPU). split.
  - apply elem_of_seq. split; [lia|]. by apply Nat.mod_upper_bound.
  - rewrite Nat.Div0.add_mod_idemp_r. assert (NCPU = 8) as E by done. rewrite E in *.
    pose proof (Nat.div_mod_eq start 8). pose proof (Nat.mod_upper_bound start 8 ltac:(lia)).
    replace (start + (c + (8 - start mod 8))) with (c + (start / 8 + 1) * 8) by lia.
    rewrite Nat.Div0.mod_add. by apply Nat.mod_small.
Qed.

Lemma pop_or_steal_ok cpu s :
  runqs_wf s → cpu < NCPU →
  ∃ r s', runq_pop_or_steal cpu s = Ok (r, s') ∧ runqs_wf s' ∧
    match r with
    | Some idx => ∃ victim, victim < NCPU ∧ takes s s' victim idx ∧
                            (queued s cpu ≠ [] → victim = cpu)
    | None => (∀ c, c < NCPU → queued s c = []) ∧ ∀ c, queued s' c = queued s c
    end.
Proof.
  intros Hwf Hc. unfold runq_pop_or_steal.
  destruct (runq_pop_local_ok s cpu Hwf Hc) as (r&s1&->&Hwf1&_&Hr). bind_simpl.
  destruct r as [idx|]; [by eauto 10|]. destruct Hr as [Hempty Hsame].
  set (start := Z.to_nat _). set (s2 := mkRunqs _ _).
  assert (Hqs : ∀ c, queued s2 c = queued s c) by (intros c; unfold queued; simpl; by rewrite Hsame).
  destruct (steal_loop_ok cpu start (seq 0 NCPU) s2 Hwf1) as (r&s'&->&Hwf'&Hr).
  do 2 eexists. split; [done|]. split; [done|]. destruct r as [idx|].
  - destruct Hr as (v&?&?&Ht1&Ht2). exists v. split; [done|]. split; [|done].
    split; [by rewrite <-Hqs|]. intros c Hne. by rewrite Ht2, Hqs.
  - destruct Hr as [Hs' Hr]. split; [|by intros c; rewrite <-Hqs; unfold queued; rewrite Hs']. intros c Hlt. destruct (decide (c = cpu)) as [->|Hne]; [done|].
    destruct (steal_scan_covers start c Hlt) as (off&Hoff&<-). rewrite <-Hqs. by apply Hr.
Qed.

(** [runq_pop_or_steal] never panics on well-formed queues and is work
    conserving.  It takes the oldest process of its own queue when there is
    one, otherwise the oldest process of some other CPU's queue, leaving all
    the rest in place; it returns [None] only if every queue is empty. *)
Theorem pop_or_steal_work_conserving cpu s :
  runqs_wf s → cpu < NCPU →
  ∃ r s', runq_pop_or_steal cpu s = Ok (r, s') ∧ runqs_wf s' ∧
    match r with
    | Some idx => ∃ victim, victim < NCPU ∧ takes s s' victim idx ∧
                            (queued s cpu ≠ [] → victim = cpu)
    | None => ∀ c, c < NCPU → queued s c = []
    end.
Proof.
  intros Hwf Hc. destruct (pop_or_steal_ok cpu s Hwf Hc) as (r&s'&?&?&Hr).
  exists r, s'. destruct r; [done|]. by destruct Hr.
Qed.

(** Two processes wait on CPU 2, CPU 5 is idle and steals. *)
Definition demo_runqs : Runqs :=
  let q := match rq_push 3 RunQueue_new with Ok q => q | _ => RunQueue_new end in
  let q := match rq_push 9 q with Ok q => q | _ => q end in
  mkRunqs (<[2 := q]> (replicate NCPU RunQueue_new)) 0.

(** ** The capacity assertion *)

(** The assertion "runq full" can not fire.  While the process-table
    indices in a queue are distinct and the pushed one is not among them, a
    queue has room, so [rq_push] succeeds. *)
Lemma push_has_room idx q :
  rq_wf q → idx < NPROC → Forall (λ i, i < NPROC) (contents q) →
  NoDup (contents q) → idx ∉ contents q →
  ∃ q', rq_push idx q = Ok q' ∧ rq_wf q' ∧ contents q' = contents q ++ [idx].
Proof.
  intros Hwf Hi Hall Hnd Hni. apply rq_push_ok; [done..|].
  rewrite <-length_contents.
  assert (length (idx :: contents q) ≤ length (seq 0 NPROC)) as Hle; [|by rewrite length_seq in Hle].
  apply submseteq_length, NoDup_submseteq; [by constructor|].
  intros x [->|Hx]%elem_of_cons; apply elem_of_seq; [lia|].
  pose proof (proj1 (Forall_forall _ _) Hall x Hx). simpl in *. lia.
Qed.
