(* ===== verification/UserMem.v ===== *)
(** * Access to the caller's memory

    The file layer moves bytes with [either_copyin] and [either_copyout]
    ([kernel/src/proc.rs]), which read and write user memory through the
    caller's page table or kernel memory directly.  Components that copy are
    written against the class [UserMem]; [UserMemLaws] states what they may
    rely on.  The instance [FlatMem] is kernel memory, the
    [VirtAddr::Kernel] branch of the two functions. *)

From stdpp Require Import base tactics numbers gmap list.
From S2P Require Import Prelude Errors.
Local Open Scope Z_scope.

Class UserMem (Mem : Type) := {
  copyin : Mem → Z → nat → Result (list Z);
  copyout : Mem → Z → list Z → Result () * Mem;
  (** The [n] bytes at the address can be written. *)
  writable : Mem → Z → nat → Prop;
}.

Definition PGSIZE : Z := 4096.

Class UserMemLaws (Mem : Type) `{UserMem Mem} := {
  (** A read returns as many bytes as asked for. *)
  copyin_length m a n bs : copyin m a n = Ok bs → length bs = n;
  (** A read can be split. *)
  copyin_app m a n1 n2 bs1 bs2 :
    copyin m a n1 = Ok bs1 → copyin m (a + Z.of_nat n1) n2 = Ok bs2 →
    copyin m a (n1 + n2) = Ok (bs1 ++ bs2);
  copyin_prefix m a n1 n2 bs :
    copyin m a (n1 + n2) = Ok bs →
    copyin m a n1 = Ok (take n1 bs) ∧ copyin m (a + Z.of_nat n1) n2 = Ok (drop n1 bs);
  (** A successful write is read back; bytes outside the range keep their
      value. *)
  copyout_copyin m a bs m' :
    copyout m a bs = (Ok (), m') → copyin m' a (length bs) = Ok bs;
  copyout_frame m a bs m' b n cs :
    copyout m a bs = (Ok (), m') → copyin m b n = Ok cs →
    b + Z.of_nat n ≤ a ∨ a + Z.of_nat (length bs) ≤ b →
    copyin m' b n = Ok cs;
  (** Writing less than a page to writable memory succeeds and leaves what
      was writable writable. *)
  copyout_ok m a bs :
    writable m a (length bs) → Z.of_nat (length bs) < PGSIZE →
    ∃ m', copyout m a bs = (Ok (), m');
  copyout_writable m a bs m' b n :
    copyout m a bs = (Ok (), m') → writable m b n → writable m' b n;
  writable_sub m a n b k :
    writable m a n → a ≤ b → b + Z.of_nat k ≤ a + Z.of_nat n → writable m b k;
}.

(** The bytes [l] can be read at [a]; nothing is read of an empty slice. *)
Section mem_holds.
Context {Mem : Type} `{UserMemLaws Mem}.

Definition mem_holds (m : Mem) (a : Z) (l : list Z) : Prop := l = [] ∨ copyin m a (length l) = Ok l.

Lemma mem_holds_copyout m a l m' : copyout m a l = (Ok (), m') → mem_holds m' a l.
Proof. intros Hc. right. by eapply copyout_copyin. Qed.

Lemma mem_holds_frame m a l m' b bs :
  mem_holds m a l → copyout m b bs = (Ok (), m') → a + Z.of_nat (length l) ≤ b ∨ b + Z.of_nat (length bs) ≤ a → mem_holds m' a l.
Proof. intros [->|Hl] Hc Hd; [by left|]. right. by eapply copyout_frame. Qed.

(** Writing a byte after the bytes. *)
Lemma mem_holds_snoc m a l b m' :
  mem_holds m a l → copyout m (a + Z.of_nat (length l)) [b] = (Ok (), m') → mem_holds m' a (l ++ [b]).
Proof.
  intros [->|Hl] Hc; right.
  - rewrite Z.add_0_r in Hc. apply (copyout_copyin _ _ _ _ Hc).
  - rewrite length_app. apply copyin_app.
    + eapply copyout_frame; [done..|]. lia.
    + apply (copyout_copyin _ _ _ _ Hc).
Qed.

(** A part of what is held. *)
Lemma mem_holds_sub m a l1 l2 l3 : mem_holds m a (l1 ++ l2 ++ l3) → mem_holds m (a + Z.of_nat (length l1)) l2.
Proof.
  intros [Hn|Hc]; [left; by apply app_eq_nil in Hn as [_ [-> _]%app_eq_nil]|]. right.
  rewrite !length_app in Hc. apply copyin_prefix in Hc as [_ Hc]. apply copyin_prefix in Hc as [Hc _].
  rewrite Hc, drop_app_length, take_app_length. done.
Qed.
End mem_holds.

(** ** Kernel memory *)

(** A byte-addressed memory; an address without a byte is not mapped, and
    touching it is a fault of the kernel. *)
Abbreviation FlatMem := (gmap Z Z).

Fixpoint flat_read (m : FlatMem) (a : Z) (n : nat) : Result (list Z) :=
  match n with
  | O => Ok []
  | S n => match m !! a with
           | Some b => bs ← flat_read m (a + 1) n; Ok (b :: bs)
           | None => Panic
           end
  end.

Fixpoint flat_write (m : FlatMem) (a : Z) (bs : list Z) : Result () * FlatMem :=
  match bs with
  | [] => (Ok (), m)
  | b :: bs => match m !! a with
               | Some _ => flat_write (<[a := b]> m) (a + 1) bs
               | None => (Panic, m)
               end
  end.

(** [either_copyout] on a kernel address asserts that less than a page is
    copied. *)
Definition kernel_copyin (m : FlatMem) (a : Z) (n : nat) : Result (list Z) := flat_read m a n.
Definition kernel_copyout (m : FlatMem) (a : Z) (bs : list Z) : Result () * FlatMem :=
  if Z.of_nat (length bs) <? PGSIZE then flat_write m a bs else (Panic, m).

Definition flat_writable (m : FlatMem) (a : Z) (n : nat) : Prop :=
  ∀ i, a ≤ i < a + Z.of_nat n → is_Some (m !! i).

Global Instance flat_user_mem : UserMem FlatMem :=
  { copyin := kernel_copyin; copyout := kernel_copyout; writable := flat_writable }.

Lemma flat_read_length m a n bs : flat_read m a n = Ok bs → length bs = n.
Proof.
  revert a bs. induction n as [|n IH]; intros a bs; simpl; [intros [= <-]; done|].
  destruct (m !! a); [|done]. simpl. destruct (flat_read m (a + 1) n) eqn:E; simpl; [|done..].
  intros [= <-]. simpl. f_equal. by eapply IH.
Qed.

Lemma flat_read_app m a n1 n2 :
  flat_read m a (n1 + n2)
  = (bs1 ← flat_read m a n1; bs2 ← flat_read m (a + Z.of_nat n1) n2; Ok (bs1 ++ bs2)).
Proof.
  revert a. induction n1 as [|n1 IH]; intros a; simpl.
  - rewrite Z.add_0_r. by destruct (flat_read m a n2).
  - destruct (m !! a); [|done]. rewrite IH.
    replace (a + 1 + Z.of_nat n1) with (a + Z.of_nat (S n1)) by lia.
    destruct (flat_read m (a + 1) n1); [|done..]. simpl.
    by destruct (flat_read m _ n2).
Qed.

Lemma flat_read_insert_ne m a b n c :
  (c < a ∨ a + Z.of_nat n ≤ c) → flat_read (<[c := b]> m) a n = flat_read m a n.
Proof.
  revert a. induction n as [|n IH]; intros a Hc; simpl; [done|].
  rewrite lookup_insert_ne by lia. rewrite IH by lia. done.
Qed.

Lemma flat_write_below m a bs m' c :
  flat_write m a bs = (Ok (), m') → c < a → m' !! c = m !! c.
Proof.
  revert m a. induction bs as [|b bs IH]; intros m a; simpl; [intros [= ->]; done|].
  destruct (m !! a); [|done]. intros Hw Hc. rewrite (IH _ _ Hw) by lia.
  by rewrite lookup_insert_ne by lia.
Qed.

Lemma flat_write_read m a bs m' :
  flat_write m a bs = (Ok (), m') → flat_read m' a (length bs) = Ok bs.
Proof.
  revert m a. induction bs as [|b bs IH]; intros m a; simpl; [intros [= ->]; done|].
  destruct (m !! a); [|done]. intros Hw.
  rewrite (flat_write_below _ _ _ _ a Hw), lookup_insert_eq by lia. by rewrite (IH _ _ Hw).
Qed.

Lemma flat_write_frame m a bs m' b n :
  flat_write m a bs = (Ok (), m') →
  b + Z.of_nat n ≤ a ∨ a + Z.of_nat (length bs) ≤ b →
  flat_read m' b n = flat_read m b n.
Proof.
  revert m a. induction bs as [|x bs IH]; intros m a; simpl; [intros [= ->]; done|].
  destruct (m !! a); [|done]. intros Hw Hd.
  rewrite (IH _ _ Hw) by lia. apply flat_read_insert_ne. lia.
Qed.

Lemma flat_write_ok m a bs :
  flat_writable m a (length bs) → ∃ m', flat_write m a bs = (Ok (), m').
Proof.
  revert m a. induction bs as [|b bs IH]; intros m a Hw; simpl; [by eexists|].
  destruct (Hw a) as [x Hx]; [simpl; lia|]. rewrite Hx. apply IH.
  intros i Hi. destruct (decide (i = a)) as [->|]; [rewrite lookup_insert_eq; by eexists|].
  rewrite lookup_insert_ne by done. apply Hw. simpl. lia.
Qed.

Lemma flat_write_writable m a bs m' b n :
  flat_write m a bs = (Ok (), m') → flat_writable m b n → flat_writable m' b n.
Proof.
  revert m a. induction bs as [|x bs IH]; intros m a; simpl; [by intros [= ->]|].
  destruct (m !! a); [|done]. intros Hw Hwr. apply (IH _ _ Hw). intros i Hi.
  destruct (decide (i = a)) as [->|]; [rewrite lookup_insert_eq; by eexists|].
  rewrite lookup_insert_ne by done. by apply Hwr.
Qed.

Global Instance flat_user_mem_laws : UserMemLaws FlatMem.
Proof.
  split; simpl; unfold kernel_copyin, kernel_copyout.
  - apply flat_read_length.
  - intros m a n1 n2 bs1 bs2 H1 H2. by rewrite flat_read_app, H1, H2.
  - intros m a n1 n2 bs H. rewrite flat_read_app in H.
    destruct (flat_read m a n1) as [bs1| |] eqn:H1; simpl in H; [|done..].
    destruct (flat_read m (a + Z.of_nat n1) n2) as [bs2| |] eqn:H2; simpl in H; [|done..].
    injection H as <-. apply flat_read_length in H1.
    rewrite take_app_length', drop_app_length' by done. done.
  - intros m a bs m'. case_match; [|done]. apply flat_write_read.
  - intros m a bs m' b n cs. case_match; [|done]. intros Hw Hr Hd.
    by rewrite (flat_write_frame _ _ _ _ _ _ Hw Hd).
  - intros m a bs Hw Hl. rewrite (proj2 (Z.ltb_lt _ _) Hl). by apply flat_write_ok.
  - intros m a bs m' b n. case_match; [|done]. apply flat_write_writable.
  - intros m a n b k Hw ? ? i Hi. apply Hw. lia.
Qed.

(** ** User memory *)

(** The memory of a process by the bytes it has mapped: an access that touches
    an unmapped address fails with [BadVirtAddr]. *)
Record ProcMem := mkProcMem { pm_bytes : gmap Z Z }.

Definition proc_copyin (m : ProcMem) (a : Z) (n : nat) : Result (list Z) :=
  match flat_read (pm_bytes m) a n with Ok bs => Ok bs | _ => Err BadVirtAddr end.
Definition proc_copyout (m : ProcMem) (a : Z) (bs : list Z) : Result () * ProcMem :=
  match flat_write (pm_bytes m) a bs with
  | (Ok _, m') => (Ok (), mkProcMem m')
  | (_, _) => (Err BadVirtAddr, m)
  end.

Global Instance proc_user_mem : UserMem ProcMem :=
  { copyin := proc_copyin; copyout := proc_copyout; writable := λ m, flat_writable (pm_bytes m) }.
