(* ===== verification/SemTable.v ===== *)
(** * Counting semaphores

    [kernel/src/semaphore.rs].  Every method runs under the semaphore's own
    mutex, so one call, or one pass of the loop of [wait], is one atomic step.
    [Condvar::wait] releases the mutex and sleeps; the sleeper re-tests the
    condition when it runs again.  [Condvar::notify_all] makes every process
    asleep on the condition runnable; [sem_cond] counts the calls of it, so
    that a sleeper that remembers the count has been woken when the count has
    grown since. *)

From stdpp Require Import base tactics numbers relations gmap list.
From S2P Require Import Prelude Params Errors.
Local Open Scope Z_scope.

(** [struct Semaphore] with its [SemState]. *)
Record Semaphore := mkSemaphore {
  sem_count : Z;
  sem_closed : bool;
  sem_max : Z;
  sem_cond : nat;
}.

(** [Semaphore::new]; [max >= 0] is a debug assertion. *)
Definition sem_new (max : Z) : Semaphore := mkSemaphore max false max 0.

(** [Semaphore::new_with_count]. *)
Definition sem_new_with_count (count max : Z) : Result Semaphore :=
  if (max <? 0) || (count <? 0) || (count >? max) then Err InvalidArgument
  else Ok (mkSemaphore count false max 0).

Definition set_count (s : Semaphore) (c : Z) : Semaphore :=
  mkSemaphore c (sem_closed s) (sem_max s) (sem_cond s).
(** [self.cond.notify_all()]. *)
Definition sem_notify (s : Semaphore) : Semaphore :=
  mkSemaphore (sem_count s) (sem_closed s) (sem_max s) (S (sem_cond s)).

(** One pass of the loop of [Semaphore::wait] for a caller whose [killed] flag
    is given. *)
Definition sem_wait (killed : bool) (s : Semaphore) : blocking Error () * Semaphore :=
  if killed then (Returns (Err Interrupted), s)
  else if sem_closed s then (Returns (Err InvalidArgument), s)
  else if sem_count s =? 0 then (Sleeps, s)
  else (Returns (Ok ()), set_count s (sem_count s - 1)).

(** [Semaphore::try_wait]. *)
Definition sem_try_wait (s : Semaphore) : Result bool * Semaphore :=
  if sem_closed s then (Err InvalidArgument, s)
  else if sem_count s =? 0 then (Ok false, s)
  else (Ok true, set_count s (sem_count s - 1)).

(** [Semaphore::can_wait]. *)
Definition sem_can_wait (s : Semaphore) : Result bool :=
  if sem_closed s then Err InvalidArgument else Ok (sem_count s >? 0).

(** [Semaphore::post]. *)
Definition sem_post (s : Semaphore) : Result () * Semaphore :=
  if sem_closed s then (Err InvalidArgument, s)
  else if sem_count s =? sem_max s then (Err InvalidArgument, s)
  else (Ok (), sem_notify (set_count s (sem_count s + 1))).

(** [Semaphore::close]. *)
Definition sem_close (s : Semaphore) : Semaphore :=
  sem_notify (mkSemaphore (sem_count s) true (sem_max s) (sem_cond s)).

(** ** Invariant and conservation *)

Definition sem_ok (s : Semaphore) : Prop := 0 ≤ sem_count s ≤ sem_max s ≤ ISIZE_MAX.

(** The operations processes perform, with the number of units each one takes
    from the semaphore (a successful post gives one back). *)
Inductive sem_step : Semaphore → Z → Semaphore → Prop :=
| sem_step_wait killed s : (sem_wait killed s).1 = Returns (Ok ()) →
    sem_step s 1 (sem_wait killed s).2
| sem_step_wait_other killed s : (sem_wait killed s).1 ≠ Returns (Ok ()) →
    sem_step s 0 (sem_wait killed s).2
| sem_step_try s : (sem_try_wait s).1 = Ok true → sem_step s 1 (sem_try_wait s).2
| sem_step_try_other s : (sem_try_wait s).1 ≠ Ok true → sem_step s 0 (sem_try_wait s).2
| sem_step_post s : (sem_post s).1 = Ok () → sem_step s (-1) (sem_post s).2
| sem_step_post_err s : (sem_post s).1 ≠ Ok () → sem_step s 0 (sem_post s).2
| sem_step_close s : sem_step s 0 (sem_close s).

Inductive sem_steps : Semaphore → Z → Semaphore → Prop :=
| sem_steps_refl s : sem_steps s 0 s
| sem_steps_l s1 s2 s3 d1 d2 : sem_step s1 d1 s2 → sem_steps s2 d2 s3 → sem_steps s1 (d1 + d2) s3.

#[export] Hint Constructors sem_step sem_steps : kernel.

Lemma sem_step_inv s d s' :
  sem_step s d s' → sem_ok s →
  sem_ok s' ∧ sem_count s' = sem_count s - d ∧ sem_max s' = sem_max s.
Proof.
  unfold sem_ok.
  intros [k s0|k s0|s0|s0|s0|s0|s0];
    unfold sem_wait, sem_try_wait, sem_post, sem_close, sem_notify, set_count in *;
    repeat case_match; simpl; intros; bool_to_prop; simplify_eq/=; try congruence; lia.
Qed.

(** Conservation of permits.  Whatever processes do with a semaphore
    (wait, try, post, close, in any order), the permits taken and not returned
    plus the counter are constant, and the counter stays between [0] and
    [max]: the checked increments and decrements never overflow and at most
    [max] permits are out. *)
Theorem semaphore_conservation s taken s' :
  sem_ok s → sem_steps s taken s' →
  sem_count s' + taken = sem_count s ∧ 0 ≤ sem_count s' ≤ sem_max s ∧ sem_max s' = sem_max s.
Proof.
  intros Hok Hs. revert Hok.
  induction Hs as [s|s1 s2 s3 d1 d2 Hstep _ IH]; intros Hok; [unfold sem_ok in *; lia|].
  destruct (sem_step_inv _ _ _ Hstep Hok) as (Hok2&Hc&Hm). specialize (IH Hok2). lia.
Qed.

(** * Semaphores by number

    The semaphore half of [kernel/src/ipc.rs]: processes name semaphores by
    their slot in a table of [NSEM] entries.  A slot holds an [Arc]; a process
    asleep in [sem_wait] keeps its own [Arc], so the semaphore outlives the slot,
    and the slot can be given to another semaphore meanwhile.  [sems] is the
    store the [Arc]s point into. *)

Record Sems := mkSems { SEM_TABLE : list (option nat); sems : list Semaphore }.

(** [ipc::sem_create]. *)
Definition sem_create (value : Z) (st : Sems) : Result Z * Sems :=
  if value >? ISIZE_MAX then (Err InvalidArgument, st)
  else match sem_new_with_count value ISIZE_MAX with
       | Ok s =>
           match list_find (λ o : option nat, o = None) (SEM_TABLE st) with
           | Some (idx, _) => (Ok (Z.of_nat idx + 1), mkSems (<[idx := Some (length (sems st))]> (SEM_TABLE st)) (sems st ++ [s]))
           | None => (Err NoBufferSpace, st)
           end
       | Err e => (Err e, st)
       | Panic => (Panic, st)
       end.

(** [ipc::sem_get]. *)
Definition sem_get (id : Z) (st : Sems) : Result nat :=
  if id =? 0 then Err InvalidArgument
  else match mjoin (SEM_TABLE st !! Z.to_nat (id - 1)) with Some a => Ok a | None => Err NotFound end.

(** A method of the semaphore behind the [Arc] [a]. *)
Definition on_sem {A} (d : A) (f : Semaphore → A * Semaphore) (a : nat) (st : Sems) : A * Sems :=
  match sems st !! a with
  | Some s => let (r, s') := f s in (r, mkSems (SEM_TABLE st) (<[a := s']> (sems st)))
  | None => (d, st)
  end.

(** A pass of the loop of [Semaphore::wait] by the holder of an [Arc]; the first
    one of [ipc::sem_wait] comes right after [sem_get]. *)
Definition wait_pass (killed : bool) (a : nat) : Sems → blocking Error () * Sems :=
  on_sem (Returns Panic) (sem_wait killed) a.
Definition ipc_sem_wait (killed : bool) (id : Z) (st : Sems) : blocking Error () * Sems :=
  match sem_get id st with Ok a => wait_pass killed a st | Err e => (Returns (Err e), st) | Panic => (Returns Panic, st) end.

(** [ipc::sem_try_wait]. *)
Definition ipc_sem_try_wait (id : Z) (st : Sems) : Result Z * Sems :=
  match sem_get id st with
  | Ok a => let (r, st') := on_sem Panic sem_try_wait a st in
            (match r with Ok b => Ok (Z.b2z b) | Err e => Err e | Panic => Panic end, st')
  | Err e => (Err e, st)
  | Panic => (Panic, st)
  end.

(** [ipc::sem_post]. *)
Definition ipc_sem_post (id : Z) (st : Sems) : Result () * Sems :=
  match sem_get id st with Ok a => on_sem Panic sem_post a st | Err e => (Err e, st) | Panic => (Panic, st) end.

(** [ipc::sem_close]. *)
Definition ipc_sem_close (id : Z) (st : Sems) : Result () * Sems :=
  if id =? 0 then (Err InvalidArgument, st)
  else match SEM_TABLE st !! Z.to_nat (id - 1) with
       | None => (Err InvalidArgument, st)
       | Some None => (Err NotFound, st)
       | Some (Some a) =>
           let (_, st') := on_sem () (λ s, ((), sem_close s)) a st in
           (Ok (), mkSems (<[Z.to_nat (id - 1) := None]> (SEM_TABLE st')) (sems st'))
       end.

Definition Sems_new : Sems := mkSems (replicate NSEM None) [].

(** ** Every history of calls *)

(** The table, and who is asleep: a process in the loop of [sem_wait] holds
    its [Arc] and has seen that many notifications of the semaphore. *)
Record World := mkWorld { w_sems : Sems; w_asleep : gmap nat (nat * nat) }.

(** The calls of the processes; [OPass] is the pass a process makes that was put
    to sleep in [sem_wait] and runs again, woken by the semaphore or by anything
    else.  A process that is asleep makes no other call.  Numbers are [usize]. *)
Inductive SemCall := OCreate (value : Z) | OWait (p : nat) (killed : bool) (id : Z) | OPass (p : nat) (killed : bool) | OTry (id : Z) | OPost (id : Z) | OClose (id : Z).

(** What the caller can tell from the result: a new semaphore with so many
    permits, a permit taken from semaphore [a], one given to it. *)
Inductive Effect := Made (n : Z) | Took (a : nat) (n : Z) | Nothing.

(** After a pass of process [p] on semaphore [a]. *)
Definition after_pass (p a : nat) (r : blocking Error ()) (st : Sems) (w : World) : Effect * World :=
  match r with
  | Sleeps => (Nothing, mkWorld st (<[p := (a, default O (sem_cond <$> sems st !! a))]> (w_asleep w)))
  | Returns r => (match r with Ok _ => Took a 1 | _ => Nothing end, mkWorld st (delete p (w_asleep w)))
  end.

Definition call (op : SemCall) (w : World) : Effect * World :=
  let st := w_sems w in
  match op with
  | OCreate v => let (r, st') := sem_create v st in (match r with Ok _ => Made v | _ => Nothing end, mkWorld st' (w_asleep w))
  | OWait p k id =>
      match w_asleep w !! p with
      | Some _ => (Nothing, w)
      | None => let (r, st') := ipc_sem_wait k id st in
                match sem_get id st with Ok a => after_pass p a r st' w | _ => (Nothing, mkWorld st' (w_asleep w)) end
      end
  | OPass p k =>
      match w_asleep w !! p with
      | Some (a, _) => let (r, st') := wait_pass k a st in after_pass p a r st' w
      | None => (Nothing, w)
      end
  | OTry id => let (r, st') := ipc_sem_try_wait id st in
      (match r, sem_get id st with Ok n, Ok a => Took a n | _, _ => Nothing end, mkWorld st' (w_asleep w))
  | OPost id => let (r, st') := ipc_sem_post id st in
      (match r, sem_get id st with Ok _, Ok a => Took a (-1) | _, _ => Nothing end, mkWorld st' (w_asleep w))
  | OClose id => let (_, st') := ipc_sem_close id st in (Nothing, mkWorld st' (w_asleep w))
  end.

Fixpoint calls (ops : list SemCall) (w : World) : list Effect * World :=
  match ops with
  | [] => ([], w)
  | op :: ops => let (e, w1) := call op w in let (es, w2) := calls ops w1 in (e :: es, w2)
  end.

(** The permits each semaphore should have left, from the effects alone. *)
Definition account (e : Effect) (l : list Z) : list Z :=
  match e with Made n => l ++ [n] | Took a n => alter (λ c, c - n) a l | Nothing => l end.

(** ** The invariant *)

Record sems_ok (st : Sems) (l : list Z) : Prop := {
  so_count : sem_count <$> sems st = l;
  so_range a s : sems st !! a = Some s → sem_ok s ∧ sem_max s = ISIZE_MAX;
  so_slot i a : SEM_TABLE st !! i = Some (Some a) → ∃ s, sems st !! a = Some s ∧ sem_closed s = false;
  so_inj i j a : SEM_TABLE st !! i = Some (Some a) → SEM_TABLE st !! j = Some (Some a) → i = j;
  so_open a s : sems st !! a = Some s → sem_closed s = false → ∃ i, SEM_TABLE st !! i = Some (Some a);
}.

(** Nothing a sleeper waits for has happened to the semaphore. *)
Definition dry (s : Semaphore) : Prop := sem_closed s = false ∧ sem_count s = 0.

(** A sleeper that was not notified since it went to sleep has nothing to wake
    up for. *)
Definition asleep_ok (st : Sems) (sl : gmap nat (nat * nat)) : Prop := ∀ p a v, sl !! p = Some (a, v) →
  ∃ s, sems st !! a = Some s ∧ (v ≤ sem_cond s)%nat ∧ (sem_cond s = v → dry s).

(** Whoever goes from [s] to [s'] notifies the sleepers of what they wait
    for. *)
Definition notifies (s s' : Semaphore) : Prop := (sem_cond s ≤ sem_cond s')%nat ∧ (sem_cond s' = sem_cond s → dry s → dry s').

(** A method that takes [n] permits and neither opens nor closes. *)
Definition takes (n : Z) (s s' : Semaphore) : Prop :=
  sem_count s' = sem_count s - n ∧ sem_closed s' = sem_closed s ∧ sem_max s' = sem_max s ∧ sem_ok s' ∧ notifies s s'.

Lemma asleep_insert st sl a s s' tab : sems st !! a = Some s → notifies s s' → asleep_ok st sl →
  asleep_ok (mkSems tab (<[a := s']> (sems st))) sl.
Proof.
  intros Ha [H1 H2] Hs p b v Hp. destruct (Hs p b v Hp) as (t & Hb & Hv & Hd). cbn. destruct (decide (b = a)) as [->|Hne].
  - exists s'. simplify_eq. rewrite list_lookup_insert_eq by by eapply lookup_lt_Some. split; [done|]. split; [lia|]. intros E. apply H2; [lia|]. apply Hd. lia.
  - exists t. by rewrite list_lookup_insert_ne by done.
Qed.

Lemma takes_ok st l a s s' n :
  sems_ok st l → sems st !! a = Some s → takes n s s' →
  sems_ok (mkSems (SEM_TABLE st) (<[a := s']> (sems st))) (alter (λ c, c - n) a l).
Proof.
  intros [Hc Hr Hs Hi Ho] Ha (T1 & T2 & T3 & T4 & _). constructor; simpl.
  - rewrite <-Hc. rewrite list_fmap_insert. apply list_eq. intros i. destruct (decide (i = a)) as [->|Hne].
    + rewrite list_lookup_insert_eq by (rewrite length_fmap; by eapply lookup_lt_Some).
      rewrite list_lookup_alter_eq, list_lookup_fmap, Ha. simpl. by rewrite T1.
    + by rewrite list_lookup_insert_ne, list_lookup_alter_ne by done.
  - intros b t [(<- & <- & _)|(_ & Hb)]%list_lookup_insert_Some; [|by eapply Hr]. split; [done|]. rewrite T3. by eapply Hr.
  - intros i b Hb. destruct (Hs i b Hb) as (t & Ht & Hcl). destruct (decide (b = a)) as [->|Hne].
    + exists s'. rewrite list_lookup_insert_eq by by eapply lookup_lt_Some. split; [done|]. congruence.
    + exists t. by rewrite list_lookup_insert_ne by done.
  - done.
  - intros b t [(<- & <- & _)|(_ & Hb)]%list_lookup_insert_Some Hcl; [|by eapply Ho]. eapply Ho; [done|]. congruence.
Qed.

Lemma alter_0 a (l : list Z) : alter (λ c, c - 0) a l = l.
Proof. revert a. induction l as [|x l IH]; intros [|a]; simpl; [done..|f_equal; lia|f_equal; apply IH]. Qed.

(** What a method reports is what it takes. *)
Lemma on_sem_ok {A} (d : A) (f : Semaphore → A * Semaphore) (eff : A → Z) st l a :
  sems_ok st l → eff d = 0 → (∀ s, sem_ok s → takes (eff (f s).1) s (f s).2) →
  let (r, st') := on_sem d f a st in sems_ok st' (alter (λ c, c - eff r) a l) ∧ ∀ sl, asleep_ok st sl → asleep_ok st' sl.
Proof.
  intros Hok Hd Hf. unfold on_sem. destruct (sems st !! a) as [s|] eqn:Ha; [|by rewrite Hd, alter_0].
  specialize (Hf s (proj1 (so_range _ _ Hok _ _ Ha))). destruct (f s) as [r s'] eqn:E. split; [by eapply takes_ok|].
  intros sl. eapply asleep_insert; [done|]. by destruct Hf as (_ & _ & _ & _ & ?).
Qed.

Definition wait_eff (r : blocking Error ()) : Z := match r with Returns (Ok _) => 1 | _ => 0 end.
Definition try_eff (r : Result bool) : Z := match r with Ok b => Z.b2z b | _ => 0 end.
Definition post_eff (r : Result ()) : Z := match r with Ok _ => -1 | _ => 0 end.

Ltac sem_method := unfold sem_wait, sem_try_wait, sem_post, sem_notify, set_count, takes, notifies, dry, sem_ok in *; repeat case_match; simpl in *; bool_to_prop; split_and!; intros; destruct_and?; try split; lia || done.

Lemma wait_takes k s : sem_ok s → takes (wait_eff (sem_wait k s).1) s (sem_wait k s).2.
Proof. intros. sem_method. Qed.
Lemma try_takes s : sem_ok s → takes (try_eff (sem_try_wait s).1) s (sem_try_wait s).2.
Proof. intros. sem_method. Qed.
Lemma post_takes s : sem_ok s → takes (post_eff (sem_post s).1) s (sem_post s).2.
Proof. intros. sem_method. Qed.
#[local] Hint Resolve wait_takes try_takes post_takes : core.

Lemma pass_ok k a st l : sems_ok st l →
  let (r, st') := wait_pass k a st in sems_ok st' (alter (λ c, c - wait_eff r) a l) ∧ ∀ sl, asleep_ok st sl → asleep_ok st' sl.
Proof. intros. apply on_sem_ok; auto. Qed.

Lemma create_ok v st l : sems_ok st l →
  let (r, st') := sem_create v st in sems_ok st' (account (match r with Ok _ => Made v | _ => Nothing end) l) ∧ ∀ sl, asleep_ok st sl → asleep_ok st' sl.
Proof.
  intros Hok. unfold sem_create. destruct (v >? ISIZE_MAX); [done|]. unfold sem_new_with_count.
  destruct ((_ || _) || _) eqn:Hv; [done|]. bool_to_prop.
  destruct (list_find _ _) as [[idx o]|] eqn:Hf; [|done]. apply list_find_Some in Hf as (Hidx & -> & _).
  destruct Hok as [Hc Hr Hs Hi Ho]. assert (Hn : ∀ i, SEM_TABLE st !! i = Some (Some (length (sems st))) → False).
  { intros i Hx. destruct (Hs i _ Hx) as (s & Hl & _). apply lookup_lt_Some in Hl. lia. }
  split.
  2:{ intros sl Hsl p a x Hp. destruct (Hsl p a x Hp) as (s & Ha & Hs'). exists s. cbn. by rewrite lookup_app_l by by eapply lookup_lt_Some. }
  constructor; simpl.
  - by rewrite fmap_app, Hc.
  - intros a s [Ha|[_ Ha]]%lookup_app_Some; [by eapply Hr|]. apply list_lookup_singleton_Some in Ha as [_ <-]. unfold sem_ok. simpl. lia.
  - intros i a [(<- & Hx & _)|(_ & Hx)]%list_lookup_insert_Some.
    + injection Hx as <-. eexists. rewrite lookup_app_r, Nat.sub_diag by lia. done.
    + destruct (Hs i a Hx) as (s & Ha & Hcl). exists s. rewrite lookup_app_l by by eapply lookup_lt_Some. done.
  - intros i j a [(<- & Hx & _)|(? & Hx)]%list_lookup_insert_Some [(<- & Hy & _)|(? & Hy)]%list_lookup_insert_Some;
      [done|injection Hx as <-; by destruct (Hn j)|injection Hy as <-; by destruct (Hn i)|by eapply Hi].
  - intros a s [Ha|[Hge Ha]]%lookup_app_Some Hcl.
    + destruct (Ho a s Ha Hcl) as [i Hx]. exists i. rewrite list_lookup_insert_ne by (intros ->; congruence). done.
    + apply list_lookup_singleton_Some in Ha as [? <-]. exists idx. rewrite list_lookup_insert_eq by by eapply lookup_lt_Some.
      do 2 f_equal. lia.
Qed.

Lemma close_ok id st l : sems_ok st l → sems_ok (ipc_sem_close id st).2 l ∧ ∀ sl, asleep_ok st sl → asleep_ok (ipc_sem_close id st).2 sl.
Proof.
  intros Hok. unfold ipc_sem_close. case_match; [done|]. destruct (SEM_TABLE st !! Z.to_nat (id - 1)) as [[a|]|] eqn:Hx; [|done..].
  destruct Hok as [Hc Hr Hs Hi Ho]. destruct (Hs _ _ Hx) as (s & Ha & Hcl). unfold on_sem. rewrite Ha. split.
  2:{ intros sl. eapply asleep_insert; [done|]. split; cbn; lia. }
  constructor; simpl.
  - rewrite <-Hc, list_fmap_insert. apply list_insert_id. rewrite list_lookup_fmap, Ha. done.
  - intros b t [(<- & <- & _)|(_ & Hb)]%list_lookup_insert_Some; [|by eapply Hr]. apply (Hr a s Ha).
  - intros i b [(_ & ? & _)|(Hne & Hb)]%list_lookup_insert_Some; [done|]. destruct (Hs i b Hb) as (t & Ht & Htc).
    exists t. rewrite list_lookup_insert_ne by (intros ->; by apply Hne, (Hi _ _ b)). done.
  - intros i j b [(_ & ? & _)|(_ & Hb)]%list_lookup_insert_Some [(_ & ? & _)|(_ & Hb')]%list_lookup_insert_Some; [done..|by eapply Hi].
  - intros b t [(<- & <- & _)|(Hne & Hb)]%list_lookup_insert_Some Htc; [done|]. destruct (Ho b t Hb Htc) as [i Hbi]. exists i.
    rewrite list_lookup_insert_ne; [done|]. intros <-. congruence.
Qed.

Lemma get_slot id st a : sem_get id st = Ok a → SEM_TABLE st !! Z.to_nat (id - 1) = Some (Some a).
Proof. unfold sem_get. case_match; [done|]. destruct (SEM_TABLE st !! _) as [[b|]|]; simpl; congruence. Qed.

Definition world_ok (w : World) (l : list Z) : Prop := sems_ok (w_sems w) l ∧ asleep_ok (w_sems w) (w_asleep w).

(** A pass that sleeps leaves a semaphore with nothing to take. *)
Lemma after_pass_ok p k a w l : world_ok w l → is_Some (sems (w_sems w) !! a) →
  let (r, st') := wait_pass k a (w_sems w) in let (e, w') := after_pass p a r st' w in world_ok w' (account e l).
Proof.
  intros [Hok Hsl] [s Ha]. pose proof (pass_ok k a (w_sems w) l Hok) as H. destruct (wait_pass k a (w_sems w)) as [r st'] eqn:E.
  destruct H as [H1 H2]. specialize (H2 _ Hsl). unfold after_pass. destruct r as [r|]; cbn in H1.
  - destruct r as [[]|e|]; cbn in *; rewrite ?alter_0 in H1; (split; [done|]; cbn; intros q b v [_ Hq]%lookup_delete_Some; by eapply H2).
  - rewrite alter_0 in H1. split; [done|]. cbn. intros q b v [[<- [= <- <-]]|[_ Hq]]%lookup_insert_Some; [|by eapply H2].
    unfold wait_pass, on_sem in E. rewrite Ha in E. unfold sem_wait in E. destruct k; [done|]. destruct (sem_closed s) eqn:Ec; [done|].
    destruct (sem_count s =? 0) eqn:En; [|done]. injection E as <-. bool_to_prop. exists s. cbn. rewrite list_insert_id by done. rewrite Ha. done.
Qed.

Lemma get_some id st l a : sems_ok st l → sem_get id st = Ok a → is_Some (sems st !! a).
Proof. intros Hok Hg%get_slot. destruct (so_slot _ _ Hok _ _ Hg) as (s & ? & _). by exists s. Qed.

Lemma call_ok op w l : world_ok w l → world_ok (call op w).2 (account (call op w).1 l).
Proof.
  intros [Hok Hsl]. destruct op as [v|p k id|p k|id|id|id]; simpl.
  - pose proof (create_ok v (w_sems w) l Hok) as H. destruct (sem_create v (w_sems w)) as [r st']. destruct H as [H1 H2]. split; [done|by apply H2].
  - destruct (w_asleep w !! p) eqn:Ep; [by split|]. unfold ipc_sem_wait. destruct (sem_get id (w_sems w)) as [a|e|] eqn:Eg; [|by split..].
    pose proof (after_pass_ok p k a w l (conj Hok Hsl) (get_some _ _ _ _ Hok Eg)) as H. destruct (wait_pass k a (w_sems w)) as [r st']. by destruct (after_pass p a r st' w).
  - destruct (w_asleep w !! p) as [[a v]|] eqn:Ep; [|by split]. destruct (Hsl p a v Ep) as (s & Ha & _).
    pose proof (after_pass_ok p k a w l (conj Hok Hsl) (mk_is_Some _ _ Ha)) as H. destruct (wait_pass k a (w_sems w)) as [r st']. by destruct (after_pass p a r st' w).
  - unfold ipc_sem_try_wait. destruct (sem_get id (w_sems w)) as [a|e|]; [|by split..].
    pose proof (on_sem_ok Panic sem_try_wait try_eff (w_sems w) l a Hok eq_refl try_takes) as H.
    destruct (on_sem _ _ _ _) as [[b|e|] st']; simpl in *; rewrite ?alter_0 in H; destruct H as [H1 H2]; (split; [done|by apply H2]).
  - unfold ipc_sem_post. destruct (sem_get id (w_sems w)) as [a|e|]; [|by split..].
    pose proof (on_sem_ok Panic sem_post post_eff (w_sems w) l a Hok eq_refl post_takes) as H.
    destruct (on_sem _ _ _ _) as [[b|e|] st']; simpl in *; rewrite ?alter_0 in H; destruct H as [H1 H2]; (split; [done|by apply H2]).
  - pose proof (close_ok id (w_sems w) l Hok) as H. destruct (ipc_sem_close id (w_sems w)) as [r st']. destruct H as [H1 H2]. split; [done|by apply H2].
Qed.

Lemma calls_ok ops : ∀ w l, world_ok w l → world_ok (calls ops w).2 (foldl (λ l e, account e l) l (calls ops w).1).
Proof.
  induction ops as [|op ops IH]; intros w l Hok; [done|]. simpl. pose proof (call_ok op w l Hok) as H1.
  destruct (call op w) as [e w1]. specialize (IH w1 _ H1). by destruct (calls ops w1) as [es w2].
Qed.

Definition World_new : World := mkWorld Sems_new ∅.

Lemma Sems_new_ok : sems_ok Sems_new [].
Proof. constructor; unfold Sems_new, SEM_TABLE, sems; try done; [intros i a [? _]%lookup_replicate|intros i j a [? _]%lookup_replicate]; done. Qed.

(** C@: Semaphores by number, over every history of [sem_create], [sem_wait],
    [sem_try_wait], [sem_post] and [sem_close] calls, sleepers' later passes
    included: permits are neither created nor lost (the counts are exactly
    those the callers can compute from their results) and the counters never
    leave their range; two numbers never name one semaphore, and the number of
    an open semaphore names it until it is closed, whatever happens to other
    slots.  No wake-up is lost: a process asleep in [sem_wait] whose semaphore
    has been closed, or has a permit, was notified since it went to sleep; and
    when it runs, in the first case it gets an error, also when the number
    already names a new semaphore, and in the second it takes the permit. *)
Theorem semaphore_table_correct ops :
  let (es, w) := calls ops World_new in
  let st := w_sems w in
  (sem_count <$> sems st = foldl (λ l e, account e l) [] es) ∧
  (∀ a s, sems st !! a = Some s → 0 ≤ sem_count s ≤ ISIZE_MAX) ∧
  (∀ id id' a, 0 < id → 0 < id' → sem_get id st = Ok a → sem_get id' st = Ok a → id = id') ∧
  (∀ a s, sems st !! a = Some s → sem_closed s = false ↔ ∃ id, 0 < id ∧ sem_get id st = Ok a) ∧
  (∀ p a v, w_asleep w !! p = Some (a, v) → ∃ s, sems st !! a = Some s ∧
     (sem_closed s = true ∨ 0 < sem_count s → (v < sem_cond s)%nat) ∧
     (∀ k, sem_closed s = true → (wait_pass k a st).1 = Returns (Err (if k then Interrupted else InvalidArgument))) ∧
     (sem_closed s = false → 0 < sem_count s → (call (OPass p false) w).1 = Took a 1)).
Proof.
  pose proof (calls_ok ops World_new [] (conj Sems_new_ok (λ p a v H, match lookup_empty_Some _ _ H with end))) as Hok.
  destruct (calls ops World_new) as [es w]. simpl in Hok. destruct Hok as [[Hc Hr Hs Hi Ho] Hsl]. split_and!.
  - done.
  - intros a s Ha. destruct (Hr a s Ha) as [Hs1 Hs2]. unfold sem_ok in Hs1. lia.
  - intros id id' a H1 H2 Hg%get_slot Hg'%get_slot. pose proof (Hi _ _ _ Hg Hg'). lia.
  - intros a s Ha. split.
    + intros Hcl. destruct (Ho a s Ha Hcl) as [i Hx]. exists (Z.of_nat i + 1). split; [lia|]. unfold sem_get.
      rewrite (proj2 (Z.eqb_neq _ _)) by lia. replace (Z.to_nat (Z.of_nat i + 1 - 1)) with i by lia. by rewrite Hx.
    + intros (id & _ & Hg%get_slot). destruct (Hs _ _ Hg) as (t & Ht & Htc). congruence.
  - intros p a v Hp. destruct (Hsl p a v Hp) as (s & Ha & Hv & Hd). exists s. split_and!; [done|..].
    + intros Hw. destruct (decide (sem_cond s = v)) as [E|E]; [|lia]. destruct (Hd E). destruct Hw; [congruence|lia].
    + intros k Hcl. unfold wait_pass, on_sem. rewrite Ha. unfold sem_wait. destruct k; [done|]. by rewrite Hcl.
    + intros Hcl Hcnt. cbn. rewrite Hp. unfold wait_pass, on_sem. rewrite Ha. unfold sem_wait. by rewrite Hcl, (proj2 (Z.eqb_neq _ _)) by lia.
Qed.

(** A sleeper whose semaphore is closed and whose number is given away. *)
Example closed_under_sleeper :
  let ops := [OCreate 0; OWait 7 false 1; OClose 1; OCreate 5; OPass 7 false; OTry 1] in
  calls ops World_new = ([Made 0; Nothing; Nothing; Made 5; Nothing; Took 1 1],
    mkWorld (mkSems (Some 1%nat :: replicate 63 None) [mkSemaphore 0 true ISIZE_MAX 1; mkSemaphore 4 false ISIZE_MAX 0]) ∅).
Proof. vm_compute. reflexivity. Qed.
