(* ===== verification/Mpmc.v ===== *)
(** * Bounded multi-producer channels

    [kernel/src/mpmc.rs]: [SyncSender]/[Receiver] over a semaphore that counts
    the free slots and a mutex-protected [LinkedList].  [send] takes a permit
    and then, in a second critical section, appends; [recv] pops and posts in
    one critical section.  Both halves are separate steps here, so the
    theorems hold for every interleaving of senders and receivers. *)

From stdpp Require Import base tactics numbers relations list.
From S2P Require Import Prelude Errors SemTable.
Local Open Scope Z_scope.

(** What a sender and a receiver share: [sem], [buf], [scnt], [rcnt]. *)
Record Chan (T : Type) := mkChan {
  ch_sem : Semaphore;
  ch_buf : list T;
  ch_scnt : Z;
  ch_rcnt : Z;
}.
Arguments mkChan {T} _ _ _ _.
Arguments ch_sem {T} _.
Arguments ch_buf {T} _.
Arguments ch_scnt {T} _.
Arguments ch_rcnt {T} _.

Section mpmc.
Context {T : Type}.
Implicit Types (c : Chan T) (data : T).

Definition set_sem c (s : Semaphore) : Chan T := mkChan s (ch_buf c) (ch_scnt c) (ch_rcnt c).
Definition set_buf c (b : list T) : Chan T := mkChan (ch_sem c) b (ch_scnt c) (ch_rcnt c).

(** [sync_channel]. *)
Definition sync_channel (max : Z) : Chan T := mkChan (sem_new max) [] 1 1.

(** [SyncSender::clone] and [Receiver::clone]. *)
Definition sender_clone c : Chan T := mkChan (ch_sem c) (ch_buf c) (u64 (ch_scnt c + 1)) (ch_rcnt c).
Definition receiver_clone c : Chan T := mkChan (ch_sem c) (ch_buf c) (ch_scnt c) (u64 (ch_rcnt c + 1)).

(** [Drop for SyncSender] and [Drop for Receiver]: the last receiver closes
    the semaphore. *)
Definition sender_drop c : Chan T := mkChan (ch_sem c) (ch_buf c) (u64 (ch_scnt c - 1)) (ch_rcnt c).
Definition receiver_drop c : Chan T :=
  let sem := if ch_rcnt c =? 1 then sem_close (ch_sem c) else ch_sem c in
  mkChan sem (ch_buf c) (ch_scnt c) (u64 (ch_rcnt c - 1)).

(** First half of [send]: [self.sem.wait()?]. *)
Definition send_acquire (killed : bool) c : blocking Error () * Chan T :=
  let '(r, s) := sem_wait killed (ch_sem c) in (r, set_sem c s).

(** Second half of [send] and [try_send]: append under the buffer lock. *)
Definition send_push data c : Chan T := set_buf c (ch_buf c ++ [data]).

(** [SyncSender::send], when no other thread runs between its two halves. *)
Definition send (killed : bool) data c : blocking Error () * Chan T :=
  match send_acquire killed c with
  | (Returns (Ok ()), c') => (Returns (Ok ()), send_push data c')
  | (r, c') => (r, c')
  end.

(** First half of [try_send]: [self.sem.try_wait()?]. *)
Definition try_acquire c : Result () * Chan T :=
  match sem_try_wait (ch_sem c) with
  | (Err e, s) => (Err e, set_sem c s)
  | (Panic, s) => (Panic, set_sem c s)
  | (Ok false, s) => (Err WouldBlock, set_sem c s)
  | (Ok true, s) => (Ok (), set_sem c s)
  end.

(** [SyncSender::try_send], likewise. *)
Definition try_send data c : Result () * Chan T :=
  match try_acquire c with
  | (Ok (), c') => (Ok (), send_push data c')
  | (r, c') => (r, c')
  end.

Definition can_send c : Result bool := sem_can_wait (ch_sem c).
Definition sender_is_closed c : bool := ch_rcnt c =? 0.

(** One pass of the loop of [Receiver::recv]. *)
Definition recv c : blocking Error T * Chan T :=
  match ch_buf c with
  | data :: rest =>
      match sem_post (ch_sem c) with
      | (Ok (), s) => (Returns (Ok data), mkChan s rest (ch_scnt c) (ch_rcnt c))
      | (Err e, s) => (Returns (Err e), mkChan s rest (ch_scnt c) (ch_rcnt c))
      | (Panic, s) => (Returns Panic, mkChan s rest (ch_scnt c) (ch_rcnt c))
      end
  | [] => if ch_scnt c >? 0 then (Sleeps, c) else (Returns (Err NotConnected), c)
  end.

(** [Receiver::try_recv]. *)
Definition try_recv c : Result T * Chan T :=
  match ch_buf c with
  | data :: rest =>
      match sem_post (ch_sem c) with
      | (Ok (), s) => (Ok data, mkChan s rest (ch_scnt c) (ch_rcnt c))
      | (Err e, s) => (Err e, mkChan s rest (ch_scnt c) (ch_rcnt c))
      | (Panic, s) => (Panic, mkChan s rest (ch_scnt c) (ch_rcnt c))
      end
  | [] => if ch_scnt c >? 0 then (Err WouldBlock, c) else (Err NotConnected, c)
  end.

Definition has_data c : bool := match ch_buf c with [] => false | _ => true end.
Definition receiver_is_closed c : bool := ch_scnt c =? 0.

(** ** All interleavings

    The channel, the data of senders that hold a permit and have not appended
    yet, and two histories: what was appended and what receivers got. *)
Record Sys := mkSys {
  sys_chan : Chan T;
  sys_inflight : list T;
  sys_pushed : list T;
  sys_taken : list T;
}.

(** The caller of [send] or [try_send] is told that its data was sent. *)
Definition sent (r : blocking Error ()) : bool := match r with Returns (Ok ()) => true | _ => false end.

(** The counters are the numbers of live handles, so an operation on a handle
    needs a positive counter.  [fetch_add] does not overflow: the handles live
    in memory.  A sender takes its permit and appends in two steps, or in one
    when nobody comes in between. *)
Inductive sys_step : Sys → Sys → Prop :=
| sys_acquire killed data s :
    0 < ch_scnt (sys_chan s) →
    (send_acquire killed (sys_chan s)).1 = Returns (Ok ()) →
    sys_step s (mkSys (send_acquire killed (sys_chan s)).2 (data :: sys_inflight s)
                  (sys_pushed s) (sys_taken s))
| sys_try_acquire data s :
    0 < ch_scnt (sys_chan s) →
    (try_acquire (sys_chan s)).1 = Ok () →
    sys_step s (mkSys (try_acquire (sys_chan s)).2 (data :: sys_inflight s)
                  (sys_pushed s) (sys_taken s))
| sys_send killed data s :
    0 < ch_scnt (sys_chan s) →
    sys_step s (mkSys (send killed data (sys_chan s)).2 (sys_inflight s)
                  (sys_pushed s ++ if sent (send killed data (sys_chan s)).1 then [data] else []) (sys_taken s))
| sys_try_send data s :
    0 < ch_scnt (sys_chan s) →
    sys_step s (mkSys (try_send data (sys_chan s)).2 (sys_inflight s)
                  (sys_pushed s ++ if sent (Returns (try_send data (sys_chan s)).1) then [data] else []) (sys_taken s))
| sys_push data s fl1 fl2 :
    sys_inflight s = fl1 ++ data :: fl2 →
    sys_step s (mkSys (send_push data (sys_chan s)) (fl1 ++ fl2)
                  (sys_pushed s ++ [data]) (sys_taken s))
| sys_recv data s :
    0 < ch_rcnt (sys_chan s) →
    (recv (sys_chan s)).1 = Returns (Ok data) →
    sys_step s (mkSys (recv (sys_chan s)).2 (sys_inflight s) (sys_pushed s) (sys_taken s ++ [data]))
| sys_recv_other s :
    0 < ch_rcnt (sys_chan s) →
    (∀ data, (recv (sys_chan s)).1 ≠ Returns (Ok data)) →
    sys_step s (mkSys (recv (sys_chan s)).2 (sys_inflight s) (sys_pushed s) (sys_taken s))
| sys_try_recv s :
    0 < ch_rcnt (sys_chan s) →
    sys_step s (mkSys (try_recv (sys_chan s)).2 (sys_inflight s) (sys_pushed s)
                  (sys_taken s ++ match (try_recv (sys_chan s)).1 with Ok data => [data] | _ => [] end))
| sys_sender_clone s :
    0 < ch_scnt (sys_chan s) < USIZE_MAX →
    sys_step s (mkSys (sender_clone (sys_chan s)) (sys_inflight s) (sys_pushed s) (sys_taken s))
| sys_receiver_clone s :
    0 < ch_rcnt (sys_chan s) < USIZE_MAX →
    sys_step s (mkSys (receiver_clone (sys_chan s)) (sys_inflight s) (sys_pushed s) (sys_taken s))
| sys_sender_drop s :
    0 < ch_scnt (sys_chan s) →
    sys_step s (mkSys (sender_drop (sys_chan s)) (sys_inflight s) (sys_pushed s) (sys_taken s))
| sys_receiver_drop s :
    0 < ch_rcnt (sys_chan s) →
    sys_step s (mkSys (receiver_drop (sys_chan s)) (sys_inflight s) (sys_pushed s) (sys_taken s)).

Definition sys_init (max : Z) : Sys := mkSys (sync_channel max) [] [] [].

Record sys_ok (max : Z) (s : Sys) : Prop := {
  ok_sem : 0 ≤ sem_count (ch_sem (sys_chan s)) ∧ sem_max (ch_sem (sys_chan s)) = max;
  ok_counts : 0 ≤ ch_scnt (sys_chan s) ≤ USIZE_MAX ∧ 0 ≤ ch_rcnt (sys_chan s) ≤ USIZE_MAX;
  ok_closed : sem_closed (ch_sem (sys_chan s)) = true ↔ ch_rcnt (sys_chan s) = 0;
  ok_slots : sem_count (ch_sem (sys_chan s)) + Z.of_nat (length (sys_inflight s))
             + Z.of_nat (length (ch_buf (sys_chan s))) = max;
  ok_fifo : sys_taken s ++ ch_buf (sys_chan s) = sys_pushed s;
}.

Lemma sys_ok_init max : 0 ≤ max → sys_ok max (sys_init max).
Proof. intros H. by split; simpl; unfold USIZE_MAX; try lia. Qed.

(** A receiver that finds data gets it: the post can fail neither because the
    semaphore is closed (this receiver is alive) nor because it is full (the
    element popped occupied a slot). *)
Lemma recv_cons max s data rest :
  sys_ok max s → 0 < ch_rcnt (sys_chan s) → ch_buf (sys_chan s) = data :: rest →
  recv (sys_chan s)
  = (Returns (Ok data),
     mkChan (sem_notify (set_count (ch_sem (sys_chan s)) (sem_count (ch_sem (sys_chan s)) + 1))) rest
       (ch_scnt (sys_chan s)) (ch_rcnt (sys_chan s))).
Proof.
  intros [[? Hm] ? Hcl Hs ?] Hr Hb. unfold recv. rewrite Hb.
  unfold sem_post. rewrite Hb in Hs. simpl in Hs.
  destruct (sem_closed (ch_sem (sys_chan s))) eqn:Hc; [apply proj1 in Hcl; lia|].
  by rewrite (proj2 (Z.eqb_neq _ _)) by lia.
Qed.

Lemma recv_nil s :
  ch_buf (sys_chan s) = [] →
  (recv (sys_chan s)).2 = sys_chan s ∧ ∀ data, (recv (sys_chan s)).1 ≠ Returns (Ok data).
Proof. intros Hb. unfold recv. rewrite Hb. by case_match. Qed.

Lemma u64_id z : 0 ≤ z ≤ USIZE_MAX → u64 z = z.
Proof. unfold USIZE_MAX. intros. apply wrap_small. lia. Qed.

(** [try_recv] is [recv] without the sleep. *)
Lemma try_recv_recv c : try_recv c = (match (recv c).1 with Returns r => r | Sleeps => Err WouldBlock end, (recv c).2).
Proof. unfold try_recv, recv. destruct (ch_buf c); [by case_match|]. by destruct (sem_post _) as [[[]| |] ?]. Qed.

(** A sender that gets a permit. *)
Lemma acquire_ok killed c c' : send_acquire killed c = (Returns (Ok ()), c') ∨ try_acquire c = (Ok (), c') →
  c' = set_sem c (set_count (ch_sem c) (sem_count (ch_sem c) - 1)) ∧ sem_closed (ch_sem c) = false ∧ sem_count (ch_sem c) ≠ 0.
Proof. unfold send_acquire, try_acquire, sem_wait, sem_try_wait. intros [E|E]; repeat case_match; simplify_eq/=; bool_to_prop; done. Qed.
Lemma acquire_other killed c : (send_acquire killed c).1 ≠ Returns (Ok ()) → (send_acquire killed c).2 = c.
Proof. unfold send_acquire, sem_wait. destruct c as [sm ? ? ?]; cbn. by destruct killed, (sem_closed sm), (sem_count sm =? 0). Qed.
Lemma try_acquire_other c : (try_acquire c).1 ≠ Ok () → (try_acquire c).2 = c.
Proof. unfold try_acquire, sem_try_wait. destruct c as [sm ? ? ?]; cbn. by destruct (sem_closed sm), (sem_count sm =? 0). Qed.

Lemma acquired_ok max s data : sys_ok max s → sem_closed (ch_sem (sys_chan s)) = false → sem_count (ch_sem (sys_chan s)) ≠ 0 →
  let c := set_sem (sys_chan s) (set_count (ch_sem (sys_chan s)) (sem_count (ch_sem (sys_chan s)) - 1)) in
  sys_ok max (mkSys c (data :: sys_inflight s) (sys_pushed s) (sys_taken s)) ∧
  sys_ok max (mkSys (send_push data c) (sys_inflight s) (sys_pushed s ++ [data]) (sys_taken s)).
Proof.
  intros [[Hs Hm] Hc Hcl Hsl Hf] Ho Hn. split; split; simpl; rewrite ?Ho; try done; try lia; [by rewrite Ho in Hcl..| |].
  - rewrite length_app. simpl. lia.
  - by rewrite app_assoc, Hf.
Qed.

Lemma sys_eta s : mkSys (sys_chan s) (sys_inflight s) (sys_pushed s) (sys_taken s) = s.
Proof. by destruct s. Qed.

Lemma recv_step_ok max s : sys_ok max s → 0 < ch_rcnt (sys_chan s) →
  sys_ok max (mkSys (recv (sys_chan s)).2 (sys_inflight s) (sys_pushed s)
    (sys_taken s ++ match (recv (sys_chan s)).1 with Returns (Ok data) => [data] | _ => [] end)).
Proof.
  intros Hok Hrc. pose proof Hok as [[Hs Hm] Hc Hcl Hsl Hf]. destruct (ch_buf (sys_chan s)) as [|d rest] eqn:Hb.
  - destruct (recv_nil s Hb) as [-> Hr]. destruct (recv (sys_chan s)).1 as [[d| |]|] eqn:E; [by destruct (Hr d)|by rewrite app_nil_r, sys_eta..].
  - rewrite (recv_cons max s d rest) by done. simpl in *. split; simpl; try done; try lia. by rewrite <-app_assoc.
Qed.

Lemma sys_step_ok max s s' : sys_step s s' → sys_ok max s → sys_ok max s'.
Proof.
  intros Hstep Hok. pose proof Hok as [[Hs Hm] Hc Hcl Hsl Hf].
  destruct Hstep as [killed data s Hsc Hr|data s Hsc Hr|killed data s Hsc|data s Hsc|data s fl1 fl2 Hfl|data s Hrc Hr|s Hrc Hr|s Hrc| | | |].
  - destruct (send_acquire killed (sys_chan s)) as [r c'] eqn:E. cbn in Hr |- *. subst r. destruct (acquire_ok killed _ c' (or_introl E)) as (-> & Ho & Hn).
    by apply acquired_ok.
  - destruct (try_acquire (sys_chan s)) as [r c'] eqn:E. cbn in Hr |- *. subst r. destruct (acquire_ok false _ c' (or_intror E)) as (-> & Ho & Hn).
    by apply acquired_ok.
  - unfold send. pose proof (acquire_other killed (sys_chan s)) as Ho. destruct (send_acquire killed (sys_chan s)) as [[[[]|e|]|] c'] eqn:E; cbn in *;
      try (rewrite Ho, app_nil_r, sys_eta by done; done).
    destruct (acquire_ok killed _ c' (or_introl E)) as (-> & Hcd & Hn). by apply acquired_ok.
  - unfold try_send. pose proof (try_acquire_other (sys_chan s)) as Ho. destruct (try_acquire (sys_chan s)) as [[[]|e|] c'] eqn:E; cbn in *;
      try (rewrite Ho, app_nil_r, sys_eta by done; done).
    destruct (acquire_ok false _ c' (or_intror E)) as (-> & Hcd & Hn). by apply acquired_ok.
  - rewrite Hfl, length_app in Hsl. simpl in Hsl.
    split; simpl; try done; [rewrite !length_app; simpl; lia|]. by rewrite app_assoc, Hf.
  - pose proof (recv_step_ok max s Hok Hrc) as H. by rewrite Hr in H.
  - pose proof (recv_step_ok max s Hok Hrc) as H. destruct (recv (sys_chan s)) as [[[d|e|]|] c']; cbn in *; rewrite ?app_nil_r in H; try done. by destruct (Hr d).
  - pose proof (recv_step_ok max s Hok Hrc) as H. rewrite try_recv_recv. cbn [fst snd]. by destruct (recv (sys_chan s)) as [[[d|e|]|] c'].
  - split; simpl; try done. rewrite u64_id by lia. lia.
  - split; simpl; try done; rewrite u64_id by lia; [lia|]. rewrite Hcl. lia.
  - split; simpl; try done. rewrite u64_id by lia. lia.
  - unfold receiver_drop. destruct (ch_rcnt (sys_chan s) =? 1) eqn:E; bool_to_prop;
      split; simpl; rewrite ?u64_id by lia; try done; try lia. rewrite Hcl. lia.
Qed.

Lemma sys_reachable_ok max s : 0 ≤ max → rtc sys_step (sys_init max) s → sys_ok max s.
Proof.
  intros Hmax Hr. pose proof (sys_ok_init max Hmax) as Hok.
  induction Hr; eauto using sys_step_ok.
Qed.

(** C@: a channel is a bounded FIFO for every interleaving of any number of
    blocking and non-blocking senders and receivers, clones and drops
    included.  What receivers got, followed by the buffer, is what was sent,
    in the order of the appends (nothing lost, duplicated or reordered); the
    buffer, with what senders that hold a permit are about to append, never
    exceeds the capacity. *)
Theorem channel_bounded_fifo max s :
  0 ≤ max → rtc sys_step (sys_init max) s →
  sys_taken s ++ ch_buf (sys_chan s) = sys_pushed s ∧
  Z.of_nat (length (ch_buf (sys_chan s)) + length (sys_inflight s)) ≤ max.
Proof.
  intros Hmax Hr. destruct (sys_reachable_ok max s Hmax Hr) as [? ? ? ? ?]. split; [done|lia].
Qed.

(** What a receiver observes.  With data in the buffer [recv] and
    [try_recv] return the oldest element; on an empty buffer they sleep or
    report [WouldBlock] while a sender is left and report [NotConnected] after
    the last one is gone. *)
Theorem receiver_observes max s :
  0 ≤ max → rtc sys_step (sys_init max) s → 0 < ch_rcnt (sys_chan s) →
  match ch_buf (sys_chan s) with
  | data :: _ => (recv (sys_chan s)).1 = Returns (Ok data) ∧ (try_recv (sys_chan s)).1 = Ok data
  | [] => if 0 <? ch_scnt (sys_chan s)
          then (recv (sys_chan s)).1 = Sleeps ∧ (try_recv (sys_chan s)).1 = Err WouldBlock
          else (recv (sys_chan s)).1 = Returns (Err NotConnected) ∧
               (try_recv (sys_chan s)).1 = Err NotConnected
  end.
Proof.
  intros Hmax Hreach Hr. pose proof (sys_reachable_ok max s Hmax Hreach) as Hok.
  destruct (ch_buf (sys_chan s)) as [|data rest] eqn:Hb.
  - unfold recv, try_recv. rewrite Hb, Z.gtb_ltb. by destruct (0 <? ch_scnt (sys_chan s)).
  - pose proof (recv_cons max s data rest Hok Hr Hb) as Hrecv. rewrite Hrecv. split; [done|].
    unfold recv, try_recv in *. rewrite Hb in *. by repeat case_match; simplify_eq/=.
Qed.
End mpmc.

#[export] Hint Resolve sys_ok_init : kernel.

(** Two senders acquire in one order and append in the other; the receiver
    sees the append order.  A third, which does not wait, finds no permit. *)
Definition demo_sys : @Sys Z :=
  mkSys (mkChan (mkSemaphore 1 false 2 1) [10] 1 1) [] [11; 10] [11].

Lemma demo_sys_reachable : rtc sys_step (sys_init 2) demo_sys.
Proof.
  eapply rtc_l; [by eapply (sys_acquire false 10)|].
  eapply rtc_l; [by eapply (sys_acquire false 11)|].
  eapply rtc_l; [by eapply (sys_try_send 12)|].
  eapply rtc_l; [by eapply (sys_push 11 _ [] [10])|].
  eapply rtc_l; [by eapply (sys_push 10 _ [] [])|].
  eapply rtc_l; [by eapply sys_try_recv|].
  apply rtc_refl.
Qed.

Lemma channel_bounded_fifo_witness : [11] ++ [10] = [11; 10] ∧ Z.of_nat 1 ≤ 2.
Proof. apply (channel_bounded_fifo 2 demo_sys); [lia|apply demo_sys_reachable]. Defined.

