(* ===== verification/Pipe.v ===== *)
(** * Pipes

    [kernel/src/pipe.rs]: the loops that move bytes between a process and the
    channel behind a pipe.  A blocking loop runs until it returns or until its
    [send]/[recv] sleeps; a sleeping loop is resumed on the rest of its
    buffer. *)

From stdpp Require Import base tactics numbers gmap list.
From S2P Require Import Prelude Errors UserMem SemTable Mpmc.
Local Open Scope Z_scope.

Definition PIPESIZE : Z := 512.

(** [struct Pipe]: which of the two ends this handle owns. *)
Record Pipe := mkPipe {
  p_rx : bool;
  p_tx : bool;
}.

(** [Pipe::alloc]: the channel and its read and write ends. *)
Definition pipe_channel : Chan Z := sync_channel PIPESIZE.
Definition pipe_ends : Pipe * Pipe := (mkPipe true false, mkPipe false true).

(** A blocking transfer returns, or sleeps after [i] bytes. *)
Inductive io_res := IoDone (r : Result nat) | IoSleep (i : nat).

Section pipe.
Context {Mem : Type} `{UserMem Mem}.
Implicit Types (mem : Mem) (c : Chan Z).

(** [copyin] of one byte. *)
Definition copyin_byte mem (a : Z) : Result Z :=
  bs ← copyin mem a 1; match bs with b :: _ => Ok b | [] => Panic end.

(** The loop of [Pipe::write]: [todo] is [n - i]. *)
Fixpoint write_loop (killed : bool) mem (src : Z) (i todo : nat) c : io_res * Chan Z :=
  match todo with
  | O => (IoDone (Ok i), c)
  | S todo =>
      match copyin_byte mem src with
      | Err e => (IoDone (Err e), c)
      | Panic => (IoDone Panic, c)
      | Ok ch =>
          match send killed ch c with
          | (Returns (Ok ()), c') => write_loop killed mem (src + 1) (i + 1) todo c'
          | (Sleeps, c') => (IoSleep i, c')
          | (Returns _, c') => (IoDone (Ok i), c')
          end
      end
  end.

(** [Pipe::write]. *)
Definition pipe_write (p : Pipe) (killed : bool) mem (src : Z) (n : nat) c : io_res * Chan Z :=
  if p_tx p then write_loop killed mem src 0 n c else (IoDone (Err BrokenPipe), c).

(** [Pipe::write_nonblock]. *)
Fixpoint write_nonblock_loop mem (src : Z) (i todo : nat) c : Result nat * Chan Z :=
  match todo with
  | O => (Ok i, c)
  | S todo =>
      match copyin_byte mem src with
      | Err e => (Err e, c)
      | Panic => (Panic, c)
      | Ok ch =>
          match try_send ch c with
          | (Ok (), c') => write_nonblock_loop mem (src + 1) (i + 1) todo c'
          | (Err WouldBlock, c') => (if (i =? 0)%nat then Err WouldBlock else Ok i, c')
          | (_, c') => (Ok i, c')
          end
      end
  end.

Definition pipe_write_nonblock (p : Pipe) mem (src : Z) (n : nat) c : Result nat * Chan Z :=
  if p_tx p then write_nonblock_loop mem src 0 n c else (Err BrokenPipe, c).

(** The loop of [Pipe::read]. *)
Fixpoint read_loop mem (dst : Z) (i todo : nat) c : io_res * (Mem * Chan Z) :=
  match todo with
  | O => (IoDone (Ok i), (mem, c))
  | S todo =>
      match recv c with
      | (Returns (Ok ch), c') =>
          match copyout mem dst [ch] with
          | (Ok (), mem') => read_loop mem' (dst + 1) (i + 1) todo c'
          | (Err e, mem') => (IoDone (Err e), (mem', c'))
          | (Panic, mem') => (IoDone Panic, (mem', c'))
          end
      | (Sleeps, c') => (IoSleep i, (mem, c'))
      | (Returns _, c') => (IoDone (Ok i), (mem, c'))
      end
  end.

Definition pipe_read (p : Pipe) mem (dst : Z) (n : nat) c : io_res * (Mem * Chan Z) :=
  if p_rx p then read_loop mem dst 0 n c else (IoDone (Err BrokenPipe), (mem, c)).

(** [Pipe::read_nonblock]. *)
Fixpoint read_nonblock_loop mem (dst : Z) (i todo : nat) c : Result nat * (Mem * Chan Z) :=
  match todo with
  | O => (Ok i, (mem, c))
  | S todo =>
      match try_recv c with
      | (Ok ch, c') =>
          match copyout mem dst [ch] with
          | (Ok (), mem') => read_nonblock_loop mem' (dst + 1) (i + 1) todo c'
          | (Err e, mem') => (Err e, (mem', c'))
          | (Panic, mem') => (Panic, (mem', c'))
          end
      | (Err WouldBlock, c') => (if (i =? 0)%nat then Err WouldBlock else Ok i, (mem, c'))
      | (_, c') => (Ok i, (mem, c'))
      end
  end.

Definition pipe_read_nonblock (p : Pipe) mem (dst : Z) (n : nat) c : Result nat * (Mem * Chan Z) :=
  if p_rx p then read_nonblock_loop mem dst 0 n c else (Err BrokenPipe, (mem, c)).

(** [poll_readable], [poll_writable], [poll_read_hup], [poll_write_hup]. *)
Definition poll_readable (p : Pipe) c : Result bool :=
  if p_rx p then Ok (has_data c || receiver_is_closed c) else Err BrokenPipe.
Definition poll_writable (p : Pipe) c : Result bool :=
  if p_tx p then
    if sender_is_closed c then Ok false
    else match can_send c with Ok b => Ok b | _ => Ok false end
  else Err BrokenPipe.
Definition poll_read_hup (p : Pipe) c : Result bool :=
  if p_rx p then Ok (receiver_is_closed c) else Err BrokenPipe.
Definition poll_write_hup (p : Pipe) c : Result bool :=
  if p_tx p then Ok (sender_is_closed c) else Err BrokenPipe.

(** ** A quiescent channel

    No sender is between its two halves: free slots and buffered bytes add up
    to the capacity. *)
Record chan_ok {T} (max : Z) (c : Chan T) : Prop := {
  co_sem : 0 ≤ sem_count (ch_sem c);
  co_max : sem_max (ch_sem c) = max;
  co_open : sem_closed (ch_sem c) = false;
  co_slots : sem_count (ch_sem c) + Z.of_nat (length (ch_buf c)) = max;
}.

Lemma chan_ok_new : chan_ok PIPESIZE pipe_channel.
Proof. by split. Qed.

(** The number of bytes the channel can take. *)
Definition room {T} (c : Chan T) : nat := Z.to_nat (sem_count (ch_sem c)).

Lemma send_ok {T} max (c : Chan T) ch :
  chan_ok max c → (0 < room c)%nat →
  ∃ c' : Chan T, send false ch c = (Returns (Ok ()), c') ∧ try_send ch c = (Ok (), c') ∧
    chan_ok max c' ∧ ch_buf c' = ch_buf c ++ [ch] ∧ room c = S (room c') ∧
    ch_scnt c' = ch_scnt c ∧ ch_rcnt c' = ch_rcnt c.
Proof.
  intros [Hs Hm Ho Hl] Hr. unfold room in *.
  unfold send, send_acquire, sem_wait, try_send, try_acquire, sem_try_wait. rewrite Ho.
  rewrite (proj2 (Z.eqb_neq _ _)) by lia. eexists. split; [done|]. split; [done|].
  simpl. split; [split; simpl; try done; rewrite ?length_app; simpl; lia|].
  split; [done|]. split; [lia|done].
Qed.

Lemma send_full {T} max (c : Chan T) ch :
  chan_ok max c → room c = 0%nat →
  send false ch c = (Sleeps, c) ∧ try_send ch c = (Err WouldBlock, c).
Proof.
  intros [Hs Hm Ho Hl] Hr. unfold room in *.
  unfold send, send_acquire, sem_wait, try_send, try_acquire, sem_try_wait. rewrite Ho.
  rewrite (proj2 (Z.eqb_eq _ _)) by lia. destruct c as [sem b s r]. done.
Qed.

Lemma recv_ok {T} max (c : Chan T) ch rest :
  chan_ok max c → ch_buf c = ch :: rest →
  ∃ c' : Chan T, recv c = (Returns (Ok ch), c') ∧ try_recv c = (Ok ch, c') ∧
    chan_ok max c' ∧ ch_buf c' = rest ∧
    ch_scnt c' = ch_scnt c ∧ ch_rcnt c' = ch_rcnt c.
Proof.
  intros [Hs Hm Ho Hl] Hb. rewrite Hb in Hl. simpl in Hl.
  unfold recv, try_recv, sem_post. rewrite Hb, Ho.
  rewrite (proj2 (Z.eqb_neq _ _)) by lia. eexists. split; [done|]. split; [done|].
  simpl. split; [split; simpl; try done; lia|done].
Qed.

(** ** What one run of a loop transfers *)
Context `{!UserMemLaws Mem}.

Lemma copyin_byte_ok mem a n bs :
  copyin mem a (S n) = Ok bs →
  ∃ b bs', bs = b :: bs' ∧ copyin_byte mem a = Ok b ∧ copyin mem (a + 1) n = Ok bs'.
Proof.
  intros Hc. pose proof (copyin_length _ _ _ _ Hc) as Hl.
  destruct bs as [|b bs]; [done|]. destruct (copyin_prefix mem a 1 n _ Hc) as [H1 H2].
  simpl in H1, H2. rewrite drop_0 in H2. exists b, bs. split; [done|].
  unfold copyin_byte. by rewrite H1.
Qed.

(** A writer puts as many bytes as fit and sleeps if some are left. *)
Lemma write_loop_spec max mem src i todo c bs :
  chan_ok max c → copyin mem src todo = Ok bs →
  ∃ c', write_loop false mem src i todo c
        = (if (todo <=? room c)%nat then IoDone (Ok (i + todo)%nat) else IoSleep (i + room c)%nat, c') ∧
    chan_ok max c' ∧ ch_buf c' = ch_buf c ++ take (room c) bs ∧
    ch_scnt c' = ch_scnt c ∧ ch_rcnt c' = ch_rcnt c.
Proof.
  revert src i c bs. induction todo as [|todo IH]; intros src i c bs Hok Hc; simpl write_loop.
  - pose proof (copyin_length _ _ _ _ Hc) as Hl. destruct bs; [|done].
    exists c. rewrite Nat.add_0_r, take_nil, app_nil_r. done.
  - destruct (copyin_byte_ok _ _ _ _ Hc) as (b&bs'&->&->&Hc').
    destruct (room c) as [|r] eqn:Hr.
    + destruct (send_full _ _ b Hok Hr) as [-> _]. exists c.
      rewrite Nat.add_0_r, app_nil_r. done.
    + destruct (send_ok _ _ b Hok) as (c1&->&_&Hok1&Hb1&Hr1&Hs1&Hc1); [lia|].
      assert (room c1 = r) as Hr' by lia.
      destruct (IH (src + 1) (i + 1)%nat c1 bs' Hok1 Hc') as (c2&->&Hok2&Hb2&Hs2&Hc2).
      exists c2. rewrite Hr' in *. simpl.
      replace (i + 1 + todo)%nat with (i + S todo)%nat by lia.
      replace (i + 1 + r)%nat with (i + S r)%nat by lia. split; [done|].
      split; [done|]. rewrite Hb2, Hb1, <-app_assoc. split; [done|]. by rewrite Hs2, Hc2.
Qed.

Lemma write_nonblock_loop_spec max mem src i todo c bs :
  chan_ok max c → copyin mem src todo = Ok bs →
  ∃ c', write_nonblock_loop mem src i todo c
        = (if (todo <=? room c)%nat then Ok (i + todo)%nat
           else if (i + room c =? 0)%nat then Err WouldBlock else Ok (i + room c)%nat, c') ∧
    chan_ok max c' ∧ ch_buf c' = ch_buf c ++ take (room c) bs ∧
    ch_scnt c' = ch_scnt c ∧ ch_rcnt c' = ch_rcnt c.
Proof.
  revert src i c bs. induction todo as [|todo IH]; intros src i c bs Hok Hc; simpl write_nonblock_loop.
  - pose proof (copyin_length _ _ _ _ Hc) as Hl. destruct bs; [|done].
    exists c. rewrite Nat.add_0_r, take_nil, app_nil_r. done.
  - destruct (copyin_byte_ok _ _ _ _ Hc) as (b&bs'&->&->&Hc').
    destruct (room c) as [|r] eqn:Hr.
    + destruct (send_full _ _ b Hok Hr) as [_ ->]. exists c.
      rewrite Nat.add_0_r, app_nil_r. done.
    + destruct (send_ok _ _ b Hok) as (c1&_&->&Hok1&Hb1&Hr1&Hs1&Hc1); [lia|].
      assert (room c1 = r) as Hr' by lia.
      destruct (IH (src + 1) (i + 1)%nat c1 bs' Hok1 Hc') as (c2&->&Hok2&Hb2&Hs2&Hc2).
      exists c2. rewrite Hr' in *. simpl.
      replace (i + 1 + todo)%nat with (i + S todo)%nat by lia.
      replace (i + 1 + r)%nat with (i + S r)%nat by lia. split; [done|].
      split; [done|]. rewrite Hb2, Hb1, <-app_assoc. split; [done|]. by rewrite Hs2, Hc2.
Qed.

(** Appending one byte behind the [i] bytes already delivered at [dst]. *)
Lemma copyout_snoc mem dst bs b n :
  copyin mem dst (length bs) = Ok bs → writable mem (dst + Z.of_nat (length bs)) (S n) →
  ∃ mem', copyout mem (dst + Z.of_nat (length bs)) [b] = (Ok (), mem') ∧
    copyin mem' dst (length (bs ++ [b])) = Ok (bs ++ [b]) ∧
    writable mem' (dst + Z.of_nat (length bs) + 1) n.
Proof.
  intros Hc Hw.
  destruct (copyout_ok mem (dst + Z.of_nat (length bs)) [b]) as [mem' Ho].
  { eapply writable_sub; [done|lia|simpl; lia]. }
  { simpl; unfold PGSIZE; lia. }
  exists mem'. split; [done|]. split.
  - rewrite length_app. apply copyin_app; [|by apply copyout_copyin in Ho].
    eapply copyout_frame; [done|done|lia].
  - eapply writable_sub; [by eapply copyout_writable|lia|lia].
Qed.

(** A reader gets what is buffered, and sleeps for the rest while a writer is
    left. [done_] are the bytes delivered by earlier runs. *)
Lemma read_loop_spec max mem dst todo c done_ :
  chan_ok max c → copyin mem dst (length done_) = Ok done_ →
  writable mem (dst + Z.of_nat (length done_)) todo →
  let got := take todo (ch_buf c) in
  ∃ c' mem', read_loop mem (dst + Z.of_nat (length done_)) (length done_) todo c
    = (if (todo <=? length (ch_buf c))%nat || (ch_scnt c <=? 0)
       then IoDone (Ok (length (done_ ++ got))) else IoSleep (length (done_ ++ got)), (mem', c')) ∧
    chan_ok max c' ∧ ch_buf c' = drop todo (ch_buf c) ∧
    copyin mem' dst (length (done_ ++ got)) = Ok (done_ ++ got) ∧
    writable mem' (dst + Z.of_nat (length (done_ ++ got))) (todo - length got) ∧
    ch_scnt c' = ch_scnt c ∧ ch_rcnt c' = ch_rcnt c.
Proof.
  revert mem c done_. induction todo as [|todo IH]; intros mem c done_ Hok Hc Hw; simpl read_loop.
  - exists c, mem. simpl. rewrite drop_0, app_nil_r. done.
  - destruct (ch_buf c) as [|b rest] eqn:Hb.
    + exists c, mem. unfold recv. rewrite Hb. simpl. rewrite app_nil_r, Z.gtb_ltb.
      destruct (Z.ltb_spec 0 (ch_scnt c)), (Z.leb_spec (ch_scnt c) 0); try lia; done.
    + destruct (recv_ok _ _ _ _ Hok Hb) as (c1&->&_&Hok1&Hb1&Hs1&Hc1).
      destruct (copyout_snoc mem dst done_ b todo Hc Hw) as (mem1&->&Hc'&Hw').
      destruct (IH mem1 c1 (done_ ++ [b]) Hok1 Hc') as (c2&mem2&Hrun&Hok2&Hb2&Hc2&Hw2&Hs2&Hr2).
      { by rewrite length_app, Nat2Z.inj_add, Z.add_assoc. }
      exists c2, mem2. rewrite Hb1, Hs1 in *. simpl.
      rewrite <-app_assoc in Hrun, Hc2, Hw2. simpl in Hrun, Hc2, Hw2.
      split; [|by rewrite Hs2, Hr2].
      rewrite <-Hrun. f_equal; rewrite length_app; simpl; lia.
Qed.

Lemma read_nonblock_loop_spec max mem dst todo c done_ :
  chan_ok max c → copyin mem dst (length done_) = Ok done_ →
  writable mem (dst + Z.of_nat (length done_)) todo →
  let got := done_ ++ take todo (ch_buf c) in
  ∃ c' mem', read_nonblock_loop mem (dst + Z.of_nat (length done_)) (length done_) todo c
    = (if (todo <=? length (ch_buf c))%nat || (ch_scnt c <=? 0) then Ok (length got)
       else if (length got =? 0)%nat then Err WouldBlock else Ok (length got), (mem', c')) ∧
    chan_ok max c' ∧ ch_buf c' = drop todo (ch_buf c) ∧
    copyin mem' dst (length got) = Ok got ∧
    ch_scnt c' = ch_scnt c ∧ ch_rcnt c' = ch_rcnt c.
Proof.
  revert mem c done_. induction todo as [|todo IH]; intros mem c done_ Hok Hc Hw;
    simpl read_nonblock_loop.
  - exists c, mem. simpl. rewrite drop_0, app_nil_r. done.
  - destruct (ch_buf c) as [|b rest] eqn:Hb.
    + exists c, mem. unfold try_recv. rewrite Hb. simpl. rewrite app_nil_r, Z.gtb_ltb.
      destruct (Z.ltb_spec 0 (ch_scnt c)), (Z.leb_spec (ch_scnt c) 0); try lia; done.
    + destruct (recv_ok _ _ _ _ Hok Hb) as (c1&_&->&Hok1&Hb1&Hs1&Hc1).
      destruct (copyout_snoc mem dst done_ b todo Hc Hw) as (mem1&->&Hc'&Hw').
      destruct (IH mem1 c1 (done_ ++ [b]) Hok1 Hc') as (c2&mem2&Hrun&Hok2&Hb2&Hc2&Hs2&Hr2).
      { by rewrite length_app, Nat2Z.inj_add, Z.add_assoc. }
      exists c2, mem2. rewrite Hb1, Hs1 in *. simpl.
      rewrite <-app_assoc in Hrun, Hc2. simpl in Hrun, Hc2.
      split; [|by rewrite Hs2, Hr2].
      rewrite <-Hrun. f_equal; rewrite length_app; simpl; lia.
Qed.

(** Non-blocking pipe I/O.  On an open channel, [write_nonblock] of [n]
    readable bytes appends the longest prefix that fits and returns its
    length, and reports [WouldBlock] exactly when [n > 0] and nothing fits. *)
Theorem pipe_write_nonblock_spec max p mem src n c bs :
  p_tx p = true → chan_ok max c → copyin mem src n = Ok bs →
  ∃ c', pipe_write_nonblock p mem src n c
        = (if (0 <? n)%nat && (room c =? 0)%nat then Err WouldBlock else Ok (n `min` room c)%nat, c') ∧
    chan_ok max c' ∧ ch_buf c' = ch_buf c ++ take (n `min` room c) bs.
Proof.
  intros Hp Hok Hc. unfold pipe_write_nonblock. rewrite Hp.
  destruct (write_nonblock_loop_spec max mem src 0 n c bs Hok Hc) as (c'&->&Hok'&Hb'&_&_).
  exists c'. simpl. split; [|split; [done|]].
  - f_equal. destruct (Nat.leb_spec n (room c)), (Nat.ltb_spec 0 n), (Nat.eqb_spec (room c) 0);
      simpl; try lia; try done; f_equal; lia.
  - rewrite Hb'. f_equal. pose proof (copyin_length _ _ _ _ Hc).
    destruct (decide (n ≤ room c)%nat).
    + rewrite Nat.min_l by done. by rewrite !take_ge by lia.
    + by rewrite Nat.min_r by lia.
Qed.

(** Non-blocking reads.  [read_nonblock] delivers the oldest buffered
    bytes, up to [n], to the caller's buffer and removes exactly those; on an
    empty pipe it reports [WouldBlock] while a writer is left and end of file
    ([Ok 0]) afterwards. *)
Theorem pipe_read_nonblock_spec max p mem dst n c :
  p_rx p = true → chan_ok max c → copyin mem dst 0 = Ok [] → writable mem dst n →
  let got := take n (ch_buf c) in
  ∃ c' mem', pipe_read_nonblock p mem dst n c
      = (if (0 <? n)%nat && (length (ch_buf c) =? 0)%nat && (0 <? ch_scnt c)
         then Err WouldBlock else Ok (length got), (mem', c')) ∧
    chan_ok max c' ∧ ch_buf c' = drop n (ch_buf c) ∧ copyin mem' dst (length got) = Ok got.
Proof.
  intros Hp Hok Hc Hw got. unfold pipe_read_nonblock. rewrite Hp.
  destruct (read_nonblock_loop_spec max mem dst n c [] Hok Hc) as (c'&mem'&Hrun&Hok'&Hb'&Hc'&_);
    [by rewrite Z.add_0_r|].
  exists c', mem'. simpl in Hrun, Hc'. rewrite Z.add_0_r in Hrun. rewrite Hrun.
  split; [|done]. f_equal. subst got. rewrite length_take.
  destruct (Nat.leb_spec n (length (ch_buf c))), (Z.leb_spec (ch_scnt c) 0), (Nat.ltb_spec 0 n),
    (Nat.eqb_spec (length (ch_buf c)) 0), (Z.ltb_spec 0 (ch_scnt c));
    simpl; try lia; try done; try (by rewrite (proj2 (Nat.eqb_neq _ _)) by lia).
  by rewrite (proj2 (Nat.eqb_eq _ _)) by lia.
Qed.

(** ** A blocking transfer

    A writer of [n] bytes and a reader of [n] bytes run in turns, each until
    it is done or sleeps; [wi] and [ri] are their loop counters. *)
Fixpoint transfer (rounds : nat) (wmem : Mem) (src : Z) (rmem : Mem) (dst : Z) (n wi ri : nat) c :
    option (nat * Mem * Chan Z) :=
  match rounds with
  | O => None
  | S rounds =>
      match write_loop false wmem (src + Z.of_nat wi) wi (n - wi) c with
      | (IoDone (Ok wi'), c1) | (IoSleep wi', c1) =>
          match read_loop rmem (dst + Z.of_nat ri) ri (n - ri) c1 with
          | (IoDone (Ok k), (rmem', c2)) => Some (k, rmem', c2)
          | (IoSleep ri', (rmem', c2)) => transfer rounds wmem src rmem' dst n wi' ri' c2
          | _ => None
          end
      | _ => None
      end
  end.

Lemma transfer_progress rounds max wmem src rmem dst n c bs done_ rest :
  chan_ok max c → 0 < max → ch_buf c = [] → 0 < ch_scnt c →
  copyin wmem src n = Ok bs → bs = done_ ++ rest →
  copyin rmem dst (length done_) = Ok done_ →
  writable rmem (dst + Z.of_nat (length done_)) (length rest) →
  (length rest < rounds)%nat →
  ∃ rmem' c', transfer rounds wmem src rmem dst n (length done_) (length done_) c = Some (n, rmem', c') ∧
    copyin rmem' dst n = Ok bs ∧ ch_buf c' = [] ∧ chan_ok max c'.
Proof.
  revert rmem c done_ rest. induction rounds as [|rounds IH];
    intros rmem c done_ rest Hok Hmax Hb Hs Hsrc -> Hd Hw Hr; [lia|]. simpl transfer.
  pose proof (copyin_length _ _ _ _ Hsrc) as Hn. rewrite length_app in Hn.
  assert (Hrest : copyin wmem (src + Z.of_nat (length done_)) (length rest) = Ok rest).
  { rewrite <-Hn in Hsrc. apply copyin_prefix in Hsrc as [_ Hsrc].
    by rewrite drop_app_length in Hsrc. }
  assert (Hroom : room c = Z.to_nat max) by (destruct Hok; rewrite Hb in *; simpl in *; unfold room; lia).
  replace (n - length done_)%nat with (length rest) by lia.
  destruct (write_loop_spec max wmem _ (length done_) _ c rest Hok Hrest) as (c1&->&Hok1&Hb1&Hs1&_).
  rewrite Hb in Hb1. simpl in Hb1.
  destruct (read_loop_spec max rmem dst (length rest) c1 done_ Hok1 Hd Hw)
    as (c2&rmem2&Hrun&Hok2&Hb2&Hc2&Hw2&Hs2&_).
  rewrite Hb1, Hs1, length_take, take_take in *.
  replace (length rest `min` room c)%nat with (room c `min` length rest)%nat in * by lia.
  rewrite (drop_ge _ (length rest)) in Hb2 by (rewrite length_take; lia).
  destruct (Nat.leb_spec (length rest) (room c)).
  - rewrite Hrun, (Nat.min_r (room c)) by lia.
    rewrite (proj2 (Nat.leb_le _ _)) by lia. simpl. rewrite (Nat.min_r (room c)) in Hc2 by lia.
    rewrite take_ge in * by lia. exists rmem2, c2.
    rewrite length_app in *. split; [by rewrite Hn|]. split; [by rewrite <-Hn|done].
  - rewrite Hrun, (Nat.min_l (room c)) by lia. rewrite (Nat.min_l (room c)) in Hc2, Hw2 by lia.
    rewrite (proj2 (Nat.leb_gt _ _)), (proj2 (Z.leb_gt _ _)) by lia. simpl.
    rewrite length_app, length_take, Nat.min_l by lia.
    destruct (IH rmem2 c2 (done_ ++ take (room c) rest) (drop (room c) rest)) as (r'&c'&Ht&?);
      try done.
    + by rewrite Hs2.
    + by rewrite <-app_assoc, take_drop.
    + eapply writable_sub; [done|lia|]. rewrite length_drop, length_take. lia.
    + rewrite length_drop. lia.
    + rewrite length_app, length_take, Nat.min_l in Ht by lia. by exists r', c'.
Qed.

(** C6: a blocking pipe transfer completes and is exact.  For every length
    [n], a writer of [n] bytes and a reader asking for [n] bytes that run in
    turns finish after at most [n + 1] turns; the reader's buffer then holds
    exactly the bytes of the writer's buffer and the pipe is empty. *)
Theorem pipe_transfer_exact wmem src rmem dst n bs :
  copyin wmem src n = Ok bs → copyin rmem dst 0 = Ok [] → writable rmem dst n →
  ∃ rmem' c', transfer (S n) wmem src rmem dst n 0 0 pipe_channel = Some (n, rmem', c') ∧
    copyin rmem' dst n = Ok bs ∧ ch_buf c' = [].
Proof.
  intros Hsrc Hdst Hw. pose proof (copyin_length _ _ _ _ Hsrc) as Hn.
  destruct (transfer_progress (S n) PIPESIZE wmem src rmem dst n pipe_channel bs [] bs)
    as (r'&c'&Ht&?&?&_); try done.
  - by rewrite Z.add_0_r, Hn.
  - lia.
  - by exists r', c'.
Qed.
End pipe.

Definition hello : FlatMem := <[0 := 104]> (<[1 := 105]> ∅).
Definition scratch : FlatMem := <[8 := 0]> (<[9 := 0]> ∅).

Lemma scratch_writable : writable scratch 8 2.
Proof. intros i Hi. assert (i = 8 ∨ i = 9) as [-> | ->] by lia; by eexists. Qed.



Lemma pipe_transfer_exact_witness :
  ∃ rmem' c', transfer 3 hello 0 scratch 8 2 0 0 pipe_channel = Some (2%nat, rmem', c') ∧
    copyin rmem' 8 2 = Ok [104; 105].
Proof.
  destruct (pipe_transfer_exact hello 0 scratch 8 2 [104; 105]) as (r&c'&H1&H2&_);
    [vm_compute; reflexivity|done|apply scratch_writable|]. by exists r, c'.
Defined.
