(* ===== verification/Bytes.v ===== *)
(** * Bytes, little-endian words and byte arrays

    On-disk structures are [#[repr(C)]] Rust structs viewed in a byte buffer
    ([align_to], [align_to_mut]) on a little-endian machine.  A buffer is a
    list of bytes ([Z]); this file has the word encodings and the reads and
    writes at an offset. *)

From stdpp Require Import base tactics numbers list.
From S2P Require Import Prelude.
Local Open Scope Z_scope.

(** [n] bytes, least significant first. *)
Fixpoint le_bytes (n : nat) (z : Z) : list Z :=
  match n with O => [] | S n => z `mod` 256 :: le_bytes n (z / 256) end.

Fixpoint le_val (bs : list Z) : Z :=
  match bs with [] => 0 | b :: bs => b + 256 * le_val bs end.

Definition is_byte (b : Z) : Prop := 0 ≤ b < 256.

(** The bytes at [off .. off + n), and storing bytes at [off]. *)
Definition read_at (off n : nat) (b : list Z) : list Z := take n (drop off b).
Definition write_at (off : nat) (bs b : list Z) : list Z :=
  take off b ++ bs ++ drop (off + length bs) b.

(** The [i]-th [u32] of a buffer. *)
Definition get_u32 (i : nat) (b : list Z) : Z := le_val (read_at (4 * i) 4 b).
Definition put_u32 (i : nat) (v : Z) (b : list Z) : list Z := write_at (4 * i) (le_bytes 4 v) b.

(** Consecutive [u32]s from index [i] on. *)
Fixpoint put_u32s (i : nat) (vs : list Z) (b : list Z) : list Z :=
  match vs with [] => b | v :: vs => put_u32s (S i) vs (put_u32 i v b) end.
Definition get_u32s (i n : nat) (b : list Z) : list Z := (λ j, get_u32 j b) <$> seq i n.

Lemma length_le_bytes n z : length (le_bytes n z) = n.
Proof. revert z. induction n as [|n IH]; intros z; simpl; [done|]. by rewrite IH. Qed.

Lemma le_bytes_byte n z : Forall is_byte (le_bytes n z).
Proof.
  revert z. induction n as [|n IH]; intros z; simpl; constructor; [|done].
  apply Z.mod_pos_bound. lia.
Qed.

Lemma le_val_bytes n z : 0 ≤ z < 2 ^ (8 * Z.of_nat n) → le_val (le_bytes n z) = z.
Proof.
  revert z. induction n as [|n IH]; intros z Hz; simpl.
  - change (2 ^ (8 * Z.of_nat 0)) with 1 in Hz. lia.
  - assert (2 ^ (8 * Z.of_nat (S n)) = 256 * 2 ^ (8 * Z.of_nat n)) as E.
    { rewrite Nat2Z.inj_succ, Z.mul_succ_r, Z.pow_add_r by lia. change (2 ^ 8) with 256. lia. }
    rewrite IH; [pose proof (Z.div_mod z 256); lia|].
    split; [apply Z.div_pos; lia|]. apply Z.div_lt_upper_bound; lia.
Qed.

Lemma le_val_range bs : Forall is_byte bs → 0 ≤ le_val bs < 2 ^ (8 * Z.of_nat (length bs)).
Proof.
  induction 1 as [|b bs Hb _ IH]; simpl; [done|].
  rewrite Nat2Z.inj_succ, Z.mul_succ_r, Z.pow_add_r by lia. change (2 ^ 8) with 256.
  unfold is_byte in Hb. nia.
Qed.

Lemma le_bytes_val bs : Forall is_byte bs → le_bytes (length bs) (le_val bs) = bs.
Proof.
  induction 1 as [|b bs Hb _ IH]; simpl; [done|]. unfold is_byte in Hb. f_equal.
  - rewrite (Z.mul_comm 256), Z.mod_add by lia. by apply Z.mod_small.
  - rewrite (Z.mul_comm 256), Z.div_add by lia. by rewrite Z.div_small, Z.add_0_l.
Qed.

Lemma length_read_at off n b : (off + n ≤ length b)%nat → length (read_at off n b) = n.
Proof. intros H. unfold read_at. rewrite length_take, length_drop. lia. Qed.

Lemma length_write_at off bs b :
  (off + length bs ≤ length b)%nat → length (write_at off bs b) = length b.
Proof. intros H. unfold write_at. rewrite !length_app, length_take, length_drop. lia. Qed.

Lemma lookup_read_at off n b i :
  (i < n)%nat → read_at off n b !! i = b !! (off + i)%nat.
Proof. intros H. unfold read_at. by rewrite lookup_take_lt, lookup_drop by done. Qed.

Lemma lookup_write_at off bs b i :
  (off + length bs ≤ length b)%nat →
  write_at off bs b !! i
  = if decide (off ≤ i < off + length bs)%nat then bs !! (i - off)%nat else b !! i.
Proof.
  intros H. unfold write_at.
  destruct (decide (i < off)%nat).
  - rewrite decide_False by lia. rewrite lookup_app_l by (rewrite length_take; lia).
    by rewrite lookup_take_lt.
  - rewrite lookup_app_r by (rewrite length_take; lia). rewrite length_take, Nat.min_l by lia.
    case_decide.
    + by rewrite lookup_app_l by lia.
    + rewrite lookup_app_r by lia. rewrite lookup_drop. f_equal. lia.
Qed.

Lemma read_write_at off bs b :
  (off + length bs ≤ length b)%nat → read_at off (length bs) (write_at off bs b) = bs.
Proof.
  intros H. unfold read_at, write_at.
  rewrite drop_app_length' by (rewrite length_take; lia). by rewrite take_app_length.
Qed.

Lemma read_write_at_ne off bs b off2 n :
  (off + length bs ≤ length b)%nat → (off2 + n ≤ off ∨ off + length bs ≤ off2)%nat →
  read_at off2 n (write_at off bs b) = read_at off2 n b.
Proof.
  intros H Hd. apply list_eq. intros i. destruct (decide (i < n)%nat).
  - rewrite !lookup_read_at, lookup_write_at by done. by rewrite decide_False by lia.
  - unfold read_at. by rewrite !lookup_take_ge by lia.
Qed.

Lemma write_at_Forall P off bs b : Forall P bs → Forall P b → Forall P (write_at off bs b).
Proof.
  intros Hbs Hb. unfold write_at. rewrite !Forall_app. auto using Forall_take, Forall_drop.
Qed.

Lemma read_at_Forall P off n b : Forall P b → Forall P (read_at off n b).
Proof. intros Hb. unfold read_at. auto using Forall_take, Forall_drop. Qed.

Lemma length_put_u32 i v b : (4 * i + 4 ≤ length b)%nat → length (put_u32 i v b) = length b.
Proof. intros H. unfold put_u32. apply length_write_at. by rewrite length_le_bytes. Qed.

Lemma get_put_u32 i v b :
  (4 * i + 4 ≤ length b)%nat → 0 ≤ v < 2 ^ 32 → get_u32 i (put_u32 i v b) = v.
Proof.
  intros H Hv. unfold get_u32, put_u32.
  replace 4%nat with (length (le_bytes 4 v)) at 2 by apply length_le_bytes.
  rewrite read_write_at by (rewrite length_le_bytes; lia). by apply le_val_bytes.
Qed.

Lemma get_put_u32_ne i j v b :
  (4 * i + 4 ≤ length b)%nat → i ≠ j → get_u32 j (put_u32 i v b) = get_u32 j b.
Proof.
  intros H Hne. unfold get_u32, put_u32.
  rewrite read_write_at_ne; [done|rewrite length_le_bytes; lia..].
Qed.

Lemma get_u32_range i b : Forall is_byte b → 0 ≤ get_u32 i b < 2 ^ 32.
Proof.
  intros Hb. unfold get_u32.
  pose proof (le_val_range _ (read_at_Forall _ (4 * i) 4 _ Hb)) as H.
  assert (length (read_at (4 * i) 4 b) ≤ 4)%nat by (unfold read_at; rewrite length_take; lia).
  assert (2 ^ (8 * Z.of_nat (length (read_at (4 * i) 4 b))) ≤ 2 ^ 32)
    by (apply Z.pow_le_mono_r; lia).
  lia.
Qed.

Lemma length_put_u32s i vs b :
  (4 * (i + length vs) ≤ length b)%nat → length (put_u32s i vs b) = length b.
Proof.
  revert i b. induction vs as [|v vs IH]; intros i b H; simpl in *; [done|].
  rewrite IH by (rewrite length_put_u32; lia). apply length_put_u32. lia.
Qed.

Lemma get_put_u32s_lt i vs b j :
  (4 * (i + length vs) ≤ length b)%nat → (j < i)%nat →
  get_u32 j (put_u32s i vs b) = get_u32 j b.
Proof.
  revert i b. induction vs as [|v vs IH]; intros i b H Hj; simpl in *; [done|].
  rewrite IH by (rewrite ?length_put_u32; lia). apply get_put_u32_ne; lia.
Qed.

Lemma get_put_u32s i vs b :
  (4 * (i + length vs) ≤ length b)%nat → Forall (λ v, 0 ≤ v < 2 ^ 32) vs →
  get_u32s i (length vs) (put_u32s i vs b) = vs.
Proof.
  unfold get_u32s. revert i b. induction vs as [|v vs IH]; intros i b H Hv; [done|].
  apply Forall_cons in Hv as [Hv Hvs]. simpl in *. f_equal.
  - rewrite get_put_u32s_lt by (rewrite ?length_put_u32; lia). apply get_put_u32; [lia|done].
  - apply IH; [rewrite length_put_u32; lia|done].
Qed.

#[export] Hint Resolve le_bytes_byte write_at_Forall read_at_Forall : kernel.
#[global] Opaque le_bytes.
