(* ===== verification/Log.v ===== *)
(** * The write-ahead log

    [kernel/src/log.rs]: group commit of file-system operations and crash
    recovery.  The state has the disk and the contents of the buffer cache; a
    read of a block sees the cached contents if there are any and the disk
    otherwise.  (A clean buffer has the contents of the disk, so filling or
    recycling one changes no read and is not recorded.)  Block writes are
    atomic and take effect in the order they are issued; the sequence of
    writes is recorded to speak about crashes between any two of them. *)

From stdpp Require Import base tactics numbers gmap list.
From S2P Require Import Prelude Params Errors Bytes.
Local Open Scope Z_scope.

Definition BSIZE : nat := 1024.
Abbreviation block := (list Z).
Definition zero_block : block := replicate BSIZE 0.

(** [struct LogHeader], in memory and in the header block. *)
Record LogHeader := mkLogHeader {
  lh_n : Z;
  lh_block : list Z;
}.

(** The header as stored at the start of a block. *)
Definition decode_head (b : block) : LogHeader :=
  mkLogHeader (get_u32 0 b) (get_u32s 1 LOGSIZE b).
Definition encode_head (lh : LogHeader) (b : block) : block :=
  put_u32s 0 (lh_n lh :: lh_block lh) b.

#[global] Arguments decode_head : simpl never.
#[global] Arguments encode_head : simpl never.

(** [pub struct Log]. *)
Record Log := mkLog {
  log_start : Z;
  log_size : Z;
  log_dev : Z;
  log_outstanding : Z;
  log_committing : bool;
  log_lh : LogHeader;
}.

(** The log with the disk, the buffer cache and the test hooks
    [LOG_CRASH_STAGE] (armed or not) and [LOG_RECOVERED].  [ls_pins] counts
    the extra references that keep a buffer in the cache. *)
Record LogSt := mkLogSt {
  ls_disk : gmap Z block;
  ls_cache : gmap Z block;
  ls_pins : gmap Z nat;
  ls_trace : list (Z * block);
  ls_log : Log;
  ls_crash_armed : bool;
  ls_recovered : bool;
}.

Definition dget (d : gmap Z block) (b : Z) : block := default zero_block (d !! b).

(** [BCACHE.read(dev, b)]: what the locked buffer holds. *)
Definition bview (st : LogSt) (b : Z) : block := default (dget (ls_disk st) b) (ls_cache st !! b).

Definition set_log (l : Log) (st : LogSt) : LogSt :=
  mkLogSt (ls_disk st) (ls_cache st) (ls_pins st) (ls_trace st) l (ls_crash_armed st) (ls_recovered st).
Definition set_lh (lh : LogHeader) (l : Log) : Log :=
  mkLog (log_start l) (log_size l) (log_dev l) (log_outstanding l) (log_committing l) lh.
Definition set_outstanding (n : Z) (l : Log) : Log :=
  mkLog (log_start l) (log_size l) (log_dev l) n (log_committing l) (log_lh l).
Definition set_committing (b : bool) (l : Log) : Log :=
  mkLog (log_start l) (log_size l) (log_dev l) (log_outstanding l) b (log_lh l).

(** Change the contents of the buffer of block [b]. *)
Definition bupdate (b : Z) (x : block) (st : LogSt) : LogSt :=
  mkLogSt (ls_disk st) (<[b := x]> (ls_cache st)) (ls_pins st) (ls_trace st) (ls_log st)
    (ls_crash_armed st) (ls_recovered st).

(** [BufGuard::write] of a buffer with contents [x]. *)
Definition bwrite (b : Z) (x : block) (st : LogSt) : LogSt :=
  mkLogSt (<[b := x]> (ls_disk st)) (<[b := x]> (ls_cache st)) (ls_pins st)
    (ls_trace st ++ [(b, x)]) (ls_log st) (ls_crash_armed st) (ls_recovered st).

Definition set_pins (p : gmap Z nat) (st : LogSt) : LogSt :=
  mkLogSt (ls_disk st) (ls_cache st) p (ls_trace st) (ls_log st) (ls_crash_armed st) (ls_recovered st).
Definition pins (st : LogSt) (b : Z) : nat := default 0%nat (ls_pins st !! b).
Definition bpin (b : Z) (st : LogSt) : LogSt := set_pins (<[b := S (pins st b)]> (ls_pins st)) st.
Definition bunpin (b : Z) (st : LogSt) : LogSt := set_pins (<[b := pred (pins st b)]> (ls_pins st)) st.

Abbreviation LogM := (M Error LogSt).

Definition m_modify (f : LogSt → LogSt) : LogM () := λ st, (Ok (), f st).

(** [Log::read_head]. *)
Definition read_head : LogM () :=
  m_modify (λ st, let l := ls_log st in
    set_log (set_lh (decode_head (bview st (log_start l))) l) st).

(** [Log::write_head]. *)
Definition write_head : LogM () :=
  m_modify (λ st, let l := ls_log st in
    bwrite (log_start l) (encode_head (log_lh l) (bview st (log_start l))) st).

(** One iteration of the loop of [Log::install_trans]. *)
Definition install_one (recovering : bool) (tail : nat) : LogM () := λ st,
  let l := ls_log st in
  let lbuf := bview st (log_start l + Z.of_nat tail + 1) in
  match lh_block (log_lh l) !! tail with
  | None => (Panic, st)
  | Some dst =>
      let st := bwrite dst lbuf st in
      (Ok (), if recovering then st else bunpin dst st)
  end.

(** [Log::install_trans]. *)
Definition install_trans (recovering : bool) : LogM () := λ st,
  m_for (seq 0 (Z.to_nat (lh_n (log_lh (ls_log st))))) (install_one recovering) st.

(** One iteration of the loop of [Log::write_log]. *)
Definition write_log_one (tail : nat) : LogM () := λ st,
  let l := ls_log st in
  match lh_block (log_lh l) !! tail with
  | None => (Panic, st)
  | Some from => (Ok (), bwrite (log_start l + Z.of_nat tail + 1) (bview st from) st)
  end.

(** [Log::write_log]. *)
Definition write_log : LogM () := λ st,
  m_for (seq 0 (Z.to_nat (lh_n (log_lh (ls_log st))))) write_log_one st.

Definition set_lh_n (n : Z) : LogM () :=
  m_modify (λ st, let l := ls_log st in
    set_log (set_lh (mkLogHeader n (lh_block (log_lh l))) l) st).

(** [crash_if_armed(AfterHeadWrite)]: the hook disarms itself and stops the
    machine. *)
Definition crash_if_armed : LogM () := λ st,
  let st' := mkLogSt (ls_disk st) (ls_cache st) (ls_pins st) (ls_trace st) (ls_log st) false
               (ls_recovered st) in
  (if ls_crash_armed st then Panic else Ok (), st').

(** [Log::commit]. *)
Definition commit : LogM () := λ st,
  if lh_n (log_lh (ls_log st)) >? 0 then
    (_ ← write_log;
     _ ← write_head;
     _ ← crash_if_armed;
     _ ← install_trans false;
     _ ← set_lh_n 0;
     write_head) st
  else (Ok (), st).

(** [Log::recover]. *)
Definition note_recovered : LogM () := m_modify (λ st,
  mkLogSt (ls_disk st) (ls_cache st) (ls_pins st) (ls_trace st) (ls_log st) (ls_crash_armed st)
    (if lh_n (log_lh (ls_log st)) >? 0 then true else ls_recovered st)).

Definition recover : LogM () :=
  _ ← read_head;
  _ ← note_recovered;
  _ ← install_trans true;
  _ ← set_lh_n 0;
  write_head.

(** [Log::new(dev)] on the disk [d]: a fresh log over an empty cache, then
    recovery.  [start] and [size] come from the superblock. *)
Definition log_new (start size dev : Z) (d : gmap Z block) : Result () * LogSt :=
  recover (mkLogSt d ∅ ∅ [] (mkLog start size dev 0 false (mkLogHeader 0 (replicate LOGSIZE 0)))
             false false).

(** One pass of the loop of [begin_op]. *)
Definition begin_op (st : LogSt) : blocking Error () * LogSt :=
  let l := ls_log st in
  if log_committing l ||
     (lh_n (log_lh l) + (log_outstanding l + 1) * Z.of_nat MAXOPBLOCKS >? Z.of_nat LOGSIZE)
  then (Sleeps, st)
  else (Returns (Ok ()), set_log (set_outstanding (log_outstanding l + 1) l) st).

(** The locked part of [end_op]: [true] if the caller has to commit.  The
    counter is a [u32]. *)
Definition end_op_start : LogM bool := λ st,
  let l := ls_log st in
  if log_outstanding l =? 0 then (Panic, st)
  else
    let l := set_outstanding (log_outstanding l - 1) l in
    if log_committing l then (Panic, set_log l st)
    else if log_outstanding l =? 0 then (Ok true, set_log (set_committing true l) st)
    else (Ok false, set_log l st).

Definition commit_finish : LogM () :=
  m_modify (λ st, set_log (set_committing false (ls_log st)) st).

(** [end_op]. *)
Definition end_op : LogM () :=
  last ← end_op_start;
  if (last : bool) then _ ← commit; commit_finish else mret ().

(** One pass of [sync]: sleeps while operations are active. *)
Definition log_sync (st : LogSt) : blocking Error () * LogSt :=
  let l := ls_log st in
  if log_committing l || (log_outstanding l >? 0) then (Sleeps, st)
  else if lh_n (log_lh l) =? 0 then (Returns (Ok ()), st)
  else let '(r, st') := (_ ← commit; commit_finish) (set_log (set_committing true l) st) in
       (Returns r, st').

(** [LOG.write(b)] for a buffer of block [bno]. *)
Definition log_write (bno : Z) : LogM () := λ st,
  let l := ls_log st in
  let n := lh_n (log_lh l) in
  if (n >=? Z.of_nat LOGSIZE) || (n >=? log_size l - 1) then (Panic, st)
  else if log_outstanding l <? 1 then (Panic, st)
  else if bool_decide (bno ∈ take (Z.to_nat n) (lh_block (log_lh l))) then (Ok (), st)
  else
    let lh := mkLogHeader (n + 1) (<[Z.to_nat n := bno]> (lh_block (log_lh l))) in
    (Ok (), set_log (set_lh lh l) (bpin bno st)).
