(* ===== verification/LogCrash.v ===== *)
(** * Crash safety of the log

    The sequence of disk writes a commit issues, and what recovery makes of
    the disk after a crash between any two of them. *)

From stdpp Require Import base tactics numbers gmap list.
From S2P Require Import Prelude Params Errors Bytes Log.
Local Open Scope Z_scope.

(** ** Sequences of writes *)

Lemma take_subseteq {A} k (xs : list A) : take k xs ⊆ xs.
Proof. intros x Hx. rewrite <-(take_drop k xs). apply elem_of_app. by left. Qed.

Definition apply_writes (ws : list (Z * block)) (d : gmap Z block) : gmap Z block :=
  foldl (λ d w, <[w.1 := w.2]> d) d ws.

Lemma apply_writes_app ws1 ws2 d :
  apply_writes (ws1 ++ ws2) d = apply_writes ws2 (apply_writes ws1 d).
Proof. apply foldl_app. Qed.

Lemma lookup_apply_writes_ne ws d b : b ∉ ws.*1 → apply_writes ws d !! b = d !! b.
Proof.
  revert d. induction ws as [|[c x] ws IH]; intros d Hb; [done|].
  apply not_elem_of_cons in Hb as [Hne Hb]. simpl in *. rewrite IH by done.
  by rewrite lookup_insert_ne.
Qed.

Lemma lookup_apply_writes ws d b x :
  NoDup ws.*1 → (b, x) ∈ ws → apply_writes ws d !! b = Some x.
Proof.
  revert d. induction ws as [|[c y] ws IH]; intros d Hnd Hin; [by apply not_elem_of_nil in Hin|].
  apply NoDup_cons in Hnd as [Hc Hnd]. simpl. apply elem_of_cons in Hin as [[= -> ->]|Hin].
  - rewrite lookup_apply_writes_ne by done. apply lookup_insert_eq.
  - by apply IH.
Qed.

Lemma dget_apply_ne ws d b : b ∉ ws.*1 → dget (apply_writes ws d) b = dget d b.
Proof. intros Hb. unfold dget. by rewrite lookup_apply_writes_ne. Qed.

Lemma dget_apply ws d b x :
  NoDup ws.*1 → (b, x) ∈ ws → dget (apply_writes ws d) b = x.
Proof. intros ? ?. unfold dget. by erewrite lookup_apply_writes. Qed.

(** The writes of [write_log] and of [install_trans], from log slot [k] on. *)
Fixpoint log_writes (start : Z) (k : nat) (bs : list Z) (view : Z → block) : list (Z * block) :=
  match bs with
  | [] => []
  | b :: bs => (start + Z.of_nat k + 1, view b) :: log_writes start (S k) bs view
  end.

Fixpoint install_writes (start : Z) (k : nat) (bs : list Z) (view : Z → block) :
    list (Z * block) :=
  match bs with
  | [] => []
  | b :: bs => (b, view (start + Z.of_nat k + 1)) :: install_writes start (S k) bs view
  end.

Lemma log_writes_keys start k bs view c :
  c ∈ (log_writes start k bs view).*1 →
  start + Z.of_nat k < c ≤ start + Z.of_nat (k + length bs).
Proof.
  revert k. induction bs as [|b bs IH]; intros k; simpl; [by intros ?%not_elem_of_nil|].
  intros [-> | Hc]%elem_of_cons; [lia|]. apply IH in Hc. lia.
Qed.

Lemma log_writes_NoDup start k bs view : NoDup (log_writes start k bs view).*1.
Proof.
  revert k. induction bs as [|b bs IH]; intros k; simpl; constructor; [|done].
  intros Hc%log_writes_keys. lia.
Qed.

Lemma elem_of_log_writes start k bs view i b :
  bs !! i = Some b → (start + Z.of_nat (k + i) + 1, view b) ∈ log_writes start k bs view.
Proof.
  revert k i. induction bs as [|c bs IH]; intros k i Hi; [done|]. destruct i as [|i]; simpl in *.
  - simplify_eq. rewrite Nat.add_0_r. left.
  - right. rewrite <-Nat.add_succ_comm. by apply IH.
Qed.

Lemma log_writes_ext start k bs view1 view2 :
  (∀ b, b ∈ bs → view1 b = view2 b) → log_writes start k bs view1 = log_writes start k bs view2.
Proof.
  revert k. induction bs as [|b bs IH]; intros k Hv; simpl; [done|]. f_equal.
  - f_equal. apply Hv. left.
  - apply IH. intros c Hc. apply Hv. by right.
Qed.

Lemma install_writes_keys start k bs view : (install_writes start k bs view).*1 = bs.
Proof. revert k. induction bs as [|b bs IH]; intros k; simpl; [done|]. by rewrite IH. Qed.

Lemma elem_of_install_writes start k bs view i b :
  bs !! i = Some b → (b, view (start + Z.of_nat (k + i) + 1)) ∈ install_writes start k bs view.
Proof.
  revert k i. induction bs as [|c bs IH]; intros k i Hi; [done|]. destruct i as [|i]; simpl in *.
  - simplify_eq. rewrite Nat.add_0_r. left.
  - right. rewrite <-Nat.add_succ_comm. by apply IH.
Qed.

Lemma install_writes_ext start k bs view1 view2 :
  (∀ i, (i < length bs)%nat → view1 (start + Z.of_nat (k + i) + 1) = view2 (start + Z.of_nat (k + i) + 1)) →
  install_writes start k bs view1 = install_writes start k bs view2.
Proof.
  revert k. induction bs as [|b bs IH]; intros k Hv; simpl; [done|]. f_equal.
  - f_equal. specialize (Hv 0%nat). rewrite Nat.add_0_r in Hv. apply Hv. simpl; lia.
  - apply IH. intros i Hi. rewrite Nat.add_succ_comm. apply Hv. simpl; lia.
Qed.

(** ** Running a sequence of writes in the log state *)

(** The parts of the state a run of writes determines; pins are free. *)
Definition wrote (ws : list (Z * block)) (st st' : LogSt) : Prop :=
  ls_disk st' = apply_writes ws (ls_disk st) ∧
  ls_cache st' = apply_writes ws (ls_cache st) ∧
  ls_trace st' = ls_trace st ++ ws ∧
  ls_log st' = ls_log st ∧ ls_crash_armed st' = ls_crash_armed st.

Lemma wrote_nil st : wrote [] st st.
Proof. repeat split; simpl; by rewrite ?app_nil_r. Qed.

Lemma wrote_cons b x ws st st' :
  wrote ws (bwrite b x st) st' → wrote ((b, x) :: ws) st st'.
Proof. intros (?&?&Ht&?&?). repeat split; try done. rewrite Ht. simpl. by rewrite <-app_assoc. Qed.

Lemma wrote_trans ws1 ws2 st1 st2 st3 :
  wrote ws1 st1 st2 → wrote ws2 st2 st3 → wrote (ws1 ++ ws2) st1 st3.
Proof.
  intros (D1&C1&T1&L1&A1) (D2&C2&T2&L2&A2). unfold wrote.
  rewrite D2, C2, T2, L2, A2, D1, C1, T1, L1, A1, !apply_writes_app, app_assoc. done.
Qed.

Lemma wrote_unpin b ws st st' : wrote ws (bunpin b st) st' ↔ wrote ws st st'.
Proof. done. Qed.

Lemma wrote_bview_ne ws st st' b : wrote ws st st' → b ∉ ws.*1 → bview st' b = bview st b.
Proof.
  intros (D&C&_) Hb. unfold bview. rewrite C, D, dget_apply_ne by done.
  by rewrite lookup_apply_writes_ne.
Qed.

Lemma wrote_bview ws st st' b x :
  wrote ws st st' → NoDup ws.*1 → (b, x) ∈ ws → bview st' b = x.
Proof. intros (D&C&_) ? ?. unfold bview. rewrite C. by erewrite lookup_apply_writes. Qed.

(** A block outside the log area. *)
Definition home (l : Log) (b : Z) : Prop := ¬ (log_start l ≤ b < log_start l + log_size l).

Lemma write_log_loop l don rest more st :
  ls_log st = l → lh_block (log_lh l) = don ++ rest ++ more →
  Forall (home l) rest → Z.of_nat (length don + length rest) < log_size l →
  ∃ st', m_for (seq (length don) (length rest)) write_log_one st = (Ok (), st') ∧
    wrote (log_writes (log_start l) (length don) rest (bview st)) st st'.
Proof.
  revert don st. induction rest as [|b rest IH]; intros don st Hl Hb Hh Hsz; simpl.
  - exists st. split; [done|apply wrote_nil].
  - apply Forall_cons in Hh as [Hhb Hh]. simpl in Hsz.
    unfold mbind, M_bind, write_log_one. rewrite Hl, Hb, lookup_app_r, Nat.sub_diag by lia.
    cbv zeta; simpl.
    set (st1 := bwrite _ _ _).
    destruct (IH (don ++ [b]) st1) as (st'&Hrun&Hw); [done| | |rewrite length_app; simpl; lia|].
    { by rewrite Hb, <-app_assoc. }
    { done. }
    rewrite length_app, Nat.add_1_r in Hrun, Hw. exists st'. split; [exact Hrun|].
    apply wrote_cons. fold st1.
    rewrite (log_writes_ext _ _ _ (bview st) (bview st1)); [done|].
    intros c Hc. symmetry.
    apply (wrote_bview_ne [(log_start l + Z.of_nat (length don) + 1, bview st b)]).
    { apply wrote_cons, wrote_nil. }
    intros [-> | ?%not_elem_of_nil]%elem_of_cons; [|done].
    apply (proj1 (Forall_forall _ _) Hh _ Hc). simpl. lia.
Qed.

Lemma install_loop l rec don rest more st :
  ls_log st = l → lh_block (log_lh l) = don ++ rest ++ more →
  Forall (home l) rest → Z.of_nat (length don + length rest) < log_size l →
  ∃ st', m_for (seq (length don) (length rest)) (install_one rec) st = (Ok (), st') ∧
    wrote (install_writes (log_start l) (length don) rest (bview st)) st st' ∧
    ls_recovered st' = ls_recovered st.
Proof.
  revert don st. induction rest as [|b rest IH]; intros don st Hl Hb Hh Hsz; simpl.
  - exists st. split; [done|]. split; [apply wrote_nil|done].
  - apply Forall_cons in Hh as [Hhb Hh]. simpl in Hsz.
    unfold mbind, M_bind, install_one. rewrite Hl, Hb, lookup_app_r, Nat.sub_diag by lia.
    cbv zeta; simpl.
    set (st1 := bwrite _ _ _). set (st2 := if rec then st1 else bunpin b st1).
    assert (Hv : ∀ c, bview st2 c = bview st1 c) by (intros c; subst st2; by destruct rec).
    destruct (IH (don ++ [b]) st2) as (st'&Hrun&Hw&Hr).
    { subst st2. by destruct rec. }
    { by rewrite Hb, <-app_assoc. }
    { done. }
    { rewrite length_app; simpl; lia. }
    rewrite length_app, Nat.add_1_r in Hrun, Hw. exists st'. split; [exact Hrun|].
    split; [|rewrite Hr; subst st2; by destruct rec].
    apply wrote_cons. fold st1.
    replace (install_writes (log_start l) (S (length don)) rest (bview st))
      with (install_writes (log_start l) (S (length don)) rest (bview st2)).
    { subst st2. destruct rec; [done|]. by apply wrote_unpin in Hw. }
    apply install_writes_ext. intros i Hi. rewrite Hv.
    apply (wrote_bview_ne [(b, bview st (log_start l + Z.of_nat (length don) + 1))]).
    { apply wrote_cons, wrote_nil. }
    intros [Heq | ?%not_elem_of_nil]%elem_of_cons; [|done]. apply Hhb. simpl in Heq. lia.
Qed.

(** ** Commit *)

(** The logged blocks of a transaction. *)
Definition logged (l : Log) : list Z := take (Z.to_nat (lh_n (log_lh l))) (lh_block (log_lh l)).

(** What [log_write] maintains and [commit] relies on: a non-empty header of
    distinct home blocks that fits the log area, and on the disk a header of
    an empty log. *)
Record commit_ready (st : LogSt) : Prop := {
  cr_n : 0 < lh_n (log_lh (ls_log st)) ≤ Z.of_nat LOGSIZE;
  cr_fits : lh_n (log_lh (ls_log st)) < log_size (ls_log st);
  cr_blocks : length (lh_block (log_lh (ls_log st))) = LOGSIZE;
  cr_u32 : Forall (λ b, 0 ≤ b < 2 ^ 32) (lh_block (log_lh (ls_log st)));
  cr_nodup : NoDup (logged (ls_log st));
  cr_home : Forall (home (ls_log st)) (logged (ls_log st));
  cr_head : length (bview st (log_start (ls_log st))) = BSIZE;
  cr_clean : lh_n (decode_head (dget (ls_disk st) (log_start (ls_log st)))) = 0;
}.

Definition head_block (st : LogSt) : block :=
  encode_head (log_lh (ls_log st)) (bview st (log_start (ls_log st))).
Definition empty_head (st : LogSt) : block :=
  encode_head (mkLogHeader 0 (lh_block (log_lh (ls_log st)))) (head_block st).

(** The disk writes of a commit, in order: log slots, header, home blocks,
    empty header. *)
Definition commit_writes (st : LogSt) : list (Z * block) :=
  let l := ls_log st in
  log_writes (log_start l) 0 (logged l) (bview st) ++ [(log_start l, head_block st)] ++
  ((λ b, (b, bview st b)) <$> logged l) ++ [(log_start l, empty_head st)].

Lemma logged_length st :
  commit_ready st → length (logged (ls_log st)) = Z.to_nat (lh_n (log_lh (ls_log st))).
Proof. intros [? ? ? ? ? ? ? ?]. unfold logged. rewrite length_take. lia. Qed.

Lemma logged_split st :
  lh_block (log_lh (ls_log st))
  = [] ++ logged (ls_log st) ++ drop (Z.to_nat (lh_n (log_lh (ls_log st)))) (lh_block (log_lh (ls_log st))).
Proof. unfold logged. by rewrite app_nil_l, take_drop. Qed.

(** The install phase writes the contents the blocks had before the commit. *)
Lemma install_after_log l bs view view' k :
  (∀ i b, bs !! i = Some b → view' (log_start l + Z.of_nat (k + i) + 1) = view b) →
  install_writes (log_start l) k bs view' = (λ b, (b, view b)) <$> bs.
Proof.
  revert k. induction bs as [|b bs IH]; intros k Hv; simpl; [done|]. f_equal.
  - f_equal. specialize (Hv 0%nat b eq_refl). by rewrite Nat.add_0_r in Hv.
  - apply IH. intros i c Hi. rewrite Nat.add_succ_comm. by apply Hv.
Qed.

Lemma wrote_one b x st : wrote [(b, x)] st (bwrite b x st).
Proof. apply wrote_cons, wrote_nil. Qed.

(** The first half of a commit: log slots, then header. *)
Definition log_phase_writes (st : LogSt) : list (Z * block) :=
  log_writes (log_start (ls_log st)) 0 (logged (ls_log st)) (bview st) ++
  [(log_start (ls_log st), head_block st)].

Lemma log_phase_NoDup st : NoDup (log_phase_writes st).*1.
Proof.
  unfold log_phase_writes. rewrite fmap_app. apply NoDup_app.
  split; [apply log_writes_NoDup|]. split; [|apply NoDup_singleton].
  intros c Hc%log_writes_keys [-> | ?%not_elem_of_nil]%elem_of_cons; [simpl in Hc; lia|done].
Qed.

Lemma commit_log_phase st :
  commit_ready st → ls_crash_armed st = false →
  ∃ st', (_ ← write_log; _ ← write_head; crash_if_armed) st = (Ok (), st') ∧
    wrote (log_phase_writes st) st st'.
Proof.
  intros Hr Harm. pose proof (logged_length st Hr) as Hlen. pose proof (logged_split st) as Hsplit.
  destruct Hr as [Hn Hfit Hbl Hu Hnd Hhome Hhd Hcl]. set (l := ls_log st) in *.
  destruct (write_log_loop l [] (logged l) _ st eq_refl Hsplit Hhome) as (st1&Hrun1&Hw1);
    [simpl; lia|].
  simpl length in Hrun1. rewrite Hlen in Hrun1.
  unfold mbind, M_bind, write_log. fold l. rewrite Hrun1.
  pose proof Hw1 as (D1&C1&T1&L1&A1). fold l in L1.
  unfold write_head, m_modify. rewrite L1.
  rewrite (wrote_bview_ne _ _ _ _ Hw1) by (intros Hc%log_writes_keys; lia).
  change (encode_head (log_lh l) (bview st (log_start l))) with (head_block st).
  unfold crash_if_armed. simpl ls_crash_armed. rewrite A1, Harm.
  eexists. split; [reflexivity|]. eapply wrote_trans; [exact Hw1|].
  pose proof (wrote_one (log_start l) (head_block st) st1) as (?&?&?&?&?).
  repeat split; try done. by rewrite A1.
Qed.

(** The second half: home blocks, then the empty header. *)
Lemma commit_install_phase st st3 :
  commit_ready st → wrote (log_phase_writes st) st st3 →
  ∃ st', (_ ← install_trans false; _ ← set_lh_n 0; write_head) st3 = (Ok (), st') ∧
    ls_disk st' = apply_writes (commit_writes st) (ls_disk st) ∧
    ls_cache st' = apply_writes (commit_writes st) (ls_cache st) ∧
    ls_trace st' = ls_trace st ++ commit_writes st ∧
    ls_log st' = set_lh (mkLogHeader 0 (lh_block (log_lh (ls_log st)))) (ls_log st) ∧
    ls_crash_armed st' = ls_crash_armed st.
Proof.
  intros Hr Hw3. pose proof (logged_length st Hr) as Hlen. pose proof (logged_split st) as Hsplit.
  destruct Hr as [Hn Hfit Hbl Hu Hnd Hhome Hhd Hcl].
  pose proof Hw3 as (_&_&_&L3&_). set (l := ls_log st) in *.
  destruct (install_loop l false [] (logged l) _ st3 L3 Hsplit Hhome) as (st4&Hrun4&Hw4&_);
    [simpl; lia|].
  simpl length in Hrun4. rewrite Hlen in Hrun4.
  unfold mbind, M_bind, install_trans. rewrite L3, Hrun4.
  simpl length in Hw4. rewrite (install_after_log l (logged l) (bview st)) in Hw4.
  2:{ intros i b Hi. eapply (wrote_bview _ _ _ _ _ Hw3 (log_phase_NoDup st)).
      apply elem_of_app. left. by apply (elem_of_log_writes _ 0). }
  pose proof (wrote_trans _ _ _ _ _ Hw3 Hw4) as (D4&C4&T4&L4&A4). fold l in L4.
  unfold set_lh_n, m_modify, write_head. rewrite L4.
  assert (Hhv : bview st4 (log_start l) = head_block st).
  { rewrite (wrote_bview_ne _ _ _ _ Hw4).
    - eapply (wrote_bview _ _ _ _ _ Hw3 (log_phase_NoDup st)). apply elem_of_app. right. left.
    - rewrite <-list_fmap_compose, list_fmap_id. intros Hin.
      apply (proj1 (Forall_forall _ _) Hhome _ Hin). lia. }
  eexists. split; [reflexivity|]. simpl.
  change (bview (set_log _ st4) (log_start l)) with (bview st4 (log_start l)).
  rewrite Hhv. unfold commit_writes, log_phase_writes in *. fold l in D4, C4, T4 |- *.
  rewrite D4, C4, T4, !apply_writes_app, <-!app_assoc. done.
Qed.

Lemma commit_run st :
  commit_ready st → ls_crash_armed st = false →
  ∃ st', commit st = (Ok (), st') ∧
    ls_disk st' = apply_writes (commit_writes st) (ls_disk st) ∧
    ls_cache st' = apply_writes (commit_writes st) (ls_cache st) ∧
    ls_trace st' = ls_trace st ++ commit_writes st ∧
    ls_log st' = set_lh (mkLogHeader 0 (lh_block (log_lh (ls_log st)))) (ls_log st) ∧
    ls_crash_armed st' = ls_crash_armed st.
Proof.
  intros Hr Harm. destruct (commit_log_phase st Hr Harm) as (st3&Hrun&Hw).
  destruct (commit_install_phase st st3 Hr Hw) as (st'&Hrun'&Hrest).
  exists st'. split; [|done]. pose proof (cr_n _ Hr).
  unfold commit. rewrite Z.gtb_ltb, (proj2 (Z.ltb_lt _ _)) by lia.
  rewrite <-Hrun'. clear Hrun' Hrest Hw. revert Hrun. unfold mbind, M_bind.
  destruct (write_log st) as [[]?]; try done. destruct (write_head _) as [[]?]; try done.
  by intros ->.
Qed.

(** ** Recovery *)

(** The log as [Log::new] sees it on the disk [d]. *)
Definition disk_log (start size dev : Z) (d : gmap Z block) : Log :=
  mkLog start size dev 0 false (decode_head (dget d start)).

Record recoverable (start size dev : Z) (d : gmap Z block) : Prop := {
  rv_n : lh_n (decode_head (dget d start)) ≤ Z.of_nat LOGSIZE;
  rv_fits : lh_n (decode_head (dget d start)) < size;
  rv_home : Forall (home (disk_log start size dev d)) (logged (disk_log start size dev d));
}.

Definition recover_writes (start size dev : Z) (d : gmap Z block) : list (Z * block) :=
  let l := disk_log start size dev d in
  install_writes start 0 (logged l) (dget d) ++
  [(start, encode_head (mkLogHeader 0 (lh_block (log_lh l))) (dget d start))].

Lemma length_decode_head b : length (lh_block (decode_head b)) = LOGSIZE.
Proof. unfold decode_head, get_u32s. cbn [lh_block]. by rewrite length_fmap, length_seq. Qed.

Lemma log_new_run start size dev d :
  0 < size → recoverable start size dev d →
  ∃ st', log_new start size dev d = (Ok (), st') ∧
    ls_disk st' = apply_writes (recover_writes start size dev d) d ∧
    ls_cache st' = apply_writes (recover_writes start size dev d) ∅ ∧
    ls_trace st' = recover_writes start size dev d ∧
    ls_recovered st' = (lh_n (decode_head (dget d start)) >? 0) ∧
    ls_log st' = set_lh (mkLogHeader 0 (lh_block (decode_head (dget d start))))
                   (disk_log start size dev d) ∧
    ls_crash_armed st' = false.
Proof.
  intros Hsize [Hn Hfit Hhome]. unfold log_new, recover, recover_writes.
  set (l := disk_log start size dev d) in *.
  unfold mbind at 1, M_bind at 1. unfold read_head, m_modify at 1. simpl ls_log. simpl log_start.
  set (st0 := mkLogSt _ _ _ _ _ _ _).
  change (bview st0 start) with (dget d start).
  unfold mbind at 1, M_bind at 1. unfold note_recovered, m_modify at 1.
  set (st1 := mkLogSt _ _ _ _ _ _ _).
  assert (L1 : ls_log st1 = l) by done.
  assert (Hlen : length (logged l) = Z.to_nat (lh_n (log_lh l))).
  { unfold logged. rewrite length_take. unfold l, disk_log. cbn [log_lh]. rewrite length_decode_head. lia. }
  destruct (install_loop l true [] (logged l) (drop (Z.to_nat (lh_n (log_lh l))) (lh_block (log_lh l))) st1 L1)
    as (st2&Hrun&Hw&Hrec).
  { unfold logged. by rewrite app_nil_l, take_drop. }
  { done. }
  { simpl length. rewrite Nat.add_0_l, Hlen. change (log_size l) with size.
    change (lh_n (log_lh l)) with (lh_n (decode_head (dget d start))). lia. }
  simpl length in Hrun, Hw. rewrite Hlen in Hrun.
  unfold mbind at 1, M_bind at 1. unfold install_trans. rewrite L1, Hrun.
  pose proof Hw as (D2&C2&T2&L2&A2).
  unfold mbind, M_bind, set_lh_n, m_modify, write_head. rewrite L2, L1.
  eexists. split; [reflexivity|]. simpl.
  change (bview (set_log _ st2) start) with (bview st2 start).
  rewrite (wrote_bview_ne _ _ _ _ Hw).
  2:{ rewrite install_writes_keys. intros Hin.
      pose proof (proj1 (Forall_forall _ _) Hhome _ Hin) as Hh. apply Hh. simpl. lia. }
  rewrite D2, C2, T2, Hrec, A2, !apply_writes_app. simpl.
  do 3 (split; [done|]). split; [|done]. by case_match.
Qed.

(** After recovery a home block holds the contents of its log slot if the
    header lists it, and what the disk had otherwise. *)
Lemma recovered_home start size dev d st' b :
  0 < size → recoverable start size dev d → NoDup (logged (disk_log start size dev d)) →
  log_new start size dev d = (Ok (), st') → home (disk_log start size dev d) b →
  (∀ i, logged (disk_log start size dev d) !! i = Some b →
        dget (ls_disk st') b = dget d (start + Z.of_nat i + 1)) ∧
  (b ∉ logged (disk_log start size dev d) → dget (ls_disk st') b = dget d b).
Proof.
  intros Hsize Hrv Hnd Hnew Hb.
  destruct (log_new_run start size dev d Hsize Hrv) as (st2&Hnew2&HD&_).
  rewrite Hnew in Hnew2. injection Hnew2 as <-.
  unfold recover_writes in HD. set (l := disk_log start size dev d) in *.
  assert (Hbs : b ≠ start) by (intros ->; apply Hb; simpl; lia).
  rewrite HD, apply_writes_app.
  rewrite (dget_apply_ne [_]) by (intros [-> | ?%not_elem_of_nil]%elem_of_cons; done).
  split.
  - intros i Hi. apply dget_apply; [by rewrite install_writes_keys|].
    by apply (elem_of_install_writes start 0).
  - intros Hni. apply dget_apply_ne. by rewrite install_writes_keys.
Qed.

Lemma decode_encode_head lh b :
  length (lh_block lh) = LOGSIZE → length b = BSIZE →
  0 ≤ lh_n lh < 2 ^ 32 → Forall (λ v, 0 ≤ v < 2 ^ 32) (lh_block lh) →
  decode_head (encode_head lh b) = lh.
Proof.
  intros Hl Hb Hn Hall. destruct lh as [n blocks]. unfold decode_head, encode_head. simpl in *.
  assert (LOGSIZE = 30%nat) as E by done. assert (BSIZE = 1024%nat) as E2 by done. rewrite E, E2 in *.
  f_equal.
  - rewrite get_put_u32s_lt by (rewrite ?length_put_u32; lia).
    apply get_put_u32; [lia|done].
  - rewrite <-Hl. apply get_put_u32s; [rewrite length_put_u32; lia|done].
Qed.

Lemma length_encode_head lh b :
  length (lh_block lh) = LOGSIZE → length b = BSIZE → length (encode_head lh b) = BSIZE.
Proof.
  intros Hl Hb. unfold encode_head. rewrite length_put_u32s; [done|].
  simpl length. rewrite Hl, Hb. vm_compute; lia.
Qed.

(** ** Crash atomicity *)

(** Contents of the home blocks before the transaction and after it. *)
Definition old_contents (st : LogSt) (b : Z) : block := dget (ls_disk st) b.
Definition new_contents (st : LogSt) (b : Z) : block :=
  if decide (b ∈ logged (ls_log st)) then bview st b else dget (ls_disk st) b.

(** The disk [d'] agrees with [f] outside the log area. *)
Definition home_agrees (l : Log) (d' : gmap Z block) (f : Z → block) : Prop :=
  ∀ b, home l b → dget d' b = f b.

(** A disk whose header lists nothing recovers to itself. *)
Lemma recover_empty start size dev d :
  0 < size → lh_n (decode_head (dget d start)) = 0 →
  recoverable start size dev d ∧
  ∃ st', log_new start size dev d = (Ok (), st') ∧
    home_agrees (disk_log start size dev d) (ls_disk st') (dget d).
Proof.
  intros Hsize Hz.
  assert (Hlog : logged (disk_log start size dev d) = [])
    by (unfold logged, disk_log; cbn [log_lh]; by rewrite Hz).
  assert (Hrv : recoverable start size dev d).
  { split; rewrite ?Hz, ?Hlog; [done|lia|constructor]. }
  split; [done|]. destruct (log_new_run start size dev d Hsize Hrv) as (st'&Hnew&_).
  exists st'. split; [done|]. intros b Hb.
  eapply (recovered_home start size dev d st' b Hsize Hrv); [|done|done|]; rewrite Hlog;
    [constructor|apply not_elem_of_nil].
Qed.

Section crash.
Context (st : LogSt) (Hr : commit_ready st).
Local Abbreviation l := (ls_log st).
Local Abbreviation start := (log_start l).
Local Abbreviation size := (log_size l).
Local Abbreviation dev := (log_dev l).

Lemma start_not_home : ¬ home l start.
Proof. destruct Hr. unfold home. lia. Qed.

Lemma head_decodes : decode_head (head_block st) = log_lh l.
Proof.
  destruct Hr as [Hn ? ? ? ? ? ? ?]. apply decode_encode_head; try done.
  assert (LOGSIZE = 30%nat) as E by done. rewrite E in Hn. lia.
Qed.

Lemma empty_head_decodes : lh_n (decode_head (empty_head st)) = 0.
Proof.
  destruct Hr. unfold empty_head. rewrite decode_encode_head; try done.
  by apply length_encode_head.
Qed.

(** A disk with the full header and log recovers to the new contents. *)
Lemma recover_full d :
  dget d start = head_block st →
  (∀ i b, logged l !! i = Some b → dget d (start + Z.of_nat i + 1) = bview st b) →
  (∀ b, home l b → b ∉ logged l → dget d b = dget (ls_disk st) b) →
  recoverable start size dev d ∧
  ∃ st', log_new start size dev d = (Ok (), st') ∧ home_agrees l (ls_disk st') (new_contents st).
Proof.
  intros Hh Hslots Hrest.
  assert (Hdl : logged (disk_log start size dev d) = logged l).
  { unfold logged, disk_log. cbn [log_lh]. by rewrite Hh, head_decodes. }
  assert (Hrv : recoverable start size dev d).
  { destruct Hr. split; rewrite ?Hdl, ?Hh, ?head_decodes; try done. lia. }
  split; [done|].
  assert (Hsize : 0 < size) by (destruct Hr; lia).
  destruct (log_new_run start size dev d Hsize Hrv) as (st'&Hnew&_).
  exists st'. split; [done|]. intros b Hb.
  destruct (recovered_home start size dev d st' b Hsize Hrv) as [Hin Hout]; [|done|done|].
  { rewrite Hdl. by destruct Hr. }
  rewrite Hdl in Hin, Hout. unfold new_contents. case_decide as Hd.
  - apply list_elem_of_lookup in Hd as [i Hi]. rewrite (Hin i Hi). by apply Hslots.
  - rewrite Hout by done. by apply Hrest.
Qed.

Local Abbreviation LW := (log_writes start 0 (logged l) (bview st)).
Local Abbreviation IW := ((λ b, (b, bview st b)) <$> logged l).

Lemma home_ne_slot b c : home l b → c ∈ LW.*1 → b ≠ c.
Proof.
  intros Hb Hc%log_writes_keys ->. pose proof (logged_length st Hr). destruct Hr. apply Hb. lia.
Qed.

Lemma IW_keys : IW.*1 = logged l.
Proof. rewrite <-list_fmap_compose. apply list_fmap_id. Qed.

(** Writes to log slots leave header and home blocks alone. *)
Lemma slots_frame ws b : ws ⊆ LW → home l b ∨ b = start → dget (apply_writes ws (ls_disk st)) b = dget (ls_disk st) b.
Proof.
  intros Hsub Hb. apply dget_apply_ne. intros Hin.
  assert (b ∈ LW.*1) as Hc.
  { apply list_elem_of_fmap in Hin as (w&->&Hw). apply list_elem_of_fmap_2. by apply Hsub. }
  destruct Hb as [Hb | ->]; [by eapply home_ne_slot|]. apply log_writes_keys in Hc. lia.
Qed.

(** The disk once the header is written and some home blocks are installed. *)
Lemma partial_install_full ws :
  ws ⊆ IW →
  let d := apply_writes (LW ++ [(start, head_block st)] ++ ws) (ls_disk st) in
  dget d start = head_block st ∧
  (∀ i b, logged l !! i = Some b → dget d (start + Z.of_nat i + 1) = bview st b) ∧
  (∀ b, home l b → b ∉ logged l → dget d b = dget (ls_disk st) b).
Proof.
  intros Hsub d. subst d.
  assert (Hws : ∀ b, b ∈ ws.*1 → b ∈ logged l).
  { intros b Hb. apply list_elem_of_fmap in Hb as (w&->&Hw). apply Hsub in Hw.
    apply list_elem_of_fmap in Hw as (c&->&Hc). done. }
  assert (Hwh : ∀ b, b ∈ ws.*1 → home l b).
  { intros b Hb. destruct Hr. by apply (proj1 (Forall_forall _ _) cr_home0), Hws. }
  rewrite !apply_writes_app. split_and!.
  - rewrite dget_apply_ne by (intros Hs; apply start_not_home; by apply Hwh).
    apply dget_apply; [apply NoDup_singleton|left].
  - intros i b Hi. pose proof (lookup_lt_Some _ _ _ Hi) as Hlt.
    pose proof (logged_length st Hr) as Hlen.
    assert (Hslot : ¬ home l (start + Z.of_nat i + 1)) by (destruct Hr; unfold home; lia).
    rewrite dget_apply_ne by (intros Hs; by apply Hslot, Hwh).
    rewrite dget_apply_ne by (intros [Hs | ?%not_elem_of_nil]%elem_of_cons; simpl in *; [lia|done]).
    apply dget_apply; [apply log_writes_NoDup|]. by apply (elem_of_log_writes start 0).
  - intros b Hb Hni. rewrite dget_apply_ne by (intros Hs; by apply Hni, Hws).
    rewrite dget_apply_ne by (intros [-> | ?%not_elem_of_nil]%elem_of_cons; [by apply start_not_home|done]).
    apply slots_frame; [done|by left].
Qed.

(** The disk after the whole commit. *)
Lemma finished_disk :
  let d := apply_writes (commit_writes st) (ls_disk st) in
  lh_n (decode_head (dget d start)) = 0 ∧ home_agrees l d (new_contents st).
Proof.
  intros d. subst d. unfold commit_writes. rewrite !apply_writes_app. split.
  - rewrite (dget_apply _ _ start (empty_head st)) by (apply NoDup_singleton || left).
    apply empty_head_decodes.
  - intros b Hb.
    assert (Hbs : ∀ x, b ∉ ([(start, x)] : list (Z * block)).*1)
      by (intros x [-> | ?%not_elem_of_nil]%elem_of_cons; [by apply start_not_home|done]).
    rewrite dget_apply_ne by done. unfold new_contents. case_decide as Hd.
    + apply dget_apply; [rewrite IW_keys; by destruct Hr|]. by apply (list_elem_of_fmap_2 (λ b, (b, bview st b))).
    + rewrite !dget_apply_ne; [done| | |]; [|done|by rewrite IW_keys].
      intros Hin. by eapply home_ne_slot.
Qed.

Lemma length_LW : length LW = length (logged l).
Proof. generalize 0%nat as k. induction (logged l) as [|b bs IH]; intros k; simpl; [done|]. by rewrite IH. Qed.

Lemma crash_before_header k :
  (k ≤ length (logged l))%nat →
  let d := apply_writes (take k (commit_writes st)) (ls_disk st) in
  recoverable start size dev d ∧
  ∃ st', log_new start size dev d = (Ok (), st') ∧ home_agrees l (ls_disk st') (old_contents st).
Proof.
  intros Hk d. subst d. unfold commit_writes. rewrite take_app_le by (rewrite length_LW; lia).
  assert (Hsub : take k LW ⊆ LW) by apply take_subseteq.
  destruct (recover_empty start size dev (apply_writes (take k LW) (ls_disk st))) as (Hrv&st'&Hnew&Ha).
  { destruct Hr; lia. }
  { rewrite slots_frame by (done || by right). by destruct Hr. }
  split; [done|]. exists st'. split; [done|]. intros b Hb. rewrite (Ha b Hb). apply slots_frame; [done|by left].
Qed.

Lemma crash_after_header k :
  (length (logged l) < k)%nat →
  let d := apply_writes (take k (commit_writes st)) (ls_disk st) in
  recoverable start size dev d ∧
  ∃ st', log_new start size dev d = (Ok (), st') ∧ home_agrees l (ls_disk st') (new_contents st).
Proof.
  intros Hk d. subst d. destruct (decide (length (commit_writes st) ≤ k)%nat) as [Hall|Hpart].
  - assert (Hsize : 0 < size) by (destruct Hr; lia).
    rewrite take_ge by done. destruct finished_disk as [Hz Hnew].
    destruct (recover_empty start size dev _ Hsize Hz) as (Hrv&st'&Hrun&Ha).
    split; [done|]. exists st'. split; [done|].
    intros b Hb. rewrite (Ha b Hb). by apply Hnew.
  - unfold commit_writes in *. rewrite !length_app, length_LW, length_fmap in Hpart. simpl in Hpart.
    destruct (k - length (logged l))%nat as [|j] eqn:Hj; [lia|].
    rewrite take_app_ge by (rewrite length_LW; lia). rewrite length_LW, Hj. simpl take.
    rewrite take_app_le by (rewrite length_fmap; lia).
    assert (Hsub : take j IW ⊆ IW) by apply take_subseteq.
    destruct (partial_install_full (take j IW) Hsub) as (Hh&Hs&Hrest).
    by apply (recover_full _ Hh Hs Hrest).
Qed.
End crash.

(** The disk if the machine stops after the first [k] of the disk writes
    recorded between [st] and [st']. *)
Definition crash_disk (st st' : LogSt) (k : nat) : gmap Z block :=
  apply_writes (take k (drop (length (ls_trace st)) (ls_trace st'))) (ls_disk st).

Lemma crash_disk_run st st' ws k : ls_trace st' = ls_trace st ++ ws → crash_disk st st' k = apply_writes (take k ws) (ls_disk st).
Proof. intros E. unfold crash_disk. by rewrite E, drop_app_length. Qed.

(** C@: commit is atomic with respect to crashes.  A commit of a transaction
    of [n] blocks succeeds and leaves an empty log and every home block with
    its new contents.  If the machine stops instead after any number [k] of
    the disk writes this run of [commit] makes, and the log is recovered from
    the disk, every block outside the log area has its contents from before
    the transaction as long as the header was not written ([k <= n]), and all
    blocks have their contents from after the transaction once it was
    ([k > n]).  No crash point mixes the two.  (The crash hook of the test
    suite is not armed; it stops the machine at [k = n + 1].) *)
Theorem commit_crash_atomic st :
  commit_ready st → ls_crash_armed st = false →
  ∃ st', commit st = (Ok (), st') ∧
    lh_n (log_lh (ls_log st')) = 0 ∧
    lh_n (decode_head (dget (ls_disk st') (log_start (ls_log st)))) = 0 ∧
    home_agrees (ls_log st) (ls_disk st') (new_contents st) ∧
    ∀ k, ∃ st2, log_new (log_start (ls_log st)) (log_size (ls_log st)) (log_dev (ls_log st)) (crash_disk st st' k) = (Ok (), st2) ∧
      home_agrees (ls_log st) (ls_disk st2)
        (if (k <=? length (logged (ls_log st)))%nat then old_contents st else new_contents st).
Proof.
  intros Hr Ha. destruct (commit_run st Hr Ha) as (st'&Hrun&HD&_&HT&HL&_).
  exists st'. split; [done|]. split; [by rewrite HL|]. rewrite HD. destruct (finished_disk st Hr) as [Hz Hn]. split_and!; [done|done|].
  intros k. rewrite (crash_disk_run _ _ _ _ HT). destruct (Nat.leb_spec k (length (logged (ls_log st)))).
  - by apply crash_before_header.
  - by apply crash_after_header.
Qed.

(** ** Crashes during recovery *)

Definition block_ok (x : block) : Prop := length x = BSIZE ∧ Forall is_byte x.

Lemma put_u32s_byte i vs b : Forall is_byte b → Forall is_byte (put_u32s i vs b).
Proof.
  revert i b. induction vs as [|v vs IH]; intros i b Hb; simpl; [done|].
  apply IH. apply write_at_Forall; [apply le_bytes_byte|done].
Qed.

Lemma encode_head_ok lh b :
  length (lh_block lh) = LOGSIZE → block_ok b → block_ok (encode_head lh b).
Proof. intros Hl [Hb Hy]. split; [by apply length_encode_head|by apply put_u32s_byte]. Qed.

Lemma decode_head_u32 b : Forall is_byte b → Forall (λ v, 0 ≤ v < 2 ^ 32) (lh_block (decode_head b)).
Proof. intros Hb. apply Forall_fmap, Forall_true. intros i. by apply get_u32_range. Qed.

Lemma clear_head_decodes lh b :
  length (lh_block lh) = LOGSIZE → Forall (λ v, 0 ≤ v < 2 ^ 32) (lh_block lh) → length b = BSIZE →
  lh_n (decode_head (encode_head (mkLogHeader 0 (lh_block lh)) b)) = 0.
Proof. intros. by rewrite decode_encode_head. Qed.

Section recovery_crash.
Context (start size dev : Z) (d : gmap Z block).
Context (Hsize : 0 < size) (Hrv : recoverable start size dev d).
Context (Hnd : NoDup (logged (disk_log start size dev d))) (Hok : block_ok (dget d start)).
Local Abbreviation l := (disk_log start size dev d).
Local Abbreviation n := (length (logged l)).

Lemma logged_home b : b ∈ logged l → home l b.
Proof. destruct Hrv. apply (proj1 (Forall_forall _ _) rv_home0). Qed.

Lemma length_logged_disk : Z.of_nat n < size.
Proof.
  destruct Hrv as [_ Hf _]. unfold logged, disk_log. cbn [log_lh]. rewrite length_take. lia.
Qed.

(** Part of the installation leaves the log area as it is. *)
Lemma partial_recover_frame k b :
  ¬ home l b → dget (apply_writes (take k (install_writes start 0 (logged l) (dget d))) d) b = dget d b.
Proof.
  intros Hb. apply dget_apply_ne. intros Hin. apply Hb, logged_home.
  rewrite <-(install_writes_keys start 0 (logged l) (dget d)).
  apply list_elem_of_fmap in Hin as (w&->&Hw). apply list_elem_of_fmap_2. by eapply take_subseteq.
Qed.

Lemma partial_recover_log k :
  disk_log start size dev (apply_writes (take k (install_writes start 0 (logged l) (dget d))) d) = l.
Proof. unfold disk_log. rewrite partial_recover_frame; [done|]. unfold home. simpl. lia. Qed.

Lemma partial_recover_same k st1 :
  log_new start size dev d = (Ok (), st1) →
  ∃ st2, log_new start size dev
           (apply_writes (take k (install_writes start 0 (logged l) (dget d))) d) = (Ok (), st2) ∧
    home_agrees l (ls_disk st2) (dget (ls_disk st1)).
Proof.
  intros H1. set (d' := apply_writes _ d).
  assert (Hl : disk_log start size dev d' = l) by apply partial_recover_log.
  assert (Hh : dget d' start = dget d start) by (apply partial_recover_frame; unfold home; simpl; lia).
  assert (Hrv' : recoverable start size dev d').
  { destruct Hrv as [R1 R2 R3]. split; rewrite ?Hh, ?Hl; done. }
  destruct (log_new_run start size dev d' Hsize Hrv') as (st2&H2&_).
  exists st2. split; [done|]. intros b Hb.
  destruct (recovered_home start size dev d st1 b Hsize Hrv Hnd H1 Hb) as [In1 Out1].
  destruct (recovered_home start size dev d' st2 b Hsize Hrv') as [In2 Out2]; rewrite ?Hl in *; try done.
  destruct (decide (b ∈ logged l)) as [Hd|Hd].
  - apply list_elem_of_lookup in Hd as [i Hi]. rewrite (In1 i Hi), (In2 i Hi).
    apply partial_recover_frame. pose proof (lookup_lt_Some _ _ _ Hi).
    pose proof length_logged_disk. unfold home; simpl; lia.
  - rewrite (Out1 Hd), (Out2 Hd). apply dget_apply_ne. intros Hin.
    apply Hd. rewrite <-(install_writes_keys start 0 (logged l) (dget d)).
    apply list_elem_of_fmap in Hin as (w&->&Hw). apply list_elem_of_fmap_2. by eapply take_subseteq.
Qed.

Lemma full_recover_same k st1 :
  log_new start size dev d = (Ok (), st1) → (length (recover_writes start size dev d) ≤ k)%nat →
  ∃ st2, log_new start size dev
           (apply_writes (take k (recover_writes start size dev d)) d) = (Ok (), st2) ∧
    home_agrees l (ls_disk st2) (dget (ls_disk st1)).
Proof.
  intros H1 Hk. rewrite take_ge by done.
  destruct (log_new_run start size dev d Hsize Hrv) as (st1'&H1'&HD&_).
  rewrite H1 in H1'. injection H1' as <-.
  destruct (recover_empty start size dev (ls_disk st1) Hsize) as (_&st2&H2&Ha).
  { rewrite HD. unfold recover_writes. rewrite apply_writes_app.
    erewrite (dget_apply _ _ start) by (apply NoDup_singleton || left).
    apply clear_head_decodes; [apply length_decode_head|apply decode_head_u32, Hok|apply Hok]. }
  rewrite <-HD. exists st2. split; [done|]. intros b Hb. by apply Ha.
Qed.
End recovery_crash.

(** Recovery can itself be interrupted.  If the machine stops after any
    number [k] of recovery's own disk writes and recovery runs again on the
    disk it left, every home block ends up as it would have after the first
    recovery: reinstalling is idempotent and the header is cleared last. *)
Theorem recovery_idempotent start size dev d k :
  0 < size → recoverable start size dev d → NoDup (logged (disk_log start size dev d)) →
  block_ok (dget d start) →
  ∃ st1 st2, log_new start size dev d = (Ok (), st1) ∧
    ls_trace st1 = recover_writes start size dev d ∧
    log_new start size dev (apply_writes (take k (recover_writes start size dev d)) d) = (Ok (), st2) ∧
    home_agrees (disk_log start size dev d) (ls_disk st2) (dget (ls_disk st1)).
Proof.
  intros Hs Hrv Hnd Hok. destruct (log_new_run start size dev d Hs Hrv) as (st1&H1&_&_&Ht&_).
  exists st1. destruct (decide (length (recover_writes start size dev d) ≤ k)%nat) as [Hk|Hk].
  - destruct (full_recover_same start size dev d Hs Hrv Hok k st1 H1 Hk) as (st2&?&?). by exists st2.
  - destruct (partial_recover_same start size dev d Hs Hrv Hnd k st1 H1) as (st2&?&?).
    exists st2. split; [done|]. split; [done|]. unfold recover_writes in *.
    rewrite length_app in Hk. simpl in Hk. rewrite take_app_le by lia. done.
Qed.


(** ** Concrete instances *)

(** A transaction of two blocks over the log area mkfs lays out. *)
Definition example_txn : LogSt :=
  mkLogSt ∅ (<[50 := replicate BSIZE 7]> {[ 51 := replicate BSIZE 9 ]}) ∅ []
    (mkLog 2 30 1 0 true (mkLogHeader 2 ([50; 51] ++ replicate 28 0))) false false.

Lemma example_txn_ready : commit_ready example_txn.
Proof.
  assert (E : logged (ls_log example_txn) = [50; 51]) by reflexivity.
  split; rewrite ?E; simpl.
  - unfold LOGSIZE, MAXOPBLOCKS. lia.
  - lia.
  - reflexivity.
  - repeat constructor; lia.
  - apply (bool_decide_unpack _). vm_compute. exact I.
  - repeat constructor; unfold home; simpl; lia.
  - reflexivity.
  - vm_compute. reflexivity.
Qed.

Lemma commit_crash_atomic_witness :
  ∃ st', commit example_txn = (Ok (), st') ∧
    ∃ st2, log_new 2 30 1 (crash_disk example_txn st' 3) = (Ok (), st2) ∧
      home_agrees (ls_log example_txn) (ls_disk st2) (new_contents example_txn).
Proof.
  destruct (commit_crash_atomic example_txn example_txn_ready eq_refl) as (st' & Hrun & _ & _ & _ & Hk).
  exists st'. split; [exact Hrun|]. exact (Hk 3%nat).
Defined.
