(* ===== verification/Bio.v ===== *)
(** * The buffer cache

    [kernel/src/bio.rs]: the cached disk blocks, their list in order of last
    use, the index from block numbers to buffers, and the steps of [read],
    [write] and release of a buffer.  A buffer is named by its number; the
    [Weak] pointers between buffers are their numbers too, and never dangle
    since every buffer stays on the list ([dll] below).  [DISK.rw] reads
    or writes one block. *)

From stdpp Require Import base tactics numbers gmap list.
From S2P Require Import Prelude Params Errors.
Local Open Scope Z_scope.

Abbreviation Key := (Z * Z)%type.

(** [struct Data]; the flag [disk] is the driver's. *)
Record Data := mkData { d_data : list Z; d_blockno : Z; d_dev : Z; d_valid : bool }.
Definition Data_new : Data := mkData (replicate 1024 0) 0 0 false.

(** [struct Buf] with its [Meta], the strong count of [data], and the sleep
    lock around it: [lk_pid] is the holder, if any. *)
Record Buf := mkBuf {
  b_dev : Z; b_blockno : Z; b_next : option nat; b_prev : option nat; strong : nat; lk_pid : option Z; b_data : Data;
}.
Definition Buf_new : Buf := mkBuf 0 0 None None 1 None Data_new.
Definition b_key (x : Buf) : Key := (b_dev x, b_blockno x).

(** [struct BCache] with its [Lru], and the disk. *)
Record BCache := mkBCache {
  bufs : list Buf; head : option nat; tail : option nat; index : gmap Key nat; lru_n : nat; bdisk : gmap Z (list Z);
}.
Definition BCache_new (d : gmap Z (list Z)) : BCache := mkBCache (replicate NBUF Buf_new) None None ∅ 0 d.
Definition disk_block (c : BCache) (bno : Z) : list Z := default (replicate 1024 0) (bdisk c !! bno).

Definition set_bufs (l : list Buf) (c : BCache) : BCache := mkBCache l (head c) (tail c) (index c) (lru_n c) (bdisk c).
Definition set_head (h : option nat) (c : BCache) : BCache := mkBCache (bufs c) h (tail c) (index c) (lru_n c) (bdisk c).
Definition set_tail (t : option nat) (c : BCache) : BCache := mkBCache (bufs c) (head c) t (index c) (lru_n c) (bdisk c).
Definition set_index (m : gmap Key nat) (c : BCache) : BCache := mkBCache (bufs c) (head c) (tail c) m (lru_n c) (bdisk c).
Definition set_n (n : nat) (c : BCache) : BCache := mkBCache (bufs c) (head c) (tail c) (index c) n (bdisk c).
Definition set_disk (d : gmap Z (list Z)) (c : BCache) : BCache := mkBCache (bufs c) (head c) (tail c) (index c) (lru_n c) d.

Definition with_next (n : option nat) (x : Buf) : Buf := mkBuf (b_dev x) (b_blockno x) n (b_prev x) (strong x) (lk_pid x) (b_data x).
Definition with_prev (p : option nat) (x : Buf) : Buf := mkBuf (b_dev x) (b_blockno x) (b_next x) p (strong x) (lk_pid x) (b_data x).
Definition with_key (k : Key) (x : Buf) : Buf := mkBuf k.1 k.2 (b_next x) (b_prev x) (strong x) (lk_pid x) (b_data x).
Definition with_strong (n : nat) (x : Buf) : Buf := mkBuf (b_dev x) (b_blockno x) (b_next x) (b_prev x) n (lk_pid x) (b_data x).
Definition with_lock (p : option Z) (x : Buf) : Buf := mkBuf (b_dev x) (b_blockno x) (b_next x) (b_prev x) (strong x) p (b_data x).
Definition with_data (d : Data) (x : Buf) : Buf := mkBuf (b_dev x) (b_blockno x) (b_next x) (b_prev x) (strong x) (lk_pid x) d.

Abbreviation BM := (M Error BCache).
Definition getb (b : nat) : BM Buf := λ c, match bufs c !! b with Some x => (Ok x, c) | None => (Panic, c) end.
Definition modb (b : nat) (f : Buf → Buf) : BM () := λ c, (Ok (), set_bufs (alter f b (bufs c)) c).
Definition upd (f : BCache → BCache) : BM () := λ c, (Ok (), f c).
(** [if let Some(ref x) = o { f(x) }]. *)
Definition if_some (o : option nat) (f : nat → BM ()) : BM () := match o with Some x => f x | None => mret () end.

(** [Lru::add]. *)
Definition lru_add (b : nat) : BM () :=
  c ← m_get;
  _ ← match tail c with
      | Some old_tail => _ ← modb old_tail (with_next (Some b)); modb b (with_prev (Some old_tail))
      | None => upd (set_head (Some b))
      end;
  _ ← upd (set_tail (Some b));
  upd (λ c, set_n (S (lru_n c)) c).

(** [init]. *)
Definition binit : BM () := m_for (seq 0 NBUF) lru_add.

(** The search of [Lru::_get] for a buffer to recycle, from the tail; the
    count runs out where the source asserts [i < 30]. *)
Fixpoint scan (n : nat) (cur : option nat) : BM nat :=
  match n, cur with
  | S n, Some b => x ← getb b; if (strong x =? 1)%nat then mret b else scan n (b_prev x)
  | _, _ => m_panic
  end.

(** [Lru::_get]. *)
Definition lru_get (dev blockno : Z) : BM (bool * nat) :=
  c ← m_get;
  let recycle := b ← scan 30 (tail c); mret (true, b) in
  match index c !! (dev, blockno) with
  | Some b => x ← getb b; if (b_dev x =? dev) && (b_blockno x =? blockno) then mret (false, b) else recycle
  | None => recycle
  end.

(** [Lru::relse]. *)
Definition relse (b : nat) : BM () :=
  x ← getb b;
  if (strong x =? 1)%nat then
    match b_prev x with
    | None => mret ()
    | Some _ =>
        let detached_next := b_next x in
        let detached_prev := b_prev x in
        _ ← modb b (λ x, with_next None (with_prev None x));
        _ ← if_some detached_next (λ n, modb n (with_prev detached_prev));
        _ ← if_some detached_prev (λ p, modb p (with_next detached_next));
        c ← m_get;
        _ ← match head c with
            | Some old_head => _ ← modb old_head (with_prev (Some b)); modb b (with_next (Some old_head))
            | None => upd (set_tail (Some b))
            end;
        _ ← upd (set_head (Some b));
        match detached_next with None => upd (set_tail detached_prev) | Some _ => mret () end
    end
  else mret ().

(** [BCache::get], the part under the lock of the list: find or recycle a
    buffer and give it its new name. *)
Definition get_lookup (dev blockno : Z) : BM (bool * nat) :=
  rb ← lru_get dev blockno;
  let '(recycle, b) := rb in
  if (recycle : bool) then
    x ← getb b;
    _ ← (if bool_decide (b_key x = (0, 0)) then mret () else upd (λ c, set_index (delete (b_key x) (index c)) c));
    _ ← modb b (with_key (dev, blockno));
    _ ← upd (λ c, set_index (<[(dev, blockno) := b]> (index c)) c);
    mret (recycle, b)
  else mret (recycle, b).

(** [BCache::get], the part under the sleep lock of the buffer, once [pid]
    has it; and the reference the guard holds. *)
Definition get_take (pid : Z) (recycle : bool) (b : nat) (dev blockno : Z) (c : BCache) : blocking Error () * BCache :=
  match bufs c !! b with
  | None => (Returns Panic, c)
  | Some x =>
      match lk_pid x with
      | Some _ => (Sleeps, c)
      | None =>
          let d := if recycle then mkData (d_data (b_data x)) blockno dev false else b_data x in
          (Returns (Ok ()), set_bufs (<[b := with_strong (S (strong x)) (with_lock (Some pid) (with_data d x))]> (bufs c)) c)
      end
  end.

(** The rest of [BCache::read]: the block is read if the buffer does not have
    it. *)
Definition read_fill (b : nat) : BM () :=
  x ← getb b;
  if d_valid (b_data x) then mret ()
  else
    c ← m_get;
    let d := b_data x in
    modb b (with_data (mkData (disk_block c (d_blockno d)) (d_blockno d) (d_dev d) true)).

(** A store into the data of a buffer the caller has locked. *)
Definition store (b : nat) (v : list Z) : BM () :=
  modb b (λ x, let d := b_data x in with_data (mkData v (d_blockno d) (d_dev d) (d_valid d)) x).

(** [BufGuard::write]. *)
Definition buf_write (pid : Z) (b : nat) : BM () :=
  x ← getb b;
  if bool_decide (lk_pid x = Some pid) then
    upd (λ c, set_disk (<[d_blockno (b_data x) := d_data (b_data x)]> (bdisk c)) c)
  else m_panic.

(** [BufGuard::pin] and [BufGuard::unpin]. *)
Definition pin (b : nat) : BM () := modb b (λ x, with_strong (S (strong x)) x).
Definition unpin (b : nat) : BM () := modb b (λ x, with_strong (pred (strong x)) x).

(** [Drop for BufGuard] up to the call of [relse]. *)
Definition guard_drop (pid : Z) (b : nat) : BM () :=
  x ← getb b;
  if bool_decide (lk_pid x = Some pid) then
    _ ← modb b (with_lock None);
    modb b (λ x, with_strong (pred (strong x)) x)
  else m_panic.

(** * The list of buffers

    The buffers of the cache form a doubly linked list in order of last
    release.  [relse] moves a buffer to its front and the search for a buffer
    to recycle finds the one nearest to its end that nobody refers to. *)

Record dll (c : BCache) (l : list nat) : Prop := {
  dl_nodup : NoDup l;
  dl_head : head c = l !! 0%nat;
  dl_tail : tail c = last l;
  dl_link i b : l !! i = Some b → ∃ x, bufs c !! b = Some x ∧
    b_prev x = match i with O => None | S j => l !! j end ∧ b_next x = l !! S i;
}.

Lemma getb_run b c x : bufs c !! b = Some x → getb b c = (Ok x, c).
Proof. unfold getb. by intros ->. Qed.

Lemma modb_run b f c : modb b f c = (Ok (), set_bufs (alter f b (bufs c)) c).
Proof. done. Qed.

(** Links survive changes of anything else. *)
Definition same_links (x y : Buf) : Prop := b_next y = b_next x ∧ b_prev y = b_prev x.
Lemma dll_same c c' l : dll c l → head c' = head c → tail c' = tail c →
  (∀ b x, bufs c !! b = Some x → ∃ y, bufs c' !! b = Some y ∧ same_links x y) → dll c' l.
Proof.
  intros [H1 H2 H3 H4] Hh Ht Hb. split; [done|congruence|congruence|]. intros i b Hi.
  destruct (H4 i b Hi) as (x&Hx&Hp&Hn). destruct (Hb b x Hx) as (y&Hy&E1&E2). exists y. by rewrite E1, E2.
Qed.

(** ** Finding a buffer to recycle *)

Lemma scan_spec c l : dll c l → ∀ n k, (k ≤ length l)%nat → (k ≤ n)%nat →
  let cur := match k with O => None | S j => l !! j end in
  (∃ i b x, (i < k)%nat ∧ l !! i = Some b ∧ bufs c !! b = Some x ∧ strong x = 1%nat ∧ scan n cur c = (Ok b, c) ∧
     ∀ j b' x', (i < j < k)%nat → l !! j = Some b' → bufs c !! b' = Some x' → strong x' ≠ 1%nat) ∨
  (scan n cur c = (Panic, c) ∧ ∀ j b x, (j < k)%nat → l !! j = Some b → bufs c !! b = Some x → strong x ≠ 1%nat).
Proof.
  intros Hd. induction n as [|n IH]; intros k Hk Hn cur.
  { right. split; [by destruct cur|lia]. }
  destruct k as [|k]; [right; split; [done|lia]|]. unfold cur.
  destruct (lookup_lt_is_Some_2 l k) as [b Hb]; [lia|]. destruct (dl_link _ _ Hd k b Hb) as (x&Hx&Hp&_).
  rewrite Hb. cbn [scan]. rewrite (bind_ok _ _ _ _ _ (getb_run b c x Hx)). destruct (Nat.eqb_spec (strong x) 1) as [E|E].
  { left. exists k, b, x. split_and!; [lia|done|done|done|done|lia]. }
  rewrite Hp. destruct (IH k) as [(i&b'&x'&H1&H2&H3&H4&H5&H6)|[H1 H2]]; [lia|lia| |].
  - left. exists i, b', x'. split_and!; [lia|done..|]. intros j y z Hj Hy Hz. destruct (decide (j = k)) as [->|]; [|apply (H6 j y z); [lia|done..]].
    assert (y = b) as -> by congruence. congruence.
  - right. split; [done|]. intros j y z Hj Hy Hz. destruct (decide (j = k)) as [->|]; [|apply (H2 j y z); [lia|done..]].
    assert (y = b) as -> by congruence. congruence.
Qed.

(** ** Releasing *)

(** The fields of a buffer after [relse] has moved [b] to the front. *)
Definition relinked (b : nat) (dn dp h : option nat) (y : nat) (x : Buf) : Buf :=
  let nx := if decide (y = b) then h else if decide (dp = Some y) then dn else b_next x in
  let pv := if decide (y = b) then None else if decide (h = Some y) then Some b else if decide (dn = Some y) then dp else b_prev x in
  with_next nx (with_prev pv x).

Lemma lookup_alter_cases {A} (f : A → A) (l : list A) i j :
  alter f i l !! j = (if decide (i = j) then f <$> l !! j else l !! j).
Proof.
  destruct (decide (i = j)) as [->|]; [apply list_lookup_alter_eq|by apply list_lookup_alter_ne].
Qed.

Lemma relse_run c b x p h : bufs c !! b = Some x → strong x = 1%nat → b_prev x = Some p → head c = Some h →
  h ≠ b → p ≠ b → b_next x ≠ Some b → b_next x ≠ Some h → b_next x ≠ Some p →
  ∃ l', relse b c = (Ok (), mkBCache l' (Some b) (match b_next x with None => Some p | Some _ => tail c end)
                                    (index c) (lru_n c) (bdisk c)) ∧
    ∀ y, l' !! y = relinked b (b_next x) (Some p) (Some h) y <$> bufs c !! y.
Proof.
  intros Hx Hs Hp Hh N1 N2 N3 N4 N5. unfold relse. rewrite (bind_ok _ _ _ _ _ (getb_run b c x Hx)), Hs, Hp. cbn [Nat.eqb].
  assert (Hlook : ∀ (o : option nat) (c0 : BCache), ∃ l', if_some o (λ n, modb n (with_prev (Some p))) c0 = (Ok (), set_bufs l' c0) ∧
    ∀ y, l' !! y = (if decide (o = Some y) then with_prev (Some p) <$> bufs c0 !! y else bufs c0 !! y)).
  { intros [n|] c0; simpl.
    - eexists. split; [reflexivity|]. intros y. rewrite lookup_alter_cases. repeat case_decide; congruence.
    - exists (bufs c0). split; [by destruct c0|done]. }
  rewrite (bind_ok (modb b _) _ _ _ _ (modb_run _ _ _)).
  set (c1 := set_bufs _ c). destruct (Hlook (b_next x) c1) as (l2&Hrun2&Hl2). rewrite (bind_ok _ _ _ _ _ Hrun2).
  rewrite (bind_ok (if_some (Some p) _) _ _ _ _ (modb_run _ _ _)).
  rewrite (bind_ok m_get _ _ _ _ eq_refl). cbn [head set_bufs]. change (head c1) with (head c). rewrite Hh.
  set (c3 := set_bufs (alter (with_next (b_next x)) p (bufs (set_bufs l2 c1))) (set_bufs l2 c1)).
  rewrite (bind_ok (_ ← modb h _; modb b _) _ c3 () (set_bufs (alter (with_next (Some h)) b (alter (with_prev (Some b)) h (bufs c3))) c3)) by done.
  rewrite (bind_ok (upd _) _ _ _ _ eq_refl).
  exists (alter (with_next (Some h)) b (alter (with_prev (Some b)) h (bufs c3))). split.
  { destruct (b_next x); by destruct c. }
  intros y. rewrite !lookup_alter_cases. cbn [bufs c3 set_bufs]. rewrite lookup_alter_cases, Hl2. unfold c1. cbn [bufs set_bufs].
  rewrite lookup_alter_cases. unfold relinked.
  destruct (bufs c !! y) as [z|]; [|by repeat case_decide].
  repeat case_decide; try congruence; subst; simpl; try congruence; destruct z; try done; unfold with_next, with_prev; simpl; congruence.
Qed.

(** [relse] of a buffer with no reference left moves it to the front. *)
Lemma relse_dll c l k b x : dll c l → l !! k = Some b → bufs c !! b = Some x → strong x = 1%nat →
  ∃ c', relse b c = (Ok (), c') ∧ dll c' (b :: delete k l) ∧
    index c' = index c ∧ bdisk c' = bdisk c ∧ lru_n c' = lru_n c ∧
    ∀ y, ∃ nx pv, bufs c' !! y = (λ z, with_next nx (with_prev pv z)) <$> bufs c !! y.
Proof.
  intros [D1 D2 D3 D4] Hk Hx Hs. destruct (D4 k b Hk) as (x'&Hx'&Hp&Hn). assert (x' = x) as -> by congruence.
  destruct k as [|k].
  { destruct l as [|y l]; [done|]. injection Hk as ->. exists c. split_and!; [|by split|done|done|done|].
    - unfold relse. by rewrite (bind_ok _ _ _ _ _ (getb_run b c x Hx)), Hs, Hp.
    - intros y. destruct (bufs c !! y) as [z|] eqn:E; [|by exists None, None]. exists (b_next z), (b_prev z). by destruct z. }
  pose proof (lookup_lt_Some _ _ _ Hk) as Hlen.
  destruct (lookup_lt_is_Some_2 l k) as [p Hpk]; [lia|]. destruct (lookup_lt_is_Some_2 l 0) as [h Hh]; [lia|].
  assert (Huniq : ∀ i j z, l !! i = Some z → l !! j = Some z → i = j) by (intros; by eapply NoDup_lookup).
  rewrite Hpk in Hp. rewrite Hh in D2.
  destruct (relse_run c b x p h Hx Hs Hp D2) as (l'&Hrun&Hl').
  { intros ->. by specialize (Huniq _ _ _ Hh Hk). }
  { intros ->. specialize (Huniq _ _ _ Hpk Hk). lia. }
  { rewrite Hn. intros E. specialize (Huniq _ _ _ E Hk). lia. }
  { rewrite Hn. intros E. specialize (Huniq _ _ _ E Hh). lia. }
  { rewrite Hn. intros E. specialize (Huniq _ _ _ E Hpk). lia. }
  eexists. split; [exact Hrun|]. split_and!; [|done..|].
  2:{ intros y. cbn [bufs]. rewrite Hl'. destruct (bufs c !! y) as [z|]; [|by exists None, None]. unfold relinked. simpl. eexists _, _. reflexivity. }
  assert (Hdel : ∀ j, delete (S k) l !! j = if decide (j < S k)%nat then l !! j else l !! S j).
  { intros j. case_decide; [by apply list_lookup_delete_lt|apply list_lookup_delete_ge; lia]. }
  assert (Hdl : length (delete (S k) l) = (length l - 1)%nat) by (apply length_delete; by eexists).
  split; simpl.
  - constructor; [|by apply (sublist_NoDup _ _ D1), sublist_delete]. intros Hin. apply list_elem_of_lookup_1 in Hin as [j Hj].
    rewrite Hdel in Hj. case_decide; specialize (Huniq _ _ _ Hj Hk); lia.
  - done.
  - rewrite last_lookup. cbn [length pred]. rewrite Hdl, Hn. destruct (l !! S (S k)) as [n|] eqn:E.
    + pose proof (lookup_lt_Some _ _ _ E). replace (length l - 1)%nat with (S (length l - 2)) by lia. cbn [lookup list_lookup].
      rewrite Hdel, decide_False by lia. rewrite D3, last_lookup. f_equal. lia.
    + apply lookup_ge_None in E. replace (length l - 1)%nat with (S k) by lia. cbn [lookup list_lookup].
      rewrite Hdel, decide_True by lia. done.
  - intros i y Hy. rewrite Hl'. destruct i as [|j].
    + injection Hy as <-. rewrite Hx. eexists. split; [reflexivity|]. unfold relinked. rewrite !decide_True by done. simpl.
      split; [done|]. change ((b :: delete (S k) l) !! 1%nat) with (delete (S k) l !! 0%nat). rewrite Hdel, decide_True by lia. done.
    + change (delete (S k) l !! j = Some y) in Hy. change ((b :: delete (S k) l) !! S (S j)) with (delete (S k) l !! S j). rewrite Hdel in Hy |- *.
      assert (Hi : ∃ i, l !! i = Some y ∧ i = if decide (j < S k)%nat then j else S j) by (case_decide; eauto).
      destruct Hi as (i&Hi&Ei). assert (y ≠ b) by (intros ->; specialize (Huniq _ _ _ Hi Hk); case_decide; lia).
      destruct (D4 i y Hi) as (z&Hz&Zp&Zn). rewrite Hz. eexists. split; [reflexivity|]. unfold relinked. simpl.
      rewrite (decide_False (P := y = b)) by done. rewrite (decide_False (P := y = b)) by done. split.
      * assert (Hj : match j with O => Some b | S j' => delete (S k) l !! j' end = (b :: delete (S k) l) !! j) by (by destruct j).
        rewrite <-Hj. destruct (decide (Some h = Some y)) as [Eh|Eh].
        -- assert (i = 0%nat) by (injection Eh as ->; by eapply Huniq). destruct j; [done|]. exfalso. case_decide; lia.
        -- destruct (decide (b_next x = Some y)) as [En|En].
           ++ rewrite Hn in En. specialize (Huniq _ _ _ En Hi). destruct j as [|j']; [exfalso; case_decide; lia|].
              rewrite Hdel. case_decide; [lia|]. assert (j' = k) as -> by lia. rewrite decide_True by lia. done.
           ++ rewrite Zp. rewrite Hn in En. destruct i as [|i'].
              { exfalso. apply Eh. congruence. }
              destruct j as [|j']; [exfalso; case_decide; lia|]. rewrite Hdel. destruct (decide (S j' < S k)%nat).
              ** rewrite decide_True by lia. f_equal. lia.
              ** rewrite decide_False; [f_equal; lia|]. intros Hlt. assert (i' = S k) as -> by lia. congruence.
      * destruct (decide (Some p = Some y)) as [Ep|Ep].
        -- assert (i = k) by (injection Ep as ->; by eapply Huniq). rewrite Hn. assert (j = k) as -> by (case_decide; lia).
           rewrite decide_False by lia. done.
        -- rewrite Zn. case_decide as Hjk.
           ++ subst i. rewrite decide_True; [done|]. destruct (decide (j = k)) as [->|]; [exfalso; apply Ep; congruence|lia].
           ++ rewrite decide_False by lia. by subst i.
Qed.
