(* ===== verification/BioCoh.v ===== *)
(** * Coherence of the buffer cache

    Processes that read, change, write and release buffers, in any order.
    [BCache::get] looks a buffer up under the lock of the list, but takes its
    reference to it only later, under the buffer's own lock; [allowed] is the
    condition on what others do in between.  Under it every process sees the
    last data stored in a block, whether the block is cached or not.  Without
    it a process can be handed the data of another block. *)

From stdpp Require Import base tactics numbers gmap gmultiset list.
From S2P Require Import Prelude Params Errors Bio.
Local Open Scope Z_scope.

Definition DEV : Z := ROOTDEV.

(** A [get] between its two parts, and a buffer some process has locked;
    [g_ready] once [read] has returned. *)
Record Pend := mkPend { p_pid : Z; p_recycle : bool; p_buf : nat; p_bno : Z }.
Record Guard := mkGuard { g_pid : Z; g_buf : nat; g_bno : Z; g_ready : bool }.

Record Sys := mkSys { cache : BCache; pends : list Pend; guards : list Guard; pins : gmultiset nat }.

Inductive Label :=
  | LLookup (recycle : bool) (b : nat)
  | LStore (bno : Z) (v : list Z)
  | LDrop (g : Guard)
  | LTau.

Inductive step (s : Sys) : Label → Sys → Prop :=
  | st_lookup pid bno r b c' :
      get_lookup DEV bno (cache s) = (Ok (r, b), c') →
      step s (LLookup r b) (mkSys c' (mkPend pid r b bno :: pends s) (guards s) (pins s))
  | st_lock p ps c' :
      pends s ≡ₚ p :: ps →
      get_take (p_pid p) (p_recycle p) (p_buf p) DEV (p_bno p) (cache s) = (Returns (Ok ()), c') →
      step s LTau (mkSys c' ps (mkGuard (p_pid p) (p_buf p) (p_bno p) false :: guards s) (pins s))
  | st_fill g gs c' :
      guards s ≡ₚ g :: gs → g_ready g = false → read_fill (g_buf g) (cache s) = (Ok (), c') →
      step s LTau (mkSys c' (pends s) (mkGuard (g_pid g) (g_buf g) (g_bno g) true :: gs) (pins s))
  | st_store g gs v c' :
      guards s ≡ₚ g :: gs → g_ready g = true → store (g_buf g) v (cache s) = (Ok (), c') →
      step s (LStore (g_bno g) v) (mkSys c' (pends s) (guards s) (pins s))
  | st_write g gs c' :
      guards s ≡ₚ g :: gs → g_ready g = true → buf_write (g_pid g) (g_buf g) (cache s) = (Ok (), c') →
      step s LTau (mkSys c' (pends s) (guards s) (pins s))
  | st_pin g gs c' :
      guards s ≡ₚ g :: gs → g_ready g = true → pin (g_buf g) (cache s) = (Ok (), c') →
      step s LTau (mkSys c' (pends s) (guards s) (pins s ⊎ {[+ g_buf g +]}))
  | st_unpin g gs c' ps :
      guards s ≡ₚ g :: gs → g_ready g = true → pins s = ps ⊎ {[+ g_buf g +]} → unpin (g_buf g) (cache s) = (Ok (), c') →
      step s LTau (mkSys c' (pends s) (guards s) ps)
  | st_drop g gs c' :
      guards s ≡ₚ g :: gs → g_ready g = true → guard_drop (g_pid g) (g_buf g) (cache s) = (Ok (), c') →
      step s (LDrop g) (mkSys c' (pends s) gs (pins s))
  | st_relse b c' :
      relse b (cache s) = (Ok (), c') → step s LTau (mkSys c' (pends s) (guards s) (pins s)).

(** The contents of a block as the next reader will find them. *)
Definition d_key (x : Buf) : Key := (d_dev (b_data x), d_blockno (b_data x)).
Definition view (c : BCache) (bno : Z) : list Z :=
  match index c !! (DEV, bno) with
  | Some b =>
      match bufs c !! b with
      | Some x => if d_valid (b_data x) && bool_decide (d_key x = (DEV, bno)) then d_data (b_data x) else disk_block c bno
      | None => disk_block c bno
      end
  | None => disk_block c bno
  end.

(** A lookup does not choose a buffer that another [get] has chosen and not
    yet taken, unless both found it cached; and a changed buffer is written or
    pinned before it is released. *)
Definition allowed (s : Sys) (l : Label) : Prop :=
  match l with
  | LLookup r b => ∀ p, p ∈ pends s → p_buf p = b → r = false ∧ p_recycle p = false
  | LDrop g => g_buf g ∈ pins s ∨
      ∀ x, bufs (cache s) !! g_buf g = Some x → d_data (b_data x) = disk_block (cache s) (d_blockno (b_data x))
  | _ => True
  end.

Definition start (d : gmap Z (list Z)) : Sys := mkSys (binit (BCache_new d)).2 [] [] ∅.
Inductive reach (d : gmap Z (list Z)) : Sys → Prop :=
  | reach_start : reach d (start d)
  | reach_step s l s' : reach d s → step s l s' → allowed s l → reach d s'.

(** ** The invariant *)

(** What a buffer satisfies, given the gets, guards and pins on it. *)
Record bok (P : list Pend) (G : list Guard) (n : nat) (dsk : Z → list Z) (x : Buf) : Prop := {
  bk_strong : strong x = S (length G + n);
  bk_lock : (G = [] ∧ lk_pid x = None) ∨
    ∃ g, G = [g] ∧ lk_pid x = Some (g_pid g) ∧ b_key x = (DEV, g_bno g) ∧ (g_ready g = true → d_valid (b_data x) = true);
  bk_pend : Forall (λ p, b_key x = (DEV, p_bno p)) P;
  bk_data : (∃ p, P = [p] ∧ p_recycle p = true ∧ G = [] ∧ n = 0%nat ∧ d_key x ≠ b_key x) ∨
    (Forall (λ p, p_recycle p = false) P ∧ d_key x = b_key x ∧
      (d_valid (b_data x) = true → G = [] → n = 0%nat → d_data (b_data x) = dsk (d_blockno (b_data x))));
  bk_dev : b_dev x = DEV ∨ d_valid (b_data x) = false;
}.
Definition on_buf (s : Sys) (b : nat) (x : Buf) : Prop :=
  bok (filter (λ p, p_buf p = b) (pends s)) (filter (λ g, g_buf g = b) (guards s)) (multiplicity b (pins s))
    (disk_block (cache s)) x.

Record Inv (s : Sys) : Prop := {
  in_dll : ∃ l, dll (cache s) l ∧ l ≡ₚ seq 0 NBUF;
  in_len : length (bufs (cache s)) = NBUF;
  in_index k b : index (cache s) !! k = Some b ↔ k ≠ (0, 0) ∧ ∃ x, bufs (cache s) !! b = Some x ∧ b_key x = k;
  in_buf b x : bufs (cache s) !! b = Some x → on_buf s b x;
  in_pends : Forall (λ p, (p_buf p < NBUF)%nat) (pends s);
  in_guards : Forall (λ g, (g_buf g < NBUF)%nat) (guards s);
}.

Lemma bok_perm P P' G G' n dsk x : P ≡ₚ P' → G ≡ₚ G' → bok P G n dsk x → bok P' G' n dsk x.
Proof.
  intros HP HG [H1 H2 H3 H4 H5].
  assert (HG' : G' = G).
  { destruct H2 as [[-> _]|(g&->&_)]; [symmetry in HG; by apply Permutation_nil_r in HG|symmetry in HG; by apply Permutation_singleton_r in HG]. }
  subst G'. split; [done|done|by rewrite <-HP| |done]. destruct H4 as [(p&->&H4)|H4]; [left|right; by rewrite <-HP].
  exists p. split; [|done]. symmetry in HP. by apply Permutation_singleton_r in HP.
Qed.

Lemma DEV_ne bno : (DEV, bno) ≠ (0, 0).
Proof. unfold DEV, ROOTDEV. intros [=]. Qed.

Lemma set_bufs_id c : set_bufs (bufs c) c = c.
Proof. by destruct c. Qed.

Lemma modb_insert b f c x : bufs c !! b = Some x → modb b f c = (Ok (), set_bufs (<[b := f x]> (bufs c)) c).
Proof. intros Hx. rewrite modb_run. f_equal. f_equal. apply list_eq. intros j. rewrite lookup_alter_cases. destruct (decide (b = j)) as [->|]; [rewrite list_lookup_insert_eq, Hx by (by eapply lookup_lt_Some); done|by rewrite list_lookup_insert_ne]. Qed.

(** Steps that change one buffer, but neither its name nor its links. *)
Lemma inv_update s c' b x x' P' G' n' :
  Inv s → bufs (cache s) !! b = Some x → c' = set_bufs (<[b := x']> (bufs (cache s))) (cache s) →
  b_key x' = b_key x → same_links x x' →
  bok (filter (λ p, p_buf p = b) P') (filter (λ g, g_buf g = b) G') (multiplicity b n') (disk_block (cache s)) x' →
  (∀ b2, b2 ≠ b → filter (λ p, p_buf p = b2) (pends s) ≡ₚ filter (λ p, p_buf p = b2) P' ∧
     filter (λ g, g_buf g = b2) (guards s) ≡ₚ filter (λ g, g_buf g = b2) G' ∧ multiplicity b2 (pins s) = multiplicity b2 n') →
  Forall (λ p, (p_buf p < NBUF)%nat) P' → Forall (λ g, (g_buf g < NBUF)%nat) G' →
  Inv (mkSys c' P' G' n').
Proof.
  intros [[l [Hd Hl]] Hlen Hix Hb _ _] Hx -> Hk Hs Hbok Hoth HP' HG'. pose proof (lookup_lt_Some _ _ _ Hx) as Hlt.
  split; simpl; [| | | |done|done].
  - exists l. split; [|done]. apply (dll_same (cache s)); [done|done|done|]. intros b2 y Hy. simpl.
    destruct (decide (b2 = b)) as [->|Hne].
    + assert (y = x) as -> by congruence. exists x'. by rewrite list_lookup_insert_eq.
    + exists y. by rewrite list_lookup_insert_ne.
  - by rewrite length_insert.
  - intros k b2. rewrite Hix. destruct (decide (b2 = b)) as [->|Hne]; [|by rewrite list_lookup_insert_ne].
    rewrite list_lookup_insert_eq, Hx by done. split; intros (?&y&[= <-]&?); split; try done; eexists; split; try done; congruence.
  - intros b2 y Hy. unfold on_buf. simpl. destruct (decide (b2 = b)) as [->|Hne].
    + rewrite list_lookup_insert_eq in Hy by done. injection Hy as <-. done.
    + rewrite list_lookup_insert_ne in Hy by done. destruct (Hoth b2 Hne) as (HP&HG&Hn).
      rewrite <-Hn. by apply (bok_perm _ _ _ _ _ _ _ HP HG), Hb.
Qed.

(** The view of a block depends on the buffer that holds it. *)
Lemma view_update c b x x' bno :
  bufs c !! b = Some x → b_key x = b_key x' → (∀ k b2, index c !! k = Some b2 → ∃ y, bufs c !! b2 = Some y ∧ b_key y = k) →
  (b_key x = (DEV, bno) →
    (if d_valid (b_data x') && bool_decide (d_key x' = (DEV, bno)) then d_data (b_data x') else disk_block c bno) =
    (if d_valid (b_data x) && bool_decide (d_key x = (DEV, bno)) then d_data (b_data x) else disk_block c bno)) →
  view (set_bufs (<[b := x']> (bufs c)) c) bno = view c bno.
Proof.
  intros Hx Hk Hix H. unfold view. simpl. change (disk_block (set_bufs _ c) bno) with (disk_block c bno).
  destruct (index c !! (DEV, bno)) as [b2|] eqn:E; [|done]. destruct (Hix _ _ E) as (y&Hy&Hyk).
  destruct (decide (b2 = b)) as [->|]; [|by rewrite list_lookup_insert_ne].
  pose proof (lookup_lt_Some _ _ _ Hx). assert (y = x) as -> by congruence. rewrite list_lookup_insert_eq, Hx by done. by apply H.
Qed.

Lemma index_key s k b : Inv s → index (cache s) !! k = Some b → ∃ y, bufs (cache s) !! b = Some y ∧ b_key y = k.
Proof. intros Hi E. by apply (in_index _ Hi) in E as [_ ?]. Qed.

Lemma filter_perm_cons {A} (f : A → nat) b (l l' : list A) a : l ≡ₚ a :: l' → f a = b →
  filter (λ y, f y = b) l ≡ₚ a :: filter (λ y, f y = b) l'.
Proof. intros -> H. by rewrite filter_cons, decide_True. Qed.
Lemma filter_perm_ne {A} (f : A → nat) b (l l' : list A) a : l ≡ₚ a :: l' → f a ≠ b →
  filter (λ y, f y = b) l ≡ₚ filter (λ y, f y = b) l'.
Proof. intros -> H. by rewrite filter_cons, decide_False. Qed.

(** ** Facts about a guard *)

Lemma guard_facts s g gs : Inv s → guards s ≡ₚ g :: gs → ∃ x, bufs (cache s) !! g_buf g = Some x ∧
  filter (λ h, g_buf h = g_buf g) (guards s) = [g] ∧ filter (λ h, g_buf h = g_buf g) gs = [] ∧
  Forall (λ p, p_recycle p = false ∧ b_key x = (DEV, p_bno p)) (filter (λ p, p_buf p = g_buf g) (pends s)) ∧
  strong x = S (S (multiplicity (g_buf g) (pins s))) ∧ lk_pid x = Some (g_pid g) ∧ b_key x = (DEV, g_bno g) ∧
  d_key x = b_key x ∧ (g_ready g = true → d_valid (b_data x) = true) ∧ on_buf s (g_buf g) x.
Proof.
  intros Hi Hg. assert (Hlt : (g_buf g < NBUF)%nat).
  { pose proof (in_guards _ Hi) as H. rewrite Hg, Forall_cons in H. by destruct H. }
  rewrite <-(in_len _ Hi) in Hlt. apply lookup_lt_is_Some_2 in Hlt as [x Hx]. exists x. split; [done|].
  pose proof (in_buf _ Hi _ _ Hx) as Hb. pose proof Hb as [B1 B2 B3 B4 B5]. pose proof (filter_perm_cons g_buf (g_buf g) _ _ g Hg eq_refl) as HG.
  destruct B2 as [[E _]|(g'&E&Hpid&Hkey&Hval)]; rewrite E in HG.
  { by apply Permutation_nil_l in HG. }
  symmetry in HG. apply Permutation_singleton_r in HG as HG2. injection HG2 as <- Hnil. rewrite E in B1, B4 |- *.
  destruct B4 as [(p&_&_&?&_)|(R&Hd&_)]; [done|]. split_and!; [done|done| |by rewrite B1|done|done|done|done|done].
  rewrite Forall_forall in B3, R |- *. intros p Hp. split; [by apply R|by apply B3].
Qed.

(** The guard's buffer changes in its count, lock or data only. *)
Lemma inv_guard s g gs x x' G' n' :
  Inv s → guards s ≡ₚ g :: gs → bufs (cache s) !! g_buf g = Some x →
  b_key x' = b_key x → same_links x x' → d_key x' = d_key x →
  let G2 := filter (λ h, g_buf h = g_buf g) G' in
  strong x' = S (length G2 + multiplicity (g_buf g) n') →
  ((G2 = [] ∧ lk_pid x' = None) ∨ ∃ g', G2 = [g'] ∧ lk_pid x' = Some (g_pid g') ∧ g_bno g' = g_bno g ∧
     (g_ready g' = true → d_valid (b_data x') = true)) →
  (d_valid (b_data x') = true → G2 = [] → multiplicity (g_buf g) n' = 0%nat → d_data (b_data x') = disk_block (cache s) (d_blockno (b_data x'))) →
  (∀ b2, b2 ≠ g_buf g → filter (λ h, g_buf h = b2) (guards s) ≡ₚ filter (λ h, g_buf h = b2) G' ∧
     multiplicity b2 (pins s) = multiplicity b2 n') →
  Forall (λ h, (g_buf h < NBUF)%nat) G' →
  Inv (mkSys (set_bufs (<[g_buf g := x']> (bufs (cache s))) (cache s)) (pends s) G' n').
Proof.
  intros Hi Hg Hx Hk Hl Hd G2 Hst Hlk Hcl Hoth HG. destruct (guard_facts s g gs Hi Hg) as (y&Hy&_&_&HP&_&_&Hkey&Hdk&_&_).
  assert (y = x) as -> by congruence. eapply (inv_update s _ (g_buf g) x x'); [done|done|done|done|done| | |apply Hi|done].
  - fold G2. split; [done| | | |left; change (b_dev x') with (b_key x').1; by rewrite Hk, Hkey].
    + destruct Hlk as [?|(g'&?&?&E&?)]; [by left|right]. exists g'. rewrite Hk, E. done.
    + rewrite Hk. eapply Forall_impl; [exact HP|]. by intros p [_ ?].
    + right. split_and!; [eapply Forall_impl; [exact HP|]; by intros p [? _]|congruence|done].
  - intros b2 Hne. destruct (Hoth b2 Hne). done.
Qed.

(** ** Looking a buffer up *)

Definition renamed (c : BCache) (b : nat) (x : Buf) (k : Key) : BCache :=
  set_index (<[k := b]> (if bool_decide (b_key x = (0, 0)) then index c else delete (b_key x) (index c)))
    (set_bufs (<[b := with_key k x]> (bufs c)) c).

Lemma get_lookup_cases s bno : Inv s →
  (∃ b x, bufs (cache s) !! b = Some x ∧ b_key x = (DEV, bno) ∧ get_lookup DEV bno (cache s) = (Ok (false, b), cache s)) ∨
  (index (cache s) !! (DEV, bno) = None ∧
   ((∃ b x, bufs (cache s) !! b = Some x ∧ strong x = 1%nat ∧
       get_lookup DEV bno (cache s) = (Ok (true, b), renamed (cache s) b x (DEV, bno))) ∨
    (get_lookup DEV bno (cache s) = (Panic, cache s) ∧ ∀ b x, bufs (cache s) !! b = Some x → strong x ≠ 1%nat))).
Proof.
  intros Hi. unfold get_lookup, lru_get. destruct (index (cache s) !! (DEV, bno)) as [b|] eqn:E.
  - left. destruct (index_key s _ _ Hi E) as (x&Hx&Hk). exists b, x. split_and!; [done|done|].
    injection Hk as Hk1 Hk2. unfold mbind, M_bind, m_get. rewrite E, (getb_run b _ x Hx), Hk1, Hk2, !Z.eqb_refl. done.
  - right. split; [done|]. destruct (in_dll _ Hi) as (l&Hd&Hl).
    assert (Hlen : length l = 30%nat) by (by rewrite Hl, length_seq).
    destruct (scan_spec (cache s) l Hd 30 30) as [(i&b&x&_&_&Hx&Hs&Hrun&_)|[Hrun Hno]]; [lia|lia| |];
      replace (l !! 29%nat) with (tail (cache s)) in Hrun by (rewrite (dl_tail _ _ Hd), last_lookup, Hlen; done).
    + left. exists b, x. split_and!; [done|done|]. unfold mbind, M_bind, m_get. rewrite E, Hrun. unfold mret, M_ret.
      rewrite (getb_run b _ x Hx). unfold renamed. case_bool_decide.
      * rewrite (modb_insert b (with_key (DEV, bno)) _ x Hx). done.
      * unfold upd. rewrite (modb_insert b (with_key (DEV, bno)) _ x) by done. done.
    + right. split; [unfold mbind, M_bind, m_get; by rewrite E, Hrun|]. intros b x Hx.
      assert (Hin : b ∈ l).
      { rewrite Hl. apply elem_of_seq. apply lookup_lt_Some in Hx. rewrite (in_len _ Hi) in Hx. lia. }
      apply list_elem_of_lookup_1 in Hin as [j Hj]. apply (Hno j b x); [|done|done]. apply lookup_lt_Some in Hj. lia.
Qed.

Lemma lookup_step s pid bno r b c' : Inv s → get_lookup DEV bno (cache s) = (Ok (r, b), c') → allowed s (LLookup r b) →
  Inv (mkSys c' (mkPend pid r b bno :: pends s) (guards s) (pins s)) ∧ ∀ z, view c' z = view (cache s) z.
Proof.
  intros Hi Hrun Hall. pose proof (in_len _ Hi) as Hlen.
  destruct (get_lookup_cases s bno Hi) as [(b'&x&Hx&Hk&E)|[Hnone [(b'&x&Hx&Hs&E)|[E _]]]]; rewrite E in Hrun; [| |done].
  - injection Hrun as <- <- <-. split; [|done]. pose proof (lookup_lt_Some _ _ _ Hx) as Hlt.
    rewrite <-(set_bufs_id (cache s)), <-(list_insert_id (bufs (cache s)) b' x) by done.
    eapply (inv_update s _ b' x x); [done|done|done|done|done| | | |apply Hi].
    + rewrite filter_cons, decide_True by done. pose proof (in_buf _ Hi _ _ Hx) as [B1 B2 B3 B4 B5].
      split; [done|done|by constructor| |done]. destruct B4 as [(p&HP&Hr&_)|(R&B4)].
      * exfalso. assert (Hp : p ∈ filter (λ p, p_buf p = b') (pends s)) by (rewrite HP; by left).
        apply list_elem_of_filter in Hp as [Hpb Hp]. destruct (Hall p Hp Hpb). congruence.
      * right. split; [by constructor|done].
    + intros b2 Hne. rewrite filter_cons, decide_False by (simpl; congruence). done.
    + constructor; [by rewrite Hlen in Hlt|apply Hi].
  - injection Hrun as <- <- <-. pose proof (lookup_lt_Some _ _ _ Hx) as Hlt.
    pose proof (in_buf _ Hi _ _ Hx) as [B1 B2 B3 B4 B5]. rewrite Hs in B1.
    assert (HG : filter (λ g, g_buf g = b') (guards s) = [] ∧ multiplicity b' (pins s) = 0%nat).
    { destruct B2 as [[E0 _]|(g&E0&_)]; rewrite E0 in B1 |- *; simpl in B1; [split; [done|lia]|lia]. }
    assert (HP : filter (λ p, p_buf p = b') (pends s) = []).
    { destruct (filter (λ p, p_buf p = b') (pends s)) as [|p P] eqn:EP; [done|].
      assert (Hp : p ∈ filter (λ p, p_buf p = b') (pends s)) by (rewrite EP; by left).
      apply list_elem_of_filter in Hp as [Hpb Hp]. by destruct (Hall p Hp Hpb). }
    destruct HG as [HG Hn]. rewrite HP, HG, Hn in *. destruct B4 as [(p&?&_)|(_&Hdk&Hclean)]; [done|].
    assert (Hkk : b_key x ≠ (DEV, bno)).
    { intros Ek. assert (index (cache s) !! (DEV, bno) = Some b') as E2 by (apply Hi; split; [apply DEV_ne|by exists x]). congruence. }
    assert (Hix' : ∀ k b2, index (renamed (cache s) b' x (DEV, bno)) !! k = Some b2 ↔
      (k = (DEV, bno) ∧ b2 = b') ∨ (k ≠ (DEV, bno) ∧ k ≠ b_key x ∧ index (cache s) !! k = Some b2)).
    { intros k b2. unfold renamed. simpl. rewrite lookup_insert_Some. case_bool_decide as Ez.
      - split; [intros [[<- <-]|[Hne H]]; [by left|right]|intros [[-> ->]|(?&?&?)]; [by left|by right]].
        split_and!; [done| |done]. intros ->. apply (in_index _ Hi) in H as [? _]. congruence.
      - rewrite lookup_delete_Some. split; [intros [[<- <-]|[Hne [? H]]]; [by left|by right]|].
        intros [[-> ->]|(?&?&?)]; [by left|by right]. }
    split; [split; simpl|].
    + destruct (in_dll _ Hi) as (l&Hd&Hl). exists l. split; [|done]. apply (dll_same (cache s)); [done|done|done|].
      intros b2 y Hy. simpl. destruct (decide (b2 = b')) as [->|]; [|exists y; by rewrite list_lookup_insert_ne].
      assert (y = x) as -> by congruence. exists (with_key (DEV, bno) x). by rewrite list_lookup_insert_eq.
    + by rewrite length_insert.
    + intros k b2. rewrite Hix'. destruct (decide (b2 = b')) as [->|Hne].
      * rewrite list_lookup_insert_eq by done. split.
        -- intros [[-> _]|(?&?&H)]; [split; [apply DEV_ne|by eexists]|]. apply (in_index _ Hi) in H as (_&y&Hy&<-). congruence.
        -- intros (_&y&[= <-]&<-). by left.
      * rewrite list_lookup_insert_ne by done. rewrite (in_index _ Hi). split.
        -- intros [[_ ->]|(?&?&H)]; done.
        -- intros (Hk0&y&Hy&Hyk). right. split_and!; [| |done|by exists y].
           ++ intros ->. assert (index (cache s) !! (DEV, bno) = Some b2) by (apply Hi; split; [apply DEV_ne|by exists y]). congruence.
           ++ intros ->. assert (Ey : index (cache s) !! b_key x = Some b2) by (apply Hi; split; [done|by exists y]).
              assert (Ex : index (cache s) !! b_key x = Some b') by (apply Hi; split; [done|by exists x]). congruence.
    + intros b2 y Hy. unfold on_buf. simpl. destruct (decide (b2 = b')) as [->|Hne].
      * rewrite list_lookup_insert_eq in Hy by done. injection Hy as <-. rewrite filter_cons, decide_True, HP, HG, Hn by done.
        split; [done|by left; destruct B2 as [[_ ?]|(?&?&_)]|by constructor; [|constructor]| |by left].
        left. eexists. split_and!; [done|done|done|done|]. change (d_key x ≠ (DEV, bno)). congruence.
      * rewrite list_lookup_insert_ne in Hy by done. rewrite filter_cons, decide_False by (simpl; congruence).
        exact (in_buf _ Hi _ _ Hy).
    + constructor; [by rewrite Hlen in Hlt|apply Hi].
    + apply Hi.
    + intros z. unfold view at 1. change (disk_block (renamed _ _ _ _) z) with (disk_block (cache s) z).
      destruct (index (renamed (cache s) b' x (DEV, bno)) !! (DEV, z)) as [b2|] eqn:E2.
      * apply Hix' in E2 as [[E3 ->]|(H1&H2&H3)].
        -- unfold renamed at 1. simpl. rewrite list_lookup_insert_eq by done.
           rewrite (bool_decide_eq_false_2 (d_key (with_key (DEV, bno) x) = _)) by (change (d_key x ≠ (DEV, z)); congruence).
           rewrite andb_false_r. unfold view. by rewrite E3, Hnone.
        -- unfold view, renamed at 1. simpl. rewrite H3. rewrite list_lookup_insert_ne; [done|]. intros ->.
           apply (in_index _ Hi) in H3 as (_&y&Hy&Ek). congruence.
      * unfold view. destruct (index (cache s) !! (DEV, z)) as [b2|] eqn:E3; [|done].
        assert (Ez : (DEV, z) = b_key x).
        { destruct (decide ((DEV, z) = b_key x)) as [|Hne]; [done|]. exfalso. assert (H : index (renamed (cache s) b' x (DEV, bno)) !! (DEV, z) = Some b2).
          { apply Hix'. right. split_and!; [|done|done]. intros Heq. rewrite Heq in E3. congruence. } congruence. }
        assert (b2 = b') as -> by (assert (index (cache s) !! (DEV, z) = Some b') by (apply Hi; split; [apply DEV_ne|by exists x]); congruence).
        rewrite Hx. destruct (d_valid (b_data x)) eqn:Ev; [|done]. rewrite Ez, Hdk, bool_decide_eq_true_2 by done. simpl.
        rewrite Hclean by done. f_equal. unfold d_key, b_key in *. congruence.
Qed.

(** ** Taking the lock of a buffer *)

Lemma lock_step s p ps c' : Inv s → pends s ≡ₚ p :: ps →
  get_take (p_pid p) (p_recycle p) (p_buf p) DEV (p_bno p) (cache s) = (Returns (Ok ()), c') →
  Inv (mkSys c' ps (mkGuard (p_pid p) (p_buf p) (p_bno p) false :: guards s) (pins s)) ∧ ∀ z, view c' z = view (cache s) z.
Proof.
  intros Hi Hp Hrun. unfold get_take in Hrun. destruct (bufs (cache s) !! p_buf p) as [x|] eqn:Hx; [|done].
  destruct (lk_pid x) eqn:Hlk; [done|]. injection Hrun as <-.
  set (d := if p_recycle p then mkData (d_data (b_data x)) (p_bno p) DEV false else b_data x).
  set (x' := with_strong (S (strong x)) (with_lock (Some (p_pid p)) (with_data d x))).
  pose proof (in_buf _ Hi _ _ Hx) as [B1 B2 B3 B4 B5]. pose proof (filter_perm_cons p_buf (p_buf p) _ _ p Hp eq_refl) as HP.
  destruct B2 as [[HG _]|(g&_&?&_)]; [|congruence]. rewrite HG in B1, B4. rewrite HP, Forall_cons in B3. destruct B3 as [Hk B3].
  assert (Hdata : d_key x' = b_key x ∧ Forall (λ p, p_recycle p = false) (filter (λ q, p_buf q = p_buf p) ps) ∧
    (p_recycle p = false → d_key x = b_key x) ∧ (p_recycle p = true → d_key x ≠ b_key x)).
  { destruct B4 as [(q&HP1&Hr&_&_&Hne)|(HR&Hd&_)].
    - rewrite HP1 in HP. symmetry in HP. apply Permutation_singleton_r in HP. injection HP as <- HP2. rewrite HP2.
      change (d_key x') with (d_dev d, d_blockno d). unfold d. rewrite Hr. simpl. split_and!; [congruence|constructor|done|done].
    - rewrite HP, Forall_cons in HR. destruct HR as [Hr HR]. change (d_key x') with (d_dev d, d_blockno d).
      unfold d. rewrite Hr. split_and!; [exact Hd|done|done|done]. }
  destruct Hdata as (Hdk&HR&Hf&Ht). split.
  - eapply (inv_update s _ (p_buf p) x x'); [done|done|done|done|done| | | |].
    + rewrite filter_cons, decide_True, HG by done. split; [simpl; rewrite B1; simpl; lia| |done| |left; change (b_dev x') with (b_key x).1; by rewrite Hk].
      * right. eexists. split_and!; [done|done|exact Hk|done].
      * right. split_and!; [done|exact Hdk|done].
    + intros b2 Hne. rewrite filter_cons, decide_False by (simpl; congruence). split_and!; [|done|done].
      by apply (filter_perm_ne p_buf _ _ _ p Hp).
    + pose proof (in_pends _ Hi) as H. by rewrite Hp, Forall_cons in H; destruct H.
    + constructor; [|apply Hi]. apply lookup_lt_Some in Hx. by rewrite (in_len _ Hi) in Hx.
  - intros z. apply (view_update (cache s) (p_buf p) x x'); [done|done|intros; by eapply index_key|]. intros Hz.
    change (b_data x') with d. unfold d. change (d_key x') with (d_dev d, d_blockno d) in *. unfold d in *.
    destruct (p_recycle p); [|done]. simpl. rewrite (bool_decide_eq_false_2 (d_key x = _)), andb_false_r; [done|].
    rewrite <-Hz. by apply Ht.
Qed.

(** ** Working on a locked buffer *)

Lemma fill_step s g gs c' : Inv s → guards s ≡ₚ g :: gs → read_fill (g_buf g) (cache s) = (Ok (), c') →
  Inv (mkSys c' (pends s) (mkGuard (g_pid g) (g_buf g) (g_bno g) true :: gs) (pins s)) ∧ ∀ z, view c' z = view (cache s) z.
Proof.
  intros Hi Hg Hrun. destruct (guard_facts s g gs Hi Hg) as (x&Hx&HG&HG2&HP&Hs&Hlk&Hk&Hd&Hv&_).
  assert (Hc : ∃ d, c' = set_bufs (<[g_buf g := with_data d x]> (bufs (cache s))) (cache s) ∧ d_key (with_data d x) = d_key x ∧ d_valid d = true ∧
    (if d_valid (b_data x) then d = b_data x else d_data d = disk_block (cache s) (g_bno g))).
  { unfold read_fill in Hrun. rewrite (bind_ok _ _ _ _ _ (getb_run _ _ x Hx)) in Hrun. destruct (d_valid (b_data x)) eqn:E.
    - injection Hrun as <-. exists (b_data x). split_and!; [|done..|done]. replace (with_data (b_data x) x) with x by (by destruct x).
      by rewrite list_insert_id, set_bufs_id.
    - rewrite (bind_ok m_get _ _ _ _ eq_refl), (modb_insert _ _ _ x Hx) in Hrun. injection Hrun as <-.
      eexists. split_and!; [done|done|done|]. simpl. f_equal. unfold d_key, b_key in *. congruence. }
  destruct Hc as (d&->&Hdk&Hdv&Hdd). split.
  - eapply (inv_guard s g gs x); [done|done|done|done|done|done| | | | |].
    + rewrite filter_cons, decide_True, HG2 by done. exact Hs.
    + right. rewrite filter_cons, decide_True, HG2 by done. eexists. split_and!; [done|done|done|done].
    + rewrite filter_cons, decide_True by done. done.
    + intros b2 Hne. split; [|done]. rewrite filter_cons, decide_False by (simpl; congruence). by apply (filter_perm_ne g_buf _ _ _ g Hg).
    + pose proof (in_guards _ Hi) as H. rewrite Hg, Forall_cons in H. destruct H. by constructor.
  - intros z. apply (view_update (cache s) (g_buf g) x); [done|done|intros; by eapply index_key|]. intros Hz.
    rewrite Hdk. simpl. rewrite Hdv. destruct (d_valid (b_data x)); [by rewrite Hdd|]. simpl.
    case_bool_decide; [|done]. rewrite Hdd. f_equal. congruence.
Qed.

Lemma store_step s g gs v c' : Inv s → guards s ≡ₚ g :: gs → g_ready g = true → store (g_buf g) v (cache s) = (Ok (), c') →
  Inv (mkSys c' (pends s) (guards s) (pins s)) ∧ ∀ z, view c' z = if decide (z = g_bno g) then v else view (cache s) z.
Proof.
  intros Hi Hg Hr Hrun. destruct (guard_facts s g gs Hi Hg) as (x&Hx&HG&HG2&HP&Hs&Hlk&Hk&Hd&Hv&_).
  unfold store in Hrun. rewrite (modb_insert _ _ _ x Hx) in Hrun. injection Hrun as <-. split.
  - eapply (inv_guard s g gs x); [done|done|done|done|done|done| | | | |apply Hi].
    + rewrite HG. exact Hs.
    + right. exists g. split_and!; [done|done|done|exact Hv].
    + by rewrite HG.
    + done.
  - intros z. case_decide as E.
    + subst z. unfold view. simpl. assert (index (cache s) !! (DEV, g_bno g) = Some (g_buf g)) as ->.
      { apply Hi. split; [apply DEV_ne|by exists x]. }
      pose proof (lookup_lt_Some _ _ _ Hx). rewrite list_lookup_insert_eq by done. simpl. rewrite Hv by done.
      rewrite bool_decide_eq_true_2; [done|]. unfold d_key in *. simpl. congruence.
    + apply (view_update (cache s) (g_buf g) x); [done|done|intros; by eapply index_key|]. intros Hz. exfalso. congruence.
Qed.

Lemma pin_step s g gs c' n' k : Inv s → guards s ≡ₚ g :: gs →
  modb (g_buf g) (λ x, with_strong (k (strong x)) x) (cache s) = (Ok (), c') →
  k (S (S (multiplicity (g_buf g) (pins s)))) = S (S (multiplicity (g_buf g) n')) →
  (∀ b2, b2 ≠ g_buf g → multiplicity b2 (pins s) = multiplicity b2 n') →
  Inv (mkSys c' (pends s) (guards s) n') ∧ ∀ z, view c' z = view (cache s) z.
Proof.
  intros Hi Hg Hrun Hn Hoth. destruct (guard_facts s g gs Hi Hg) as (x&Hx&HG&HG2&HP&Hs&Hlk&Hk&Hd&Hv&_).
  rewrite (modb_insert _ _ _ x Hx) in Hrun. injection Hrun as <-. split.
  - eapply (inv_guard s g gs x); [done|done|done|done|done|done| | | | |apply Hi].
    + rewrite HG. simpl. by rewrite Hs.
    + right. exists g. split_and!; [done|done|done|exact Hv].
    + by rewrite HG.
    + intros b2 Hne. by split; [|apply Hoth].
  - intros z. by apply (view_update (cache s) (g_buf g) x); [done|done|intros; by eapply index_key|].
Qed.

Lemma drop_step s g gs c' : Inv s → guards s ≡ₚ g :: gs → guard_drop (g_pid g) (g_buf g) (cache s) = (Ok (), c') →
  allowed s (LDrop g) → Inv (mkSys c' (pends s) gs (pins s)) ∧ ∀ z, view c' z = view (cache s) z.
Proof.
  intros Hi Hg Hrun Hall. destruct (guard_facts s g gs Hi Hg) as (x&Hx&HG&HG2&HP&Hs&Hlk&Hk&Hd&Hv&_).
  pose proof (lookup_lt_Some _ _ _ Hx) as Hlt.
  unfold guard_drop in Hrun. rewrite (bind_ok _ _ _ _ _ (getb_run _ _ x Hx)), bool_decide_eq_true_2 in Hrun by done.
  rewrite (bind_ok _ _ _ _ _ (modb_insert _ _ _ x Hx)) in Hrun.
  rewrite (modb_insert _ _ _ (with_lock None x)) in Hrun by (simpl; by rewrite list_lookup_insert_eq).
  injection Hrun as <-. simpl. rewrite list_insert_insert_eq. split.
  - eapply (inv_guard s g gs x _ gs (pins s)); [done|done|done|done|done|done| | | | |].
    + rewrite HG2. simpl. rewrite Hs. done.
    + left. by rewrite HG2.
    + intros _ _ Hn. destruct Hall as [Hpin|Hclean]; [|exact (Hclean x Hx)]. rewrite elem_of_multiplicity in Hpin. lia.
    + intros b2 Hne. split; [|done]. by apply (filter_perm_ne g_buf _ _ _ g Hg).
    + pose proof (in_guards _ Hi) as H. by rewrite Hg, Forall_cons in H; destruct H.
  - intros z. apply (view_update (cache s) (g_buf g) x); [done|done|intros; by eapply index_key|]. done.
Qed.

Lemma write_step s g gs c' : Inv s → guards s ≡ₚ g :: gs → g_ready g = true →
  buf_write (g_pid g) (g_buf g) (cache s) = (Ok (), c') →
  Inv (mkSys c' (pends s) (guards s) (pins s)) ∧ ∀ z, view c' z = view (cache s) z.
Proof.
  intros Hi Hg Hr Hrun. destruct (guard_facts s g gs Hi Hg) as (x&Hx&HG&HG2&HP&Hs&Hlk&Hk&Hd&Hv&_).
  unfold buf_write in Hrun. rewrite (bind_ok _ _ _ _ _ (getb_run _ _ x Hx)), bool_decide_eq_true_2 in Hrun by done.
  injection Hrun as <-. assert (Hbno : d_blockno (b_data x) = g_bno g) by (unfold d_key, b_key in *; congruence). rewrite Hbno.
  set (c' := set_disk _ _). specialize (Hv Hr).
  assert (Hdisk : ∀ z, disk_block c' z = if decide (z = g_bno g) then d_data (b_data x) else disk_block (cache s) z).
  { intros z. unfold disk_block, c'. simpl. case_decide as E; [subst; by rewrite lookup_insert_eq|by rewrite lookup_insert_ne]. }
  assert (Huniq : ∀ b y, bufs (cache s) !! b = Some y → b_key y = (DEV, g_bno g) → b = g_buf g).
  { intros b y Hy Ek. assert (E1 : index (cache s) !! (DEV, g_bno g) = Some b) by (apply Hi; split; [apply DEV_ne|by exists y]).
    assert (E2 : index (cache s) !! (DEV, g_bno g) = Some (g_buf g)) by (apply Hi; split; [apply DEV_ne|by exists x]). congruence. }
  split.
  - pose proof Hi as [[l [Hdl Hl]] H2 H3 H4 H5 H6]. split; simpl; [|done|done| |done|done].
    { exists l. split; [|done]. apply (dll_same (cache s)); [done..|]. intros b y Hy. by exists y. }
    intros b y Hy. pose proof (H4 b y Hy) as [B1 B2 B3 B4 B5]. split; [done|done|done| |done]. simpl.
    destruct B4 as [?|(HR&Hdk&Hcl)]; [by left|right]. split_and!; [done|done|]. intros Hval HG0 Hn0. rewrite Hdisk. case_decide as E; [|by apply Hcl].
    exfalso. destruct B5 as [B5|?]; [|congruence]. assert (b = g_buf g) as ->.
    { apply (Huniq b y Hy). unfold d_key, b_key in *. congruence. }
    rewrite HG in HG0. done.
  - intros z. unfold view. change (index c') with (index (cache s)). change (bufs c') with (bufs (cache s)).
    destruct (decide (z = g_bno g)) as [->|Hne].
    + assert (index (cache s) !! (DEV, g_bno g) = Some (g_buf g)) as -> by (apply Hi; split; [apply DEV_ne|by exists x]).
      rewrite Hx, Hv, Hd, Hk, bool_decide_eq_true_2 by done. done.
    + by rewrite Hdisk, decide_False.
Qed.

Lemma relse_step s b c' : Inv s → relse b (cache s) = (Ok (), c') →
  Inv (mkSys c' (pends s) (guards s) (pins s)) ∧ ∀ z, view c' z = view (cache s) z.
Proof.
  intros Hi Hrun. pose proof Hi as [[l [Hd Hl]] H2 H3 H4 H5 H6].
  assert (Hx : ∃ x, bufs (cache s) !! b = Some x).
  { destruct (bufs (cache s) !! b) eqn:E; [by eexists|]. unfold relse, getb, mbind, M_bind in Hrun. by rewrite E in Hrun. }
  destruct Hx as [x Hx]. destruct (decide (strong x = 1%nat)) as [Hs|Hs]; cycle 1.
  { unfold relse in Hrun. rewrite (bind_ok _ _ _ _ _ (getb_run _ _ x Hx)) in Hrun. destruct (Nat.eqb_spec (strong x) 1); [done|].
    injection Hrun as <-. split; [by destruct s|done]. }
  assert (Hin : b ∈ l).
  { rewrite Hl. apply elem_of_seq. apply lookup_lt_Some in Hx. rewrite H2 in Hx. lia. }
  apply list_elem_of_lookup_1 in Hin as [k Hk].
  destruct (relse_dll (cache s) l k b x Hd Hk Hx Hs) as (c2&Hrun2&Hd2&E1&E2&_&Hb).
  rewrite Hrun in Hrun2. injection Hrun2 as <-.
  assert (Hb' : ∀ y z', bufs c' !! y = Some z' → ∃ z, bufs (cache s) !! y = Some z ∧ b_key z' = b_key z ∧ b_data z' = b_data z ∧
    strong z' = strong z ∧ lk_pid z' = lk_pid z).
  { intros y z' Hz. destruct (Hb y) as (nx&pv&E). rewrite E in Hz. destruct (bufs (cache s) !! y) as [z|]; [|done]. injection Hz as <-. by exists z. }
  assert (Hdb : ∀ z, disk_block c' z = disk_block (cache s) z) by (intros; unfold disk_block; by rewrite E2).
  assert (Hlk : ∀ y, b_key <$> bufs c' !! y = b_key <$> bufs (cache s) !! y).
  { intros y. destruct (Hb y) as (nx&pv&->). by destruct (bufs (cache s) !! y). }
  split; [split; simpl|].
  - exists (b :: delete k l). split; [done|]. rewrite <-Hl. symmetry. by apply delete_Permutation.
  - rewrite <-H2. apply Nat.le_antisymm.
    + destruct (decide (length (bufs c') ≤ length (bufs (cache s)))%nat) as [|Hgt]; [done|].
      destruct (lookup_lt_is_Some_2 (bufs c') (length (bufs (cache s)))) as [z Hz]; [lia|].
      destruct (Hb' _ _ Hz) as (?&Hz'&_). apply lookup_lt_Some in Hz'. lia.
    + destruct (decide (length (bufs (cache s)) ≤ length (bufs c'))%nat) as [|Hgt]; [done|].
      destruct (lookup_lt_is_Some_2 (bufs (cache s)) (length (bufs c'))) as [z Hz]; [lia|].
      specialize (Hlk (length (bufs c'))). rewrite Hz, (lookup_ge_None_2 (bufs c')) in Hlk by lia. done.
  - intros kk y. rewrite E1, H3. split; intros (?&z&Hz&<-); split; [done| |done|].
    + specialize (Hlk y). rewrite Hz in Hlk. simpl in Hlk. destruct (bufs c' !! y) as [z'|]; [|done]. exists z'. split; [done|]. simpl in Hlk. congruence.
    + destruct (Hb' y z Hz) as (z0&?&E&_). exists z0. split; [done|congruence].
  - intros y z' Hz. destruct (Hb' y z' Hz) as (z&Hz0&Ek&Ed&Es&El). destruct (H4 y z Hz0) as [B1 B2 B3 B4 B5].
    assert (Edk : d_key z' = d_key z) by (unfold d_key; by rewrite Ed).
    assert (Edev : b_dev z' = b_dev z) by (change (b_dev z') with (b_key z').1; by rewrite Ek).
    split; simpl; rewrite ?Es, ?El, ?Ek, ?Ed, ?Edk, ?Edev, ?Hdb; done.
  - done.
  - done.
  - intros z. unfold view. rewrite E1, Hdb. destruct (index (cache s) !! (DEV, z)) as [y|]; [|done].
    destruct (bufs c' !! y) as [z'|] eqn:Ey.
    + destruct (Hb' y z' Ey) as (z0&->&_&Ed&_). unfold d_key. by rewrite Ed.
    + specialize (Hlk y). rewrite Ey in Hlk. by destruct (bufs (cache s) !! y).
Qed.

(** ** Reachable states *)

Definition start_bufs : list Buf :=
  (λ i, mkBuf 0 0 (if decide (i < 29)%nat then Some (S i) else None) (match i with O => None | S j => Some j end) 1 None Data_new) <$> seq 0 30.

Lemma binit_run d : binit (BCache_new d) = (Ok (), mkBCache start_bufs (Some 0%nat) (Some 29%nat) ∅ 30 d).
Proof. vm_compute. reflexivity. Qed.

Lemma start_lookup b x : start_bufs !! b = Some x → (b < 30)%nat ∧ b_key x = (0, 0) ∧ strong x = 1%nat ∧ lk_pid x = None ∧ b_data x = Data_new.
Proof.
  unfold start_bufs. rewrite list_lookup_fmap. intros H. apply fmap_Some in H as (i&Hi&->). apply lookup_seq in Hi as [-> Hi].
  simpl. split_and!; [lia|done..].
Qed.

Lemma start_inv d : Inv (start d).
Proof.
  unfold start. rewrite binit_run. split; simpl; [| | | |constructor|constructor].
  - exists (seq 0 30). split; [|done]. split; [apply NoDup_seq|done|done|]. intros i b Hi. apply lookup_seq in Hi as [-> Hi].
    cbn [bufs Nat.add]. unfold start_bufs. rewrite list_lookup_fmap, lookup_seq_lt by lia. eexists. split; [reflexivity|]. cbn [b_prev b_next Nat.add]. split.
    + destruct i as [|i]; [done|]. by rewrite lookup_seq_lt by lia.
    + case_decide; [by rewrite lookup_seq_lt by lia|]. symmetry. apply lookup_seq_ge. lia.
  - done.
  - intros k b. rewrite lookup_empty. split; [done|]. intros (Hk&x&Hx&<-). apply start_lookup in Hx as (_&?&_). done.
  - intros b x Hx. apply start_lookup in Hx as (_&H1&H2&H3&H4). unfold on_buf. simpl.
    split; [done|by left|constructor| |right; by rewrite H4]. right. split_and!; [constructor|by rewrite H1; unfold d_key; rewrite H4|by rewrite H4].
Qed.

(** What a step does to the contents of blocks. *)
Definition effect (l : Label) (v : Z → list Z) (z : Z) : list Z :=
  match l with LStore bno d => if decide (z = bno) then d else v z | _ => v z end.

Lemma step_inv s l s' : Inv s → step s l s' → allowed s l →
  Inv s' ∧ ∀ z, view (cache s') z = effect l (view (cache s)) z.
Proof.
  intros Hi Hstep Hall. destruct Hstep as [pid bno r b c' H|p ps c' Hp H|g gs c' Hg Hr H|g gs v c' Hg Hr H|g gs c' Hg Hr H|g gs c' Hg Hr H|
    g gs c' ps Hg Hr Hps H|g gs c' Hg Hr H|b c' H]; simpl.
  - by apply lookup_step.
  - by apply lock_step.
  - by apply fill_step.
  - by eapply store_step.
  - by eapply write_step.
  - apply (pin_step s g gs c' _ S Hi Hg H); [rewrite multiplicity_disj_union, multiplicity_singleton, decide_True by done; lia|].
    intros b2 Hne. rewrite multiplicity_disj_union, multiplicity_singleton, decide_False by done. lia.
  - apply (pin_step s g gs c' _ pred Hi Hg H); rewrite Hps.
    + rewrite multiplicity_disj_union, multiplicity_singleton, decide_True by done. lia.
    + intros b2 Hne. rewrite multiplicity_disj_union, multiplicity_singleton, decide_False by done. lia.
  - by apply (drop_step s g gs).
  - by eapply relse_step.
Qed.

Lemma cache_reach_inv d s : reach d s → Inv s.
Proof. induction 1 as [|s l s' _ IH Hst Hall]; [apply start_inv|by apply (step_inv s l s')]. Qed.

(** C9: The cache is coherent, as long as no [get] chooses a buffer that another
    one has chosen and not yet taken and no changed buffer is released unless
    written or pinned.  Then the contents of every block are what was last
    stored there: looking up, recycling, filling, writing, pinning and
    releasing buffers never change them.  A process that has read a block has
    a buffer with that block's contents, and it alone; and a lookup fails only
    when all buffers are referred to. *)
Theorem cache_coherent d s : reach d s →
  (∀ l s', step s l s' → allowed s l → ∀ z, view (cache s') z = effect l (view (cache s)) z) ∧
  (∀ g, g ∈ guards s → g_ready g = true → ∃ x, bufs (cache s) !! g_buf g = Some x ∧
     d_blockno (b_data x) = g_bno g ∧ d_data (b_data x) = view (cache s) (g_bno g)) ∧
  (∀ bno, (length (filter (λ g, g_bno g = bno) (guards s)) ≤ 1)%nat) ∧
  (∀ bno, (get_lookup DEV bno (cache s)).1 = Panic → ∀ b x, bufs (cache s) !! b = Some x → strong x ≠ 1%nat).
Proof.
  intros Hreach. pose proof (cache_reach_inv d s Hreach) as Hi. split_and!.
  - intros l s' Hst Hall. by apply (step_inv s l s').
  - intros g Hg Hr. apply elem_of_Permutation in Hg as [gs Hg].
    destruct (guard_facts s g gs Hi Hg) as (x&Hx&_&_&_&_&_&Hk&Hd&Hv&_). exists x. split_and!; [done|unfold d_key, b_key in *; congruence|].
    unfold view. assert (index (cache s) !! (DEV, g_bno g) = Some (g_buf g)) as -> by (apply Hi; split; [apply DEV_ne|by exists x]).
    rewrite Hx, Hv, Hd, Hk, bool_decide_eq_true_2 by done. done.
  - intros bno. destruct (filter (λ g, g_bno g = bno) (guards s)) as [|g1 [|g2 l]] eqn:E; simpl; [lia|lia|exfalso].
    assert (Hsub : filter (λ g, g_bno g = bno) (guards s) ⊆+ guards s) by apply sublist_submseteq, sublist_filter.
    assert (Hb : g_bno g1 = bno ∧ g_bno g2 = bno).
    { assert (Hall : ∀ g, g ∈ g1 :: g2 :: l → g_bno g = bno) by (intros g; rewrite <-E, list_elem_of_filter; tauto).
      split; apply Hall; rewrite !elem_of_cons; auto. }
    rewrite E in Hsub. apply submseteq_Permutation in Hsub as [k Hp]. simpl in Hp.
    destruct (guard_facts s g1 _ Hi Hp) as (x1&Hx1&_&HG1&_&_&_&Hk1&_).
    assert (Hp2 : guards s ≡ₚ g2 :: g1 :: l ++ k) by (rewrite Hp; constructor).
    destruct (guard_facts s g2 _ Hi Hp2) as (x2&Hx2&_&_&_&_&_&Hk2&_).
    assert (g_buf g1 = g_buf g2) as Eb.
    { destruct Hb as [<- Hb2]. rewrite Hb2 in Hk2.
      assert (E1 : index (cache s) !! (DEV, g_bno g1) = Some (g_buf g1)) by (apply Hi; split; [apply DEV_ne|by exists x1]).
      assert (E2 : index (cache s) !! (DEV, g_bno g1) = Some (g_buf g2)) by (apply Hi; split; [apply DEV_ne|by exists x2]). congruence. }
    rewrite filter_cons, decide_True in HG1 by done. done.
  - intros bno Hp b x Hx. destruct (get_lookup_cases s bno Hi) as [(b'&y&_&_&E)|[_ [(b'&y&_&_&E)|[_ H]]]]; [by rewrite E in Hp..|by apply (H b)].
Qed.

(** ** Two overlapping lookups *)

Lemma run_eq {A B} (x : A * B) v : x.1 = v → x = (v, x.2).
Proof. by destruct x as [? ?]; intros <-. Qed.

Definition race_disk : gmap Z (list Z) := <[5 := replicate 1024 5]> {[ 6 := replicate 1024 6 ]}.

(** The steps of processes 1, 2 and 3 as functions. *)
Definition do_lookup (pid bno : Z) (s : Sys) : Sys :=
  let r := get_lookup DEV bno (cache s) in
  match r.1 with Ok (rc, b) => mkSys r.2 (mkPend pid rc b bno :: pends s) (guards s) (pins s) | _ => s end.
Definition do_read (p : Pend) (ps : list Pend) (s : Sys) : Sys :=
  let c1 := (get_take (p_pid p) (p_recycle p) (p_buf p) DEV (p_bno p) (cache s)).2 in
  mkSys (read_fill (p_buf p) c1).2 ps (mkGuard (p_pid p) (p_buf p) (p_bno p) true :: guards s) (pins s).
Definition do_drop (g : Guard) (s : Sys) : Sys := mkSys (guard_drop (g_pid g) (g_buf g) (cache s)).2 (pends s) [] (pins s).

Abbreviation steps := (rtc (λ s s', ∃ l, step s l s')).
Lemma do_lookup_steps pid bno s rc b : (get_lookup DEV bno (cache s)).1 = Ok (rc, b) → steps s (do_lookup pid bno s).
Proof.
  intros E. apply rtc_once. eexists. unfold do_lookup. rewrite E. apply st_lookup. by apply run_eq.
Qed.
Lemma do_read_steps p ps s : pends s = p :: ps →
  (get_take (p_pid p) (p_recycle p) (p_buf p) DEV (p_bno p) (cache s)).1 = Returns (Ok ()) →
  (read_fill (p_buf p) (get_take (p_pid p) (p_recycle p) (p_buf p) DEV (p_bno p) (cache s)).2).1 = Ok () → steps s (do_read p ps s).
Proof.
  intros Hp E1 E2. eapply rtc_l; [eexists; eapply (st_lock _ p ps); [by rewrite Hp|by apply run_eq]|].
  apply rtc_once. eexists.
  exact (st_fill (mkSys _ _ (_ :: guards s) _) (mkGuard (p_pid p) (p_buf p) (p_bno p) false) (guards s) _
    (Permutation_refl _) eq_refl (run_eq _ _ E2)).
Qed.
Lemma do_drop_steps g s : guards s = [g] → g_ready g = true → (guard_drop (g_pid g) (g_buf g) (cache s)).1 = Ok () → steps s (do_drop g s).
Proof. intros Hg Hr E. apply rtc_once. eexists. apply st_drop; [by rewrite Hg|done|by apply run_eq]. Qed.

(** Processes 1 and 2 look up blocks 5 and 6 and get the same buffer; 2 reads
    and releases it, then 1 does; then 3 reads block 6. *)
Definition race1 : Sys := do_lookup 2 6 (do_lookup 1 5 (start race_disk)).
Definition race2 : Sys := do_drop (mkGuard 2 29 6 true) (do_read (mkPend 2 true 29 6) [mkPend 1 true 29 5] race1).
Definition race3 : Sys := do_drop (mkGuard 1 29 5 true) (do_read (mkPend 1 true 29 5) [] race2).
Definition race4 : Sys := do_read (mkPend 3 false 29 6) [] (do_lookup 3 6 race3).

(** [BCache::get] releases the lock of the list before it takes its
    reference to the buffer it found.  Two processes can therefore be given
    the same buffer for different blocks, and after that the cache answers a
    read of one block with the contents of the other, although nobody has
    written anything. *)
Theorem overlapping_gets_mix_blocks :
  ∃ s g x, steps (start race_disk) s ∧ bdisk (cache s) = race_disk ∧
    g ∈ guards s ∧ g_ready g = true ∧ g_bno g = 6 ∧ bufs (cache s) !! g_buf g = Some x ∧
    d_data (b_data x) = disk_block (cache s) 5 ∧ d_data (b_data x) ≠ disk_block (cache s) 6.
Proof.
  assert (Hb : bool_decide (is_Some (bufs (cache race4) !! 29%nat)) = true) by (vm_compute; reflexivity).
  apply bool_decide_eq_true in Hb as [x Hx]. exists race4, (mkGuard 3 29 6 true), x.
  assert (Hd : d_data ∘ b_data <$> bufs (cache race4) !! 29%nat = Some (replicate 1024 5)) by (vm_compute; reflexivity).
  rewrite Hx in Hd. apply (inj Some) in Hd. split_and!; [|vm_compute; reflexivity|by left|done|done|done| |].
  - transitivity race1.
    { unfold race1. etrans; [apply (do_lookup_steps 1 5 _ true 29)|apply (do_lookup_steps 2 6 _ true 29)]; vm_compute; reflexivity. }
    transitivity race2.
    { unfold race2. etrans; [apply (do_read_steps (mkPend 2 true 29 6) [mkPend 1 true 29 5])|apply (do_drop_steps (mkGuard 2 29 6 true))];
        vm_compute; reflexivity. }
    transitivity race3.
    { unfold race3. etrans; [apply (do_read_steps (mkPend 1 true 29 5) [])|apply (do_drop_steps (mkGuard 1 29 5 true))]; vm_compute; reflexivity. }
    unfold race4. etrans; [apply (do_lookup_steps 3 6 _ false 29)|apply (do_read_steps (mkPend 3 false 29 6) [])]; vm_compute; reflexivity.
  - change (d_data (b_data x)) with ((d_data ∘ b_data) x). rewrite Hd. vm_compute. reflexivity.
  - change (d_data (b_data x)) with ((d_data ∘ b_data) x). rewrite Hd. vm_compute. congruence.
Qed.

(** Process 1 reads block 5. *)
Definition one_read : Sys := do_read (mkPend 1 true 29 5) [] (do_lookup 1 5 (start race_disk)).
Lemma do_lookup_reach d pid bno s rc b : reach d s → pends s = [] → (get_lookup DEV bno (cache s)).1 = Ok (rc, b) →
  reach d (do_lookup pid bno s).
Proof.
  intros Hr Hp E. apply (reach_step _ s (LLookup rc b)); [done| |].
  - unfold do_lookup. rewrite E. apply st_lookup. by apply run_eq.
  - intros p. rewrite Hp. intros H. by apply elem_of_nil in H.
Qed.
Lemma do_read_reach d p ps s : reach d s → pends s = p :: ps →
  (get_take (p_pid p) (p_recycle p) (p_buf p) DEV (p_bno p) (cache s)).1 = Returns (Ok ()) →
  (read_fill (p_buf p) (get_take (p_pid p) (p_recycle p) (p_buf p) DEV (p_bno p) (cache s)).2).1 = Ok () → reach d (do_read p ps s).
Proof.
  intros Hr Hp E1 E2. eapply reach_step; [eapply (reach_step _ s LTau); [done|eapply (st_lock _ p ps); [by rewrite Hp|by apply run_eq]|done]| |].
  - exact (st_fill (mkSys _ _ (_ :: guards s) _) (mkGuard (p_pid p) (p_buf p) (p_bno p) false) (guards s) _
      (Permutation_refl _) eq_refl (run_eq _ _ E2)).
  - done.
Qed.
Lemma one_read_reach : reach race_disk one_read.
Proof.
  apply do_read_reach; [|vm_compute; reflexivity..]. apply (do_lookup_reach _ _ _ _ true 29); [apply reach_start|vm_compute; reflexivity..].
Qed.

Lemma cache_coherent_witness : ∃ x, bufs (cache one_read) !! 29%nat = Some x ∧ d_blockno (b_data x) = 5 ∧
  d_data (b_data x) = view (cache one_read) 5.
Proof.
  destruct (cache_coherent race_disk one_read one_read_reach) as (_&H&_). apply (H (mkGuard 1 29 5 true)); [by left|done].
Defined.
