(* ===== verification/LogOps.v ===== *)
(** * Transactions: the log as an atomic disk

    What the file system may rely on when it brackets its block updates with
    [begin_op] and [end_op]: an abstract disk with committed and current
    contents, where a crash loses the updates since the last commit and
    nothing else, and the refinement theorem that the log implements it. *)

From stdpp Require Import base tactics numbers functions gmap relations list.
From S2P Require Import Prelude Params Errors Bytes Log LogCrash.
Local Open Scope Z_scope.

(** The update of one block inside an operation: change the locked buffer,
    then [LOG.write(buf)]. *)
Definition log_update (b : Z) (x : block) : LogM () :=
  _ ← m_modify (bupdate b x); log_write b.

(** ** The abstract disk *)

Record adisk := mkAdisk { committed : Z → block; current : Z → block; active : nat }.

(** What a user of the log does, and where the machine stops: between two
    calls, or after [k] disk writes of the [end_op] or [sync] that is
    running. *)
Inductive log_op := OBegin | OWrite (b : Z) (x : block) | OEnd | OSync | OCrash | OCrashEnd (k : nat) | OCrashSync (k : nat).

(** The last operation to end commits; a crash during it may come before or
    after the commit. *)
Inductive adisk_step : adisk → log_op → adisk → Prop :=
| AD_begin d c n : adisk_step (mkAdisk d c n) OBegin (mkAdisk d c (S n))
| AD_write d c n b x : adisk_step (mkAdisk d c (S n)) (OWrite b x) (mkAdisk d (<[b := x]> c) (S n))
| AD_end d c n : adisk_step (mkAdisk d c (S (S n))) OEnd (mkAdisk d c (S n))
| AD_commit d c : adisk_step (mkAdisk d c 1) OEnd (mkAdisk c c 0)
| AD_sync d c : adisk_step (mkAdisk d c 0) OSync (mkAdisk c c 0)
| AD_crash d c n : adisk_step (mkAdisk d c n) OCrash (mkAdisk d d 0)
| AD_crash_end d c n k : adisk_step (mkAdisk d c (S n)) (OCrashEnd k) (mkAdisk d d 0)
| AD_crash_end_committed d c k : adisk_step (mkAdisk d c 1) (OCrashEnd k) (mkAdisk c c 0)
| AD_crash_sync d c k : adisk_step (mkAdisk d c 0) (OCrashSync k) (mkAdisk d d 0).

(** ** The log in use

    The state of the running system: the log, and for each operation between
    its [begin_op] and its [end_op] how many more blocks it may log.  An
    operation that keeps to [MAXOPBLOCKS] blocks always has budget left. *)
Abbreviation Sys := (LogSt * list nat)%type.

Abbreviation reboot st d := (log_new (log_start (ls_log st)) (log_size (ls_log st)) (log_dev (ls_log st)) d).

Inductive sys_step : Sys → log_op → Sys → Prop :=
| SS_begin st bud st' :
    begin_op st = (Returns (Ok ()), st') → sys_step (st, bud) OBegin (st', MAXOPBLOCKS :: bud)
| SS_write st bud i k b x st' :
    bud !! i = Some (S k) → home (ls_log st) b → 0 ≤ b < 2 ^ 32 →
    log_update b x st = (Ok (), st') → sys_step (st, bud) (OWrite b x) (st', <[i := k]> bud)
| SS_end st bud1 k bud2 st' :
    end_op st = (Ok (), st') → sys_step (st, bud1 ++ k :: bud2) OEnd (st', bud1 ++ bud2)
| SS_sync st bud st' :
    log_sync st = (Returns (Ok ()), st') → sys_step (st, bud) OSync (st', bud)
(** The machine stops and is rebooted. *)
| SS_crash st bud st' :
    reboot st (ls_disk st) = (Ok (), st') → sys_step (st, bud) OCrash (st', [])
| SS_crash_end st bud st1 r k st' :
    bud ≠ [] → end_op st = (r, st1) → reboot st (crash_disk st st1 k) = (Ok (), st') →
    sys_step (st, bud) (OCrashEnd k) (st', [])
| SS_crash_sync st bud st1 r k st' :
    log_sync st = (Returns r, st1) → reboot st (crash_disk st st1 k) = (Ok (), st') →
    sys_step (st, bud) (OCrashSync k) (st', []).

(** ** The invariant of the log *)

Record log_wf (st : LogSt) : Prop := {
  wf_n : 0 ≤ lh_n (log_lh (ls_log st)) ≤ Z.of_nat LOGSIZE;
  wf_fits : lh_n (log_lh (ls_log st)) < log_size (ls_log st);
  wf_blocks : length (lh_block (log_lh (ls_log st))) = LOGSIZE;
  wf_u32 : Forall (λ b, 0 ≤ b < 2 ^ 32) (lh_block (log_lh (ls_log st)));
  wf_nodup : NoDup (logged (ls_log st));
  wf_home : Forall (home (ls_log st)) (logged (ls_log st));
  (** The header block on the disk is that of an empty log. *)
  wf_head : block_ok (dget (ls_disk st) (log_start (ls_log st)));
  wf_head_view : bview st (log_start (ls_log st)) = dget (ls_disk st) (log_start (ls_log st));
  wf_clean : lh_n (decode_head (dget (ls_disk st) (log_start (ls_log st)))) = 0;
  (** Only logged blocks differ from the disk. *)
  wf_dirty b : home (ls_log st) b → b ∉ logged (ls_log st) → bview st b = dget (ls_disk st) b;
  wf_committing : log_committing (ls_log st) = false;
  wf_unarmed : ls_crash_armed st = false;
}.

(** The reservation: one budget per outstanding operation, room in the header
    for all of them, and an empty header when there are none. *)
Definition reserved (st : LogSt) (bud : list nat) : Prop :=
  log_outstanding (ls_log st) = Z.of_nat (length bud) ∧
  Forall (λ k, k ≤ MAXOPBLOCKS)%nat bud ∧
  lh_n (log_lh (ls_log st)) + Z.of_nat (sum_list bud) ≤ Z.of_nat LOGSIZE ∧
  (bud = [] → lh_n (log_lh (ls_log st)) = 0).

(** The relation of the refinement. *)
Definition refines (st : LogSt) (a : adisk) : Prop :=
  ∀ b, home (ls_log st) b → dget (ls_disk st) b = committed a b ∧ bview st b = current a b.

Record sys_inv (s : Sys) (a : adisk) : Prop := {
  si_wf : log_wf s.1;
  si_reserved : reserved s.1 s.2;
  si_refines : refines s.1 a;
  si_active : active a = length s.2;
}.

(** ** Each operation preserves the invariant *)

Lemma sum_list_bound (bud : list nat) :
  Forall (λ k, k ≤ MAXOPBLOCKS)%nat bud → (sum_list bud ≤ length bud * MAXOPBLOCKS)%nat.
Proof. unfold MAXOPBLOCKS. induction 1; simpl in *; lia. Qed.

Lemma sum_list_insert (bud : list nat) i k :
  bud !! i = Some (S k) → sum_list bud = S (sum_list (<[i := k]> bud)).
Proof.
  revert i. induction bud as [|m bud IH]; intros i Hi; [done|].
  destruct i as [|i]; simpl in *; [simplify_eq; lia|]. rewrite (IH i Hi). lia.
Qed.

Lemma begin_op_inv st bud a st' :
  sys_inv (st, bud) a → begin_op st = (Returns (Ok ()), st') →
  sys_inv (st', MAXOPBLOCKS :: bud) (mkAdisk (committed a) (current a) (S (active a))).
Proof.
  intros [W (R1&R2&R3&R4) Rf Ha] Hb. unfold begin_op in Hb. simpl in *.
  case_match eqn:E; [done|]. injection Hb as <-. bool_to_prop. split; [by destruct W| |done|simpl in *; congruence].
  split; [simpl; lia|]. split; [by constructor|].
  split; [|done]. pose proof (sum_list_bound _ R2). simpl. rewrite Z.gtb_ltb in *. bool_to_prop.
  unfold MAXOPBLOCKS, LOGSIZE in *. lia.
Qed.

Lemma bview_bupdate b x st c :
  bview (bupdate b x st) c = if decide (c = b) then x else bview st c.
Proof.
  unfold bview. simpl. case_decide; subst.
  - by rewrite lookup_insert_eq.
  - by rewrite lookup_insert_ne by done.
Qed.

(** The two outcomes of [log_write] when it does not panic: the block is
    already logged, or it is appended and pinned. *)
Lemma log_write_ok b st st' :
  log_write b st = (Ok (), st') → length (lh_block (log_lh (ls_log st))) = LOGSIZE →
  0 ≤ lh_n (log_lh (ls_log st)) →
  (b ∈ logged (ls_log st) ∧ st' = st) ∨
  ((b ∉ logged (ls_log st)) ∧ logged (ls_log st') = logged (ls_log st) ++ [b] ∧
   lh_n (log_lh (ls_log st)) + 1 < log_size (ls_log st) ∧
   lh_n (log_lh (ls_log st)) < Z.of_nat LOGSIZE ∧
   st' = set_log (set_lh (mkLogHeader (lh_n (log_lh (ls_log st)) + 1)
           (<[Z.to_nat (lh_n (log_lh (ls_log st))) := b]> (lh_block (log_lh (ls_log st))))) (ls_log st))
           (bpin b st)).
Proof.
  intros Hw Hl Hn. unfold log_write in Hw.
  case_match eqn:E1; [done|]. case_match; [done|]. bool_to_prop.
  rewrite Z.geb_leb in *. bool_to_prop.
  case_match eqn:E2; bool_to_prop; injection Hw as <-; [by left|right].
  split; [done|]. split; [|split; [lia|]; split; [lia|done]].
  unfold logged. simpl. rewrite Z2Nat.inj_add, Nat.add_1_r by lia.
  rewrite take_S_r with (x := b) by (apply list_lookup_insert_eq; lia).
  by rewrite take_insert_ge.
Qed.

Lemma refines_update st st' a b x :
  ls_disk st' = ls_disk st → (∀ c, home (ls_log st') c → home (ls_log st) c) →
  (∀ c, bview st' c = if decide (c = b) then x else bview st c) →
  refines st a → refines st' (mkAdisk (committed a) (<[b := x]> (current a)) (active a)).
Proof.
  intros Hd Hh Hv Rf c Hc. destruct (Rf c (Hh c Hc)) as [Hcm Hcur]. split; [by rewrite Hd|].
  rewrite Hv. simpl.
  case_decide; subst; [by rewrite fn_lookup_insert|by rewrite fn_lookup_insert_ne by done].
Qed.

Lemma log_update_inv st bud i k b x a st' :
  sys_inv (st, bud) a → bud !! i = Some (S k) → home (ls_log st) b → 0 ≤ b < 2 ^ 32 →
  log_update b x st = (Ok (), st') →
  sys_inv (st', <[i := k]> bud) (mkAdisk (committed a) (<[b := x]> (current a)) (active a)).
Proof.
  intros [W (R1&R2&R3&R4) Rf Ha] Hi Hb Hr Hw. simpl in *. unfold log_update, mbind, M_bind in Hw. simpl in Hw.
  destruct W as [W1 W2 W3 W4 W5 W6 W7 W8 W9 W10 W11 W12].
  assert (Hbs : log_start (ls_log st) ≠ b) by (intros <-; apply Hb; lia).
  assert (Hv : ∀ c, bview (bupdate b x st) c = if decide (c = b) then x else bview st c)
    by apply bview_bupdate.
  assert (Hbud : Forall (λ k, k ≤ MAXOPBLOCKS)%nat (<[i := k]> bud)).
  { apply Forall_insert; [done|]. pose proof (Forall_lookup_1 _ _ _ _ R2 Hi). simpl in *. lia. }
  pose proof (sum_list_insert _ _ _ Hi) as Hs.
  assert (Hne : <[i := k]> bud ≠ []) by (intros E%(f_equal length); rewrite length_insert in E;
    apply lookup_lt_Some in Hi; simpl in E; lia).
  destruct (log_write_ok _ _ _ Hw W3 (proj1 W1)) as [[Hin ->]|(Hin&Hlg&Hf&Hn&Hst)];
    [|assert (Hv' : ∀ c, bview st' c = bview (bupdate b x st) c) by (by intros c; subst st')].
  - split; simpl.
    + split; simpl; try done.
      * rewrite Hv, decide_False by done. done.
      * intros c Hc Hni. rewrite Hv, decide_False by (intros ->; done). by apply W10.
    + split; [simpl; by rewrite length_insert|]. split; [done|]. split; [simpl; lia|done].
    + by apply (refines_update st).
    + by rewrite length_insert.
  - split; simpl.
    + rewrite Hst in *. split; simpl in *; try done; try lia.
      * rewrite length_insert. done.
      * by apply Forall_insert.
      * rewrite Hlg. apply NoDup_app. split; [done|]. split; [|apply NoDup_singleton].
        intros c Hc Hcb%list_elem_of_singleton. by subst.
      * rewrite Hlg. apply Forall_app. split; [done|by repeat constructor].
      * rewrite Hv', Hv, decide_False by done. done.
      * intros c Hc Hni. rewrite Hlg in Hni. apply not_elem_of_app in Hni as [Hni Hnb].
        rewrite Hv', Hv, decide_False; [by apply W10|]. intros ->. apply Hnb. left.
    + rewrite Hst. split; [simpl; by rewrite length_insert|]. split; [done|]. split; [simpl; lia|done].
    + apply (refines_update st st'); [by rewrite Hst..| |done]. intros c. by rewrite Hv'.
    + by rewrite length_insert.
Qed.

(** ** Commits *)

Lemma apply_writes_agree ws (c d : gmap Z block) b :
  b ∈ ws.*1 → ∃ x, apply_writes ws c !! b = Some x ∧ apply_writes ws d !! b = Some x.
Proof.
  revert c d. induction ws as [|[k x] ws IH]; intros c d; simpl; [by intros ?%not_elem_of_nil|].
  destruct (decide (b ∈ ws.*1)); [intros _; by apply IH|].
  intros [-> | ?]%elem_of_cons; [|done]. rewrite !lookup_apply_writes_ne, !lookup_insert_eq by done.
  by exists x.
Qed.

Lemma bview_after st st' ws b :
  ls_disk st' = apply_writes ws (ls_disk st) → ls_cache st' = apply_writes ws (ls_cache st) →
  bview st' b = if decide (b ∈ ws.*1) then dget (ls_disk st') b else bview st b.
Proof.
  intros HD HC. unfold bview, dget. rewrite HC, HD. case_decide as Hb.
  - destruct (apply_writes_agree ws (ls_cache st) (ls_disk st) b Hb) as (x&->&->). done.
  - by rewrite !lookup_apply_writes_ne.
Qed.

Abbreviation committing_st m st := (set_log (set_committing true (set_outstanding m (ls_log st))) st).

Lemma wf_commit_ready st m :
  log_wf st → 0 < lh_n (log_lh (ls_log st)) → commit_ready (committing_st m st).
Proof.
  intros [W1 W2 W3 W4 W5 W6 [W7 _] W8 W9 W10 W11 W12] Hn.
  split; simpl; try done; [lia|]. by rewrite <-W7, <-W8.
Qed.


(** What [commit] followed by the end of [end_op] leaves behind. *)
Record just_committed (m : Z) (st st' : LogSt) : Prop := {
  jc_wf : log_wf st';
  jc_log : log_start (ls_log st') = log_start (ls_log st) ∧ log_size (ls_log st') = log_size (ls_log st);
  jc_out : log_outstanding (ls_log st') = m;
  jc_n : lh_n (log_lh (ls_log st')) = 0;
  jc_disk b : home (ls_log st) b → dget (ls_disk st') b = bview st b;
  jc_view b : home (ls_log st) b → bview st' b = bview st b;
  jc_trace : ls_trace st' = ls_trace st ++ if lh_n (log_lh (ls_log st)) >? 0 then commit_writes (committing_st m st) else [];
}.

Lemma commit_nothing st m :
  log_wf st → lh_n (log_lh (ls_log st)) = 0 →
  ∃ st', (_ ← commit; commit_finish) (committing_st m st) = (Ok (), st') ∧ just_committed m st st'.
Proof.
  intros W Hn. eexists. split.
  { unfold mbind, M_bind, commit. simpl. rewrite Hn. reflexivity. }
  assert (Hl : logged (ls_log st) = []) by (unfold logged; by rewrite Hn).
  split; simpl; try done; [by destruct W| |by rewrite Hn, app_nil_r].
  intros b Hb. symmetry. apply (wf_dirty _ W); [done|]. rewrite Hl. apply not_elem_of_nil.
Qed.

Lemma commit_something st m :
  log_wf st → 0 < lh_n (log_lh (ls_log st)) →
  ∃ st', (_ ← commit; commit_finish) (committing_st m st) = (Ok (), st') ∧ just_committed m st st'.
Proof.
  intros W Hn. pose proof (wf_commit_ready st m W Hn) as Hr. set (st0 := committing_st m st) in *.
  destruct (commit_run st0 Hr) as (st1&Hrun&HD&HC&HT&HL&HA); [by destruct W|].
  destruct (finished_disk st0 Hr) as [Hz Hnew]. rewrite <-HD in Hz, Hnew.
  eexists. split; [unfold mbind, M_bind; rewrite Hrun; reflexivity|].
  assert (HV : ∀ b, bview st1 b = if decide (b ∈ (commit_writes st0).*1) then dget (ls_disk st1) b
                                   else bview st b) by (intros b; by apply bview_after).
  assert (Hdisk : ∀ b, home (ls_log st) b → dget (ls_disk st1) b = bview st b).
  { intros b Hb. rewrite (Hnew b Hb). unfold new_contents. case_decide; [done|].
    symmetry. by apply (wf_dirty _ W). }
  assert (Hview : ∀ b, home (ls_log st) b → bview st1 b = bview st b).
  { intros b Hb. rewrite HV. case_decide; [by apply Hdisk|done]. }
  assert (Hstart : log_start (ls_log st) ∈ (commit_writes st0).*1).
  { unfold commit_writes. rewrite !fmap_app, !elem_of_app. right; left. left. }
  assert (Hhd : dget (ls_disk st1) (log_start (ls_log st)) = empty_head st0).
  { rewrite HD. unfold commit_writes. rewrite !apply_writes_app.
    apply dget_apply; [apply NoDup_singleton|left]. }
  split; simpl; rewrite ?HL; try done; [|by rewrite HT, Z.gtb_ltb, (proj2 (Z.ltb_lt _ _))].
  destruct W as [W1 W2 W3 W4 W5 W6 W7 W8 W9 W10 W11 W12].
  split; simpl; rewrite ?HL; simpl; try done; try lia.
  - apply NoDup_nil_2.
  - rewrite Hhd. apply encode_head_ok; [done|]. apply encode_head_ok; [done|]. simpl.
    change (bview st0 ?b) with (bview st b). by rewrite W8.
  - change (bview (set_log _ st1) ?b) with (bview st1 b). by rewrite HV, decide_True.
  - intros b Hb _. change (bview (set_log _ st1) b) with (bview st1 b).
    by rewrite Hview, Hdisk.
  - by rewrite HA.
Qed.

Lemma commit_finish_ok st m :
  log_wf st →
  ∃ st', (_ ← commit; commit_finish) (committing_st m st) = (Ok (), st') ∧ just_committed m st st'.
Proof.
  intros W. destruct (decide (lh_n (log_lh (ls_log st)) = 0)).
  - by apply commit_nothing.
  - apply commit_something; [done|]. pose proof (wf_n _ W). lia.
Qed.

(** [end_op] of a system with an outstanding operation: it succeeds, and it
    commits exactly when it is the last one. *)
Lemma end_op_cases st bud :
  log_wf st → reserved st bud → bud ≠ [] →
  ∃ st', end_op st = (Ok (), st') ∧
    if decide (length bud = 1%nat) then just_committed 0 st st'
    else st' = set_log (set_outstanding (log_outstanding (ls_log st) - 1) (ls_log st)) st.
Proof.
  intros W (R1&R2&R3&R4) Hne. unfold end_op, mbind, M_bind, end_op_start.
  assert (0 < Z.of_nat (length bud)) by (destruct bud; simpl; [done|lia]).
  rewrite R1, (proj2 (Z.eqb_neq _ _)) by lia. simpl. rewrite (wf_committing _ W).
  case_decide as Hl.
  - rewrite Hl. simpl. apply (commit_finish_ok st 0 W).
  - rewrite (proj2 (Z.eqb_neq _ _)) by lia. by eexists.
Qed.

Lemma committed_inv st bud m a st' : just_committed m st st' → m = Z.of_nat (length bud) → Forall (λ k, k ≤ MAXOPBLOCKS)%nat bud →
  Z.of_nat (sum_list bud) ≤ Z.of_nat LOGSIZE → refines st a → sys_inv (st', bud) (mkAdisk (current a) (current a) (length bud)).
Proof.
  intros [J1 [J2 J2'] J3 J4 J5 J6 _] -> Hb Hs Rf. split; [done| | |done]; simpl.
  - split; [by rewrite J3|]. split; [done|]. rewrite J4. split; [lia|done].
  - intros b Hhb. unfold home in Hhb. rewrite J2, J2' in Hhb. simpl. rewrite J5, J6 by done. split; by apply Rf.
Qed.

Lemma end_op_inv st bud1 k bud2 a st' :
  sys_inv (st, bud1 ++ k :: bud2) a → end_op st = (Ok (), st') →
  ∃ a', adisk_step a OEnd a' ∧ sys_inv (st', bud1 ++ bud2) a'.
Proof.
  intros [W R Rf Ha] He. simpl in *.
  destruct (end_op_cases st _ W R) as (st2&He2&Hc); [by destruct bud1|].
  rewrite He in He2. injection He2 as <-. destruct R as (R1&R2&R3&R4).
  rewrite length_app in *. simpl in *. rewrite !Forall_app, Forall_cons in R2. destruct a as [d c n]. simpl in *. case_decide as Hl.
  - exists (mkAdisk c c 0). rewrite Ha, Hl. split; [constructor|]. destruct bud1, bud2; simpl in Hl; try lia.
    by apply (committed_inv st [] 0 (mkAdisk d c n)).
  - exists (mkAdisk d c (length (bud1 ++ bud2))). rewrite length_app. rewrite Ha. split.
    { replace (length bud1 + S (length bud2))%nat with (S (S (pred (length bud1 + length bud2)))) by lia.
      replace (length bud1 + length bud2)%nat with (S (pred (length bud1 + length bud2))) at 2 by lia. constructor. }
    subst st'. split; simpl; [by destruct W| |done|by rewrite length_app].
    split; [simpl; rewrite length_app; lia|]. split; [apply Forall_app; naive_solver|].
    simpl. rewrite sum_list_with_app in *. simpl in *. split; [lia|].
    intros [-> ->]%app_eq_nil. simpl in Hl. lia.
Qed.

(** [sync] returns when no operation is active, and the log is empty then. *)
Lemma log_sync_cases st bud r st' :
  log_wf st → reserved st bud → log_sync st = (Returns r, st') → bud = [] ∧ r = Ok () ∧ st' = st ∧ lh_n (log_lh (ls_log st)) = 0.
Proof.
  intros W (R1&R2&R3&R4) Hs. unfold log_sync in Hs. case_match eqn:E; [done|]. bool_to_prop. rewrite Z.gtb_ltb in *. bool_to_prop.
  assert (bud = []) as -> by (destruct bud; simpl in *; [done|lia]). rewrite R4 in * by done. cbn in Hs. by simplify_eq.
Qed.

Lemma empty_refines st c d n m : log_wf st → lh_n (log_lh (ls_log st)) = 0 → refines st (mkAdisk d c n) → refines st (mkAdisk c c m).
Proof.
  intros W Hn Rf b Hb. destruct (Rf b Hb) as [_ H2]. split; [|done]. cbn in *. rewrite <- H2. symmetry. apply (wf_dirty _ W); [done|].
  unfold logged. rewrite Hn. apply not_elem_of_nil.
Qed.

Lemma log_sync_inv st bud a st' :
  sys_inv (st, bud) a → log_sync st = (Returns (Ok ()), st') →
  ∃ a', adisk_step a OSync a' ∧ sys_inv (st', bud) a'.
Proof.
  intros [W R Rf Ha] Hs. simpl in *. destruct (log_sync_cases _ _ _ _ W R Hs) as (-> & _ & -> & Hn).
  destruct a as [d c n]. simpl in *. subst n. exists (mkAdisk c c 0). split; [constructor|]. split; [done|done| |done]. by eapply empty_refines.
Qed.

(** ** Crashes *)

(** The log that recovery returns is well formed and empty, and nothing in
    the cache differs from the disk. *)
Lemma log_new_wf start size dev d st' :
  0 < size → recoverable start size dev d → block_ok (dget d start) →
  log_new start size dev d = (Ok (), st') →
  log_wf st' ∧ reserved st' [] ∧ (∀ b, bview st' b = dget (ls_disk st') b) ∧
  log_start (ls_log st') = start ∧ log_size (ls_log st') = size.
Proof.
  intros Hsize Hrv [Hok Hby] Hnew.
  destruct (log_new_run start size dev d Hsize Hrv) as (st2&Hnew2&HD&HC&_&_&HL&HA).
  rewrite Hnew in Hnew2. injection Hnew2 as <-.
  assert (HV : ∀ b, bview st' b = dget (ls_disk st') b).
  { intros b. unfold bview, dget. rewrite HC, HD.
    destruct (decide (b ∈ (recover_writes start size dev d).*1)) as [Hb|Hb].
    - by destruct (apply_writes_agree _ ∅ d b Hb) as (x&->&->).
    - by rewrite !lookup_apply_writes_ne. }
  assert (Hhd : dget (ls_disk st') start = encode_head (mkLogHeader 0 (lh_block (decode_head (dget d start)))) (dget d start)).
  { rewrite HD. unfold recover_writes. rewrite apply_writes_app.
    apply dget_apply; [apply NoDup_singleton|left]. }
  assert (Hlg : logged (ls_log st') = []) by (rewrite HL; done).
  split_and!; [|unfold reserved; rewrite HL; split; [done|split; [constructor|done]]|done|by rewrite HL..].
  split; rewrite ?Hlg, ?HL; cbn [set_lh disk_log log_lh log_start log_size lh_n lh_block]; try done.
  - by apply decode_head_u32.
  - apply NoDup_nil_2.
  - rewrite Hhd. apply encode_head_ok; [apply length_decode_head|done].
  - rewrite Hhd. apply clear_head_decodes; [apply length_decode_head|by apply decode_head_u32|done].
Qed.

Lemma dget_apply_cases ws d b :
  dget (apply_writes ws d) b = dget d b ∨ (b, dget (apply_writes ws d) b) ∈ ws.
Proof.
  revert d. induction ws as [|[c x] ws IH]; intros d; simpl; [by left|].
  destruct (IH (<[c := x]> d)) as [Hk|Hin]; [|right; by right].
  unfold dget in *. simpl in *. rewrite Hk. destruct (decide (b = c)) as [->|].
  - rewrite lookup_insert_eq. right. left.
  - rewrite lookup_insert_ne by done. by left.
Qed.

(** The header block on the disk is well formed at every crash point. *)
Lemma commit_prefix_head st k :
  commit_ready st → block_ok (dget (ls_disk st) (log_start (ls_log st))) →
  block_ok (bview st (log_start (ls_log st))) →
  block_ok (dget (apply_writes (take k (commit_writes st)) (ls_disk st)) (log_start (ls_log st))).
Proof.
  intros Hr Hd Hv. assert (Hh : block_ok (head_block st)) by (apply encode_head_ok; [by destruct Hr|done]).
  destruct (dget_apply_cases (take k (commit_writes st)) (ls_disk st) (log_start (ls_log st)))
    as [->|Hin]; [done|]. revert Hin. generalize (dget (apply_writes (take k (commit_writes st)) (ls_disk st)) (log_start (ls_log st))).
  intros x Hin%take_subseteq. unfold commit_writes in Hin. rewrite !elem_of_app in Hin.
  destruct Hin as [Hin|[Hin|[Hin|Hin]]].
  - apply (list_elem_of_fmap_2 fst), log_writes_keys in Hin. simpl in Hin. lia.
  - apply list_elem_of_singleton in Hin. by simplify_eq.
  - apply (list_elem_of_fmap_2 fst) in Hin. rewrite IW_keys in Hin. simpl in Hin.
    destruct (start_not_home st Hr). by apply (proj1 (Forall_forall _ _) (cr_home _ Hr)).
  - apply list_elem_of_singleton in Hin. simplify_eq. apply encode_head_ok; [by destruct Hr|done].
Qed.

(** A recovered system refines the disk recovery agreed with. *)
Lemma recovered_inv start size dev d st' l f a :
  log_start l = start → log_size l = size → 0 < size →
  recoverable start size dev d → block_ok (dget d start) →
  log_new start size dev d = (Ok (), st') → home_agrees l (ls_disk st') f →
  (∀ b, home l b → f b = committed a b) →
  sys_inv (st', []) (mkAdisk (committed a) (committed a) 0).
Proof.
  intros <- <- Hs Hrv Hok Hnew Ha Hf.
  destruct (log_new_wf _ _ _ _ _ Hs Hrv Hok Hnew) as (W&R&HV&E1&E2).
  split; [done|done| |done]. intros b Hb. simpl in *. unfold home in Hb. rewrite E1, E2 in Hb.
  rewrite HV. by rewrite Ha, Hf.
Qed.

(** From the disk of a state between two calls, the committed contents are
    recovered. *)
Lemma crash_inv st bud a :
  sys_inv (st, bud) a → ∃ st', reboot st (ls_disk st) = (Ok (), st') ∧ sys_inv (st', []) (mkAdisk (committed a) (committed a) 0).
Proof.
  intros [W R Rf Ha]. simpl in *. assert (Hs : 0 < log_size (ls_log st)) by (destruct W; lia).
  destruct (recover_empty (log_start (ls_log st)) (log_size (ls_log st)) (log_dev (ls_log st)) (ls_disk st) Hs)
    as (Hrv&st2&Hnew&Hag); [by destruct W|]. exists st2. split; [done|].
  eapply (recovered_inv _ _ _ _ _ (ls_log st)); try done; [by destruct W|]. intros b Hb. by apply Rf.
Qed.

(** From a disk with part of a commit, the committed or the current contents
    are recovered. *)
Lemma crash_commit_inv st bud a m k :
  sys_inv (st, bud) a → 0 < lh_n (log_lh (ls_log st)) →
  ∃ st' c, reboot st (apply_writes (take k (commit_writes (committing_st m st))) (ls_disk st)) = (Ok (), st') ∧
    (c = committed a ∨ c = current a) ∧ sys_inv (st', []) (mkAdisk c c 0).
Proof.
  intros [W R Rf Ha] Hn. simpl in *.
  pose proof (wf_commit_ready st m W Hn) as Hr. set (st1 := committing_st _ st) in *.
  assert (Hs : 0 < log_size (ls_log st)) by (destruct W; lia).
  assert (Hhd : block_ok (dget (apply_writes (take k (commit_writes st1)) (ls_disk st1)) (log_start (ls_log st1)))).
  { apply commit_prefix_head; [done|by destruct W|]. change (bview st1 ?b) with (bview st b).
    simpl. rewrite (wf_head_view _ W). by destruct W. }
  destruct (decide (k ≤ length (logged (ls_log st1)))%nat) as [Hk|Hk].
  - destruct (crash_before_header st1 Hr k Hk) as (Hrv&st2&Hnew&Hag). exists st2, (committed a). split; [exact Hnew|]. split; [by left|].
    eapply (recovered_inv _ _ _ _ _ (ls_log st1)); try done. intros b Hb. by apply Rf.
  - destruct (crash_after_header st1 Hr k) as (Hrv&st2&Hnew&Hag); [lia|]. exists st2, (current a). split; [exact Hnew|]. split; [by right|].
    eapply (recovered_inv _ _ _ _ _ (ls_log st1) _ (mkAdisk (current a) (current a) 0)); try done.
    intros b Hb. destruct (Rf b Hb) as [Hc Hv]. unfold new_contents. simpl. rewrite <-Hv.
    case_decide; [done|]. symmetry. by apply (wf_dirty _ W).
Qed.

(** The machine stops during [end_op]. *)
Lemma crash_end_inv st bud a r st1 k :
  sys_inv (st, bud) a → bud ≠ [] → end_op st = (r, st1) →
  ∃ st' a', reboot st (crash_disk st st1 k) = (Ok (), st') ∧ adisk_step a (OCrashEnd k) a' ∧ sys_inv (st', []) a'.
Proof.
  intros HI Hne He. pose proof HI as [W R Rf Ha]. simpl in *. destruct (end_op_cases st bud W R Hne) as (st2&He2&Hc).
  rewrite He in He2. injection He2 as -> <-. destruct a as [d c n]. simpl in *. subst n.
  assert (∃ n, length bud = S n) as [n Hn] by (destruct bud; [done|by eexists]).
  assert (crash_disk st st1 k = ls_disk st ∨ length bud = 1%nat ∧ 0 < lh_n (log_lh (ls_log st)) ∧
    crash_disk st st1 k = apply_writes (take k (commit_writes (committing_st 0 st))) (ls_disk st)) as [E|(E1 & E2 & E)].
  { case_decide as Hl; [|subst st1; left; unfold crash_disk; cbn; by rewrite drop_all, take_nil].
    pose proof (jc_trace _ _ _ Hc) as HT. rewrite Z.gtb_ltb in HT. rewrite (crash_disk_run _ _ _ _ HT).
    destruct (Z.ltb_spec 0 (lh_n (log_lh (ls_log st)))); [by right|left; by rewrite take_nil]. }
  - destruct (crash_inv _ _ _ HI) as (st' & Hst & HI'). exists st', (mkAdisk d d 0). rewrite E, Hn. split_and!; [done|constructor|done].
  - destruct (crash_commit_inv _ _ _ 0 k HI E2) as (st' & c' & Hst & Hcc & HI'). exists st', (mkAdisk c' c' 0). rewrite E, E1. split_and!; [done| |done].
    destruct Hcc as [-> | ->]; constructor.
Qed.

Lemma crash_sync_inv st bud a r st1 k :
  sys_inv (st, bud) a → log_sync st = (Returns r, st1) →
  ∃ st' a', reboot st (crash_disk st st1 k) = (Ok (), st') ∧ adisk_step a (OCrashSync k) a' ∧ sys_inv (st', []) a'.
Proof.
  intros HI Hs. pose proof HI as [W R Rf Ha]. simpl in *. destruct (log_sync_cases _ _ _ _ W R Hs) as (-> & _ & -> & Hn).
  destruct (crash_inv _ _ _ HI) as (st' & Hst & HI'). destruct a as [d c n]. simpl in *. subst n. exists st', (mkAdisk d d 0).
  unfold crash_disk. rewrite drop_all, take_nil. split_and!; [done|constructor|done].
Qed.

(** ** The refinement *)

Lemma sys_step_sim s a o s' :
  sys_inv s a → sys_step s o s' → ∃ a', adisk_step a o a' ∧ sys_inv s' a'.
Proof.
  intros HI Hs. pose proof (si_active _ _ HI) as Ha. destruct Hs as [st bud st' Hb|st bud i k b x st' Hi Hh Hr Hw| | |st bud st' Hb|st bud st1 r k st' Hne He Hb|st bud st1 r k st' He Hb]; simpl in *.
  - eexists. split; [|by eapply begin_op_inv]. destruct a. constructor.
  - eexists. split; [|by eapply log_update_inv]. destruct a as [d c n]. simpl in *. apply lookup_lt_Some in Hi. destruct n; [lia|]. constructor.
  - by eapply end_op_inv.
  - by eapply log_sync_inv.
  - destruct (crash_inv _ _ _ HI) as (st2 & Hst & HI'). rewrite Hb in Hst. injection Hst as <-. eexists. split; [|done]. destruct a. constructor.
  - destruct (crash_end_inv _ _ _ _ _ k HI Hne He) as (st2 & a' & Hst & ? & ?). rewrite Hb in Hst. injection Hst as <-. eauto.
  - destruct (crash_sync_inv _ _ _ _ _ k HI He) as (st2 & a' & Hst & ? & ?). rewrite Hb in Hst. injection Hst as <-. eauto.
Qed.

(** Operations that keep to their budget never panic.  In every reachable
    state of a log area of more than [LOGSIZE] blocks, an admitted operation
    that has logged fewer than [MAXOPBLOCKS] blocks can log another one, and
    an operation can always end; when none is outstanding, [begin_op] admits
    one without sleeping. *)
Theorem log_ops_never_panic st bud a :
  sys_inv (st, bud) a → Z.of_nat LOGSIZE < log_size (ls_log st) →
  (∀ i k b x, bud !! i = Some (S k) → ∃ st', log_update b x st = (Ok (), st')) ∧
  (bud ≠ [] → ∃ st', end_op st = (Ok (), st')) ∧
  (bud = [] → ∃ st', begin_op st = (Returns (Ok ()), st')).
Proof.
  intros [W R Rf _] Hsz. simpl in *. split_and!.
  - intros i k b x Hi. destruct R as (R1&_&R3&_). pose proof (sum_list_insert _ _ _ Hi).
    pose proof (lookup_lt_Some _ _ _ Hi). unfold log_update, mbind, M_bind, log_write. simpl.
    rewrite !Z.geb_leb, (proj2 (Z.leb_gt _ _)), (proj2 (Z.leb_gt _ _)), (proj2 (Z.ltb_ge _ _)) by lia.
    simpl. case_match; by eexists.
  - intros Hne. destruct (end_op_cases st bud W R Hne) as (st'&He&_). by exists st'.
  - intros ->. destruct R as (R1&_&_&R4). unfold begin_op.
    rewrite (wf_committing _ W), R1, R4 by done. by eexists.
Qed.

(** C@: the log refines an atomic disk.  Whatever sequence of operations,
    block updates, syncs and crashes the system goes through, the abstract
    disk makes the same steps: reads see all updates made so far; the last
    active operation to end commits them all; a crash leaves the contents of
    the last commit, and a crash after any number of the disk writes of an
    [end_op] leaves the contents from before or from after its commit, never a
    mixture.  In every such state a reboot succeeds from the disk at any of
    these points, and in a log area of more than [LOGSIZE] blocks no call of
    an operation that keeps to [MAXOPBLOCKS] blocks panics, and one is always
    admitted when none is active. *)
Theorem log_refines_atomic_disk s a os s' :
  sys_inv s a → lsteps sys_step s os s' →
  ∃ a', lsteps adisk_step a os a' ∧ sys_inv s' a' ∧
    (∃ st', reboot s'.1 (ls_disk s'.1) = (Ok (), st')) ∧
    (s'.2 ≠ [] → ∀ k, ∃ st', reboot s'.1 (crash_disk s'.1 (end_op s'.1).2 k) = (Ok (), st')) ∧
    (Z.of_nat LOGSIZE < log_size (ls_log s'.1) →
      (∀ i k b x, s'.2 !! i = Some (S k) → ∃ st', log_update b x s'.1 = (Ok (), st')) ∧
      (s'.2 ≠ [] → ∃ st', end_op s'.1 = (Ok (), st')) ∧
      (s'.2 = [] → ∃ st', begin_op s'.1 = (Returns (Ok ()), st'))).
Proof.
  intros HI Hs. destruct (lsteps_sim _ _ sys_inv sys_step_sim _ _ _ _ HI Hs) as (a' & Ha & HI'). exists a'. destruct s' as [st bud]. split_and!; [done|done| | |].
  - destruct (crash_inv _ _ _ HI') as (st' & ? & _). by exists st'.
  - cbn [fst snd]. intros Hne k. destruct (end_op st) as [r st1] eqn:E. destruct (crash_end_inv _ _ _ _ _ k HI' Hne E) as (st2 & ? & Hst & _). by exists st2.
  - by apply (log_ops_never_panic st bud a').
Qed.

(** ** Concrete runs *)

(** A freshly formatted disk: the log area of [size] blocks starts at block 2. *)
Definition fresh (size : Z) : LogSt := (log_new 2 size 1 ∅).2.

Lemma fresh_inv size : 0 < size → sys_inv (fresh size, []) (mkAdisk (λ _, zero_block) (λ _, zero_block) 0).
Proof.
  intros Hs. destruct (recover_empty 2 size 1 ∅ Hs) as (Hrv&st'&Hnew&Ha); [vm_compute; done|].
  assert (Hok : block_ok (dget ∅ 2)).
  { split; [reflexivity|]. apply (bool_decide_unpack _). vm_compute. exact I. }
  unfold fresh. rewrite Hnew. simpl.
  by apply (recovered_inv 2 size 1 ∅ st' (disk_log 2 size 1 ∅) (dget ∅)
           (mkAdisk (λ _, zero_block) (λ _, zero_block) 0)).
Qed.

(** One operation that writes a block and commits, and a crash. *)
Definition one_op : LogSt := (log_update 50 (replicate BSIZE 7) (begin_op (fresh 31)).2).2.
Lemma log_refines_atomic_disk_witness :
  ∃ a', lsteps adisk_step (mkAdisk (λ _, zero_block) (λ _, zero_block) 0) [OBegin; OWrite 50 (replicate BSIZE 7); OEnd] a' ∧
    sys_inv ((end_op one_op).2, []) a' ∧ ∃ st', reboot (end_op one_op).2 (ls_disk (end_op one_op).2) = (Ok (), st').
Proof.
  destruct (log_refines_atomic_disk (fresh 31, []) (mkAdisk (λ _, zero_block) (λ _, zero_block) 0)
    [OBegin; OWrite 50 (replicate BSIZE 7); OEnd] ((end_op one_op).2, [])) as (a' & Ha & HI & Hst & _).
  - apply fresh_inv; lia.
  - eapply LS_cons; [apply (SS_begin (fresh 31) []); vm_compute; reflexivity|].
    eapply LS_cons; [apply (SS_write _ [10%nat] 0 9 50 (replicate BSIZE 7)); [reflexivity| |lia|vm_compute; reflexivity]|].
    { vm_compute. intros [_ H]. discriminate H. }
    eapply LS_cons; [apply (SS_end _ [] 9 []); vm_compute; reflexivity|]. apply LS_nil.
  - exists a'. split_and!; [exact Ha|exact HI|exact Hst].
Defined.

(** Three operations are admitted together and each logs [MAXOPBLOCKS]
    distinct blocks. *)
Definition three_full_ops (size : Z) (n : nat) : Result () * LogSt :=
  let st := (begin_op (begin_op (begin_op (fresh size)).2).2).2 in
  m_for (seq 100 n) (λ b, log_update (Z.of_nat b) zero_block) st.

(** The log area that [mkfs] lays out is one block too small.  It has
    [LOGSIZE] blocks, one of which is the header, so [LOG.write] rejects the
    [LOGSIZE]-th block of the admitted operations with a panic although
    [begin_op] reserved room for it; an area of [LOGSIZE + 1] blocks takes
    all of them. *)
Theorem mkfs_log_area_too_small :
  (begin_op (begin_op (begin_op (fresh 30)).2).2).1 = Returns (Ok ()) ∧
  (three_full_ops 30 29).1 = Ok () ∧ (three_full_ops 30 30).1 = Panic ∧
  (three_full_ops 31 30).1 = Ok ().
Proof. vm_compute. done. Qed.

(** * Transactional block storage

    What the file-system layer needs from the layers below: read a block, and
    update a block inside a transaction.  [BlockStoreLaws] states the promise;
    the log discharges it ([log_block_store_laws]), and [MemDisk], a plain
    map of blocks, is a second instance on which the file system can be run. *)

Class BlockStore (S : Type) := {
  (** Contents of the buffer [BCACHE.read(dev, b)] returns. *)
  bs_read : S → Z → block;
  (** Change the buffer and pass it to [LOG.write]. *)
  bs_update : Z → block → M Error S ();
  (** The transaction can take that many more updates. *)
  bs_room : S → nat → Prop;
}.

Class BlockStoreLaws (S : Type) `{BlockStore S} := {
  bs_update_ok b x s k :
    bs_room s (Datatypes.S k) →
    ∃ s', bs_update b x s = (Ok (), s') ∧ bs_room s' k ∧
      ∀ c, bs_read s' c = if decide (c = b) then x else bs_read s c;
  bs_room_le s j k : (j ≤ k)%nat → bs_room s k → bs_room s j;
}.

(** ** The log *)

(** Room in the header, and a transaction to log into. *)
Definition log_room (st : LogSt) (k : nat) : Prop :=
  1 ≤ log_outstanding (ls_log st) ∧
  lh_n (log_lh (ls_log st)) + Z.of_nat k ≤ Z.of_nat LOGSIZE ∧
  lh_n (log_lh (ls_log st)) + Z.of_nat k ≤ log_size (ls_log st) - 1.

Global Instance log_block_store : BlockStore LogSt :=
  { bs_read := bview; bs_update := log_update; bs_room := log_room }.

Lemma log_update_room b x st k :
  log_room st (S k) →
  ∃ st', log_update b x st = (Ok (), st') ∧ log_room st' k ∧
    ∀ c, bview st' c = if decide (c = b) then x else bview st c.
Proof.
  intros (R1&R2&R3). unfold log_update, mbind, M_bind, log_write. simpl.
  rewrite !Z.geb_leb, (proj2 (Z.leb_gt _ _)), (proj2 (Z.leb_gt _ _)), (proj2 (Z.ltb_ge _ _)) by lia.
  simpl. case_match; eexists; (split; [reflexivity|]); (split; [unfold log_room; simpl; lia|]);
    intros c; apply bview_bupdate.
Qed.

Global Instance log_block_store_laws : BlockStoreLaws LogSt.
Proof.
  split; simpl.
  - intros b x s k. apply log_update_room.
  - intros s j k Hjk (?&?&?). unfold log_room. lia.
Qed.

(** ** A disk in memory *)

Abbreviation MemDisk := (gmap Z block).

Definition mem_update (b : Z) (x : block) : M Error MemDisk () := λ d, (Ok (), <[b := x]> d).

Global Instance mem_block_store : BlockStore MemDisk :=
  { bs_read := dget; bs_update := mem_update; bs_room := λ _ _, True }.

Global Instance mem_block_store_laws : BlockStoreLaws MemDisk.
Proof.
  split; simpl; [|done].
  intros b x d k _. eexists. split; [reflexivity|]. split; [done|]. intros c. unfold dget.
  case_decide; subst; [by rewrite lookup_insert_eq|by rewrite lookup_insert_ne by done].
Qed.
