(* ===== verification/FsLayout.v ===== *)
(** * On-disk structures of the file system

    The superblock, on-disk inodes and directory entries of
    [kernel/src/fs.rs], as the bytes their [#[repr(C)]] layouts give. *)

From stdpp Require Import base tactics numbers list.
From S2P Require Import Prelude Params Bytes Log.
Local Open Scope Z_scope.

Definition ROOTINO : Z := 1.
Definition FSMAGIC : Z := 0x10203040.
Definition NDIRECT : nat := 11.
Definition NINDIRECT : nat := 256.
Definition NDINDIRECT : nat := NINDIRECT * NINDIRECT.
Definition MAXFILE : nat := NDIRECT + NINDIRECT + NDINDIRECT.
(** Size of a [DInode], inodes per block, bitmap bits per block. *)
Definition DINODE_SIZE : nat := 128.
Definition IPB : Z := 8.
Definition BPB : Z := 8192.
Definition DIRSIZ : nat := 14.
Definition DIRENT_SIZE : nat := 16.

(** [pub struct SuperBlock]. *)
Record SuperBlock := mkSuperBlock {
  sb_magic : Z; sb_size : Z; sb_nblocks : Z; sb_ninodes : Z;
  sb_nlog : Z; sb_logstart : Z; sb_inodestart : Z; sb_bmapstart : Z;
}.

(** [SuperBlock::read], from the contents of block 1. *)
Definition superblock_read (b : block) : SuperBlock :=
  mkSuperBlock (get_u32 0 b) (get_u32 1 b) (get_u32 2 b) (get_u32 3 b)
    (get_u32 4 b) (get_u32 5 b) (get_u32 6 b) (get_u32 7 b).

Definition iblock (sb : SuperBlock) (i : Z) : Z := i / IPB + sb_inodestart sb.
Definition bblock (sb : SuperBlock) (b : Z) : Z := b / BPB + sb_bmapstart sb.

(** [pub enum Major]. *)
Inductive Major := MNull | MConsole | MDisk | MInvalid.
Global Instance Major_eq_dec : EqDecision Major.
Proof. solve_decision. Defined.
Definition major_as_u16 (m : Major) : Z :=
  match m with MNull => 0 | MConsole => 1 | MDisk => 2 | MInvalid => 3 end.
Definition major_from_u16 (bits : Z) : Major :=
  match bits with 0 => MNull | 1 => MConsole | 2 => MDisk | _ => MInvalid end.

(** Reading an enum from memory: only its discriminants are values of it. *)
Definition filetype_of_bits (z : Z) : option FileType :=
  match z with
  | 0 => Some FT_Empty | 1 => Some FT_Dir | 2 => Some FT_File | 3 => Some FT_Device
  | 4 => Some FT_Symlink | 5 => Some FT_Socket | _ => None
  end.
Definition major_of_bits (z : Z) : option Major :=
  match z with
  | 0 => Some MNull | 1 => Some MConsole | 2 => Some MDisk | 3 => Some MInvalid | _ => None
  end.

(** [struct DInode], less its padding. *)
Record DInode := mkDInode {
  di_itype : FileType; di_major : Major; di_minor : Z; di_nlink : Z; di_size : Z;
  di_addrs : list Z; di_atime : Z; di_mtime : Z; di_ctime : Z;
}.

(** A sequence of little-endian words of the given widths in bytes. *)
Fixpoint encode_words (ws : list nat) (vs : list Z) : list Z :=
  match ws, vs with
  | w :: ws, v :: vs => le_bytes w v ++ encode_words ws vs
  | _, _ => []
  end.
Fixpoint decode_words (ws : list nat) (bs : list Z) : list Z :=
  match ws with
  | [] => []
  | w :: ws => le_val (take w bs) :: decode_words ws (drop w bs)
  end.

Lemma decode_encode_words ws vs rest :
  Forall2 (λ w v, 0 ≤ v < 2 ^ (8 * Z.of_nat w)) ws vs →
  decode_words ws (encode_words ws vs ++ rest) = vs.
Proof.
  induction 1 as [|w v ws vs Hv _ IH]; simpl; [done|].
  rewrite <-app_assoc, take_app_length', drop_app_length' by by rewrite length_le_bytes.
  by rewrite le_val_bytes, IH.
Qed.

Lemma length_encode_words ws vs :
  length ws = length vs → length (encode_words ws vs) = sum_list ws.
Proof.
  revert vs. induction ws as [|w ws IH]; intros [|v vs] Hl; simpl in *; try done.
  rewrite length_app, length_le_bytes, IH; lia.
Qed.


(** The words of a [DInode]: 88 bytes, followed by 40 bytes of padding. *)
Definition dinode_widths : list nat := [2; 2; 2; 2; 4]%nat ++ replicate 13 4%nat ++ [8; 8; 8]%nat.
Definition DINODE_DATA : nat := 88.

Definition dinode_values (d : DInode) : list Z :=
  [filetype_as_u16 (di_itype d); major_as_u16 (di_major d); di_minor d; di_nlink d; di_size d]
  ++ di_addrs d ++ [di_atime d; di_mtime d; di_ctime d].
Definition dinode_of_values (vs : list Z) : option DInode :=
  match vs with
  | ty :: mj :: mi :: nl :: sz :: vs =>
      t ← filetype_of_bits ty; m ← major_of_bits mj;
      match drop 13 vs with
      | [a; mt; c] => Some (mkDInode t m mi nl sz (take 13 vs) a mt c)
      | _ => None
      end
  | _ => None
  end.

Definition encode_dinode (d : DInode) : list Z := encode_words dinode_widths (dinode_values d).

(** The [i]-th inode of an inode block. *)
Definition get_dinode (i : nat) (b : block) : option DInode :=
  dinode_of_values (decode_words dinode_widths (read_at (DINODE_SIZE * i) DINODE_DATA b)).
(** Assigning its fields one by one leaves the padding. *)
Definition put_dinode (i : nat) (d : DInode) (b : block) : block :=
  write_at (DINODE_SIZE * i) (encode_dinode d) b.

Record dinode_ok (d : DInode) : Prop := {
  di_minor_ok : 0 ≤ di_minor d < 2 ^ 16;
  di_nlink_ok : 0 ≤ di_nlink d < 2 ^ 16;
  di_size_ok : 0 ≤ di_size d < 2 ^ 32;
  di_addrs_len : length (di_addrs d) = 13%nat;
  di_addrs_ok : Forall (λ a, 0 ≤ a < 2 ^ 32) (di_addrs d);
  di_atime_ok : 0 ≤ di_atime d < 2 ^ 64;
  di_mtime_ok : 0 ≤ di_mtime d < 2 ^ 64;
  di_ctime_ok : 0 ≤ di_ctime d < 2 ^ 64;
}.

Lemma dinode_values_ok d :
  dinode_ok d → Forall2 (λ w v, 0 ≤ v < 2 ^ (8 * Z.of_nat w)) dinode_widths (dinode_values d).
Proof.
  intros []. unfold dinode_widths, dinode_values. repeat apply Forall2_app.
  - repeat constructor; simpl; try lia; [destruct (di_itype d)|destruct (di_itype d)|
      destruct (di_major d)|destruct (di_major d)]; simpl; lia.
  - by apply Forall2_replicate_l.
  - do 3 (apply Forall2_cons; split; [done|]). apply Forall2_nil_2.
Qed.

Lemma dinode_of_values_of d : length (di_addrs d) = 13%nat → dinode_of_values (dinode_values d) = Some d.
Proof.
  intros Hl. destruct d as [t m mi nl sz addrs a mt c]. simpl in *.
  rewrite drop_app_length', take_app_length' by done. by destruct t, m.
Qed.

Lemma length_encode_dinode d : length (di_addrs d) = 13%nat → length (encode_dinode d) = DINODE_DATA.
Proof.
  intros Hl. unfold encode_dinode. rewrite length_encode_words; [done|].
  unfold dinode_values. rewrite !length_app, Hl. done.
Qed.

Lemma get_put_dinode i d b :
  length b = BSIZE → (i < 8)%nat → dinode_ok d → get_dinode i (put_dinode i d b) = Some d.
Proof.
  intros Hb Hi Hd. pose proof (di_addrs_len _ Hd) as Hl. pose proof (length_encode_dinode d Hl) as He.
  unfold get_dinode, put_dinode. rewrite <-He, read_write_at.
  - rewrite <-(app_nil_r (encode_dinode d)). unfold encode_dinode.
    rewrite decode_encode_words by by apply dinode_values_ok. by apply dinode_of_values_of.
  - rewrite He, Hb. unfold DINODE_SIZE, DINODE_DATA, BSIZE. lia.
Qed.

Lemma get_put_dinode_ne i j d b :
  length b = BSIZE → (i < 8)%nat → i ≠ j → length (di_addrs d) = 13%nat →
  get_dinode j (put_dinode i d b) = get_dinode j b.
Proof.
  intros Hb Hi Hne Hl. pose proof (length_encode_dinode d Hl) as He.
  unfold get_dinode, put_dinode. rewrite read_write_at_ne; [done|..]; rewrite He;
    unfold DINODE_SIZE, DINODE_DATA, BSIZE in *; lia.
Qed.

Lemma length_put_dinode i d b :
  length b = BSIZE → (i < 8)%nat → length (di_addrs d) = 13%nat → length (put_dinode i d b) = BSIZE.
Proof.
  intros Hb Hi Hl. unfold put_dinode. rewrite length_write_at; [done|].
  rewrite length_encode_dinode, Hb by done. unfold DINODE_SIZE, DINODE_DATA, BSIZE. lia.
Qed.

(** [pub struct DirEnt]: a 16-bit inode number and a name padded with zeros. *)
Record DirEnt := mkDirEnt { de_inum : Z; de_name : list Z }.

Definition encode_dirent (de : DirEnt) : list Z := le_bytes 2 (de_inum de) ++ de_name de.
Definition decode_dirent (bs : list Z) : DirEnt :=
  mkDirEnt (le_val (take 2 bs)) (take DIRSIZ (drop 2 bs)).

Lemma decode_encode_dirent de :
  0 ≤ de_inum de < 2 ^ 16 → length (de_name de) = DIRSIZ → decode_dirent (encode_dirent de) = de.
Proof.
  intros Hi Hn. destruct de as [i n]. unfold decode_dirent, encode_dirent. simpl in *.
  rewrite take_app_length', drop_app_length' by by rewrite length_le_bytes.
  rewrite le_val_bytes by done. by rewrite <-Hn, firstn_all.
Qed.

Lemma length_encode_dirent de : length (de_name de) = DIRSIZ → length (encode_dirent de) = DIRENT_SIZE.
Proof. intros Hn. unfold encode_dirent. by rewrite length_app, length_le_bytes, Hn. Qed.

#[global] Arguments BSIZE : simpl never.
#[global] Arguments NINDIRECT : simpl never.
#[global] Arguments BPB : simpl never.
#[global] Arguments IPB : simpl never.
#[global] Arguments get_dinode : simpl never.
#[global] Arguments put_dinode : simpl never.
