(* ===== verification/FsBlocks.v ===== *)
(** * The block allocator

    [bzero], [balloc] and [bfree] of [kernel/src/fs.rs] over the free bitmap. *)

From stdpp Require Import base tactics numbers gmap list.
From S2P Require Import Prelude Params Errors Bytes Log LogOps FsLayout.
Local Open Scope Z_scope.

Section blocks.
Context {S : Type} `{BlockStore S} (sb : SuperBlock).
Implicit Types (s : S) (b : Z).

Definition bzero b : M Error S () := bs_update b zero_block.

(** Byte [i] of a buffer; [None] is the out-of-bounds panic of [unwrap]. *)
Definition byte_at (x : block) (i : Z) : option Z := x !! Z.to_nat i.

(** The [while] loop of [balloc]: the first free bit from [bi] on.  [fuel] is
    the number of bits left in the bitmap block. *)
Fixpoint balloc_scan (b : Z) (x : block) (bi : Z) (fuel : nat) : Result (option Z) :=
  match fuel with
  | O => Ok None
  | Datatypes.S fuel =>
      if b + bi <? sb_size sb then
        match byte_at x (bi / 8) with
        | None => Panic
        | Some v => if Z.land v (Z.shiftl 1 (bi mod 8)) =? 0 then Ok (Some bi)
                    else balloc_scan b x (bi + 1) fuel
        end
      else Ok None
  end.

Definition mark_used (x : block) (bi : Z) : block :=
  match byte_at x (bi / 8) with
  | Some v => <[Z.to_nat (bi / 8) := Z.lor v (Z.shiftl 1 (bi mod 8))]> x
  | None => x
  end.
Definition mark_free (x : block) (bi : Z) : block :=
  match byte_at x (bi / 8) with
  | Some v => <[Z.to_nat (bi / 8) := Z.land v (Z.lxor 255 (Z.shiftl 1 (bi mod 8)))]> x
  | None => x
  end.

(** The [for] loop of [balloc] over the bitmap blocks from [k] on. *)
Fixpoint balloc_from (k : nat) (blocks : nat) : M Error S Z := λ s,
  match blocks with
  | O => (Panic, s)
  | Datatypes.S blocks =>
      let b := Z.of_nat k * BPB in
      let x := bs_read s (bblock sb b) in
      match balloc_scan b x 0 (Z.to_nat BPB) with
      | Panic => (Panic, s)
      | Err e => (Err e, s)
      | Ok None => balloc_from (Datatypes.S k) blocks s
      | Ok (Some bi) =>
          (_ ← bs_update (bblock sb b) (mark_used x bi);
           _ ← bzero (b + bi);
           mret (b + bi)) s
      end
  end.

(** [(0..sb.size).step_by(BPB)] has as many elements as the bitmap blocks. *)
Definition nbitmap : nat := Z.to_nat ((sb_size sb + BPB - 1) / BPB).
Definition balloc : M Error S Z := balloc_from 0 nbitmap.

Definition bfree b : M Error S () := λ s,
  let x := bs_read s (bblock sb b) in
  let bi := b mod BPB in
  match byte_at x (bi / 8) with
  | None => (Panic, s)
  | Some v => if Z.land v (Z.shiftl 1 (bi mod 8)) =? 0 then (Panic, s)
              else bs_update (bblock sb b) (mark_free x bi) s
  end.

(** ** The bitmap as a set of blocks *)

Definition bit_in (x : block) (bi : Z) : bool :=
  match byte_at x (bi / 8) with Some v => Z.testbit v (bi mod 8) | None => false end.

(** Block [b] is marked in use. *)
Definition used s b : bool := bit_in (bs_read s (bblock sb b)) (b mod BPB).

(** The first block after the metadata. *)
Definition datastart : Z := sb_bmapstart sb + sb_size sb / BPB + 1.

(** Every bitmap block has its size, and the metadata is marked in use. *)
Record bitmap_ok s : Prop := {
  bm_len b : 0 ≤ b < sb_size sb → length (bs_read s (bblock sb b)) = BSIZE;
  bm_meta b : 0 ≤ b < datastart → b < sb_size sb → used s b = true;
}.

Record layout_ok : Prop := {
  lo_size : 0 < sb_size sb < 2 ^ 32;
  lo_inodes : 2 ≤ sb_inodestart sb;
  lo_ninodes : 0 ≤ sb_ninodes sb;
  lo_bmap : sb_inodestart sb + sb_ninodes sb / IPB < sb_bmapstart sb;
  lo_data : datastart ≤ sb_size sb;
}.

Lemma land_shiftl_testbit v i : 0 ≤ i → (Z.land v (Z.shiftl 1 i) =? 0) = negb (Z.testbit v i).
Proof.
  intros Hi. assert (E : Z.land v (Z.shiftl 1 i) = if Z.testbit v i then 2 ^ i else 0).
  { apply Z.bits_inj'. intros n Hn. rewrite Z.land_spec, Z.shiftl_1_l.
    rewrite Z.pow2_bits_eqb by done. destruct (Z.eqb_spec i n) as [->|Hne].
    - rewrite andb_true_r. destruct (Z.testbit v n); [by rewrite Z.pow2_bits_true|by rewrite Z.bits_0].
    - rewrite andb_false_r. destruct (Z.testbit v i); [by rewrite Z.pow2_bits_false|by rewrite Z.bits_0]. }
  rewrite E. destruct (Z.testbit v i); simpl; [|done]. apply Z.eqb_neq. lia.
Qed.

Lemma shiftl_1_bit i n : 0 ≤ i → 0 ≤ n → Z.testbit (Z.shiftl 1 i) n = (i =? n).
Proof. intros. rewrite Z.shiftl_1_l. by apply Z.pow2_bits_eqb. Qed.

Lemma testbit_255 n : 0 ≤ n < 8 → Z.testbit 255 n = true.
Proof. intros Hn. change 255 with (Z.ones 8). apply Z.ones_spec_low. lia. Qed.

Lemma byte_index i : 0 ≤ i < BPB → 0 ≤ i / 8 < 1024 ∧ 0 ≤ i mod 8 < 8.
Proof.
  unfold BPB. intros Hi. split; [|apply Z.mod_pos_bound; lia].
  split; [apply Z.div_pos; lia|apply Z.div_lt_upper_bound; lia].
Qed.

(** Changing one byte of a bitmap block. *)
Lemma bit_in_insert x i j v w :
  0 ≤ i < BPB → 0 ≤ j < BPB → length x = BSIZE → byte_at x (i / 8) = Some v →
  bit_in (<[Z.to_nat (i / 8) := w]> x) j
  = if decide (i / 8 = j / 8) then Z.testbit w (j mod 8) else bit_in x j.
Proof.
  intros Hi%byte_index Hj%byte_index Hx Hv. unfold bit_in, byte_at in *. unfold BSIZE in *.
  case_decide as E.
  - by rewrite <-E, list_lookup_insert_eq by lia.
  - by rewrite list_lookup_insert_ne by lia.
Qed.

Lemma byte_at_Some x i : 0 ≤ i < BPB → length x = BSIZE → is_Some (byte_at x (i / 8)).
Proof. intros Hi%byte_index Hx. apply lookup_lt_is_Some_2. unfold BSIZE in *. lia. Qed.

Lemma same_bit i j : i / 8 = j / 8 → (i mod 8 =? j mod 8) = bool_decide (i = j).
Proof.
  intros E. pose proof (Z.div_mod i 8). pose proof (Z.div_mod j 8).
  apply eq_true_iff_eq. rewrite Z.eqb_eq, bool_decide_eq_true. split; [lia|by intros ->].
Qed.

Lemma bit_in_mark_used x i j :
  0 ≤ i < BPB → 0 ≤ j < BPB → length x = BSIZE →
  bit_in (mark_used x i) j = if decide (i = j) then true else bit_in x j.
Proof.
  intros Hi Hj Hx. destruct (byte_at_Some x i Hi Hx) as [v Hv]. unfold mark_used. rewrite Hv.
  erewrite bit_in_insert by done. pose proof (byte_index i Hi). pose proof (byte_index j Hj).
  destruct (decide (i / 8 = j / 8)) as [E|E]; [|by rewrite decide_False by (by intros ->)].
  rewrite Z.lor_spec, shiftl_1_bit, (same_bit i j E) by lia. unfold bit_in. rewrite <-E, Hv.
  case_bool_decide; [by rewrite decide_True, orb_true_r|by rewrite decide_False, orb_false_r].
Qed.

Lemma bit_in_mark_free x i j :
  0 ≤ i < BPB → 0 ≤ j < BPB → length x = BSIZE →
  bit_in (mark_free x i) j = if decide (i = j) then false else bit_in x j.
Proof.
  intros Hi Hj Hx. destruct (byte_at_Some x i Hi Hx) as [v Hv]. unfold mark_free. rewrite Hv.
  erewrite bit_in_insert by done. pose proof (byte_index i Hi). pose proof (byte_index j Hj).
  destruct (decide (i / 8 = j / 8)) as [E|E]; [|by rewrite decide_False by (by intros ->)].
  rewrite Z.land_spec, Z.lxor_spec, shiftl_1_bit, testbit_255, (same_bit i j E) by lia.
  unfold bit_in. rewrite <-E, Hv.
  case_bool_decide; [by rewrite decide_True, andb_false_r|by rewrite decide_False, andb_true_r].
Qed.

Lemma length_mark_used x i : length (mark_used x i) = length x.
Proof. unfold mark_used. case_match; [apply length_insert|done]. Qed.
Lemma length_mark_free x i : length (mark_free x i) = length x.
Proof. unfold mark_free. case_match; [apply length_insert|done]. Qed.

(** ** [balloc] *)

Lemma balloc_scan_spec b x bi fuel :
  length x = BSIZE → 0 ≤ bi → bi + Z.of_nat fuel = BPB →
  ∃ r, balloc_scan b x bi fuel = Ok r ∧
    match r with
    | Some j => bi ≤ j < BPB ∧ b + j < sb_size sb ∧ bit_in x j = false ∧
                ∀ i, bi ≤ i < j → bit_in x i = true
    | None => ∀ i, bi ≤ i < BPB → b + i < sb_size sb → bit_in x i = true
    end.
Proof.
  intros Hx. revert bi. induction fuel as [|fuel IH]; intros bi Hbi Hf; simpl.
  - exists None. split; [done|]. intros i Hi. lia.
  - destruct (Z.ltb_spec (b + bi) (sb_size sb)) as [Hlt|Hge].
    2:{ exists None. split; [done|]. intros i Hi Hs. lia. }
    assert (Hr : 0 ≤ bi < BPB) by lia.
    destruct (byte_at_Some x bi Hr Hx) as [v Hv]. rewrite Hv.
    rewrite land_shiftl_testbit by (pose proof (byte_index bi Hr); lia).
    assert (Hbit : bit_in x bi = Z.testbit v (bi mod 8)) by (unfold bit_in; by rewrite Hv).
    rewrite <-Hbit. destruct (bit_in x bi) eqn:Eb; simpl.
    + destruct (IH (bi + 1)) as (r&Hr'&Hspec); [lia|lia|]. exists r. split; [done|].
      destruct r as [j|]; [destruct Hspec as (H1&H2&H3&H4); split; [lia|]; split; [done|]; split; [done|]|];
        intros i Hi; destruct (decide (i = bi)) as [->|]; intros; try done;
        [apply H4; lia|apply Hspec; lia].
    + exists (Some bi). split; [done|]. split; [lia|]. split; [done|]. split; [done|]. intros; lia.
Qed.


Lemma bblock_coords k i : 0 ≤ i < BPB → (Z.of_nat k * BPB + i) / BPB = Z.of_nat k ∧ (Z.of_nat k * BPB + i) mod BPB = i.
Proof.
  intros Hi. rewrite Z.add_comm, Z.div_add, Z.mod_add by (unfold BPB; lia).
  rewrite Z.div_small, Z.mod_small by done. done.
Qed.

Lemma used_coords s k i :
  0 ≤ i < BPB →
  used s (Z.of_nat k * BPB + i) = bit_in (bs_read s (bblock sb (Z.of_nat k * BPB))) i.
Proof.
  intros Hi. unfold used, bblock. destruct (bblock_coords k i Hi) as [-> ->].
  by rewrite Z.div_mul by (unfold BPB; lia).
Qed.

(** What an allocation leaves behind. *)
Record allocated s b s' : Prop := {
  al_range : 0 ≤ b < sb_size sb;
  al_free : used s b = false;
  al_first c : 0 ≤ c < b → used s c = true;
  al_zero : bs_read s' b = zero_block;
  al_frame c : c ≠ b → c ≠ bblock sb b → bs_read s' c = bs_read s c;
  al_used c : 0 ≤ c < sb_size sb → used s' c = if decide (c = b) then true else used s c;
  al_bitmap : bitmap_ok s';
}.

Context `{!BlockStoreLaws S}.

Lemma bblock_lt c : layout_ok → 0 ≤ c < sb_size sb → 2 ≤ bblock sb c < datastart.
Proof.
  intros [] Hc. unfold bblock, datastart.
  assert (0 ≤ c / BPB ≤ sb_size sb / BPB)
    by (split; [apply Z.div_pos; unfold BPB; lia|apply Z.div_le_mono; unfold BPB; lia]).
  assert (0 ≤ sb_ninodes sb / IPB) by (apply Z.div_pos; unfold IPB; lia). lia.
Qed.

Lemma bblock_inj_mod b c : bblock sb b = bblock sb c → b mod BPB = c mod BPB → b = c.
Proof.
  unfold bblock. intros Hd Hm. pose proof (Z.div_mod b BPB). pose proof (Z.div_mod c BPB).
  unfold BPB in *. lia.
Qed.

(** Changing the bit of block [b] in its bitmap block changes that bit only. *)
Lemma used_update s s' b c x' (v : bool) :
  layout_ok → 0 ≤ b < sb_size sb → 0 ≤ c < sb_size sb →
  (∀ j, 0 ≤ j < BPB → bit_in x' j = if decide (b mod BPB = j) then v
                                    else bit_in (bs_read s (bblock sb b)) j) →
  bs_read s' (bblock sb c) = (if decide (bblock sb c = bblock sb b) then x' else bs_read s (bblock sb c)) →
  used s' c = if decide (c = b) then v else used s c.
Proof.
  intros Hlo Hb Hc Hx Hr. unfold used at 1. rewrite Hr.
  assert (0 ≤ c mod BPB < BPB) by (apply Z.mod_pos_bound; unfold BPB; lia).
  case_decide as E.
  - rewrite Hx by done. case_decide as E2.
    + rewrite decide_True; [done|]. symmetry. by apply bblock_inj_mod.
    + rewrite decide_False by (by intros ->). unfold used. by rewrite E.
  - rewrite decide_False by (by intros ->). done.
Qed.

Lemma balloc_commit s k bi n :
  layout_ok → bitmap_ok s → bs_room s (2 + n) →
  let b := Z.of_nat k * BPB + bi in
  let x := bs_read s (bblock sb (Z.of_nat k * BPB)) in
  0 ≤ bi < BPB → b < sb_size sb → bit_in x bi = false → (∀ c, 0 ≤ c < b → used s c = true) →
  ∃ s', (_ ← bs_update (bblock sb (Z.of_nat k * BPB)) (mark_used x bi); _ ← bzero b; mret b) s
          = (Ok b, s') ∧ bs_room s' n ∧ allocated s b s'.
Proof.
  intros Hlo Hbm Hroom b x Hbi Hlt Hbit Hfirst.
  assert (Hb : 0 ≤ b < sb_size sb) by (subst b; unfold BPB in *; lia).
  assert (Hfree : used s b = false) by (subst b; by rewrite used_coords).
  assert (Hbb : bblock sb (Z.of_nat k * BPB) = bblock sb b).
  { unfold bblock, b. destruct (bblock_coords k bi Hbi) as [-> _]. by rewrite Z.div_mul by (unfold BPB; lia). }
  assert (Hmod : b mod BPB = bi) by (by destruct (bblock_coords k bi Hbi)).
  assert (Hlen : length x = BSIZE) by (subst x; rewrite Hbb; by apply Hbm).
  destruct (bs_update_ok (bblock sb b) (mark_used x bi) s _ Hroom) as (s1&H1&Hr1&Hv1).
  destruct (bs_update_ok b zero_block s1 _ Hr1) as (s2&H2&Hr2&Hv2).
  assert (Hdata : datastart ≤ b).
  { destruct (Z.lt_ge_cases b datastart) as [Hm|]; [|done].
    rewrite (bm_meta _ Hbm) in Hfree; [done|lia|lia]. }
  assert (Hne : ∀ c, 0 ≤ c < sb_size sb → bblock sb c ≠ b)
    by (intros c Hc; pose proof (bblock_lt c Hlo Hc); lia).
  assert (Hrd : ∀ c, 0 ≤ c < sb_size sb → bs_read s2 (bblock sb c)
      = if decide (bblock sb c = bblock sb b) then mark_used x bi else bs_read s (bblock sb c)).
  { intros c Hc. rewrite Hv2, decide_False by by apply Hne. apply Hv1. }
  assert (Hused : ∀ c, 0 ≤ c < sb_size sb → used s2 c = if decide (c = b) then true else used s c).
  { intros c Hc. apply (used_update s s2 b c (mark_used x bi)); try done; [|by apply Hrd].
    intros j Hj. rewrite bit_in_mark_used, Hmod by done. unfold x. by rewrite Hbb. }
  exists s2. split; [|split; [done|split; try done]].
  - rewrite Hbb. unfold mbind, M_bind, bzero. by rewrite H1, H2.
  - by rewrite Hv2, decide_True.
  - intros c Hc1 Hc2. by rewrite Hv2, decide_False, Hv1, decide_False.
  - split.
    + intros c Hc. rewrite (Hrd c Hc). case_decide; [by rewrite length_mark_used|by apply Hbm].
    + intros c Hc Hs. rewrite Hused by lia. case_decide; [done|]. by apply Hbm.
Qed.

Lemma balloc_from_spec s k blocks n :
  layout_ok → bitmap_ok s → bs_room s (2 + n) →
  (∀ c, 0 ≤ c < Z.of_nat k * BPB → c < sb_size sb → used s c = true) →
  sb_size sb ≤ Z.of_nat (k + blocks) * BPB → Z.of_nat (k + blocks) * BPB < sb_size sb + BPB →
  (∃ c, 0 ≤ c < sb_size sb ∧ used s c = false) →
  ∃ b s', balloc_from k blocks s = (Ok b, s') ∧ bs_room s' n ∧ allocated s b s'.
Proof.
  intros Hlo Hbm Hroom. revert k. induction blocks as [|blocks IH]; intros k Hpre Hend Hend' [c [Hc Hcf]];
    cbn [balloc_from].
  - rewrite Hpre in Hcf; [done|lia..].
  - set (x := bs_read s _).
    assert (Hk : 0 ≤ Z.of_nat k * BPB < sb_size sb) by (unfold BPB in *; lia).
    assert (Hx : length x = BSIZE) by (by apply Hbm).
    destruct (balloc_scan_spec (Z.of_nat k * BPB) x 0 (Z.to_nat BPB) Hx) as (r&Hr&Hspec); [lia|by rewrite Z2Nat.id|].
    rewrite Hr. destruct r as [bi|].
    + destruct Hspec as (H1&H2&H3&H4).
      eexists. apply balloc_commit; try done. intros d Hd.
      destruct (Z.lt_ge_cases d (Z.of_nat k * BPB)); [apply Hpre; lia|].
      replace d with (Z.of_nat k * BPB + (d - Z.of_nat k * BPB)) by lia.
      rewrite used_coords by lia. apply H4. lia.
    + apply IH; [|lia|lia|by exists c]. intros d Hd Hds.
      destruct (Z.lt_ge_cases d (Z.of_nat k * BPB)); [apply Hpre; lia|].
      replace d with (Z.of_nat k * BPB + (d - Z.of_nat k * BPB)) by lia.
      rewrite used_coords by (unfold BPB in *; lia). apply Hspec; unfold BPB in *; lia.
Qed.

Lemma balloc_spec s n :
  layout_ok → bitmap_ok s → bs_room s (2 + n) → (∃ c, 0 ≤ c < sb_size sb ∧ used s c = false) →
  ∃ b s', balloc s = (Ok b, s') ∧ bs_room s' n ∧ allocated s b s'.
Proof.
  intros Hlo Hbm Hroom Hfree. pose proof (lo_size Hlo). unfold balloc, nbitmap.
  pose proof (Z.div_mod (sb_size sb + BPB - 1) BPB). pose proof (Z.mod_pos_bound (sb_size sb + BPB - 1) BPB).
  assert (0 ≤ (sb_size sb + BPB - 1) / BPB) by (apply Z.div_pos; unfold BPB; lia).
  apply balloc_from_spec; try done; [intros; lia|..]; simpl; rewrite Z2Nat.id by done; unfold BPB in *; lia.
Qed.

(** With every block in use the loop ends in the [unreachable!]. *)
Lemma balloc_from_full s k blocks :
  bitmap_ok s → 0 < sb_size sb → Z.of_nat (k + blocks) * BPB < sb_size sb + BPB →
  (∀ c, 0 ≤ c < sb_size sb → used s c = true) → balloc_from k blocks s = (Panic, s).
Proof.
  intros Hbm Hs. revert k. induction blocks as [|blocks IH]; intros k Hend Hall; cbn [balloc_from]; [done|].
  assert (Hk : 0 ≤ Z.of_nat k * BPB < sb_size sb) by (unfold BPB in *; lia).
  destruct (balloc_scan_spec (Z.of_nat k * BPB) (bs_read s (bblock sb (Z.of_nat k * BPB))) 0 (Z.to_nat BPB))
    as (r&Hr&Hspec); [by apply Hbm|lia|by rewrite Z2Nat.id|].
  rewrite Hr. destruct r as [bi|]; [|apply IH; [lia|done]].
  destruct Hspec as (H1&H2&H3&_). rewrite <-used_coords, Hall in H3 by lia. done.
Qed.

(** ** [bfree] *)

Lemma bfree_ok s b n :
  layout_ok → bitmap_ok s → bs_room s (1 + n) → datastart ≤ b < sb_size sb → used s b = true →
  ∃ s', bfree b s = (Ok (), s') ∧ bs_room s' n ∧ bitmap_ok s' ∧
    (∀ c, c ≠ bblock sb b → bs_read s' c = bs_read s c) ∧
    (∀ c, 0 ≤ c < sb_size sb → used s' c = if decide (c = b) then false else used s c).
Proof.
  intros Hlo Hbm Hroom Hb Hu.
  assert (Hm : 0 ≤ b mod BPB < BPB) by (apply Z.mod_pos_bound; unfold BPB; lia).
  assert (Hb0 : 0 ≤ b < sb_size sb).
  { pose proof (bblock_lt 0 Hlo). pose proof (lo_size Hlo). lia. }
  assert (Hlen : length (bs_read s (bblock sb b)) = BSIZE) by (by apply Hbm).
  destruct (byte_at_Some _ _ Hm Hlen) as [v Hv].
  destruct (bs_update_ok (bblock sb b) (mark_free (bs_read s (bblock sb b)) (b mod BPB)) s _ Hroom) as (s1&H1&Hr1&Hv1).
  assert (Hused : ∀ c, 0 ≤ c < sb_size sb → used s1 c = if decide (c = b) then false else used s c).
  { intros c Hc. apply (used_update s s1 b c (mark_free (bs_read s (bblock sb b)) (b mod BPB))); try done.
    intros j Hj. by apply bit_in_mark_free. }
  exists s1. unfold bfree. rewrite Hv, land_shiftl_testbit by (pose proof (byte_index _ Hm); lia).
  unfold used, bit_in in Hu. rewrite Hv in Hu. rewrite Hu. split; [done|]. split; [done|]. split; [split|split].
  - intros c Hc. rewrite Hv1. case_decide; [by rewrite length_mark_free|by apply Hbm].
  - intros c Hc Hs. rewrite Hused by lia. rewrite decide_False by lia. by apply Hbm.
  - intros c Hc. by rewrite Hv1, decide_False.
  - done.
Qed.

(** Freeing a block that is not in use is a panic. *)
Lemma bfree_double s b :
  bitmap_ok s → 0 ≤ b < sb_size sb → used s b = false → bfree b s = (Panic, s).
Proof.
  intros Hbm Hb Hu.
  assert (Hm : 0 ≤ b mod BPB < BPB) by (apply Z.mod_pos_bound; unfold BPB; lia).
  destruct (byte_at_Some (bs_read s (bblock sb b)) (b mod BPB) Hm) as [v Hv]; [by apply Hbm|].
  unfold bfree. rewrite Hv, land_shiftl_testbit by (pose proof (byte_index _ Hm); lia).
  unfold used, bit_in in Hu. rewrite Hv in Hu. by rewrite Hu.
Qed.
End blocks.


(** The block allocator.  With a free block, [balloc] returns the first
    one, zeroed and marked in use, and touches nothing but that block and its
    bitmap block; [bfree] gives the bitmap its old contents back and freeing
    the block a second time is a panic.  Without a free block [balloc]
    panics. *)
Theorem block_allocator_correct {S} `{BlockStoreLaws S} sb (s : S) n :
  layout_ok sb → bitmap_ok sb s → bs_room s (3 + n) →
  ((∃ c, 0 ≤ c < sb_size sb ∧ used sb s c = false) →
   ∃ b s' s'', balloc sb s = (Ok b, s') ∧ allocated sb s b s' ∧
     bfree sb b s' = (Ok (), s'') ∧ bfree sb b s'' = (Panic, s'') ∧
     ∀ c, 0 ≤ c < sb_size sb → used sb s'' c = used sb s c) ∧
  ((∀ c, 0 ≤ c < sb_size sb → used sb s c = true) → balloc sb s = (Panic, s)).
Proof.
  intros Hlo Hbm Hroom. pose proof (lo_size _ Hlo) as Hs. split.
  - intros Hfree. destruct (balloc_spec sb s (1 + n) Hlo Hbm Hroom Hfree) as (b&s'&Hb&Hr'&Ha).
    pose proof Ha as [A1 A2 A3 A4 A5 A6 A7].
    assert (Hd : datastart sb ≤ b).
    { destruct (Z.lt_ge_cases b (datastart sb)) as [Hm|]; [|done].
      rewrite (bm_meta _ _ Hbm) in A2; [done|lia|lia]. }
    destruct (bfree_ok sb s' b n Hlo A7 Hr') as (s''&Hf&_&B1&_&B3); [lia| |].
    { rewrite A6 by done. by rewrite decide_True. }
    exists b, s', s''. split_and!; try done.
    + apply bfree_double; [done|done|]. rewrite B3 by done. by rewrite decide_True.
    + intros c Hc. rewrite B3, A6 by done. case_decide; [by subst|done].
  - intros Hall. unfold balloc, nbitmap. apply balloc_from_full; try done; [lia|]. simpl.
    pose proof (Z.mul_div_le (sb_size sb + BPB - 1) BPB).
    assert (0 ≤ (sb_size sb + BPB - 1) / BPB) by (apply Z.div_pos; unfold BPB; lia).
    rewrite Z2Nat.id by done. unfold BPB in *. lia.
Qed.

(** ** A small disk *)

(** 60 blocks: boot block, superblock, 30 log blocks, 3 inode blocks, one
    bitmap block and data from block 36 on. *)
Definition demo_sb : SuperBlock := mkSuperBlock FSMAGIC 60 24 16 30 2 32 35.
Definition demo_bitmap : block := [255; 255; 255; 255; 15] ++ replicate 1019 0.
Definition demo_disk : gmap Z block := {[ 35 := demo_bitmap ]}.

Lemma demo_layout : layout_ok demo_sb.
Proof. split; vm_compute; try split; done. Qed.

Lemma demo_bblock b : 0 ≤ b < sb_size demo_sb → bblock demo_sb b = 35.
Proof. intros Hb. simpl in Hb. unfold bblock. rewrite Z.div_small by (unfold BPB; lia). done. Qed.

Lemma demo_bitmap_ok (d : gmap Z block) : dget d 35 = demo_bitmap → bitmap_ok demo_sb d.
Proof.
  intros Hd. split.
  - intros b Hb. rewrite demo_bblock by done. change (bs_read d 35) with (dget d 35). rewrite Hd. reflexivity.
  - intros b Hb Hs. unfold used. rewrite demo_bblock by lia. change (bs_read d 35) with (dget d 35).
    rewrite Hd.
    change (datastart demo_sb) with 36 in Hb.
    assert (Hall : forallb (λ b, bit_in demo_bitmap (b mod BPB)) (seqZ 0 36) = true)
      by (vm_compute; reflexivity).
    rewrite forallb_forall in Hall. apply Hall, list_elem_of_In, elem_of_seqZ. lia.
Qed.

