(* ===== verification/FsInode.v ===== *)
(** * Inodes

    [IData] of [kernel/src/fs.rs]: the in-memory inode, its write-through to
    the inode block, and the map from file blocks to disk blocks through
    direct, indirect and doubly indirect blocks. *)

From stdpp Require Import base tactics numbers gmap list.
From S2P Require Import Prelude Params Errors Bytes Log LogOps FsLayout FsBlocks.
Local Open Scope Z_scope.

(** [pub struct IData]. *)
Record IData := mkIData {
  id_dev : Z; id_inum : Z; id_valid : bool; id_itype : FileType; id_major : Major;
  id_minor : Z; id_nlink : Z; id_size : Z; id_addrs : list Z;
  id_atime : Z; id_mtime : Z; id_ctime : Z;
}.

(** [IData::new]. *)
Definition idata_new (dev inum : Z) : IData :=
  mkIData dev inum false FT_Empty MInvalid 0 0 0 (replicate 13 0) 0 0 0.

Definition with_type t ip := mkIData (id_dev ip) (id_inum ip) (id_valid ip) t (id_major ip) (id_minor ip)
  (id_nlink ip) (id_size ip) (id_addrs ip) (id_atime ip) (id_mtime ip) (id_ctime ip).
Definition with_major_minor m mi ip := mkIData (id_dev ip) (id_inum ip) (id_valid ip) (id_itype ip) m mi
  (id_nlink ip) (id_size ip) (id_addrs ip) (id_atime ip) (id_mtime ip) (id_ctime ip).
Definition with_nlink n ip := mkIData (id_dev ip) (id_inum ip) (id_valid ip) (id_itype ip) (id_major ip)
  (id_minor ip) n (id_size ip) (id_addrs ip) (id_atime ip) (id_mtime ip) (id_ctime ip).
Definition with_size sz ip := mkIData (id_dev ip) (id_inum ip) (id_valid ip) (id_itype ip) (id_major ip)
  (id_minor ip) (id_nlink ip) sz (id_addrs ip) (id_atime ip) (id_mtime ip) (id_ctime ip).
Definition with_addrs a ip := mkIData (id_dev ip) (id_inum ip) (id_valid ip) (id_itype ip) (id_major ip)
  (id_minor ip) (id_nlink ip) (id_size ip) a (id_atime ip) (id_mtime ip) (id_ctime ip).
Definition with_times at_ mt ct ip := mkIData (id_dev ip) (id_inum ip) (id_valid ip) (id_itype ip) (id_major ip)
  (id_minor ip) (id_nlink ip) (id_size ip) (id_addrs ip) at_ mt ct.
Definition with_valid v ip := mkIData (id_dev ip) (id_inum ip) v (id_itype ip) (id_major ip) (id_minor ip)
  (id_nlink ip) (id_size ip) (id_addrs ip) (id_atime ip) (id_mtime ip) (id_ctime ip).

(** [enum LinkOp]. *)
Inductive LinkOp := LinkPlus | LinkMinus | LinkInit (n : Z).

(** The fields [update] stores. *)
Definition idata_dinode (ip : IData) : DInode :=
  mkDInode (id_itype ip) (id_major ip) (id_minor ip) (id_nlink ip) (id_size ip) (id_addrs ip)
    (id_atime ip) (id_mtime ip) (id_ctime ip).

(** The fields [lock] loads. *)
Definition idata_load (dev inum : Z) (d : DInode) : IData :=
  mkIData dev inum true (di_itype d) (di_major d) (di_minor d) (di_nlink d) (di_size d) (di_addrs d)
    (di_atime d) (di_mtime d) (di_ctime d).

Section inode.
Context {S : Type} `{BlockStore S} (sb : SuperBlock).
(** The value of [TICKS] during the operation. *)
Context (now : Z).
Implicit Types (s : S) (ip : IData).

(** A method of [&mut self]: the state has the store and the inode. *)
Abbreviation IM := (M Error (S * IData)).
Definition lift {A} (m : M Error S A) : IM A := λ '(s, ip), let '(r, s') := m s in (r, (s', ip)).
Definition self : IM IData := λ '(s, ip), (Ok ip, (s, ip)).
Definition set_self (f : IData → IData) : IM () := λ '(s, ip), (Ok (), (s, f ip)).
Definition bread (b : Z) : IM block := λ '(s, ip), (Ok (bs_read s b), (s, ip)).

Definition inode_index (inum : Z) : nat := Z.to_nat (inum mod IPB).

(** [IData::update]. *)
Definition update : IM () :=
  ip ← self;
  x ← bread (iblock sb (id_inum ip));
  lift (bs_update (iblock sb (id_inum ip)) (put_dinode (inode_index (id_inum ip)) (idata_dinode ip) x)).

(** [MInode::lock] on the inode's data: load it if it is not valid.  A block
    that holds no value of the enums is outside the language; it is a fault
    here. *)
Definition ilock (dev inum : Z) : IM () := λ '(s, ip),
  if id_valid ip then (Ok (), (s, ip))
  else
    match get_dinode (inode_index inum) (bs_read s (iblock sb inum)) with
    | None => (Panic, (s, ip))
    | Some d =>
        let ip := idata_load dev inum d in
        if bool_decide (id_itype ip = FT_Empty) then (Panic, (s, ip)) else (Ok (), (s, ip))
    end.

Definition init_times : IM () := _ ← set_self (with_times now now now); update.
Definition touch_atime : IM () := _ ← set_self (λ ip, with_times now (id_mtime ip) (id_ctime ip) ip); update.
Definition touch_mtime_ctime : IM () := _ ← set_self (λ ip, with_times (id_atime ip) now now ip); update.
Definition touch_ctime : IM () := _ ← set_self (λ ip, with_times (id_atime ip) (id_mtime ip) now ip); update.
Definition set_type (t : FileType) : IM () := _ ← set_self (with_type t); update.
Definition set_major_minor (m : Major) (mi : Z) : IM () := _ ← set_self (with_major_minor m mi); update.
Definition set_size (sz : Z) : IM () := _ ← set_self (with_size sz); update.
Definition set_addrs (bn : nat) (addr : Z) : IM () :=
  _ ← set_self (λ ip, with_addrs (<[bn := addr]> (id_addrs ip)) ip); update.
(** [nlink] is a [u16]; leaving its range is an overflow panic. *)
Definition set_nlink (op : LinkOp) : IM () :=
  ip ← self;
  let n := match op with LinkPlus => id_nlink ip + 1 | LinkMinus => id_nlink ip - 1 | LinkInit n => n end in
  if (0 <=? n) && (n <? 2 ^ 16) then
    _ ← set_self (λ ip, with_times (id_atime ip) (id_mtime ip) now (with_nlink n ip)); update
  else m_panic.

(** [self.addrs[bn]], allocating a block for it. *)
Definition root_slot (bn : nat) (alloc : bool) : IM Z :=
  ip ← self;
  let addr := id_addrs ip !!! bn in
  if (addr =? 0) && alloc then
    addr ← lift (balloc sb); _ ← set_addrs bn addr; mret addr
  else mret addr.

(** Word [i] of the index block [blk], allocating a block for it. *)
Definition word_slot (blk : Z) (i : nat) (alloc : bool) : IM Z :=
  x ← bread blk;
  let addr := get_u32 i x in
  if (addr =? 0) && alloc then
    addr ← lift (balloc sb); _ ← lift (bs_update blk (put_u32 i addr x)); mret addr
  else mret addr.

(** [IData::bmap]. *)
Definition bmap (bn : nat) (alloc : bool) : IM Z :=
  if (bn <? NDIRECT)%nat then root_slot bn alloc
  else
    let bn := (bn - NDIRECT)%nat in
    if (bn <? NINDIRECT)%nat then
      addr ← root_slot NDIRECT alloc;
      word_slot addr bn alloc
    else
      let bn := (bn - NINDIRECT)%nat in
      if (bn <? NDINDIRECT)%nat then
        addr ← root_slot (NDIRECT + 1) alloc;
        addr ← word_slot addr (bn / NINDIRECT) alloc;
        word_slot addr (bn mod NINDIRECT) alloc
      else m_err StorageFull.

(** The entries of an index block that [trunc] frees. *)
Definition free_words (x : block) : IM () :=
  m_for (seq 0 NINDIRECT) (λ i, let a := get_u32 i x in
    if a >? 0 then lift (bfree sb a) else mret ()).

Definition clear_addr (k : nat) : IM () := set_self (λ ip, with_addrs (<[k := 0]> (id_addrs ip)) ip).

(** [IData::trunc]. *)
Definition trunc : IM () :=
  _ ← m_for (seq 0 NDIRECT) (λ k,
        ip ← self;
        let a := id_addrs ip !!! k in
        if a >? 0 then _ ← lift (bfree sb a); clear_addr k else mret ());
  ip ← self;
  _ ← (let a := id_addrs ip !!! NDIRECT in
       if a >? 0 then
         x ← bread a;
         _ ← free_words x;
         _ ← lift (bfree sb a);
         clear_addr NDIRECT
       else mret ());
  ip ← self;
  _ ← (let a := id_addrs ip !!! (NDIRECT + 1)%nat in
       if a >? 0 then
         x ← bread a;
         _ ← m_for (seq 0 NINDIRECT) (λ i,
               let w := get_u32 i x in
               if w >? 0 then y ← bread w; _ ← free_words y; lift (bfree sb w) else mret ());
         _ ← lift (bfree sb a);
         clear_addr (NDIRECT + 1)
       else mret ());
  _ ← set_self (with_size 0);
  _ ← set_self (λ ip, with_times (id_atime ip) now now ip);
  update.
End inode.
