(* ===== verification/FsBmap.v ===== *)
(** * The block map of an inode

    Correctness of [IData::update], [ilock] and [IData::bmap]: the tree of
    block addresses below an inode, what it means for it to be well formed,
    and how allocation extends it. *)

From stdpp Require Import base tactics numbers gmap list.
From S2P Require Import Prelude Params Errors Bytes Log LogOps FsLayout FsBlocks FsInode.
Local Open Scope Z_scope.

(** A place in the tree: entry [k] of the inode's [addrs], or word [i] of the
    index block at another place. *)
Inductive pos := Root (k : nat) | Child (q : pos) (i : nat).

Global Instance pos_eq_dec : EqDecision pos.
Proof. solve_decision. Defined.

Definition valid_pos (p : pos) : Prop :=
  match p with
  | Root k => (k < 13)%nat
  | Child (Root k) i => (k = 11 ∨ k = 12)%nat ∧ (i < 256)%nat
  | Child (Child (Root k) i) j => k = 12%nat ∧ (i < 256)%nat ∧ (j < 256)%nat
  | _ => False
  end.

(** Places of index blocks; the other places hold data blocks. *)
Definition is_index (p : pos) : Prop :=
  match p with
  | Root k => (k = 11 ∨ k = 12)%nat
  | Child (Root k) _ => k = 12%nat
  | _ => False
  end.

Lemma valid_parent q i : valid_pos (Child q i) → valid_pos q ∧ is_index q ∧ (i < 256)%nat.
Proof. destruct q as [k|[k|q' j'] j]; simpl; intuition lia. Qed.

(** The place of block [bn] of the file. *)
Definition bpos (bn : nat) : pos :=
  if (bn <? NDIRECT)%nat then Root bn
  else if (bn - NDIRECT <? NINDIRECT)%nat then Child (Root NDIRECT) (bn - NDIRECT)
  else let bn := (bn - NDIRECT - NINDIRECT)%nat in
       Child (Child (Root (NDIRECT + 1)) (bn / NINDIRECT)) (bn mod NINDIRECT).

Lemma bpos_valid bn : (bn < MAXFILE)%nat → valid_pos (bpos bn) ∧ ¬ is_index (bpos bn).
Proof.
  unfold MAXFILE, NDINDIRECT, bpos, NDIRECT, NINDIRECT. intros Hb.
  destruct (Nat.ltb_spec bn 11); [simpl; lia|].
  destruct (Nat.ltb_spec (bn - 11) 256); simpl; [lia|].
  split; [|intros []]. split; [done|]. split; [apply Nat.Div0.div_lt_upper_bound; lia|apply Nat.mod_upper_bound; lia].
Qed.

Lemma bpos_inj b c : (b < MAXFILE)%nat → (c < MAXFILE)%nat → bpos b = bpos c → b = c.
Proof.
  unfold bpos, NDIRECT, NINDIRECT. intros _ _.
  destruct (Nat.ltb_spec b 11), (Nat.ltb_spec c 11), (Nat.ltb_spec (b - 11) 256), (Nat.ltb_spec (c - 11) 256);
    intros E; simplify_eq; try lia.
  pose proof (Nat.div_mod_eq (b - 11 - 256) 256). pose proof (Nat.div_mod_eq (c - 11 - 256) 256). lia.
Qed.

Section bmap.
Context {S : Type} `{BlockStoreLaws S} (sb : SuperBlock) (now : Z).
Implicit Types (s : S) (ip : IData) (p q : pos).

Fixpoint addr_at s ip p : Z :=
  match p with
  | Root k => id_addrs ip !!! k
  | Child q i => get_u32 i (bs_read s (addr_at s ip q))
  end.

(** ** Well-formedness *)

Record disk_wf s : Prop := {
  dw_layout : layout_ok sb;
  dw_bitmap : bitmap_ok sb s;
  dw_boot : bs_read s 0 = zero_block;
  dw_inodes i : 0 ≤ i < sb_ninodes sb → length (bs_read s (iblock sb i)) = BSIZE;
}.

Record inode_wf s ip : Prop := {
  iw_dinode : dinode_ok (idata_dinode ip);
  iw_inum : 0 ≤ id_inum ip < sb_ninodes sb;
  (** Every block of the tree is a data block marked in use. *)
  iw_block p : valid_pos p → addr_at s ip p ≠ 0 →
    datastart sb ≤ addr_at s ip p < sb_size sb ∧ used sb s (addr_at s ip p) = true ∧
    length (bs_read s (addr_at s ip p)) = BSIZE;
  (** No block occurs twice. *)
  iw_inj p q : valid_pos p → valid_pos q → addr_at s ip p ≠ 0 →
    addr_at s ip p = addr_at s ip q → p = q;
}.

Definition nfree s : nat := length (filter (λ b, used sb s b = false) (seqZ 0 (sb_size sb))).

Lemma iblock_range i : layout_ok sb → 0 ≤ i < sb_ninodes sb → 2 ≤ iblock sb i < sb_bmapstart sb.
Proof.
  intros [] Hi. unfold iblock.
  assert (0 ≤ i / IPB ≤ sb_ninodes sb / IPB)
    by (split; [apply Z.div_pos; unfold IPB; lia|apply Z.div_le_mono; unfold IPB; lia]). lia.
Qed.

Lemma bmapstart_lt : layout_ok sb → 2 < sb_bmapstart sb < datastart sb.
Proof.
  intros Hlo. pose proof (bblock_lt sb 0 Hlo) as Hb. destruct Hlo. unfold bblock, datastart in *.
  assert (0 ≤ sb_ninodes sb / IPB) by (apply Z.div_pos; unfold IPB; lia).
  assert (0 ≤ sb_size sb / BPB) by (apply Z.div_pos; unfold BPB; lia). lia.
Qed.

Lemma bblock_ge c : 0 ≤ c → sb_bmapstart sb ≤ bblock sb c.
Proof. intros Hc. unfold bblock. assert (0 ≤ c / BPB) by (apply Z.div_pos; unfold BPB; lia). lia. Qed.

Lemma inode_index_lt inum : (inode_index inum < 8)%nat.
Proof. unfold inode_index. pose proof (Z.mod_pos_bound inum IPB). unfold IPB in *. lia. Qed.

Lemma get_u32_zero i : (i < 256)%nat → get_u32 i zero_block = 0.
Proof.
  intros Hi. unfold get_u32, read_at, zero_block.
  rewrite drop_replicate, take_replicate. unfold BSIZE.
  replace (4 `min` (1024 - 4 * i))%nat with 4%nat by lia. done.
Qed.

(** The bitmap is determined by its blocks. *)
Lemma bitmap_frame s s' :
  (∀ c, 0 ≤ c < sb_size sb → bs_read s' (bblock sb c) = bs_read s (bblock sb c)) →
  (∀ c, 0 ≤ c < sb_size sb → used sb s' c = used sb s c) ∧ (bitmap_ok sb s → bitmap_ok sb s').
Proof.
  intros Hf. assert (Hu : ∀ c, 0 ≤ c < sb_size sb → used sb s' c = used sb s c)
    by (intros c Hc; unfold used; by rewrite Hf).
  split; [done|]. intros [L M]. split; intros c Hc; [by rewrite Hf, L|].
  intros Hs. rewrite Hu by lia. by apply M.
Qed.

(** ** [update] and [ilock] *)

Lemma update_spec s ip n :
  bs_room s (1 + n) →
  ∃ s', update sb (s, ip) = (Ok (), (s', ip)) ∧ bs_room s' n ∧
    ∀ c, bs_read s' c = if decide (c = iblock sb (id_inum ip))
      then put_dinode (inode_index (id_inum ip)) (idata_dinode ip) (bs_read s c) else bs_read s c.
Proof.
  intros Hr. destruct (bs_update_ok (iblock sb (id_inum ip))
    (put_dinode (inode_index (id_inum ip)) (idata_dinode ip) (bs_read s (iblock sb (id_inum ip)))) s n Hr)
    as (s'&Hu&Hr'&Hv).
  exists s'. split; [unfold update, mbind, M_bind, lift; simpl; by rewrite Hu|]. split; [done|].
  intros c. rewrite Hv. case_decide; by subst.
Qed.


Lemma fresh_data s b s' :
  layout_ok sb → bitmap_ok sb s → allocated sb s b s' → datastart sb ≤ b < sb_size sb.
Proof.
  intros Hlo Hbm [A1 A2 _ _ _ _ _]. destruct (Z.lt_ge_cases b (datastart sb)) as [Hm|]; [|lia].
  rewrite (bm_meta _ _ Hbm) in A2; [done|lia|lia].
Qed.

Lemma addr_nonneg s ip p :
  disk_wf s → inode_wf s ip → valid_pos p →
  addr_at s ip p = 0 ∨ (datastart sb ≤ addr_at s ip p < sb_size sb ∧ used sb s (addr_at s ip p) = true).
Proof.
  intros Hd Hw Hp. destruct (decide (addr_at s ip p = 0)); [by left|right].
  destruct (iw_block _ _ Hw p Hp); [done|]. naive_solver.
Qed.

(** The tree depends on its index blocks (and on the boot block, which an
    absent index block reads). *)
Lemma addr_at_frame s s' ip p :
  (∀ q, valid_pos q → is_index q → bs_read s' (addr_at s ip q) = bs_read s (addr_at s ip q)) →
  valid_pos p → addr_at s' ip p = addr_at s ip p.
Proof.
  intros Hf. induction p as [k|q IH i]; intros Hp; [done|].
  destruct (valid_parent q i Hp) as (Hq&Hi&_). simpl. rewrite IH by done. by rewrite Hf.
Qed.

(** A block of the tree, or the boot block, keeps its contents. *)
Lemma alloc_frame s ip b s' c :
  disk_wf s → allocated sb s b s' → c = 0 ∨ (datastart sb ≤ c < sb_size sb ∧ used sb s c = true) →
  bs_read s' c = bs_read s c.
Proof.
  intros [Hlo Hbm _ _] Ha Hc. pose proof (fresh_data _ _ _ Hlo Hbm Ha) as Hb.
  pose proof (bmapstart_lt Hlo). destruct Ha as [A1 A2 _ _ A5 _ _].
  pose proof (bblock_lt sb b Hlo A1). apply A5.
  - intros ->. destruct Hc as [?|[_ Hu]]; [lia|congruence].
  - destruct Hc as [->|[? _]]; lia.
Qed.

Lemma alloc_tree s ip b s' p :
  disk_wf s → inode_wf s ip → allocated sb s b s' → valid_pos p → addr_at s' ip p = addr_at s ip p.
Proof.
  intros Hd Hw Ha Hp. apply addr_at_frame; [|done]. intros q Hq _.
  apply (alloc_frame s ip b s' _ Hd Ha). by apply addr_nonneg.
Qed.

Lemma filter_count_ext (P Q : Z → Prop) `{!∀ x, Decision (P x)} `{!∀ x, Decision (Q x)} (l : list Z) :
  (∀ x, x ∈ l → P x ↔ Q x) → length (filter P l) = length (filter Q l).
Proof.
  induction l as [|x l IH]; intros HPQ; [done|]. rewrite !filter_cons.
  rewrite (decide_ext (P x) (Q x)) by (apply HPQ; left).
  case_decide; simpl; rewrite IH; try done; intros y Hy; apply HPQ; by right.
Qed.

Lemma filter_count_change (P Q : Z → Prop) `{!∀ x, Decision (P x)} `{!∀ x, Decision (Q x)} (l : list Z) b :
  NoDup l → b ∈ l → P b → ¬ Q b → (∀ x, x ≠ b → x ∈ l → P x ↔ Q x) →
  length (filter P l) = Datatypes.S (length (filter Q l)).
Proof.
  induction l as [|x l IH]; intros Hnd Hin HP HQ HPQ; [by apply not_elem_of_nil in Hin|].
  apply NoDup_cons in Hnd as [Hx Hnd]. rewrite !filter_cons.
  apply elem_of_cons in Hin as [<-|Hin].
  - rewrite decide_True, decide_False by done. simpl. f_equal. apply filter_count_ext.
    intros y Hy. apply HPQ; [by intros ->|by right].
  - assert (x ≠ b) by (by intros ->).
    rewrite (decide_ext (P x) (Q x)) by (apply HPQ; [done|left]).
    case_decide; simpl; rewrite IH; try done; intros y Hne Hy; apply HPQ; try done; by right.
Qed.

Lemma nfree_alloc s b s' : allocated sb s b s' → nfree s = Datatypes.S (nfree s').
Proof.
  intros [A1 A2 _ _ _ A6 _]. unfold nfree. apply (filter_count_change _ _ _ b).
  - apply NoDup_seqZ.
  - apply elem_of_seqZ. lia.
  - done.
  - rewrite A6, decide_True by done. done.
  - intros x Hne Hx%elem_of_seqZ. rewrite A6, decide_False by (done || lia). done.
Qed.

Lemma nfree_pos s : (0 < nfree s)%nat → ∃ c, 0 ≤ c < sb_size sb ∧ used sb s c = false.
Proof.
  unfold nfree. destruct (filter _ _) as [|c l] eqn:E; simpl; [lia|]. intros _.
  assert (Hc : c ∈ filter (λ b, used sb s b = false) (seqZ 0 (sb_size sb))) by (rewrite E; left).
  apply list_elem_of_filter in Hc as [Hu Hc%elem_of_seqZ]. exists c. split; [lia|done].
Qed.

(** ** Storing a fresh block in an empty slot *)

(** Writing [b] into the slot of [p]: an entry of [addrs] (and the inode
    block), or a word of an index block. *)
Definition stored s ip p b s' ip' : Prop :=
  match p with
  | Root k => ip' = with_addrs (<[k := b]> (id_addrs ip)) ip ∧
              ∀ c, c ≠ iblock sb (id_inum ip) → bs_read s' c = bs_read s c
  | Child q i => ip' = ip ∧
              ∀ c, bs_read s' c = if decide (c = addr_at s ip q) then put_u32 i b (bs_read s c)
                                  else bs_read s c
  end.

(** [p] can be stored to: its index block exists. *)
Definition attached s ip p : Prop :=
  match p with Root _ => True | Child q _ => addr_at s ip q ≠ 0 end.

Lemma stored_addrs s ip p b s' ip' k :
  stored s ip p b s' ip' → Root k ≠ p → id_addrs ip' !!! k = id_addrs ip !!! k.
Proof.
  destruct p as [j|q i]; intros [-> _] Hne; [|done]. simpl.
  rewrite list_lookup_total_insert_ne; [done|]. congruence.
Qed.

(** The state right after the allocation of [b] for the empty slot [p]. *)
Section store.
Context (s : S) (ip : IData) (p : pos) (b : Z) (s' : S) (ip' : IData).
Context (Hd : disk_wf s) (Hw : inode_wf s ip) (Hp : valid_pos p).
Context (Hempty : addr_at s ip p = 0) (Hatt : attached s ip p).
Context (Hb : datastart sb ≤ b < sb_size sb) (Hzero : bs_read s b = zero_block).
Context (Hfresh : ∀ q, valid_pos q → addr_at s ip q ≠ b).
Context (Hst : stored s ip p b s' ip') (Hused : used sb s b = true).
Context (Hil : ∀ i, 0 ≤ i < sb_ninodes sb → length (bs_read s' (iblock sb i)) = BSIZE).

Lemma store_read_index q :
  valid_pos q → addr_at s ip q ≠ 0 → (∀ i, p ≠ Child q i) → bs_read s' (addr_at s ip q) = bs_read s (addr_at s ip q).
Proof.
  intros Hq Hnz Hne. destruct (iw_block _ _ Hw q Hq Hnz) as [Hr _].
  pose proof (iw_inum _ _ Hw). pose proof (iblock_range (id_inum ip) (dw_layout _ Hd)).
  pose proof (bmapstart_lt (dw_layout _ Hd)).
  destruct p as [k|q' i]; destruct Hst as [_ Hrd]; rewrite Hrd; [done|lia|].
  rewrite decide_False; [done|]. intros E. apply (Hne i). f_equal. symmetry.
  apply (iw_inj _ _ Hw); try done. by apply (valid_parent q' i).
Qed.

Lemma store_read_fixed c : c = 0 ∨ c = b → bs_read s' c = bs_read s c.
Proof.
  intros Hc. pose proof (iw_inum _ _ Hw). pose proof (iblock_range (id_inum ip) (dw_layout _ Hd)).
  pose proof (bmapstart_lt (dw_layout _ Hd)).
  destruct p as [k|q i]; destruct Hst as [_ Hrd]; rewrite Hrd; [done|lia|].
  rewrite decide_False; [done|]. intros ->. destruct Hc as [Hc|Hc]; [done|].
  by apply (Hfresh q); [apply (valid_parent q i)|].
Qed.

(** The slot has the new block, all other slots keep their value. *)
Lemma store_addr_at q :
  valid_pos q → addr_at s' ip' q = if decide (q = p) then b else addr_at s ip q.
Proof.
  pose proof (dw_layout _ Hd) as Hlo. pose proof (lo_size _ Hlo). pose proof (bmapstart_lt Hlo).
  induction q as [k|q IH i]; intros Hq.
  - case_decide as E; [subst p; destruct Hst as [-> _]|simpl; by apply (stored_addrs s ip p b s')].
    apply list_lookup_total_insert_eq. pose proof (di_addrs_len _ (iw_dinode _ _ Hw)) as Hl.
    simpl in Hl, Hq. by rewrite Hl.
  - destruct (valid_parent q i Hq) as (Hq'&_&Hi). simpl. rewrite IH by done.
    destruct (decide (q = p)) as [->|Hqp].
    { rewrite store_read_fixed, Hzero, get_u32_zero, Hempty, (dw_boot _ Hd), get_u32_zero by auto.
      rewrite decide_False; [done|]. clear. induction p; congruence. }
    destruct (decide (addr_at s ip q = 0)) as [E|Hnz].
    { rewrite E, store_read_fixed by (by left). rewrite decide_False; [done|].
      intros <-. done. }
    assert (Hcase : (∃ j, p = Child q j) ∨ ∀ j, p ≠ Child q j).
    { clear. destruct p as [k|r j]; [right; congruence|].
      destruct (decide (r = q)) as [->|]; [left; by eexists|right; congruence]. }
    destruct Hcase as [[j Ep]|Hn]; [|rewrite store_read_index, decide_False by done; done].
    pose proof Hst as Hst2. pose proof Hp as Hp2. rewrite Ep in Hst2, Hp2 |- *.
    destruct Hst2 as [_ Hrd]. rewrite Hrd, decide_True by done.
    destruct (iw_block _ _ Hw q Hq' Hnz) as (_&_&Hl).
    destruct (valid_parent q j Hp2) as (_&_&Hj). unfold BSIZE in Hl.
    destruct (decide (i = j)) as [->|Hij].
    + rewrite decide_True, get_put_u32 by (done || lia). done.
    + rewrite decide_False, get_put_u32_ne by (congruence || lia). done.
Qed.

(** Data blocks keep their contents. *)
Lemma store_data q :
  valid_pos q → ¬ is_index q → addr_at s ip q ≠ 0 → bs_read s' (addr_at s ip q) = bs_read s (addr_at s ip q).
Proof.
  intros Hq Hni Hnz. apply store_read_index; try done. intros i ->. apply Hni.
  by apply (valid_parent q i).
Qed.

Lemma store_bitmap c : 0 ≤ c < sb_size sb → bs_read s' (bblock sb c) = bs_read s (bblock sb c).
Proof.
  intros Hc. pose proof (dw_layout _ Hd) as Hlo. pose proof (bblock_lt sb c Hlo Hc).
  pose proof (bblock_ge c). pose proof (iblock_range (id_inum ip) Hlo (iw_inum _ _ Hw)).
  destruct p as [k|q i]; destruct Hst as [_ Hrd]; rewrite Hrd; [done|lia|].
  destruct (valid_parent q i Hp) as (Hq&_&_).
  destruct (iw_block _ _ Hw q Hq Hatt) as [Hr _]. rewrite decide_False; [done|lia].
Qed.

Lemma store_lengths c : length (bs_read s c) = BSIZE →
  c ≠ iblock sb (id_inum ip) → length (bs_read s' c) = BSIZE.
Proof.
  intros Hl Hc. destruct p as [k|q i]; destruct Hst as [_ Hrd]; rewrite Hrd; try done.
  destruct (valid_parent q i Hp) as (_&_&Hi). case_decide; [|done]. rewrite length_put_u32; [done|].
  rewrite Hl. unfold BSIZE. lia.
Qed.

Lemma store_disk_wf : disk_wf s'.
Proof.
  split; [by destruct Hd| |rewrite store_read_fixed by auto; by destruct Hd|done].
  apply (bitmap_frame s s'); [exact store_bitmap|by destruct Hd].
Qed.

Lemma store_same : ip' = with_addrs (id_addrs ip') ip.
Proof. destruct ip, p; destruct Hst as [-> _]; done. Qed.

Lemma store_dinode_ok : dinode_ok (idata_dinode ip').
Proof.
  pose proof (iw_dinode _ _ Hw) as []. pose proof (lo_size _ (dw_layout _ Hd)).
  pose proof (bmapstart_lt (dw_layout _ Hd)).
  destruct p; destruct Hst as [-> _]; split; simpl in *; try done.
  - by rewrite length_insert.
  - apply Forall_insert; [done|lia].
Qed.

Lemma store_inode_wf : inode_wf s' ip'.
Proof.
  pose proof (dw_layout _ Hd) as Hlo. pose proof (bmapstart_lt Hlo).
  destruct (bitmap_frame s s' store_bitmap) as [Hu _].
  split; [exact store_dinode_ok|rewrite store_same; by destruct Hw|..].
  - intros q Hq. rewrite store_addr_at by done. case_decide as E; intros Hnz.
    + split; [done|]. rewrite Hu by lia. split; [done|]. rewrite store_read_fixed, Hzero by auto. done.
    + destruct (iw_block _ _ Hw q Hq Hnz) as (Hr&Hus&Hl). split; [done|]. rewrite Hu by lia.
      split; [done|]. apply store_lengths; [done|].
      pose proof (iblock_range (id_inum ip) Hlo (iw_inum _ _ Hw)). lia.
  - intros q r Hq Hr. rewrite !store_addr_at by done. repeat case_decide; subst; intros Hnz E; try done.
    + by destruct (Hfresh r Hr).
    + by destruct (Hfresh q Hq).
    + by apply (iw_inj _ _ Hw).
Qed.
End store.

(** ** Extending the tree *)

(** From [(s, ip)] to [(s', ip')] the tree grew, and only the place [p] among
    the data places may have got a block. *)
Record ext p s ip s' ip' : Prop := {
  ex_disk : disk_wf s';
  ex_inode : inode_wf s' ip';
  ex_same : ip' = with_addrs (id_addrs ip') ip;
  ex_keep q : valid_pos q → addr_at s ip q ≠ 0 → addr_at s' ip' q = addr_at s ip q;
  ex_other q : valid_pos q → ¬ is_index q → q ≠ p → addr_at s' ip' q = addr_at s ip q;
  ex_data q : valid_pos q → ¬ is_index q → addr_at s ip q ≠ 0 →
    bs_read s' (addr_at s ip q) = bs_read s (addr_at s ip q);
  (** Blocks of other files are untouched. *)
  ex_frame c : datastart sb ≤ c < sb_size sb → used sb s c = true →
    (∀ q, valid_pos q → addr_at s ip q ≠ c) →
    bs_read s' c = bs_read s c ∧ ∀ q, valid_pos q → addr_at s' ip' q ≠ c;
  ex_used c : 0 ≤ c < sb_size sb → used sb s c = true → used sb s' c = true;
}.

Lemma ext_refl p s ip : disk_wf s → inode_wf s ip → ext p s ip s ip.
Proof. intros Hd Hw. split; try done. by destruct ip. Qed.

Lemma ext_trans p s1 ip1 s2 ip2 s3 ip3 : ext p s1 ip1 s2 ip2 → ext p s2 ip2 s3 ip3 → ext p s1 ip1 s3 ip3.
Proof.
  intros [] [D2 I2 S2 K2 O2 T2 F2 U2].
  split; try done.
  - rewrite S2, ex_same0. by destruct ip1.
  - intros q Hq Hnz. rewrite K2, ex_keep0 by (try done; by rewrite ex_keep0). done.
  - intros q Hq Hni Hne. by rewrite O2, ex_other0.
  - intros q Hq Hni Hnz. rewrite <-(ex_keep0 q) at 1 by done. rewrite T2 by (try done; by rewrite ex_keep0).
    rewrite ex_keep0 by done. by apply ex_data0.
  - intros c Hc Hu Hq. destruct (ex_frame0 c Hc Hu Hq) as [E1 E2].
    pose proof (bmapstart_lt (dw_layout _ D2)).
    destruct (F2 c Hc) as [E3 E4]; [apply ex_used0; [lia|done]|done|]. split; [congruence|done].
  - intros c Hc Hu. by apply U2, ex_used0.
Qed.

Lemma alloc_wf s ip b s1 :
  disk_wf s → inode_wf s ip → allocated sb s b s1 →
  disk_wf s1 ∧ inode_wf s1 ip ∧ (∀ q, valid_pos q → addr_at s1 ip q ≠ b) ∧ used sb s1 b = true.
Proof.
  intros Hd Hw Ha. pose proof Ha as [A1 A2 _ A4 A5 A6 A7].
  pose proof (dw_layout _ Hd) as Hlo. pose proof (bmapstart_lt Hlo) as Hbs.
  pose proof (fresh_data _ _ _ Hlo (dw_bitmap _ Hd) Ha) as Hb.
  assert (Htree : ∀ q, valid_pos q → addr_at s1 ip q = addr_at s ip q) by (intros q; by apply (alloc_tree s ip b)).
  split_and!.
  - split; try done; [rewrite (alloc_frame s ip b) by auto; by destruct Hd|].
    intros i Hi. pose proof (iblock_range i Hlo Hi). pose proof (bblock_ge b).
    rewrite A5 by lia. by apply Hd.
  - split; [by destruct Hw|by destruct Hw|..].
    + intros q Hq. rewrite (Htree q Hq). intros Hnz.
      destruct (iw_block _ _ Hw q Hq Hnz) as (Hr&Hu&Hl). split; [done|].
      rewrite A6, (alloc_frame s ip b) by (try lia; auto). split; [by case_decide|done].
    + intros q r Hq Hr. rewrite (Htree q Hq), (Htree r Hr). by apply Hw.
  - intros q Hq. rewrite (Htree q Hq). intros <-.
    destruct (addr_nonneg s ip q Hd Hw Hq) as [?|[_ Hu]]; [lia|congruence].
  - rewrite A6, decide_True by done. done.
Qed.

Lemma grow_ext p s ip b s1 s2 ip2 :
  disk_wf s → inode_wf s ip → valid_pos p → addr_at s ip p = 0 → attached s ip p →
  allocated sb s b s1 → stored s1 ip p b s2 ip2 →
  (∀ i, 0 ≤ i < sb_ninodes sb → length (bs_read s2 (iblock sb i)) = BSIZE) →
  (∀ p0, is_index p ∨ p0 = p → ext p0 s ip s2 ip2) ∧
  (∀ q, valid_pos q → addr_at s2 ip2 q = if decide (q = p) then b else addr_at s ip q) ∧
  b ≠ 0 ∧ bs_read s2 b = zero_block.
Proof.
  intros Hd Hw Hp Hempty Hatt Ha Hst Hil.
  destruct (alloc_wf s ip b s1 Hd Hw Ha) as (Hd1&Hw1&Hfresh&Hu1).
  pose proof (dw_layout _ Hd) as Hlo. pose proof (bmapstart_lt Hlo) as Hbs.
  pose proof (fresh_data _ _ _ Hlo (dw_bitmap _ Hd) Ha) as Hb.
  pose proof Ha as [A1 A2 _ A4 A5 A6 A7].
  assert (Htree : ∀ q, valid_pos q → addr_at s1 ip q = addr_at s ip q) by (intros q; by apply (alloc_tree s ip b)).
  assert (Hempty1 : addr_at s1 ip p = 0) by (by rewrite Htree).
  assert (Hatt1 : attached s1 ip p).
  { destruct p as [|q i]; [done|]. simpl in *. rewrite Htree; [done|by apply (valid_parent q i)]. }
  assert (Hat : ∀ q, valid_pos q → addr_at s2 ip2 q = if decide (q = p) then b else addr_at s ip q).
  { intros q Hq. rewrite <-(Htree q Hq). by apply (store_addr_at s1 ip p b s2 ip2). }
  assert (Hu2 : ∀ c, 0 ≤ c < sb_size sb → used sb s2 c = used sb s1 c).
  { apply bitmap_frame. by apply (store_bitmap s1 ip p b s2 ip2). }
  split_and!; [intros p0 Hp0; split|done|lia|].
  - by apply (store_disk_wf s1 ip p b s2 ip2).
  - by apply (store_inode_wf s1 ip p b s2 ip2).
  - by apply (store_same s1 ip p b s2 ip2).
  - intros q Hq Hnz. rewrite Hat, decide_False by (done || by intros ->). done.
  - intros q Hq Hni Hne. rewrite Hat by done. rewrite decide_False; [done|].
    intros ->. destruct Hp0; [done|congruence].
  - intros q Hq Hni Hnz. rewrite <-(Htree q Hq) at 1.
    rewrite (store_data s1 ip p b s2 ip2) by (try done; by rewrite Htree). rewrite (Htree q Hq).
    apply (alloc_frame s ip b s1 _ Hd Ha). by apply addr_nonneg.
  - intros c Hc Huc Hq. split.
    + rewrite <-(alloc_frame s ip b s1 c Hd Ha) by (right; done).
      pose proof (iblock_range (id_inum ip) Hlo (iw_inum _ _ Hw)).
      destruct p as [k|q i]; destruct Hst as [_ Hrd]; rewrite Hrd; [done|lia|].
      destruct (valid_parent q i Hp) as (Hq'&_). rewrite Htree, decide_False by (try done; by intros ->; apply (Hq q)). done.
    + intros q Hvq. rewrite Hat by done. case_decide; [intros ->; congruence|by apply Hq].
  - intros c Hc Huc. rewrite Hu2, A6 by done. by case_decide.
  - rewrite (store_read_fixed s1 ip p b s2 ip2) by auto. done.
Qed.

(** ** Slots *)

(** The result of asking for the block of place [p], with room for [n] more
    updates and [m] more free blocks left. *)
Record slot_result p n m s ip a s' ip' : Prop := {
  sr_room : bs_room s' n;
  sr_free : (m ≤ nfree s')%nat;
  sr_ext p0 : is_index p ∨ p0 = p → ext p0 s ip s' ip';
  sr_other q : valid_pos q → q ≠ p → addr_at s' ip' q = addr_at s ip q;
  sr_addr : addr_at s' ip' p = a;
  sr_nz : a ≠ 0;
  sr_zero : addr_at s ip p = 0 → bs_read s' a = zero_block;
}.

Lemma slot_present p n m s ip :
  disk_wf s → inode_wf s ip → bs_room s (3 + n) → (1 + m ≤ nfree s)%nat → addr_at s ip p ≠ 0 →
  slot_result p n m s ip (addr_at s ip p) s ip.
Proof.
  intros Hd Hw Hr Hm Hnz. split; try done; [by apply (bs_room_le _ _ (3 + n)); [lia|]|lia|].
  intros p0 _. by apply ext_refl.
Qed.

Lemma nfree_frame s s' :
  (∀ c, 0 ≤ c < sb_size sb → used sb s' c = used sb s c) → nfree s' = nfree s.
Proof.
  intros Hu. unfold nfree. apply filter_count_ext. intros c Hc%elem_of_seqZ.
  by rewrite Hu by lia.
Qed.

Lemma root_slot_spec k n m s ip :
  disk_wf s → inode_wf s ip → bs_room s (3 + n) → (1 + m ≤ nfree s)%nat → (k < 13)%nat →
  ∃ a s' ip', root_slot sb k true (s, ip) = (Ok a, (s', ip')) ∧
    slot_result (Root k) n m s ip a s' ip'.
Proof.
  intros Hd Hw Hr Hm Hk. unfold root_slot, mbind, M_bind. simpl self. cbv beta iota zeta.
  destruct (Z.eqb_spec (id_addrs ip !!! k) 0) as [E|Hnz]; simpl.
  2:{ do 3 eexists. split; [reflexivity|]. by apply slot_present. }
  destruct (balloc_spec sb s (1 + n) (dw_layout _ Hd) (dw_bitmap _ Hd) Hr) as (b&s1&Hb&Hr1&Ha).
  { apply nfree_pos. lia. }
  rewrite Hb. unfold set_addrs, mbind, M_bind. simpl.
  set (ip2 := with_addrs _ ip).
  destruct (update_spec s1 ip2 n Hr1) as (s2&Hu&Hr2&Hv). rewrite Hu.
  destruct (alloc_wf s ip b s1 Hd Hw Ha) as (Hd1&Hw1&_).
  assert (Hst : stored s1 ip (Root k) b s2 ip2).
  { split; [done|]. intros c Hc. by rewrite Hv, decide_False. }
  assert (Hil : ∀ i, 0 ≤ i < sb_ninodes sb → length (bs_read s2 (iblock sb i)) = BSIZE).
  { intros i Hi. rewrite Hv. case_decide; [|by apply Hd1]. apply length_put_dinode; [by apply Hd1|apply inode_index_lt|].
    simpl. rewrite length_insert. apply (di_addrs_len _ (iw_dinode _ _ Hw)). }
  destruct (grow_ext (Root k) s ip b s1 s2 ip2) as (He&Hat&Hbz&Hz); try done.
  do 3 eexists. split; [reflexivity|].
  split; [done| |done|by intros q' ? ?; rewrite Hat, decide_False|by rewrite Hat, decide_True|done..].
  pose proof (nfree_alloc _ _ _ Ha). assert (nfree s2 = nfree s1) as ->; [|lia].
  apply nfree_frame, bitmap_frame. intros c Hc.
  pose proof (iblock_range (id_inum ip) (dw_layout _ Hd) (iw_inum _ _ Hw)). pose proof (bblock_ge c).
  rewrite Hv, decide_False by (simpl; lia). done.
Qed.

Lemma word_slot_spec q i n m s ip :
  disk_wf s → inode_wf s ip → bs_room s (3 + n) → (1 + m ≤ nfree s)%nat → valid_pos (Child q i) →
  addr_at s ip q ≠ 0 →
  ∃ a s' ip', word_slot sb (addr_at s ip q) i true (s, ip) = (Ok a, (s', ip')) ∧
    slot_result (Child q i) n m s ip a s' ip'.
Proof.
  intros Hd Hw Hr Hm Hp Hq. unfold word_slot, mbind, M_bind. simpl bread. cbv beta iota zeta.
  destruct (Z.eqb_spec (get_u32 i (bs_read s (addr_at s ip q))) 0) as [E|Hnz]; simpl.
  2:{ do 3 eexists. split; [reflexivity|]. by apply (slot_present (Child q i)). }
  destruct (balloc_spec sb s (1 + n) (dw_layout _ Hd) (dw_bitmap _ Hd) Hr) as (b&s1&Hb&Hr1&Ha).
  { apply nfree_pos. lia. }
  rewrite Hb. unfold lift. simpl.
  destruct (bs_update_ok (addr_at s ip q) (put_u32 i b (bs_read s (addr_at s ip q))) s1 n Hr1)
    as (s2&Hu&Hr2&Hv). rewrite Hu.
  destruct (alloc_wf s ip b s1 Hd Hw Ha) as (Hd1&Hw1&_).
  destruct (valid_parent q i Hp) as (Hvq&_&_).
  destruct (iw_block _ _ Hw q Hvq Hq) as (Hqr&Hqu&_).
  pose proof (bmapstart_lt (dw_layout _ Hd)).
  assert (Hst : stored s1 ip (Child q i) b s2 ip).
  { split; [done|]. intros c. rewrite Hv, (alloc_tree s ip b s1) by done. case_decide; [subst c|done].
    rewrite (alloc_frame s ip b s1) by (try done; right; done). done. }
  assert (Hil : ∀ i, 0 ≤ i < sb_ninodes sb → length (bs_read s2 (iblock sb i)) = BSIZE).
  { intros j Hj. pose proof (iblock_range j (dw_layout _ Hd) Hj). rewrite Hv, decide_False by lia. by apply Hd1. }
  destruct (grow_ext (Child q i) s ip b s1 s2 ip) as (He&Hat&Hbz&Hz); try done.
  do 3 eexists. split; [reflexivity|].
  split; [done| |done|by intros q' ? ?; rewrite Hat, decide_False|by rewrite Hat, decide_True|done..].
  pose proof (nfree_alloc _ _ _ Ha). assert (nfree s2 = nfree s1) as ->; [|lia].
  apply nfree_frame, bitmap_frame. intros c Hc. pose proof (bblock_lt sb c (dw_layout _ Hd) Hc).
  rewrite Hv, decide_False by lia. done.
Qed.

(** ** [bmap] *)

Lemma root_slot_lookup k s ip : root_slot sb k false (s, ip) = (Ok (id_addrs ip !!! k), (s, ip)).
Proof. unfold root_slot, mbind, M_bind. simpl. by rewrite andb_false_r. Qed.
Lemma word_slot_lookup blk i s ip :
  word_slot sb blk i false (s, ip) = (Ok (get_u32 i (bs_read s blk)), (s, ip)).
Proof. unfold word_slot, mbind, M_bind. simpl. by rewrite andb_false_r. Qed.

(** Without allocation [bmap] only reads the tree. *)
Lemma bmap_lookup bn s ip :
  (bn < MAXFILE)%nat → bmap sb bn false (s, ip) = (Ok (addr_at s ip (bpos bn)), (s, ip)).
Proof.
  unfold bmap, bpos, MAXFILE, NDINDIRECT. intros Hb.
  destruct (Nat.ltb_spec bn NDIRECT) as [|H1]; [by rewrite root_slot_lookup|].
  destruct (Nat.ltb_spec (bn - NDIRECT) NINDIRECT) as [|H2].
  { unfold mbind, M_bind. by rewrite root_slot_lookup, word_slot_lookup. }
  rewrite (proj2 (Nat.ltb_lt _ _)) by lia.
  unfold mbind, M_bind. by rewrite root_slot_lookup, !word_slot_lookup.
Qed.

Lemma bmap_too_large bn alloc s ip :
  (MAXFILE ≤ bn)%nat → bmap sb bn alloc (s, ip) = (Err StorageFull, (s, ip)).
Proof.
  unfold bmap, MAXFILE. intros Hb.
  rewrite (proj2 (Nat.ltb_ge _ _)), (proj2 (Nat.ltb_ge _ _)), (proj2 (Nat.ltb_ge _ _)); [done|lia..].
Qed.

(** The result of [bmap] for the data place [p]. *)
Record mapped p n m s ip a s' ip' : Prop := {
  mp_room : bs_room s' n;
  mp_free : (m ≤ nfree s')%nat;
  mp_ext : ext p s ip s' ip';
  mp_addr : addr_at s' ip' p = a;
  mp_nz : a ≠ 0;
  mp_zero : addr_at s ip p = 0 → bs_read s' a = zero_block;
}.

Lemma slot_mapped p n m n' m' s ip a s' ip' :
  (n' ≤ n)%nat → (m' ≤ m)%nat → slot_result p n m s ip a s' ip' → mapped p n' m' s ip a s' ip'.
Proof. intros Hn Hm []. split; auto; [by apply (bs_room_le _ _ n)|lia]. Qed.

Lemma mapped_step p1 p n m n' m' s ip a1 s1 ip1 a s2 ip2 :
  slot_result p1 n' m' s ip a1 s1 ip1 → is_index p1 → valid_pos p → ¬ is_index p →
  mapped p n m s1 ip1 a s2 ip2 → mapped p n m s ip a s2 ip2.
Proof.
  intros [] Hi Hv Hni []. split; try done; [by eapply ext_trans; [apply sr_ext0; left|]|].
  intros Hz. apply mp_zero0. rewrite sr_other0; [done|done|]. by intros ->.
Qed.

(** With allocation [bmap] returns the block of the file's block [bn], which
    it allocates zeroed if it is missing.  The log takes at most nine updates
    and at most three blocks are allocated. *)
Lemma bmap_spec bn n m s ip :
  disk_wf s → inode_wf s ip → bs_room s (9 + n) → (3 + m ≤ nfree s)%nat → (bn < MAXFILE)%nat →
  ∃ a s' ip', bmap sb bn true (s, ip) = (Ok a, (s', ip')) ∧
    mapped (bpos bn) n m s ip a s' ip'.
Proof.
  intros Hd Hw Hr Hm Hbn. destruct (bpos_valid bn Hbn) as [Hv Hni]. revert Hv Hni.
  unfold bmap, bpos, MAXFILE, NDINDIRECT in *.
  destruct (Nat.ltb_spec bn NDIRECT) as [|H1]; [|destruct (Nat.ltb_spec (bn - NDIRECT) NINDIRECT) as [|H2]].
  - intros Hv Hni. destruct (root_slot_spec bn (6 + n) (2 + m) s ip) as (a&s'&ip'&Hrun&R); auto.
    do 3 eexists. split; [done|]. eapply slot_mapped; [| |done]; lia.
  - intros Hv Hni.
    destruct (root_slot_spec NDIRECT (6 + n) (2 + m) s ip) as (a&s1&ip1&Hrun&R1);
      [done..|unfold NDIRECT; lia|].
    assert (Hix : is_index (Root NDIRECT)) by (simpl; unfold NDIRECT; lia).
    pose proof R1 as []. pose proof (sr_ext0 (Root 0) (or_introl Hix)) as [].
    destruct (word_slot_spec (Root NDIRECT) (bn - NDIRECT) (3 + n) (1 + m) s1 ip1) as (a2&s2&ip2&Hrun2&R2);
      try done; [by rewrite sr_addr0|].
    rewrite sr_addr0 in Hrun2.
    do 3 eexists. split; [unfold mbind, M_bind; by rewrite Hrun, Hrun2|].
    eapply mapped_step; [exact R1|done..|]. eapply slot_mapped; [| |done]; lia.
  - rewrite (proj2 (Nat.ltb_lt _ _)) by lia. set (k := (bn - NDIRECT - NINDIRECT)%nat) in *. intros Hv Hni.
    destruct (root_slot_spec (NDIRECT + 1) (6 + n) (2 + m) s ip) as (a&s1&ip1&Hrun&R1);
      [done..|unfold NDIRECT; lia|].
    assert (Hix : is_index (Root (NDIRECT + 1))) by (simpl; unfold NDIRECT; lia).
    pose proof R1 as []. pose proof (sr_ext0 (Root 0) (or_introl Hix)) as [].
    destruct (valid_parent _ _ Hv) as (Hv2&Hix2&_).
    destruct (word_slot_spec (Root (NDIRECT + 1)) (k / NINDIRECT) (3 + n) (1 + m) s1 ip1)
      as (a2&s2&ip2&Hrun2&R2); try done; [by rewrite sr_addr0|].
    rewrite sr_addr0 in Hrun2.
    pose proof R2 as [? ? E2 ? A2 ? ?]. pose proof (E2 (Root 0) (or_introl Hix2)) as [].
    destruct (word_slot_spec (Child (Root (NDIRECT + 1)) (k / NINDIRECT)) (k mod NINDIRECT) n m s2 ip2)
      as (a3&s3&ip3&Hrun3&R3); try done; [by rewrite A2|].
    rewrite A2 in Hrun3.
    do 3 eexists. split; [unfold mbind, M_bind; by rewrite Hrun, Hrun2, Hrun3|].
    eapply mapped_step; [exact R1|done..|]. eapply mapped_step; [exact R2|done..|].
    eapply slot_mapped; [| |done]; lia.
Qed.
End bmap.


(** Inodes survive the trip to the disk.  After [update] a fresh in-memory
    inode that is locked loads exactly the fields that were stored, and every
    other inode of the file system, in the same inode block or another one,
    is as before. *)
Theorem inode_update_lock {S} `{BlockStoreLaws S} sb (s : S) ip n :
  disk_wf sb s → dinode_ok (idata_dinode ip) → 0 ≤ id_inum ip < sb_ninodes sb →
  id_itype ip ≠ FT_Empty → bs_room s (1 + n) →
  ∃ s', update sb (s, ip) = (Ok (), (s', ip)) ∧
    ilock sb (id_dev ip) (id_inum ip) (s', idata_new (id_dev ip) (id_inum ip))
      = (Ok (), (s', with_valid true ip)) ∧
    ∀ j, 0 ≤ j < sb_ninodes sb → j ≠ id_inum ip →
      get_dinode (inode_index j) (bs_read s' (iblock sb j))
      = get_dinode (inode_index j) (bs_read s (iblock sb j)).
Proof.
  intros Hd Hok Hi Hty Hr. destruct (update_spec sb s ip n Hr) as (s'&Hu&_&Hrd).
  exists s'. split; [done|]. pose proof (dw_inodes _ _ Hd _ Hi) as Hl. split.
  - unfold ilock. simpl. rewrite Hrd, decide_True by done.
    rewrite get_put_dinode by (done || apply inode_index_lt). destruct ip; simpl in *.
    by rewrite bool_decide_eq_false_2.
  - intros j Hj Hne. rewrite Hrd. case_decide as E; [|done]. rewrite E in *.
    rewrite get_put_dinode_ne; [done|done|apply inode_index_lt| |apply (di_addrs_len _ Hok)].
    unfold inode_index, iblock, IPB in *. intros Eq. apply Hne.
    pose proof (Z.div_mod j 8). pose proof (Z.div_mod (id_inum ip) 8).
    pose proof (Z.mod_pos_bound j 8). pose proof (Z.mod_pos_bound (id_inum ip) 8). lia.
Qed.

(** ** Concrete inodes *)

Definition demo_inode_of (inum : Z) (ty : FileType) (size a0 : Z) : IData :=
  mkIData 1 inum true ty MInvalid 0 1 size (a0 :: replicate 12 0) 0 0 0.
Abbreviation demo_inode := (demo_inode_of 2 FT_File).

Lemma demo_dinode_ok inum ty size a0 :
  0 ≤ size < 2 ^ 32 → 0 ≤ a0 < 2 ^ 32 → dinode_ok (idata_dinode (demo_inode_of inum ty size a0)).
Proof. intros Hs Ha. split; simpl; try done. repeat (constructor; [lia|]). constructor. Qed.

Lemma demo_disk_wf (d : gmap Z block) :
  bitmap_ok demo_sb d → dget d 0 = zero_block → (∀ b, 32 ≤ b < 35 → length (dget d b) = BSIZE) →
  disk_wf demo_sb d.
Proof.
  intros Hbm H0 Hi. split; [apply demo_layout|done|done|]. intros i Hr. apply Hi.
  unfold iblock. simpl in *. assert (0 ≤ i / IPB < 3); [|lia].
  split; [apply Z.div_pos; unfold IPB; lia|apply Z.div_lt_upper_bound; unfold IPB; lia].
Qed.

(** A file of at most one block. *)
Lemma demo_inode_wf (d : gmap Z block) inum ty size a0 :
  dget d 0 = zero_block → 0 ≤ inum < 16 → 0 ≤ size < 2 ^ 32 →
  a0 = 0 ∨ (36 ≤ a0 < 60 ∧ used demo_sb d a0 = true ∧ length (dget d a0) = BSIZE) →
  inode_wf demo_sb d (demo_inode_of inum ty size a0).
Proof.
  intros H0 Hin Hs Ha.
  assert (Hat : ∀ p, valid_pos p → p = Root 0 ∨ addr_at d (demo_inode_of inum ty size a0) p = 0).
  { induction p as [k|q IH i]; intros Hp; simpl.
    - destruct k as [|k]; [by left|right]. apply list_lookup_total_correct.
      change (replicate 12 0 !! k = Some 0). apply lookup_replicate_2. simpl in Hp. lia.
    - right. destruct (valid_parent q i Hp) as (Hq&Hi&Hlt). destruct (IH Hq) as [->|E].
      + simpl in Hi. lia.
      + rewrite E. change (bs_read d 0) with (dget d 0). rewrite H0. by apply get_u32_zero. }
  split.
  - apply demo_dinode_ok; [done|]. destruct Ha; lia.
  - simpl. lia.
  - intros p Hp Hnz. destruct (Hat p Hp) as [->|]; [|done]. destruct Ha as [->|(?&?&?)]; [done|].
    simpl. split; [done|]. done.
  - intros p q Hp Hq Hnz E. destruct (Hat p Hp) as [->|]; [|done].
    destruct (Hat q Hq) as [->|Eq]; [done|]. congruence.
Qed.

Lemma demo_disk_ok : disk_wf demo_sb demo_disk.
Proof.
  apply demo_disk_wf; [apply demo_bitmap_ok; reflexivity|reflexivity|].
  intros b Hb. unfold dget, demo_disk. rewrite lookup_singleton_ne by lia. reflexivity.
Qed.
