(* ===== verification/FsData.v ===== *)
(** * File contents

    [IData::read] and [IData::write] of [kernel/src/fs.rs] and the view of an
    inode as an array of bytes. *)

From stdpp Require Import base tactics numbers gmap list.
From S2P Require Import Prelude Params Errors Bytes UserMem Log LogOps FsLayout FsBlocks FsInode FsBmap.
Local Open Scope Z_scope.

Definition BSZ : Z := 1024.
(** [MAXFILE * BSIZE]. *)
Definition MAXBYTES : Z := 67382272.

Section data.
Context {S : Type} `{BlockStore S} {Mem : Type} `{UserMem Mem} (sb : SuperBlock) (now : Z).
Implicit Types (s : S) (ip : IData) (mem : Mem).

Definition block_index (off : Z) : nat := Z.to_nat (off / BSZ).
Definition block_offset (off : Z) : nat := Z.to_nat (off mod BSZ).
(** [min(n - tot, BSIZE - off % BSIZE)]. *)
Definition chunk (off : Z) (todo : nat) : nat := Nat.min todo (BSIZE - block_offset off).

(** The loop of [IData::read]; [todo] is [n - tot].  Each pass copies at least
    one byte, so [todo] passes are enough. *)
Fixpoint read_chunks (fuel : nat) (dst off : Z) (todo : nat) (st : Mem * (S * IData)) :
    Result () * (Mem * (S * IData)) :=
  match todo, fuel with
  | O, _ => (Ok (), st)
  | _, O => (Panic, st)
  | _, Datatypes.S fuel =>
      let '(mem, sip) := st in
      match bmap sb (block_index off) false sip with
      | (Ok a, (s, ip)) =>
          let m := chunk off todo in
          match copyout mem dst (read_at (block_offset off) m (bs_read s a)) with
          | (Ok _, mem) => read_chunks fuel (dst + Z.of_nat m) (off + Z.of_nat m) (todo - m) (mem, (s, ip))
          | (Err e, mem) => (Err e, (mem, (s, ip)))
          | (Panic, mem) => (Panic, (mem, (s, ip)))
          end
      | (Err e, sip) => (Err e, (mem, sip))
      | (Panic, sip) => (Panic, (mem, sip))
      end
  end.

(** [IData::read].  The sum [off + n] is a [usize] that may overflow. *)
Definition iread (dst off : Z) (n : nat) (st : Mem * (S * IData)) : Result nat * (Mem * (S * IData)) :=
  let size := id_size st.2.2 in
  if off >? size then (Ok 0%nat, st)
  else if off + Z.of_nat n >? USIZE_MAX then (Panic, st)
  else
    let n := if off + Z.of_nat n >? size then Z.to_nat (size - off) else n in
    match read_chunks n dst off n st with
    | (Ok _, st) => (Ok n, st)
    | (Err e, st) => (Err e, st)
    | (Panic, st) => (Panic, st)
    end.

(** The loop of [IData::write]. *)
Fixpoint write_chunks (fuel : nat) mem (src off : Z) (todo : nat) : M Error (S * IData) () := λ st,
  match todo, fuel with
  | O, _ => (Ok (), st)
  | _, O => (Panic, st)
  | _, Datatypes.S fuel =>
      (a ← bmap sb (block_index off) true;
       x ← bread a;
       let m := chunk off todo in
       match copyin mem src m with
       | Ok bs =>
           _ ← lift (bs_update a (write_at (block_offset off) bs x));
           write_chunks fuel mem (src + Z.of_nat m) (off + Z.of_nat m) (todo - m)
       | Err e => m_err e
       | Panic => m_panic
       end) st
  end.

(** [IData::write]. *)
Definition iwrite mem (src off : Z) (n : nat) : M Error (S * IData) nat := λ st,
  if off + Z.of_nat n >? USIZE_MAX then (Panic, st)
  else if (off >? id_size st.2) || (off + Z.of_nat n >? MAXBYTES) then (Err FileTooLarge, st)
  else
    (_ ← write_chunks n mem src off n;
     ip ← self;
     let off := off + Z.of_nat n in
     _ ← (if off >? id_size ip then set_size sb off else mret ());
     mret n) st.

(** ** The inode as an array of bytes *)

(** The byte at offset [o] of the file. *)
Definition fbyte s ip (o : Z) : Z :=
  bs_read s (addr_at s ip (bpos (block_index o))) !!! block_offset o.
Definition frange s ip (off : Z) (n : nat) : list Z :=
  (λ k, fbyte s ip (off + Z.of_nat k)) <$> seq 0 n.

Lemma block_offset_lt off : (block_offset off < BSIZE)%nat.
Proof. unfold block_offset. pose proof (Z.mod_pos_bound off BSZ). unfold BSZ, BSIZE in *. lia. Qed.

Lemma block_index_lt off : 0 ≤ off < MAXBYTES → (block_index off < MAXFILE)%nat.
Proof.
  intros Ho. unfold block_index.
  assert (0 ≤ off / BSZ < 65803) by (split; [apply Z.div_pos; unfold BSZ; lia|
    apply Z.div_lt_upper_bound; unfold BSZ, MAXBYTES in *; lia]).
  unfold MAXFILE, NDINDIRECT, NDIRECT, NINDIRECT. lia.
Qed.

Lemma chunk_pos off todo : (0 < todo)%nat → (0 < chunk off todo ≤ todo)%nat.
Proof. unfold chunk. pose proof (block_offset_lt off). lia. Qed.

Lemma chunk_bound off todo : (block_offset off + chunk off todo ≤ BSIZE)%nat.
Proof. unfold chunk. pose proof (block_offset_lt off). lia. Qed.

(** Offsets within one chunk are in one block. *)
Lemma chunk_coords off todo k :
  0 ≤ off → (k < chunk off todo)%nat →
  block_index (off + Z.of_nat k) = block_index off ∧
  block_offset (off + Z.of_nat k) = (block_offset off + k)%nat.
Proof.
  intros Ho Hk. pose proof (chunk_bound off todo). unfold block_index, block_offset in *.
  pose proof (Z.div_mod off BSZ). pose proof (Z.mod_pos_bound off BSZ).
  assert (Hk' : 0 ≤ off mod BSZ + Z.of_nat k < BSZ) by (unfold BSZ, BSIZE in *; lia).
  replace (off + Z.of_nat k) with (off mod BSZ + Z.of_nat k + (off / BSZ) * BSZ) by (unfold BSZ in *; lia).
  rewrite Z.div_add, Z.mod_add by (unfold BSZ; lia).
  rewrite Z.div_small, Z.mod_small by done. lia.
Qed.

Lemma length_frange s ip off n : length (frange s ip off n) = n.
Proof. unfold frange. by rewrite length_fmap, length_seq. Qed.

Lemma lookup_frange s ip off n k :
  (k < n)%nat → frange s ip off n !! k = Some (fbyte s ip (off + Z.of_nat k)).
Proof. intros Hk. unfold frange. rewrite list_lookup_fmap, lookup_seq_lt by done. done. Qed.

Lemma frange_app s ip off n1 n2 :
  frange s ip off (n1 + n2) = frange s ip off n1 ++ frange s ip (off + Z.of_nat n1) n2.
Proof.
  unfold frange. rewrite seq_app, fmap_app. f_equal. rewrite Nat.add_0_l, <-(Nat.add_0_r n1) at 1. rewrite <-fmap_add_seq, <-list_fmap_compose.
  apply list_fmap_ext. intros i k _. simpl. f_equal. lia.
Qed.

(** The slice [bp[off % BSIZE ..]] of a pass is the file's range. *)
Lemma chunk_frange s ip off todo :
  0 ≤ off → length (bs_read s (addr_at s ip (bpos (block_index off)))) = BSIZE →
  read_at (block_offset off) (chunk off todo) (bs_read s (addr_at s ip (bpos (block_index off))))
  = frange s ip off (chunk off todo).
Proof.
  intros Ho Hl. pose proof (chunk_bound off todo) as Hc.
  apply list_eq_same_length with (n := chunk off todo).
  - apply length_frange.
  - rewrite length_read_at; [done|lia].
  - intros k x y Hk Hx Hy. rewrite lookup_read_at in Hx by done. rewrite lookup_frange in Hy by done.
    simplify_eq. unfold fbyte. destruct (chunk_coords off todo k Ho Hk) as [-> ->].
    symmetry. by apply list_lookup_total_correct.
Qed.
End data.


Section data_spec.
Context {S : Type} `{BlockStoreLaws S} {Mem : Type} `{UserMemLaws Mem} (sb : SuperBlock).
Implicit Types (s : S) (ip : IData) (mem : Mem).

(** ** Reading *)

Lemma tree_block_length s ip p :
  disk_wf sb s → inode_wf sb s ip → valid_pos p → length (bs_read s (addr_at s ip p)) = BSIZE.
Proof.
  intros Hd Hw Hp. destruct (decide (addr_at s ip p = 0)) as [E|Hnz].
  - rewrite E, (dw_boot _ _ Hd). unfold zero_block. apply length_replicate.
  - by apply (iw_block _ _ _ Hw p Hp Hnz).
Qed.

(** What a read does to memory: the bytes arrive, the rest is untouched. *)
Definition delivered mem dst (bs : list Z) mem' : Prop :=
  copyin mem' dst (length bs) = Ok bs ∧
  ∀ b k cs, copyin mem b k = Ok cs →
    b + Z.of_nat k ≤ dst ∨ dst + Z.of_nat (length bs) ≤ b → copyin mem' b k = Ok cs.

Lemma delivered_app mem1 mem2 mem3 dst bs1 bs2 :
  delivered mem1 dst bs1 mem2 → delivered mem2 (dst + Z.of_nat (length bs1)) bs2 mem3 →
  delivered mem1 dst (bs1 ++ bs2) mem3.
Proof.
  intros [R1 F1] [R2 F2]. split.
  - rewrite length_app. apply copyin_app; [|done]. apply F2; [done|lia].
  - intros b k cs Hc Hd. rewrite length_app in Hd. apply F2; [apply F1; [done|lia]|lia].
Qed.


Lemma read_chunks_spec fuel dst off todo mem s ip :
  disk_wf sb s → inode_wf sb s ip → 0 ≤ off → off + Z.of_nat todo ≤ MAXBYTES →
  (todo ≤ fuel)%nat → (0 < todo)%nat → writable mem dst todo →
  ∃ mem', read_chunks sb fuel dst off todo (mem, (s, ip)) = (Ok (), (mem', (s, ip))) ∧
    delivered mem dst (frange s ip off todo) mem'.
Proof.
  intros Hd Hw. revert dst off todo mem. induction fuel as [|fuel IH]; intros dst off todo mem Ho Hmax Hf Ht Hwr; [lia|].
  destruct todo as [|todo']; [lia|]. cbn [read_chunks]. set (todo := Datatypes.S todo') in *.
  pose proof (chunk_pos off todo Ht) as Hc. set (m := chunk off todo) in *.
  assert (Hbn : (block_index off < MAXFILE)%nat) by (apply block_index_lt; lia).
  destruct (bpos_valid _ Hbn) as [Hv _].
  rewrite bmap_lookup by done. fold m.
  rewrite (chunk_frange s ip off todo) by (try done; by apply tree_block_length). fold m.
  destruct (copyout_ok mem dst (frange s ip off m)) as [mem1 Hout].
  { rewrite length_frange. eapply writable_sub; [done|lia|lia]. }
  { rewrite length_frange. pose proof (chunk_bound off todo). fold m in H3. unfold PGSIZE, BSIZE in *. lia. }
  rewrite Hout.
  assert (Hdel : delivered mem dst (frange s ip off m) mem1).
  { split; [by eapply copyout_copyin|]. intros b k cs Hcs Hdis. by eapply copyout_frame. }
  destruct (decide (m = todo)) as [Em|Hm].
  - rewrite Em in *. rewrite Nat.sub_diag. destruct fuel; simpl; by eexists.
  - destruct (IH (dst + Z.of_nat m) (off + Z.of_nat m) (todo - m)%nat mem1) as (mem2&Hrun&Hdel2); try lia.
    { eapply copyout_writable; [done|]. eapply writable_sub; [done|lia|lia]. }
    exists mem2. split; [done|]. replace todo with (m + (todo - m))%nat at 1 by lia.
    rewrite frange_app. eapply delivered_app; [done|]. by rewrite length_frange.
Qed.

(** ** Writing *)

(** What every step of a write preserves. *)
Record kept s ip s' ip' : Prop := {
  kp_disk : disk_wf sb s';
  kp_inode : inode_wf sb s' ip';
  kp_same : ip' = with_addrs (id_addrs ip') ip;
  kp_frame c : datastart sb ≤ c < sb_size sb → used sb s c = true →
    (∀ q, valid_pos q → addr_at s ip q ≠ c) →
    bs_read s' c = bs_read s c ∧ ∀ q, valid_pos q → addr_at s' ip' q ≠ c;
  kp_used c : 0 ≤ c < sb_size sb → used sb s c = true → used sb s' c = true;
}.

Lemma ext_kept p s ip s' ip' : ext sb p s ip s' ip' → kept s ip s' ip'.
Proof. intros []. by split. Qed.

Lemma kept_refl s ip : disk_wf sb s → inode_wf sb s ip → kept s ip s ip.
Proof. intros. by apply (ext_kept (Root 0)), ext_refl. Qed.

Lemma kept_trans s1 ip1 s2 ip2 s3 ip3 : kept s1 ip1 s2 ip2 → kept s2 ip2 s3 ip3 → kept s1 ip1 s3 ip3.
Proof.
  intros [? ? S1 F1 U1] [D2 I2 S2 F2 U2]. split; try done.
  - rewrite S2, S1. by destruct ip1.
  - intros c Hc Hu Hq. destruct (F1 c Hc Hu Hq) as [E1 E2].
    pose proof (bmapstart_lt sb (dw_layout _ _ D2)).
    destruct (F2 c Hc) as [E3 E4]; [apply U1; [lia|done]|done|]. split; [congruence|done].
  - intros c Hc Hu. by apply U2, U1.
Qed.

(** Changing the contents of a data block of the file. *)
Lemma data_update s s' ip p x :
  disk_wf sb s → inode_wf sb s ip → valid_pos p → ¬ is_index p → addr_at s ip p ≠ 0 → length x = BSIZE →
  (∀ c, bs_read s' c = if decide (c = addr_at s ip p) then x else bs_read s c) →
  kept s ip s' ip ∧ (∀ q, valid_pos q → addr_at s' ip q = addr_at s ip q) ∧ nfree sb s' = nfree sb s.
Proof.
  intros Hd Hw Hp Hni Hnz Hx Hrd. pose proof (dw_layout _ _ Hd) as Hlo.
  destruct (iw_block _ _ _ Hw p Hp Hnz) as (Hr&Hu&Hl). pose proof (bmapstart_lt sb Hlo).
  assert (Htree : ∀ q, valid_pos q → addr_at s' ip q = addr_at s ip q).
  { intros q. apply addr_at_frame. intros r Hr' Hi. rewrite Hrd, decide_False; [done|].
    intros E. apply Hni. by rewrite (iw_inj _ _ _ Hw p r). }
  assert (Hbm : ∀ c, 0 ≤ c < sb_size sb → bs_read s' (bblock sb c) = bs_read s (bblock sb c)).
  { intros c Hc. pose proof (bblock_lt sb c Hlo Hc). rewrite Hrd, decide_False; [done|lia]. }
  destruct (bitmap_frame sb s s' Hbm) as [Hus Hbmo].
  split; [split|split; [done|by apply nfree_frame]].
  - split; [done|apply Hbmo; by destruct Hd|rewrite Hrd, decide_False by lia; by destruct Hd|].
    intros i Hi. pose proof (iblock_range sb i Hlo Hi). rewrite Hrd, decide_False by lia. by apply Hd.
  - split; [by destruct Hw|by destruct Hw|..].
    + intros q Hq. rewrite (Htree q Hq). intros Hq'. destruct (iw_block _ _ _ Hw q Hq Hq') as (?&?&?).
      split; [done|]. rewrite Hus by lia. split; [done|]. rewrite Hrd. by case_decide.
    + intros q r Hq Hr'. rewrite !Htree by done. by apply Hw.
  - by destruct ip.
  - intros c Hc Huc Hq. split; [rewrite Hrd, decide_False; [done|]; intros ->; by apply (Hq p)|].
    intros q Hvq. rewrite Htree by done. by apply Hq.
  - intros c Hc. by rewrite Hus.
Qed.

(** Allocation does not change what the file reads as: a missing block reads
    as zeros and so does the one allocated for it. *)
Lemma mapped_fbyte bn n m s ip a s' ip' o :
  disk_wf sb s → (bn < MAXFILE)%nat → 0 ≤ o < MAXBYTES →
  mapped sb (bpos bn) n m s ip a s' ip' → fbyte s' ip' o = fbyte s ip o.
Proof.
  intros Hd Hbn Ho [_ _ [D I _ K O T _ _] Ha Hnz Hz]. unfold fbyte.
  destruct (bpos_valid _ (block_index_lt o Ho)) as [Hv Hni].
  destruct (bpos_valid _ Hbn) as [Hpv Hpni].
  set (q := bpos (block_index o)) in *.
  destruct (decide (addr_at s ip q = 0)) as [E|Hq].
  - rewrite E, (dw_boot _ _ Hd). destruct (decide (q = bpos bn)) as [Eq|Hne].
    + rewrite Eq in *. rewrite Ha, Hz by done. done.
    + rewrite O, E, (dw_boot _ _ D) by done. done.
  - rewrite K, T by done. done.
Qed.

(** One pass of [write]: the range of the chunk has the new bytes. *)
Lemma update_fbyte s s' ip off todo bs o :
  inode_wf sb s ip → 0 ≤ off → off + Z.of_nat todo ≤ MAXBYTES → (0 < todo)%nat → 0 ≤ o < MAXBYTES →
  length bs = chunk off todo → length (bs_read s (addr_at s ip (bpos (block_index off)))) = BSIZE →
  addr_at s ip (bpos (block_index off)) ≠ 0 →
  (∀ q, valid_pos q → addr_at s' ip q = addr_at s ip q) →
  (∀ c, bs_read s' c = if decide (c = addr_at s ip (bpos (block_index off)))
     then write_at (block_offset off) bs (bs_read s c) else bs_read s c) →
  fbyte s' ip o = if decide (off ≤ o < off + Z.of_nat (chunk off todo))
                  then bs !!! Z.to_nat (o - off) else fbyte s ip o.
Proof.
  intros Hw Hoff Hmax Ht Ho Hbs Hl Hnz Htree Hrd. unfold fbyte.
  assert (Hbo : (block_index o < MAXFILE)%nat) by (by apply block_index_lt).
  assert (Hboff : (block_index off < MAXFILE)%nat) by (apply block_index_lt; lia).
  destruct (bpos_valid _ Hbo) as [Hv _]. destruct (bpos_valid _ Hboff) as [Hvoff _].
  rewrite Htree, Hrd by done. pose proof (chunk_bound off todo) as Hcb.
  pose proof (block_offset_lt o) as Hoo.
  case_decide as E.
  - assert (Hsame : block_index o = block_index off).
    { apply bpos_inj; try done. symmetry. by apply (iw_inj _ _ _ Hw). }
    assert (Hlen : (block_offset off + length bs ≤ length (bs_read s (addr_at s ip (bpos (block_index o)))))%nat)
      by (rewrite Hsame, Hl, Hbs; lia).
    rewrite list_lookup_total_alt, lookup_write_at by done. rewrite Hbs.
    assert (Hdm : o - off = Z.of_nat (block_offset o) - Z.of_nat (block_offset off)).
    { unfold block_index, block_offset in *. pose proof (Z.div_mod o BSZ). pose proof (Z.div_mod off BSZ).
      pose proof (Z.mod_pos_bound o BSZ). pose proof (Z.mod_pos_bound off BSZ).
      assert (0 ≤ o / BSZ) by (apply Z.div_pos; unfold BSZ; lia).
      assert (0 ≤ off / BSZ) by (apply Z.div_pos; unfold BSZ; lia). unfold BSZ in *. lia. }
    case_decide as Hin.
    + rewrite decide_True by lia. rewrite list_lookup_total_alt. do 2 f_equal. lia.
    + rewrite decide_False by lia. by rewrite list_lookup_total_alt.
  - rewrite decide_False; [done|]. intros Hin. apply E.
    replace o with (off + Z.of_nat (Z.to_nat (o - off))) by lia.
    destruct (chunk_coords off todo (Z.to_nat (o - off)) Hoff) as [-> _]; [lia|done].
Qed.

(** The number of passes of the loop. *)
Definition passes (off : Z) (todo : nat) : nat :=
  if (todo =? 0)%nat then 0%nat else ((block_offset off + todo + 1023) / 1024)%nat.

Lemma passes_step off todo :
  0 ≤ off → (0 < todo)%nat →
  (Datatypes.S (passes (off + Z.of_nat (chunk off todo)) (todo - chunk off todo)) ≤ passes off todo)%nat.
Proof.
  intros Ho Ht. pose proof (block_offset_lt off) as Hb. unfold passes.
  rewrite (proj2 (Nat.eqb_neq todo 0)) by lia.
  destruct (Nat.eqb_spec (todo - chunk off todo) 0) as [E|E].
  - apply Nat.div_le_lower_bound; lia.
  - assert (Hc : chunk off todo = (1024 - block_offset off)%nat) by (unfold chunk, BSIZE in *; lia).
    assert (Hz : block_offset (off + Z.of_nat (chunk off todo)) = 0%nat).
    { rewrite Hc. unfold block_offset in *. pose proof (Z.div_mod off BSZ). pose proof (Z.mod_pos_bound off BSZ).
      replace (off + Z.of_nat (1024 - Z.to_nat (off mod BSZ))) with ((off / BSZ + 1) * BSZ)
        by (unfold BSZ, BSIZE in *; lia).
      by rewrite Z.mod_mul by (unfold BSZ; lia). }
    rewrite Hz, Hc. replace (block_offset off + todo + 1023)%nat
      with (0 + (todo - (1024 - block_offset off)) + 1023 + 1 * 1024)%nat by (unfold chunk, BSIZE in *; lia).
    rewrite Nat.div_add by lia. lia.
Qed.

Lemma write_pass off todo n m s ip bs :
  disk_wf sb s → inode_wf sb s ip → 0 ≤ off → off + Z.of_nat todo ≤ MAXBYTES → (0 < todo)%nat →
  bs_room s (10 + n) → (3 + m ≤ nfree sb s)%nat → length bs = chunk off todo →
  ∃ a s1 s2 ip', bmap sb (block_index off) true (s, ip) = (Ok a, (s1, ip')) ∧
    bs_update a (write_at (block_offset off) bs (bs_read s1 a)) s1 = (Ok (), s2) ∧
    bs_room s2 n ∧ (m ≤ nfree sb s2)%nat ∧ kept s ip s2 ip' ∧
    ∀ o, 0 ≤ o < MAXBYTES →
      fbyte s2 ip' o = if decide (off ≤ o < off + Z.of_nat (chunk off todo))
                       then bs !!! Z.to_nat (o - off) else fbyte s ip o.
Proof.
  intros Hd Hw Ho Hmax Ht Hr Hf Hl.
  assert (Hbn : (block_index off < MAXFILE)%nat) by (apply block_index_lt; lia).
  destruct (bpos_valid _ Hbn) as [Hv Hni].
  destruct (bmap_spec sb (block_index off) (1 + n) m s ip Hd Hw Hr Hf Hbn) as (a&s1&ip1&Hrun&Hmp).
  pose proof Hmp as [Hr1 Hf1 He Ha Hnz Hz]. pose proof (ext_kept _ _ _ _ _ He) as Hk1.
  pose proof Hk1 as [Hd1 Hw1 _ _ _].
  destruct (bs_update_ok a (write_at (block_offset off) bs (bs_read s1 a)) s1 n Hr1) as (s2&Hu&Hr2&Hrd).
  assert (Hla : length (bs_read s1 a) = BSIZE) by (rewrite <-Ha; by apply tree_block_length).
  rewrite <-Ha in Hrd, Hla, Hnz.
  destruct (data_update s1 s2 ip1 (bpos (block_index off)) (write_at (block_offset off) bs (bs_read s1 a)))
    as (Hk2&Htree&Hnf); try done.
  { rewrite length_write_at; rewrite <-Ha, Hla; [done|]. rewrite Hl. apply chunk_bound. }
  { intros c. rewrite Hrd. by rewrite Ha. }
  exists a, s1, s2, ip1. split_and!; try done; [lia|by eapply kept_trans|].
  intros o Hoo. rewrite (update_fbyte s1 s2 ip1 off todo bs o); try done.
  - case_decide; [done|]. by eapply (mapped_fbyte (block_index off)).
  - intros c. rewrite Hrd. case_decide; [by subst|done].
Qed.

Lemma write_chunks_spec fuel mem src off todo n m s ip bs :
  disk_wf sb s → inode_wf sb s ip → 0 ≤ off → off + Z.of_nat todo ≤ MAXBYTES → (todo ≤ fuel)%nat →
  bs_room s (10 * passes off todo + n) → (3 * passes off todo + m ≤ nfree sb s)%nat →
  copyin mem src todo = Ok bs →
  ∃ s' ip', write_chunks sb fuel mem src off todo (s, ip) = (Ok (), (s', ip')) ∧
    bs_room s' n ∧ (m ≤ nfree sb s')%nat ∧ kept s ip s' ip' ∧
    ∀ o, 0 ≤ o < MAXBYTES →
      fbyte s' ip' o = if decide (off ≤ o < off + Z.of_nat todo) then bs !!! Z.to_nat (o - off)
                       else fbyte s ip o.
Proof.
  revert src off todo s ip bs. induction fuel as [|fuel IH]; intros src off todo s ip bs Hd Hw Ho Hmax Hfu Hr Hf Hin.
  all: destruct todo as [|todo']; [|try lia].
  1,2: exists s, ip; split; [done|]; split; [done|]; split; [done|]; split; [by apply kept_refl|];
    intros o _; rewrite decide_False by lia; done.
  cbn [write_chunks]. set (todo := Datatypes.S todo') in *. assert (Ht : (0 < todo)%nat) by lia.
  pose proof (chunk_pos off todo Ht) as Hc. pose proof (passes_step off todo Ho Ht) as Hps.
  set (k := chunk off todo) in *. set (r := passes (off + Z.of_nat k) (todo - k)) in *.
  replace todo with (k + (todo - k))%nat in Hin by lia. apply copyin_prefix in Hin as [Hin1 Hin2].
  assert (Hlb : length (take k bs) = k) by (by eapply copyin_length).
  destruct (write_pass off todo (10 * r + n) (3 * r + m) s ip (take k bs)) as (a&s1&s2&ip1&Hb&Hu&Hr2&Hf2&Hk&Hby);
    try done; [eapply bs_room_le; [|done]; lia|lia|].
  destruct (IH (src + Z.of_nat k) (off + Z.of_nat k) (todo - k)%nat s2 ip1 (drop k bs)) as (s3&ip3&Hrun&Hr3&Hf3&Hk3&Hby3);
    try done; try lia; try (by destruct Hk).
  exists s3, ip3. split.
  { unfold mbind, M_bind. rewrite Hb. simpl bread. cbv beta iota. fold k. rewrite Hin1.
    unfold lift. by rewrite Hu. }
  split; [done|]. split; [done|]. split; [by eapply kept_trans|].
  intros o Hoo. rewrite Hby3, Hby by done. fold k.
  assert (Hall : length bs = todo).
  { rewrite <-(take_drop k bs), length_app, Hlb. rewrite (copyin_length _ _ _ _ Hin2). lia. }
  repeat case_decide; try lia; try done.
  - rewrite lookup_total_drop. f_equal. lia.
  - rewrite !list_lookup_total_alt, lookup_take_lt by lia. done.
Qed.

(** Storing changed metadata: the new inode [ip2] has the same tree. *)
Lemma update_meta_spec s ip ip2 n :
  disk_wf sb s → inode_wf sb s ip → dinode_ok (idata_dinode ip2) →
  id_inum ip2 = id_inum ip → id_addrs ip2 = id_addrs ip → bs_room s (1 + n) →
  ∃ s', update sb (s, ip2) = (Ok (), (s', ip2)) ∧ bs_room s' n ∧
    disk_wf sb s' ∧ inode_wf sb s' ip2 ∧
    (∀ c, datastart sb ≤ c → bs_read s' c = bs_read s c) ∧
    (∀ q, valid_pos q → addr_at s' ip2 q = addr_at s ip q) ∧ bs_read s' 0 = zero_block ∧
    nfree sb s' = nfree sb s.
Proof.
  intros Hd Hw Hok Hin Had Hr. pose proof (dw_layout _ _ Hd) as Hlo.
  destruct (update_spec sb s ip2 n Hr) as (s'&Hu&Hr'&Hrd).
  pose proof (iblock_range sb (id_inum ip) Hlo (iw_inum _ _ _ Hw)) as Hib.
  pose proof (bmapstart_lt sb Hlo) as Hbs. rewrite Hin in Hrd.
  assert (Hdata : ∀ c, datastart sb ≤ c ∨ c = 0 → bs_read s' c = bs_read s c)
    by (intros c Hc; rewrite Hrd, decide_False; [done|lia]).
  assert (Hbm : ∀ c, 0 ≤ c < sb_size sb → bs_read s' (bblock sb c) = bs_read s (bblock sb c)).
  { intros c Hc. pose proof (bblock_ge sb c). rewrite Hrd, decide_False; [done|lia]. }
  destruct (bitmap_frame sb s s' Hbm) as [Hus Hbmo].
  assert (Htree : ∀ q, valid_pos q → addr_at s' ip q = addr_at s ip q).
  { intros q. apply addr_at_frame. intros r Hr1 _. apply Hdata.
    destruct (addr_nonneg sb s ip r Hd Hw Hr1) as [->|[? _]]; lia. }
  assert (Htree' : ∀ q, addr_at s' ip2 q = addr_at s' ip q)
    by (induction q as [|q IH]; simpl; [by rewrite Had|by rewrite IH]).
  exists s'. split; [done|]. split; [done|]. split_and!.
  - split; [done|apply Hbmo; by destruct Hd|rewrite Hdata by lia; by destruct Hd|].
    intros i Hi. rewrite Hrd. case_decide; [|by apply Hd].
    apply length_put_dinode; [by apply Hd|apply inode_index_lt|]. apply (di_addrs_len _ Hok).
  - split; [done|rewrite Hin; by destruct Hw|..].
    + intros q Hq. rewrite Htree', (Htree q Hq). intros Hnz. destruct (iw_block _ _ _ Hw q Hq Hnz) as (?&?&?).
      rewrite Hus, Hdata by lia. done.
    + intros q r Hq Hr1. rewrite !Htree', !Htree by done. by apply Hw.
  - intros c Hc. apply Hdata. lia.
  - intros q Hq. by rewrite Htree', Htree.
  - rewrite Hdata by lia. by destruct Hd.
  - by apply nfree_frame.
Qed.

(** The size update at the end of [write]. *)
Lemma set_size_spec s ip sz n :
  disk_wf sb s → inode_wf sb s ip → 0 ≤ sz < 2 ^ 32 → bs_room s (1 + n) →
  ∃ s', set_size sb sz (s, ip) = (Ok (), (s', with_size sz ip)) ∧ bs_room s' n ∧
    disk_wf sb s' ∧ inode_wf sb s' (with_size sz ip) ∧
    (∀ c, datastart sb ≤ c → bs_read s' c = bs_read s c) ∧
    (∀ q, valid_pos q → addr_at s' (with_size sz ip) q = addr_at s ip q) ∧ bs_read s' 0 = zero_block ∧
    nfree sb s' = nfree sb s.
Proof.
  intros Hd Hw Hsz Hr. unfold set_size, mbind, M_bind. simpl.
  apply (update_meta_spec s ip); try done. destruct (iw_dinode _ _ _ Hw); by split.
Qed.

Lemma fbyte_ext s ip s' ip' o :
  0 ≤ o < MAXBYTES → disk_wf sb s → inode_wf sb s ip →
  (∀ q, valid_pos q → addr_at s' ip' q = addr_at s ip q) →
  (∀ c, datastart sb ≤ c → bs_read s' c = bs_read s c) → bs_read s' 0 = zero_block →
  fbyte s' ip' o = fbyte s ip o.
Proof.
  intros Ho Hd Hw Ht Hc Hz. unfold fbyte. destruct (bpos_valid _ (block_index_lt o Ho)) as [Hv _].
  rewrite Ht by done. destruct (addr_nonneg sb s ip _ Hd Hw Hv) as [->|[? _]].
  - by rewrite Hz, (dw_boot _ _ Hd).
  - rewrite Hc; [done|lia].
Qed.
End data_spec.

(** A read on every branch. *)
Lemma iread_spec {S} `{BlockStoreLaws S} {Mem} `{UserMemLaws Mem} sb (s : S) ip (mem : Mem) dst off n :
  disk_wf sb s → inode_wf sb s ip → id_size ip ≤ MAXBYTES →
  0 ≤ off → off + Z.of_nat n ≤ USIZE_MAX → writable mem dst n →
  let k := Nat.min n (Z.to_nat (id_size ip - off)) in
  ∃ mem', iread sb dst off n (mem, (s, ip)) = (Ok k, (mem', (s, ip))) ∧
    (k = 0%nat ∧ mem' = mem ∨ delivered mem dst (frange s ip off k) mem').
Proof.
  intros Hd Hw Hmax Ho Hov Hwr k. unfold iread. simpl.
  pose proof (di_size_ok _ (iw_dinode _ _ _ Hw)) as Hsz. simpl in Hsz.
  rewrite !Z.gtb_ltb. destruct (Z.ltb_spec (id_size ip) off) as [Hgt|Hle].
  { exists mem. assert (Hk : k = 0%nat) by lia. rewrite Hk. auto. }
  rewrite (proj2 (Z.ltb_ge _ _)) by lia.
  replace (if id_size ip <? off + Z.of_nat n then Z.to_nat (id_size ip - off) else n) with k
    by (destruct (Z.ltb_spec (id_size ip) (off + Z.of_nat n)); lia).
  destruct (decide (k = 0%nat)) as [E|Hk].
  { rewrite E. exists mem. simpl. auto. }
  destruct (read_chunks_spec sb k dst off k mem s ip) as (mem'&Hrun&Hdel); try done; try lia.
  { eapply writable_sub; [done|lia|lia]. }
  exists mem'. rewrite Hrun. auto.
Qed.

(** A write that has room. *)
Lemma iwrite_spec {S} `{BlockStoreLaws S} {Mem} `{UserMemLaws Mem} sb (s : S) ip (mem : Mem) src off n bs r m :
  disk_wf sb s → inode_wf sb s ip → 0 ≤ off ≤ id_size ip → off + Z.of_nat n ≤ MAXBYTES →
  copyin mem src n = Ok bs →
  bs_room s (10 * passes off n + 1 + r) → (3 * passes off n + m ≤ nfree sb s)%nat →
  ∃ s' ip', iwrite sb mem src off n (s, ip) = (Ok n, (s', ip')) ∧
    bs_room s' r ∧ (m ≤ nfree sb s')%nat ∧ disk_wf sb s' ∧ inode_wf sb s' ip' ∧
    id_size ip' = Z.max (id_size ip) (off + Z.of_nat n) ∧
    ip' = with_size (id_size ip') (with_addrs (id_addrs ip') ip) ∧
    (∀ o, 0 ≤ o < MAXBYTES →
      fbyte s' ip' o = if decide (off ≤ o < off + Z.of_nat n) then bs !!! Z.to_nat (o - off)
                       else fbyte s ip o) ∧
    (∀ c, datastart sb ≤ c < sb_size sb → used sb s c = true →
      (∀ q, valid_pos q → addr_at s ip q ≠ c) → bs_read s' c = bs_read s c).
Proof.
  intros Hd Hw Ho Hmax Hin Hr Hf.
  destruct (write_chunks_spec sb n mem src off n (1 + r) m s ip bs) as (s1&ip1&Hrun&Hr1&Hm1&Hk&Hby);
    try done; try lia; [by replace (10 * passes off n + (1 + r))%nat with (10 * passes off n + 1 + r)%nat by lia|].
  pose proof Hk as [Hd1 Hw1 Hs1 Hfr _].
  assert (Hsize : id_size ip1 = id_size ip) by (by rewrite Hs1).
  unfold iwrite, mbind, M_bind. simpl. rewrite !Z.gtb_ltb.
  rewrite (proj2 (Z.ltb_ge _ _)) by (unfold USIZE_MAX, MAXBYTES in *; lia).
  rewrite (proj2 (Z.ltb_ge _ _)), (proj2 (Z.ltb_ge _ _)) by lia. simpl. rewrite Hrun. simpl. rewrite Hsize.
  rewrite Z.gtb_ltb. destruct (Z.ltb_spec (id_size ip) (off + Z.of_nat n)) as [Hlt|Hge].
  - destruct (set_size_spec sb s1 ip1 (off + Z.of_nat n) r) as (s2&Hrun2&Hr2&Hd2&Hw2&Hdata&Htree&Hz&Hnf);
      try done; [unfold MAXBYTES in *; lia|].
    rewrite Hrun2. simpl. do 2 eexists. split; [reflexivity|]. split_and!; try done; [by rewrite Hnf|simpl; lia|simpl; by rewrite Hs1| |].
    + intros o Hoo. rewrite <-Hby by done. by apply (fbyte_ext sb).
    + intros c Hc Hu Hq. rewrite Hdata by lia. by apply Hfr.
  - do 2 eexists. split; [reflexivity|]. split_and!; try done; [|lia|rewrite Hs1; by destruct ip|by intros; apply Hfr].
    by apply (bs_room_le _ _ (1 + r)); [lia|].
Qed.


(** C10: [IData::read] returns the file's bytes.  A read of [n] bytes at [off]
    delivers [min(n, size - off)] bytes of the file to the destination, none
    past the end of the file, leaves the rest of memory and the file system
    alone and returns their number. *)
Theorem iread_correct {S} `{BlockStoreLaws S} {Mem} `{UserMemLaws Mem} sb (s : S) ip (mem : Mem) dst off n :
  disk_wf sb s → inode_wf sb s ip → id_size ip ≤ MAXBYTES →
  0 ≤ off → off + Z.of_nat n ≤ USIZE_MAX → writable mem dst n →
  let k := Nat.min n (Z.to_nat (id_size ip - off)) in
  ∃ mem', iread sb dst off n (mem, (s, ip)) = (Ok k, (mem', (s, ip))) ∧
    (k = 0%nat ∧ mem' = mem ∨ delivered mem dst (frange s ip off k) mem').
Proof. apply iread_spec. Qed.

(** C11: [IData::write] writes the file's bytes.  With enough room in the
    transaction and enough free blocks, a write of the [n] bytes at [src] to
    offset [off] of the file, at most up to its end and within the maximal
    size, succeeds; afterwards exactly the bytes [off, off + n) of the file
    have the new values, its size has grown to cover them, the rest of its
    metadata is as before, the disk and the
    inode are well formed and no block of another file has changed. *)
Theorem iwrite_correct {S} `{BlockStoreLaws S} {Mem} `{UserMemLaws Mem} sb (s : S) ip (mem : Mem) src off n bs r m :
  disk_wf sb s → inode_wf sb s ip → 0 ≤ off ≤ id_size ip → off + Z.of_nat n ≤ MAXBYTES →
  copyin mem src n = Ok bs →
  bs_room s (10 * passes off n + 1 + r) → (3 * passes off n + m ≤ nfree sb s)%nat →
  ∃ s' ip', iwrite sb mem src off n (s, ip) = (Ok n, (s', ip')) ∧
    bs_room s' r ∧ (m ≤ nfree sb s')%nat ∧ disk_wf sb s' ∧ inode_wf sb s' ip' ∧
    id_size ip' = Z.max (id_size ip) (off + Z.of_nat n) ∧
    ip' = with_size (id_size ip') (with_addrs (id_addrs ip') ip) ∧
    (∀ o, 0 ≤ o < MAXBYTES →
      fbyte s' ip' o = if decide (off ≤ o < off + Z.of_nat n) then bs !!! Z.to_nat (o - off)
                       else fbyte s ip o) ∧
    (∀ c, datastart sb ≤ c < sb_size sb → used sb s c = true →
      (∀ q, valid_pos q → addr_at s ip q ≠ c) → bs_read s' c = bs_read s c).
Proof. apply iwrite_spec. Qed.

(** ** A file on the small disk *)

Definition hello_bytes : list Z := [104; 101; 108; 108; 111].
Definition hello_mem : gmap Z Z := list_to_map (zip (seqZ 100 5) hello_bytes).
(** Block 36 holds the file, and the bitmap says so. *)
Definition demo_file_disk : gmap Z block :=
  <[36 := hello_bytes ++ replicate 1019 0]> {[ 35 := [255; 255; 255; 255; 31] ++ replicate 1019 0 ]}.

Lemma demo_file_disk_ok : disk_wf demo_sb demo_file_disk.
Proof.
  apply demo_disk_wf; [|reflexivity|].
  - split.
    + intros b Hb. rewrite demo_bblock by done. reflexivity.
    + intros b Hb Hs. unfold used. rewrite demo_bblock by lia. change (datastart demo_sb) with 36 in Hb.
      assert (Hall : forallb (λ b, bit_in (bs_read demo_file_disk 35) (b mod BPB)) (seqZ 0 36) = true)
        by (vm_compute; reflexivity).
      rewrite forallb_forall in Hall. apply Hall, list_elem_of_In, elem_of_seqZ. lia.
  - intros b Hb. unfold dget, demo_file_disk. rewrite lookup_insert_ne, lookup_singleton_ne by lia. reflexivity.
Qed.

Lemma demo_file_ok : inode_wf demo_sb demo_file_disk (demo_inode 5 36).
Proof.
  apply demo_inode_wf; [reflexivity|lia|lia|right].
  split; [lia|]. split; [vm_compute; reflexivity|reflexivity].
Qed.

Definition blank_mem : gmap Z Z := list_to_map (zip (seqZ 200 8) (replicate 8 0)).

Lemma iread_correct_witness :
  ∃ mem', iread demo_sb 200 1 8 (blank_mem, (demo_file_disk, demo_inode 5 36))
          = (Ok 4%nat, (mem', (demo_file_disk, demo_inode 5 36))) ∧
    (4%nat = 0%nat ∧ mem' = blank_mem ∨
     delivered blank_mem 200 (frange demo_file_disk (demo_inode 5 36) 1 4) mem').
Proof.
  apply (iread_correct demo_sb demo_file_disk (demo_inode 5 36) blank_mem 200 1 8 demo_file_disk_ok demo_file_ok).
  - unfold MAXBYTES; simpl; lia.
  - lia.
  - unfold USIZE_MAX; lia.
  - intros i Hi. assert (Hin : i ∈ seqZ 200 8) by (apply elem_of_seqZ; lia). revert i Hi Hin.
    assert (Hall : forallb (λ i, bool_decide (is_Some (blank_mem !! i))) (seqZ 200 8) = true)
      by (vm_compute; reflexivity).
    rewrite forallb_forall in Hall. intros i _ Hin. by apply list_elem_of_In, Hall, bool_decide_eq_true in Hin.
Defined.

Lemma iwrite_correct_witness :
  ∃ s' ip', iwrite demo_sb hello_mem 100 0 5 (demo_disk, demo_inode 0 0) = (Ok 5%nat, (s', ip')) ∧
    bs_room s' 0 ∧ (0 ≤ nfree demo_sb s')%nat ∧ disk_wf demo_sb s' ∧ inode_wf demo_sb s' ip' ∧ id_size ip' = Z.max 0 5 ∧
    ip' = with_size (id_size ip') (with_addrs (id_addrs ip') (demo_inode 0 0)) ∧
    (∀ o, 0 ≤ o < MAXBYTES →
      fbyte s' ip' o = if decide (0 ≤ o < 0 + Z.of_nat 5) then hello_bytes !!! Z.to_nat (o - 0)
                       else fbyte demo_disk (demo_inode 0 0) o) ∧
    (∀ c, datastart demo_sb ≤ c < 60 → used demo_sb demo_disk c = true →
      (∀ q, valid_pos q → addr_at demo_disk (demo_inode 0 0) q ≠ c) → bs_read s' c = bs_read demo_disk c).
Proof.
  apply (iwrite_correct demo_sb demo_disk (demo_inode 0 0) hello_mem 100 0 5 hello_bytes 0 0 demo_disk_ok).
  - apply demo_inode_wf; [reflexivity|lia|lia|by left].
  - simpl; lia.
  - unfold MAXBYTES; lia.
  - vm_compute. reflexivity.
  - exact I.
  - apply Nat.leb_le. vm_compute. reflexivity.
Defined.
