(* ===== verification/FsItable.v ===== *)
(** * The inode table

    [ITABLE] of [kernel/src/fs.rs]: the in-memory inodes shared by all users
    of a file, with their reference counts, and the allocation of on-disk
    inodes.  A handle ([Inode]) is the index of its entry; an entry's count is
    the number of its handles, so that the [Arc::strong_count] of the source
    is that number plus one for the table. *)

From stdpp Require Import base tactics numbers gmap list.
From S2P Require Import Prelude Params Errors Bytes Log LogOps FsLayout FsBlocks FsInode.
Local Open Scope Z_scope.

(** [pub struct MInode], with its handle count. *)
Record MInode := mkMInode { mi_dev : Z; mi_inum : Z; mi_data : IData; mi_refs : nat }.

Abbreviation ITable := (list (option MInode)).

Definition itable_new : ITable := replicate NINODE None.

Section itable.
Context {S : Type} `{BlockStore S} (sb : SuperBlock) (now : Z).
Implicit Types (t : ITable) (s : S).
Abbreviation FM := (M Error (S * ITable)).

Definition is_inode (dev inum : Z) (e : option MInode) : Prop :=
  match e with Some mi => mi_dev mi = dev ∧ mi_inum mi = inum | None => False end.
Global Instance is_inode_dec dev inum e : Decision (is_inode dev inum e).
Proof. destruct e; simpl; apply _. Defined.

(** The first entry for the inode, and the first free entry. *)
Definition itable_find (dev inum : Z) t : option nat := fst <$> list_find (is_inode dev inum) t.
Definition itable_empty t : option nat := fst <$> list_find (λ e, e = None) t.

Definition set_refs (n : nat) (mi : MInode) : MInode := mkMInode (mi_dev mi) (mi_inum mi) (mi_data mi) n.
Definition set_data (d : IData) (mi : MInode) : MInode := mkMInode (mi_dev mi) (mi_inum mi) d (mi_refs mi).

(** [Arc::clone] of a handle. *)
Definition iclone (i : nat) : FM nat := λ '(s, t),
  match t !! i with
  | Some (Some mi) => (Ok i, (s, <[i := Some (set_refs (Datatypes.S (mi_refs mi)) mi)]> t))
  | _ => (Panic, (s, t))
  end.

(** [ITable::get]. *)
Definition iget (dev inum : Z) : FM nat := λ '(s, t),
  match itable_find dev inum t with
  | Some i => iclone i (s, t)
  | None =>
      match itable_empty t with
      | None => (Err FileTableOverflow, (s, t))
      | Some i => (Ok i, (s, <[i := Some (mkMInode dev inum (idata_new dev inum) 1)]> t))
      end
  end.

(** Run a method on the data of a locked inode. *)
Definition with_inode {A} (i : nat) (m : M Error (S * IData) A) : FM A := λ '(s, t),
  match t !! i with
  | Some (Some mi) =>
      let '(r, (s', d)) := m (s, mi_data mi) in (r, (s', <[i := Some (set_data d mi)]> t))
  | _ => (Panic, (s, t))
  end.

(** [MInode::lock] through a handle. *)
Definition lock (i : nat) : FM () := λ '(s, t),
  match t !! i with
  | Some (Some mi) => with_inode i (ilock sb (mi_dev mi) (mi_inum mi)) (s, t)
  | _ => (Panic, (s, t))
  end.

(** [ITable::put], the drop of a handle. *)
Definition iput (i : nat) : FM () := λ '(s, t),
  match t !! i with
  | Some (Some mi) =>
      if (mi_refs mi =? 1)%nat then
        let '(r, (s', t')) :=
          (if id_valid (mi_data mi) && (id_nlink (mi_data mi) =? 0)
           then with_inode i (_ ← trunc sb now; _ ← set_type sb FT_Empty; set_self (with_valid false)) (s, t)
           else (Ok (), (s, t))) in
        match r with
        | Ok _ => (Ok (), (s', <[i := None]> t'))
        | Err e => (Err e, (s', t'))
        | Panic => (Panic, (s', t'))
        end
      else (Ok (), (s, <[i := Some (set_refs (pred (mi_refs mi)) mi)]> t))
  | _ => (Panic, (s, t))
  end.

(** [DInode::default()]; [Major] defaults to [Invalid]. *)
Definition dinode_default : DInode := mkDInode FT_Empty MInvalid 0 0 0 (replicate 13 0) 0 0 0.
(** Assigning a whole [DInode], padding included. *)
Definition put_dinode_full (i : nat) (d : DInode) (b : block) : block :=
  write_at (DINODE_SIZE * i) (encode_dinode d ++ replicate (DINODE_SIZE - DINODE_DATA) 0) b.

(** The loop of [ITable::alloc] from [inum] on. *)
Fixpoint ialloc_from (dev : Z) (itype : FileType) (inum : Z) (count : nat) : FM nat := λ '(s, t),
  match count with
  | O => (Err StorageFull, (s, t))
  | Datatypes.S count =>
      let x := bs_read s (iblock sb inum) in
      match get_dinode (inode_index inum) x with
      | None => (Panic, (s, t))
      | Some d =>
          if bool_decide (di_itype d = FT_Empty) then
            let d := mkDInode itype MInvalid 0 0 0 (replicate 13 0) 0 0 0 in
            let '(r, s') := bs_update (iblock sb inum) (put_dinode_full (inode_index inum) d x) s in
            match r with
            | Ok _ => iget dev inum (s', t)
            | Err e => (Err e, (s', t))
            | Panic => (Panic, (s', t))
            end
          else ialloc_from dev itype (inum + 1) count (s, t)
      end
  end.

(** [ITable::alloc]. *)
Definition ialloc (dev : Z) (itype : FileType) : FM nat :=
  ialloc_from dev itype 1 (Z.to_nat (sb_ninodes sb - 1)).

(** ** The table is consistent *)

(** Entries have a handle, describe their own inode, and no two entries are
    for the same inode: every user of a file shares one copy of it. *)
Record itable_ok t : Prop := {
  it_len : length t = NINODE;
  it_refs i mi : t !! i = Some (Some mi) → (0 < mi_refs mi)%nat;
  it_own i mi : t !! i = Some (Some mi) → id_dev (mi_data mi) = mi_dev mi ∧ id_inum (mi_data mi) = mi_inum mi;
  it_unique i j mi mj : t !! i = Some (Some mi) → t !! j = Some (Some mj) →
    mi_dev mi = mi_dev mj → mi_inum mi = mi_inum mj → i = j;
}.

Lemma iclone_put i mi s t :
  t !! i = Some (Some mi) → (0 < mi_refs mi)%nat →
  ∃ t', iclone i (s, t) = (Ok i, (s, t')) ∧
    t' = <[i := Some (set_refs (Datatypes.S (mi_refs mi)) mi)]> t ∧ iput i (s, t') = (Ok (), (s, t)).
Proof.
  intros Hi Hr. eexists. unfold iclone. rewrite Hi. split; [reflexivity|]. split; [done|].
  pose proof (lookup_lt_Some _ _ _ Hi). unfold iput.
  rewrite list_lookup_insert_eq by done. simpl.
  rewrite (proj2 (Nat.eqb_neq _ 0)) by lia. rewrite list_insert_insert_eq.
  rewrite list_insert_id; [done|]. rewrite Hi. by destruct mi.
Qed.

Lemma fresh_put i dev inum s t :
  t !! i = Some None →
  iput i (s, <[i := Some (mkMInode dev inum (idata_new dev inum) 1)]> t) = (Ok (), (s, t)).
Proof.
  intros Hi. pose proof (lookup_lt_Some _ _ _ Hi). unfold iput. rewrite list_lookup_insert_eq by done. simpl.
  rewrite list_insert_insert_eq. by rewrite list_insert_id.
Qed.

Lemma itable_find_Some dev inum t i :
  itable_find dev inum t = Some i → ∃ mi, t !! i = Some (Some mi) ∧ mi_dev mi = dev ∧ mi_inum mi = inum.
Proof.
  unfold itable_find. destruct (list_find _ t) as [[j e]|] eqn:E; simpl; [intros [= ->]|done].
  apply list_find_Some in E as (Hj&Hp&_). destruct e as [mi|]; [|done]. exists mi. naive_solver.
Qed.

Lemma itable_find_None dev inum t i mi :
  itable_find dev inum t = None → t !! i = Some (Some mi) → mi_dev mi = dev → mi_inum mi = inum → False.
Proof.
  unfold itable_find. destruct (list_find _ t) eqn:E; [done|]. intros _ Hi Hd Hn.
  apply list_find_None in E. apply (Forall_lookup_1 _ _ _ _ E Hi). done.
Qed.

Lemma itable_empty_Some t i : itable_empty t = Some i → t !! i = Some None.
Proof.
  unfold itable_empty. destruct (list_find _ t) as [[j e]|] eqn:E; simpl; [intros [= ->]|done].
  apply list_find_Some in E as (Hj&Hp&_). by subst.
Qed.

Lemma itable_ok_fresh t i dev inum :
  itable_ok t → t !! i = Some None → itable_find dev inum t = None →
  itable_ok (<[i := Some (mkMInode dev inum (idata_new dev inum) 1)]> t).
Proof.
  intros [L R O U] Hi Hf. pose proof (lookup_lt_Some _ _ _ Hi) as Hlt.
  split; [by rewrite length_insert|..].
  - intros j mj Hj. apply list_lookup_insert_Some in Hj as [(->&[= <-]&_)|[_ Hj]]; [simpl; lia|by eapply R].
  - intros j mj Hj. apply list_lookup_insert_Some in Hj as [(->&[= <-]&_)|[_ Hj]]; [done|by eapply O].
  - intros j k mj mk Hj Hk Ed En. apply list_lookup_insert_Some in Hj as [(<-&[= <-]&_)|[Hji Hj]];
      apply list_lookup_insert_Some in Hk as [(<-&[= <-]&_)|[Hki Hk]]; simpl in *; try done.
    + destruct (itable_find_None _ _ _ _ _ Hf Hk); by symmetry.
    + destruct (itable_find_None _ _ _ _ _ Hf Hj); by symmetry.
    + by eapply U.
Qed.

Lemma itable_ok_refs t i mi n :
  itable_ok t → t !! i = Some (Some mi) → (0 < n)%nat → itable_ok (<[i := Some (set_refs n mi)]> t).
Proof.
  intros [L R O U] Hi Hn.
  assert (Hl : ∀ j mj, <[i := Some (set_refs n mi)]> t !! j = Some (Some mj) →
    ∃ mj', t !! j = Some (Some mj') ∧ mi_dev mj = mi_dev mj' ∧ mi_inum mj = mi_inum mj' ∧
           mi_data mj = mi_data mj' ∧ (0 < mi_refs mj)%nat).
  { intros j mj Hj. apply list_lookup_insert_Some in Hj as [(<-&[= <-]&_)|[_ Hj]]; [by exists mi|].
    exists mj. split_and!; try done. by eapply R. }
  split; [by rewrite length_insert|..].
  - intros j mj (mj'&?&?&?&?&?)%Hl. done.
  - intros j mj (mj'&Hj&->&->&->&_)%Hl. by eapply O.
  - intros j k mj mk (mj'&Hj&->&->&_&_)%Hl (mk'&Hk&->&->&_&_)%Hl. by eapply U.
Qed.
End itable.

Lemma iget_put_spec {S} `{BlockStore S} sb now (s : S) t dev inum :
  itable_ok t →
  (∃ i t' mi, iget dev inum (s, t) = (Ok i, (s, t')) ∧ itable_ok t' ∧
     t' !! i = Some (Some mi) ∧ mi_dev mi = dev ∧ mi_inum mi = inum ∧
     (∀ j, j ≠ i → t' !! j = t !! j) ∧ iput sb now i (s, t') = (Ok (), (s, t))) ∨
  (iget dev inum (s, t) = (Err FileTableOverflow, (s, t)) ∧
     ∀ i, (i < NINODE)%nat → ∃ mi, t !! i = Some (Some mi) ∧ ¬ (mi_dev mi = dev ∧ mi_inum mi = inum)).
Proof.
  intros Ht. unfold iget. destruct (itable_find dev inum t) as [i|] eqn:Ef.
  - left. destruct (itable_find_Some _ _ _ _ Ef) as (mi&Hi&Hd&Hn).
    destruct (iclone_put sb now i mi s t Hi (it_refs _ Ht _ _ Hi)) as (t'&Hc&Et&Hp).
    exists i, t', (set_refs (Datatypes.S (mi_refs mi)) mi). rewrite Et in *. split_and!; try done.
    + apply itable_ok_refs; [done|done|lia].
    + apply list_lookup_insert_eq. by eapply lookup_lt_Some.
    + intros j Hj. by rewrite list_lookup_insert_ne.
  - destruct (itable_empty t) as [i|] eqn:Ee; [left|right].
    + pose proof (itable_empty_Some _ _ Ee) as Hi.
      do 3 eexists. split; [reflexivity|]. split_and!.
      * by apply itable_ok_fresh.
      * apply list_lookup_insert_eq. by eapply lookup_lt_Some.
      * done.
      * done.
      * intros j Hj. by rewrite list_lookup_insert_ne.
      * by apply fresh_put.
    + split; [done|]. intros i Hi. rewrite <-(it_len _ Ht) in Hi.
      destruct (lookup_lt_is_Some_2 t i Hi) as [[mi|] He].
      * exists mi. split; [done|]. intros [Hd Hn]. by eapply itable_find_None.
      * exfalso. unfold itable_empty in Ee. destruct (list_find _ t) eqn:E; [done|].
        apply list_find_None in E. by apply (Forall_lookup_1 _ _ _ _ E He).
Qed.

(** The inode table.  [get] returns a handle on the one entry for the
    inode and keeps the table consistent, and dropping that handle again
    restores the table; it fails only when the inode has no entry and the
    table has no free one. *)
Theorem itable_get_put {S} `{BlockStore S} sb now (s : S) t dev inum :
  itable_ok t →
  (∃ i t' mi, iget dev inum (s, t) = (Ok i, (s, t')) ∧ itable_ok t' ∧
     t' !! i = Some (Some mi) ∧ mi_dev mi = dev ∧ mi_inum mi = inum ∧
     (∀ j, j ≠ i → t' !! j = t !! j) ∧ iput sb now i (s, t') = (Ok (), (s, t))) ∨
  (iget dev inum (s, t) = (Err FileTableOverflow, (s, t)) ∧
     ∀ i, (i < NINODE)%nat → ∃ mi, t !! i = Some (Some mi) ∧ ¬ (mi_dev mi = dev ∧ mi_inum mi = inum)).
Proof. apply iget_put_spec. Qed.

