(* ===== verification/Strs.v ===== *)
(** * Strings as bytes

    A [&str] is a list of bytes that is valid UTF-8; [utf8_valid] is the test
    of [core::str::from_utf8].  Also the slicing methods of [str] that the
    kernel uses: [trim_matches], [split_once], [rsplit_once]. *)

From stdpp Require Import base tactics numbers list.
From S2P Require Import Prelude.
Local Open Scope Z_scope.

Abbreviation str := (list Z).

Definition in_range (lo hi b : Z) : bool := (lo <=? b) && (b <=? hi).
(** A continuation byte. *)
Definition cont : Z → bool := in_range 0x80 0xBF.

(** The bytes after the first character, if it is well formed. *)
Definition utf8_char (bs : str) : option str :=
  match bs with
  | [] => None
  | b0 :: bs =>
      if in_range 0 0x7F b0 then Some bs
      else if in_range 0xC2 0xDF b0 then
        match bs with b1 :: bs => if cont b1 then Some bs else None | _ => None end
      else if in_range 0xE0 0xEF b0 then
        match bs with
        | b1 :: b2 :: bs =>
            if (if b0 =? 0xE0 then in_range 0xA0 0xBF b1
                else if b0 =? 0xED then in_range 0x80 0x9F b1 else cont b1) && cont b2
            then Some bs else None
        | _ => None
        end
      else if in_range 0xF0 0xF4 b0 then
        match bs with
        | b1 :: b2 :: b3 :: bs =>
            if (if b0 =? 0xF0 then in_range 0x90 0xBF b1
                else if b0 =? 0xF4 then in_range 0x80 0x8F b1 else cont b1) && cont b2 && cont b3
            then Some bs else None
        | _ => None
        end
      else None
  end.

Fixpoint utf8_chars (fuel : nat) (bs : str) : bool :=
  match bs, fuel with
  | [], _ => true
  | _, O => false
  | _, S fuel => match utf8_char bs with Some bs => utf8_chars fuel bs | None => false end
  end.
(** A character has at least one byte. *)
Definition utf8_valid (bs : str) : bool := utf8_chars (length bs) bs.

Lemma utf8_char_app a r b : utf8_char a = Some r → utf8_char (a ++ b) = Some (r ++ b).
Proof.
  destruct a as [|b0 a]; simpl; [done|]. case_match; [by intros [= ->]|].
  case_match; [destruct a as [|b1 a]; simpl; [done|]; case_match; [by intros [= ->]|done]|].
  case_match; [destruct a as [|b1 [|b2 a]]; simpl; [done|done|]; case_match; [by intros [= ->]|done]|].
  case_match; [|done].
  destruct a as [|b1 [|b2 [|b3 a]]]; simpl; [done..|]; case_match; [by intros [= ->]|done].
Qed.

Lemma utf8_char_length a r : utf8_char a = Some r → (length r < length a)%nat.
Proof.
  destruct a as [|b0 a]; simpl; [done|]. case_match; [intros [= ->]; lia|].
  case_match; [destruct a as [|b1 a]; simpl; [done|]; case_match; [intros [= ->]; lia|done]|].
  case_match; [destruct a as [|b1 [|b2 a]]; simpl; [done|done|]; case_match; [intros [= ->]; lia|done]|].
  case_match; [|done].
  destruct a as [|b1 [|b2 [|b3 a]]]; simpl; [done..|]; case_match; [intros [= ->]; lia|done].
Qed.

Lemma utf8_chars_fuel f1 f2 a :
  (length a ≤ f1)%nat → (length a ≤ f2)%nat → utf8_chars f1 a = utf8_chars f2 a.
Proof.
  revert f2 a. induction f1 as [|f1 IH]; intros f2 a H1 H2; (destruct a as [|b a]; [by destruct f2|]); [simpl in H1; lia|].
  destruct f2 as [|f2]; [simpl in H2; lia|]. cbn [utf8_chars].
  destruct (utf8_char (b :: a)) as [r|] eqn:E; [|done]. apply utf8_char_length in E.
  apply IH; lia.
Qed.

Lemma utf8_valid_app a b : utf8_valid a = true → utf8_valid (a ++ b) = utf8_valid b.
Proof.
  unfold utf8_valid. remember (length a) as f eqn:Hf. assert (Hle : (length a ≤ f)%nat) by lia.
  clear Hf. revert a Hle. induction f as [|f IH]; intros a Hle; (destruct a as [|x a]; [done|]); [simpl in Hle; lia|].
  cbn [utf8_chars]. destruct (utf8_char (x :: a)) as [r|] eqn:E; [|done]. intros Hr.
  pose proof (utf8_char_length _ _ E) as Hl. rewrite <-(IH r) by (done || lia).
  simpl length. cbn [app utf8_chars]. change (x :: a ++ b) with ((x :: a) ++ b). rewrite (utf8_char_app _ _ _ E).
  apply utf8_chars_fuel; rewrite !length_app; simpl in Hl; lia.
Qed.

(** Bytes below 128 are characters. *)
Lemma utf8_ascii bs : Forall (λ b, 0 ≤ b < 128) bs → utf8_valid bs = true.
Proof.
  unfold utf8_valid. induction 1 as [|b bs Hb _ IH]; [done|]. simpl.
  unfold in_range. rewrite (proj2 (Z.leb_le 0 b)), (proj2 (Z.leb_le b 127)) by lia. done.
Qed.

(** ** [trim_matches] and the splitting methods, for a one-byte character *)

Fixpoint trim_start (c : Z) (s : str) : str :=
  match s with
  | b :: s' => if b =? c then trim_start c s' else s
  | [] => []
  end.
Definition trim_end (c : Z) (s : str) : str := reverse (trim_start c (reverse s)).
Definition trim_matches (c : Z) (s : str) : str := trim_end c (trim_start c s).

(** [split_once]: before and after the first occurrence. *)
Fixpoint split_once (c : Z) (s : str) : option (str * str) :=
  match s with
  | [] => None
  | b :: s => if b =? c then Some ([], s)
              else match split_once c s with Some (x, y) => Some (b :: x, y) | None => None end
  end.
(** [rsplit_once]: before and after the last occurrence. *)
Definition rsplit_once (c : Z) (s : str) : option (str * str) :=
  match split_once c (reverse s) with Some (x, y) => Some (reverse y, reverse x) | None => None end.

Lemma trim_start_ne c s : head s ≠ Some c → trim_start c s = s.
Proof. destruct s as [|b s]; simpl; [done|]. intros Hb. rewrite (proj2 (Z.eqb_neq b c)) by (by intros ->). done. Qed.

Lemma trim_start_replicate c n s : trim_start c (replicate n c ++ s) = trim_start c s.
Proof. induction n as [|n IH]; simpl; [done|]. by rewrite Z.eqb_refl. Qed.

(** Padding is removed again. *)
Lemma trim_matches_pad c n s :
  Forall (λ b, b ≠ c) s → s ≠ [] → trim_matches c (s ++ replicate n c) = s.
Proof.
  intros Hs Hne. unfold trim_matches, trim_end.
  rewrite (trim_start_ne c (s ++ replicate n c)) by (destruct s; [done|]; apply Forall_cons in Hs as [Hz _]; simpl; by intros [= ->]).
  rewrite reverse_app, reverse_replicate, trim_start_replicate.
  rewrite trim_start_ne, reverse_involutive; [done|].
  destruct (reverse s) as [|b r] eqn:E; [done|]. simpl. intros [= ->].
  assert (Hin : c ∈ reverse s) by (rewrite E; left). apply elem_of_reverse in Hin. rewrite reverse_involutive in Hin.
  by apply (proj1 (Forall_forall _ _) Hs _ Hin).
Qed.

Lemma split_once_Some c s x y :
  split_once c s = Some (x, y) ↔ s = x ++ c :: y ∧ Forall (λ b, b ≠ c) x.
Proof.
  revert x. induction s as [|b s IH]; intros x; simpl.
  - split; [done|]. intros [H _]. by destruct x.
  - destruct (Z.eqb_spec b c) as [->|Hb].
    + split; [intros [= <- <-]; auto|]. intros [H Hx]. destruct x as [|b' x]; simplify_eq/=; [done|].
      apply Forall_cons in Hx as [? _]. done.
    + destruct (split_once c s) as [[x' y']|] eqn:E.
      * split.
        -- intros [= <- <-]. destruct (proj1 (IH x')) as [-> ?]; [done|]. split; [done|by constructor].
        -- intros [H Hx]. destruct x as [|b' x]; simplify_eq/=. apply Forall_cons in Hx as [_ Hx].
           assert (Some (x', y') = Some (x, y)) as [= -> ->] by (by apply IH). done.
      * split; [done|]. intros [H Hx]. destruct x as [|b' x]; simplify_eq/=. apply Forall_cons in Hx as [_ Hx].
        assert (None = Some (x, y)) as [=] by (by apply IH).
Qed.

Lemma split_once_None c s : split_once c s = None ↔ Forall (λ b, b ≠ c) s.
Proof.
  induction s as [|b s IH]; simpl; [split; [constructor|done]|].
  rewrite Forall_cons. destruct (Z.eqb_spec b c) as [->|Hb]; [split; [done|by intros [? _]]|].
  destruct (split_once c s) as [[x y]|]; [|naive_solver].
  split; [done|]. intros [_ H]. by apply IH in H.
Qed.
