(* ===== verification/FsDir.v ===== *)
(** * Directories

    A directory is a file of 16-byte entries.  [dirlookup], [dirlink] and
    [is_dir_empty] of [kernel/src/fs.rs], and the view of a directory as a map
    from names to inode numbers. *)

From stdpp Require Import base tactics numbers gmap list.
From S2P Require Import Prelude Params Errors Bytes Strs UserMem Log LogOps FsLayout FsBlocks FsInode FsBmap FsData FsItable.
Local Open Scope Z_scope.

(** The kernel buffer [de], at an address of its own. *)
Definition de_mem (bs : list Z) : gmap Z Z := list_to_map (zip (seqZ 0 16) bs).

Section dir.
Context {S : Type} `{BlockStore S} (sb : SuperBlock) (now : Z).
Implicit Types (s : S) (ip : IData).
Abbreviation IM := (M Error (S * IData)).
Abbreviation FM := (M Error (S * ITable)).

(** [self.read(VirtAddr::Kernel(&mut de), off, size_of::<DirEnt>())]: the new
    contents of [de]. *)
Definition read_dirent (off : Z) (de : list Z) : IM (list Z) := λ st,
  match iread sb 0 off DIRENT_SIZE (de_mem de, st) with
  | (Ok _, (mem, st)) => (flat_read mem 0 DIRENT_SIZE, st)
  | (Err e, (_, st)) => (Err e, st)
  | (Panic, (_, st)) => (Panic, st)
  end.

(** The number of entries of [(0..size).step_by(16)]. *)
Definition nentries (size : Z) : nat := Z.to_nat ((size + 15) / 16).

(** The name of an entry: [from_utf8(&de.name).unwrap().trim_matches('\0')]. *)
Definition entry_name (de : DirEnt) : Result str :=
  if utf8_valid (de_name de) then Ok (trim_matches 0 (de_name de)) else Panic.

(** The loop of [dirlookup] over [count] entries from [off] on: the inode
    number and the offset of the entry. *)
Fixpoint dir_scan (name : str) (count : nat) (off : Z) (de : list Z) : IM (option (Z * Z)) :=
  match count with
  | O => mret None
  | Datatypes.S count =>
      de ← read_dirent off de;
      let d := decode_dirent de in
      if de_inum d =? 0 then dir_scan name count (off + 16) de
      else
        match entry_name d with
        | Ok n => if bool_decide (name = n) then mret (Some (de_inum d, off))
                  else dir_scan name count (off + 16) de
        | Err e => m_err e
        | Panic => m_panic
        end
  end.

Definition zero_dirent : list Z := replicate DIRENT_SIZE 0.

(** [dirlookup] up to the table access. *)
Definition dir_find (name : str) : IM (Z * Z) :=
  ip ← self;
  if bool_decide (id_itype ip = FT_Dir) then
    r ← dir_scan name (nentries (id_size ip)) 0 zero_dirent;
    match r with Some io => mret io | None => m_err NotFound end
  else m_err NotADirectory.

(** [IData::dirlookup] on the directory with handle [d]: a handle on the inode
    found and the offset of its entry. *)
Definition dirlookup (d : nat) (name : str) : FM (nat * Z) :=
  r ← with_inode d (dir_find name);
  ip ← with_inode d self;
  i ← iget (id_dev ip) r.1;
  mret (i, r.2).

(** The search for an empty entry in [dirlink]. *)
Fixpoint find_empty (count : nat) (off : Z) (de : list Z) : IM (Z * list Z) :=
  match count with
  | O => mret (off, de)
  | Datatypes.S count =>
      de ← read_dirent off de;
      if de_inum (decode_dirent de) =? 0 then mret (off, de) else find_empty count (off + 16) de
  end.

Definition make_dirent (name : str) (inum : Z) : DirEnt :=
  let len := Nat.min (length name) DIRSIZ in
  mkDirEnt (u16 inum) (take len name ++ replicate (DIRSIZ - len) 0).

(** The second half of [dirlink]: store the entry. *)
Definition dir_store (name : str) (inum : Z) : IM () :=
  ip ← self;
  r ← find_empty (nentries (id_size ip)) 0 zero_dirent;
  _ ← iwrite sb (de_mem (encode_dirent (make_dirent name inum))) 0 r.1 DIRENT_SIZE;
  touch_mtime_ctime sb now.

(** [IData::dirlink].  The handle of an existing entry is dropped at once. *)
Definition dirlink (d : nat) (name : str) (inum : Z) : FM () := λ st,
  match dirlookup d name st with
  | (Ok r, st) => (_ ← iput sb now r.1; m_err AlreadyExists) st
  | (Err NotFound, st) => with_inode d (dir_store name inum) st
  | (Err e, st) => (Err e, st)
  | (Panic, st) => (Panic, st)
  end.

(** The loop of [is_dir_empty]; a failing read is a panic. *)
Fixpoint empty_from (count : nat) (off : Z) (de : list Z) : IM bool :=
  match count with
  | O => mret true
  | Datatypes.S count => λ st,
      match read_dirent off de st with
      | (Ok de, st) => if de_inum (decode_dirent de) =? 0 then empty_from count (off + 16) de st
                       else (Ok false, st)
      | (_, st) => (Panic, st)
      end
  end.

(** [IData::is_dir_empty]: entries from the third one on. *)
Definition is_dir_empty : IM bool :=
  ip ← self; empty_from (nentries (id_size ip - 32)) 32 zero_dirent.
End dir.

(** ** The directory as a list of entries *)

Section dir_view.
Context {S : Type} `{BlockStoreLaws S} (sb : SuperBlock) (now : Z).
Implicit Types (s : S) (ip : IData).

Definition dirent_at s ip (k : nat) : DirEnt := decode_dirent (frange s ip (16 * Z.of_nat k) 16).
Definition dirents s ip : list DirEnt := dirent_at s ip <$> seq 0 (Z.to_nat (id_size ip / 16)).

(** An entry with the name. *)
Definition matches (name : str) (de : DirEnt) : Prop :=
  de_inum de ≠ 0 ∧ trim_matches 0 (de_name de) = name.
Global Instance matches_dec name de : Decision (matches name de).
Proof. apply _. Defined.

(** The abstract lookup: position and entry of the first match. *)
Definition dir_lookup (name : str) (es : list DirEnt) : option (nat * DirEnt) := list_find (matches name) es.

Record dir_wf s ip : Prop := {
  dr_disk : disk_wf sb s;
  dr_inode : inode_wf sb s ip;
  dr_type : id_itype ip = FT_Dir;
  dr_size : id_size ip mod 16 = 0 ∧ id_size ip ≤ MAXBYTES;
  dr_names : Forall (λ de, de_inum de ≠ 0 → utf8_valid (de_name de) = true) (dirents s ip);
}.

Lemma de_mem_writable bs : length bs = 16%nat → flat_writable (de_mem bs) 0 16.
Proof.
  intros Hl i Hi. unfold de_mem.
  assert (Hin : i ∈ (zip (seqZ 0 16) bs).*1).
  { rewrite fst_zip by (rewrite length_seqZ; lia). apply elem_of_seqZ. lia. }
  apply list_elem_of_fmap in Hin as ([k v]&->&Hin). exists v. cbn [fst].
  apply elem_of_list_to_map_1; [|done]. rewrite fst_zip by (rewrite length_seqZ; lia). apply NoDup_seqZ.
Qed.

Lemma nentries_eq ip : 0 ≤ id_size ip → id_size ip mod 16 = 0 → nentries (id_size ip) = Z.to_nat (id_size ip / 16).
Proof.
  intros H1 H2. unfold nentries. f_equal. pose proof (Z.div_mod (id_size ip) 16).
  symmetry. apply (Z.div_unique _ _ _ 15); lia.
Qed.

(** Reading entry [k] of a well-formed directory gives its bytes. *)
Lemma read_dirent_spec s ip k de :
  dir_wf s ip → length de = 16%nat → (k < Z.to_nat (id_size ip / 16))%nat →
  read_dirent sb (16 * Z.of_nat k) de (s, ip) = (Ok (frange s ip (16 * Z.of_nat k) 16), (s, ip)).
Proof.
  intros [Hd Hw Ht [Hm Hmax] _] Hde Hk. pose proof (di_size_ok _ (iw_dinode _ _ _ Hw)) as Hsz. simpl in Hsz.
  assert (Hin : 16 * Z.of_nat k + 16 ≤ id_size ip).
  { pose proof (Z.div_mod (id_size ip) 16). lia. }
  destruct (iread_spec sb s ip (de_mem de) 0 (16 * Z.of_nat k) DIRENT_SIZE) as (mem'&Hrun&Hdel);
    try done; [lia|unfold USIZE_MAX, MAXBYTES, DIRENT_SIZE in *; lia|by apply de_mem_writable|].
  unfold read_dirent. rewrite Hrun.
  replace (DIRENT_SIZE `min` Z.to_nat (id_size ip - 16 * Z.of_nat k))%nat with 16%nat in Hdel
    by (unfold DIRENT_SIZE; lia).
  destruct Hdel as [[? _]|[Hc _]]; [lia|]. rewrite length_frange in Hc.
  change (flat_read mem' 0 16 = Ok (frange s ip (16 * Z.of_nat k) 16)) in Hc. by rewrite <-Hc.
Qed.

Lemma lookup_dirents s ip k :
  (k < Z.to_nat (id_size ip / 16))%nat → dirents s ip !! k = Some (dirent_at s ip k).
Proof. intros Hk. unfold dirents. by rewrite list_lookup_fmap, lookup_seq_lt. Qed.

Lemma length_dirents s ip : length (dirents s ip) = Z.to_nat (id_size ip / 16).
Proof. unfold dirents. by rewrite length_fmap, length_seq. Qed.

Lemma drop_dirents s ip k :
  (k < Z.to_nat (id_size ip / 16))%nat →
  drop k (dirents s ip) = dirent_at s ip k :: drop (Datatypes.S k) (dirents s ip).
Proof. intros Hk. by apply drop_S, lookup_dirents. Qed.

Abbreviation found k r := ((λ '(i, de), (de_inum de, 16 * Z.of_nat (k + i))) <$> r).

(** The scan computes the abstract lookup. *)
Lemma dir_scan_spec s ip name count k de :
  dir_wf s ip → length de = 16%nat → (k + count = Z.to_nat (id_size ip / 16))%nat →
  dir_scan sb name count (16 * Z.of_nat k) de (s, ip)
  = (Ok (found k (dir_lookup name (drop k (dirents s ip)))), (s, ip)).
Proof.
  intros Hwf. revert k de. induction count as [|count IH]; intros k de Hde Hk.
  - rewrite drop_ge by (rewrite length_dirents; lia). done.
  - rewrite drop_dirents by lia. cbn [dir_scan]. unfold mbind, M_bind.
    rewrite read_dirent_spec by (done || lia). fold (dirent_at s ip k).
    replace (16 * Z.of_nat k + 16) with (16 * Z.of_nat (Datatypes.S k)) by lia.
    assert (Hrec : ∀ m, dir_scan sb name count (16 * Z.of_nat (Datatypes.S k)) (frange s ip (16 * Z.of_nat k) 16) (s, ip) = m →
      ¬ matches name (dirent_at s ip k) →
      m = (Ok (found k (dir_lookup name (dirent_at s ip k :: drop (Datatypes.S k) (dirents s ip)))), (s, ip))).
    { intros m <- Hn. rewrite IH by (rewrite ?length_frange; lia). unfold dir_lookup. cbn [list_find].
      rewrite decide_False by done. destruct (list_find _ _) as [[i e]|]; simpl; [|done].
      do 4 f_equal. lia. }
    cbv zeta. destruct (Z.eqb_spec (de_inum (dirent_at s ip k)) 0) as [E|E].
    { by apply Hrec; [|intros [? _]]. }
    unfold entry_name. rewrite (Forall_lookup_1 _ _ _ _ (dr_names _ _ Hwf) (lookup_dirents s ip k ltac:(lia))) by done.
    case_bool_decide as En.
    + unfold dir_lookup. cbn [list_find]. rewrite decide_True by done. simpl. rewrite Nat.add_0_r. done.
    + apply Hrec; [done|]. intros [_ E2]. by rewrite E2 in En.
Qed.

(** [dirlookup] finds the first entry of the name. *)
Lemma dir_find_spec s ip name :
  dir_wf s ip →
  dir_find sb name (s, ip)
  = (match dir_lookup name (dirents s ip) with
     | Some (i, de) => Ok (de_inum de, 16 * Z.of_nat i)
     | None => Err NotFound
     end, (s, ip)).
Proof.
  intros Hwf. pose proof Hwf as [Hd Hw Ht [Hm Hmax] _].
  pose proof (di_size_ok _ (iw_dinode _ _ _ Hw)) as Hsz. simpl in Hsz.
  unfold dir_find, mbind, M_bind. simpl self. cbv beta iota. rewrite bool_decide_eq_true_2 by done.
  rewrite nentries_eq by (done || lia).
  pose proof (dir_scan_spec s ip name (Z.to_nat (id_size ip / 16)) 0 zero_dirent Hwf eq_refl) as Hs.
  change (16 * Z.of_nat 0) with 0 in Hs. rewrite Hs by lia. rewrite drop_0. by destruct (dir_lookup name (dirents s ip)) as [[i de]|].
Qed.

(** The first free entry, or the end of the directory. *)
Definition free_index (es : list DirEnt) : nat :=
  match list_find (λ de, de_inum de = 0) es with Some (i, _) => i | None => length es end.

Lemma find_empty_spec s ip count k de :
  dir_wf s ip → length de = 16%nat → (k + count = Z.to_nat (id_size ip / 16))%nat →
  ∃ de', find_empty sb count (16 * Z.of_nat k) de (s, ip)
    = (Ok (16 * Z.of_nat (k + free_index (drop k (dirents s ip))), de'), (s, ip)).
Proof.
  intros Hwf. revert k de. induction count as [|count IH]; intros k de Hde Hk.
  - exists de. rewrite drop_ge by (rewrite length_dirents; lia). simpl. by rewrite Nat.add_0_r.
  - rewrite drop_dirents by lia. cbn [find_empty]. unfold mbind, M_bind.
    rewrite read_dirent_spec by (done || lia). fold (dirent_at s ip k).
    unfold free_index. cbn [list_find]. destruct (Z.eqb_spec (de_inum (dirent_at s ip k)) 0) as [E|E].
    + rewrite decide_True by done. eexists. by rewrite Nat.add_0_r.
    + rewrite decide_False by done. destruct (IH (Datatypes.S k) (frange s ip (16 * Z.of_nat k) 16)) as [de' Hrun].
      { apply length_frange. }
      { lia. }
      exists de'. replace (16 * Z.of_nat k + 16) with (16 * Z.of_nat (Datatypes.S k)) by lia. rewrite Hrun.
      unfold free_index. destruct (list_find _ _) as [[i e]|]; simpl; do 3 f_equal; lia.
Qed.

(** ** Storing an entry *)

Lemma flat_read_lookup (m : gmap Z Z) a bs :
  (∀ i, (i < length bs)%nat → m !! (a + Z.of_nat i) = bs !! i) → flat_read m a (length bs) = Ok bs.
Proof.
  revert a. induction bs as [|b bs IH]; intros a Hm; simpl; [done|].
  pose proof (Hm 0%nat ltac:(simpl; lia)) as Hz. rewrite Z.add_0_r in Hz. rewrite Hz. simpl.
  rewrite IH; [done|]. intros i Hi. change (bs !! i) with ((b :: bs) !! Datatypes.S i).
  rewrite <-Hm by (simpl; lia). f_equal. lia.
Qed.

Lemma de_mem_read bs : length bs = 16%nat → flat_read (de_mem bs) 0 16 = Ok bs.
Proof.
  intros Hl. rewrite <-Hl. apply flat_read_lookup. intros i Hi. unfold de_mem.
  destruct (lookup_lt_is_Some_2 bs i Hi) as [v Hv]. rewrite Hv.
  apply elem_of_list_to_map_1; [rewrite fst_zip by (rewrite length_seqZ; lia); apply NoDup_seqZ|].
  apply list_elem_of_lookup. exists i. apply lookup_zip_with_Some. exists (0 + Z.of_nat i), v.
  split; [done|]. split; [|done]. apply lookup_seqZ. lia.
Qed.

(** A name that can be stored. *)
Definition name_ok (name : str) : Prop :=
  name ≠ [] ∧ (length name ≤ DIRSIZ)%nat ∧ Forall (λ b, b ≠ 0) name ∧ utf8_valid name = true.

Lemma make_dirent_ok name inum :
  name_ok name → 0 < inum < 2 ^ 16 →
  de_inum (make_dirent name inum) = inum ∧ length (de_name (make_dirent name inum)) = DIRSIZ ∧
  trim_matches 0 (de_name (make_dirent name inum)) = name ∧
  utf8_valid (de_name (make_dirent name inum)) = true.
Proof.
  intros (Hne&Hl&Hz&Hu) Hi. unfold make_dirent. rewrite Nat.min_l by done. cbn [de_inum de_name].
  rewrite firstn_all. split_and!.
  - unfold u16. apply wrap_small. lia.
  - rewrite length_app, length_replicate. lia.
  - by apply trim_matches_pad.
  - rewrite utf8_valid_app by done. apply utf8_ascii, Forall_replicate. lia.
Qed.

Definition add_entry (de : DirEnt) (es : list DirEnt) : list DirEnt :=
  let i := free_index es in if (i <? length es)%nat then <[i := de]> es else es ++ [de].

Lemma free_index_le es : (free_index es ≤ length es)%nat.
Proof.
  unfold free_index. destruct (list_find _ es) as [[i e]|] eqn:E; [|lia].
  apply list_find_Some in E as (Hi&_). apply lookup_lt_Some in Hi. lia.
Qed.

Lemma passes_dirent k : passes (16 * Z.of_nat k) 16 = 1%nat.
Proof.
  unfold passes, block_offset, BSZ. simpl.
  assert (Hb : 0 ≤ 16 * Z.of_nat k mod 1024 ≤ 1008).
  { pose proof (Z.mod_pos_bound (16 * Z.of_nat k) 1024). pose proof (Z.div_mod (16 * Z.of_nat k) 1024).
    assert ((16 * Z.of_nat k) mod 1024 = 16 * ((Z.of_nat k) mod 64)).
    { change 1024 with (16 * 64). apply Z.mul_mod_distr_l; lia. }
    pose proof (Z.mod_pos_bound (Z.of_nat k) 64). lia. }
  symmetry. apply (Nat.div_unique _ 1024 1 (Z.to_nat (16 * Z.of_nat k mod 1024) + 15)); lia.
Qed.

(** The bytes of entry [i] were overwritten with [bs]. *)
Definition overwritten s ip s' ip' (i : nat) (bs : list Z) : Prop :=
  ∀ o, 0 ≤ o < MAXBYTES →
    fbyte s' ip' o = if decide (16 * Z.of_nat i ≤ o < 16 * Z.of_nat i + 16) then bs !!! Z.to_nat (o - 16 * Z.of_nat i)
                     else fbyte s ip o.

Lemma dirent_at_store s ip s' ip' bs i k :
  length bs = 16%nat → overwritten s ip s' ip' i bs → 16 * Z.of_nat k + 16 ≤ MAXBYTES →
  dirent_at s' ip' k = if decide (k = i) then decode_dirent bs else dirent_at s ip k.
Proof.
  intros Hb Hby Hk. unfold dirent_at. case_decide as E; f_equal; [subst k|].
  - apply (list_eq_same_length _ _ 16); [done|apply length_frange|].
    intros j x y Hj Hx Hy. rewrite lookup_frange in Hx by done. injection Hx as <-.
    rewrite Hby, decide_True by lia. apply list_lookup_total_correct. rewrite <-Hy. f_equal. lia.
  - apply (list_eq_same_length _ _ 16); [apply length_frange|apply length_frange|].
    intros j x y Hj Hx Hy. rewrite lookup_frange in Hx, Hy by done. simplify_eq.
    rewrite Hby, decide_False by lia. done.
Qed.

Lemma dirents_store s ip s' ip' bs i :
  id_size ip mod 16 = 0 → 0 ≤ id_size ip → length bs = 16%nat → (i ≤ length (dirents s ip))%nat →
  16 * Z.of_nat i + 16 ≤ MAXBYTES → id_size ip ≤ MAXBYTES →
  id_size ip' = Z.max (id_size ip) (16 * Z.of_nat i + 16) → overwritten s ip s' ip' i bs →
  dirents s' ip' = if (i <? length (dirents s ip))%nat then <[i := decode_dirent bs]> (dirents s ip)
                   else dirents s ip ++ [decode_dirent bs].
Proof.
  intros Hm Hpos Hb Hi Hmx Hmx2 Hsz Hby. rewrite length_dirents in *.
  pose proof (Z.div_mod (id_size ip) 16) as Hdm. rewrite Hm in Hdm.
  set (len := Z.to_nat (id_size ip / 16)) in *.
  assert (Hlen : id_size ip = 16 * Z.of_nat len) by (subst len; pose proof (Z.div_pos (id_size ip) 16); lia).
  apply list_eq_same_length with (n := Z.to_nat (id_size ip' / 16)); [|apply length_dirents|].
  { rewrite Hsz, Hlen. destruct (Nat.ltb_spec i len).
    - rewrite length_insert, length_dirents. fold len.
      rewrite Z.max_l, Z.mul_comm, Z.div_mul by lia. lia.
    - assert (i = len) as -> by lia. rewrite length_app, length_dirents. fold len. simpl.
      rewrite Z.max_r by lia. replace (16 * Z.of_nat len + 16) with ((Z.of_nat len + 1) * 16) by lia.
      rewrite Z.div_mul by lia. lia. }
  intros k x y Hk Hx Hy. rewrite lookup_dirents in Hx by done. injection Hx as <-.
  assert (Hkm : 16 * Z.of_nat k + 16 ≤ id_size ip').
  { pose proof (Z.mul_div_le (id_size ip') 16). lia. }
  rewrite (dirent_at_store s ip s' ip' bs i) by (done || lia). destruct (Nat.ltb_spec i len).
  - apply list_lookup_insert_Some in Hy as [(<-&<-&_)|[Hne Hy]]; [by rewrite decide_True|].
    rewrite decide_False by done. pose proof (lookup_lt_Some _ _ _ Hy) as Hlt.
    rewrite length_dirents in Hlt. rewrite lookup_dirents in Hy by done. congruence.
  - assert (i = len) as -> by lia. apply lookup_app_Some in Hy as [Hy|[Hge Hy]].
    + pose proof (lookup_lt_Some _ _ _ Hy) as Hlt. rewrite length_dirents in Hlt. fold len in Hlt.
      rewrite decide_False by lia. rewrite lookup_dirents in Hy by done. congruence.
    + rewrite length_dirents in Hy, Hge. fold len in Hy, Hge. apply list_lookup_singleton_Some in Hy as [Hz <-].
      by rewrite decide_True by lia.
Qed.

(** ** Lookup after adding an entry *)

Lemma list_find_insert_irrel {A} (P : A → Prop) `{!∀ x, Decision (P x)} l i x y :
  l !! i = Some y → ¬ P y → ¬ P x → list_find P (<[i := x]> l) = list_find P l.
Proof.
  revert i. induction l as [|z l IH]; intros i Hi Hy Hx; [done|]. destruct i as [|i]; simpl in *.
  - injection Hi as ->. by rewrite !decide_False by done.
  - by rewrite (IH i).
Qed.

Lemma list_find_insert_new {A} (P : A → Prop) `{!∀ x, Decision (P x)} l i x :
  (i < length l)%nat → list_find P l = None → P x → list_find P (<[i := x]> l) = Some (i, x).
Proof.
  intros Hi Hn Hx. apply list_find_Some. split_and!.
  - by apply list_lookup_insert_eq.
  - done.
  - intros j z Hj Hlt. rewrite list_lookup_insert_ne in Hj by lia.
    apply list_find_None in Hn. by apply (Forall_lookup_1 _ _ _ _ Hn Hj).
Qed.

Lemma list_find_snoc {A} (P : A → Prop) `{!∀ x, Decision (P x)} l x :
  list_find P (l ++ [x])
  = match list_find P l with
    | Some r => Some r
    | None => if decide (P x) then Some (length l, x) else None
    end.
Proof.
  induction l as [|y l IH]; simpl; [by case_decide|]. destruct (decide (P y)); [done|]. rewrite IH.
  destruct (list_find P l) as [[i z]|]; simpl; [done|]. by case_decide.
Qed.

Lemma free_index_empty es e : es !! free_index es = Some e → de_inum e = 0.
Proof.
  unfold free_index. destruct (list_find _ es) as [[i e']|] eqn:E.
  - apply list_find_Some in E as (Hi&Hz&_). intros Hi2. congruence.
  - intros He%lookup_lt_Some. lia.
Qed.

Lemma lookup_add_new name de es :
  dir_lookup name es = None → matches name de → dir_lookup name (add_entry de es) = Some (free_index es, de).
Proof.
  intros Hn Hm. unfold add_entry, dir_lookup in *. pose proof (free_index_le es).
  destruct (Nat.ltb_spec (free_index es) (length es)).
  - by apply list_find_insert_new.
  - rewrite list_find_snoc, Hn, decide_True by done. do 2 f_equal. lia.
Qed.

Lemma lookup_add_other name de es :
  ¬ matches name de → dir_lookup name (add_entry de es) = dir_lookup name es.
Proof.
  intros Hm. unfold add_entry, dir_lookup in *. destruct (Nat.ltb_spec (free_index es) (length es)) as [Hlt|].
  - destruct (lookup_lt_is_Some_2 es _ Hlt) as [e He]. apply (list_find_insert_irrel _ _ _ _ e); try done.
    intros [Hz _]. apply Hz. by eapply free_index_empty.
  - rewrite list_find_snoc. destruct (list_find _ es); [done|]. by rewrite decide_False.
Qed.

Lemma add_entry_Forall (P : DirEnt → Prop) de es : Forall P es → P de → Forall P (add_entry de es).
Proof.
  intros Hes Hde. unfold add_entry. case_match; [by apply Forall_insert|]. apply Forall_app. auto.
Qed.

(** [dirlink] past the check for the name: the entry is added. *)
Lemma dir_store_spec s ip name inum n :
  dir_wf s ip → name_ok name → 0 < inum < 2 ^ 16 → 0 ≤ now < 2 ^ 64 → id_size ip + 16 ≤ MAXBYTES →
  bs_room s (12 + n) → (3 ≤ nfree sb s)%nat →
  ∃ s' ip', dir_store sb now name inum (s, ip) = (Ok (), (s', ip')) ∧ bs_room s' n ∧ dir_wf s' ip' ∧
    dirents s' ip' = add_entry (make_dirent name inum) (dirents s ip).
Proof.
  intros Hwf Hname Hinum Hnow Hmax Hr Hf. pose proof Hwf as [Hd Hw Ht [Hm Hmx] Hnames].
  pose proof (di_size_ok _ (iw_dinode _ _ _ Hw)) as Hsz. simpl in Hsz.
  destruct (make_dirent_ok name inum Hname Hinum) as (Ei&El&Et&Eu).
  set (de := make_dirent name inum) in *. set (i := free_index (dirents s ip)).
  assert (Hi : (i ≤ Z.to_nat (id_size ip / 16))%nat) by (rewrite <-(length_dirents s); apply free_index_le).
  assert (Hi16 : 16 * Z.of_nat i ≤ id_size ip).
  { pose proof (Z.mul_div_le (id_size ip) 16). pose proof (Z.div_pos (id_size ip) 16). lia. }
  destruct (find_empty_spec s ip (Z.to_nat (id_size ip / 16)) 0 zero_dirent Hwf eq_refl) as [de' Hfe]; [lia|].
  change (16 * Z.of_nat 0) with 0 in Hfe. rewrite drop_0, Nat.add_0_l in Hfe. fold i in Hfe.
  destruct (iwrite_spec sb s ip (de_mem (encode_dirent de)) 0 (16 * Z.of_nat i) 16 (encode_dirent de) (1 + n) 0)
    as (s1&ip1&Hrun&Hr1&_&Hd1&Hw1&Hsz1&Hsame&Hby&_); try done; [lia|lia|..].
  { apply de_mem_read. by apply length_encode_dirent. }
  { rewrite passes_dirent. done. }
  { rewrite passes_dirent. lia. }
  change (Z.of_nat 16) with 16 in *.
  set (ip2 := with_times (id_atime ip1) now now ip1).
  destruct (update_meta_spec sb s1 ip1 ip2 n) as (s2&Hrun2&Hr2&Hd2&Hw2&Hdata&Htree&Hz&_); try done.
  { destruct (iw_dinode _ _ _ Hw1); by split. }
  assert (Hov : overwritten s ip s2 ip2 i (encode_dirent de)).
  { intros o Ho. rewrite <-(Hby o Ho). by apply (fbyte_ext sb). }
  assert (Hents : dirents s2 ip2 = add_entry de (dirents s ip)).
  { unfold add_entry. fold i. rewrite <-(decode_encode_dirent de) by (done || lia).
    apply dirents_store; try done; try lia; [by apply length_encode_dirent|by rewrite length_dirents]. }
  exists s2, ip2. split_and!; [|done| |done].
  - unfold dir_store, mbind, M_bind. simpl self. cbv beta iota. rewrite nentries_eq by (done || lia).
    rewrite Hfe. cbn [fst]. unfold DIRENT_SIZE. fold de. rewrite Hrun. unfold touch_mtime_ctime, mbind, M_bind. simpl.
    fold ip2. done.
  - split; try done.
    + subst ip2. rewrite Hsame. done.
    + change (id_size ip2) with (id_size ip1). rewrite Hsz1. split; [|lia].
      destruct (Z.max_spec (id_size ip) (16 * Z.of_nat i + 16)) as [[_ ->]|[_ ->]]; [|done].
      rewrite Z.mul_comm, Z.add_comm, Z.mod_add by lia. done.
    + rewrite Hents. by apply add_entry_Forall.
Qed.
End dir_view.

(** C12: directories are maps from names to inodes.  [dirlink] of a name that is
    present fails and changes nothing.  Of a name that is absent it succeeds,
    if the transaction and the disk have room: the directory is well formed
    again, looking the name up finds the inode, and every other name is found
    or missing as before. *)
Theorem dirlink_correct {S} `{BlockStoreLaws S} sb now (s : S) t d mi name inum n :
  itable_ok t → t !! d = Some (Some mi) → dir_wf sb s (mi_data mi) →
  name_ok name → 0 < inum < 2 ^ 16 → 0 ≤ now < 2 ^ 64 → id_size (mi_data mi) + 16 ≤ MAXBYTES →
  bs_room s (12 + n) → (3 ≤ nfree sb s)%nat →
  match dir_lookup name (dirents s (mi_data mi)) with
  | Some _ => ∃ e, (e = AlreadyExists ∨ e = FileTableOverflow) ∧
      dirlink sb now d name inum (s, t) = (Err e, (s, t))
  | None => ∃ s' ip' off, dirlink sb now d name inum (s, t) = (Ok (), (s', <[d := Some (set_data ip' mi)]> t)) ∧
      dir_wf sb s' ip' ∧ dir_find sb name (s', ip') = (Ok (inum, off), (s', ip')) ∧
      ∀ other, other ≠ name → (dir_find sb other (s', ip')).1 = (dir_find sb other (s, mi_data mi)).1
  end.
Proof.
  intros Ht Hd Hwf Hname Hinum Hnow Hmax Hr Hf.
  assert (Hid : <[d := Some (set_data (mi_data mi) mi)]> t = t).
  { apply list_insert_id. rewrite Hd. by destruct mi. }
  pose proof (dir_find_spec sb s (mi_data mi) name Hwf) as Hfind.
  destruct (dir_lookup name (dirents s (mi_data mi))) as [[k e]|] eqn:El.
  - unfold dirlink, dirlookup, mbind, M_bind, with_inode at 1. rewrite Hd, Hfind. cbn [fst snd]. rewrite Hid.
    unfold with_inode. rewrite Hd. cbn [self fst snd]. rewrite Hid.
    destruct (iget_put_spec sb now s t (id_dev (mi_data mi)) (de_inum e) Ht)
      as [(i&t'&mi'&Hg&_&_&_&_&_&Hp)|[Hg _]]; rewrite Hg; [|by eauto].
    cbn [fst snd]. unfold mret, M_ret. cbn [fst snd]. rewrite Hp. exists AlreadyExists. auto.
  - destruct (dir_store_spec sb now s (mi_data mi) name inum n) as (s'&ip'&Hrun&_&Hwf'&Hents); try done.
    destruct (make_dirent_ok name inum Hname Hinum) as (Ei&_&Et&_).
    exists s', ip', (16 * Z.of_nat (free_index (dirents s (mi_data mi)))). split_and!; [|done|..].
    + unfold dirlink, dirlookup, mbind, M_bind, with_inode. rewrite Hd, Hfind, Hid, Hd, Hrun. done.
    + rewrite dir_find_spec, Hents, lookup_add_new, Ei by (done || (split; [lia|done])). done.
    + intros other Hne. rewrite !dir_find_spec, Hents by done. rewrite lookup_add_other; [done|].
      intros [_ E2]. congruence.
Qed.

(** ** The root directory of the small disk *)

Definition dot_entries : list Z :=
  encode_dirent (mkDirEnt 1 (46 :: replicate 13 0)) ++ encode_dirent (mkDirEnt 1 (46 :: 46 :: replicate 12 0)).
Definition demo_root_disk : gmap Z block :=
  <[36 := dot_entries ++ replicate 992 0]> {[ 35 := [255; 255; 255; 255; 31] ++ replicate 1019 0 ]}.
Definition demo_root : IData := demo_inode_of 1 FT_Dir 32 36.
Definition demo_root_table : ITable := Some (mkMInode 1 1 demo_root 1) :: replicate 49 None.

Lemma demo_root_ok : dir_wf demo_sb demo_root_disk demo_root.
Proof.
  split.
  - apply demo_disk_wf; [|reflexivity|].
    + split.
      * intros b Hb. rewrite demo_bblock by done. reflexivity.
      * intros b Hb Hs. unfold used. rewrite demo_bblock by lia. change (datastart demo_sb) with 36 in Hb.
        assert (Hall : forallb (λ b, bit_in (bs_read demo_root_disk 35) (b mod BPB)) (seqZ 0 36) = true)
          by (vm_compute; reflexivity).
        rewrite forallb_forall in Hall. apply Hall, list_elem_of_In, elem_of_seqZ. lia.
    + intros b Hb. unfold dget, demo_root_disk. rewrite lookup_insert_ne, lookup_singleton_ne by lia. reflexivity.
  - apply demo_inode_wf; [reflexivity|lia|lia|right].
    split; [lia|]. split; vm_compute; reflexivity.
  - reflexivity.
  - split; [reflexivity|unfold MAXBYTES; simpl; lia].
  - apply (bool_decide_unpack _). vm_compute. exact I.
Qed.

Lemma demo_table_ok : itable_ok demo_root_table.
Proof.
  assert (Hone : ∀ i mi, demo_root_table !! i = Some (Some mi) → i = 0%nat ∧ mi = mkMInode 1 1 demo_root 1).
  { intros [|i] mi Hi; simpl in Hi; [by simplify_eq|].
    change (replicate 49 None !! i = Some (Some mi)) in Hi. apply lookup_replicate in Hi as [Hi _]. done. }
  split; [reflexivity|..].
  - intros i mi [-> ->]%Hone. simpl. lia.
  - by intros i mi [-> ->]%Hone.
  - intros i j mi mj [-> _]%Hone [-> _]%Hone. done.
Qed.

Lemma dirlink_correct_witness :
  ∃ s' ip' off, dirlink demo_sb 7 0 [97; 98] 5 (demo_root_disk, demo_root_table)
      = (Ok (), (s', <[0%nat := Some (set_data ip' (mkMInode 1 1 demo_root 1))]> demo_root_table)) ∧
    dir_wf demo_sb s' ip' ∧ dir_find demo_sb [97; 98] (s', ip') = (Ok (5, off), (s', ip')) ∧
    ∀ other, other ≠ [97; 98] →
      (dir_find demo_sb other (s', ip')).1 = (dir_find demo_sb other (demo_root_disk, demo_root)).1.
Proof.
  refine (dirlink_correct demo_sb 7 demo_root_disk demo_root_table 0 (mkMInode 1 1 demo_root 1) [97; 98] 5 0
    demo_table_ok eq_refl demo_root_ok _ _ _ _ I _).
  - split; [discriminate|]. split; [unfold DIRSIZ; simpl; lia|]. split; [|reflexivity].
    repeat constructor; lia.
  - lia.
  - lia.
  - unfold MAXBYTES; simpl; lia.
  - apply Nat.leb_le. vm_compute. reflexivity.
Defined.
