(* ===== verification/FsPath.v ===== *)
(** * Path names

    [Path::skip_elem], [Path::file_name] and [Path::namex] of
    [kernel/src/fs.rs], and the operations on names built on them: [link],
    [symlink], [unlink] and [create].  A handle that goes out of scope in the
    source is dropped ([iput]) here. *)

From stdpp Require Import base tactics numbers gmap list.
From S2P Require Import Prelude Params Errors Bytes Strs UserMem Log LogOps FsLayout FsBlocks FsInode FsBmap FsData FsItable FsDir.
Local Open Scope Z_scope.

Definition SLASH : Z := 47.
Definition SYMLINK_MAX_DEPTH : nat := 10.

(** [Path::file_name]. *)
Definition ends_with_dots (p : str) : bool :=
  match reverse p with 46 :: 46 :: _ => true | _ => false end.
Definition file_name (p : str) : option str :=
  if ends_with_dots p then None
  else match rsplit_once SLASH p with Some (_, f) => Some f | None => Some p end.

(** [Path::skip_elem]. *)
Definition skip_elem (p : str) : option str * option str :=
  let t := trim_matches SLASH p in
  match split_once SLASH t with
  | Some (name, path) => if (length name <=? DIRSIZ)%nat then (Some name, Some path) else (None, None)
  | None => if negb (bool_decide (t = [])) && (length t <? DIRSIZ)%nat then (Some t, None) else (None, None)
  end.

(** The name [namex] returns. *)
Definition orig_name (p : str) : str :=
  let t := trim_matches SLASH p in
  if bool_decide (t = []) then [SLASH]
  else match rsplit_once SLASH t with Some (_, name) => name | None => t end.

Definition starts_with_slash (p : str) : bool := bool_decide (head p = Some SLASH).
Definition ends_with_slash (p : str) : bool := bool_decide (last p = Some SLASH).

Section names.
Context {S : Type} `{BlockStore S} (sb : SuperBlock) (now : Z).
(** The handle of the caller's working directory. *)
Context (cwd : nat).
Abbreviation FM := (M Error (S * ITable)).

(** Run [c], the drops of a scope, if [m] fails. *)
Definition on_err {A} (m : FM A) (c : FM ()) : FM A := λ st,
  match m st with
  | (Err e, st) => match c st with (Panic, st) => (Panic, st) | (_, st) => (Err e, st) end
  | r => r
  end.

Abbreviation drop_ := (iput sb now).
Definition idata (i : nat) : FM IData := with_inode i self.

(** The buffer [target_buf] and its contents after the read. *)
Definition link_mem : gmap Z Z := list_to_map (zip (seqZ 0 128) (replicate 128 0)).

(** Reading the target of the symbolic link [nip]. *)
Definition read_link (nip : nat) (depth : nat) : FM str :=
  if (SYMLINK_MAX_DEPTH <=? depth)%nat then m_err TooManyLinks
  else
    ip ← idata nip;
    let len := id_size ip in
    if (len =? 0) || (len >? Z.of_nat MAXPATH) then m_err InvalidArgument
    else
      bs ← with_inode nip (λ st,
             match iread sb 0 0 (Z.to_nat len) (link_mem, st) with
             | (Ok n, (mem, st)) => (flat_read mem 0 n, st)
             | (Err e, (_, st)) => (Err e, st)
             | (Panic, (_, st)) => (Panic, st)
             end);
      if utf8_valid bs then mret bs else m_err Utf8Error.

(** What a pass of the loop of [namex] ends in: the result, or the path, the
    directory and the number of links to go on with. *)
Inductive name_step := Found (name : str) (ip : nat) | Walk (path : str) (ip : nat) (depth : nat).

(** Following a symbolic link [nip] found in [ip]. *)
Definition follow (nip ip : nat) (depth : nat) (rest : str → str) : FM name_step :=
  t ← on_err (read_link nip depth) (_ ← drop_ nip; drop_ ip);
  let path := rest t in
  ip' ← (if starts_with_slash path then
           root ← on_err (iget ROOTDEV ROOTINO) (_ ← drop_ nip; drop_ ip);
           _ ← drop_ ip; mret root
         else mret ip);
  _ ← drop_ nip;
  mret (Walk path ip' (Datatypes.S depth)).

(** One pass of the loop of [namex]. *)
Definition namex_step (orig : str) (parent : bool) (path : str) (ip : nat) (depth : nat) : FM name_step :=
  _ ← lock sb ip;
  g ← idata ip;
  if negb (bool_decide (id_itype g = FT_Dir)) then _ ← drop_ ip; m_err NotADirectory
  else
    match skip_elem path with
    | (Some name, Some npath) =>
        r ← on_err (dirlookup sb ip name) (drop_ ip);
        let nip := r.1 in
        _ ← lock sb nip;
        ng ← idata nip;
        if bool_decide (id_itype ng = FT_Symlink) then
          follow nip ip depth (λ t, (if ends_with_slash t then t else t ++ [SLASH]) ++ npath)
        else _ ← drop_ ip; mret (Walk npath nip depth)
    | (Some name, None) =>
        if parent then mret (Found orig ip)
        else
          r ← on_err (dirlookup sb ip name) (drop_ ip);
          let nip := r.1 in
          _ ← lock sb nip;
          ng ← idata nip;
          if bool_decide (id_itype ng = FT_Symlink) then follow nip ip depth (λ t, t)
          else _ ← drop_ ip; mret (Found orig nip)
    | _ => if bool_decide (path = [SLASH]) then mret (Found [SLASH] ip)
           else _ ← drop_ ip; m_err NotFound
    end.

(** The loop; [None] is running out of fuel. *)
Fixpoint namex_loop (fuel : nat) (orig : str) (parent : bool) (path : str) (ip depth : nat)
    (st : S * ITable) : option (Result (str * nat) * (S * ITable)) :=
  match fuel with
  | O => None
  | Datatypes.S fuel =>
      match namex_step orig parent path ip depth st with
      | (Ok (Found name i), st) => Some (Ok (name, i), st)
      | (Ok (Walk path ip depth), st) => namex_loop fuel orig parent path ip depth st
      | (Err e, st) => Some (Err e, st)
      | (Panic, st) => Some (Panic, st)
      end
  end.

(** Every pass uses up a byte of the path or one of the ten links, and a link
    adds at most [MAXPATH + 1] bytes. *)
Definition namex_fuel (path : str) : nat := (length path + SYMLINK_MAX_DEPTH * 130 + 1)%nat.

Definition namex_from (path : str) (parent : bool) (ip : nat) : FM (str * nat) := λ st,
  match namex_loop (namex_fuel path) (orig_name path) parent path ip 0 st with
  | Some r => r
  | None => (Panic, st)
  end.

(** [Path::namex]. *)
Definition namex (path : str) (parent : bool) : FM (str * nat) :=
  ip ← (if starts_with_slash path then iget ROOTDEV ROOTINO else iclone cwd);
  namex_from path parent ip.
Definition namei (path : str) : FM (str * nat) := namex path false.
Definition nameiparent (path : str) : FM (str * nat) := namex path true.

(** [link]. *)
Definition link (old new : str) : FM () :=
  r ← namei old;
  let ip := r.2 in
  _ ← lock sb ip;
  g ← idata ip;
  if bool_decide (id_itype g = FT_Dir) then _ ← drop_ ip; m_err IsADirectory
  else
    r ← on_err (nameiparent new) (drop_ ip);
    let '(name, dp) := r in
    _ ← lock sb dp;
    d ← idata dp;
    if negb (id_dev d =? id_dev g) then _ ← drop_ dp; _ ← drop_ ip; m_err CrossesDevices
    else
      _ ← on_err (dirlink sb now dp name (id_inum g)) (_ ← drop_ dp; drop_ ip);
      _ ← lock sb ip;
      g ← idata ip;
      if id_nlink g + 1 <? 2 ^ 16 then
        _ ← with_inode ip (_ ← set_self (with_nlink (id_nlink g + 1)); update sb);
        _ ← drop_ dp; drop_ ip
      else m_panic.

(** [create] when the name exists with inode [ip]. *)
Definition create_existing (ty : FileType) (dp ip : nat) : FM nat :=
  _ ← lock sb ip;
  g ← idata ip;
  if bool_decide (ty = FT_File) && (bool_decide (id_itype g = FT_File) || bool_decide (id_itype g = FT_Device))
  then _ ← drop_ dp; mret ip
  else _ ← drop_ ip; _ ← drop_ dp; m_err AlreadyExists.

(** [create] of a new inode. *)
Definition create_new (name : str) (ty : FileType) (major minor : Z) (dp : nat) : FM nat :=
  d ← idata dp;
  ip ← on_err (ialloc sb (id_dev d) ty) (drop_ dp);
  _ ← lock sb ip;
  g ← idata ip;
  _ ← on_err
        (_ ← (if bool_decide (ty = FT_Dir) then
                _ ← dirlink sb now ip [46] (id_inum g);
                dirlink sb now ip [46; 46] (id_inum d)
              else mret ());
         dirlink sb now dp name (id_inum g))
        (_ ← drop_ ip; drop_ dp);
  _ ← (if bool_decide (ty = FT_Dir) then with_inode dp (set_nlink sb now LinkPlus) else mret ());
  _ ← with_inode ip (set_major_minor sb (major_from_u16 major) minor);
  _ ← with_inode ip (set_nlink sb now (LinkInit 1));
  _ ← with_inode ip (init_times sb now);
  _ ← drop_ dp;
  mret ip.

Definition create_in (name : str) (ty : FileType) (major minor : Z) (dp : nat) : FM nat := λ st,
  match dirlookup sb dp name st with
  | (Panic, st) => (Panic, st)
  | (Ok (ip, _), st) => create_existing ty dp ip st
  | (Err _, st) => create_new name ty major minor dp st
  end.

(** [create]: a handle on the inode of the path. *)
Definition create (path : str) (ty : FileType) (major : Z) (minor : Z) : FM nat :=
  r ← nameiparent path;
  _ ← lock sb r.2;
  create_in r.1 ty major minor r.2.

(** [symlink]. *)
Definition symlink (target linkpath : str) : FM () :=
  ip ← create linkpath FT_Symlink 0 0;
  _ ← lock sb ip;
  if bool_decide (target = []) || (MAXPATH <? length target)%nat then _ ← drop_ ip; m_err InvalidArgument
  else
    _ ← on_err (with_inode ip (iwrite sb (list_to_map (zip (seqZ 0 (Z.of_nat (length target))) target) : gmap Z Z)
                                 0 0 (length target))) (drop_ ip);
    _ ← with_inode ip (touch_mtime_ctime sb now);
    drop_ ip.

(** [unlink]. *)
Definition unlink (path : str) : FM () :=
  r ← nameiparent path;
  let '(name, dp) := r in
  _ ← lock sb dp;
  if bool_decide (name = [46]) || bool_decide (name = [46; 46]) then _ ← drop_ dp; m_err PermissionDenied
  else
    r ← on_err (dirlookup sb dp name) (drop_ dp);
    let '(ip, off) := r in
    _ ← lock sb ip;
    g ← idata ip;
    if id_nlink g <? 1 then m_panic
    else
      empty ← (if bool_decide (id_itype g = FT_Dir) then with_inode ip (is_dir_empty sb) else mret true);
      if negb empty then _ ← drop_ ip; _ ← drop_ dp; m_err DirectoryNotEmpty
      else
        _ ← on_err (with_inode dp (iwrite sb (de_mem zero_dirent) 0 off DIRENT_SIZE)) (_ ← drop_ ip; drop_ dp);
        _ ← (if bool_decide (id_itype g = FT_Dir) then with_inode dp (set_nlink sb now LinkMinus) else mret ());
        _ ← with_inode dp (touch_mtime_ctime sb now);
        _ ← with_inode ip (set_nlink sb now LinkMinus);
        _ ← drop_ ip;
        drop_ dp.
End names.

(** ** The walk ends *)

Lemma mbind_Ok {E S A B} (m : M E S A) (f : A → M E S B) s b s' :
  (m ≫= f) s = (Ok b, s') → ∃ a s1, m s = (Ok a, s1) ∧ f a s1 = (Ok b, s').
Proof. unfold mbind, M_bind. destruct (m s) as [[a| |] s1]; naive_solver. Qed.

(** Take the steps of a computation that succeeded apart. *)
Ltac inv_ok :=
  repeat match goal with
  | H : (_ ≫= _) _ = (Ok _, _) |- _ => apply mbind_Ok in H as (?&?&?&H)
  | H : mret _ _ = (Ok _, _) |- _ => injection H as; simplify_eq
  | H : m_err _ _ = (Ok _, _) |- _ => discriminate H
  | H : m_panic _ = (Ok _, _) |- _ => discriminate H
  end.

Section walk.
Context {S : Type} `{BlockStore S} (sb : SuperBlock) (now : Z) (cwd : nat).

Lemma on_err_Ok {A} (m : M Error (S * ITable) A) c st a st' :
  on_err m c st = (Ok a, st') → m st = (Ok a, st').
Proof.
  unfold on_err. destruct (m st) as [[b|e|] st1] eqn:E; [done| |done].
  by destruct (c st1) as [[]].
Qed.

Lemma length_trim_start c (p : str) : (length (trim_start c p) ≤ length p)%nat.
Proof. induction p as [|b p IH]; simpl; [done|]. case_match; simpl; lia. Qed.

Lemma length_trim_matches c (p : str) : (length (trim_matches c p) ≤ length p)%nat.
Proof.
  unfold trim_matches, trim_end. rewrite length_reverse.
  pose proof (length_trim_start c (reverse (trim_start c p))) as Hl. rewrite length_reverse in Hl.
  pose proof (length_trim_start c p). lia.
Qed.

Lemma skip_elem_shorter p name np : skip_elem p = (Some name, Some np) → (length np < length p)%nat.
Proof.
  unfold skip_elem. pose proof (length_trim_matches SLASH p).
  destruct (split_once SLASH _) as [[x y]|] eqn:E; [|by case_match].
  case_match; [|done]. intros [= <- <-]. apply split_once_Some in E as [E _].
  apply (f_equal length) in E. rewrite length_app in E. simpl in E. lia.
Qed.

Lemma iread_count (mem : gmap Z Z) dst off n st k st' :
  iread sb dst off n (mem, st) = (Ok k, st') → (k ≤ n)%nat.
Proof.
  unfold iread. simpl. case_match; [intros [= <- _]; lia|]. case_match; [done|].
  destruct (read_chunks _ _ _ _ _ _) as [[]]; [|done..]. intros [= <- _].
  destruct (Z.gtb_spec (off + Z.of_nat n) (id_size st.2)); [|done].
  destruct (Z.gtb_spec off (id_size st.2)); [done|lia].
Qed.

Lemma read_link_length nip depth st t st' :
  read_link sb nip depth st = (Ok t, st') → (length t ≤ 128)%nat ∧ (depth < SYMLINK_MAX_DEPTH)%nat.
Proof.
  unfold read_link. case_match eqn:Ed; [done|]. bool_to_prop. intros Hrun. split; [|done].
  apply mbind_Ok in Hrun as (ip&st1&_&Hrun). case_match eqn:El; [done|]. bool_to_prop.
  apply mbind_Ok in Hrun as (bs&st2&Hb&Hrun).
  assert (t = bs) as -> by (case_match; [by injection Hrun|done]).
  unfold with_inode in Hb. destruct st1 as [s tab]. destruct (tab !! nip) as [[mi|]|]; [|done..].
  destruct (iread sb 0 0 _ (link_mem, _)) as [[n|e|] [mem [s3 d3]]] eqn:Er; simpl in Hb; [|done..].
  injection Hb as Hf _. apply flat_read_length in Hf. rewrite Hf.
  apply iread_count in Er. rewrite Z.gtb_ltb in *. bool_to_prop. unfold MAXPATH in *. lia.
Qed.

Lemma follow_bound nip ip depth rest st path i d st' :
  follow sb now nip ip depth rest st = (Ok (Walk path i d), st') →
  d = Datatypes.S depth ∧ (depth < SYMLINK_MAX_DEPTH)%nat ∧
  ∃ t, (length t ≤ 128)%nat ∧ path = rest t.
Proof.
  unfold follow. intros Hrun. apply mbind_Ok in Hrun as (t&st1&Ht%on_err_Ok&Hrun).
  apply read_link_length in Ht as [Hl Hd]. inv_ok. eauto.
Qed.


(** What is left of the budget of [namex_fuel]. *)
Definition walk_budget (path : str) (depth : nat) : nat :=
  (length path + (SYMLINK_MAX_DEPTH - depth) * 130)%nat.

Lemma namex_step_budget orig parent path ip depth st path' ip' depth' st' :
  namex_step sb now orig parent path ip depth st = (Ok (Walk path' ip' depth'), st') →
  (walk_budget path' depth' < walk_budget path depth)%nat.
Proof.
  unfold namex_step. intros Hrun. apply mbind_Ok in Hrun as (?&?&_&Hrun).
  apply mbind_Ok in Hrun as (g&?&_&Hrun). case_match; [by inv_ok|].
  destruct (skip_elem path) as [[name|] [npath|]] eqn:Ek; [| |by case_match; inv_ok..].
  - apply skip_elem_shorter in Ek. apply mbind_Ok in Hrun as (r&?&_&Hrun).
    apply mbind_Ok in Hrun as (?&?&_&Hrun). apply mbind_Ok in Hrun as (ng&?&_&Hrun).
    case_match; [|inv_ok; unfold walk_budget; lia].
    apply follow_bound in Hrun as (->&Hd&t&Ht&->). unfold walk_budget. rewrite length_app.
    unfold SYMLINK_MAX_DEPTH in *. case_match; rewrite ?length_app; cbn [length]; lia.
  - case_match; [by inv_ok|]. apply mbind_Ok in Hrun as (r&?&_&Hrun).
    apply mbind_Ok in Hrun as (?&?&_&Hrun). apply mbind_Ok in Hrun as (ng&?&_&Hrun).
    case_match; [|by inv_ok].
    apply follow_bound in Hrun as (->&Hd&t&Ht&->). unfold walk_budget.
    assert (path ≠ []) by (intros ->; discriminate). destruct path; [done|].
    unfold SYMLINK_MAX_DEPTH in *. cbn [length]. lia.
Qed.

Lemma namex_loop_ends fuel orig parent path ip depth st :
  (walk_budget path depth < fuel)%nat → is_Some (namex_loop sb now fuel orig parent path ip depth st).
Proof.
  revert path ip depth st. induction fuel as [|fuel IH]; intros path ip depth st Hf; [lia|].
  cbn [namex_loop]. destruct (namex_step _ _ _ _ _ _ _ _) as [[[name i|p i d]|e|] st'] eqn:Es; try done.
  apply IH. apply namex_step_budget in Es. lia.
Qed.
End walk.

(** ** Components of a path *)

(** The non-empty parts between slashes; [cur] is the part read so far. *)
Fixpoint comps (cur p : str) : list str :=
  match p with
  | [] => match cur with [] => [] | _ => [cur] end
  | b :: p => if b =? SLASH then match cur with [] => [] | _ => [cur] end ++ comps [] p
              else comps (cur ++ [b]) p
  end.
Definition components (p : str) : list str := comps [] p.

Lemma comps_slash cur x y : comps cur (x ++ SLASH :: y) = comps cur x ++ comps [] y.
Proof.
  revert cur. induction x as [|b x IH]; intros cur; simpl; [done|].
  case_match; [by rewrite IH, app_assoc|apply IH].
Qed.

Lemma comps_word cur x : Forall (λ b, b ≠ SLASH) x → comps cur x = match cur ++ x with [] => [] | w => [w] end.
Proof.
  intros Hx. revert cur. induction Hx as [|b x Hb _ IH]; intros cur; simpl; [rewrite app_nil_r; by destruct cur|].
  rewrite (proj2 (Z.eqb_neq _ _)) by done. rewrite IH, <-app_assoc. done.
Qed.

Lemma comps_slashes k cur x : comps cur (x ++ replicate k SLASH) = comps cur x.
Proof.
  destruct k as [|k]; [by rewrite app_nil_r|]. simpl. rewrite comps_slash.
  assert (E : comps [] (replicate k SLASH) = []) by (induction k as [|k IH]; [done|exact IH]).
  by rewrite E, app_nil_r.
Qed.

Lemma trim_start_split c (p : str) :
  ∃ k, p = replicate k c ++ trim_start c p ∧ head (trim_start c p) ≠ Some c.
Proof.
  induction p as [|b p IH]; simpl; [by exists 0%nat|].
  destruct (Z.eqb_spec b c) as [->|Hb].
  - destruct IH as (k&E&Hh). exists (Datatypes.S k). simpl. split; [by f_equal|done].
  - exists 0%nat. split; [done|]. simpl. congruence.
Qed.

Lemma comps_trim_start p : comps [] (trim_start SLASH p) = comps [] p.
Proof. induction p as [|b p IH]; simpl; [done|]. case_match; [done|]. simpl. by case_match. Qed.

(** Trimming does not change the components; the result neither starts nor
    ends with a slash. *)
Lemma trim_components p :
  components (trim_matches SLASH p) = components p ∧
  head (trim_matches SLASH p) ≠ Some SLASH ∧ last (trim_matches SLASH p) ≠ Some SLASH.
Proof.
  unfold components, trim_matches, trim_end. rewrite <-(comps_trim_start p).
  destruct (trim_start_split SLASH p) as (k0&_&Hh). set (q := trim_start SLASH p) in *.
  destruct (trim_start_split SLASH (reverse q)) as (k&E&Hl). set (r := trim_start SLASH (reverse q)) in *.
  assert (Eq : q = reverse r ++ replicate k SLASH).
  { rewrite <-(reverse_involutive q), E, reverse_app, reverse_replicate. done. }
  split_and!.
  - rewrite Eq. by rewrite comps_slashes.
  - destruct (reverse r) as [|b w] eqn:Er; [done|]. rewrite Eq in Hh. done.
  - rewrite last_reverse. done.
Qed.

Lemma comps_nonempty cur x b : b ≠ SLASH → comps cur (x ++ [b]) ≠ [].
Proof.
  intros Hb. revert cur. induction x as [|c x IH]; intros cur; simpl.
  - rewrite (proj2 (Z.eqb_neq _ _)) by done. by destruct cur.
  - case_match; [|apply IH]. intros E. apply app_eq_nil in E as [_ E]. by eapply IH.
Qed.

(** [skip_elem] takes the first component off a path.  Repeated, leading
    and trailing slashes do not matter; a component in front of others may
    have up to [DIRSIZ] bytes, but the last one must have fewer than
    [DIRSIZ]. *)
Theorem skip_elem_components p :
  match components p with
  | [] => skip_elem p = (None, None)
  | [c] => skip_elem p = if (length c <? DIRSIZ)%nat then (Some c, None) else (None, None)
  | c :: cs => if (length c <=? DIRSIZ)%nat
               then ∃ rest, skip_elem p = (Some c, Some rest) ∧ components rest = cs
               else skip_elem p = (None, None)
  end.
Proof.
  destruct (trim_components p) as (Ec&Hh&Hl). rewrite <-Ec. unfold skip_elem, components in *.
  set (t := trim_matches SLASH p) in *. destruct (split_once SLASH t) as [[name rest]|] eqn:Es.
  - apply split_once_Some in Es as [Et Hn].
    assert (name ≠ []) by (intros ->; rewrite Et in Hh; done).
    assert (Hr : comps [] rest ≠ []).
    { destruct (decide (rest = [])) as [->|Hne].
      - exfalso. apply Hl. rewrite Et. apply last_snoc.
      - destruct (exists_last Hne) as (w&b&->). apply comps_nonempty. intros ->. apply Hl.
        rewrite Et, app_comm_cons, app_assoc. apply last_snoc. }
    rewrite Et, comps_slash, comps_word by done. simpl.
    destruct name as [|b name]; [done|]. simpl. destruct (comps [] rest) as [|c cs] eqn:Er; [done|].
    case_match; [|done]. exists rest. done.
  - apply split_once_None in Es. rewrite comps_word by done. simpl.
    destruct t as [|b t]; [done|]. rewrite bool_decide_eq_false_2 by done. simpl. by case_match.
Qed.

(** C14: path resolution terminates.  The walk of [namex], which follows up to
    ten symbolic links whose targets are spliced into the path, ends within
    [namex_fuel path] passes for every path, start directory and state of the
    file system. *)
Theorem namex_terminates {S} `{BlockStore S} sb now orig parent path ip (st : S * ITable) :
  is_Some (namex_loop sb now (namex_fuel path) orig parent path ip 0 st).
Proof. apply namex_loop_ends. unfold walk_budget, namex_fuel. lia. Qed.

(** ** Names on the small disk *)

(** The root directory with its inode on the disk, and a handle on it. *)
Definition demo_fs : gmap Z block * ITable :=
  (iget 1 1 ((update demo_sb (demo_root_disk, demo_root)).2.1, itable_new)).2.

Definition demo_do {A} (m : M Error (gmap Z block * ITable) A) : Result A := (m demo_fs).1.

(** Creating a file and a directory, looking them up, linking and unlinking. *)
Example demo_names :
  demo_do (_ ← create demo_sb 7 0 [47; 97] FT_File 0 0; r ← namei demo_sb 7 0 [97]; mret r.1) = Ok [97] ∧
  demo_do (i ← create demo_sb 7 0 [47; 97] FT_Dir 0 0; _ ← iput demo_sb 7 i;
           i ← create demo_sb 7 0 [97; 47; 98] FT_File 0 0; _ ← iput demo_sb 7 i;
           unlink demo_sb 7 0 [97]) = Err DirectoryNotEmpty ∧
  demo_do (i ← create demo_sb 7 0 [47; 97] FT_File 0 0; _ ← iput demo_sb 7 i;
           _ ← link demo_sb 7 0 [97] [98]; _ ← unlink demo_sb 7 0 [97];
           r ← namei demo_sb 7 0 [98]; mret r.1) = Ok [98] ∧
  demo_do (i ← create demo_sb 7 0 [47; 97] FT_File 0 0; _ ← iput demo_sb 7 i;
           _ ← unlink demo_sb 7 0 [97]; namei demo_sb 7 0 [97]) = Err NotFound.
Proof. vm_compute. done. Qed.

(** A symbolic link to itself is given up after ten rounds. *)
Example demo_loop :
  demo_do (_ ← symlink demo_sb 7 0 [97] [47; 97]; namei demo_sb 7 0 [97]) = Err TooManyLinks.
Proof. vm_compute. done. Qed.

(** [symlink] with an invalid target fails but has already created the link. *)
Example symlink_error_leaves_link :
  demo_do (symlink demo_sb 7 0 [] [47; 97]) = Err InvalidArgument ∧
  demo_do (λ st, create demo_sb 7 0 [47; 97] FT_Dir 0 0 (symlink demo_sb 7 0 [] [47; 97] st).2)
  = Err AlreadyExists.
Proof. vm_compute. done. Qed.

(** [create] of the root path makes an entry with the name of a slash in the
    root directory, while the equivalent path of two slashes is not found. *)
Example create_root_path :
  demo_do (_ ← create demo_sb 7 0 [47] FT_Dir 0 0; r ← dirlookup demo_sb 0 [47]; mret r.2) = Ok 32 ∧
  demo_do (create demo_sb 7 0 [47; 47] FT_Dir 0 0) = Err NotFound.
Proof. vm_compute. done. Qed.
