(* ===== verification/FileNode.v ===== *)
(** * Open files

    [FNod] of [kernel/src/file.rs]: reading and writing an open file or
    directory at its offset, a transaction of the log at a time. *)

From stdpp Require Import base tactics numbers gmap list.
From S2P Require Import Prelude Params Errors Bytes UserMem Log LogCrash LogOps FsLayout FsBlocks FsInode FsBmap FsData FsItable.
Local Open Scope Z_scope.

(** Storage with transactions: [LOG.begin_op] and [LOG.end_op]. *)
Class Txn (S : Type) := {
  txn_begin : S → blocking Error () * S;
  txn_end : M Error S ();
}.

Global Instance log_txn : Txn LogSt := { txn_begin := begin_op; txn_end := end_op }.
Global Instance mem_txn : Txn MemDisk := { txn_begin := λ d, (Returns (Ok ()), d); txn_end := λ d, (Ok (), d) }.

(** [pub struct FNod]. *)
Record FNod := mkFNod { fn_off : Z; fn_ip : nat }.

(** [((MAXOPBLOCKS - 1 - 1 - 2) / 2) * BSIZE]. *)
Definition WRITE_MAX : nat := (MAXOPBLOCKS - 1 - 1 - 2) / 2 * 1024.

Section fnod.
Context {S : Type} `{BlockStore S, Txn S} {Mem : Type} `{UserMem Mem} (sb : SuperBlock) (now : Z).
Implicit Types (mem : Mem) (f : FNod) (st : S * ITable).

(** [*off += r as u32]. *)
Definition advance (off : Z) (r : nat) : option Z :=
  if off + Z.of_nat r <? 2 ^ 32 then Some (off + Z.of_nat r) else None.

(** The block of [FNod::read] under the inode lock: the result of the read,
    which returns from the function if it is an error, and the new offset. *)
Definition fnod_read_locked (dst : Z) (n : nat) mem f : M Error (S * ITable) (Result nat * Mem * FNod) :=
  _ ← lock sb (fn_ip f);
  rm ← with_inode (fn_ip f) (λ sip,
         let '(r, (mem', sip')) := iread sb dst (fn_off f) n (mem, sip) in (Ok (r, mem'), sip'));
  match rm with
  | (Ok r, mem') =>
      _ ← (if (0 <? r)%nat then with_inode (fn_ip f) (touch_atime sb now) else mret ());
      match advance (fn_off f) r with
      | Some off => mret (Ok r, mem', mkFNod off (fn_ip f))
      | None => m_panic
      end
  | (e, mem') => mret (e, mem', f)
  end.

(** [FNod::read].  An error of the read leaves the function before
    [LOG.end_op]. *)
Definition fnod_read (dst : Z) (n : nat) mem st f : blocking Error nat * (Mem * (S * ITable) * FNod) :=
  match txn_begin st.1 with
  | (Sleeps, s) => (Sleeps, (mem, (s, st.2), f))
  | (Returns (Err e), s) => (Returns (Err e), (mem, (s, st.2), f))
  | (Returns Panic, s) => (Returns Panic, (mem, (s, st.2), f))
  | (Returns (Ok _), s) =>
      match fnod_read_locked dst n mem f (s, st.2) with
      | (Ok (Ok r, mem, f), (s, t)) =>
          match txn_end s with
          | (Ok _, s) => (Returns (Ok r), (mem, (s, t), f))
          | (Err e, s) => (Returns (Err e), (mem, (s, t), f))
          | (Panic, s) => (Returns Panic, (mem, (s, t), f))
          end
      | (Ok (Err e, mem, f), st) => (Returns (Err e), (mem, st, f))
      | (Ok (Panic, mem, f), st) => (Returns Panic, (mem, st, f))
      | (Err e, st) => (Returns (Err e), (mem, st, f))
      | (Panic, st) => (Returns Panic, (mem, st, f))
      end
  end.

(** The block of [FNod::write] under the inode lock, for a chunk of [n1]
    bytes. *)
Definition fnod_write_locked mem (src : Z) (n1 : nat) (append : bool) f : M Error (S * ITable) (Result nat * FNod) :=
  _ ← lock sb (fn_ip f);
  g ← with_inode (fn_ip f) self;
  let off := if append then id_size g else fn_off f in
  r ← with_inode (fn_ip f) (λ sip, let '(r, sip') := iwrite sb mem src off n1 sip in (Ok r, sip'));
  match r with
  | Ok r =>
      _ ← with_inode (fn_ip f) (touch_mtime_ctime sb now);
      match advance off r with
      | Some off => mret (Ok r, mkFNod off (fn_ip f))
      | None => m_panic
      end
  | e => mret (e, mkFNod off (fn_ip f))
  end.

(** The loop of [FNod::write].  Every pass writes at least a byte or ends the
    loop, so [n] passes are enough. *)
Fixpoint fnod_write_loop (fuel : nat) mem (src : Z) (n i : nat) (append : bool) (ret : nat) st f :
    blocking Error nat * ((S * ITable) * FNod) :=
  if (i <? n)%nat then
    match fuel with
    | O => (Returns Panic, (st, f))
    | Datatypes.S fuel =>
        let n1 := Nat.min (n - i) WRITE_MAX in
        match txn_begin st.1 with
        | (Sleeps, s) => (Sleeps, ((s, st.2), f))
        | (Returns (Err e), s) => (Returns (Err e), ((s, st.2), f))
        | (Returns Panic, s) => (Returns Panic, ((s, st.2), f))
        | (Returns (Ok _), s) =>
            match fnod_write_locked mem src n1 append f (s, st.2) with
            | (Ok (r, f), (s, t)) =>
                match txn_end s, r with
                | (Ok _, s), Ok r => fnod_write_loop fuel mem src n (i + r) append (i + r) (s, t) f
                | (Ok _, s), Err e => (Returns (Err e), ((s, t), f))
                | (Ok _, s), Panic => (Returns Panic, ((s, t), f))
                | (Err e, s), _ => (Returns (Err e), ((s, t), f))
                | (Panic, s), _ => (Returns Panic, ((s, t), f))
                end
            | (Err e, st) => (Returns (Err e), (st, f))
            | (Panic, st) => (Returns Panic, (st, f))
            end
        end
    end
  else (Returns (Ok ret), (st, f)).

(** [FNod::write]. *)
Definition fnod_write mem (src : Z) (n : nat) (append : bool) st f : blocking Error nat * ((S * ITable) * FNod) :=
  fnod_write_loop n mem src n 0 append 0 st f.
End fnod.

(** ** Errors of a read leak a transaction *)

Lemma bmap_false_state {S} `{BlockStoreLaws S} sb bn (sip : S * IData) : (bmap sb bn false sip).2 = sip.
Proof.
  destruct sip as [s ip]. destruct (Nat.lt_ge_cases bn MAXFILE).
  - by rewrite bmap_lookup.
  - by rewrite bmap_too_large.
Qed.

(** Reading does not change the file system, whatever its outcome. *)
Lemma read_chunks_state {S} `{BlockStoreLaws S} {Mem} `{UserMem Mem} sb fuel dst off todo (mem : Mem) (sip : S * IData) :
  (read_chunks sb fuel dst off todo (mem, sip)).2.2 = sip.
Proof.
  revert dst off todo mem. induction fuel as [|fuel IH]; intros dst off todo mem; (destruct todo as [|todo]; [done|]); [done|].
  cbn [read_chunks]. pose proof (bmap_false_state sb (block_index off) sip) as Hb.
  destruct (bmap sb (block_index off) false sip) as [[a|e|] sip']; simpl in Hb; subst sip'; [|done..].
  destruct sip as [s ip]. destruct (copyout mem dst _) as [[]]; [apply IH|done..].
Qed.

Lemma iread_state {S} `{BlockStoreLaws S} {Mem} `{UserMem Mem} sb dst off n (mem : Mem) (sip : S * IData) :
  (iread sb dst off n (mem, sip)).2.2 = sip.
Proof.
  unfold iread. cbn [fst snd]. case_match; [done|]. case_match; [done|].
  match goal with |- context [read_chunks sb ?k _ _ _ _] =>
    pose proof (read_chunks_state sb k dst off k mem sip); by destruct (read_chunks _ _ _ _ _ _) as [[]]
  end.
Qed.

(** An error while reading a file leaks a transaction.  When the copy to
    the caller's buffer fails (or the file cannot be mapped), [FNod::read]
    returns the error without [LOG.end_op], so the count of outstanding
    operations stays raised; once it is three, [begin_op] sleeps in every
    state of the log and no file-system operation can start any more. *)
Theorem read_error_leaks_transaction {Mem} `{UserMem Mem} sb now (st s1 : LogSt) t f mi (mem : Mem) dst n e mem' sip' :
  begin_op st = (Returns (Ok ()), s1) → t !! fn_ip f = Some (Some mi) → id_valid (mi_data mi) = true →
  iread sb dst (fn_off f) n (mem, (s1, mi_data mi)) = (Err e, (mem', sip')) →
  (∃ st' f', fnod_read sb now dst n mem (st, t) f = (Returns (Err e), (mem', st', f')) ∧
     log_outstanding (ls_log st'.1) = log_outstanding (ls_log st) + 1) ∧
  (∀ st3 : LogSt, 3 ≤ log_outstanding (ls_log st3) → 0 ≤ lh_n (log_lh (ls_log st3)) →
     begin_op st3 = (Sleeps, st3)).
Proof.
  intros Hb Ht Hv Hr. split.
  - unfold fnod_read. simpl txn_begin. rewrite Hb. cbn [fst snd].
    unfold fnod_read_locked, mbind, M_bind, lock, with_inode. rewrite Ht. unfold ilock. rewrite Hv.
    rewrite list_lookup_insert_eq by (by eapply lookup_lt_Some). cbn [set_data mi_data fst snd].
    rewrite Hr. pose proof (iread_state sb dst (fn_off f) n mem (s1, mi_data mi)) as Hs. rewrite Hr in Hs.
    simpl in Hs. subst sip'. do 2 eexists. split; [reflexivity|]. cbn [fst].
    unfold begin_op in Hb. case_match; [done|]. injection Hb as <-. done.
  - intros st3 Ho Hn. unfold begin_op. rewrite Z.gtb_ltb, (proj2 (Z.ltb_lt _ _)), orb_true_r; [done|].
    unfold LOGSIZE, MAXOPBLOCKS. lia.
Qed.

(** The file of the small disk, under a log. *)
Definition demo_log_fs : LogSt :=
  mkLogSt demo_file_disk ∅ ∅ [] (mkLog 2 30 1 0 false (mkLogHeader 0 (replicate 30 0))) false false.
Definition demo_file_table : ITable := Some (mkMInode 1 2 (demo_inode 5 36) 1) :: replicate 49 None.

(** ** What a write leaves in the file *)

Section write_contents.
Context {S : Type} `{BlockStoreLaws S} `{Txn S} {Mem : Type} `{UserMemLaws Mem} (sb : SuperBlock) (now : Z).
Context (Hnow : 0 ≤ now < 2 ^ 64).

(** Storage whose transactions always have room: the write is not limited by
    the log. *)
Context (Hbegin : ∀ s : S, txn_begin s = (Returns (Ok ()), s)).
Context (Hend : ∀ s : S, txn_end s = (Ok (), s)).
Context (Hroom : ∀ (s : S) k, bs_room s k).

(** The open file: its inode is loaded and well formed. *)
Record open_wf (s : S) (t : ITable) (i : nat) (mi : MInode) : Prop := {
  ow_entry : t !! i = Some (Some mi);
  ow_valid : id_valid (mi_data mi) = true;
  ow_disk : disk_wf sb s;
  ow_inode : inode_wf sb s (mi_data mi);
}.

Lemma with_inode_run {A} (m : M Error (S * IData) A) s t i mi r s' d :
  t !! i = Some (Some mi) → m (s, mi_data mi) = (r, (s', d)) →
  with_inode i m (s, t) = (r, (s', <[i := Some (set_data d mi)]> t)).
Proof. intros Ht Hm. unfold with_inode. by rewrite Ht, Hm. Qed.

Lemma lock_loaded (s : S) t i mi :
  t !! i = Some (Some mi) → id_valid (mi_data mi) = true → lock sb i (s, t) = (Ok (), (s, t)).
Proof.
  intros Ht Hv. unfold lock. rewrite Ht. erewrite with_inode_run; [|done|unfold ilock; by rewrite Hv].
  rewrite list_insert_id; [done|]. rewrite Ht. by destruct mi.
Qed.

Lemma self_entry (s : S) t i mi : t !! i = Some (Some mi) → with_inode i self (s, t) = (Ok (mi_data mi), (s, t)).
Proof.
  intros Ht. erewrite with_inode_run by done. rewrite list_insert_id; [done|]. rewrite Ht. by destruct mi.
Qed.

(** One chunk, at the file's offset. *)
Lemma write_locked_spec s t f mi mem src n1 bs m :
  open_wf s t (fn_ip f) mi → 0 ≤ fn_off f ≤ id_size (mi_data mi) → fn_off f + Z.of_nat n1 ≤ MAXBYTES →
  copyin mem src n1 = Ok bs → (3 * passes (fn_off f) n1 + m ≤ nfree sb s)%nat →
  ∃ s' t' mi', fnod_write_locked sb now mem src n1 false f (s, t)
      = (Ok (Ok n1, mkFNod (fn_off f + Z.of_nat n1) (fn_ip f)), (s', t')) ∧
    open_wf s' t' (fn_ip f) mi' ∧ (m ≤ nfree sb s')%nat ∧
    id_size (mi_data mi') = Z.max (id_size (mi_data mi)) (fn_off f + Z.of_nat n1) ∧
    ∀ o, 0 ≤ o < MAXBYTES → fbyte s' (mi_data mi') o
      = if decide (fn_off f ≤ o < fn_off f + Z.of_nat n1) then bs !!! Z.to_nat (o - fn_off f)
        else fbyte s (mi_data mi) o.
Proof.
  intros [Ht Hv Hd Hw] Hoff Hmax Hin Hf.
  destruct (iwrite_spec sb s (mi_data mi) mem src (fn_off f) n1 bs 1 m) as (s1&ip1&Hrun&_&Hm1&Hd1&Hw1&Hsz&Hsame&Hby&_);
    try done.
  set (ip2 := with_times (id_atime ip1) now now ip1).
  destruct (update_meta_spec sb s1 ip1 ip2 0) as (s2&Hrun2&_&Hd2&Hw2&Hdata&Htree&Hz&Hnf); try done.
  { destruct (iw_dinode _ _ _ Hw1); by split. }
  assert (Hlt : (fn_ip f < length t)%nat) by (by eapply lookup_lt_Some).
  exists s2, (<[fn_ip f := Some (set_data ip2 mi)]> t), (set_data ip2 mi). split_and!.
  - unfold fnod_write_locked, mbind, M_bind. rewrite (lock_loaded s t _ mi Ht Hv), (self_entry s t _ mi Ht).
    erewrite with_inode_run; [|done|by rewrite Hrun]. cbv beta iota.
    erewrite with_inode_run; [|by apply list_lookup_insert_eq|unfold touch_mtime_ctime, mbind, M_bind; simpl; exact Hrun2].
    rewrite list_insert_insert_eq. unfold advance.
    rewrite (proj2 (Z.ltb_lt _ _)) by (unfold MAXBYTES in *; lia). done.
  - split; try done; [by apply list_lookup_insert_eq|]. simpl. subst ip2. rewrite Hsame. done.
  - lia.
  - done.
  - intros o Ho. rewrite <-(Hby o Ho). by apply (fbyte_ext sb).
Qed.

(** The number of blocks each chunk can touch is at most four. *)
Lemma passes_le off n1 : (n1 ≤ WRITE_MAX)%nat → (passes off n1 ≤ 4)%nat.
Proof.
  intros Hn. unfold passes. case_match; [lia|]. pose proof (block_offset_lt off).
  apply Nat.lt_succ_r, Nat.Div0.div_lt_upper_bound.
  unfold BSIZE, WRITE_MAX, MAXOPBLOCKS in *. change ((10 - 1 - 1 - 2) / 2 * 1024)%nat with 3072%nat in Hn. lia.
Qed.

(** Chunks left to write. *)
Definition nchunks (n : nat) : nat := (n + 3071) / 3072.

Lemma nchunks_step n : (0 < n)%nat → (Datatypes.S (nchunks (n - Nat.min n 3072)) ≤ nchunks n)%nat.
Proof.
  intros Hn. unfold nchunks. destruct (Nat.le_gt_cases n 3072).
  - rewrite Nat.min_l, Nat.sub_diag by done. change ((0 + 3071) / 3072)%nat with 0%nat.
    apply Nat.div_le_lower_bound; lia.
  - rewrite Nat.min_r by lia. replace (n + 3071)%nat with (n - 3072 + 3071 + 1 * 3072)%nat by lia.
    rewrite Nat.div_add by lia. lia.
Qed.

(** Byte [k] of what a write of [n] bytes puts into the file. *)
Definition written (bs : list Z) (k : Z) : Z := bs !!! Z.to_nat (k mod 3072).

(** The write at offset [off] has got to byte [i]. *)
Record progress (s0 : S) (ip0 : IData) (off : Z) (bs : list Z) (i : nat) (s : S) (ip : IData) : Prop := {
  pg_size : id_size ip = Z.max (id_size ip0) (off + Z.of_nat i);
  pg_bytes o : 0 ≤ o < MAXBYTES → fbyte s ip o
    = if decide (off ≤ o < off + Z.of_nat i) then written bs (o - off) else fbyte s0 ip0 o;
}.

Lemma fnod_write_loop_spec s0 ip0 off mem src n bs fuel i ret s t ip mi :
  0 ≤ off ≤ id_size ip0 → off + Z.of_nat n ≤ MAXBYTES → copyin mem src (Nat.min n 3072) = Ok bs →
  open_wf s t ip mi → progress s0 ip0 off bs i s (mi_data mi) →
  (i ≤ n)%nat → (i mod 3072 = 0 ∨ i = n)%nat → (n - i ≤ fuel)%nat → (i = n → ret = n) →
  (12 * nchunks (n - i) ≤ nfree sb s)%nat →
  ∃ s' t' mi', fnod_write_loop sb now fuel mem src n i false ret (s, t) (mkFNod (off + Z.of_nat i) ip)
      = (Returns (Ok n), ((s', t'), mkFNod (off + Z.of_nat n) ip)) ∧
    open_wf s' t' ip mi' ∧ progress s0 ip0 off bs n s' (mi_data mi').
Proof.
  intros Hoff Hmax Hin. revert i ret s t mi. induction fuel as [|fuel IH];
    intros i ret s t mi Hw Hp Hi Hmod Hf Hret Hfree.
  { assert (i = n) as -> by lia. exists s, t, mi. cbn [fnod_write_loop]. rewrite Nat.ltb_irrefl, Hret by done. done. }
  cbn [fnod_write_loop]. destruct (Nat.ltb_spec i n) as [Hlt|]; cycle 1.
  { assert (i = n) as -> by lia. exists s, t, mi. rewrite Hret by done. done. }
  destruct Hmod as [Hmod|?]; [|lia]. change WRITE_MAX with 3072%nat.
  set (n1 := Nat.min (n - i) 3072). assert (Hn1 : (0 < n1 ≤ n - i)%nat) by lia.
  assert (Hsplit : (Nat.min n 3072 = n1 + (Nat.min n 3072 - n1))%nat) by lia.
  rewrite Hsplit in Hin. pose proof (copyin_prefix _ _ _ _ _ Hin) as [Hin1 _]. rewrite <-Hsplit in Hin.
  pose proof (nchunks_step (n - i) ltac:(lia)) as Hch. fold n1 in Hch. set (c := nchunks (n - i - n1)) in *.
  pose proof (passes_le (off + Z.of_nat i) n1 ltac:(change WRITE_MAX with 3072%nat; lia)) as Hps.
  destruct (write_locked_spec s t (mkFNod (off + Z.of_nat i) ip) mi mem src n1 (take n1 bs) (12 * c))
    as (s1&t1&mi1&Hrun&Hw1&Hf1&Hsz1&Hby1); simpl; try done; [destruct Hp as [-> _]; lia|lia|lia|].
  rewrite Hbegin. cbn [fst snd]. rewrite Hrun, Hend. cbn [fn_off fn_ip].
  replace (off + Z.of_nat i + Z.of_nat n1) with (off + Z.of_nat (i + n1)) by lia.
  apply (IH _ _ s1 t1 mi1); try done; try lia.
  2:{ destruct (decide (n1 = 3072%nat)) as [->|]; [left|right; lia].
      rewrite <-(Nat.mul_1_l 3072) at 1. by rewrite Nat.Div0.mod_add. }
  2:{ replace (n - (i + n1))%nat with (n - i - n1)%nat by lia. done. }
  destruct Hp as [Hsz Hby]. split; [rewrite Hsz1, Hsz; simpl; lia|].
  intros o Ho. rewrite Hby1, Hby by done. simpl. pose proof (Nat.div_mod_eq i 3072) as Hdm.
  repeat case_decide; try lia; try done. unfold written.
  replace (o - off) with (o - (off + Z.of_nat i) + (Z.of_nat (i / 3072)) * 3072) by lia.
  rewrite Z.mod_add, Z.mod_small by lia. rewrite !list_lookup_total_alt, lookup_take_lt by lia. done.
Qed.
End write_contents.

(** What a file write stores.  With storage that does not run out, a write
    of [n] bytes at the offset succeeds, moves the offset and grows the file
    as it should, but the bytes it stores are those of the first
    [WRITE_MAX = 3072] bytes of the buffer over and over: byte [k] of the
    written range is byte [k mod 3072] of the source, because the source
    address is not advanced from one chunk to the next.  Writes of at most
    3072 bytes store what they should. *)
Theorem fnod_write_contents {S} `{BlockStoreLaws S} `{Txn S} {Mem} `{UserMemLaws Mem} sb now (s : S) t f mi (mem : Mem) src n bs :
  0 ≤ now < 2 ^ 64 → (∀ s : S, txn_begin s = (Returns (Ok ()), s)) → (∀ s : S, txn_end s = (Ok (), s)) →
  (∀ (s : S) k, bs_room s k) →
  open_wf sb s t (fn_ip f) mi → 0 ≤ fn_off f ≤ id_size (mi_data mi) → fn_off f + Z.of_nat n ≤ MAXBYTES →
  copyin mem src n = Ok bs → (12 * nchunks n ≤ nfree sb s)%nat →
  ∃ s' t' mi', fnod_write sb now mem src n false (s, t) f
      = (Returns (Ok n), ((s', t'), mkFNod (fn_off f + Z.of_nat n) (fn_ip f))) ∧
    open_wf sb s' t' (fn_ip f) mi' ∧
    id_size (mi_data mi') = Z.max (id_size (mi_data mi)) (fn_off f + Z.of_nat n) ∧
    (∀ k, (k < n)%nat → fbyte s' (mi_data mi') (fn_off f + Z.of_nat k) = bs !!! (k mod 3072)%nat) ∧
    (∀ o, 0 ≤ o < MAXBYTES → ¬ (fn_off f ≤ o < fn_off f + Z.of_nat n) →
      fbyte s' (mi_data mi') o = fbyte s (mi_data mi) o).
Proof.
  intros Hnow Hb He Hr Hw Hoff Hmax Hin Hfree. destruct f as [off ip]. simpl in *.
  assert (Hsplit : (n = Nat.min n 3072 + (n - Nat.min n 3072))%nat) by lia.
  rewrite Hsplit in Hin. pose proof (copyin_prefix _ _ _ _ _ Hin) as [Hin1 _].
  destruct (fnod_write_loop_spec sb now Hnow Hb He Hr s (mi_data mi) off mem src n
    (take (Nat.min n 3072) bs) n 0 0 s t ip mi) as (s'&t'&mi'&Hrun&Hw'&[Hsz Hby]); try done; try lia.
  - split; [simpl; lia|]. intros o Ho. rewrite decide_False by (simpl; lia). done.
  - by left.
  - by rewrite Nat.sub_0_r.
  - exists s', t', mi'. split; [unfold fnod_write; rewrite Z.add_0_r in Hrun; exact Hrun|].
    split; [done|]. split; [done|]. split.
    + intros k Hk. rewrite Hby, decide_True by lia. unfold written.
      replace (Z.to_nat ((off + Z.of_nat k - off) mod 3072)) with (k mod 3072)%nat.
      2:{ replace (off + Z.of_nat k - off) with (Z.of_nat k) by lia. change 3072 with (Z.of_nat 3072).
          by rewrite <-Nat2Z.inj_mod, Nat2Z.id. }
      pose proof (Nat.mod_upper_bound k 3072 ltac:(lia)). pose proof (Nat.Div0.mod_le k 3072).
      rewrite !list_lookup_total_alt, lookup_take_lt by lia. done.
    + intros o Ho Hni. rewrite Hby, decide_False by done. done.
Qed.

