(* ===== verification/DList.v ===== *)
(** * Intrusive circular lists

    [List] of [kernel/src/list.rs]: a doubly linked circular list whose nodes
    live in the memory they describe.  The memory is a map from addresses to
    nodes; following a pointer to an address that holds no node has no
    defined result ([None]). *)

From stdpp Require Import base tactics numbers gmap list.
From S2P Require Import Prelude.
Local Open Scope Z_scope.

(** [pub struct List]. *)
Record Node := mkNode { n_next : Z; n_prev : Z }.
Abbreviation NodeMem := (gmap Z Node).

Definition set_next (a v : Z) (m : NodeMem) : option NodeMem :=
  n ← m !! a; Some (<[a := mkNode v (n_prev n)]> m).
Definition set_prev (a v : Z) (m : NodeMem) : option NodeMem :=
  n ← m !! a; Some (<[a := mkNode (n_next n) v]> m).

(** [List::init]. *)
Definition list_init (h : Z) (m : NodeMem) : NodeMem := <[h := mkNode h h]> m.

(** [List::is_empty]. *)
Definition list_is_empty (h : Z) (m : NodeMem) : option bool :=
  n ← m !! h; Some (n_next n =? h).

(** The loop of [List::len] from node [p]; [fuel] bounds its passes. *)
Fixpoint list_len_loop (fuel : nat) (h p : Z) (m : NodeMem) (n : nat) : option nat :=
  if p =? h then Some n else
  match fuel with
  | O => None
  | S fuel => x ← m !! p; list_len_loop fuel h (n_next x) m (S n)
  end.
(** [List::len].  A list has fewer nodes than the memory. *)
Definition list_len (h : Z) (m : NodeMem) : option nat :=
  n ← m !! h; list_len_loop (size m) h (n_next n) m 0.

(** [List::remove]. *)
Definition list_remove (e : Z) (m : NodeMem) : option NodeMem :=
  n ← m !! e;
  m ← set_next (n_prev n) (n_next n) m;
  n ← m !! e;
  set_prev (n_next n) (n_prev n) m.

(** [List::pop]. *)
Definition list_pop (h : Z) (m : NodeMem) : option (option Z * NodeMem) :=
  empty ← list_is_empty h m;
  if empty : bool then Some (None, m) else
  n ← m !! h;
  m ← list_remove (n_next n) m;
  Some (Some (n_next n), m).

(** [List::push]. *)
Definition list_push (h e : Z) (m : NodeMem) : option NodeMem :=
  n ← m !! h;
  let m := <[e := mkNode (n_next n) h]> m in
  n ← m !! h;
  m ← set_prev (n_next n) e m;
  set_next h e m.

(** ** Rings *)

(** The nodes from [a] to [b] through [xs] are linked both ways. *)
Fixpoint chain (m : NodeMem) (a : Z) (xs : list Z) (b : Z) : Prop :=
  match xs with
  | [] => (∃ n, m !! a = Some n ∧ n_next n = b) ∧ (∃ n, m !! b = Some n ∧ n_prev n = a)
  | x :: xs => (∃ n, m !! a = Some n ∧ n_next n = x) ∧ (∃ n, m !! x = Some n ∧ n_prev n = a) ∧ chain m x xs b
  end.

(** The list with head [h] holds [xs], first element first. *)
Definition ring (m : NodeMem) (h : Z) (xs : list Z) : Prop := NoDup (h :: xs) ∧ chain m h xs h.

(** What a chain depends on. *)
Lemma chain_frame m m' a xs b :
  (∀ x, x ∈ a :: xs → n_next <$> (m' !! x) = n_next <$> (m !! x)) →
  (∀ x, x ∈ xs ++ [b] → n_prev <$> (m' !! x) = n_prev <$> (m !! x)) →
  chain m a xs b → chain m' a xs b.
Proof.
  assert (Hget : ∀ (f : Node → Z) x (y : Z), f <$> (m' !! x) = f <$> (m !! x) →
    (∃ n, m !! x = Some n ∧ f n = y) → ∃ n, m' !! x = Some n ∧ f n = y).
  { intros f x y Hf (n&Hn&<-). rewrite Hn in Hf. destruct (m' !! x) as [n'|]; [|done].
    injection Hf as Hf. eauto. }
  revert a. induction xs as [|x xs IH]; intros a Hn Hp; simpl.
  - intros [H1 H2]. split; eapply Hget; eauto; [apply Hn|apply Hp]; set_solver.
  - intros (H1&H2&H3). split_and!; [eapply Hget; eauto; apply Hn; set_solver|eapply Hget; eauto; apply Hp; set_solver|].
    apply IH; [|intros; apply Hp; set_solver|done]. intros; apply Hn; set_solver.
Qed.

Lemma chain_app m a xs x ys b : chain m a (xs ++ x :: ys) b ↔ chain m a xs x ∧ chain m x ys b.
Proof. revert a. induction xs as [|y xs IH]; intros a; simpl; [|rewrite IH]; tauto. Qed.

Lemma ring_frame m m' h xs : (∀ x, x ∈ h :: xs → m' !! x = m !! x) → ring m h xs → ring m' h xs.
Proof.
  intros Hf [Hd Hc]. split; [done|]. revert Hc. apply chain_frame; intros x Hx; rewrite Hf; set_solver.
Qed.

Lemma ring_dom m h xs x : ring m h xs → x ∈ h :: xs → is_Some (m !! x).
Proof.
  intros [_ Hc] Hx. rewrite elem_of_cons in Hx. destruct Hx as [->|Hx].
  - destruct xs; simpl in Hc; [destruct Hc as [(?&?&_) _]|destruct Hc as [(?&?&_) _]]; eauto.
  - apply list_elem_of_split in Hx as (l1&l2&->). rewrite chain_app in Hc. destruct Hc as [_ Hc].
    destruct l2; simpl in Hc; destruct Hc as [(?&?&_) _]; eauto.
Qed.

Lemma ring_init m h : ring (list_init h m) h [].
Proof.
  split; [apply NoDup_singleton|]. unfold list_init. simpl.
  split; eexists; (split; [apply lookup_insert_eq|done]).
Qed.

Lemma ring_is_empty m h xs : ring m h xs → list_is_empty h m = Some (bool_decide (xs = [])).
Proof.
  intros [Hd Hc]. unfold list_is_empty. destruct xs as [|x xs]; simpl in Hc;
    destruct Hc as [(n&Hn&Hx) _]; rewrite Hn; simpl; rewrite Hx; f_equal.
  - by rewrite Z.eqb_refl.
  - apply Z.eqb_neq. intros ->. inversion Hd. set_solver.
Qed.

Lemma exists_last_cases {A} (xs : list A) : xs = [] ∨ ∃ xs' x, xs = xs' ++ [x].
Proof. induction xs using rev_ind; eauto. Qed.

(** The last link of a chain can be redirected to another node. *)
Lemma chain_last m a xs e :
  NoDup (a :: xs) → chain m a xs e →
  ∃ p, p ∈ a :: xs ∧ (∃ n, m !! p = Some n ∧ n_next n = e) ∧ (∃ n, m !! e = Some n ∧ n_prev n = p) ∧
    ∀ m' c, (∀ x, x ∈ a :: xs → x ≠ p → n_next <$> (m' !! x) = n_next <$> (m !! x)) →
      (∀ x, x ∈ xs → n_prev <$> (m' !! x) = n_prev <$> (m !! x)) →
      (∃ n, m' !! p = Some n ∧ n_next n = c) → (∃ n, m' !! c = Some n ∧ n_prev n = p) → chain m' a xs c.
Proof.
  intros Hd Hc. destruct (exists_last_cases xs) as [->|(xs'&p&->)].
  - exists a. simpl in Hc. destruct Hc. set_solver.
  - exists p. rewrite chain_app in Hc. destruct Hc as [Hc [H1 H2]]. split_and!; [set_solver|done..|].
    intros m' c Hn Hp Hpc Hcp. rewrite chain_app. split; [|done]. revert Hc.
    rewrite app_comm_cons, NoDup_app in Hd. destruct Hd as (_&Hd&_).
    apply chain_frame; [|done]. intros x Hx. apply Hn; [set_solver|]. intros ->. apply (Hd p Hx). set_solver.
Qed.

Ltac mem_simpl := repeat first [rewrite lookup_insert_eq | rewrite lookup_insert_ne by (done || congruence || set_solver)].

Lemma set_next_spec a v m : is_Some (m !! a) →
  ∃ m', set_next a v m = Some m' ∧ (∃ n, m' !! a = Some n ∧ n_next n = v) ∧ (∀ x, x ≠ a → m' !! x = m !! x) ∧
    (∀ x, n_prev <$> (m' !! x) = n_prev <$> (m !! x)).
Proof.
  intros [n Hn]. unfold set_next. rewrite Hn. simpl. eexists. split; [done|]. split_and!.
  - eexists. by rewrite lookup_insert_eq.
  - intros x Hx. by rewrite lookup_insert_ne.
  - intros x. destruct (decide (x = a)) as [->|]; [by rewrite lookup_insert_eq, Hn|by rewrite lookup_insert_ne].
Qed.

Lemma set_prev_spec a v m : is_Some (m !! a) →
  ∃ m', set_prev a v m = Some m' ∧ (∃ n, m' !! a = Some n ∧ n_prev n = v) ∧ (∀ x, x ≠ a → m' !! x = m !! x) ∧
    (∀ x, n_next <$> (m' !! x) = n_next <$> (m !! x)).
Proof.
  intros [n Hn]. unfold set_prev. rewrite Hn. simpl. eexists. split; [done|]. split_and!.
  - eexists. by rewrite lookup_insert_eq.
  - intros x Hx. by rewrite lookup_insert_ne.
  - intros x. destruct (decide (x = a)) as [->|]; [by rewrite lookup_insert_eq, Hn|by rewrite lookup_insert_ne].
Qed.

Lemma fmap_ex (f : Node → Z) (m m' : NodeMem) x y :
  f <$> (m' !! x) = f <$> (m !! x) → (∃ n, m !! x = Some n ∧ f n = y) → ∃ n, m' !! x = Some n ∧ f n = y.
Proof. intros E (n&Hn&<-). rewrite Hn in E. destruct (m' !! x); naive_solver. Qed.

(** Unlinking a node leaves the rest of the list in order. *)
Lemma ring_remove m h xs e ys :
  ring m h (xs ++ e :: ys) →
  ∃ m', list_remove e m = Some m' ∧ ring m' h (xs ++ ys) ∧ ∀ x, x ∉ h :: xs ++ ys → m' !! x = m !! x.
Proof.
  intros [Hd Hc]. rewrite chain_app in Hc. destruct Hc as [Hc1 Hc2].
  rewrite app_comm_cons, NoDup_app in Hd. destruct Hd as (Hd1&Hd12&Hd2). apply NoDup_cons in Hd2 as [He Hd2].
  destruct (chain_last m h xs e Hd1 Hc1) as (p&Hp&(np&Hnp&Hnp1)&(ne&Hne&Hne1)&Hrelink).
  assert (Hq : ∃ q, q ∈ h :: ys ∧ n_next ne = q ∧ (∃ n, m !! q = Some n ∧ n_prev n = e) ∧
            (match ys with [] => q = h | y :: _ => q = y end)).
  { destruct ys as [|y ys]; simpl in Hc2.
    - destruct Hc2 as [(n&?&?) ?]. exists h. simplify_eq. set_solver.
    - destruct Hc2 as ((n&?&?)&?&_). exists y. simplify_eq. set_solver. }
  destruct Hq as (q&Hqin&Hq1&(nq&Hnq&Hnq1)&Hqcase).
  assert (Hpe : p ≠ e) by (intros ->; apply (Hd12 e); set_solver).
  assert (Hqe : q ≠ e) by (intros ->; apply elem_of_cons in Hqin as [->|]; [apply (Hd12 h); set_solver|done]).
  unfold list_remove. rewrite Hne. simpl. rewrite Hne1, Hq1.
  destruct (set_next_spec p q m) as (m1&->&Hp1&Hf1&Hprev1); [eauto|]. simpl.
  rewrite (Hf1 e) by done. rewrite Hne. simpl. rewrite Hne1, Hq1.
  destruct (set_prev_spec q p m1) as (m2&->&Hq2&Hf2&Hnext2).
  { apply fmap_is_Some with (f:=n_prev). rewrite Hprev1, Hnq. eauto. }
  exists m2. split; [done|]. split; cycle 1.
  { intros x Hx. rewrite Hf2, Hf1; [done|set_solver|set_solver]. }
  assert (Hnp2 : ∃ n, m2 !! p = Some n ∧ n_next n = q) by (eapply fmap_ex; eauto).
  assert (Hn2 : ∀ x, x ≠ p → n_next <$> (m2 !! x) = n_next <$> (m !! x)).
  { intros x Hx. rewrite Hnext2. by rewrite Hf1. }
  assert (Hp2 : ∀ x, x ≠ q → n_prev <$> (m2 !! x) = n_prev <$> (m !! x)).
  { intros x Hx. by rewrite Hf2. }
  assert (Hqx : q ∉ xs).
  { intros Hin. apply NoDup_cons in Hd1 as [Hh _]. destruct ys as [|y ys]; rewrite Hqcase in Hin; [done|].
    apply (Hd12 y); set_solver. }
  split.
  - rewrite app_comm_cons, NoDup_app. split_and!; [done| |done]. intros x Hx Hin. apply (Hd12 x); set_solver.
  - assert (Hleft : chain m2 h xs q).
    { apply Hrelink; [intros; by apply Hn2| |done..]. intros x Hx. apply Hp2. by intros ->. }
    clear Hq1 Hq2 Hnp2. destruct ys as [|y ys]; subst q; [by rewrite app_nil_r|]. rewrite chain_app. split; [done|].
    simpl in Hc2. destruct Hc2 as (_&_&Hc2). revert Hc2. apply NoDup_cons in Hd2 as [Hy _]. apply chain_frame.
    + intros x Hx. apply Hn2. intros ->. apply (Hd12 p); set_solver.
    + intros x Hx. apply Hp2. intros ->. apply elem_of_app in Hx as [|Hx]; [done|].
      apply list_elem_of_singleton in Hx as ->. apply (Hd12 h); set_solver.
Qed.

(** [push] adds an element at the front. *)
Lemma ring_push m h xs e :
  ring m h xs → e ∉ h :: xs →
  ∃ m', list_push h e m = Some m' ∧ ring m' h (e :: xs) ∧ ∀ x, x ∉ e :: h :: xs → m' !! x = m !! x.
Proof.
  intros [Hd Hc] He. assert (Hhe : e ≠ h) by set_solver. unfold list_push.
  assert (Hx : ∃ n q, m !! h = Some n ∧ n_next n = q ∧ q ∈ h :: xs ∧ is_Some (m !! q) ∧
            (match xs with [] => q = h | y :: _ => q = y end)).
  { destruct xs as [|y ys]; simpl in Hc.
    - destruct Hc as [(n&?&?) ?]. exists n, h. set_solver.
    - destruct Hc as ((n&?&?)&(n'&?&?)&_). exists n, y. set_solver. }
  destruct Hx as (n&q&Hn&Hq&Hqin&Hqm&Hcase). rewrite Hn. simpl. rewrite lookup_insert_ne, Hn by done. simpl. rewrite Hq.
  assert (Hqe : q ≠ e) by set_solver. set (m1 := <[e := mkNode q h]> m).
  assert (Hf1 : ∀ x, x ≠ e → m1 !! x = m !! x) by (intros; subst m1; by rewrite lookup_insert_ne).
  destruct (set_prev_spec q e m1) as (m2&->&Hq2&Hf2&Hnext2); [by rewrite Hf1|]. simpl.
  destruct (set_next_spec h e m2) as (m3&->&Hh3&Hf3&Hprev3).
  { apply fmap_is_Some with (f:=n_next). rewrite Hnext2, Hf1, Hn by done. eauto. }
  exists m3. split; [done|]. split; cycle 1.
  { intros x Hx. rewrite Hf3, Hf2, Hf1; set_solver. }
  assert (He3 : ∃ n, m3 !! e = Some n ∧ n_next n = q ∧ n_prev n = h).
  { rewrite Hf3, Hf2 by done. subst m1. rewrite lookup_insert_eq. eauto. }
  destruct He3 as (n3&He3&Hn3&Hp3).
  assert (Hq3 : ∃ n, m3 !! q = Some n ∧ n_prev n = e) by (eapply fmap_ex; eauto).
  assert (Hnx : ∀ x, x ≠ h → x ≠ e → n_next <$> (m3 !! x) = n_next <$> (m !! x)).
  { intros x ? ?. by rewrite Hf3, Hnext2, Hf1. }
  assert (Hpx : ∀ x, x ≠ q → x ≠ e → n_prev <$> (m3 !! x) = n_prev <$> (m !! x)).
  { intros x ? ?. by rewrite Hprev3, Hf2, Hf1. }
  split; [rewrite NoDup_cons in Hd |- *; destruct Hd; rewrite NoDup_cons; set_solver|].
  simpl. split_and!; [done|eauto|]. clear Hq. destruct xs as [|y ys]; subst q; simpl in *; [eauto|].
  destruct Hc as (_&_&Hc). split_and!; [eauto|eauto|]. revert Hc.
  rewrite !NoDup_cons in Hd. destruct Hd as (Hh&Hy&_). apply chain_frame.
  - intros x Hx. apply Hnx; set_solver.
  - intros x Hx. apply Hpx; set_solver.
Qed.

(** [pop] takes the front element off. *)
Lemma ring_pop m h xs :
  ring m h xs →
  ∃ m', list_pop h m = Some (head xs, m') ∧ ring m' h (tail xs) ∧ ∀ x, x ∉ h :: tail xs → m' !! x = m !! x.
Proof.
  intros Hr. unfold list_pop. rewrite (ring_is_empty _ _ _ Hr). simpl. destruct xs as [|x xs]; simpl; [by exists m|].
  pose proof Hr as [_ ((n&Hn&Hx)&_)]. rewrite Hn. simpl. rewrite Hx.
  destruct (ring_remove m h [] x xs Hr) as (m'&->&?&?). by exists m'.
Qed.

Lemma list_len_loop_spec m h a xs fuel n :
  h ∉ xs → chain m a xs h → (length xs ≤ fuel)%nat →
  ∃ x, m !! a = Some x ∧ list_len_loop fuel h (n_next x) m n = Some (n + length xs)%nat.
Proof.
  revert a fuel n. induction xs as [|y xs IH]; intros a fuel n Hh Hc Hf; simpl in *.
  - destruct Hc as [(x&Hx&Hn) _]. exists x. split; [done|]. rewrite Hn. destruct fuel; simpl; rewrite Z.eqb_refl, Nat.add_0_r; done.
  - destruct Hc as ((x&Hx&Hn)&_&Hc). exists x. split; [done|]. rewrite Hn. destruct fuel as [|fuel]; [lia|]. simpl.
    rewrite (proj2 (Z.eqb_neq _ _)) by set_solver.
    destruct (IH y fuel (S n)) as (z&Hz&Hl); [set_solver|done|lia|]. rewrite Hz. simpl. rewrite Hl. f_equal. lia.
Qed.

(** [len] counts the elements, without running out of fuel. *)
Lemma ring_len m h xs : ring m h xs → list_len h m = Some (length xs).
Proof.
  intros Hr. pose proof Hr as [Hd Hc]. unfold list_len.
  destruct (list_len_loop_spec m h h xs (size m) 0) as (x&Hx&Hl).
  - by apply NoDup_cons in Hd as [? _].
  - done.
  - assert (Hsub : list_to_set (h :: xs) ⊆ dom m).
    { intros x Hx%elem_of_list_to_set. apply elem_of_dom. by eapply ring_dom. }
    apply subseteq_size in Hsub. rewrite size_list_to_set, size_dom in Hsub by done. simpl in Hsub. lia.
  - rewrite Hx. simpl. by rewrite Hl.
Qed.
