(* ===== verification/BuddyTree.v ===== *)
(** * The block tree of the buddy allocator

    The alloc and split bits of every block as functions of its size and
    index, the invariant that ties them together, and the four moves [alloc]
    and [dealloc] are made of: taking a free block, splitting a block in use,
    merging it with its free buddy, and releasing it. *)

From stdpp Require Import base tactics numbers list.
From S2P Require Import Prelude.
Local Open Scope Z_scope.
Ltac Zify.zify_post_hook ::= Z.to_euclidean_division_equations.

Abbreviation Bits := (nat → Z → bool).

Definition bupd (f : Bits) (k : nat) (i : Z) (v : bool) : Bits :=
  λ k' i', if decide (k' = k ∧ i' = i) then v else f k' i'.

Lemma bupd_eq f k i v : bupd f k i v k i = v.
Proof. unfold bupd. by rewrite decide_True. Qed.
Lemma bupd_ne f k i v k' i' : k' ≠ k ∨ i' ≠ i → bupd f k i v k' i' = f k' i'.
Proof. intros. unfold bupd. rewrite decide_False; [done|]. naive_solver. Qed.

Section tree.
Context (mx : nat).

(** Block [i] of size [k] exists. *)
Definition in_tree (k : nat) (i : Z) : Prop := (k ≤ mx)%nat ∧ 0 ≤ i < 2 ^ Z.of_nat (mx - k).

Definition buddy_of (i : Z) : Z := if i mod 2 =? 0 then i + 1 else i - 1.

(** [A] are the alloc bits, [S] the split bits, and the first [r] blocks of
    the smallest size are reserved. *)
Record good (A S : Bits) (r : Z) : Prop := {
  g_split_alloc k i : in_tree k i → S k i = true → A k i = true;
  g_leaf i : S 0%nat i = false;
  g_alloc_parent k i : (k < mx)%nat → in_tree k i → A k i = true → S (Datatypes.S k) (i / 2) = true;
  g_coalesced k i : (k < mx)%nat → in_tree (Datatypes.S k) i → S (Datatypes.S k) i = true →
    A k (2 * i) = true ∨ A k (2 * i + 1) = true;
  g_reserved_pos : 0 < r ≤ 2 ^ Z.of_nat mx;
  g_reserved i : 0 ≤ i < r → A 0%nat i = true;
}.

(** A block on a free list, and a block in use. *)
Definition is_free (A S : Bits) (k : nat) (i : Z) : Prop :=
  (k < mx)%nat ∧ in_tree k i ∧ A k i = false ∧ S (Datatypes.S k) (i / 2) = true.
Definition is_live (A S : Bits) (k : nat) (i : Z) : Prop := in_tree k i ∧ A k i = true ∧ S k i = false.

Lemma pow_half k : (k < mx)%nat → 2 ^ Z.of_nat (mx - k) = 2 * 2 ^ Z.of_nat (mx - Datatypes.S k).
Proof.
  intros. replace (Z.of_nat (mx - k)) with (Z.succ (Z.of_nat (mx - Datatypes.S k))) by lia.
  rewrite Z.pow_succ_r; lia.
Qed.

Lemma in_tree_parent k i : (k < mx)%nat → in_tree k i → in_tree (Datatypes.S k) (i / 2).
Proof. intros Hk [_ Hi]. rewrite (pow_half k Hk) in Hi. split; lia. Qed.
Lemma in_tree_left k i : (k < mx)%nat → in_tree (Datatypes.S k) i → in_tree k (2 * i).
Proof. intros Hk [_ Hi]. split; [lia|]. rewrite (pow_half k Hk). lia. Qed.
Lemma in_tree_right k i : (k < mx)%nat → in_tree (Datatypes.S k) i → in_tree k (2 * i + 1).
Proof. intros Hk [_ Hi]. split; [lia|]. rewrite (pow_half k Hk). lia. Qed.

Lemma buddy_spec i : buddy_of i / 2 = i / 2 ∧ buddy_of i ≠ i ∧ buddy_of (buddy_of i) = i ∧
  (buddy_of i = 2 * (i / 2) ∧ i = 2 * (i / 2) + 1 ∨ i = 2 * (i / 2) ∧ buddy_of i = 2 * (i / 2) + 1).
Proof.
  unfold buddy_of. destruct (Z.eqb_spec (i mod 2) 0).
  - destruct (Z.eqb_spec ((i + 1) mod 2) 0); lia.
  - destruct (Z.eqb_spec ((i - 1) mod 2) 0); lia.
Qed.
Lemma buddy_in_tree k i : (k < mx)%nat → in_tree k i → in_tree k (buddy_of i).
Proof.
  intros Hk Hi. pose proof (in_tree_parent k i Hk Hi) as Hp. destruct (buddy_spec i) as (_&_&_&[[-> _]|[_ ->]]).
  - by apply in_tree_left.
  - by apply in_tree_right.
Qed.

Section good.
Context {A S : Bits} {r : Z} (G : good A S r).

(** A block in use, and every block around it, has its alloc bit set. *)
Lemma alloc_up k i d : (k + d ≤ mx)%nat → in_tree k i → A k i = true →
  A (k + d)%nat (i / 2 ^ Z.of_nat d) = true ∧ ((0 < d)%nat → S (k + d)%nat (i / 2 ^ Z.of_nat d) = true).
Proof.
  induction d as [|d IH]; intros Hk Hi Ha.
  - rewrite Nat.add_0_r. change (2 ^ Z.of_nat 0) with 1. rewrite Z.div_1_r. split; [done|lia].
  - destruct IH as [IH _]; [lia|done|done|].
    assert (Hin : in_tree (k + d) (i / 2 ^ Z.of_nat d)).
    { split; [lia|]. destruct Hi as [_ Hi]. split; [apply Z.div_pos; lia|].
      apply Z.div_lt_upper_bound; [lia|]. rewrite <-Z.pow_add_r by lia.
      replace (Z.of_nat d + Z.of_nat (mx - (k + d))) with (Z.of_nat (mx - k)) by lia. lia. }
    replace (i / 2 ^ Z.of_nat (Datatypes.S d)) with (i / 2 ^ Z.of_nat d / 2).
    2:{ rewrite Z.div_div by lia. f_equal. rewrite Nat2Z.inj_succ, Z.pow_succ_r; lia. }
    replace (k + Datatypes.S d)%nat with (Datatypes.S (k + d)) by lia.
    pose proof (g_alloc_parent _ _ _ G (k + d) _ ltac:(lia) Hin IH) as Hs. split; [|done].
    eapply (g_split_alloc _ _ _ G); [|done]. apply in_tree_parent; [lia|done].
Qed.

(** Blocks in use and free blocks do not overlap: no block in use lies inside
    another one or inside a free one. *)
Lemma live_not_inside_live k i k' i' : is_live A S k i → is_live A S k' i' → (k < k')%nat →
  i / 2 ^ Z.of_nat (k' - k) ≠ i'.
Proof.
  intros (Hi&Ha&_) ((Hk'&_)&_&Hs) Hlt <-. destruct (alloc_up k i (k' - k)) as [_ H]; [lia|done|done|].
  replace (k + (k' - k))%nat with k' in H by lia. rewrite H in Hs by lia. done.
Qed.
Lemma alloc_not_inside_free k i k' i' : in_tree k i → A k i = true → is_free A S k' i' → (k ≤ k')%nat →
  i / 2 ^ Z.of_nat (k' - k) ≠ i'.
Proof.
  intros Hi Ha (Hk'&_&Hf&_) Hle <-. destruct (alloc_up k i (k' - k)) as [H _]; [lia|done|done|].
  replace (k + (k' - k))%nat with k' in H by lia. congruence.
Qed.
Lemma free_not_inside_live k i k' i' : is_free A S k i → is_live A S k' i' → (k < k')%nat →
  i / 2 ^ Z.of_nat (k' - k) ≠ i'.
Proof.
  intros (Hk&Hi&_&Hs) ((Hk'&_)&_&Hs') Hlt <-. pose proof (in_tree_parent k i ltac:(lia) Hi) as Hp.
  assert (Hd : i / 2 ^ Z.of_nat (k' - k) = i / 2 / 2 ^ Z.of_nat (k' - Datatypes.S k)).
  { rewrite Z.div_div by lia. f_equal. rewrite <-Z.pow_succ_r by lia. f_equal. lia. }
  rewrite Hd in Hs'. destruct (decide (k' = Datatypes.S k)) as [->|].
  - rewrite Nat.sub_diag in Hs'. change (2 ^ Z.of_nat 0) with 1 in Hs'. rewrite Z.div_1_r in Hs'. congruence.
  - destruct (alloc_up (Datatypes.S k) (i / 2) (k' - Datatypes.S k)) as [_ H]; [lia|done| |].
    + by eapply g_split_alloc.
    + replace (Datatypes.S k + (k' - Datatypes.S k))%nat with k' in H by lia. rewrite H in Hs' by lia. done.
Qed.
Lemma free_not_inside_free k i k' i' : is_free A S k i → is_free A S k' i' → (k < k')%nat →
  i / 2 ^ Z.of_nat (k' - k) ≠ i'.
Proof.
  intros (Hk&Hi&_&Hs) Hf Hlt. pose proof (in_tree_parent k i ltac:(lia) Hi) as Hp.
  assert (Hd : i / 2 ^ Z.of_nat (k' - k) = i / 2 / 2 ^ Z.of_nat (k' - Datatypes.S k)).
  { rewrite Z.div_div by lia. f_equal. rewrite <-Z.pow_succ_r by lia. f_equal. lia. }
  rewrite Hd. apply alloc_not_inside_free; [done| |done|lia]. by eapply g_split_alloc.
Qed.

(** The whole memory is split as long as something is reserved. *)
Lemma top_split : (0 < mx)%nat → S mx 0 = true.
Proof.
  intros Hmx. pose proof (g_reserved_pos _ _ _ G). destruct (alloc_up 0 0 mx) as [_ Hup]; [lia|split; lia| |].
  - apply (g_reserved _ _ _ G). lia.
  - by apply Hup.
Qed.

(** *** The moves *)

Lemma good_take k i : is_free A S k i → good (bupd A k i true) S r.
Proof.
  intros (Hk&Hi&Ha&Hs). split.
  - intros k' i' Hin Hs'. unfold bupd. case_decide; [done|]. by eapply g_split_alloc.
  - apply G.
  - intros k' i' Hk' Hin. unfold bupd. case_decide as E; [by destruct E as [-> ->]|]. by apply (g_alloc_parent _ _ _ G).
  - intros k' i' Hk' Hin Hs'. unfold bupd. destruct (g_coalesced _ _ _ G k' i' Hk' Hin Hs'); repeat case_decide; auto.
  - apply G.
  - intros i' Hr. unfold bupd. case_decide; [done|]. by apply (g_reserved _ _ _ G).
Qed.
Lemma live_take k i k' i' : is_free A S k i →
  is_live (bupd A k i true) S k' i' ↔ is_live A S k' i' ∨ k' = k ∧ i' = i.
Proof.
  intros (Hk&Hi&Ha&Hs). unfold is_live, bupd. case_decide as E; [destruct E as [-> ->]|naive_solver].
  destruct (S k i) eqn:Es; [|naive_solver]. apply (g_split_alloc _ _ _ G) in Es; [|done]. congruence.
Qed.
Lemma free_take k i k' i' :
  is_free (bupd A k i true) S k' i' ↔ is_free A S k' i' ∧ ¬ (k' = k ∧ i' = i).
Proof. unfold is_free, bupd. case_decide; naive_solver. Qed.

Lemma children_clear k i : (k < mx)%nat → in_tree (Datatypes.S k) i → S (Datatypes.S k) i = false →
  A k (2 * i) = false ∧ A k (2 * i + 1) = false ∧ S k (2 * i) = false ∧ S k (2 * i + 1) = false.
Proof.
  intros Hk Hi Hs.
  assert (Hc : ∀ c, c / 2 = i → in_tree k c → A k c = false ∧ S k c = false).
  { intros c Hc Hin. assert (A k c = false).
    { destruct (A k c) eqn:E; [|done]. apply (g_alloc_parent _ _ _ G) in E; [|done..]. congruence. }
    split; [done|]. destruct (S k c) eqn:E; [|done]. apply (g_split_alloc _ _ _ G) in E; [congruence|done]. }
  destruct (Hc (2 * i)); [lia|by apply in_tree_left|]. destruct (Hc (2 * i + 1)); [lia|by apply in_tree_right|]. done.
Qed.

Lemma good_split k i : (k < mx)%nat → is_live A S (Datatypes.S k) i →
  good (bupd A k (2 * i) true) (bupd S (Datatypes.S k) i true) r.
Proof.
  intros Hk (Hi&Ha&Hs). destruct (children_clear k i Hk Hi Hs) as (Hl&Hr&Hsl&Hsr). split.
  - intros k' i' Hin. unfold bupd. repeat case_decide; try done; [intros _; naive_solver|]. by apply (g_split_alloc _ _ _ G).
  - intros i'. rewrite bupd_ne by lia. apply G.
  - intros k' i' Hk' Hin. unfold bupd. case_decide as E.
    + destruct E as [-> ->]. intros _. rewrite decide_True; [done|]. split; [done|lia].
    + intros Ha'. case_decide; [done|]. by apply (g_alloc_parent _ _ _ G).
  - intros k' i' Hk' Hin Hs'. destruct (decide (k' = k ∧ i' = i)) as [[-> ->]|Hne].
    { left. by rewrite bupd_eq. }
    rewrite bupd_ne in Hs' by lia.
    destruct (g_coalesced _ _ _ G k' i' Hk' Hin Hs'); unfold bupd; repeat case_decide; auto.
  - apply G.
  - intros i' Hr'. unfold bupd. case_decide; [done|]. by apply (g_reserved _ _ _ G).
Qed.
Lemma live_split k i k' i' : (k < mx)%nat → is_live A S (Datatypes.S k) i →
  is_live (bupd A k (2 * i) true) (bupd S (Datatypes.S k) i true) k' i' ↔
  (is_live A S k' i' ∧ ¬ (k' = Datatypes.S k ∧ i' = i)) ∨ k' = k ∧ i' = 2 * i.
Proof.
  intros Hk (Hi&Ha&Hs). destruct (children_clear k i Hk Hi Hs) as (Hl&Hr&Hsl&Hsr).
  pose proof (in_tree_left k i Hk Hi). unfold is_live, bupd. repeat case_decide; try naive_solver lia.
Qed.
Lemma free_split k i k' i' : (k < mx)%nat → is_live A S (Datatypes.S k) i →
  is_free (bupd A k (2 * i) true) (bupd S (Datatypes.S k) i true) k' i' ↔
  is_free A S k' i' ∨ k' = k ∧ i' = 2 * i + 1.
Proof.
  intros Hk (Hi&Ha&Hs). destruct (children_clear k i Hk Hi Hs) as (Hl&Hr&Hsl&Hsr).
  pose proof (in_tree_right k i Hk Hi) as Hright. unfold is_free. split.
  - intros (Hk'&Hin&Ha'&Hs').
    destruct (decide (k' = k ∧ i' = 2 * i)) as [[-> ->]|Hn]; [by rewrite bupd_eq in Ha'|].
    rewrite bupd_ne in Ha' by lia. destruct (decide (k' = k ∧ i' / 2 = i)) as [[-> E]|Hn'].
    + right. split; [done|lia].
    + rewrite bupd_ne in Hs' by lia. by left.
  - intros [(Hk'&Hin&Ha'&Hs')|[-> ->]].
    + split_and!; [done..| |].
      * rewrite bupd_ne; [done|]. destruct (decide (k' = k ∧ i' = 2 * i)) as [[-> ->]|]; [|lia].
        replace (2 * i / 2) with i in Hs' by lia. congruence.
      * unfold bupd. by case_decide.
    + split_and!; [done..| |].
      * rewrite bupd_ne by lia. done.
      * replace ((2 * i + 1) / 2) with i by lia. by rewrite bupd_eq.
Qed.

Lemma good_release k i : (k < mx)%nat → is_live A S k i → A k (buddy_of i) = true → (k = 0%nat → r ≤ i) →
  good (bupd A k i false) S r.
Proof.
  intros Hk (Hi&Ha&Hs) Hb Hr. split.
  - intros k' i' Hin Hs'. rewrite bupd_ne; [by eapply g_split_alloc|].
    destruct (decide (k' = k ∧ i' = i)) as [[-> ->]|]; [congruence|lia].
  - apply G.
  - intros k' i' Hk' Hin. unfold bupd. case_decide; [done|]. by apply (g_alloc_parent _ _ _ G).
  - intros k' i' Hk' Hin Hs'. destruct (g_coalesced _ _ _ G k' i' Hk' Hin Hs') as [Hc|Hc].
    + destruct (decide (k' = k ∧ 2 * i' = i)) as [[-> <-]|]; [right|left; rewrite bupd_ne by lia; done].
      rewrite bupd_ne by lia. destruct (buddy_spec (2 * i')) as (_&_&_&[[? ?]|[_ E]]); [lia|].
      rewrite E in Hb. by replace (2 * i' / 2) with i' in Hb by lia.
    + destruct (decide (k' = k ∧ 2 * i' + 1 = i)) as [[-> <-]|]; [left|right; rewrite bupd_ne by lia; done].
      rewrite bupd_ne by lia. destruct (buddy_spec (2 * i' + 1)) as (_&_&_&[[E _]|[? ?]]); [|lia].
      rewrite E in Hb. by replace ((2 * i' + 1) / 2) with i' in Hb by lia.
  - apply G.
  - intros i' Hr'. rewrite bupd_ne by lia. by apply (g_reserved _ _ _ G).
Qed.
Lemma live_release k i k' i' :
  is_live (bupd A k i false) S k' i' ↔ is_live A S k' i' ∧ ¬ (k' = k ∧ i' = i).
Proof. unfold is_live, bupd. case_decide; naive_solver. Qed.
Lemma free_release k i k' i' : (k < mx)%nat → is_live A S k i →
  is_free (bupd A k i false) S k' i' ↔ is_free A S k' i' ∨ k' = k ∧ i' = i.
Proof.
  intros Hk (Hi&Ha&Hs). pose proof (g_alloc_parent _ _ _ G k i Hk Hi Ha).
  unfold is_free, bupd. case_decide; naive_solver.
Qed.

Lemma good_merge k i : (k < mx)%nat → is_live A S k i → A k (buddy_of i) = false → (k = 0%nat → r ≤ i) →
  good (bupd A k i false) (bupd S (Datatypes.S k) (i / 2) false) r.
Proof.
  intros Hk (Hi&Ha&Hs) Hb Hr. split.
  - intros k' i' Hin Hs'. assert (Hs'' : S k' i' = true) by (unfold bupd in Hs'; by case_decide).
    rewrite bupd_ne; [by eapply g_split_alloc|].
    destruct (decide (k' = k ∧ i' = i)) as [[-> ->]|]; [congruence|lia].
  - intros i'. rewrite bupd_ne by lia. apply G.
  - intros k' i' Hk' Hin. unfold bupd. case_decide as E; [done|]. intros Ha'. case_decide as E'.
    + destruct E' as [Ek E']. assert (k' = k) as -> by lia. exfalso.
      assert (i' = buddy_of i) as -> by (destruct (buddy_spec i) as (?&?&?&[?|?]); lia). congruence.
    + by apply (g_alloc_parent _ _ _ G).
  - intros k' i' Hk' Hin Hs'.
    assert (Hne : ¬ (k' = k ∧ i' = i / 2)) by (intros [-> ->]; by rewrite bupd_eq in Hs').
    rewrite bupd_ne in Hs' by lia.
    destruct (g_coalesced _ _ _ G k' i' Hk' Hin Hs'); [left|right]; rewrite bupd_ne by lia; done.
  - apply G.
  - intros i' Hr'. rewrite bupd_ne by lia. by apply (g_reserved _ _ _ G).
Qed.
Lemma live_merge k i k' i' : (k < mx)%nat → is_live A S k i → A k (buddy_of i) = false →
  is_live (bupd A k i false) (bupd S (Datatypes.S k) (i / 2) false) k' i' ↔
  (is_live A S k' i' ∧ ¬ (k' = k ∧ i' = i)) ∨ k' = Datatypes.S k ∧ i' = i / 2.
Proof.
  intros Hk (Hi&Ha&Hs) Hb. pose proof (g_alloc_parent _ _ _ G k i Hk Hi Ha) as Hp.
  pose proof (in_tree_parent k i Hk Hi) as Hin. pose proof (g_split_alloc _ _ _ G _ _ Hin Hp) as Hpa.
  unfold is_live, bupd. repeat case_decide; naive_solver lia.
Qed.
Lemma free_merge k i k' i' : (k < mx)%nat → is_live A S k i → A k (buddy_of i) = false →
  is_free (bupd A k i false) (bupd S (Datatypes.S k) (i / 2) false) k' i' ↔
  is_free A S k' i' ∧ ¬ (k' = k ∧ i' = buddy_of i).
Proof.
  intros Hk (Hi&Ha&Hs) Hb. destruct (buddy_spec i) as (Hb2&Hbne&_&Hbc). unfold is_free, bupd. split.
  - intros (Hk'&Hin&Ha'&Hs').
    destruct (decide (k' = k ∧ i' / 2 = i / 2)) as [[-> E]|Hn]; [by rewrite decide_True in Hs' by lia|].
    rewrite decide_False in Hs' by lia. rewrite decide_False in Ha' by naive_solver.
    split; [done|]. intros [-> ->]. naive_solver.
  - intros [(Hk'&Hin&Ha'&Hs') Hne]. split_and!; [done..| |].
    + by case_decide.
    + case_decide as E; [|done]. destruct E as [Ek E]. assert (k' = k) as -> by lia.
      exfalso. destruct (decide (i' = i)) as [->|]; [congruence|]. apply Hne. split; [done|lia].
Qed.
Lemma buddy_free k i : (k < mx)%nat → is_live A S k i → A k (buddy_of i) = false → is_free A S k (buddy_of i).
Proof.
  intros Hk (Hi&Ha&Hs) Hb. split_and!; [done|by apply buddy_in_tree|done|].
  destruct (buddy_spec i) as (->&_). by apply (g_alloc_parent _ _ _ G).
Qed.
End good.
End tree.
