(* ===== verification/Buddy.v ===== *)
(** * The buddy allocator

    [BuddyAllocator] of [kernel/src/buddy.rs], over the intrusive free lists
    of [DList]: the bit arrays, [alloc], [dealloc], [free_bytes]. *)

From stdpp Require Import base tactics numbers strings gmap list.
From S2P Require Import Prelude DList BuddyTree.
Local Open Scope Z_scope.

(** [round_up] and [round_down]; [n - 1] of a [usize] needs [n > 0]. *)
Definition round_up (n sz : Z) : Z := ((n - 1) / sz + 1) * sz.
Definition round_down (n sz : Z) : Z := n / sz * sz.

Definition LEAF_SIZE : Z := 16.
Definition MAX_ALIGN : Z := 4096.

(** [struct SzInfo] without its list head, which lives in the node memory. *)
Record SzInfo := mkSzInfo { sz_alloc : option (list Z); sz_split : option (list Z) }.

(** [pub struct BuddyAllocator], with the memory that holds its free lists. *)
Record Buddy := mkBuddy {
  b_initialized : bool; b_base : Z; b_end : Z; b_nsize : nat; b_sizes : option (list SzInfo); b_mem : NodeMem
}.

(** A method of the allocator: panics are failed index checks,
    [unreachable!] and pointers that are not list nodes. *)
Abbreviation BM := (M string Buddy).

(** [Array::bit_set]. *)
Definition bit_set (arr : option (list Z)) (index : Z) (v : bool) : outcome string (option (list Z)) :=
  match arr with
  | None => Ok None
  | Some a =>
      let m := Z.shiftl 1 (index mod 8) in
      match a !! Z.to_nat (index / 8), v with
      | Some b, true => Ok (Some (<[Z.to_nat (index / 8) := Z.lor b m]> a))
      | Some b, false => Ok (Some (<[Z.to_nat (index / 8) := Z.land b (Z.lxor 255 m)]> a))
      | None, _ => Panic
      end
  end.

(** [Array::bit_isset]. *)
Definition bit_isset (arr : option (list Z)) (index : Z) : bool :=
  match arr with
  | Some a => let m := Z.shiftl 1 (index mod 8) in
              match a !! Z.to_nat (index / 8) with Some b => Z.land b m =? m | None => false end
  | None => false
  end.

Definition max_size (b : Buddy) : nat := b_nsize b - 1.
Definition blk_size (k : nat) : Z := Z.shiftl 1 (Z.of_nat k) * LEAF_SIZE.
Definition nblk (b : Buddy) (k : nat) : Z := Z.shiftl 1 (Z.of_nat (max_size b - k)).

(** [usize::next_power_of_two] and [usize::trailing_zeros]. *)
Definition next_power_of_two (n : Z) : Z := 2 ^ Z.log2_up n.
Definition trailing_zeros (n : Z) : nat := Z.to_nat (Z.log2 (Z.land n (- n))).

Definition firstk (n : Z) : nat :=
  if n <=? LEAF_SIZE then 0%nat else trailing_zeros (next_power_of_two n / LEAF_SIZE).

Definition blk_index (b : Buddy) (k : nat) (p : Z) : outcome string Z :=
  if p <? b_base b then Panic else Ok ((p - b_base b) / blk_size k).
Definition addr (b : Buddy) (k : nat) (bi : Z) : Z := b_base b + bi * blk_size k.
Definition blk_index_next (b : Buddy) (k : nat) (p : Z) : outcome string Z :=
  if p <? b_base b then Panic else
  let n := (p - b_base b) / blk_size k in
  Ok (if (p - b_base b) mod blk_size k =? 0 then n else n + 1).

Definition Buddy_new : Buddy := mkBuddy false 0 0 0 None ∅.

(** The address of [sizes[k].free]: the array [sizes] is the first thing in
    the managed memory, and an entry takes 48 bytes. *)
Definition SZINFO_SIZE : Z := 48.
Definition head_addr (b : Buddy) (k : nat) : Z := b_base b + SZINFO_SIZE * Z.of_nat k.

(** ** Access to [sizes[k]] *)

Definition set_sizes (s : option (list SzInfo)) (b : Buddy) : Buddy :=
  mkBuddy (b_initialized b) (b_base b) (b_end b) (b_nsize b) s (b_mem b).
Definition set_mem (m : NodeMem) (b : Buddy) : Buddy :=
  mkBuddy (b_initialized b) (b_base b) (b_end b) (b_nsize b) (b_sizes b) m.

Definition szinfo (b : Buddy) (k : nat) : option SzInfo := szs ← b_sizes b; szs !! k.
Definition put_szinfo (k : nat) (z : SzInfo) (b : Buddy) : Buddy :=
  set_sizes ((λ szs, <[k := z]> szs) <$> b_sizes b) b.

Definition lift {A} (o : outcome string A) : BM A := λ b, (o, b).
Definition index_sizes (k : nat) : BM SzInfo := λ b,
  match szinfo b k with Some z => (Ok z, b) | None => (Panic, b) end.

Definition modify (f : Buddy → Buddy) : BM () := λ b, (Ok (), f b).
(** An operation on the lists. *)
Definition on_lists {A} (f : Buddy → option (A * NodeMem)) : BM A := λ b,
  match f b with Some (a, m) => (Ok a, set_mem m b) | None => (Panic, b) end.

(** [sizes[k].alloc.bit_set(bi, v)] and [sizes[k].split.bit_set(bi, v)]. *)
Definition alloc_set (k : nat) (bi : Z) (v : bool) : BM () :=
  z ← index_sizes k; a ← lift (bit_set (sz_alloc z) bi v);
  modify (put_szinfo k (mkSzInfo a (sz_split z))).
Definition split_set (k : nat) (bi : Z) (v : bool) : BM () :=
  z ← index_sizes k; a ← lift (bit_set (sz_split z) bi v);
  modify (put_szinfo k (mkSzInfo (sz_alloc z) a)).
Definition alloc_isset (k : nat) (bi : Z) : BM bool :=
  z ← index_sizes k; mret (bit_isset (sz_alloc z) bi).
Definition split_isset (k : nat) (bi : Z) : BM bool :=
  z ← index_sizes k; mret (bit_isset (sz_split z) bi).

(** [sizes[k].free.pop()], [.push(p)], [.is_empty()] and [.len()], and
    [List::remove]. *)
Definition free_pop (k : nat) : BM (option Z) :=
  _ ← index_sizes k; on_lists (λ b, list_pop (head_addr b k) (b_mem b)).
Definition free_push (k : nat) (p : Z) : BM () :=
  _ ← index_sizes k; on_lists (λ b, pair () <$> list_push (head_addr b k) p (b_mem b)).
Definition free_is_empty (k : nat) : BM bool :=
  _ ← index_sizes k; on_lists (λ b, (λ e, (e, b_mem b)) <$> list_is_empty (head_addr b k) (b_mem b)).
Definition free_len (k : nat) : BM nat :=
  _ ← index_sizes k; on_lists (λ b, (λ n, (n, b_mem b)) <$> list_len (head_addr b k) (b_mem b)).
Definition free_remove (q : Z) : BM () :=
  on_lists (λ b, pair () <$> list_remove q (b_mem b)).

(** ** Allocation *)

(** The [for] loop of [alloc] over [sizes[k..k+n]]: the first size with a
    free block, or the number of sizes. *)
Fixpoint find_free (k n : nat) : BM nat :=
  match n with
  | O => mret k
  | S n => e ← free_is_empty k; if e : bool then find_free (S k) n else mret k
  end.

(** The [while k > fk] loop of [alloc], [n = k - fk]. *)
Fixpoint split_loop (n k : nat) (p : Z) : BM () :=
  match n with
  | O => mret ()
  | S n =>
      let q := p + blk_size (k - 1) in
      b ← m_get;
      bi ← lift (blk_index b k p);
      _ ← split_set k bi true;
      bi ← lift (blk_index b (k - 1) p);
      _ ← alloc_set (k - 1) bi true;
      _ ← free_push (k - 1) q;
      split_loop n (k - 1) p
  end.

(** [BuddyAllocator::alloc] for a layout of [size] and [align]. *)
Definition alloc (size align : Z) : BM (option Z) :=
  b ← m_get;
  match b_sizes b with
  | None => mret None
  | Some _ =>
      if align >? MAX_ALIGN then mret None else
      let fk := firstk size in
      if (b_nsize b <? fk)%nat then mret None else
      k ← find_free fk (b_nsize b - fk);
      if (b_nsize b <=? k)%nat then mret None else
      op ← free_pop k;
      match op with
      | None => mret None
      | Some p =>
          bi ← lift (blk_index b k p);
          _ ← alloc_set k bi true;
          _ ← split_loop (k - fk) k p;
          mret (if p =? 0 then None else Some p)
      end
  end.

(** [BuddyAllocator::free_bytes]. *)
Fixpoint free_bytes_loop (k n : nat) (total : Z) : BM Z :=
  match n with
  | O => mret total
  | S n => l ← free_len k; free_bytes_loop (S k) n (total + Z.of_nat l * blk_size k)
  end.
Definition free_bytes : BM Z :=
  b ← m_get;
  match b_sizes b with None => mret 0 | Some szs => free_bytes_loop 0 (length szs) 0 end.

(** ** Freeing *)

(** The loop of [size] over the pairs [(sizes[k], sizes[k + 1])]. *)
Fixpoint size_loop (k n : nat) (p : Z) : BM nat :=
  match n with
  | O => mret 0%nat
  | S n =>
      b ← m_get; bi ← lift (blk_index b (S k) p);
      s ← split_isset (S k) bi; if s : bool then mret k else size_loop (S k) n p
  end.
(** [BuddyAllocator::size]. *)
Definition size (p : Z) : BM nat :=
  b ← m_get;
  match b_sizes b with None => mret 0%nat | Some szs => size_loop 0 (length szs - 1) p end.

(** The [for k in size(p)..max_size] loop of [dealloc], [n = max_size - k];
    the block to put on a free list and its size. *)
Fixpoint merge_loop (n k : nat) (p : Z) (fk : nat) : BM (Z * nat) :=
  match n with
  | O => mret (p, fk)
  | S n =>
      b ← m_get; bi ← lift (blk_index b k p);
      let buddy := if bi mod 2 =? 0 then bi + 1 else bi - 1 in
      _ ← alloc_set k bi false;
      used ← alloc_isset k buddy;
      if used : bool then mret (p, fk) else
      let q := addr b k buddy in
      _ ← free_remove q;
      let p := if buddy mod 2 =? 0 then q else p in
      bi ← lift (blk_index b (S k) p);
      _ ← split_set (S k) bi false;
      merge_loop n (S k) p (S fk)
  end.

(** [BuddyAllocator::dealloc]. *)
Definition dealloc (p : Z) : BM () :=
  fk ← size p;
  b ← m_get;
  match b_sizes b with
  | None => mret ()
  | Some _ =>
      k ← size p;
      '(p, fk) ← merge_loop (max_size b - k) k p fk;
      free_push fk p
  end.

(** ** Bit arrays *)

Lemma land_shiftl_eq v i : 0 ≤ i → (Z.land v (Z.shiftl 1 i) =? Z.shiftl 1 i) = Z.testbit v i.
Proof.
  intros Hi. assert (Hone : ∀ n, 0 ≤ n → Z.testbit (Z.shiftl 1 i) n = (i =? n)).
  { intros n Hn. rewrite Z.shiftl_1_l. by apply Z.pow2_bits_eqb. }
  destruct (Z.testbit v i) eqn:E.
  - apply Z.eqb_eq, Z.bits_inj'. intros n Hn. rewrite Z.land_spec, Hone by done.
    destruct (Z.eqb_spec i n) as [->|]; [by rewrite E|apply andb_false_r].
  - apply Z.eqb_neq. intros Heq. apply (f_equal (λ z, Z.testbit z i)) in Heq.
    rewrite Z.land_spec, Hone, Z.eqb_refl, E in Heq by done. done.
Qed.

(** The array has a bit for each of [n] blocks. *)
Definition arr_ok (arr : option (list Z)) (n : Z) : Prop := ∃ a, arr = Some a ∧ n ≤ 8 * Z.of_nat (length a).

Lemma bit_isset_alt a i : 0 ≤ i → bit_isset (Some a) i = default false ((λ b, Z.testbit b (i mod 8)) <$> (a !! Z.to_nat (i / 8))).
Proof. intros Hi. unfold bit_isset. destruct (a !! _); [|done]. simpl. apply land_shiftl_eq. lia. Qed.

Lemma bit_set_spec arr n i v : arr_ok arr n → 0 ≤ i < n →
  ∃ arr', bit_set arr i v = Ok arr' ∧ arr_ok arr' n ∧
    ∀ j, 0 ≤ j → bit_isset arr' j = if decide (j = i) then v else bit_isset arr j.
Proof.
  intros (a&->&Hn) Hi. unfold bit_set. destruct (lookup_lt_is_Some_2 a (Z.to_nat (i / 8))) as [x Hx]; [lia|].
  rewrite Hx. set (y := if v then Z.lor x (Z.shiftl 1 (i mod 8)) else Z.land x (Z.lxor 255 (Z.shiftl 1 (i mod 8)))).
  exists (Some (<[Z.to_nat (i / 8) := y]> a)). split; [by destruct v|]. split; [eexists; split; [done|by rewrite length_insert]|].
  intros j Hj. rewrite !bit_isset_alt by done.
  assert (Hone : ∀ n, 0 ≤ n → Z.testbit (Z.shiftl 1 (i mod 8)) n = (i mod 8 =? n)).
  { intros m Hm. rewrite Z.shiftl_1_l. apply Z.pow2_bits_eqb. lia. }
  assert (Hy : ∀ m, 0 ≤ m < 8 → Z.testbit y m = if decide (m = i mod 8) then v else Z.testbit x m).
  { intros m Hm. subst y. destruct v.
    - rewrite Z.lor_spec, Hone by lia. destruct (Z.eqb_spec (i mod 8) m); case_decide; try congruence; by rewrite ?orb_true_r, ?orb_false_r.
    - rewrite Z.land_spec, Z.lxor_spec, Hone by lia. change 255 with (Z.ones 8). rewrite Z.ones_spec_low by lia.
      destruct (Z.eqb_spec (i mod 8) m); case_decide; try congruence; simpl; by rewrite ?andb_false_r, ?andb_true_r. }
  destruct (decide (Z.to_nat (j / 8) = Z.to_nat (i / 8))) as [E|E].
  - rewrite E, list_lookup_insert_eq, Hx by (by eapply lookup_lt_Some). simpl. rewrite Hy by lia.
    repeat case_decide; try done; subst; exfalso; lia.
  - rewrite list_lookup_insert_ne by done. rewrite decide_False by naive_solver. done.
Qed.

(** ** The allocator's state as a tree *)

Section rep.
Context (base : Z) (nsize : nat).
Definition top : nat := nsize - 1.
Definition haddr (k : nat) : Z := base + SZINFO_SIZE * Z.of_nat k.
Definition baddr (k : nat) (i : Z) : Z := base + i * blk_size k.

(** The state [b] has alloc bits [A], split bits [S] and free lists [fl]. *)
Record rep (b : Buddy) (A S : Bits) (fl : nat → list Z) : Prop := {
  rp_base : b_base b = base;
  rp_nsize : b_nsize b = nsize;
  rp_sizes : ∃ szs, b_sizes b = Some szs ∧ length szs = nsize;
  rp_info k : (k < nsize)%nat → ∃ z, szinfo b k = Some z ∧
    arr_ok (sz_alloc z) (2 ^ Z.of_nat (top - k)) ∧ ((0 < k)%nat → arr_ok (sz_split z) (2 ^ Z.of_nat (top - k))) ∧
    (∀ i, in_tree top k i → bit_isset (sz_alloc z) i = A k i ∧ ((0 < k)%nat → bit_isset (sz_split z) i = S k i)) ∧
    ∀ i, 2 ^ Z.of_nat (top - k) ≤ i → bit_isset (sz_alloc z) i = false;
  rp_ring k : (k < nsize)%nat → ring (b_mem b) (haddr k) (fl k);
  rp_disj k k' x : (k < nsize)%nat → (k' < nsize)%nat → x ∈ haddr k :: fl k → x ∈ haddr k' :: fl k' → k = k';
}.

Lemma lt_of_tree k i : (0 < nsize)%nat → in_tree top k i → (k < nsize)%nat.
Proof. intros ? [Hk _]. unfold top in Hk. lia. Qed.

Lemma rep_index b A S fl k : rep b A S fl → (k < nsize)%nat → ∃ z, szinfo b k = Some z ∧ index_sizes k b = (Ok z, b).
Proof. intros R Hk. destruct (rp_info _ _ _ _ R k Hk) as (z&Hz&_). exists z. unfold index_sizes. by rewrite Hz. Qed.

Lemma szinfo_put b k z k' : szinfo (put_szinfo k z b) k' =
  if decide (k' = k) then (_ ← szinfo b k; Some z) else szinfo b k'.
Proof.
  unfold szinfo, put_szinfo. simpl. destruct (b_sizes b) as [szs|]; simpl; [|by case_decide].
  case_decide as E; [subst|by rewrite list_lookup_insert_ne]. destruct (szs !! k) eqn:Hk; simpl.
  - apply list_lookup_insert_eq. by eapply lookup_lt_Some.
  - apply lookup_ge_None in Hk. rewrite list_insert_ge by done. by apply lookup_ge_None.
Qed.

(** Replacing [sizes[k]] by an entry with other bits. *)
Lemma rep_put b A S A' S' fl k z :
  rep b A S fl → (k < nsize)%nat →
  arr_ok (sz_alloc z) (2 ^ Z.of_nat (top - k)) → ((0 < k)%nat → arr_ok (sz_split z) (2 ^ Z.of_nat (top - k))) →
  (∀ i, in_tree top k i → bit_isset (sz_alloc z) i = A' k i ∧ ((0 < k)%nat → bit_isset (sz_split z) i = S' k i)) →
  (∀ i, 2 ^ Z.of_nat (top - k) ≤ i → bit_isset (sz_alloc z) i = false) →
  (∀ k' i, k' ≠ k → A' k' i = A k' i ∧ S' k' i = S k' i) →
  rep (put_szinfo k z b) A' S' fl.
Proof.
  intros R Hk Ha Hs Hbits Hout Hother. split.
  - apply R.
  - apply R.
  - destruct (rp_sizes _ _ _ _ R) as (szs&E&Hl). exists (<[k := z]> szs). unfold put_szinfo, set_sizes. simpl.
    rewrite E. split; [done|]. by rewrite length_insert.
  - intros k' Hk'. rewrite szinfo_put. case_decide as E.
    + subst k'. destruct (rp_info _ _ _ _ R k Hk) as (z'&->&_). by exists z.
    + destruct (rp_info _ _ _ _ R k' Hk') as (z'&->&?&?&Hb'&?). exists z'. split_and!; [done..| |done].
      intros i Hi. destruct (Hother k' i E) as [-> ->]. by apply Hb'.
  - apply R.
  - apply R.
Qed.

Lemma rep_alloc_set b A S fl k i v : rep b A S fl → (0 < nsize)%nat → in_tree top k i →
  ∃ b', alloc_set k i v b = (Ok (), b') ∧ rep b' (bupd A k i v) S fl.
Proof.
  intros R Hn Hi. pose proof (lt_of_tree k i Hn Hi) as Hk. destruct (rep_index _ _ _ _ k R Hk) as (z&Hz&Hx).
  destruct (rp_info _ _ _ _ R k Hk) as (z'&Hz'&Ha&Hs&Hb&Ho). assert (z' = z) as -> by congruence.
  destruct (bit_set_spec _ _ i v Ha) as (arr&Hset&Harr&Hbit); [apply Hi|].
  unfold alloc_set, mbind, M_bind. rewrite Hx. unfold lift. rewrite Hset. eexists. split; [reflexivity|].
  eapply rep_put; try done.
  - intros j Hj. simpl. rewrite Hbit by apply Hj. destruct (Hb j Hj) as [-> ?]. split; [|done].
    unfold bupd. repeat case_decide; naive_solver.
  - intros j Hj. simpl. destruct Hi as [_ Hi]. rewrite Hbit, decide_False by lia. by apply Ho.
  - intros k' j Hne. rewrite bupd_ne by lia. done.
Qed.
Lemma rep_split_set b A S fl k i v : rep b A S fl → (0 < k)%nat → (0 < nsize)%nat → in_tree top k i →
  ∃ b', split_set k i v b = (Ok (), b') ∧ rep b' A (bupd S k i v) fl.
Proof.
  intros R H0 Hn Hi. pose proof (lt_of_tree k i Hn Hi) as Hk. destruct (rep_index _ _ _ _ k R Hk) as (z&Hz&Hx).
  destruct (rp_info _ _ _ _ R k Hk) as (z'&Hz'&Ha&Hs&Hb&Ho). assert (z' = z) as -> by congruence.
  destruct (bit_set_spec _ _ i v (Hs H0)) as (arr&Hset&Harr&Hbit); [apply Hi|].
  unfold split_set, mbind, M_bind. rewrite Hx. unfold lift. rewrite Hset. eexists. split; [reflexivity|].
  eapply rep_put; try done.
  - intros j Hj. simpl. rewrite Hbit by apply Hj. destruct (Hb j Hj) as [-> Hsj]. split; [done|]. intros _.
    rewrite Hsj by done. unfold bupd. repeat case_decide; naive_solver.
  - intros k' j Hne. rewrite bupd_ne by lia. done.
Qed.
Lemma rep_alloc_isset b A S fl k i : rep b A S fl → (0 < nsize)%nat → in_tree top k i → alloc_isset k i b = (Ok (A k i), b).
Proof.
  intros R Hn Hi. pose proof (lt_of_tree k i Hn Hi) as Hk. destruct (rep_index _ _ _ _ k R Hk) as (z&Hz&Hx).
  destruct (rp_info _ _ _ _ R k Hk) as (z'&Hz'&_&_&Hb&_). assert (z' = z) as -> by congruence.
  unfold alloc_isset, mbind, M_bind. rewrite Hx. by destruct (Hb i Hi) as [-> _].
Qed.
Lemma rep_split_isset b A S fl k i : rep b A S fl → (0 < k)%nat → (0 < nsize)%nat → in_tree top k i →
  split_isset k i b = (Ok (S k i), b).
Proof.
  intros R H0 Hn Hi. pose proof (lt_of_tree k i Hn Hi) as Hk. destruct (rep_index _ _ _ _ k R Hk) as (z&Hz&Hx).
  destruct (rp_info _ _ _ _ R k Hk) as (z'&Hz'&_&_&Hb&_). assert (z' = z) as -> by congruence.
  unfold split_isset, mbind, M_bind. rewrite Hx. destruct (Hb i Hi) as [_ ->]; done.
Qed.

(** Blocks past the end of the tree are not marked. *)
Lemma rep_alloc_outside b A S fl k i : rep b A S fl → (k < nsize)%nat → 2 ^ Z.of_nat (top - k) ≤ i →
  alloc_isset k i b = (Ok false, b).
Proof.
  intros R Hk Hi. destruct (rep_index _ _ _ _ k R Hk) as (z&Hz&Hx).
  destruct (rp_info _ _ _ _ R k Hk) as (z'&Hz'&_&_&_&Ho). assert (z' = z) as -> by congruence.
  unfold alloc_isset, mbind, M_bind. rewrite Hx. by rewrite Ho.
Qed.

(** Only the bits of blocks that exist matter. *)
Lemma rep_ext b A S A' S' fl : rep b A S fl →
  (∀ k i, in_tree top k i → A k i = A' k i ∧ ((0 < k)%nat → S k i = S' k i)) → rep b A' S' fl.
Proof.
  intros [? ? ? Hi ? ?] Hext. split; try done. intros k Hk. destruct (Hi k Hk) as (z&?&?&?&Hb&?).
  exists z. split_and!; try done. intros i Hin. destruct (Hext k i Hin) as [<- Hs], (Hb i Hin) as [? Hb2].
  split; [done|]. intros Hpos. rewrite <-Hs by done. by apply Hb2.
Qed.

(** *** The free lists *)

Definition lupd (fl : nat → list Z) (k : nat) (l : list Z) : nat → list Z :=
  λ k', if decide (k' = k) then l else fl k'.
Lemma lupd_eq fl k l : lupd fl k l k = l.
Proof. unfold lupd. by rewrite decide_True. Qed.
Lemma lupd_ne fl k l k' : k' ≠ k → lupd fl k l k' = fl k'.
Proof. intros. unfold lupd. by rewrite decide_False. Qed.

(** A change of the memory that concerns the list of size [k] only. *)
Lemma rep_lists b A S fl k l m :
  rep b A S fl → (k < nsize)%nat → ring m (haddr k) l →
  (∀ k' x, (k' < nsize)%nat → k' ≠ k → x ∈ haddr k' :: fl k' → m !! x = b_mem b !! x) →
  (∀ k' x, (k' < nsize)%nat → k' ≠ k → x ∈ l → x ∉ haddr k' :: fl k') →
  rep (set_mem m b) A S (lupd fl k l).
Proof.
  intros R Hk Hr Hm Hl. split.
  - apply R.
  - apply R.
  - apply R.
  - apply R.
  - intros k' Hk'. unfold lupd. case_decide as E; [by subst|]. eapply ring_frame; [|by apply (rp_ring _ _ _ _ R)].
    intros x Hx. by apply (Hm k').
  - intros k1 k2 x Hk1 Hk2. unfold lupd.
    assert (Hx : ∀ k', (k' < nsize)%nat → k' ≠ k → x ∈ haddr k :: l → x ∈ haddr k' :: fl k' → False).
    { intros k' Hk' Hne [->|Hx]%elem_of_cons Hx'.
      - apply Hne. symmetry. apply (rp_disj _ _ _ _ R k k' (haddr k)); [done..|by left|done].
      - by apply (Hl k' x). }
    repeat case_decide; subst; try done; intros H1 H2.
    + destruct (Hx k2); done.
    + destruct (Hx k1); done.
    + by apply (rp_disj _ _ _ _ R k1 k2 x).
Qed.

Lemma rep_is_empty b A S fl k : rep b A S fl → (k < nsize)%nat → free_is_empty k b = (Ok (bool_decide (fl k = [])), b).
Proof.
  intros R Hk. destruct (rep_index _ _ _ _ k R Hk) as (z&_&Hx). unfold free_is_empty, mbind, M_bind, on_lists. rewrite Hx.
  unfold head_addr. rewrite (rp_base _ _ _ _ R). fold (haddr k). rewrite (ring_is_empty _ _ _ (rp_ring _ _ _ _ R k Hk)).
  simpl. by destruct b.
Qed.
Lemma rep_len b A S fl k : rep b A S fl → (k < nsize)%nat → free_len k b = (Ok (length (fl k)), b).
Proof.
  intros R Hk. destruct (rep_index _ _ _ _ k R Hk) as (z&_&Hx). unfold free_len, mbind, M_bind, on_lists. rewrite Hx.
  unfold head_addr. rewrite (rp_base _ _ _ _ R). fold (haddr k). rewrite (ring_len _ _ _ (rp_ring _ _ _ _ R k Hk)).
  simpl. by destruct b.
Qed.
Lemma rep_pop b A S fl k p l : rep b A S fl → (k < nsize)%nat → fl k = p :: l →
  ∃ b', free_pop k b = (Ok (Some p), b') ∧ rep b' A S (lupd fl k l).
Proof.
  intros R Hk Hl. destruct (rep_index _ _ _ _ k R Hk) as (z&_&Hx). unfold free_pop, mbind, M_bind, on_lists. rewrite Hx.
  unfold head_addr. rewrite (rp_base _ _ _ _ R). fold (haddr k). pose proof (rp_ring _ _ _ _ R k Hk) as Hr.
  rewrite Hl in Hr. destruct (ring_pop _ _ _ Hr) as (m&->&Hr'&Hm). eexists. split; [reflexivity|].
  apply rep_lists; [done|done|done| |].
  - intros k' x Hk' Hne Hx'. apply Hm. intros Hin. apply Hne. apply (rp_disj _ _ _ _ R k' k x); [done..|].
    rewrite Hl. set_solver.
  - intros k' x Hk' Hne Hin Hx'. apply Hne. apply (rp_disj _ _ _ _ R k' k x); [done..|]. rewrite Hl. set_solver.
Qed.
Lemma rep_push b A S fl k p : rep b A S fl → (k < nsize)%nat → (∀ k', (k' < nsize)%nat → p ∉ haddr k' :: fl k') →
  ∃ b', free_push k p b = (Ok (), b') ∧ rep b' A S (lupd fl k (p :: fl k)).
Proof.
  intros R Hk Hp. destruct (rep_index _ _ _ _ k R Hk) as (z&_&Hx). unfold free_push, mbind, M_bind, on_lists. rewrite Hx.
  unfold head_addr. rewrite (rp_base _ _ _ _ R). fold (haddr k). pose proof (rp_ring _ _ _ _ R k Hk) as Hr.
  destruct (ring_push _ _ _ p Hr) as (m&->&Hr'&Hm); [by apply Hp|]. eexists. split; [reflexivity|].
  apply rep_lists; [done|done|done| |].
  - intros k' x Hk' Hne Hx'. apply Hm. intros [->|Hin]%elem_of_cons; [by apply (Hp k')|].
    apply Hne. by apply (rp_disj _ _ _ _ R k' k x).
  - intros k' x Hk' Hne [->|Hin]%elem_of_cons Hx'; [by apply (Hp k')|]. apply Hne.
    apply (rp_disj _ _ _ _ R k' k x); [done..|]. set_solver.
Qed.
Lemma rep_remove b A S fl k l1 q l2 : rep b A S fl → (k < nsize)%nat → fl k = l1 ++ q :: l2 →
  ∃ b', free_remove q b = (Ok (), b') ∧ rep b' A S (lupd fl k (l1 ++ l2)).
Proof.
  intros R Hk Hl. unfold free_remove, on_lists. pose proof (rp_ring _ _ _ _ R k Hk) as Hr.
  rewrite Hl in Hr. destruct (ring_remove _ _ _ _ _ Hr) as (m&->&Hr'&Hm). eexists. split; [reflexivity|].
  apply rep_lists; [done|done|done| |].
  - intros k' x Hk' Hne Hx'. apply Hm. intros Hin. apply Hne. apply (rp_disj _ _ _ _ R k' k x); [done..|].
    rewrite Hl. set_solver.
  - intros k' x Hk' Hne Hin Hx'. apply Hne. apply (rp_disj _ _ _ _ R k' k x); [done..|]. rewrite Hl. set_solver.
Qed.

(** ** The invariant *)

(** The first [r] smallest blocks hold the allocator's own data. *)
Record inv (r : Z) (b : Buddy) (A S : Bits) (fl : nat → list Z) : Prop := {
  iv_rep : rep b A S fl;
  iv_good : good top A S r;
  iv_free k p : (k < nsize)%nat → p ∈ fl k ↔ ∃ i, p = baddr k i ∧ is_free top A S k i;
  iv_nsize : (2 ≤ nsize)%nat;
  iv_base : 0 < base;
  iv_heads : 3 * Z.of_nat nsize ≤ r;
}.

Lemma blk_size_alt k : blk_size k = 16 * 2 ^ Z.of_nat k.
Proof. unfold blk_size, LEAF_SIZE. rewrite Z.shiftl_1_l. lia. Qed.
Lemma blk_size_pos k : 0 < blk_size k.
Proof. rewrite blk_size_alt. lia. Qed.
Lemma blk_size_S k : blk_size (S k) = 2 * blk_size k.
Proof. rewrite !blk_size_alt, Nat2Z.inj_succ, Z.pow_succ_r; lia. Qed.
Lemma blk_size_add k d : blk_size (k + d) = 2 ^ Z.of_nat d * blk_size k.
Proof. rewrite !blk_size_alt, Nat2Z.inj_add, Z.pow_add_r; lia. Qed.

Lemma baddr_inside k i d i' : baddr k i = baddr (k + d) i' → i / 2 ^ Z.of_nat d = i'.
Proof.
  unfold baddr. rewrite blk_size_add. pose proof (blk_size_pos k). intros E.
  assert (i = i' * 2 ^ Z.of_nat d) as -> by nia. apply Z.div_mul. lia.
Qed.

Section lists.
Context {A S : Bits} {r : Z} (G : good top A S r).

Lemma baddr_free_inj k i k' i' : is_free top A S k i → is_free top A S k' i' → baddr k i = baddr k' i' → k = k' ∧ i = i'.
Proof.
  assert (Hlt : ∀ k i k' i', (k < k')%nat → is_free top A S k i → is_free top A S k' i' → baddr k i ≠ baddr k' i').
  { clear k i k' i'. intros k i k' i' Hlt Hf Hf' E. apply (free_not_inside_free top G k i k' i' Hf Hf' Hlt).
    apply (baddr_inside k i (k' - k)). by replace (k + (k' - k))%nat with k' by lia. }
  intros Hf Hf' E. destruct (Nat.lt_total k k') as [Hk|[->|Hk]].
  - by apply Hlt in E.
  - split; [done|]. unfold baddr in E. pose proof (blk_size_pos k'). nia.
  - symmetry in E. by apply Hlt in E.
Qed.

Lemma free_not_head k i k' : 3 * Z.of_nat nsize ≤ r → (k' < nsize)%nat → is_free top A S k i → baddr k i ≠ haddr k'.
Proof.
  intros Hr Hk' Hf E. destruct Hf as (Hk&Hi&Hrest) eqn:Ef. clear Ef. pose proof (g_reserved_pos _ _ _ _ G) as Hrp.
  apply (alloc_not_inside_free top G 0 (3 * Z.of_nat k') k i); [|apply (g_reserved _ _ _ _ G); lia|done|lia|].
  - split; [lia|]. rewrite Nat.sub_0_r. lia.
  - rewrite Nat.sub_0_r. apply (baddr_inside 0). rewrite Nat.add_0_l, E. unfold baddr, haddr, SZINFO_SIZE.
    rewrite blk_size_alt. change (2 ^ Z.of_nat 0) with 1. lia.
Qed.

(** The address of a free block that is not on a list yet can be pushed. *)
Lemma fresh_addr fl k i : 3 * Z.of_nat nsize ≤ r → is_free top A S k i →
  (∀ k' p, (k' < nsize)%nat → p ∈ fl k' → ∃ i', p = baddr k' i' ∧ is_free top A S k' i' ∧ ¬ (k' = k ∧ i' = i)) →
  ∀ k', (k' < nsize)%nat → baddr k i ∉ haddr k' :: fl k'.
Proof.
  intros Hr Hf Hfl k' Hk' [E|Hin]%elem_of_cons.
  - by apply (free_not_head k i k') in E.
  - destruct (Hfl k' _ Hk' Hin) as (i'&E&Hf'&Hne). apply Hne. by apply baddr_free_inj in E as [-> ->].
Qed.
End lists.

(** ** The moves of the code *)

Lemma blk_index_baddr b k i : b_base b = base → 0 ≤ i → blk_index b k (baddr k i) = Ok i.
Proof.
  intros Hb Hi. unfold blk_index, baddr. rewrite Hb. pose proof (blk_size_pos k).
  rewrite (proj2 (Z.ltb_ge _ _)) by nia. f_equal. replace (base + i * blk_size k - base) with (i * blk_size k) by lia.
  apply Z.div_mul. lia.
Qed.
Lemma baddr_left k i : baddr (S k) i = baddr k (2 * i).
Proof. unfold baddr. rewrite blk_size_S. lia. Qed.
Lemma baddr_right k i : baddr (S k) i + blk_size k = baddr k (2 * i + 1).
Proof. unfold baddr. rewrite blk_size_S. lia. Qed.

(** The bytes on the free lists. *)
Definition fbytes_from (fl : nat → list Z) (k n : nat) : Z :=
  foldr Z.add 0 ((λ k, Z.of_nat (length (fl k)) * blk_size k) <$> seq k n).
Definition fbytes (fl : nat → list Z) : Z := fbytes_from fl 0 nsize.

Lemma fbytes_from_S fl k n :
  fbytes_from fl k (S n) = Z.of_nat (length (fl k)) * blk_size k + fbytes_from fl (S k) n.
Proof. done. Qed.
Lemma fbytes_from_ext fl fl' k n : (∀ j, (k ≤ j < k + n)%nat → fl j = fl' j) → fbytes_from fl k n = fbytes_from fl' k n.
Proof.
  revert k. induction n as [|n IH]; intros k Hj; [done|].
  rewrite !fbytes_from_S, (Hj k) by lia. f_equal. apply IH. intros j Hj'. apply Hj. lia.
Qed.
Lemma fbytes_lupd fl k l : (k < nsize)%nat →
  fbytes (lupd fl k l) = fbytes fl + (Z.of_nat (length l) - Z.of_nat (length (fl k))) * blk_size k.
Proof.
  unfold fbytes. intros Hk.
  assert (Hgen : ∀ n j, (j ≤ k < j + n)%nat → fbytes_from (lupd fl k l) j n
    = fbytes_from fl j n + (Z.of_nat (length l) - Z.of_nat (length (fl k))) * blk_size k).
  { intros n. induction n as [|n IH]; intros j Hj; [lia|]. rewrite !fbytes_from_S.
    destruct (decide (j = k)) as [->|Hne].
    - rewrite lupd_eq, (fbytes_from_ext (lupd fl k l) fl); [lia|]. intros j' ?. apply lupd_ne. lia.
    - rewrite lupd_ne, IH by lia. lia. }
  apply Hgen. lia.
Qed.

(** Taking the first block off a free list. *)
Lemma inv_take r b A S fl k p l : inv r b A S fl → (k < nsize)%nat → fl k = p :: l →
  ∃ i b1 b2, p = baddr k i ∧ is_free top A S k i ∧ free_pop k b = (Ok (Some p), b1) ∧
    alloc_set k i true b1 = (Ok (), b2) ∧ inv r b2 (bupd A k i true) S (lupd fl k l).
Proof.
  intros [R G Hfr Hn Hb Hh] Hk Hl. destruct (proj1 (Hfr k p Hk)) as (i&->&Hf); [rewrite Hl; set_solver|].
  destruct (rep_pop b A S fl k _ l R Hk Hl) as (b1&Hpop&R1).
  destruct (rep_alloc_set b1 A S _ k i true R1 ltac:(lia)) as (b2&Hset&R2); [apply Hf|].
  exists i, b1, b2. split_and!; try done. split; try done; [by apply good_take|].
  intros k' p' Hk'. pose proof (rp_ring _ _ _ _ R k Hk) as [Hd _]. rewrite Hl, !NoDup_cons in Hd. destruct Hd as (_&Hnin&_).
  setoid_rewrite free_take. unfold lupd. case_decide as E.
  - subst k'. specialize (Hfr k p' Hk). rewrite Hl in Hfr. split.
    + intros Hp. destruct (proj1 Hfr) as (j&->&Hj); [set_solver|]. exists j. split_and!; try done. intros [_ ->]. done.
    + intros (j&->&Hj&Hne). pose proof (proj2 Hfr ltac:(eauto)) as Hin. apply elem_of_cons in Hin as [E|?]; [|done].
      exfalso. apply Hne. by apply (baddr_free_inj G) in E as [_ ->].
  - rewrite (Hfr k' p' Hk'). naive_solver.
Qed.

(** One pass of the loop of [alloc]. *)
Definition split_once (k : nat) (p : Z) : BM () :=
  b ← m_get; bi ← lift (blk_index b (S k) p); _ ← split_set (S k) bi true;
  bi ← lift (blk_index b k p); _ ← alloc_set k bi true; free_push k (p + blk_size k).

Lemma inv_split r b A S fl k i : inv r b A S fl → (k < top)%nat → is_live top A S (Datatypes.S k) i →
  ∃ b', split_once k (baddr (Datatypes.S k) i) b = (Ok (), b') ∧
    inv r b' (bupd A k (2 * i) true) (bupd S (Datatypes.S k) i true) (lupd fl k (baddr k (2 * i + 1) :: fl k)).
Proof.
  intros [R G Hfr Hn Hb Hh] Hk Hlive. pose proof Hlive as (Hi&Ha&Hs).
  assert (Hkn : (k < nsize)%nat) by (unfold top in *; lia).
  destruct (rep_split_set b A S fl (Datatypes.S k) i true R) as (b1&Hset1&R1); [lia|lia|done|].
  destruct (rep_alloc_set b1 A _ fl k (2 * i) true R1) as (b2&Hset2&R2); [lia|by apply in_tree_left|].
  pose proof (good_split top G k i Hk Hlive) as G'.
  set (A' := bupd A k (2 * i) true) in *. set (S' := bupd S (Datatypes.S k) i true) in *.
  assert (Hfs : ∀ k' i', is_free top A' S' k' i' ↔ is_free top A S k' i' ∨ k' = k ∧ i' = 2 * i + 1)
    by (intros; by apply (free_split top G)).
  assert (Hnew : ¬ is_free top A S k (2 * i + 1)).
  { intros (_&_&_&Hs'). replace ((2 * i + 1) / 2) with i in Hs' by lia. congruence. }
  destruct (rep_push b2 A' S' fl k (baddr k (2 * i + 1)) R2 Hkn) as (b3&Hpush&R3).
  { apply (fresh_addr G'); [done|apply Hfs; by right|]. intros k' p Hk' Hp. apply (Hfr k' p Hk') in Hp as (i'&->&Hf').
    exists i'. split_and!; [done|apply Hfs; by left|]. intros [-> ->]. done. }
  exists b3. split.
  - unfold split_once, mbind, M_bind, m_get, lift. rewrite blk_index_baddr; [|apply R|apply Hi]. rewrite Hset1.
    rewrite baddr_left, blk_index_baddr; [|apply R|destruct Hi; lia]. rewrite Hset2, <-baddr_left, baddr_right. done.
  - split; try done. intros k' p Hk'. setoid_rewrite Hfs. unfold lupd. case_decide as E.
    + subst k'. rewrite elem_of_cons, (Hfr k p Hk'). naive_solver.
    + rewrite (Hfr k' p Hk'). naive_solver.
Qed.

Lemma split_loop_S n k p b : split_loop (S n) (S k) p b = (_ ← split_once k p; split_loop n k p) b.
Proof.
  cbn [split_loop]. replace (S k - 1)%nat with k by lia. unfold split_once, mbind, M_bind, m_get, lift.
  repeat case_match; simplify_eq; done.
Qed.

(** The loop of [alloc] cuts a block in use down to the size asked for. *)
Lemma split_loop_spec r n : ∀ k b A S fl i, inv r b A S fl → (k + n ≤ top)%nat → is_live top A S (k + n) i →
  ∃ b' A' S' fl', split_loop n (k + n) (baddr (k + n) i) b = (Ok (), b') ∧ inv r b' A' S' fl' ∧
    baddr (k + n) i = baddr k (i * 2 ^ Z.of_nat n) ∧
    (∀ k' i', is_live top A' S' k' i' ↔
      (is_live top A S k' i' ∧ ¬ (k' = (k + n)%nat ∧ i' = i)) ∨ k' = k ∧ i' = i * 2 ^ Z.of_nat n) ∧
    fbytes fl' = fbytes fl + blk_size (k + n) - blk_size k.
Proof.
  induction n as [|n IH]; intros k b A S fl i I Hk Hl.
  - rewrite Nat.add_0_r in *. exists b, A, S, fl. change (2 ^ Z.of_nat 0) with 1. rewrite Z.mul_1_r.
    split_and!; try done; [|lia]. intros k' i'. destruct (decide (k' = k ∧ i' = i)) as [[-> ->]|]; naive_solver.
  - rewrite <-plus_n_Sm in *. destruct (inv_split r b A S fl (k + n) i I) as (b1&Hrun1&I1); [lia|done|].
    destruct (IH k b1 _ _ _ (2 * i) I1) as (b'&A'&S'&fl'&Hrun&I'&Haddr&Hlive&Hbytes); [lia| |].
    { apply (live_split top (iv_good _ _ _ _ _ I)); [lia|done|]. by right. }
    assert (E : 2 * i * 2 ^ Z.of_nat n = i * 2 ^ Z.of_nat (Datatypes.S n)) by (rewrite Nat2Z.inj_succ, Z.pow_succ_r; lia).
    rewrite E in *. exists b', A', S', fl'. split_and!.
    + rewrite split_loop_S. unfold mbind, M_bind. rewrite Hrun1, baddr_left. done.
    + done.
    + by rewrite baddr_left.
    + intros k' i'. rewrite Hlive, (live_split top (iv_good _ _ _ _ _ I)) by (done || lia).
      assert (¬ is_live top A S (k + n) (2 * i)).
      { intros (Hin&Ha&_). destruct Hl as (_&_&Hs).
        apply (g_alloc_parent _ _ _ _ (iv_good _ _ _ _ _ I)) in Ha; [|lia|done].
        replace (2 * i / 2) with i in Ha by lia. congruence. }
      naive_solver lia.
    + rewrite Hbytes, fbytes_lupd by (unfold top in *; lia). simpl length. rewrite blk_size_S. lia.
Qed.

(** ** [alloc] *)

Lemma trailing_zeros_pow2 j : 0 ≤ j → trailing_zeros (2 ^ j) = Z.to_nat j.
Proof.
  intros Hj. unfold trailing_zeros. f_equal.
  assert (E : Z.land (2 ^ j) (- 2 ^ j) = 2 ^ j); [|by rewrite E, Z.log2_pow2].
  apply Z.bits_inj'. intros n Hn. rewrite Z.land_spec. destruct (Z.eq_dec j n) as [->|Hne].
  - rewrite Z.pow2_bits_true by done. simpl. rewrite Z.bits_opp, <-Z.ones_equiv by done.
    rewrite Z.ones_spec_high by lia. done.
  - by rewrite Z.pow2_bits_false.
Qed.

(** [firstk] is the smallest size that fits. *)
Lemma firstk_spec n : 0 ≤ n → n ≤ blk_size (firstk n) ∧ (firstk n = 0%nat ∨ blk_size (firstk n - 1) < n).
Proof.
  intros Hn. unfold firstk, LEAF_SIZE. destruct (Z.leb_spec n 16) as [Hle|Hgt].
  { change (blk_size 0) with 16. auto. }
  unfold next_power_of_two. pose proof (Z.log2_up_spec n ltac:(lia)) as [Hlo Hhi].
  assert (H5 : 5 ≤ Z.log2_up n).
  { destruct (Z.le_gt_cases 5 (Z.log2_up n)); [done|]. exfalso.
    assert (2 ^ Z.log2_up n ≤ 2 ^ 4) by (apply Z.pow_le_mono_r; lia). lia. }
  replace (2 ^ Z.log2_up n / 16) with (2 ^ (Z.log2_up n - 4)).
  2:{ rewrite Z.pow_sub_r by lia. done. }
  rewrite trailing_zeros_pow2 by lia. rewrite !blk_size_alt. split; [|right].
  - rewrite Z2Nat.id by lia. change 16 with (2 ^ 4). rewrite <-Z.pow_add_r by lia.
    replace (4 + (Z.log2_up n - 4)) with (Z.log2_up n) by lia. done.
  - replace (Z.of_nat (Z.to_nat (Z.log2_up n - 4) - 1)) with (Z.log2_up n - 5) by lia.
    change 16 with (2 ^ 4). rewrite <-Z.pow_add_r by lia.
    replace (4 + (Z.log2_up n - 5)) with (Z.pred (Z.log2_up n)) by lia. done.
Qed.

Lemma find_free_spec b A S fl n : ∀ k, rep b A S fl → (k + n ≤ nsize)%nat →
  ∃ k', find_free k n b = (Ok k', b) ∧ (k ≤ k' ≤ k + n)%nat ∧ (∀ j, (k ≤ j < k')%nat → fl j = []) ∧
    ((k' < k + n)%nat → fl k' ≠ []).
Proof.
  induction n as [|n IH]; intros k R Hk; cbn [find_free].
  - exists k. split_and!; try done; try lia.
  - unfold mbind, M_bind. rewrite (rep_is_empty _ _ _ _ k R) by lia. case_bool_decide as E.
    + destruct (IH (Datatypes.S k) R) as (k'&Hrun&Hk'&Hbefore&Hat); [lia|]. exists k'.
      split_and!; [done|lia|lia| |intros; apply Hat; lia].
      intros j Hj. destruct (decide (j = k)) as [->|]; [done|]. apply Hbefore. lia.
    + exists k. split_and!; try done; try lia.
Qed.

(** The first free list that can serve a request of [size] bytes. *)
Definition served (fl : nat → list Z) (size : Z) : Prop := ∃ k, (firstk size ≤ k < nsize)%nat ∧ fl k ≠ [].

Lemma alloc_spec r b A S fl size align : inv r b A S fl → 0 ≤ size → align ≤ MAX_ALIGN → served fl size →
  ∃ i b' A' S' fl', alloc size align b = (Ok (Some (baddr (firstk size) i)), b') ∧ inv r b' A' S' fl' ∧
    (∀ k' i', is_live top A' S' k' i' ↔ is_live top A S k' i' ∨ k' = firstk size ∧ i' = i) ∧
    ¬ is_live top A S (firstk size) i ∧ fbytes fl' = fbytes fl - blk_size (firstk size).
Proof.
  intros I Hsz Hal (k0&Hk0&Hne0). pose proof (iv_rep _ _ _ _ _ I) as R. set (fk := firstk size) in *.
  destruct (rp_sizes _ _ _ _ R) as (szs&Esz&_).
  unfold alloc, mbind, M_bind, m_get. rewrite Esz. rewrite Z.gtb_ltb, (proj2 (Z.ltb_ge _ _)) by lia. fold fk.
  rewrite (rp_nsize _ _ _ _ R), (proj2 (Nat.ltb_ge nsize fk)) by lia.
  destruct (find_free_spec b A S fl (nsize - fk) fk R ltac:(lia)) as (k&->&Hk&Hbefore&Hat).
  assert (Hkn : (k < nsize)%nat).
  { destruct (decide (k < nsize)%nat); [done|]. rewrite (Hbefore k0) in Hne0 by lia. done. }
  rewrite (proj2 (Nat.leb_gt nsize k)) by lia.
  destruct (fl k) as [|p l] eqn:El; [destruct Hat; [lia|done]|].
  destruct (inv_take r b A S fl k p l I Hkn El) as (i&b1&b2&->&Hf&->&Hset&I2).
  unfold lift. rewrite blk_index_baddr; [|apply R|destruct Hf as (?&[? ?]&_); lia]. rewrite Hset.
  assert (Hlive : is_live top (bupd A k i true) S (fk + (k - fk)) i).
  { replace (fk + (k - fk))%nat with k by lia. apply (live_take top (iv_good _ _ _ _ _ I)); auto. }
  destruct (split_loop_spec r (k - fk) fk b2 _ _ _ i I2) as (b'&A'&S'&fl'&Hrun&I'&Haddr&Hl'&Hby); [unfold top; lia|done|].
  replace (fk + (k - fk))%nat with k in * by lia. rewrite Hrun. rewrite Haddr.
  set (i' := i * 2 ^ Z.of_nat (k - fk)) in *.
  assert (Hpos : baddr fk i' ≠ 0).
  { pose proof (iv_base _ _ _ _ _ I). pose proof (blk_size_pos fk). destruct Hf as (_&[_ ?]&_). subst i'. unfold baddr. nia. }
  rewrite (proj2 (Z.eqb_neq _ _) Hpos). exists i', b', A', S', fl'. split; [reflexivity|].
  assert (Hnot : ¬ is_live top A S fk i').
  { intros (Hin&Ha&_). apply (alloc_not_inside_free top (iv_good _ _ _ _ _ I) fk i' k i Hin Ha Hf); [lia|].
    subst i'. apply Z.div_mul. lia. }
  split_and!; [done| |done|].
  - intros k' j. rewrite Hl', (live_take top (iv_good _ _ _ _ _ I)) by done.
    assert (¬ is_live top A S k i); [|naive_solver]. intros (_&Ha&_). destruct Hf as (_&_&Ha'&_). congruence.
  - rewrite Hby, fbytes_lupd, El by done. simpl length. lia.
Qed.

(** Without a free block that is large enough, nothing happens. *)
Lemma alloc_none r b A S fl size align : inv r b A S fl → ¬ (align ≤ MAX_ALIGN ∧ served fl size) →
  alloc size align b = (Ok None, b).
Proof.
  intros I Hno. pose proof (iv_rep _ _ _ _ _ I) as R. destruct (rp_sizes _ _ _ _ R) as (szs&Esz&_).
  unfold alloc, mbind, M_bind, m_get. rewrite Esz. destruct (Z.gtb_spec align MAX_ALIGN) as [|Hal]; [done|].
  set (fk := firstk size) in *. rewrite (rp_nsize _ _ _ _ R). destruct (Nat.ltb_spec nsize fk) as [|Hle]; [done|].
  destruct (find_free_spec b A S fl (nsize - fk) fk R ltac:(lia)) as (k&->&Hk&Hbefore&Hat).
  destruct (Nat.leb_spec nsize k); [done|]. destruct Hno. split; [lia|]. exists k. split; [fold fk; lia|]. apply Hat. lia.
Qed.

Lemma free_bytes_loop_spec b A S fl n : ∀ k t, rep b A S fl → (k + n ≤ nsize)%nat →
  free_bytes_loop k n t b = (Ok (t + fbytes_from fl k n), b).
Proof.
  induction n as [|n IH]; intros k t R Hk; cbn [free_bytes_loop].
  - unfold mret, M_ret. by rewrite Z.add_0_r.
  - unfold mbind, M_bind. rewrite (rep_len _ _ _ _ k R), (IH (Datatypes.S k)), fbytes_from_S by (done || lia).
    do 2 f_equal. lia.
Qed.
Lemma free_bytes_spec b A S fl : rep b A S fl → free_bytes b = (Ok (fbytes fl), b).
Proof.
  intros R. destruct (rp_sizes _ _ _ _ R) as (szs&Esz&Hl). unfold free_bytes, mbind, M_bind, m_get. rewrite Esz, Hl.
  by erewrite free_bytes_loop_spec.
Qed.

(** ** [dealloc] *)

(** Inside a block that is not split nothing is split. *)
Lemma unsplit_below A S r k i : good top A S r → in_tree top k i → S k i = false →
  ∀ d, (d ≤ k)%nat → in_tree top (k - d) (i * 2 ^ Z.of_nat d) ∧ S (k - d)%nat (i * 2 ^ Z.of_nat d) = false.
Proof.
  intros G Hi Hs d. induction d as [|d IH]; intros Hd.
  - rewrite Nat.sub_0_r. change (2 ^ Z.of_nat 0) with 1. by rewrite Z.mul_1_r.
  - destruct IH as [Hin Hsd]; [lia|]. replace (k - d)%nat with (Datatypes.S (k - Datatypes.S d)) in Hin, Hsd by lia.
    assert (Hlt : (k - Datatypes.S d < top)%nat) by (destruct Hi; lia).
    replace (i * 2 ^ Z.of_nat (Datatypes.S d)) with (2 * (i * 2 ^ Z.of_nat d))
      by (rewrite Nat2Z.inj_succ, Z.pow_succ_r; lia).
    split; [by apply in_tree_left|]. by destruct (children_clear top G _ _ Hlt Hin Hsd) as (_&_&?&_).
Qed.

Lemma baddr_down k i d : (d ≤ k)%nat → baddr k i = baddr (k - d) (i * 2 ^ Z.of_nat d).
Proof.
  intros Hd. unfold baddr. replace (blk_size k) with (blk_size (k - d + d)) by (f_equal; lia).
  rewrite blk_size_add. lia.
Qed.

Lemma live_below_top A S r k i : good top A S r → (0 < top)%nat → is_live top A S k i → (k < top)%nat.
Proof.
  intros G Ht ((Hk&Hi)&_&Hs). destruct (decide (k = top)) as [->|]; [|lia].
  rewrite Nat.sub_diag in Hi. change (2 ^ Z.of_nat 0) with 1 in Hi. assert (i = 0) as -> by lia.
  rewrite (top_split top G Ht) in Hs. done.
Qed.

Lemma blk_index_up b k i : b_base b = base → 0 ≤ i → blk_index b (S k) (baddr k i) = Ok (i / 2).
Proof.
  intros Hb Hi. unfold blk_index, baddr. rewrite Hb, blk_size_S. pose proof (blk_size_pos k).
  rewrite (proj2 (Z.ltb_ge _ _)) by nia. f_equal. replace (base + i * blk_size k - base) with (i * blk_size k) by lia.
  apply Z.div_mul_cancel_r; lia.
Qed.

(** The size of a block in use is found from its address. *)
Lemma size_spec r b A S fl k i : inv r b A S fl → is_live top A S k i → size (baddr k i) b = (Ok k, b).
Proof.
  intros I Hl. pose proof I as [R G _ Hn _ _]. pose proof Hl as (Hi&Ha&Hs).
  assert (Hlt : (k < top)%nat) by (eapply live_below_top; [done|unfold top; lia|done]).
  destruct (rp_sizes _ _ _ _ R) as (szs&Esz&Hlen). unfold size, mbind, M_bind, m_get. rewrite Esz, Hlen. fold top.
  assert (Hloop : ∀ d, (d ≤ k)%nat → size_loop (k - d) (top - (k - d)) (baddr k i) b = (Ok k, b)).
  { induction d as [|d IH]; intros Hd.
    - rewrite Nat.sub_0_r. replace (top - k)%nat with (Datatypes.S (top - k - 1)) by lia. cbn [size_loop].
      unfold mbind, M_bind, m_get, lift. rewrite blk_index_up; [|apply R|apply Hi].
      rewrite (rep_split_isset b A S fl (Datatypes.S k) (i / 2) R); [|lia|lia|by apply in_tree_parent].
      by rewrite (g_alloc_parent _ _ _ _ G k i Hlt Hi Ha).
    - replace (top - (k - Datatypes.S d))%nat with (Datatypes.S (top - (k - d))) by lia. cbn [size_loop].
      replace (Datatypes.S (k - Datatypes.S d)) with (k - d)%nat by lia.
      destruct (unsplit_below A S r k i G Hi Hs d) as [Hin Hsd]; [lia|].
      unfold mbind, M_bind, m_get, lift. rewrite (baddr_down k i d) by lia.
      rewrite blk_index_baddr; [|apply R|apply Hin].
      rewrite (rep_split_isset b A S fl (k - d) _ R), Hsd; [|lia|lia|done].
      rewrite <-(baddr_down k i d) by lia. apply IH. lia. }
  specialize (Hloop k ltac:(done)). by rewrite Nat.sub_diag, Nat.sub_0_r in Hloop.
Qed.

(** The state when the loop of [dealloc] stops: block [(k, i)] is in use but
    for its alloc bit, and its buddy is in use. *)
Record stopped (r : Z) (b : Buddy) (A S : Bits) (fl : nat → list Z) (k : nat) (i : Z) : Prop := {
  st_rep : rep b (bupd A k i false) S fl;
  st_good : good top A S r;
  st_free k p : (k < nsize)%nat → p ∈ fl k ↔ ∃ i, p = baddr k i ∧ is_free top A S k i;
  st_live : is_live top A S k i;
  st_buddy : A k (buddy_of i) = true;
  st_client : k = 0%nat → r ≤ i;
}.

(** Merging with a free buddy. *)
Lemma inv_merge r b b1 A S fl k i : inv r b A S fl → (k < top)%nat → is_live top A S k i → (k = 0%nat → r ≤ i) →
  A k (buddy_of i) = false → rep b1 (bupd A k i false) S fl →
  ∃ b2 b3 l, free_remove (baddr k (buddy_of i)) b1 = (Ok (), b2) ∧ split_set (Datatypes.S k) (i / 2) false b2 = (Ok (), b3) ∧
    b_base b2 = base ∧
    inv r b3 (bupd A k i false) (bupd S (Datatypes.S k) (i / 2) false) (lupd fl k l) ∧
    length (fl k) = Datatypes.S (length l).
Proof.
  intros [R G Hfr Hn Hb Hh] Hk Hl Hr Hbud R1. pose proof Hl as (Hi&Ha&Hs).
  assert (Hkn : (k < nsize)%nat) by (unfold top in *; lia).
  pose proof (buddy_free top G k i Hk Hl Hbud) as Hbf.
  assert (Hin : baddr k (buddy_of i) ∈ fl k) by (apply Hfr; eauto).
  apply list_elem_of_split in Hin as (l1&l2&El).
  destruct (rep_remove b1 _ S fl k l1 _ l2 R1 Hkn El) as (b2&Hrem&R2).
  destruct (rep_split_set b2 _ S _ (Datatypes.S k) (i / 2) false R2) as (b3&Hset&R3);
    [lia|lia|by apply in_tree_parent|].
  exists b2, b3, (l1 ++ l2). split_and!; [done|done|apply R2| |rewrite El, !length_app; simpl; lia].
  assert (Hfm : ∀ k' i', is_free top (bupd A k i false) (bupd S (Datatypes.S k) (i / 2) false) k' i'
    ↔ is_free top A S k' i' ∧ ¬ (k' = k ∧ i' = buddy_of i)) by (intros; by apply (free_merge top)).
  split; try done; [by apply good_merge|]. intros k' p Hk'. setoid_rewrite Hfm. unfold lupd. case_decide as E.
  - subst k'. pose proof (rp_ring _ _ _ _ R k Hkn) as [Hd _]. rewrite El in Hd.
    apply NoDup_cons in Hd as [_ Hd]. apply NoDup_app in Hd as (_&Hd1&Hd2). apply NoDup_cons in Hd2 as [Hd2 _].
    specialize (Hfr k p Hkn). rewrite El in Hfr. split.
    + intros Hp. destruct (proj1 Hfr) as (j&->&Hj); [set_solver|]. exists j. split_and!; try done.
      intros [_ ->]. apply elem_of_app in Hp as [Hp|Hp]; [apply (Hd1 _ Hp); by left|done].
    + intros (j&->&Hj&Hne). pose proof (proj2 Hfr ltac:(eauto)) as Hin.
      rewrite elem_of_app, elem_of_cons in Hin. destruct Hin as [?|[E|?]]; [set_solver| |set_solver].
      exfalso. apply Hne. by apply (baddr_free_inj G) in E as [_ ->].
  - rewrite (Hfr k' p Hk'). naive_solver.
Qed.

(** The loop of [dealloc] merges the block with free buddies as long as there
    are any. *)
Lemma merge_loop_spec r n : ∀ k b A S fl i fk, inv r b A S fl → is_live top A S k i → (k = 0%nat → r ≤ i) →
  n = (top - k)%nat → fk = k →
  ∃ b' A' S' fl' k' i', merge_loop n k (baddr k i) fk b = (Ok (baddr k' i', k'), b') ∧ stopped r b' A' S' fl' k' i' ∧
    (∀ j x, is_live top A' S' j x ↔ (is_live top A S j x ∧ ¬ (j = k ∧ x = i)) ∨ j = k' ∧ x = i') ∧
    (is_live top A S k' i' → k' = k ∧ i' = i) ∧
    fbytes fl' = fbytes fl + blk_size k - blk_size k'.
Proof.
  induction n as [|n IH]; intros k b A S fl i fk I Hl Hr Hn ->; pose proof I as [R G Hfr Hns _ _];
    pose proof (live_below_top _ _ _ _ _ G ltac:(unfold top; lia) Hl) as Hk; [lia|].
  pose proof Hl as (Hi&Ha&Hs). cbn [merge_loop]. unfold mbind, M_bind, m_get, lift.
  rewrite blk_index_baddr; [|apply R|apply Hi]. fold (buddy_of i).
  destruct (rep_alloc_set b A S fl k i false R) as (b1&Hset&R1); [lia|done|]. rewrite Hset.
  assert (Hbin : in_tree top k (buddy_of i)) by (by apply buddy_in_tree).
  rewrite (rep_alloc_isset b1 _ S fl k (buddy_of i) R1) by (lia || done).
  destruct (buddy_spec i) as (_&Hbne&_&Hcase). rewrite bupd_ne by lia. destruct (A k (buddy_of i)) eqn:Hbud.
  - exists b1, A, S, fl, k, i. split_and!; [done|by split| |done|lia]. intros j x.
    destruct (decide (j = k ∧ x = i)) as [[-> ->]|]; naive_solver.
  - destruct (inv_merge r b b1 A S fl k i I Hk Hl Hr Hbud R1) as (b2&b3&l&Hrem&Hspl&Hb2&I3&Hlen).
    assert (Haddr : addr b k (buddy_of i) = baddr k (buddy_of i)) by (unfold addr, baddr; by rewrite (rp_base _ _ _ _ R)).
    rewrite Haddr, Hrem.
    assert (Hp : (if buddy_of i mod 2 =? 0 then baddr k (buddy_of i) else baddr k i) = baddr (Datatypes.S k) (i / 2)).
    { rewrite baddr_left. destruct (Z.eqb_spec (buddy_of i mod 2) 0); f_equal; destruct Hcase; lia. }
    rewrite Hp, blk_index_baddr; [|apply R|destruct Hi; lia]. rewrite Hspl.
    assert (Hl3 : ∀ j x, is_live top (bupd A k i false) (bupd S (Datatypes.S k) (i / 2) false) j x ↔
      (is_live top A S j x ∧ ¬ (j = k ∧ x = i)) ∨ j = Datatypes.S k ∧ x = i / 2) by (intros; by apply (live_merge top G)).
    destruct (IH (Datatypes.S k) b3 _ _ _ (i / 2) (Datatypes.S k) I3) as (b'&A'&S'&fl'&k'&i'&Hrun&Hst&Hl'&Hnew&Hby);
      [apply Hl3; by right|lia|lia|done|].
    assert (Hpar : ¬ is_live top A S (Datatypes.S k) (i / 2)).
    { intros (_&_&Hs'). by rewrite (g_alloc_parent _ _ _ _ G k i Hk Hi Ha) in Hs'. }
    exists b', A', S', fl', k', i'. split_and!; [done|done| | |].
    + intros j x. rewrite Hl', Hl3. naive_solver.
    + intros Hx. destruct (decide (k' = k ∧ i' = i)) as [|Hne]; [done|]. exfalso.
      destruct Hnew as [-> ->]; [apply Hl3; by left|done].
    + rewrite Hby, fbytes_lupd, blk_size_S by (unfold top in *; lia). rewrite Hlen. lia.
Qed.

Lemma dealloc_spec r b A S fl k i : inv r b A S fl → is_live top A S k i → (k = 0%nat → r ≤ i) →
  ∃ b' A' S' fl', dealloc (baddr k i) b = (Ok (), b') ∧ inv r b' A' S' fl' ∧
    (∀ j x, is_live top A' S' j x ↔ is_live top A S j x ∧ ¬ (j = k ∧ x = i)) ∧
    fbytes fl' = fbytes fl + blk_size k.
Proof.
  intros I Hl Hr. pose proof I as [R G _ Hns Hb Hh]. destruct (rp_sizes _ _ _ _ R) as (szs&Esz&_).
  unfold dealloc, mbind, M_bind, m_get. rewrite (size_spec r b A S fl k i I Hl), Esz, (size_spec r b A S fl k i I Hl).
  destruct (merge_loop_spec r (top - k) k b A S fl i k I Hl Hr eq_refl eq_refl)
    as (b1&A1&S1&fl1&k1&i1&Hrun&[R1 G1 Hfr1 Hl1 Hb1 Hr1]&Hlive&Hnew&Hby).
  unfold max_size. rewrite (rp_nsize _ _ _ _ R). fold top. rewrite Hrun.
  pose proof (live_below_top _ _ _ _ _ G1 ltac:(unfold top; lia) Hl1) as Hk1.
  pose proof (good_release top G1 k1 i1 Hk1 Hl1 Hb1 Hr1) as G2.
  assert (Hf2 : ∀ k' i', is_free top (bupd A1 k1 i1 false) S1 k' i' ↔ is_free top A1 S1 k' i' ∨ k' = k1 ∧ i' = i1)
    by (intros; by apply (free_release top G1)).
  assert (Hno : ¬ is_free top A1 S1 k1 i1) by (intros (_&_&?&_); destruct Hl1 as (_&?&_); congruence).
  destruct (rep_push b1 _ S1 fl1 k1 (baddr k1 i1) R1) as (b2&Hpush&R2); [unfold top in *; lia| |].
  { apply (fresh_addr G2); [done|apply Hf2; by right|]. intros k' p Hk' Hp. apply (Hfr1 k' p Hk') in Hp as (i'&->&Hf').
    exists i'. split_and!; [done|apply Hf2; by left|]. intros [-> ->]. done. }
  rewrite Hpush. do 4 eexists. split; [reflexivity|]. split_and!.
  - split; try done. intros k' p Hk'. setoid_rewrite Hf2. unfold lupd. case_decide as E.
    + subst k'. rewrite elem_of_cons, (Hfr1 k1 p Hk'). naive_solver.
    + rewrite (Hfr1 k' p Hk'). naive_solver.
  - intros j x. rewrite live_release, Hlive.
    destruct (decide (j = k1 ∧ x = i1)) as [[-> ->]|]; naive_solver.
  - rewrite fbytes_lupd by (unfold top in *; lia). simpl length. lia.
Qed.
End rep.
