(* ===== verification/BuddyInit.v ===== *)
(** * Starting the buddy allocator

    [BuddyAllocator::init] of [kernel/src/buddy.rs]: where the allocator puts
    its own data, how it marks that data and the memory past the end as in
    use, and which blocks go on the free lists. *)

From stdpp Require Import base tactics numbers strings gmap list.
From S2P Require Import Prelude DList BuddyTree Buddy.
Local Open Scope Z_scope.

Definition set_geometry (base e : Z) (nsize : nat) (b : Buddy) : Buddy :=
  mkBuddy (b_initialized b) base e nsize (b_sizes b) (b_mem b).
Definition set_end (e : Z) (b : Buddy) : Buddy :=
  mkBuddy (b_initialized b) (b_base b) e (b_nsize b) (b_sizes b) (b_mem b).
Definition set_initialized (v : bool) (b : Buddy) : Buddy :=
  mkBuddy v (b_base b) (b_end b) (b_nsize b) (b_sizes b) (b_mem b).

(** [fn log2].  The loop halves [n], so as many passes as [n] has bits are
    enough. *)
Fixpoint log2_loop (fuel : nat) (n : Z) (k : nat) : nat :=
  match fuel with
  | O => k
  | S fuel => if n >? 1 then log2_loop fuel (Z.shiftr n 1) (S k) else k
  end.
Definition log2 (n : Z) : nat := log2_loop 64 n 0.

(** [mark]: the loop over the blocks [bi..bj] of size [k]. *)
Fixpoint mark_blocks (k : nat) (bi : Z) (n : nat) : BM () :=
  match n with
  | O => mret ()
  | S n =>
      _ ← (if (0 <? k)%nat then split_set k bi true else mret ());
      _ ← alloc_set k bi true;
      mark_blocks k (bi + 1) n
  end.
Definition mark_level (start stop : Z) (k : nat) : BM () :=
  b ← m_get;
  bi ← lift (blk_index b k start);
  bj ← lift (blk_index_next b k stop);
  mark_blocks k bi (Z.to_nat (bj - bi)).
Definition mark (start stop : Z) : BM () :=
  if (start mod LEAF_SIZE =? 0) && (stop mod LEAF_SIZE =? 0) then
    b ← m_get;
    match b_sizes b with
    | None => m_panic
    | Some szs => m_for (seq 0 (length szs)) (mark_level start stop)
    end
  else m_panic.

(** [initfree_pair]. *)
Definition initfree_pair (k : nat) (bi : Z) : BM Z :=
  let buddy := if bi mod 2 =? 0 then bi + 1 else bi - 1 in
  b ← m_get;
  match b_sizes b with
  | None => mret 0
  | Some _ =>
      x ← alloc_isset k bi;
      y ← alloc_isset k buddy;
      if negb (Bool.eqb x y) then
        _ ← (if x : bool then free_push k (addr b k buddy) else free_push k (addr b k bi));
        mret (blk_size k)
      else mret 0
  end.

(** The loop of [initfree] from size [k] on. *)
Fixpoint initfree_loop (bd_left bd_right : Z) (k n : nat) (free : Z) : BM Z :=
  match n with
  | O => mret free
  | S n =>
      b ← m_get;
      left ← lift (blk_index_next b k bd_left);
      right ← lift (blk_index b k bd_right);
      f ← initfree_pair k left;
      f' ← (if left <? right then initfree_pair k right else mret 0);
      initfree_loop bd_left bd_right (S k) n (free + f + f')
  end.
Definition initfree (bd_left : Z) : BM Z :=
  b ← m_get; initfree_loop bd_left (b_end b) 0 (max_size b) 0.

Definition mark_data_structures (p : Z) : BM Z :=
  b ← m_get; _ ← mark (b_base b) p; mret (p - b_base b).

Definition mark_unavailable : BM Z :=
  b ← m_get;
  let unavailable := blk_size (max_size b) - (b_end b - b_base b) in
  if unavailable <? 0 then m_panic else
  let unavailable := if unavailable >? 0 then round_up unavailable LEAF_SIZE else unavailable in
  _ ← mark (b_end b) (b_base b + blk_size (max_size b));
  mret unavailable.

(** [init_nonnull_slice] for the bit arrays: [len] zero bytes at [p]. *)
Definition zero_slice (len : Z) : list Z := replicate (Z.to_nat len) 0.
Definition arr_len (b : Buddy) (k : nat) : Z := round_up (nblk b k) 8 / 8.

(** The two loops that lay out the arrays of each size, [p] the first free
    address. *)
Fixpoint init_allocs (k n : nat) (p : Z) : BM Z :=
  match n with
  | O => mret p
  | S n =>
      b ← m_get;
      _ ← modify (λ b, set_mem (list_init (head_addr b k) (b_mem b)) b);
      z ← index_sizes k;
      _ ← modify (put_szinfo k (mkSzInfo (Some (zero_slice (arr_len b k))) (sz_split z)));
      init_allocs (S k) n (p + arr_len b k)
  end.
Fixpoint init_splits (k n : nat) (p : Z) : BM Z :=
  match n with
  | O => mret p
  | S n =>
      b ← m_get;
      z ← index_sizes k;
      _ ← modify (put_szinfo k (mkSzInfo (sz_alloc z) (Some (zero_slice (arr_len b k)))));
      init_splits (S k) n (p + arr_len b k)
  end.

(** The number of sizes for [len] bytes. *)
Definition nsize_of (len : Z) : nat :=
  let n := (log2 (len / LEAF_SIZE) + 1)%nat in
  if len >? blk_size (n - 1) then S n else n.

(** [BuddyAllocator::init]. *)
Definition init (base e : Z) : BM () :=
  b ← m_get;
  if b_initialized b then m_err "allocator init called twice"%string else
  if base <? 1 then m_panic else
  let p := round_up base (Z.max LEAF_SIZE MAX_ALIGN) in
  let e := round_down e (Z.max LEAF_SIZE MAX_ALIGN) in
  if e <? p then m_panic else
  let nsize := nsize_of (e - p) in
  _ ← modify (set_geometry p e nsize);
  _ ← modify (set_sizes (Some (replicate nsize (mkSzInfo None None))));
  p ← init_allocs 0 nsize (p + SZINFO_SIZE * Z.of_nat nsize);
  p ← init_splits 1 (nsize - 1) p;
  let p := round_up p LEAF_SIZE in
  meta ← mark_data_structures p;
  unavailable ← mark_unavailable;
  b ← m_get;
  _ ← modify (set_end (b_base b + blk_size (max_size b) - unavailable));
  free ← initfree p;
  if negb (free =? blk_size (max_size b) - meta - unavailable)
  then m_err "allocator bug: free != total - meta - unavailable"%string
  else modify (set_initialized true).

(** ** Laying out the arrays *)

(** The memory the arrays of the sizes [k..k+n] take. *)
Fixpoint arrays_len (top k n : nat) : Z :=
  match n with
  | O => 0
  | S n => round_up (2 ^ Z.of_nat (top - k)) 8 / 8 + arrays_len top (S k) n
  end.

Lemma arr_len_alt b k : arr_len b k = round_up (2 ^ Z.of_nat (max_size b - k)) 8 / 8.
Proof. unfold arr_len, nblk. by rewrite Z.shiftl_1_l. Qed.
Lemma arr_len_bits b k : 0 ≤ arr_len b k ∧ 2 ^ Z.of_nat (max_size b - k) ≤ 8 * arr_len b k.
Proof. rewrite arr_len_alt. unfold round_up. split; lia. Qed.

Lemma zero_slice_bits n i : 0 ≤ i → bit_isset (Some (zero_slice n)) i = false.
Proof.
  intros Hi. rewrite bit_isset_alt by done. unfold zero_slice.
  destruct (replicate _ _ !! _) as [x|] eqn:E; [|done]. apply lookup_replicate in E as [-> _]. simpl. apply Z.testbit_0_l.
Qed.

(** The entry and the list head of size [k] are set up; [splits] tells whether
    the split array is. *)
Record ready (base : Z) (nsize : nat) (k : nat) (split : bool) (b : Buddy) : Prop := {
  rd_info : ∃ z, szinfo b k = Some z ∧ sz_alloc z = Some (zero_slice (arr_len b k)) ∧
    sz_split z = if split then Some (zero_slice (arr_len b k)) else None;
  rd_list : ring (b_mem b) (haddr base k) [];
}.

(** What the loops keep. *)
Record shape (base e : Z) (nsize : nat) (b : Buddy) : Prop := {
  sh_init : b_initialized b = false;
  sh_base : b_base b = base;
  sh_end : b_end b = e;
  sh_nsize : b_nsize b = nsize;
  sh_sizes : ∃ szs, b_sizes b = Some szs ∧ length szs = nsize;
}.

Section layout.
Context (base e : Z) (nsize : nat).

Lemma shape_put b k z : shape base e nsize b → shape base e nsize (put_szinfo k z b).
Proof.
  intros [? ? ? ? (szs&E&Hl)]. split; try done. exists (<[k := z]> szs). simpl. rewrite E, length_insert. done.
Qed.
Lemma shape_mem b m : shape base e nsize b → shape base e nsize (set_mem m b).
Proof. by intros []. Qed.
Lemma shape_index b k : shape base e nsize b → (k < nsize)%nat → ∃ z, szinfo b k = Some z ∧ index_sizes k b = (Ok z, b).
Proof.
  intros [_ _ _ _ (szs&E&Hl)] Hk. unfold index_sizes, szinfo. rewrite E. simpl.
  destruct (lookup_lt_is_Some_2 szs k) as [z Hz]; [lia|]. exists z. by rewrite Hz.
Qed.
Lemma arr_len_put b k z : shape base e nsize b → arr_len (put_szinfo k z b) = arr_len b.
Proof. done. Qed.
Lemma haddr_inj k k' : haddr base k = haddr base k' → k = k'.
Proof. unfold haddr, SZINFO_SIZE. lia. Qed.

Lemma init_allocs_spec n : ∀ k p b, shape base e nsize b → (k + n ≤ nsize)%nat →
  (∀ j, (j < k)%nat → ready base nsize j false b) →
  (∀ j z, (k ≤ j)%nat → szinfo b j = Some z → sz_split z = None) →
  ∃ b', init_allocs k n p b = (Ok (p + arrays_len (nsize - 1) k n), b') ∧ shape base e nsize b' ∧
    (∀ j, (j < k + n)%nat → ready base nsize j false b').
Proof.
  induction n as [|n IH]; intros k p b Hs Hk Hr Hnone; cbn [init_allocs arrays_len].
  { exists b. rewrite Z.add_0_r. split_and!; [done|done|]. intros j Hj. apply Hr. lia. }
  set (b1 := set_mem (list_init (head_addr b k) (b_mem b)) b).
  destruct (shape_index b1 k (shape_mem _ _ Hs)) as (z&Hz&Hx); [lia|].
  set (b2 := put_szinfo k (mkSzInfo (Some (zero_slice (arr_len b k))) (sz_split z)) b1).
  assert (Hb2 : shape base e nsize b2) by (by apply shape_put, shape_mem).
  assert (Hbase : b_base b = base) by apply Hs.
  destruct (IH (S k) (p + arr_len b k) b2 Hb2) as (b'&Hrun&Hs'&Hr').
  - lia.
  - intros j Hj. split.
    + subst b2. rewrite szinfo_put. case_decide as E.
      * subst j. rewrite Hz. simpl. eexists. split_and!; try done. simpl. by apply (Hnone k).
      * destruct (Hr j) as [(z'&?&?&?) _]; [lia|]. by exists z'.
    + simpl. unfold head_addr. rewrite Hbase. fold (haddr base k). destruct (decide (j = k)) as [->|Hne]; [apply ring_init|].
      apply (ring_frame (b_mem b)); [|by apply Hr; lia]. intros x Hxin. unfold list_init. rewrite lookup_insert_ne; [done|].
      intros E. apply list_elem_of_singleton in Hxin as ->. apply Hne. by apply haddr_inj.
  - intros j z' Hj. subst b2. rewrite szinfo_put, decide_False by lia. apply (Hnone j). lia.
  - exists b'. split_and!; [|done|by intros j Hj; apply Hr'; lia].
    unfold mbind, M_bind, m_get, modify. fold b1. rewrite Hx. fold b2. rewrite Hrun.
    rewrite arr_len_alt. unfold max_size. rewrite (sh_nsize _ _ _ _ Hs). do 2 f_equal. lia.
Qed.

Lemma init_splits_spec n : ∀ k p b, shape base e nsize b → (k + n ≤ nsize)%nat → (0 < k)%nat →
  (∀ j, (j < nsize)%nat → ready base nsize j (bool_decide (0 < j < k)%nat) b) →
  ∃ b', init_splits k n p b = (Ok (p + arrays_len (nsize - 1) k n), b') ∧ shape base e nsize b' ∧
    (∀ j, (j < nsize)%nat → ready base nsize j (bool_decide (0 < j < k + n)%nat) b').
Proof.
  induction n as [|n IH]; intros k p b Hs Hk Hk0 Hr; cbn [init_splits arrays_len].
  { exists b. rewrite Z.add_0_r, Nat.add_0_r. done. }
  destruct (shape_index b k Hs) as (z&Hz&Hx); [lia|].
  set (b2 := put_szinfo k (mkSzInfo (sz_alloc z) (Some (zero_slice (arr_len b k)))) b).
  destruct (IH (S k) (p + arr_len b k) b2) as (b'&Hrun&Hs'&Hr'); [by apply shape_put|lia|lia| |].
  - intros j Hj. split; [|apply (Hr j Hj)]. subst b2. rewrite szinfo_put. destruct (Hr j Hj) as [(z'&Hz'&Ha'&Hs') _].
    destruct (decide (j = k)) as [->|E].
    + rewrite Hz. simpl. assert (z' = z) as -> by congruence. eexists. split_and!; [done|done|].
      by rewrite bool_decide_eq_true_2 by lia.
    + exists z'. split_and!; [done|done|]. rewrite Hs'. do 2 case_bool_decide; try done; lia.
  - exists b'. split_and!; [|done|].
    + unfold mbind, M_bind, m_get, modify. rewrite Hx. fold b2. rewrite Hrun.
      rewrite arr_len_alt. unfold max_size. rewrite (sh_nsize _ _ _ _ Hs). do 2 f_equal. lia.
    + intros j Hj. replace (k + S n)%nat with (S k + n)%nat by lia. by apply Hr'.
Qed.

(** After the layout no bit is set and every list is empty. *)
Lemma ready_rep b : shape base e nsize b → (∀ j, (j < nsize)%nat → ready base nsize j (bool_decide (0 < j < nsize)%nat) b) →
  rep base nsize b (λ _ _, false) (λ _ _, false) (λ _, []).
Proof.
  intros Hs Hr. assert (Hmx : max_size b = top nsize) by (unfold max_size; by rewrite (sh_nsize _ _ _ _ Hs)). split.
  - apply Hs.
  - apply Hs.
  - apply Hs.
  - intros k Hk. destruct (Hr k Hk) as [(z&Hz&Ha&Hsp) _]. exists z. rewrite Ha, Hsp, Hz, <-Hmx.
    pose proof (arr_len_bits b k) as [H0 Hlen]. assert (Hok : arr_ok (Some (zero_slice (arr_len b k))) (2 ^ Z.of_nat (max_size b - k))).
    { eexists. split; [done|]. unfold zero_slice. rewrite length_replicate, Z2Nat.id by done. done. }
    split_and!; [done|done| | |].
    + intros Hpos. by rewrite bool_decide_eq_true_2 by lia.
    + intros i [_ Hi]. rewrite !zero_slice_bits by lia. split; [done|]. intros Hpos.
      rewrite bool_decide_eq_true_2 by lia. by rewrite zero_slice_bits by lia.
    + intros i Hi. apply zero_slice_bits. lia.
  - intros k Hk. apply (Hr k Hk).
  - intros k k' x _ _ H1 H2. apply list_elem_of_singleton in H1, H2. apply haddr_inj. congruence.
Qed.
End layout.

(** ** Code that keeps the end address and the flag *)

Class Keeps {A} (m : BM A) : Prop :=
  keeps b : b_end (m b).2 = b_end b ∧ b_initialized (m b).2 = b_initialized b.

Global Instance keeps_ret {A} (a : A) : Keeps (mret a).
Proof. done. Qed.
Global Instance keeps_lift {A} (o : outcome string A) : Keeps (lift o).
Proof. done. Qed.
Global Instance keeps_get : Keeps m_get.
Proof. done. Qed.
Global Instance keeps_panic {A} : Keeps (m_panic (A:=A)).
Proof. done. Qed.
Global Instance keeps_bind {A B} (m : BM A) (f : A → BM B) : Keeps m → (∀ a, Keeps (f a)) → Keeps (mbind f m).
Proof.
  intros Hm Hf b. unfold mbind, M_bind. specialize (Hm b). destruct (m b) as [[a|err|] b1]; [|done..].
  destruct (Hf a b1) as [-> ->]. done.
Qed.
Global Instance keeps_index k : Keeps (index_sizes k).
Proof. intros b. unfold index_sizes. by destruct (szinfo b k). Qed.
Global Instance keeps_put k z : Keeps (modify (put_szinfo k z)).
Proof. done. Qed.
Global Instance keeps_lists {A} (f : Buddy → option (A * NodeMem)) : Keeps (on_lists f).
Proof. intros b. unfold on_lists. by destruct (f b) as [[]|]. Qed.
Global Instance keeps_if {A} (c : bool) (m m' : BM A) : Keeps m → Keeps m' → Keeps (if c then m else m').
Proof. by destruct c. Qed.
Global Instance keeps_for {A} (l : list A) (f : A → BM ()) : (∀ a, Keeps (f a)) → Keeps (m_for l f).
Proof. intros Hf. induction l; simpl; apply _. Qed.
Global Instance keeps_mark_blocks k bi n : Keeps (mark_blocks k bi n).
Proof. revert bi. induction n; intros; simpl; apply _. Qed.
Global Instance keeps_mark s t : Keeps (mark s t).
Proof. unfold mark. apply keeps_if; [|apply _]. apply keeps_bind; [apply _|]. intros b. destruct (b_sizes b); apply _. Qed.

(** ** Marking *)

Section marking.
Context (base : Z) (nsize : nat).
Abbreviation top := (top nsize).
Abbreviation rep := (rep base nsize).

Definition fill (f : Bits) (k : nat) (lo hi : Z) : Bits :=
  λ k' i, if decide (k' = k ∧ lo ≤ i < hi) then true else f k' i.

Lemma mark_blocks_spec k n : ∀ b A S fl bi, rep b A S fl → (k ≤ top)%nat → (0 < nsize)%nat →
  0 ≤ bi → bi + Z.of_nat n ≤ 2 ^ Z.of_nat (top - k) →
  ∃ b', mark_blocks k bi n b = (Ok (), b') ∧
    rep b' (fill A k bi (bi + Z.of_nat n)) (fill S k bi (bi + Z.of_nat n)) fl.
Proof.
  induction n as [|n IH]; intros b A S fl bi R Hk Hn Hbi Hend; cbn [mark_blocks].
  - exists b. split; [done|]. eapply rep_ext; [done|]. intros k' i _. unfold fill. rewrite !decide_False by lia. done.
  - assert (Hin : in_tree top k bi) by (split; [done|lia]).
    assert (Hsplit : ∃ b1, (if (0 <? k)%nat then split_set k bi true else mret ()) b = (Ok (), b1) ∧
              rep b1 A (bupd S k bi true) fl).
    { destruct (Nat.ltb_spec 0 k) as [Hpos|].
      - by apply rep_split_set.
      - exists b. split; [done|]. eapply rep_ext; [done|]. intros k' i _. split; [done|]. intros. by rewrite bupd_ne by lia. }
    destruct Hsplit as (b1&Hrun1&R1). destruct (rep_alloc_set _ _ b1 A _ fl k bi true R1 Hn Hin) as (b2&Hrun2&R2).
    destruct (IH b2 _ _ fl (bi + 1) R2 Hk Hn) as (b'&Hrun&R'); [lia|lia|]. exists b'. split.
    + rewrite (bind_ok _ _ _ _ _ Hrun1), (bind_ok _ _ _ _ _ Hrun2). done.
    + eapply rep_ext; [exact R'|]. intros k' i _. unfold fill, bupd. split; [|intros _]; repeat case_decide; try done; lia.
Qed.

(** The blocks of size [k] that overlap the bytes [s..t] of the memory. *)
Definition lo (k : nat) (s : Z) : Z := s / blk_size k.
Definition hi (k : nat) (t : Z) : Z := if t mod blk_size k =? 0 then t / blk_size k else t / blk_size k + 1.

Lemma hi_spec k t n : hi k t ≤ n ↔ t ≤ n * blk_size k.
Proof.
  unfold hi. pose proof (blk_size_pos k). pose proof (Z.div_mod t (blk_size k)). pose proof (Z.mod_pos_bound t (blk_size k)).
  destruct (Z.eqb_spec (t mod blk_size k) 0); nia.
Qed.
Lemma lo_spec k s n : n ≤ lo k s ↔ n * blk_size k ≤ s.
Proof.
  unfold lo. pose proof (blk_size_pos k). pose proof (Z.div_mod s (blk_size k)). pose proof (Z.mod_pos_bound s (blk_size k)). nia.
Qed.

Definition marked (f : Bits) (s t : Z) : Bits := λ k i, if decide (lo k s ≤ i < hi k t) then true else f k i.

Lemma blk_size_top k : (k ≤ top)%nat → blk_size top = 2 ^ Z.of_nat (top - k) * blk_size k.
Proof. intros. replace top with (k + (top - k))%nat at 1 by lia. apply blk_size_add. Qed.

Lemma mark_level_spec k b A S fl s t : rep b A S fl → (k ≤ top)%nat → (0 < nsize)%nat →
  0 ≤ s ≤ t → t ≤ blk_size top →
  ∃ b', mark_level (base + s) (base + t) k b = (Ok (), b') ∧
    rep b' (fill A k (lo k s) (hi k t)) (fill S k (lo k s) (hi k t)) fl.
Proof.
  intros R Hk Hn Hs Ht. unfold mark_level, mbind, M_bind, m_get, lift, blk_index, blk_index_next.
  rewrite (rp_base _ _ _ _ _ _ R), !(proj2 (Z.ltb_ge _ _)) by lia.
  replace (base + s - base) with s by lia. replace (base + t - base) with t by lia. fold (lo k s) (hi k t).
  rewrite (blk_size_top k Hk) in Ht. apply hi_spec in Ht.
  assert (H0 : 0 ≤ lo k s) by (apply lo_spec; lia).
  destruct (decide (hi k t ≤ lo k s)) as [Hle|Hgt].
  - replace (Z.to_nat (hi k t - lo k s)) with 0%nat by lia. exists b. split; [done|]. eapply rep_ext; [done|].
    intros k' i _. unfold fill. rewrite !decide_False by lia. done.
  - destruct (mark_blocks_spec k (Z.to_nat (hi k t - lo k s)) b A S fl (lo k s) R Hk Hn H0) as (b'&Hrun&R'); [lia|].
    exists b'. split; [done|]. by replace (lo k s + Z.of_nat (Z.to_nat (hi k t - lo k s))) with (hi k t) in R' by lia.
Qed.

Lemma mark_spec b A S fl s t : rep b A S fl → (0 < nsize)%nat → 0 ≤ s ≤ t → t ≤ blk_size top →
  (base + s) mod 16 = 0 → (base + t) mod 16 = 0 →
  ∃ b', mark (base + s) (base + t) b = (Ok (), b') ∧ rep b' (marked A s t) (marked S s t) fl.
Proof.
  intros R Hn Hs Ht Hms Hmt. unfold mark, LEAF_SIZE. rewrite Hms, Hmt.
  change ((0 =? 0) && (0 =? 0)) with true. cbv iota.
  destruct (rp_sizes _ _ _ _ _ _ R) as (szs&E&Hl).
  assert (Hloop : ∀ n k b A S, rep b A S fl → (k + n = nsize)%nat →
    ∃ b', m_for (seq k n) (mark_level (base + s) (base + t)) b = (Ok (), b') ∧
      rep b' (λ k' i, if decide (k ≤ k')%nat then marked A s t k' i else A k' i)
             (λ k' i, if decide (k ≤ k')%nat then marked S s t k' i else S k' i) fl).
  { clear b A S R E. induction n as [|n IH]; intros k b A S R Hk; cbn [seq m_for].
    - exists b. split; [done|]. eapply rep_ext; [done|]. intros k' i [Hk' _]. unfold Buddy.top in Hk'.
      rewrite !decide_False by (simpl in *; lia). done.
    - destruct (mark_level_spec k b A S fl s t R) as (b1&Hrun1&R1); [unfold Buddy.top; lia|lia|lia|done|].
      destruct (IH (Datatypes.S k) b1 _ _ R1) as (b'&Hrun&R'); [lia|]. exists b'. split.
      + by rewrite (bind_ok _ _ _ _ _ Hrun1).
      + eapply rep_ext; [exact R'|]. intros k' i _. unfold marked, fill.
        destruct (decide (k' = k)) as [->|]; (split; [|intros _]); repeat case_decide; try done; lia. }
  destruct (Hloop nsize 0%nat b A S R eq_refl) as (b'&Hrun&R'). exists b'. split.
  - rewrite (bind_ok m_get _ b b b eq_refl), E, Hl. done.
  - eapply rep_ext; [exact R'|]. intros k' i _. cbv beta. rewrite !decide_True by lia. done.
Qed.
End marking.

(** ** The free lists at the start *)

Section initfree.
Context (base : Z) (nsize : nat) (s t : Z).
Context (Hs : 0 < s) (Hst : 4 * s ≤ t) (Ht : t ≤ blk_size (top nsize)) (Hms : s mod 16 = 0) (Hmt : t mod 16 = 0).
Context (Hn : (2 ≤ nsize)%nat) (Hbase : 0 < base) (Hr : 3 * Z.of_nat nsize ≤ s / 16).
Abbreviation top := (top nsize).
Abbreviation nb k := (2 ^ Z.of_nat (top - k)).

(** The blocks [L k..R k] of size [k] lie in the memory to hand out. *)
Definition L (k : nat) : Z := hi k s.
Definition R (k : nat) : Z := lo k t.
Definition A0 : Bits := λ k i, bool_decide (i < L k ∨ R k ≤ i).
Definition S0 : Bits := λ k i, (0 <? k)%nat && A0 k i.

Lemma L_spec k n : L k ≤ n ↔ s ≤ n * blk_size k.
Proof. apply hi_spec. Qed.
Lemma R_spec k n : n ≤ R k ↔ n * blk_size k ≤ t.
Proof. apply lo_spec. Qed.
Lemma L_pos k : 0 < L k.
Proof. destruct (Z.lt_ge_cases 0 (L k)) as [|Hle]; [done|]. apply L_spec in Hle. lia. Qed.
Lemma R_le k : (k ≤ top)%nat → R k ≤ nb k.
Proof.
  intros Hk. destruct (Z.le_gt_cases (R k) (nb k)) as [|Hgt]; [done|].
  assert (Hle : nb k + 1 ≤ R k) by lia. apply R_spec in Hle. rewrite (blk_size_top nsize k Hk) in Ht.
  pose proof (blk_size_pos k). nia.
Qed.
Lemma R_nonneg k : 0 ≤ R k.
Proof. apply R_spec. lia. Qed.
Lemma L_S k : L (S k) = (L k + 1) / 2.
Proof.
  assert (H : ∀ n, L (S k) ≤ n ↔ (L k + 1) / 2 ≤ n).
  { intros n. rewrite L_spec, blk_size_S. transitivity (L k ≤ 2 * n); [|lia]. rewrite L_spec. lia. }
  pose proof (H (L (S k))). pose proof (H ((L k + 1) / 2)). lia.
Qed.
Lemma R_S k : R (S k) = R k / 2.
Proof.
  assert (H : ∀ n, n ≤ R (S k) ↔ n ≤ R k / 2).
  { intros n. rewrite R_spec, blk_size_S. transitivity (2 * n ≤ R k); [|lia]. rewrite R_spec. lia. }
  pose proof (H (R (S k))). pose proof (H (R k / 2)). lia.
Qed.

(** The two boundary pairs of a size are different pairs. *)
Lemma no_clash k : L k mod 2 = 0 → R k ≠ L k + 1.
Proof.
  intros He E. pose proof (L_pos k) as Hp. pose proof (blk_size_pos k) as Hb.
  assert (H1 : ¬ L k ≤ L k - 1) by lia. rewrite L_spec in H1.
  assert (H2 : ¬ L k + 2 ≤ R k) by lia. rewrite R_spec in H2.
  assert (H3 : (4 * (L k - 1)) * blk_size k < (L k + 2) * blk_size k) by lia.
  apply Z.mul_lt_mono_pos_r in H3; lia.
Qed.

Lemma L_top : R top ≤ L top.
Proof. pose proof (L_pos top). pose proof (R_le top ltac:(done)) as HR. rewrite Nat.sub_diag in HR. simpl in HR. lia. Qed.

Lemma S0_pos k i : (0 < k)%nat → S0 k i = A0 k i.
Proof. intros. unfold S0. by rewrite (proj2 (Nat.ltb_lt 0 k)). Qed.

Lemma good0 : good top A0 S0 (s / 16).
Proof.
  assert (Hb0 : blk_size 0 = 16) by done. split.
  - intros k i _ HS. unfold S0 in HS. by apply andb_true_iff in HS as [_ ?].
  - done.
  - intros k i Hk [_ Hi] HA. rewrite S0_pos by lia. apply bool_decide_eq_true in HA. apply bool_decide_eq_true.
    rewrite L_S, R_S. lia.
  - intros k i Hk [_ Hi]. rewrite S0_pos by lia. unfold A0. rewrite !bool_decide_eq_true, L_S, R_S.
    pose proof (no_clash k). lia.
  - split; [lia|]. assert (s ≤ 2 ^ Z.of_nat top * 16); [|lia].
    rewrite (blk_size_top nsize 0) in Ht by lia. rewrite Nat.sub_0_r, Hb0 in Ht. lia.
  - intros i Hi. apply bool_decide_eq_true. left. destruct (Z.lt_ge_cases i (L 0)) as [|Hge]; [done|].
    apply L_spec in Hge. rewrite Hb0 in Hge. lia.
Qed.

(** What is free at the start: at most two blocks of each size. *)
Definition free0 (k : nat) : list Z :=
  if L k <? R k then
    (if R k mod 2 =? 0 then [] else [baddr base k (R k - 1)]) ++ (if L k mod 2 =? 0 then [] else [baddr base k (L k)])
  else [].

Lemma is_free0 k i : is_free top A0 S0 k i ↔
  (k < top)%nat ∧ L k < R k ∧ (i = L k ∧ L k mod 2 ≠ 0 ∨ i = R k - 1 ∧ R k mod 2 ≠ 0).
Proof.
  unfold is_free. pose proof (L_pos k). pose proof (no_clash k). split.
  - intros (Hk&[_ Hi]&HA&HS). rewrite S0_pos in HS by lia. apply bool_decide_eq_false in HA. apply bool_decide_eq_true in HS.
    rewrite L_S, R_S in HS. split; [done|]. lia.
  - intros (Hk&HLR&Hi). pose proof (R_le k ltac:(lia)). split_and!; [done|split; [lia|lia]| |].
    + apply bool_decide_eq_false. lia.
    + rewrite S0_pos by lia. apply bool_decide_eq_true. rewrite L_S, R_S. lia.
Qed.

Lemma elem_free0 k p : p ∈ free0 k ↔
  L k < R k ∧ (p = baddr base k (L k) ∧ L k mod 2 ≠ 0 ∨ p = baddr base k (R k - 1) ∧ R k mod 2 ≠ 0).
Proof.
  unfold free0. destruct (Z.ltb_spec (L k) (R k)); [|set_solver by lia].
  destruct (Z.eqb_spec (R k mod 2) 0), (Z.eqb_spec (L k mod 2) 0); simpl; rewrite ?elem_of_cons, ?elem_of_nil; naive_solver.
Qed.

(** The bytes of the free blocks add up to the memory to hand out. *)
Definition W (k : nat) : Z := if L k <? R k then (R k - L k) * blk_size k else 0.

Lemma W_step k : W k = Z.of_nat (length (free0 k)) * blk_size k + W (S k).
Proof.
  unfold W, free0. rewrite L_S, R_S, blk_size_S. pose proof (L_pos k). pose proof (no_clash k) as Hc.
  destruct (Z.ltb_spec (L k) (R k)) as [Hlt|Hge]; cycle 1.
  { rewrite (proj2 (Z.ltb_ge _ _)) by lia. simpl. lia. }
  destruct (Z.eqb_spec (R k mod 2) 0), (Z.eqb_spec (L k mod 2) 0); simpl length;
    destruct (Z.ltb_spec ((L k + 1) / 2) (R k / 2)) as [H2|H2]; rewrite ?Z.mul_assoc, <-?Z.mul_add_distr_r, ?Z.add_0_r;
    try (f_equal; lia); lia.
Qed.

Definition abit (k : nat) (i : Z) : bool := bool_decide (i < nb k) && A0 k i.

Lemma abit_spec b fl k i : rep base nsize b A0 S0 fl → (k ≤ top)%nat → 0 ≤ i → alloc_isset k i b = (Ok (abit k i), b).
Proof.
  intros Rp Hk Hi. unfold abit. case_bool_decide.
  - erewrite rep_alloc_isset; [done|done|lia|by split].
  - erewrite rep_alloc_outside; [done|done|unfold Buddy.top in *; lia|lia].
Qed.

Lemma buddy_nonneg i : 0 ≤ i → 0 ≤ buddy_of i.
Proof. destruct (buddy_spec i) as (_&_&_&[?|?]); lia. Qed.

Lemma rep_fl_ext b A S fl fl' : rep base nsize b A S fl → (∀ k, (k < nsize)%nat → fl k = fl' k) → rep base nsize b A S fl'.
Proof.
  intros [? ? ? ? Hring Hdisj] Hfl. split; try done.
  - intros k Hk. rewrite <-Hfl by done. by apply Hring.
  - intros k1 k2 x Hk1 Hk2. rewrite <-!Hfl by done. by apply Hdisj.
Qed.

(** [initfree_pair] adds the free half of a pair, if it has just one. *)
Lemma initfree_pair_none b fl k i : rep base nsize b A0 S0 fl → (k < top)%nat → 0 ≤ i →
  abit k i = abit k (buddy_of i) → initfree_pair k i b = (Ok 0, b).
Proof.
  intros Rp Hk Hi E. unfold initfree_pair. fold (buddy_of i). destruct (rp_sizes _ _ _ _ _ _ Rp) as (szs&Es&_).
  rewrite (bind_ok m_get _ b b b eq_refl), Es.
  rewrite (bind_ok _ _ _ _ _ (abit_spec b fl k i Rp ltac:(lia) Hi)).
  rewrite (bind_ok _ _ _ _ _ (abit_spec b fl k (buddy_of i) Rp ltac:(lia) (buddy_nonneg i Hi))).
  by rewrite E, Bool.eqb_reflx.
Qed.
Lemma initfree_pair_push b fl k i x : rep base nsize b A0 S0 fl → (k < top)%nat → 0 ≤ i →
  abit k i ≠ abit k (buddy_of i) → x = (if abit k i then buddy_of i else i) → is_free top A0 S0 k x →
  (∀ k' p, (k' < nsize)%nat → p ∈ fl k' → ∃ j, p = baddr base k' j ∧ is_free top A0 S0 k' j ∧ ¬ (k' = k ∧ j = x)) →
  ∃ b', initfree_pair k i b = (Ok (blk_size k), b') ∧ rep base nsize b' A0 S0 (lupd fl k (baddr base k x :: fl k)).
Proof.
  intros Rp Hk Hi Hne Hx Hf Hfl. unfold initfree_pair. fold (buddy_of i). destruct (rp_sizes _ _ _ _ _ _ Rp) as (szs&Es&_).
  destruct (rep_push base nsize b A0 S0 fl k (baddr base k x) Rp) as (b'&Hpush&R').
  { unfold Buddy.top in Hk; lia. }
  { by apply (fresh_addr base nsize good0). }
  exists b'. split; [|done]. rewrite (bind_ok m_get _ b b b eq_refl), Es.
  rewrite (bind_ok _ _ _ _ _ (abit_spec b fl k i Rp ltac:(lia) Hi)).
  rewrite (bind_ok _ _ _ _ _ (abit_spec b fl k (buddy_of i) Rp ltac:(lia) (buddy_nonneg i Hi))).
  rewrite (proj2 (Bool.eqb_false_iff _ _) Hne). change (negb false) with true. cbv iota. unfold addr. rewrite (rp_base _ _ _ _ _ _ Rp).
  fold (baddr base k (buddy_of i)) (baddr base k i). erewrite bind_ok; [reflexivity|]. subst x. by destruct (abit k i).
Qed.

(** The free lists when the sizes below [k] are done. *)
Definition upto (k : nat) : nat → list Z := λ j, if decide (j < k)%nat then free0 j else [].

Lemma upto_free k x k' p : (k ≤ top)%nat → p ∈ upto k k' →
  ∃ j, p = baddr base k' j ∧ is_free top A0 S0 k' j ∧ ¬ (k' = k ∧ j = x).
Proof.
  intros Hk. unfold upto. case_decide as Hlt; [|set_solver]. rewrite elem_free0. intros [HLR [[-> Ho]|[-> Ho]]].
  - exists (L k'). split_and!; [done|apply is_free0; split_and!; [lia|done|by left]|lia].
  - exists (R k' - 1). split_and!; [done|apply is_free0; split_and!; [lia|done|by right]|lia].
Qed.

Lemma abit_cases k i : (k < top)%nat → 0 ≤ i → abit k i = true ↔ i < nb k ∧ (i < L k ∨ R k ≤ i).
Proof. intros. unfold abit, A0. rewrite andb_true_iff, !bool_decide_eq_true. done. Qed.
Lemma abit_false k i : (k < top)%nat → 0 ≤ i → abit k i = false ↔ nb k ≤ i ∨ L k ≤ i < R k.
Proof. intros. rewrite <-not_true_iff_false, abit_cases by done. lia. Qed.

(** The pairs at the two boundaries of size [k]. *)
Lemma left_pair b k : rep base nsize b A0 S0 (upto k) → (k < top)%nat →
  ∃ b', initfree_pair k (L k) b = (Ok (if (L k <? R k) && negb (L k mod 2 =? 0) then blk_size k else 0), b') ∧
    rep base nsize b' A0 S0 (lupd (upto k) k (if (L k <? R k) && negb (L k mod 2 =? 0) then [baddr base k (L k)] else [])).
Proof.
  intros Rp Hk. pose proof (L_pos k) as HL. pose proof (no_clash k) as Hc. pose proof (R_le k ltac:(lia)) as HR.
  pose proof (R_nonneg k). pose proof (pow_half top k Hk) as Hnb.
  destruct (buddy_spec (L k)) as (_&_&_&Hbc).
  destruct ((L k <? R k) && negb (L k mod 2 =? 0)) eqn:E.
  - apply andb_true_iff in E as [Hlt Ho]. apply Z.ltb_lt in Hlt. apply negb_true_iff, Z.eqb_neq in Ho.
    assert (H1 : abit k (L k) = false) by (apply abit_false; lia).
    assert (H2 : abit k (buddy_of (L k)) = true) by (apply abit_cases; lia).
    destruct (initfree_pair_push b (upto k) k (L k) (L k)) as (b'&Hrun&R'); try done; try lia.
    + congruence.
    + by rewrite H1.
    + apply is_free0. split_and!; [done|done|by left].
    + intros k' p _. apply upto_free. lia.
    + exists b'. split; [done|]. unfold upto in R' at 2. by rewrite decide_False in R' by lia.
  - exists b. split.
    + apply (initfree_pair_none b (upto k)); [done|done|lia|]. apply andb_false_iff in E.
      destruct (Z.lt_ge_cases (L k) (R k)) as [Hlt|Hge].
      * destruct E as [E|E]; [apply Z.ltb_ge in E; lia|]. apply negb_false_iff, Z.eqb_eq in E.
        assert (abit k (L k) = false) as -> by (apply abit_false; lia). symmetry. apply abit_false; lia.
      * destruct (Z.lt_ge_cases (L k) (nb k)).
        -- assert (abit k (L k) = true) as -> by (apply abit_cases; lia). symmetry. apply abit_cases; lia.
        -- assert (L k = nb k).
           { assert (L k ≤ nb k); [|lia]. apply L_spec. rewrite <-(blk_size_top nsize k) by lia. lia. }
           assert (abit k (L k) = false) as -> by (apply abit_false; lia). symmetry. apply abit_false; lia.
    + eapply rep_fl_ext; [done|]. intros j Hj. unfold lupd. case_decide as Ej; [|done]. subst j.
      unfold upto. by rewrite decide_False by lia.
Qed.

Lemma right_pair b k : (k < top)%nat → L k < R k →
  rep base nsize b A0 S0 (lupd (upto k) k (if negb (L k mod 2 =? 0) then [baddr base k (L k)] else [])) →
  ∃ b', initfree_pair k (R k) b = (Ok (if R k mod 2 =? 0 then 0 else blk_size k), b') ∧
    rep base nsize b' A0 S0 (lupd (upto k) k (free0 k)).
Proof.
  intros Hk HLR Rp. pose proof (L_pos k) as HL. pose proof (R_le k ltac:(lia)) as HR.
  pose proof (pow_half top k Hk) as Hnb. destruct (buddy_spec (R k)) as (_&_&_&Hbc).
  set (fl := lupd (upto k) k _) in Rp. unfold free0. rewrite (proj2 (Z.ltb_lt _ _) HLR).
  destruct (Z.eqb_spec (R k mod 2) 0) as [He|Ho].
  - exists b. split; [|revert Rp; subst fl; by destruct (Z.eqb_spec (L k mod 2) 0)].
    apply (initfree_pair_none b fl); [done|done|lia|]. destruct (Z.lt_ge_cases (R k) (nb k)).
    + assert (abit k (R k) = true) as -> by (apply abit_cases; lia). symmetry. apply abit_cases; lia.
    + assert (abit k (R k) = false) as -> by (apply abit_false; lia). symmetry. apply abit_false; lia.
  - assert (H1 : abit k (R k) = true) by (apply abit_cases; lia).
    assert (H2 : abit k (buddy_of (R k)) = false) by (apply abit_false; lia).
    destruct (initfree_pair_push b fl k (R k) (R k - 1)) as (b'&Hrun&R'); try done; try lia.
    + congruence.
    + rewrite H1. lia.
    + apply is_free0. split_and!; [done|done|by right].
    + intros k' p _. subst fl. unfold lupd. case_decide as Ek; [|apply upto_free; lia]. subst k'.
      destruct (Z.eqb_spec (L k mod 2) 0) as [|HoL]; simpl; [set_solver|]. intros Hp%list_elem_of_singleton. subst p.
      exists (L k). split_and!; [done|apply is_free0; split_and!; [done|done|by left]|lia].
    + exists b'. split; [done|]. eapply rep_fl_ext; [exact R'|]. intros j Hj. unfold lupd. case_decide; [|].
      * subst j fl. rewrite lupd_eq. by destruct (Z.eqb_spec (L k mod 2) 0).
      * subst fl. by rewrite lupd_ne.
Qed.

Lemma upto_S k : ∀ j, lupd (upto k) k (free0 k) j = upto (S k) j.
Proof. intros j. unfold lupd, upto. repeat case_decide; subst; try done; lia. Qed.

Lemma initfree_loop_spec n : ∀ k b free, rep base nsize b A0 S0 (upto k) → (k + n = top)%nat →
  ∃ b', initfree_loop (base + s) (base + t) k n free b = (Ok (free + W k), b') ∧ rep base nsize b' A0 S0 (upto top).
Proof.
  induction n as [|n IH]; intros k b free Rp Hk; cbn [initfree_loop].
  - rewrite Nat.add_0_r in Hk. subst k. exists b. split; [|done]. unfold W.
    rewrite (proj2 (Z.ltb_ge _ _)) by apply L_top. by rewrite Z.add_0_r.
  - destruct (left_pair b k Rp ltac:(lia)) as (b1&Hrun1&R1).
    assert (Hlevel : ∃ b2, (if L k <? R k then initfree_pair k (R k) else mret 0) b1
              = (Ok (if (L k <? R k) && negb (R k mod 2 =? 0) then blk_size k else 0), b2) ∧
              rep base nsize b2 A0 S0 (upto (S k))).
    { destruct (Z.ltb_spec (L k) (R k)) as [Hlt|Hge]; simpl andb in *.
      - destruct (right_pair b1 k ltac:(lia) Hlt R1) as (b2&Hrun2&R2). exists b2. split.
        + rewrite Hrun2. by destruct (Z.eqb_spec (R k mod 2) 0).
        + eapply rep_fl_ext; [exact R2|]. intros j _. apply upto_S.
      - exists b1. split; [done|]. eapply rep_fl_ext; [exact R1|]. intros j _. rewrite <-upto_S. f_equal.
        unfold free0. by rewrite (proj2 (Z.ltb_ge _ _)). }
    destruct Hlevel as (b2&Hrun2&R2). destruct (IH (S k) b2
      (free + (if (L k <? R k) && negb (L k mod 2 =? 0) then blk_size k else 0)
            + (if (L k <? R k) && negb (R k mod 2 =? 0) then blk_size k else 0)) R2) as (b'&Hrun&R'); [lia|].
    exists b'. split; [|done]. rewrite (bind_ok m_get _ b b b eq_refl).
    assert (HL : blk_index_next b k (base + s) = Ok (L k)).
    { unfold blk_index_next. rewrite (rp_base _ _ _ _ _ _ Rp), (proj2 (Z.ltb_ge _ _)) by lia.
      by replace (base + s - base) with s by lia. }
    assert (HR : blk_index b k (base + t) = Ok (R k)).
    { unfold blk_index. rewrite (rp_base _ _ _ _ _ _ Rp), (proj2 (Z.ltb_ge _ _)) by lia.
      by replace (base + t - base) with t by lia. }
    unfold lift. rewrite HL, HR. rewrite (bind_ok _ _ b (L k) b eq_refl), (bind_ok _ _ b (R k) b eq_refl).
    rewrite (bind_ok _ _ _ _ _ Hrun1), (bind_ok _ _ _ _ _ Hrun2), Hrun. do 2 f_equal. rewrite (W_step k). unfold free0.
    destruct (L k <? R k); simpl andb; [|simpl length; lia].
    destruct (R k mod 2 =? 0), (L k mod 2 =? 0); simpl length; simpl negb; cbv iota; lia.
Qed.

(** The state [initfree] leaves. *)
Lemma initfree_spec b : rep base nsize b A0 S0 (λ _, []) → b_end b = base + t → 
  ∃ b', initfree (base + s) b = (Ok (t - s), b') ∧ inv base nsize (s / 16) b' A0 S0 (upto top) ∧
    fbytes nsize (upto top) = t - s.
Proof.
  intros Rp He. destruct (initfree_loop_spec top 0 b 0) as (b'&Hrun&R'); [|done|].
  { eapply rep_fl_ext; [done|]. intros k _. unfold upto. by rewrite decide_False by lia. }
  assert (HW : W 0 = t - s).
  { unfold W, L, R, hi, lo. change (blk_size 0) with 16. rewrite Hms. simpl. 
    destruct (Z.ltb_spec (s / 16) (t / 16)); lia. }
  exists b'. split_and!.
  - unfold initfree. rewrite (bind_ok m_get _ b b b eq_refl), He. unfold max_size. rewrite (rp_nsize _ _ _ _ _ _ Rp).
    change (nsize - 1)%nat with top. by rewrite Hrun, HW.
  - split; try done; [apply good0|]. intros k p Hk. unfold upto. case_decide as Hlt.
    + rewrite elem_free0. setoid_rewrite is_free0. naive_solver.
    + setoid_rewrite is_free0. set_solver by lia.
  - rewrite <-HW. unfold fbytes.
    assert (Hgen : ∀ n k, (k + n = nsize)%nat → (k ≤ top)%nat → fbytes_from (upto top) k n = W k).
    { clear -Hs Hst Ht Hms Hmt Hn Hbase Hr. induction n as [|n IH]; intros k Hk Hkt; [unfold Buddy.top in Hkt; lia|].
      rewrite fbytes_from_S. destruct (decide (k = top)) as [->|Hne].
      - assert (n = 0%nat) as -> by (unfold Buddy.top in Hk; lia). unfold upto at 1. rewrite decide_False by lia.
        unfold W. rewrite (proj2 (Z.ltb_ge _ _)) by apply L_top. done.
      - assert (upto top k = free0 k) as -> by (unfold upto; by rewrite decide_True by lia).
        rewrite IH by lia. by rewrite (W_step k). }
    apply Hgen; lia.
Qed.
End initfree.

(** ** The sizes fit *)

Lemma log2_loop_spec fuel : ∀ n k, 1 ≤ n < 2 ^ Z.of_nat fuel → log2_loop fuel n k = (k + Z.to_nat (Z.log2 n))%nat.
Proof.
  induction fuel as [|fuel IH]; intros n k Hn; [simpl in Hn; lia|]. cbn [log2_loop].
  rewrite Nat2Z.inj_succ, Z.pow_succ_r in Hn by lia. destruct (Z.gtb_spec n 1) as [Hgt|Hle].
  - rewrite Z.shiftr_div_pow2 by lia. change (2 ^ 1) with 2. rewrite IH by lia.
    assert (Z.log2 n = Z.succ (Z.log2 (n / 2))); [|pose proof (Z.log2_nonneg (n / 2)); lia].
    rewrite <-(Z.div2_div n). pose proof (Z.log2_shiftr n 1 ltac:(lia)) as E. rewrite Z.shiftr_div_pow2 in E by lia.
    change (2 ^ 1) with 2 in E. rewrite Z.div2_div, E.
    assert (1 ≤ Z.log2 n) by (apply Z.log2_le_pow2; simpl; lia). lia.
  - assert (n = 1) as -> by lia. change (Z.log2 1) with 0. simpl. lia.
Qed.

Lemma nsize_of_spec len : 32 ≤ len < 2 ^ 64 →
  (2 ≤ nsize_of len)%nat ∧ len ≤ blk_size (nsize_of len - 1) < 2 * len.
Proof.
  intros Hlen. unfold nsize_of, LEAF_SIZE.
  set (x := len / 16). assert (Hx : 2 ≤ x < 2 ^ 64) by (subst x; lia).
  assert (E : log2 x = Z.to_nat (Z.log2 x)) by (unfold log2; by rewrite log2_loop_spec by (simpl; lia)).
  rewrite E. pose proof (Z.log2_spec x ltac:(lia)) as [Hlo Hhi].
  assert (H1 : 1 ≤ Z.log2 x) by (apply Z.log2_le_pow2; simpl; lia).
  set (k := Z.to_nat (Z.log2 x)). replace (k + 1 - 1)%nat with k by lia.
  assert (Hk : blk_size k = 16 * 2 ^ Z.log2 x) by (rewrite blk_size_alt; subst k; by rewrite Z2Nat.id by lia).
  rewrite Z.pow_succ_r in Hhi by lia. subst x.
  destruct (Z.gtb_spec len (blk_size k)) as [Hgt|Hle].
  - replace (Datatypes.S (k + 1) - 1)%nat with (Datatypes.S k) by lia. rewrite blk_size_S, Hk. lia.
  - replace (k + 1 - 1)%nat with k by lia. rewrite Hk in *. lia.
Qed.

Lemma arrays_len_bound n : ∀ top k, (k + n = top + 1)%nat → 0 ≤ arrays_len top k n ∧ 8 * arrays_len top k n ≤ 2 ^ Z.of_nat n + 7 * Z.of_nat n.
Proof.
  induction n as [|n IH]; intros top k Hk; cbn [arrays_len]; [simpl; lia|].
  destruct (IH top (Datatypes.S k) ltac:(lia)). replace (top - k)%nat with n by lia. unfold round_up.
  rewrite (Nat2Z.inj_succ n), Z.pow_succ_r by lia. lia.
Qed.

(** The bytes of the allocator's own data. *)
Definition meta_len (nsize : nat) : Z :=
  round_up (SZINFO_SIZE * Z.of_nat nsize + arrays_len (nsize - 1) 0 nsize + arrays_len (nsize - 1) 1 (nsize - 1)) 16.

Lemma meta_growth k : (9 ≤ k)%nat → 398 * Z.of_nat k + 518 ≤ 13 * 2 ^ Z.of_nat k.
Proof.
  induction 1 as [|k Hk IH]; [vm_compute; congruence|]. rewrite Nat2Z.inj_succ, Z.pow_succ_r by lia. lia.
Qed.

(** In a memory of at least two pages that data takes at most a quarter. *)
Lemma meta_len_bound len : 8192 ≤ len < 2 ^ 64 →
  48 * Z.of_nat (nsize_of len) ≤ meta_len (nsize_of len) ∧ meta_len (nsize_of len) mod 16 = 0 ∧ 4 * meta_len (nsize_of len) ≤ len.
Proof.
  intros Hlen. destruct (nsize_of_spec len ltac:(lia)) as (Hn&Hlo&Hhi). set (n := nsize_of len) in *.
  destruct (arrays_len_bound n (n - 1) 0 ltac:(lia)) as [H1 H2].
  destruct (arrays_len_bound (n - 1) (n - 1) 1 ltac:(lia)) as [H3 H4].
  rewrite blk_size_alt in Hlo, Hhi. unfold meta_len, SZINFO_SIZE, round_up.
  assert (Hpow : 2 ^ Z.of_nat n = 2 * 2 ^ Z.of_nat (n - 1)).
  { replace (Z.of_nat n) with (Z.succ (Z.of_nat (n - 1))) by lia. by rewrite Z.pow_succ_r by lia. }
  assert (H9 : (9 ≤ n - 1)%nat).
  { destruct (Nat.le_gt_cases 9 (n - 1)) as [|Hlt]; [done|]. exfalso.
    assert (2 ^ Z.of_nat (n - 1) ≤ 2 ^ 8) by (apply Z.pow_le_mono_r; lia). change (2 ^ 8) with 256 in *. lia. }
  pose proof (meta_growth (n - 1) H9). split_and!; [lia|lia|].
  set (T := 2 ^ Z.of_nat (n - 1)) in *. lia.
Qed.

(** ** [init] *)

Lemma round_up_spec n sz : 0 < sz → n ≤ round_up n sz ∧ round_up n sz mod sz = 0.
Proof.
  intros Hsz. unfold round_up. split; [|by apply Z.mod_mul; lia].
  pose proof (Z.div_mod (n - 1) sz ltac:(lia)). pose proof (Z.mod_pos_bound (n - 1) sz Hsz). nia.
Qed.

Lemma rep_set_end base nsize b A S fl e : rep base nsize b A S fl → rep base nsize (set_end e b) A S fl.
Proof. intros [? ? ? ? ? ?]. by split. Qed.
Lemma rep_set_initialized base nsize b A S fl v : rep base nsize b A S fl → rep base nsize (set_initialized v b) A S fl.
Proof. intros [? ? ? ? ? ?]. by split. Qed.

(** The layout: every array is there and no bit is set. *)
Lemma init_layout_spec base e nsize : (2 ≤ nsize)%nat →
  ∃ b1 b2, init_allocs 0 nsize (base + SZINFO_SIZE * Z.of_nat nsize)
      (set_sizes (Some (replicate nsize (mkSzInfo None None))) (set_geometry base e nsize Buddy_new))
    = (Ok (base + SZINFO_SIZE * Z.of_nat nsize + arrays_len (nsize - 1) 0 nsize), b1) ∧
  (∀ p, init_splits 1 (nsize - 1) p b1 = (Ok (p + arrays_len (nsize - 1) 1 (nsize - 1)), b2)) ∧
  shape base e nsize b2 ∧ rep base nsize b2 (λ _ _, false) (λ _ _, false) (λ _, []).
Proof.
  intros Hn. set (b0 := set_sizes _ _).
  assert (Hs0 : shape base e nsize b0).
  { split; try done. eexists. split; [reflexivity|]. by rewrite length_replicate. }
  destruct (init_allocs_spec base e nsize nsize 0 (base + SZINFO_SIZE * Z.of_nat nsize) b0 Hs0) as (b1&Hrun1&Hs1&Hr1); [lia|lia| |].
  { intros j z _. unfold szinfo. simpl. intros E. by apply lookup_replicate in E as [-> _]. }
  assert (Hr1' : ∀ j, (j < nsize)%nat → ready base nsize j (bool_decide (0 < j < 1)%nat) b1).
  { intros j Hj. rewrite bool_decide_eq_false_2 by lia. apply Hr1. lia. }
  destruct (init_splits_spec base e nsize (nsize - 1) 1 0 b1 Hs1 ltac:(lia) ltac:(lia) Hr1') as (b2&Hrun2&Hs2&Hr2).
  exists b1, b2. split_and!; [done| |done|].
  - intros p. destruct (init_splits_spec base e nsize (nsize - 1) 1 p b1 Hs1 ltac:(lia) ltac:(lia) Hr1') as (b2'&Hrun2'&_&_).
    rewrite Hrun2'. f_equal. clear -Hrun2 Hrun2'.
    assert (Hgen : ∀ n k p q b, (init_splits k n p b).2 = (init_splits k n q b).2).
    { clear. induction n as [|n IH]; intros k p q b; [done|]. cbn [init_splits]. unfold mbind, M_bind, m_get, modify, index_sizes.
      destruct (szinfo b k); [|done]. apply IH. }
    pose proof (Hgen (nsize - 1)%nat 1%nat 0 p b1) as E. rewrite Hrun2, Hrun2' in E. by symmetry.
  - apply (ready_rep base e nsize); [done|]. intros j Hj. specialize (Hr2 j Hj).
    by replace (1 + (nsize - 1))%nat with nsize in Hr2 by lia.
Qed.

(** Marking the allocator's data and the memory past the end. *)
Lemma init_mark_spec base e nsize s t b : 0 < s → 4 * s ≤ t → t ≤ blk_size (top nsize) → s mod 16 = 0 → t mod 16 = 0 →
  base mod 16 = 0 → (2 ≤ nsize)%nat → e = base + t →
  shape base e nsize b → rep base nsize b (λ _ _, false) (λ _ _, false) (λ _, []) →
  ∃ b1 b2, mark_data_structures (base + s) b = (Ok s, b1) ∧ mark_unavailable b1 = (Ok (blk_size (top nsize) - t), b2) ∧
    b_initialized b2 = false ∧ rep base nsize b2 (A0 s t) (S0 s t) (λ _, []).
Proof.
  intros Hs Hst Ht Hms Hmt Hmb Hn -> Hsh Rp.
  destruct (mark_spec base nsize b _ _ _ 0 s Rp) as (b1&Hrun1&R1); [lia|lia|lia|lia|lia|].
  rewrite Z.add_0_r in Hrun1.
  assert (Htop : blk_size (top nsize) mod 16 = 0) by (rewrite blk_size_alt; lia).
  destruct (mark_spec base nsize b1 _ _ _ t (blk_size (top nsize)) R1) as (b2&Hrun2&R2); [lia|lia|lia|lia|lia|].
  pose proof (keeps (m := mark base (base + s)) b) as [He1 Hi1]. rewrite Hrun1 in He1, Hi1. simpl in He1, Hi1.
  pose proof (keeps (m := mark (base + t) (base + blk_size (top nsize))) b1) as [_ Hi2]. rewrite Hrun2 in Hi2. simpl in Hi2.
  exists b1, b2. split_and!.
  - unfold mark_data_structures. rewrite (bind_ok m_get _ b b b eq_refl), (sh_base _ _ _ _ Hsh).
    rewrite (bind_ok _ _ _ _ _ Hrun1). unfold mret, M_ret. do 2 f_equal. lia.
  - unfold mark_unavailable. rewrite (bind_ok m_get _ b1 b1 b1 eq_refl). unfold max_size.
    rewrite (rp_nsize _ _ _ _ _ _ R1), (rp_base _ _ _ _ _ _ R1). change (nsize - 1)%nat with (top nsize).
    rewrite He1, (sh_end _ _ _ _ Hsh). replace (base + t - base) with t by lia.
    rewrite (proj2 (Z.ltb_ge _ _)) by lia. rewrite (bind_ok _ _ _ _ _ Hrun2). unfold mret, M_ret. do 2 f_equal.
    destruct (Z.gtb_spec (blk_size (top nsize) - t) 0); [|lia]. unfold round_up, LEAF_SIZE. lia.
  - rewrite Hi2, Hi1. apply Hsh.
  - eapply rep_ext; [exact R2|]. intros k i [Hk Hi].
    assert (Hhi : ∀ n, hi k (blk_size (top nsize)) ≤ n ↔ 2 ^ Z.of_nat (top nsize - k) ≤ n).
    { intros n. rewrite hi_spec, (blk_size_top nsize k Hk). pose proof (blk_size_pos k). nia. }
    assert (Hbit : marked (marked (λ _ _, false) 0 s) t (blk_size (top nsize)) k i = A0 s t k i).
    { unfold marked, A0, L, R. assert (Hlo : lo k 0 = 0) by done. rewrite Hlo. pose proof (proj1 (Hhi i)).
      case_bool_decide; repeat case_decide; try done; lia. }
    split; [done|]. intros Hpos. by rewrite S0_pos.
Qed.

(** The allocator after [init]: all memory but its own data is free, and
    nothing but that data is in use. *)
Lemma init_spec base0 e0 : let base := round_up base0 4096 in let e := round_down e0 4096 in
  0 < base0 → base + 8192 ≤ e → e < 2 ^ 64 →
  ∃ nsize r b A S fl, init base0 e0 Buddy_new = (Ok (), b) ∧ b_initialized b = true ∧ inv base nsize r b A S fl ∧
    nsize = nsize_of (e - base) ∧ 16 * r = meta_len nsize ∧ 4 * (16 * r) ≤ e - base ∧
    (∀ k i, is_live (top nsize) A S k i ↔
      in_tree (top nsize) k i ∧ k = 0%nat ∧ (i < r ∨ e - base ≤ 16 * i)) ∧
    fbytes nsize fl = e - base - 16 * r.
Proof.
  intros base e Hb0 Hlen He. pose proof (round_up_spec base0 4096 ltac:(lia)) as [Hup Hmod]. fold base in Hup, Hmod.
  assert (Hemod : e mod 4096 = 0) by (subst e; unfold round_down; apply Z.mod_mul; lia).
  set (t := e - base). set (nsize := nsize_of t). set (s := meta_len nsize).
  destruct (nsize_of_spec t ltac:(lia)) as (Hn&Ht&_). fold nsize in Hn, Ht. change (nsize - 1)%nat with (top nsize) in Ht.
  destruct (meta_len_bound t ltac:(lia)) as (Hs1&Hs2&Hs3). fold nsize s in Hs1, Hs2, Hs3.
  assert (Hbmod : base mod 16 = 0) by (clear -Hmod; lia). assert (Htmod : t mod 16 = 0) by (clear -Hmod Hemod; lia).
  destruct (init_layout_spec base e nsize Hn) as (b1&b2&Hrun1&Hrun2&Hsh&Rp).
  destruct (init_mark_spec base e nsize s t b2) as (b3&b4&Hrun3&Hrun4&Hini&R4); [lia..|done|done|].
  destruct (initfree_spec base nsize s t ltac:(lia) ltac:(lia) ltac:(lia) Hs2 Htmod Hn ltac:(lia) ltac:(lia) (set_end (base + t) b4))
    as (b5&Hrun5&Hinv&Hby); [by apply rep_set_end|done|].
  exists nsize, (s / 16), (set_initialized true b5), (A0 s t), (S0 s t), (upto base s t (top nsize)).
  split_and!; [|done| |done|lia|lia| |lia].
  - assert (Hmax : max_size b4 = top nsize) by (unfold max_size; by rewrite (rp_nsize _ _ _ _ _ _ R4)).
    unfold init. rewrite (bind_ok m_get _ _ _ _ eq_refl). change (b_initialized Buddy_new) with false. cbv iota.
    change (Z.max LEAF_SIZE MAX_ALIGN) with 4096. fold base e.
    rewrite (proj2 (Z.ltb_ge _ _)) by lia. rewrite (proj2 (Z.ltb_ge _ _)) by lia. cbv zeta. fold t. fold nsize.
    rewrite (bind_ok (modify (set_geometry base e nsize)) _ _ () _ eq_refl).
    rewrite (bind_ok (modify (set_sizes _)) _ _ () _ eq_refl).
    rewrite (bind_ok _ _ _ _ _ Hrun1), (bind_ok _ _ _ _ _ (Hrun2 _)).
    assert (Hp : round_up (base + SZINFO_SIZE * Z.of_nat nsize + arrays_len (nsize - 1) 0 nsize
                  + arrays_len (nsize - 1) 1 (nsize - 1)) LEAF_SIZE = base + s).
    { subst s. unfold meta_len, round_up, LEAF_SIZE. clear -Hbmod. lia. }
    rewrite Hp, (bind_ok _ _ _ _ _ Hrun3), (bind_ok _ _ _ _ _ Hrun4), (bind_ok m_get _ b4 b4 b4 eq_refl).
    rewrite Hmax, (rp_base _ _ _ _ _ _ R4). rewrite (bind_ok (modify (set_end _)) _ b4 () _ eq_refl).
    replace (base + blk_size (top nsize) - (blk_size (top nsize) - t)) with (base + t) by lia.
    rewrite (bind_ok _ _ _ _ _ Hrun5).
    replace (t - s =? blk_size (top nsize) - s - (blk_size (top nsize) - t)) with true; [done|].
    symmetry. apply Z.eqb_eq. lia.
  - destruct Hinv as [Rv ? ? ? ? ?]. split; try done. by apply rep_set_initialized.
  - intros k i. unfold is_live. split.
    + intros (Hin&HA&HS). destruct (decide (k = 0%nat)) as [->|]; [|rewrite S0_pos in HS by lia; congruence].
      split_and!; [done|done|]. apply bool_decide_eq_true in HA. unfold L, R, hi, lo in HA. change (blk_size 0) with 16 in HA.
      rewrite Hs2 in HA. simpl in HA. lia.
    + intros (Hin&->&Hi). split_and!; [done| |done]. apply bool_decide_eq_true. unfold L, R, hi, lo. change (blk_size 0) with 16.
      rewrite Hs2. simpl. lia.
Qed.
