(* ===== verification/BuddySpec.v ===== *)
(** * What the buddy allocator promises

    A client that allocates and frees, starting from [init]: its blocks are
    disjoint, lie in the memory the allocator manages and never overlap the
    allocator's own data, and no byte is lost. *)

From stdpp Require Import base tactics numbers strings gmap fin_maps list.
From S2P Require Import Prelude DList BuddyTree Buddy BuddyInit.
Local Open Scope Z_scope.

(** ** Clients *)

Inductive heap_op := OpAlloc (size align : Z) | OpFree (p : Z).

(** The allocator and the blocks the client holds: the requested size by
    address. *)
Abbreviation Heap := (Buddy * gmap Z Z)%type.

(** One call.  The client frees only what it holds. *)
Definition heap_step (o : heap_op) (h : Heap) : outcome string Heap :=
  match o with
  | OpAlloc size align =>
      match alloc size align h.1 with
      | (Ok (Some p), b) => Ok (b, <[p := size]> h.2)
      | (Ok None, b) => Ok (b, h.2)
      | (Err err, _) => Err err
      | (Panic, _) => Panic
      end
  | OpFree p =>
      match h.2 !! p with
      | Some _ => match dealloc p h.1 with
                  | (Ok _, b) => Ok (b, delete p h.2)
                  | (Err err, _) => Err err
                  | (Panic, _) => Panic
                  end
      | None => Ok h
      end
  end.

Fixpoint heap_run (os : list heap_op) (h : Heap) : outcome string Heap :=
  match os with
  | [] => Ok h
  | o :: os => h ← heap_step o h; heap_run os h
  end.

Definition op_ok (o : heap_op) : Prop := match o with OpAlloc size _ => 0 ≤ size | OpFree _ => True end.

(** The bytes of the blocks the client holds. *)
Definition held (own : gmap Z Z) : Z := map_fold (λ _ size acc, blk_size (firstk size) + acc) 0 own.

Lemma held_insert own p size : own !! p = None → held (<[p := size]> own) = blk_size (firstk size) + held own.
Proof. intros. unfold held. rewrite map_fold_insert_L; [done| |done]. intros. lia. Qed.
Lemma held_delete own p size : own !! p = Some size → held own = blk_size (firstk size) + held (delete p own).
Proof. intros. unfold held. rewrite (map_fold_delete_L _ _ p size own); [done| |done]. intros. lia. Qed.

Lemma served_dec nsize fl size : served nsize fl size ∨ ¬ served nsize fl size.
Proof.
  unfold served. destruct (decide (Exists (λ k, fl k ≠ []) (seq (firstk size) (nsize - firstk size)))) as [H|H].
  - left. apply Exists_exists in H as (k&Hk&Hne). apply elem_of_seq in Hk. exists k. split; [lia|done].
  - right. intros (k&Hk&Hne). apply H, Exists_exists. exists k. split; [|done]. apply elem_of_seq. lia.
Qed.

Section client.
Context (base t r : Z) (nsize : nat).
Abbreviation top := (top nsize).
Abbreviation live A S := (is_live top A S).

(** Two blocks in use do not overlap. *)
Lemma live_disjoint A S k i k' i' : good top A S r → live A S k i → live A S k' i' → ¬ (k = k' ∧ i = i') →
  baddr base k i + blk_size k ≤ baddr base k' i' ∨ baddr base k' i' + blk_size k' ≤ baddr base k i.
Proof.
  intros G. assert (Hlt : ∀ k i k' i', (k < k')%nat → live A S k i → live A S k' i' →
    baddr base k i + blk_size k ≤ baddr base k' i' ∨ baddr base k' i' + blk_size k' ≤ baddr base k i).
  { clear k i k' i'. intros k i k' i' Hk Hl Hl'. pose proof (live_not_inside_live top G k i k' i' Hl Hl' Hk) as Hne.
    assert (Eb : blk_size k' = 2 ^ Z.of_nat (k' - k) * blk_size k).
    { rewrite <-blk_size_add. f_equal. lia. }
    unfold baddr. rewrite Eb. pose proof (blk_size_pos k) as Hp. set (d := 2 ^ Z.of_nat (k' - k)) in *. assert (Hd : 0 < d) by (subst d; lia).
    pose proof (Z.div_mod i d ltac:(lia)). pose proof (Z.mod_pos_bound i d Hd).
    destruct (Z.lt_ge_cases (i / d) i'); [left|right].
    - assert (i + 1 ≤ i' * d) by nia. nia.
    - assert ((i' + 1) * d ≤ i) by nia. nia. }
  intros Hl Hl' Hne. destruct (Nat.lt_total k k') as [?|[->|?]]; [by apply Hlt| |].
  - unfold baddr. pose proof (blk_size_pos k'). assert (i < i' ∨ i' < i) as [?|?] by lia; [left|right]; nia.
  - destruct (Hlt k' i' k i); auto.
Qed.

(** The blocks that are always in use: the allocator's data and what lies
    past the end of the memory. *)
Definition reserved (i : Z) : Prop := i < r ∨ t ≤ 16 * i.

Record heap_inv (h : Heap) (A S : Bits) (fl : nat → list Z) : Prop := {
  hi_inv : inv base nsize r h.1 A S fl;
  hi_reserved i : in_tree top 0 i → reserved i → live A S 0 i;
  hi_live k i : live A S k i ↔ (k = 0%nat ∧ in_tree top 0 i ∧ reserved i) ∨
    ∃ size, h.2 !! baddr base k i = Some size ∧ k = firstk size;
  hi_own p size : h.2 !! p = Some size → 0 ≤ size ∧ ∃ i, p = baddr base (firstk size) i ∧ live A S (firstk size) i ∧
    (firstk size = 0%nat → ¬ reserved i);
  hi_bytes : fbytes nsize fl + held h.2 = t - 16 * r;
}.

Lemma baddr_inj k i i' : baddr base k i = baddr base k i' → i = i'.
Proof. unfold baddr. pose proof (blk_size_pos k). nia. Qed.

(** An address is the start of at most one block in use. *)
Lemma live_addr_inj A S k i k' i' : good top A S r → live A S k i → live A S k' i' → baddr base k i = baddr base k' i' →
  k = k' ∧ i = i'.
Proof.
  intros G Hl Hl' E. destruct (decide (k = k' ∧ i = i')) as [|Hne]; [done|].
  destruct (live_disjoint A S k i k' i' G Hl Hl' Hne); pose proof (blk_size_pos k); pose proof (blk_size_pos k'); lia.
Qed.

Lemma heap_alloc_inv h A S fl size align : heap_inv h A S fl → 0 ≤ size →
  ∃ h' A' S' fl', heap_step (OpAlloc size align) h = Ok h' ∧ heap_inv h' A' S' fl'.
Proof.
  intros [I Hres Hlive Hown Hby] Hsz. destruct h as [b own]. simpl in *.
  destruct (decide (align ≤ MAX_ALIGN)) as [Hal|Hal]; cycle 1.
  { rewrite (alloc_none base nsize r b A S fl) by naive_solver. by exists (b, own), A, S, fl. }
  destruct (served_dec nsize fl size) as [Hsrv|Hno]; cycle 1.
  { rewrite (alloc_none base nsize r b A S fl) by naive_solver. by exists (b, own), A, S, fl. }
  destruct (alloc_spec base nsize r b A S fl size align I Hsz Hal Hsrv) as (i&b'&A'&S'&fl'&Hrun&I'&Hl'&Hnl&Hby').
  set (k := firstk size) in *. set (p := baddr base k i).
  assert (Hnew : live A' S' k i) by (apply Hl'; auto).
  assert (Hold : ∀ k' i', live A S k' i' → live A' S' k' i') by (intros; apply Hl'; auto).
  assert (Hp : own !! p = None).
  { destruct (own !! p) as [size'|] eqn:E; [|done]. destruct (Hown p size' E) as (_&i'&Ep&Hli&_).
    exfalso. apply Hnl. apply Hold in Hli as Hli'.
    destruct (live_addr_inj A' S' k i (firstk size') i' (iv_good _ _ _ _ _ _ _ I') Hnew Hli' Ep) as [-> ->]. done. }
  exists (b', <[p := size]> own), A', S', fl'. simpl. rewrite Hrun. split; [done|]. split; simpl.
  - done.
  - intros j Hj Hr. by apply Hold, Hres.
  - intros k' i'. rewrite Hl'. split.
    + intros [[?|(sz&Hsz'&->)]%Hlive|[-> ->]]; [by left| |].
      * right. exists sz. split; [|done]. rewrite lookup_insert_ne; [done|]. intros E. by rewrite <-E, Hp in Hsz'.
      * right. exists size. by rewrite lookup_insert_eq.
    + intros [Hr|(sz&Hsz'&->)]; [left; apply Hlive; by left|]. apply lookup_insert_Some in Hsz' as [[E ->]|[_ Hsz']].
      * right. split; [done|]. by apply baddr_inj in E.
      * left. apply Hlive. eauto.
  - intros q sz. rewrite lookup_insert_Some. intros [[<- <-]|[_ Hq]].
    + split; [done|]. exists i. split_and!; [done|done|]. intros Hk Hr. apply Hnl. fold k in Hk. rewrite Hk in *.
      apply Hres; [apply Hnew|done].
    + destruct (Hown q sz Hq) as (?&j&->&Hj&?). split; [done|]. exists j. auto.
  - rewrite held_insert by done. fold k. lia.
Qed.

Lemma heap_free_inv h A S fl p : heap_inv h A S fl →
  ∃ h' A' S' fl', heap_step (OpFree p) h = Ok h' ∧ heap_inv h' A' S' fl'.
Proof.
  intros HI. pose proof HI as [I Hres Hlive Hown Hby]. destruct h as [b own]. simpl in *.
  destruct (own !! p) as [size|] eqn:E; [|by exists (b, own), A, S, fl].
  destruct (Hown p size E) as (Hsz&i&->&Hl&Hnr). set (k := firstk size) in *.
  destruct (dealloc_spec base nsize r b A S fl k i I Hl) as (b'&A'&S'&fl'&Hrun&I'&Hl'&Hby').
  { intros Hk. specialize (Hnr Hk). unfold reserved in Hnr. lia. }
  assert (Hinj : ∀ k' i', live A S k' i' → baddr base k' i' = baddr base k i → k' = k ∧ i' = i).
  { intros k' i' Hl2. apply (live_addr_inj A S); [apply I|done|done]. }
  exists (b', delete (baddr base k i) own), A', S', fl'. rewrite Hrun. split; [done|]. split; simpl.
  - done.
  - intros j Hj Hr. apply Hl'. split; [by apply Hres|]. intros [Hk ->]. by apply Hnr.
  - intros k' i'. rewrite Hl'. split.
    + intros [Hl2 Hne]. pose proof (proj1 (Hlive k' i') Hl2) as [Hr|(sz&Hsz'&->)]; [by left|]. right. exists sz.
      split; [|done]. rewrite lookup_delete_ne; [done|]. intros Eq. by apply Hne, Hinj.
    + intros [(->&Hin&Hr)|(sz&Hsz'&->)].
      * split; [by apply Hres|]. intros [Hk ->]. by apply Hnr.
      * apply lookup_delete_Some in Hsz' as [Hne Hsz']. split; [apply Hlive; eauto|]. intros [E1 ->]. apply Hne. by rewrite E1.
  - intros q sz Hq. apply lookup_delete_Some in Hq as [Hne Hq]. destruct (Hown q sz Hq) as (?&j&->&Hj&?). split; [done|].
    exists j. split_and!; [done| |done]. apply Hl'. split; [done|]. intros [E1 ->]. apply Hne. by rewrite E1.
  - rewrite (held_delete own _ size E) in Hby. fold k in Hby. lia.
Qed.

Lemma heap_run_inv os : ∀ h A S fl, heap_inv h A S fl → Forall op_ok os →
  ∃ h' A' S' fl', heap_run os h = Ok h' ∧ heap_inv h' A' S' fl'.
Proof.
  induction os as [|o os IH]; intros h A S fl HI Hok; cbn [heap_run]; [by eauto 6|].
  apply Forall_cons in Hok as [Ho Hok].
  assert (Hstep : ∃ h1 A1 S1 fl1, heap_step o h = Ok h1 ∧ heap_inv h1 A1 S1 fl1).
  { destruct o as [size align|p]; [by eapply heap_alloc_inv|by eapply heap_free_inv]. }
  destruct Hstep as (h1&A1&S1&fl1&->&HI1). apply (IH h1 A1 S1 fl1 HI1 Hok).
Qed.

(** A block of the client lies between the allocator's data and the end. *)
Lemma own_bounds h A S fl p size : heap_inv h A S fl → t mod 16 = 0 → h.2 !! p = Some size →
  base + 16 * r ≤ p ∧ p + blk_size (firstk size) ≤ base + t.
Proof.
  intros [I Hres Hlive Hown Hby] Ht Hp. destruct (Hown p size Hp) as (Hsz&i&->&Hl&Hnr). set (k := firstk size) in *.
  pose proof Hl as ((Hk&Hi)&_&_). set (d := 2 ^ Z.of_nat k). assert (Hd : 0 < d) by (subst d; lia).
  assert (Htop : 2 ^ Z.of_nat top = 2 ^ Z.of_nat (top - k) * d).
  { subst d. rewrite <-Z.pow_add_r by lia. f_equal. lia. }
  assert (Hleaf : ∀ x, i * d ≤ x < (i + 1) * d → ¬ reserved x).
  { intros x Hx Hr. assert (Hq : x / d = i).
    { symmetry. apply (Z.div_unique x d i (x - i * d)); lia. }
    assert (Hin : in_tree top 0 x) by (split; [lia|]; rewrite Nat.sub_0_r; nia).
    destruct (decide (k = 0%nat)) as [E|Hne].
    - subst d. rewrite E in *. change (2 ^ Z.of_nat 0) with 1 in *. rewrite Z.div_1_r in Hq. subst x. by apply Hnr.
    - apply (live_not_inside_live top (iv_good _ _ _ _ _ _ _ I) 0 x k i (Hres x Hin Hr) Hl); [lia|]. by rewrite Nat.sub_0_r. }
  pose proof (Hleaf (i * d) ltac:(lia)) as H1. pose proof (Hleaf ((i + 1) * d - 1) ltac:(lia)) as H2.
  unfold reserved in H1, H2. unfold baddr. rewrite blk_size_alt. fold d. lia.
Qed.
End client.

(** C19: starting the allocator and using it.  For every memory of at least two
    pages [init] succeeds, and then for every sequence of allocations and
    frees of a client that frees only what it holds: no call panics, each
    block the client holds is as large as was asked for, lies between the
    allocator's own data and the end of the memory and does not overlap
    another block, and the free bytes are all the bytes that are not in the
    client's blocks, so a client that has freed everything has lost nothing. *)
Theorem buddy_heap_safe base0 e0 os : let base := round_up base0 4096 in let e := round_down e0 4096 in
  0 < base0 → base + 8192 ≤ e → e < 2 ^ 64 → Forall op_ok os →
  ∃ meta b0 b own, init base0 e0 Buddy_new = (Ok (), b0) ∧ heap_run os (b0, ∅) = Ok (b, own) ∧
    0 < meta ∧ 4 * meta ≤ e - base ∧
    (∀ p size, own !! p = Some size → base + meta ≤ p ∧ p + size ≤ e ∧
      size ≤ blk_size (firstk size) ∧ (p - base) mod blk_size (firstk size) = 0) ∧
    (∀ p q sp sq, own !! p = Some sp → own !! q = Some sq → p ≠ q → p + sp ≤ q ∨ q + sq ≤ p) ∧
    free_bytes b = (Ok (e - base - meta - held own), b).
Proof.
  intros base e Hb0 Hlen He Hops.
  destruct (init_spec base0 e0 Hb0 Hlen He) as (nsize&r&b0&A&S&fl&Hinit&_&I&_&_&Hquarter&Hlive&Hby).
  fold base e in I, Hquarter, Hlive, Hby. set (t := e - base) in *.
  assert (Htm : t mod 16 = 0).
  { assert (base mod 4096 = 0) by (subst base; by apply round_up_spec).
    assert (e mod 4096 = 0) by (subst e; unfold round_down; apply Z.mod_mul; lia). lia. }
  assert (HI0 : heap_inv base t r nsize (b0, ∅) A S fl).
  { split; simpl.
    - done.
    - intros i Hin Hr. apply Hlive. split_and!; [done|done|]. unfold reserved in Hr. done.
    - intros k i. rewrite Hlive. split.
      + intros (Hin&->&Hr). left. done.
      + intros [(->&Hin&Hr)|(sz&Hsz&_)]; [done|by rewrite lookup_empty in Hsz].
    - intros p size Hp. by rewrite lookup_empty in Hp.
    - change (held ∅) with 0. lia. }
  destruct (heap_run_inv base t r nsize os (b0, ∅) A S fl HI0 Hops) as ([b own]&A'&S'&fl'&Hrun&HI).
  pose proof HI as [I' _ _ Hown Hby']. simpl in *.
  exists (16 * r), b0, b, own. split_and!; [done|done| |done| | |].
  - pose proof (g_reserved_pos _ _ _ _ (iv_good _ _ _ _ _ _ _ I)). lia.
  - intros p size Hp. destruct (own_bounds base t r nsize (b, own) A' S' fl' p size HI Htm Hp) as [Hlo Hhi].
    destruct (Hown p size Hp) as (Hsz&i&->&Hl&_). destruct (firstk_spec size Hsz) as [Hfit _].
    split_and!; [done|lia|done|]. unfold baddr.
    replace (base + i * blk_size (firstk size) - base) with (i * blk_size (firstk size)) by lia.
    apply Z.mod_mul. pose proof (blk_size_pos (firstk size)). lia.
  - intros p q sp sq Hp Hq Hne. destruct (Hown p sp Hp) as (Hsp&i&->&Hl&_). destruct (Hown q sq Hq) as (Hsq&j&->&Hl'&_).
    destruct (firstk_spec sp Hsp) as [? _], (firstk_spec sq Hsq) as [? _].
    destruct (live_disjoint base r nsize A' S' (firstk sp) i (firstk sq) j (iv_good _ _ _ _ _ _ _ I') Hl Hl'); [|lia|lia].
    intros [E ->]. apply Hne. by rewrite E.
  - erewrite free_bytes_spec by apply I'. do 2 f_equal. lia.
Qed.

Lemma buddy_heap_safe_witness :
  ∃ meta b0 b own, init 4000 12500 Buddy_new = (Ok (), b0) ∧
    heap_run [OpAlloc 100 8; OpAlloc 20 4; OpFree 5120; OpAlloc 600 8] (b0, ∅) = Ok (b, own) ∧
    0 < meta ∧ 4 * meta ≤ 12288 - 4096 ∧
    (∀ p size, own !! p = Some size → 4096 + meta ≤ p ∧ p + size ≤ 12288 ∧
      size ≤ blk_size (firstk size) ∧ (p - 4096) mod blk_size (firstk size) = 0) ∧
    (∀ p q sp sq, own !! p = Some sp → own !! q = Some sq → p ≠ q → p + sp ≤ q ∨ q + sq ≤ p) ∧
    free_bytes b = (Ok (12288 - 4096 - meta - held own), b).
Proof.
  apply (buddy_heap_safe 4000 12500 [OpAlloc 100 8; OpAlloc 20 4; OpFree 5120; OpAlloc 600 8]).
  - lia.
  - vm_compute. congruence.
  - vm_compute. reflexivity.
  - repeat constructor; simpl; lia.
Defined.

Lemma firstk_le size k : 0 ≤ size → (firstk size ≤ k)%nat ↔ size ≤ blk_size k.
Proof.
  intros Hsz. destruct (firstk_spec size Hsz) as [Hfit Hmin].
  assert (Hmono : ∀ j j', (j ≤ j')%nat → blk_size j ≤ blk_size j').
  { intros j j' Hj. rewrite !blk_size_alt. assert (2 ^ Z.of_nat j ≤ 2 ^ Z.of_nat j') by (apply Z.pow_le_mono_r; lia). lia. }
  split.
  - intros Hk. apply Hmono in Hk. lia.
  - intros Hk. destruct (Nat.le_gt_cases (firstk size) k) as [|Hgt]; [done|]. destruct Hmin as [->|Hmin]; [lia|].
    assert (Hle : (k ≤ firstk size - 1)%nat) by lia. apply Hmono in Hle. lia.
Qed.

(** The request succeeds. *)
Definition granted (size align : Z) (b : Buddy) : bool :=
  match (alloc size align b).1 with Ok (Some _) => true | _ => false end.

(** When an allocation succeeds.  A request is granted exactly when its
    alignment is at most a page and some free list holds a block at least as
    large as the request; the search never misses one.  What is granted is
    the smallest block size that fits. *)
Theorem buddy_alloc_complete base nsize r b A S fl size align :
  inv base nsize r b A S fl → 0 ≤ size →
  (granted size align b = true ↔
   align ≤ MAX_ALIGN ∧ ∃ k, (k < nsize)%nat ∧ size ≤ blk_size k ∧ fl k ≠ []) ∧
  (∀ k, size ≤ blk_size k → blk_size (firstk size) ≤ blk_size k).
Proof.
  intros I Hsz. assert (Hserved : served nsize fl size ↔ ∃ k, (k < nsize)%nat ∧ size ≤ blk_size k ∧ fl k ≠ []).
  { unfold served. split.
    - intros (k&Hk&Hne). exists k. rewrite <-firstk_le by done. split_and!; [lia|lia|done].
    - intros (k&Hk&Hfit&Hne). apply firstk_le in Hfit; [|done]. exists k. split; [lia|done]. }
  rewrite <-Hserved. unfold granted. split.
  - destruct (decide (align ≤ MAX_ALIGN)) as [Hal|Hal].
    + destruct (served_dec nsize fl size) as [Hs|Hs].
      * destruct (alloc_spec base nsize r b A S fl size align I Hsz Hal Hs) as (i&b'&A'&S'&fl'&->&_). done.
      * rewrite (alloc_none base nsize r b A S fl) by naive_solver. naive_solver.
    + rewrite (alloc_none base nsize r b A S fl) by naive_solver. naive_solver.
  - intros k Hfit. apply firstk_le in Hfit; [|done]. rewrite !blk_size_alt.
    assert (2 ^ Z.of_nat (firstk size) ≤ 2 ^ Z.of_nat k) by (apply Z.pow_le_mono_r; lia). lia.
Qed.

(** The alignment of a request is checked against a page but not used: a
    request for 8 bytes at a page boundary gets the first free 16 bytes. *)
Example alloc_ignores_align :
  match init 4000 12500 Buddy_new with
  | (Ok _, b) => match alloc 8 4096 b with (Ok (Some p), _) => negb (p mod 4096 =? 0) | _ => false end
  | _ => false
  end = true.
Proof. vm_compute. reflexivity. Qed.
