(* ===== verification/PageTable.v ===== *)
(** * Page-table entries, pages and their reference counts

    The address and page-table-entry types of [kernel/src/vm.rs], the page
    constants of [kernel/src/riscv.rs] and [kernel/src/memlayout.rs], and the
    reference counts of physical pages of [kernel/src/kalloc.rs]. *)

From stdpp Require Import base tactics numbers gmap list.
From S2P Require Import Prelude Params Errors UserMem.
Local Open Scope Z_scope.

Ltac Zify.zify_post_hook ::= Z.to_euclidean_division_equations.

Definition PGSHIFT : Z := 12.
Definition KERNBASE : Z := 0x80000000.
Definition PHYSTOP : Z := KERNBASE + 512 * 1024 * 1024.
Definition MAXVA : Z := Z.shiftl 1 (9 + 9 + 9 + 12 - 1).
Definition TRAMPOLINE : Z := MAXVA - PGSIZE.
Definition TRAPFRAME : Z := TRAMPOLINE - PGSIZE.
Definition trapframe_va (i : nat) : Z := TRAPFRAME - Z.of_nat i * PGSIZE.
Definition user_mem_top (nproc : nat) : Z := TRAMPOLINE - Z.of_nat nproc * PGSIZE.

Definition PTE_V : Z := Z.shiftl 1 0.
Definition PTE_R : Z := Z.shiftl 1 1.
Definition PTE_W : Z := Z.shiftl 1 2.
Definition PTE_X : Z := Z.shiftl 1 3.
Definition PTE_U : Z := Z.shiftl 1 4.
Definition PTE_COW : Z := Z.shiftl 1 8.

(** [!(PGSIZE - 1)] of a 64-bit word. *)
Definition PGMASK : Z := Z.lxor USIZE_MAX (PGSIZE - 1).

(** [Addr::is_aligned], [roundup] and [rounddown]; [pgroundup]. *)
Definition is_aligned (a : Z) : bool := a mod PGSIZE =? 0.
Definition pgroundup (a : Z) : Z := Z.land (a + PGSIZE - 1) PGMASK.
Definition rounddown (a : Z) : Z := Z.land a PGMASK.

(** [VAddr::px]. *)
Definition PXMASK : Z := 0x1FF.
Definition px (va : Z) (level : nat) : nat := Z.to_nat (Z.land (Z.shiftr va (PGSHIFT + 9 * Z.of_nat level)) PXMASK).

(** [PageTableEntry]. *)
Definition is_v (pte : Z) : bool := negb (Z.land pte PTE_V =? 0).
Definition is_u (pte : Z) : bool := negb (Z.land pte PTE_U =? 0).
Definition is_leaf (pte : Z) : bool := negb (Z.land pte (Z.lor (Z.lor PTE_R PTE_W) PTE_X) =? 0).
Definition rm_u (pte : Z) : Z := Z.land pte (Z.lxor USIZE_MAX PTE_U).
Definition pte_flags (pte : Z) : Z := Z.land pte 0x3FF.
Definition to_pa (pte : Z) : Z := Z.shiftl (Z.shiftr pte 10) 12.
Definition pte_set (pa attr : Z) : Z := Z.lor (Z.shiftl (Z.shiftr pa 12) 10) attr.
(** [flags & f != 0]. *)
Definition has (flags f : Z) : bool := negb (Z.land flags f =? 0).

(** ** Physical memory *)

(** Page-table pages by address, with their 512 entries; pages of data, with
    their 4096 bytes; the reference counts; and the pages the allocator hands
    out next. *)
Record Phys := mkPhys {
  ph_tables : gmap Z (list Z); ph_pages : gmap Z (list Z); ph_refs : gmap Z Z; ph_free : list Z
}.
Abbreviation VM := (M Error Phys).

Definition set_tables (t : gmap Z (list Z)) (s : Phys) : Phys := mkPhys t (ph_pages s) (ph_refs s) (ph_free s).
Definition set_pages (p : gmap Z (list Z)) (s : Phys) : Phys := mkPhys (ph_tables s) p (ph_refs s) (ph_free s).
Definition set_refs (r : gmap Z Z) (s : Phys) : Phys := mkPhys (ph_tables s) (ph_pages s) r (ph_free s).
Definition set_free (f : list Z) (s : Phys) : Phys := mkPhys (ph_tables s) (ph_pages s) (ph_refs s) f.

Definition zero_table : list Z := replicate 512 0.
Definition zero_page : list Z := replicate 4096 0.
#[global] Arguments zero_table : simpl never.
#[global] Arguments zero_page : simpl never.

(** [Box::try_new_zeroed] for a page table and for a page of data. *)
Definition new_table : VM (option Z) := λ s,
  match ph_free s with
  | [] => (Ok None, s)
  | p :: f => (Ok (Some p), set_free f (set_tables (<[p := zero_table]> (ph_tables s)) s))
  end.
Definition new_page : VM (option Z) := λ s,
  match ph_free s with
  | [] => (Ok None, s)
  | p :: f => (Ok (Some p), set_free f (set_pages (<[p := zero_page]> (ph_pages s)) s))
  end.
(** Dropping the box. *)
Definition drop_table (p : Z) : VM () := λ s, (Ok (), set_free (p :: ph_free s) (set_tables (delete p (ph_tables s)) s)).
Definition drop_page (p : Z) : VM () := λ s, (Ok (), set_free (p :: ph_free s) (set_pages (delete p (ph_pages s)) s)).

(** ** Reference counts ([kalloc.rs]) *)

Definition pa2idx_ok (pa : Z) : bool := (KERNBASE <=? pa) && (pa <? PHYSTOP) && (pa mod PGSIZE =? 0).
Definition pref (s : Phys) (pa : Z) : Z := default 0 (ph_refs s !! pa).

Definition page_ref_init (pa : Z) : VM () := λ s,
  if pa2idx_ok pa && (pref s pa =? 0) then (Ok (), set_refs (<[pa := 1]> (ph_refs s)) s) else (Panic, s).
Definition page_ref_inc (pa : Z) : VM () := λ s,
  if pa2idx_ok pa && negb (pref s pa =? 2 ^ 16 - 1) then (Ok (), set_refs (<[pa := pref s pa + 1]> (ph_refs s)) s) else (Panic, s).
Definition page_ref_dec (pa : Z) : VM Z := λ s,
  if pa2idx_ok pa && negb (pref s pa =? 0) then (Ok (pref s pa - 1), set_refs (<[pa := pref s pa - 1]> (ph_refs s)) s) else (Panic, s).
Definition page_ref_get (pa : Z) : VM Z := λ s,
  if pa2idx_ok pa then (Ok (pref s pa), s) else (Panic, s).

(** ** Bits *)

Lemma lor_shiftl_add b n a : 0 ≤ n → 0 ≤ a < 2 ^ n → Z.lor (Z.shiftl b n) a = b * 2 ^ n + a.
Proof.
  intros Hn Ha. assert (Hland : Z.land (Z.shiftl b n) a = 0).
  { apply Z.bits_inj'. intros i Hi. rewrite Z.land_spec, Z.bits_0. destruct (Z.lt_ge_cases i n).
    - by rewrite Z.shiftl_spec_low.
    - rewrite <-(Z.mod_small a (2 ^ n)) by done. rewrite Z.mod_pow2_bits_high by lia. apply andb_false_r. }
  rewrite <-Z.lxor_lor by done. rewrite <-Z.add_nocarry_lxor by done. by rewrite Z.shiftl_mul_pow2.
Qed.

Lemma pte_set_alt pa attr : pa mod 4096 = 0 → 0 ≤ attr < 1024 → pte_set pa attr = pa / 4096 * 1024 + attr.
Proof.
  intros Hpa Ha. unfold pte_set. rewrite Z.shiftr_div_pow2 by lia. change (2 ^ 12) with 4096.
  by rewrite lor_shiftl_add.
Qed.

Lemma to_pa_set pa attr : pa mod 4096 = 0 → 0 ≤ attr < 1024 → to_pa (pte_set pa attr) = pa.
Proof.
  intros Hpa Ha. rewrite pte_set_alt by done. unfold to_pa. rewrite Z.shiftr_div_pow2, Z.shiftl_mul_pow2 by lia.
  change (2 ^ 10) with 1024. change (2 ^ 12) with 4096. lia.
Qed.

Lemma pte_flags_alt pte : pte_flags pte = pte mod 1024.
Proof. unfold pte_flags. change 0x3FF with (Z.ones 10). by rewrite Z.land_ones by lia. Qed.

Lemma flags_set pa attr : pa mod 4096 = 0 → 0 ≤ attr < 1024 → pte_flags (pte_set pa attr) = attr.
Proof. intros. rewrite pte_flags_alt, pte_set_alt by done. lia. Qed.

(** The flag tests look at the low ten bits only. *)
Lemma land_flags pte f : 0 ≤ f < 1024 → Z.land pte f = Z.land (pte_flags pte) f.
Proof.
  intros Hf. unfold pte_flags. rewrite <-Z.land_assoc. f_equal. change 0x3FF with (Z.ones 10).
  rewrite Z.land_comm, Z.land_ones by lia. symmetry. apply Z.mod_small. done.
Qed.
Lemma is_v_flags pte : is_v pte = has (pte_flags pte) PTE_V.
Proof. unfold is_v, has. by rewrite land_flags by (vm_compute; split; congruence). Qed.
Lemma is_u_flags pte : is_u pte = has (pte_flags pte) PTE_U.
Proof. unfold is_u, has. by rewrite land_flags by (vm_compute; split; congruence). Qed.
Lemma is_leaf_flags pte : is_leaf pte = has (pte_flags pte) (Z.lor (Z.lor PTE_R PTE_W) PTE_X).
Proof. unfold is_leaf, has. by rewrite land_flags by (vm_compute; split; congruence). Qed.

Lemma is_v_set pa perm : pa mod 4096 = 0 → 0 ≤ Z.lor perm PTE_V < 1024 → is_v (pte_set pa (Z.lor perm PTE_V)) = true.
Proof.
  intros Hpa Hp. rewrite is_v_flags, flags_set by done. unfold has. apply negb_true_iff, Z.eqb_neq.
  rewrite Z.land_lor_distr_l, Z.land_diag. intros E. apply Z.lor_eq_0_iff in E as [_ E]. done.
Qed.

Lemma px_alt va l : 0 ≤ va → px va l = Z.to_nat (va / 2 ^ (12 + 9 * Z.of_nat l) mod 512).
Proof.
  intros Hva. unfold px, PXMASK, PGSHIFT. rewrite Z.shiftr_div_pow2 by lia. change 0x1FF with (Z.ones 9).
  rewrite Z.land_ones by lia. done.
Qed.
Lemma px_lt va l : 0 ≤ va → (px va l < 512)%nat.
Proof. intros Hva. rewrite px_alt by done. lia. Qed.

(** Rounding a 64-bit address. *)
Lemma rounddown_alt a : 0 ≤ a < 2 ^ 64 → rounddown a = a - a mod 4096.
Proof.
  intros Ha. unfold rounddown. assert (E : PGMASK = Z.ldiff (Z.ones 64) (Z.ones 12)) by (vm_compute; reflexivity).
  rewrite E, Z.ldiff_land, Z.land_assoc, Z.land_ones, (Z.mod_small a) by lia.
  rewrite <-Z.ldiff_land, Z.ldiff_ones_r by lia. rewrite Z.shiftr_div_pow2, Z.shiftl_mul_pow2 by lia. change (2 ^ 12) with 4096. lia.
Qed.
Lemma pgroundup_alt a : 0 ≤ a → a + 4095 < 2 ^ 64 → pgroundup a = (a + 4095) / 4096 * 4096.
Proof.
  intros H0 Ha. unfold pgroundup. change (Z.land (a + PGSIZE - 1) PGMASK) with (rounddown (a + PGSIZE - 1)).
  unfold PGSIZE. rewrite rounddown_alt by lia. lia.
Qed.

Lemma length_zero_table : length zero_table = 512%nat.
Proof. apply length_replicate. Qed.
Lemma lookup_zero_table i : (i < 512)%nat → zero_table !! i = Some 0.
Proof. apply lookup_replicate_2. Qed.
Lemma length_zero_page : length zero_page = 4096%nat.
Proof. apply length_replicate. Qed.

(** * Page tables and user memory

    [PageTable] and [Uvm] of [kernel/src/vm.rs]: the three-level walk,
    mapping and unmapping, growing and shrinking a process, copy-on-write
    copies, and moving bytes between the kernel and user memory.  A page table
    is the physical address of its root page. *)

Ltac Zify.zify_post_hook ::= Z.to_euclidean_division_equations.

(** [match m { Ok(a) => .., Err(e) => .. }]. *)
Definition on_result {A B} (m : VM A) (ok : A → VM B) (err : Error → VM B) : VM B := λ s,
  match m s with
  | (Ok a, s) => ok a s
  | (Err e, s) => err e s
  | (Panic, s) => (Panic, s)
  end.

(** ** [PageTable] *)

(** Entry [i] of the table at [p]; following a pointer to memory that is not
    a page table has no defined result. *)
Definition get_entry (p : Z) (i : nat) : VM (option Z) := λ s,
  match ph_tables s !! p with Some t => (Ok (t !! i), s) | None => (Panic, s) end.
Definition put_entry (p : Z) (i : nat) (pte : Z) : VM () := λ s,
  match ph_tables s !! p with
  | Some t => (Ok (), set_tables (<[p := <[i := pte]> t]> (ph_tables s)) s)
  | None => (Panic, s)
  end.

(** One pass of the loop of [walk]: the table of the next level. *)
Definition walk_step (va : Z) (alloc : bool) (level : nat) (pt : Z) : VM (option Z) :=
  o ← get_entry pt (px va level);
  match o with
  | None => mret None
  | Some pte =>
      if is_v pte then mret (Some (to_pa pte)) else
      if alloc then
        np ← new_table;
        match np with
        | None => mret None
        | Some p => _ ← put_entry pt (px va level) (pte_set p PTE_V); mret (Some p)
        end
      else mret None
  end.

(** [PageTable::walk]: the place of the entry, as a table and an index. *)
Definition walk (root va : Z) (alloc : bool) : VM (option (Z * nat)) :=
  if MAXVA <=? va then m_panic else
  o1 ← walk_step va alloc 2 root;
  match o1 with
  | None => mret None
  | Some p1 =>
      o0 ← walk_step va alloc 1 p1;
      match o0 with
      | None => mret None
      | Some p0 => e ← get_entry p0 (px va 0);
                   mret (match e with Some _ => Some (p0, px va 0) | None => None end)
      end
  end.

(** The value of the entry a walk found. *)
Definition get_pte (l : Z * nat) : VM Z :=
  o ← get_entry l.1 l.2; match o with Some pte => mret pte | None => m_panic end.
Definition put_pte (l : Z * nat) (pte : Z) : VM () := put_entry l.1 l.2 pte.

(** [PageTable::walkaddr]. *)
Definition walkaddr (root va : Z) : VM Z :=
  if MAXVA <=? va then m_err BadVirtAddr else
  o ← walk root va false;
  match o with
  | None => m_err BadVirtAddr
  | Some l => pte ← get_pte l;
              if negb (is_v pte) then m_err BadVirtAddr else
              if negb (is_u pte) then m_err BadVirtAddr else mret (to_pa pte)
  end.

(** The loop of [mappages], for [n + 1] pages. *)
Fixpoint mappages_loop (n : nat) (root va pa perm : Z) : VM () :=
  o ← walk root va true;
  match o with
  | None => m_err OutOfMemory
  | Some l =>
      pte ← get_pte l;
      if is_v pte then m_panic else
      _ ← put_pte l (pte_set pa (Z.lor perm PTE_V));
      match n with
      | O => mret ()
      | S n => mappages_loop n root (va + PGSIZE) (pa + PGSIZE) perm
      end
  end.

(** [PageTable::mappages]. *)
Definition mappages (root va pa size perm : Z) : VM () :=
  if size =? 0 then m_panic else
  if USIZE_MAX <? va + size then m_panic else
  let last := rounddown (va + size - 1) in
  let va := rounddown va in
  mappages_loop (Z.to_nat ((last - va) / PGSIZE)) root va pa perm.

(** [PageTable::freewalk]: a table of level [l] and everything below it. *)
Fixpoint freewalk (l : nat) (pt : Z) : VM () :=
  _ ← m_for (seq 0 512) (λ i,
        o ← get_entry pt i;
        match o with
        | None => mret ()
        | Some pte =>
            if is_v pte && negb (is_leaf pte) then
              match l with
              | O => m_panic
              | S l => _ ← freewalk l (to_pa pte); put_entry pt i 0
              end
            else if is_v pte then m_panic else mret ()
        end);
  drop_table pt.

(** ** [Uvm] *)

(** The loop of [unmap] over [n] pages from [a]. *)
Fixpoint unmap_loop (n : nat) (root a : Z) (do_free : bool) : VM () :=
  match n with
  | O => mret ()
  | S n =>
      o ← walk root a false;
      match o with
      | None => m_panic
      | Some l =>
          pte ← get_pte l;
          if negb (is_v pte) then m_panic else
          if negb (is_leaf pte) then m_panic else
          _ ← (if do_free then
                 r ← page_ref_dec (to_pa pte);
                 if r =? 0 then drop_page (to_pa pte) else mret ()
               else mret ());
          _ ← put_pte l 0;
          unmap_loop n root (a + PGSIZE) do_free
      end
  end.

(** [Uvm::unmap]. *)
Definition unmap (root va : Z) (npages : nat) (do_free : bool) : VM () :=
  if negb (is_aligned va) then m_panic else unmap_loop npages root va do_free.

(** [Uvm::create]. *)
Definition uvm_create : VM Z :=
  o ← new_table; match o with Some p => mret p | None => m_err OutOfMemory end.

(** [Uvm::dealloc]. *)
Definition uvm_dealloc (root oldsz newsz : Z) : VM Z :=
  if oldsz <=? newsz then mret oldsz else
  _ ← (if pgroundup newsz <? pgroundup oldsz then
         unmap root (pgroundup newsz) (Z.to_nat ((pgroundup oldsz - pgroundup newsz) / PGSIZE)) true
       else mret ());
  mret newsz.

(** The loop of [Uvm::alloc] over [n] pages from [a]; [oldsz] is rounded up. *)
Fixpoint uvm_alloc_loop (n : nat) (root a oldsz xperm : Z) : VM () :=
  match n with
  | O => mret ()
  | S n =>
      o ← new_page;
      match o with
      | None => _ ← uvm_dealloc root a oldsz; m_err OutOfMemory
      | Some mem =>
          on_result (mappages root a mem PGSIZE (Z.lor (Z.lor PTE_R PTE_U) xperm))
            (λ _, _ ← page_ref_init mem; uvm_alloc_loop n root (a + PGSIZE) oldsz xperm)
            (λ e, _ ← drop_page mem; _ ← uvm_dealloc root a oldsz; m_err e)
      end
  end.

(** [Uvm::alloc]. *)
Definition uvm_alloc (root oldsz newsz xperm : Z) : VM Z :=
  if newsz <? oldsz then mret oldsz else
  if user_mem_top NPROC <=? newsz then m_err BadVirtAddr else
  let oldsz := pgroundup oldsz in
  _ ← uvm_alloc_loop (Z.to_nat ((newsz - oldsz + PGSIZE - 1) / PGSIZE)) root oldsz oldsz xperm;
  mret newsz.

(** [Uvm::free]. *)
Definition uvm_free (root size : Z) : VM () :=
  _ ← (if 0 <? size then unmap root 0 (Z.to_nat (pgroundup size / PGSIZE)) true else mret ());
  freewalk 2 root.

(** The loop of [Uvm::copy] over [n] pages from [va]. *)
Fixpoint uvm_copy_loop (n : nat) (root new va : Z) : VM () :=
  match n with
  | O => mret ()
  | S n =>
      o ← walk root va false;
      match o with
      | None => m_panic
      | Some l =>
          pte ← get_pte l;
          if negb (is_v pte) then m_panic else
          let pa := to_pa pte in
          let flags := pte_flags pte in
          let cow := has flags PTE_W in
          let flags := if cow then Z.lor (Z.land flags (Z.lxor USIZE_MAX PTE_W)) PTE_COW else flags in
          _ ← (if cow then
                 o ← walk root va false;
                 match o with Some l => put_pte l (pte_set pa flags) | None => m_panic end
               else mret ());
          on_result (mappages new va pa PGSIZE flags)
            (λ _, _ ← page_ref_inc pa; uvm_copy_loop n root new (va + PGSIZE))
            (λ e, _ ← unmap new 0 (Z.to_nat (va / PGSIZE)) true; m_err e)
      end
  end.

(** [Uvm::copy]. *)
Definition uvm_copy (root new size : Z) : VM () :=
  uvm_copy_loop (Z.to_nat ((size + PGSIZE - 1) / PGSIZE)) root new 0.

(** The contents of a page of data. *)
Definition get_page (pa : Z) : VM (list Z) := λ s,
  match ph_pages s !! pa with Some d => (Ok d, s) | None => (Panic, s) end.
Definition put_page (pa : Z) (d : list Z) : VM () := λ s, (Ok (), set_pages (<[pa := d]> (ph_pages s)) s).

(** [self.page_table.walk(va, false).ok_or(BadVirtAddr)?]. *)
Definition walk_or_bad (root va : Z) : VM (Z * nat) :=
  o ← walk root va false; match o with Some l => mret l | None => m_err BadVirtAddr end.

(** [Uvm::resolve_cow]. *)
Definition resolve_cow (root va : Z) : VM () :=
  let va := rounddown va in
  l ← walk_or_bad root va;
  pte ← get_pte l;
  if negb (is_v pte) || negb (is_u pte) || negb (is_leaf pte) then m_err BadVirtAddr else
  let flags := pte_flags pte in
  if negb (has flags PTE_COW) || has flags PTE_W then m_err BadVirtAddr else
  let pa := to_pa pte in
  let new_flags := Z.land (Z.lor flags PTE_W) (Z.lxor USIZE_MAX PTE_COW) in
  r ← page_ref_get pa;
  if r =? 1 then
    l ← walk_or_bad root va;
    put_pte l (pte_set pa new_flags)
  else
  o ← new_page;
  match o with
  | None => m_err OutOfMemory
  | Some new_pa =>
      d ← get_page pa;
      _ ← put_page new_pa d;
      _ ← page_ref_init new_pa;
      l ← walk_or_bad root va;
      _ ← put_pte l (pte_set new_pa new_flags);
      r ← page_ref_dec pa;
      if r =? 0 then drop_page pa else mret ()
  end.

(** [Uvm::clear]. *)
Definition uvm_clear (root va : Z) : VM () :=
  o ← walk root va false;
  match o with Some l => pte ← get_pte l; put_pte l (rm_u pte) | None => m_panic end.

(** One pass of the loop of [Uvm::copyout]: the physical page to write to. *)
Definition copyout_page (root va0 : Z) : VM Z :=
  l ← walk_or_bad root va0;
  pte ← get_pte l;
  if negb (is_v pte) || negb (is_u pte) || negb (is_leaf pte) then m_err BadVirtAddr else
  let flags := pte_flags pte in
  if negb (has flags PTE_W) && negb (has flags PTE_COW) then m_err BadVirtAddr else
  _ ← (if negb (has flags PTE_W) then resolve_cow root va0 else mret ());
  l ← walk_or_bad root va0;
  pte ← get_pte l;
  if negb (has (pte_flags pte) PTE_W) then m_err BadVirtAddr else
  walkaddr root va0.

(** [dst.copy_from_slice(src)] inside the page at [pa], from offset [off]. *)
Definition splice (d : list Z) (off : nat) (bs : list Z) : list Z := take off d ++ bs ++ drop (off + length bs) d.
Definition write_page (pa : Z) (off : nat) (bs : list Z) : VM () :=
  d ← get_page pa;
  if (off + length bs <=? length d)%nat then put_page pa (splice d off bs) else m_panic.
Definition read_page (pa : Z) (off n : nat) : VM (list Z) :=
  d ← get_page pa;
  if (off + n <=? length d)%nat then mret (take n (drop off d)) else m_panic.

(** The loop of [Uvm::copyout].  Every pass copies at least a byte. *)
Fixpoint copyout_loop (fuel : nat) (root dstva : Z) (src : list Z) : VM () :=
  match src with
  | [] => mret ()
  | _ =>
      match fuel with
      | O => m_panic
      | S fuel =>
          let va0 := rounddown dstva in
          pa0 ← copyout_page root va0;
          let off := Z.to_nat (dstva - va0) in
          let n := Nat.min (4096 - off) (length src) in
          _ ← write_page pa0 off (take n src);
          copyout_loop fuel root (va0 + PGSIZE) (drop n src)
      end
  end.
(** [Uvm::copyout]. *)
Definition uvm_copyout (root dstva : Z) (src : list Z) : VM () := copyout_loop (length src) root dstva src.

(** The loop of [Uvm::copyin], for [len] bytes. *)
Fixpoint copyin_loop (fuel : nat) (root srcva : Z) (len : nat) : VM (list Z) :=
  match len with
  | O => mret []
  | _ =>
      match fuel with
      | O => m_panic
      | S fuel =>
          let va0 := rounddown srcva in
          pa0 ← walkaddr root va0;
          let off := Z.to_nat (srcva - va0) in
          let n := Nat.min (4096 - off) len in
          bs ← read_page pa0 off n;
          rest ← copyin_loop fuel root (va0 + PGSIZE) (len - n);
          mret (bs ++ rest)
      end
  end.
(** [Uvm::copyin]. *)
Definition uvm_copyin (root srcva : Z) (len : nat) : VM (list Z) := copyin_loop len root srcva len.

(** The loop of [Uvm::try_unmap] over [n] pages from [a]. *)
Fixpoint try_unmap_loop (n : nat) (root a : Z) (do_free did : bool) : VM bool :=
  match n with
  | O => mret did
  | S n =>
      o ← walk root a false;
      did ← match o with
            | None => mret did
            | Some l =>
                pte ← get_pte l;
                if is_v pte && is_leaf pte then
                  _ ← (if do_free then drop_page (to_pa pte) else mret ());
                  _ ← put_pte l 0;
                  mret true
                else mret did
            end;
      try_unmap_loop n root (a + PGSIZE) do_free did
  end.
(** [Uvm::try_unmap]. *)
Definition try_unmap (root va : Z) (npages : nat) (do_free : bool) : VM bool :=
  if negb (is_aligned va) then m_err BadVirtAddr else try_unmap_loop npages root va do_free false.

(** [let _ = self.try_unmap(..)]. *)
Definition ignore {A} (m : VM A) : VM () := λ s,
  match m s with (Panic, s) => (Panic, s) | (_, s) => (Ok (), s) end.
(** [Uvm::proc_uvmfree]. *)
Definition proc_uvmfree (root size : Z) : VM () :=
  _ ← unmap root TRAMPOLINE 1 false;
  _ ← ignore (try_unmap root TRAPFRAME 1 false);
  _ ← m_for (seq 0 NPROC) (λ i, ignore (try_unmap root (trapframe_va i) 1 false));
  uvm_free root size.
