(* ===== verification/PtSpec.v ===== *)
(** * Page tables as maps

    What a page table means: the entry of every virtual page.  A walk finds
    it, creating tables does not change it, and [mappages] and [unmap] change
    it for the pages they name only. *)

From stdpp Require Import base tactics numbers gmap list.
From S2P Require Import Prelude Params Errors UserMem PageTable.
Local Open Scope Z_scope.
Ltac Zify.zify_post_hook ::= Z.to_euclidean_division_equations.

Definition entry (s : Phys) (p : Z) (i : nat) : option Z := t ← ph_tables s !! p; t !! i.

(** The next table on the way to [va]. *)
Definition next_table (s : Phys) (va : Z) (level : nat) (pt : Z) : option Z :=
  e ← entry s pt (px va level); if is_v e then Some (to_pa e) else None.
(** The last-level table of [va], if it exists. *)
Definition path (s : Phys) (root va : Z) : option Z :=
  p1 ← next_table s va 2 root; next_table s va 1 p1.
(** The entry of [va]; 0, an invalid entry, if there is no table for it. *)
Definition pte_at (s : Phys) (root va : Z) : Z :=
  match path s root va with Some p => default 0 (entry s p (px va 0)) | None => 0 end.

(** The addresses a table of level [l] covers have this prefix. *)
Definition pfx (va : Z) (l : nat) : Z := va / 2 ^ (12 + 9 * Z.of_nat (S l)).

(** [own] gives the level and the prefix of every table page of the page
    table: the pages form a tree. *)
Record pt_wf (root : Z) (own : gmap Z (nat * Z)) (s : Phys) : Prop := {
  pw_root : own !! root = Some (2%nat, 0);
  pw_table p l v : own !! p = Some (l, v) → ∃ t, ph_tables s !! p = Some t ∧ length t = 512%nat ∧
    ((0 < l)%nat → ∀ i e, t !! i = Some e → is_v e = true → own !! to_pa e = Some ((l - 1)%nat, v * 512 + Z.of_nat i));
  pw_free p : p ∈ ph_free s → own !! p = None ∧ p mod 4096 = 0;
  pw_nodup : NoDup (ph_free s);
}.

Lemma pfx_step va l : 0 ≤ va → pfx va l = pfx va (S l) * 512 + Z.of_nat (px va (S l)).
Proof.
  intros Hva. unfold pfx. rewrite px_alt by done. set (x := va / 2 ^ (12 + 9 * Z.of_nat (S l))).
  assert (Hx : 0 ≤ x) by (apply Z.div_pos; lia).
  replace (va / 2 ^ (12 + 9 * Z.of_nat (S (S l)))) with (x / 512); [lia|].
  subst x. rewrite Z.div_div by lia. f_equal. change 512 with (2 ^ 9). rewrite <-Z.pow_add_r by lia. f_equal. lia.
Qed.
Lemma page_pfx va : 0 ≤ va → va / 4096 = pfx va 0 * 512 + Z.of_nat (px va 0).
Proof.
  intros Hva. unfold pfx. rewrite px_alt by done. change (2 ^ (12 + 9 * Z.of_nat 0)) with 4096.
  change (2 ^ (12 + 9 * Z.of_nat 1)) with (4096 * 512). rewrite <-Z.div_div by lia. lia.
Qed.
Lemma pfx_top va : 0 ≤ va < MAXVA → pfx va 2 = 0.
Proof.
  intros Hva. change MAXVA with 274877906944 in Hva. unfold pfx.
  change (2 ^ (12 + 9 * Z.of_nat 3)) with 549755813888. apply Z.div_small. lia.
Qed.

(** Pages with the same number have the same way through the tables. *)
Lemma px_page va va' l : 0 ≤ va → 0 ≤ va' → va / 4096 = va' / 4096 → px va l = px va' l.
Proof.
  intros H1 H2 E. rewrite !px_alt by done. do 2 f_equal.
  replace (2 ^ (12 + 9 * Z.of_nat l)) with (4096 * 2 ^ (9 * Z.of_nat l)) by (change 4096 with (2 ^ 12); rewrite <-Z.pow_add_r by lia; reflexivity).
  rewrite <-!Z.div_div by lia. by rewrite E.
Qed.

Section wf.
Context (root : Z) (own : gmap Z (nat * Z)) (s : Phys) (W : pt_wf root own s).

Lemma wf_entry p l v i : own !! p = Some (l, v) → (i < 512)%nat →
  ∃ e, entry s p i = Some e ∧ get_entry p i s = (Ok (Some e), s).
Proof.
  intros Hp Hi. destruct (pw_table _ _ _ W p l v Hp) as (t&Ht&Hl&_). unfold entry, get_entry. rewrite Ht. simpl.
  destruct (lookup_lt_is_Some_2 t i) as [e He]; [lia|]. rewrite He. eauto.
Qed.

Lemma next_own va l pt p : 0 ≤ va → own !! pt = Some (S l, pfx va (S l)) → next_table s va (S l) pt = Some p →
  own !! p = Some (l, pfx va l).
Proof.
  intros Hva Hpt. unfold next_table, entry. destruct (pw_table _ _ _ W pt _ _ Hpt) as (t&->&_&Hch). simpl.
  destruct (t !! px va (S l)) as [e|] eqn:He; [|done]. simpl. destruct (is_v e) eqn:Hv; [|done]. intros [= <-].
  specialize (Hch ltac:(lia) _ _ He Hv). rewrite Hch. replace (S l - 1)%nat with l by lia. by rewrite (pfx_step va l).
Qed.

Lemma walk_step_noalloc va l pt : 0 ≤ va → own !! pt = Some (S l, pfx va (S l)) →
  walk_step va false (S l) pt s = (Ok (next_table s va (S l) pt), s).
Proof.
  intros Hva Hpt. destruct (wf_entry pt _ _ (px va (S l)) Hpt (px_lt va (S l) Hva)) as (e&He&Hg).
  unfold walk_step, next_table, mbind, M_bind. rewrite Hg, He. simpl. by destruct (is_v e).
Qed.

(** The walk without allocation. *)
Lemma walk_noalloc va : 0 ≤ va < MAXVA →
  (walk root va false s = (Ok None, s) ∧ path s root va = None) ∨
  ∃ p, walk root va false s = (Ok (Some (p, px va 0)), s) ∧ path s root va = Some p ∧
    own !! p = Some (0%nat, pfx va 0) ∧ entry s p (px va 0) = Some (pte_at s root va).
Proof.
  intros Hva. unfold walk. rewrite (proj2 (Z.leb_gt _ _)) by lia.
  assert (Hroot : own !! root = Some (2%nat, pfx va 2)) by (rewrite pfx_top by done; apply W).
  unfold mbind, M_bind, path. rewrite (walk_step_noalloc va 1 root) by (done || lia).
  destruct (next_table s va 2 root) as [p1|] eqn:E1; [|by left].
  pose proof (next_own va 1 root p1 ltac:(lia) Hroot E1) as Hp1.
  rewrite (walk_step_noalloc va 0 p1) by (done || lia). simpl.
  destruct (next_table s va 1 p1) as [p0|] eqn:E0; [|by left].
  pose proof (next_own va 0 p1 p0 ltac:(lia) Hp1 E0) as Hp0.
  destruct (wf_entry p0 _ _ (px va 0) Hp0 (px_lt va 0 ltac:(lia))) as (e&He&Hg). rewrite Hg.
  right. exists p0. split_and!; [done|done|done|]. unfold pte_at, path. rewrite E1. simpl. rewrite E0, He. done.
Qed.

Lemma path_own va p : 0 ≤ va < MAXVA → path s root va = Some p → own !! p = Some (0%nat, pfx va 0).
Proof. intros Hva Hp. destruct (walk_noalloc va Hva) as [[_ ?]|(p'&_&?&?&_)]; congruence. Qed.

(** The entries depend on the tables of the page table only. *)
Lemma next_table_own s' va l pt v : own !! pt = Some (l, v) → (∀ q, is_Some (own !! q) → ph_tables s' !! q = ph_tables s !! q) →
  next_table s' va l pt = next_table s va l pt.
Proof. intros Hpt Ht. unfold next_table, entry. by rewrite Ht by eauto. Qed.
Lemma pte_at_own s' va : (∀ q, is_Some (own !! q) → ph_tables s' !! q = ph_tables s !! q) → 0 ≤ va < MAXVA →
  pte_at s' root va = pte_at s root va.
Proof.
  intros Ht Hva. assert (Hroot : own !! root = Some (2%nat, pfx va 2)) by (rewrite pfx_top by done; apply W).
  assert (Hp : path s' root va = path s root va).
  { unfold path. rewrite (next_table_own s' va 2 root _ Hroot Ht). destruct (next_table s va 2 root) as [p1|] eqn:E1; [|done].
    apply (next_table_own s' va 1 p1 _ (next_own va 1 root p1 ltac:(lia) Hroot E1) Ht). }
  unfold pte_at. rewrite Hp. destruct (path s root va) as [p|] eqn:Ep; [|done].
  unfold entry. rewrite Ht; [done|]. rewrite (path_own va p Hva Ep). eauto.
Qed.

(** Writing a last-level entry changes the entry of that page only. *)
Lemma put_leaf va p v : 0 ≤ va < MAXVA → path s root va = Some p →
  ∃ s', put_pte (p, px va 0) v s = (Ok (), s') ∧ pt_wf root own s' ∧
    (∀ va', 0 ≤ va' < MAXVA → pte_at s' root va' = if decide (va' / 4096 = va / 4096) then v else pte_at s root va') ∧
    ph_pages s' = ph_pages s ∧ ph_refs s' = ph_refs s ∧ ph_free s' = ph_free s ∧
    (∀ va', 0 ≤ va' < MAXVA → path s' root va' = path s root va').
Proof.
  intros Hva Hp. pose proof (path_own va p Hva Hp) as Hop.
  destruct (pw_table _ _ _ W p _ _ Hop) as (t&Ht&Hl&_). unfold put_pte, put_entry. simpl. rewrite Ht.
  eexists. split; [reflexivity|]. set (s' := set_tables _ s).
  assert (Hlen : (px va 0 < length t)%nat) by (rewrite Hl; apply px_lt; lia).
  assert (Hent : ∀ q i, entry s' q i = if decide (q = p ∧ i = px va 0) then Some v else entry s q i).
  { intros q i. unfold entry, s'. simpl. destruct (decide (q = p)) as [->|Hne].
    - rewrite lookup_insert_eq, Ht. simpl. destruct (decide (i = px va 0)) as [->|].
      + rewrite decide_True by done. by apply list_lookup_insert_eq.
      + rewrite decide_False by naive_solver. by apply list_lookup_insert_ne.
    - rewrite lookup_insert_ne by done. by rewrite decide_False by naive_solver. }
  assert (Hnext : ∀ va' l pt, own !! pt = Some (S l, pfx va' (S l)) → next_table s' va' (S l) pt = next_table s va' (S l) pt).
  { intros va' l pt Hpt. unfold next_table. rewrite Hent, decide_False; [done|]. intros [-> _]. congruence. }
  assert (Hpath : ∀ va', 0 ≤ va' < MAXVA → path s' root va' = path s root va').
  { intros va' Hva'. assert (Hroot : own !! root = Some (2%nat, pfx va' 2)) by (rewrite pfx_top by done; apply W).
    unfold path. rewrite (Hnext va' 1%nat root Hroot). destruct (next_table s va' 2 root) as [p1|] eqn:E1; [|done].
    simpl. apply (Hnext va' 0%nat p1). by apply (next_own va' 1 root p1 ltac:(lia) Hroot E1). }
  split_and!; [| |done|done|done|done].
  - split; [apply W| |apply W|apply W]. intros q l w Hq. destruct (decide (q = p)) as [->|Hne].
    + exists (<[px va 0 := v]> t). simpl. rewrite lookup_insert_eq, length_insert. split_and!; [done|done|].
      assert (l = 0%nat) as -> by congruence. lia.
    + simpl. rewrite lookup_insert_ne by done. by apply (pw_table _ _ _ W q l w).
  - intros va' Hva'. unfold pte_at. rewrite Hpath by done. destruct (path s root va') as [q|] eqn:Hq; cycle 1.
    + case_decide as E; [|done]. exfalso. unfold path, next_table in *.
      rewrite !(px_page va' va) in Hq by (done || lia). congruence.
    + rewrite Hent. pose proof (path_own va' q Hva' Hq) as Hoq. case_decide as E1; case_decide as E2; try done.
      * exfalso. destruct E1 as [-> E1]. apply E2. rewrite !page_pfx by lia. rewrite E1. congruence.
      * exfalso. apply E1. split; [|apply px_page; [lia|lia|done]].
        unfold path, next_table in *. rewrite !(px_page va' va) in Hq by (done || lia). congruence.
Qed.
End wf.

(** What stays when tables are added. *)
Record grown (root : Z) (own : gmap Z (nat * Z)) (s : Phys) (own' : gmap Z (nat * Z)) (s' : Phys) : Prop := {
  gr_wf : pt_wf root own' s';
  gr_own : own ⊆ own';
  gr_new p : p ∈ dom own' → p ∈ dom own ∨ p ∈ ph_free s;
  gr_pte va : 0 ≤ va < MAXVA → pte_at s' root va = pte_at s root va;
  gr_pages : ph_pages s' = ph_pages s;
  gr_refs : ph_refs s' = ph_refs s;
  gr_free : ph_free s' `suffix_of` ph_free s;
  gr_entry p i e : p ∈ dom own → entry s p i = Some e → is_v e = true → entry s' p i = Some e;
}.

Lemma grown_refl root own s : pt_wf root own s → grown root own s own s.
Proof. intros W. split; try done; auto. Qed.
Lemma grown_trans root own s own1 s1 own2 s2 :
  grown root own s own1 s1 → grown root own1 s1 own2 s2 → grown root own s own2 s2.
Proof.
  intros [W1 O1 N1 P1 G1 R1 F1 E1] [W2 O2 N2 P2 G2 R2 F2 E2]. split.
  - done.
  - by etrans.
  - intros p Hp. destruct (N2 p Hp) as [?|Hf]; [by apply N1|]. right.
    destruct F1 as [l ->]. set_solver.
  - intros va Hva. by rewrite P2, P1.
  - congruence.
  - congruence.
  - by etrans.
  - intros p i e Hp He Hv. apply E2; [|by apply E1|done]. by apply (subseteq_dom own own1).
Qed.

Lemma is_v_0 : is_v 0 = false.
Proof. done. Qed.

(** A new, empty table below an invalid entry. *)
Lemma add_table root own s pt l v i e p f : pt_wf root own s → own !! pt = Some (S l, v) → (i < 512)%nat →
  entry s pt i = Some e → is_v e = false → ph_free s = p :: f →
  ∃ s', (np ← new_table; match np with None => mret None | Some p => _ ← put_entry pt i (pte_set p PTE_V); mret (Some p) end) s
      = (Ok (Some p), s') ∧ grown root own s (<[p := (l, v * 512 + Z.of_nat i)]> own) s'.
Proof.
  intros W Hpt Hi He Hv Hf. destruct (pw_free _ _ _ W p) as [Hp Hal]; [rewrite Hf; by left|].
  destruct (pw_table _ _ _ W pt _ _ Hpt) as (t&Ht&Hl&Hch). assert (Hne : pt ≠ p) by congruence.
  unfold mbind, M_bind, new_table, put_entry. rewrite Hf. simpl. rewrite lookup_insert_ne, Ht by done.
  eexists. split; [reflexivity|]. set (own' := <[p := _]> own). set (s' := set_tables _ _).
  assert (Hpte : is_v (pte_set p PTE_V) = true ∧ to_pa (pte_set p PTE_V) = p).
  { split; [by apply (is_v_set p 0)|by apply to_pa_set]. }
  assert (Hsub : own ⊆ own') by (by apply insert_subseteq).
  assert (Hlo : ∀ q, q ≠ p → own' !! q = own !! q) by (intros; subst own'; by rewrite lookup_insert_ne).
  assert (Hent : ∀ q j, q ≠ p → ¬ (q = pt ∧ j = i) → entry s' q j = entry s q j).
  { intros q j Hq Hn. unfold entry, s'. simpl. destruct (decide (q = pt)) as [->|].
    - rewrite lookup_insert_eq, Ht. simpl. apply list_lookup_insert_ne. naive_solver.
    - by rewrite !lookup_insert_ne by done. }
  assert (Hnew : entry s' pt i = Some (pte_set p PTE_V)).
  { unfold entry, s'. simpl. rewrite lookup_insert_eq. simpl. apply list_lookup_insert_eq. by rewrite Hl. }
  assert (Hzero : ∀ j, (j < 512)%nat → entry s' p j = Some 0).
  { intros j Hj. unfold entry, s'. simpl. rewrite lookup_insert_ne, lookup_insert_eq by done. simpl. by apply lookup_zero_table. }
  assert (Htab : ∀ q, own !! q ≠ None → q ≠ p) by (intros q Hq ->; done).
  split; try done.
  - split.
    + apply (lookup_weaken own); [apply W|done].
    + intros q lq w Hq. destruct (decide (q = p)) as [->|Hqp].
      * exists zero_table. simpl. rewrite lookup_insert_ne, lookup_insert_eq by done. split_and!; [done|apply length_zero_table|].
        intros _ j x Hj. apply lookup_replicate in Hj as [-> _]. done.
      * rewrite Hlo in Hq by done. destruct (pw_table _ _ _ W q lq w Hq) as (tq&Htq&Hlq&Hchq).
        destruct (decide (q = pt)) as [->|Hqt].
        -- assert (tq = t) as -> by congruence. assert (lq = S l) as -> by congruence. assert (w = v) as -> by congruence.
           exists (<[i := pte_set p PTE_V]> t). simpl. rewrite lookup_insert_eq, length_insert. split_and!; [done|done|].
           intros _ j x Hj Hx. destruct (decide (j = i)) as [->|Hji].
           ++ rewrite list_lookup_insert_eq in Hj by lia. injection Hj as <-. destruct Hpte as [_ ->].
              subst own'. rewrite lookup_insert_eq. do 2 f_equal. lia.
           ++ rewrite list_lookup_insert_ne in Hj by done. apply (lookup_weaken own); [|done]. by apply Hchq; [lia|..].
        -- exists tq. simpl. rewrite !lookup_insert_ne by done. split_and!; [done|done|]. intros Hl0 j x Hj Hx.
           apply (lookup_weaken own); [|done]. by apply Hchq.
    + simpl. intros q Hq. pose proof (pw_nodup _ _ _ W) as Hnd. rewrite Hf in Hnd. apply NoDup_cons in Hnd as [Hpf _].
      rewrite Hlo by (intros ->; done). apply (pw_free _ _ _ W). rewrite Hf. by right.
    + simpl. pose proof (pw_nodup _ _ _ W) as Hnd. rewrite Hf in Hnd. by apply NoDup_cons in Hnd as [_ ?].
  - intros q Hq. subst own'. rewrite dom_insert in Hq. apply elem_of_union in Hq as [Hq|?]; [|by left].
    right. apply elem_of_singleton in Hq as ->. rewrite Hf. by left.
  - intros va Hva. unfold pte_at. assert (Hroot : own !! root = Some (2%nat, pfx va 2)) by (rewrite pfx_top by done; apply W).
    assert (Hrp : root ≠ p) by (apply Htab; by rewrite Hroot). unfold path, next_table.
    destruct (decide (root = pt ∧ px va 2 = i)) as [[<- <-]|Hn2].
    { rewrite Hnew, He. simpl. destruct Hpte as [-> ->]. simpl. rewrite Hzero by (apply px_lt; lia). simpl. by rewrite Hv. }
    rewrite Hent by done. destruct (entry s root (px va 2)) as [e2|] eqn:E2; [|done]. simpl.
    destruct (is_v e2) eqn:V2; [|done]. simpl.
    assert (Hq1 : own !! to_pa e2 = Some (1%nat, pfx va 1)).
    { apply (next_own root own s W va 1 root); [lia|done|]. unfold next_table. rewrite E2. simpl. by rewrite V2. }
    assert (Hq1p : to_pa e2 ≠ p) by (apply Htab; by rewrite Hq1).
    destruct (decide (to_pa e2 = pt ∧ px va 1 = i)) as [[<- <-]|Hn1].
    { rewrite Hnew, He. simpl. destruct Hpte as [-> ->]. simpl. rewrite Hzero by (apply px_lt; lia). simpl. by rewrite Hv. }
    rewrite Hent by done. destruct (entry s (to_pa e2) (px va 1)) as [e1|] eqn:E1; [|done]. simpl.
    destruct (is_v e1) eqn:V1; [|done].
    assert (Hq0 : own !! to_pa e1 = Some (0%nat, pfx va 0)).
    { apply (next_own root own s W va 0 (to_pa e2)); [lia|done|]. unfold next_table. rewrite E1. simpl. by rewrite V1. }
    rewrite Hent; [done|apply Htab; by rewrite Hq0|]. intros [Eq _]. congruence.
  - rewrite Hf. by exists [p].
  - intros q j x Hq Hx Hvx. rewrite Hent; [done| |].
    + apply Htab. apply elem_of_dom in Hq as [? ->]. done.
    + intros [-> ->]. congruence.
Qed.

Lemma walk_step_alloc root own s va l pt : pt_wf root own s → 0 ≤ va → own !! pt = Some (S l, pfx va (S l)) →
  ∃ o own' s', walk_step va true (S l) pt s = (Ok o, s') ∧ grown root own s own' s' ∧
    match o with
    | Some p => own' !! p = Some (l, pfx va l) ∧ next_table s' va (S l) pt = Some p
    | None => ph_free s = []
    end.
Proof.
  intros W Hva Hpt. destruct (wf_entry root own s W pt _ _ (px va (S l)) Hpt (px_lt va (S l) Hva)) as (e&He&Hg).
  unfold walk_step. unfold mbind at 1, M_bind at 1. rewrite Hg. destruct (is_v e) eqn:Hv.
  - assert (Hn : next_table s va (S l) pt = Some (to_pa e)) by (unfold next_table; rewrite He; simpl; by rewrite Hv).
    exists (Some (to_pa e)), own, s. split_and!; [done|by apply grown_refl| |done].
    by apply (next_own root own s W va l pt).
  - destruct (ph_free s) as [|p f] eqn:Hf.
    + exists None, own, s. split_and!; [|by apply grown_refl|done]. unfold mbind, M_bind, new_table. by rewrite Hf.
    + destruct (add_table root own s pt l _ (px va (S l)) e p f W Hpt (px_lt va (S l) Hva) He Hv Hf) as (s'&Hrun&G).
      exists (Some p), (<[p := (l, pfx va l)]> own), s'. rewrite <-pfx_step in G by done. split_and!; [done|done| |].
      * by rewrite lookup_insert_eq.
      * pose proof Hrun as Hrun'. destruct (pw_free _ _ _ W p) as [Hp Hal]; [rewrite Hf; by left|].
        destruct (pw_table _ _ _ W pt _ _ Hpt) as (t&Ht&Hl&_).
        unfold mbind, M_bind, new_table, put_entry in Hrun'. rewrite Hf in Hrun'. simpl in Hrun'.
        rewrite lookup_insert_ne, Ht in Hrun' by congruence. injection Hrun' as <-.
        unfold next_table, entry. simpl. rewrite lookup_insert_eq. simpl.
        rewrite list_lookup_insert_eq by (rewrite Hl; by apply px_lt). simpl.
        assert (is_v (pte_set p PTE_V) = true) as -> by (by apply (is_v_set p 0)). by rewrite to_pa_set by done.
Qed.

(** The walk with allocation.  It fails only when there are no free pages
    left, and never changes what is mapped. *)
Lemma walk_alloc root own s va : pt_wf root own s → 0 ≤ va < MAXVA →
  ∃ o own' s', walk root va true s = (Ok o, s') ∧ grown root own s own' s' ∧
    match o with
    | Some l => ∃ p, l = (p, px va 0) ∧ path s' root va = Some p ∧ entry s' p (px va 0) = Some (pte_at s' root va)
    | None => ph_free s' = []
    end.
Proof.
  intros W Hva. unfold walk. rewrite (proj2 (Z.leb_gt _ _)) by lia.
  assert (Hroot : own !! root = Some (2%nat, pfx va 2)) by (rewrite pfx_top by done; apply W).
  destruct (walk_step_alloc root own s va 1 root W ltac:(lia) Hroot) as (o1&own1&s1&Hr1&G1&H1).
  unfold mbind, M_bind. rewrite Hr1. destruct o1 as [p1|]; cycle 1.
  { exists None, own1, s1. split_and!; [done|done|]. destruct (gr_free _ _ _ _ _ G1) as [l E]. rewrite H1 in E.
    symmetry in E. by apply app_nil in E as [_ ?]. }
  destruct H1 as [Ho1 Hn1].
  destruct (walk_step_alloc root own1 s1 va 0 p1 (gr_wf _ _ _ _ _ G1) ltac:(lia) Ho1) as (o0&own2&s2&Hr2&G2&H2).
  rewrite Hr2. pose proof (grown_trans _ _ _ _ _ _ _ G1 G2) as G. destruct o0 as [p0|]; cycle 1.
  { exists None, own2, s2. split_and!; [done|done|]. destruct (gr_free _ _ _ _ _ G2) as [l E]. rewrite H2 in E.
    symmetry in E. by apply app_nil in E as [_ ?]. }
  destruct H2 as [Ho2 Hn2].
  destruct (wf_entry root own2 s2 (gr_wf _ _ _ _ _ G2) p0 _ _ (px va 0) Ho2 (px_lt va 0 ltac:(lia))) as (e&He&Hg).
  rewrite Hg. exists (Some (p0, px va 0)), own2, s2. split_and!; [done|done|]. exists p0.
  assert (Hn2root : next_table s2 va 2 root = Some p1).
  { revert Hn1. unfold next_table. destruct (entry s1 root (px va 2)) as [x|] eqn:Hx; [|done]. simpl.
    destruct (is_v x) eqn:Hvx; [|done]. intros [= <-].
    rewrite (gr_entry _ _ _ _ _ G2 root (px va 2) x); [simpl; by rewrite Hvx| |done|done].
    apply elem_of_dom. rewrite (pw_root _ _ _ (gr_wf _ _ _ _ _ G1)). by eexists. }
  assert (Hpath : path s2 root va = Some p0) by (unfold path; rewrite Hn2root; done).
  split_and!; [done|done|]. rewrite He. f_equal. unfold pte_at. by rewrite Hpath, He.
Qed.

(** The tables that are missing on the way to [va]. *)
Definition missing (s : Phys) (root va : Z) : nat :=
  match next_table s va 2 root with
  | None => 2
  | Some p1 => match next_table s va 1 p1 with None => 1 | Some _ => 0 end
  end.

Lemma missing_tables root s s' va : ph_tables s' = ph_tables s → missing s' root va = missing s root va.
Proof. intros H. unfold missing, next_table, entry. by rewrite H. Qed.

Lemma walk_step_new s va l pt e : entry s pt (px va l) = Some e → is_v e = false →
  match ph_free s with
  | [] => walk_step va true l pt s = (Ok None, s)
  | p :: f => p ≠ pt → ∃ s', walk_step va true l pt s = (Ok (Some p), s') ∧ ph_free s' = f ∧ ph_tables s' !! p = Some zero_table
  end.
Proof.
  intros He Hv. unfold walk_step, get_entry, mbind, M_bind. unfold entry in He. destruct (ph_tables s !! pt) as [t|] eqn:Ht; [|done].
  simpl in He. rewrite He, Hv. unfold new_table, put_entry. destruct (ph_free s) as [|p f]; [done|].
  intros Hne. simpl. rewrite lookup_insert_ne, Ht by done. eexists. split_and!; [done|done|].
  simpl. by rewrite lookup_insert_ne, lookup_insert_eq by done.
Qed.

(** It succeeds exactly when there are pages for the missing tables. *)
Lemma walk_room root own s va : pt_wf root own s → 0 ≤ va < MAXVA →
  ∃ o s', walk root va true s = (Ok o, s') ∧ (is_Some o ↔ (missing s root va ≤ length (ph_free s))%nat).
Proof.
  intros W Hva. unfold walk. rewrite (proj2 (Z.leb_gt _ _)) by lia.
  assert (Hroot : own !! root = Some (2%nat, pfx va 2)) by (rewrite pfx_top by done; apply W).
  assert (Hok : ∀ l pt e s', entry s' pt (px va l) = Some e → is_v e = true → walk_step va true l pt s' = (Ok (Some (to_pa e)), s')).
  { intros l pt e s' He Hv. unfold walk_step, get_entry, mbind, M_bind. unfold entry in He. destruct (ph_tables s' !! pt); [|done].
    simpl in He. by rewrite He, Hv. }
  assert (Hz : ∀ s' p l, ph_tables s' !! p = Some zero_table → entry s' p (px va l) = Some 0 ∧ get_entry p (px va l) s' = (Ok (Some 0), s')).
  { intros s' p l Hp. unfold entry, get_entry. rewrite Hp. simpl. by rewrite lookup_zero_table by (apply px_lt; lia). }
  assert (Hfree : ∀ p f, ph_free s = p :: f → own !! p = None) by (intros p f E; apply (pw_free _ _ _ W); rewrite E; by left).
  unfold missing. destruct (wf_entry root own s W root _ _ (px va 2) Hroot (px_lt va 2 ltac:(lia))) as (e2&E2&_).
  unfold next_table at 1. rewrite E2. simpl. unfold mbind, M_bind. destruct (is_v e2) eqn:V2.
  - rewrite (Hok 2%nat root e2 s E2 V2).
    assert (Hp1 : own !! to_pa e2 = Some (1%nat, pfx va 1)).
    { apply (next_own root own s W va 1 root); [lia|done|]. unfold next_table. rewrite E2. simpl. by rewrite V2. }
    destruct (wf_entry root own s W _ _ _ (px va 1) Hp1 (px_lt va 1 ltac:(lia))) as (e1&E1&_).
    unfold next_table. rewrite E1. simpl. destruct (is_v e1) eqn:V1.
    + rewrite (Hok 1%nat _ e1 s E1 V1).
      assert (Hp0 : own !! to_pa e1 = Some (0%nat, pfx va 0)).
      { apply (next_own root own s W va 0 (to_pa e2)); [lia|done|]. unfold next_table. rewrite E1. simpl. by rewrite V1. }
      destruct (wf_entry root own s W _ _ _ (px va 0) Hp0 (px_lt va 0 ltac:(lia))) as (e0&_&->).
      eexists _, s. split; [done|]. split; [lia|eauto].
    + pose proof (walk_step_new s va 1 _ e1 E1 V1) as Hn. destruct (ph_free s) as [|p f] eqn:Hf.
      { rewrite Hn. eexists _, s. split; [done|]. simpl. split; [by intros []|lia]. }
      destruct Hn as (s1&->&_&Ht1); [intros ->; by rewrite (Hfree _ _ eq_refl) in Hp1|].
      rewrite (proj2 (Hz s1 p 0%nat Ht1)). eexists _, s1. split; [done|]. simpl. split; [lia|eauto].
  - pose proof (walk_step_new s va 2 _ e2 E2 V2) as Hn. pose proof (pw_nodup _ _ _ W) as Hnd. destruct (ph_free s) as [|p f] eqn:Hf.
    { rewrite Hn. eexists _, s. split; [done|]. simpl. split; [by intros []|lia]. }
    destruct Hn as (s1&->&Hf1&Ht1); [intros ->; by rewrite (Hfree _ _ eq_refl) in Hroot|].
    pose proof (walk_step_new s1 va 1 p 0 (proj1 (Hz s1 p 1%nat Ht1)) is_v_0) as Hn. rewrite Hf1 in Hn. destruct f as [|q f].
    { rewrite Hn. eexists _, s1. split; [done|]. simpl. split; [by intros []|lia]. }
    destruct Hn as (s2&->&_&Ht2); [intros ->; inversion Hnd; set_solver|].
    rewrite (proj2 (Hz s2 q 0%nat Ht2)). eexists _, s2. split; [done|]. simpl. split; [lia|eauto].
Qed.

(** ** Mapping *)

(** The entry [mappages] writes for the page of [va], [base] being the page
    that [pa] goes to. *)
Definition mapped_pte (base pa perm va : Z) : Z := pte_set (pa + (va / 4096 * 4096 - base)) (Z.lor perm PTE_V).

Lemma get_pte_entry l pte s : entry s l.1 l.2 = Some pte → get_pte l s = (Ok pte, s).
Proof.
  unfold get_pte, mbind, M_bind, get_entry, entry. destruct (ph_tables s !! l.1); [|done]. simpl. by intros ->.
Qed.

(** [mappages] maps the pages one after the other; it can stop early, when
    there are no free pages left for tables. *)
Lemma mappages_loop_spec root n : ∀ own s va pa perm, pt_wf root own s → 0 ≤ va → va mod 4096 = 0 →
  va + Z.of_nat n * 4096 < MAXVA →
  (∀ i, (i ≤ n)%nat → is_v (pte_at s root (va + Z.of_nat i * 4096)) = false) →
  ∃ own' s' j, mappages_loop n root va pa perm s = ((if (j <=? n)%nat then Err OutOfMemory else Ok ()), s') ∧ (j ≤ n + 1)%nat ∧
    pt_wf root own' s' ∧ own ⊆ own' ∧ (∀ p, p ∈ dom own' → p ∈ dom own ∨ p ∈ ph_free s) ∧
    ph_pages s' = ph_pages s ∧ ph_refs s' = ph_refs s ∧ ph_free s' `suffix_of` ph_free s ∧
    ((j ≤ n)%nat → ph_free s' = []) ∧
    (∀ x, 0 ≤ x < MAXVA → pte_at s' root x =
      if decide (va ≤ x < va + Z.of_nat j * 4096) then mapped_pte va pa perm x else pte_at s root x).
Proof.
  induction n as [|n IH]; intros own s va pa perm W Hva Hal Hmax Hinv; cbn [mappages_loop];
    destruct (walk_alloc root own s va W ltac:(lia)) as (o&own1&s1&Hrun&G&Ho); unfold mbind at 1, M_bind at 1; rewrite Hrun.
  all: assert (Hinv0 : is_v (pte_at s root va) = false)
         by (specialize (Hinv 0%nat ltac:(lia)); by rewrite Z.mul_0_l, Z.add_0_r in Hinv).
  all: destruct o as [l|]; [|
    exists own1, s1, 0%nat; split_and!; [done|lia|apply G|apply G|apply G|apply G|apply G|apply G|done|
      intros x Hx; rewrite decide_False by lia; by apply G]].
  all: destruct Ho as (p&->&Hp&He); rewrite (gr_pte _ _ _ _ _ G) in He by lia.
  all: destruct (put_leaf root own1 s1 (gr_wf _ _ _ _ _ G) va p (pte_set pa (Z.lor perm PTE_V)) ltac:(lia) Hp)
         as (s2&Hput&W2&Hpte&Hpg&Hrf&Hfr&_).
  all: unfold mbind at 1, M_bind at 1; rewrite (get_pte_entry (p, px va 0) _ s1 He), Hinv0;
       unfold mbind at 1, M_bind at 1; rewrite Hput.
  - exists own1, s2, 1%nat. split_and!; [done|lia|done|apply G|apply G| | | |lia|].
    + by rewrite Hpg, (gr_pages _ _ _ _ _ G).
    + by rewrite Hrf, (gr_refs _ _ _ _ _ G).
    + rewrite Hfr. apply G.
    + intros x Hx. rewrite Hpte by done. case_decide as E1; case_decide as E2; try lia; [|by apply G].
      unfold mapped_pte. f_equal. lia.
  - assert (Hpte' : ∀ x, 0 ≤ x < MAXVA → pte_at s2 root x =
        if decide (x / 4096 = va / 4096) then pte_set pa (Z.lor perm PTE_V) else pte_at s root x).
    { intros x Hx. rewrite Hpte by done. case_decide; [done|]. by apply G. }
    destruct (IH own1 s2 (va + 4096) (pa + 4096) perm W2) as (own'&s'&j&Hrun'&Hj&W'&Ho'&Hn'&Hpg'&Hrf'&Hfr'&Hend'&Hx'); [lia|lia|lia| |].
    { intros i Hi. rewrite Hpte' by lia. rewrite decide_False by lia.
      replace (va + 4096 + Z.of_nat i * 4096) with (va + Z.of_nat (S i) * 4096) by lia. apply Hinv. lia. }
    exists own', s', (S j). split_and!; [done|lia|done| | | | | | |].
    + etrans; [apply G|done].
    + intros q Hq. destruct (Hn' q Hq) as [Hq1|Hq1]; [by apply G in Hq1|]. right. rewrite Hfr in Hq1.
      destruct (gr_free _ _ _ _ _ G) as [l E]. rewrite E. set_solver.
    + by rewrite Hpg', Hpg, (gr_pages _ _ _ _ _ G).
    + by rewrite Hrf', Hrf, (gr_refs _ _ _ _ _ G).
    + etrans; [done|]. rewrite Hfr. apply G.
    + intros Hle. apply Hend'. lia.
    + intros x Hx. rewrite Hx', Hpte' by done. unfold mapped_pte. repeat case_decide; try lia; try done; f_equal; lia.
Qed.

(** ** Unmapping *)

Lemma is_v_path s root va : is_v (pte_at s root va) = true → ∃ p, path s root va = Some p.
Proof. unfold pte_at. destruct (path s root va); [eauto|done]. Qed.

(** A walk to a valid entry. *)
Lemma walk_valid root own s va : pt_wf root own s → 0 ≤ va < MAXVA → is_v (pte_at s root va) = true →
  ∃ p, walk root va false s = (Ok (Some (p, px va 0)), s) ∧ path s root va = Some p ∧
    get_pte (p, px va 0) s = (Ok (pte_at s root va), s).
Proof.
  intros W Hva Hv. destruct (is_v_path _ _ _ Hv) as [q Hq]. destruct (walk_noalloc root own s W va Hva) as [[_ ?]|(p&Hw&Hp&_&He)].
  - congruence.
  - exists p. split_and!; [done|done|]. by apply get_pte_entry.
Qed.

Lemma unmap_loop_spec root n : ∀ own s va, pt_wf root own s → 0 ≤ va → va mod 4096 = 0 → va + Z.of_nat n * 4096 ≤ MAXVA →
  (∀ i, (i < n)%nat → is_v (pte_at s root (va + Z.of_nat i * 4096)) = true ∧ is_leaf (pte_at s root (va + Z.of_nat i * 4096)) = true) →
  ∃ s', unmap_loop n root va false s = (Ok (), s') ∧ pt_wf root own s' ∧
    ph_pages s' = ph_pages s ∧ ph_refs s' = ph_refs s ∧ ph_free s' = ph_free s ∧
    (∀ x, 0 ≤ x < MAXVA → pte_at s' root x = if decide (va ≤ x < va + Z.of_nat n * 4096) then 0 else pte_at s root x).
Proof.
  induction n as [|n IH]; intros own s va W Hva Hal Hmax Hval; cbn [unmap_loop].
  { exists s. split_and!; try done. intros x Hx. by rewrite decide_False by lia. }
  destruct (Hval 0%nat ltac:(lia)) as [Hv Hlf]. rewrite Z.mul_0_l, Z.add_0_r in Hv, Hlf.
  destruct (walk_valid root own s va W ltac:(lia) Hv) as (p&Hw&Hp&Hg).
  destruct (put_leaf root own s W va p 0 ltac:(lia) Hp) as (s1&Hput&W1&Hpte&Hpg&Hrf&Hfr&_).
  destruct (IH own s1 (va + 4096) W1) as (s'&Hrun&W'&Hpg'&Hrf'&Hfr'&Hx'); [lia|lia|lia| |].
  { intros i Hi. rewrite Hpte by lia. rewrite decide_False by lia.
    replace (va + 4096 + Z.of_nat i * 4096) with (va + Z.of_nat (S i) * 4096) by lia. apply Hval. lia. }
  exists s'. split_and!; [|done|congruence..|].
  - unfold mbind, M_bind. rewrite Hw, Hg, Hv, Hlf. simpl. rewrite Hput. exact Hrun.
  - intros x Hx. rewrite Hx', Hpte by done. repeat case_decide; try lia; done.
Qed.

(** ** Claims *)

(** The pages of [va..va + size]. *)
Definition in_pages (va size x : Z) : Prop := va / 4096 * 4096 ≤ x < (va + size - 1) / 4096 * 4096 + 4096.
Global Instance in_pages_dec va size x : Decision (in_pages va size x).
Proof. unfold in_pages. apply _. Defined.

Lemma mappages_loop_of root va pa size perm s : 0 < size → 0 ≤ va → va + size ≤ MAXVA →
  mappages root va pa size perm s
  = mappages_loop (Z.to_nat (((va + size - 1) / 4096 * 4096 - va / 4096 * 4096) / 4096)) root (va / 4096 * 4096) pa perm s.
Proof.
  intros Hsz Hva Hmax. change MAXVA with 274877906944 in Hmax. unfold mappages.
  rewrite (proj2 (Z.eqb_neq _ _)) by lia. rewrite (proj2 (Z.ltb_ge _ _)) by (unfold USIZE_MAX; lia).
  rewrite !rounddown_alt by lia. unfold PGSIZE.
  replace (va + size - 1 - (va + size - 1) mod 4096) with ((va + size - 1) / 4096 * 4096) by lia.
  by replace (va - va mod 4096) with (va / 4096 * 4096) by lia.
Qed.

(** Mapping a range of pages.  Where nothing is mapped yet, [mappages]
    succeeds or fails for want of memory, and does not panic.  When it
    succeeds, every page of the range is mapped to the physical page at the
    same distance with the permissions asked for; when it fails, a prefix of
    the range is; all other pages of the address space, the contents of
    memory and the reference counts are what they were, and the tables still
    form a tree. *)
Theorem mappages_correct root own s va pa size perm :
  pt_wf root own s → 0 < size → 0 ≤ va → va + size ≤ MAXVA →
  (∀ x, in_pages va size x → is_v (pte_at s root x) = false) →
  ∃ own' s' e, mappages root va pa size perm s = ((if decide (in_pages va size e) then Err OutOfMemory else Ok ()), s') ∧
    pt_wf root own' s' ∧ own ⊆ own' ∧ ph_pages s' = ph_pages s ∧ ph_refs s' = ph_refs s ∧
    (in_pages va size e → ph_free s' = []) ∧
    ∀ x, 0 ≤ x < MAXVA → pte_at s' root x =
      if decide (in_pages va size x ∧ x < e) then mapped_pte (va / 4096 * 4096) pa perm x else pte_at s root x.
Proof.
  intros W Hsz Hva Hmax Hinv. pose proof Hmax as Hm. change MAXVA with 274877906944 in Hm.
  set (b := va / 4096 * 4096). set (n := Z.to_nat (((va + size - 1) / 4096 * 4096 - b) / 4096)).
  assert (Hn : Z.of_nat n * 4096 = (va + size - 1) / 4096 * 4096 - b) by lia.
  destruct (mappages_loop_spec root n own s b pa perm W) as (own'&s'&j&Hrun&Hj&W'&Ho&_&Hpg&Hrf&_&Hend&Hx).
  - lia.
  - lia.
  - change MAXVA with 274877906944. lia.
  - intros i Hi. apply Hinv. unfold in_pages. fold b. lia.
  - exists own', s', (b + Z.of_nat j * 4096). split_and!; [| done|done|done|done| |].
    + rewrite mappages_loop_of by done. fold b n. rewrite Hrun. f_equal. unfold in_pages. fold b.
      destruct (Nat.leb_spec j n); case_decide; try done; lia.
    + unfold in_pages. fold b. intros He. apply Hend. lia.
    + intros x Hxr. rewrite Hx by done. unfold in_pages. fold b. repeat case_decide; try done; lia.
Qed.

(** Unmapping undoes mapping.  After a [mappages] that succeeded, an
    [unmap] of the same pages that does not free them succeeds and leaves
    every entry of the address space as it was before. *)
Theorem map_unmap_roundtrip root own s va pa npages perm s1 :
  pt_wf root own s → (0 < npages)%nat → 0 ≤ va → va mod 4096 = 0 → va + Z.of_nat npages * 4096 ≤ MAXVA →
  pa mod 4096 = 0 → 0 ≤ Z.lor perm PTE_V < 1024 → has perm (Z.lor (Z.lor PTE_R PTE_W) PTE_X) = true →
  (∀ x, va ≤ x < va + Z.of_nat npages * 4096 → pte_at s root x = 0) →
  mappages root va pa (Z.of_nat npages * 4096) perm s = (Ok (), s1) →
  ∃ s2, unmap root va npages false s1 = (Ok (), s2) ∧ ph_pages s2 = ph_pages s ∧ ph_refs s2 = ph_refs s ∧
    ∀ x, 0 ≤ x < MAXVA → pte_at s2 root x = pte_at s root x.
Proof.
  intros W Hn Hva Hal Hmax Hpa Hperm Hleaf Hzero Hmap. pose proof Hmax as Hm. change MAXVA with 274877906944 in Hm.
  rewrite mappages_loop_of in Hmap by lia. replace (va / 4096 * 4096) with va in Hmap by lia.
  replace (Z.to_nat _) with (npages - 1)%nat in Hmap by lia.
  destruct (mappages_loop_spec root (npages - 1) own s va pa perm W Hva Hal) as (own'&s'&j&Hrun&Hj&W'&_&_&Hpg&Hrf&_&_&Hx).
  - change MAXVA with 274877906944. lia.
  - intros i Hi. rewrite Hzero by lia. done.
  - rewrite Hmap in Hrun. destruct (Nat.leb_spec j (npages - 1)); [done|]. injection Hrun as <-.
    assert (j = npages) as -> by lia.
    assert (Hin : ∀ i, (i < npages)%nat → pte_at s1 root (va + Z.of_nat i * 4096)
              = pte_set (pa + Z.of_nat i * 4096) (Z.lor perm PTE_V)).
    { intros i Hi. rewrite Hx by (change MAXVA with 274877906944; lia). rewrite decide_True by lia.
      unfold mapped_pte. f_equal. lia. }
    destruct (unmap_loop_spec root npages own' s1 va W' Hva Hal Hmax) as (s2&Hun&_&Hpg2&Hrf2&_&Hx2).
    { intros i Hi. rewrite Hin by done. split; [by apply is_v_set; [lia|]|].
      rewrite is_leaf_flags, flags_set by (done || lia). unfold has in *. apply negb_true_iff, Z.eqb_neq.
      apply negb_true_iff, Z.eqb_neq in Hleaf. rewrite Z.land_lor_distr_l. intros E. by apply Z.lor_eq_0_iff in E as [? _]. }
    exists s2. split_and!; [|congruence|congruence|].
    + unfold unmap, is_aligned, PGSIZE. rewrite Hal. done.
    + intros x Hxr. rewrite Hx2, Hx by done. case_decide; [|done]. symmetry. by apply Hzero.
Qed.

(** A small machine: a root table and a few free pages. *)
Definition demo_root : Z := KERNBASE.
Definition demo_phys : Phys := mkPhys {[ demo_root := zero_table ]} ∅ ∅ (map (λ i, KERNBASE + 4096 * i) [1; 2; 3; 4; 5; 6]).
Lemma demo_wf : pt_wf demo_root {[ demo_root := (2%nat, 0) ]} demo_phys.
Proof.
  split.
  - apply lookup_singleton_eq.
  - intros p l v Hp. apply lookup_singleton_Some in Hp as [<- [= <- <-]]. exists zero_table.
    split_and!; [apply lookup_singleton_eq|apply length_zero_table|].
    intros _ i e He. apply lookup_replicate in He as [-> _]. done.
  - intros p Hp. unfold demo_phys in Hp. simpl in Hp. repeat (apply elem_of_cons in Hp as [->|Hp]; [by split|]). by apply elem_of_nil in Hp.
  - apply (bool_decide_eq_true_1 (NoDup (ph_free demo_phys))). vm_compute. reflexivity.
Qed.
Lemma demo_empty x : pte_at demo_phys demo_root x = 0.
Proof.
  assert (Ht : ph_tables demo_phys !! demo_root = Some zero_table) by apply lookup_singleton_eq.
  unfold pte_at, path, next_table, entry. rewrite Ht. cbn [mbind option_bind].
  destruct (zero_table !! px x 2) as [e|] eqn:E; [|done]. apply lookup_replicate in E as [-> _]. done.
Qed.

