(* ===== verification/UvmMem.v ===== *)
(** * User memory through the page table

    [Uvm::copyin] and [Uvm::copyout] of [kernel/src/vm.rs] read and write the
    bytes of the address space, whatever the pages behind it, and resolving
    copy-on-write pages on the way does not show.  The address space is an
    instance of the interface [UserMem] of the components that copy. *)

From stdpp Require Import base tactics numbers gmap list.
From S2P Require Import Prelude Params Errors UserMem PageTable PtSpec.
Local Open Scope Z_scope.
Ltac Zify.zify_post_hook ::= Z.to_euclidean_division_equations.

(** ** Flags *)

Lemma has_bit f k : 0 ≤ k → has f (Z.shiftl 1 k) = Z.testbit f k.
Proof.
  intros Hk. unfold has. assert (E : Z.land f (Z.shiftl 1 k) = if Z.testbit f k then 2 ^ k else 0).
  { apply Z.bits_inj'. intros n Hn. rewrite Z.land_spec, Z.shiftl_1_l, Z.pow2_bits_eqb by done.
    destruct (Z.eqb_spec k n) as [->|Hne].
    - rewrite andb_true_r. destruct (Z.testbit f n); [by rewrite Z.pow2_bits_true|by rewrite Z.bits_0].
    - rewrite andb_false_r. destruct (Z.testbit f k); [by rewrite Z.pow2_bits_false|by rewrite Z.bits_0]. }
  rewrite E. destruct (Z.testbit f k); [|done]. apply negb_true_iff, Z.eqb_neq. lia.
Qed.

Lemma has_lor f g h : has f (Z.lor g h) = has f g || has f h.
Proof.
  unfold has. rewrite Z.land_lor_distr_r. destruct (Z.eqb_spec (Z.land f g) 0) as [E|E], (Z.eqb_spec (Z.land f h) 0) as [E'|E']; simpl.
  - by rewrite E, E'.
  - rewrite E, Z.lor_0_l. by apply negb_true_iff, Z.eqb_neq.
  - apply negb_true_iff, Z.eqb_neq. intros Eq. by apply Z.lor_eq_0_iff in Eq as [? _].
  - apply negb_true_iff, Z.eqb_neq. intros Eq. by apply Z.lor_eq_0_iff in Eq as [? _].
Qed.

(** The flags of a page that is not shared any more. *)
Definition cow_flags (flags : Z) : Z := Z.land (Z.lor flags PTE_W) (Z.lxor USIZE_MAX PTE_COW).

Lemma cow_flags_bit flags k : 0 ≤ k < 64 →
  Z.testbit (cow_flags flags) k = if k =? 2 then true else if k =? 8 then false else Z.testbit flags k.
Proof.
  intros Hk. unfold cow_flags. rewrite Z.land_spec, Z.lor_spec, Z.lxor_spec.
  change USIZE_MAX with (Z.ones 64). rewrite Z.ones_spec_low by lia.
  unfold PTE_W, PTE_COW. rewrite !Z.shiftl_1_l, !Z.pow2_bits_eqb by lia. rewrite (Z.eqb_sym k 2), (Z.eqb_sym k 8).
  destruct (Z.eqb_spec 2 k), (Z.eqb_spec 8 k); try lia; simpl; by rewrite ?orb_true_r, ?orb_false_r, ?andb_true_r, ?andb_false_r.
Qed.
Lemma cow_flags_range flags : 0 ≤ flags < 1024 → 0 ≤ cow_flags flags < 1024.
Proof.
  intros Hf. assert (H0 : 0 ≤ cow_flags flags).
  { unfold cow_flags. apply Z.land_nonneg. left. apply Z.lor_nonneg. split; [lia|]. by vm_compute. }
  split; [done|]. assert (E : cow_flags flags mod 2 ^ 10 = cow_flags flags).
  { apply Z.bits_inj'. intros k Hk. destruct (Z.lt_ge_cases k 10); [by rewrite Z.mod_pow2_bits_low|].
    rewrite Z.mod_pow2_bits_high by lia. unfold cow_flags. rewrite Z.land_spec, Z.lor_spec.
    rewrite <-(Z.mod_small flags (2 ^ 10)) by done. rewrite Z.mod_pow2_bits_high by lia.
    unfold PTE_W. rewrite Z.shiftl_1_l, Z.pow2_bits_eqb by lia. rewrite (proj2 (Z.eqb_neq 2 k)) by lia. done. }
  rewrite <-E. apply Z.mod_pos_bound. lia.
Qed.
Lemma cow_flags_has flags :
  has (cow_flags flags) PTE_V = has flags PTE_V ∧ has (cow_flags flags) PTE_U = has flags PTE_U ∧
  has (cow_flags flags) PTE_W = true.
Proof. unfold PTE_V, PTE_U, PTE_W. rewrite !has_bit, !cow_flags_bit by lia. done. Qed.

Lemma to_pa_aligned pte : to_pa pte mod 4096 = 0.
Proof. unfold to_pa. rewrite Z.shiftl_mul_pow2 by lia. change (2 ^ 12) with 4096. lia. Qed.
Lemma pte_flags_range pte : 0 ≤ pte_flags pte < 1024.
Proof. rewrite pte_flags_alt. lia. Qed.

(** ** The bytes of an address space *)

Definition user (pte : Z) : bool := is_v pte && is_u pte.
Definition wr (pte : Z) : bool := is_v pte && is_u pte && has (pte_flags pte) PTE_W.

Definition ubyte (s : Phys) (root a : Z) : option Z :=
  if (0 <=? a) && (a <? MAXVA) && user (pte_at s root a) then
    d ← ph_pages s !! to_pa (pte_at s root a); d !! Z.to_nat (a mod 4096)
  else None.

(** User pages have memory of their own, and free pages are not in use. *)
Record us_ok (root : Z) (own : gmap Z (nat * Z)) (s : Phys) : Prop := {
  uk_wf : pt_wf root own s;
  uk_page va : 0 ≤ va < MAXVA → user (pte_at s root va) = true →
    ∃ d, ph_pages s !! to_pa (pte_at s root va) = Some d ∧ length d = 4096%nat;
  uk_private va va' : 0 ≤ va < MAXVA → 0 ≤ va' < MAXVA → user (pte_at s root va) = true → user (pte_at s root va') = true →
    to_pa (pte_at s root va) = to_pa (pte_at s root va') → va / 4096 = va' / 4096;
  uk_free p : p ∈ ph_free s → ph_pages s !! p = None;
}.

Lemma pte_at_page s root va va' : 0 ≤ va → 0 ≤ va' → va / 4096 = va' / 4096 → pte_at s root va = pte_at s root va'.
Proof.
  intros H1 H2 E. unfold pte_at, path, next_table. by rewrite !(px_page va va' _ H1 H2 E).
Qed.

(** Addresses of the same page. *)
Lemma ubyte_page s root a d : 0 ≤ a < MAXVA → user (pte_at s root a) = true →
  ph_pages s !! to_pa (pte_at s root a) = Some d →
  ∀ x, x / 4096 = a / 4096 → ubyte s root x = d !! Z.to_nat (x mod 4096).
Proof.
  intros Ha Hu Hd x Hx. change MAXVA with 274877906944 in Ha. unfold ubyte. rewrite (pte_at_page s root x a) by lia. rewrite Hu, Hd.
  change MAXVA with 274877906944. rewrite (proj2 (Z.leb_le _ _)), (proj2 (Z.ltb_lt _ _)) by lia. done.
Qed.
Lemma ubyte_none s root a : 0 ≤ a → MAXVA ≤ a ∨ user (pte_at s root a) = false →
  ∀ x, x / 4096 = a / 4096 → ubyte s root x = None.
Proof.
  intros Ha Hu x Hx. unfold ubyte. rewrite (pte_at_page s root x a) by lia. destruct Hu as [Hu| ->].
  - change MAXVA with 274877906944 in *. by rewrite (proj2 (Z.ltb_ge _ _)), andb_false_r by lia.
  - by rewrite andb_false_r.
Qed.

Lemma mapM_app_option {A B} (f : A → option B) l k :
  mapM f (l ++ k) = (l' ← mapM f l; k' ← mapM f k; Some (l' ++ k')).
Proof.
  induction l as [|x l IH]; simpl.
  - by destruct (mapM f k).
  - destruct (f x); simpl; [|done]. rewrite IH. destruct (mapM f l); simpl; [|done]. by destruct (mapM f k).
Qed.

Section space.
Context (root : Z) (own : gmap Z (nat * Z)).

(** The page of a user address. *)
Lemma walkaddr_spec s va : us_ok root own s → 0 ≤ va →
  walkaddr root va s = ((if (va <? MAXVA) && user (pte_at s root va) then Ok (to_pa (pte_at s root va)) else Err BadVirtAddr), s).
Proof.
  intros K Hva. unfold walkaddr. destruct (Z.leb_spec MAXVA va) as [Hge|Hlt].
  { rewrite (proj2 (Z.ltb_ge _ _)) by lia. done. }
  rewrite (proj2 (Z.ltb_lt _ _)) by done. simpl.
  destruct (walk_noalloc root own s (uk_wf _ _ _ K) va ltac:(lia)) as [[Hw Hp]|(p&Hw&_&_&He)].
  - unfold mbind, M_bind. rewrite Hw. unfold pte_at. rewrite Hp. done.
  - unfold mbind, M_bind. rewrite Hw, (get_pte_entry (p, px va 0) _ s He). unfold user.
    destruct (is_v _); [|done]. by destruct (is_u _).
Qed.

Lemma read_page_spec s pa off n d : ph_pages s !! pa = Some d → (off + n ≤ length d)%nat →
  read_page pa off n s = (Ok (take n (drop off d)), s).
Proof.
  intros Hd Hn. unfold read_page, mbind, M_bind, get_page. rewrite Hd. by rewrite (proj2 (Nat.leb_le _ _)).
Qed.

(** [copyin] returns the bytes of the range, or [BadVirtAddr] if one is
    missing. *)
Lemma copyin_loop_spec s : us_ok root own s → ∀ fuel a len, (len ≤ fuel)%nat → 0 ≤ a → a + Z.of_nat len < 2 ^ 64 →
  copyin_loop fuel root a len s
  = ((match mapM (ubyte s root) (seqZ a (Z.of_nat len)) with Some bs => Ok bs | None => Err BadVirtAddr end), s).
Proof.
  intros K. induction fuel as [|fuel IH]; intros a len Hf Ha Hmax; (destruct len as [|len]; [done|]); [lia|].
  cbn [copyin_loop]. rewrite rounddown_alt by lia.
  set (va0 := a - a mod 4096). set (off := Z.to_nat (a - va0)). set (n := Nat.min (4096 - off) (S len)).
  assert (Hoff : Z.of_nat off = a mod 4096) by lia. assert (Hn : (0 < n ≤ S len)%nat) by lia.
  assert (Hsplit : seqZ a (Z.of_nat (S len)) = seqZ a (Z.of_nat n) ++ seqZ (a + Z.of_nat n) (Z.of_nat (S len - n))).
  { rewrite <-seqZ_app by lia. f_equal. lia. }
  assert (Hpage : ∀ x, x ∈ seqZ a (Z.of_nat n) → x / 4096 = va0 / 4096).
  { intros x Hx. apply elem_of_seqZ in Hx. lia. }
  unfold mbind, M_bind. rewrite (walkaddr_spec s va0 K) by lia. rewrite Hsplit, mapM_app_option.
  destruct ((va0 <? MAXVA) && user (pte_at s root va0)) eqn:Eu; cycle 1.
  { assert (Hno : mapM (ubyte s root) (seqZ a (Z.of_nat n)) = None).
    { apply eq_None_not_Some. intros [bs Hbs]. apply mapM_Some in Hbs.
      destruct n as [|n']; [lia|]. rewrite seqZ_cons in Hbs by lia. apply Forall2_cons_inv_l in Hbs as (y&ys&Hy&_&_).
      rewrite (ubyte_none s root va0) in Hy; [done|lia| |lia].
      apply andb_false_iff in Eu as [Eu|Eu]; [left; by apply Z.ltb_ge|by right]. }
    rewrite Hno. done. }
  apply andb_true_iff in Eu as [Elt Eu]. apply Z.ltb_lt in Elt.
  destruct (uk_page _ _ _ K va0) as (d&Hd&Hlen); [lia|done|].
  assert (Hbytes : mapM (ubyte s root) (seqZ a (Z.of_nat n)) = Some (take n (drop off d))).
  { apply mapM_Some, Forall2_same_length_lookup_2.
    - rewrite length_seqZ, length_take, length_drop. lia.
    - intros i x y Hx Hy. apply lookup_seqZ in Hx as [-> Hi]. rewrite lookup_take_lt, lookup_drop in Hy by lia.
      rewrite (ubyte_page s root va0 d) by (done || lia). rewrite <-Hy. f_equal. lia. }
  rewrite Hbytes, (read_page_spec s _ off n d) by (done || lia). simpl.
  unfold PGSIZE. destruct (decide (n = S len)) as [->|Hne].
  { rewrite Nat.sub_diag. by destruct fuel. }
  replace (va0 + 4096) with (a + Z.of_nat n) by lia. rewrite IH by lia.
  destruct (mapM (ubyte s root) (seqZ (a + _) _)); simpl; done.
Qed.

(** *** What does not show *)

Lemma pt_wf_frame s s' : ph_tables s' = ph_tables s → (∀ p, p ∈ ph_free s' → p ∈ ph_free s) → NoDup (ph_free s') →
  pt_wf root own s → pt_wf root own s'.
Proof.
  intros Ht Hf Hn [? Htab Hfr _]. split; [done| |auto|done]. intros p l v Hp. rewrite Ht. by apply (Htab p l v).
Qed.
Lemma path_tables s s' va : ph_tables s' = ph_tables s → path s' root va = path s root va.
Proof. intros Ht. unfold path, next_table, entry. by rewrite Ht. Qed.
Lemma pte_at_tables s s' va : ph_tables s' = ph_tables s → pte_at s' root va = pte_at s root va.
Proof. intros Ht. unfold pte_at, path, next_table, entry. by rewrite Ht. Qed.

(** The address space reads the same, and what was writable has not moved. *)
Record cow_step (s s' : Phys) : Prop := {
  cs_ok : us_ok root own s';
  cs_bytes x : ubyte s' root x = ubyte s root x;
  cs_wr x : 0 ≤ x < MAXVA → wr (pte_at s root x) = true → pte_at s' root x = pte_at s root x;
}.

(** What becomes of physical memory: tables of other page tables and existing
    pages stay; a user page is the one it was, with the same count, or the one
    it was and was alone in using, or a page that did not exist before. *)
Record cow_effect (s s' : Phys) : Prop := {
  ce_tables q : own !! q = None → ph_tables s' !! q = ph_tables s !! q;
  ce_pages q d : ph_pages s !! q = Some d → ph_pages s' !! q = Some d;
  ce_free q : q ∈ ph_free s' → q ∈ ph_free s;
  ce_page x : 0 ≤ x < MAXVA → user (pte_at s' root x) = true →
    (pte_at s' root x = pte_at s root x ∧ pref s' (to_pa (pte_at s root x)) = pref s (to_pa (pte_at s root x))) ∨
    (user (pte_at s root x) = true ∧ to_pa (pte_at s' root x) = to_pa (pte_at s root x) ∧ pref s (to_pa (pte_at s root x)) = 1) ∨
    ph_pages s !! to_pa (pte_at s' root x) = None;
}.

Lemma cow_effect_refl s : cow_effect s s.
Proof. split; try done. intros x Hx Hu. by left. Qed.

Lemma put_pte_tables l v s s' : put_pte l v s = (Ok (), s') → ∀ q, q ≠ l.1 → ph_tables s' !! q = ph_tables s !! q.
Proof.
  unfold put_pte, put_entry. destruct (ph_tables s !! l.1); [|done]. intros [= <-] q Hq. by apply lookup_insert_ne.
Qed.

Lemma cow_step_refl s : us_ok root own s → cow_step s s.
Proof. by split. Qed.

(** The page of [va] now has the entry [v] to a page with the same bytes. *)
Lemma remap_cow_step s s' va v d : us_ok root own s → 0 ≤ va < MAXVA → user (pte_at s root va) = true →
  wr (pte_at s root va) = false → user v = true →
  pt_wf root own s' →
  (∀ x, 0 ≤ x < MAXVA → pte_at s' root x = if decide (x / 4096 = va / 4096) then v else pte_at s root x) →
  ph_pages s !! to_pa (pte_at s root va) = Some d → ph_pages s' !! to_pa v = Some d →
  (∀ q, q ≠ to_pa v → ph_pages s' !! q = ph_pages s !! q) →
  (∀ x, 0 ≤ x < MAXVA → user (pte_at s root x) = true → x / 4096 ≠ va / 4096 → to_pa (pte_at s root x) ≠ to_pa v) →
  (∀ p, p ∈ ph_free s' → p ∈ ph_free s ∧ p ≠ to_pa v) →
  cow_step s s'.
Proof.
  intros K Hva Hu Hw Huv W' Hpte Hd Hd' Hpg Hpriv Hfr.
  assert (Hlen : length d = 4096%nat).
  { destruct (uk_page _ _ _ K va Hva Hu) as (d'&Hd2&?). congruence. }
  split.
  - split; [done| | |].
    + intros x Hx. rewrite Hpte by done. case_decide; [eauto|]. intros Hux. rewrite Hpg by (by apply Hpriv).
      by apply (uk_page _ _ _ K).
    + intros x y Hx Hy. rewrite !Hpte by done. repeat case_decide; try (intros; lia).
      * intros _ Huy E. exfalso. by apply (Hpriv y).
      * intros Hux _ E. exfalso. by apply (Hpriv x).
      * by apply (uk_private _ _ _ K).
    + intros p Hp. destruct (Hfr p Hp) as [Hp1 Hp2]. rewrite Hpg by done. by apply (uk_free _ _ _ K).
  - intros x. unfold ubyte. destruct ((0 <=? x) && (x <? MAXVA)) eqn:Ex; [|done].
    apply andb_true_iff in Ex as [E1%Z.leb_le E2%Z.ltb_lt]. rewrite Hpte by lia. simpl. case_decide as E.
    + rewrite (pte_at_page s root x va) by lia. rewrite Huv, Hu, Hd, Hd'. done.
    + destruct (user (pte_at s root x)) eqn:Hux; [|done]. rewrite Hpg; [done|]. by apply Hpriv.
  - intros x Hx Hwx. rewrite Hpte by done. case_decide as E; [|done].
    rewrite (pte_at_page s root x va) in Hwx by lia. congruence.
Qed.

Lemma walk_or_bad_valid s va : pt_wf root own s → 0 ≤ va < MAXVA → is_v (pte_at s root va) = true →
  ∃ p, walk_or_bad root va s = (Ok (p, px va 0), s) ∧ path s root va = Some p ∧
    get_pte (p, px va 0) s = (Ok (pte_at s root va), s).
Proof.
  intros W Hva Hv. destruct (walk_valid root own s va W Hva Hv) as (p&Hw&Hp&Hg). exists p. split_and!; [|done|done].
  unfold walk_or_bad, mbind, M_bind. by rewrite Hw.
Qed.

(** The entry [resolve_cow] writes. *)
Lemma cow_pte pa pte : pa mod 4096 = 0 → user pte = true →
  user (pte_set pa (cow_flags (pte_flags pte))) = true ∧ wr (pte_set pa (cow_flags (pte_flags pte))) = true ∧
  to_pa (pte_set pa (cow_flags (pte_flags pte))) = pa.
Proof.
  intros Hpa Hu. pose proof (cow_flags_range (pte_flags pte) (pte_flags_range pte)) as Hr.
  destruct (cow_flags_has (pte_flags pte)) as (HV&HU&HW). unfold wr, user in *. apply andb_true_iff in Hu as [H1 H2].
  rewrite is_v_flags in H1. rewrite is_u_flags in H2.
  rewrite is_v_flags, is_u_flags, flags_set, to_pa_set by done. rewrite HV, HU, HW, H1, H2. done.
Qed.

Lemma resolve_cow_spec s va r s' : us_ok root own s → 0 ≤ va < MAXVA → va mod 4096 = 0 →
  user (pte_at s root va) = true → resolve_cow root va s = (r, s') →
  match r with
  | Ok _ => cow_step s s' ∧ wr (pte_at s' root va) = true ∧ cow_effect s s'
  | Err _ => s' = s
  | Panic => True
  end.
Proof.
  intros K Hva Hal Hu. pose proof (uk_wf _ _ _ K) as W. pose proof Hu as Huv. unfold user in Huv. apply andb_true_iff in Huv as [Hv Hus].
  destruct (walk_or_bad_valid s va W Hva Hv) as (p&Hw&Hp&Hg). unfold resolve_cow.
  assert (Hrd : rounddown va = va) by (change MAXVA with 274877906944 in Hva; rewrite rounddown_alt by lia; lia). rewrite Hrd.
  unfold mbind, M_bind. rewrite Hw, Hg. set (pte := pte_at s root va) in *. rewrite Hv, Hus. cbn [negb orb].
  destruct (is_leaf pte); cbn [negb]; [|by intros [= <- <-]].
  destruct (has (pte_flags pte) PTE_COW); cbn [negb orb]; [|by intros [= <- <-]].
  destruct (has (pte_flags pte) PTE_W) eqn:HW; [by intros [= <- <-]|].
  fold (cow_flags (pte_flags pte)). unfold page_ref_get. destruct (pa2idx_ok (to_pa pte)) eqn:Hidx; [|by intros [= <- <-]].
  destruct (uk_page _ _ _ K va Hva Hu) as (d&Hd&Hlen). fold pte in Hd.
  assert (Hwr : wr pte = false) by (unfold wr; rewrite HW; apply andb_false_r).
  destruct (Z.eqb_spec (pref s (to_pa pte)) 1) as [Hone|Hmany].
  - rewrite Hw. destruct (cow_pte (to_pa pte) pte (to_pa_aligned pte) Hu) as (H1&H2&H3).
    destruct (put_leaf root own s W va p (pte_set (to_pa pte) (cow_flags (pte_flags pte))) Hva Hp) as (s1&Hput&W1&Hpte&Hpg&Hrf&Hfr&_).
    pose proof (put_pte_tables _ _ _ _ Hput) as Htab. pose proof (path_own root own s W va p Hva Hp) as Hop.
    rewrite Hput. intros [= <- <-]. split_and!.
    + apply (remap_cow_step s s1 va (pte_set (to_pa pte) (cow_flags (pte_flags pte))) d); try done; rewrite ?H3, ?Hpg, ?Hfr; try done.
      * intros x Hx Hux Hne E. apply Hne. by apply (uk_private _ _ _ K).
      * intros q Hq. split; [done|]. intros ->. by rewrite (uk_free _ _ _ K _ Hq) in Hd.
    + rewrite Hpte, decide_True by done. done.
    + split; rewrite ?Hpg, ?Hfr; try done.
      * intros q Hq. apply Htab. cbn. intros ->. congruence.
      * intros x Hx. rewrite Hpte by done. case_decide as E.
        -- intros _. right. left. rewrite (pte_at_page s root x va) by lia. fold pte. by rewrite H3.
        -- intros _. left. unfold pref. by rewrite Hrf.
  - unfold new_page. destruct (ph_free s) as [|np f] eqn:Hf; [by intros [= <- <-]|].
    assert (Hnp : ph_pages s !! np = None) by (apply (uk_free _ _ _ K); rewrite Hf; by left).
    assert (Hne : np ≠ to_pa pte) by (intros ->; congruence).
    destruct (pw_free _ _ _ W np) as [Hown Hnpal]; [rewrite Hf; by left|].
    unfold get_page, put_page. cbn [ph_pages set_free set_pages]. rewrite lookup_insert_ne, Hd by done.
    cbn [ph_pages set_free set_pages].
    set (s2 := set_pages _ _). unfold page_ref_init.
    destruct (pa2idx_ok np && (pref s2 np =? 0)); [|by intros [= <- <-]].
    set (s3 := set_refs _ s2).
    assert (Hnd : NoDup f) by (pose proof (pw_nodup _ _ _ W) as Hn; rewrite Hf in Hn; by apply NoDup_cons in Hn as [_ ?]).
    assert (Hnpf : np ∉ f) by (pose proof (pw_nodup _ _ _ W) as Hn; rewrite Hf in Hn; by apply NoDup_cons in Hn as [? _]).
    assert (W3 : pt_wf root own s3).
    { apply (pt_wf_frame s); [done| |done|done]. intros q Hq. rewrite Hf. by right. }
    assert (Hp3 : path s3 root va = Some p) by (by rewrite (path_tables s)).
    assert (Hpte3 : ∀ x, pte_at s3 root x = pte_at s root x) by (intros x; by apply pte_at_tables).
    destruct (walk_or_bad_valid s3 va W3 Hva) as (p'&Hw3&Hp3'&_); [by rewrite Hpte3|].
    assert (p' = p) as -> by congruence. rewrite Hw3.
    destruct (cow_pte np pte Hnpal Hu) as (H1&H2&H3).
    destruct (put_leaf root own s3 W3 va p (pte_set np (cow_flags (pte_flags pte))) Hva Hp3) as (s4&Hput&W4&Hpte&Hpg&Hrf&Hfr&_).
    pose proof (put_pte_tables _ _ _ _ Hput) as Htab. pose proof (path_own root own s W va p Hva Hp) as Hop.
    rewrite Hput. unfold page_ref_dec.
    assert (Hpr : pref s4 (to_pa pte) = pref s (to_pa pte)).
    { unfold pref. rewrite Hrf. simpl. by rewrite lookup_insert_ne. }
    rewrite Hpr. destruct (pa2idx_ok (to_pa pte) && negb (pref s (to_pa pte) =? 0)) eqn:Hdec; [|by intros [= <- <-]].
    rewrite (proj2 (Z.eqb_neq (pref s (to_pa pte) - 1) 0)) by lia. intros [= <- <-]. set (s5 := set_refs _ s4).
    assert (Hpte5 : ∀ x, 0 ≤ x < MAXVA → pte_at s5 root x
      = if decide (x / 4096 = va / 4096) then pte_set np (cow_flags (pte_flags pte)) else pte_at s root x).
    { intros x Hx. rewrite (pte_at_tables s4 s5) by done. rewrite Hpte by done. case_decide; [done|]. apply Hpte3. }
    split_and!.
    + apply (remap_cow_step s s5 va (pte_set np (cow_flags (pte_flags pte))) d); try done; rewrite ?H3.
      * apply (pt_wf_frame s4); [done|done|simpl; by rewrite Hfr|done].
      * simpl. rewrite Hpg. simpl. by rewrite lookup_insert_eq.
      * intros q Hq. simpl. rewrite Hpg. simpl. by rewrite !lookup_insert_ne.
      * intros x Hx Hux _ E. destruct (uk_page _ _ _ K x Hx Hux) as (d'&Hd'&_). rewrite E in Hd'. congruence.
      * intros q Hq. simpl in Hq. rewrite Hfr in Hq. simpl in Hq. split; [rewrite Hf; by right|]. by intros ->.
    + rewrite Hpte5, decide_True by done. done.
    + split.
      * intros q Hq. simpl. rewrite Htab; [done|]. cbn. intros ->. congruence.
      * intros q dq Hq. simpl. rewrite Hpg. simpl. assert (q ≠ np) by (intros ->; congruence). by rewrite !lookup_insert_ne.
      * intros q Hq. simpl in Hq. rewrite Hfr in Hq. simpl in Hq. rewrite Hf. by right.
      * intros x Hx. rewrite Hpte5 by done. case_decide as E; [intros _; right; right; by rewrite H3|]. intros Hux. left. split; [done|].
        unfold pref. simpl. rewrite lookup_insert_ne; [|intros Eq; apply E; symmetry; by apply (uk_private _ _ _ K)].
        rewrite Hrf. simpl. rewrite lookup_insert_ne; [done|]. intros Eq. destruct (uk_page _ _ _ K x Hx Hux) as (d'&Hd'&_). rewrite <-Eq in Hd'. congruence.
Qed.

(** *** Writing *)

Lemma wr_user pte : wr pte = true → user pte = true.
Proof. unfold wr, user. by intros [? _]%andb_true_iff. Qed.
Lemma wr_parts pte : wr pte = true → is_v pte = true ∧ is_u pte = true ∧ has (pte_flags pte) PTE_W = true ∧ is_leaf pte = true.
Proof.
  unfold wr. intros [[H1 H2]%andb_true_iff H3]%andb_true_iff. split_and!; try done.
  rewrite is_leaf_flags, !has_lor, H3. by rewrite orb_true_r.
Qed.

Lemma copyout_page_wr s va : us_ok root own s → 0 ≤ va < MAXVA → wr (pte_at s root va) = true →
  copyout_page root va s = (Ok (to_pa (pte_at s root va)), s).
Proof.
  intros K Hva Hw. destruct (wr_parts _ Hw) as (Hv&Hu&HW&Hl).
  destruct (walk_or_bad_valid s va (uk_wf _ _ _ K) Hva Hv) as (p&Hwk&_&Hg).
  unfold copyout_page, mbind, M_bind. rewrite Hwk, Hg, Hv, Hu, Hl, HW. cbn [negb orb andb]. unfold mret at 1, M_ret at 1.
  rewrite Hwk, Hg, HW. cbn [negb]. rewrite walkaddr_spec by (done || lia).
  by rewrite (proj2 (Z.ltb_lt _ _)), (wr_user _ Hw) by lia.
Qed.

Lemma copyout_page_spec s va r s' : us_ok root own s → 0 ≤ va → va mod 4096 = 0 → copyout_page root va s = (r, s') →
  match r with
  | Ok pa => va < MAXVA ∧ cow_step s s' ∧ wr (pte_at s' root va) = true ∧ pa = to_pa (pte_at s' root va) ∧ cow_effect s s'
  | Err _ => s' = s
  | Panic => True
  end.
Proof.
  intros K Hva Hal. destruct (Z.le_gt_cases MAXVA va) as [Hge|Hlt].
  { unfold copyout_page, walk_or_bad, walk, mbind, M_bind. rewrite (proj2 (Z.leb_le _ _)) by done. by intros [= <- <-]. }
  destruct (wr (pte_at s root va)) eqn:Hwr.
  { rewrite copyout_page_wr by (done || lia). intros [= <- <-]. split_and!; [done|by apply cow_step_refl|done|done|apply cow_effect_refl]. }
  unfold copyout_page. destruct (is_v (pte_at s root va)) eqn:Hv; cycle 1.
  { unfold walk_or_bad, mbind, M_bind. destruct (walk_noalloc root own s (uk_wf _ _ _ K) va ltac:(lia)) as [[-> _]|(p&->&_&_&He)].
    - by intros [= <- <-].
    - cbn. rewrite (get_pte_entry (p, px va 0) _ s He), Hv. by intros [= <- <-]. }
  destruct (walk_or_bad_valid s va (uk_wf _ _ _ K) ltac:(lia) Hv) as (p&Hwk&_&Hg).
  unfold mbind at 1, M_bind at 1. rewrite Hwk. unfold mbind at 1, M_bind at 1. rewrite Hg, Hv. cbn [negb orb].
  destruct (is_u (pte_at s root va)) eqn:Hu; cbn [negb orb]; [|by intros [= <- <-]].
  destruct (is_leaf (pte_at s root va)) eqn:Hl; cbn [negb orb]; [|by intros [= <- <-]].
  assert (HW : has (pte_flags (pte_at s root va)) PTE_W = false) by (unfold wr in Hwr; rewrite Hv, Hu in Hwr; done).
  rewrite HW. cbn [negb andb]. destruct (has (pte_flags (pte_at s root va)) PTE_COW); cbn [negb]; [|by intros [= <- <-]].
  unfold mbind at 1, M_bind at 1. destruct (resolve_cow root va s) as [rc s1] eqn:Hrc.
  apply resolve_cow_spec in Hrc; [|done|lia|done|unfold user; by rewrite Hv, Hu].
  destruct rc as [[]|e|]; [|intros [= <- <-]; done|by intros [= <- <-]].
  destruct Hrc as (Hcs & Hwr1 & Heff). destruct (wr_parts _ Hwr1) as (Hv1&_&HW1&_).
  destruct (walk_or_bad_valid s1 va (uk_wf _ _ _ (cs_ok _ _ Hcs)) ltac:(lia) Hv1) as (p1&Hwk1&_&Hg1).
  unfold mbind, M_bind. rewrite Hwk1, Hg1, HW1. cbn [negb].
  rewrite walkaddr_spec by (apply Hcs || lia). rewrite (proj2 (Z.ltb_lt _ _)), (wr_user _ Hwr1) by lia.
  intros [= <- <-]. done.
Qed.

Lemma lookup_splice d off bs i : (off + length bs ≤ length d)%nat →
  splice d off bs !! i = if decide (off ≤ i < off + length bs)%nat then bs !! (i - off)%nat else d !! i.
Proof.
  intros Hl. unfold splice. destruct (decide (off ≤ i < off + length bs)%nat) as [Hi|Hi].
  - rewrite lookup_app_r, length_take_le by (rewrite ?length_take; lia). by rewrite lookup_app_l by lia.
  - destruct (decide (i < off)%nat).
    + rewrite lookup_app_l by (rewrite length_take; lia). by apply lookup_take_lt.
    + rewrite lookup_app_r, length_take_le by (rewrite ?length_take; lia). rewrite lookup_app_r by lia.
      rewrite lookup_drop. f_equal. lia.
Qed.
Lemma length_splice d off bs : (off + length bs ≤ length d)%nat → length (splice d off bs) = length d.
Proof. intros. unfold splice. rewrite !length_app, length_take, length_drop. lia. Qed.

(** Writing inside a writable page. *)
Lemma write_page_step s va off bs : us_ok root own s → 0 ≤ va < MAXVA → va mod 4096 = 0 → wr (pte_at s root va) = true →
  (off + length bs ≤ 4096)%nat →
  ∃ s', write_page (to_pa (pte_at s root va)) off bs s = (Ok (), s') ∧ us_ok root own s' ∧
    (∀ x, pte_at s' root x = pte_at s root x) ∧
    (∀ x, ubyte s' root x = if decide (va + Z.of_nat off ≤ x < va + Z.of_nat off + Z.of_nat (length bs))
       then bs !! Z.to_nat (x - (va + Z.of_nat off)) else ubyte s root x).
Proof.
  intros K Hva Hal Hw Hlen. pose proof (wr_user _ Hw) as Hu. destruct (uk_page _ _ _ K va Hva Hu) as (d&Hd&Hl).
  unfold write_page, mbind, M_bind, get_page. rewrite Hd, (proj2 (Nat.leb_le _ _)) by lia.
  eexists. split; [reflexivity|]. set (pa := to_pa (pte_at s root va)) in *. set (s' := set_pages _ s).
  assert (Hpte : ∀ x, pte_at s' root x = pte_at s root x) by (intros; by apply pte_at_tables).
  split_and!; [|done|].
  - split.
    + apply (pt_wf_frame s); [done|done|apply (uk_wf _ _ _ K)|apply K].
    + intros x Hx. rewrite Hpte. intros Hux. simpl. destruct (decide (to_pa (pte_at s root x) = pa)) as [->|Hne].
      * rewrite lookup_insert_eq. eexists. split; [done|]. rewrite length_splice; lia.
      * rewrite lookup_insert_ne by done. by apply (uk_page _ _ _ K).
    + intros x y Hx Hy. rewrite !Hpte. by apply (uk_private _ _ _ K).
    + intros q Hq. simpl. rewrite lookup_insert_ne; [by apply (uk_free _ _ _ K)|]. intros <-.
      pose proof (uk_free _ _ _ K _ Hq). congruence.
  - intros x. unfold ubyte. rewrite Hpte. destruct ((0 <=? x) && (x <? MAXVA)) eqn:Ex; cycle 1.
    { simpl. case_decide; [|done]. exfalso. apply andb_false_iff in Ex. change MAXVA with 274877906944 in *.
      destruct Ex as [E%Z.leb_gt|E%Z.ltb_ge]; lia. }
    apply andb_true_iff in Ex as [E1%Z.leb_le E2%Z.ltb_lt]. simpl.
    destruct (decide (x / 4096 = va / 4096)) as [E|Hne].
    + rewrite (pte_at_page s root x va) by lia. rewrite Hu. fold pa. rewrite lookup_insert_eq, Hd. simpl.
      rewrite lookup_splice by lia. repeat case_decide; try lia; f_equal; lia.
    + rewrite decide_False by lia. destruct (user (pte_at s root x)) eqn:Hux; [|done]. rewrite lookup_insert_ne; [done|].
      intros Heq. apply Hne. symmetry. by apply (uk_private _ _ _ K).
Qed.

Lemma copyout_loop_S fuel a bs s : (0 < length bs)%nat → 0 ≤ a < 2 ^ 64 →
  let va0 := a - a mod 4096 in let off := Z.to_nat (a - va0) in let n := Nat.min (4096 - off) (length bs) in
  copyout_loop (S fuel) root a bs s =
  (pa0 ← copyout_page root va0; _ ← write_page pa0 off (take n bs); copyout_loop fuel root (va0 + PGSIZE) (drop n bs)) s.
Proof. intros Hl Ha. destruct bs; [simpl in Hl; lia|]. cbn [copyout_loop]. by rewrite rounddown_alt by lia. Qed.

(** [copyout] writes the bytes of the range and nothing else. *)
Lemma copyout_loop_spec fuel : ∀ s a bs r s', us_ok root own s → 0 ≤ a → a + Z.of_nat (length bs) < 2 ^ 64 → (length bs ≤ fuel)%nat →
  copyout_loop fuel root a bs s = (r, s') → r ≠ Panic →
  us_ok root own s' ∧ (∀ x, 0 ≤ x < MAXVA → wr (pte_at s root x) = true → pte_at s' root x = pte_at s root x) ∧
  (∀ x, ¬ (a ≤ x < a + Z.of_nat (length bs)) → ubyte s' root x = ubyte s root x) ∧
  (r = Ok () → ∀ x, a ≤ x < a + Z.of_nat (length bs) → ubyte s' root x = bs !! Z.to_nat (x - a)).
Proof.
  induction fuel as [|fuel IH]; intros s a bs r s' K Ha Hmax Hf; (destruct bs as [|b bs'];
    [cbn [copyout_loop]; intros [= <- <-] _; simpl; split_and!; try done; intros; lia|]); [simpl in Hf; lia|].
  remember (b :: bs') as bs eqn:Ebs. assert (Hpos : (0 < length bs)%nat) by (subst; simpl; lia).
  rewrite copyout_loop_S by lia. cbv zeta. set (va0 := a - a mod 4096). set (off := Z.to_nat (a - va0)). set (n := Nat.min (4096 - off) (length bs)).
  unfold mbind at 1, M_bind at 1. destruct (copyout_page root va0 s) as [rp s1] eqn:Hcp.
  apply copyout_page_spec in Hcp; [|done|lia|lia].
  destruct rp as [pa|e|]; [|intros [= <- <-] _; subst s1; split_and!; try done|by intros [= <- <-]].
  destruct Hcp as (Hlt&Hcs&Hw1&->&_). assert (Hlt_n : length (take n bs) = n) by (rewrite length_take; lia).
  destruct (write_page_step s1 va0 off (take n bs) (cs_ok _ _ Hcs) ltac:(lia) ltac:(lia) Hw1) as (s2&Hwp&K2&Hpte2&Hby2); [lia|].
  unfold mbind at 1, M_bind at 1. rewrite Hwp. rewrite Hlt_n in Hby2.
  replace (va0 + Z.of_nat off) with a in Hby2 by lia.
  assert (Hrest : ∀ r s', copyout_loop fuel root (va0 + PGSIZE) (drop n bs) s2 = (r, s') → r ≠ Panic →
    us_ok root own s' ∧ (∀ x, 0 ≤ x < MAXVA → wr (pte_at s2 root x) = true → pte_at s' root x = pte_at s2 root x) ∧
    (∀ x, ¬ (a + Z.of_nat n ≤ x < a + Z.of_nat (length bs)) → ubyte s' root x = ubyte s2 root x) ∧
    (r = Ok () → ∀ x, a + Z.of_nat n ≤ x < a + Z.of_nat (length bs) → ubyte s' root x = bs !! Z.to_nat (x - a))).
  { clear r s'. intros r s' Hrun Hr. unfold PGSIZE in Hrun. destruct (decide (n = length bs)) as [E|Hne].
    - rewrite drop_ge in Hrun by lia. assert (Hrun' : (Ok (), s2) = (r, s')) by (by destruct fuel). injection Hrun' as <- <-.
      split_and!; try done. intros; lia.
    - replace (va0 + 4096) with (a + Z.of_nat n) in Hrun by lia.
      destruct (IH s2 (a + Z.of_nat n) (drop n bs) r s' K2) as (H1&H2&H3&H4); try done; rewrite ?length_drop; try lia.
      split_and!; [done|done| |].
      + intros x Hx. apply H3. rewrite length_drop. lia.
      + intros Hok x Hx. rewrite (H4 Hok) by (rewrite length_drop; lia). rewrite lookup_drop. f_equal. lia. }
  intros Hrun Hr. destruct (Hrest r s' Hrun Hr) as (H1&H2&H3&H4). split_and!; [done| | |].
  - intros x Hx Hwx. pose proof (cs_wr _ _ Hcs x Hx Hwx) as E1. rewrite H2 by (done || by rewrite Hpte2, E1). by rewrite Hpte2.
  - intros x Hx. rewrite H3, Hby2, decide_False by lia. apply Hcs.
  - intros Hok x Hx. destruct (decide (x < a + Z.of_nat n)).
    + rewrite H3, Hby2, decide_True by lia. apply lookup_take_lt. lia.
    + apply H4; [done|lia].
Qed.

(** *** Other address spaces *)

(** Another page table, whose pages this one shares only copy-on-write, with
    their counts kept. *)
Record apart (root2 : Z) (own2 : gmap Z (nat * Z)) (s : Phys) : Prop := {
  ap_ok : us_ok root2 own2 s;
  ap_own q : is_Some (own2 !! q) → own !! q = None;
  ap_shared x y : 0 ≤ x < MAXVA → 0 ≤ y < MAXVA → user (pte_at s root x) = true → user (pte_at s root2 y) = true →
    to_pa (pte_at s root x) = to_pa (pte_at s root2 y) →
    wr (pte_at s root x) = false ∧ 2 ≤ pref s (to_pa (pte_at s root x));
}.

(** Its entries, and so its bytes, are where they were. *)
Lemma apart_pte root2 own2 s s' y : apart root2 own2 s → (∀ q, own !! q = None → ph_tables s' !! q = ph_tables s !! q) →
  0 ≤ y < MAXVA → pte_at s' root2 y = pte_at s root2 y.
Proof.
  intros A Ht Hy. apply (pte_at_own root2 own2 s (uk_wf _ _ _ (ap_ok _ _ _ A))); [|done]. intros q Hq. by apply Ht, (ap_own _ _ _ A).
Qed.

Lemma apart_wf root2 own2 s s' : apart root2 own2 s → (∀ q, own !! q = None → ph_tables s' !! q = ph_tables s !! q) →
  (∀ q, q ∈ ph_free s' → q ∈ ph_free s) → NoDup (ph_free s') → pt_wf root2 own2 s'.
Proof.
  intros A Ht Hf Hn. destruct (uk_wf _ _ _ (ap_ok _ _ _ A)) as [W1 W2 W3 W4]. split; [done| |by auto|done].
  intros q l v Hq. rewrite Ht by (apply (ap_own _ _ _ A); eauto). by apply W2.
Qed.

(** A state in which its pages exist as before is one of it too. *)
Lemma apart_frame root2 own2 s s' : apart root2 own2 s → (∀ q, own !! q = None → ph_tables s' !! q = ph_tables s !! q) →
  (∀ q, q ∈ ph_free s' → q ∈ ph_free s) → NoDup (ph_free s') → (∀ q, q ∈ ph_free s' → ph_pages s' !! q = None) →
  (∀ y d, 0 ≤ y < MAXVA → user (pte_at s root2 y) = true → ph_pages s !! to_pa (pte_at s root2 y) = Some d →
     ph_pages s' !! to_pa (pte_at s root2 y) = Some d) →
  us_ok root2 own2 s' ∧ ∀ y, ubyte s' root2 y = ubyte s root2 y.
Proof.
  intros A Ht Hf Hn Hfr Hp. pose proof (ap_ok _ _ _ A) as K. pose proof (λ y, apart_pte root2 own2 s s' y A Ht) as Hpte.
  split; [split|].
  - by eapply apart_wf.
  - intros y Hy. rewrite Hpte by done. intros Hu. destruct (uk_page _ _ _ K y Hy Hu) as (d & Hd & ?). eauto.
  - intros y y' Hy Hy'. rewrite !Hpte by done. by apply (uk_private _ _ _ K).
  - done.
  - intros y. unfold ubyte. destruct ((0 <=? y) && (y <? MAXVA)) eqn:Ey; [|done].
    apply andb_true_iff in Ey as [E1%Z.leb_le E2%Z.ltb_lt]. rewrite Hpte by lia. cbn [andb].
    destruct (user (pte_at s root2 y)) eqn:Hu; [|done]. destruct (uk_page _ _ _ K y ltac:(lia) Hu) as (d & Hd & _).
    rewrite Hd. by rewrite (Hp y d ltac:(lia) Hu Hd).
Qed.

Lemma cow_apart root2 own2 s s' : us_ok root own s' → cow_effect s s' → apart root2 own2 s →
  apart root2 own2 s' ∧ ∀ y, ubyte s' root2 y = ubyte s root2 y.
Proof.
  intros K' [Ht Hp Hf Hx] A. pose proof (λ y, apart_pte root2 own2 s s' y A Ht) as Hpte.
  destruct (apart_frame root2 own2 s s' A) as [K2 Hb]; [done|done|apply K'|apply K'|by eauto|]. split; [|done].
  split; [done|apply A|]. intros x y Hxr Hyr Hux. rewrite Hpte by done. intros Huy E.
  destruct (Hx x Hxr Hux) as [[E1 E2]|[(Hu & E1 & E2)|Hno]].
  - rewrite E1 in *. rewrite E2. by apply (ap_shared _ _ _ A x y).
  - exfalso. rewrite E1 in E. destruct (ap_shared _ _ _ A x y Hxr Hyr Hu Huy E). lia.
  - exfalso. rewrite E in Hno. destruct (uk_page _ _ _ (ap_ok _ _ _ A) y Hyr Huy) as (d & Hd & _). congruence.
Qed.

Lemma write_apart root2 own2 s s' va off bs : us_ok root own s → 0 ≤ va < MAXVA → wr (pte_at s root va) = true →
  write_page (to_pa (pte_at s root va)) off bs s = (Ok (), s') → apart root2 own2 s →
  apart root2 own2 s' ∧ ∀ y, ubyte s' root2 y = ubyte s root2 y.
Proof.
  intros K Hva Hw Hrun A. destruct (uk_page _ _ _ K va Hva (wr_user _ Hw)) as (d & Hd & Hl).
  unfold write_page, mbind, M_bind, get_page in Hrun. rewrite Hd in Hrun. destruct (_ <=? _)%nat; [|done].
  injection Hrun as <-. set (s' := set_pages _ s).
  assert (Hpte : ∀ r x, pte_at s' r x = pte_at s r x) by (intros; done).
  destruct (apart_frame root2 own2 s s' A) as [K2 Hb]; try done.
  - apply K.
  - intros q Hq. pose proof (uk_free _ _ _ K q Hq) as Hn. simpl. rewrite lookup_insert_ne; [done|]. intros <-. congruence.
  - intros y dy Hy Hu Hdy. simpl. rewrite lookup_insert_ne; [done|]. intros E.
    destruct (ap_shared _ _ _ A va y Hva Hy (wr_user _ Hw) Hu E). congruence.
  - split; [|done]. split; [done|apply A|]. intros x y. rewrite !Hpte. apply (ap_shared _ _ _ A).
Qed.

(** Writing to this address space does not show in the other. *)
Lemma copyout_apart root2 own2 fuel : ∀ s a bs r s', us_ok root own s → 0 ≤ a → a + Z.of_nat (length bs) < 2 ^ 64 →
  (length bs ≤ fuel)%nat → apart root2 own2 s → copyout_loop fuel root a bs s = (r, s') → r ≠ Panic →
  apart root2 own2 s' ∧ ∀ y, ubyte s' root2 y = ubyte s root2 y.
Proof.
  induction fuel as [|fuel IH]; intros s a bs r s' K Ha Hmax Hf A; (destruct bs as [|b bs'];
    [cbn [copyout_loop]; by intros [= <- <-] _|]); [simpl in Hf; lia|].
  remember (b :: bs') as bs eqn:Ebs. assert (Hpos : (0 < length bs)%nat) by (subst; simpl; lia).
  rewrite copyout_loop_S by lia. cbv zeta. set (va0 := a - a mod 4096). set (off := Z.to_nat (a - va0)). set (n := Nat.min (4096 - off) (length bs)).
  unfold mbind at 1, M_bind at 1. destruct (copyout_page root va0 s) as [rp s1] eqn:Hcp.
  apply copyout_page_spec in Hcp; [|done|lia|lia].
  destruct rp as [pa|e|]; [|intros [= <- <-] _; by subst s1|by intros [= <- <-]].
  destruct Hcp as (Hlt&Hcs&Hw1&->&Heff). assert (Hlt_n : length (take n bs) = n) by (rewrite length_take; lia).
  destruct (cow_apart root2 own2 s s1 (cs_ok _ _ Hcs) Heff A) as [A1 B1].
  destruct (write_page_step s1 va0 off (take n bs) (cs_ok _ _ Hcs) ltac:(lia) ltac:(lia) Hw1) as (s2&Hwp&K2&_); [lia|].
  destruct (write_apart root2 own2 s1 s2 va0 off (take n bs) (cs_ok _ _ Hcs) ltac:(lia) Hw1 Hwp A1) as [A2 B2].
  unfold mbind at 1, M_bind at 1. rewrite Hwp. intros Hrun Hr. unfold PGSIZE in Hrun.
  assert (apart root2 own2 s' ∧ ∀ y, ubyte s' root2 y = ubyte s2 root2 y) as [A3 B3].
  { destruct (decide (n = length bs)) as [E|Hne].
    - rewrite drop_ge in Hrun by lia. assert (Hrun' : (Ok (), s2) = (r, s')) by (by destruct fuel). by injection Hrun' as <- <-.
    - replace (va0 + 4096) with (a + Z.of_nat n) in Hrun by lia.
      apply (IH s2 (a + Z.of_nat n) (drop n bs) r s'); try done; rewrite ?length_drop; lia. }
  split; [done|]. intros y. by rewrite B3, B2, B1.
Qed.

(** Writing to writable memory succeeds. *)
Lemma copyout_loop_ok fuel : ∀ s a bs, us_ok root own s → 0 ≤ a → a + Z.of_nat (length bs) ≤ MAXVA → (length bs ≤ fuel)%nat →
  (∀ x, a ≤ x < a + Z.of_nat (length bs) → wr (pte_at s root x) = true) →
  ∃ s', copyout_loop fuel root a bs s = (Ok (), s').
Proof.
  induction fuel as [|fuel IH]; intros s a bs K Ha Hmax Hf Hw; (destruct bs as [|b bs']; [by eexists|]); [simpl in Hf; lia|].
  remember (b :: bs') as bs eqn:Ebs. assert (Hpos : (0 < length bs)%nat) by (subst; simpl; lia).
  pose proof Hmax as Hm. change MAXVA with 274877906944 in Hm.
  rewrite copyout_loop_S by lia. cbv zeta. set (va0 := a - a mod 4096). set (off := Z.to_nat (a - va0)). set (n := Nat.min (4096 - off) (length bs)).
  assert (Hw0 : wr (pte_at s root va0) = true) by (rewrite (pte_at_page s root va0 a) by lia; apply Hw; lia).
  unfold mbind at 1, M_bind at 1. rewrite (copyout_page_wr s va0 K ltac:(change MAXVA with 274877906944; lia) Hw0).
  assert (Hlt_n : length (take n bs) = n) by (rewrite length_take; lia).
  destruct (write_page_step s va0 off (take n bs) K ltac:(change MAXVA with 274877906944; lia) ltac:(lia) Hw0) as (s2&Hwp&K2&Hpte2&_); [lia|].
  unfold mbind at 1, M_bind at 1. rewrite Hwp. unfold PGSIZE. destruct (decide (n = length bs)) as [E|Hne].
  - rewrite drop_ge by lia. exists s2. by destruct fuel.
  - replace (va0 + 4096) with (a + Z.of_nat n) by lia. apply IH; rewrite ?length_drop; try done; try lia.
    intros x Hx. rewrite Hpte2. apply Hw. lia.
Qed.
End space.

(** ** The address space as an instance of the interface *)

Record USpace := mkUSpace { us_phys : Phys; us_rt : Z; us_wf : ∃ own, us_ok us_rt own us_phys }.

(** The addresses are [usize]. *)
Definition in_usize (a : Z) (n : nat) : Prop := 0 ≤ a ∧ a + Z.of_nat n < 2 ^ 64.
Global Instance in_usize_dec a n : Decision (in_usize a n).
Proof. unfold in_usize. apply _. Defined.

Definition run_copyout (m : USpace) (a : Z) (bs : list Z) : Result () * Phys := uvm_copyout (us_rt m) a bs (us_phys m).

Lemma run_copyout_ok m a bs : in_usize a (length bs) ∧ (run_copyout m a bs).1 ≠ Panic →
  ∃ own, us_ok (us_rt m) own (run_copyout m a bs).2.
Proof.
  intros [[Ha Hmax] Hp]. destruct (us_wf m) as [own K]. exists own. unfold run_copyout, uvm_copyout in *.
  destruct (copyout_loop (length bs) (us_rt m) a bs (us_phys m)) as [r s'] eqn:E.
  by destruct (copyout_loop_spec _ _ _ _ _ _ _ _ K Ha Hmax ltac:(done) E Hp).
Qed.

Definition us_copyin (m : USpace) (a : Z) (n : nat) : Result (list Z) :=
  if decide (in_usize a n) then (uvm_copyin (us_rt m) a n (us_phys m)).1 else Err BadVirtAddr.
(** The state of a machine that panicked does not matter. *)
Definition us_copyout (m : USpace) (a : Z) (bs : list Z) : Result () * USpace :=
  match decide (in_usize a (length bs) ∧ (run_copyout m a bs).1 ≠ Panic) with
  | left H => ((run_copyout m a bs).1, mkUSpace (run_copyout m a bs).2 (us_rt m) (run_copyout_ok m a bs H))
  | right _ => (Panic, m)
  end.
Definition us_writable (m : USpace) (a : Z) (n : nat) : Prop :=
  0 ≤ a ∧ a + Z.of_nat n ≤ MAXVA ∧ ∀ x, a ≤ x < a + Z.of_nat n → wr (pte_at (us_phys m) (us_rt m) x) = true.

Global Instance us_user_mem : UserMem USpace := { copyin := us_copyin; copyout := us_copyout; writable := us_writable }.

Lemma us_copyin_Ok m a n bs : us_copyin m a n = Ok bs ↔
  in_usize a n ∧ mapM (ubyte (us_phys m) (us_rt m)) (seqZ a (Z.of_nat n)) = Some bs.
Proof.
  destruct (us_wf m) as [own K]. unfold us_copyin, uvm_copyin. case_decide as Hr; [|naive_solver].
  destruct Hr as [Ha Hmax]. rewrite (copyin_loop_spec (us_rt m) own (us_phys m) K) by (done || lia). simpl.
  destruct (mapM _ _) as [l|]; [|naive_solver]. split; [intros [= ->]; done|intros [_ [= ->]]; done].
Qed.

Lemma us_copyout_Ok m a bs m' : us_copyout m a bs = (Ok (), m') →
  in_usize a (length bs) ∧ us_rt m' = us_rt m ∧
  (∀ x, ubyte (us_phys m') (us_rt m') x = if decide (a ≤ x < a + Z.of_nat (length bs)) then bs !! Z.to_nat (x - a)
     else ubyte (us_phys m) (us_rt m) x) ∧
  (∀ x, 0 ≤ x < MAXVA → wr (pte_at (us_phys m) (us_rt m) x) = true → wr (pte_at (us_phys m') (us_rt m') x) = true).
Proof.
  unfold us_copyout. case_decide as H; [|done]. intros E. injection E as E1 <-. simpl. destruct (us_wf m) as [own K].
  destruct H as [[Ha Hmax] Hp]. unfold run_copyout, uvm_copyout in *.
  destruct (copyout_loop (length bs) (us_rt m) a bs (us_phys m)) as [r s'] eqn:E2. simpl in *. subst r.
  destruct (copyout_loop_spec _ _ _ _ _ _ _ _ K Ha Hmax ltac:(done) E2 Hp) as (_&Hw&Hout&Hin).
  split_and!; [done|done| |].
  - intros x. case_decide as Hx; [by apply Hin|by apply Hout].
  - intros x Hx Hwx. by rewrite Hw.
Qed.

Lemma mapM_lookup {A B} (f : A → option B) l k :
  mapM f l = Some k ↔ length l = length k ∧ ∀ i x, l !! i = Some x → f x = k !! i.
Proof.
  rewrite mapM_Some, Forall2_same_length_lookup. split.
  - intros [Hl Hk]. split; [done|]. intros i x Hx. destruct (lookup_lt_is_Some_2 k i) as [y Hy].
    { rewrite <-Hl. by eapply lookup_lt_Some. }
    rewrite Hy. eauto.
  - intros [Hl Hk]. split; [done|]. intros i x y Hx Hy. by rewrite (Hk i x Hx).
Qed.

(** The address space keeps the promises of the interface. *)
Global Instance us_user_mem_laws : UserMemLaws USpace.
Proof.
  split; cbn [copyin copyout writable us_user_mem].
  - intros m a n bs [_ H]%us_copyin_Ok. apply mapM_lookup in H as [H _]. rewrite length_seqZ in H. lia.
  - intros m a n1 n2 bs1 bs2 [[Ha H1] E1]%us_copyin_Ok [[_ H2] E2]%us_copyin_Ok. apply us_copyin_Ok.
    split; [split; lia|]. rewrite Nat2Z.inj_add, seqZ_app, mapM_app_option, E1 by lia. simpl. by rewrite E2.
  - intros m a n1 n2 bs [[Ha H1] E]%us_copyin_Ok. rewrite Nat2Z.inj_add, seqZ_app, mapM_app_option in E by lia.
    destruct (mapM _ (seqZ a (Z.of_nat n1))) as [l1|] eqn:E1; [|done]. simpl in E.
    destruct (mapM _ (seqZ (a + Z.of_nat n1) _)) as [l2|] eqn:E2; [|done]. injection E as <-.
    assert (Hl : length l1 = n1) by (apply mapM_lookup in E1 as [E1 _]; rewrite length_seqZ in E1; lia).
    rewrite take_app_length', drop_app_length' by done. rewrite !us_copyin_Ok. split_and!; try done; split; lia.
  - intros m a bs m' (Hr&_&Hb&_)%us_copyout_Ok. apply us_copyin_Ok. split; [done|]. apply mapM_lookup.
    rewrite length_seqZ. split; [lia|]. intros i x Hx. apply lookup_seqZ in Hx as [-> Hi].
    rewrite Hb, decide_True by lia. f_equal. lia.
  - intros m a bs m' b n cs (Hr&_&Hb&_)%us_copyout_Ok [Hr2 E]%us_copyin_Ok Hd. apply us_copyin_Ok. split; [done|].
    apply mapM_lookup in E as [Hl Hk]. apply mapM_lookup. split; [done|]. intros i x Hx.
    pose proof Hx as Hx'. apply lookup_seqZ in Hx' as [-> Hi]. rewrite Hb, decide_False by lia. by apply Hk.
  - intros m a bs (Ha&Hmax&Hw) _. destruct (us_wf m) as [own K].
    destruct (copyout_loop_ok (us_rt m) own (length bs) (us_phys m) a bs K Ha Hmax ltac:(done) Hw) as [s' Hs'].
    change MAXVA with 274877906944 in Hmax.
    assert (Hrun : (run_copyout m a bs).1 = Ok ()) by (unfold run_copyout, uvm_copyout; by rewrite Hs').
    unfold us_copyout. case_decide as H; [|exfalso; apply H; split; [split; lia|by rewrite Hrun]].
    rewrite Hrun. eauto.
  - intros m a bs m' b n (_&Hrt&_&Hw)%us_copyout_Ok (Hb&Hmax&Hwr). split_and!; [done|done|]. intros x Hx. apply Hw; [lia|]. by apply Hwr.
  - intros m a n b k (Ha&Hmax&Hw) H1 H2. split_and!; [lia|lia|]. intros x Hx. apply Hw. lia.
Qed.

(** ** Claims *)

(** C@: reading and writing user memory.  [copyin] returns exactly the bytes of
    the address space, or [BadVirtAddr] if one of them is not mapped for the
    user.  [copyout] that succeeds changes exactly the bytes of its range to
    those given, and one that fails changes no byte outside its range,
    although it may give the process its own copy of a shared page on the
    way; writing to memory that is mapped writable succeeds.  Writing changes
    no byte of another address space, whose pages this one shares only
    copy-on-write, and they stay apart in that way.  (A write the kernel does
    not survive, to an address from [MAXVA] on, is excluded.) *)
Theorem user_memory_correct root own s a n bs : us_ok root own s → in_usize a n → in_usize a (length bs) →
  uvm_copyin root a n s
    = ((match mapM (ubyte s root) (seqZ a (Z.of_nat n)) with Some l => Ok l | None => Err BadVirtAddr end), s) ∧
  (∀ r s', uvm_copyout root a bs s = (r, s') → r ≠ Panic →
    us_ok root own s' ∧
    (∀ x, ¬ (a ≤ x < a + Z.of_nat (length bs)) → ubyte s' root x = ubyte s root x) ∧
    (r = Ok () → ∀ x, a ≤ x < a + Z.of_nat (length bs) → ubyte s' root x = bs !! Z.to_nat (x - a)) ∧
    (∀ root2 own2, apart root own root2 own2 s →
       apart root own root2 own2 s' ∧ ∀ y, ubyte s' root2 y = ubyte s root2 y)) ∧
  (a + Z.of_nat (length bs) ≤ MAXVA → (∀ x, a ≤ x < a + Z.of_nat (length bs) → wr (pte_at s root x) = true) →
    ∃ s', uvm_copyout root a bs s = (Ok (), s')).
Proof.
  intros K [Ha Hn] [_ Hl]. split_and!.
  - by apply (copyin_loop_spec root own s K).
  - intros r s' Hrun Hr. unfold uvm_copyout in Hrun.
    destruct (copyout_loop_spec root own _ s a bs r s' K Ha Hl ltac:(done) Hrun Hr) as (?&_&?&?). split_and!; [done..|].
    intros root2 own2 A. by apply (copyout_apart root own root2 own2 (length bs) s a bs r s').
  - intros Hmax Hw. by apply (copyout_loop_ok root own).
Qed.

(** An address past the end of user memory.  Reading from it fails with
    [BadVirtAddr], but writing to it panics the kernel: [copyout] starts with
    [walk], which panics from [MAXVA] on, where [copyin] starts with
    [walkaddr], which checks. *)
Theorem copyout_high_address_panics root own s a b bs n : us_ok root own s → MAXVA ≤ a → in_usize a (S n) →
  a + Z.of_nat (S (length bs)) < 2 ^ 64 →
  uvm_copyin root a (S n) s = (Err BadVirtAddr, s) ∧ uvm_copyout root a (b :: bs) s = (Panic, s).
Proof.
  intros K Ha [H0 Hn] Hl. pose proof Ha as Hm. change MAXVA with 274877906944 in Hm. split.
  - unfold uvm_copyin. rewrite (copyin_loop_spec root own s K) by (done || lia). rewrite seqZ_cons by lia. simpl.
    rewrite (ubyte_none s root a) by auto. done.
  - unfold uvm_copyout. cbn [length]. rewrite copyout_loop_S by (simpl; lia). cbv zeta.
    unfold copyout_page, walk_or_bad, walk, mbind, M_bind. rewrite (proj2 (Z.leb_le _ _)); [done|].
    change MAXVA with 274877906944. lia.
Qed.

(** An address space with nothing in it, and one with a page that is shared
    copy-on-write. *)
Lemma us_ok_empty root own s : pt_wf root own s → (∀ x, pte_at s root x = 0) → (∀ p, p ∈ ph_free s → ph_pages s !! p = None) →
  us_ok root own s.
Proof. intros W H0 Hf. split; [done| | |done]; intros *; rewrite H0; done. Qed.

Lemma us_ok_map root own s va pa perm d s' : us_ok root own s → (∀ x, pte_at s root x = 0) →
  0 ≤ va → va mod 4096 = 0 → va + 4096 ≤ MAXVA → pa mod 4096 = 0 → 0 ≤ Z.lor perm PTE_V < 1024 →
  ph_pages s !! pa = Some d → length d = 4096%nat →
  mappages root va pa 4096 perm s = (Ok (), s') →
  ∃ own', us_ok root own' s' ∧ (∀ p, p ∈ dom own' → p ∈ dom own ∨ p ∈ ph_free s) ∧
    (∀ x, 0 ≤ x < MAXVA → pte_at s' root x = if decide (va ≤ x < va + 4096) then mapped_pte va pa perm x else 0).
Proof.
  intros K Hz Hva Hal Hmax Hpa Hperm Hd Hl Hmap. pose proof Hmax as Hm. change MAXVA with 274877906944 in Hm.
  rewrite mappages_loop_of in Hmap by lia. replace (va / 4096 * 4096) with va in Hmap by lia.
  replace (Z.to_nat _) with 0%nat in Hmap by lia.
  destruct (mappages_loop_spec root 0 own s va pa perm (uk_wf _ _ _ K) Hva Hal) as (own'&s1&j&Hrun&Hj&W'&_&Hdom&Hpg&_&Hfr&_&Hx).
  - change MAXVA with 274877906944. lia.
  - intros i Hi. by rewrite Hz.
  - rewrite Hmap in Hrun. destruct (Nat.leb_spec j 0); [done|]. injection Hrun as <-. assert (j = 1%nat) as -> by lia.
    exists own'. split_and!; [split; [done| | |]|done|].
    + intros x Hxr. rewrite Hx by done. case_decide as E; [|by rewrite Hz]. intros _. exists d. rewrite Hpg. unfold mapped_pte.
      rewrite to_pa_set by (done || lia). replace (pa + (x / 4096 * 4096 - va)) with pa by lia. done.
    + intros x y Hxr Hyr. rewrite !Hx by done. repeat case_decide; rewrite ?Hz; try done. intros. lia.
    + intros p Hp. rewrite Hpg. apply (uk_free _ _ _ K). destruct Hfr as [l E]. rewrite E. set_solver.
    + intros x Hxr. rewrite Hx by done. by rewrite Hz.
Qed.

Definition shared_page : Z := KERNBASE + 0x10000.
Definition shared_bytes : list Z := [104; 105] ++ replicate 4094 0.
Definition cow_perm : Z := Z.lor (Z.lor PTE_R PTE_U) PTE_COW.
(** A parent with the tables from [KERNBASE] and a child with those from
    [child_root], both with the shared page, at 0x5000. *)
Definition child_root : Z := KERNBASE + 0x8000.
Definition free_from (base : Z) : list Z := map (λ i, base + 4096 * i) [1; 2; 3; 4; 5; 6].
Definition one_space (base : Z) : Phys :=
  mkPhys {[ base := zero_table ]} {[ shared_page := shared_bytes ]} {[ shared_page := 2 ]} (free_from base).
Definition map_shared (base : Z) : Result () * Phys := mappages base 0x5000 shared_page 4096 cow_perm (one_space base).
Definition demo_shared : Phys := (map_shared demo_root).2.
Definition demo_space : Phys :=
  set_tables (ph_tables demo_shared ∪ ph_tables (map_shared child_root).2) demo_shared.

Lemma empty_table s base x : ph_tables s !! base = Some zero_table → pte_at s base x = 0.
Proof.
  intros Ht. unfold pte_at, path, next_table, entry. rewrite Ht. cbn [mbind option_bind].
  destruct (zero_table !! px x 2) as [e|] eqn:E; [|done]. by apply lookup_replicate in E as [-> _].
Qed.

Lemma one_space_wf base : base mod 4096 = 0 → pt_wf base {[ base := (2%nat, 0) ]} (one_space base).
Proof.
  intros Hb. split.
  - apply lookup_singleton_eq.
  - intros p l v Hp. apply lookup_singleton_Some in Hp as [<- [= <- <-]]. exists zero_table.
    split_and!; [apply lookup_singleton_eq|apply length_zero_table|]. intros _ i e He. by apply lookup_replicate in He as [-> _].
  - intros p Hp. cbn in Hp. rewrite lookup_singleton_ne; [split; [done|]|]; intros *; repeat (apply elem_of_cons in Hp as [->|Hp]; [lia|]); by apply elem_of_nil in Hp.
  - cbn. repeat (apply NoDup_cons; split; [rewrite ?not_elem_of_cons; repeat split; try lia; apply not_elem_of_nil|]). constructor.
Qed.

Lemma map_shared_ok base : base mod 4096 = 0 → base + 0x6000 < shared_page → (map_shared base).1 = Ok () →
  ∃ own, us_ok base own (map_shared base).2 ∧ (∀ p, p ∈ dom own → base ≤ p ≤ base + 0x6000) ∧
    ∀ x, 0 ≤ x < MAXVA → user (pte_at (map_shared base).2 base x) = true → to_pa (pte_at (map_shared base).2 base x) = shared_page ∧
      wr (pte_at (map_shared base).2 base x) = false.
Proof.
  intros Hb Hlt Hr. unfold map_shared in *. destruct (mappages _ _ _ _ _ _) as [r s'] eqn:E. cbn in Hr. subst r.
  destruct (us_ok_map base {[ base := (2%nat, 0) ]} (one_space base) 0x5000 shared_page cow_perm shared_bytes s') as (own & K & Hdom & Hx); try done.
  - apply us_ok_empty; [by apply one_space_wf|intros x; by apply empty_table, lookup_singleton_eq|].
    intros p Hp. cbn in Hp |- *. apply lookup_singleton_ne. intros <-.
    repeat (apply elem_of_cons in Hp as [Hp|Hp]; [lia|]). by apply elem_of_nil in Hp.
  - intros x. by apply empty_table, lookup_singleton_eq.
  - exists own. cbn [snd]. split_and!; [done|..].
    + intros p Hp. destruct (Hdom p Hp) as [Hd|Hd].
      * rewrite dom_singleton in Hd. apply elem_of_singleton in Hd as ->. lia.
      * cbn in Hd. repeat (apply elem_of_cons in Hd as [->|Hd]; [lia|]). by apply elem_of_nil in Hd.
    + intros x Hxr. rewrite Hx by done. case_decide as Ex; [|done]. intros _. unfold mapped_pte.
      replace (shared_page + (x / 4096 * 4096 - 0x5000)) with shared_page by lia. by vm_compute.
Qed.

(** The same page table in another memory. *)
Lemma us_ok_move root own s s' : us_ok root own s → (∀ q, is_Some (own !! q) → ph_tables s' !! q = ph_tables s !! q) →
  ph_pages s' = ph_pages s → NoDup (ph_free s') →
  (∀ p, p ∈ ph_free s' → own !! p = None ∧ p mod 4096 = 0 ∧ ph_pages s !! p = None) →
  us_ok root own s' ∧ ∀ x, 0 ≤ x < MAXVA → pte_at s' root x = pte_at s root x.
Proof.
  intros K Ht Hp Hn Hf. destruct (uk_wf _ _ _ K) as [W1 W2 W3 W4].
  assert (Hpte : ∀ x, 0 ≤ x < MAXVA → pte_at s' root x = pte_at s root x) by (intros x; by apply (pte_at_own root own s (uk_wf _ _ _ K))).
  split; [|done]. split.
  - split; [done| | |done]; [|intros p Hin; by destruct (Hf p Hin) as (?&?&_)].
    intros p l v Hpl. rewrite Ht by eauto. by apply W2.
  - intros x Hx. rewrite Hpte, Hp by done. by apply (uk_page _ _ _ K).
  - intros x y Hx Hy. rewrite !Hpte by done. by apply (uk_private _ _ _ K).
  - intros p Hin. rewrite Hp. by apply Hf.
Qed.

Lemma demo_space_ok : ∃ own own2, us_ok demo_root own demo_space ∧ apart demo_root own child_root own2 demo_space.
Proof.
  destruct (map_shared_ok demo_root) as (own & K1 & D1 & U1); [done|by vm_compute|by vm_compute|].
  destruct (map_shared_ok child_root) as (own2 & K2 & D2 & U2); [done|by vm_compute|by vm_compute|].
  assert (Hlow : ∀ q t, ph_tables demo_shared !! q = Some t → q < child_root).
  { apply (bool_decide_eq_true_1 (map_Forall (λ q (_ : list Z), q < child_root) (ph_tables demo_shared))). by vm_compute. }
  assert (Hfree : ph_free demo_space = map (λ i, KERNBASE + 4096 * i) [3; 4; 5; 6]) by (by vm_compute).
  assert (Hin : ∀ p, p ∈ ph_free demo_space → KERNBASE + 4096 * 3 ≤ p ≤ KERNBASE + 4096 * 6 ∧ p mod 4096 = 0).
  { intros p. rewrite Hfree. cbn. intros Hp. repeat (apply elem_of_cons in Hp as [->|Hp]; [by vm_compute|]). by apply elem_of_nil in Hp. }
  assert (Hnd : NoDup (ph_free demo_space)) by (apply (bool_decide_eq_true_1 (NoDup (ph_free demo_space))); by vm_compute).
  assert (Hpages : ph_pages demo_space = {[ shared_page := shared_bytes ]}) by (by vm_compute).
  destruct (us_ok_move demo_root own demo_shared demo_space K1) as [K1' P1]; [| |done|..].
  { intros q [[l v] Hq]. destruct (pw_table _ _ _ (uk_wf _ _ _ K1) q l v Hq) as (t & Ht & _). fold demo_shared in Ht. rewrite Ht.
    unfold demo_space. cbn. by apply lookup_union_Some_l. }
  { done. }
  { intros p Hp. split_and!; [|by apply Hin|by apply (uk_free _ _ _ K1)]. by apply (pw_free _ _ _ (uk_wf _ _ _ K1)). }
  destruct (us_ok_move child_root own2 (map_shared child_root).2 demo_space K2) as [K2' P2]; [| |done|..].
  { intros q Hq. unfold demo_space. cbn. apply lookup_union_r. apply eq_None_not_Some. intros [t Ht].
    apply Hlow in Ht. apply elem_of_dom, D2 in Hq. lia. }
  { by vm_compute. }
  { intros p Hp. destruct (Hin p Hp) as [Hr Ha]. split_and!; [|done|].
    - apply eq_None_not_Some. intros Ho. apply elem_of_dom, D2 in Ho. unfold child_root in Ho. lia.
    - assert (ph_pages (map_shared child_root).2 = {[ shared_page := shared_bytes ]}) as -> by (by vm_compute).
      apply lookup_singleton_ne. unfold shared_page. lia. }
  exists own, own2. split; [done|]. split; [done| |].
  - intros q Hq. apply eq_None_not_Some. intros Ho. apply elem_of_dom, D1 in Ho. apply elem_of_dom, D2 in Hq.
    unfold demo_root, child_root in *. lia.
  - intros x y Hx Hy. rewrite P1, P2 by done. intros Hux Huy E. destruct (U1 x Hx Hux) as [E1 Hw]. fold demo_shared in E1, Hw. split; [done|].
    rewrite E1. by vm_compute.
Qed.

Lemma user_memory_correct_witness : ∃ own own2,
  apart demo_root own child_root own2 demo_space ∧
  uvm_copyin demo_root 0x5000 2 demo_space
    = ((match mapM (ubyte demo_space demo_root) (seqZ 0x5000 (Z.of_nat 2)) with Some l => Ok l | None => Err BadVirtAddr end),
       demo_space) ∧
  (∀ r s', uvm_copyout demo_root 0x5000 [72] demo_space = (r, s') → r ≠ Panic →
    us_ok demo_root own s' ∧ ubyte s' child_root 0x5000 = ubyte demo_space child_root 0x5000 ∧
    (r = Ok () → ∀ x, 0x5000 ≤ x < 0x5000 + Z.of_nat 1 → ubyte s' demo_root x = [72] !! Z.to_nat (x - 0x5000))).
Proof.
  destruct demo_space_ok as (own & own2 & K & A). exists own, own2. split; [exact A|].
  destruct (user_memory_correct demo_root own demo_space 0x5000 2 [72] K) as (H1 & H2 & _); [by vm_compute..|].
  split; [exact H1|]. intros r s' Hrun Hr. destruct (H2 r s' Hrun Hr) as (H3 & _ & H5 & H6). split; [exact H3|].
  split; [exact (proj2 (H6 child_root own2 A) 0x5000)|exact H5].
Defined.

(** The write to the shared page gets a page of its own, and the child still
    reads the old bytes. *)
Example demo_cow :
  let s' := (uvm_copyout demo_root 0x5000 [72] demo_space).2 in
  (uvm_copyout demo_root 0x5000 [72] demo_space).1 = Ok () ∧
  (uvm_copyin demo_root 0x5000 2 s').1 = Ok [72; 105] ∧ (uvm_copyin child_root 0x5000 2 s').1 = Ok [104; 105].
Proof. by vm_compute. Qed.
