(* ===== verification/Mmap.v ===== *)
(** * Memory mappings

    The mapping calls of [kernel/src/proc.rs] ([mmap], [munmap],
    [munmap_vma_range], [handle_user_page_fault] and
    [Writeback::flush]) and the shared memory segments of
    [kernel/src/ipc.rs], over the page tables of PageTable.v.

    [Space] is what one process works on: the physical memory, its page table,
    its size and list of mappings, and the kernel's table of segments.  The
    inode layer is a parameter: [inode_read] and [inode_write] stand for
    [IData::read] and [IData::write], [fs_begin] and [fs_end] for the
    transaction calls around a write. *)

From stdpp Require Import base tactics numbers gmap list.
From S2P Require Import Prelude Params Errors UserMem PageTable.
Local Open Scope Z_scope.

Definition PROT_READ : Z := 1.
Definition PROT_WRITE : Z := 2.
Definition PROT_EXEC : Z := 4.
Definition MAP_SHARED : Z := 1.
Definition MAP_PRIVATE : Z := 2.
Definition MAP_ANON : Z := 4.
Definition SHM_MAX_PAGES : Z := 64.

(** What the mapping calls use of an open [File]. *)
Record MFile := mkMFile { mf_readable : bool; mf_writable : bool; mf_inode : option Z }.

(** [struct Vma]; [v_shm] names a segment, of which it holds a reference. *)
Record Vma := mkVma {
  v_start : Z; v_len : Z; v_prot : Z; v_flags : Z; v_file : option MFile; v_file_off : Z; v_shm : option nat;
}.

(** Overflow of a [usize] addition stops the kernel. *)
Definition usize_add (a b : Z) : Result Z := if a + b <=? USIZE_MAX then Ok (a + b) else Panic.
Definition checked_pgroundup (a : Z) : Result Z := if a + (PGSIZE - 1) <=? USIZE_MAX then Ok (pgroundup a) else Panic.

(** Methods of [Vma]. *)
Definition end_req (v : Vma) : Z := v_start v + v_len v.
Definition len_pg (v : Vma) : Z := pgroundup (v_len v).
Definition end_pg (v : Vma) : Z := v_start v + len_pg v.
Definition contains_pg (v : Vma) (va : Z) : bool := (v_start v <=? va) && (va <? end_pg v).
Definition vma_perm (v : Vma) : Z :=
  let perm := PTE_U in
  let perm := if has (v_prot v) PROT_READ then Z.lor perm PTE_R else perm in
  let perm := if has (v_prot v) PROT_WRITE then Z.lor perm PTE_W else perm in
  if has (v_prot v) PROT_EXEC then Z.lor perm PTE_X else perm.
Definition is_shared (v : Vma) : bool := has (v_flags v) MAP_SHARED.
Definition is_anon (v : Vma) : bool := has (v_flags v) MAP_ANON.
Definition is_shm (v : Vma) : bool := bool_decide (is_Some (v_shm v)).

(** [struct ShmSegment] with the number of its [Arc] references. *)
Record ShmSegment := mkShm { shm_size : Z; shm_pages : list Z; shm_strong : nat }.

(** [struct Writeback]: the page [wb_page] holds a copy of the data. *)
Record Writeback := mkWb { wb_ip : Z; wb_file_off : Z; wb_page : Z; wb_data_off : nat; wb_len : nat }.

Section space.
Context {FS : Type}.

Record Space := mkSpace {
  sp_phys : Phys; sp_root : Z; sp_sz : Z; mmap_base : Z; vmas : list Vma;
  SHM_TABLE : list (option nat); segs : gmap nat ShmSegment; next_seg : nat; sp_fs : FS;
}.
Abbreviation MM := (M Error Space).

Definition set_phys (p : Phys) (m : Space) : Space :=
  mkSpace p (sp_root m) (sp_sz m) (mmap_base m) (vmas m) (SHM_TABLE m) (segs m) (next_seg m) (sp_fs m).
Definition set_base (b : Z) (m : Space) : Space :=
  mkSpace (sp_phys m) (sp_root m) (sp_sz m) b (vmas m) (SHM_TABLE m) (segs m) (next_seg m) (sp_fs m).
Definition set_vmas (v : list Vma) (m : Space) : Space :=
  mkSpace (sp_phys m) (sp_root m) (sp_sz m) (mmap_base m) v (SHM_TABLE m) (segs m) (next_seg m) (sp_fs m).
Definition set_table (t : list (option nat)) (m : Space) : Space :=
  mkSpace (sp_phys m) (sp_root m) (sp_sz m) (mmap_base m) (vmas m) t (segs m) (next_seg m) (sp_fs m).
Definition set_segs (g : gmap nat ShmSegment) (k : nat) (m : Space) : Space :=
  mkSpace (sp_phys m) (sp_root m) (sp_sz m) (mmap_base m) (vmas m) (SHM_TABLE m) g k (sp_fs m).
Definition set_fs (f : FS) (m : Space) : Space :=
  mkSpace (sp_phys m) (sp_root m) (sp_sz m) (mmap_base m) (vmas m) (SHM_TABLE m) (segs m) (next_seg m) f.

Definition vm {A} (x : VM A) : MM A := λ m, let '(r, p) := x (sp_phys m) in (r, set_phys p m).
Definition upd (f : Space → Space) : MM () := λ m, (Ok (), f m).
Definition of_res {A} (r : Result A) : MM A := λ m, (r, m).
(** [match m { Ok(a) => .., Err(e) => .. }]. *)
Definition try_with {A B} (m : MM A) (ok : A → MM B) (err : Error → MM B) : MM B := λ s,
  match m s with (Ok a, s) => ok a s | (Err e, s) => err e s | (Panic, s) => (Panic, s) end.

(** ** Segments and their references *)

(** [Drop for ShmSegment], of the pages allocated so far. *)
Definition drop_pages (pages : list Z) : MM () :=
  m_for pages (λ pa, r ← vm (page_ref_dec pa); if r =? 0 then vm (drop_page pa) else mret ()).

Definition seg_clone (g : nat) : MM () := λ m,
  match segs m !! g with
  | Some s => (Ok (), set_segs (<[g := mkShm (shm_size s) (shm_pages s) (S (shm_strong s))]> (segs m)) (next_seg m) m)
  | None => (Panic, m)
  end.
Definition seg_drop (g : nat) : MM () := λ m,
  match segs m !! g with
  | Some s =>
      match shm_strong s with
      | S (S k) => (Ok (), set_segs (<[g := mkShm (shm_size s) (shm_pages s) (S k)]> (segs m)) (next_seg m) m)
      | _ => drop_pages (shm_pages s) (set_segs (delete g (segs m)) (next_seg m) m)
      end
  | None => (Panic, m)
  end.
(** Dropping a [Vma]. *)
Definition vma_drop (v : Vma) : MM () := match v_shm v with Some g => seg_drop g | None => mret () end.

(** [shm_create]: the allocation loop, with the pages so far. *)
Fixpoint shm_alloc (n : nat) (pages : list Z) : MM (list Z) :=
  match n with
  | O => mret pages
  | S n =>
      o ← vm new_page;
      match o with
      | None => _ ← drop_pages pages; m_err OutOfMemory
      | Some pa => _ ← vm (page_ref_init pa); shm_alloc n (pages ++ [pa])
      end
  end.
Definition shm_create (size : Z) : MM Z :=
  if size =? 0 then m_err InvalidArgument
  else
    len_pg ← of_res (checked_pgroundup size);
    let npages := len_pg / PGSIZE in
    if (npages =? 0) || (SHM_MAX_PAGES <? npages) then m_err InvalidArgument
    else
      pages ← shm_alloc (Z.to_nat npages) [];
      m ← m_get;
      match list_find (λ s : option nat, s = None) (SHM_TABLE m) with
      | None => _ ← drop_pages pages; m_err NoBufferSpace
      | Some (idx, _) =>
          let g := next_seg m in
          _ ← upd (set_segs (<[g := mkShm size pages 1]> (segs m)) (S g));
          _ ← upd (set_table (<[idx := Some g]> (SHM_TABLE m)));
          mret (Z.of_nat idx + 1)
      end.

(** [shm_destroy]. *)
Definition shm_destroy (id : Z) : MM () :=
  if id =? 0 then m_err InvalidArgument
  else
    m ← m_get;
    match SHM_TABLE m !! Z.to_nat (id - 1) with
    | None => m_err InvalidArgument
    | Some None => m_err NotFound
    | Some (Some g) => _ ← upd (set_table (<[Z.to_nat (id - 1) := None]> (SHM_TABLE m))); seg_drop g
    end.

(** ** Placing mappings *)

(** [ProcData::alloc_mmap_va]. *)
Definition alloc_mmap_va (sz len : Z) : MM Z :=
  len_pg ← of_res (checked_pgroundup len);
  m ← m_get;
  if len_pg =? 0 then m_err InvalidArgument
  else if mmap_base m <? len_pg then m_err NoBufferSpace
  else
    let base := rounddown (mmap_base m - len_pg) in
    up ← of_res (checked_pgroundup sz);
    if base <? up then m_err NoBufferSpace
    else _ ← upd (set_base base); mret base.

(** [mmap]; [ofile] is the table of open files of the process. *)
Definition mmap_file (ofile : list (option MFile)) (prot flags : Z) (fd : nat) : MM (option MFile) :=
  if has flags MAP_ANON then mret None
  else match ofile !! fd with
       | None => m_err FileDescriptorTooLarge
       | Some None => m_err BadFileDescriptor
       | Some (Some f) =>
           if has prot PROT_READ && negb (mf_readable f) then m_err PermissionDenied
           else if has flags MAP_SHARED && has prot PROT_WRITE && negb (mf_writable f) then m_err PermissionDenied
           else match mf_inode f with None => m_err InvalidArgument | Some _ => mret (Some f) end
       end.
Definition mmap (ofile : list (option MFile)) (addr len prot flags : Z) (fd : nat) (offset : Z) : MM Z :=
  if negb (addr =? 0) then m_err InvalidArgument
  else if len =? 0 then m_err InvalidArgument
  else if negb (is_aligned offset) then m_err InvalidArgument
  else if Bool.eqb (has flags MAP_SHARED) (has flags MAP_PRIVATE) then m_err InvalidArgument
  else
    file ← mmap_file ofile prot flags fd;
    m ← m_get;
    start ← alloc_mmap_va (sp_sz m) len;
    m ← m_get;
    _ ← upd (set_vmas (vmas m ++ [mkVma start len prot flags file offset None]));
    mret start.

(** ** Removing mappings *)

(** [munmap_vma_range]: the page at [a], when it is present. *)
Definition save_page (v : Vma) (a pte : Z) : MM (list Writeback) :=
  match v_file v with
  | Some f =>
      match mf_inode f with
      | Some ip =>
          if is_shared v && negb (is_anon v) then
            let page_off := a - v_start v in
            let write_start := Z.max a (v_start v) in
            let write_end := Z.min (a + PGSIZE) (end_req v) in
            if write_start <? write_end then
              x ← of_res (usize_add (v_file_off v) page_off);
              file_off ← of_res (usize_add x (write_start - a));
              if 2 ^ 32 - 1 <? file_off then m_err InvalidArgument
              else
                o ← vm new_page;
                match o with
                | None => m_err OutOfMemory
                | Some buf =>
                    d ← vm (get_page (to_pa pte));
                    _ ← vm (put_page buf d);
                    mret [mkWb ip file_off buf (Z.to_nat (write_start - a)) (Z.to_nat (write_end - write_start))]
                end
            else mret []
          else mret []
      | None => mret []
      end
  | None => mret []
  end.
Definition munmap_page (v : Vma) (a : Z) : MM (list Writeback) :=
  m ← m_get;
  o ← vm (walk (sp_root m) a false);
  match o with
  | None => mret []
  | Some l =>
      pte ← vm (get_pte l);
      if is_v pte && is_leaf pte then
        w ← save_page v a pte;
        _ ← vm (unmap (sp_root m) a 1 true);
        mret w
      else mret []
  end.

(** Dropping writebacks without flushing them. *)
Definition drop_wbs (l : list Writeback) : MM () := m_for l (λ w, vm (drop_page (wb_page w))).

(** [munmap_vma_range] over [n] pages from [a].  Writebacks are handed on
    through [wbs]; when the call fails they are dropped. *)
Fixpoint munmap_vma_range (v : Vma) (n : nat) (a : Z) (wbs : list Writeback) : MM (list Writeback) :=
  match n with
  | O => mret wbs
  | S n =>
      try_with (munmap_page v a)
        (λ w, munmap_vma_range v n (a + PGSIZE) (wbs ++ w))
        (λ e, _ ← drop_wbs wbs; m_err e)
  end.

(** What is left of [v] when [a..b] of its pages is unmapped. *)
Definition vma_cut (v : Vma) (a b : Z) : Result (list Vma) :=
  if (a =? v_start v) && (b =? end_pg v) then Ok []
  else if a =? v_start v then
    let delta := b - v_start v in
    off ← usize_add (v_file_off v) delta;
    Ok [mkVma b (Z.max 0 (v_len v - delta)) (v_prot v) (v_flags v) (v_file v) off (v_shm v)]
  else if b =? end_pg v then
    let delta := end_pg v - a in
    Ok [mkVma (v_start v) (Z.max 0 (v_len v - delta)) (v_prot v) (v_flags v) (v_file v) (v_file_off v) (v_shm v)]
  else
    let left_len := a - v_start v in
    let right_off := b - v_start v in
    let right_len := end_pg v - b in
    off ← usize_add (v_file_off v) right_off;
    Ok [mkVma (v_start v) (Z.min (v_len v) left_len) (v_prot v) (v_flags v) (v_file v) (v_file_off v) (v_shm v);
        mkVma b (Z.min (Z.max 0 (v_len v - right_off)) right_len) (v_prot v) (v_flags v) (v_file v) off (v_shm v)].

(** The loop of [munmap] over the mappings: [done_] have been dealt with. *)
Fixpoint munmap_loop (start end_ : Z) (done_ todo : list Vma) (wbs : list Writeback) : MM (list Writeback) :=
  match todo with
  | [] => mret wbs
  | v :: todo =>
      let a := if v_start v <? start then start else v_start v in
      let b := if end_ <? end_pg v then end_ else end_pg v in
      if b <=? a then munmap_loop start end_ (done_ ++ [v]) todo wbs
      else if is_shm v && (negb (a =? v_start v) || negb (b =? end_pg v)) then
        _ ← drop_wbs wbs; m_err InvalidArgument
      else
        wbs ← munmap_vma_range v (Z.to_nat ((b - a) / PGSIZE)) a wbs;
        rest ← of_res (vma_cut v a b);
        _ ← upd (set_vmas (done_ ++ rest ++ todo));
        _ ← match rest with [] => vma_drop v | _ => mret () end;
        munmap_loop start end_ (done_ ++ rest) todo wbs
  end.

(** The inode layer. *)
Context (inode_read : Z → Z → nat → FS → Result (list Z))
        (inode_write : Z → Z → list Z → FS → Result () * FS)
        (fs_begin fs_end : FS → FS).

(** [Writeback::flush]: [?] leaves the transaction open; the page goes either
    way. *)
Definition flush (w : Writeback) : MM () :=
  _ ← upd (λ m, set_fs (fs_begin (sp_fs m)) m);
  src ← vm (read_page (wb_page w) (wb_data_off w) (wb_len w));
  try_with (λ m, let '(r, fs) := inode_write (wb_ip w) (wb_file_off w) src (sp_fs m) in (r, set_fs fs m))
    (λ _, _ ← upd (λ m, set_fs (fs_end (sp_fs m)) m); vm (drop_page (wb_page w)))
    (λ e, _ ← vm (drop_page (wb_page w)); m_err e).
Fixpoint flush_all (l : list Writeback) : MM () :=
  match l with
  | [] => mret ()
  | w :: l => try_with (flush w) (λ _, flush_all l) (λ e, _ ← drop_wbs l; m_err e)
  end.

(** [munmap]. *)
Definition munmap (addr len : Z) : MM () :=
  if negb (is_aligned addr) || (len =? 0) then m_err InvalidArgument
  else
    len_pg ← of_res (checked_pgroundup len);
    end_ ← of_res (usize_add addr len_pg);
    m ← m_get;
    wbs ← munmap_loop addr end_ [] (vmas m) [];
    flush_all wbs.

(** [shm_detach]. *)
Definition shm_detach (addr : Z) : MM () :=
  if negb (is_aligned addr) then m_err InvalidArgument
  else
    m ← m_get;
    match list_find (λ v, is_shm v = true ∧ v_start v = addr) (vmas m) with
    | None => m_err BadVirtAddr
    | Some (_, v) => munmap addr (v_len v)
    end.

(** ** Page faults *)

Inductive Fault := InstructionPageFault | LoadPageFault | StorePageFault.

(** The page at [va] is already mapped for the user. *)
Definition present (va : Z) : MM bool :=
  m ← m_get;
  o ← vm (walk (sp_root m) va false);
  match o with
  | None => mret false
  | Some l => pte ← vm (get_pte l); mret (is_v pte && is_leaf pte && is_u pte)
  end.

(** A fresh page with what the mapping holds at [va]. *)
Definition load_page (v : Vma) (va mem : Z) : MM () :=
  if is_anon v then mret ()
  else match v_file v with
       | None => mret ()
       | Some f =>
           match mf_inode f with
           | None => mret ()
           | Some ip =>
               file_off ← of_res (usize_add (v_file_off v) (va - v_start v));
               if file_off <=? 2 ^ 32 - 1 then
                 m ← m_get;
                 match inode_read ip file_off (Z.to_nat PGSIZE) (sp_fs m) with
                 | Ok bs => vm (write_page mem 0 bs)
                 | Err e => _ ← vm (drop_page mem); m_err e
                 | Panic => m_panic
                 end
               else mret ()
           end
       end.

Definition fault_denied (cause : Fault) (v : Vma) : bool :=
  match cause with
  | LoadPageFault => negb (has (v_prot v) PROT_READ)
  | StorePageFault => negb (has (v_prot v) PROT_WRITE)
  | InstructionPageFault => negb (has (v_prot v) PROT_EXEC)
  end.

(** [handle_user_page_fault]. *)
Definition handle_user_page_fault (fault_addr : Z) (cause : Fault) : MM () :=
  let va := rounddown fault_addr in
  m ← m_get;
  match list_find (λ v, contains_pg v va = true) (vmas m) with
  | None => m_err BadVirtAddr
  | Some (_, v) =>
      if fault_denied cause v then m_err PermissionDenied
      else
        there ← present va;
        if (there : bool) then m_err BadVirtAddr
        else match v_shm v with
        | Some g =>
            match segs m !! g with
            | None => m_panic
            | Some seg =>
                match shm_pages seg !! Z.to_nat ((va - v_start v) / PGSIZE) with
                | None => m_err InvalidArgument
                | Some pa => _ ← vm (mappages (sp_root m) va pa PGSIZE (vma_perm v)); vm (page_ref_inc pa)
                end
            end
        | None =>
            o ← vm new_page;
            match o with
            | None => m_err OutOfMemory
            | Some mem =>
                _ ← load_page v va mem;
                there ← present va;
                if (there : bool) then vm (drop_page mem)
                else try_with (vm (mappages (sp_root m) va mem PGSIZE (vma_perm v)))
                       (λ _, vm (page_ref_init mem))
                       (λ e, _ ← vm (drop_page mem); m_err e)
            end
        end
  end.

(** ** Attaching segments *)

(** [prot_to_perm]. *)
Definition prot_to_perm (prot : Z) : Result Z :=
  let valid := Z.lor (Z.lor PROT_READ PROT_WRITE) PROT_EXEC in
  if negb (Z.land prot (Z.lxor USIZE_MAX valid) =? 0) then Err InvalidArgument
  else if Z.land prot valid =? 0 then Err InvalidArgument
  else Ok (vma_perm (mkVma 0 0 prot 0 None 0 None)).

(** The mapping loop of [shm_attach]; [idx] pages are mapped. *)
Fixpoint attach_loop (start perm prev_base : Z) (idx : nat) (pages : list Z) : MM () :=
  match pages with
  | [] => mret ()
  | pa :: pages =>
      m ← m_get;
      try_with (vm (mappages (sp_root m) (start + Z.of_nat idx * PGSIZE) pa PGSIZE perm))
        (λ _, _ ← vm (page_ref_inc pa); attach_loop start perm prev_base (S idx) pages)
        (λ e, _ ← (if (0 <? idx)%nat then vm (unmap (sp_root m) start idx true) else mret ());
              _ ← upd (set_base prev_base); m_err e)
  end.
(** [shm_attach]. *)
Definition shm_attach (id prot : Z) : MM Z :=
  perm ← of_res (prot_to_perm prot);
  m ← m_get;
  if id =? 0 then m_err InvalidArgument
  else match mjoin (SHM_TABLE m !! Z.to_nat (id - 1)) with
  | None => m_err NotFound
  | Some g =>
      _ ← seg_clone g;
      m ← m_get;
      match segs m !! g with
      | None => m_panic
      | Some seg =>
          let prev_base := mmap_base m in
          let len := shm_size seg in
          try_with
            (start ← alloc_mmap_va (sp_sz m) len;
             _ ← attach_loop start perm prev_base 0 (shm_pages seg);
             m ← m_get;
             _ ← upd (set_vmas (vmas m ++ [mkVma start len prot (Z.lor MAP_SHARED MAP_ANON) None 0 (Some g)]));
             mret start)
            mret
            (λ e, _ ← seg_drop g; m_err e)
      end
  end.
End space.
