(* ===== verification/MmapMem.v ===== *)
(** * Lists of mappings

    The mappings of a process as a partial function from pages to what backs
    them, and how cutting a range out of a mapping changes it. *)

From stdpp Require Import base tactics numbers gmap gmultiset list.
From S2P Require Import Prelude Params Errors UserMem PageTable PtSpec UvmMem Mmap.
Local Open Scope Z_scope.

Ltac Zify.zify_post_hook ::= Z.to_euclidean_division_equations.

(** The end of the area for mappings. *)
Definition TOP : Z := user_mem_top NPROC.
Lemma TOP_facts : TOP mod 4096 = 0 ∧ 0 < TOP ∧ TOP + 4096 ≤ MAXVA ∧ MAXVA = 2 ^ 38.
Proof. vm_compute. split_and!; done. Qed.

Record vma_wf (v : Vma) : Prop := {
  vw_start : 0 ≤ v_start v;
  vw_al : v_start v mod 4096 = 0;
  vw_len : 0 < v_len v ≤ TOP;
  vw_top : end_pg v ≤ TOP;
  vw_off : 0 ≤ v_file_off v ∧ v_file_off v + len_pg v ≤ USIZE_MAX;
}.

Lemma pg_small a : 0 ≤ a ≤ TOP → pgroundup a = (a + 4095) / 4096 * 4096.
Proof. intros Ha. destruct TOP_facts as (_&_&?&?). apply pgroundup_alt; lia. Qed.

(** What a mapping says about the page at [va]: permissions, kind, file and
    offset, segment. *)
Abbreviation backing := (Z * Z * option MFile * Z * option nat)%type.
Definition backs (v : Vma) (va : Z) : backing :=
  (v_prot v, v_flags v, v_file v, v_file_off v + (va / 4096 * 4096 - v_start v), v_shm v).
Fixpoint view (vs : list Vma) (va : Z) : option backing :=
  match vs with
  | [] => None
  | v :: vs => if contains_pg v va then Some (backs v va) else view vs va
  end.

(** Two mappings have no page in common. *)
Definition disj (v w : Vma) : Prop := end_pg v ≤ v_start w ∨ end_pg w ≤ v_start v.
Fixpoint disjoint_all (vs : list Vma) : Prop :=
  match vs with [] => True | v :: vs => Forall (disj v) vs ∧ disjoint_all vs end.

Lemma contains_pg_spec v va : contains_pg v va = true ↔ v_start v ≤ va < end_pg v.
Proof. unfold contains_pg. rewrite andb_true_iff, Z.leb_le, Z.ltb_lt. done. Qed.

Lemma contains_pg_false v va : contains_pg v va = false ↔ ¬ v_start v ≤ va < end_pg v.
Proof. rewrite <-contains_pg_spec. by destruct (contains_pg v va). Qed.

Lemma view_app l1 l2 va : view (l1 ++ l2) va = match view l1 va with Some b => Some b | None => view l2 va end.
Proof. induction l1 as [|v l1 IH]; [done|]. simpl. by destruct (contains_pg v va). Qed.

Lemma view_None vs va : view vs va = None ↔ Forall (λ v, contains_pg v va = false) vs.
Proof.
  induction vs as [|v vs IH]; simpl; [by split|]. rewrite Forall_cons, <-IH.
  destruct (contains_pg v va); naive_solver.
Qed.

Lemma disj_sym v w : disj v w → disj w v.
Proof. unfold disj. tauto. Qed.

Lemma disjoint_app l1 l2 :
  disjoint_all (l1 ++ l2) ↔ disjoint_all l1 ∧ disjoint_all l2 ∧ Forall (λ v, Forall (disj v) l2) l1.
Proof.
  induction l1 as [|v l1 IH]; simpl.
  { split; [intros H; split; [done|split; [done|constructor]]|by intros (_&?&_)]. }
  rewrite Forall_app, IH, Forall_cons. tauto.
Qed.

(** Replacing a mapping by parts of it keeps the rest disjoint from them. *)
Definition inside (w v : Vma) : Prop := v_start v ≤ v_start w ∧ end_pg w ≤ end_pg v.
Lemma disj_inside v w u : inside w v → disj v u → disj w u.
Proof. unfold inside, disj. lia. Qed.

Lemma disjoint_replace l1 v rest l2 :
  disjoint_all (l1 ++ v :: l2) → Forall (λ w, inside w v) rest → disjoint_all rest →
  disjoint_all (l1 ++ rest ++ l2).
Proof.
  rewrite !disjoint_app. simpl. intros (D1&(D2&D3)&D4) Hin Hr. split_and!; [done|done|done| |].
  - eapply Forall_impl; [exact Hin|]. intros w Hw. eapply Forall_impl; [exact D2|]. intros u. by apply disj_inside.
  - eapply Forall_impl; [exact D4|]. intros u Hu. apply Forall_cons in Hu as [Hu1 Hu2]. apply Forall_app. split; [|done].
    eapply Forall_impl; [exact Hin|]. intros w Hw. apply disj_sym, (disj_inside v); [done|by apply disj_sym].
Qed.

Section vma.
Context (v : Vma) (Hv : vma_wf v).

Lemma len_pg_alt : len_pg v = (v_len v + 4095) / 4096 * 4096.
Proof using Hv. destruct Hv. apply pg_small. lia. Qed.

Lemma end_pg_al : end_pg v mod 4096 = 0 ∧ v_start v < end_pg v ∧ len_pg v mod 4096 = 0.
Proof using Hv. pose proof len_pg_alt as E. destruct Hv. unfold end_pg. lia. Qed.

(** ** Cutting *)

Lemma cut_part w : v_start w mod 4096 = 0 → v_start v ≤ v_start w → 0 < v_len w ≤ v_len v →
  v_start w + (v_len w + 4095) / 4096 * 4096 ≤ end_pg v →
  v_file_off w = v_file_off v + (v_start w - v_start v) →
  vma_wf w ∧ inside w v ∧ end_pg w = v_start w + (v_len w + 4095) / 4096 * 4096.
Proof using Hv.
  intros H1 H2 H3 H4 H5. destruct Hv as [V1 V2 V3 V4 V5].
  assert (E : len_pg w = (v_len w + 4095) / 4096 * 4096) by (apply pg_small; lia).
  assert (E2 : end_pg w = v_start w + (v_len w + 4095) / 4096 * 4096) by (unfold end_pg; by rewrite E).
  split_and!; [|split; lia|done]. split; [lia|done|lia|lia|]. rewrite H5, E. unfold end_pg in *. lia.
Qed.

Context (a b : Z) (Ha : v_start v ≤ a) (Hab : a < b) (Hb : b ≤ end_pg v) (Hal : a mod 4096 = 0) (Hbl : b mod 4096 = 0).

(** The pages outside the range stay as they are, the others go. *)
Lemma vma_cut_spec : ∃ rest, vma_cut v a b = Ok rest ∧
  Forall vma_wf rest ∧ Forall (λ w, inside w v) rest ∧ Forall (λ w, v_shm w = v_shm v) rest ∧ disjoint_all rest ∧
  Forall (λ w, end_pg w ≤ a ∨ b ≤ v_start w) rest ∧
  (∀ va, view rest va = if decide (a ≤ va < b) then None else view [v] va) ∧
  (rest = [] ↔ a = v_start v ∧ b = end_pg v).
Proof using All.
  pose proof len_pg_alt as E. pose proof end_pg_al as (E1&E2&E3). destruct Hv as [V1 V2 V3 V4 V5].
  assert (Epg : end_pg v = v_start v + (v_len v + 4095) / 4096 * 4096) by (unfold end_pg; by rewrite E).
  assert (Hadd : ∀ x, v_start v ≤ x ≤ end_pg v → usize_add (v_file_off v) (x - v_start v) = Ok (v_file_off v + (x - v_start v))).
  { intros x Hx. unfold usize_add. rewrite (proj2 (Z.leb_le _ _)); [done|]. unfold end_pg in Hx. lia. }
  unfold vma_cut. destruct (Z.eqb_spec a (v_start v)) as [->|Hne]; cbn [andb].
  - destruct (Z.eqb_spec b (end_pg v)) as [->|Hne2].
    { exists []. split_and!; [done|constructor..|done|done| |done]. intros va. simpl. unfold contains_pg.
      case_decide; [done|]. destruct (Z.leb_spec (v_start v) va), (Z.ltb_spec va (end_pg v)); try done; lia. }
    rewrite Hadd by lia. cbn [mbind outcome_bind].
    set (w := mkVma _ _ _ _ _ _ _). destruct (cut_part w) as (W1&W2&W3); [done|simpl; lia|simpl; lia|simpl; lia|done|].
    assert (Ew : end_pg w = end_pg v) by (rewrite W3; simpl; lia).
    exists [w]. split; [done|]. rewrite !Forall_singleton. split_and!; [done|done|done|split; [apply List.Forall_nil|done]|simpl; lia| |split; [done|lia]].
    + intros va. simpl. unfold contains_pg. rewrite Ew. simpl.
      destruct (Z.leb_spec b va), (Z.leb_spec (v_start v) va), (Z.ltb_spec va (end_pg v)), (decide (v_start v ≤ va < b));
        try done; try lia; simpl. unfold backs. simpl. do 3 f_equal. lia.
  - destruct (Z.eqb_spec b (end_pg v)) as [->|Hne2].
    { set (w := mkVma _ _ _ _ _ _ _). destruct (cut_part w) as (W1&W2&W3); [done|simpl; lia|simpl; lia|simpl; lia|simpl; lia|].
      assert (Ew : end_pg w = a) by (rewrite W3; simpl; lia).
      exists [w]. split; [done|]. rewrite !Forall_singleton. split_and!; [done|done|done|split; [apply List.Forall_nil|done]|lia| |split; [done|lia]].
      + intros va. simpl. unfold contains_pg. rewrite Ew. simpl.
        destruct (Z.leb_spec (v_start v) va), (Z.ltb_spec va a), (Z.ltb_spec va (end_pg v)), (decide (a ≤ va < end_pg v));
          try done; lia. }
    rewrite Hadd by lia. cbn [mbind outcome_bind].
    set (w1 := mkVma (v_start v) _ _ _ _ _ _). set (w2 := mkVma b _ _ _ _ _ _).
    destruct (cut_part w1) as (W1&W2&W3); [done|simpl; lia|simpl; lia|simpl; lia|simpl; lia|].
    destruct (cut_part w2) as (X1&X2&X3); [done|simpl; lia|simpl; lia|simpl; lia|simpl; lia|].
    assert (Ew1 : end_pg w1 = a) by (rewrite W3; simpl; lia).
    assert (Ew2 : end_pg w2 = end_pg v) by (rewrite X3; simpl; lia).
    exists [w1; w2]. split; [done|]. rewrite !Forall_cons.
    split_and!; [done|done|constructor|done|done|constructor|done|done|constructor| |lia|simpl; lia|constructor| |split; [done|lia]].
    + simpl. rewrite Forall_singleton. split_and!; [left; simpl; lia|constructor|done].
    + intros va. simpl. unfold contains_pg. rewrite Ew1, Ew2. simpl.
      destruct (Z.leb_spec (v_start v) va), (Z.ltb_spec va a), (Z.leb_spec b va), (Z.ltb_spec va (end_pg v)), (decide (a ≤ va < b));
        try done; try lia; simpl. unfold backs. simpl. do 3 f_equal. lia.
Qed.
End vma.

(** * Ownership of physical pages

    The accounting behind memory mappings.  [mem_ok own L B root s]: the page
    table at [root] is well formed; every page has at least as many references
    counted as the multiset [L] holds, so it is allocated; the pages of [B]
    are private buffers; and free pages are unused.  Taking and giving back
    references, mapping and unmapping move pages between these. *)

Ltac Zify.zify_post_hook ::= Z.to_euclidean_division_equations.

Definition page_at (s : Phys) (pa : Z) : Prop := ∃ d, ph_pages s !! pa = Some d ∧ length d = 4096%nat.

Record mem_ok (own : gmap Z (nat * Z)) (L : gmultiset Z) (B : list Z) (root : Z) (s : Phys) : Prop := {
  mo_wf : pt_wf root own s;
  mo_led pa : pa ∈ L → pa2idx_ok pa = true ∧ Z.of_nat (multiplicity pa L) ≤ pref s pa ∧ own !! pa = None ∧ page_at s pa;
  mo_free p : p ∈ ph_free s → ph_pages s !! p = None ∧ pref s p = 0 ∧ pa2idx_ok p = true;
  mo_bufs : NoDup B;
  mo_buf p : p ∈ B → pa2idx_ok p = true ∧ pref s p = 0 ∧ own !! p = None ∧ page_at s p;
}.

Lemma pa2idx_aligned pa : pa2idx_ok pa = true → pa mod 4096 = 0.
Proof. unfold pa2idx_ok. rewrite !andb_true_iff. intros [_ H]. by apply Z.eqb_eq in H. Qed.

Lemma page_not_free own L B root s p : mem_ok own L B root s → page_at s p → p ∉ ph_free s.
Proof. intros H (d&Hd&_) Hp. apply (mo_free _ _ _ _ _ H) in Hp as [Hn _]. congruence. Qed.

(** A page with a reference is not a buffer. *)
Lemma led_not_buf own L B root s p : mem_ok own L B root s → p ∈ L → p ∉ B.
Proof.
  intros H Hp Hb. apply (mo_led _ _ _ _ _ H) in Hp as Hl. apply (mo_buf _ _ _ _ _ H) in Hb as (_&Hr&_).
  destruct Hl as (_&Hm&_). rewrite Hr in Hm. rewrite elem_of_multiplicity in Hp. lia.
Qed.

Lemma pt_wf_free_cons root own s s' p : ph_tables s' = ph_tables s → ph_free s' = p :: ph_free s →
  pt_wf root own s → own !! p = None → p mod 4096 = 0 → p ∉ ph_free s → pt_wf root own s'.
Proof.
  intros Ht Hf [W1 W2 W3 W4] Ho Hal Hp. split; [done|by rewrite Ht|rewrite Hf|rewrite Hf; by constructor].
  intros q [->|Hq]%elem_of_cons; [done|by apply W3].
Qed.

Lemma pt_wf_same root own s s' : ph_tables s' = ph_tables s → ph_free s' = ph_free s → pt_wf root own s → pt_wf root own s'.
Proof. intros Ht Hf [W1 W2 W3 W4]. split; [done| |by rewrite Hf|by rewrite Hf]. by rewrite Ht. Qed.

Lemma pref_insert s pa n q : pref (set_refs (<[pa := n]> (ph_refs s)) s) q = if decide (q = pa) then n else pref s q.
Proof.
  unfold pref. simpl. case_decide as E; [subst; by rewrite lookup_insert_eq|by rewrite lookup_insert_ne].
Qed.

(** Weakening the ledger. *)
Lemma mem_ok_sub own L L' B root s : L' ⊆ L → mem_ok own L B root s → mem_ok own L' B root s.
Proof.
  intros Hs [W H1 H2 H3 H4]. split; [done| |done|done|done]. intros pa Hpa. pose proof (Hs pa) as Hm.
  destruct (H1 pa) as (A1&A2&A3&A4); [rewrite elem_of_multiplicity in Hpa |- *; lia|].
  split_and!; [done|lia|done|done].
Qed.

Lemma mult_add (q : Z) L pa : multiplicity q (L ⊎ {[+ pa +]}) = (multiplicity q L + if decide (q = pa) then 1 else 0)%nat.
Proof. by rewrite multiplicity_disj_union, multiplicity_singleton. Qed.

(** ** Giving a reference back *)

Definition release (pa : Z) : VM () := r ← page_ref_dec pa; if r =? 0 then drop_page pa else mret ().

Lemma release_frees pa s r s' : release pa s = (r, s') → (length (ph_free s) ≤ length (ph_free s'))%nat.
Proof.
  unfold release, page_ref_dec, drop_page, mbind, M_bind. destruct (_ && _); [|by intros [= _ <-]].
  destruct (_ =? _); intros [= _ <-]; simpl; lia.
Qed.

Lemma release_spec own L B root s pa :
  mem_ok own (L ⊎ {[+ pa +]}) B root s →
  ∃ s', release pa s = (Ok (), s') ∧ mem_ok own L B root s' ∧ ph_tables s' = ph_tables s ∧
    ∀ q, q ∈ L ∨ q ∈ B → ph_pages s' !! q = ph_pages s !! q.
Proof.
  intros H. pose proof H as [W H1 H2 H3 H4].
  assert (Hin : pa ∈ L ⊎ {[+ pa +]}) by multiset_solver.
  destruct (H1 pa Hin) as (Hidx&Hm&Ho&Hpg). rewrite mult_add, decide_True in Hm by done.
  pose proof (led_not_buf _ _ _ _ _ _ H Hin) as Hnb.
  assert (Hsub : ∀ q, q ∈ L → pa2idx_ok q = true ∧ Z.of_nat (multiplicity q (L ⊎ {[+ pa +]})) ≤ pref s q ∧ own !! q = None ∧ page_at s q)
    by (intros q Hq; apply H1; multiset_solver).
  assert (Hne : (pref s pa =? 0) = false) by (apply Z.eqb_neq; lia).
  unfold release, page_ref_dec, mbind, M_bind. cbv beta. rewrite Hidx, Hne. cbn [andb negb].
  set (s1 := set_refs (<[pa := pref s pa - 1]> (ph_refs s)) s).
  assert (Hp1 : ∀ q, pref s1 q = if decide (q = pa) then pref s pa - 1 else pref s q) by (intros; apply pref_insert).
  destruct (Z.eqb_spec (pref s pa - 1) 0) as [Hz|Hz].
  - (* the last reference: the page is freed *)
    assert (HpL : pa ∉ L) by (intros Hq; rewrite elem_of_multiplicity in Hq; lia).
    eexists. split; [reflexivity|]. split_and!; [|done|].
    + split; simpl.
      * apply (pt_wf_free_cons _ _ s _ pa); [done|done|done|done|by apply pa2idx_aligned|].
        by apply (page_not_free _ _ _ _ _ _ H).
      * intros q Hq. destruct (Hsub q Hq) as (A1&A2&A3&(d&Hd&Hl)). assert (q ≠ pa) by (intros ->; done).
        rewrite mult_add, decide_False in A2 by done. split_and!; [done| |done|].
        -- change (Z.of_nat (multiplicity q L) ≤ pref s1 q). rewrite Hp1, decide_False by done. lia.
        -- exists d. simpl. by rewrite lookup_delete_ne.
      * intros q [->|Hq]%elem_of_cons.
        -- rewrite lookup_delete_eq. split_and!; [done| |done]. change (pref s1 pa = 0). by rewrite Hp1, decide_True.
        -- destruct (H2 q Hq) as (A1&A2&A3). assert (q ≠ pa) by (intros ->; destruct Hpg as (d&Hd&_); congruence).
           rewrite lookup_delete_ne by done. split_and!; [done| |done]. change (pref s1 q = 0). by rewrite Hp1, decide_False.
      * done.
      * intros q Hq. destruct (H4 q Hq) as (A1&A2&A3&(d&Hd&Hl)). assert (q ≠ pa) by (intros ->; done).
        split_and!; [done| |done|exists d; simpl; by rewrite lookup_delete_ne].
        change (pref s1 q = 0). by rewrite Hp1, decide_False.
    + intros q Hq. simpl. rewrite lookup_delete_ne; [done|]. intros <-. by destruct Hq.
  - exists s1. split; [done|]. split_and!; [|done|done]. split; [by apply (pt_wf_same _ _ s)| | |done|].
    + intros q Hq. destruct (Hsub q Hq) as (A1&A2&A3&A4). split_and!; [done| |done|done]. rewrite Hp1.
      rewrite mult_add in A2. case_decide; [subst; lia|lia].
    + intros q Hq. destruct (H2 q Hq) as (A1&A2&A3). split_and!; [done| |done]. rewrite Hp1.
      case_decide as E; [|done]. subst. destruct Hpg as (d&Hd&_). congruence.
    + intros q Hq. destruct (H4 q Hq) as (A1&A2&A3&A4). split_and!; [done| |done|done]. rewrite Hp1.
      case_decide as E; [|done]. subst. done.
Qed.

(** ** Buffers *)

Lemma mem_ok_perm own L B B' root s : B ≡ₚ B' → mem_ok own L B root s → mem_ok own L B' root s.
Proof.
  intros HB [W H1 H2 H3 H4]. split; [done|done|done|by rewrite <-HB|]. intros p Hp. apply H4. by rewrite HB.
Qed.

Lemma new_page_spec own L B root s p f :
  mem_ok own L B root s → ph_free s = p :: f →
  ∃ s', new_page s = (Ok (Some p), s') ∧ mem_ok own L (p :: B) root s' ∧ ph_tables s' = ph_tables s ∧
    ph_pages s' = <[p := zero_page]> (ph_pages s) ∧ ph_free s' = f ∧ ph_pages s !! p = None ∧ ph_refs s' = ph_refs s.
Proof.
  intros H Hf. pose proof H as [W H1 H2 H3 H4]. unfold new_page. rewrite Hf.
  destruct (H2 p) as (Hn&Hr&Hidx); [rewrite Hf; by left|]. destruct (pw_free _ _ _ W p) as [Ho _]; [rewrite Hf; by left|].
  assert (Hpp : ∀ q, page_at s q → page_at (set_free f (set_pages (<[p := zero_page]> (ph_pages s)) s)) q).
  { intros q (d&Hd&Hl). exists d. simpl. rewrite lookup_insert_ne; [done|congruence]. }
  eexists. split; [reflexivity|]. split_and!; [|done..]. split; simpl.
  - destruct W as [W1 W2 W3 W4]. split; [done|done| |]; simpl.
    + intros q Hq. apply W3. rewrite Hf. by right.
    + rewrite Hf in W4. by inversion W4.
  - intros q Hq. destruct (H1 q Hq) as (A1&A2&A3&A4). split_and!; [done|done|done|by apply Hpp].
  - intros q Hq. destruct (H2 q) as (A1&A2&A3); [rewrite Hf; by right|]. rewrite lookup_insert_ne; [done|].
    intros <-. pose proof (pw_nodup _ _ _ W) as Hnd. rewrite Hf in Hnd. by inversion Hnd.
  - constructor; [|done]. intros Hb. destruct (H4 p Hb) as (_&_&_&(d&Hd&_)). congruence.
  - intros q [->|Hq]%elem_of_cons.
    + split_and!; [done|done|done|]. exists zero_page. simpl. rewrite lookup_insert_eq. split; [done|apply length_zero_page].
    + destruct (H4 q Hq) as (A1&A2&A3&A4). split_and!; [done|done|done|by apply Hpp].
Qed.

Lemma put_page_spec own L B root s p d :
  mem_ok own L B root s → p ∈ B → length d = 4096%nat →
  ∃ s', put_page p d s = (Ok (), s') ∧ mem_ok own L B root s' ∧ ph_tables s' = ph_tables s ∧
    ph_pages s' = <[p := d]> (ph_pages s) ∧ ph_free s' = ph_free s ∧ ph_refs s' = ph_refs s.
Proof.
  intros H Hp Hl. pose proof H as [W H1 H2 H3 H4]. eexists. split; [reflexivity|]. split_and!; [|done..].
  assert (Hpp : ∀ q, page_at s q → page_at (set_pages (<[p := d]> (ph_pages s)) s) q).
  { intros q (e&He&Hle). unfold page_at. simpl. destruct (decide (q = p)) as [->|]; [rewrite lookup_insert_eq; by eauto|].
    rewrite lookup_insert_ne by done. by exists e. }
  split; [by apply (pt_wf_same _ _ s)| | |done|].
  - intros q Hq. destruct (H1 q Hq) as (A1&A2&A3&A4). split_and!; [done|done|done|by apply Hpp].
  - intros q Hq. destruct (H2 q Hq) as (A1&A2&A3). simpl. rewrite lookup_insert_ne; [done|].
    intros <-. destruct (H4 p Hp) as (_&_&_&(e&He&_)). congruence.
  - intros q Hq. destruct (H4 q Hq) as (A1&A2&A3&A4). split_and!; [done|done|done|by apply Hpp].
Qed.

Lemma drop_page_spec own L B root s p :
  mem_ok own L (p :: B) root s →
  ∃ s', drop_page p s = (Ok (), s') ∧ mem_ok own L B root s' ∧ ph_tables s' = ph_tables s ∧
    ph_pages s' = delete p (ph_pages s).
Proof.
  intros H. pose proof H as [W H1 H2 H3 H4]. destruct (H4 p) as (Hidx&Hr&Ho&Hpg); [by left|].
  apply NoDup_cons in H3 as [HpB H3].
  assert (HpL : p ∉ L) by (intros Hl; apply (led_not_buf _ _ _ _ _ _ H Hl); by left).
  assert (Hpp : ∀ q, q ≠ p → page_at s q → page_at (set_free (p :: ph_free s) (set_pages (delete p (ph_pages s)) s)) q).
  { intros q Hq (e&He&Hle). exists e. simpl. by rewrite lookup_delete_ne. }
  eexists. split; [reflexivity|]. split_and!; [|done..]. split.
  - apply (pt_wf_free_cons _ _ s _ p); [done|done|done|done|by apply pa2idx_aligned|by apply (page_not_free _ _ _ _ _ _ H)].
  - intros q Hq. destruct (H1 q Hq) as (A1&A2&A3&A4). split_and!; [done|done|done|]. apply Hpp; [by intros ->|done].
  - intros q [->|Hq]%elem_of_cons; [simpl; by rewrite lookup_delete_eq|]. destruct (H2 q Hq) as (A1&A2&A3).
    split_and!; [|done|done]. simpl. rewrite lookup_delete_ne; [done|]. intros <-. destruct Hpg as (e&He&_). congruence.
  - done.
  - intros q Hq. destruct (H4 q) as (A1&A2&A3&A4); [by right|]. split_and!; [done|done|done|].
    apply Hpp; [by intros ->|done].
Qed.

(** ** Taking references *)

Lemma page_ref_init_spec own L B root s p :
  mem_ok own L (p :: B) root s →
  ∃ s', page_ref_init p s = (Ok (), s') ∧ mem_ok own (L ⊎ {[+ p +]}) B root s' ∧
    ph_tables s' = ph_tables s ∧ ph_pages s' = ph_pages s ∧ ph_free s' = ph_free s.
Proof.
  intros H. pose proof H as [W H1 H2 H3 H4]. destruct (H4 p) as (Hidx&Hr&Ho&Hpg); [by left|].
  apply NoDup_cons in H3 as [HpB H3]. unfold page_ref_init. rewrite Hidx, Hr. cbn [andb Z.eqb].
  eexists. split; [reflexivity|]. split_and!; [|done..].
  split; [by apply (pt_wf_same _ _ s)| | |done|].
  - intros q Hq. rewrite pref_insert. destruct (decide (q = p)) as [->|Hne].
    + split_and!; [done| |done|done]. rewrite mult_add, decide_True by done.
      enough (multiplicity p L = 0%nat) by lia. apply not_elem_of_multiplicity.
      intros Hl. apply (led_not_buf _ _ _ _ _ _ H Hl). by left.
    + destruct (H1 q) as (A1&A2&A3&A4); [multiset_solver|]. split_and!; [done| |done|done].
      rewrite mult_add, decide_False by done. lia.
  - intros q Hq. rewrite pref_insert. destruct (H2 q Hq) as (A1&A2&A3). case_decide as E; [|done]. subst.
    destruct Hpg as (e&He&_). congruence.
  - intros q Hq. rewrite pref_insert. destruct (H4 q) as (A1&A2&A3&A4); [by right|]. rewrite decide_False; [done|].
    by intros ->.
Qed.

Lemma page_ref_inc_spec own L B root s p :
  mem_ok own L B root s → p ∈ L → pref s p < 2 ^ 16 - 1 →
  ∃ s', page_ref_inc p s = (Ok (), s') ∧ mem_ok own (L ⊎ {[+ p +]}) B root s' ∧
    ph_tables s' = ph_tables s ∧ ph_pages s' = ph_pages s ∧ ph_free s' = ph_free s ∧
    ∀ q, pref s' q = if decide (q = p) then pref s p + 1 else pref s q.
Proof.
  intros H Hp Hlt. pose proof H as [W H1 H2 H3 H4]. destruct (H1 p Hp) as (Hidx&Hm&Ho&Hpg).
  pose proof (led_not_buf _ _ _ _ _ _ H Hp) as Hnb.
  unfold page_ref_inc. rewrite Hidx, (proj2 (Z.eqb_neq _ _)) by lia. cbn [andb negb].
  eexists. split; [reflexivity|]. split_and!; [|done|done|done|intros q; apply pref_insert].
  split; [by apply (pt_wf_same _ _ s)| | |done|].
  - intros q Hq. rewrite pref_insert, mult_add. case_decide as E; [subst; split_and!; [done|lia|done|done]|].
    destruct (H1 q) as (A1&A2&A3&A4); [multiset_solver|]. split_and!; [done|lia|done|done].
  - intros q Hq. rewrite pref_insert. destruct (H2 q Hq) as (A1&A2&A3). case_decide as E; [|done]. subst.
    destruct Hpg as (e&He&_). congruence.
  - intros q Hq. rewrite pref_insert. rewrite decide_False; [by apply H4|]. by intros ->.
Qed.

(** ** Mapping and unmapping one page *)

Lemma map_page_spec own L B root s va pa perm :
  mem_ok own L B root s → 0 ≤ va → va mod 4096 = 0 → va + 4096 ≤ MAXVA → is_v (pte_at s root va) = false →
  ∃ own' s' (ok : bool), mappages root va pa PGSIZE perm s = ((if ok then Ok () else Err OutOfMemory), s') ∧
    mem_ok own' L B root s' ∧ ph_pages s' = ph_pages s ∧ ph_refs s' = ph_refs s ∧
    ∀ x, 0 ≤ x < MAXVA → pte_at s' root x =
      if ok && (x / 4096 =? va / 4096) then pte_set pa (Z.lor perm PTE_V) else pte_at s root x.
Proof.
  intros H Hva Hal Hmax Hinv. pose proof H as [W H1 H2 H3 H4]. pose proof Hmax as Hm. change MAXVA with 274877906944 in Hm.
  unfold PGSIZE. rewrite mappages_loop_of by lia. replace (va / 4096 * 4096) with va by lia.
  replace (Z.to_nat _) with 0%nat by lia.
  destruct (mappages_loop_spec root 0 own s va pa perm W Hva Hal) as (own'&s'&j&Hrun&Hj&W'&_&Hdom&Hpg&Hrf&Hfr&_&Hx).
  { change MAXVA with 274877906944. lia. }
  { intros i Hi. replace (va + Z.of_nat i * 4096) with va by lia. done. }
  exists own', s', (negb (j <=? 0)%nat). split; [rewrite Hrun; by destruct (j <=? 0)%nat|].
  assert (Hown : ∀ q, own !! q = None → page_at s q → own' !! q = None).
  { intros q Hq Hp. apply not_elem_of_dom. intros Hd. destruct (Hdom q Hd) as [Hd'|Hd'].
    - by apply elem_of_dom in Hd' as [? ?]; congruence.
    - by apply (page_not_free _ _ _ _ _ _ H) in Hp. }
  assert (Hpp : ∀ q, page_at s q → page_at s' q) by (unfold page_at; by rewrite Hpg).
  assert (Hpr : ∀ q, pref s' q = pref s q) by (intros; unfold pref; by rewrite Hrf).
  split_and!; [|done|done|].
  - split; [done| | |done|].
    + intros q Hq. destruct (H1 q Hq) as (A1&A2&A3&A4). rewrite Hpr. split_and!; [done|done|by apply Hown|by apply Hpp].
    + intros q Hq. rewrite Hpg, Hpr. apply H2. destruct Hfr as [k ->]. apply elem_of_app. by right.
    + intros q Hq. destruct (H4 q Hq) as (A1&A2&A3&A4). rewrite Hpr. split_and!; [done|done|by apply Hown|by apply Hpp].
  - intros x Hxr. rewrite Hx by done. destruct (Nat.leb_spec j 0) as [E|E]; cbn [negb andb].
    + rewrite decide_False by lia. done.
    + assert (j = 1%nat) as -> by lia. destruct (Z.eqb_spec (x / 4096) (va / 4096)).
      * rewrite decide_True by lia. unfold mapped_pte. f_equal. lia.
      * rewrite decide_False by lia. done.
Qed.

(** Whether it succeeds. *)
Lemma map_page_room own root s va pa perm ok s' :
  pt_wf root own s → 0 ≤ va → va mod 4096 = 0 → va + 4096 ≤ MAXVA →
  mappages root va pa PGSIZE perm s = ((if (ok : bool) then Ok () else Err OutOfMemory), s') →
  ok = (missing s root va <=? length (ph_free s))%nat.
Proof.
  intros W Hva Hal Hmax Hrun. change MAXVA with 274877906944 in Hmax.
  unfold PGSIZE in Hrun. rewrite mappages_loop_of in Hrun by (change MAXVA with 274877906944; lia).
  replace (va / 4096 * 4096) with va in Hrun by lia. replace (Z.to_nat _) with 0%nat in Hrun by lia.
  destruct (walk_room root own s va W) as (o&s1&Hw&Ho); [change MAXVA with 274877906944; lia|].
  cbn [mappages_loop] in Hrun. unfold mbind, M_bind in Hrun. rewrite Hw in Hrun. destruct o as [l|].
  - rewrite (proj2 (Nat.leb_le _ _)) by (apply Ho; eauto). destruct ok; [done|exfalso].
    unfold get_pte, put_pte, get_entry, put_entry, mbind, M_bind in Hrun. repeat case_match; simplify_eq.
  - destruct ok; [done|]. symmetry. apply Nat.leb_gt. assert (¬ is_Some (None : option (Z * nat))) as Hn by (by intros []).
    rewrite Ho in Hn. lia.
Qed.

Lemma unmap_page_spec own L B root s va :
  let pte := pte_at s root va in
  mem_ok own (L ⊎ {[+ to_pa pte +]}) B root s → 0 ≤ va → va mod 4096 = 0 → va + 4096 ≤ MAXVA →
  is_v pte = true → is_leaf pte = true →
  ∃ s', unmap root va 1 true s = (Ok (), s') ∧ mem_ok own L B root s' ∧
    (∀ q, q ∈ L ∨ q ∈ B → ph_pages s' !! q = ph_pages s !! q) ∧
    ∀ x, 0 ≤ x < MAXVA → pte_at s' root x = if decide (x / 4096 = va / 4096) then 0 else pte_at s root x.
Proof.
  intros pte H Hva Hal Hmax Hv Hlf. pose proof Hmax as Hm. change MAXVA with 274877906944 in Hm.
  destruct (walk_valid root own s va (mo_wf _ _ _ _ _ H)) as (p&Hw&Hp&Hg); [change MAXVA with 274877906944; lia|done|].
  destruct (release_spec own L B root s (to_pa pte) H) as (s1&Hrel&H1&Ht1&Hpg1).
  assert (Hp1 : path s1 root va = Some p) by (by rewrite (path_tables root s s1)).
  destruct (put_leaf root own s1 (mo_wf _ _ _ _ _ H1) va p 0) as (s2&Hput&W2&Hpte&Hpg2&Hrf2&Hfr2&_);
    [change MAXVA with 274877906944; lia|done|].
  exists s2. split_and!.
  - unfold unmap, is_aligned, PGSIZE. rewrite Hal. cbn [unmap_loop negb Z.eqb].
    rewrite (bind_ok _ _ _ _ _ Hw), (bind_ok _ _ _ _ _ Hg). fold pte. rewrite Hv, Hlf. cbn [negb].
    change (r ← page_ref_dec (to_pa pte); if r =? 0 then drop_page (to_pa pte) else mret ()) with (release (to_pa pte)).
    rewrite (bind_ok _ _ _ _ _ Hrel), (bind_ok _ _ _ _ _ Hput). done.
  - destruct H1 as [_ A1 A2 A3 A4]. assert (Hpr : ∀ q, pref s2 q = pref s1 q) by (intros; unfold pref; by rewrite Hrf2).
    assert (Hpp : ∀ q, page_at s1 q → page_at s2 q) by (unfold page_at; by rewrite Hpg2).
    split; [done| | |done|].
    + intros q Hq. destruct (A1 q Hq) as (?&?&?&?). rewrite Hpr. split_and!; [done|done|done|by apply Hpp].
    + intros q. rewrite Hfr2, Hpg2, Hpr. apply A2.
    + intros q Hq. destruct (A4 q Hq) as (?&?&?&?). rewrite Hpr. split_and!; [done|done|done|by apply Hpp].
  - intros q Hq. rewrite Hpg2. by apply Hpg1.
  - intros x Hx. rewrite Hpte by done. case_decide; [done|]. by apply pte_at_tables.
Qed.
