(* ===== verification/MmapInv.v ===== *)
(** * Unmapping

    The invariant of an address space with memory mappings, and what [munmap]
    does to it. *)

From stdpp Require Import base tactics numbers gmap gmultiset list.
From S2P Require Import Prelude Params Errors UserMem PageTable PtSpec UvmMem Mmap MmapMem.
Local Open Scope Z_scope.
Ltac Zify.zify_post_hook ::= Z.to_euclidean_division_equations.

(** ** References held by resident pages and by segments *)

(** [res] gives the physical page of every resident page of the mappings. *)
Definition rm (res : gmap Z Z) : gmultiset Z := list_to_set_disj (map_to_list res).*2.
Definition sm (g : gmap nat ShmSegment) : gmultiset Z := list_to_set_disj (concat (shm_pages <$> (map_to_list g).*2)).

Lemma rm_insert res a pa : res !! a = None → rm (<[a := pa]> res) = rm res ⊎ {[+ pa +]}.
Proof.
  intros H. unfold rm. rewrite (list_to_set_disj_perm _ ((a, pa) :: map_to_list res).*2).
  - apply (comm (⊎)).
  - by rewrite map_to_list_insert.
Qed.

Lemma rm_delete res a pa : res !! a = Some pa → rm res = rm (delete a res) ⊎ {[+ pa +]}.
Proof. intros H. rewrite <-(rm_insert _ a) by apply lookup_delete_eq. by rewrite insert_delete_id. Qed.

Lemma rm_elem res a pa : res !! a = Some pa → pa ∈ rm res.
Proof. intros H. rewrite (rm_delete _ _ _ H). multiset_solver. Qed.

Lemma sm_insert g i s : g !! i = None → sm (<[i := s]> g) = sm g ⊎ list_to_set_disj (shm_pages s).
Proof.
  intros H. unfold sm. rewrite (list_to_set_disj_perm _ (concat (shm_pages <$> ((i, s) :: map_to_list g).*2))).
  - simpl. rewrite list_to_set_disj_app. apply (comm (⊎)).
  - by rewrite map_to_list_insert.
Qed.

Lemma sm_delete g i s : g !! i = Some s → sm g = sm (delete i g) ⊎ list_to_set_disj (shm_pages s).
Proof. intros H. rewrite <-(sm_insert _ i) by apply lookup_delete_eq. by rewrite insert_delete_id. Qed.

Lemma sm_update g i s s' : g !! i = Some s → shm_pages s' = shm_pages s → sm (<[i := s']> g) = sm g.
Proof.
  intros H E. rewrite (sm_delete g i s H), <-(insert_delete_eq g i), sm_insert by apply lookup_delete_eq. by rewrite E.
Qed.

(** ** The invariant *)

(** The entries of the pages of the mapping area, from [lo] up. *)
Definition res_ok (root : Z) (s : Phys) (lo : Z) (res : gmap Z Z) : Prop :=
  (∀ a, a mod 4096 = 0 → lo ≤ a < TOP →
     let pte := pte_at s root a in
     match res !! a with
     | Some pa => is_v pte = true ∧ is_leaf pte = true ∧ is_u pte = true ∧ to_pa pte = pa
     | None => is_v pte = false
     end) ∧
  (∀ a pa, res !! a = Some pa → a mod 4096 = 0 ∧ lo ≤ a < TOP).

Section inv.
Context {FS : Type}.
Implicit Types m : Space (FS := FS).

Definition lo m : Z := pgroundup (sp_sz m).
Lemma lo_nonneg m : 0 ≤ lo m.
Proof. apply Z.land_nonneg. right. vm_compute. congruence. Qed.

(** Memory part; [p] is the physical memory. *)
Definition pok (own : gmap Z (nat * Z)) (res : gmap Z Z) (B : list Z) m (p : Phys) : Prop :=
  mem_ok own (rm res ⊎ sm (segs m)) B (sp_root m) p ∧ res_ok (sp_root m) p (lo m) res.

(** References to the segment [g] from mappings and from the table. *)
Definition shm_refs (g : nat) m : nat :=
  (length (filter (λ v, v_shm v = Some g) (vmas m)) + length (filter (λ o, o = Some g) (SHM_TABLE m)))%nat.

Record seg_ok m : Prop := {
  so_fresh g seg : segs m !! g = Some seg → (g < next_seg m)%nat;
  so_seg g seg : segs m !! g = Some seg →
    (shm_refs g m ≤ shm_strong seg)%nat ∧ (0 < shm_strong seg)%nat ∧ 0 < shm_size seg ≤ TOP ∧
    pgroundup (shm_size seg) = 4096 * Z.of_nat (length (shm_pages seg));
  so_vma v g : v ∈ vmas m → v_shm v = Some g → ∃ seg, segs m !! g = Some seg ∧ v_len v = shm_size seg;
  so_tab i g : SHM_TABLE m !! i = Some (Some g) → is_Some (segs m !! g);
}.

Record space_ok (own : gmap Z (nat * Z)) (res : gmap Z Z) (B : list Z) m : Prop := {
  sk_mem : pok own res B m (sp_phys m);
  sk_base : mmap_base m mod 4096 = 0 ∧ lo m ≤ mmap_base m ≤ TOP ∧ 0 ≤ sp_sz m ≤ TOP;
  sk_vmas : Forall (λ v, vma_wf v ∧ mmap_base m ≤ v_start v) (vmas m);
  sk_disj : disjoint_all (vmas m);
  sk_cov a pa : res !! a = Some pa → ∃ v, v ∈ vmas m ∧ contains_pg v a = true;
  sk_seg : seg_ok m;
}.

(** The state of an address space between calls. *)
Definition mmap_ok m : Prop := ∃ own res, space_ok own res [] m.

(** ** One page *)

(** The data [munmap] has to write back for the page at [a]. *)
Definition dirty_page (p : Phys) (root : Z) (v : Vma) (a : Z) : list (Z * Z * list Z) :=
  let pte := pte_at p root a in
  match v_file v with
  | Some f =>
      match mf_inode f with
      | Some ip =>
          let n := Z.min (a + 4096) (end_req v) - a in
          if is_v pte && is_leaf pte && is_shared v && negb (is_anon v) && (0 <? n)
          then [(ip, v_file_off v + (a - v_start v), take (Z.to_nat n) (default [] (ph_pages p !! to_pa pte)))]
          else []
      | None => []
      end
  | None => []
  end.
Definition wb_data (p : Phys) (w : Writeback) : Z * Z * list Z :=
  (wb_ip w, wb_file_off w, take (wb_len w) (drop (wb_data_off w) (default [] (ph_pages p !! wb_page w)))).

(** Why copying the pages [ds] fails with [free] pages: no page is left for a
    copy, or an offset does not fit in 32 bits. *)
Definition save_fails (free : nat) (ds : list (Z * Z * list Z)) (e : Error) : Prop :=
  e = OutOfMemory ∧ (free < length ds)%nat ∨ e = InvalidArgument ∧ Exists (λ d, 2 ^ 32 - 1 < d.1.2) ds.

(** Copies of [ds1] have been made before. *)
Lemma save_fails_app free free' ds1 ds2 e : (free ≤ free' + length ds1)%nat → save_fails free' ds2 e → save_fails free (ds1 ++ ds2) e.
Proof.
  intros Hf [[-> H]|[-> H]]; [left; rewrite length_app; split; [done|lia]|right]. split; [done|]. apply Exists_app. by right.
Qed.
Lemma save_fails_more free ds1 ds2 e : save_fails free ds1 e → save_fails free (ds1 ++ ds2) e.
Proof. intros [[-> H]|[-> H]]; [left; rewrite length_app; split; [done|lia]|right]. split; [done|]. apply Exists_app. by left. Qed.

(** The number of free pages. *)
Definition frees m : nat := length (ph_free (sp_phys m)).

Lemma set_phys_id m : set_phys (sp_phys m) m = m.
Proof. by destruct m. Qed.

Lemma vm_run {A} (x : VM A) m r p : x (sp_phys m) = (r, p) → vm x m = (r, set_phys p m).
Proof. unfold vm. by intros ->. Qed.

(** [x] runs without changing the memory. *)
Lemma vm_read {A} (x : VM A) m r : x (sp_phys m) = (r, sp_phys m) → vm x m = (r, m).
Proof. intros H. rewrite (vm_run x m r _ H). by rewrite set_phys_id. Qed.

Lemma save_page_spec own res B m v a pa :
  pok own res B m (sp_phys m) → vma_wf v → v_start v ≤ a → a + 4096 ≤ end_pg v → res !! a = Some pa →
  let pte := pte_at (sp_phys m) (sp_root m) a in
  is_v pte = true → is_leaf pte = true → to_pa pte = pa →
  (∃ e, save_page v a pte m = (Err e, m) ∧ save_fails (frees m) (dirty_page (sp_phys m) (sp_root m) v a) e) ∨
  ∃ w p', save_page v a pte m = (Ok w, set_phys p' m) ∧ mem_ok own (rm res ⊎ sm (segs m)) (B ++ (wb_page <$> w)) (sp_root m) p' ∧
    ph_tables p' = ph_tables (sp_phys m) ∧ (wb_data p' <$> w) = dirty_page (sp_phys m) (sp_root m) v a ∧
    (frees m ≤ length (ph_free p') + length w)%nat ∧
    ∀ q, page_at (sp_phys m) q → ph_pages p' !! q = ph_pages (sp_phys m) !! q.
Proof.
  intros [Hm Hr] Hv Ha1 Ha2 Hres pte Hpv Hpl Hpa. pose proof (end_pg_al v Hv) as (E1&E2&E3).
  assert (Hnone : dirty_page (sp_phys m) (sp_root m) v a = [] → ∃ w p', (mret [] : M Error Space (list Writeback)) m = (Ok w, set_phys p' m) ∧
    mem_ok own (rm res ⊎ sm (segs m)) (B ++ (wb_page <$> w)) (sp_root m) p' ∧
    ph_tables p' = ph_tables (sp_phys m) ∧ (wb_data p' <$> w) = dirty_page (sp_phys m) (sp_root m) v a ∧
    (frees m ≤ length (ph_free p') + length w)%nat ∧
    ∀ q, page_at (sp_phys m) q → ph_pages p' !! q = ph_pages (sp_phys m) !! q).
  { intros Hd. exists [], (sp_phys m). rewrite set_phys_id, app_nil_r, Hd. split_and!; [done..|unfold frees; simpl; lia|done]. }
  unfold dirty_page in *. fold pte in Hnone |- *. unfold save_page. rewrite Hpv, Hpl in *.
  destruct (v_file v) as [f|]; [|right; by apply Hnone]. destruct (mf_inode f) as [ip|]; [|right; by apply Hnone].
  destruct (is_shared v && negb (is_anon v)) eqn:Hsh; cycle 1.
  { right. rewrite andb_true_l, Hsh in *. by apply Hnone. }
  rewrite andb_true_l, Hsh in *. replace (Z.max a (v_start v)) with a by lia. unfold PGSIZE.
  destruct (Z.ltb_spec a (Z.min (a + 4096) (end_req v))) as [Hlt|Hge]; cycle 1.
  { right. rewrite (proj2 (Z.ltb_ge _ _)) in * by lia. by apply Hnone. }
  clear Hnone. rewrite (proj2 (Z.ltb_lt 0 _)) by lia. cbn [andb].
  assert (Hle : v_file_off v + (a - v_start v) ≤ USIZE_MAX) by (destruct Hv as [V1 V2 V3 V4 V5]; unfold end_pg in Ha2; lia).
  assert (Hfo : usize_add (v_file_off v) (a - v_start v) = Ok (v_file_off v + (a - v_start v))).
  { unfold usize_add. by rewrite (proj2 (Z.leb_le _ _)). }
  assert (Hfo2 : usize_add (v_file_off v + (a - v_start v)) (a - a) = Ok (v_file_off v + (a - v_start v))).
  { unfold usize_add. by rewrite Z.sub_diag, Z.add_0_r, (proj2 (Z.leb_le _ _)). }
  rewrite Hfo. rewrite (bind_ok (of_res _) _ _ _ _ eq_refl), Hfo2, (bind_ok (of_res _) _ _ _ _ eq_refl).
  destruct (Z.ltb_spec (2 ^ 32 - 1) (v_file_off v + (a - v_start v))).
  { left. eexists. split; [done|]. right. split; [done|]. by constructor. }
  destruct (ph_free (sp_phys m)) as [|buf fr] eqn:Hfree.
  { left. exists OutOfMemory. rewrite (bind_ok _ _ m None m); [split; [done|left; unfold frees; rewrite Hfree; simpl; split; [done|lia]]|].
    apply vm_read. unfold new_page. by rewrite Hfree. }
  destruct (new_page_spec _ _ _ _ _ buf fr Hm Hfree) as (p1&Hrun1&Hm1&Ht1&Hp1&Hf1&Hno1&_).
  destruct (mo_led _ _ _ _ _ Hm pa) as (_&_&_&(d&Hd&Hld)); [apply gmultiset_elem_of_disj_union; left; by eapply rm_elem|].
  rewrite (bind_ok _ _ _ _ _ (vm_run _ _ _ _ Hrun1)).
  assert (Hget : get_page (to_pa pte) (sp_phys (set_phys p1 m)) = (Ok d, sp_phys (set_phys p1 m))).
  { unfold get_page. simpl. rewrite Hp1, Hpa, lookup_insert_ne by congruence. by rewrite Hd. }
  rewrite (bind_ok _ _ _ _ _ (vm_read _ _ _ Hget)).
  destruct (put_page_spec _ _ _ _ p1 buf d Hm1) as (p2&Hrun2&Hm2&Ht2&Hp2&Hf2&_); [by left|done|].
  rewrite (bind_ok _ _ _ _ _ (vm_run (put_page buf d) (set_phys p1 m) _ _ Hrun2)).
  right. eexists _, p2. split; [reflexivity|]. split_and!.
  - eapply mem_ok_perm; [|exact Hm2]. simpl. by rewrite Permutation_app_comm.
  - by rewrite Ht2.
  - simpl. unfold wb_data. simpl. rewrite Hp2, lookup_insert_eq, Hpa, Hd, Z.sub_diag. done.
  - unfold frees. rewrite Hf2, Hf1, Hfree. simpl. lia.
  - intros q (e&He&_). rewrite Hp2, Hp1. rewrite !lookup_insert_ne by congruence. done.
Qed.

(** What changes outside the pages from [a] to [b]. *)
Record frame_phys (own : gmap Z (nat * Z)) (res' : gmap Z Z) (B : list Z) m (p p' : Phys) (a b : Z) : Prop := {
  fp_pte x : 0 ≤ x < MAXVA → ¬ a ≤ x < b → pte_at p' (sp_root m) x = pte_at p (sp_root m) x;
  fp_pages q : q ∈ rm res' ⊎ sm (segs m) ∨ q ∈ B → ph_pages p' !! q = ph_pages p !! q;
}.

Lemma walk_step_read va l pt p r p' : walk_step va false l pt p = (r, p') → p' = p.
Proof.
  unfold walk_step, get_entry, mbind, M_bind. destruct (ph_tables p !! pt); [|by intros [= _ <-]].
  destruct (_ !! _); [|by intros [= _ <-]]. by destruct (is_v _); intros [= _ <-].
Qed.
Lemma walk_read root va p r p' : walk root va false p = (r, p') → p' = p.
Proof.
  unfold walk, mbind, M_bind. destruct (_ <=? _); [by intros [= _ <-]|].
  destruct (walk_step va false 2 root p) as [[[p1|]|e|] s1] eqn:E1; apply walk_step_read in E1 as ->; try by intros [= _ <-].
  destruct (walk_step va false 1 p1 p) as [[[p0|]|e|] s2] eqn:E2; apply walk_step_read in E2 as ->; try by intros [= _ <-].
  unfold get_entry. destruct (ph_tables p !! p0); by intros [= _ <-].
Qed.
Lemma unmap_frees root a p r p' : unmap root a 1 true p = (Ok r, p') → (length (ph_free p) ≤ length (ph_free p'))%nat.
Proof.
  unfold unmap. destruct (negb _); [done|]. cbn [unmap_loop]. unfold mbind, M_bind.
  destruct (walk root a false p) as [[[l|]|e|] p1] eqn:Hw; [|done..].
  apply walk_read in Hw as ->.
  destruct (get_pte l p) as [[pte|e|] p2] eqn:Hg; [|done..].
  assert (p2 = p) as ->.
  { unfold get_pte, get_entry, mbind, M_bind in Hg. destruct (ph_tables p !! l.1); [|done]. destruct (_ !! _); [|done]. by injection Hg. }
  destruct (negb _); [done|]. destruct (negb _); [done|].
  destruct (release (to_pa pte) p) as [[[]|e|] p3] eqn:Hr; unfold release, mbind, M_bind in Hr; rewrite Hr; [|done..]. pose proof (release_frees _ _ _ _ Hr).
  destruct (put_pte l 0 p3) as [[[]|e|] p4] eqn:Hp; [|done..]. intros [= _ <-].
  enough (ph_free p4 = ph_free p3) as -> by done. unfold put_pte, put_entry in Hp. destruct (ph_tables p3 !! l.1); [|done]. by injection Hp as <-.
Qed.

Lemma munmap_page_spec own res B m v a :
  pok own res B m (sp_phys m) → vma_wf v → lo m ≤ v_start v → a mod 4096 = 0 → v_start v ≤ a → a + 4096 ≤ end_pg v →
  (∃ e, munmap_page v a m = (Err e, m) ∧ save_fails (frees m) (dirty_page (sp_phys m) (sp_root m) v a) e) ∨
  ∃ w p', munmap_page v a m = (Ok w, set_phys p' m) ∧ pok own (delete a res) (B ++ (wb_page <$> w)) m p' ∧
    (wb_data p' <$> w) = dirty_page (sp_phys m) (sp_root m) v a ∧
    (frees m ≤ length (ph_free p') + length w)%nat ∧
    frame_phys own (delete a res) B m (sp_phys m) p' a (a + 4096).
Proof.
  intros Hpok Hv Hlo Hal Ha1 Ha2. pose proof Hpok as [Hm [Hr1 Hr2]]. pose proof (end_pg_al v Hv) as (E1&E2&E3).
  destruct TOP_facts as (_&_&HT&_). pose proof (lo_nonneg m). pose proof (vw_top v Hv) as Htop. pose proof (vw_start v Hv) as Hs0.
  pose proof (Hr1 a Hal ltac:(lia)) as Hra. cbv zeta in Hra.
  assert (Hwalk := walk_noalloc _ _ _ (mo_wf _ _ _ _ _ Hm) a ltac:(lia)).
  assert (Hsame : res !! a = None → delete a res = res) by (intros; by apply delete_id).
  assert (Hnop : is_v (pte_at (sp_phys m) (sp_root m) a) = false → res !! a = None →
    pok own (delete a res) (B ++ []) m (sp_phys m) ∧ [] = dirty_page (sp_phys m) (sp_root m) v a ∧
    (frees m ≤ length (ph_free (sp_phys m)) + 0)%nat ∧
    frame_phys own (delete a res) B m (sp_phys m) (sp_phys m) a (a + 4096)).
  { intros Hiv Hn. rewrite Hsame, app_nil_r by done. split_and!; [done| |unfold frees; lia|by split].
    unfold dirty_page. rewrite Hiv. by destruct (v_file v) as [f|]; [destruct (mf_inode f)|]. }
  unfold munmap_page. rewrite (bind_ok m_get _ m m m eq_refl).
  destruct Hwalk as [[Hw Hp]|(pt&Hw&Hp&_&He)].
  { right. exists [], (sp_phys m). rewrite set_phys_id, (bind_ok _ _ _ _ _ (vm_read _ _ _ Hw)). split; [done|].
    assert (Hiv : is_v (pte_at (sp_phys m) (sp_root m) a) = false) by (unfold pte_at; by rewrite Hp).
    apply Hnop; [done|]. destruct (res !! a); [|done]. destruct Hra as [? _]. congruence. }
  rewrite (bind_ok _ _ _ _ _ (vm_read _ _ _ Hw)).
  rewrite (bind_ok _ _ _ _ _ (vm_read _ _ _ (get_pte_entry (pt, px a 0) _ _ He))).
  destruct (res !! a) as [pa|] eqn:Hres.
  - destruct Hra as (Hiv&Hil&Hiu&Hpa). rewrite Hiv, Hil. cbn [andb].
    destruct (save_page_spec own res B m v a pa Hpok Hv Ha1 Ha2 Hres Hiv Hil Hpa) as [(e&He'&Hf)|(w&p1&Hrun1&Hm1&Ht1&Hw1&Hf1&Hpg1)].
    { left. exists e. unfold mbind, M_bind. by rewrite He'. }
    rewrite (bind_ok _ _ _ _ _ Hrun1). rewrite (rm_delete _ _ _ Hres) in Hm1.
    assert (Hpte1 : ∀ x, pte_at p1 (sp_root m) x = pte_at (sp_phys m) (sp_root m) x) by (intros; by apply pte_at_tables).
    destruct (unmap_page_spec own (rm (delete a res) ⊎ sm (segs m)) (B ++ (wb_page <$> w)) (sp_root m) p1 a)
      as (p2&Hrun2&Hm2&Hpg2&Hpte2).
    { rewrite Hpte1, Hpa. replace (rm (delete a res) ⊎ sm (segs m) ⊎ {[+ pa +]})
        with (rm (delete a res) ⊎ {[+ pa +]} ⊎ sm (segs m)) by multiset_solver. done. }
    { lia. } { done. } { lia. } { by rewrite Hpte1. } { by rewrite Hpte1. }
    right. exists w, p2. rewrite (bind_ok _ _ _ _ _ (vm_run (unmap (sp_root m) a 1 true) (set_phys p1 m) _ _ Hrun2)).
    split; [by destruct m|]. split_and!.
    + split; [done|]. split.
      * intros x Hx Hxr. cbv zeta. rewrite Hpte2 by lia. destruct (decide (x = a)) as [->|Hne].
        -- rewrite lookup_delete_eq, decide_True by done. done.
        -- rewrite lookup_delete_ne, decide_False, Hpte1 by (done || lia). by apply Hr1.
      * intros x q. rewrite lookup_delete_Some. intros [_ ?]. by eapply Hr2.
    + rewrite <-Hw1. apply list_fmap_ext. intros i x Hx. unfold wb_data. rewrite Hpg2; [done|].
      right. apply elem_of_app. right. apply list_elem_of_fmap. exists x. split; [done|]. by eapply list_elem_of_lookup_2.
    + pose proof (unmap_frees _ _ _ _ _ Hrun2). lia.
    + split.
      * intros x Hx Hout. rewrite Hpte2, decide_False, Hpte1 by (done || lia). done.
      * intros q Hq. rewrite Hpg2 by (rewrite elem_of_app; tauto). apply Hpg1.
        rewrite (rm_delete _ _ _ Hres) in Hm. destruct Hq as [Hq|Hq].
        -- destruct (mo_led _ _ _ _ _ Hm q) as (_&_&_&?); [multiset_solver|done].
        -- by destruct (mo_buf _ _ _ _ _ Hm q Hq) as (_&_&_&?).
  - right. exists [], (sp_phys m). rewrite set_phys_id, Hra. cbn [andb]. split; [done|]. by apply Hnop.
Qed.

(** ** A range of pages of one mapping *)

Lemma res_ok_tables root p p' l res : ph_tables p' = ph_tables p → res_ok root p l res → res_ok root p' l res.
Proof.
  intros Ht [H1 H2]. split; [|done]. intros a Ha Hr. rewrite (pte_at_tables root p p') by done. by apply H1.
Qed.

Lemma drop_wbs_spec own res m : ∀ l p, pok own res (wb_page <$> l) m p →
  ∃ p', drop_wbs l (set_phys p m) = (Ok (), set_phys p' m) ∧ pok own res [] m p' ∧ ph_tables p' = ph_tables p ∧
    ∀ q, q ∈ rm res ⊎ sm (segs m) → ph_pages p' !! q = ph_pages p !! q.
Proof.
  induction l as [|w l IH]; intros p [Hm Hr]; [by exists p|]. simpl in Hm.
  destruct (drop_page_spec _ _ _ _ _ _ Hm) as (p1&Hrun1&Hm1&Ht1&Hp1).
  destruct (IH p1) as (p2&Hrun2&Hpok2&Ht2&Hp2); [split; [done|by apply (res_ok_tables _ p)]|].
  exists p2. split_and!; [|done|congruence|].
  - unfold drop_wbs. cbn [m_for]. rewrite (bind_ok _ _ _ _ _ (vm_run (drop_page (wb_page w)) (set_phys p m) _ _ Hrun1)). exact Hrun2.
  - intros q Hq. rewrite Hp2, Hp1 by done. rewrite lookup_delete_ne; [done|]. intros <-.
    apply (led_not_buf _ _ _ _ _ _ Hm Hq). by left.
Qed.

Definition dirty_range (p : Phys) (root : Z) (v : Vma) (n : nat) (a : Z) : list (Z * Z * list Z) :=
  concat ((λ i, dirty_page p root v (a + Z.of_nat i * 4096)) <$> seq 0 n).

Lemma dirty_range_S p root v n a : dirty_range p root v (S n) a = dirty_page p root v a ++ dirty_range p root v n (a + 4096).
Proof.
  unfold dirty_range. cbn [seq]. rewrite fmap_cons, concat_cons, Z.mul_0_l, Z.add_0_r. f_equal.
  rewrite <-fmap_S_seq, <-list_fmap_compose. f_equal. apply list_fmap_ext. intros i x _. simpl. f_equal. lia.
Qed.

(** Pages that are not touched have the same data to write back. *)
Lemma dirty_page_same own res res' B m p p' a b v x :
  pok own res B m p → frame_phys own res' B m p p' a b → lo m ≤ x < TOP → x mod 4096 = 0 → ¬ a ≤ x < b →
  res' !! x = res !! x → dirty_page p' (sp_root m) v x = dirty_page p (sp_root m) v x.
Proof.
  intros [Hm [Hr _]] [F1 F2] Hx Hal Hout Hres. destruct TOP_facts as (_&_&HT&_). pose proof (lo_nonneg m).
  specialize (Hr x Hal Hx). cbv zeta in Hr. unfold dirty_page. rewrite F1 by lia.
  destruct (v_file v) as [f|]; [|done]. destruct (mf_inode f) as [ip|]; [|done].
  destruct (res !! x) as [pa|] eqn:E; [|by rewrite Hr]. destruct Hr as (_&_&_&Hpa). rewrite Hpa, F2; [done|].
  left. apply gmultiset_elem_of_disj_union. left. by eapply rm_elem.
Qed.

Lemma frame_trans own res1 res2 B m p p1 p2 a b c :
  frame_phys own res1 B m p p1 a b → frame_phys own res2 B m p1 p2 b c → a ≤ b ≤ c → res2 ⊆ res1 →
  frame_phys own res2 B m p p2 a c.
Proof.
  intros [F1 F2] [G1 G2] Hle Hsub. split.
  - intros x Hx Hout. rewrite G1, F1 by (done || lia). done.
  - intros q Hq. rewrite G2 by done. apply F2. destruct Hq as [Hq|Hq]; [|by right]. left.
    rewrite !gmultiset_elem_of_disj_union in *. destruct Hq as [Hq|]; [left|by right].
    unfold rm in *. rewrite elem_of_list_to_set_disj in *. apply list_elem_of_fmap in Hq as ([y z]&->&Hq).
    apply list_elem_of_fmap. exists (y, z). split; [done|]. apply elem_of_map_to_list in Hq. apply elem_of_map_to_list.
    by eapply lookup_weaken.
Qed.

Lemma frame_weaken own res B B' m p p' a b : B ⊆ B' → frame_phys own res B' m p p' a b → frame_phys own res B m p p' a b.
Proof. intros Hs [F1 F2]. split; [done|]. intros q [?|?]; apply F2; [by left|right; by apply Hs]. Qed.

Lemma munmap_range_spec own m v n : ∀ res p a wbs,
  pok own res (wb_page <$> wbs) m p → vma_wf v → lo m ≤ v_start v → a mod 4096 = 0 → v_start v ≤ a →
  a + Z.of_nat n * 4096 ≤ end_pg v →
  ∃ res' p', res' ⊆ res ∧
    ((∃ e, munmap_vma_range v n a wbs (set_phys p m) = (Err e, set_phys p' m) ∧ pok own res' [] m p' ∧
       save_fails (length (ph_free p)) (dirty_range p (sp_root m) v n a) e ∧
       frame_phys own res' [] m p p' a (a + Z.of_nat n * 4096)) ∨
     ∃ ws, munmap_vma_range v n a wbs (set_phys p m) = (Ok (wbs ++ ws), set_phys p' m) ∧
       pok own res' (wb_page <$> (wbs ++ ws)) m p' ∧ (wb_data p' <$> ws) = dirty_range p (sp_root m) v n a ∧
       (length (ph_free p) ≤ length (ph_free p') + length ws)%nat ∧
       frame_phys own res' (wb_page <$> wbs) m p p' a (a + Z.of_nat n * 4096) ∧
       ∀ x, x mod 4096 = 0 → res' !! x = if decide (a ≤ x < a + Z.of_nat n * 4096) then None else res !! x).
Proof.
  induction n as [|n IH]; intros res p a wbs Hpok Hv Hlo Hal Ha1 Ha2.
  { exists res, p. split; [done|]. right. exists []. rewrite app_nil_r. cbn [munmap_vma_range].
    split_and!; [done|done|done|simpl; lia|by split|]. intros x _. by rewrite decide_False by lia. }
  destruct TOP_facts as (_&_&HT&_). pose proof (lo_nonneg m). pose proof (vw_top v Hv) as Htop.
  destruct (munmap_page_spec own res _ (set_phys p m) v a Hpok Hv Hlo Hal Ha1) as [(e&He&Hfail)|(w&p1&Hrun1&Hpok1&Hw1&Hf1&F1)]; [lia| |].
  { destruct (drop_wbs_spec own res m wbs p Hpok) as (p'&Hdrop&Hpok'&Ht'&Hpg'). exists res, p'. split; [done|]. left. exists e.
    cbn [munmap_vma_range]. unfold try_with. rewrite He. rewrite (bind_ok _ _ _ _ _ Hdrop). split_and!; [done|done|rewrite dirty_range_S; by apply save_fails_more|].
    split; [intros; by apply pte_at_tables|]. intros q [Hq|Hq]; [by apply Hpg'|by apply elem_of_nil in Hq]. }
  change (sp_phys (set_phys p m)) with p in *. change (sp_root (set_phys p m)) with (sp_root m) in *.
  change (set_phys p1 (set_phys p m)) with (set_phys p1 m) in *.
  assert (F1' : frame_phys own (delete a res) (wb_page <$> wbs) m p p1 a (a + 4096)) by (destruct F1; by split).
  assert (Hpok1' : pok own (delete a res) (wb_page <$> (wbs ++ w)) m p1) by (by rewrite fmap_app).
  destruct (IH (delete a res) p1 (a + 4096) (wbs ++ w) Hpok1' Hv Hlo) as (res'&p'&Hsub&Hcase); [lia|lia|lia|].
  exists res', p'. split; [etrans; [done|apply delete_subseteq]|]. unfold frees in Hf1. cbn [sp_phys set_phys] in Hf1.
  assert (Hlen : length w = length (dirty_page p (sp_root m) v a)) by (by rewrite <-Hw1, length_fmap).
  assert (Hrest : dirty_range p1 (sp_root m) v n (a + 4096) = dirty_range p (sp_root m) v n (a + 4096)).
  { unfold dirty_range. f_equal. apply list_fmap_ext. intros i x Hx. apply lookup_seq in Hx as [-> Hx].
    eapply dirty_page_same; [exact Hpok|exact F1'|lia|lia|lia|]. by rewrite lookup_delete_ne by lia. }
  replace (a + 4096 + Z.of_nat n * 4096) with (a + Z.of_nat (S n) * 4096) in Hcase by lia.
  rewrite Hrest in Hcase. destruct Hcase as [(e&Hrun&Hpok2&Hfail&F2)|(ws&Hrun&Hpok2&Hws&Hf2&F2&Hres2)]; [left|right].
  - exists e. cbn [munmap_vma_range]. unfold try_with. rewrite Hrun1.
    split_and!; [exact Hrun|done|rewrite dirty_range_S; eapply save_fails_app; [|exact Hfail]; lia|].
    eapply frame_trans; [eapply frame_weaken; [|exact F1']|exact F2|lia|done]. apply list_subseteq_nil.
  - exists (w ++ ws). cbn [munmap_vma_range]. unfold try_with. rewrite Hrun1, !app_assoc. split_and!; [exact Hrun|done| |rewrite length_app; lia| |].
    + rewrite dirty_range_S, fmap_app, Hws. f_equal.
      rewrite <-Hw1. apply list_fmap_ext. intros i x Hx. unfold wb_data. rewrite (fp_pages _ _ _ _ _ _ _ _ F2); [done|].
        right. apply list_elem_of_fmap. exists x. split; [done|]. apply elem_of_app. right. by eapply list_elem_of_lookup_2.
    + eapply frame_trans; [exact F1'|eapply frame_weaken; [|exact F2]|lia|done].
      rewrite fmap_app. apply list_subseteq_app_l. done.
    + intros x Hx. rewrite Hres2 by done. destruct (decide (x = a)) as [->|Hne].
      * rewrite lookup_delete_eq. repeat case_decide; try done; lia.
      * rewrite lookup_delete_ne by done. repeat case_decide; try done; lia.
Qed.

(** ** Dropping a segment *)

Lemma vm_release pa m :
  (r ← vm (page_ref_dec pa); if r =? 0 then vm (drop_page pa) else mret ()) m = vm (release pa) m.
Proof.
  unfold vm, release, mbind, M_bind. destruct (page_ref_dec pa (sp_phys m)) as [[r|e|] p]; [|done..].
  by destruct (r =? 0).
Qed.

Lemma drop_pages_spec own L B m : ∀ pages p, mem_ok own (L ⊎ list_to_set_disj pages) B (sp_root m) p →
  ∃ p', drop_pages pages (set_phys p m) = (Ok (), set_phys p' m) ∧ mem_ok own L B (sp_root m) p' ∧
    ph_tables p' = ph_tables p ∧ ∀ q, q ∈ L ∨ q ∈ B → ph_pages p' !! q = ph_pages p !! q.
Proof.
  induction pages as [|pa pages IH]; intros p Hm.
  { exists p. split_and!; [done| |done|done]. replace (L ⊎ list_to_set_disj []) with L in Hm by multiset_solver. done. }
  simpl in Hm. destruct (release_spec own (L ⊎ list_to_set_disj pages) B (sp_root m) p pa) as (p1&Hrun1&Hm1&Ht1&Hp1).
  { eapply mem_ok_sub; [|exact Hm]. multiset_solver. }
  destruct (IH p1 Hm1) as (p2&Hrun2&Hm2&Ht2&Hp2). exists p2. split_and!; [|done|congruence|].
  - unfold drop_pages. cbn [m_for]. rewrite (bind_ok _ _ _ () (set_phys p1 m)); [exact Hrun2|].
    rewrite vm_release. exact (vm_run (release pa) (set_phys p m) _ _ Hrun1).
  - intros q Hq. rewrite Hp2 by done. apply Hp1. destruct Hq; [left; multiset_solver|by right].
Qed.

(** The parts of the state that dropping a segment leaves alone. *)
Record same_space m m' : Prop := {
  ss_root : sp_root m' = sp_root m;
  ss_sz : sp_sz m' = sp_sz m;
  ss_base : mmap_base m' = mmap_base m;
  ss_vmas : vmas m' = vmas m;
  ss_table : SHM_TABLE m' = SHM_TABLE m;
  ss_fs : sp_fs m' = sp_fs m;
}.

Lemma seg_drop_spec own res B m g seg :
  space_ok own res B m → segs m !! g = Some seg → (shm_refs g m < shm_strong seg)%nat →
  ∃ m', seg_drop g m = (Ok (), m') ∧ space_ok own res B m' ∧ same_space m m' ∧
    ph_tables (sp_phys m') = ph_tables (sp_phys m) ∧
    ∀ q, q ∈ rm res ∨ q ∈ B → ph_pages (sp_phys m') !! q = ph_pages (sp_phys m) !! q.
Proof.
  intros [[Hm Hr] Hb Hvs Hd Hc [S1 S2 S3 S4]] Hg Hlt. unfold seg_drop. rewrite Hg.
  destruct (S2 g seg Hg) as (_&H0&Hsz&Hpg). destruct (shm_strong seg) as [|[|k]] eqn:Hst; [lia| |].
  - assert (Hz : shm_refs g m = 0%nat) by lia. unfold shm_refs in Hz.
    assert (Hz1 : ∀ v, v ∈ vmas m → v_shm v ≠ Some g).
    { intros v Hv E. assert (v ∈ filter (λ v, v_shm v = Some g) (vmas m)) as Hf by (by apply list_elem_of_filter).
      destruct (filter _ (vmas m)); [by apply elem_of_nil in Hf|]. simpl in Hz. lia. }
    assert (Hz2 : ∀ i, SHM_TABLE m !! i ≠ Some (Some g)).
    { intros i E. assert (Some g ∈ filter (λ o, o = Some g) (SHM_TABLE m)) as Hf
        by (apply list_elem_of_filter; split; [done|by eapply list_elem_of_lookup_2]).
      destruct (filter _ (SHM_TABLE m)); [by apply elem_of_nil in Hf|]. simpl in Hz. lia. }
    set (m1 := set_segs (delete g (segs m)) (next_seg m) m).
    destruct (drop_pages_spec own (rm res ⊎ sm (delete g (segs m))) B m1 (shm_pages seg) (sp_phys m)) as (p'&Hrun&Hm'&Ht'&Hp').
    { eapply mem_ok_sub; [|exact Hm]. rewrite (sm_delete _ _ _ Hg). multiset_solver. }
    change (set_phys (sp_phys m) m1) with m1 in Hrun. exists (set_phys p' m1). split; [done|]. split_and!; [|by split|done|].
    + split; [split; [done|by apply (res_ok_tables _ (sp_phys m))]|done|done|done|done|]. split; simpl.
      * intros g' s'. rewrite lookup_delete_Some. intros [_ ?]. by eapply S1.
      * intros g' s'. rewrite lookup_delete_Some. intros [_ ?]. by apply S2.
      * intros v g' Hv Hs. destruct (S3 v g' Hv Hs) as (s'&?&?). exists s'. rewrite lookup_delete_ne; [done|].
        intros <-. by apply (Hz1 v).
      * intros i g' Hi. rewrite lookup_delete_ne; [by eapply S4|]. intros <-. by apply (Hz2 i).
    + intros q Hq. apply Hp'. destruct Hq; [left; multiset_solver|by right].
  - eexists. split; [reflexivity|]. split_and!; [|by split|done|done].
    split; [split; [|done]|done|done|done|done|].
    + simpl. rewrite (sm_update _ _ seg) by done. done.
    + split; simpl.
      * intros g' s'. rewrite lookup_insert_Some. intros [[<- _]|[_ ?]]; by eapply S1.
      * intros g' s'. rewrite lookup_insert_Some. intros [[<- <-]|[_ ?]]; [|by apply S2]. simpl.
        split_and!; [|lia|lia|lia|done]. change (shm_refs g m ≤ S k)%nat. lia.
      * intros v g' Hv Hs. destruct (S3 v g' Hv Hs) as (s'&Hs'&Hl). destruct (decide (g' = g)) as [->|Hne].
        -- rewrite lookup_insert_eq. eexists. split; [done|]. simpl. congruence.
        -- rewrite lookup_insert_ne by done. eauto.
      * intros i g' Hi. destruct (decide (g' = g)) as [->|]; [by rewrite lookup_insert_eq|].
        rewrite lookup_insert_ne by done. by eapply S4.
Qed.
End inv.
