(* ===== verification/MmapSpec.v ===== *)
(** * What the mapping calls do

    [munmap] removes exactly the pages of its range and writes back exactly
    the data of shared file mappings in it; page faults bring in the page the
    mapping describes; all calls keep the invariant of MmapInv.v. *)

From stdpp Require Import base tactics numbers gmap gmultiset list.
From S2P Require Import Prelude Params Errors UserMem PageTable PtSpec UvmMem Mmap MmapMem MmapInv.
Local Open Scope Z_scope.
Ltac Zify.zify_post_hook ::= Z.to_euclidean_division_equations.

Section munmap.
Context {FS : Type}.
Implicit Types m : Space (FS := FS).

(** ** Data to write back *)

Lemma dirty_page_eq p p' root v x :
  pte_at p' root x = pte_at p root x →
  (is_v (pte_at p root x) = true → ph_pages p' !! to_pa (pte_at p root x) = ph_pages p !! to_pa (pte_at p root x)) →
  dirty_page p' root v x = dirty_page p root v x.
Proof.
  intros E1 E2. unfold dirty_page. rewrite E1. destruct (v_file v) as [f|]; [|done]. destruct (mf_inode f) as [ip|]; [|done].
  destruct (is_v _) eqn:Hv; [|done]. by rewrite E2.
Qed.

(** The overlap of a mapping with the range. *)
Definition ov_a (start : Z) (v : Vma) : Z := if v_start v <? start then start else v_start v.
Definition ov_b (end_ : Z) (v : Vma) : Z := if end_ <? end_pg v then end_ else end_pg v.
Definition dirty_vma (p : Phys) (root start end_ : Z) (v : Vma) : list (Z * Z * list Z) :=
  dirty_range p root v (Z.to_nat ((ov_b end_ v - ov_a start v) / 4096)) (ov_a start v).
Definition dirty (p : Phys) (root start end_ : Z) (vs : list Vma) : list (Z * Z * list Z) :=
  concat (dirty_vma p root start end_ <$> vs).

Lemma dirty_eq p p' root start end_ vs :
  start mod 4096 = 0 → end_ mod 4096 = 0 → Forall vma_wf vs →
  (∀ v x, v ∈ vs → v_start v ≤ x < end_pg v → x mod 4096 = 0 → dirty_page p' root v x = dirty_page p root v x) →
  dirty p' root start end_ vs = dirty p root start end_ vs.
Proof.
  intros Hs He Hwf H. unfold dirty. f_equal. apply list_fmap_ext. intros k v Hk. unfold dirty_vma, dirty_range. f_equal.
  apply list_fmap_ext. intros i x Hx. apply lookup_seq in Hx as [-> Hi].
  pose proof (list_elem_of_lookup_2 _ _ _ Hk) as Hin. rewrite Forall_forall in Hwf. pose proof (Hwf v Hin) as Hv.
  pose proof (end_pg_al v Hv) as (E1&E2&_). pose proof (vw_al v Hv).
  apply H; [done| |]; unfold ov_a, ov_b in *; destruct (Z.ltb_spec (v_start v) start), (Z.ltb_spec end_ (end_pg v)); lia.
Qed.

(** ** Replacing a mapping in the state *)

Definition away (start end_ : Z) (v : Vma) : Prop := end_pg v ≤ start ∨ end_ ≤ v_start v.

Lemma shm_count l1 (v : Vma) rest l2 g :
  v_shm v = None ∨ rest = [] → Forall (λ w, v_shm w = v_shm v) rest →
  length (filter (λ w, v_shm w = Some g) (l1 ++ v :: l2)) =
    (length (filter (λ w, v_shm w = Some g) (l1 ++ rest ++ l2)) + if decide (v_shm v = Some g) then 1 else 0)%nat.
Proof.
  intros Hc Hr. rewrite !filter_app, filter_cons, !length_app. destruct (decide (v_shm v = Some g)) as [E|E].
  - destruct Hc as [?| ->]; [congruence|]. simpl. lia.
  - enough (filter (λ w, v_shm w = Some g) rest = []) as -> by (simpl; lia).
    clear Hc. induction Hr as [|w rest Hw _ IH]; [done|]. rewrite filter_cons, decide_False by congruence. done.
Qed.

Lemma replace_vma own res res1 B B' m p1 l1 v rest l2 a b :
  space_ok own res B m → vmas m = l1 ++ v :: l2 → pok own res1 B' m p1 →
  (∀ x, x mod 4096 = 0 → res1 !! x = if decide (a ≤ x < b) then None else res !! x) →
  Forall vma_wf rest → Forall (λ w, inside w v) rest → Forall (λ w, v_shm w = v_shm v) rest → disjoint_all rest →
  (∀ va, view rest va = if decide (a ≤ va < b) then None else view [v] va) →
  (v_shm v = None ∨ rest = []) →
  space_ok own res1 B' (set_vmas (l1 ++ rest ++ l2) (set_phys p1 m)).
Proof.
  intros [Hm Hb Hvs Hd Hc [S1 S2 S3 S4]] Hl Hpok Hres Hwf Hin Hshm Hdr Hview Hcase.
  rewrite Hl in *. split; simpl; [done|done| | | |].
  - rewrite Forall_app, Forall_cons in Hvs. destruct Hvs as (V1&[V2 V2']&V3). rewrite !Forall_app. split_and!; [done| |done].
    rewrite Forall_forall in *. intros w Hw. split; [by apply Hwf|]. destruct (Hin w Hw). lia.
  - by apply disjoint_replace with v.
  - intros x pa Hx. destruct Hpok as [_ [_ R2]]. destruct (R2 x pa Hx) as [Hal _]. rewrite Hres in Hx by done.
    case_decide as Hab; [done|]. destruct (Hc x pa Hx) as (w&Hw&Hcw). apply elem_of_app in Hw as [Hw|[->|Hw]%elem_of_cons].
    + exists w. rewrite !elem_of_app. auto.
    + specialize (Hview x). rewrite decide_False in Hview by done. simpl in Hview. rewrite Hcw in Hview.
      destruct (view rest x) eqn:Hv; [|done]. assert (¬ Forall (λ v, contains_pg v x = false) rest) as Hex.
      { rewrite <-view_None. congruence. }
      apply not_Forall_Exists in Hex; [|apply _]. apply Exists_exists in Hex as (u&Hu&Hcu).
      exists u. rewrite !elem_of_app. split; [auto|]. by apply not_false_iff_true.
    + exists w. rewrite !elem_of_app. auto.
  - split; simpl; [done| | |done].
    + intros g seg Hg. destruct (S2 g seg Hg) as (A1&A2&A3&A4). split_and!; [|done|lia|lia|done].
      unfold shm_refs in *. simpl. rewrite Hl, (shm_count l1 v rest l2 g Hcase Hshm) in A1. lia.
    + intros w g Hw Hs. rewrite !elem_of_app in Hw. destruct Hw as [Hw|[Hw|Hw]].
      * apply (S3 w g); [|done]. rewrite elem_of_app. auto.
      * rewrite Forall_forall in Hshm. destruct Hcase as [Hn| ->]; [|by apply elem_of_nil in Hw].
        specialize (Hshm w Hw). simpl in Hshm. congruence.
      * apply (S3 w g); [|done]. rewrite elem_of_app, elem_of_cons. auto.
Qed.

Lemma space_ok_shrink own res res' B m p' :
  space_ok own res B m → res' ⊆ res → pok own res' [] m p' → space_ok own res' [] (set_phys p' m).
Proof.
  intros [Hm Hb Hvs Hd Hc [S1 S2 S3 S4]] Hsub Hpok. split; simpl; [done|done|done|done| |by split].
  intros x pa Hx. apply (Hc x pa). by eapply lookup_weaken.
Qed.

(** The overlap, page by page. *)
Lemma overlap_facts start end_ v : vma_wf v → start mod 4096 = 0 → end_ mod 4096 = 0 → ov_a start v < ov_b end_ v →
  v_start v ≤ ov_a start v ∧ ov_b end_ v ≤ end_pg v ∧ ov_a start v mod 4096 = 0 ∧ ov_b end_ v mod 4096 = 0 ∧
  start ≤ ov_a start v ∧ ov_b end_ v ≤ end_ ∧
  ov_a start v + Z.of_nat (Z.to_nat ((ov_b end_ v - ov_a start v) / 4096)) * 4096 = ov_b end_ v ∧
  ∀ x, v_start v ≤ x < end_pg v → start ≤ x < end_ → ov_a start v ≤ x < ov_b end_ v.
Proof.
  intros Hv Hs He Hlt. pose proof (end_pg_al v Hv) as (E1&E2&_). pose proof (vw_al v Hv).
  unfold ov_a, ov_b in *. destruct (Z.ltb_spec (v_start v) start), (Z.ltb_spec end_ (end_pg v)); split_and!; lia.
Qed.

(** ** The loop *)

(** What one turn of the loop, or all of them, leaves as it was outside the range. *)
Record unmapped (start end_ : Z) (res res' : gmap Z Z) (B : list Z) m m' : Prop := {
  um_view va : ¬ start ≤ va < end_ → view (vmas m') va = view (vmas m) va;
  um_pte x : 0 ≤ x < MAXVA → ¬ start ≤ x < end_ → pte_at (sp_phys m') (sp_root m) x = pte_at (sp_phys m) (sp_root m) x;
  um_res x : x mod 4096 = 0 → ¬ start ≤ x < end_ → res' !! x = res !! x;
  um_pages q : q ∈ rm res' ∨ q ∈ B → ph_pages (sp_phys m') !! q = ph_pages (sp_phys m) !! q;
  um_same : sp_root m' = sp_root m ∧ sp_sz m' = sp_sz m ∧ mmap_base m' = mmap_base m ∧ sp_fs m' = sp_fs m ∧
    SHM_TABLE m' = SHM_TABLE m;
}.

Lemma unmapped_trans start end_ res res1 res2 B B1 m m1 m2 :
  unmapped start end_ res res1 B m m1 → unmapped start end_ res1 res2 B1 m1 m2 → B ⊆ B1 →
  (∀ q, q ∈ rm res2 → q ∈ rm res1) → unmapped start end_ res res2 B m m2.
Proof.
  intros [A1 A2 A3 A4 (A5&A6&A7&A8&A9)] [C1 C2 C3 C4 (C5&C6&C7&C8&C9)] HB Hr. split.
  - intros va Hva. by rewrite C1, A1.
  - intros x Hx Hout. rewrite <-A5 at 1. rewrite C2 by done. rewrite A5. by apply A2.
  - intros x Hx Hout. by rewrite C3, A3.
  - intros q Hq. rewrite C4 by (destruct Hq; auto). apply A4. destruct Hq; auto.
  - split_and!; congruence.
Qed.

(** Dropping a mapping that has been taken off the list. *)
Lemma vma_drop_spec own res B m v :
  space_ok own res B m → (∀ g, v_shm v = Some g → ∃ seg, segs m !! g = Some seg ∧ (shm_refs g m < shm_strong seg)%nat) →
  ∃ m', vma_drop v m = (Ok (), m') ∧ space_ok own res B m' ∧ same_space m m' ∧
    ph_tables (sp_phys m') = ph_tables (sp_phys m) ∧
    ∀ q, q ∈ rm res ∨ q ∈ B → ph_pages (sp_phys m') !! q = ph_pages (sp_phys m) !! q.
Proof.
  intros Hok Hs. unfold vma_drop. destruct (v_shm v) as [g|].
  - destruct (Hs g eq_refl) as (seg&Hg&Hlt). by apply (seg_drop_spec own res B m g seg).
  - exists m. by split_and!.
Qed.

Lemma drop_pages_frees pages : ∀ m m', drop_pages pages m = (Ok (), m') → (frees m ≤ frees m')%nat.
Proof.
  induction pages as [|pa pages IH]; intros m m'; [by intros [= <-]|]. unfold drop_pages. cbn [m_for].
  unfold mbind at 1, M_bind at 1. rewrite vm_release. unfold vm. destruct (release pa (sp_phys m)) as [[[]|e|] p] eqn:E; [|done..].
  intros H%IH. apply release_frees in E. unfold frees in *. simpl in H. lia.
Qed.
Lemma vma_drop_frees v m m' : vma_drop v m = (Ok (), m') → (frees m ≤ frees m')%nat.
Proof.
  unfold vma_drop, seg_drop. destruct (v_shm v) as [g|]; [|by intros [= <-]]. destruct (segs m !! g) as [s|]; [|done].
  destruct (shm_strong s) as [|[|k]]; [intros H; by apply drop_pages_frees in H..|]. by intros [= <-].
Qed.

(** A segment that the range covers in part. *)
Definition split_shm (start end_ : Z) (v : Vma) : Prop :=
  is_Some (v_shm v) ∧ (v_start v < end_ ∧ start < end_pg v) ∧ ¬ (start ≤ v_start v ∧ end_pg v ≤ end_).

Lemma rm_subset (res res' : gmap Z Z) q : res' ⊆ res → q ∈ rm res' → q ∈ rm res.
Proof.
  intros Hs. unfold rm. rewrite !elem_of_list_to_set_disj, !list_elem_of_fmap. intros ([y z]&->&Hq).
  exists (y, z). split; [done|]. rewrite elem_of_map_to_list in *. by eapply lookup_weaken.
Qed.

Lemma munmap_step own start end_ m res v done_ todo wbs :
  space_ok own res (wb_page <$> wbs) m → vmas m = done_ ++ v :: todo →
  start mod 4096 = 0 → end_ mod 4096 = 0 → ov_a start v < ov_b end_ v →
  (v_shm v = None ∨ ov_a start v = v_start v ∧ ov_b end_ v = end_pg v) →
  let run := (wbs ← munmap_vma_range v (Z.to_nat ((ov_b end_ v - ov_a start v) / PGSIZE)) (ov_a start v) wbs;
              rest ← of_res (vma_cut v (ov_a start v) (ov_b end_ v));
              _ ← upd (set_vmas (done_ ++ rest ++ todo));
              _ ← match rest with [] => vma_drop v | _ => mret () end;
              mret (rest, wbs)) in
  (∃ e m' res', run m = (Err e, m') ∧ space_ok own res' [] m' ∧
     save_fails (frees m) (dirty_vma (sp_phys m) (sp_root m) start end_ v) e) ∨
  (∃ rest ws m' res', run m = (Ok (rest, wbs ++ ws), m') ∧ space_ok own res' (wb_page <$> (wbs ++ ws)) m' ∧
     vmas m' = done_ ++ rest ++ todo ∧ Forall (away start end_) rest ∧ res' ⊆ res ∧
     (wb_data (sp_phys m') <$> ws) = dirty_vma (sp_phys m) (sp_root m) start end_ v ∧
     (frees m ≤ frees m' + length ws)%nat ∧ unmapped start end_ res res' (wb_page <$> wbs) m m' ∧
     ∀ x, 0 ≤ x < MAXVA → ¬ v_start v ≤ x < end_pg v → pte_at (sp_phys m') (sp_root m) x = pte_at (sp_phys m) (sp_root m) x).
Proof.
  intros Hok Hl Hs He Hlt Hshm run.
  assert (Hvin : v ∈ vmas m) by (rewrite Hl, elem_of_app, elem_of_cons; auto).
  pose proof Hok as [Hm Hb Hvs Hd Hc Hsg]. rewrite Forall_forall in Hvs. destruct (Hvs v Hvin) as [Hv Hbase].
  destruct (overlap_facts start end_ v Hv Hs He Hlt) as (O1&O2&O3&O4&O5&O6&O7&O8).
  set (a := ov_a start v) in *. set (b := ov_b end_ v) in *.
  destruct (munmap_range_spec own m v (Z.to_nat ((b - a) / 4096)) res (sp_phys m) a wbs Hm Hv) as (res1&p1&Hsub&Hcase);
    [lia|done|lia|lia|]. rewrite set_phys_id, O7 in Hcase.
  destruct Hcase as [(e&Hrun&Hpok&Hfail&_)|(ws&Hrun&Hpok&Hws&Hf1&F&Hres1)].
  { left. exists e, (set_phys p1 m), res1. split_and!; [|by eapply space_ok_shrink|done]. unfold run, PGSIZE, mbind, M_bind. by rewrite Hrun. }
  right. destruct (vma_cut_spec v Hv a b O1 Hlt O2 O3 O4) as (rest&Hcut&C1&C2&C3&C4&C5&C6&C7).
  assert (Hcase : v_shm v = None ∨ rest = []) by (destruct Hshm; [by left|right; by apply C7]).
  set (m1 := set_vmas (done_ ++ rest ++ todo) (set_phys p1 m)).
  assert (Hok1 : space_ok own res1 (wb_page <$> (wbs ++ ws)) m1) by (by eapply replace_vma).
  assert (Hdrop : ∃ m2, (match rest with [] => vma_drop v | _ => mret () end) m1 = (Ok (), m2) ∧
    (frees m1 ≤ frees m2)%nat ∧
    space_ok own res1 (wb_page <$> (wbs ++ ws)) m2 ∧ same_space m1 m2 ∧ ph_tables (sp_phys m2) = ph_tables p1 ∧
    ∀ q, q ∈ rm res1 ∨ q ∈ wb_page <$> (wbs ++ ws) → ph_pages (sp_phys m2) !! q = ph_pages p1 !! q).
  { destruct rest as [|w rest']; [|exists m1; by split_and!].
    destruct (vma_drop_spec own res1 _ m1 v Hok1) as (m2&Hrun2&H2); [|exists m2; split; [done|split; [by eapply vma_drop_frees|done]]].
    intros g Hg. destruct (so_vma _ Hsg v g Hvin Hg) as (seg&Hseg&_). exists seg. split; [done|].
    destruct (so_seg _ Hsg g seg Hseg) as (Hle&_). unfold shm_refs in *. rewrite Hl in Hle.
    rewrite (shm_count done_ v [] todo g), decide_True in Hle by done. simpl in *. lia. }
  destruct Hdrop as (m2&Hrun2&Hf2&Hok2&[Q1 Q2 Q3 Q4 Q5 Q6]&Ht2&Hp2).
  assert (Hpte : ∀ x, pte_at (sp_phys m2) (sp_root m) x = pte_at p1 (sp_root m) x) by (intros; by apply pte_at_tables).
  exists rest, ws, m2, res1. split_and!; [|done|by rewrite Q4| |done| |unfold frees in *; simpl in Hf2; lia|split|].
  - unfold run, PGSIZE. rewrite (bind_ok _ _ _ _ _ Hrun). rewrite Hcut, (bind_ok (of_res _) _ _ _ _ eq_refl).
    rewrite (bind_ok (upd _) _ _ _ m1 eq_refl). by rewrite (bind_ok _ _ _ _ _ Hrun2).
  - rewrite Forall_forall in *. intros w Hw. specialize (C5 w Hw). simpl in C5. destruct (C2 w Hw) as [I1 I2].
    pose proof (end_pg_al w (C1 w Hw)) as (_&I3&_). unfold away, a, b, ov_a, ov_b in *.
    destruct (Z.ltb_spec (v_start v) start), (Z.ltb_spec end_ (end_pg v)); lia.
  - unfold dirty_vma. fold a b. rewrite <-Hws. apply list_fmap_ext. intros i w Hw. unfold wb_data. rewrite Hp2; [done|].
    right. apply list_elem_of_fmap. exists w. split; [done|]. apply elem_of_app. right. by eapply list_elem_of_lookup_2.
  - intros va Hva. rewrite Q4, Hl. simpl. rewrite !view_app, C6, decide_False by lia. simpl.
    by destruct (view done_ va), (contains_pg v va).
  - intros x Hx Hout. rewrite Hpte. apply F; [done|lia].
  - intros x Hx Hout. rewrite Hres1, decide_False by (done || lia). done.
  - intros q Hq. rewrite Hp2, (fp_pages _ _ _ _ _ _ _ _ F); [done| |].
    + destruct Hq; [left; multiset_solver|by right].
    + destruct Hq; [by left|right]. rewrite fmap_app. apply elem_of_app. by left.
  - by rewrite Q1, Q2, Q3, Q5, Q6.
  - intros x Hx Hout. rewrite Hpte. apply F; [done|lia].
Qed.

Lemma bind4 {A B C} (x : M Error (Space (FS := FS)) A) (y : A → M Error Space B) (z w : B → M Error Space ())
    (k : B → A → M Error Space C) m :
  (a ← x; b ← y a; _ ← z b; _ ← w b; k b a) m =
  match (a ← x; b ← y a; _ ← z b; _ ← w b; mret (b, a)) m with
  | (Ok (b, a), m') => k b a m'
  | (Err e, m') => (Err e, m')
  | (Panic, m') => (Panic, m')
  end.
Proof.
  unfold mbind, M_bind, mret, M_ret. destruct (x m) as [[a|e|] m1]; [|done..].
  destruct (y a m1) as [[b|e|] m2]; [|done..]. destruct (z b m2) as [[]  m3]; [|done..].
  by destruct (w b m3) as [[]  m4].
Qed.

(** A turn for [v] leaves what has to be written for the mappings after it. *)
Lemma dirty_after own start end_ m res v done_ todo wbs m1 res1 B1 :
  space_ok own res (wb_page <$> wbs) m → vmas m = done_ ++ v :: todo → start mod 4096 = 0 → end_ mod 4096 = 0 →
  space_ok own res1 B1 m1 → unmapped start end_ res res1 (wb_page <$> wbs) m m1 →
  (∀ x, 0 ≤ x < MAXVA → ¬ v_start v ≤ x < end_pg v → pte_at (sp_phys m1) (sp_root m) x = pte_at (sp_phys m) (sp_root m) x) →
  dirty (sp_phys m1) (sp_root m1) start end_ todo = dirty (sp_phys m) (sp_root m) start end_ todo.
Proof.
  intros Hok Hl Hs He Hok1 U1 Hpt1.
  pose proof (sk_vmas _ _ _ _ Hok) as Hvs. rewrite Hl, Forall_app, Forall_cons in Hvs. destruct Hvs as (_&[Hv _]&Hvt).
  destruct (um_same _ _ _ _ _ _ _ U1) as (->&_). apply dirty_eq; [done|done|by eapply Forall_impl; [exact Hvt|intros ? []]|].
  intros w x Hw Hx Hal. rewrite Forall_forall in Hvt. destruct (Hvt w Hw) as [Hww Hwb].
  destruct (sk_base _ _ _ _ Hok) as (_&[Hlob _]&_). pose proof (vw_top w Hww). pose proof (vw_start w Hww).
  destruct TOP_facts as (_&_&HT&_).
  assert (Hdvw : ¬ v_start v ≤ x < end_pg v).
  { pose proof (sk_disj _ _ _ _ Hok) as Hd. rewrite Hl, disjoint_app in Hd. destruct Hd as (_&[Hd _]&_).
    rewrite Forall_forall in Hd. destruct (Hd w Hw); lia. }
  apply dirty_page_eq; [apply Hpt1; [lia|done]|]. intros Hiv. apply (um_pages _ _ _ _ _ _ _ U1). left.
  destruct (sk_mem _ _ _ _ Hok) as [_ [Hr _]]. specialize (Hr x Hal ltac:(lia)). cbv zeta in Hr.
  destruct (sk_mem _ _ _ _ Hok1) as [_ [Hr1 _]].
  assert (Hlo1 : lo m1 = lo m) by (unfold lo; by destruct (um_same _ _ _ _ _ _ _ U1) as (_&->&_)).
  specialize (Hr1 x Hal ltac:(rewrite Hlo1; lia)). cbv zeta in Hr1.
  destruct (um_same _ _ _ _ _ _ _ U1) as (Hroot&_). rewrite Hroot, Hpt1 in Hr1 by (done || lia).
  destruct (res1 !! x) as [pa|] eqn:E1; [|congruence]. destruct Hr1 as (_&_&_&->). by eapply rm_elem.
Qed.

Lemma munmap_loop_spec own start end_ : start mod 4096 = 0 → end_ mod 4096 = 0 → start < end_ → ∀ todo done_ wbs m res,
  space_ok own res (wb_page <$> wbs) m → vmas m = done_ ++ todo → Forall (away start end_) done_ →
  (∃ e m' res', munmap_loop start end_ done_ todo wbs m = (Err e, m') ∧ space_ok own res' [] m' ∧
     (e = InvalidArgument ∧ Exists (split_shm start end_) todo ∨
      save_fails (frees m) (dirty (sp_phys m) (sp_root m) start end_ todo) e)) ∨
  (∃ ws m' res', munmap_loop start end_ done_ todo wbs m = (Ok (wbs ++ ws), m') ∧
     space_ok own res' (wb_page <$> (wbs ++ ws)) m' ∧ Forall (away start end_) (vmas m') ∧ res' ⊆ res ∧
     (wb_data (sp_phys m') <$> ws) = dirty (sp_phys m) (sp_root m) start end_ todo ∧
     unmapped start end_ res res' (wb_page <$> wbs) m m').
Proof.
  intros Hs He Hse. induction todo as [|v todo IH]; intros done_ wbs m res Hok Hl Haway; cbn [munmap_loop].
  { right. exists [], m, res. rewrite app_nil_r in *. split_and!; [done|done|by rewrite Hl|done|done|].
    by split. }
  change (if v_start v <? start then start else v_start v) with (ov_a start v).
  change (if end_ <? end_pg v then end_ else end_pg v) with (ov_b end_ v).
  pose proof (sk_vmas _ _ _ _ Hok) as Hvs. rewrite Hl, Forall_app, Forall_cons in Hvs. destruct Hvs as (_&[Hv _]&Hvt).
  destruct (Z.leb_spec (ov_b end_ v) (ov_a start v)) as [Hno|Hov].
  { assert (Hskip : dirty (sp_phys m) (sp_root m) start end_ (v :: todo) = dirty (sp_phys m) (sp_root m) start end_ todo).
    { unfold dirty. cbn [fmap list_fmap concat]. unfold dirty_vma at 1. by replace (Z.to_nat _) with 0%nat by lia. }
    destruct (IH (done_ ++ [v]) wbs m res Hok) as [H|(ws&m'&res'&Hrun&H1&H2&H3&H4&H5)].
    - by rewrite Hl, <-app_assoc.
    - apply Forall_app. split; [done|]. constructor; [|constructor]. pose proof (end_pg_al v Hv) as (_&?&_).
      unfold away, ov_a, ov_b in *. destruct (Z.ltb_spec (v_start v) start), (Z.ltb_spec end_ (end_pg v)); lia.
    - left. destruct H as (e&m'&res'&H1&H2&H3). exists e, m', res'. rewrite Hskip. split_and!; [done|done|].
      destruct H3 as [[-> H3]|H3]; [left; split; [done|by constructor 2]|by right].
    - right. exists ws, m', res'. rewrite Hskip. by split_and!. }
  destruct (is_shm v && _) eqn:Hshm.
  { left. destruct (drop_wbs_spec own res m wbs (sp_phys m) (sk_mem _ _ _ _ Hok)) as (p'&Hrun&Hpok&_&_). rewrite set_phys_id in Hrun.
    exists InvalidArgument, (set_phys p' m), res. rewrite (bind_ok _ _ _ _ _ Hrun).
    split_and!; [done|by eapply (space_ok_shrink own res res _ m p' Hok)|]. left. split; [done|]. constructor 1.
    apply andb_true_iff in Hshm as [Hs1 Hs2]. apply bool_decide_eq_true in Hs1. split; [done|]. unfold ov_a, ov_b in *.
    destruct (Z.ltb_spec (v_start v) start), (Z.ltb_spec end_ (end_pg v)); lia. }
  assert (Hshm' : v_shm v = None ∨ ov_a start v = v_start v ∧ ov_b end_ v = end_pg v).
  { unfold is_shm in Hshm. destruct (v_shm v) as [g|]; [right|by left]. simpl in Hshm.
    apply orb_false_iff in Hshm as [E1 E2]. by apply negb_false_iff, Z.eqb_eq in E1, E2. }
  rewrite (bind4 _ _ (λ rest, upd (set_vmas (done_ ++ rest ++ todo))) (λ rest, match rest with [] => vma_drop v | _ => mret () end)
             (λ rest wbs, munmap_loop start end_ (done_ ++ rest) todo wbs)).
  destruct (munmap_step own start end_ m res v done_ todo wbs Hok Hl Hs He Hov Hshm')
    as [(e&m'&res'&Hrun&Hok'&Hfail)|(rest&ws&m1&res1&Hrun&Hok1&Hl1&Haw1&Hsub1&Hws1&Hf1&U1&Hpt1)]; rewrite Hrun.
  { left. exists e, m', res'. split_and!; [done|done|right]. by apply save_fails_more. }
  assert (Hrest := dirty_after own start end_ m res v done_ todo wbs m1 res1 _ Hok Hl Hs He Hok1 U1 Hpt1).
  destruct (IH (done_ ++ rest) (wbs ++ ws) m1 res1 Hok1) as [(e&m'&res'&Hrun2&Hok2&Hfail)|(ws2&m2&res2&Hrun2&Hok2&Haw2&Hsub2&Hws2&U2)];
    [by rewrite Hl1, app_assoc|by apply Forall_app| |].
  { left. exists e, m', res'. split_and!; [done|done|]. destruct Hfail as [[-> Hx]|Hx]; [left; split; [done|by constructor 2]|right].
    rewrite Hrest in Hx. apply (save_fails_app _ (frees m1)); [|done]. rewrite <-Hws1, length_fmap. lia. }
  right. exists (ws ++ ws2), m2, res2. rewrite app_assoc. split_and!; [done|done|done|by etrans| |].
  - rewrite fmap_app, Hws2, Hrest. unfold dirty. cbn [fmap list_fmap concat]. f_equal.
    rewrite <-Hws1. apply list_fmap_ext. intros i w Hw. unfold wb_data. rewrite (um_pages _ _ _ _ _ _ _ U2); [done|].
      right. apply list_elem_of_fmap. exists w. split; [done|]. apply elem_of_app. right. by eapply list_elem_of_lookup_2.
  - eapply unmapped_trans; [exact U1|exact U2| |intros q; by apply rm_subset].
    rewrite fmap_app. by apply list_subseteq_app_l.
Qed.

(** ** Writing back *)

Definition wb_fits (w : Writeback) : Prop := (wb_data_off w + wb_len w ≤ 4096)%nat.

Lemma bind_Ok {A B} (x : M Error (Space (FS := FS)) A) (f : A → M Error Space B) m b m' :
  (x ≫= f) m = (Ok b, m') → ∃ a m1, x m = (Ok a, m1) ∧ f a m1 = (Ok b, m').
Proof. unfold mbind, M_bind. destruct (x m) as [[a|e|] m1]; [eauto|done..]. Qed.

Lemma save_page_fits v a pte m w m' : save_page v a pte m = (Ok w, m') → Forall wb_fits w.
Proof.
  unfold save_page. destruct (v_file v) as [f|]; [|by intros [= <- _]]. destruct (mf_inode f) as [ip|]; [|by intros [= <- _]].
  destruct (is_shared v && _); [|by intros [= <- _]].
  destruct (Z.ltb_spec (Z.max a (v_start v)) (Z.min (a + PGSIZE) (end_req v))) as [Hlt|]; [|by intros [= <- _]].
  intros (x&m1&_&H)%bind_Ok. apply bind_Ok in H as (y&m2&_&H). destruct (_ <? y); [done|].
  apply bind_Ok in H as ([buf|]&m3&_&H); [|done]. apply bind_Ok in H as (d&m4&_&H). apply bind_Ok in H as (?&m5&_&H).
  injection H as <- _. constructor; [|constructor]. unfold wb_fits, PGSIZE in *. simpl. lia.
Qed.

Lemma munmap_range_fits v n : ∀ a wbs m ws m', munmap_vma_range v n a wbs m = (Ok ws, m') → Forall wb_fits wbs → Forall wb_fits ws.
Proof.
  induction n as [|n IH]; intros a wbs m ws m'; cbn [munmap_vma_range]; [by intros [= <- _]|].
  unfold try_with. destruct (munmap_page v a m) as [[w|e|] m1] eqn:E; [|intros H; by apply bind_Ok in H as (?&?&_&?)|done].
  intros H Hf. apply (IH _ _ _ _ _ H). apply Forall_app. split; [done|].
  unfold munmap_page in E. apply bind_Ok in E as (?&m2&[= <- <-]&E). apply bind_Ok in E as ([l|]&m3&_&E); [|by injection E as <- _].
  apply bind_Ok in E as (pte&m4&_&E). destruct (_ && _); [|by injection E as <- _].
  apply bind_Ok in E as (w'&m5&E&E'). apply bind_Ok in E' as (?&m6&_&[= <- _]). by eapply save_page_fits.
Qed.

Lemma munmap_loop_fits start end_ todo : ∀ done_ wbs m ws m',
  munmap_loop start end_ done_ todo wbs m = (Ok ws, m') → Forall wb_fits wbs → Forall wb_fits ws.
Proof.
  induction todo as [|v todo IH]; intros done_ wbs m ws m'; cbn [munmap_loop]; [by intros [= <- _]|]. cbv zeta.
  destruct (_ <=? _); [by apply IH|]. destruct (is_shm v && _); [intros H; by apply bind_Ok in H as (?&?&_&?)|].
  intros H Hf. apply bind_Ok in H as (ws1&m1&H1&H). apply bind_Ok in H as (rest&m2&_&H).
  apply bind_Ok in H as (?&m3&_&H). apply bind_Ok in H as (?&m4&_&H). apply (IH _ _ _ _ _ H). by eapply munmap_range_fits.
Qed.

(** The entry of any address of the mapping area. *)
Lemma area_entry own res B m x : space_ok own res B m → mmap_base m ≤ x < TOP →
  let y := x / 4096 * 4096 in
  let pte := pte_at (sp_phys m) (sp_root m) in
  pte x = pte y ∧ match res !! y with Some pa => to_pa (pte y) = pa | None => is_v (pte y) = false end.
Proof.
  intros Hok Hx y pte. pose proof (lo_nonneg m). destruct (sk_base _ _ _ _ Hok) as (Hb1&Hb2&_).
  destruct (sk_mem _ _ _ _ Hok) as [_ [Hr _]]. split; [apply pte_at_page; unfold y; lia|].
  specialize (Hr y ltac:(unfold y; lia) ltac:(unfold y; lia)). cbv zeta in Hr. fold pte in Hr. destruct (res !! y); [apply Hr|done].
Qed.

Context (inode_write : Z → Z → list Z → FS → Result () * FS) (fs_begin fs_end : FS → FS).

(** The writes of a list of writebacks, each in its own transaction; the first
    that fails ends the sequence and leaves its transaction open. *)
Fixpoint fs_apply (ws : list (Z * Z * list Z)) (fs : FS) : Result () * FS :=
  match ws with
  | [] => (Ok (), fs)
  | (ip, off, d) :: ws =>
      match inode_write ip off d (fs_begin fs) with
      | (Ok _, fs') => fs_apply ws (fs_end fs')
      | (r, fs') => (r, fs')
      end
  end.

Lemma space_ok_fs own res B m fs : space_ok own res B m → space_ok own res B (set_fs fs m).
Proof. intros [H1 H2 H3 H4 H5 [S1 S2 S3 S4]]. by split; [..|split]. Qed.

Lemma space_ok_phys own res B B' m p : space_ok own res B m → pok own res B' m p → space_ok own res B' (set_phys p m).
Proof. intros [H1 H2 H3 H4 H5 [S1 S2 S3 S4]] Hp. by split; [..|split]. Qed.

Lemma flush_all_spec own res : (∀ ip off d fs, (inode_write ip off d fs).1 ≠ Panic) → ∀ l m,
  space_ok own res (wb_page <$> l) m → Forall wb_fits l →
  ∃ p', flush_all inode_write fs_begin fs_end l m =
      ((fs_apply (wb_data (sp_phys m) <$> l) (sp_fs m)).1,
       set_fs (fs_apply (wb_data (sp_phys m) <$> l) (sp_fs m)).2 (set_phys p' m)) ∧
    pok own res [] m p' ∧ ph_tables p' = ph_tables (sp_phys m) ∧
    ∀ q, q ∈ rm res ⊎ sm (segs m) → ph_pages p' !! q = ph_pages (sp_phys m) !! q.
Proof.
  intros Hnp. induction l as [|w l IH]; intros m Hok Hf; cbn [flush_all fmap list_fmap fs_apply].
  { exists (sp_phys m). split_and!; [by destruct m|apply Hok|done|done]. }
  apply Forall_cons in Hf as [Hw Hf]. destruct (sk_mem _ _ _ _ Hok) as [Hm Hr]. simpl in Hm.
  destruct (mo_buf _ _ _ _ _ Hm (wb_page w)) as (_&_&_&(d&Hd&Hld)); [by left|].
  assert (Hread : read_page (wb_page w) (wb_data_off w) (wb_len w) (sp_phys m)
    = (Ok (take (wb_len w) (drop (wb_data_off w) d)), sp_phys m)) by (apply read_page_spec; [done|unfold wb_fits in Hw; lia]).
  destruct (drop_page_spec _ _ _ _ _ _ Hm) as (p1&Hrun1&Hm1&Ht1&Hp1).
  assert (Hpok1 : pok own res (wb_page <$> l) m p1) by (split; [done|by apply (res_ok_tables _ (sp_phys m))]).
  assert (Hkeep : ∀ q, q ∈ rm res ⊎ sm (segs m) → ph_pages p1 !! q = ph_pages (sp_phys m) !! q).
  { intros q Hq. rewrite Hp1, lookup_delete_ne; [done|]. intros <-. apply (led_not_buf _ _ _ _ _ _ Hm Hq). by left. }
  set (fs1 := fs_begin (sp_fs m)).
  assert (Hb : upd (λ m0, set_fs (fs_begin (sp_fs m0)) m0) m = (Ok (), set_fs fs1 m)) by done.
  unfold try_with at 1. unfold flush. rewrite (bind_ok _ _ _ _ _ Hb).
  rewrite (bind_ok _ _ _ _ _ (vm_read _ (set_fs fs1 m) _ Hread)). unfold try_with at 1. simpl.
  rewrite Hd. simpl. fold fs1.
  specialize (Hnp (wb_ip w) (wb_file_off w) (take (wb_len w) (drop (wb_data_off w) d)) fs1).
  destruct (inode_write _ _ _ fs1) as [[[]|e|] fs2] eqn:Hwr; [| |done].
  - set (m2 := set_fs (fs_end fs2) (set_phys p1 m)).
    assert (He : upd (λ m0, set_fs (fs_end (sp_fs m0)) m0) (set_fs fs2 m) = (Ok (), set_fs (fs_end fs2) m)) by done.
    rewrite (bind_ok _ _ _ _ _ He).
    rewrite (vm_run (drop_page (wb_page w)) (set_fs (fs_end fs2) m) _ _ Hrun1).
    change (set_phys p1 (set_fs (fs_end fs2) m)) with m2.
    destruct (IH m2) as (p2&Hrun2&Hpok2&Ht2&Hp2); [by apply space_ok_fs, (space_ok_phys _ _ _ _ _ _ Hok)|done|].
    assert (Hsame : wb_data (sp_phys m2) <$> l = wb_data (sp_phys m) <$> l).
    { apply list_fmap_ext. intros i x Hx. unfold wb_data. simpl. rewrite Hp1, lookup_delete_ne; [done|]. intros E.
      pose proof (mo_bufs _ _ _ _ _ Hm) as Hnd. apply NoDup_cons in Hnd as [Hnd _]. apply Hnd. rewrite E.
      apply list_elem_of_fmap. exists x. split; [done|]. by eapply list_elem_of_lookup_2. }
    rewrite Hsame in Hrun2. exists p2. split_and!; [exact Hrun2|exact Hpok2|by rewrite Ht2|].
    intros q Hq. rewrite (Hp2 q Hq). by apply Hkeep.
  - rewrite (bind_ok _ _ _ _ _ (vm_run (drop_page (wb_page w)) (set_fs fs2 m) _ _ Hrun1)). simpl.
    destruct (drop_wbs_spec own res (set_fs fs2 m) l p1 Hpok1) as (p2&Hrun2&Hpok2&Ht2&Hp2).
    rewrite (bind_ok _ _ _ _ _ Hrun2). exists p2. split_and!; [done|exact Hpok2|congruence|].
    intros q Hq. rewrite (Hp2 q Hq). by apply Hkeep.
Qed.

Lemma fs_apply_no_panic : (∀ ip off d fs, (inode_write ip off d fs).1 ≠ Panic) → ∀ l fs, (fs_apply l fs).1 ≠ Panic.
Proof.
  intros Hnp. induction l as [|[[ip off] d] l IH]; intros fs; simpl; [done|]. specialize (Hnp ip off d (fs_begin fs)).
  destruct (inode_write ip off d (fs_begin fs)) as [[]]; [apply IH|done|done].
Qed.

Lemma munmap_run addr len m : addr mod 4096 = 0 → 0 < len → addr + len + 4096 ≤ 2 ^ 64 → 0 ≤ addr →
  munmap inode_write fs_begin fs_end addr len m =
    (wbs ← munmap_loop addr (addr + pgroundup len) [] (vmas m) []; flush_all inode_write fs_begin fs_end wbs) m.
Proof.
  intros Hal Hlen Hmax Ha. assert (Hpg : pgroundup len = (len + 4095) / 4096 * 4096) by (apply pgroundup_alt; lia).
  unfold munmap, is_aligned, checked_pgroundup, usize_add, PGSIZE. rewrite Hal, (proj2 (Z.eqb_neq len 0)) by lia. simpl.
  rewrite (proj2 (Z.leb_le _ _)) by (unfold USIZE_MAX; lia). rewrite (bind_ok (of_res _) _ _ _ _ eq_refl).
  rewrite (proj2 (Z.leb_le _ _)) by (unfold USIZE_MAX; lia). by rewrite (bind_ok (of_res _) _ _ _ _ eq_refl).
Qed.
End munmap.

(** Why [munmap] of the pages from [start] to [end_] fails: it would split a
    segment, a page with data for a file cannot be copied, or writing the
    data to the files fails. *)
Definition munmap_refused {FS} inode_write fs_begin fs_end (m : Space (FS := FS)) (start end_ : Z) (e : Error) : Prop :=
  let ds := dirty (sp_phys m) (sp_root m) start end_ (vmas m) in
  e = InvalidArgument ∧ Exists (split_shm start end_) (vmas m) ∨
  save_fails (frees m) ds e ∨
  (fs_apply inode_write fs_begin fs_end ds (sp_fs m)).1 = Err e.

Lemma munmap_spec {FS} inode_write fs_begin fs_end (m : Space (FS := FS)) addr len :
  (∀ ip off d fs, (inode_write ip off d fs).1 ≠ Panic) → mmap_ok m →
  0 ≤ addr → addr mod 4096 = 0 → 0 < len → addr + len + 4096 ≤ 2 ^ 64 →
  let end_ := addr + pgroundup len in
  let pte := pte_at (sp_phys m) (sp_root m) in
  ∃ r m', munmap inode_write fs_begin fs_end addr len m = (r, m') ∧ r ≠ Panic ∧ mmap_ok m' ∧
    (∀ e, r = Err e → munmap_refused inode_write fs_begin fs_end m addr end_ e) ∧
    (r = Ok () →
      (∀ va, view (vmas m') va = if decide (addr ≤ va < end_) then None else view (vmas m) va) ∧
      (∀ x, 0 ≤ x < MAXVA → ¬ addr ≤ x < end_ → pte_at (sp_phys m') (sp_root m') x = pte x) ∧
      (∀ x, mmap_base m ≤ x < TOP → addr ≤ x < end_ → is_v (pte_at (sp_phys m') (sp_root m') x) = false) ∧
      (∀ x, mmap_base m ≤ x < TOP → ¬ addr ≤ x < end_ → is_v (pte x) = true →
         ph_pages (sp_phys m') !! to_pa (pte x) = ph_pages (sp_phys m) !! to_pa (pte x)) ∧
      fs_apply inode_write fs_begin fs_end (dirty (sp_phys m) (sp_root m) addr end_ (vmas m)) (sp_fs m)
        = (Ok (), sp_fs m') ∧
      mmap_base m' = mmap_base m).
Proof.
  intros Hnp (own&res&Hok) Ha Hal Hlen Hmax end_ pte. destruct TOP_facts as (_&_&HT&HM). pose proof (lo_nonneg m) as Hlo.
  assert (Hpg : pgroundup len = (len + 4095) / 4096 * 4096) by (apply pgroundup_alt; lia).
  assert (Hend : end_ mod 4096 = 0 ∧ addr < end_) by (unfold end_; lia).
  rewrite munmap_run by (done || lia). fold end_.
  destruct (munmap_loop_spec own addr end_ Hal (proj1 Hend) (proj2 Hend) (vmas m) [] [] m res Hok eq_refl (Forall_nil_2 _))
    as [(e&m'&res'&Hrun&Hok'&Hfail)|(ws&m1&res1&Hrun&Hok1&Haw&Hsub&Hws&U)].
  { exists (Err e), m'. unfold mbind, M_bind. rewrite Hrun. split_and!; [done|done|by exists own, res'| |done].
    intros ? [= <-]. unfold munmap_refused. tauto. }
  rewrite app_nil_l in *. pose proof (munmap_loop_fits _ _ _ _ _ _ _ _ Hrun (Forall_nil_2 _)) as Hfits.
  destruct (flush_all_spec inode_write fs_begin fs_end own res1 Hnp ws m1 Hok1 Hfits) as (p2&Hrun2&Hpok2&Ht2&Hp2).
  destruct (um_same _ _ _ _ _ _ _ U) as (U1&U2&U3&U4&_). rewrite Hws, U4 in Hrun2.
  set (out := fs_apply inode_write fs_begin fs_end _ (sp_fs m)) in *.
  exists out.1, (set_fs out.2 (set_phys p2 m1)). rewrite (bind_ok _ _ _ _ _ Hrun). split_and!; [done| | | |].
  { by apply fs_apply_no_panic. }
  { exists own, res1. apply space_ok_fs. by apply (space_ok_phys _ _ _ _ _ _ Hok1). }
  { intros e Hout. right. by right. }
  intros Hout. simpl. rewrite U1, U3.
  assert (Hpte2 : ∀ x, pte_at p2 (sp_root m) x = pte_at (sp_phys m1) (sp_root m) x) by (intros; by apply pte_at_tables).
  assert (Hres1 := λ x Hx, area_entry own res1 _ m1 x Hok1 Hx). rewrite U1, U3 in Hres1. cbv zeta in Hres1.
  split_and!; [| | | | |done].
  - intros va. case_decide as Hin; [|by apply U]. apply view_None. eapply Forall_impl; [exact Haw|].
    intros v Hv. apply contains_pg_false. unfold away in Hv. lia.
  - intros x Hx Hx2. rewrite Hpte2. by apply U.
  - intros x Hx Hin. rewrite Hpte2. destruct (Hres1 x Hx) as [-> Hy]. destruct (res1 !! _) as [pa|] eqn:E; [|done].
    exfalso. destruct (sk_cov _ _ _ _ Hok1 _ _ E) as (v&Hv&Hc). rewrite Forall_forall in Haw. specialize (Haw v Hv).
    apply contains_pg_spec in Hc. unfold away in Haw. lia.
  - intros x Hx Hout2 Hiv. destruct (sk_base _ _ _ _ Hok) as (_&Hb2&_).
    assert (E0 : pte_at (sp_phys m1) (sp_root m) x = pte x) by (apply U; [lia|done]).
    destruct (Hres1 x Hx) as [E1 Hy]. rewrite <-E0, E1 in Hiv |- *.
    destruct (res1 !! _) as [pa|] eqn:E; [|congruence]. rewrite Hy.
    assert (pa ∈ rm res1) by (by eapply rm_elem).
    rewrite Hp2 by multiset_solver. apply U. by left.
  - rewrite <-Hout. by destruct out.
Qed.
