(* ===== verification/MmapFault.v ===== *)
(** * Page faults and new mappings

    [mmap] and [handle_user_page_fault]: a new mapping takes fresh addresses
    below all others; a fault brings in the one page it is about. *)

From stdpp Require Import base tactics numbers gmap gmultiset list.
From S2P Require Import Prelude Params Errors UserMem PageTable PtSpec UvmMem Mmap MmapMem MmapInv MmapSpec.
Local Open Scope Z_scope.
Ltac Zify.zify_post_hook ::= Z.to_euclidean_division_equations.

(** The entry for a page of the mapping [v]. *)
Definition vma_pte (v : Vma) (pa : Z) : Z := pte_set pa (Z.lor (vma_perm v) PTE_V).

Lemma vma_pte_facts cause v pa : fault_denied cause v = false → pa mod 4096 = 0 →
  is_v (vma_pte v pa) = true ∧ is_leaf (vma_pte v pa) = true ∧ is_u (vma_pte v pa) = true ∧ to_pa (vma_pte v pa) = pa.
Proof.
  intros Hd Hpa. unfold vma_pte. rewrite is_v_flags, is_leaf_flags, is_u_flags. unfold vma_perm.
  destruct (has (v_prot v) PROT_READ) eqn:H1, (has (v_prot v) PROT_WRITE) eqn:H2, (has (v_prot v) PROT_EXEC) eqn:H3;
    rewrite ?to_pa_set, ?flags_set by (done || (vm_compute; split; congruence)); try done.
  destruct cause; simpl in Hd; rewrite ?H1, ?H2, ?H3 in Hd; done.
Qed.

Section fault.
Context {FS : Type}.
Implicit Types m : Space (FS := FS).

(** ** New mappings *)

Lemma view_fresh own res B m v va : space_ok own res B m → v_start v ≤ va < end_pg v → end_pg v ≤ mmap_base m →
  view (vmas m) va = None.
Proof.
  intros Hok Hva He. apply view_None. eapply Forall_impl; [apply (sk_vmas _ _ _ _ Hok)|].
  intros w [_ Hw]. apply contains_pg_false. simpl in Hw. lia.
Qed.

Lemma space_ok_push own res B m v :
  space_ok own res B m → vma_wf v → lo m ≤ v_start v → end_pg v ≤ mmap_base m → v_shm v = None →
  space_ok own res B (set_vmas (vmas m ++ [v]) (set_base (v_start v) m)).
Proof.
  intros [Hm (Hb1&Hb2&Hb3) Hvs Hd Hc [S1 S2 S3 S4]] Hv Hlo He Hs. pose proof (end_pg_al v Hv) as (E1&E2&_).
  pose proof (vw_al v Hv). split; simpl; [done| | | | |].
  - change (lo (set_vmas (vmas m ++ [v]) (set_base (v_start v) m))) with (lo m). split_and!; [done|done|lia|lia|lia].
  - apply Forall_app. split; [|by constructor; [split; [done|lia]|constructor]].
    eapply Forall_impl; [exact Hvs|]. intros w [Hw Hwb]. split; [done|]. lia.
  - apply disjoint_app. split_and!; [done|simpl; split; [constructor|done]|]. eapply Forall_impl; [exact Hvs|].
    intros w [_ Hwb]. constructor; [|constructor]. right. lia.
  - intros a pa Ha. destruct (Hc a pa Ha) as (w&Hw&Hcw). exists w. rewrite elem_of_app. auto.
  - split; simpl; [done| | |done].
    + intros g seg Hg. destruct (S2 g seg Hg) as (A1&A2&A3). split_and!; [|done|apply A3..]. unfold shm_refs in *. simpl.
      rewrite filter_app, filter_cons, decide_False by congruence. rewrite filter_nil, app_nil_r. done.
    + intros w g [Hw|Hw]%elem_of_app Hg; [by apply S3|]. apply list_elem_of_singleton in Hw as ->. congruence.
Qed.

Lemma alloc_mmap_va_spec own res B m len :
  space_ok own res B m → 0 < len → len + 4096 ≤ 2 ^ 64 →
  (∃ e, alloc_mmap_va (sp_sz m) len m = (Err e, m)) ∨
  (let start := mmap_base m - pgroundup len in
   alloc_mmap_va (sp_sz m) len m = (Ok start, set_base start m) ∧ lo m ≤ start ∧ len ≤ TOP ∧
   pgroundup len = (len + 4095) / 4096 * 4096).
Proof.
  intros Hok Hlen Hmax. destruct (sk_base _ _ _ _ Hok) as (Hb1&Hb2&Hb3). pose proof (lo_nonneg m) as Hlo.
  destruct TOP_facts as (HT1&_&HT&HM). assert (Hpg : pgroundup len = (len + 4095) / 4096 * 4096) by (apply pgroundup_alt; lia).
  assert (Hchk : ∀ z, z + 4096 ≤ 2 ^ 64 → checked_pgroundup z = Ok (pgroundup z)).
  { intros z Hz. unfold checked_pgroundup, PGSIZE. by rewrite (proj2 (Z.leb_le _ _)) by (unfold USIZE_MAX; lia). }
  unfold alloc_mmap_va. rewrite !Hchk by lia. fold (lo m).
  rewrite (bind_ok (of_res _) _ _ _ _ eq_refl), (bind_ok m_get _ m m m eq_refl), (proj2 (Z.eqb_neq _ _)) by lia.
  destruct (Z.ltb_spec (mmap_base m) (pgroundup len)) as [|Hge]; [left; by eexists|].
  rewrite (bind_ok (of_res _) _ _ _ _ eq_refl). rewrite rounddown_alt by lia.
  replace (mmap_base m - pgroundup len - (mmap_base m - pgroundup len) mod 4096) with (mmap_base m - pgroundup len) by lia.
  destruct (Z.ltb_spec (mmap_base m - pgroundup len) (lo m)) as [|Hlo2]; [left; by eexists|]. right. cbv zeta.
  split_and!; [done|lia|lia|done].
Qed.

(** A successful [mmap] adds a mapping on addresses that had none, below all
    others, and touches nothing else; one that fails changes nothing. *)
Lemma mmap_spec own res B m ofile addr len prot flags fd offset :
  space_ok own res B m → 0 ≤ len → len + 4096 ≤ 2 ^ 64 → 0 ≤ offset → offset + len + 4096 ≤ 2 ^ 64 →
  (∃ e, mmap ofile addr len prot flags fd offset m = (Err e, m)) ∨
  ∃ file, let v := mkVma (mmap_base m - pgroundup len) len prot flags file offset None in
    let m' := set_vmas (vmas m ++ [v]) (set_base (v_start v) m) in
    mmap ofile addr len prot flags fd offset m = (Ok (v_start v), m') ∧
    space_ok own res B m' ∧ end_pg v = mmap_base m ∧
    ∀ va, view (vmas m') va = if contains_pg v va then Some (backs v va) else view (vmas m) va.
Proof.
  intros Hok Hlen Hmax Hoff Hoff2. unfold mmap. destruct (negb (addr =? 0)); [left; by eexists|].
  destruct (Z.eqb_spec len 0); [left; by eexists|]. destruct (negb _); [left; by eexists|]. destruct (Bool.eqb _ _); [left; by eexists|].
  assert (Hfile : (∃ e, mmap_file ofile prot flags fd m = (Err e, m)) ∨ ∃ f, mmap_file ofile prot flags fd m = (Ok f, m)).
  { unfold mmap_file. repeat case_match; eauto. }
  destruct Hfile as [[e He]|[f Hf]]; [left; exists e; unfold mbind, M_bind; by rewrite He|].
  rewrite (bind_ok _ _ _ _ _ Hf), (bind_ok m_get _ m m m eq_refl).
  destruct (alloc_mmap_va_spec own res B m len Hok) as [[e He]|(Hrun&Hlo&Hle&Hpg)]; [lia|done| |].
  { left. exists e. unfold mbind at 1, M_bind at 1. by rewrite He. }
  right. exists f. cbv zeta. set (v := mkVma (mmap_base m - pgroundup len) len prot flags f offset None).
  set (m' := set_vmas (vmas m ++ [v]) (set_base (v_start v) m)). rewrite (bind_ok _ _ _ _ _ Hrun). destruct (sk_base _ _ _ _ Hok) as (Hb1&Hb2&Hb3).
  pose proof (lo_nonneg m). destruct TOP_facts as (HT1&_&HT&HM).
  assert (Hend : end_pg v = mmap_base m) by (unfold end_pg, len_pg, v; simpl; lia).
  assert (Hv : vma_wf v).
  { split; [simpl; lia|simpl; lia|simpl; lia|lia|]. unfold len_pg. simpl. unfold USIZE_MAX. lia. }
  split_and!; [done| |done|].
  - by apply space_ok_push; [..|lia|].
  - intros va. unfold m'. simpl. rewrite view_app. simpl. destruct (contains_pg v va) eqn:Hc; [|by destruct (view (vmas m) va)].
    apply contains_pg_spec in Hc. rewrite (view_fresh own res B m v va Hok Hc) by lia. done.
Qed.

(** ** Page faults *)

Lemma present_spec own res B m va : space_ok own res B m → va mod 4096 = 0 → lo m ≤ va < TOP →
  present va m = (Ok (bool_decide (is_Some (res !! va))), m).
Proof.
  intros Hok Hal Hva. destruct (sk_mem _ _ _ _ Hok) as [Hm [Hr _]]. specialize (Hr va Hal Hva). cbv zeta in Hr.
  destruct TOP_facts as (_&_&HT&_). pose proof (lo_nonneg m). unfold present. rewrite (bind_ok m_get _ m m m eq_refl).
  destruct (walk_noalloc _ _ _ (mo_wf _ _ _ _ _ Hm) va ltac:(lia)) as [[Hw Hp]|(p&Hw&Hp&_&He)].
  - rewrite (bind_ok _ _ _ _ _ (vm_read _ _ _ Hw)). destruct (res !! va); [|done]. destruct Hr as [Hr _].
    unfold pte_at in Hr. by rewrite Hp in Hr.
  - rewrite (bind_ok _ _ _ _ _ (vm_read _ _ _ Hw)).
    rewrite (bind_ok _ _ _ _ _ (vm_read _ _ _ (get_pte_entry (p, px va 0) _ _ He))).
    destruct (res !! va); [by destruct Hr as (->&->&->&_)|by rewrite Hr].
Qed.

(** The page of [va] becomes resident. *)
Lemma space_ok_map own own' res B m p' v va pa :
  space_ok own res B m → v ∈ vmas m → contains_pg v va = true → va mod 4096 = 0 → res !! va = None →
  (∀ x, 0 ≤ x < MAXVA → pte_at p' (sp_root m) x =
     if x / 4096 =? va / 4096 then vma_pte v pa else pte_at (sp_phys m) (sp_root m) x) →
  is_v (vma_pte v pa) = true ∧ is_leaf (vma_pte v pa) = true ∧ is_u (vma_pte v pa) = true ∧ to_pa (vma_pte v pa) = pa →
  mem_ok own' (rm res ⊎ sm (segs m) ⊎ {[+ pa +]}) B (sp_root m) p' →
  space_ok own' (<[va := pa]> res) B (set_phys p' m).
Proof.
  intros [[Hm [Hr1 Hr2]] (Hb1&Hb2&Hb3) Hvs Hd Hc [S1 S2 S3 S4]] Hv Hcv Hal Hn Hpte Hp Hm'.
  pose proof (lo_nonneg m). destruct TOP_facts as (_&_&HT&_). apply contains_pg_spec in Hcv as Hcv'.
  assert (Hvw : vma_wf v ∧ mmap_base m ≤ v_start v) by (by rewrite Forall_forall in Hvs; apply Hvs). destruct Hvw as [Hvw Hvb].
  pose proof (vw_top v Hvw). split; simpl; [|exact (conj Hb1 (conj Hb2 Hb3))|done|done| |by split].
  - split.
    + eapply mem_ok_sub; [|exact Hm']. rewrite rm_insert by done. multiset_solver.
    + split.
      * intros a Ha Har. cbv zeta. change (lo (set_phys p' m)) with (lo m) in Har. rewrite Hpte by lia.
        destruct (decide (a = va)) as [->|Hne].
        -- rewrite Z.eqb_refl, lookup_insert_eq. done.
        -- rewrite (proj2 (Z.eqb_neq _ _)), lookup_insert_ne by (done || lia). by apply Hr1.
      * intros a q. change (lo (set_phys p' m)) with (lo m). rewrite lookup_insert_Some. intros [[<- _]|[_ ?]]; [lia|by eapply Hr2].
  - intros a q. rewrite lookup_insert_Some. intros [[<- _]|[_ ?]]; [by exists v|by eapply Hc].
Qed.

Lemma find_view vs va : match list_find (λ v, contains_pg v va = true) vs with
  | Some (_, v) => v ∈ vs ∧ contains_pg v va = true ∧ view vs va = Some (backs v va)
  | None => view vs va = None
  end.
Proof.
  destruct (list_find _ vs) as [[i v]|] eqn:E.
  - apply list_find_Some in E as (Hi&Hc&Hbefore). split_and!; [by eapply list_elem_of_lookup_2|done|].
    revert i Hi Hbefore. induction vs as [|w vs IH]; intros i Hi Hb; [done|]. simpl. destruct i as [|i].
    + injection Hi as ->. by rewrite Hc.
    + destruct (contains_pg w va) eqn:Hw; [exfalso; apply (Hb 0%nat w); [done|lia|done]|].
      apply (IH i Hi). intros j y Hj Hlt. apply (Hb (S j)); [done|lia].
  - apply list_find_None in E. apply view_None. eapply Forall_impl; [exact E|]. intros v Hv. simpl in Hv.
    by destruct (contains_pg v va).
Qed.

Lemma disjoint_unique vs v w va : disjoint_all vs → v ∈ vs → w ∈ vs → contains_pg v va = true → contains_pg w va = true → v = w.
Proof.
  induction vs as [|u vs IH]; intros Hd Hv Hw; [by apply elem_of_nil in Hv|]. rewrite !contains_pg_spec. simpl in Hd.
  destruct Hd as [Hu Hd]. rewrite Forall_forall in Hu. intros Cv Cw.
  apply elem_of_cons in Hv as [->|Hv]; apply elem_of_cons in Hw as [->|Hw].
  - done.
  - destruct (Hu w Hw); lia.
  - destruct (Hu v Hv); lia.
  - apply IH; by rewrite ?contains_pg_spec.
Qed.

Context (inode_read : Z → Z → nat → FS → Result (list Z)).

(** What a fresh page of the mapping holds: the bytes of the file, and zeros
    where there are none. *)
Definition fault_data (v : Vma) (va : Z) (fs : FS) : Result (list Z) :=
  match v_file v with
  | Some f =>
      match mf_inode f with
      | Some ip =>
          let off := v_file_off v + (va - v_start v) in
          if negb (is_anon v) && (off <=? 2 ^ 32 - 1) then
            bs ← inode_read ip off (Z.to_nat PGSIZE) fs; Ok (splice zero_page 0 bs)
          else Ok zero_page
      | None => Ok zero_page
      end
  | None => Ok zero_page
  end.

(** Reads do not panic and return at most what was asked for. *)
Definition reader_ok : Prop :=
  ∀ ip off n fs, match inode_read ip off n fs with Ok bs => (length bs ≤ n)%nat | Err _ => True | Panic => False end.

Lemma load_page_spec own L m v va mem : reader_ok →
  mem_ok own L [mem] (sp_root m) (sp_phys m) → ph_pages (sp_phys m) !! mem = Some zero_page →
  vma_wf v → v_start v ≤ va < end_pg v →
  ∃ p', ph_tables p' = ph_tables (sp_phys m) ∧
    match fault_data v va (sp_fs m) with
    | Ok d => load_page inode_read v va mem m = (Ok (), set_phys p' m) ∧ mem_ok own L [mem] (sp_root m) p' ∧
              ph_pages p' = <[mem := d]> (ph_pages (sp_phys m)) ∧ ph_free p' = ph_free (sp_phys m)
    | Err e => load_page inode_read v va mem m = (Err e, set_phys p' m) ∧ mem_ok own L [] (sp_root m) p' ∧
               ph_pages p' = delete mem (ph_pages (sp_phys m))
    | Panic => False
    end.
Proof using inode_read.
  intros Hrd Hm Hz Hv Hva.
  assert (Hzero : load_page inode_read v va mem m = (Ok (), m) → ∃ p', ph_tables p' = ph_tables (sp_phys m) ∧
    load_page inode_read v va mem m = (Ok (), set_phys p' m) ∧ mem_ok own L [mem] (sp_root m) p' ∧
    ph_pages p' = <[mem := zero_page]> (ph_pages (sp_phys m)) ∧ ph_free p' = ph_free (sp_phys m)).
  { intros ->. exists (sp_phys m). rewrite set_phys_id, insert_id by done. done. }
  unfold fault_data. unfold load_page in *. destruct (is_anon v) eqn:Han; cbn [negb andb].
  { destruct (v_file v) as [f|]; [destruct (mf_inode f)|]; by apply Hzero. }
  destruct (v_file v) as [f|]; [|by apply Hzero]. destruct (mf_inode f) as [ip|]; [|by apply Hzero].
  assert (Hadd : usize_add (v_file_off v) (va - v_start v) = Ok (v_file_off v + (va - v_start v))).
  { unfold usize_add. rewrite (proj2 (Z.leb_le _ _)); [done|]. destruct Hv as [V1 V2 V3 V4 V5]. unfold end_pg in Hva. lia. }
  rewrite Hadd, (bind_ok (of_res _) _ _ _ _ eq_refl) in *. destruct (_ <=? _); [|by apply Hzero].
  clear Hzero. rewrite (bind_ok m_get _ m m m eq_refl). specialize (Hrd ip (v_file_off v + (va - v_start v)) (Z.to_nat PGSIZE) (sp_fs m)).
  destruct (inode_read _ _ _ _) as [bs|e|]; simpl; [| |done].
  - change (Z.to_nat PGSIZE) with 4096%nat in Hrd. pose proof length_zero_page as Hlz.
    destruct (put_page_spec own L [mem] (sp_root m) (sp_phys m) mem (splice zero_page 0 bs) Hm) as (p'&Hrun&Hm'&Ht&Hp&Hfr&_);
      [by left|rewrite length_splice; lia|].
    exists p'. split_and!; [done| |done|done|done]. apply vm_run. unfold write_page.
    assert (Hget : get_page mem (sp_phys m) = (Ok zero_page, sp_phys m)) by (unfold get_page; by rewrite Hz).
    rewrite (bind_ok _ _ _ _ _ Hget), (proj2 (Nat.leb_le _ _)) by lia. done.
  - destruct (drop_page_spec _ _ _ _ _ _ Hm) as (p'&Hrun&Hm'&Ht&Hp). exists p'. split_and!; [done| |done|done].
    by rewrite (bind_ok _ _ _ _ _ (vm_run _ _ _ _ Hrun)).
Qed.

(** What a fault on an absent page returns: it succeeds unless the pages for
    the tables that are missing, and for the data if it is not in a segment,
    are not there, or the file cannot be read. *)
Definition fault_result (m : Space (FS := FS)) (v : Vma) (va : Z) : Result () :=
  let need := missing (sp_phys m) (sp_root m) va in
  let free := length (ph_free (sp_phys m)) in
  match v_shm v with
  | Some _ => if (need <=? free)%nat then Ok () else Err OutOfMemory
  | None =>
      if (free =? 0)%nat then Err OutOfMemory else
      _ ← fault_data v va (sp_fs m);
      if (need + 1 <=? free)%nat then Ok () else Err OutOfMemory
  end.

(** The outcome of a fault on an absent page of the mapping [v]. *)
Record faulted (m m' : Space (FS := FS)) (v : Vma) (va : Z) (r : Result ()) : Prop := {
  ft_result : r = fault_result m v va;
  ft_ok : mmap_ok m';
  ft_vmas : vmas m' = vmas m ∧ sp_fs m' = sp_fs m ∧ sp_root m' = sp_root m;
  ft_pte x : 0 ≤ x < MAXVA → r ≠ Ok () ∨ x / 4096 ≠ va / 4096 →
    pte_at (sp_phys m') (sp_root m) x = pte_at (sp_phys m) (sp_root m) x;
  ft_pages q : page_at (sp_phys m) q → ph_pages (sp_phys m') !! q = ph_pages (sp_phys m) !! q;
  ft_new : r = Ok () → ∃ pa d, pte_at (sp_phys m') (sp_root m) va = vma_pte v pa ∧ ph_pages (sp_phys m') !! pa = Some d ∧
    match v_shm v with
    | Some g => ∃ seg, segs m !! g = Some seg ∧ shm_pages seg !! Z.to_nat ((va - v_start v) / PGSIZE) = Some pa
    | None => fault_data v va (sp_fs m) = Ok d
    end;
}.

(** The state after a failure: as before, up to table pages. *)
Lemma faulted_err own own' res m p' v va e :
  space_ok own res [] m → mem_ok own' (rm res ⊎ sm (segs m)) [] (sp_root m) p' →
  (∀ x, 0 ≤ x < MAXVA → pte_at p' (sp_root m) x = pte_at (sp_phys m) (sp_root m) x) →
  (∀ q, page_at (sp_phys m) q → ph_pages p' !! q = ph_pages (sp_phys m) !! q) →
  Err e = fault_result m v va → faulted m (set_phys p' m) v va (Err e).
Proof using inode_read.
  intros Hok Hm Hpte Hpg Hr. split; [done| |done|intros x Hx _; by apply Hpte|done|done]. exists own', res.
  destruct Hok as [[_ [Hr1 Hr2]] H2 H3 H4 H5 [S1 S2 S3 S4]]. split; simpl; [|done|done|done|done|by split].
  split; [done|]. split; [|done]. intros a Ha Har. pose proof (lo_nonneg m). destruct TOP_facts as (_&_&HT&_).
  change (lo (set_phys p' m)) with (lo m) in Har. rewrite Hpte by lia. by apply Hr1.
Qed.

Section one.
Context (own : gmap Z (nat * Z)) (res : gmap Z Z) (m : Space (FS := FS)) (Hok : space_ok own res [] m) (v : Vma) (va : Z).
Context (Hv : v ∈ vmas m) (Hcv : contains_pg v va = true) (Hal : va mod 4096 = 0) (Hn : res !! va = None).
Context (cause : Fault) (Hden : fault_denied cause v = false).

Lemma fault_facts : vma_wf v ∧ v_start v ≤ va < end_pg v ∧ lo m ≤ va < TOP ∧ 0 ≤ va ∧ va + 4096 ≤ MAXVA ∧
  is_v (pte_at (sp_phys m) (sp_root m) va) = false.
Proof using All.
  pose proof (sk_vmas _ _ _ _ Hok) as Hvs. rewrite Forall_forall in Hvs. destruct (Hvs v Hv) as [Hvw Hvb].
  destruct (sk_base _ _ _ _ Hok) as (_&[Hb _]&_). pose proof (vw_top v Hvw). pose proof (lo_nonneg m).
  destruct TOP_facts as (_&_&HT&_). apply contains_pg_spec in Hcv as Hc. split_and!; [done|lia|lia|lia|lia|lia|lia|].
  destruct (sk_mem _ _ _ _ Hok) as [_ [Hr _]]. specialize (Hr va Hal ltac:(lia)). cbv zeta in Hr. by rewrite Hn in Hr.
Qed.

Lemma page_kept q p1 p2 mem d : ph_pages (sp_phys m) !! mem = None → ph_pages p1 = <[mem := d]> (ph_pages (sp_phys m)) →
  (ph_pages p2 = ph_pages p1 ∨ ph_pages p2 = delete mem (ph_pages p1)) →
  page_at (sp_phys m) q → ph_pages p2 !! q = ph_pages (sp_phys m) !! q.
Proof using.
  intros Hno H1 H2 (e&He&_). assert (q ≠ mem) by congruence.
  destruct H2 as [->| ->]; rewrite ?lookup_delete_ne by done; by rewrite H1, lookup_insert_ne.
Qed.

Lemma fresh_fault : reader_ok → v_shm v = None →
  ∃ r m', (o ← vm new_page;
     match o with
     | None => m_err OutOfMemory
     | Some mem =>
         _ ← load_page inode_read v va mem;
         there ← present va;
         if (there : bool) then vm (drop_page mem)
         else try_with (vm (mappages (sp_root m) va mem PGSIZE (vma_perm v)))
                (λ _, vm (page_ref_init mem)) (λ e, _ ← vm (drop_page mem); m_err e)
     end) m = (r, m') ∧ r ≠ Panic ∧ faulted m m' v va r.
Proof using All.
  intros Hrd Hshm. destruct fault_facts as (Hvw&Hc&Hlo&H0&Hmax&Hiv). destruct (sk_mem _ _ _ _ Hok) as [Hm Hr].
  destruct (ph_free (sp_phys m)) as [|mem fr] eqn:Hfree.
  { exists (Err OutOfMemory), m. rewrite (bind_ok _ _ m None m) by (apply vm_read; unfold new_page; by rewrite Hfree).
    split_and!; [done|done|]. rewrite <-(set_phys_id m) at 2. apply (faulted_err own own res); [done..|].
    unfold fault_result. by rewrite Hshm, Hfree. }
  destruct (new_page_spec _ _ _ _ _ mem fr Hm Hfree) as (p1&Hrun1&Hm1&Ht1&Hp1&Hf1&Hno&_).
  rewrite (bind_ok _ _ _ _ _ (vm_run _ _ _ _ Hrun1)).
  assert (Hpte1 : ∀ x, pte_at p1 (sp_root m) x = pte_at (sp_phys m) (sp_root m) x) by (intros; by apply pte_at_tables).
  destruct (load_page_spec own _ (set_phys p1 m) v va mem Hrd Hm1) as (p2&Ht2&Hload);
    [simpl; by rewrite Hp1, lookup_insert_eq|done|done|]. simpl in Ht2, Hload.
  assert (Hpte2 : ∀ x, pte_at p2 (sp_root m) x = pte_at (sp_phys m) (sp_root m) x) by (intros x; rewrite <-Hpte1; by apply pte_at_tables).
  destruct (fault_data v va (sp_fs m)) as [d|e|] eqn:Hfd; [| |done].
  2:{ destruct Hload as (Hrun2&Hm2&Hp2). exists (Err e), (set_phys p2 m). unfold mbind at 1, M_bind at 1. rewrite Hrun2.
      split_and!; [done|done|]. apply (faulted_err own own res); [done|done|by intros; rewrite Hpte2| |].
      - intros q Hq. eapply page_kept; [exact Hno|exact Hp1|by right|done].
      - unfold fault_result. by rewrite Hshm, Hfree, Hfd. }
  destruct Hload as (Hrun2&Hm2&Hp2&Hf2). rewrite (bind_ok _ _ _ _ _ Hrun2). change (set_phys p2 (set_phys p1 m)) with (set_phys p2 m).
  assert (Hp2' : ph_pages p2 = <[mem := d]> (ph_pages (sp_phys m))) by (by rewrite Hp2, Hp1, insert_insert_eq).
  assert (Hok2 : space_ok own res [mem] (set_phys p2 m)).
  { apply (space_ok_phys _ _ _ _ _ _ Hok). split; [done|]. apply (res_ok_tables _ (sp_phys m)); [congruence|done]. }
  rewrite (bind_ok _ _ _ _ _ (present_spec _ _ _ _ va Hok2 Hal Hlo)), Hn. cbn [bool_decide]. unfold try_with.
  destruct (map_page_spec own _ [mem] (sp_root m) p2 va mem (vma_perm v) Hm2 H0 Hal Hmax) as (own'&p3&ok&Hrun3&Hm3&Hp3&_&Hpte3);
    [by rewrite Hpte2|]. rewrite (bool_decide_eq_false_2 (is_Some None)) by (by intros []).
  assert (Hres : (if ok then Ok () else Err OutOfMemory) = fault_result m v va).
  { apply (map_page_room own) in Hrun3 as ->; [|apply Hm2|done..].
    rewrite (missing_tables (sp_root m) (sp_phys m) p2) by congruence. unfold fault_result. rewrite Hshm, Hfree, Hfd, Hf2, Hf1. simpl.
    by destruct (Nat.leb_spec (missing (sp_phys m) (sp_root m) va) (length fr)), (Nat.leb_spec (missing (sp_phys m) (sp_root m) va + 1) (S (length fr))); try lia. }
  rewrite (vm_run (mappages _ _ _ _ _) (set_phys p2 m) _ _ Hrun3). change (set_phys p3 (set_phys p2 m)) with (set_phys p3 m).
  destruct ok; simpl in Hpte3.
  - destruct (page_ref_init_spec _ _ _ _ _ _ Hm3) as (p4&Hrun4&Hm4&Ht4&Hp4&_).
    rewrite (vm_run (page_ref_init mem) (set_phys p3 m) _ _ Hrun4). change (set_phys p4 (set_phys p3 m)) with (set_phys p4 m).
    assert (Hpte4 : ∀ x, 0 ≤ x < MAXVA → pte_at p4 (sp_root m) x =
      if x / 4096 =? va / 4096 then vma_pte v mem else pte_at (sp_phys m) (sp_root m) x).
    { intros x Hx. rewrite (pte_at_tables (sp_root m) p3 p4) by done. rewrite Hpte3 by done. by rewrite Hpte2. }
    assert (Hmal : mem mod 4096 = 0) by (apply pa2idx_aligned; by apply (mo_buf _ _ _ _ _ Hm3 mem); left).
    exists (Ok ()), (set_phys p4 m). split_and!; [done|done|]. split; [done| |done| | |].
    + exists own', (<[va := mem]> res). eapply (space_ok_map own own' res [] m p4 v va mem); try done. by eapply vma_pte_facts.
    + intros x Hx [?|Hne]; [done|]. simpl. by rewrite Hpte4, (proj2 (Z.eqb_neq _ _)) by done.
    + intros q Hq. simpl. rewrite Hp4, Hp3. eapply page_kept; [exact Hno|exact Hp2'|by left|done].
    + intros _. exists mem, d. simpl. rewrite Hpte4, Z.eqb_refl, Hp4, Hp3, Hp2', lookup_insert_eq, Hshm by lia. done.
  - destruct (drop_page_spec _ _ _ _ _ _ Hm3) as (p4&Hrun4&Hm4&Ht4&Hp4).
    rewrite (bind_ok _ _ _ _ _ (vm_run (drop_page mem) (set_phys p3 m) _ _ Hrun4)).
    exists (Err OutOfMemory), (set_phys p4 m). split_and!; [done|done|]. apply (faulted_err own own' res); [done|done| | |done].
    + intros x Hx. rewrite (pte_at_tables (sp_root m) p3 p4) by done. by rewrite Hpte3, Hpte2.
    + intros q Hq. eapply page_kept; [exact Hno|exact Hp2'| |exact Hq]. right. by rewrite Hp4, Hp3.
Qed.

Lemma shm_fault g seg : (∀ pa, pref (sp_phys m) pa < 2 ^ 16 - 1) → v_shm v = Some g → segs m !! g = Some seg →
  ∃ r m', (match shm_pages seg !! Z.to_nat ((va - v_start v) / PGSIZE) with
     | None => m_err InvalidArgument
     | Some pa => _ ← vm (mappages (sp_root m) va pa PGSIZE (vma_perm v)); vm (page_ref_inc pa)
     end) m = (r, m') ∧ r ≠ Panic ∧ faulted m m' v va r.
Proof using All.
  intros Hrefs Hshm Hseg. destruct fault_facts as (Hvw&Hc&Hlo&H0&Hmax&Hiv). destruct (sk_mem _ _ _ _ Hok) as [Hm Hr].
  destruct (so_vma _ (sk_seg _ _ _ _ Hok) v g Hv Hshm) as (seg'&Hseg'&Hlen). assert (seg' = seg) as -> by congruence.
  destruct (so_seg _ (sk_seg _ _ _ _ Hok) g seg Hseg) as (_&_&_&Hpg).
  destruct (lookup_lt_is_Some_2 (shm_pages seg) (Z.to_nat ((va - v_start v) / PGSIZE))) as [pa Hpa].
  { unfold PGSIZE. unfold end_pg, len_pg in Hc. rewrite Hlen, Hpg in Hc. lia. }
  rewrite Hpa. assert (HpaL : pa ∈ rm res ⊎ sm (segs m)).
  { rewrite (sm_delete _ _ _ Hseg), !gmultiset_elem_of_disj_union, elem_of_list_to_set_disj.
    right. right. by eapply list_elem_of_lookup_2. }
  destruct (map_page_spec own _ [] (sp_root m) (sp_phys m) va pa (vma_perm v) Hm H0 Hal Hmax Hiv)
    as (own'&p1&ok&Hrun1&Hm1&Hp1&Hrf1&Hpte1).
  assert (Hres : (if ok then Ok () else Err OutOfMemory) = fault_result m v va).
  { apply (map_page_room own) in Hrun1 as ->; [|apply Hm|done..]. unfold fault_result. by rewrite Hshm. }
  destruct ok; simpl in Hpte1.
  - destruct (page_ref_inc_spec _ _ _ _ p1 pa Hm1 HpaL) as (p2&Hrun2&Hm2&Ht2&Hp2&_&_); [unfold pref; rewrite Hrf1; apply Hrefs|].
    exists (Ok ()), (set_phys p2 m). rewrite (bind_ok _ _ _ _ _ (vm_run _ m _ _ Hrun1)).
    rewrite (vm_run (page_ref_inc pa) (set_phys p1 m) _ _ Hrun2). split_and!; [done|done|].
    assert (Hpte2 : ∀ x, 0 ≤ x < MAXVA → pte_at p2 (sp_root m) x =
      if x / 4096 =? va / 4096 then vma_pte v pa else pte_at (sp_phys m) (sp_root m) x).
    { intros x Hx. rewrite (pte_at_tables (sp_root m) p1 p2) by done. by apply Hpte1. }
    destruct (mo_led _ _ _ _ _ Hm pa HpaL) as (Hidx&_&_&(d&Hd&_)). split; [done| |done| | |].
    + exists own', (<[va := pa]> res). eapply (space_ok_map own own' res [] m p2 v va pa); try done.
      eapply vma_pte_facts; [done|by apply pa2idx_aligned].
    + intros x Hx [?|Hne]; [done|]. simpl. by rewrite Hpte2, (proj2 (Z.eqb_neq _ _)) by done.
    + intros q Hq. simpl. by rewrite Hp2, Hp1.
    + intros _. exists pa, d. simpl. rewrite Hpte2, Z.eqb_refl, Hp2, Hp1, Hshm by lia. eauto.
  - exists (Err OutOfMemory), (set_phys p1 m). unfold mbind, M_bind. rewrite (vm_run _ m _ _ Hrun1).
    split_and!; [done|done|]. apply (faulted_err own own' res); [done|done|done| |done]. intros q _. by rewrite Hp1.
Qed.
End one.
End fault.

Lemma page_fault_spec {FS} inode_read (m : Space (FS := FS)) fault_addr cause :
  reader_ok inode_read → mmap_ok m → 0 ≤ fault_addr < 2 ^ 64 → (∀ pa, pref (sp_phys m) pa < 2 ^ 16 - 1) →
  let va := fault_addr / 4096 * 4096 in
  ∃ r m', handle_user_page_fault inode_read fault_addr cause m = (r, m') ∧ r ≠ Panic ∧ mmap_ok m' ∧
    (view (vmas m) va = None → r = Err BadVirtAddr ∧ m' = m) ∧
    ∀ v, v ∈ vmas m → contains_pg v va = true →
      if fault_denied cause v then r = Err PermissionDenied ∧ m' = m
      else if is_v (pte_at (sp_phys m) (sp_root m) va) then r = Err BadVirtAddr ∧ m' = m
      else faulted inode_read m m' v va r.
Proof.
  intros Hrd (own&res&Hok) Hfa Hrefs va. assert (Hal : va mod 4096 = 0) by (unfold va; lia).
  unfold handle_user_page_fault. rewrite rounddown_alt by done.
  replace (fault_addr - fault_addr mod 4096) with va by (unfold va; lia). rewrite (bind_ok m_get _ m m m eq_refl).
  pose proof (find_view (vmas m) va) as Hfind. destruct (list_find _ (vmas m)) as [[i v]|]; cycle 1.
  { exists (Err BadVirtAddr), m. split_and!; [done|done|by exists own, res|done|]. intros w Hw Hcw.
    apply view_None in Hfind. rewrite Forall_forall in Hfind. specialize (Hfind w Hw). simpl in Hfind. congruence. }
  destruct Hfind as (Hv&Hcv&Hview).
  assert (Huniq : ∀ w, w ∈ vmas m → contains_pg w va = true → w = v).
  { intros w Hw Hcw. by apply (disjoint_unique (vmas m) w v va (sk_disj _ _ _ _ Hok)). }
  destruct (fault_denied cause v) eqn:Hden.
  { exists (Err PermissionDenied), m. split_and!; [done|done|by exists own, res|congruence|].
    intros w Hw Hcw. rewrite (Huniq w Hw Hcw), Hden. done. }
  assert (Hlo : lo m ≤ va < TOP).
  { pose proof (sk_vmas _ _ _ _ Hok) as Hvs. rewrite Forall_forall in Hvs. destruct (Hvs v Hv) as [Hvw Hvb].
    destruct (sk_base _ _ _ _ Hok) as (_&[Hb _]&_). pose proof (vw_top v Hvw). apply contains_pg_spec in Hcv as Hc. lia. }
  rewrite (bind_ok _ _ _ _ _ (present_spec _ _ _ _ va Hok Hal Hlo)).
  destruct (sk_mem _ _ _ _ Hok) as [_ [Hr _]]. specialize (Hr va Hal Hlo). cbv zeta in Hr.
  destruct (res !! va) as [pa|] eqn:Hres.
  { destruct Hr as (Hiv&_). exists (Err BadVirtAddr), m. split_and!; [done|done|by exists own, res|congruence|].
    intros w Hw Hcw. rewrite (Huniq w Hw Hcw), Hden, Hiv. done. }
  rewrite (bool_decide_eq_false_2 (is_Some None)) by (by intros []).
  assert (Hgoal : ∀ r m', r ≠ Panic → faulted inode_read m m' v va r → r ≠ Panic ∧ mmap_ok m' ∧
    (view (vmas m) va = None → r = Err BadVirtAddr ∧ m' = m) ∧
    ∀ v, v ∈ vmas m → contains_pg v va = true →
      if fault_denied cause v then r = Err PermissionDenied ∧ m' = m
      else if is_v (pte_at (sp_phys m) (sp_root m) va) then r = Err BadVirtAddr ∧ m' = m
      else faulted inode_read m m' v va r).
  { intros r m' Hrp Hf. split_and!; [done|apply Hf|congruence|]. intros w Hw Hcw. by rewrite (Huniq w Hw Hcw), Hden, Hr. }
  destruct (v_shm v) as [g|] eqn:Hshm.
  - destruct (so_vma _ (sk_seg _ _ _ _ Hok) v g Hv Hshm) as (seg&Hseg&_). rewrite Hseg.
    destruct (shm_fault inode_read own res m Hok v va Hv Hcv Hal Hres cause Hden g seg Hrefs Hshm Hseg) as (r&m'&Hrun&Hrp&Hf).
    exists r, m'. split; [exact Hrun|by apply Hgoal].
  - destruct (fresh_fault inode_read own res m Hok v va Hv Hcv Hal Hres cause Hden Hrd Hshm) as (r&m'&Hrun&Hrp&Hf).
    exists r, m'. split; [exact Hrun|by apply Hgoal].
Qed.

(** ** A process with nothing mapped *)

(** A program of [sz] bytes whose page table has nothing between its memory
    and the top of the mapping area. *)
Record starts (own : gmap Z (nat * Z)) (p : Phys) (root sz : Z) : Prop := {
  st_wf : pt_wf root own p;
  st_sz : 0 ≤ sz ≤ TOP;
  st_none x : pgroundup sz ≤ x < TOP → is_v (pte_at p root x) = false;
  st_free q : q ∈ ph_free p → ph_pages p !! q = None ∧ pref p q = 0 ∧ pa2idx_ok q = true;
}.
Definition empty_space {FS} (p : Phys) (root sz : Z) (fs : FS) : Space :=
  mkSpace p root sz TOP [] (replicate NSHM None) ∅ 0 fs.

Lemma empty_space_ok {FS} own p root sz (fs : FS) : starts own p root sz → mmap_ok (empty_space p root sz fs).
Proof.
  intros [W Hsz Hz Hf]. exists own, ∅. destruct TOP_facts as (T1&T2&T3&T4). split.
  - split.
    + split; [done| |done|constructor|intros q Hq; by apply elem_of_nil in Hq]. intros q Hq. exfalso.
      rewrite gmultiset_elem_of_disj_union in Hq. unfold rm, sm in Hq. rewrite !map_to_list_empty in Hq. simpl in Hq. multiset_solver.
    + split; [|done]. intros a Ha Hr. simpl. by apply Hz.
  - unfold lo. cbn [empty_space sp_sz mmap_base]. rewrite pg_small by lia. lia.
  - constructor.
  - done.
  - intros a pa Ha. by rewrite lookup_empty in Ha.
  - split; [done|done|intros v g Hv; by apply elem_of_nil in Hv|].
    intros i g Hi. unfold empty_space in Hi. cbn [SHM_TABLE] in Hi. by apply lookup_replicate in Hi as [? _].
Qed.
