(* ===== verification/MmapShm.v ===== *)
(** * Shared memory segments and the life of an address space

    [shm_create], [shm_attach], [shm_detach] and [shm_destroy] keep the
    invariant; with [mmap], [munmap] and page faults they make up the calls
    under which an address space evolves. *)

From stdpp Require Import base tactics numbers gmap gmultiset list.
From S2P Require Import Prelude Params Errors UserMem PageTable PtSpec UvmMem Mmap MmapMem MmapInv MmapSpec MmapFault.
Local Open Scope Z_scope.
Ltac Zify.zify_post_hook ::= Z.to_euclidean_division_equations.

Section shm.
Context {FS : Type}.
Implicit Types m : Space (FS := FS).

(** ** Creating and destroying segments *)

Lemma shm_alloc_spec own L m : ∀ n p pages, mem_ok own (L ⊎ list_to_set_disj pages) [] (sp_root m) p →
  ∃ p', ph_tables p' = ph_tables p ∧
    ((shm_alloc n pages (set_phys p m) = (Err OutOfMemory, set_phys p' m) ∧ mem_ok own L [] (sp_root m) p') ∨
     ∃ new, shm_alloc n pages (set_phys p m) = (Ok (pages ++ new), set_phys p' m) ∧ length new = n ∧
       mem_ok own (L ⊎ list_to_set_disj (pages ++ new)) [] (sp_root m) p').
Proof.
  induction n as [|n IH]; intros p pages Hm; cbn [shm_alloc].
  { exists p. split; [done|]. right. exists []. by rewrite app_nil_r. }
  destruct (ph_free p) as [|pa fr] eqn:Hfree.
  { destruct (drop_pages_spec own L [] m pages p Hm) as (p'&Hrun&Hm'&Ht'&_). exists p'. split; [done|]. left. split; [|done].
    rewrite (bind_ok _ _ (set_phys p m) None (set_phys p m)); [by rewrite (bind_ok _ _ _ _ _ Hrun)|].
    apply vm_read. unfold new_page. simpl. by rewrite Hfree. }
  destruct (new_page_spec _ _ _ _ _ pa fr Hm Hfree) as (p1&Hrun1&Hm1&Ht1&_).
  destruct (page_ref_init_spec _ _ _ _ _ _ Hm1) as (p2&Hrun2&Hm2&Ht2&_).
  destruct (IH p2 (pages ++ [pa])) as (p'&Ht'&Hcase).
  { rewrite list_to_set_disj_app. eapply mem_ok_sub; [|exact Hm2]. simpl. multiset_solver. }
  exists p'. split; [congruence|].
  rewrite (bind_ok _ _ _ _ _ (vm_run new_page (set_phys p m) _ _ Hrun1)).
  rewrite (bind_ok _ _ _ _ _ (vm_run (page_ref_init pa) (set_phys p1 m) _ _ Hrun2)).
  change (set_phys p2 (set_phys p1 (set_phys p m))) with (set_phys p2 m).
  destruct Hcase as [[Hrun Hm']|(new&Hrun&Hlen&Hm')]; [by left|]. right. exists (pa :: new).
  rewrite <-app_assoc in Hrun, Hm'. split_and!; [done|simpl; lia|done].
Qed.

(** A live segment is referred to by number below [next_seg] only. *)
Lemma refs_fresh own res B m : space_ok own res B m → shm_refs (next_seg m) m = 0%nat ∧ segs m !! next_seg m = None.
Proof.
  intros Hok. destruct (sk_seg _ _ _ _ Hok) as [S1 S2 S3 S4].
  assert (Hn : segs m !! next_seg m = None).
  { destruct (segs m !! next_seg m) as [seg|] eqn:E; [|done]. specialize (S1 _ _ E). lia. }
  split; [|done]. unfold shm_refs.
  assert (filter (λ v, v_shm v = Some (next_seg m)) (vmas m) = []) as ->.
  { apply filter_none. rewrite Forall_forall. intros v Hv E. destruct (S3 v _ Hv E) as (seg&?&_). congruence. }
  assert (filter (λ o, o = Some (next_seg m)) (SHM_TABLE m) = []) as ->; [|done].
  apply filter_none. rewrite Forall_forall. intros o Ho ->. apply list_elem_of_lookup_1 in Ho as [i Hi].
  destruct (S4 i _ Hi). congruence.
Qed.

Lemma shm_create_spec m size : mmap_ok m → 0 ≤ size → size + 4096 ≤ 2 ^ 64 →
  (shm_create size m).1 ≠ Panic ∧ mmap_ok (shm_create size m).2.
Proof.
  intros (own&res&Hok) H0 Hmax. destruct TOP_facts as (_&_&HT&HM). unfold shm_create.
  destruct (Z.eqb_spec size 0); [split; [done|by exists own, res]|].
  assert (Hpg : pgroundup size = (size + 4095) / 4096 * 4096) by (apply pgroundup_alt; lia).
  unfold checked_pgroundup, PGSIZE. rewrite (proj2 (Z.leb_le _ _)) by (unfold USIZE_MAX; lia).
  rewrite (bind_ok (of_res (Ok _)) _ _ _ _ eq_refl). destruct (_ || _) eqn:Hb; [split; [done|by exists own, res]|].
  apply orb_false_iff in Hb as [Hb1 Hb2]. apply Z.ltb_ge in Hb2. unfold SHM_MAX_PAGES in Hb2.
  destruct (sk_mem _ _ _ _ Hok) as [Hm Hr].
  destruct (shm_alloc_spec own (rm res ⊎ sm (segs m)) m (Z.to_nat (pgroundup size / 4096)) (sp_phys m) [])
    as (p'&Ht'&[[Hrun Hm']|(new&Hrun&Hlen&Hm')]); [eapply mem_ok_sub; [|exact Hm]; multiset_solver| |];
    rewrite set_phys_id in Hrun.
  { rewrite (bind_err _ _ _ _ _ Hrun). split; [done|]. exists own, res.
    apply (space_ok_phys _ _ _ _ _ _ Hok). split; [done|by apply (res_ok_tables _ (sp_phys m))]. }
  rewrite (bind_ok _ _ _ _ _ Hrun), (bind_ok m_get _ _ _ (set_phys p' m) eq_refl). rewrite app_nil_l in *.
  cbn [SHM_TABLE set_phys]. destruct (list_find _ (SHM_TABLE m)) as [[idx o]|] eqn:Hfind; cycle 1.
  { destruct (drop_pages_spec own (rm res ⊎ sm (segs m)) [] m new p' Hm') as (p2&Hrun2&Hm2&Ht2&_).
    rewrite (bind_ok _ _ _ _ _ Hrun2). split; [done|]. exists own, res. apply (space_ok_phys _ _ _ _ _ _ Hok).
    split; [done|apply (res_ok_tables _ (sp_phys m)); [congruence|done]]. }
  apply list_find_Some in Hfind as (Hidx&->&_). destruct (refs_fresh _ _ _ _ Hok) as [Hrf Hno].
  assert (HTOP : 64 * 4096 ≤ TOP) by (vm_compute; congruence).
  split; [done|]. exists own, res. destruct Hok as [_ H2 H3 H4 H5 [S1 S2 S3 S4]].
  assert (Hcnt := λ g, count_insert (λ o, o = Some g) (SHM_TABLE m) idx None (Some (next_seg m)) Hidx).
  unfold upd, mbind, M_bind. simpl. split; simpl; [|done|done|done|done|].
  - split; [|by apply (res_ok_tables _ (sp_phys m))]. simpl. rewrite sm_insert by done. simpl.
    eapply mem_ok_sub; [|exact Hm']. multiset_solver.
  - split; simpl.
    + intros g seg. rewrite lookup_insert_Some. intros [[<- _]|[_ Hg]]; [lia|]. specialize (S1 g seg Hg). lia.
    + intros g seg. specialize (Hcnt g). rewrite (decide_False (P := None = Some g)) in Hcnt by done.
      unfold shm_refs in *. simpl. rewrite lookup_insert_Some. intros [[<- <-]|[Hne Hg]]; simpl.
      * rewrite decide_True in Hcnt by done. split_and!; [lia|lia|lia|lia|lia].
      * rewrite decide_False in Hcnt by congruence. destruct (S2 g seg Hg) as (A1&A2&A3). split_and!; [lia|done|apply A3..].
    + intros v g Hv Hs. destruct (S3 v g Hv Hs) as (seg&Hseg&?). exists seg. split; [|done].
      rewrite lookup_insert_ne by congruence. done.
    + intros i g Hi. destruct (decide (g = next_seg m)) as [->|Hne]; [by rewrite lookup_insert_eq|].
      rewrite lookup_insert_ne by done. destruct (decide (i = idx)) as [->|].
      * rewrite list_lookup_insert_eq in Hi by (by eapply lookup_lt_Some). congruence.
      * rewrite list_lookup_insert_ne in Hi by done. by eapply S4.
Qed.

Lemma shm_destroy_spec m id : mmap_ok m → 0 ≤ id → (shm_destroy id m).1 ≠ Panic ∧ mmap_ok (shm_destroy id m).2.
Proof.
  intros (own&res&Hok) H0. unfold shm_destroy. destruct (id =? 0); [split; [done|by exists own, res]|].
  rewrite (bind_ok m_get _ m m m eq_refl). destruct (SHM_TABLE m !! Z.to_nat (id - 1)) as [[g|]|] eqn:Hi;
    [|split; [done|by exists own, res]..].
  set (m1 := set_table (<[Z.to_nat (id - 1) := None]> (SHM_TABLE m)) m).
  assert (Hcnt := λ h, count_insert (λ o, o = Some h) (SHM_TABLE m) (Z.to_nat (id - 1)) (Some g) None Hi).
  pose proof Hok as [H1 H2 H3 H4 H5 [S1 S2 S3 S4]]. destruct (S4 _ _ Hi) as [seg Hseg].
  assert (Hrefs : ∀ h, (shm_refs h m1 + (if decide (Some g = Some h) then 1 else 0) = shm_refs h m)%nat).
  { intros h. specialize (Hcnt h). unfold shm_refs. simpl. rewrite (decide_False (P := None = Some h)) in Hcnt by done. lia. }
  assert (Hok1 : space_ok own res [] m1).
  { split; [done..|]. split; simpl; [done| |done|].
    - intros h sg Hh. destruct (S2 h sg Hh) as (A1&A2&A3). split_and!; [|done|apply A3..]. specialize (Hrefs h). lia.
    - intros i h Hih. destruct (decide (i = Z.to_nat (id - 1))) as [->|].
      + rewrite list_lookup_insert_eq in Hih by (by eapply lookup_lt_Some). congruence.
      + rewrite list_lookup_insert_ne in Hih by done. by eapply S4. }
  destruct (seg_drop_spec own res [] m1 g seg Hok1 Hseg) as (m'&Hrun&Hok'&_).
  { destruct (S2 g seg Hseg) as (A1&_). specialize (Hrefs g). rewrite decide_True in Hrefs by done. lia. }
  assert (Hu : upd (set_table (<[Z.to_nat (id - 1) := None]> (SHM_TABLE m))) m = (Ok (), m1)) by done.
  rewrite (bind_ok _ _ _ _ _ Hu), Hrun. split; [done|by exists own, res].
Qed.

(** ** Attaching *)

Lemma unmap_loop_split n root a f s :
  unmap_loop (S n) root a f s = (unmap_loop 1 root a f ≫= λ _, unmap_loop n root (a + PGSIZE) f) s.
Proof.
  cbn [unmap_loop]. unfold mbind, M_bind, mret, M_ret. destruct (walk root a false s) as [[[l|]|e|] s1]; [|done..].
  destruct (get_pte l s1) as [[pte|e|] s2]; [|done..]. destruct (negb (is_v pte)); [done|]. destruct (negb (is_leaf pte)); [done|].
  match goal with |- context [match ?x with _ => _ end = _] => destruct x as [[]  s3] end; [|done..].
  by destruct (put_pte l 0 s3) as [[] s4].
Qed.

Lemma unmap_pages_spec own L B root : ∀ pas s va,
  mem_ok own (L ⊎ list_to_set_disj pas) B root s → 0 ≤ va → va mod 4096 = 0 → va + Z.of_nat (length pas) * 4096 ≤ MAXVA →
  (∀ i pa, pas !! i = Some pa → let pte := pte_at s root (va + Z.of_nat i * 4096) in
     is_v pte = true ∧ is_leaf pte = true ∧ to_pa pte = pa) →
  ∃ s', unmap root va (length pas) true s = (Ok (), s') ∧ mem_ok own L B root s' ∧
    ∀ x, 0 ≤ x < MAXVA → pte_at s' root x = if decide (va ≤ x < va + Z.of_nat (length pas) * 4096) then 0 else pte_at s root x.
Proof.
  induction pas as [|pa pas IH]; intros s va Hm Hva Hal Hmax Hp.
  { exists s. unfold unmap, is_aligned, PGSIZE. rewrite Hal. split_and!; [done| |].
    - replace (L ⊎ list_to_set_disj []) with L in Hm by multiset_solver. done.
    - intros x Hx. simpl. by rewrite decide_False by lia. }
  cbn [length] in *. destruct (Hp 0%nat pa eq_refl) as (P1&P2&P3). rewrite Z.mul_0_l, Z.add_0_r in P1, P2, P3.
  destruct (unmap_page_spec own (L ⊎ list_to_set_disj pas) B root s va) as (s1&Hrun1&Hm1&_&Hpte1); [|done|done|lia|done|done|].
  { rewrite P3. eapply mem_ok_sub; [|exact Hm]. simpl. multiset_solver. }
  destruct (IH s1 (va + 4096) Hm1) as (s2&Hrun2&Hm2&Hpte2); [lia|lia|lia| |].
  { intros i q Hi. destruct (Hp (S i) q Hi) as (Q1&Q2&Q3). pose proof (lookup_lt_Some _ _ _ Hi).
    replace (va + 4096 + Z.of_nat i * 4096) with (va + Z.of_nat (S i) * 4096) by lia.
    cbv zeta. rewrite Hpte1, decide_False by lia. done. }
  exists s2. split_and!; [|done|].
  - unfold unmap, is_aligned, PGSIZE in *. replace ((va + 4096) mod 4096) with (va mod 4096) in Hrun2 by lia. rewrite Hal in *.
    cbn [negb Z.eqb] in *. rewrite unmap_loop_split. rewrite (bind_ok _ _ _ _ _ Hrun1). exact Hrun2.
  - intros x Hx. rewrite Hpte2, Hpte1 by done. repeat case_decide; try done; lia.
Qed.

(** The mapping being attached. *)
Section attach.
Context (m : Space (FS := FS)) (res0 : gmap Z Z) (v : Vma) (start prev_base : Z).
Context (Hstart : start mod 4096 = 0) (Hlo : lo m ≤ start).
Context (Hleaf : ∀ pa, pa mod 4096 = 0 →
  is_v (vma_pte v pa) = true ∧ is_leaf (vma_pte v pa) = true ∧ is_u (vma_pte v pa) = true ∧ to_pa (vma_pte v pa) = pa).

(** The pages [done_] are mapped from [start] on. *)
Definition attached (done_ : list Z) (res : gmap Z Z) : Prop :=
  rm res = rm res0 ⊎ list_to_set_disj done_ ∧
  (∀ i pa, done_ !! i = Some pa → res !! (start + Z.of_nat i * 4096) = Some pa) ∧
  ∀ x, ¬ start ≤ x < start + Z.of_nat (length done_) * 4096 → res !! x = res0 !! x.

Lemma attach_loop_spec : ∀ todo own done_ res p,
  pok own res [] m p → attached done_ res → start + Z.of_nat (length (done_ ++ todo)) * 4096 ≤ TOP →
  (∀ x, start ≤ x < start + Z.of_nat (length (done_ ++ todo)) * 4096 → res0 !! x = None) →
  (∀ pa, pa ∈ todo → pa ∈ sm (segs m)) → (∀ pa, pref p pa + Z.of_nat (length todo) < 2 ^ 16 - 1) →
  ∃ own' res' p',
    (∃ e, attach_loop start (vma_perm v) prev_base (length done_) todo (set_phys p m) = (Err e, set_base prev_base (set_phys p' m)) ∧
      pok own' res0 [] m p') ∨
    (attach_loop start (vma_perm v) prev_base (length done_) todo (set_phys p m) = (Ok (), set_phys p' m) ∧
      pok own' res' [] m p' ∧ attached (done_ ++ todo) res').
Proof using Hstart Hlo Hleaf.
  pose proof (lo_nonneg m) as Hl0. destruct TOP_facts as (_&_&HT&_).
  induction todo as [|pa todo IH]; intros own done_ res p Hpok Hatt Htop Hfree Hseg Hrefs; cbn [attach_loop].
  { exists own, res, p. right. by rewrite app_nil_r. }
  destruct Hatt as (A1&A2&A3). destruct Hpok as [Hm [Hr1 Hr2]]. set (va := start + Z.of_nat (length done_) * 4096).
  rewrite length_app in Htop, Hfree. cbn [length] in Htop, Hfree, Hrefs.
  assert (Hn : res !! va = None) by (rewrite A3 by (unfold va; lia); apply Hfree; unfold va; lia).
  assert (Hiv : is_v (pte_at p (sp_root m) va) = false).
  { specialize (Hr1 va ltac:(unfold va; lia) ltac:(unfold va; lia)). cbv zeta in Hr1. by rewrite Hn in Hr1. }
  assert (HpaL : pa ∈ rm res ⊎ sm (segs m)) by (apply gmultiset_elem_of_disj_union; right; apply Hseg; by left).
  destruct (mo_led _ _ _ _ _ Hm pa HpaL) as (Hidx&_&_&_). pose proof (Hleaf pa (pa2idx_aligned pa Hidx)) as Hlf.
  destruct (map_page_spec own _ [] (sp_root m) p va pa (vma_perm v) Hm) as (own1&p1&ok&Hrun1&Hm1&_&Hrf1&Hpte1);
    [unfold va; lia|unfold va; lia|unfold va; lia|done|].
  rewrite (bind_ok m_get _ _ (set_phys p m) (set_phys p m) eq_refl). unfold try_with.
  change (start + Z.of_nat (length done_) * PGSIZE) with va.
  change (sp_root (set_phys p m)) with (sp_root m). rewrite (vm_run (mappages _ _ _ _ _) (set_phys p m) _ _ Hrun1).
  change (set_phys p1 (set_phys p m)) with (set_phys p1 m). destruct ok; simpl in Hpte1.
  - destruct (page_ref_inc_spec _ _ _ _ p1 pa Hm1 HpaL) as (p2&Hrun2&Hm2&Ht2&_&_&Hpr2);
      [unfold pref in *; rewrite Hrf1; specialize (Hrefs pa); lia|].
    rewrite (bind_ok _ _ _ _ _ (vm_run (page_ref_inc pa) (set_phys p1 m) _ _ Hrun2)).
    change (set_phys p2 (set_phys p1 m)) with (set_phys p2 m).
    destruct (IH own1 (done_ ++ [pa]) (<[va := pa]> res) p2) as (own'&res'&p'&Hcase).
    + split; [eapply mem_ok_sub; [|exact Hm2]; rewrite rm_insert by done; multiset_solver|]. split.
      * intros a Ha Har. cbv zeta. rewrite (pte_at_tables (sp_root m) p1 p2), Hpte1 by (done || lia).
        destruct (decide (a = va)) as [->|Hne]; [rewrite Z.eqb_refl, lookup_insert_eq; exact Hlf|].
        rewrite (proj2 (Z.eqb_neq _ _)), lookup_insert_ne by (done || (unfold va in *; lia)). by apply Hr1.
      * intros a q. rewrite lookup_insert_Some. intros [[<- _]|[_ ?]]; [unfold va; lia|by eapply Hr2].
    + split_and!.
      * rewrite rm_insert, A1, list_to_set_disj_app by done. simpl. multiset_solver.
      * intros i q Hi. apply lookup_app_Some in Hi as [Hi|[Hi Hq]].
        -- rewrite lookup_insert_ne; [by apply A2|]. apply lookup_lt_Some in Hi. unfold va. lia.
        -- apply list_lookup_singleton_Some in Hq as [Hi0 <-]. replace (start + Z.of_nat i * 4096) with va by (unfold va; lia).
           apply lookup_insert_eq.
      * intros x Hx. rewrite length_app in Hx. simpl in Hx. rewrite lookup_insert_ne by (unfold va; lia). apply A3. lia.
    + rewrite !length_app. simpl. lia.
    + intros x Hx. rewrite !length_app in Hx. simpl in Hx. apply Hfree. lia.
    + intros q Hq. apply Hseg. by right.
    + intros q. rewrite Hpr2. unfold pref in *. rewrite Hrf1. specialize (Hrefs q) as Hq. specialize (Hrefs pa) as Hpa.
      case_decide; lia.
    + exists own', res', p'. rewrite length_app in Hcase. cbn [length] in Hcase. rewrite Nat.add_1_r, <-app_assoc in Hcase. exact Hcase.
  - assert (Hpteq : ∀ x, 0 ≤ x < MAXVA → pte_at p1 (sp_root m) x = pte_at p (sp_root m) x) by (intros; by apply Hpte1).
    assert (Hin : ∀ i q, done_ !! i = Some q → let pte := pte_at p1 (sp_root m) (start + Z.of_nat i * 4096) in
      is_v pte = true ∧ is_leaf pte = true ∧ to_pa pte = q).
    { intros i q Hi. pose proof (lookup_lt_Some _ _ _ Hi). cbv zeta. rewrite Hpteq by lia.
      specialize (Hr1 (start + Z.of_nat i * 4096) ltac:(lia) ltac:(lia)). cbv zeta in Hr1. rewrite (A2 i q Hi) in Hr1. tauto. }
    destruct (unmap_pages_spec own1 (rm res0 ⊎ sm (segs m)) [] (sp_root m) done_ p1 start) as (p2&Hrun2&Hm2&Hpte2);
      [|lia|done|lia|done|].
    { eapply mem_ok_sub; [|exact Hm1]. rewrite A1. multiset_solver. }
    exists own1, res0, p2. left. exists OutOfMemory. split; [|split; [done|split]].
    + destruct (Nat.ltb_spec 0 (length done_)).
      * by rewrite (bind_ok _ _ _ _ _ (vm_run (unmap _ _ _ _) (set_phys p1 m) _ _ Hrun2)).
      * destruct done_; [|simpl in *; lia]. unfold unmap, is_aligned, PGSIZE in Hrun2. rewrite Hstart in Hrun2. simpl in Hrun2.
        by injection Hrun2 as <-.
    + intros a Ha Har. cbv zeta. rewrite Hpte2, Hpteq by lia. case_decide as Hd; [by rewrite Hfree by lia|].
      rewrite <-A3 by done. by apply Hr1.
    + intros a q Hq. destruct (decide (start ≤ a < start + Z.of_nat (length done_ + S (length todo)) * 4096)) as [Hd|Hd];
        [rewrite Hfree in Hq by done; done|]. apply (Hr2 a q). by rewrite A3 by lia.
Qed.
End attach.

Lemma space_ok_own own own' res B B' m p : space_ok own res B m → pok own' res B' m p → space_ok own' res B' (set_phys p m).
Proof. intros [H1 H2 H3 H4 H5 [S1 S2 S3 S4]] Hp. by split; [..|split]. Qed.

(** One more reference to a segment. *)
Lemma seg_clone_spec own res m g seg : space_ok own res [] m → segs m !! g = Some seg →
  let seg' := mkShm (shm_size seg) (shm_pages seg) (S (shm_strong seg)) in
  let m' := set_segs (<[g := seg']> (segs m)) (next_seg m) m in
  seg_clone g m = (Ok (), m') ∧ space_ok own res [] m' ∧ (shm_refs g m' < shm_strong seg')%nat.
Proof.
  intros [[Hm Hr] H2 H3 H4 H5 [S1 S2 S3 S4]] Hg seg' m'. unfold seg_clone. rewrite Hg. split; [done|].
  destruct (S2 g seg Hg) as (A1&A2&A3). split; [|change (shm_refs g m < S (shm_strong seg))%nat; lia].
  split; [|done|done|done|done|split; simpl].
  - split; [|done]. simpl. by rewrite (sm_update _ _ seg).
  - intros h sg. rewrite lookup_insert_Some. intros [[<- _]|[_ ?]]; by eapply S1.
  - intros h sg. change (shm_refs h m') with (shm_refs h m). rewrite lookup_insert_Some.
    intros [[<- <-]|[_ ?]]; [|by apply S2]. simpl. split_and!; [lia|lia|apply A3..].
  - intros v h Hv Hs. destruct (S3 v h Hv Hs) as (sg&Hsg&?). destruct (decide (h = g)) as [->|].
    + exists seg'. rewrite lookup_insert_eq. simpl. split; [done|congruence].
    + exists sg. by rewrite lookup_insert_ne.
  - intros i h Hi. destruct (decide (h = g)) as [->|]; [by rewrite lookup_insert_eq|].
    rewrite lookup_insert_ne by done. by eapply S4.
Qed.

(** A mapping of a segment joins the list. *)
Lemma space_ok_attach own own' res res' m p' v g seg :
  space_ok own res [] m → vma_wf v → lo m ≤ v_start v → end_pg v ≤ mmap_base m → v_shm v = Some g →
  segs m !! g = Some seg → (shm_refs g m < shm_strong seg)%nat → v_len v = shm_size seg →
  pok own' res' [] m p' → (∀ x, ¬ v_start v ≤ x < end_pg v → res' !! x = res !! x) →
  space_ok own' res' [] (set_vmas (vmas m ++ [v]) (set_base (v_start v) (set_phys p' m))).
Proof.
  intros [_ (Hb1&Hb2&Hb3) Hvs Hd Hc [S1 S2 S3 S4]] Hv Hlo He Hs Hg Hlt Hlen Hpok Hres.
  pose proof (end_pg_al v Hv) as (E1&E2&_). pose proof (vw_al v Hv). split; simpl; [done| | | | |].
  - split_and!; [done|done|lia|lia|lia].
  - apply Forall_app. split; [|by constructor; [split; [done|lia]|constructor]].
    eapply Forall_impl; [exact Hvs|]. intros w [Hw Hwb]. split; [done|]. lia.
  - apply disjoint_app. split_and!; [done|simpl; split; [constructor|done]|]. eapply Forall_impl; [exact Hvs|].
    intros w [_ Hwb]. constructor; [|constructor]. right. lia.
  - intros a pa Ha. destruct (decide (v_start v ≤ a < end_pg v)) as [Hin|Hout].
    + exists v. rewrite elem_of_app, list_elem_of_singleton. split; [by right|by apply contains_pg_spec].
    + rewrite Hres in Ha by done. destruct (Hc a pa Ha) as (w&Hw&Hcw). exists w. rewrite elem_of_app. auto.
  - split; simpl; [done| | |done].
    + intros h sg Hh. destruct (S2 h sg Hh) as (A1&A2&A3). split_and!; [|done|apply A3..]. unfold shm_refs in *. simpl.
      rewrite filter_app, filter_cons, length_app, filter_nil. case_decide as E; [|simpl; lia].
      assert (h = g) as -> by congruence. assert (sg = seg) as -> by congruence. simpl. lia.
    + intros w h [Hw|Hw]%elem_of_app Hh; [by apply S3|]. apply list_elem_of_singleton in Hw as ->.
      exists seg. split; [congruence|done].
Qed.

Lemma prot_to_perm_spec prot perm (v : Vma) : prot_to_perm prot = Ok perm → v_prot v = prot → perm = vma_perm v ∧
  ∃ cause, fault_denied cause v = false.
Proof.
  intros Hp <-. unfold prot_to_perm in Hp. destruct (negb _); [done|].
  destruct (Z.eqb_spec (Z.land (v_prot v) (Z.lor (Z.lor PROT_READ PROT_WRITE) PROT_EXEC)) 0) as [|Hne]; [done|].
  split; [by injection Hp as <-|]. rewrite !Z.land_lor_distr_r in Hne.
  destruct (has (v_prot v) PROT_READ) eqn:H1; [exists LoadPageFault; simpl; by rewrite H1|].
  destruct (has (v_prot v) PROT_WRITE) eqn:H2; [exists StorePageFault; simpl; by rewrite H2|].
  destruct (has (v_prot v) PROT_EXEC) eqn:H3; [exists InstructionPageFault; simpl; by rewrite H3|].
  exfalso. unfold has in H1, H2, H3. apply negb_false_iff, Z.eqb_eq in H1, H2, H3. apply Hne. by rewrite H1, H2, H3.
Qed.

(** No reference count is about to overflow. *)
Definition refs_room m : Prop := ∀ pa,
  pref (sp_phys m) pa < 2 ^ 16 - 1 ∧ ∀ g seg, segs m !! g = Some seg → pref (sp_phys m) pa + Z.of_nat (length (shm_pages seg)) < 2 ^ 16 - 1.

(** Attaching maps the pages of the segment, in order, on fresh addresses;
    when it fails nothing is left behind. *)
Lemma shm_attach_spec m id prot : mmap_ok m → refs_room m →
  ∃ r m', shm_attach id prot m = (r, m') ∧ r ≠ Panic ∧ mmap_ok m' ∧
    match r with
    | Ok start => ∃ g seg, mjoin (SHM_TABLE m !! Z.to_nat (id - 1)) = Some g ∧ segs m !! g = Some seg ∧
        vmas m' = vmas m ++ [mkVma start (shm_size seg) prot (Z.lor MAP_SHARED MAP_ANON) None 0 (Some g)] ∧
        ∀ i pa, shm_pages seg !! i = Some pa →
          let pte := pte_at (sp_phys m') (sp_root m') (start + Z.of_nat i * 4096) in
          is_v pte = true ∧ is_leaf pte = true ∧ is_u pte = true ∧ to_pa pte = pa
    | _ => vmas m' = vmas m ∧ mmap_base m' = mmap_base m
    end.
Proof.
  intros (own&res&Hok) Hroom. unfold shm_attach.
  assert (Hfail : ∀ e, ∃ r m', (Err e : Result Z, m) = (r, m') ∧ r ≠ Panic ∧ mmap_ok m' ∧
    match r with Ok _ => False | _ => vmas m' = vmas m ∧ mmap_base m' = mmap_base m end).
  { intros e. exists (Err e), m. split_and!; [done|done|by exists own, res|done|done]. }
  assert (Hweak : ∀ (P : Z → Space (FS := FS) → Prop) (run : Result Z * Space), (∃ r m', run = (r, m') ∧ r ≠ Panic ∧ mmap_ok m' ∧
      match r with Ok _ => False | _ => vmas m' = vmas m ∧ mmap_base m' = mmap_base m end) →
    ∃ r m', run = (r, m') ∧ r ≠ Panic ∧ mmap_ok m' ∧
      match r with Ok start => P start m' | _ => vmas m' = vmas m ∧ mmap_base m' = mmap_base m end).
  { intros P run (r&m'&H1&H2&H3&H4). exists r, m'. split_and!; [done..|]. by destruct r. }
  destruct (prot_to_perm prot) as [perm|e|] eqn:Hperm; [|apply Hweak, Hfail|].
  2:{ unfold prot_to_perm in Hperm. by repeat case_match. }
  rewrite (bind_ok (of_res _) _ _ _ _ eq_refl), (bind_ok m_get _ m m m eq_refl).
  destruct (id =? 0); [apply Hweak, Hfail|]. destruct (mjoin (SHM_TABLE m !! Z.to_nat (id - 1))) as [g|] eqn:Htab; [|apply Hweak, Hfail].
  assert (Hi : SHM_TABLE m !! Z.to_nat (id - 1) = Some (Some g)) by (destruct (SHM_TABLE m !! _); simpl in Htab; congruence).
  destruct (so_tab _ (sk_seg _ _ _ _ Hok) _ _ Hi) as [seg Hseg].
  destruct (seg_clone_spec own res m g seg Hok Hseg) as (Hclone&Hok1&Hlt).
  set (seg' := mkShm (shm_size seg) (shm_pages seg) (S (shm_strong seg))) in *.
  set (m1 := set_segs (<[g := seg']> (segs m)) (next_seg m) m) in *.
  assert (Hseg1 : segs m1 !! g = Some seg') by apply lookup_insert_eq.
  rewrite (bind_ok _ _ _ _ _ Hclone), (bind_ok m_get _ m1 m1 m1 eq_refl), Hseg1.
  destruct (so_seg _ (sk_seg _ _ _ _ Hok) g seg Hseg) as (_&_&Hsz&Hpg).
  destruct TOP_facts as (HT1&_&HT&HM). pose proof (lo_nonneg m) as Hlo0.
  (* giving the reference back *)
  assert (Hback : ∀ own1 p1 e, pok own1 res [] m1 p1 → ∃ r m', (_ ← seg_drop g; m_err e : M Error Space Z) (set_phys p1 m1) = (r, m') ∧
    r ≠ Panic ∧ mmap_ok m' ∧ match r with Ok _ => False | _ => vmas m' = vmas m ∧ mmap_base m' = mmap_base m end).
  { intros own1 p1 e Hp1. destruct (seg_drop_spec own1 res [] (set_phys p1 m1) g seg') as (m'&Hrun&Hok'&[_ _ Hb Hv _ _]&_);
      [by eapply space_ok_own|done|done|].
    rewrite (bind_ok _ _ _ _ _ Hrun). exists (Err e), m'. split_and!; [done|done|by exists own1, res|done|done]. }
  unfold try_with. destruct (alloc_mmap_va_spec own res [] m1 (shm_size seg') Hok1) as [[e He]|(Hrun&Hlo&Hle&Hpg')]; [simpl; lia|simpl; lia| |].
  { rewrite (bind_err _ _ _ _ _ He). apply Hweak. rewrite <-(set_phys_id m1). apply (Hback own). apply Hok1. }
  set (start := mmap_base m1 - pgroundup (shm_size seg')) in *. rewrite (bind_ok _ _ _ _ _ Hrun).
  set (v := mkVma start (shm_size seg') prot (Z.lor MAP_SHARED MAP_ANON) None 0 (Some g)).
  destruct (prot_to_perm_spec prot perm v Hperm eq_refl) as [-> [cause Hden]].
  destruct (sk_base _ _ _ _ Hok1) as (Hb1&Hb2&Hb3). change (lo m1) with (lo m) in *.
  assert (Hpgs : pgroundup (shm_size seg') = 4096 * Z.of_nat (length (shm_pages seg))) by done.
  assert (Hend : end_pg v = mmap_base m1) by (unfold end_pg, len_pg, v, start; cbn [v_start v_len]; lia).
  assert (Hvw : vma_wf v).
  { split; [simpl; lia|simpl; unfold start; lia|simpl; lia|lia|]. unfold len_pg. simpl. rewrite Hpg. unfold USIZE_MAX. lia. }
  assert (Hfree : ∀ x, start ≤ x < start + Z.of_nat (length (shm_pages seg)) * 4096 → res !! x = None).
  { intros x Hx. destruct (res !! x) as [q|] eqn:E; [|done]. destruct (sk_cov _ _ _ _ Hok1 x q E) as (w&Hw&Hcw).
    pose proof (sk_vmas _ _ _ _ Hok1) as Hvs. rewrite Forall_forall in Hvs. destruct (Hvs w Hw) as [_ Hwb].
    apply contains_pg_spec in Hcw. lia. }
  destruct (attach_loop_spec (set_base start m1) res v start (mmap_base m1) ltac:(unfold start; lia) Hlo
    (λ pa Hpa, vma_pte_facts cause v pa Hden Hpa) (shm_pages seg) own [] res (sp_phys m1))
    as (own'&res'&p'&[(e&Hrun2&Hpok2)|(Hrun2&Hpok2&Hatt)]).
  { exact (sk_mem _ _ _ _ Hok1). }
  { split_and!; [simpl; multiset_solver|done|done]. }
  { simpl. lia. }
  { exact Hfree. }
  { intros pa Hpa. change (segs (set_base start m1)) with (segs m1). rewrite (sm_delete _ _ _ Hseg1), gmultiset_elem_of_disj_union.
    right. by apply elem_of_list_to_set_disj. }
  { intros pa. destruct (Hroom pa) as [_ Hrm]. exact (Hrm g seg Hseg). }
  - change (set_phys (sp_phys m1) (set_base start m1)) with (set_base start m1) in Hrun2. cbn [length] in Hrun2.
    rewrite (bind_err _ _ _ _ _ Hrun2). change (set_base (mmap_base m1) (set_phys p' (set_base start m1))) with (set_phys p' m1).
    apply Hweak. by apply (Hback own').
  - change (set_phys (sp_phys m1) (set_base start m1)) with (set_base start m1) in Hrun2. cbn [length] in Hrun2.
    rewrite (bind_ok _ _ _ _ _ Hrun2). rewrite (bind_ok m_get _ _ _ _ eq_refl).
    set (m' := set_vmas (vmas m1 ++ [v]) (set_base start (set_phys p' m1))). exists (Ok start), m'.
    destruct Hatt as (A1&A2&A3). simpl in A2, A3.
    split_and!; [done|done| |].
    + exists own', res'. apply (space_ok_attach own own' res res' m1 p' v g seg'); try done.
      * rewrite Hend. lia.
      * intros x Hx. apply A3. rewrite Hend in Hx. change (v_start v) with start in Hx. unfold start in *. lia.
    + exists g, seg. split_and!; [done|done|done|]. intros i pa Hip. cbv zeta. pose proof (lookup_lt_Some _ _ _ Hip).
      destruct Hpok2 as [_ [Hr _]]. specialize (Hr (start + Z.of_nat i * 4096) ltac:(unfold start; lia)).
      specialize (Hr ltac:(change (lo (set_base start m1)) with (lo m); lia)). cbv zeta in Hr.
      rewrite (A2 i pa) in Hr by done. exact Hr.
Qed.

Lemma shm_detach_spec inode_write fs_begin fs_end m addr : (∀ ip off d fs, (inode_write ip off d fs).1 ≠ Panic) →
  mmap_ok m → (shm_detach inode_write fs_begin fs_end addr m).1 ≠ Panic ∧ mmap_ok (shm_detach inode_write fs_begin fs_end addr m).2.
Proof.
  intros Hnp (own&res&Hok). unfold shm_detach. destruct (is_aligned addr) eqn:Hal; [|split; [done|by exists own, res]].
  cbn [negb]. rewrite (bind_ok m_get _ m m m eq_refl).
  destruct (list_find _ (vmas m)) as [[i v]|] eqn:E; [|split; [done|by exists own, res]].
  apply list_find_Some in E as (Hi&[_ <-]&_). pose proof (sk_vmas _ _ _ _ Hok) as Hvs. rewrite Forall_forall in Hvs.
  destruct (Hvs v (list_elem_of_lookup_2 _ _ _ Hi)) as [[V1 V2 V3 V4 V5] _]. destruct TOP_facts as (_&_&HT&HM).
  destruct (munmap_spec inode_write fs_begin fs_end m (v_start v) (v_len v) Hnp) as (r&m'&Hrun&Hr&Hok'&_);
    [by exists own, res|lia|done|lia| |by rewrite Hrun].
  unfold end_pg in V4. assert (0 ≤ len_pg v) by (apply Z.land_nonneg; right; vm_compute; congruence). lia.
Qed.
End shm.
