(* ===== verification/MmapSafe.v ===== *)
(** * The life of an address space

    A process makes mapping calls, faults and stores into its memory, in any
    order; other processes change files meanwhile.  In every state it can
    reach, the mappings are disjoint, every entry of the mapping area belongs
    to a mapping and leads to a page that is allocated and counted, and no
    call stops the kernel, as long as the counts of pages stay below their
    16 bits and the ends of ranges below 2^64; [munmap] and faults do exactly
    what they should. *)

From stdpp Require Import base tactics numbers gmap gmultiset list.
From S2P Require Import Prelude Params Errors UserMem PageTable PtSpec UvmMem Mmap MmapMem MmapInv MmapSpec MmapFault MmapShm.
Local Open Scope Z_scope.
Ltac Zify.zify_post_hook ::= Z.to_euclidean_division_equations.

(** The calls of a process, with the table of open files at the time. *)
Inductive Call :=
  | CMmap (ofile : list (option MFile)) (addr len prot flags : Z) (fd : nat) (offset : Z)
  | CMunmap (addr len : Z)
  | CFault (addr : Z) (cause : Fault)
  | CShmCreate (size : Z)
  | CShmAttach (id prot : Z)
  | CShmDetach (addr : Z)
  | CShmDestroy (id : Z).

(** Arguments whose ends are addresses: nothing overflows when rounded up. *)
Definition in_range (c : Call) : Prop :=
  match c with
  | CMmap _ _ len _ _ _ offset => 0 ≤ len ∧ 0 ≤ offset ∧ offset + len + 4096 ≤ 2 ^ 64
  | CMunmap addr len => 0 ≤ addr ∧ 0 ≤ len ∧ addr + len + 4096 ≤ 2 ^ 64
  | CFault addr _ => 0 ≤ addr < 2 ^ 64
  | CShmCreate size => 0 ≤ size ∧ size + 4096 ≤ 2 ^ 64
  | CShmAttach id _ | CShmDestroy id => 0 ≤ id
  | CShmDetach _ => True
  end.

Section life.
Context {FS : Type}.
Implicit Types m : Space (FS := FS).
Context (inode_read : Z → Z → nat → FS → Result (list Z))
        (inode_write : Z → Z → list Z → FS → Result () * FS)
        (fs_begin fs_end : FS → FS).

Definition run_call (c : Call) m : Result Z * Space :=
  let unit_ (x : Result () * Space) : Result Z * Space :=
    match x with (Ok _, m) => (Ok 0, m) | (Err e, m) => (Err e, m) | (Panic, m) => (Panic, m) end in
  match c with
  | CMmap ofile addr len prot flags fd offset => mmap ofile addr len prot flags fd offset m
  | CMunmap addr len => unit_ (munmap inode_write fs_begin fs_end addr len m)
  | CFault addr cause => unit_ (handle_user_page_fault inode_read addr cause m)
  | CShmCreate size => shm_create size m
  | CShmAttach id prot => shm_attach id prot m
  | CShmDetach addr => unit_ (shm_detach inode_write fs_begin fs_end addr m)
  | CShmDestroy id => unit_ (shm_destroy id m)
  end.

(** A store by the program: through a valid entry that lets the user write. *)
Definition user_store (va b : Z) m : option Space :=
  let pte := pte_at (sp_phys m) (sp_root m) va in
  if is_v pte && is_u pte && has pte PTE_W then
    d ← ph_pages (sp_phys m) !! to_pa pte;
    Some (set_phys (set_pages (<[to_pa pte := <[Z.to_nat (va mod 4096) := b]> d]> (ph_pages (sp_phys m))) (sp_phys m)) m)
  else None.

Inductive reach (m0 : Space (FS := FS)) : Space (FS := FS) → Prop :=
  | reach_start : reach m0 m0
  | reach_call m c r m' : reach m0 m → refs_room m → in_range c → run_call c m = (r, m') → reach m0 m'
  | reach_store m va b m' : reach m0 m → user_store va b m = Some m' → reach m0 m'
  | reach_fs m fs : reach m0 m → reach m0 (set_fs fs m).

(** What the code relies on of the inode layer: reads and writes do not panic,
    and a read returns at most what was asked for. *)
Definition inodes_ok : Prop := reader_ok inode_read ∧ ∀ ip off d fs, (inode_write ip off d fs).1 ≠ Panic.

Lemma mem_ok_store own L B root s q d d' :
  mem_ok own L B root s → ph_pages s !! q = Some d → length d' = length d →
  mem_ok own L B root (set_pages (<[q := d']> (ph_pages s)) s).
Proof.
  intros [W H1 H2 H3 H4] Hq Hl.
  assert (Hpp : ∀ x, page_at s x → page_at (set_pages (<[q := d']> (ph_pages s)) s) x).
  { intros x (e&He&Hle). unfold page_at. simpl. destruct (decide (x = q)) as [->|]; [rewrite lookup_insert_eq|rewrite lookup_insert_ne by done; eauto].
    exists d'. split; [done|]. assert (e = d) as -> by congruence. lia. }
  split; [by apply (pt_wf_same _ _ s)| | |done|].
  - intros x Hx. destruct (H1 x Hx) as (A1&A2&A3&A4). split_and!; [done|done|done|by apply Hpp].
  - intros x Hx. destruct (H2 x Hx) as (A1&A2&A3). simpl. rewrite lookup_insert_ne by congruence. done.
  - intros x Hx. destruct (H4 x Hx) as (A1&A2&A3&A4). split_and!; [done|done|done|by apply Hpp].
Qed.

Lemma user_store_ok va b m m' : mmap_ok m → user_store va b m = Some m' → mmap_ok m'.
Proof.
  intros (own&res&Hok) Hs. unfold user_store in Hs. destruct (_ && _); [|done].
  destruct (ph_pages (sp_phys m) !! to_pa _) as [d|] eqn:Hd; [|done]. injection Hs as <-. exists own, res.
  apply (space_ok_phys _ _ _ _ _ _ Hok). destruct (sk_mem _ _ _ _ Hok) as [Hm Hr]. split; [|by apply (res_ok_tables _ (sp_phys m))].
  apply (mem_ok_store _ _ _ _ _ _ d); [done|done|by rewrite length_insert].
Qed.

Lemma run_call_ok c m : inodes_ok → mmap_ok m → refs_room m → in_range c →
  (run_call c m).1 ≠ Panic ∧ mmap_ok (run_call c m).2.
Proof.
  intros [Hrd Hwr] Hok Hroom Hc. destruct c as [ofile addr len prot flags fd offset|addr len|addr cause|size|id prot|addr|id]; simpl in *.
  - destruct Hok as (own&res&Hok). destruct (mmap_spec own res [] m ofile addr len prot flags fd offset Hok) as [[e ->]|(f&->&Hok'&_)];
      [lia|lia|lia|lia|split; [done|by exists own, res]..].
  - destruct (decide (addr mod 4096 = 0 ∧ 0 < len)) as [[Hal Hlen]|Hno].
    + destruct (munmap_spec inode_write fs_begin fs_end m addr len Hwr Hok) as (r&m'&->&Hr&Hok'&_); [lia|done|lia|lia|by destruct r].
    + assert (munmap inode_write fs_begin fs_end addr len m = (Err InvalidArgument, m)) as ->; [|done].
      unfold munmap, is_aligned, PGSIZE. destruct (Z.eqb_spec (addr mod 4096) 0), (Z.eqb_spec len 0); [done| |done..]. lia.
  - destruct (page_fault_spec inode_read m addr cause Hrd Hok Hc (λ pa, proj1 (Hroom pa))) as (r&m'&->&Hr&Hok'&_). by destruct r.
  - apply shm_create_spec; [done|lia|lia].
  - destruct (shm_attach_spec m id prot Hok Hroom) as (r&m'&->&Hr&Hok'&_). done.
  - pose proof (shm_detach_spec inode_write fs_begin fs_end m addr Hwr Hok) as [H1 H2]. by destruct (shm_detach _ _ _ _ _) as [[] ].
  - pose proof (shm_destroy_spec m id Hok Hc) as [H1 H2]. by destruct (shm_destroy _ _) as [[] ].
Qed.

Lemma reach_ok own p root sz fs m : inodes_ok → starts own p root sz → reach (empty_space p root sz fs) m → mmap_ok m.
Proof.
  intros Hio Hst. induction 1 as [|m c r m' _ IH Hroom Hc Hrun|m va b m' _ IH Hs|m fs' _ (own'&res'&Hok)].
  - by eapply empty_space_ok.
  - pose proof (run_call_ok c m Hio IH Hroom Hc) as [_ H]. by rewrite Hrun in H.
  - by eapply user_store_ok.
  - exists own', res'. by apply space_ok_fs.
Qed.
End life.

(** Entries for the same page are all counted. *)
Lemma rm_count (res : gmap Z Z) pa l : NoDup l → (∀ x, x ∈ l → res !! x = Some pa) → (length l ≤ multiplicity pa (rm res))%nat.
Proof.
  intros Hnd. revert res. induction Hnd as [|x l Hx Hnd IH]; intros res Hl; simpl; [lia|].
  rewrite (rm_delete res x pa), mult_add, decide_True by (done || (apply Hl; by left)).
  enough (length l ≤ multiplicity pa (rm (delete x res)))%nat by lia. apply IH. intros y Hy.
  rewrite lookup_delete_ne by (intros <-; done). apply Hl. by right.
Qed.

(** C21: Take the states a process can reach by mapping calls, faults and
    stores, other processes changing files meanwhile, when at every call (1)
    every page has room in its 16-bit count for the references the call can
    add ([refs_room]) and (2) the ends of the ranges, rounded up, are below
    2^64 ([in_range]).  Then the mappings do not overlap; every valid entry of
    the mapping area lies in a mapping and leads to a page that is allocated,
    not on the free list and counted at least as often as it is mapped; and no
    call that meets (1) and (2) stops the kernel.  Without (1) an attach can
    meet the assertion of [page_ref_inc] after 65535 others, without (2) a
    [munmap] overflows. *)
Theorem mapping_invariant {FS} inode_read inode_write fs_begin fs_end own p root sz (fs : FS) m :
  inodes_ok inode_read inode_write → starts own p root sz →
  reach inode_read inode_write fs_begin fs_end (empty_space p root sz fs) m →
  let pte := pte_at (sp_phys m) (sp_root m) in
  disjoint_all (vmas m) ∧
  (∀ x, mmap_base m ≤ x < TOP → is_v (pte x) = true →
     is_Some (view (vmas m) x) ∧ page_at (sp_phys m) (to_pa (pte x)) ∧ to_pa (pte x) ∉ ph_free (sp_phys m)) ∧
  (∀ pa l, l ≠ [] → NoDup l → (∀ x, x ∈ l → x mod 4096 = 0 ∧ mmap_base m ≤ x < TOP ∧ is_v (pte x) = true ∧ to_pa (pte x) = pa) →
     Z.of_nat (length l) ≤ pref (sp_phys m) pa) ∧
  (∀ c, refs_room m → in_range c → (run_call inode_read inode_write fs_begin fs_end c m).1 ≠ Panic).
Proof.
  intros Hio Hst Hreach pte. pose proof (reach_ok _ _ _ _ _ _ _ _ _ _ Hio Hst Hreach) as Hmo. pose proof Hmo as (own'&res&Hok).
  destruct (sk_mem _ _ _ _ Hok) as [Hm [Hr _]]. destruct (sk_base _ _ _ _ Hok) as (Hb1&Hb2&_). split_and!.
  - apply (sk_disj _ _ _ _ Hok).
  - intros x Hx Hv. destruct (area_entry own' res [] m x Hok Hx) as [E Hy]. fold pte in E, Hy. rewrite E in Hv |- *.
    destruct (res !! (x / 4096 * 4096)) as [pa|] eqn:Hres; [|congruence]. rewrite Hy.
    destruct (mo_led _ _ _ _ _ Hm pa) as (_&_&_&Hpg); [apply gmultiset_elem_of_disj_union; left; by eapply rm_elem|].
    split_and!; [|done|by eapply page_not_free]. destruct (sk_cov _ _ _ _ Hok _ _ Hres) as (v&Hvin&Hc).
    pose proof (sk_vmas _ _ _ _ Hok) as Hvs. rewrite Forall_forall in Hvs. destruct (Hvs v Hvin) as [Hvw _].
    destruct (view (vmas m) x) eqn:Hview; [done|]. apply view_None in Hview. rewrite Forall_forall in Hview.
    specialize (Hview v Hvin). simpl in Hview. apply contains_pg_false in Hview. apply contains_pg_spec in Hc.
    pose proof (end_pg_al v Hvw) as (E1&_). pose proof (vw_al v Hvw). lia.
  - intros pa l Hne Hnd Hl. destruct l as [|x0 l0]; [done|].
    set (l := x0 :: l0) in *.
    assert (Hin : ∀ x, x ∈ l → res !! x = Some pa).
    { intros x Hx. destruct (Hl x Hx) as (H1&H2&H3&H4). specialize (Hr x H1 ltac:(lia)). cbv zeta in Hr. fold pte in Hr.
      destruct (res !! x) as [q|]; [|congruence]. destruct Hr as (_&_&_&<-). by rewrite H4. }
    destruct (mo_led _ _ _ _ _ Hm pa) as (_&Hc&_).
    { apply gmultiset_elem_of_disj_union. left. eapply rm_elem. apply (Hin x0). by left. }
    rewrite multiplicity_disj_union in Hc. pose proof (rm_count res pa l Hnd Hin). lia.
  - intros c Hroom Hc. by apply run_call_ok.
Qed.

(** C22: [munmap] of a range whose end is below 2^64 never panics.  It fails
    only when the range would split a shared segment, when a page that has to
    be written to a file cannot be copied (no free page for the copy, or an
    offset over 32 bits), or when writing to the files fails; a failure leaves
    the invariant intact.  When it succeeds it removes from the mappings
    exactly the addresses of the range, and leaves the page table and the
    contents of mapped pages outside it as they were; no entry of the range
    stays valid; and what it writes to files is, page by page, the resident
    data of the shared file mappings in the range, at the offset that backs
    it, cut at the length the mapping has recorded.  That length is the
    requested one until the end of the mapping is unmapped; from then on it
    is shorter than the bytes that are left (see [tail_unmap_loses_data]). *)
Theorem munmap_correct {FS} inode_read inode_write fs_begin fs_end own p root sz (fs : FS) m addr len :
  inodes_ok inode_read inode_write → starts own p root sz →
  reach inode_read inode_write fs_begin fs_end (empty_space p root sz fs) m →
  0 ≤ addr → addr mod 4096 = 0 → 0 < len → addr + len + 4096 ≤ 2 ^ 64 →
  let end_ := addr + pgroundup len in
  let pte := pte_at (sp_phys m) (sp_root m) in
  ∃ r m', munmap inode_write fs_begin fs_end addr len m = (r, m') ∧ r ≠ Panic ∧ mmap_ok m' ∧
    (∀ e, r = Err e → munmap_refused inode_write fs_begin fs_end m addr end_ e) ∧
    (r = Ok () →
      (∀ va, view (vmas m') va = if decide (addr ≤ va < end_) then None else view (vmas m) va) ∧
      (∀ x, 0 ≤ x < MAXVA → ¬ addr ≤ x < end_ → pte_at (sp_phys m') (sp_root m') x = pte x) ∧
      (∀ x, mmap_base m ≤ x < TOP → addr ≤ x < end_ → is_v (pte_at (sp_phys m') (sp_root m') x) = false) ∧
      (∀ x, mmap_base m ≤ x < TOP → ¬ addr ≤ x < end_ → is_v (pte x) = true →
         ph_pages (sp_phys m') !! to_pa (pte x) = ph_pages (sp_phys m) !! to_pa (pte x)) ∧
      fs_apply inode_write fs_begin fs_end (dirty (sp_phys m) (sp_root m) addr end_ (vmas m)) (sp_fs m)
        = (Ok (), sp_fs m') ∧
      mmap_base m' = mmap_base m).
Proof. intros Hio Hst Hreach. apply munmap_spec; [apply Hio|by eapply reach_ok]. Qed.

(** C23: A page fault outside every mapping, or one whose kind of access the
    mapping does not allow, or on a page that is present, is refused and
    changes nothing.  Otherwise it succeeds unless the file cannot be read or
    there are fewer free pages than the fault needs: one for each table that
    is missing on the way to the address, and one for the data unless the
    page belongs to a shared segment ([fault_result] is what it returns).
    When it succeeds the page of the address becomes present with the
    permissions of its mapping, and holds the page of the shared segment, or
    the bytes of the file at the offset that backs it with zeros after them,
    or zeros; no other entry and no page in use changes.  The counts of pages
    have room for one more reference. *)
Theorem page_fault_correct {FS} inode_read inode_write fs_begin fs_end own p root sz (fs : FS) m fault_addr cause :
  inodes_ok inode_read inode_write → starts own p root sz →
  reach inode_read inode_write fs_begin fs_end (empty_space p root sz fs) m →
  0 ≤ fault_addr < 2 ^ 64 → refs_room m →
  let va := fault_addr / 4096 * 4096 in
  ∃ r m', handle_user_page_fault inode_read fault_addr cause m = (r, m') ∧ r ≠ Panic ∧ mmap_ok m' ∧
    (view (vmas m) va = None → r = Err BadVirtAddr ∧ m' = m) ∧
    ∀ v, v ∈ vmas m → contains_pg v va = true →
      if fault_denied cause v then r = Err PermissionDenied ∧ m' = m
      else if is_v (pte_at (sp_phys m) (sp_root m) va) then r = Err BadVirtAddr ∧ m' = m
      else faulted inode_read m m' v va r.
Proof.
  intros Hio Hst Hreach Hfa Hroom. apply page_fault_spec; [apply Hio|by eapply reach_ok|done|]. intros pa. apply Hroom.
Qed.

(** Attaching a segment maps its pages, in order, at the returned address
    and adds a mapping of the segment's size that holds a reference to it; so
    two processes that attach it see the same pages.  When it fails, the list
    of mappings and the address for the next one are as before. *)
Theorem shm_attach_correct {FS} inode_read inode_write fs_begin fs_end own p root sz (fs : FS) m id prot :
  inodes_ok inode_read inode_write → starts own p root sz →
  reach inode_read inode_write fs_begin fs_end (empty_space p root sz fs) m → refs_room m →
  ∃ r m', shm_attach id prot m = (r, m') ∧ r ≠ Panic ∧ mmap_ok m' ∧
    match r with
    | Ok start => ∃ g seg, mjoin (SHM_TABLE m !! Z.to_nat (id - 1)) = Some g ∧ segs m !! g = Some seg ∧
        vmas m' = vmas m ++ [mkVma start (shm_size seg) prot (Z.lor MAP_SHARED MAP_ANON) None 0 (Some g)] ∧
        ∀ i pa, shm_pages seg !! i = Some pa →
          let pte := pte_at (sp_phys m') (sp_root m') (start + Z.of_nat i * 4096) in
          is_v pte = true ∧ is_leaf pte = true ∧ is_u pte = true ∧ to_pa pte = pa
    | _ => vmas m' = vmas m ∧ mmap_base m' = mmap_base m
    end.
Proof. intros Hio Hst Hreach. apply shm_attach_spec. by eapply reach_ok. Qed.

(** ** A small process *)

(** One file, kept as its bytes. *)
Definition toy_read (_ off : Z) (n : nat) (fs : list Z) : Result (list Z) := Ok (take n (drop (Z.to_nat off) fs)).
Definition toy_write (_ off : Z) (d fs : list Z) : Result () * list Z := (Ok (), splice fs (Z.to_nat off) d).
Lemma toy_ok : inodes_ok toy_read toy_write.
Proof. split; [|done]. intros ip off n fs. simpl. rewrite length_take. lia. Qed.

Lemma demo_starts : starts {[ demo_root := (2%nat, 0) ]} demo_phys demo_root 0.
Proof.
  split; [apply demo_wf|vm_compute; split; congruence|intros; by rewrite demo_empty|].
  intros q Hq. unfold demo_phys in Hq |- *. simpl in Hq |- *.
  repeat (apply elem_of_cons in Hq as [->|Hq]; [by split_and!|]). by apply elem_of_nil in Hq.
Qed.

Lemma refs_room_small {FS} (m : Space (FS := FS)) :
  forallb (λ '(_, n), n <? 1000) (map_to_list (ph_refs (sp_phys m))) = true →
  forallb (λ '(_, s), (length (shm_pages s) <=? 64)%nat) (map_to_list (segs m)) = true → refs_room m.
Proof.
  rewrite !forallb_forall. intros H1 H2 pa.
  assert (Hpa : pref (sp_phys m) pa < 1000).
  { unfold pref. destruct (ph_refs (sp_phys m) !! pa) as [n|] eqn:E; simpl; [|lia].
    specialize (H1 (pa, n)). rewrite <-list_elem_of_In, elem_of_map_to_list in H1. specialize (H1 E). simpl in H1. lia. }
  split; [lia|]. intros g seg Hg. specialize (H2 (g, seg)). rewrite <-list_elem_of_In, elem_of_map_to_list in H2.
  specialize (H2 Hg). apply Nat.leb_le in H2. lia.
Qed.

(** The process maps a file of 5000 bytes shared, stores 7 into the second
    page and makes a segment of one page. *)
Definition toy_file : list Z := replicate 5000 1.
Definition toy_mmap : Call := CMmap [Some (mkMFile true true (Some 1))] 0 5000 3 1 0 0.
Definition toy_fault : Call := CFault (TOP - 4000) StorePageFault.
Definition toy_call (c : Call) (m : Space) : Result Z * Space := run_call toy_read toy_write id id c m.
Definition toy0 : Space := empty_space demo_phys demo_root 0 toy_file.
Definition toy1 : Space := (toy_call toy_mmap toy0).2.
Definition toy2 : Space := (toy_call toy_fault toy1).2.
Definition toy3 : Space := default toy2 (user_store (TOP - 4000) 7 toy2).
Definition toy4 : Space := (toy_call (CShmCreate 4096) toy3).2.

Lemma toy_step m c : reach toy_read toy_write id id toy0 m → refs_room m → in_range c →
  reach toy_read toy_write id id toy0 (toy_call c m).2.
Proof. intros Hm Hr Hc. eapply (reach_call _ _ _ _ _ m c (toy_call c m).1); [done..|]. by destruct (toy_call c m) eqn:E. Qed.

Ltac room := apply refs_room_small; vm_compute; reflexivity.
Lemma toy_reach1 : reach toy_read toy_write id id toy0 toy1.
Proof. apply toy_step; [apply reach_start|room|vm_compute; split_and!; congruence]. Qed.
Lemma toy_reach3 : reach toy_read toy_write id id toy0 toy3.
Proof.
  apply (reach_store _ _ _ _ _ toy2 (TOP - 4000) 7).
  - apply toy_step; [apply toy_reach1|room|vm_compute; split_and!; congruence].
  - unfold toy3. assert (H : bool_decide (is_Some (user_store (TOP - 4000) 7 toy2)) = true) by (vm_compute; reflexivity).
    apply bool_decide_eq_true in H as [x Hx]. by rewrite Hx.
Qed.
Lemma toy_reach4 : reach toy_read toy_write id id toy0 toy4.
Proof. apply toy_step; [apply toy_reach3|room|vm_compute; split_and!; congruence]. Qed.

Lemma mapping_invariant_witness :
  let pte := pte_at (sp_phys toy3) (sp_root toy3) in
  is_v (pte (TOP - 4000)) = true ∧ is_Some (view (vmas toy3) (TOP - 4000)) ∧
  page_at (sp_phys toy3) (to_pa (pte (TOP - 4000))) ∧ to_pa (pte (TOP - 4000)) ∉ ph_free (sp_phys toy3).
Proof.
  intros pte. destruct (mapping_invariant toy_read toy_write id id _ demo_phys demo_root 0 toy_file toy3 toy_ok demo_starts toy_reach3)
    as (_&H&_). assert (Hv : is_v (pte (TOP - 4000)) = true) by (vm_compute; reflexivity). split; [done|].
  apply H; [vm_compute; split; congruence|done].
Defined.

(** Its mapping. *)
Definition toy_vma : Vma := mkVma (TOP - 8192) 5000 3 1 (Some (mkMFile true true (Some 1))) 0 None.

(** The unmapping succeeds, and the store reaches the file. *)
Lemma munmap_correct_witness :
  ∃ m', munmap toy_write id id (TOP - 8192) 5000 toy3 = (Ok (), m') ∧ view (vmas m') (TOP - 4096) = None ∧
    fs_apply toy_write id id [(1, 4096, replicate 96 1 ++ 7 :: replicate 807 1)] (sp_fs toy3) = (Ok (), sp_fs m').
Proof.
  destruct (munmap_correct toy_read toy_write id id _ demo_phys demo_root 0 toy_file toy3 (TOP - 8192) 5000
    toy_ok demo_starts toy_reach3) as (r&m'&H1&H2&_&H3&H4); [vm_compute; congruence|vm_compute; reflexivity|lia|vm_compute; congruence|].
  assert (Hd : dirty (sp_phys toy3) (sp_root toy3) (TOP - 8192) (TOP - 8192 + pgroundup 5000) (vmas toy3)
    = [(1, 4096, replicate 96 1 ++ 7 :: replicate 807 1)]) by (vm_compute; reflexivity).
  assert (r = Ok ()) as ->.
  { clear H1 H4. destruct r as [[]|e|]; [reflexivity|exfalso|destruct (H2 eq_refl)]. destruct (H3 e eq_refl) as [[_ H]|[[[_ H]|[_ H]]|H]].
    - assert (Hv : vmas toy3 = [toy_vma]) by (vm_compute; reflexivity).
      rewrite Hv, Exists_exists in H. destruct H as (v&->%list_elem_of_singleton&[x Hx]&_). discriminate Hx.
    - rewrite Hd in H. assert (frees toy3 = 3%nat) by (vm_compute; reflexivity). simpl in H. lia.
    - rewrite Hd, Exists_exists in H. destruct H as (d&->%list_elem_of_singleton&H). simpl in H. lia.
    - rewrite Hd in H. discriminate H. }
  exists m'. destruct (H4 eq_refl) as (Hview&_&_&_&Hfs&_). clear H3 H4. split; [exact H1|split; [|rewrite <-Hd; exact Hfs]].
  rewrite Hview, decide_True; [reflexivity|vm_compute; split; congruence].
Defined.

(** The fault succeeds and brings in the second page of the file. *)
Lemma page_fault_correct_witness :
  ∃ m' pa d, handle_user_page_fault toy_read (TOP - 4000) StorePageFault toy1 = (Ok (), m') ∧
    pte_at (sp_phys m') (sp_root toy1) (TOP - 4096) = vma_pte toy_vma pa ∧ ph_pages (sp_phys m') !! pa = Some d ∧
    take 905 d = replicate 904 1 ++ [0].
Proof.
  destruct (page_fault_correct toy_read toy_write id id _ demo_phys demo_root 0 toy_file toy1 (TOP - 4000) StorePageFault
    toy_ok demo_starts toy_reach1) as (r&m'&H1&H2&H3&_&H4); [vm_compute; split; congruence|room|].
  assert (Hva : (TOP - 4000) / 4096 * 4096 = TOP - 4096) by (vm_compute; reflexivity).
  specialize (H4 toy_vma ltac:(left) ltac:(vm_compute; reflexivity)). rewrite Hva in H4.
  replace (fault_denied StorePageFault toy_vma) with false in H4 by (vm_compute; reflexivity).
  replace (is_v (pte_at (sp_phys toy1) (sp_root toy1) (TOP - 4096))) with false in H4 by (vm_compute; reflexivity).
  destruct H4 as [Hr _ _ _ _ Hnew].
  replace (fault_result toy_read toy1 toy_vma (TOP - 4096)) with (Ok () : Result ()) in Hr by (vm_compute; reflexivity). subst r.
  destruct (Hnew eq_refl) as (pa&d&Hpte&Hpg&Hd). exists m', pa, d. split; [exact H1|split; [exact Hpte|split; [exact Hpg|]]].
  assert (Hd' : match fault_data toy_read toy_vma (TOP - 4096) (sp_fs toy1) with Ok d => take 905 d | _ => [] end = replicate 904 1 ++ [0])
    by (vm_compute; reflexivity).
  cbn [v_shm toy_vma] in Hd. rewrite Hd in Hd'. exact Hd'.
Defined.

(** Unmapping the last page of a mapping takes whole pages off its length in
    bytes.  After that the end of what is left counts as past the end of the
    mapping: a store there, though its page stays mapped, never reaches the
    file.  Unmapping both pages at once would have written it. *)
Definition toy_lost : Space :=
  let m := (toy_call (CFault (TOP - 8192) StorePageFault) toy1).2 in
  let m := default m (user_store (TOP - 8192 + 1000) 7 m) in
  m.
Example tail_unmap_loses_data :
  let two := (toy_call (CMunmap (TOP - 8192) 4096) (toy_call (CMunmap (TOP - 4096) 4096) toy_lost).2) in
  let one := toy_call (CMunmap (TOP - 8192) 8192) toy_lost in
  two.1 = Ok 0 ∧ sp_fs two.2 !! 1000%nat = Some 1 ∧ one.1 = Ok 0 ∧ sp_fs one.2 !! 1000%nat = Some 7.
Proof. vm_compute. split_and!; reflexivity. Qed.
