(* ===== verification/Signal.v ===== *)
(** * Signals

    [kernel/src/signal.rs]: signal numbers, the pending-set masks and the
    default action of each signal, with the bit lemmas the process table
    needs of the 32-bit pending set. *)

From stdpp Require Import base tactics numbers list.
From S2P Require Import Prelude Params Errors.
Local Open Scope Z_scope.

(** [enum SigDefaultAction]. *)
Inductive SigDefaultAction := SigIgnore | SigTerminate | SigStop | SigContinue.

Global Instance SigDefaultAction_eq_dec : EqDecision SigDefaultAction.
Proof. solve_decision. Defined.

Definition NSIG : Z := 32.
Definition SIG_DFL : Z := USIZE_MAX.
Definition SIG_IGN : Z := USIZE_MAX - 1.
Definition SIGINT : Z := 2.
Definition SIGKILL : Z := 9.
Definition SIGUSR1 : Z := 10.
Definition SIGUSR2 : Z := 12.
Definition SIGALRM : Z := 14.
Definition SIGTERM : Z := 15.
Definition SIGCONT : Z := 18.
Definition SIGTSTP : Z := 20.
Definition SIGTTIN : Z := 21.
Definition SIGTTOU : Z := 22.
Definition WNOHANG : Z := 1.
Definition WUNTRACED : Z := 2.
Definition WCONTINUED : Z := 4.

(** [sig_mask]. *)
Definition sig_mask (sig : Z) : Z :=
  if (sig =? 0) || (NSIG <? sig) then 0 else u32 (Z.shiftl 1 (sig - 1)).

(** [default_action]. *)
Definition default_action (sig : Z) : SigDefaultAction :=
  if bool_decide (sig ∈ [SIGKILL; SIGTERM; SIGINT; SIGALRM; SIGUSR1; SIGUSR2]) then SigTerminate
  else if bool_decide (sig ∈ [SIGTSTP; SIGTTIN; SIGTTOU]) then SigStop
  else if sig =? SIGCONT then SigContinue
  else SigIgnore.

(** [u32::trailing_zeros]. *)
Fixpoint tz_from (n : nat) (i : Z) (x : Z) : Z :=
  match n with
  | O => i
  | S n => if Z.testbit x i then i else tz_from n (i + 1) x
  end.
Definition trailing_zeros (x : Z) : Z := tz_from 32 0 x.

(** ** Bits of the pending set *)

Lemma sig_mask_bit sig : 1 ≤ sig ≤ NSIG → sig_mask sig = 2 ^ (sig - 1).
Proof.
  unfold NSIG. intros H. unfold sig_mask, NSIG.
  rewrite (proj2 (Z.eqb_neq _ _)), (proj2 (Z.ltb_ge _ _)) by lia. simpl.
  unfold u32. rewrite Z.shiftl_1_l. apply wrap_small. split; [lia|].
  apply Z.pow_lt_mono_r; lia.
Qed.

Lemma sig_mask_testbit sig i :
  1 ≤ sig ≤ NSIG → 0 ≤ i → Z.testbit (sig_mask sig) i = bool_decide (i = sig - 1).
Proof.
  intros H Hi. rewrite sig_mask_bit by done. unfold NSIG in H.
  rewrite Z.pow2_bits_eqb by lia. case_bool_decide; [apply Z.eqb_eq|apply Z.eqb_neq]; lia.
Qed.

(** A 32-bit set: no bit at 32 or above. *)
Definition is_u32 (x : Z) : Prop := 0 ≤ x < 2 ^ 32.

Lemma is_u32_bits x : 0 ≤ x → (∀ i, 32 ≤ i → Z.testbit x i = false) → is_u32 x.
Proof.
  intros Hx H. split; [done|].
  assert (x = x `mod` 2 ^ 32) as ->.
  { apply Z.bits_inj'. intros i Hi. destruct (decide (i < 32)).
    - by rewrite Z.mod_pow2_bits_low.
    - rewrite Z.mod_pow2_bits_high by lia. apply H. lia. }
  apply Z.mod_pos_bound. done.
Qed.

Lemma is_u32_high x i : is_u32 x → 32 ≤ i → Z.testbit x i = false.
Proof.
  intros [H0 H1] Hi. rewrite <-(Z.mod_small x (2 ^ 32)) by done.
  apply Z.mod_pow2_bits_high. lia.
Qed.

Lemma is_u32_lor x y : is_u32 x → is_u32 y → is_u32 (Z.lor x y).
Proof.
  intros Hx Hy. apply is_u32_bits.
  - apply Z.lor_nonneg. split; [apply Hx|apply Hy].
  - intros i Hi. by rewrite Z.lor_spec, !is_u32_high by done.
Qed.

Lemma is_u32_ldiff x y : is_u32 x → is_u32 (Z.ldiff x y).
Proof.
  intros Hx. apply is_u32_bits.
  - apply Z.ldiff_nonneg. left. apply Hx.
  - intros i Hi. by rewrite Z.ldiff_spec, is_u32_high by done.
Qed.

Lemma is_u32_sig_mask sig : is_u32 (sig_mask sig).
Proof.
  unfold sig_mask. destruct (_ || _); [done|]. apply wrap_range. lia.
Qed.

#[export] Hint Resolve is_u32_lor is_u32_ldiff is_u32_sig_mask : kernel.

Lemma tz_from_spec n i x :
  0 ≤ i → (∃ j, i ≤ j < i + Z.of_nat n ∧ Z.testbit x j = true) →
  i ≤ tz_from n i x < i + Z.of_nat n ∧ Z.testbit x (tz_from n i x) = true ∧
  ∀ j, i ≤ j < tz_from n i x → Z.testbit x j = false.
Proof.
  revert i. induction n as [|n IH]; intros i Hi (j&Hj&Hb); [lia|]. simpl.
  destruct (Z.testbit x i) eqn:E.
  - split; [lia|]. split; [done|]. intros. lia.
  - assert (j ≠ i) by congruence.
    destruct (IH (i + 1) ltac:(lia)) as (H1&H2&H3); [exists j; split; [lia|done]|].
    split; [lia|]. split; [done|]. intros k Hk.
    destruct (decide (k = i)) as [->|]; [done|]. apply H3. lia.
Qed.

(** The lowest pending signal. *)
Lemma trailing_zeros_spec x :
  is_u32 x → x ≠ 0 →
  0 ≤ trailing_zeros x < 32 ∧ Z.testbit x (trailing_zeros x) = true ∧
  ∀ j, 0 ≤ j < trailing_zeros x → Z.testbit x j = false.
Proof.
  intros Hx Hne. apply (tz_from_spec 32 0); [lia|].
  destruct (decide (Exists (λ j, Z.testbit x j = true) (seqZ 0 32))) as [He|Hn].
  - apply Exists_exists in He as (j&Hj&Hb). apply elem_of_seqZ in Hj. exists j. split; [lia|done].
  - exfalso. apply Hne. apply Z.bits_inj'. intros i Hi. rewrite Z.bits_0.
    destruct (decide (i < 32)); [|apply is_u32_high; [done|lia]].
    destruct (Z.testbit x i) eqn:E; [|done]. exfalso. apply Hn. apply Exists_exists.
    exists i. split; [|done]. apply elem_of_seqZ. lia.
Qed.
