(* ===== verification/Spinlock.v ===== *)
(** * Spin locks

    The spin locks of [kernel/src/spinlock.rs] with the per-CPU nesting of
    disabled interrupts of [proc.rs] ([lock_mycpu], [Cpu::locked],
    [Cpu::unlock]).  CPUs take and release locks in any order; an attempt of
    the compare-and-exchange is a step of its own. *)

From stdpp Require Import base tactics numbers gmap list.
From S2P Require Import Prelude.
Local Open Scope nat_scope.

(** ** Spin locks *)

Definition NEST : nat := 20.

(** [guards] are the [MutexGuard]s alive on the CPU, [waiting] the lock whose
    [compare_exchange] it is trying; [intr] is its interrupt enable bit. *)
Record Cpu := mkCpu { noff : nat; intena : bool; intr : bool; waiting : option nat; guards : list nat }.
(** The lock words: the CPU that holds each. *)
Record Machine := mkMachine { locked : gmap nat nat; cpus : list Cpu }.

(** [lock_mycpu]: interrupts off, then [Cpu::locked]. *)
Definition lock_mycpu (c : Cpu) : outcome () Cpu :=
  let old := intr c in
  if noff c <? NEST then Ok (mkCpu (S (noff c)) (if noff c =? 0 then old else intena c) false (waiting c) (guards c)) else Panic.
(** [Cpu::unlock], the drop of an [IntrLock]. *)
Definition cpu_unlock (c : Cpu) : outcome () Cpu :=
  if intr c then Panic
  else if noff c =? 0 then Panic
  else Ok (mkCpu (noff c - 1) (intena c) (if (noff c - 1 =? 0) && intena c then true else intr c) (waiting c) (guards c)).

(** [Mutex::holding]. *)
Definition holding (l k : nat) (m : Machine) : bool := bool_decide (locked m !! l = Some k).

Inductive LockOp := Lock (l : nat) | Try | Unlock (l : nat).

Definition put_cpu (k : nat) (c : Cpu) (lk : gmap nat nat) (m : Machine) : Machine := mkMachine lk (<[k := c]> (cpus m)).

(** The drop of a guard ([MutexGuard::holding] asserts that interrupts are off)
    and of the [IntrLock] in it. *)
Definition guard_release (k l : nat) (c : Cpu) (m : Machine) : outcome () Machine :=
  if intr c || negb (holding l k m) then Panic
  else c1 ← cpu_unlock (mkCpu (noff c) (intena c) (intr c) (waiting c) (filter (λ x, x ≠ l) (guards c)));
       Ok (put_cpu k c1 (delete l (locked m)) m).

(** One step of CPU [k]: [lock] up to its loop, one turn of the loop, and the
    drop of a guard.  [None]: the CPU is not where it could do this. *)
Definition lock_step (k : nat) (op : LockOp) (m : Machine) : option (outcome () Machine) :=
  match cpus m !! k with
  | None => None
  | Some c =>
      match op, waiting c with
      | Lock l, None =>
          Some (c1 ← lock_mycpu c;
                if holding l k m then Panic
                else Ok (put_cpu k (mkCpu (noff c1) (intena c1) (intr c1) (Some l) (guards c1)) (locked m) m))
      | Try, Some l =>
          Some (match locked m !! l with
                | None => Ok (put_cpu k (mkCpu (noff c) (intena c) (intr c) None (l :: guards c)) (<[l := k]> (locked m)) m)
                | Some _ => Ok m
                end)
      | Unlock l, None =>
          if bool_decide (l ∈ guards c) then
            Some (guard_release k l c m)
          else None
      | _, _ => None
      end
  end.

Inductive runs : Machine → Machine → Prop :=
| runs_refl m : runs m m
| runs_more k op m1 m2 m3 : lock_step k op m1 = Some (Ok m2) → runs m2 m3 → runs m1 m3.

Definition machine_new (intrs : list bool) : Machine := mkMachine ∅ ((λ b, mkCpu 0 false b None []) <$> intrs).

(** ** The invariant *)

(** The interrupt bit the CPU returns to when it holds no lock. *)
Definition resting (c : Cpu) : bool := if noff c =? 0 then intr c else intena c.

Record cpu_ok (m : Machine) (k : nat) (c : Cpu) : Prop := {
  cp_nodup : NoDup (guards c);
  cp_held l : l ∈ guards c ↔ locked m !! l = Some k;
  cp_noff : noff c = length (guards c) + match waiting c with Some _ => 1 | None => 0 end;
  cp_intr : noff c ≠ 0 → intr c = false;
  cp_nest : noff c ≤ NEST;
}.
Definition machine_ok (intrs : list bool) (m : Machine) : Prop :=
  ∀ k c, cpus m !! k = Some c → cpu_ok m k c ∧ intrs !! k = Some (resting c).

Lemma filter_absent (l : nat) (gs : list nat) : l ∉ gs → filter (λ x, x ≠ l) gs = gs.
Proof.
  induction gs as [|x gs IH]; [done|]. rewrite not_elem_of_cons. intros [? ?]. rewrite filter_cons_True by done. by rewrite IH.
Qed.

Lemma length_filter_neq (l : nat) (gs : list nat) : NoDup gs → l ∈ gs → length gs = S (length (filter (λ x, x ≠ l) gs)).
Proof.
  induction 1 as [|x gs Hx Hnd IH]; intros Hl; [by apply not_elem_of_nil in Hl|]. apply elem_of_cons in Hl as [->|Hl].
  - rewrite filter_cons_False by (by intros []). by rewrite filter_absent.
  - rewrite filter_cons_True by (intros ->; done). simpl. f_equal. by apply IH.
Qed.

(** A CPU changes; what the lock words say of the others stays. *)
Lemma machine_update intrs m k c c' lk :
  machine_ok intrs m → cpus m !! k = Some c → cpu_ok (mkMachine lk (cpus m)) k c' → resting c' = resting c →
  (∀ l k', k' ≠ k → lk !! l = Some k' ↔ locked m !! l = Some k') → machine_ok intrs (put_cpu k c' lk m).
Proof.
  intros Hm Hk Hc' Hr Hlk k' d Hd. simpl in Hd. destruct (decide (k' = k)) as [->|Hne].
  - rewrite list_lookup_insert_eq in Hd by by eapply lookup_lt_Some. injection Hd as <-. destruct (Hm k c Hk) as [_ Hi].
    rewrite Hr. split; [|done]. destruct Hc'. by constructor.
  - rewrite list_lookup_insert_ne in Hd by done. destruct (Hm k' d Hd) as [[] Hi]. split; [|done].
    constructor; try done. intros l. simpl. rewrite cp_held0. by rewrite Hlk.
Qed.

Lemma try_ok intrs m k c l :
  machine_ok intrs m → cpus m !! k = Some c → waiting c = Some l → locked m !! l = None →
  machine_ok intrs (put_cpu k (mkCpu (noff c) (intena c) (intr c) None (l :: guards c)) (<[l := k]> (locked m)) m).
Proof.
  intros Hm Hk Hw Hl. destruct (Hm k c Hk) as [[] _]. rewrite Hw in *. eapply machine_update; try done.
  - constructor; simpl; try done; try lia.
    + constructor; [|done]. rewrite cp_held0. by rewrite Hl.
    + intros l'. rewrite elem_of_cons. destruct (decide (l' = l)) as [->|]; [rewrite lookup_insert_eq; naive_solver|].
      rewrite lookup_insert_ne by done. rewrite <-cp_held0. naive_solver.
  - intros l' k' Hne. destruct (decide (l' = l)) as [->|]; [rewrite lookup_insert_eq, Hl; naive_solver|]. by rewrite lookup_insert_ne.
Qed.

Lemma lock_ok intrs m k c c1 l :
  machine_ok intrs m → cpus m !! k = Some c → waiting c = None → lock_mycpu c = Ok c1 →
  machine_ok intrs (put_cpu k (mkCpu (noff c1) (intena c1) (intr c1) (Some l) (guards c1)) (locked m) m).
Proof.
  intros Hm Hk Hw Hc1. unfold lock_mycpu in Hc1. destruct (Nat.ltb_spec (noff c) NEST) as [Hn|]; [|done]. injection Hc1 as <-.
  destruct (Hm k c Hk) as [[] _]. rewrite Hw in *. simpl. eapply machine_update; try done.
  constructor; simpl; try done; lia.
Qed.

(** Dropping a guard: both assertions hold. *)
Lemma unlock_ok intrs m k c l :
  machine_ok intrs m → cpus m !! k = Some c → waiting c = None → l ∈ guards c →
  intr c || negb (holding l k m) = false ∧
  ∃ c1, cpu_unlock (mkCpu (noff c) (intena c) (intr c) (waiting c) (filter (λ x, x ≠ l) (guards c))) = Ok c1 ∧
    machine_ok intrs (put_cpu k c1 (delete l (locked m)) m).
Proof.
  intros Hm Hk Hw Hl. destruct (Hm k c Hk) as [[] _]. pose proof (length_filter_neq l _ cp_nodup0 Hl) as Hlen.
  rewrite Hw in *. assert (Hi : intr c = false) by (apply cp_intr0; lia). rewrite Hi in *.
  assert (Hh : locked m !! l = Some k) by by apply cp_held0.
  split; [unfold holding; by rewrite bool_decide_true|]. unfold cpu_unlock. simpl.
  rewrite (proj2 (Nat.eqb_neq (noff c) 0)) by lia. eexists. split; [reflexivity|].
  eapply machine_update; try done.
  - constructor; simpl; try done; try lia.
    + by apply NoDup_filter.
    + intros l'. rewrite list_elem_of_filter, cp_held0. destruct (decide (l' = l)) as [->|]; [rewrite lookup_delete_eq; naive_solver|].
      rewrite lookup_delete_ne by done. naive_solver.
    + intros Hne. by rewrite (proj2 (Nat.eqb_neq _ _)) by done.
  - unfold resting. simpl. rewrite (proj2 (Nat.eqb_neq (noff c) 0)) by lia.
    destruct (Nat.eqb_spec (noff c - 1) 0); [|done]. by destruct (intena c).
  - intros l' k' Hne. destruct (decide (l' = l)) as [->|]; [rewrite lookup_delete_eq, Hh; naive_solver|]. by rewrite lookup_delete_ne.
Qed.

(** Every step keeps the invariant, and a panic is one of two mistakes. *)
Lemma lock_step_ok intrs m k op r :
  machine_ok intrs m → lock_step k op m = Some r →
  match r with
  | Ok m' => machine_ok intrs m'
  | _ => ∃ l c, op = Lock l ∧ cpus m !! k = Some c ∧ (l ∈ guards c ∨ NEST ≤ noff c)
  end.
Proof.
  intros Hm Hs. unfold lock_step in Hs. destruct (cpus m !! k) as [c|] eqn:Hk; [|done].
  destruct op as [l| |l], (waiting c) as [w|] eqn:Hw; try done.
  - injection Hs as <-. destruct (lock_mycpu c) as [c1|e|] eqn:E; bind_simpl.
    + unfold holding. case_bool_decide as Hh; [|by eapply lock_ok].
      exists l, c. destruct (Hm k c Hk) as [Hc _]. split_and!; [done..|]. left. by apply (cp_held _ _ _ Hc).
    + unfold lock_mycpu in E. by case_match.
    + exists l, c. split_and!; [done..|]. right. unfold lock_mycpu in E. case_match; [done|]. by bool_to_prop.
  - injection Hs as <-. destruct (locked m !! w) eqn:E; [done|]. by apply try_ok.
  - case_bool_decide as Hl; [|done]. injection Hs as <-.
    destruct (unlock_ok intrs m k c l Hm Hk Hw Hl) as (E1 & c1 & E2 & Hok). unfold guard_release. by rewrite E1, E2.
Qed.

Lemma machine_new_ok intrs : machine_ok intrs (machine_new intrs).
Proof.
  intros k c Hk. unfold machine_new in Hk. simpl in Hk. rewrite list_lookup_fmap in Hk. apply fmap_Some in Hk as (b & Hb & ->).
  split; [|done]. constructor; simpl; try done; [apply NoDup_nil_2| |unfold NEST; lia]. intros l. rewrite lookup_empty.
  split; [by intros ?%not_elem_of_nil|done].
Qed.

(** C30: Spin locks exclude, on any number of CPUs that take and release any
    locks in any order: no two CPUs have a guard of the same lock, a CPU that
    has a guard or waits for one has its interrupts off, dropping a guard never
    fails an assertion (only taking a lock the CPU already has, or more than 20
    at once, panics), and a CPU that has dropped all its guards has its
    interrupt bit as it was at first. *)
Theorem spinlock_exclusion intrs m :
  runs (machine_new intrs) m →
  (∀ k k' c c' l, cpus m !! k = Some c → cpus m !! k' = Some c' → l ∈ guards c → l ∈ guards c' → k = k') ∧
  (∀ k c, cpus m !! k = Some c → guards c ≠ [] ∨ waiting c ≠ None → intr c = false) ∧
  (∀ k op, lock_step k op m = Some Panic → ∃ l c, op = Lock l ∧ cpus m !! k = Some c ∧ (l ∈ guards c ∨ NEST ≤ noff c)) ∧
  (∀ k c, cpus m !! k = Some c → guards c = [] → waiting c = None → intrs !! k = Some (intr c)).
Proof.
  intros Hr. assert (Hm : machine_ok intrs m).
  { pose proof (machine_new_ok intrs) as H0. induction Hr as [|k op m1 m2 m3 Hs _ IH]; [done|]. apply IH.
    apply (lock_step_ok intrs m1 k op (Ok m2) H0 Hs). }
  split; [|split; [|split]].
  - intros k k' c c' l Hk Hk' Hl Hl'. destruct (Hm k c Hk) as [Hc _]. destruct (Hm k' c' Hk') as [Hc' _].
    apply (cp_held _ _ _ Hc) in Hl. apply (cp_held _ _ _ Hc') in Hl'. congruence.
  - intros k c Hk Hg. destruct (Hm k c Hk) as [[] _]. apply cp_intr0. rewrite cp_noff0. destruct Hg as [Hg|Hg].
    + destruct (guards c); [done|simpl; lia].
    + destruct (waiting c); [lia|done].
  - intros k op Hp. apply (lock_step_ok intrs m k op Panic Hm Hp).
  - intros k c Hk Hg Hw. destruct (Hm k c Hk) as [[] Hi]. rewrite Hi. unfold resting. rewrite cp_noff0, Hg, Hw. done.
Qed.

(** Two CPUs and one lock: the second waits. *)
Lemma spinlock_exclusion_witness :
  let m := mkMachine {[ 7 := 0 ]} [mkCpu 1 true false None [7]; mkCpu 1 false false (Some 7) []] in
  runs (machine_new [true; false]) m ∧
  (∀ k k' c c' l, cpus m !! k = Some c → cpus m !! k' = Some c' → l ∈ guards c → l ∈ guards c' → k = k') ∧
  (∀ k c, cpus m !! k = Some c → guards c ≠ [] ∨ waiting c ≠ None → intr c = false) ∧
  (∀ k op, lock_step k op m = Some Panic → ∃ l c, op = Lock l ∧ cpus m !! k = Some c ∧ (l ∈ guards c ∨ NEST ≤ noff c)) ∧
  (∀ k c, cpus m !! k = Some c → guards c = [] → waiting c = None → [true; false] !! k = Some (intr c)).
Proof.
  intros m. assert (Hr : runs (machine_new [true; false]) m).
  { eapply (runs_more 0 (Lock 7)); [reflexivity|]. eapply (runs_more 0 Try); [reflexivity|].
    eapply (runs_more 1 (Lock 7)); [reflexivity|]. eapply (runs_more 1 Try); [reflexivity|]. apply runs_refl. }
  split; [exact Hr|exact (spinlock_exclusion [true; false] m Hr)].
Defined.
