(* ===== verification/Procs.v ===== *)
(** * The process table

    [kernel/src/proc.rs]: process states, the scheduler's hand-over of
    processes between the run queues and the CPUs, sleep and wakeup, signals,
    process groups and sessions, exit and wait.

    Each definition is the code between taking and releasing the lock of one
    process ([p.inner]); a function that walks the table is the loop over its
    per-process body.  The current CPU is an argument ([cpu], the value of
    [Cpus::cpu_id()]), and the running process is what that CPU's [proc] field
    holds.  [Arc::as_ptr(p)], which serves as a sleep channel, is the field
    [p_ptr].  A function that gives up the CPU takes the lock nesting of the
    CPU on entry, of Spinlock.v, which [sched] tests.  Of [ProcData] the fields that signals and waiting use are kept;
    files, memory and names live in other components. *)

From stdpp Require Import base tactics numbers list.
From S2P Require Import Prelude Params Errors RunQueue Signal Spinlock.
Local Open Scope Z_scope.

(** [enum ProcState]. *)
Inductive ProcState := UNUSED | USED | SLEEPING | STOPPED | RUNNABLE | RUNNING | ZOMBIE.

Global Instance ProcState_eq_dec : EqDecision ProcState.
Proof. solve_decision. Defined.

(** [struct Trapframe]: 36 words in declaration order. *)
Abbreviation Trapframe := (list Z).
Definition Trapframe_default : Trapframe := replicate 36 0.
Definition tf_epc : nat := 3.
Definition tf_ra : nat := 5.
Definition tf_a0 : nat := 14.

(** [struct ProcInner]. *)
Record ProcInner := mkProcInner {
  state : ProcState;
  chan : Z;
  killed : bool;
  xstate : Z;
  pid : Z;
  pgid : Z;
  sid : Z;
  last_cpu : nat;
  sig_pending : Z;
  sig_handlers : list Z;
  sig_alarm_deadline : Z;
  sig_alarm_interval : Z;
  stop_sig : Z;
  stop_reported : bool;
  cont_pending : bool;
}.

(** The signal and thread fields of [struct ProcData]. *)
Record ProcData := mkProcData {
  trapframe : option Trapframe;
  sig_trapframe : Trapframe;
  sig_active : bool;
  sig_restorer : Z;
  is_thread : bool;
  ustack : Z;
}.

Record Proc := mkProc {
  inner : ProcInner;
  pdata : ProcData;
  p_ptr : Z;
}.

(** [PROCS], the run queues, the pid counter, and per CPU the process it runs
    ([Cpu::proc]) and the index [scheduler] holds between popping it and
    locking the process. *)
Record Sys := mkSys {
  pool : list Proc;
  parents : list (option nat);
  runqs : Runqs;
  NEXTID : Z;
  INITPROC : option nat;
  cpu_proc : list (option nat);
  cpu_pick : list (option nat);
}.

(** Field updates. *)
Definition set_state (v : ProcState) (i : ProcInner) : ProcInner :=
  mkProcInner v (chan i) (killed i) (xstate i) (pid i) (pgid i) (sid i) (last_cpu i) (sig_pending i)
    (sig_handlers i) (sig_alarm_deadline i) (sig_alarm_interval i) (stop_sig i) (stop_reported i) (cont_pending i).
Definition set_chan (v : Z) (i : ProcInner) : ProcInner :=
  mkProcInner (state i) v (killed i) (xstate i) (pid i) (pgid i) (sid i) (last_cpu i) (sig_pending i)
    (sig_handlers i) (sig_alarm_deadline i) (sig_alarm_interval i) (stop_sig i) (stop_reported i) (cont_pending i).
Definition set_killed (v : bool) (i : ProcInner) : ProcInner :=
  mkProcInner (state i) (chan i) v (xstate i) (pid i) (pgid i) (sid i) (last_cpu i) (sig_pending i)
    (sig_handlers i) (sig_alarm_deadline i) (sig_alarm_interval i) (stop_sig i) (stop_reported i) (cont_pending i).
Definition set_xstate (v : Z) (i : ProcInner) : ProcInner :=
  mkProcInner (state i) (chan i) (killed i) v (pid i) (pgid i) (sid i) (last_cpu i) (sig_pending i)
    (sig_handlers i) (sig_alarm_deadline i) (sig_alarm_interval i) (stop_sig i) (stop_reported i) (cont_pending i).
Definition set_ids (p g s : Z) (i : ProcInner) : ProcInner :=
  mkProcInner (state i) (chan i) (killed i) (xstate i) p g s (last_cpu i) (sig_pending i)
    (sig_handlers i) (sig_alarm_deadline i) (sig_alarm_interval i) (stop_sig i) (stop_reported i) (cont_pending i).
Definition set_last_cpu (v : nat) (i : ProcInner) : ProcInner :=
  mkProcInner (state i) (chan i) (killed i) (xstate i) (pid i) (pgid i) (sid i) v (sig_pending i)
    (sig_handlers i) (sig_alarm_deadline i) (sig_alarm_interval i) (stop_sig i) (stop_reported i) (cont_pending i).
Definition set_pending (v : Z) (i : ProcInner) : ProcInner :=
  mkProcInner (state i) (chan i) (killed i) (xstate i) (pid i) (pgid i) (sid i) (last_cpu i) v
    (sig_handlers i) (sig_alarm_deadline i) (sig_alarm_interval i) (stop_sig i) (stop_reported i) (cont_pending i).
Definition set_handlers (v : list Z) (i : ProcInner) : ProcInner :=
  mkProcInner (state i) (chan i) (killed i) (xstate i) (pid i) (pgid i) (sid i) (last_cpu i) (sig_pending i)
    v (sig_alarm_deadline i) (sig_alarm_interval i) (stop_sig i) (stop_reported i) (cont_pending i).
Definition set_alarm (d n : Z) (i : ProcInner) : ProcInner :=
  mkProcInner (state i) (chan i) (killed i) (xstate i) (pid i) (pgid i) (sid i) (last_cpu i) (sig_pending i)
    (sig_handlers i) d n (stop_sig i) (stop_reported i) (cont_pending i).
Definition set_stop (sg : Z) (rep cont : bool) (i : ProcInner) : ProcInner :=
  mkProcInner (state i) (chan i) (killed i) (xstate i) (pid i) (pgid i) (sid i) (last_cpu i) (sig_pending i)
    (sig_handlers i) (sig_alarm_deadline i) (sig_alarm_interval i) sg rep cont.

(** ** Initial state *)

(** [ProcInner::new]. *)
Definition ProcInner_new : ProcInner :=
  mkProcInner UNUSED 0 false 0 0 0 0 0 0 (replicate (Z.to_nat NSIG) SIG_DFL) 0 0 0 false false.
Definition ProcData_new : ProcData := mkProcData None Trapframe_default false 0 false 0.

(** [Procs::new]; the addresses of the [Arc]s are those the allocator chose. *)
Definition Procs_new (ptrs : nat → Z) : Sys :=
  mkSys ((λ i, mkProc ProcInner_new ProcData_new (ptrs i)) <$> seq 0 NPROC) (replicate NPROC None)
    (mkRunqs (replicate NCPU RunQueue_new) 0) 0 None (replicate NCPU None) (replicate NCPU None).

(** ** Access to the table *)
Abbreviation PM := (M Error Sys).

Definition get_proc (i : nat) : PM Proc := λ s,
  match pool s !! i with Some p => (Ok p, s) | None => (Panic, s) end.
Definition with_pool (f : list Proc → list Proc) (s : Sys) : Sys :=
  mkSys (f (pool s)) (parents s) (runqs s) (NEXTID s) (INITPROC s) (cpu_proc s) (cpu_pick s).
Definition put_proc (i : nat) (p : Proc) : PM () := λ s, (Ok (), with_pool <[i := p]> s).
Definition put_inner (i : nat) (p : Proc) (n : ProcInner) : PM () :=
  put_proc i (mkProc n (pdata p) (p_ptr p)).
Definition put_parents (l : list (option nat)) : PM () := λ s,
  (Ok (), mkSys (pool s) l (runqs s) (NEXTID s) (INITPROC s) (cpu_proc s) (cpu_pick s)).
Definition put_runqs (r : Runqs) : PM () := λ s,
  (Ok (), mkSys (pool s) (parents s) r (NEXTID s) (INITPROC s) (cpu_proc s) (cpu_pick s)).
Definition put_cpu_proc (cpu : nat) (v : option nat) : PM () := λ s,
  (Ok (), mkSys (pool s) (parents s) (runqs s) (NEXTID s) (INITPROC s) (<[cpu := v]> (cpu_proc s)) (cpu_pick s)).
Definition put_cpu_pick (cpu : nat) (v : option nat) : PM () := λ s,
  (Ok (), mkSys (pool s) (parents s) (runqs s) (NEXTID s) (INITPROC s) (cpu_proc s) (<[cpu := v]> (cpu_pick s))).

(** [Cpus::myproc().unwrap()]. *)
Definition myproc (cpu : nat) : PM nat := λ s,
  match mjoin (cpu_proc s !! cpu) with Some i => (Ok i, s) | None => (Panic, s) end.

(** [sig_handlers[sig - 1]]. *)
Definition handler_of (n : ProcInner) (sig : Z) : PM Z := λ s,
  match sig_handlers n !! Z.to_nat (sig - 1) with Some h => (Ok h, s) | None => (Panic, s) end.

(** ** Scheduling *)

(** [make_runnable]. *)
Definition make_runnable (cpu idx : nat) : PM () :=
  p ← get_proc idx;
  let g := inner p in
  if negb (bool_decide (state g = RUNNABLE)) then
    let c := if (last_cpu g <? NCPU)%nat then last_cpu g else cpu in
    _ ← put_inner idx p (set_last_cpu c (set_state RUNNABLE g));
    s ← m_get;
    match runq_push_cpu c idx (runqs s) with
    | Ok r => put_runqs r
    | _ => m_panic
    end
  else mret ().

(** [scheduler], first half: take an index off the run queues. *)
Definition sched_pop (cpu : nat) : PM bool :=
  s ← m_get;
  match runq_pop_or_steal cpu (runqs s) with
  | Ok (None, r) => _ ← put_runqs r; mret false
  | Ok (Some idx, r) => _ ← put_runqs r; _ ← put_cpu_pick cpu (Some idx); mret true
  | _ => m_panic
  end.

(** [scheduler], second half: lock the process, check its state, run it. *)
Definition sched_run (cpu : nat) : PM bool :=
  s ← m_get;
  match mjoin (cpu_pick s !! cpu) with
  | None => mret false
  | Some idx =>
      p ← get_proc idx;
      if negb (bool_decide (state (inner p) = RUNNABLE)) then _ ← put_cpu_pick cpu None; mret false
      else
        _ ← put_inner idx p (set_last_cpu cpu (set_state RUNNING (inner p)));
        _ ← put_cpu_proc cpu (Some idx); _ ← put_cpu_pick cpu None; mret true
  end.

(** The locks a process holds when it gives up the CPU: [PROCS.parents] and the
    [inner] of each process; [c] is the nesting of its CPU.  Taking a lock is
    [Mutex::lock] without the spinning, [guard_unlock] the drop of a guard. *)
Definition L_parents : nat := 0.
Definition L_inner (i : nat) : nat := S i.
Definition locks_m (r : outcome () Cpu) : PM Cpu := match r with Ok c => mret c | _ => m_panic end.
Definition guard_lock (l : nat) (c : Cpu) : PM Cpu :=
  locks_m (c1 ← lock_mycpu c;
          if bool_decide (l ∈ guards c) then Panic
          else Ok (mkCpu (noff c1) (intena c1) (intr c1) (waiting c1) (l :: guards c1))).
Definition guard_unlock (l : nat) (c : Cpu) : PM Cpu :=
  locks_m (if intr c || negb (bool_decide (l ∈ guards c)) then Panic
          else cpu_unlock (mkCpu (noff c) (intena c) (intr c) (waiting c) (filter (λ x, x ≠ l) (guards c)))).

(** [sched]: back to the scheduler, which clears [Cpu::proc]. *)
Definition sched (cpu idx : nat) (c : Cpu) : PM () :=
  p ← get_proc idx;
  if negb (bool_decide (L_inner idx ∈ guards c)) then m_panic
  else if negb (noff c =? 1)%nat then m_panic
  else if bool_decide (state (inner p) = RUNNING) then m_panic
  else if intr c then m_panic
  else put_cpu_proc cpu None.

(** [yielding]. *)
Definition yielding (cpu : nat) (c : Cpu) : PM () :=
  i ← myproc cpu; c ← guard_lock (L_inner i) c; _ ← make_runnable cpu i; sched cpu i c.

(** [sleep] up to the context switch, with the guard of the lock [m], and what
    it does when it is resumed. *)
Definition sleep (cpu : nat) (c : Cpu) (m : nat) (ch : Z) : PM () :=
  i ← myproc cpu; c ← guard_lock (L_inner i) c; c ← guard_unlock m c;
  p ← get_proc i;
  _ ← put_inner i p (set_state SLEEPING (set_chan ch (inner p)));
  sched cpu i c.
Definition sleep_resume (cpu : nat) : PM () :=
  i ← myproc cpu; p ← get_proc i; put_inner i p (set_chan 0 (inner p)).

(** [wakeup]: the body for one process, and the loop. *)
Definition wakeup_at (cpu : nat) (ch : Z) (idx : nat) : PM () :=
  s ← m_get;
  if bool_decide (mjoin (cpu_proc s !! cpu) = Some idx) then mret ()
  else
    p ← get_proc idx;
    if bool_decide (state (inner p) = SLEEPING) && (chan (inner p) =? ch)
    then make_runnable cpu idx else mret ().
Definition wakeup (cpu : nat) (ch : Z) : PM () := m_for (seq 0 NPROC) (wakeup_at cpu ch).

(** [usize::checked_add]. *)
Definition usize_checked_add (a b : Z) : option Z :=
  if a + b <=? USIZE_MAX then Some (a + b) else None.

(** [on_tick]. *)
Definition on_tick_at (cpu : nat) (now : Z) (idx : nat) : PM () :=
  p ← get_proc idx;
  let g := inner p in
  if sig_alarm_deadline g =? 0 then mret ()
  else if bool_decide (state g ∈ [UNUSED; ZOMBIE; STOPPED]) then mret ()
  else if now <? sig_alarm_deadline g then mret ()
  else
    let d := if sig_alarm_interval g =? 0 then 0
             else default 0 (usize_checked_add now (sig_alarm_interval g)) in
    _ ← put_inner idx p (set_alarm d (sig_alarm_interval g)
                           (set_pending (Z.lor (sig_pending g) (sig_mask SIGALRM)) g));
    if bool_decide (state g = SLEEPING) then make_runnable cpu idx else mret ().
Definition on_tick (cpu : nat) (now : Z) : PM () := m_for (seq 0 NPROC) (on_tick_at cpu now).

(** ** Signals *)

(** [deliver_signals], called by the process that runs on [cpu] on its way
    back to user space. *)
Definition deliver_signals (cpu : nat) (k : Cpu) : PM () :=
  i ← myproc cpu; p ← get_proc i;
  let d := pdata p in let g := inner p in
  if sig_active d then mret ()
  else
    k ← guard_lock (L_inner i) k;
    if sig_pending g =? 0 then mret () else
    let sig := trailing_zeros (sig_pending g) + 1 in
    let g1 := set_pending (Z.ldiff (sig_pending g) (sig_mask sig)) g in
    if sig =? SIGKILL then put_inner i p (set_killed true g1)
    else
      let c := if sig =? SIGCONT then set_stop (stop_sig g) (stop_reported g) false else λ x, x in
      handler ← handler_of g sig;
      if handler =? SIG_IGN then put_inner i p (c g1)
      else if handler =? SIG_DFL then
        match default_action sig with
        | SigTerminate => put_inner i p (set_killed true (c g1))
        | SigStop =>
            _ ← put_inner i p (set_state STOPPED (set_stop sig false (cont_pending (c g1)) (c g1)));
            k ← guard_lock L_parents k;
            s ← m_get;
            k ← guard_unlock L_parents k;
            _ ← match mjoin (parents s !! i) with
                | Some par => pp ← get_proc par; wakeup cpu (p_ptr pp)
                | None => mret ()
                end;
            sched cpu i k
        | SigContinue => put_inner i p (set_stop (stop_sig g) (stop_reported g) false (c g1))
        | SigIgnore => put_inner i p (c g1)
        end
      else if sig_restorer d =? 0 then put_inner i p (set_killed true (c g1))
      else
        match trapframe d with
        | None => m_panic
        | Some tf =>
            put_proc i (mkProc (c g1)
              (mkProcData (Some (<[tf_ra := sig_restorer d]> (<[tf_a0 := sig]> (<[tf_epc := handler]> tf))))
                 tf true (sig_restorer d) (is_thread d) (ustack d)) (p_ptr p))
        end.

(** [sigreturn]. *)
Definition sigreturn (cpu : nat) : PM () :=
  i ← myproc cpu; p ← get_proc i;
  let d := pdata p in
  if negb (sig_active d) then m_err InvalidArgument
  else
    match trapframe d with
    | None => m_panic
    | Some _ =>
        put_proc i (mkProc (inner p)
          (mkProcData (Some (sig_trapframe d)) (sig_trapframe d) false (sig_restorer d) (is_thread d) (ustack d))
          (p_ptr p))
    end.

(** The process runs in user mode and traps: its registers, as the trampoline
    saves them, are in the trap frame. *)
Definition user_run (cpu : nat) (regs : Trapframe) : PM () :=
  i ← myproc cpu; p ← get_proc i;
  let d := pdata p in
  match trapframe d with
  | None => m_panic
  | Some _ => put_proc i (mkProc (inner p) (mkProcData (Some regs) (sig_trapframe d) (sig_active d) (sig_restorer d)
                                              (is_thread d) (ustack d)) (p_ptr p))
  end.

(** [sigaction]. *)
Definition sigaction (cpu : nat) (sig handler restorer : Z) : PM Z :=
  if (sig =? 0) || (NSIG <? sig) then m_err InvalidArgument
  else if sig =? SIGKILL then m_err PermissionDenied
  else
    i ← myproc cpu; p ← get_proc i;
    prev ← handler_of (inner p) sig;
    let prev_ret := if prev =? SIG_DFL then 0 else if prev =? SIG_IGN then 1 else prev in
    let user := negb (handler =? SIG_DFL) && negb (handler =? SIG_IGN) in
    if user && (restorer =? 0) then m_err InvalidArgument
    else
      let d := pdata p in
      let d' := if user then mkProcData (trapframe d) (sig_trapframe d) (sig_active d) restorer (is_thread d) (ustack d) else d in
      _ ← put_proc i (mkProc (set_handlers (<[Z.to_nat (sig - 1) := handler]> (sig_handlers (inner p))) (inner p))
                       d' (p_ptr p));
      mret prev_ret.

(** [setitimer], with the tick count it reads. *)
Definition setitimer (cpu : nat) (now initial interval : Z) : PM Z :=
  i ← myproc cpu; p ← get_proc i;
  let g := inner p in
  let prev := if sig_alarm_deadline g =? 0 then 0 else Z.max 0 (sig_alarm_deadline g - now) in
  if initial =? 0 then _ ← put_inner i p (set_alarm 0 0 g); mret prev
  else match usize_checked_add now initial with
       | None => m_err InvalidArgument
       | Some deadline => _ ← put_inner i p (set_alarm deadline interval g); mret prev
       end.

(** The effect of a signal on the process [idx] that [kill] and [kill_pgrp]
    have selected. *)
Definition terminates (sig h : Z) : bool :=
  (sig =? SIGKILL) || ((h =? SIG_DFL) && bool_decide (default_action sig = SigTerminate)).
Definition post_signal (cpu idx : nat) (sig : Z) : PM () :=
  p ← get_proc idx;
  let g := inner p in
  h ← handler_of g sig;
  let g1 := if terminates sig h then set_killed true g else g in
  if negb (sig =? SIGKILL) && (h =? SIG_IGN) then put_inner idx p g1
  else
    let g2 := if sig =? SIGCONT then set_stop 0 false true g1 else g1 in
    _ ← put_inner idx p (set_pending (Z.lor (sig_pending g2) (sig_mask sig)) g2);
    _ ← (if bool_decide (state g = STOPPED) && ((sig =? SIGCONT) || terminates sig h)
         then make_runnable cpu idx else mret ());
    q ← get_proc idx;
    if bool_decide (state (inner q) = SLEEPING) then make_runnable cpu idx else mret ().

(** [kill]. *)
Fixpoint kill_loop (cpu : nat) (target sig : Z) (ids : list nat) : PM () :=
  match ids with
  | [] => m_err NoSuchProcess
  | idx :: ids =>
      p ← get_proc idx;
      if pid (inner p) =? target then post_signal cpu idx sig else kill_loop cpu target sig ids
  end.
Definition kill (cpu : nat) (target sig : Z) : PM () :=
  if (sig =? 0) || (NSIG <? sig) then m_err InvalidArgument
  else if sig_mask sig =? 0 then m_err InvalidArgument
  else kill_loop cpu target sig (seq 0 NPROC).

(** [kill_pgrp]. *)
Fixpoint kill_pgrp_loop (cpu : nat) (group sig : Z) (ids : list nat) (found : bool) : PM bool :=
  match ids with
  | [] => mret found
  | idx :: ids =>
      p ← get_proc idx;
      if bool_decide (state (inner p) = UNUSED) || negb (pgid (inner p) =? group)
      then kill_pgrp_loop cpu group sig ids found
      else _ ← post_signal cpu idx sig; kill_pgrp_loop cpu group sig ids true
  end.
Definition kill_pgrp (cpu : nat) (group sig : Z) : PM () :=
  if group =? 0 then m_err InvalidArgument
  else if (sig =? 0) || (NSIG <? sig) then m_err InvalidArgument
  else if sig_mask sig =? 0 then m_err InvalidArgument
  else
    found ← kill_pgrp_loop cpu group sig (seq 0 NPROC) false;
    if (found : bool) then mret () else m_err NoSuchProcess.

(** ** Process groups and sessions *)

(** [getpgrp]. *)
Definition getpgrp (cpu : nat) : PM Z := i ← myproc cpu; p ← get_proc i; mret (pgid (inner p)).

(** [setpgid]; [Arc::ptr_eq] compares table entries. *)
Fixpoint setpgid_loop (me : nat) (my_sid target new_pgid : Z) (ids : list nat) : PM () :=
  match ids with
  | [] => m_err NoSuchProcess
  | idx :: ids =>
      p ← get_proc idx;
      let g := inner p in
      if negb (pid g =? target) then setpgid_loop me my_sid target new_pgid ids
      else if negb (sid g =? my_sid) then m_err PermissionDenied
      else if pid g =? sid g then m_err PermissionDenied
      else
        s ← m_get;
        if negb (bool_decide (idx = me)) && negb (bool_decide (mjoin (parents s !! idx) = Some me))
        then m_err PermissionDenied
        else put_inner idx p (set_ids (pid g) new_pgid (sid g) g)
  end.
Definition setpgid (cpu : nat) (target_arg pgid_arg : Z) : PM () :=
  i ← myproc cpu; p ← get_proc i;
  let target := if target_arg =? 0 then pid (inner p) else target_arg in
  let new_pgid := if pgid_arg =? 0 then target else pgid_arg in
  if new_pgid =? 0 then m_err InvalidArgument
  else setpgid_loop i (sid (inner p)) target new_pgid (seq 0 NPROC).

(** [setsid]. *)
Definition setsid (cpu : nat) : PM Z :=
  i ← myproc cpu; p ← get_proc i;
  let g := inner p in
  if pid g =? pgid g then m_err PermissionDenied
  else _ ← put_inner i p (set_stop 0 false false (set_ids (pid g) (pid g) (pid g) g)); mret (pid g).

(** [pgid_in_session]. *)
Definition pgid_in_session (group session : Z) (s : Sys) : bool :=
  if (group =? 0) || (session =? 0) then false
  else existsb (λ p, negb (bool_decide (state (inner p) = UNUSED)) && (pgid (inner p) =? group)
                     && (sid (inner p) =? session)) (pool s).

(** ** Allocating and freeing slots *)

(** [Proc::free]: what it resets of the modelled fields. *)
Definition free_inner (g : ProcInner) : ProcInner :=
  mkProcInner UNUSED 0 false 0 0 0 0 (last_cpu g) 0 (replicate (Z.to_nat NSIG) SIG_DFL) 0 0 0 false false.
Definition free_data (d : ProcData) : ProcData := mkProcData None Trapframe_default false 0 false 0.
Definition proc_free (idx : nat) : PM () :=
  p ← get_proc idx; put_proc idx (mkProc (free_inner (inner p)) (free_data (pdata p)) (p_ptr p)).

(** [PId::alloc]: [fetch_add] wraps. *)
Definition PId_alloc : PM Z := λ s,
  (Ok (NEXTID s), mkSys (pool s) (parents s) (runqs s) (u64 (NEXTID s + 1)) (INITPROC s) (cpu_proc s) (cpu_pick s)).

(** [Procs::alloc].  [tf_ok] says whether the trapframe page could be
    allocated, [uvm] whether building the page table failed. *)
Fixpoint procs_alloc_loop (tf_ok : bool) (uvm : option Error) (ids : list nat) : PM nat :=
  match ids with
  | [] => m_err WouldBlock
  | idx :: ids =>
      p ← get_proc idx;
      if bool_decide (state (inner p) = UNUSED) then
        n ← PId_alloc;
        let g := set_stop 0 false false (set_ids n n n (set_state USED (inner p))) in
        if tf_ok then
          let d := pdata p in
          _ ← put_proc idx (mkProc g (mkProcData (Some Trapframe_default) (sig_trapframe d) (sig_active d)
                                   (sig_restorer d) (is_thread d) (ustack d)) (p_ptr p));
          match uvm with
          | None => mret idx
          | Some e => _ ← proc_free idx; m_err e
          end
        else _ ← put_inner idx p g; _ ← proc_free idx; m_err OutOfMemory
      else procs_alloc_loop tf_ok uvm ids
  end.
Definition procs_alloc (tf_ok : bool) (uvm : option Error) : PM nat :=
  procs_alloc_loop tf_ok uvm (seq 0 NPROC).

(** [user_init]: the first process; failures are unwrapped. *)
Definition user_init (cpu : nat) (tf_ok : bool) (uvm : option Error) : PM () := λ s,
  match procs_alloc tf_ok uvm s with
  | (Ok i, s1) =>
      make_runnable cpu i (mkSys (pool s1) (parents s1) (runqs s1) (NEXTID s1) (Some i) (cpu_proc s1) (cpu_pick s1))
  | (_, s1) => (Panic, s1)
  end.

(** What [fork] and [clone] copy from the parent's [inner]. *)
Definition inherit (pg cg : ProcInner) : ProcInner :=
  set_stop 0 false false (set_ids (pid cg) (pgid pg) (sid pg)
    (set_alarm (sig_alarm_deadline pg) (sig_alarm_interval pg)
       (set_pending 0 (set_handlers (sig_handlers pg) cg)))).

(** [parents[c.idx] = Some(p); make_runnable(c)]. *)
Definition start_child (cpu me c : nat) : PM Z :=
  s ← m_get; _ ← put_parents (<[c := Some me]> (parents s));
  q ← get_proc c; _ ← make_runnable cpu c; mret (pid (inner q)).

(** [fork], up to files and memory.  [copy] and [vmas] are the outcomes of
    copying the user memory and the mmap areas.  When the first copy fails,
    [c.free] locks the child's address space, which [fork] holds locked: the
    lock's [assert!] panics.  When the second fails the child's slot stays
    allocated. *)
Definition fork (cpu : nat) (tf_ok : bool) (uvm copy vmas : option Error) : PM Z :=
  i ← myproc cpu; p ← get_proc i;
  c ← procs_alloc tf_ok uvm;
  match copy with
  | Some _ => m_panic
  | None =>
      q ← get_proc c;
      match trapframe (pdata p), trapframe (pdata q) with
      | Some ptf, Some _ =>
          _ ← put_proc c (mkProc (inherit (inner p) (inner q))
                (mkProcData (Some (<[tf_a0 := 0]> ptf)) Trapframe_default false (sig_restorer (pdata p))
                   (is_thread (pdata q)) (ustack (pdata q))) (p_ptr q));
          match vmas with
          | Some e => m_err e
          | None => start_child cpu i c
          end
      | _, _ => m_panic
      end
  end.

(** [clone]: a thread in the caller's address space of size [p_sz]; [map] is
    the outcome of mapping the child's trapframe. *)
Definition tf_sp : nat := 6.
Definition tf_a1 : nat := 15.
Definition PAGE : Z := 4096.
Definition clone (cpu : nat) (p_sz : Z) (tf_ok : bool) (uvm map : option Error)
    (fcn arg1 arg2 stack : Z) : PM Z :=
  i ← myproc cpu; p ← get_proc i;
  if (stack =? 0) || negb (stack `mod` PAGE =? 0) then m_err BadVirtAddr
  else if bool_decide (usize_checked_add stack PAGE = None) || (p_sz <? stack + PAGE) then m_err BadVirtAddr
  else
    c ← procs_alloc tf_ok uvm;
    match map with
    | Some e => m_err e
    | None =>
        q ← get_proc c;
        match trapframe (pdata p), trapframe (pdata q) with
        | Some ptf, Some _ =>
            _ ← put_proc c (mkProc (inherit (inner p) (inner q))
                  (mkProcData (Some (<[tf_a1 := arg2]> (<[tf_a0 := arg1]> (<[tf_sp := stack + PAGE]>
                                      (<[tf_epc := fcn]> ptf)))))
                     Trapframe_default false (sig_restorer (pdata p)) true stack) (p_ptr q));
            start_child cpu i c
        | _, _ => m_panic
        end
    end.

(** ** Exit and wait *)

(** [exit], after the files and the working directory are released: children
    go to init, the parent is woken, the process becomes a zombie. *)
Definition reparent_at (cpu me idx : nat) : PM () :=
  s ← m_get;
  if bool_decide (mjoin (parents s !! idx) = Some me) then
    match INITPROC s with
    | None => m_panic
    | Some init =>
        _ ← put_parents (<[idx := Some init]> (parents s));
        ip ← get_proc init; wakeup cpu (p_ptr ip)
    end
  else mret ().
Definition exit (cpu : nat) (k : Cpu) (status : Z) : PM () :=
  i ← myproc cpu;
  s ← m_get;
  if bool_decide (INITPROC s = None ∨ INITPROC s = Some i) then m_panic
  else
    k ← guard_lock L_parents k;
    _ ← m_for (seq 0 NPROC) (reparent_at cpu i);
    s ← m_get;
    match mjoin (parents s !! i) with
    | None => m_panic
    | Some par =>
        pp ← get_proc par;
        _ ← wakeup cpu (p_ptr pp);
        k ← guard_lock (L_inner i) k;
        p ← get_proc i;
        _ ← put_inner i p (set_state ZOMBIE (set_xstate status (inner p)));
        k ← guard_unlock L_parents k;
        sched cpu i k
    end.

(** [stop_status]; the cast to [i32] is exact on these values. *)
Definition stop_status (sig : Z) : Z := Z.lor (Z.shiftl (Z.land sig 255) 8) 127.

(** What the scans below do with a zombie child. *)
Definition reap (c : nat) : PM () :=
  _ ← proc_free c; s ← m_get; put_parents (<[c := None]> (parents s)).

(** One scan of [waitpid]; [cp] is the outcome of copying a status to the
    caller's address space.  The result is the child found, and whether there
    was any. *)
Definition WStatus := Z → option Error.
Fixpoint waitpid_scan (cp : WStatus) (me : nat) (want : option Z) (options : Z) (ids : list nat)
    (havekids : bool) : PM (option Z * bool) :=
  match ids with
  | [] => mret (None, havekids)
  | c :: ids =>
      s ← m_get;
      if negb (bool_decide (mjoin (parents s !! c) = Some me)) then waitpid_scan cp me want options ids havekids
      else
        p ← get_proc c;
        let g := inner p in
        if is_thread (pdata p) then waitpid_scan cp me want options ids havekids
        else if negb (match want with Some w => pid g =? w | None => true end)
        then waitpid_scan cp me want options ids havekids
        else if bool_decide (state g = STOPPED) && negb (Z.land options WUNTRACED =? 0)
                && negb (stop_reported g)
        then match cp (stop_status (stop_sig g)) with
             | Some e => m_err e
             | None => _ ← put_inner c p (set_stop (stop_sig g) true (cont_pending g) g);
                       mret (Some (pid g), true)
             end
        else if negb (Z.land options WCONTINUED =? 0) && cont_pending g
        then match cp 65535 with
             | Some e => m_err e
             | None => _ ← put_inner c p (set_stop (stop_sig g) (stop_reported g) false g);
                       mret (Some (pid g), true)
             end
        else if bool_decide (state g = ZOMBIE)
        then match cp (xstate g) with
             | Some e => m_err e
             | None => _ ← reap c; mret (Some (pid g), true)
             end
        else waitpid_scan cp me want options ids true
  end.

(** The pending signals that would be ignored are dropped before sleeping. *)
Definition drop_ignored (g : ProcInner) (sig : Z) (pending : Z) : Z :=
  if Z.land pending (sig_mask sig) =? 0 then pending
  else match sig_handlers g !! Z.to_nat (sig - 1) with
       | Some h =>
           if (h =? SIG_IGN) || ((h =? SIG_DFL) && bool_decide (default_action sig = SigIgnore))
           then Z.ldiff pending (sig_mask sig) else pending
       | None => pending
       end.
Definition drop_all_ignored (g : ProcInner) : Z :=
  foldl (λ x sig, drop_ignored g sig x) (sig_pending g) (seqZ 1 NSIG).

(** One pass of the loop of [waitpid]: [Some pid] is the result, [None] means
    that the caller has gone to sleep and repeats the pass when woken. *)
Definition waitpid_pass (cp : WStatus) (cpu : nat) (k : Cpu) (which options : Z) : PM (option Z) :=
  i ← myproc cpu;
  if which <? -1 then m_err InvalidArgument
  else
    k ← guard_lock L_parents k;
    r ← waitpid_scan cp i (if 0 <? which then Some which else None) options (seq 0 NPROC) false;
    match r with
    | (Some n, _) => mret (Some n)
    | (None, havekids) =>
        if negb (Z.land options WNOHANG =? 0) then mret (Some 0)
        else
          p ← get_proc i;
          if negb havekids || killed (inner p) then m_err NoChildProcesses
          else
            let pending := drop_all_ignored (inner p) in
            _ ← put_inner i p (set_pending pending (inner p));
            if negb (pending =? 0) then m_err Interrupted
            else _ ← sleep cpu k L_parents (p_ptr p); mret None
    end.

(** [join]: one scan, and one pass of the loop. *)
Fixpoint join_scan (cp : WStatus) (me : nat) (ids : list nat) (havekids : bool) : PM (option Z * bool) :=
  match ids with
  | [] => mret (None, havekids)
  | c :: ids =>
      s ← m_get;
      if negb (bool_decide (mjoin (parents s !! c) = Some me)) then join_scan cp me ids havekids
      else
        p ← get_proc c;
        if negb (is_thread (pdata p)) then join_scan cp me ids havekids
        else if bool_decide (state (inner p) = ZOMBIE)
        then match cp (ustack (pdata p)) with
             | Some e => m_err e
             | None => _ ← reap c; mret (Some (pid (inner p)), true)
             end
        else join_scan cp me ids true
  end.
Definition join_pass (cp : WStatus) (cpu : nat) (k : Cpu) : PM (option Z) :=
  i ← myproc cpu;
  k ← guard_lock L_parents k;
  r ← join_scan cp i (seq 0 NPROC) false;
  match r with
  | (Some n, _) => mret (Some n)
  | (None, havekids) =>
      p ← get_proc i;
      if negb havekids || killed (inner p) then m_err NoChildProcesses
      else _ ← sleep cpu k L_parents (p_ptr p); mret None
  end.

(** [reap_threads]: killing the threads, and one pass of the reaping loop. *)
Definition is_thread_of (me c : nat) : PM bool :=
  s ← m_get; p ← get_proc c;
  mret (bool_decide (mjoin (parents s !! c) = Some me) && is_thread (pdata p)).
Definition kill_thread_at (cpu me c : nat) : PM () :=
  b ← is_thread_of me c;
  if (b : bool) then
    p ← get_proc c;
    _ ← put_inner c p (set_killed true (inner p));
    if bool_decide (state (inner p) = SLEEPING) then make_runnable cpu c else mret ()
  else mret ().
Definition kill_threads (cpu me : nat) : PM () := m_for (seq 0 NPROC) (kill_thread_at cpu me).
Fixpoint reap_threads_scan (me : nat) (ids : list nat) (havekids : bool) : PM bool :=
  match ids with
  | [] => mret havekids
  | c :: ids =>
      b ← is_thread_of me c;
      if (b : bool) then
        p ← get_proc c;
        _ ← (if bool_decide (state (inner p) = ZOMBIE) then reap c else mret ());
        reap_threads_scan me ids true
      else reap_threads_scan me ids havekids
  end.
Definition reap_threads_pass (cpu : nat) (k : Cpu) : PM bool :=
  i ← myproc cpu;
  k ← guard_lock L_parents k;
  havekids ← reap_threads_scan i (seq 0 NPROC) false;
  if negb havekids then mret true
  else
    p ← get_proc i;
    if killed (inner p) then m_err Interrupted
    else _ ← sleep cpu k L_parents (p_ptr p); mret false.
