(* ===== verification/ProcsInv.v ===== *)
(** * The scheduling invariant of the process table

    The run queues together with the indices the schedulers hold are exactly
    the RUNNABLE processes, each once; the CPUs run exactly the RUNNING ones,
    each once.  Every lock-protected region of [proc.rs] preserves this, so
    under any interleaving no run queue overflows, no process runs on two
    CPUs, and none is forgotten. *)

From stdpp Require Import base tactics numbers list.
From S2P Require Import Prelude Params Errors RunQueue Signal Spinlock Procs.

Definition states (s : Sys) (i : nat) : option ProcState := (state ∘ inner) <$> pool s !! i.

(** Indices in a run queue or popped and not yet run. *)
Definition all_queued (r : Runqs) : list nat := concat (queued r <$> seq 0 NCPU).
Definition waiting (s : Sys) : list nat := all_queued (runqs s) ++ omap id (cpu_pick s).

(** A process that executes, or will execute, kernel or user code. *)
Definition alive (st : ProcState) : bool :=
  match st with SLEEPING | STOPPED | RUNNABLE | RUNNING => true | _ => false end.

Record proc_wf (p : Proc) : Prop := {
  pw_handlers : length (sig_handlers (inner p)) = Z.to_nat NSIG;
  pw_pending : is_u32 (sig_pending (inner p));
  pw_trapframe : state (inner p) ≠ UNUSED → is_Some (trapframe (pdata p));
}.

Definition has_parent (s : Sys) (i : nat) : Prop :=
  INITPROC s = Some i ∨ is_Some (mjoin (parents s !! i)).

(** [rl] is what the CPUs run. *)
Record InvR (rl : list (option nat)) (s : Sys) : Prop := {
  iv_pool : length (pool s) = NPROC;
  iv_parents : length (parents s) = NPROC;
  iv_rl : length rl = NCPU;
  iv_pick : length (cpu_pick s) = NCPU;
  iv_runqs : runqs_wf (runqs s);
  iv_wait_nodup : NoDup (waiting s);
  iv_wait : ∀ i, i ∈ waiting s ↔ states s i = Some RUNNABLE;
  iv_run_nodup : NoDup (omap id rl);
  iv_run : ∀ i, i ∈ omap id rl ↔ states s i = Some RUNNING;
  iv_procs : Forall proc_wf (pool s);
  iv_alive : ∀ i st, states s i = Some st → alive st = true → has_parent s i;
  iv_par_range : ∀ i j, mjoin (parents s !! i) = Some j → (j < NPROC)%nat;
  iv_init_range : ∀ j, INITPROC s = Some j → (j < NPROC)%nat;
}.
Definition Inv (s : Sys) : Prop := InvR (cpu_proc s) s.

(** ** Rules for the table operations *)

Lemma bind_get_proc {B} i p (f : Proc → PM B) s :
  pool s !! i = Some p → (get_proc i ≫= f) s = f p s.
Proof. unfold mbind, M_bind, get_proc. by intros ->. Qed.

Lemma wp_get_proc i Q E s p : pool s !! i = Some p → Q p s → wp (get_proc i) Q E s.
Proof. unfold wp, get_proc. by intros ->. Qed.

Lemma bind_myproc {B} cpu i (f : nat → PM B) s :
  cpu_proc s !! cpu = Some (Some i) → (myproc cpu ≫= f) s = f i s.
Proof. unfold mbind, M_bind, myproc. by intros ->. Qed.

Lemma wp_myproc cpu i Q E s : cpu_proc s !! cpu = Some (Some i) → Q i s → wp (myproc cpu) Q E s.
Proof. unfold wp, myproc. by intros ->. Qed.

Lemma wp_handler n sig h Q E s :
  sig_handlers n !! Z.to_nat (sig - 1) = Some h → Q h s → wp (handler_of n sig) Q E s.
Proof. unfold wp, handler_of. by intros ->. Qed.

(** ** Updates of one table entry *)

Lemma states_insert s i p j :
  (i < length (pool s))%nat →
  states (with_pool <[i := p]> s) j = if decide (i = j) then Some (state (inner p)) else states s j.
Proof.
  intros Hi. unfold states. simpl. case_decide; subst.
  - by rewrite list_lookup_insert_eq.
  - by rewrite list_lookup_insert_ne.
Qed.

Lemma states_lookup s i p : pool s !! i = Some p → states s i = Some (state (inner p)).
Proof. unfold states. by intros ->. Qed.

Lemma inv_lookup rl s i : InvR rl s → (i < NPROC)%nat → ∃ p, pool s !! i = Some p ∧ proc_wf p.
Proof.
  intros HI Hi. destruct (lookup_lt_is_Some_2 (pool s) i) as [p Hp]; [by rewrite (iv_pool _ _ HI)|].
  exists p. split; [done|]. by apply (Forall_lookup_1 _ _ _ _ (iv_procs _ _ HI) Hp).
Qed.

Lemma lookup_range s rl i p : InvR rl s → pool s !! i = Some p → (i < NPROC)%nat.
Proof. intros HI Hp. rewrite <-(iv_pool _ _ HI). by eapply lookup_lt_Some. Qed.

(** Changing an entry between states that are neither RUNNABLE nor RUNNING,
    or keeping its state. *)
Definition parked (st : ProcState) : Prop := st ≠ RUNNABLE ∧ st ≠ RUNNING.

Lemma parked_iff (a b st : ProcState) :
  b = a ∨ parked a ∧ parked b → st = RUNNABLE ∨ st = RUNNING → Some a = Some st ↔ Some b = Some st.
Proof. intros [->|[[] []]] [->| ->]; split; congruence. Qed.

Lemma inv_put rl s i p p' :
  InvR rl s → pool s !! i = Some p → proc_wf p' →
  (state (inner p') = state (inner p) ∨ parked (state (inner p)) ∧ parked (state (inner p'))) →
  (alive (state (inner p')) = true → alive (state (inner p)) = true ∨ has_parent s i) →
  InvR rl (with_pool <[i := p']> s).
Proof.
  intros HI Hp Hwf Hst Hal. pose proof (lookup_lt_Some _ _ _ Hp) as Hi.
  pose proof (states_lookup _ _ _ Hp) as Hs.
  destruct HI as [H1 H2 H3 H4 H5 H6 H7 H8 H9 H10 H11 H12 H13].
  split; try done; simpl.
  - by rewrite length_insert.
  - intros j. rewrite states_insert by done. rewrite (H7 j). case_decide; [subst|done].
    rewrite Hs. apply parked_iff; auto.
  - intros j. rewrite states_insert by done. rewrite (H9 j). case_decide; [subst|done].
    rewrite Hs. apply parked_iff; auto.
  - by apply Forall_insert.
  - intros j st. rewrite states_insert by done. case_decide; [subst|by apply H11].
    intros [= <-] Ha. destruct (Hal Ha) as [Ha'|]; [|done]. by apply (H11 j _ Hs).
Qed.

(** ** Making a process runnable *)

Lemma concat_one_more (f g : nat → list nat) (l : list nat) c x :
  NoDup l → c ∈ l → f c ≡ₚ x :: g c → (∀ d, d ≠ c → f d = g d) →
  concat (f <$> l) ≡ₚ x :: concat (g <$> l).
Proof.
  intros Hnd Hc Hf Hd. induction l as [|y l IH]; [by inversion Hc|].
  apply NoDup_cons in Hnd as [Hy Hnd]. rewrite !fmap_cons. cbn [concat]. apply elem_of_cons in Hc as [->|Hc].
  - rewrite Hf.
    assert (f <$> l = g <$> l) as ->; [|done].
    apply list_fmap_ext. intros k z Hz. apply Hd. intros ->. apply Hy. by eapply list_elem_of_lookup_2.
  - rewrite IH by done. rewrite (Hd y) by (intros ->; done). by rewrite Permutation_middle.
Qed.

Lemma all_queued_takes r r' victim x :
  (victim < NCPU)%nat → takes r r' victim x → all_queued r ≡ₚ x :: all_queued r'.
Proof.
  intros Hv [H1 H2]. apply (concat_one_more _ _ _ victim).
  - apply NoDup_seq.
  - apply elem_of_seq. lia.
  - by rewrite H1.
  - intros d Hd. by rewrite H2.
Qed.

Lemma push_queued r c x :
  runqs_wf r → (c < NCPU)%nat → (x < NPROC)%nat → NoDup (x :: all_queued r) →
  Forall (λ i, i < NPROC)%nat (all_queued r) →
  ∃ r', runq_push_cpu c x r = Ok r' ∧ runqs_wf r' ∧ all_queued r' ≡ₚ x :: all_queued r ∧
        queued r' c = queued r c ++ [x] ∧ ∀ d, d ≠ c → queued r' d = queued r d.
Proof.
  intros Hwf Hc Hx Hnd Hall. destruct (runqs_lookup r c Hwf Hc) as (q&Hq&Hqwf&Hqd).
  assert (Hsub : sublist (contents q) (all_queued r)).
  { rewrite <-Hqd. unfold all_queued.
    rewrite <-(take_drop_middle (seq 0 NCPU) c c) by (rewrite lookup_seq; lia).
    rewrite fmap_app, concat_app. simpl. apply sublist_inserts_l, sublist_inserts_r. done. }
  apply NoDup_cons in Hnd as [Hx' Hnd].
  assert (Hin : ∀ y, y ∈ contents q → y ∈ all_queued r).
  { intros y Hy. eapply elem_of_submseteq; [done|by apply sublist_submseteq]. }
  destruct (push_has_room x q) as (q'&Hpush&Hwf'&Hcont); [done..| |by eapply sublist_NoDup|by auto|].
  { rewrite Forall_forall in Hall |- *. auto. }
  unfold runq_push_cpu. rewrite (proj2 (Nat.ltb_lt _ _) Hc), Hq, Hpush. simpl.
  assert (c < length (RUNQS r))%nat by (by apply lookup_lt_Some in Hq).
  assert (Hq1 : queued (mkRunqs (<[c := q']> (RUNQS r)) (STEAL_START r)) c = queued r c ++ [x]).
  { unfold queued at 1. simpl. rewrite list_lookup_insert_eq by done. simpl. by rewrite Hcont, Hqd. }
  assert (Hq2 : ∀ d, d ≠ c → queued (mkRunqs (<[c := q']> (RUNQS r)) (STEAL_START r)) d = queued r d).
  { intros d Hd. unfold queued. simpl. by rewrite list_lookup_insert_ne. }
  eexists. split; [done|]. split; [by apply runqs_wf_insert|]. split; [|done].
  apply (concat_one_more _ _ _ c); [apply NoDup_seq|apply elem_of_seq; lia| |done].
  rewrite Hq1. by rewrite Permutation_app_comm.
Qed.

(** The queue [make_runnable] chooses. *)
Definition home_cpu (cpu : nat) (g : ProcInner) : nat :=
  if (last_cpu g <? NCPU)%nat then last_cpu g else cpu.

Definition woken (cpu : nat) (p : Proc) : Proc :=
  mkProc (set_last_cpu (home_cpu cpu (inner p)) (set_state RUNNABLE (inner p))) (pdata p) (p_ptr p).

(** Everything but the pool and the run queues is as before. *)
Record same_env (s s' : Sys) : Prop := {
  se_parents : parents s' = parents s;
  se_nextid : NEXTID s' = NEXTID s;
  se_init : INITPROC s' = INITPROC s;
  se_proc : cpu_proc s' = cpu_proc s;
  se_pick : cpu_pick s' = cpu_pick s;
}.

Global Instance same_env_preorder : PreOrder same_env.
Proof.
  split; [by split|]. intros a b c [] []. split; congruence.
Qed.

Definition with_runqs (r : Runqs) (s : Sys) : Sys :=
  mkSys (pool s) (parents s) r (NEXTID s) (INITPROC s) (cpu_proc s) (cpu_pick s).

Lemma waiting_range rl s : InvR rl s → Forall (λ i, i < NPROC)%nat (all_queued (runqs s)).
Proof.
  intros HI. apply Forall_forall. intros i Hi.
  assert (i ∈ waiting s) as Hw by (apply elem_of_app; by left).
  apply (iv_wait _ _ HI) in Hw. unfold states in Hw.
  destruct (pool s !! i) as [p|] eqn:Hp; [|done]. by eapply lookup_range.
Qed.

Lemma make_runnable_run s i p cpu r :
  pool s !! i = Some p → state (inner p) ≠ RUNNABLE →
  runq_push_cpu (home_cpu cpu (inner p)) i (runqs s) = Ok r →
  make_runnable cpu i s = (Ok (), with_runqs r (with_pool <[i := woken cpu p]> s)).
Proof.
  intros Hp Hn Hr. unfold make_runnable, mbind, M_bind, get_proc. rewrite Hp. simpl.
  rewrite bool_decide_eq_false_2 by done. simpl. fold (home_cpu cpu (inner p)). by rewrite Hr.
Qed.

Lemma push_inv rl s i p cpu :
  InvR rl s → pool s !! i = Some p → proc_wf p → (cpu < NCPU)%nat →
  parked (state (inner p)) → state (inner p) ≠ UNUSED → has_parent s i →
  ∃ r, runq_push_cpu (home_cpu cpu (inner p)) i (runqs s) = Ok r ∧
       InvR rl (with_runqs r (with_pool <[i := woken cpu p]> s)) ∧
       all_queued r ≡ₚ i :: all_queued (runqs s).
Proof.
  intros HI Hp Hwf Hcpu [Hn1 Hn2] Hun Hpar. pose proof (lookup_range _ _ _ _ HI Hp) as Hi.
  pose proof (states_lookup _ _ _ Hp) as Hs.
  assert (Hni : i ∉ waiting s) by (intros Hw; apply (iv_wait _ _ HI) in Hw; congruence).
  pose proof (iv_wait_nodup _ _ HI) as Hnd. pose proof Hnd as Hnd'.
  unfold waiting in Hnd', Hni. apply NoDup_app in Hnd' as (Hnd1&_&_).
  destruct (push_queued (runqs s) (home_cpu cpu (inner p)) i)
    as (r&Hpush&Hrwf&Hperm&_); [apply HI| |done| |by eapply waiting_range|].
  { unfold home_cpu. destruct (_ <? _)%nat eqn:E; bool_to_prop; done. }
  { apply NoDup_cons. split; [|done]. intros H. apply Hni, elem_of_app. by left. }
  exists r. split; [done|split; [|done]].
  assert (Hw' : waiting (with_runqs r (with_pool <[i := woken cpu p]> s)) ≡ₚ i :: waiting s).
  { unfold waiting. simpl. by rewrite Hperm. }
  assert (Hlen : (i < length (pool s))%nat) by (by rewrite (iv_pool _ _ HI)).
  assert (Hst : ∀ j, states (with_runqs r (with_pool <[i := woken cpu p]> s)) j =
                     if decide (i = j) then Some RUNNABLE else states s j).
  { intros j. exact (states_insert s i (woken cpu p) j Hlen). }
  split; simpl; try apply HI.
  - rewrite length_insert. apply HI.
  - done.
  - rewrite Hw'. apply NoDup_cons. by split.
  - intros j. rewrite Hst, Hw', elem_of_cons, (iv_wait _ _ HI). case_decide; [naive_solver|].
    split; [intros [->|]; done|by right].
  - intros j. rewrite Hst, (iv_run _ _ HI). case_decide; [subst; naive_solver|done].
  - apply Forall_insert; [apply HI|]. split; [apply Hwf|apply Hwf|]. intros _. by apply Hwf.
  - intros j st. rewrite Hst. case_decide; [by subst|]. apply HI.
Qed.

(** ** The rules for the operations of the table *)

(** A post-condition that all table operations establish: the invariant with
    the same running processes, and nothing but pool and queues changed. *)
Definition kept rl (s0 : Sys) (s : Sys) : Prop := InvR rl s ∧ same_env s0 s.

Lemma kept_start rl s : InvR rl s → kept rl s s.
Proof. by split. Qed.

Lemma kept_put rl s0 s i p p' :
  kept rl s0 s → pool s !! i = Some p → proc_wf p' → state (inner p') = state (inner p) →
  kept rl s0 (with_pool <[i := p']> s).
Proof.
  intros [HI HE] Hp Hwf Hst. split.
  - eapply inv_put; [done..|by left|]. intros Ha. left. congruence.
  - etrans; [done|]. by split.
Qed.

Lemma make_runnable_wp rl s0 s i p cpu E :
  kept rl s0 s → (cpu < NCPU)%nat → pool s !! i = Some p →
  (state (inner p) = SLEEPING ∨ state (inner p) = STOPPED ∨
     (state (inner p) = USED ∧ has_parent s i)) →
  wp (make_runnable cpu i) (λ _, kept rl s0) E s.
Proof.
  intros [HI HE] Hcpu Hp Hst.
  destruct (inv_lookup _ _ i HI) as (p1&Hp1&Hwf); [by eapply lookup_range|]. simplify_eq.
  destruct (push_inv rl s i p cpu) as (r&Hrun&HI'&_); try done.
  - by destruct Hst as [->|[->|[-> _]]].
  - by destruct Hst as [->|[->|[-> _]]].
  - destruct Hst as [Hs|[Hs|[Hs ?]]]; [| |done];
      (eapply (iv_alive _ _ HI i); [by apply states_lookup|by rewrite Hs]).
  - unfold wp. rewrite (make_runnable_run s i p cpu r); [|done| |done].
    2:{ by destruct Hst as [->|[->|[-> _]]]. }
    split; [done|]. etrans; [done|]. by split.
Qed.

Lemma inv_lookup_wf rl s i p : InvR rl s → pool s !! i = Some p → proc_wf p.
Proof. intros HI Hp. by apply (Forall_lookup_1 _ _ _ _ (iv_procs _ _ HI) Hp). Qed.

Lemma kept_lookup rl s0 s i : kept rl s0 s → (i < NPROC)%nat → ∃ p, pool s !! i = Some p ∧ proc_wf p.
Proof. intros [HI _]. by apply inv_lookup with rl. Qed.

Lemma kept_range rl s0 s i p : kept rl s0 s → pool s !! i = Some p → (i < NPROC)%nat.
Proof. intros [HI _]. by eapply lookup_range. Qed.

Lemma elem_of_seq0 i n : i ∈ seq 0 n → (i < n)%nat.
Proof. intros H. apply elem_of_seq in H. lia. Qed.

Lemma handler_lookup p sig :
  proc_wf p → (1 ≤ sig ≤ NSIG)%Z → ∃ h, sig_handlers (inner p) !! Z.to_nat (sig - 1) = Some h.
Proof.
  intros Hwf Hs. destruct (lookup_lt_is_Some_2 (sig_handlers (inner p)) (Z.to_nat (sig - 1))) as [h Hh].
  { rewrite (pw_handlers _ Hwf). unfold NSIG in *. lia. }
  by exists h.
Qed.

(** Well-formedness of an entry whose handlers and pending set are kept. *)
Lemma proc_wf_upd p g d ptr :
  proc_wf p → length (sig_handlers g) = length (sig_handlers (inner p)) → is_u32 (sig_pending g) →
  (state g ≠ UNUSED → is_Some (trapframe d)) → proc_wf (mkProc g d ptr).
Proof. intros Hwf H1 H2 H3. split; simpl; [rewrite H1; apply Hwf|done|done]. Qed.

(** Solve the side conditions of a field update. *)
Ltac wf_upd :=
  match goal with
  | Hwf : proc_wf ?p |- proc_wf (mkProc _ _ _) =>
      apply (proc_wf_upd p); simpl;
      [exact Hwf|try done; try apply length_insert|auto using pw_pending with kernel|try exact (pw_trapframe p Hwf)]
  end.

(** Step into the first operation of a [PM] computation. *)
Ltac wp_get Hp := apply wp_bind; apply (wp_get_proc _ _ _ _ _ Hp).

Lemma put_lookup s i p q : pool s !! i = Some p → pool (with_pool <[i := q]> s) !! i = Some q.
Proof. intros Hp. simpl. apply list_lookup_insert_eq. by eapply lookup_lt_Some. Qed.

Section loops.
Context (rl : list (option nat)) (s0 : Sys) (cpu : nat) (E : Sys → Prop) (Hcpu : (cpu < NCPU)%nat).

Lemma wakeup_at_wp ch i s :
  kept rl s0 s → (i < NPROC)%nat → wp (wakeup_at cpu ch i) (λ _, kept rl s0) E s.
Proof using Hcpu.
  intros Hk Hi. destruct (kept_lookup _ _ _ _ Hk Hi) as (p&Hp&Hwf).
  unfold wakeup_at. apply wp_bind. unfold wp at 1, m_get. case_bool_decide; [done|].
  wp_get Hp. case_bool_decide; simpl; [|done]. destruct (_ =? _)%Z; [|done].
  eapply make_runnable_wp; eauto.
Qed.

Lemma wakeup_wp ch s : kept rl s0 s → wp (wakeup cpu ch) (λ _, kept rl s0) E s.
Proof using Hcpu.
  intros Hk. apply wp_for; [done|]. intros i s1 Hi%elem_of_seq0 Hk1. by apply wakeup_at_wp.
Qed.

Lemma on_tick_at_wp now i s :
  kept rl s0 s → (i < NPROC)%nat → wp (on_tick_at cpu now i) (λ _, kept rl s0) E s.
Proof using Hcpu.
  intros Hk Hi. destruct (kept_lookup _ _ _ _ Hk Hi) as (p&Hp&Hwf).
  unfold on_tick_at. wp_get Hp. destruct (_ =? _)%Z; [done|].
  case_bool_decide; [done|]. destruct (_ <? _)%Z; [done|].
  apply wp_bind. unfold wp at 1, put_inner, put_proc.
  match goal with |- context [with_pool <[i := ?q]> s] =>
    assert (Hk1 : kept rl s0 (with_pool <[i := q]> s)); [|pose proof (put_lookup s i p q Hp) as Hp1] end.
  { eapply kept_put; [done..| |done]. wf_upd. }
  case_bool_decide as Hs; [|done].
  eapply make_runnable_wp; [done..|left; exact Hs].
Qed.

Lemma on_tick_wp now s : kept rl s0 s → wp (on_tick cpu now) (λ _, kept rl s0) E s.
Proof using Hcpu.
  intros Hk. apply wp_for; [done|]. intros i s1 Hi%elem_of_seq0 Hk1. by apply on_tick_at_wp.
Qed.

Lemma post_signal_wp sig i s :
  kept rl s0 s → (i < NPROC)%nat → (1 ≤ sig ≤ NSIG)%Z →
  wp (post_signal cpu i sig) (λ _, kept rl s0) E s.
Proof using Hcpu.
  intros Hk Hi Hsig. destruct (kept_lookup _ _ _ _ Hk Hi) as (p&Hp&Hwf).
  destruct (handler_lookup p sig Hwf Hsig) as [h Hh].
  unfold post_signal. wp_get Hp. apply wp_bind. apply (wp_handler _ _ _ _ _ _ Hh).
  set (g1 := if terminates sig h then set_killed true (inner p) else inner p).
  assert (Hg1 : length (sig_handlers g1) = length (sig_handlers (inner p)) ∧
                sig_pending g1 = sig_pending (inner p) ∧ state g1 = state (inner p))
    by (unfold g1; by destruct (terminates sig h)).
  destruct Hg1 as (Hg1&Hg1p&Hg1s). pose proof (pw_pending _ Hwf) as Hu.
  destruct (_ && _).
  { unfold wp, put_inner, put_proc. eapply kept_put; [done..| |done].
    apply (proc_wf_upd p); [done..|by rewrite Hg1p|]. rewrite Hg1s. apply Hwf. }
  set (g2 := if (sig =? SIGCONT)%Z then set_stop 0 false true g1 else g1).
  assert (Hg2 : length (sig_handlers g2) = length (sig_handlers (inner p)) ∧
                sig_pending g2 = sig_pending (inner p) ∧ state g2 = state (inner p))
    by (unfold g2; by destruct (sig =? SIGCONT)%Z).
  destruct Hg2 as (Hg2&Hg2p&Hg2s).
  apply wp_bind. unfold wp at 1, put_inner, put_proc.
  match goal with |- context [with_pool <[i := ?q]> s] =>
    assert (Hk1 : kept rl s0 (with_pool <[i := q]> s)); [|pose proof (put_lookup s i p q Hp) as Hp1] end.
  { eapply kept_put; [done..| |done]. apply (proc_wf_upd p); simpl; [done..| |].
    - rewrite Hg2p. auto with kernel.
    - rewrite Hg2s. apply Hwf. }
  apply wp_bind. eapply wp_mono with (Q := λ _, kept rl s0) (R := E).
  - case_bool_decide as Hst; [|done]. destruct (_ || _); [|done]. simpl.
    eapply make_runnable_wp; [done..|]. right; left. simpl. congruence.
  - intros [] s2 Hk2. destruct (kept_lookup _ _ _ _ Hk2 Hi) as (q&Hq&_). wp_get Hq.
    case_bool_decide; [|done]. eapply make_runnable_wp; eauto.
  - done.
Qed.
End loops.

Lemma sig_valid sig : ((sig =? 0) || (NSIG <? sig))%Z = false → (0 ≤ sig)%Z → (1 ≤ sig ≤ NSIG)%Z.
Proof. intros H ?. bool_to_prop. lia. Qed.

Lemma all_ids : Forall (λ i, i < NPROC)%nat (seq 0 NPROC).
Proof. apply Forall_forall. intros i. apply elem_of_seq0. Qed.

Section kills.
Context (rl : list (option nat)) (s0 : Sys) (cpu : nat) (Hcpu : (cpu < NCPU)%nat).

Lemma kill_loop_wp target sig ids s :
  kept rl s0 s → (1 ≤ sig ≤ NSIG)%Z → Forall (λ i, i < NPROC)%nat ids →
  wp (kill_loop cpu target sig ids) (λ _, kept rl s0) (kept rl s0) s.
Proof using Hcpu.
  intros Hk Hsig. induction ids as [|i ids IH]; intros Hids; simpl; [done|].
  apply Forall_cons in Hids as [Hi Hids].
  destruct (kept_lookup _ _ _ _ Hk Hi) as (p&Hp&_). wp_get Hp.
  destruct (_ =? _)%Z; [by apply post_signal_wp|by apply IH].
Qed.

Lemma kill_pgrp_loop_wp group sig ids found s :
  kept rl s0 s → (1 ≤ sig ≤ NSIG)%Z → Forall (λ i, i < NPROC)%nat ids →
  wp (kill_pgrp_loop cpu group sig ids found) (λ _, kept rl s0) (kept rl s0) s.
Proof using Hcpu.
  intros Hk Hsig. revert s found Hk. induction ids as [|i ids IH]; intros s found Hk Hids; simpl; [done|].
  apply Forall_cons in Hids as [Hi Hids].
  destruct (kept_lookup _ _ _ _ Hk Hi) as (p&Hp&_). wp_get Hp.
  destruct (_ || _); [by apply IH|]. apply wp_bind.
  eapply wp_mono; [by apply post_signal_wp with (E := kept rl s0)| |done].
  intros [] s1 Hk1. by apply IH.
Qed.

Lemma kill_wp target sig s :
  kept rl s0 s → (0 ≤ sig)%Z → wp (kill cpu target sig) (λ _, kept rl s0) (kept rl s0) s.
Proof using Hcpu.
  intros Hk H0. unfold kill. destruct ((sig =? 0) || _)%Z eqn:E; [done|].
  destruct (sig_mask sig =? 0)%Z; [done|]. apply kill_loop_wp; [done|by apply sig_valid|apply all_ids].
Qed.

Lemma kill_pgrp_wp group sig s :
  kept rl s0 s → (0 ≤ sig)%Z → wp (kill_pgrp cpu group sig) (λ _, kept rl s0) (kept rl s0) s.
Proof using Hcpu.
  intros Hk H0. unfold kill_pgrp. destruct (_ =? _)%Z; [done|].
  destruct ((sig =? 0) || _)%Z eqn:E; [done|]. destruct (sig_mask sig =? 0)%Z; [done|].
  apply wp_bind. eapply wp_mono; [apply kill_pgrp_loop_wp; [done|by apply sig_valid|apply all_ids]| |done].
  by intros [] s1 Hk1.
Qed.
End kills.

(** ** Giving up the CPU *)

Definition with_cpu (pr pk : list (option nat)) (s : Sys) : Sys :=
  mkSys (pool s) (parents s) (runqs s) (NEXTID s) (INITPROC s) pr pk.

Lemma omap_insert_None (l : list (option nat)) c i :
  l !! c = Some (Some i) → omap id l ≡ₚ i :: omap id (<[c := None]> l).
Proof.
  intros Hl. rewrite (insert_take_drop _ _ _ (lookup_lt_Some _ _ _ Hl)).
  rewrite <-(take_drop_middle _ _ _ Hl) at 1. rewrite !omap_app. simpl.
  by rewrite Permutation_middle.
Qed.

Lemma omap_insert_Some (l : list (option nat)) c i :
  l !! c = Some None → omap id (<[c := Some i]> l) ≡ₚ i :: omap id l.
Proof.
  intros Hl. assert (c < length l)%nat by (by eapply lookup_lt_Some).
  rewrite (omap_insert_None (<[c := Some i]> l) c i) by (by apply list_lookup_insert_eq).
  by rewrite list_insert_insert_eq, (list_insert_id l c).
Qed.

(** The invariant does not read [cpu_proc]; it is about [rl]. *)
Lemma inv_cpu_proc rl s pr : InvR rl s → InvR rl (with_cpu pr (cpu_pick s) s).
Proof. intros HI. split; apply HI. Qed.

Lemma leave_inv rl s cpu i p p' :
  InvR rl s → rl !! cpu = Some (Some i) → pool s !! i = Some p → proc_wf p' →
  parked (state (inner p')) → InvR (<[cpu := None]> rl) (with_pool <[i := p']> s).
Proof.
  intros HI Hrl Hp Hwf [Hn1 Hn2]. pose proof (lookup_lt_Some _ _ _ Hp) as Hi.
  pose proof (omap_insert_None _ _ _ Hrl) as Hperm.
  pose proof (iv_run_nodup _ _ HI) as Hnd. rewrite Hperm in Hnd.
  apply NoDup_cons in Hnd as [Hnin Hnd].
  assert (Hrun : states s i = Some RUNNING) by (apply (iv_run _ _ HI); rewrite Hperm; left).
  split; simpl; try apply HI.
  - rewrite length_insert. apply HI.
  - rewrite length_insert. apply HI.
  - intros j. rewrite states_insert by done. rewrite (iv_wait _ _ HI j).
    case_decide; [subst|done]. rewrite Hrun. split; congruence.
  - done.
  - intros j. rewrite states_insert by done. case_decide as Hij; [subst|].
    + split; [done|congruence].
    + rewrite <-(iv_run _ _ HI j), Hperm, elem_of_cons. naive_solver.
  - apply Forall_insert; [apply HI|done].
  - intros j st. rewrite states_insert by done. case_decide; [subst|by apply HI].
    intros _ _. by apply (iv_alive _ _ HI j RUNNING).
Qed.

Section current.
Context (cpu : nat) (Hcpu : (cpu < NCPU)%nat).

(** The process [i] runs on [cpu]. *)
Definition runs (s : Sys) (i : nat) (p : Proc) : Prop :=
  cpu_proc s !! cpu = Some (Some i) ∧ pool s !! i = Some p ∧ state (inner p) = RUNNING.

Lemma inv_runs s i : Inv s → cpu_proc s !! cpu = Some (Some i) → ∃ p, runs s i p ∧ proc_wf p.
Proof using.
  intros HI Hc. assert (states s i = Some RUNNING) as Hst.
  { apply (iv_run _ _ HI). rewrite (omap_insert_None _ _ _ Hc). left. }
  unfold states in Hst. destruct (pool s !! i) as [p|] eqn:Hp; [|done].
  exists p. split; [|by eapply inv_lookup_wf]. split; [done|]. split; [done|]. by injection Hst.
Qed.

(** The locks of a CPU: none, exactly one, and what [sched] asks for. *)
Definition at_rest (c : Cpu) : Prop := noff c = 0 ∧ guards c = [].
Definition holds_one (l : nat) (c : Cpu) : Prop := noff c = 1 ∧ intr c = false ∧ guards c = [l].

Lemma lock_rest l c s : at_rest c → ∃ c', guard_lock l c s = (Ok c', s) ∧ holds_one l c'.
Proof using.
  intros [Hn Hg]. unfold guard_lock, locks_m, lock_mycpu. rewrite Hn. cbn. rewrite Hg. eexists. split; [done|]. done.
Qed.
Lemma lock_two l m c s : holds_one m c → l ≠ m → ∃ c', guard_lock l c s = (Ok c', s) ∧ noff c' = 2 ∧ intr c' = false ∧ guards c' = [l; m].
Proof using.
  intros (Hn & Hi & Hg) Hlm. unfold guard_lock, locks_m, lock_mycpu. rewrite Hn. cbn. rewrite Hg. rewrite bool_decide_eq_false_2 by (by intros ->%list_elem_of_singleton).
  eexists. split; [done|]. done.
Qed.
Lemma unlock_two l m k c s : noff c = 2 → intr c = false → guards c = [l; m] → l ≠ m → k = l ∨ k = m →
  ∃ c', guard_unlock k c s = (Ok c', s) ∧ holds_one (if decide (k = l) then m else l) c'.
Proof using.
  intros Hn Hi Hg Hlm Hk. unfold guard_unlock, locks_m, cpu_unlock. rewrite Hi, Hg. rewrite bool_decide_eq_true_2 by (rewrite !elem_of_cons; naive_solver). cbn. rewrite Hn. cbn.
  eexists. split; [done|]. unfold holds_one. cbn. split_and!; [done|done|]. destruct Hk as [-> | ->]; repeat case_decide; done.
Qed.

(** A second lock is taken and one of the two released: the way to [sched]. *)
Lemma swap_lock_wp {A} l m c (f : Cpu → PM A) Q E s : holds_one m c → l ≠ m →
  (∀ c', holds_one l c' → wp (f c') Q E s) → wp (c1 ← guard_lock l c; c2 ← guard_unlock m c1; f c2) Q E s.
Proof using.
  intros Hc Hlm Hf. destruct (lock_two l m c s Hc Hlm) as (c1 & E1 & Hn & Hi & Hg). apply wp_bind. unfold wp at 1. rewrite E1.
  destruct (unlock_two l m m c1 s Hn Hi Hg Hlm) as (c2 & E2 & H2); [by right|]. apply wp_bind. unfold wp at 1. rewrite E2. apply Hf. by rewrite decide_False in H2.
Qed.
Lemma lock_wp {A} l c (f : Cpu → PM A) Q E s : at_rest c → (∀ c', holds_one l c' → wp (f c') Q E s) → wp (c1 ← guard_lock l c; f c1) Q E s.
Proof using. intros Hc Hf. destruct (lock_rest l c s Hc) as (c1 & E1 & H1). apply wp_bind. unfold wp at 1. rewrite E1. by apply Hf. Qed.

Lemma sched_wp i p c s E :
  holds_one (L_inner i) c →
  InvR (<[cpu := None]> (cpu_proc s)) s → pool s !! i = Some p → state (inner p) ≠ RUNNING →
  wp (sched cpu i c) (λ _ s', Inv s' ∧ s' = with_cpu (<[cpu := None]> (cpu_proc s)) (cpu_pick s) s) E s.
Proof using.
  intros (Hno & Hi & Hg) HI Hp Hn. unfold sched. wp_get Hp. rewrite Hno, Hi, Hg. rewrite bool_decide_eq_true_2 by left. cbn.
  rewrite bool_decide_eq_false_2 by done. split; [|done]. by apply inv_cpu_proc.
Qed.

(** The running process parks itself and returns to the scheduler. *)
Lemma park_wp i p p' c s E :
  holds_one (L_inner i) c → Inv s → runs s i p → proc_wf p' → parked (state (inner p')) →
  wp (_ ← put_proc i p'; sched cpu i c) (λ _, Inv) E s.
Proof using.
  intros Hk HI (Hc&Hp&Hr) Hwf Hpk. apply wp_bind. unfold wp at 1, put_proc.
  eapply wp_mono; [apply sched_wp with (E := E) (p := p')| |done].
  - done.
  - simpl. by eapply leave_inv.
  - by apply put_lookup with p.
  - apply Hpk.
  - by intros _ s' [? _].
Qed.

Lemma sleep_wp c m ch i s E :
  holds_one m c → m ≠ L_inner i →
  Inv s → cpu_proc s !! cpu = Some (Some i) → wp (sleep cpu c m ch) (λ _, Inv) E s.
Proof using.
  intros Hk Hm HI Hc. destruct (inv_runs s i HI Hc) as (p&Hr&Hwf).
  unfold sleep. apply wp_bind, (wp_myproc _ i); [done|]. apply swap_lock_wp; [done..|]. intros c' Hc'. wp_get (proj1 (proj2 Hr)).
  apply (park_wp i p); [done..| |done]. wf_upd. intros _. apply (pw_trapframe _ Hwf).
  destruct Hr as (_&_&Hr). by rewrite Hr.
Qed.

Lemma yielding_wp c i s E :
  at_rest c → Inv s → cpu_proc s !! cpu = Some (Some i) → wp (yielding cpu c) (λ _, Inv) E s.
Proof using Hcpu.
  intros Hk HI Hc. destruct (inv_runs s i HI Hc) as (p&(_&Hp&Hr)&Hwf).
  pose proof (lookup_lt_Some _ _ _ Hp) as Hlen.
  set (p0 := mkProc (set_state SLEEPING (inner p)) (pdata p) (p_ptr p)).
  assert (Hwf0 : proc_wf p0).
  { unfold p0. wf_upd. intros _. apply (pw_trapframe _ Hwf). by rewrite Hr. }
  assert (HI0 : InvR (<[cpu := None]> (cpu_proc s)) (with_pool <[i := p0]> s)).
  { by eapply leave_inv. }
  destruct (push_inv _ _ i p0 cpu HI0) as (r&Hpush&HI1&_); [by apply put_lookup with p|done..| |].
  { apply (iv_alive _ _ HI i RUNNING); [|done]. rewrite (states_lookup _ _ _ Hp). by f_equal. }
  unfold yielding. apply wp_bind, (wp_myproc _ i); [done|]. apply lock_wp; [done|]. intros c' Hc'. apply wp_bind. unfold wp at 1.
  rewrite (make_runnable_run s i p cpu r); [|done|by rewrite Hr|done].
  eapply wp_mono; [apply sched_wp with (E := E) (p := woken cpu p)| |done].
  - done.
  - unfold with_pool in HI1. simpl in HI1. by rewrite list_insert_insert_eq in HI1.
  - simpl. by apply list_lookup_insert_eq.
  - done.
  - by intros _ s' [? _].
Qed.
End current.

(** ** The scheduler *)

Lemma sched_pop_wp cpu s :
  Inv s → (cpu < NCPU)%nat → cpu_pick s !! cpu = Some None → wp (sched_pop cpu) (λ _, Inv) (λ _, False) s.
Proof.
  intros HI Hcpu Hpk. unfold sched_pop. apply wp_bind. unfold wp at 1, m_get.
  destruct (pop_or_steal_ok cpu (runqs s) (iv_runqs _ _ HI) Hcpu) as (r&rs&->&Hwf&Hr).
  assert (Hpop : ∀ pk, omap id pk ++ all_queued rs ≡ₚ omap id (cpu_pick s) ++ all_queued (runqs s) →
    length pk = NCPU → Inv (with_cpu (cpu_proc s) pk (with_runqs rs s))).
  { intros pk Hperm Hlen.
    assert (Hw : waiting (with_cpu (cpu_proc s) pk (with_runqs rs s)) ≡ₚ waiting s).
    { unfold waiting. simpl. by rewrite !(Permutation_app_comm (all_queued _)). }
    split; simpl; try apply HI; [done|done| |].
    - rewrite Hw. apply HI.
    - intros i. rewrite Hw. apply HI. }
  destruct r as [idx|].
  - destruct Hr as (v&Hv&Ht&_). apply (Hpop (<[cpu := Some idx]> (cpu_pick s))).
    + rewrite (omap_insert_Some _ _ _ Hpk), (all_queued_takes _ _ _ _ Hv Ht).
      simpl. by rewrite Permutation_middle.
    + rewrite length_insert. apply HI.
  - destruct Hr as [_ Hq]. apply (Hpop (cpu_pick s)); [|apply HI].
    unfold all_queued. by rewrite (list_fmap_ext (queued rs) (queued (runqs s)) (seq 0 NCPU)) by auto.
Qed.

(** The index a scheduler holds is RUNNABLE: the test after locking the
    process never fails. *)
Lemma sched_run_wp cpu s idx :
  Inv s → (cpu < NCPU)%nat → cpu_proc s !! cpu = Some None → cpu_pick s !! cpu = Some (Some idx) →
  wp (sched_run cpu)
     (λ b s', b = true ∧ Inv s' ∧ cpu_proc s' !! cpu = Some (Some idx)) (λ _, False) s.
Proof.
  intros HI Hcpu Hpr Hpk. pose proof (omap_insert_None _ _ _ Hpk) as Hpm.
  assert (Hst : states s idx = Some RUNNABLE).
  { apply (iv_wait _ _ HI). apply elem_of_app. right. rewrite Hpm. left. }
  assert (Hex : ∃ p, pool s !! idx = Some p ∧ state (inner p) = RUNNABLE).
  { unfold states in Hst. destruct (pool s !! idx) as [p|]; [|done]. exists p. split; [done|]. by injection Hst. }
  destruct Hex as (p&Hp&Hs). pose proof (inv_lookup_wf _ _ _ _ HI Hp) as Hwf.
  pose proof (lookup_lt_Some _ _ _ Hp) as Hlen.
  unfold sched_run. apply wp_bind. unfold wp at 1, m_get. rewrite Hpk. simpl. wp_get Hp.
  rewrite bool_decide_eq_true_2 by done. simpl. split; [done|].
  split; [|by apply list_lookup_insert_eq, (lookup_lt_Some _ _ _ Hpr)].
  pose proof (iv_wait_nodup _ _ HI) as Hnd. unfold waiting in Hnd.
  rewrite Hpm, <-Permutation_middle in Hnd. apply NoDup_cons in Hnd as [Hnin Hnd].
  set (p' := mkProc _ _ _). set (s' := mkSys _ _ _ _ _ _ _).
  assert (Hst' : ∀ j, states s' j = if decide (idx = j) then Some RUNNING else states s j).
  { intros j. exact (states_insert s idx p' j Hlen). }
  split; simpl; try apply HI.
  - rewrite length_insert. apply HI.
  - rewrite length_insert. apply HI.
  - rewrite length_insert. apply HI.
  - done.
  - intros j. rewrite Hst'. case_decide as Hij; [subst; split; [done|congruence]|].
    rewrite <-(iv_wait _ _ HI j). unfold waiting. simpl. rewrite Hpm, <-Permutation_middle, elem_of_cons. naive_solver.
  - rewrite (omap_insert_Some _ _ _ Hpr). apply NoDup_cons. split; [|apply HI].
    rewrite (iv_run _ _ HI). congruence.
  - intros j. rewrite Hst', (omap_insert_Some _ _ _ Hpr), elem_of_cons, (iv_run _ _ HI).
    case_decide; naive_solver.
  - apply Forall_insert; [apply HI|]. unfold p'. wf_upd. intros _. apply (pw_trapframe _ Hwf). by rewrite Hs.
  - intros j st. rewrite Hst'. case_decide; [subst|by apply HI].
    intros _ _. by apply (iv_alive _ _ HI j RUNNABLE).
Qed.
