(* ===== verification/ProcsOps.v ===== *)
(** * The invariant across signals, fork, exit and wait

    The remaining operations of the process table preserve the scheduling
    invariant of [ProcsInv] and do not panic. *)

From stdpp Require Import base tactics numbers list.
From S2P Require Import Prelude Params Errors RunQueue Signal Spinlock Procs ProcsInv.

Lemma kept_inv s0 s : kept (cpu_proc s0) s0 s → Inv s.
Proof. intros [HI HE]. unfold Inv. by rewrite (se_proc _ _ HE). Qed.

Lemma inv_kept s : Inv s → kept (cpu_proc s) s s.
Proof. apply kept_start. Qed.

Lemma wp_kept {A} (m : PM A) s :
  wp m (λ _, kept (cpu_proc s) s) (kept (cpu_proc s) s) s → wp m (λ _, Inv) Inv s.
Proof. intros H. eapply wp_mono; [done| |]; intros; by apply (kept_inv s). Qed.

Section self.
Context (cpu : nat) (Hcpu : (cpu < NCPU)%nat) (i : nat).

Lemma self_put s p p' :
  Inv s → runs cpu s i p → proc_wf p' → state (inner p') = RUNNING → Inv (with_pool <[i := p']> s).
Proof using.
  intros HI (_&Hp&Hr) Hwf Hst. apply (kept_inv s). eapply kept_put; [by apply inv_kept|done..|].
  congruence.
Qed.

(** Run [Cpus::myproc().unwrap()] and lock it. *)
Ltac enter HI Hc p Hr Hwf :=
  destruct (inv_runs cpu _ i HI Hc) as (p&Hr&Hwf);
  apply wp_bind, (wp_myproc _ i); [done|]; wp_get (proj1 (proj2 Hr)).

Lemma sleep_resume_wp s E :
  Inv s → cpu_proc s !! cpu = Some (Some i) → wp (sleep_resume cpu) (λ _, Inv) E s.
Proof using.
  intros HI Hc. unfold sleep_resume. enter HI Hc p Hr Hwf.
  apply (self_put s p); [done..| |apply Hr]. wf_upd.
Qed.

Lemma self_trapframe s p : runs cpu s i p → proc_wf p → ∃ tf, trapframe (pdata p) = Some tf.
Proof using.
  intros (_&_&Hr) Hwf. destruct (pw_trapframe _ Hwf) as [tf Htf]; [by rewrite Hr|]. by exists tf.
Qed.

Lemma sigreturn_wp s :
  Inv s → cpu_proc s !! cpu = Some (Some i) → wp (sigreturn cpu) (λ _, Inv) Inv s.
Proof using.
  intros HI Hc. unfold sigreturn. enter HI Hc p Hr Hwf. destruct (negb _); [done|].
  destruct (self_trapframe s p Hr Hwf) as [tf Htf]. rewrite Htf.
  apply (self_put s p); [done..| |apply Hr]. wf_upd. done.
Qed.

Lemma sigaction_wp sig handler restorer s :
  Inv s → cpu_proc s !! cpu = Some (Some i) → (0 ≤ sig)%Z →
  wp (sigaction cpu sig handler restorer) (λ _, Inv) Inv s.
Proof using.
  intros HI Hc H0. unfold sigaction. destruct ((sig =? 0) || _)%Z eqn:Hsig; [done|].
  apply sig_valid in Hsig; [|done]. destruct (sig =? SIGKILL)%Z; [done|].
  enter HI Hc p Hr Hwf. destruct (handler_lookup p sig Hwf Hsig) as [h Hh].
  apply wp_bind, (wp_handler _ _ h); [done|]. destruct (_ && (restorer =? 0)%Z); [done|].
  apply wp_bind. unfold wp at 1, put_proc.
  apply (self_put s p); [done..| |apply Hr]. wf_upd. destruct (_ && _); apply Hwf.
Qed.

Lemma user_run_wp regs s : Inv s → cpu_proc s !! cpu = Some (Some i) → wp (user_run cpu regs) (λ _, Inv) Inv s.
Proof using.
  intros HI Hc. unfold user_run. enter HI Hc p Hr Hwf. destruct (self_trapframe s p Hr Hwf) as [tf ->].
  apply (self_put s p); [done..| |apply Hr]. wf_upd. by intros _.
Qed.

Lemma setitimer_wp now initial interval s :
  Inv s → cpu_proc s !! cpu = Some (Some i) → wp (setitimer cpu now initial interval) (λ _, Inv) Inv s.
Proof using.
  intros HI Hc. unfold setitimer. enter HI Hc p Hr Hwf.
  destruct (initial =? 0)%Z; [|destruct (usize_checked_add _ _); [|done]];
    (apply (self_put s p); [done..| |apply Hr]; wf_upd).
Qed.

Lemma setsid_wp s : Inv s → cpu_proc s !! cpu = Some (Some i) → wp (setsid cpu) (λ _, Inv) Inv s.
Proof using.
  intros HI Hc. unfold setsid. enter HI Hc p Hr Hwf. destruct (_ =? _)%Z; [done|].
  apply (self_put s p); [done..| |apply Hr]. wf_upd.
Qed.

Lemma setpgid_loop_wp me my_sid target new ids s0 rl s :
  kept rl s0 s → Forall (λ i, i < NPROC)%nat ids →
  wp (setpgid_loop me my_sid target new ids) (λ _, kept rl s0) (kept rl s0) s.
Proof using.
  intros Hk. induction ids as [|j ids IH]; intros Hids; simpl; [done|].
  apply Forall_cons in Hids as [Hj Hids]. destruct (kept_lookup _ _ _ _ Hk Hj) as (p&Hp&Hwf).
  wp_get Hp. destruct (negb _); [by apply IH|]. destruct (negb _); [done|].
  destruct (_ =? _)%Z; [done|]. apply wp_bind. unfold wp at 1, m_get. destruct (_ && _); [done|].
  eapply kept_put; [done..| |done]. wf_upd.
Qed.

Lemma setpgid_wp target new s :
  Inv s → cpu_proc s !! cpu = Some (Some i) → wp (setpgid cpu target new) (λ _, Inv) Inv s.
Proof using.
  intros HI Hc. unfold setpgid. enter HI Hc p Hr Hwf. destruct (_ =? 0)%Z; [done|].
  apply wp_kept, setpgid_loop_wp; [by apply inv_kept|apply all_ids].
Qed.

Lemma deliver_signals_wp k s E :
  at_rest k → Inv s → cpu_proc s !! cpu = Some (Some i) → wp (deliver_signals cpu k) (λ _, Inv) E s.
Proof using Hcpu.
  intros Hk HI Hc. unfold deliver_signals. enter HI Hc p Hr Hwf.
  pose proof (pw_pending _ Hwf) as Hu. pose proof (proj2 (proj2 Hr)) as Hrun.
  destruct (sig_active _); [done|]. apply lock_wp; [done|]. intros k1 Hk1. destruct (sig_pending (inner p) =? 0)%Z eqn:Hz; [done|]. bool_to_prop.
  set (sig := (trailing_zeros _ + 1)%Z).
  assert (Hsig : (1 ≤ sig ≤ NSIG)%Z).
  { destruct (trailing_zeros_spec _ Hu Hz) as (?&_). unfold sig, NSIG. lia. }
  set (g1 := set_pending _ _). assert (Hg1 : is_u32 (sig_pending g1)) by (simpl; auto with kernel).
  assert (Hput : ∀ g d, length (sig_handlers g) = length (sig_handlers (inner p)) →
    sig_pending g = sig_pending g1 → state g = RUNNING → is_Some (trapframe d) →
    Inv (with_pool <[i := mkProc g d (p_ptr p)]> s)).
  { intros g d Hl Hp Hst Htf. apply (self_put s p); [done..| |done].
    apply (proc_wf_upd p); [done..|by rewrite Hp|done]. }
  pose proof (self_trapframe s p Hr Hwf) as (tf&Htf).
  assert (Hsome : is_Some (trapframe (pdata p))) by (by rewrite Htf).
  destruct (sig =? SIGKILL)%Z; [by apply Hput|].
  destruct (handler_lookup p sig Hwf Hsig) as [h Hh]. apply wp_bind, (wp_handler _ _ h); [done|].
  set (c := if (sig =? SIGCONT)%Z then _ else _).
  assert (Hcc : ∀ g, sig_handlers (c g) = sig_handlers g ∧ sig_pending (c g) = sig_pending g ∧ state (c g) = state g)
    by (intros g; unfold c; by destruct (sig =? SIGCONT)%Z).
  destruct (Hcc g1) as (Hc1&Hc2&Hc3).
  assert (Hrun1 : state (c g1) = RUNNING) by (by rewrite Hc3).
  assert (Hlen1 : length (sig_handlers (c g1)) = length (sig_handlers (inner p))) by (by rewrite Hc1).
  destruct (h =? SIG_IGN)%Z; [by apply Hput|].
  destruct (h =? SIG_DFL)%Z.
  - destruct (default_action sig); [by apply Hput|by apply Hput| |by apply Hput].
    apply wp_bind. unfold wp at 1, put_inner, put_proc. set (p' := mkProc _ _ _). set (s1 := with_pool _ s).
    destruct (lock_two L_parents (L_inner i) k1 s1 Hk1) as (k2 & E2 & Hn2 & Hi2 & Hg2); [done|]. apply wp_bind. unfold wp at 1. rewrite E2.
    apply wp_bind. unfold wp at 1, m_get.
    destruct (unlock_two L_parents (L_inner i) L_parents k2 s1 Hn2 Hi2 Hg2) as (k3 & E3 & Hk3); [done|by left|]. rewrite decide_True in Hk3 by done.
    apply wp_bind. unfold wp at 1. rewrite E3.
    assert (HI1 : InvR (<[cpu := None]> (cpu_proc s)) s1).
    { eapply leave_inv; [done|done|apply Hr| |done].
      unfold p'. apply (proc_wf_upd p); simpl; [done..|by rewrite Hc2|done]. }
    apply wp_bind. apply wp_mono with (Q := λ _, kept (<[cpu := None]> (cpu_proc s)) s1) (R := E).
    + destruct (mjoin (parents s1 !! i)) as [par|] eqn:Hpar; [|by apply kept_start].
      destruct (inv_lookup _ _ par HI1) as (pp&Hpp&_); [by eapply (iv_par_range _ _ HI1)|].
      wp_get Hpp. apply wakeup_wp; [done|by apply kept_start].
    + intros [] s2 [HI2 HE]. destruct (inv_lookup _ _ i HI2) as (q&Hq&_).
      { by eapply lookup_range, Hr. }
      eapply wp_mono; [apply (sched_wp cpu i q); [done|..]| |done]; [by rewrite (se_proc _ _ HE)|done| |].
      2:{ by intros [] s3 [? _]. }
      intros Hq'. assert (i ∈ omap id (<[cpu := None]> (cpu_proc s))) as Hin.
      { apply (iv_run _ _ HI2). rewrite (states_lookup _ _ _ Hq). by f_equal. }
      pose proof (iv_run_nodup _ _ HI) as Hnd. rewrite (omap_insert_None _ _ _ Hc) in Hnd.
      by apply NoDup_cons in Hnd as [? _].
    + done.
  - destruct (_ =? 0)%Z; [by apply Hput|]. rewrite Htf. by apply Hput.
Qed.
End self.

(** ** Allocation of a slot *)

Lemma inv_nextid rl s n :
  InvR rl s → InvR rl (mkSys (pool s) (parents s) (runqs s) n (INITPROC s) (cpu_proc s) (cpu_pick s)).
Proof. intros HI. split; apply HI. Qed.

Lemma proc_wf_free g d ptr : proc_wf (mkProc (free_inner g) d ptr).
Proof. by split. Qed.

(** Nothing but the entry [c] and the pid counter has changed. *)
Record alloc_frame (c : nat) (s s' : Sys) : Prop := {
  af_proc : cpu_proc s' = cpu_proc s;
  af_pick : cpu_pick s' = cpu_pick s;
  af_parents : parents s' = parents s;
  af_init : INITPROC s' = INITPROC s;
  af_runqs : runqs s' = runqs s;
  af_pool : ∀ j, j ≠ c → pool s' !! j = pool s !! j;
}.

(** What [Procs::alloc] makes of a free entry. *)
Definition allocated (n : Z) (p : Proc) : Proc :=
  let d := pdata p in
  mkProc (set_stop 0 false false (set_ids n n n (set_state USED (inner p))))
    (mkProcData (Some Trapframe_default) (sig_trapframe d) (sig_active d) (sig_restorer d) (is_thread d) (ustack d))
    (p_ptr p).

Definition bump (s : Sys) : Sys :=
  mkSys (pool s) (parents s) (runqs s) (u64 (NEXTID s + 1)) (INITPROC s) (cpu_proc s) (cpu_pick s).

Definition freed (p : Proc) : Proc := mkProc (free_inner (inner p)) (free_data (pdata p)) (p_ptr p).

Lemma proc_free_run c p s : pool s !! c = Some p → proc_free c s = (Ok (), with_pool <[c := freed p]> s).
Proof. intros Hp. unfold proc_free. by rewrite (bind_get_proc c p). Qed.

(** The exact effect of the loop: entry [c] is the first free one. *)
Lemma procs_alloc_loop_run tf_ok uvm ids s :
  Forall (λ i, is_Some (pool s !! i)) ids →
  (Forall (λ i, states s i ≠ Some UNUSED) ids ∧
   procs_alloc_loop tf_ok uvm ids s = (Err WouldBlock, s)) ∨
  ∃ c p, c ∈ ids ∧ pool s !! c = Some p ∧ state (inner p) = UNUSED ∧
    procs_alloc_loop tf_ok uvm ids s =
      match tf_ok, uvm with
      | true, None => (Ok c, with_pool <[c := allocated (NEXTID s) p]> (bump s))
      | true, Some e => (Err e, with_pool <[c := freed p]> (bump s))
      | false, _ => (Err OutOfMemory, with_pool <[c := freed p]> (bump s))
      end.
Proof.
  induction ids as [|c ids IH]; intros Hids; simpl; [by left|].
  apply Forall_cons in Hids as [[p Hp] Hids].
  rewrite (bind_get_proc c p) by done. case_bool_decide as Hu.
  - right. exists c, p. split; [left|]. split; [done|]. split; [done|].
    pose proof (lookup_lt_Some _ _ _ Hp) as Hlen.
    destruct tf_ok, uvm; try done;
      (unfold PId_alloc, put_inner, put_proc, mbind, M_bind;
       rewrite (proc_free_run c _ _ (put_lookup (bump s) c p _ Hp));
       unfold m_err, with_pool, bump; simpl; by rewrite list_insert_insert_eq).
  - destruct (IH Hids) as [[Hn Hrun]|(c'&p'&Hin&?)].
    + left. split; [|exact Hrun]. apply Forall_cons. split; [|done].
      rewrite (states_lookup _ _ _ Hp). congruence.
    + right. exists c', p'. split; [by right|done].
Qed.

Lemma inv_alloc_put rl s c p p' :
  InvR rl s → pool s !! c = Some p → state (inner p) = UNUSED → proc_wf p' →
  (state (inner p') = USED ∨ state (inner p') = UNUSED) → InvR rl (with_pool <[c := p']> (bump s)).
Proof.
  intros HI Hp Hu Hwf Hst. eapply (inv_put rl (bump s) c p p'); [by apply inv_nextid|done..| |].
  - right. rewrite Hu. split; [done|]. by destruct Hst as [-> | ->].
  - by destruct Hst as [-> | ->].
Qed.

Lemma procs_alloc_wp rl tf_ok uvm s :
  InvR rl s →
  wp (procs_alloc tf_ok uvm)
    (λ c s', InvR rl s' ∧ alloc_frame c s s' ∧
       ∃ p, pool s !! c = Some p ∧ state (inner p) = UNUSED ∧
            pool s' !! c = Some (allocated (NEXTID s) p))
    (λ s', InvR rl s' ∧ cpu_proc s' = cpu_proc s) s.
Proof.
  intros HI. unfold wp, procs_alloc.
  destruct (procs_alloc_loop_run tf_ok uvm (seq 0 NPROC) s) as [[_ ->]|(c&p&Hc&Hp&Hu&->)].
  - apply Forall_forall. intros i Hi%elem_of_seq0. destruct (inv_lookup rl s i HI Hi) as (p&Hp&_). by exists p.
  - done.
  - pose proof (inv_lookup_wf _ _ _ _ HI Hp) as Hwf.
    assert (Hfree : InvR rl (with_pool <[c := freed p]> (bump s))).
    { eapply inv_alloc_put; [done..|apply proc_wf_free|by right]. }
    destruct tf_ok, uvm; try done.
    split; [|split].
    + eapply inv_alloc_put; [done..| |by left]. unfold allocated. wf_upd. by intros _.
    + split; try done. intros j Hj. simpl. by rewrite list_lookup_insert_ne.
    + exists p. split; [done|]. split; [done|]. by apply (put_lookup (bump s) c p).
Qed.

(** ** Parents *)

Definition with_parents (l : list (option nat)) (s : Sys) : Sys :=
  mkSys (pool s) l (runqs s) (NEXTID s) (INITPROC s) (cpu_proc s) (cpu_pick s).

Lemma inv_parents_put rl s c v :
  InvR rl s → (c < NPROC)%nat → (∀ j, v = Some j → (j < NPROC)%nat) →
  (v = None → ∀ st, states s c = Some st → alive st = false) →
  InvR rl (with_parents (<[c := v]> (parents s)) s).
Proof.
  intros HI Hc Hv Hn. pose proof (iv_parents _ _ HI) as Hlen.
  split; simpl; try apply HI.
  - by rewrite length_insert.
  - intros i st Hst Ha. unfold has_parent. simpl. destruct (decide (i = c)) as [->|Hne].
    + rewrite list_lookup_insert_eq by (by rewrite Hlen). simpl. destruct v as [j|]; [right; by exists j|].
      specialize (Hn eq_refl st Hst). congruence.
    + rewrite list_lookup_insert_ne by done. by apply (iv_alive _ _ HI i st).
  - intros i j. destruct (decide (i = c)) as [->|Hne].
    + rewrite list_lookup_insert_eq by (by rewrite Hlen). apply Hv.
    + rewrite list_lookup_insert_ne by done. apply (iv_par_range _ _ HI).
Qed.

Lemma put_parents_run {B} l (f : () → PM B) s : (put_parents l ≫= f) s = f () (with_parents l s).
Proof. done. Qed.

Lemma start_child_wp cpu me c s q :
  Inv s → (cpu < NCPU)%nat → (me < NPROC)%nat → pool s !! c = Some q → state (inner q) = USED →
  wp (start_child cpu me c) (λ _, Inv) Inv s.
Proof.
  intros HI Hcpu Hme Hq Hu. pose proof (lookup_range _ _ _ _ HI Hq) as Hc.
  assert (HI1 : Inv (with_parents (<[c := Some me]> (parents s)) s)).
  { apply (inv_parents_put (cpu_proc s)); [done..|by intros j [= <-]|done]. }
  unfold start_child. apply wp_bind. unfold wp at 1, m_get. unfold wp. rewrite put_parents_run.
  rewrite (bind_get_proc c q) by done. apply (wp_bind (make_runnable cpu c)).
  eapply wp_mono; [eapply make_runnable_wp; [by apply inv_kept|done|exact Hq|]|by intros [] s'; apply kept_inv|done].
  right; right. split; [done|]. right. simpl.
  rewrite list_lookup_insert_eq by (by rewrite (iv_parents _ _ HI)). by exists me.
Qed.

(** What a new entry must satisfy to be filled in by [fork] and [clone]. *)
Lemma fill_child s c q g d :
  Inv s → pool s !! c = Some q → state (inner q) = USED → state g = USED →
  length (sig_handlers g) = Z.to_nat NSIG → is_u32 (sig_pending g) → is_Some (trapframe d) →
  Inv (with_pool <[c := mkProc g d (p_ptr q)]> s).
Proof.
  intros HI Hq Hu Hg Hl Hp Ht. apply (kept_inv s). eapply kept_put; [by apply inv_kept|done| |].
  - by split.
  - simpl. congruence.
Qed.

Section children.
Context (cpu : nat) (Hcpu : (cpu < NCPU)%nat) (i : nat).

Lemma alloc_other c s s' p :
  alloc_frame c s s' → runs cpu s i p → (∃ q, pool s !! c = Some q ∧ state (inner q) = UNUSED) →
  runs cpu s' i p.
Proof using.
  intros Hf (Hc&Hp&Hr) (q&Hq&Hu). split; [by rewrite (af_proc _ _ _ Hf)|].
  split; [|done]. rewrite (af_pool _ _ _ Hf); [done|]. intros ->. congruence.
Qed.

Lemma with_child_wp tf_ok uvm (k : nat → PM Z) s p :
  Inv s → runs cpu s i p →
  (∀ c s1 q, Inv s1 → runs cpu s1 i p → pool s1 !! c = Some q → state (inner q) = USED →
             is_Some (trapframe (pdata q)) → wp (k c) (λ _, Inv) Inv s1) →
  wp (procs_alloc tf_ok uvm ≫= k) (λ _, Inv) Inv s.
Proof using.
  intros HI Hr Hk. apply wp_bind. eapply wp_mono; [by apply procs_alloc_wp| |].
  - intros c s1 (HI1&Hf&q&Hq&Hu&Hq1). rewrite <-(af_proc _ _ _ Hf) in HI1.
    eapply Hk; [done|eapply alloc_other; eauto|done..].
  - intros s1 [HI1 Heq]. unfold Inv. by rewrite Heq.
Qed.

Lemma fork_wp tf_ok uvm vmas s :
  Inv s → cpu_proc s !! cpu = Some (Some i) → wp (fork cpu tf_ok uvm None vmas) (λ _, Inv) Inv s.
Proof using Hcpu.
  intros HI Hc. destruct (inv_runs cpu s i HI Hc) as (p&Hr&Hwf). unfold fork.
  apply wp_bind, (wp_myproc _ i); [done|]. wp_get (proj1 (proj2 Hr)).
  apply (with_child_wp _ _ _ s p); [done..|]. intros c s1 q HI1 Hr1 Hq Hu [qtf Hqtf].
  wp_get Hq. destruct (self_trapframe cpu i s p Hr Hwf) as [tf ->]. rewrite Hqtf.
  apply wp_bind. unfold wp at 1, put_proc.
  set (p' := mkProc _ _ _). assert (HI2 : Inv (with_pool <[c := p']> s1)).
  { eapply fill_child; try done. apply Hwf. }
  destruct vmas as [e|]; [done|].
  eapply start_child_wp; [done..| |by eapply put_lookup|done]. by eapply lookup_range, Hr.
Qed.

(** A failing copy of the user memory: no child could be allocated, or the
    kernel panics. *)
Lemma fork_fails tf_ok uvm e vmas s : Inv s → cpu_proc s !! cpu = Some (Some i) →
  (fork cpu tf_ok uvm (Some e) vmas s).1 = Panic ∨
  ∃ e' s', fork cpu tf_ok uvm (Some e) vmas s = (Err e', s') ∧ Inv s'.
Proof using.
  intros HI Hc. destruct (inv_runs cpu s i HI Hc) as (p&(_&Hp&_)&Hwf). unfold fork. rewrite (bind_myproc _ i), (bind_get_proc i p) by done.
  pose proof (procs_alloc_wp (cpu_proc s) tf_ok uvm s HI) as H. unfold wp in H.
  destruct (procs_alloc tf_ok uvm s) as [[c|e'|] s'] eqn:E; [left; by rewrite (bind_ok _ _ _ _ _ E)| |done].
  right. exists e', s'. rewrite (bind_err _ _ _ _ _ E). split; [done|]. destruct H as [H Heq]. unfold Inv. by rewrite Heq.
Qed.

Lemma clone_wp p_sz tf_ok uvm map fcn arg1 arg2 stack s :
  Inv s → cpu_proc s !! cpu = Some (Some i) →
  wp (clone cpu p_sz tf_ok uvm map fcn arg1 arg2 stack) (λ _, Inv) Inv s.
Proof using Hcpu.
  intros HI Hc. destruct (inv_runs cpu s i HI Hc) as (p&Hr&Hwf). unfold clone.
  apply wp_bind, (wp_myproc _ i); [done|]. wp_get (proj1 (proj2 Hr)).
  destruct (_ || _); [done|]. destruct (_ || _); [done|].
  apply (with_child_wp _ _ _ s p); [done..|]. intros c s1 q HI1 Hr1 Hq Hu [qtf Hqtf].
  destruct map as [e|]; [done|].
  wp_get Hq. destruct (self_trapframe cpu i s p Hr Hwf) as [tf ->]. rewrite Hqtf.
  apply wp_bind. unfold wp at 1, put_proc.
  set (p' := mkProc _ _ _). assert (HI2 : Inv (with_pool <[c := p']> s1)).
  { eapply fill_child; try done. apply Hwf. }
  eapply start_child_wp; [done..| |by eapply put_lookup|done]. by eapply lookup_range, Hr.
Qed.
End children.

(** ** Exit and wait *)

(** The invariant, and [i] is running on [cpu]. *)
Definition current (cpu i : nat) (s : Sys) : Prop := Inv s ∧ cpu_proc s !! cpu = Some (Some i).

Lemma kept_current cpu i s0 s :
  cpu_proc s0 !! cpu = Some (Some i) → kept (cpu_proc s0) s0 s → current cpu i s.
Proof. intros Hc Hk. split; [by eapply kept_inv|]. destruct Hk as [_ HE]. by rewrite (se_proc _ _ HE). Qed.

Lemma reap_wp rl c p s E :
  InvR rl s → pool s !! c = Some p → state (inner p) = ZOMBIE →
  wp (reap c) (λ _ s', InvR rl s' ∧ cpu_proc s' = cpu_proc s) E s.
Proof.
  intros HI Hp Hz. pose proof (lookup_range _ _ _ _ HI Hp) as Hc.
  assert (HI1 : InvR rl (with_pool <[c := freed p]> s)).
  { eapply inv_put; [done..|apply proc_wf_free| |done]. right. by rewrite Hz. }
  unfold reap. apply wp_bind. unfold wp at 1. rewrite (proc_free_run c p) by done.
  split; [|done]. apply (inv_parents_put _ (with_pool <[c := freed p]> s)); [done..|].
  intros _ st. rewrite states_insert by (by eapply lookup_lt_Some). by rewrite decide_True by done; intros [= <-].
Qed.

Section waiting.
Context (cpu : nat) (Hcpu : (cpu < NCPU)%nat) (i : nat).

Lemma wakeup_current ch s E : current cpu i s → wp (wakeup cpu ch) (λ _ s', current cpu i s' ∧ same_env s s') E s.
Proof using Hcpu.
  intros [HI Hc]. eapply wp_mono; [by apply wakeup_wp, inv_kept| |intros s' H; exact H].
  intros [] s' Hk. split; [by eapply kept_current|apply Hk].
Qed.

Lemma exit_wp k status init s E :
  at_rest k → Inv s → cpu_proc s !! cpu = Some (Some i) → INITPROC s = Some init → init ≠ i →
  wp (exit cpu k status) (λ _, Inv) E s.
Proof using Hcpu.
  intros Hk HI Hc Hinit Hne. unfold exit. apply wp_bind, (wp_myproc _ i); [done|].
  apply wp_bind. unfold wp at 1, m_get. rewrite bool_decide_eq_false_2 by (rewrite Hinit; naive_solver).
  apply lock_wp; [done|]. intros k1 Hk1. apply wp_bind. apply wp_mono with (Q := λ _ s, current cpu i s ∧ INITPROC s = Some init) (R := E); [| |done].
  { apply wp_for; [done|]. intros c s1 Hcr%elem_of_seq0 [[HI1 Hc1] Hin1]. unfold reparent_at.
    apply wp_bind. unfold wp at 1, m_get. case_bool_decide; [|done]. rewrite Hin1.
    unfold wp. rewrite put_parents_run.
    assert (HI2 : Inv (with_parents (<[c := Some init]> (parents s1)) s1)).
    { apply (inv_parents_put (cpu_proc s1)); [done..| |done]. intros j [= <-]. by apply (iv_init_range _ _ HI1). }
    destruct (inv_lookup _ _ init HI1) as (ip&Hip&_); [by apply (iv_init_range _ _ HI1)|].
    rewrite (bind_get_proc init ip) by done.
    eapply (wp_mono (wakeup cpu (p_ptr ip))); [by apply wakeup_current with (E := E)| |done].
    intros [] s2 [Hcur HE]. split; [done|]. by rewrite (se_init _ _ HE). }
  intros [] s1 [[HI1 Hc1] Hin1]. apply wp_bind. unfold wp at 1, m_get.
  destruct (inv_runs cpu s1 i HI1 Hc1) as (p1&Hr1&_).
  destruct (iv_alive _ _ HI1 i RUNNING) as [Hbad|[par Hpar]]; [|done|congruence|].
  { destruct Hr1 as (_&Hp&Hst). rewrite (states_lookup _ _ _ Hp). by f_equal. }
  rewrite Hpar. destruct (inv_lookup _ _ par HI1) as (pp&Hpp&_); [by eapply (iv_par_range _ _ HI1)|].
  wp_get Hpp. apply wp_bind. eapply wp_mono; [by apply wakeup_current with (E := E)| |done].
  intros [] s2 [[HI2 Hc2] _]. destruct (inv_runs cpu s2 i HI2 Hc2) as (p&Hr&Hwf).
  destruct (lock_two (L_inner i) L_parents k1 s2 Hk1) as (k2 & E2 & Hn2 & Hi2 & Hg2); [done|]. apply wp_bind. unfold wp at 1. rewrite E2.
  wp_get (proj1 (proj2 Hr)). apply wp_bind. unfold wp at 1, put_inner, put_proc. set (p' := mkProc _ _ _).
  destruct (unlock_two (L_inner i) L_parents L_parents k2 (with_pool <[i := p']> s2) Hn2 Hi2 Hg2) as (k3 & E3 & Hk3); [done|by right|].
  rewrite decide_False in Hk3 by done. apply wp_bind. unfold wp at 1. rewrite E3.
  apply (park_wp cpu i p p' k3 s2 E); [done..| |done]. unfold p'. wf_upd.
  intros _. apply (pw_trapframe _ Hwf). destruct Hr as (_&_&->). done.
Qed.

Lemma waitpid_scan_wp cp me want options ids hk s :
  current cpu i s → Forall (λ i, i < NPROC)%nat ids →
  wp (waitpid_scan cp me want options ids hk) (λ _, current cpu i) (current cpu i) s.
Proof using.
  intros [HI Hc]. revert hk. induction ids as [|c ids IH]; intros hk Hids; simpl; [done|].
  apply Forall_cons in Hids as [Hcr Hids]. specialize (λ hk, IH hk Hids).
  destruct (inv_lookup _ _ c HI Hcr) as (p&Hp&Hwf).
  assert (Hput : ∀ a b d n, wp (_ ← put_inner c p (set_stop a b d (inner p)); mret (Some n, true) : PM (option Z * bool))
                              (λ _, current cpu i) (current cpu i) s).
  { intros a b d n. split; [|done]. apply (kept_inv s).
    eapply kept_put; [by apply inv_kept|done| |done]. wf_upd. }
  apply wp_bind. unfold wp at 1, m_get. destruct (negb _); [apply IH|]. wp_get Hp.
  destruct (is_thread _); [apply IH|]. destruct (negb _); [apply IH|].
  destruct (_ && _); [destruct (cp _); [done|apply Hput]|].
  destruct (_ && _); [destruct (cp _); [done|apply Hput]|].
  case_bool_decide as Hz; [|apply IH]. destruct (cp _); [done|].
  apply wp_bind. eapply wp_mono; [by eapply reap_wp| |intros s' H; exact H].
  intros [] s1 [HI1 Heq]. split; [unfold Inv; by rewrite Heq|by rewrite Heq].
Qed.

Lemma drop_all_ignored_u32 g : is_u32 (sig_pending g) → is_u32 (drop_all_ignored g).
Proof using.
  unfold drop_all_ignored. generalize (sig_pending g). induction (seqZ 1 NSIG) as [|x l IH]; simpl; [done|].
  intros z Hz. apply IH. unfold drop_ignored. destruct (_ =? 0)%Z; [done|].
  destruct (sig_handlers g !! _); [|done]. destruct (_ || _); auto with kernel.
Qed.

Lemma sleep_none k ch s : holds_one L_parents k → current cpu i s →
  wp (_ ← sleep cpu k L_parents ch; mret None : PM (option Z)) (λ _, Inv) Inv s.
Proof using.
  intros Hk [HI Hc]. apply wp_bind.
  eapply wp_mono; [by apply (sleep_wp cpu k L_parents ch i)|by intros [] s'|intros s' H; exact H].
Qed.

Lemma waitpid_wp cp k which options s :
  at_rest k → current cpu i s → wp (waitpid_pass cp cpu k which options) (λ _, Inv) Inv s.
Proof using.
  intros Hk [HI Hc]. unfold waitpid_pass. apply wp_bind, (wp_myproc _ i); [done|].
  destruct (which <? -1)%Z; [done|]. apply lock_wp; [done|]. intros k1 Hk1.
  apply wp_bind. eapply wp_mono; [by apply waitpid_scan_wp, all_ids| |by intros s' []].
  intros [[n|] hk] s1 [HI1 Hc1]; [done|]. destruct (negb (_ =? 0)%Z); [done|].
  destruct (inv_runs cpu s1 i HI1 Hc1) as (p&Hr&Hwf). wp_get (proj1 (proj2 Hr)).
  destruct (_ || _); [done|]. apply wp_bind. unfold wp at 1, put_inner, put_proc.
  assert (HI2 : Inv (with_pool <[i := mkProc (set_pending (drop_all_ignored (inner p)) (inner p)) (pdata p) (p_ptr p)]> s1)).
  { apply (self_put cpu i s1 p); [done..| |apply Hr]. wf_upd. by apply drop_all_ignored_u32, Hwf. }
  destruct (negb _); [done|]. by apply sleep_none.
Qed.

Lemma join_scan_wp cp me ids hk s :
  current cpu i s → Forall (λ i, i < NPROC)%nat ids →
  wp (join_scan cp me ids hk) (λ _, current cpu i) (current cpu i) s.
Proof using.
  intros [HI Hc]. revert hk. induction ids as [|c ids IH]; intros hk Hids; simpl; [done|].
  apply Forall_cons in Hids as [Hcr Hids]. specialize (λ hk, IH hk Hids).
  destruct (inv_lookup _ _ c HI Hcr) as (p&Hp&Hwf).
  apply wp_bind. unfold wp at 1, m_get. destruct (negb _); [apply IH|]. wp_get Hp.
  destruct (negb _); [apply IH|]. case_bool_decide as Hz; [|apply IH]. destruct (cp _); [done|].
  apply wp_bind. eapply wp_mono; [by eapply reap_wp| |intros s' H; exact H].
  intros [] s1 [HI1 Heq]. split; [unfold Inv; by rewrite Heq|by rewrite Heq].
Qed.

Lemma join_wp cp k s : at_rest k → current cpu i s → wp (join_pass cp cpu k) (λ _, Inv) Inv s.
Proof using.
  intros Hk [HI Hc]. unfold join_pass. apply wp_bind, (wp_myproc _ i); [done|]. apply lock_wp; [done|]. intros k1 Hk1.
  apply wp_bind. eapply wp_mono; [by apply join_scan_wp, all_ids| |by intros s' []].
  intros [[n|] hk] s1 [HI1 Hc1]; [done|].
  destruct (inv_runs cpu s1 i HI1 Hc1) as (p&Hr&Hwf). wp_get (proj1 (proj2 Hr)).
  destruct (_ || _); [done|]. by apply sleep_none.
Qed.

Lemma kill_threads_wp me s : Inv s → wp (kill_threads cpu me) (λ _, Inv) Inv s.
Proof using Hcpu.
  intros HI. apply wp_kept. apply wp_for; [by apply inv_kept|].
  intros c s1 Hcr%elem_of_seq0 Hk. destruct (kept_lookup _ _ _ _ Hk Hcr) as (p&Hp&Hwf).
  unfold kill_thread_at, is_thread_of. do 2 apply wp_bind. unfold wp at 1, m_get. wp_get Hp.
  unfold wp at 1, mret, M_ret. destruct (_ && _); [|done]. wp_get Hp.
  apply wp_bind. unfold wp at 1, put_inner, put_proc.
  match goal with |- context [with_pool <[c := ?q]> s1] =>
    assert (Hk1 : kept (cpu_proc s) s (with_pool <[c := q]> s1)); [|pose proof (put_lookup s1 c p q Hp) as Hp1] end.
  { eapply kept_put; [done..| |done]. wf_upd. }
  case_bool_decide as Hs; [|done]. eapply make_runnable_wp; [done..|by left].
Qed.

Lemma reap_threads_scan_wp me ids hk s E :
  current cpu i s → Forall (λ i, i < NPROC)%nat ids →
  wp (reap_threads_scan me ids hk) (λ _, current cpu i) E s.
Proof using.
  revert hk s. induction ids as [|c ids IH]; intros hk s [HI Hc] Hids; simpl; [done|].
  apply Forall_cons in Hids as [Hcr Hids]. destruct (inv_lookup _ _ c HI Hcr) as (p&Hp&Hwf).
  unfold is_thread_of. do 2 apply wp_bind. unfold wp at 1, m_get. wp_get Hp.
  unfold wp at 1, mret, M_ret. destruct (_ && _); [|by apply IH]. wp_get Hp.
  apply wp_bind. apply wp_mono with (Q := λ _, current cpu i) (R := E); [|by intros [] s1 Hs1; apply IH|done].
  case_bool_decide as Hz; [|done]. eapply wp_mono; [by eapply reap_wp| |intros s' H; exact H].
  intros [] s1 [HI1 Heq]. split; [unfold Inv; by rewrite Heq|by rewrite Heq].
Qed.

Lemma reap_threads_wp k s : at_rest k → current cpu i s → wp (reap_threads_pass cpu k) (λ _, Inv) Inv s.
Proof using.
  intros Hk [HI Hc]. unfold reap_threads_pass. apply wp_bind, (wp_myproc _ i); [done|]. apply lock_wp; [done|]. intros k1 Hk1.
  apply wp_bind. eapply wp_mono; [by apply (reap_threads_scan_wp _ _ _ _ Inv), all_ids| |intros s' H; exact H].
  intros hk s1 [HI1 Hc1]. destruct (negb _); [done|].
  destruct (inv_runs cpu s1 i HI1 Hc1) as (p&Hr&Hwf). wp_get (proj1 (proj2 Hr)).
  destruct (killed _); [done|]. apply wp_bind.
  eapply wp_mono; [by apply (sleep_wp cpu k1 L_parents _ i)|by intros [] s'|intros s' H; exact H].
Qed.
End waiting.
