(* ===== verification/ProcSched.v ===== *)
(** * Interleavings of the process table

    The lock-protected regions of [proc.rs] as the steps of a transition
    system over all CPUs, and the theorems about its reachable states:
    scheduling, wakeup, and the life cycle of a signal. *)

From stdpp Require Import base tactics numbers list.
From S2P Require Import Prelude Params Errors RunQueue Signal Spinlock Procs ProcsInv ProcsOps.

(** A step: one of the regions, with the CPU that executes it and its
    arguments.  The table walks of [wakeup], [on_tick], [kill] and
    [kill_pgrp] contribute one step per entry. *)
Inductive action :=
| AInit (cpu : nat)
| APop (cpu : nat)
| ARun (cpu : nat)
| AUser (cpu : nat) (regs : Trapframe)
| AYield (cpu : nat) (k : Cpu)
| ASleep (cpu : nat) (k : Cpu) (m : nat) (ch : Z)
| AResume (cpu : nat)
| AWakeAt (cpu : nat) (ch : Z) (idx : nat)
| ATickAt (cpu : nat) (now : Z) (idx : nat)
| ASignalAt (cpu : nat) (idx : nat) (sig : Z)
| ADeliver (cpu : nat) (k : Cpu)
| ASigreturn (cpu : nat)
| ASigaction (cpu : nat) (sig handler restorer : Z)
| ASetitimer (cpu : nat) (now initial interval : Z)
| ASetpgid (cpu : nat) (target group : Z)
| ASetsid (cpu : nat)
| AFork (cpu : nat) (tf_ok : bool) (uvm copy vmas : option Error)
| AClone (cpu : nat) (p_sz : Z) (tf_ok : bool) (uvm map : option Error) (fcn arg1 arg2 stack : Z)
| AExit (cpu : nat) (k : Cpu) (status : Z)
| AWaitpid (cpu : nat) (k : Cpu) (cp : WStatus) (which options : Z)
| AJoin (cpu : nat) (k : Cpu) (cp : WStatus)
| AKillThreads (cpu : nat) (me : nat)
| AReapThreads (cpu : nat) (k : Cpu).

Definition discard {A} (m : PM A) : PM () := _ ← m; mret ().

Definition exec (a : action) : PM () :=
  match a with
  | AInit cpu => user_init cpu true None
  | APop cpu => discard (sched_pop cpu)
  | ARun cpu => discard (sched_run cpu)
  | AUser cpu regs => user_run cpu regs
  | AYield cpu k => yielding cpu k
  | ASleep cpu k m ch => sleep cpu k m ch
  | AResume cpu => sleep_resume cpu
  | AWakeAt cpu ch idx => wakeup_at cpu ch idx
  | ATickAt cpu now idx => on_tick_at cpu now idx
  | ASignalAt cpu idx sig => post_signal cpu idx sig
  | ADeliver cpu k => deliver_signals cpu k
  | ASigreturn cpu => sigreturn cpu
  | ASigaction cpu sig handler restorer => discard (sigaction cpu sig handler restorer)
  | ASetitimer cpu now initial interval => discard (setitimer cpu now initial interval)
  | ASetpgid cpu target group => setpgid cpu target group
  | ASetsid cpu => discard (setsid cpu)
  | AFork cpu tf_ok uvm copy vmas => discard (fork cpu tf_ok uvm copy vmas)
  | AClone cpu p_sz tf_ok uvm map fcn arg1 arg2 stack =>
      discard (clone cpu p_sz tf_ok uvm map fcn arg1 arg2 stack)
  | AExit cpu k status => exit cpu k status
  | AWaitpid cpu k cp which options => discard (waitpid_pass cp cpu k which options)
  | AJoin cpu k cp => discard (join_pass cp cpu k)
  | AKillThreads cpu me => kill_threads cpu me
  | AReapThreads cpu k => discard (reap_threads_pass cpu k)
  end.

(** When the code can execute the step: a system call needs a process on the
    CPU, the scheduler an idle one; [usize] arguments are not negative; init
    is created once and does not exit.  System calls and traps enter with no
    lock held, [sleep] with exactly the lock it is given, which is not that of
    a process. *)
Definition busy (cpu : nat) (s : Sys) : Prop := (cpu < NCPU)%nat ∧ ∃ i, cpu_proc s !! cpu = Some (Some i).
Definition enabled (a : action) (s : Sys) : Prop :=
  match a with
  | AInit cpu => (cpu < NCPU)%nat ∧ INITPROC s = None ∧ ∃ i, states s i = Some UNUSED
  | APop cpu => (cpu < NCPU)%nat ∧ cpu_pick s !! cpu = Some None
  | ARun cpu => (cpu < NCPU)%nat ∧ cpu_proc s !! cpu = Some None ∧ ∃ i, cpu_pick s !! cpu = Some (Some i)
  | AWakeAt cpu _ idx | ATickAt cpu _ idx => (cpu < NCPU)%nat ∧ (idx < NPROC)%nat
  | ASignalAt cpu idx sig => (cpu < NCPU)%nat ∧ (idx < NPROC)%nat ∧ (1 ≤ sig ≤ NSIG)%Z
  | ASigaction cpu sig _ _ => busy cpu s ∧ (0 ≤ sig)%Z
  | AExit cpu k _ => at_rest k ∧ busy cpu s ∧ (∃ init, INITPROC s = Some init ∧ cpu_proc s !! cpu ≠ Some (Some init))
  | AKillThreads cpu _ => (cpu < NCPU)%nat
  | ASleep cpu k m _ => (holds_one m k ∧ (NPROC < m)%nat) ∧ busy cpu s
  | AYield cpu k | ADeliver cpu k | AWaitpid cpu k _ _ _ | AJoin cpu k _ | AReapThreads cpu k => at_rest k ∧ busy cpu s
  | AUser cpu _ | AResume cpu | ASigreturn cpu | ASetitimer cpu _ _ _
  | ASetpgid cpu _ _ | ASetsid cpu | AFork cpu _ _ _ _ | AClone cpu _ _ _ _ _ _ _ _ => busy cpu s
  end.

(** Reachable states: from boot, by enabled steps that succeed or fail; a panic
    stops the machine. *)
Inductive reach : Sys → Prop :=
| reach_boot ptrs : reach (Procs_new ptrs)
| reach_step s a : reach s → enabled a s → (exec a s).1 ≠ Panic → reach (exec a s).2.

(** The steps that can panic: a [fork] whose copy of the user memory fails. *)
Definition fork_copy_fails (a : action) : bool := match a with AFork _ _ _ (Some _) _ => true | _ => false end.

Lemma inv_boot ptrs : Inv (Procs_new ptrs).
Proof.
  assert (Hst : ∀ i, states (Procs_new ptrs) i = Some UNUSED ∨ states (Procs_new ptrs) i = None).
  { intros i. unfold states, Procs_new. cbn [pool]. rewrite list_lookup_fmap.
    destruct (seq 0 NPROC !! i); simpl; auto. }
  split; try done.
  - split; [done|]. apply Forall_replicate. apply rq_wf_new.
  - vm_compute. constructor.
  - intros i. change (waiting (Procs_new ptrs)) with (@nil nat). destruct (Hst i) as [-> | ->]; split; by inversion 1.
  - vm_compute. constructor.
  - intros i. change (omap id _) with (@nil nat). destruct (Hst i) as [-> | ->]; split; by inversion 1.
  - apply Forall_fmap, Forall_forall. intros i _. by split.
  - intros i st. destruct (Hst i) as [-> | ->]; [intros [= <-]|]; done.
  - intros i j. unfold Procs_new. cbn [parents].
    destruct (replicate NPROC None !! i) as [v|] eqn:E; simpl; [|done].
    apply lookup_replicate in E as [-> _]. done.
Qed.

Lemma user_init_wp cpu s :
  Inv s → (cpu < NCPU)%nat → INITPROC s = None → (∃ i, states s i = Some UNUSED) →
  wp (user_init cpu true None) (λ _, Inv) Inv s.
Proof.
  intros HI Hcpu Hin [i Hi]. unfold wp, user_init, procs_alloc.
  assert (Hir : (i < NPROC)%nat).
  { unfold states in Hi. destruct (pool s !! i) as [p|] eqn:Hp; [|done]. by eapply lookup_range. }
  destruct (procs_alloc_loop_run true None (seq 0 NPROC) s) as [[Hn _]|(c&p&Hc&Hp&Hu&->)].
  - apply Forall_forall. intros j Hj%elem_of_seq0. destruct (inv_lookup _ s j HI Hj) as (p&Hp&_). by exists p.
  - rewrite Forall_forall in Hn. exfalso. apply (Hn i); [|done]. apply elem_of_seq. lia.
  - pose proof (inv_lookup_wf _ _ _ _ HI Hp) as Hwf.
    assert (HI1 : Inv (with_pool <[c := allocated (NEXTID s) p]> (bump s))).
    { apply (inv_alloc_put (cpu_proc s) s c p); [done..| |by left]. unfold allocated. wf_upd. by intros _. }
    set (s1 := with_pool _ _) in HI1. set (s2 := mkSys _ _ _ _ _ _ _).
    assert (HI2 : Inv s2).
    { split; try apply HI1.
      - intros j st Hst Ha. destruct (iv_alive _ _ HI1 j st Hst Ha) as [Hbad|]; [|by right].
        simpl in Hbad. congruence.
      - intros j [= <-]. exact (lookup_range _ _ _ _ HI Hp). }
    apply (wp_mono _ (λ _, kept (cpu_proc s2) s2) _ Inv); [|intros []; apply kept_inv|done].
    eapply make_runnable_wp; [by apply inv_kept|done|by apply (put_lookup (bump s) c p)|].
    right; right. split; [done|]. by left.
Qed.

Lemma wp_discard {A} (m : PM A) s : wp m (λ _, Inv) Inv s → wp (discard m) (λ _, Inv) Inv s.
Proof. intros H. by apply wp_bind. Qed.

Lemma exec_wp a s : Inv s → enabled a s → fork_copy_fails a = false → wp (exec a) (λ _, Inv) Inv s.
Proof.
  intros HI He Hf. destruct a; cbn [enabled exec] in He |- *; try apply wp_discard;
    try (match type of He with busy _ _ => destruct He as [Hcpu [i Hi]] | _ ∧ busy _ _ => destruct He as [Hk [Hcpu [i Hi]]] end).
  - destruct He as (?&?&?). by apply user_init_wp.
  - destruct He as (?&?). eapply wp_mono; [by apply sched_pop_wp|done..].
  - destruct He as (?&?&i&?). eapply wp_mono; [by eapply sched_run_wp|by intros ?? (_&?&_)|done].
  - by eapply user_run_wp.
  - by eapply yielding_wp.
  - destruct Hk as [Hk Hm]. eapply sleep_wp; [done| |done..]. destruct (inv_runs cpu s i HI Hi) as (p & (_ & Hp & _) & _).
    pose proof (lookup_range _ _ _ _ HI Hp). unfold L_inner. lia.
  - by eapply sleep_resume_wp.
  - destruct He. apply wp_kept, wakeup_at_wp; [done|by apply inv_kept|done].
  - destruct He. apply wp_kept, on_tick_at_wp; [done|by apply inv_kept|done].
  - destruct He as (?&?&?). apply wp_kept, post_signal_wp; [done|by apply inv_kept|done..].
  - by eapply deliver_signals_wp.
  - by eapply sigreturn_wp.
  - destruct He as [[? [i ?]] ?]. by eapply sigaction_wp.
  - by eapply setitimer_wp.
  - by eapply setpgid_wp.
  - by eapply setsid_wp.
  - destruct copy; [done|]. by eapply fork_wp.
  - by eapply clone_wp.
  - destruct He as (Hk & [? [i Hi]] & (init&?&Hne)). eapply exit_wp; [done..|]. congruence.
  - by eapply waitpid_wp.
  - by eapply join_wp.
  - by apply kill_threads_wp.
  - by eapply reap_threads_wp.
Qed.

Lemma reach_inv s : reach s → Inv s.
Proof.
  induction 1 as [ptrs|s a _ IH He Hp]; [apply inv_boot|]. destruct (fork_copy_fails a) eqn:Hf.
  - destruct a as [| | | | | | | | | | | | | | | |cpu tf_ok uvm [e|] vmas| | | | | |]; try done. destruct He as [_ [i Hi]].
    cbn [exec] in *. unfold discard, mbind, M_bind in *. destruct (fork_fails cpu i tf_ok uvm e vmas s IH Hi) as [E|(e' & s' & E & ?)].
    + destruct (fork _ _ _ _ _ _) as [r s']. cbn in E. by subst r.
    + by rewrite E.
  - pose proof (exec_wp a s IH He Hf) as H. unfold wp in H. by destruct (exec a s) as [[]].
Qed.

(** C@: In every state the kernel can reach, under any interleaving of the
    CPUs, the run queues and the indices held by the schedulers are exactly
    the RUNNABLE processes, each of them once, and the CPUs run exactly the
    RUNNING processes, each on one CPU.  No enabled step panics but a [fork]
    whose copy of the user memory fails: no run queue overflows, no lookup
    fails, the four assertions of [sched] (the lock of the process is held, no
    other is, the process is not RUNNING, interrupts are off) hold, and the
    process a scheduler has popped is always found RUNNABLE and is run.
    Callers of [sleep] hold the lock they pass and no other. *)
Theorem scheduler_invariant s :
  reach s →
  (NoDup (waiting s) ∧ ∀ i, i ∈ waiting s ↔ states s i = Some RUNNABLE) ∧
  (NoDup (omap id (cpu_proc s)) ∧ ∀ i, i ∈ omap id (cpu_proc s) ↔ states s i = Some RUNNING) ∧
  (∀ a, enabled a s → (exec a s).1 = Panic → fork_copy_fails a = true) ∧
  (∀ cpu, enabled (ARun cpu) s → (sched_run cpu s).1 = Ok true).
Proof.
  intros HI%reach_inv. split; [split; apply HI|]. split; [split; apply HI|]. split.
  - intros a He Hp. destruct (fork_copy_fails a) eqn:Hf; [done|]. pose proof (exec_wp a s HI He Hf) as H. unfold wp in H. by destruct (exec a s) as [[]].
  - intros cpu (Hcpu&Hpr&i&Hpk). pose proof (sched_run_wp cpu s i HI Hcpu Hpr Hpk) as H.
    unfold wp in H. destruct (sched_run cpu s) as [[b| |] s']; [|done..]. by destruct H as [-> _].
Qed.

(** Boot, run init on CPU 0, let it fork twice, and let CPU 3 steal a child. *)
Definition demo_acts : list action :=
  [AInit 0; APop 0; ARun 0; AFork 0 true None None None; AFork 0 true None None None; APop 3].
Definition run_acts (l : list action) (s : Sys) : Sys := foldl (λ s a, (exec a s).2) s l.
Definition demo_sys : Sys := run_acts demo_acts (Procs_new (λ i, 4096 + 8 * Z.of_nat i)%Z).

(** Each step of a concrete run is enabled, by evaluation. *)
Ltac step_enabled :=
  first [ split; [split; [by split|vm_compute; lia]|]; split; [vm_compute; lia|]; eexists; vm_compute; reflexivity
        | split; [vm_compute; lia|]; split; [vm_compute; reflexivity|]; eexists; vm_compute; reflexivity
        | split; [vm_compute; lia|]; split; [vm_compute; reflexivity|]; exists 0%nat; vm_compute; reflexivity
        | split; [vm_compute; lia|]; eexists; vm_compute; reflexivity
        | split; [vm_compute; lia|]; vm_compute; reflexivity ].

Lemma demo_reach : reach demo_sys.
Proof.
  unfold demo_sys, run_acts, demo_acts. cbn [foldl].
  do 6 (eapply reach_step; [|step_enabled|vm_compute; discriminate]).
  apply reach_boot.
Qed.

Lemma scheduler_invariant_witness :
  (∃ s, reach s ∧ waiting s = [2; 1] ∧ NoDup (waiting s)).
Proof.
  exists demo_sys. split; [apply demo_reach|]. split; [vm_compute; reflexivity|].
  exact (proj1 (proj1 (scheduler_invariant demo_sys demo_reach))).
Defined.

(** ** Wakeup *)

Definition asleep_on (ch : Z) (p : Proc) : bool :=
  bool_decide (state (inner p) = SLEEPING) && (chan (inner p) =? ch)%Z.

Lemma wakeup_at_run cpu ch i p s :
  Inv s → (cpu < NCPU)%nat → pool s !! i = Some p →
  ∃ s', wakeup_at cpu ch i s = (Ok (), s') ∧ Inv s' ∧ same_env s s' ∧
    pool s' = <[i := if asleep_on ch p then woken cpu p else p]> (pool s).
Proof.
  intros HI Hcpu Hp. unfold wakeup_at, asleep_on.
  change ((m_get ≫= ?f) s) with (f s s). cbv beta.
  assert (Hid : <[i := p]> (pool s) = pool s) by (by apply list_insert_id).
  case_bool_decide as Hcur.
  - destruct (cpu_proc s !! cpu) as [[c|]|] eqn:Hc; simplify_eq/=.
    destruct (inv_runs cpu s i HI Hc) as (p1&(_&Hp1&Hr)&_). simplify_eq.
    rewrite bool_decide_eq_false_2 by (by rewrite Hr). simpl. exists s. split; [done|]. by rewrite Hid.
  - rewrite (bind_get_proc i p) by done. case_bool_decide as Hs; simpl; [|exists s; by rewrite Hid].
    destruct (chan (inner p) =? ch)%Z; [|exists s; by rewrite Hid].
    destruct (push_inv (cpu_proc s) s i p cpu) as (r&Hpush&HI'&_); try done.
    + by eapply inv_lookup_wf.
    + by rewrite Hs.
    + by rewrite Hs.
    + apply (iv_alive _ _ HI i SLEEPING); [|done]. rewrite (states_lookup _ _ _ Hp). by f_equal.
    + rewrite (make_runnable_run s i p cpu r); [|done|by rewrite Hs|done]. eexists. split; [done|]. by split.
Qed.

Lemma wakeup_run cpu ch ids s :
  Inv s → (cpu < NCPU)%nat → NoDup ids → Forall (λ i, i < NPROC)%nat ids →
  ∃ s', m_for ids (wakeup_at cpu ch) s = (Ok (), s') ∧ Inv s' ∧ same_env s s' ∧
    ∀ j p, pool s !! j = Some p →
      pool s' !! j = Some (if bool_decide (j ∈ ids) && asleep_on ch p then woken cpu p else p).
Proof.
  intros HI Hcpu. revert s HI. induction ids as [|i ids IH]; intros s HI Hnd Hids.
  - exists s. split; [done|]. split; [done|]. split; [done|]. by intros j p Hp.
  - apply NoDup_cons in Hnd as [Hni Hnd]. apply Forall_cons in Hids as [Hi Hids].
    destruct (inv_lookup _ _ i HI Hi) as (p&Hp&_).
    destruct (wakeup_at_run cpu ch i p s HI Hcpu Hp) as (s1&Hrun&HI1&HE1&Hpool).
    destruct (IH s1 HI1 Hnd Hids) as (s2&Hrun2&HI2&HE2&H2).
    exists s2. split; [simpl; unfold mbind, M_bind; by rewrite Hrun|]. split; [done|].
    split; [by etrans|]. intros j q Hq. destruct (decide (j = i)) as [->|Hne].
    + rewrite Hp in Hq. injection Hq as <-. rewrite (H2 i (if asleep_on ch p then woken cpu p else p)).
      * rewrite (bool_decide_eq_false_2 (i ∈ ids)), (bool_decide_eq_true_2 (i ∈ i :: ids)) by (done || left). done.
      * rewrite Hpool. apply list_lookup_insert_eq. by eapply lookup_lt_Some.
    + rewrite (H2 j q) by (by rewrite Hpool, list_lookup_insert_ne).
      by rewrite (bool_decide_ext (j ∈ i :: ids) (j ∈ ids)) by (rewrite elem_of_cons; naive_solver).
Qed.

(** [wakeup] makes exactly the processes sleeping on the channel
    runnable: afterwards none of them sleeps there, every other entry is
    unchanged, each woken process has been queued (it is in [waiting]), and
    the scheduling invariant holds.  A process that has recorded its channel
    before giving up the CPU is therefore never missed. *)
Theorem wakeup_correct cpu ch s :
  Inv s → (cpu < NCPU)%nat →
  ∃ s', wakeup cpu ch s = (Ok (), s') ∧ Inv s' ∧ same_env s s' ∧
    (∀ j p, pool s !! j = Some p →
       pool s' !! j = Some (if asleep_on ch p then woken cpu p else p) ∧
       (asleep_on ch p = true → j ∈ waiting s')).
Proof.
  intros HI Hcpu. destruct (wakeup_run cpu ch (seq 0 NPROC) s HI Hcpu (NoDup_seq _ _) all_ids)
    as (s'&Hrun&HI'&HE&H). exists s'. split; [done|]. split; [done|]. split; [done|].
  intros j p Hp. specialize (H j p Hp).
  rewrite bool_decide_eq_true_2 in H by (apply elem_of_seq; apply (lookup_range _ _ _ _ HI) in Hp; lia).
  split; [done|]. intros Ha. simpl in H. rewrite Ha in H.
  apply (iv_wait _ _ HI'). by rewrite (states_lookup _ _ _ H).
Qed.

(** A CPU that holds lock 99. *)
Definition holds_lock : Cpu := mkCpu 1 true false None [99%nat].

(** Init waits for its children, one of which exits on CPU 1. *)
Definition demo_sleepers : Sys :=
  run_acts [ASleep 0 holds_lock 99 77; APop 1; ARun 1; ARun 3; ASleep 3 holds_lock 99 78] demo_sys.

Lemma demo_sleepers_reach : reach demo_sleepers.
Proof.
  unfold demo_sleepers, run_acts. cbn [foldl].
  do 5 (eapply reach_step; [|step_enabled|vm_compute; discriminate]). apply demo_reach.
Qed.

(** A fork that fails while it copies the mmap areas leaves the child's slot
    allocated: after thirteen of them in this state no process can be
    created any more. *)
Example fork_failure_leaks_slot :
  let fail s := (fork 0 true None None (Some OutOfMemory) s).2 in
  (fork 0 true None None (Some OutOfMemory) demo_sys).1 = Err OutOfMemory ∧
  states (fail demo_sys) 3 = Some USED ∧
  (fork 0 true None None None (Nat.iter 13 fail demo_sys)).1 = Err WouldBlock.
Proof. vm_compute. repeat split. Qed.
