(* ===== verification/ProcSignals.v ===== *)
(** * Sending and delivering signals

    The life cycle of a signal: [kill] records it and wakes the target,
    [deliver_signals] enters the handler of the lowest pending signal, and
    [sigreturn] gives the interrupted registers back. *)

From stdpp Require Import base tactics numbers list.
From S2P Require Import Prelude Params Errors RunQueue Signal Spinlock Procs ProcsInv ProcsOps ProcSched.

(** Registers other than those a handler call sets. *)
Definition untouched (r : nat) : Prop := r ≠ tf_epc ∧ r ≠ tf_a0 ∧ r ≠ tf_ra.

Definition handler_frame (tf : Trapframe) (h sig restorer : Z) : Trapframe :=
  <[tf_ra := restorer]> (<[tf_a0 := sig]> (<[tf_epc := h]> tf)).

Lemma handler_frame_regs tf h sig restorer :
  length tf = 36%nat →
  handler_frame tf h sig restorer !! tf_epc = Some h ∧
  handler_frame tf h sig restorer !! tf_a0 = Some sig ∧
  handler_frame tf h sig restorer !! tf_ra = Some restorer ∧
  ∀ r, untouched r → handler_frame tf h sig restorer !! r = tf !! r.
Proof.
  intros Hl. unfold handler_frame. split; [|split; [|split]].
  - rewrite !list_lookup_insert_ne by done. apply list_lookup_insert_eq. rewrite Hl. unfold tf_epc. lia.
  - rewrite list_lookup_insert_ne by done. apply list_lookup_insert_eq. rewrite length_insert, Hl. unfold tf_a0. lia.
  - apply list_lookup_insert_eq. rewrite !length_insert, Hl. unfold tf_ra. lia.
  - intros r (?&?&?). by rewrite !list_lookup_insert_ne.
Qed.

(** The bits of a pending set with one signal taken out. *)
Lemma ldiff_mask_bits x sig k :
  (1 ≤ sig ≤ NSIG)%Z → (0 ≤ k)%Z →
  Z.testbit (Z.ldiff x (sig_mask sig)) k = Z.testbit x k && negb (bool_decide (k = sig - 1)%Z).
Proof. intros Hs Hk. by rewrite Z.ldiff_spec, sig_mask_testbit. Qed.

Lemma bind_mret {A B} (a : A) (f : A → PM B) s : ((mret a : PM A) ≫= f) s = f a s.
Proof. done. Qed.

Lemma bind_handler {B} n sig h (f : Z → PM B) s :
  sig_handlers n !! Z.to_nat (sig - 1) = Some h → (handler_of n sig ≫= f) s = f h s.
Proof. unfold mbind, M_bind, handler_of. by intros ->. Qed.

(** The process that runs on [cpu] has a signal for a handler of its own. *)
Record catches (s : Sys) (cpu i : nat) (p : Proc) (tf : Trapframe) (sig h : Z) : Prop := {
  ca_cpu : cpu_proc s !! cpu = Some (Some i);
  ca_proc : pool s !! i = Some p;
  ca_tf : trapframe (pdata p) = Some tf;
  ca_len : length tf = 36%nat;
  ca_idle : sig_active (pdata p) = false;
  ca_pending : sig_pending (inner p) ≠ 0%Z;
  ca_sig : sig = (trailing_zeros (sig_pending (inner p)) + 1)%Z;
  ca_kill : sig ≠ SIGKILL;
  ca_handler : sig_handlers (inner p) !! Z.to_nat (sig - 1) = Some h;
  ca_user : h ≠ SIG_IGN ∧ h ≠ SIG_DFL;
  ca_restorer : sig_restorer (pdata p) ≠ 0%Z;
}.

(** The entry during the handler. *)
Definition in_handler (p : Proc) (tf : Trapframe) (sig h : Z) : Proc :=
  let g1 := set_pending (Z.ldiff (sig_pending (inner p)) (sig_mask sig)) (inner p) in
  mkProc (if (sig =? SIGCONT)%Z then set_stop (stop_sig g1) (stop_reported g1) false g1 else g1)
    (mkProcData (Some (handler_frame tf h sig (sig_restorer (pdata p)))) tf true (sig_restorer (pdata p))
       (is_thread (pdata p)) (ustack (pdata p))) (p_ptr p).

Lemma deliver_catches s cpu k i p tf sig h :
  at_rest k → catches s cpu i p tf sig h →
  deliver_signals cpu k s = (Ok (), with_pool <[i := in_handler p tf sig h]> s).
Proof.
  intros Hrest [Hc Hp Htf Hl Hidle Hpd Hsig Hk Hh [Hu1 Hu2] Hr]. unfold deliver_signals.
  rewrite (bind_myproc _ i), (bind_get_proc i p), Hidle by done.
  destruct (lock_rest (L_inner i) k s Hrest) as (k1 & Hk1 & _). rewrite (bind_ok _ _ _ _ _ Hk1).
  rewrite (proj2 (Z.eqb_neq _ _) Hpd). rewrite <-Hsig. rewrite (proj2 (Z.eqb_neq _ _) Hk).
  rewrite (bind_handler _ _ h) by done.
  rewrite (proj2 (Z.eqb_neq _ _) Hu1), (proj2 (Z.eqb_neq _ _) Hu2), (proj2 (Z.eqb_neq _ _) Hr), Htf.
  unfold in_handler, put_proc. by destruct (sig =? SIGCONT)%Z.
Qed.

(** ** What happens while a handler runs

    The process is alive, inside a handler, and its registers from before the
    signal are saved. *)
Section saved.
Context (i : nat) (tf : Trapframe).

Definition in_signal (p : Proc) : Prop :=
  state (inner p) ≠ UNUSED ∧ state (inner p) ≠ ZOMBIE ∧ sig_active (pdata p) = true ∧ sig_trapframe (pdata p) = tf ∧
  is_Some (trapframe (pdata p)).
Definition saved (s : Sys) : Prop := ∃ p, pool s !! i = Some p ∧ in_signal p.

(** Running [m] in [s] keeps it so, whatever the outcome. *)
Definition K {A} (m : PM A) (s : Sys) : Prop := saved s → saved (m s).2.

Lemma K_know {A} (m : PM A) s : (saved s → K m s) → K m s.
Proof. intros H Hs. by apply H. Qed.
Lemma K_bind {A B} (m : PM A) (f : A → PM B) s : K m s → (∀ a s', K (f a) s') → K (m ≫= f) s.
Proof. unfold K, mbind, M_bind. intros Hm Hf Hs. specialize (Hm Hs). destruct (m s) as [[a|e|] s']; [by apply Hf|done..]. Qed.
Lemma K_mget {A} (f : Sys → PM A) s : K (f s) s → K (m_get ≫= f) s.
Proof. done. Qed.
Lemma K_get {A} j (f : Proc → PM A) s : (∀ p, pool s !! j = Some p → K (f p) s) → K (get_proc j ≫= f) s.
Proof. unfold K, mbind, M_bind, get_proc. intros Hf Hs. destruct (pool s !! j) eqn:E; [by apply Hf|done]. Qed.
Lemma K_myproc {A} cpu (f : nat → PM A) s : (∀ j, cpu_proc s !! cpu = Some (Some j) → K (f j) s) → K (myproc cpu ≫= f) s.
Proof. unfold K, mbind, M_bind, myproc. intros Hf Hs. destruct (cpu_proc s !! cpu) as [[j|]|] eqn:E; [by apply Hf|done..]. Qed.
Lemma K_cpu {A} r (f : Cpu → PM A) s : (∀ k', K (f k') s) → K (locks_m r ≫= f) s.
Proof. intros Hf Hs. destruct r as [k'| |]; [by apply (Hf k')|done..]. Qed.
Lemma K_handler {A} n sig (f : Z → PM A) s : (∀ h, K (f h) s) → K (handler_of n sig ≫= f) s.
Proof. unfold K, mbind, M_bind, handler_of. intros Hf Hs. destruct (sig_handlers n !! _); [by apply Hf|done]. Qed.
Ltac kd := solve [intros; intros ?; assumption | intros; intros (? & ? & ?); eexists; split; [eassumption|done]].
Lemma K_for {A} (l : list A) f s : (∀ x s', K (f x) s') → K (m_for l f) s.
Proof. intros Hf. revert s. induction l as [|x l IH]; intros s; [kd|]. cbn. apply K_bind; auto. Qed.

(** An entry is replaced: another one, or by one that is still in the
    handler. *)
Lemma K_put j p q s : pool s !! j = Some p → (in_signal p → in_signal q) → K (put_proc j q) s.
Proof.
  intros Hj Hq (p' & Hp & Hs). unfold saved. cbn. destruct (decide (j = i)) as [->|Hne].
  - exists q. rewrite list_lookup_insert_eq by by eapply lookup_lt_Some. split; [done|]. apply Hq. congruence.
  - exists p'. by rewrite list_lookup_insert_ne.
Qed.
Lemma K_put_inner j p g s : pool s !! j = Some p → (state g = state (inner p) ∨ (state g ≠ UNUSED ∧ state g ≠ ZOMBIE)) → K (put_inner j p g) s.
Proof. intros Hp Hg. eapply K_put; [done|]. intros (H1 & H2 & H3). destruct Hg as [Hg|[? ?]]; split; cbn; [congruence|split; [congruence|done]|done|by split]. Qed.
Lemma K_bind_put {A} j p g (f : () → PM A) s : pool s !! j = Some p → (state g = state (inner p) ∨ (state g ≠ UNUSED ∧ state g ≠ ZOMBIE)) →
  (∀ s', K (f ()) s') → K (put_inner j p g ≫= f) s.
Proof. intros. apply K_bind; [by apply K_put_inner|]. by intros []. Qed.

Lemma K_make_runnable cpu j s : K (make_runnable cpu j) s.
Proof.
  unfold make_runnable. apply K_get. intros p Hp. case_match; [|kd]. apply K_bind_put; [done|by right|]. intros s'. apply K_mget. case_match; kd.
Qed.
Lemma K_wakeup_at cpu ch j s : K (wakeup_at cpu ch j) s.
Proof. unfold wakeup_at. apply K_mget. case_match; [kd|]. apply K_get. intros p Hp. case_match; [apply K_make_runnable|kd]. Qed.
Lemma K_wakeup cpu ch s : K (wakeup cpu ch) s.
Proof. apply K_for. intros. apply K_wakeup_at. Qed.
Lemma K_sched cpu j k s : K (sched cpu j k) s.
Proof. unfold sched. apply K_get. intros p Hp. repeat case_match; kd. Qed.
Lemma K_sleep cpu k m ch s : K (sleep cpu k m ch) s.
Proof.
  unfold sleep. apply K_myproc. intros j Hj. do 2 (apply K_cpu; intros ?). apply K_get. intros p Hp.
  apply K_bind_put; [done|by right|]. intros s'. apply K_sched.
Qed.
Lemma K_sleep_then {A} cpu k m ch (r : A) s : K (_ ← sleep cpu k m ch; mret r : PM A) s.
Proof. apply K_bind; [apply K_sleep|kd]. Qed.

(** What happens to other entries does not matter. *)
Lemma K_put_ne j q s : j ≠ i → K (put_proc j q) s.
Proof. intros Hj (p & Hp & Hs). exists p. cbn. by rewrite list_lookup_insert_ne. Qed.
Lemma K_free_ne j s : j ≠ i → K (proc_free j) s.
Proof. intros Hj. unfold proc_free. apply K_get. intros p Hp. by apply K_put_ne. Qed.
Lemma saved_ne j p s : saved s → pool s !! j = Some p → state (inner p) = UNUSED ∨ state (inner p) = ZOMBIE → j ≠ i.
Proof. intros (q & Hq & H1 & H2 & _) Hp Hst ->. simplify_eq. naive_solver. Qed.
Lemma K_reap j s : j ≠ i → K (reap j) s.
Proof. intros Hj. unfold reap. apply K_bind; [by apply K_free_ne|]. intros. apply K_mget. kd. Qed.

Lemma K_alloc tf_ok uvm ids s : K (procs_alloc_loop tf_ok uvm ids) s.
Proof.
  revert s. induction ids as [|c ids IH]; intros s; [kd|]. cbn [procs_alloc_loop]. apply K_get. intros p Hp.
  case_bool_decide as Hu; [|apply IH]. apply K_know. intros Hs. assert (c ≠ i) as Hc by (eapply saved_ne; eauto).
  apply K_bind; [kd|]. intros n s1. destruct tf_ok; [destruct uvm|]; (apply K_bind; [by apply K_put_ne|]; intros [] s2).
  - apply K_bind; [by apply K_free_ne|kd].
  - kd.
  - apply K_bind; [by apply K_free_ne|kd].
Qed.
Lemma K_on_tick_at cpu now j s : K (on_tick_at cpu now j) s.
Proof.
  unfold on_tick_at. apply K_get. intros p Hp. do 3 (case_match; [kd|]). apply K_bind_put; [done|by left|]. intros s'.
  case_match; [apply K_make_runnable|kd].
Qed.
Lemma K_post_signal cpu j sig s : K (post_signal cpu j sig) s.
Proof.
  unfold post_signal. apply K_get. intros p Hp. apply K_handler. intros h.
  set (g1 := if terminates sig h then _ else _). assert (state g1 = state (inner p)) as Hg1 by (unfold g1; by destruct (terminates sig h)).
  destruct (negb _ && _); [apply K_put_inner; [done|by left]|].
  apply K_bind_put; [done|left; by destruct (sig =? SIGCONT)%Z|]. intros s'. apply K_bind; [destruct (_ && _); [apply K_make_runnable|kd]|].
  intros _ s2. apply K_get. intros q Hq. case_match; [apply K_make_runnable|kd].
Qed.
Lemma K_deliver cpu k s : K (deliver_signals cpu k) s.
Proof.
  unfold deliver_signals. apply K_myproc. intros j Hj. apply K_get. intros p Hp. destruct (sig_active (pdata p)) eqn:Ea; [kd|].
  assert (in_signal p → False) as Hn by (intros (_ & _ & E & _); congruence).
  apply K_know. intros (q & Hq & Hs). assert (j ≠ i) as Hj' by (intros ->; simplify_eq; done).
  apply K_cpu. intros k1. case_match; [kd|]. case_match; [by apply K_put_ne|]. apply K_handler. intros h.
  do 2 (case_match; [try by apply K_put_ne|]).
  - case_match; try by apply K_put_ne. apply K_bind; [by apply K_put_ne|]. intros _ s1. apply K_cpu. intros k2. apply K_mget. apply K_cpu. intros k3.
    apply K_bind; [case_match; [apply K_get; intros; apply K_wakeup|kd]|]. intros _ s2. apply K_sched.
  - case_match; [by apply K_put_ne|]. case_match; [by apply K_put_ne|kd].
Qed.
Lemma K_sigaction cpu sig h r s : K (sigaction cpu sig h r) s.
Proof.
  unfold sigaction. do 2 (case_match; [kd|]). apply K_myproc. intros j Hj. apply K_get. intros p Hp. apply K_handler. intros pr.
  case_match; [kd|]. apply K_bind; [|kd]. eapply K_put; [done|]. intros (? & ? & ? & ? & ?). case_match; by split_and!.
Qed.
Lemma K_user_run cpu regs s : K (user_run cpu regs) s.
Proof.
  unfold user_run. apply K_myproc. intros j Hj. apply K_get. intros p Hp. case_match; [|kd]. eapply K_put; [done|]. intros (? & ? & ? & ? & ?). by split_and!.
Qed.
Lemma K_setpgid cpu a b s : K (setpgid cpu a b) s.
Proof.
  unfold setpgid. apply K_myproc. intros j Hj. apply K_get. intros p Hp. generalize (if (a =? 0)%Z then pid (inner p) else a). intros tgt.
  generalize (if (b =? 0)%Z then tgt else b). intros new. destruct (new =? 0)%Z; [kd|]. generalize (seq 0 NPROC). intros ids.
  induction ids as [|c ids IH]; [kd|]. cbn [setpgid_loop]. apply K_get. intros q Hq. destruct (negb _); [apply IH|].
  destruct (negb _); [kd|]. destruct (_ =? _)%Z; [kd|]. apply K_mget. destruct (_ && _); [kd|]. apply K_put_inner; [done|by left].
Qed.
(** A new child is another process. *)
Lemma alloc_ne tf_ok uvm ids s c s' : saved s → procs_alloc_loop tf_ok uvm ids s = (Ok c, s') → c ≠ i.
Proof.
  intros Hs. revert s Hs. induction ids as [|c' ids IH]; intros s Hs E; [done|]. cbn [procs_alloc_loop] in E. unfold mbind at 1, M_bind, get_proc at 1 in E.
  destruct (pool s !! c') as [p|] eqn:Hp; [|done]. case_bool_decide as Hu; [|by eapply IH]. assert (c' ≠ i) as Hc by (eapply saved_ne; eauto).
  unfold PId_alloc, mbind, M_bind, put_inner, put_proc, proc_free, m_err, get_proc in E. cbn in E.
  destruct tf_ok; [destruct uvm|]; [|by injection E as <-|]; match type of E with (let (_, _) := ?X in _) = _ => destruct X as [[[]|?|] ?] end; done.
Qed.
Lemma K_child {A} tf_ok uvm (f : nat → PM A) s : (∀ c s', c ≠ i → K (f c) s') → K (procs_alloc tf_ok uvm ≫= f) s.
Proof.
  intros Hf Hs. unfold procs_alloc, mbind, M_bind. pose proof (K_alloc tf_ok uvm (seq 0 NPROC) s Hs) as H.
  destruct (procs_alloc_loop tf_ok uvm (seq 0 NPROC) s) as [[c|e|] s'] eqn:E; [|done..]. apply Hf; [exact (alloc_ne _ _ _ _ _ _ Hs E)|exact H].
Qed.
Lemma K_start_child cpu me c s : K (start_child cpu me c) s.
Proof.
  unfold start_child. apply K_mget. apply K_bind; [kd|]. intros _ s1. apply K_get. intros q Hq. apply K_bind; [apply K_make_runnable|kd].
Qed.
Lemma K_fork cpu tf_ok uvm copy vmas s : K (fork cpu tf_ok uvm copy vmas) s.
Proof.
  unfold fork. apply K_myproc. intros j Hj. apply K_get. intros p Hp. apply K_child. intros c s1 Hc. destruct copy; [kd|].
  apply K_get. intros q Hq. destruct (trapframe (pdata p)), (trapframe (pdata q)); try kd. apply K_bind; [by apply K_put_ne|].
  intros _ s2. destruct vmas; [kd|apply K_start_child].
Qed.
Lemma K_clone cpu sz tf_ok uvm map f a b st s : K (clone cpu sz tf_ok uvm map f a b st) s.
Proof.
  unfold clone. apply K_myproc. intros j Hj. apply K_get. intros p Hp. do 2 (destruct (_ || _); [kd|]). apply K_child. intros c s1 Hc. destruct map; [kd|].
  apply K_get. intros q Hq. destruct (trapframe (pdata p)), (trapframe (pdata q)); try kd. apply K_bind; [by apply K_put_ne|].
  intros _ s2. apply K_start_child.
Qed.
Lemma K_exit cpu k st s : cpu_proc s !! cpu ≠ Some (Some i) → K (exit cpu k st) s.
Proof.
  intros Hne. unfold exit. apply K_myproc. intros j Hj. assert (j ≠ i) as Hji by congruence. apply K_mget. case_bool_decide; [kd|]. apply K_cpu. intros k1.
  apply K_bind.
  { apply K_for. intros c s'. unfold reparent_at. apply K_mget. case_bool_decide; [|kd]. destruct (INITPROC s'); [|kd].
    apply K_bind; [kd|]. intros _ s2. apply K_get. intros ip _. apply K_wakeup. }
  intros _ s1. apply K_mget. destruct (mjoin _) as [par|]; [|kd]. apply K_get. intros pp _. apply K_bind; [apply K_wakeup|]. intros _ s2. apply K_cpu. intros k2.
  apply K_get. intros p _. apply K_bind; [by apply K_put_ne|]. intros _ s3. apply K_cpu. intros k3. apply K_sched.
Qed.
Lemma K_zombie {A} c p (f : () → PM A) s : pool s !! c = Some p → state (inner p) = ZOMBIE → (∀ s', K (f ()) s') → K (reap c ≫= f) s.
Proof. intros Hp Hz Hf. apply K_know. intros Hs. apply K_bind; [apply K_reap; eapply saved_ne; eauto|]. intros [] s'. apply Hf. Qed.
Lemma K_waitpid cp cpu k which options s : K (waitpid_pass cp cpu k which options) s.
Proof.
  unfold waitpid_pass. apply K_myproc. intros j Hj. destruct (which <? -1)%Z; [kd|]. apply K_cpu. intros k1. apply K_bind.
  - generalize (if (0 <? which)%Z then Some which else None). intros want. generalize false. revert s Hj. generalize (seq 0 NPROC). intros ids.
    induction ids as [|c ids IH]; intros s Hj hk; [kd|]. cbn [waitpid_scan]. apply K_mget. destruct (negb _); [by apply IH|]. apply K_get. intros p Hp.
    destruct (is_thread _); [by apply IH|]. destruct (negb _); [by apply IH|].
    destruct (_ && _); [destruct (cp _); [kd|]; apply K_bind_put; [done|by left|kd]|].
    destruct (_ && _); [destruct (cp _); [kd|]; apply K_bind_put; [done|by left|kd]|].
    case_bool_decide as Hz; [|by apply IH]. destruct (cp _); [kd|]. eapply K_zombie; [done|done|kd].
  - intros [[r|] hk] s1; [kd|]. destruct (negb (_ =? 0)%Z); [kd|]. apply K_get. intros p Hp. destruct (_ || _); [kd|].
    apply K_bind_put; [done|by left|]. intros s2. destruct (negb _); [kd|]. apply K_sleep_then.
Qed.
Lemma K_join cp cpu k s : K (join_pass cp cpu k) s.
Proof.
  unfold join_pass. apply K_myproc. intros j Hj. apply K_cpu. intros k1. apply K_bind.
  - generalize false. generalize (seq 0 NPROC). intros ids. induction ids as [|c ids IH]; intros hk; [kd|]. cbn [join_scan]. apply K_mget.
    destruct (negb _); [apply IH|]. apply K_get. intros p Hp. destruct (negb _); [apply IH|]. case_bool_decide as Hz; [|apply IH].
    destruct (cp _); [kd|]. eapply K_zombie; [done|done|kd].
  - intros [[r|] hk] s1; [kd|]. apply K_get. intros p Hp. destruct (_ || _); [kd|]. apply K_sleep_then.
Qed.
Lemma K_is_thread {A} me c (f : bool → PM A) s : (∀ b, K (f b) s) → K (is_thread_of me c ≫= f) s.
Proof. intros Hf Hs. unfold is_thread_of, mbind, M_bind, m_get, get_proc. destruct (pool s !! c); [by apply Hf|done]. Qed.
Lemma K_kill_threads cpu me s : K (kill_threads cpu me) s.
Proof.
  apply K_for. intros c s'. unfold kill_thread_at. apply K_is_thread. intros [|]; [|kd]. apply K_get. intros p Hp.
  apply K_bind_put; [done|by left|]. intros s2. case_bool_decide; [apply K_make_runnable|kd].
Qed.
Lemma K_reap_threads cpu k s : K (reap_threads_pass cpu k) s.
Proof.
  unfold reap_threads_pass. apply K_myproc. intros j Hj. apply K_cpu. intros k1. apply K_bind.
  - generalize false. clear Hj. revert s. generalize (seq 0 NPROC). intros ids. induction ids as [|c ids IH]; intros s hk; [kd|]. cbn [reap_threads_scan].
    apply K_is_thread. intros [|]; [|apply IH]. apply K_get. intros p Hp. case_bool_decide as Hz; [eapply K_zombie; [done|done|]; intros; apply IH|].
    apply K_bind; [kd|]. intros. apply IH.
  - intros hk s1. destruct (negb _); [kd|]. apply K_get. intros p Hp. destruct (killed _); [kd|]. apply K_sleep_then.
Qed.

(** The process leaves its handler, or exits. *)
Definition leaves (a : action) (s : Sys) : Prop :=
  match a with ASigreturn cpu | AExit cpu _ _ => cpu_proc s !! cpu = Some (Some i) | _ => False end.

Lemma exec_saved a s : saved s → ¬ leaves a s → saved (exec a s).2.
Proof.
  intros Hs Hl. revert Hs. change (K (exec a) s). destruct a; cbn [exec leaves] in *; unfold discard; try (apply K_bind; [|kd]).
  - unfold user_init. intros Hs. pose proof (K_alloc true None (seq 0 NPROC) s Hs) as H. unfold procs_alloc. destruct (procs_alloc_loop _ _ _ s) as [[c|e|] s1]; [|done..].
    by apply K_make_runnable.
  - unfold sched_pop. apply K_mget. case_match; try kd. repeat case_match; kd.
  - unfold sched_run. apply K_mget. case_match; [|kd]. apply K_get. intros p Hp. case_match; [kd|]. apply K_bind_put; [done|by right|]. kd.
  - apply K_user_run.
  - unfold yielding. apply K_myproc. intros j Hj. apply K_cpu. intros k1. apply K_bind; [apply K_make_runnable|]. intros. apply K_sched.
  - apply K_sleep.
  - unfold sleep_resume. apply K_myproc. intros j Hj. apply K_get. intros p Hp. apply K_put_inner; [done|by left].
  - apply K_wakeup_at.
  - apply K_on_tick_at.
  - apply K_post_signal.
  - apply K_deliver.
  - unfold sigreturn. apply K_myproc. intros j Hj. apply K_get. intros p Hp. case_match; [kd|]. case_match; [|kd]. apply K_put_ne. congruence.
  - apply K_sigaction.
  - unfold setitimer. apply K_myproc. intros j Hj. apply K_get. intros p Hp. destruct (initial =? 0)%Z; [apply K_bind_put; [done|by left|kd]|].
    case_match; [apply K_bind_put; [done|by left|kd]|kd].
  - apply K_setpgid.
  - unfold setsid. apply K_myproc. intros j Hj. apply K_get. intros p Hp. case_match; [kd|]. apply K_bind_put; [done|by left|kd].
  - apply K_fork.
  - apply K_clone.
  - by apply K_exit.
  - apply K_waitpid.
  - apply K_join.
  - apply K_kill_threads.
  - apply K_reap_threads.
Qed.
End saved.
(** A step of the system that does not end the handler of [i]. *)
Definition in_handler_step (i : nat) (s : Sys) (a : action) (s' : Sys) : Prop :=
  enabled a s ∧ (exec a s).1 ≠ Panic ∧ ¬ leaves i a s ∧ s' = (exec a s).2.

Lemma steps_saved i tf s l s' : saved i tf s → lsteps (in_handler_step i) s l s' → saved i tf s'.
Proof. intros Hs Hr. induction Hr as [|s1 a s2 l s3 (_ & _ & Hl & ->) _ IH]; [done|]. by apply IH, exec_saved. Qed.

(** C@: A caught signal interrupts the process transparently.  The handler of
    the lowest pending signal is entered with that signal in [a0], the
    restorer as return address and every other register as it was, and only
    this signal leaves the pending set.  Then let anything happen: the handler
    runs in user mode and leaves any registers, makes system calls, sleeps, is
    moved to another CPU, forks, gets more signals, while all other processes
    run.  As long as it neither returns nor exits no other signal is
    delivered to it, and when it calls [sigreturn] all registers of the
    interrupted program are back, the next signal can come, and nothing else
    has changed. *)
Theorem signal_roundtrip s cpu k i p tf sig h :
  Inv s → at_rest k → catches s cpu i p tf sig h →
  ∃ s1 p1,
    deliver_signals cpu k s = (Ok (), s1) ∧ pool s1 !! i = Some p1 ∧
    (∃ tf1, trapframe (pdata p1) = Some tf1 ∧ tf1 !! tf_epc = Some h ∧ tf1 !! tf_a0 = Some sig ∧
       tf1 !! tf_ra = Some (sig_restorer (pdata p)) ∧ ∀ r, untouched r → tf1 !! r = tf !! r) ∧
    (∀ k, (0 ≤ k)%Z → Z.testbit (sig_pending (inner p1)) k =
                      Z.testbit (sig_pending (inner p)) k && negb (bool_decide (k = sig - 1)%Z)) ∧
    (∀ k, (0 ≤ k < sig - 1)%Z → Z.testbit (sig_pending (inner p)) k = false) ∧
    (∀ j, j ≠ i → pool s1 !! j = pool s !! j) ∧
    ∀ acts s2 cpu', lsteps (in_handler_step i) s1 acts s2 → cpu_proc s2 !! cpu' = Some (Some i) →
      (∀ k', deliver_signals cpu' k' s2 = (Ok (), s2)) ∧
      ∃ p2 s3 p3, pool s2 !! i = Some p2 ∧ sigreturn cpu' s2 = (Ok (), s3) ∧ pool s3 !! i = Some p3 ∧
        trapframe (pdata p3) = Some tf ∧ sig_active (pdata p3) = false ∧ inner p3 = inner p2 ∧
        sig_restorer (pdata p3) = sig_restorer (pdata p2) ∧ ∀ j, j ≠ i → pool s3 !! j = pool s2 !! j.
Proof.
  intros HI Hrest Hca. pose proof (deliver_catches _ _ _ _ _ _ _ _ Hrest Hca) as Hdel.
  destruct Hca as [Hc Hp Htf Hl Hidle Hpd Hsig Hk Hh Hu Hr].
  set (p1 := in_handler p tf sig h). set (s1 := with_pool <[i := p1]> s) in *.
  pose proof (put_lookup s i p p1 Hp) as Hp1. fold s1 in Hp1.
  destruct (trailing_zeros_spec _ (pw_pending _ (inv_lookup_wf _ _ _ _ HI Hp)) Hpd) as (Htz&_&Hlow).
  assert (Hrange : (1 ≤ sig ≤ NSIG)%Z) by (unfold NSIG; lia).
  destruct (inv_runs cpu s i HI Hc) as (p' & (_ & Hp' & Hrun) & _). rewrite Hp in Hp'. injection Hp' as <-.
  assert (Hst : state (inner p1) = RUNNING) by (unfold p1, in_handler; by destruct (sig =? SIGCONT)%Z).
  assert (Hsv : saved i tf s1).
  { exists p1. split; [done|]. unfold in_signal. rewrite Hst. by split_and!. }
  exists s1, p1. split; [done|]. split; [done|].
  split; [eexists; split; [done|]; by apply handler_frame_regs|].
  split. { intros b Hb. rewrite <-ldiff_mask_bits by done. unfold p1, in_handler. by destruct (sig =? SIGCONT)%Z. }
  split; [intros b Hb; apply Hlow; lia|]. split; [intros j Hj; cbn; by rewrite list_lookup_insert_ne|].
  intros acts s2 cpu' Hsteps Hc2. destruct (steps_saved _ _ _ _ _ Hsv Hsteps) as (p2 & Hp2 & _ & _ & Ha & Hsf & [tf2 Htf2]). split.
  { intros k'. unfold deliver_signals. by rewrite (bind_myproc _ i), (bind_get_proc i p2), Ha. }
  set (p3 := mkProc (inner p2) (mkProcData (Some tf) tf false (sig_restorer (pdata p2)) (is_thread (pdata p2)) (ustack (pdata p2))) (p_ptr p2)).
  exists p2, (with_pool <[i := p3]> s2), p3. split; [done|]. split.
  { unfold sigreturn. by rewrite (bind_myproc _ i), (bind_get_proc i p2), Ha, Htf2, Hsf. }
  split; [by apply (put_lookup s2 i p2)|]. do 4 (split; [done|]). intros j Hj. cbn. by rewrite list_lookup_insert_ne.
Qed.

(** Init installs a handler for SIGUSR1 (signal 10) and sends itself that
    signal and SIGALRM (14). *)
Definition demo_signal : Sys :=
  run_acts [ASigaction 0 10 5000 6000; ASignalAt 0 0 14; ASignalAt 0 0 10] demo_sys.
Definition demo_frame : Trapframe := Trapframe_default.

Lemma demo_signal_reach : reach demo_signal.
Proof.
  unfold demo_signal, run_acts. cbn [foldl].
  eapply reach_step; [eapply reach_step; [eapply reach_step; [apply demo_reach|..]|..]|..]; try (vm_compute; discriminate).
  - split; [|done]. split; [vm_compute; lia|]. exists 0%nat. vm_compute. reflexivity.
  - split; [vm_compute; lia|]. split; [vm_compute; lia|]. vm_compute. by split.
  - split; [vm_compute; lia|]. split; [vm_compute; lia|]. vm_compute. by split.
Qed.

Definition demo_proc : Proc :=
  default (mkProc ProcInner_new ProcData_new 0) (pool demo_signal !! 0%nat).
Definition unlocked : Cpu := mkCpu 0 false true None [].

(** The handler overwrites every register and returns. *)
Lemma signal_roundtrip_witness :
  catches demo_signal 0 0 demo_proc demo_frame 10 5000 ∧
  ∃ s1 s3 p3, deliver_signals 0 unlocked demo_signal = (Ok (), s1) ∧
    sigreturn 0 (exec (AUser 0 (replicate 36 7%Z)) s1).2 = (Ok (), s3) ∧ pool s3 !! 0%nat = Some p3 ∧ trapframe (pdata p3) = Some demo_frame.
Proof.
  assert (Hca : catches demo_signal 0 0 demo_proc demo_frame 10 5000).
  { split; vm_compute; first [reflexivity|discriminate|split; discriminate]. }
  split; [exact Hca|].
  destruct (signal_roundtrip demo_signal 0 unlocked 0 demo_proc demo_frame 10 5000 (reach_inv _ demo_signal_reach) (conj eq_refl eq_refl) Hca)
    as (s1&p1&H1&_&_&_&_&_&H2).
  assert (s1 = (deliver_signals 0 unlocked demo_signal).2) as E1 by (by rewrite H1).
  destruct (H2 [AUser 0 (replicate 36 7%Z)] (exec (AUser 0 (replicate 36 7%Z)) s1).2 0%nat) as (_ & p2 & s3 & p3 & _ & H3 & H4 & H5 & _).
  - eapply LS_cons; [|apply LS_nil]. subst s1. split_and!; [|vm_compute; discriminate|by intros []|reflexivity]. split; [vm_compute; lia|]. eexists. vm_compute. reflexivity.
  - subst s1. vm_compute. reflexivity.
  - exists s1, s3, p3. split_and!; [exact H1|exact H3|exact H4|exact H5].
Defined.

(** ** Sending *)

Definition ignored (sig h : Z) : bool := negb (sig =? SIGKILL)%Z && (h =? SIG_IGN)%Z.

(** Whether the signal makes its target runnable. *)
Definition wakes (sig h : Z) (st : ProcState) : bool :=
  match st with
  | SLEEPING => true
  | STOPPED => (sig =? SIGCONT)%Z || terminates sig h
  | _ => false
  end.

Definition signalled (sig h : Z) (g : ProcInner) : ProcInner :=
  let g1 := if terminates sig h then set_killed true g else g in
  if ignored sig h then g1
  else
    let g2 := if (sig =? SIGCONT)%Z then set_stop 0 false true g1 else g1 in
    set_pending (Z.lor (sig_pending g2) (sig_mask sig)) g2.

Lemma signalled_fields sig h g :
  state (signalled sig h g) = state g ∧ sig_handlers (signalled sig h g) = sig_handlers g ∧
  killed (signalled sig h g) = killed g || terminates sig h ∧
  sig_pending (signalled sig h g) = (if ignored sig h then sig_pending g else Z.lor (sig_pending g) (sig_mask sig)).
Proof.
  unfold signalled. destruct (terminates sig h), (ignored sig h), (sig =? SIGCONT)%Z;
    repeat split; simpl; by rewrite ?orb_true_r, ?orb_false_r.
Qed.

Lemma post_signal_run cpu idx sig s p h :
  Inv s → (cpu < NCPU)%nat → (1 ≤ sig ≤ NSIG)%Z → pool s !! idx = Some p →
  sig_handlers (inner p) !! Z.to_nat (sig - 1) = Some h →
  let q := mkProc (signalled sig h (inner p)) (pdata p) (p_ptr p) in
  let q' := if negb (ignored sig h) && wakes sig h (state (inner p)) then woken cpu q else q in
  ∃ s', post_signal cpu idx sig s = (Ok (), s') ∧ Inv s' ∧ same_env s s' ∧ pool s' = <[idx := q']> (pool s).
Proof.
  intros HI Hcpu Hsig Hp Hh q q'. pose proof (inv_lookup_wf _ _ _ _ HI Hp) as Hwf.
  destruct (signalled_fields sig h (inner p)) as (Hst&Hhs&_&Hpd).
  assert (Hq : proc_wf q).
  { unfold q. apply (proc_wf_upd p); simpl; [done|by rewrite Hhs| |rewrite Hst; apply Hwf].
    rewrite Hpd. destruct (ignored sig h); pose proof (pw_pending _ Hwf); auto with kernel. }
  assert (Hk1 : kept (cpu_proc s) s (with_pool <[idx := q]> s)) by (by eapply kept_put; [apply inv_kept|..]).
  pose proof (kept_inv _ _ Hk1) as HI1. pose proof (put_lookup s idx p q Hp) as Hp1.
  unfold post_signal. rewrite (bind_get_proc idx p), (bind_handler _ _ h) by done.
  fold (ignored sig h). unfold q'. destruct (ignored sig h) eqn:Hig.
  { exists (with_pool <[idx := q]> s). split; [|done]. unfold q, signalled. by rewrite Hig. }
  set (g2 := if (sig =? SIGCONT)%Z then _ else _).
  assert (Hqe : put_inner idx p (set_pending (Z.lor (sig_pending g2) (sig_mask sig)) g2) s =
                (Ok (), with_pool <[idx := q]> s)) by (unfold q, signalled; by rewrite Hig).
  unfold mbind at 1, M_bind at 1. rewrite Hqe. clear Hqe g2.
  assert (Hpush : wakes sig h (state (inner p)) = true →
    ∃ s', make_runnable cpu idx (with_pool <[idx := q]> s) = (Ok (), s') ∧ Inv s' ∧ same_env s s' ∧
          pool s' = <[idx := woken cpu q]> (pool s)).
  { intros Hw. destruct (push_inv (cpu_proc s) (with_pool <[idx := q]> s) idx q cpu) as (r&Hr&HI2&_); try done.
    - simpl. rewrite Hst. by destruct (state (inner p)).
    - simpl. rewrite Hst. by destruct (state (inner p)).
    - apply (iv_alive _ _ HI idx (state (inner p))); [by apply states_lookup|]. by destruct (state (inner p)).
    - rewrite (make_runnable_run _ idx q cpu r); [|done| |done]; [|simpl; rewrite Hst; by destruct (state (inner p))].
      eexists. split; [done|]. split; [done|]. split; [by split|]. simpl. by rewrite list_insert_insert_eq. }
  destruct (wakes sig h (state (inner p))) eqn:Hw; simpl.
  - destruct (Hpush eq_refl) as (s'&Hrun&HI'&HE'&Hpool).
    assert (Hp' : pool s' !! idx = Some (woken cpu q)).
    { rewrite Hpool. apply list_lookup_insert_eq. by eapply lookup_lt_Some. }
    exists s'. split; [|done]. destruct (state (inner p)) eqn:Hs; try done; simpl in Hw |- *.
    + rewrite bind_mret. rewrite (bind_get_proc idx q) by done.
      rewrite bool_decide_eq_true_2 by (simpl; by rewrite Hst). done.
    + rewrite Hw. unfold mbind at 1, M_bind at 1. rewrite Hrun. rewrite (bind_get_proc idx (woken cpu q)) by done.
      by rewrite bool_decide_eq_false_2.
  - exists (with_pool <[idx := q]> s). split; [|by split; [|split]].
    assert (Hno : bool_decide (state (inner p) = STOPPED) && ((sig =? SIGCONT)%Z || terminates sig h) = false).
    { by destruct (state (inner p)). }
    rewrite Hno. rewrite bind_mret. rewrite (bind_get_proc idx q) by done.
    rewrite bool_decide_eq_false_2; [done|]. simpl. rewrite Hst. intros Hs. by rewrite Hs in Hw.
Qed.

Lemma kill_loop_find cpu target sig ids s :
  Forall (λ i, is_Some (pool s !! i)) ids →
  (Forall (λ i, ∀ p, pool s !! i = Some p → pid (inner p) ≠ target) ids ∧
     kill_loop cpu target sig ids s = (Err NoSuchProcess, s)) ∨
  (∃ l1 idx l2 p, ids = l1 ++ idx :: l2 ∧ pool s !! idx = Some p ∧ pid (inner p) = target ∧
     Forall (λ i, ∀ p, pool s !! i = Some p → pid (inner p) ≠ target) l1 ∧
     kill_loop cpu target sig ids s = post_signal cpu idx sig s).
Proof.
  induction ids as [|i ids IH]; intros Hids; [by left|]. apply Forall_cons in Hids as [[p Hp] Hids].
  cbn [kill_loop]. rewrite (bind_get_proc i p) by done. destruct (pid (inner p) =? target)%Z eqn:Hpid; bool_to_prop.
  - right. exists [], i, ids, p. done.
  - assert (Hi : ∀ q, pool s !! i = Some q → pid (inner q) ≠ target) by (intros q Hq; congruence).
    destruct (IH Hids) as [[Hn Hrun]|(l1&idx&l2&q&->&Hq&Hpq&Hl1&Hrun)].
    + left. split; [by apply Forall_cons|done].
    + right. exists (i :: l1), idx, l2, q. split; [done|]. do 2 (split; [done|]). split; [by apply Forall_cons|done].
Qed.

(** The entry of the process [kill] selects: the first with that pid. *)
Definition first_with_pid (s : Sys) (target : Z) (idx : nat) (p : Proc) : Prop :=
  pool s !! idx = Some p ∧ pid (inner p) = target ∧
  ∀ j q, (j < idx)%nat → pool s !! j = Some q → pid (inner q) ≠ target.

Lemma sig_checks {A} sig (a b c : PM A) :
  (1 ≤ sig ≤ NSIG)%Z →
  (if ((sig =? 0) || (NSIG <? sig))%Z then a else if (sig_mask sig =? 0)%Z then b else c) = c.
Proof.
  intros Hs. rewrite (proj2 (Z.eqb_neq sig 0)), (proj2 (Z.ltb_ge NSIG sig)) by lia. simpl.
  rewrite (proj2 (Z.eqb_neq _ _)); [done|]. rewrite sig_mask_bit by done.
  apply Z.pow_nonzero; unfold NSIG in *; lia.
Qed.

Lemma first_unique s target l1 i l2 q idx p :
  seq 0 NPROC = l1 ++ i :: l2 → pool s !! i = Some q → pid (inner q) = target →
  Forall (λ i, ∀ p, pool s !! i = Some p → pid (inner p) ≠ target) l1 →
  pool s !! idx = Some p → pid (inner p) = target → (idx < NPROC)%nat →
  (∀ j q, (j < idx)%nat → pool s !! j = Some q → pid (inner q) ≠ target) → i = idx.
Proof.
  intros Hseq Hq Hqid Hl1 Hp Hpid Hr Hfirst.
  assert (Hi : i = length l1).
  { assert (seq 0 NPROC !! length l1 = Some i) as H by (by rewrite Hseq, list_lookup_middle).
    apply lookup_seq in H. lia. }
  destruct (decide (i < idx)%nat) as [Hlt|]; [by destruct (Hfirst i q Hlt Hq)|].
  destruct (decide (idx < i)%nat) as [Hlt|]; [|lia]. exfalso.
  rewrite Forall_forall in Hl1. apply (Hl1 idx) with p; [|done..].
  apply list_elem_of_lookup. exists idx.
  assert (seq 0 NPROC !! idx = Some idx) as H by (rewrite lookup_seq; lia).
  rewrite Hseq, lookup_app_l in H by lia. done.
Qed.

(** [kill] on every branch.  A signal number outside 1..32 is refused, an
    unknown pid is reported, and both leave the table alone.  Otherwise
    exactly the first process with the pid is changed: a terminating signal
    marks it killed; a signal it ignores does nothing more; any other becomes
    pending, and the target is made runnable (and queued) if it sleeps, or if
    it is stopped and the signal continues or terminates it. *)
Theorem kill_correct cpu target sig s :
  Inv s → (cpu < NCPU)%nat → (0 ≤ sig)%Z →
  ((sig = 0 ∨ NSIG < sig)%Z → kill cpu target sig s = (Err InvalidArgument, s)) ∧
  ((1 ≤ sig ≤ NSIG)%Z → (∀ i p, pool s !! i = Some p → pid (inner p) ≠ target) →
     kill cpu target sig s = (Err NoSuchProcess, s)) ∧
  ((1 ≤ sig ≤ NSIG)%Z → ∀ idx p, first_with_pid s target idx p →
     ∃ h s' p', sig_handlers (inner p) !! Z.to_nat (sig - 1) = Some h ∧
       kill cpu target sig s = (Ok (), s') ∧ Inv s' ∧ same_env s s' ∧ pool s' = <[idx := p']> (pool s) ∧
       killed (inner p') = killed (inner p) || terminates sig h ∧
       sig_pending (inner p') =
         (if ignored sig h then sig_pending (inner p) else Z.lor (sig_pending (inner p)) (sig_mask sig)) ∧
       state (inner p') =
         (if negb (ignored sig h) && wakes sig h (state (inner p)) then RUNNABLE else state (inner p))).
Proof.
  intros HI Hcpu H0. unfold kill.
  assert (Hall : Forall (λ i, is_Some (pool s !! i)) (seq 0 NPROC)).
  { apply Forall_forall. intros i Hi%elem_of_seq0. destruct (inv_lookup _ s i HI Hi) as (p&Hp&_). by exists p. }
  split; [|split].
  - intros [->|Hs]; [done|]. rewrite (proj2 (Z.ltb_lt _ _) Hs). by rewrite orb_true_r.
  - intros Hsig Hno. rewrite sig_checks by done.
    destruct (kill_loop_find cpu target sig _ s Hall) as [[_ ?]|(l1&idx&l2&p&_&Hp&Hpid&_)]; [done|].
    exfalso. by apply (Hno idx p).
  - intros Hsig idx p (Hp&Hpid&Hfirst). rewrite sig_checks by done.
    destruct (kill_loop_find cpu target sig _ s Hall) as [[Hn _]|(l1&i&l2&q&Hseq&Hq&Hqid&Hl1&Hrun)].
    { rewrite Forall_forall in Hn. exfalso. apply (Hn idx) with p; [|done..].
      apply elem_of_seq. apply (lookup_range _ _ _ _ HI) in Hp. lia. }
    assert (i = idx) as ->.
    { eapply first_unique; eauto. by eapply lookup_range. }
    rewrite Hp in Hq. injection Hq as <-. rewrite Hrun.
    destruct (handler_lookup p sig (inv_lookup_wf _ _ _ _ HI Hp) Hsig) as [h Hh].
    destruct (post_signal_run cpu idx sig s p h HI Hcpu Hsig Hp Hh) as (s'&Hpost&HI'&HE&Hpool).
    destruct (signalled_fields sig h (inner p)) as (Hst&_&Hk&Hpd).
    exists h, s'. eexists. split; [done|]. split; [done|]. split; [done|]. split; [done|]. split; [done|].
    destruct (negb (ignored sig h) && _); simpl; by rewrite ?Hst, ?Hk, ?Hpd.
Qed.

