(* ===== verification/NetFmt.v ===== *)
(** * Packet formats of the network stack

    The pure half of [kernel/src/net.rs]: big-endian fields, the Internet
    checksum, and building and parsing Ethernet, ARP, IPv4, UDP and TCP
    packets.  A packet is a list of bytes; an address is its list of octets. *)

From stdpp Require Import base tactics numbers list.
From S2P Require Import Prelude Errors Bytes.
Local Open Scope Z_scope.

Definition ETHERTYPE_ARP : Z := 2054.
Definition ETHERTYPE_IPV4 : Z := 2048.
Definition IP_PROTO_UDP : Z := 17.
Definition IP_PROTO_TCP : Z := 6.
Definition DEFAULT_TTL : Z := 64.
Definition ARP_TABLE_SIZE : nat := 16.
Definition MSS : nat := 512.

Abbreviation bytes := (list Z).
Abbreviation Ipv4Addr := (list Z).
Abbreviation Mac := (list Z).

Record SocketAddrV4 := mkAddr { sa_ip : Ipv4Addr; sa_port : Z }.
Global Instance SocketAddrV4_eq_dec : EqDecision SocketAddrV4.
Proof. solve_decision. Defined.

(** [to_be_bytes] and [from_be_bytes]. *)
Definition be_bytes (n : nat) (z : Z) : bytes := rev (le_bytes n z).
Definition be_val (bs : bytes) : Z := le_val (rev bs).

(** [payload[i]] and [&payload[a..b]]: out of range they panic.  [octets_at p i n]
    is the array [[p[i], ..., p[i + n - 1]]], [be_at] the number of those bytes. *)
Definition byte_at (p : bytes) (i : nat) : Result Z :=
  match p !! i with Some b => Ok b | None => Panic end.
Definition slice (p : bytes) (a b : nat) : Result bytes :=
  if (a <=? b)%nat && (b <=? length p)%nat then Ok (read_at a (b - a) p) else Panic.
Fixpoint octets_at (p : bytes) (i n : nat) : Result bytes :=
  match n with
  | O => Ok []
  | S n => b ← byte_at p i; bs ← octets_at p (S i) n; Ok (b :: bs)
  end.
Definition be_at (p : bytes) (i n : nat) : Result Z := bs ← octets_at p i n; Ok (be_val bs).

(** ** The Internet checksum *)

(** [checksum_add]: the [u32] additions are checked. *)
Definition u32_add (a b : Z) : Result Z := if a + b <? 2 ^ 32 then Ok (a + b) else Panic.
Fixpoint checksum_add (sum : Z) (data : bytes) : Result Z :=
  match data with
  | a :: b :: rest => s ← u32_add sum (be_val [a; b]); checksum_add s rest
  | [a] => u32_add sum (Z.shiftl a 8)
  | [] => Ok sum
  end.

(** [finalize_checksum]: two rounds bring any [u32] under 2^16; the fuel of 3
    is proved enough below. *)
Fixpoint fold16 (fuel : nat) (sum : Z) : Z :=
  match fuel with
  | O => sum
  | S fuel => if Z.shiftr sum 16 =? 0 then sum
              else fold16 fuel (Z.land sum 65535 + Z.shiftr sum 16)
  end.
Definition finalize_checksum (sum : Z) : Z := 65535 - u16 (fold16 3 sum).

(** [checksum_parts]. *)
Fixpoint checksum_sum (sum : Z) (parts : list bytes) : Result Z :=
  match parts with [] => Ok sum | p :: ps => s ← checksum_add sum p; checksum_sum s ps end.
Definition checksum_parts (parts : list bytes) : Result Z :=
  s ← checksum_sum 0 parts; Ok (finalize_checksum s).

(** ** Building *)

(** [build_eth_frame], with the interface's own address. *)
Definition build_eth_frame (src_mac dst_mac : Mac) (ethertype : Z) (payload : bytes) : bytes :=
  dst_mac ++ src_mac ++ be_bytes 2 ethertype ++ payload.

(** [build_ipv4_packet]; [total_len as u16] truncates. *)
Definition ipv4_header (proto : Z) (src dst : Ipv4Addr) (payload : bytes) (csum : Z) : bytes :=
  [69; 0] ++ be_bytes 2 (u16 (20 + Z.of_nat (length payload))) ++ be_bytes 2 0 ++ be_bytes 2 0 ++
  [DEFAULT_TTL; proto] ++ be_bytes 2 csum ++ src ++ dst.
Definition build_ipv4_packet (proto : Z) (src dst : Ipv4Addr) (payload : bytes) : Result bytes :=
  let buf := ipv4_header proto src dst payload 0 in
  csum ← checksum_parts [buf];
  Ok (write_at 10 (be_bytes 2 csum) buf ++ payload).

(** The bodies of [send_arp_request] and [send_arp_reply]. *)
Definition arp_body (opcode : Z) (src_mac : Mac) (src_ip : Ipv4Addr) (dst_mac : Mac) (dst_ip : Ipv4Addr) : bytes :=
  be_bytes 2 1 ++ be_bytes 2 ETHERTYPE_IPV4 ++ [6; 4] ++ be_bytes 2 opcode ++
  src_mac ++ src_ip ++ dst_mac ++ dst_ip.
Definition arp_request (mac : Mac) (ip target : Ipv4Addr) : bytes :=
  build_eth_frame mac (replicate 6 255) ETHERTYPE_ARP (arp_body 1 mac ip (replicate 6 0) target).
Definition arp_reply (mac : Mac) (ip : Ipv4Addr) (target_mac : Mac) (target_ip : Ipv4Addr) : bytes :=
  build_eth_frame mac target_mac ETHERTYPE_ARP (arp_body 2 mac ip target_mac target_ip).

(** [send_udp_segment]: the datagram. *)
Definition build_udp (src_port dst_port : Z) (payload : bytes) : bytes :=
  be_bytes 2 src_port ++ be_bytes 2 dst_port ++ be_bytes 2 (u16 (8 + Z.of_nat (length payload))) ++
  be_bytes 2 0 ++ payload.

(** [send_tcp_segment]: the segment with its pseudo-header checksum. *)
Definition tcp_header (src dst : SocketAddrV4) (seq ack flags csum : Z) : bytes :=
  be_bytes 2 (sa_port src) ++ be_bytes 2 (sa_port dst) ++ be_bytes 4 seq ++ be_bytes 4 ack ++
  be_bytes 2 (Z.lor (Z.shiftl 5 12) (Z.land flags 511)) ++ be_bytes 2 1024 ++ be_bytes 2 csum ++ be_bytes 2 0.
Definition pseudo_header (src dst : SocketAddrV4) (tcp_len : Z) : bytes :=
  sa_ip src ++ sa_ip dst ++ [0; IP_PROTO_TCP] ++ be_bytes 2 tcp_len.
Definition build_tcp (src dst : SocketAddrV4) (seq ack flags : Z) (payload : bytes) : Result bytes :=
  let tcp := tcp_header src dst seq ack flags 0 in
  let pseudo := pseudo_header src dst (u16 (Z.of_nat (length tcp + length payload))) in
  csum ← checksum_parts [pseudo; tcp; payload];
  Ok (write_at 16 (be_bytes 2 csum) tcp ++ payload).

(** ** Parsing *)

(** [handle_frame] up to the dispatch; [None] is the early return. *)
Definition parse_eth (frame : bytes) : Result (option (Z * bytes)) :=
  if (length frame <? 14)%nat then Ok None
  else
    ethertype ← be_at frame 12 2;
    payload ← slice frame 14 (length frame);
    Ok (Some (ethertype, payload)).

(** [handle_arp]: opcode, sender and target. *)
Definition parse_arp (p : bytes) : Result (option (Z * Mac * Ipv4Addr * Ipv4Addr)) :=
  if (length p <? 28)%nat then Ok None
  else
    opcode ← be_at p 6 2;
    sender_mac ← slice p 8 14;
    sender_ip ← octets_at p 14 4;
    target_ip ← octets_at p 24 4;
    Ok (Some (opcode, sender_mac, sender_ip, target_ip)).

(** [handle_ipv4] up to the dispatch; [my_ip] is the interface's address. *)
Definition parse_ipv4 (my_ip : Ipv4Addr) (p : bytes) : Result (option (Z * Ipv4Addr * Ipv4Addr * bytes)) :=
  if (length p <? 20)%nat then Ok None
  else
    ver_ihl ← byte_at p 0;
    if negb (Z.shiftr ver_ihl 4 =? 4) then Ok None
    else
      let ihl := Z.to_nat (Z.land ver_ihl 15 * 4) in
      if (length p <? ihl)%nat then Ok None
      else
        total ← be_at p 2 2;
        let total_len := Z.to_nat total in
        if (total_len <? ihl)%nat || (length p <? total_len)%nat then Ok None
        else
          proto ← byte_at p 9;
          src ← octets_at p 12 4;
          dst ← octets_at p 16 4;
          if negb (bool_decide (dst = my_ip)) then Ok None
          else
            data ← slice p ihl total_len;
            Ok (Some (proto, src, dst, data)).

(** [udp_input] up to the port lookup: source port, destination port, data. *)
Definition parse_udp (d : bytes) : Result (option (Z * Z * bytes)) :=
  if (length d <? 8)%nat then Ok None
  else
    src_port ← be_at d 0 2;
    dst_port ← be_at d 2 2;
    l ← be_at d 4 2;
    let len := Z.to_nat l in
    if (len <? 8)%nat || (length d <? len)%nat then Ok None
    else
      payload ← slice d 8 len;
      Ok (Some (src_port, dst_port, payload)).

(** [tcp_input] up to the connection lookup. *)
Record TcpSeg := mkSeg {
  sg_src_port : Z; sg_dst_port : Z; sg_seq : Z; sg_ack : Z; sg_flags : Z; sg_payload : bytes;
}.
Definition parse_tcp (d : bytes) : Result (option TcpSeg) :=
  if (length d <? 20)%nat then Ok None
  else
    src_port ← be_at d 0 2;
    dst_port ← be_at d 2 2;
    seq ← be_at d 4 4;
    ack ← be_at d 8 4;
    offset ← byte_at d 12;
    let hdr_len := Z.to_nat (Z.shiftr offset 4 * 4) in
    if (hdr_len <? 20)%nat || (length d <? hdr_len)%nat then Ok None
    else
      flags ← byte_at d 13;
      payload ← slice d hdr_len (length d);
      Ok (Some (mkSeg src_port dst_port seq ack flags payload)).

(** ** Access within the bounds that the length tests establish *)

Lemma byte_at_ok p i : (i < length p)%nat → byte_at p i = Ok (p !!! i).
Proof.
  intros Hi. unfold byte_at. destruct (lookup_lt_is_Some_2 p i Hi) as [b Hb].
  by rewrite Hb, (list_lookup_total_correct _ _ _ Hb).
Qed.

Lemma octets_at_ok n p i : (i + n ≤ length p)%nat → octets_at p i n = Ok (read_at i n p).
Proof.
  revert i. induction n as [|n IH]; intros i Hi; [done|]. cbn [octets_at].
  rewrite byte_at_ok, IH by lia. cbn [mbind outcome_bind]. unfold read_at.
  destruct (lookup_lt_is_Some_2 p i ltac:(lia)) as [b Hb].
  by rewrite (drop_S p b i Hb), (list_lookup_total_correct _ _ _ Hb).
Qed.

Lemma be_at_ok p i n : (i + n ≤ length p)%nat → be_at p i n = Ok (be_val (read_at i n p)).
Proof. intros Hi. unfold be_at. by rewrite octets_at_ok. Qed.

Lemma slice_ok p a b : (a ≤ b)%nat → (b ≤ length p)%nat → slice p a b = Ok (read_at a (b - a) p).
Proof. intros Ha Hb. unfold slice. by rewrite !(proj2 (Nat.leb_le _ _)) by done. Qed.

(** ** Lemmas on fields *)

Lemma be_val_bytes n z : 0 ≤ z < 2 ^ (8 * Z.of_nat n) → be_val (be_bytes n z) = z.
Proof. intros Hz. unfold be_val, be_bytes. rewrite rev_involutive. by apply le_val_bytes. Qed.

Lemma length_be_bytes n z : length (be_bytes n z) = n.
Proof. unfold be_bytes. by rewrite length_rev, length_le_bytes. Qed.

Lemma be_bytes_byte n z : Forall is_byte (be_bytes n z).
Proof. unfold be_bytes. apply Forall_rev, le_bytes_byte. Qed.

Lemma be2 z : be_bytes 2 z = [(z / 256) `mod` 256; z `mod` 256].
Proof. done. Qed.

Lemma be4 z : be_bytes 4 z =
  [(z / 256 / 256 / 256) `mod` 256; (z / 256 / 256) `mod` 256; (z / 256) `mod` 256; z `mod` 256].
Proof. done. Qed.

Definition is_u16 (z : Z) : Prop := 0 ≤ z < 65536.
Lemma be_val2 z : is_u16 z → be_val [(z / 256) `mod` 256; z `mod` 256] = z.
Proof. intros Hz. rewrite <-be2. by apply be_val_bytes. Qed.
Lemma be_val4 z : 0 ≤ z < 2 ^ 32 →
  be_val [(z / 256 / 256 / 256) `mod` 256; (z / 256 / 256) `mod` 256; (z / 256) `mod` 256; z `mod` 256] = z.
Proof. intros Hz. rewrite <-be4. by apply be_val_bytes. Qed.

(** ** The checksum as one's complement arithmetic *)

(** The sum of the 16-bit words, the last one padded. *)
Fixpoint word_sum (data : bytes) : Z :=
  match data with
  | a :: b :: rest => a * 256 + b + word_sum rest
  | [a] => a * 256
  | [] => 0
  end.

Lemma pairs_ind (P : bytes → Prop) :
  P [] → (∀ a, P [a]) → (∀ a b l, P l → P (a :: b :: l)) → ∀ l, P l.
Proof.
  intros H0 H1 H2 l. assert (P l ∧ ∀ a, P (a :: l)) as [? _]; [|done].
  induction l as [|b l [IH1 IH2]]; [by auto|]. split; [done|]. intros a. by apply H2.
Qed.

Lemma word_sum_range data : Forall is_byte data → 0 ≤ word_sum data ≤ 32768 * (Z.of_nat (length data) + 1).
Proof.
  induction data as [|a|a b l IH] using pairs_ind; intros H; simpl.
  - lia.
  - apply Forall_cons in H as [Ha _]. unfold is_byte in Ha. lia.
  - apply Forall_cons in H as [Ha H]. apply Forall_cons in H as [Hb H]. unfold is_byte in *.
    specialize (IH H). lia.
Qed.

Lemma word_sum_app l1 l2 : Nat.Even (length l1) → word_sum (l1 ++ l2) = word_sum l1 + word_sum l2.
Proof.
  induction l1 as [|a|a b l IH] using pairs_ind; intros He; simpl.
  - done.
  - destruct He as [k Hk]. simpl in Hk. lia.
  - rewrite IH; [lia|]. destruct He as [k Hk]. exists (k - 1)%nat. simpl in Hk. lia.
Qed.

Lemma checksum_add_ok sum data :
  Forall is_byte data → 0 ≤ sum → sum + word_sum data < 2 ^ 32 →
  checksum_add sum data = Ok (sum + word_sum data).
Proof.
  revert sum. induction data as [|a|a b l IH] using pairs_ind; intros sum H H0 Hlt; cbn [checksum_add word_sum] in *.
  - by rewrite Z.add_0_r.
  - unfold u32_add. rewrite Z.shiftl_mul_pow2 by lia. change (2 ^ 8) with 256.
    by rewrite (proj2 (Z.ltb_lt _ _)) by done.
  - apply Forall_cons in H as [Ha H]. apply Forall_cons in H as [Hb H].
    pose proof (word_sum_range l H). unfold is_byte in *.
    assert (be_val [a; b] = a * 256 + b) as -> by (unfold be_val; simpl; lia).
    unfold u32_add. rewrite (proj2 (Z.ltb_lt _ _)) by lia. simpl. rewrite IH by (done || lia). f_equal. lia.
Qed.

Lemma checksum_sum_ok sum parts :
  Forall (Forall is_byte) parts → 0 ≤ sum →
  sum + foldr (λ p s, word_sum p + s) 0 parts < 2 ^ 32 →
  checksum_sum sum parts = Ok (sum + foldr (λ p s, word_sum p + s) 0 parts).
Proof.
  revert sum. induction parts as [|p ps IH]; intros sum H H0 Hlt; cbn [checksum_sum foldr] in *.
  - by rewrite Z.add_0_r.
  - apply Forall_cons in H as [Hp H]. pose proof (word_sum_range p Hp).
    assert (0 ≤ foldr (λ p s, word_sum p + s) 0 ps).
    { clear -H. induction H as [|q qs Hq _ IH]; simpl; [done|]. pose proof (word_sum_range q Hq). lia. }
    rewrite checksum_add_ok by (done || lia). simpl. rewrite IH by (done || lia). f_equal. lia.
Qed.

(** One round of the folding. *)
Lemma fold_round y : 0 ≤ y → Z.land y 65535 + Z.shiftr y 16 = y - 65535 * (y / 65536).
Proof.
  intros Hy. change 65535 with (Z.ones 16) at 1. rewrite Z.land_ones, Z.shiftr_div_pow2 by lia.
  change (2 ^ 16) with 65536. pose proof (Z.div_mod y 65536). lia.
Qed.

Lemma fold_test y : 0 ≤ y → (Z.shiftr y 16 =? 0) = (y <? 65536).
Proof.
  intros Hy. rewrite Z.shiftr_div_pow2 by lia. change (2 ^ 16) with 65536.
  destruct (Z.ltb_spec y 65536).
  - by rewrite Z.div_small by lia.
  - apply Z.eqb_neq. pose proof (Z.div_le_mono 65536 y 65536). rewrite Z.div_same in *; lia.
Qed.

(** Folding keeps the value modulo 2^16 - 1, ends below 2^16, and is zero only
    for zero. *)
Lemma fold16_spec x :
  0 ≤ x < 2 ^ 32 →
  0 ≤ fold16 3 x < 65536 ∧ (∃ k, fold16 3 x = x - 65535 * k) ∧ (fold16 3 x = 0 → x = 0).
Proof.
  intros Hx. cbn [fold16]. rewrite fold_test by lia. destruct (Z.ltb_spec x 65536).
  { split; [lia|]. split; [exists 0; lia|done]. }
  rewrite fold_round by lia. set (q := x / 65536). pose proof (Z.div_mod x 65536 ltac:(lia)) as Hdm. fold q in Hdm.
  pose proof (Z.mod_pos_bound x 65536 ltac:(lia)).
  assert (1 ≤ q < 65536) by (change (2 ^ 32) with 4294967296 in Hx; lia).
  rewrite fold_test by lia. destruct (Z.ltb_spec (x - 65535 * q) 65536).
  { split; [lia|]. split; [by exists q|lia]. }
  rewrite fold_round by lia.
  assert ((x - 65535 * q) / 65536 = 1) as -> by (symmetry; apply (Z.div_unique _ _ _ (x - 65535 * q - 65536)); lia).
  rewrite fold_test by lia. rewrite (proj2 (Z.ltb_lt _ _)) by lia.
  split; [lia|]. split; [exists (q + 1); lia|lia].
Qed.

(** The defining property of the checksum: putting it into the packet makes
    the whole packet sum up to a checksum of zero. *)
Lemma finalize_verifies s :
  0 ≤ s → s + 65535 < 2 ^ 32 →
  is_u16 (finalize_checksum s) ∧ finalize_checksum (s + finalize_checksum s) = 0.
Proof.
  intros H0 Hlt. destruct (fold16_spec s) as (Hr&(k&Hk)&Hz); [lia|].
  unfold finalize_checksum at 1 3, u16. rewrite (wrap_small 16 (fold16 3 s)) by done.
  unfold is_u16. split; [lia|]. set (c := 65535 - fold16 3 s).
  destruct (fold16_spec (s + c)) as (Hr'&(k'&Hk')&Hz'); [lia|].
  unfold finalize_checksum, u16. rewrite wrap_small by done.
  assert (fold16 3 (s + c) ≠ 0) by (intros E; specialize (Hz' E); assert (s = 0) as Es by lia; subst;
    assert (fold16 3 0 = 0) by done; lia).
  assert (∃ m, fold16 3 (s + c) = 65535 * m) as [m Hm] by (exists (k + 1 - k'); lia). lia.
Qed.

(** ** Well-formed packets *)

Definition addr_ok (ip : Ipv4Addr) : Prop := length ip = 4%nat ∧ Forall is_byte ip.
Definition sock_ok (a : SocketAddrV4) : Prop := addr_ok (sa_ip a) ∧ is_u16 (sa_port a).

Lemma addr_cases ip :
  addr_ok ip → ∃ a b c d, ip = [a; b; c; d] ∧ is_byte a ∧ is_byte b ∧ is_byte c ∧ is_byte d.
Proof.
  intros [Hl Hb]. destruct ip as [|a [|b [|c [|d [|]]]]]; try done.
  exists a, b, c, d. rewrite !Forall_cons in Hb. naive_solver.
Qed.

Lemma ipv4_header_csum proto src dst payload c :
  addr_ok src → addr_ok dst → write_at 10 (be_bytes 2 c) (ipv4_header proto src dst payload 0) =
                              ipv4_header proto src dst payload c.
Proof. by intros (?&?&?&?&->&_)%addr_cases (?&?&?&?&->&_)%addr_cases. Qed.

Lemma ipv4_header_sum proto src dst payload c :
  addr_ok src → addr_ok dst → is_u16 c →
  word_sum (ipv4_header proto src dst payload c) = word_sum (ipv4_header proto src dst payload 0) + c.
Proof.
  intros (?&?&?&?&->&_)%addr_cases (?&?&?&?&->&_)%addr_cases Hc. unfold ipv4_header. rewrite !be2.
  pose proof (be_val2 c Hc) as Hv. unfold be_val in Hv. simpl in Hv.
  change ((0 / 256) `mod` 256) with 0. change (0 `mod` 256) with 0. cbn [word_sum app]. lia.
Qed.

Lemma ipv4_header_bytes proto src dst payload c :
  is_byte proto → addr_ok src → addr_ok dst → Forall is_byte (ipv4_header proto src dst payload c).
Proof.
  intros Hp [_ Hs] [_ Hd]. unfold ipv4_header.
  rewrite !Forall_app, !Forall_cons, !Forall_nil.
  split_and!; try apply be_bytes_byte; try done; unfold is_byte, DEFAULT_TTL; lia.
Qed.

Lemma length_ipv4_header proto src dst payload c :
  addr_ok src → addr_ok dst → length (ipv4_header proto src dst payload c) = 20%nat.
Proof. by intros (?&?&?&?&->&_)%addr_cases (?&?&?&?&->&_)%addr_cases. Qed.

Lemma build_ipv4_ok proto src dst payload :
  is_byte proto → addr_ok src → addr_ok dst →
  ∃ c, is_u16 c ∧ build_ipv4_packet proto src dst payload = Ok (ipv4_header proto src dst payload c ++ payload) ∧
       checksum_parts [ipv4_header proto src dst payload c] = Ok 0.
Proof.
  intros Hp Hs Hd. pose proof (ipv4_header_bytes proto src dst payload 0 Hp Hs Hd) as Hb0.
  pose proof (word_sum_range _ Hb0) as Hr. rewrite length_ipv4_header in Hr by done.
  destruct (finalize_verifies (word_sum (ipv4_header proto src dst payload 0))) as [Hc Hv]; [lia..|].
  set (c := finalize_checksum _) in *. exists c. split; [done|]. split.
  - unfold build_ipv4_packet, checksum_parts. rewrite checksum_sum_ok; [|by apply Forall_singleton|done|cbn [foldr]; lia].
    cbn [foldr mbind outcome_bind]. rewrite Z.add_0_r, Z.add_0_l. fold c. by rewrite ipv4_header_csum.
  - pose proof (ipv4_header_sum proto src dst payload c Hs Hd Hc) as Hsum. unfold is_u16 in Hc.
    unfold checksum_parts. rewrite checksum_sum_ok; cbn [foldr mbind outcome_bind].
    + by rewrite Z.add_0_r, Z.add_0_l, Hsum, Hv.
    + by apply Forall_singleton, ipv4_header_bytes.
    + done.
    + rewrite Hsum. lia.
Qed.

Lemma tcp_header_csum src dst seq ack flags c :
  write_at 16 (be_bytes 2 c) (tcp_header src dst seq ack flags 0) = tcp_header src dst seq ack flags c.
Proof. done. Qed.

Lemma tcp_header_sum src dst seq ack flags c :
  is_u16 c → word_sum (tcp_header src dst seq ack flags c) = word_sum (tcp_header src dst seq ack flags 0) + c.
Proof.
  intros Hc. unfold tcp_header. rewrite !be2, !be4.
  pose proof (be_val2 c Hc) as Hv. unfold be_val in Hv. simpl in Hv.
  change ((0 / 256) `mod` 256) with 0. change (0 `mod` 256) with 0. cbn [word_sum app]. lia.
Qed.

Lemma tcp_header_bytes src dst seq ack flags c : Forall is_byte (tcp_header src dst seq ack flags c).
Proof. unfold tcp_header. rewrite !Forall_app. split_and!; apply be_bytes_byte. Qed.

Lemma pseudo_header_bytes src dst n : sock_ok src → sock_ok dst → Forall is_byte (pseudo_header src dst n).
Proof.
  intros [[_ Hs] _] [[_ Hd] _]. unfold pseudo_header.
  rewrite !Forall_app, !Forall_cons, !Forall_nil.
  split_and!; try apply be_bytes_byte; try done; unfold is_byte, IP_PROTO_TCP; lia.
Qed.

Lemma length_pseudo_header src dst n : sock_ok src → sock_ok dst → length (pseudo_header src dst n) = 12%nat.
Proof.
  unfold pseudo_header. by intros [(?&?&?&?&->&_)%addr_cases _] [(?&?&?&?&->&_)%addr_cases _].
Qed.

(** The largest payload an IPv4 packet can carry. *)
Definition fits (n : nat) (payload : bytes) : Prop :=
  Forall is_byte payload ∧ Z.of_nat n + Z.of_nat (length payload) < 65536.

Lemma build_tcp_ok src dst seq ack flags payload :
  sock_ok src → sock_ok dst → fits 40 payload →
  ∃ c, is_u16 c ∧ build_tcp src dst seq ack flags payload = Ok (tcp_header src dst seq ack flags c ++ payload) ∧
       checksum_parts [pseudo_header src dst (20 + Z.of_nat (length payload)); tcp_header src dst seq ack flags c ++ payload]
         = Ok 0.
Proof.
  intros Hs Hd [Hpb Hlen]. set (n := 20 + Z.of_nat (length payload)).
  pose proof (tcp_header_bytes src dst seq ack flags 0) as Hb0.
  pose proof (pseudo_header_bytes src dst n Hs Hd) as Hpseudo.
  pose proof (word_sum_range _ Hb0) as Hr0. change (length (tcp_header _ _ _ _ _ _)) with 20%nat in Hr0.
  pose proof (word_sum_range _ Hpseudo) as Hr1. rewrite length_pseudo_header in Hr1 by done.
  pose proof (word_sum_range _ Hpb) as Hr2.
  set (w := word_sum (pseudo_header src dst n) + (word_sum (tcp_header src dst seq ack flags 0) + (word_sum payload + 0))).
  destruct (finalize_verifies w) as [Hc Hv]; [unfold w; lia..|].
  set (c := finalize_checksum w) in *. exists c. split; [done|]. split.
  - unfold build_tcp, checksum_parts. change (length (tcp_header _ _ _ _ _ _)) with 20%nat.
    assert (u16 (Z.of_nat (20 + length payload)) = n) as ->.
    { unfold u16. rewrite wrap_small; [unfold n; lia|]. clear -Hlen. change (2 ^ 16) with 65536. lia. }
    rewrite checksum_sum_ok; [|by rewrite !Forall_cons, Forall_nil|done|cbn [foldr]; lia].
    cbn [foldr mbind outcome_bind]. rewrite Z.add_0_l. fold w. fold c. by rewrite tcp_header_csum.
  - pose proof (tcp_header_sum src dst seq ack flags c Hc) as Hsum. unfold is_u16 in Hc.
    assert (Hall : word_sum (tcp_header src dst seq ack flags c ++ payload) =
                   word_sum (tcp_header src dst seq ack flags 0) + c + word_sum payload).
    { rewrite word_sum_app, Hsum; [done|]. by exists 10%nat. }
    unfold checksum_parts. rewrite checksum_sum_ok; cbn [foldr]; rewrite ?Hall.
    + cbn [mbind outcome_bind]. match goal with |- Ok (finalize_checksum ?x) = _ => replace x with (w + c) by (unfold w; lia) end.
      by rewrite Hv.
    + rewrite !Forall_cons, Forall_app, Forall_nil. split_and!; try done. apply tcp_header_bytes.
    + done.
    + lia.
Qed.

(** The checksums the stack puts into packets verify at the receiver: the
    one's complement sum of the built IPv4 header, and of the TCP segment with
    its pseudo-header, come out as zero; none of the checked 32-bit additions
    overflows for a payload that fits an IPv4 packet. *)
Theorem checksums_verify proto src dst seq ack flags payload :
  is_byte proto → sock_ok src → sock_ok dst → fits 40 payload →
  (∃ pkt, build_ipv4_packet proto (sa_ip src) (sa_ip dst) payload = Ok pkt ∧
          checksum_parts [take 20 pkt] = Ok 0 ∧ drop 20 pkt = payload) ∧
  (∃ seg, build_tcp src dst seq ack flags payload = Ok seg ∧
          checksum_parts [pseudo_header src dst (Z.of_nat (length seg)); seg] = Ok 0 ∧ drop 20 seg = payload).
Proof.
  intros Hp Hs Hd Hf. split.
  - destruct (build_ipv4_ok proto (sa_ip src) (sa_ip dst) payload) as (c&_&->&Hc); [done|apply Hs|apply Hd|].
    eexists. split; [done|].
    rewrite <-(length_ipv4_header proto (sa_ip src) (sa_ip dst) payload c) by (apply Hs || apply Hd).
    by rewrite take_app_length, drop_app_length.
  - destruct (build_tcp_ok src dst seq ack flags payload Hs Hd Hf) as (c&_&->&Hc).
    eexists. split; [done|]. split; [|done]. rewrite length_app. rewrite Nat2Z.inj_add. exact Hc.
Qed.

Definition demo_client : SocketAddrV4 := mkAddr [10; 0; 2; 15] 49152.
Definition demo_server : SocketAddrV4 := mkAddr [10; 0; 2; 2] 80.
Definition demo_data : bytes := [104; 101; 108; 108; 111].

Lemma demo_addrs : sock_ok demo_client ∧ sock_ok demo_server ∧ fits 40 demo_data.
Proof.
  split_and!; repeat split; simpl; try (unfold is_u16; lia);
    repeat (apply Forall_cons; split); try apply Forall_nil; try done; unfold is_byte; lia.
Qed.

(** ** Parsing what was built *)

Lemma read_at_app l1 l2 l3 : read_at (length l1) (length l2) (l1 ++ l2 ++ l3) = l2.
Proof. unfold read_at. by rewrite drop_app_length, take_app_length. Qed.

Lemma slice_app l1 l2 l3 a b :
  length l1 = a → (a + length l2)%nat = b → slice (l1 ++ l2 ++ l3) a b = Ok l2.
Proof.
  intros <- <-. rewrite slice_ok by (rewrite ?length_app; lia).
  replace (length l1 + length l2 - length l1)%nat with (length l2) by lia. by rewrite read_at_app.
Qed.

Lemma slice_tail l1 l2 a b :
  length l1 = a → (a + length l2)%nat = b → slice (l1 ++ l2) a b = Ok l2.
Proof. intros Ha Hb. rewrite <-(app_nil_r l2) at 1. by apply slice_app. Qed.

(** Padding after the packet, as on short Ethernet frames, is ignored. *)
Lemma parse_ipv4_header proto src dst payload c pad :
  addr_ok src → addr_ok dst → Z.of_nat (length payload) + 20 < 65536 →
  parse_ipv4 dst (ipv4_header proto src dst payload c ++ payload ++ pad) = Ok (Some (proto, src, dst, payload)).
Proof.
  intros Hs Hd Hlen. pose proof (length_ipv4_header proto src dst payload c Hs Hd) as Hh.
  pose proof (slice_app (ipv4_header proto src dst payload c) payload pad 20 (length payload + 20) Hh ltac:(lia)) as Hread.
  destruct (addr_cases _ Hs) as (a&b&cc&d&->&_). destruct (addr_cases _ Hd) as (e&f&g&h&->&_).
  unfold parse_ipv4. rewrite (proj2 (Nat.ltb_ge _ 20)) by (rewrite length_app, Hh; lia).
  set (p := _ ++ payload ++ pad) in *.
  assert (Hn : be_at p 2 2 = Ok (Z.of_nat (length payload) + 20)).
  { transitivity (Ok (E := Error) (be_val (be_bytes 2 (u16 (20 + Z.of_nat (length payload)))))); [done|].
    unfold u16. rewrite wrap_small by (change (2 ^ 16) with 65536; lia). rewrite be_val_bytes by (simpl; lia). f_equal. lia. }
  change (byte_at p 0) with (Ok (E := Error) 69). cbn [mbind outcome_bind].
  change (negb (Z.shiftr 69 4 =? 4)) with false. change (Z.to_nat (Z.land 69 15 * 4)) with 20%nat.
  rewrite (proj2 (Nat.ltb_ge _ 20)) by (unfold p; rewrite length_app, Hh; lia).
  rewrite Hn. cbn [mbind outcome_bind].
  replace (Z.to_nat (Z.of_nat (length payload) + 20)) with (length payload + 20)%nat by lia.
  rewrite (proj2 (Nat.ltb_ge _ _)) by lia.
  rewrite (proj2 (Nat.ltb_ge _ _)) by (unfold p; rewrite !length_app, Hh; lia). cbv iota.
  change (byte_at p 9) with (Ok (E := Error) proto).
  change (octets_at p 12 4) with (Ok (E := Error) [a; b; cc; d]).
  change (octets_at p 16 4) with (Ok (E := Error) [e; f; g; h]).
  cbn [orb mbind outcome_bind]. rewrite bool_decide_eq_true_2 by done. cbn [negb]. by rewrite Hread.
Qed.

Lemma parse_eth_build my_mac mac ethertype p pad :
  length mac = 6%nat → length my_mac = 6%nat → is_u16 ethertype →
  parse_eth (build_eth_frame my_mac mac ethertype p ++ pad) = Ok (Some (ethertype, p ++ pad)).
Proof.
  intros Hm Hmm Het. do 7 (destruct mac as [|? mac]; try done). do 7 (destruct my_mac as [|? my_mac]; try done).
  pose proof (be_val2 _ Het) as E. unfold parse_eth, build_eth_frame. rewrite be2. cbn [app length].
  rewrite (proj2 (Nat.ltb_ge _ 14)) by lia.
  match goal with |- context [be_at ?l 12 2] => change (be_at l 12 2) with (Ok (E := Error) (be_val [(ethertype / 256) `mod` 256; ethertype `mod` 256])) end.
  rewrite E. cbn [mbind outcome_bind].
  match goal with |- context [slice ?l 14 ?k] => change l with (take 14 l ++ (p ++ pad)) end.
  by rewrite slice_tail.
Qed.

(** An ARP message, with or without padding. *)
Lemma parse_arp_build opcode mac ip tmac tip pad :
  is_u16 opcode → length mac = 6%nat → addr_ok ip → length tmac = 6%nat → addr_ok tip →
  parse_arp (arp_body opcode mac ip tmac tip ++ pad) = Ok (Some (opcode, mac, ip, tip)).
Proof.
  intros Ho Hm Hi Ht Hti. do 7 (destruct mac as [|? mac]; try done). do 7 (destruct tmac as [|? tmac]; try done).
  destruct (addr_cases _ Hi) as (?&?&?&?&->&_). destruct (addr_cases _ Hti) as (?&?&?&?&->&_).
  pose proof (be_val2 _ Ho) as E. unfold parse_arp, arp_body. rewrite !be2. cbn [app length].
  rewrite (proj2 (Nat.ltb_ge _ 28)) by lia.
  match goal with |- context [be_at ?l 6 2] => change (be_at l 6 2) with (Ok (E := Error) (be_val [(opcode / 256) `mod` 256; opcode `mod` 256])) end.
  by rewrite E.
Qed.

Lemma parse_udp_build sp dp payload :
  is_u16 sp → is_u16 dp → Z.of_nat (length payload) + 8 < 65536 →
  parse_udp (build_udp sp dp payload) = Ok (Some (sp, dp, payload)).
Proof.
  intros Hs Hd Hlen. unfold parse_udp. set (d := build_udp sp dp payload).
  assert (Hl : length d = (8 + length payload)%nat) by done.
  rewrite (proj2 (Nat.ltb_ge _ 8)) by lia.
  assert (be_at d 0 2 = Ok sp) as -> by exact (f_equal Ok (be_val2 sp Hs)).
  assert (be_at d 2 2 = Ok dp) as -> by exact (f_equal Ok (be_val2 dp Hd)).
  assert (be_at d 4 2 = Ok (8 + Z.of_nat (length payload))) as ->.
  { transitivity (Ok (E := Error) (be_val (be_bytes 2 (u16 (8 + Z.of_nat (length payload)))))); [done|].
    unfold u16. rewrite wrap_small by (change (2 ^ 16) with 65536; lia). by rewrite be_val_bytes by (simpl; lia). }
  cbn [mbind outcome_bind].
  replace (Z.to_nat (8 + Z.of_nat (length payload))) with (8 + length payload)%nat by lia.
  rewrite (proj2 (Nat.ltb_ge _ 8)), (proj2 (Nat.ltb_ge (length d) _)) by lia. cbn [orb].
  change d with (take 8 d ++ payload). by rewrite slice_tail.
Qed.

Lemma data_offset_byte flags :
  0 ≤ flags < 256 →
  be_bytes 2 (Z.lor (Z.shiftl 5 12) (Z.land flags 511)) = [80; flags].
Proof.
  intros Hf.
  assert (Hall : Forall (λ f, be_bytes 2 (Z.lor (Z.shiftl 5 12) (Z.land f 511)) = [80; f]) (seqZ 0 256)).
  { apply (bool_decide_unpack _). vm_compute. exact I. }
  rewrite Forall_forall in Hall. apply Hall. apply elem_of_seqZ. lia.
Qed.

Lemma parse_tcp_header src dst seq ack flags c payload :
  is_u16 (sa_port src) → is_u16 (sa_port dst) → 0 ≤ seq < 2 ^ 32 → 0 ≤ ack < 2 ^ 32 → 0 ≤ flags < 256 →
  parse_tcp (tcp_header src dst seq ack flags c ++ payload) =
    Ok (Some (mkSeg (sa_port src) (sa_port dst) seq ack flags payload)).
Proof.
  intros Hs Hd Hseq Hack Hf. unfold tcp_header. rewrite data_offset_byte by done. rewrite !be2, !be4.
  unfold parse_tcp. cbn [app length]. rewrite (proj2 (Nat.ltb_ge _ 20)) by lia.
  match goal with |- context [be_at ?l 0 2] => set (d := l) end.
  assert (be_at d 0 2 = Ok (sa_port src)) as -> by exact (f_equal Ok (be_val2 _ Hs)).
  assert (be_at d 2 2 = Ok (sa_port dst)) as -> by exact (f_equal Ok (be_val2 _ Hd)).
  assert (be_at d 4 4 = Ok seq) as -> by exact (f_equal Ok (be_val4 _ Hseq)).
  assert (be_at d 8 4 = Ok ack) as -> by exact (f_equal Ok (be_val4 _ Hack)).
  change (byte_at d 12) with (Ok (E := Error) 80). change (byte_at d 13) with (Ok (E := Error) flags).
  cbn [mbind outcome_bind]. change (Z.to_nat (Z.shiftr 80 4 * 4)) with 20%nat.
  rewrite (proj2 (Nat.ltb_ge 20 20)), (proj2 (Nat.ltb_ge _ 20)) by lia. cbn [orb].
  change d with (take 20 d ++ payload). by rewrite slice_tail.
Qed.

(** C@: What the stack sends it parses back unchanged.  Source and destination,
    ports, sequence numbers, flags and payload of a TCP segment, and ports and
    payload of a UDP datagram, survive IPv4 and Ethernet encapsulation; the
    sender's addresses and the target of an ARP request or reply survive the
    Ethernet frame; and padding after the packet is ignored.  The payload has
    to fit the 16-bit length field of IPv4, for UDP too. *)
Theorem packets_roundtrip src dst mac my_mac seq ack flags payload pad :
  sock_ok src → sock_ok dst → length mac = 6%nat → length my_mac = 6%nat → fits 40 payload →
  0 ≤ seq < 2 ^ 32 → 0 ≤ ack < 2 ^ 32 → 0 ≤ flags < 256 →
  (∃ seg pkt, build_tcp src dst seq ack flags payload = Ok seg ∧
     build_ipv4_packet IP_PROTO_TCP (sa_ip src) (sa_ip dst) seg = Ok pkt ∧
     parse_eth (build_eth_frame my_mac mac ETHERTYPE_IPV4 pkt ++ pad) = Ok (Some (ETHERTYPE_IPV4, pkt ++ pad)) ∧
     parse_ipv4 (sa_ip dst) (pkt ++ pad) = Ok (Some (IP_PROTO_TCP, sa_ip src, sa_ip dst, seg)) ∧
     parse_tcp seg = Ok (Some (mkSeg (sa_port src) (sa_port dst) seq ack flags payload))) ∧
  (∃ pkt, build_ipv4_packet IP_PROTO_UDP (sa_ip src) (sa_ip dst) (build_udp (sa_port src) (sa_port dst) payload) = Ok pkt ∧
     parse_eth (build_eth_frame my_mac mac ETHERTYPE_IPV4 pkt ++ pad) = Ok (Some (ETHERTYPE_IPV4, pkt ++ pad)) ∧
     parse_ipv4 (sa_ip dst) (pkt ++ pad) =
       Ok (Some (IP_PROTO_UDP, sa_ip src, sa_ip dst, build_udp (sa_port src) (sa_port dst) payload)) ∧
     parse_udp (build_udp (sa_port src) (sa_port dst) payload) = Ok (Some (sa_port src, sa_port dst, payload))) ∧
  (∃ body, parse_eth (arp_request my_mac (sa_ip src) (sa_ip dst) ++ pad) = Ok (Some (ETHERTYPE_ARP, body)) ∧
     parse_arp body = Ok (Some (1, my_mac, sa_ip src, sa_ip dst))) ∧
  (∃ body, parse_eth (arp_reply my_mac (sa_ip src) mac (sa_ip dst) ++ pad) = Ok (Some (ETHERTYPE_ARP, body)) ∧
     parse_arp body = Ok (Some (2, my_mac, sa_ip src, sa_ip dst))).
Proof.
  intros Hs Hd Hm Hmm Hf Hseq Hack Hfl. split_and!.
  - destruct (build_tcp_ok src dst seq ack flags payload Hs Hd Hf) as (c&_&Hseg&_).
    set (seg := tcp_header src dst seq ack flags c ++ payload) in *.
    destruct (build_ipv4_ok IP_PROTO_TCP (sa_ip src) (sa_ip dst) seg) as (c2&_&Hpkt&_); [done|apply Hs|apply Hd|].
    eexists seg, _. split; [done|]. split; [done|]. split; [by apply parse_eth_build|]. split.
    + rewrite <-app_assoc. apply parse_ipv4_header; [apply Hs|apply Hd|]. unfold seg. rewrite length_app.
      change (length (tcp_header _ _ _ _ _ _)) with 20%nat. destruct Hf as [_ Hf]. lia.
    + apply parse_tcp_header; [apply Hs|apply Hd|done..].
  - destruct (build_ipv4_ok IP_PROTO_UDP (sa_ip src) (sa_ip dst) (build_udp (sa_port src) (sa_port dst) payload))
      as (c2&_&Hpkt&_); [done|apply Hs|apply Hd|].
    destruct Hf as [_ Hf]. eexists. split; [done|]. split; [by apply parse_eth_build|]. split.
    + rewrite <-app_assoc. apply parse_ipv4_header; [apply Hs|apply Hd|].
      change (length (build_udp _ _ _)) with (8 + length payload)%nat. lia.
    + apply parse_udp_build; [apply Hs|apply Hd|lia].
  - eexists. split; [by apply parse_eth_build|]. by apply parse_arp_build; [|apply Hmm|apply Hs| |apply Hd].
  - eexists. split; [by apply parse_eth_build|]. by apply parse_arp_build; [|apply Hmm|apply Hs| |apply Hd].
Qed.

Lemma packets_roundtrip_witness :
  (∃ seg, build_tcp demo_client demo_server 1 2 24 demo_data = Ok seg ∧
          parse_tcp seg = Ok (Some (mkSeg 49152 80 1 2 24 demo_data))) ∧
  ∃ body, parse_eth (arp_request [6;5;4;3;2;1] (sa_ip demo_client) (sa_ip demo_server) ++ [0;0;0]) =
            Ok (Some (ETHERTYPE_ARP, body)) ∧
          parse_arp body = Ok (Some (1, [6;5;4;3;2;1], [10; 0; 2; 15], [10; 0; 2; 2])).
Proof.
  destruct demo_addrs as (H1&H2&H3).
  destruct (packets_roundtrip demo_client demo_server [1;2;3;4;5;6] [6;5;4;3;2;1] 1 2 24 demo_data [0;0;0] H1 H2
              eq_refl eq_refl H3) as ((seg&pkt&Hb&_&_&_&Hp)&_&Harp&_); [lia..|].
  split; [exists seg; split; [exact Hb|exact Hp]|exact Harp].
Defined.

(** A header length below five words is not rejected: the header itself is
    then taken for the payload. *)
Example short_ihl_accepted :
  parse_ipv4 [10; 0; 2; 15] [64; 0; 0; 20; 0; 0; 0; 0; 64; 17; 0; 0; 10; 0; 2; 2; 10; 0; 2; 15] =
    Ok (Some (17, [10; 0; 2; 2], [10; 0; 2; 15],
              [64; 0; 0; 20; 0; 0; 0; 0; 64; 17; 0; 0; 10; 0; 2; 2; 10; 0; 2; 15])).
Proof. vm_compute. reflexivity. Qed.
