(* ===== verification/Net.v ===== *)
(** * The network stack

    The stateful half of [kernel/src/net.rs]: the ARP table and routing, UDP
    and TCP sockets, the tables of ports, listeners and connections, and the
    handling of incoming frames, with packets to the machine's own address
    short-circuited into the input functions as in [send_ipv4_packet].

    Sockets are reference counted ([Arc]); the tables hold [Weak] references.
    [tcp_socks] maps the objects that are alive, [t_strong] counts the strong
    references to one, and [upgrade] is a lookup.  The network device is a
    parameter [dev]: whether it accepts a frame. *)

From stdpp Require Import base tactics numbers gmap list.
From S2P Require Import Prelude Errors Bytes SemTable Mpmc UserMem NetFmt.
Local Open Scope Z_scope.

Definition UDP_QUEUE : Z := 32.
Definition TCP_QUEUE : Z := 1024.
Definition TCP_BACKLOG_MAX : Z := 16.

(** [struct ArpEntry], [struct NetStack]. *)
Record ArpEntry := mkArp { arp_ip : Ipv4Addr; arp_mac : Mac; arp_valid : bool }.
Definition arp_empty : ArpEntry := mkArp [0; 0; 0; 0] (replicate 6 0) false.
Record NetStack := mkStack {
  ns_mac : Mac; ns_ip : Ipv4Addr; ns_netmask : Ipv4Addr; ns_gateway : Ipv4Addr; ns_arp : list ArpEntry;
}.

(** [init]. *)
Definition net_init (mac : Mac) : NetStack :=
  mkStack mac [10; 0; 2; 15] [255; 255; 255; 0] [10; 0; 2; 2] (replicate ARP_TABLE_SIZE arp_empty).

(** [struct ConnKey] and [ConnKey::new]: local port, remote port, remote address. *)
Abbreviation ConnKey := (Z * Z * list Z)%type.
Definition conn_key (local_port : Z) (remote : SocketAddrV4) : ConnKey :=
  (local_port, sa_port remote, sa_ip remote).

Record UdpSocket := mkUdp {
  u_local_port : option Z; u_peer : option SocketAddrV4; u_last_peer : option SocketAddrV4;
  u_chan : Chan (SocketAddrV4 * bytes); u_strong : nat;
}.

(** [enum TcpState], [struct TcpInner]. *)
Inductive TcpState := Closed | SynSent | SynReceived | Established.
Global Instance TcpState_eq_dec : EqDecision TcpState.
Proof. solve_decision. Defined.

Record TcpInner := mkTcpInner {
  t_local : option SocketAddrV4; t_peer : option SocketAddrV4; t_state : TcpState;
  t_snd : Z; t_rcv : Z; t_listener : option nat;
}.
Record TcpSocket := mkTcp { t_inner : TcpInner; t_chan : Chan Z; t_strong : nat }.
Record TcpListener := mkListener { l_port : Z; l_chan : Chan nat; l_strong : nat }.

Record Net := mkNet {
  n_stack : NetStack;
  udp_socks : gmap nat UdpSocket;
  UDP_PORTS : gmap Z (list nat);
  tcp_socks : gmap nat TcpSocket;
  tcp_lists : gmap nat TcpListener;
  TCP_LISTENERS : gmap Z nat;
  TCP_CONNS : gmap ConnKey nat;
  NEXT_ID : nat;
  NEXT_PORT : Z;
  ARP_SEQ : Z;
  TCP_SEQ : Z;
  n_out : list bytes;
}.

Definition Net_new (mac : Mac) : Net := mkNet (net_init mac) ∅ ∅ ∅ ∅ ∅ ∅ 0 49152 0 0 [].

Abbreviation NM := (M Error Net).

(** Field updates. *)
Definition upd_stack (f : NetStack → NetStack) (n : Net) : Net :=
  mkNet (f (n_stack n)) (udp_socks n) (UDP_PORTS n) (tcp_socks n) (tcp_lists n) (TCP_LISTENERS n) (TCP_CONNS n)
    (NEXT_ID n) (NEXT_PORT n) (ARP_SEQ n) (TCP_SEQ n) (n_out n).
Definition upd_udp (f : gmap nat UdpSocket → gmap nat UdpSocket) (n : Net) : Net :=
  mkNet (n_stack n) (f (udp_socks n)) (UDP_PORTS n) (tcp_socks n) (tcp_lists n) (TCP_LISTENERS n) (TCP_CONNS n)
    (NEXT_ID n) (NEXT_PORT n) (ARP_SEQ n) (TCP_SEQ n) (n_out n).
Definition upd_ports (f : gmap Z (list nat) → gmap Z (list nat)) (n : Net) : Net :=
  mkNet (n_stack n) (udp_socks n) (f (UDP_PORTS n)) (tcp_socks n) (tcp_lists n) (TCP_LISTENERS n) (TCP_CONNS n)
    (NEXT_ID n) (NEXT_PORT n) (ARP_SEQ n) (TCP_SEQ n) (n_out n).
Definition upd_socks (f : gmap nat TcpSocket → gmap nat TcpSocket) (n : Net) : Net :=
  mkNet (n_stack n) (udp_socks n) (UDP_PORTS n) (f (tcp_socks n)) (tcp_lists n) (TCP_LISTENERS n) (TCP_CONNS n)
    (NEXT_ID n) (NEXT_PORT n) (ARP_SEQ n) (TCP_SEQ n) (n_out n).
Definition upd_lists (f : gmap nat TcpListener → gmap nat TcpListener) (n : Net) : Net :=
  mkNet (n_stack n) (udp_socks n) (UDP_PORTS n) (tcp_socks n) (f (tcp_lists n)) (TCP_LISTENERS n) (TCP_CONNS n)
    (NEXT_ID n) (NEXT_PORT n) (ARP_SEQ n) (TCP_SEQ n) (n_out n).
Definition upd_listeners (f : gmap Z nat → gmap Z nat) (n : Net) : Net :=
  mkNet (n_stack n) (udp_socks n) (UDP_PORTS n) (tcp_socks n) (tcp_lists n) (f (TCP_LISTENERS n)) (TCP_CONNS n)
    (NEXT_ID n) (NEXT_PORT n) (ARP_SEQ n) (TCP_SEQ n) (n_out n).
Definition upd_conns (f : gmap ConnKey nat → gmap ConnKey nat) (n : Net) : Net :=
  mkNet (n_stack n) (udp_socks n) (UDP_PORTS n) (tcp_socks n) (tcp_lists n) (TCP_LISTENERS n) (f (TCP_CONNS n))
    (NEXT_ID n) (NEXT_PORT n) (ARP_SEQ n) (TCP_SEQ n) (n_out n).
Definition bump_id (n : Net) : Net :=
  mkNet (n_stack n) (udp_socks n) (UDP_PORTS n) (tcp_socks n) (tcp_lists n) (TCP_LISTENERS n) (TCP_CONNS n)
    (S (NEXT_ID n)) (NEXT_PORT n) (ARP_SEQ n) (TCP_SEQ n) (n_out n).
Definition set_seqs (arp tcp : Z) (n : Net) : Net :=
  mkNet (n_stack n) (udp_socks n) (UDP_PORTS n) (tcp_socks n) (tcp_lists n) (TCP_LISTENERS n) (TCP_CONNS n)
    (NEXT_ID n) (NEXT_PORT n) arp tcp (n_out n).
Definition upd_out (f : list bytes → list bytes) (n : Net) : Net :=
  mkNet (n_stack n) (udp_socks n) (UDP_PORTS n) (tcp_socks n) (tcp_lists n) (TCP_LISTENERS n) (TCP_CONNS n)
    (NEXT_ID n) (NEXT_PORT n) (ARP_SEQ n) (TCP_SEQ n) (f (n_out n)).
Definition set_next_port (p : Z) (n : Net) : Net :=
  mkNet (n_stack n) (udp_socks n) (UDP_PORTS n) (tcp_socks n) (tcp_lists n) (TCP_LISTENERS n) (TCP_CONNS n)
    (NEXT_ID n) p (ARP_SEQ n) (TCP_SEQ n) (n_out n).

Definition modify (f : Net → Net) : NM () := λ n, (Ok (), f n).
Definition lift {A} (r : Result A) : NM A := λ n, (r, n).
(** [let _ = e;] *)
Definition ignore {A} (m : NM A) : NM () := λ n,
  match m n with (Panic, n') => (Panic, n') | (_, n') => (Ok (), n') end.

(** ** ARP and routing *)

(** [notify_arp], [notify_tcp]: [fetch_add] wraps; the wakeup is modelled with
    the process table. *)
Definition notify_arp : NM () := modify (λ n, set_seqs (u64 (ARP_SEQ n + 1)) (TCP_SEQ n) n).
Definition notify_tcp : NM () := modify (λ n, set_seqs (ARP_SEQ n) (u64 (TCP_SEQ n + 1)) n).

(** [insert_arp]: update, else the first free entry, else entry 0. *)
Definition arp_slot (ip : Ipv4Addr) (t : list ArpEntry) : nat :=
  match list_find (λ e, arp_valid e = true ∧ arp_ip e = ip) t with
  | Some (i, _) => i
  | None => match list_find (λ e, arp_valid e = false) t with Some (i, _) => i | None => O end
  end.
Definition arp_insert (ip : Ipv4Addr) (mac : Mac) (t : list ArpEntry) : list ArpEntry :=
  <[arp_slot ip t := mkArp ip mac true]> t.
Definition set_arp (t : list ArpEntry) (s : NetStack) : NetStack :=
  mkStack (ns_mac s) (ns_ip s) (ns_netmask s) (ns_gateway s) t.
Definition insert_arp (ip : Ipv4Addr) (mac : Mac) : NM () :=
  _ ← modify (upd_stack (λ s, set_arp (arp_insert ip mac (ns_arp s)) s)); notify_arp.

(** [lookup_arp]. *)
Definition arp_lookup (ip : Ipv4Addr) (t : list ArpEntry) : option Mac :=
  (arp_mac ∘ snd) <$> list_find (λ e, arp_valid e = true ∧ arp_ip e = ip) t.

(** [route_ip]. *)
Definition route_ip (s : NetStack) (dst : Ipv4Addr) : Ipv4Addr :=
  let mask := be_val (ns_netmask s) in
  if Z.land (be_val dst) mask =? Z.land (be_val (ns_ip s)) mask then dst else ns_gateway s.

(** [alloc_ephemeral_port]. *)
Definition alloc_ephemeral_port : NM Z := λ n,
  let p := u16 (NEXT_PORT n) in
  (Ok (if p <? 49152 then 49152 else p), set_next_port (u64 (NEXT_PORT n + 1)) n).

Section net.
(** The device: what [try_send_frame] (flag [true]) or [send_frame] answers,
    given the frames sent so far. *)
Context (dev : list bytes → bytes → bool → Result ()).

Definition send_frame (frame : bytes) (nonblock : bool) : NM () := λ n,
  match dev (n_out n) frame nonblock with
  | Ok () => (Ok (), upd_out (λ l, l ++ [frame]) n)
  | r => (r, n)
  end.

Definition send_arp_request (target : Ipv4Addr) : NM () :=
  n ← m_get; send_frame (arp_request (ns_mac (n_stack n)) (ns_ip (n_stack n)) target) true.
Definition send_arp_reply (target_mac : Mac) (target_ip : Ipv4Addr) : NM () :=
  n ← m_get; send_frame (arp_reply (ns_mac (n_stack n)) (ns_ip (n_stack n)) target_mac target_ip) true.

(** [handle_arp]. *)
Definition handle_arp (payload : bytes) : NM () :=
  fields ← lift (parse_arp payload);
  match fields with
  | None => mret ()
  | Some (opcode, sender_mac, sender_ip, target_ip) =>
      _ ← insert_arp sender_ip sender_mac;
      n ← m_get;
      if (opcode =? 1) && bool_decide (target_ip = ns_ip (n_stack n))
      then ignore (send_arp_reply sender_mac sender_ip) else mret ()
  end.

(** ** UDP *)

Definition udp_alive (n : Net) (u : nat) : Prop := is_Some (udp_socks n !! u).
Definition retain_udp (n : Net) (l : list nat) : list nat := filter (udp_alive n) l.

(** [UdpSocket::enqueue]. *)
Definition udp_enqueue (u : nat) (src : SocketAddrV4) (data : bytes) : NM () := modify (upd_udp (alter
  (λ s, mkUdp (u_local_port s) (u_peer s) (u_last_peer s) (try_send (src, data) (u_chan s)).2 (u_strong s)) u)).

(** [udp_input]. *)
Definition udp_input (src_ip : Ipv4Addr) (data : bytes) : NM () :=
  fields ← lift (parse_udp data);
  match fields with
  | None => mret ()
  | Some (src_port, dst_port, payload) =>
      n ← m_get;
      match UDP_PORTS n !! dst_port with
      | None => mret ()
      | Some l =>
          let l' := retain_udp n l in
          _ ← modify (upd_ports <[dst_port := l']>);
          m_for l' (λ u, udp_enqueue u (mkAddr src_ip src_port) payload)
      end
  end.

(** ** TCP *)

(** [w.upgrade()] of a weak reference to a connection or listener. *)
Definition find_conn (n : Net) (k : ConnKey) : option nat :=
  id ← TCP_CONNS n !! k; _ ← tcp_socks n !! id; Some id.
Definition find_listener (n : Net) (port : Z) : option nat :=
  id ← TCP_LISTENERS n !! port; _ ← tcp_lists n !! id; Some id.

(** [send_ipv4_packet].  [tcp_in] is [tcp_input]: a packet to the own address
    is delivered at once. *)
Definition send_ipv4_packet (tcp_in : Ipv4Addr → Ipv4Addr → bytes → NM ())
    (proto : Z) (src dst : Ipv4Addr) (payload : bytes) (nonblock : bool) : NM () :=
  n ← m_get;
  if bool_decide (dst = ns_ip (n_stack n)) then
    if proto =? IP_PROTO_UDP then udp_input src payload
    else if proto =? IP_PROTO_TCP then tcp_in src dst payload
    else mret ()
  else
    let next_hop := route_ip (n_stack n) dst in
    match arp_lookup next_hop (ns_arp (n_stack n)) with
    | None => _ ← ignore (send_arp_request next_hop); m_err WouldBlock
    | Some mac =>
        pkt ← lift (build_ipv4_packet proto src dst payload);
        send_frame (build_eth_frame (ns_mac (n_stack n)) mac ETHERTYPE_IPV4 pkt) nonblock
    end.

(** [send_udp_segment], [send_tcp_segment] with one pass of
    [send_ipv4_blocking]: on [WouldBlock] a blocking caller sleeps on
    [ARP_SEQ] and repeats the pass. *)
Definition send_udp_segment tcp_in (src dst : SocketAddrV4) (payload : bytes) (nonblock : bool) : NM () :=
  send_ipv4_packet tcp_in IP_PROTO_UDP (sa_ip src) (sa_ip dst)
    (build_udp (sa_port src) (sa_port dst) payload) nonblock.
Definition send_tcp_segment tcp_in (src dst : SocketAddrV4) (seq ack flags : Z) (payload : bytes)
    (nonblock : bool) : NM () :=
  seg ← lift (build_tcp src dst seq ack flags payload);
  send_ipv4_packet tcp_in IP_PROTO_TCP (sa_ip src) (sa_ip dst) seg nonblock.

(** [TcpSocket::new]: the caller holds the one reference. *)
Definition tcp_new : NM nat := λ n,
  let id := NEXT_ID n in
  (Ok id, upd_socks <[id := mkTcp (mkTcpInner None None Closed 0 0 None) (sync_channel TCP_QUEUE) 1]> (bump_id n)).

Definition get_tcp (id : nat) : NM TcpSocket := λ n,
  match tcp_socks n !! id with Some t => (Ok t, n) | None => (Panic, n) end.
Definition put_tcp (id : nat) (t : TcpSocket) : NM () := modify (upd_socks <[id := t]>).
Definition put_tinner (id : nat) (t : TcpSocket) (i : TcpInner) : NM () :=
  put_tcp id (mkTcp i (t_chan t) (t_strong t)).

(** Dropping an [Arc]: the last reference frees the socket.  Its [Drop] looks
    for its own entry in [TCP_CONNS], but a weak reference to an object being
    dropped can not be upgraded any more, so the entry stays. *)
Definition drop_tcp (id : nat) : NM () :=
  t ← get_tcp id;
  match t_strong t with
  | S (S k) => put_tcp id (mkTcp (t_inner t) (t_chan t) (S k))
  | _ => modify (upd_socks (delete id))
  end.

(** [init_passive]. *)
Definition init_passive (id : nat) (local remote : SocketAddrV4) (l : nat) (seq : Z) : NM () :=
  t ← get_tcp id;
  put_tinner id t (mkTcpInner (Some local) (Some remote) SynReceived 1 (u32 (seq + 1)) (Some l)).

(** [TcpListener::enqueue] with a fresh reference to the socket. *)
Definition listener_enqueue (l id : nat) : NM () := λ n,
  match tcp_lists n !! l, tcp_socks n !! id with
  | Some ls, Some t =>
      let '(r, c) := try_send id (l_chan ls) in
      let n := upd_lists <[l := mkListener (l_port ls) c (l_strong ls)]> n in
      match r with
      | Ok () => (Ok (), upd_socks <[id := mkTcp (t_inner t) (t_chan t) (S (t_strong t))]> n)
      | r => (r, n)
      end
  | _, _ => (Ok (), n)
  end.

(** The loop [for b in payload] of [on_segment]. *)
Fixpoint push_bytes (payload : bytes) (c : Chan Z) : Chan Z :=
  match payload with
  | [] => c
  | b :: rest => match try_send b c with (Ok (), c') => push_bytes rest c' | (_, c') => c' end
  end.

(** [on_segment]. *)
Definition on_segment tcp_in (id : nat) (remote : SocketAddrV4) (seq ack flags : Z) (payload : bytes) : NM () :=
  t ← get_tcp id;
  let i := t_inner t in
  match t_state i with
  | SynSent =>
      if (Z.land flags 18 =? 18) && (ack =? t_snd i) then
        let i' := mkTcpInner (t_local i) (Some remote) Established (t_snd i) (u32 (seq + 1)) (t_listener i) in
        _ ← put_tinner id t i';
        match t_local i with
        | None => mret ()
        | Some local =>
            _ ← ignore (send_tcp_segment tcp_in local remote (t_snd i) (t_rcv i') 16 [] true);
            notify_tcp
        end
      else mret ()
  | SynReceived =>
      if negb (Z.land flags 16 =? 0) && (ack =? t_snd i) then
        _ ← put_tinner id t (mkTcpInner (t_local i) (t_peer i) Established (t_snd i) (t_rcv i) None);
        _ ← match t_listener i with Some l => ignore (listener_enqueue l id) | None => mret () end;
        notify_tcp
      else mret ()
  | Established =>
      if negb (bool_decide (payload = [])) && (seq =? t_rcv i) then
        let rcv := u32 (t_rcv i + Z.of_nat (length payload)) in
        _ ← put_tcp id (mkTcp (mkTcpInner (t_local i) (t_peer i) Established (t_snd i) rcv (t_listener i))
                          (push_bytes payload (t_chan t)) (t_strong t));
        match t_local i, t_peer i with
        | Some local, Some peer => ignore (send_tcp_segment tcp_in local peer (t_snd i) rcv 16 [] true)
        | _, _ => m_panic
        end
      else mret ()
  | Closed => mret ()
  end.

(** The end of [tcp_input]: a SYN for a listener creates a connection and
    answers SYN+ACK; the function's own reference is dropped when it returns. *)
Definition bump_snd (id : nat) (delta : Z) : NM () :=
  t ← get_tcp id;
  let i := t_inner t in
  put_tinner id t (mkTcpInner (t_local i) (t_peer i) (t_state i) (u32 (t_snd i + delta)) (t_rcv i) (t_listener i)).
Definition passive_open tcp_in (l : nat) (local remote : SocketAddrV4) (seq : Z) : NM () :=
  id ← tcp_new;
  _ ← init_passive id local remote l seq;
  _ ← modify (upd_conns <[conn_key (sa_port local) remote := id]>);
  t ← get_tcp id;
  _ ← bump_snd id 1;
  _ ← ignore (send_tcp_segment tcp_in local remote (t_snd (t_inner t)) (t_rcv (t_inner t)) 18 [] true);
  drop_tcp id.

(** [tcp_input]. *)
Definition tcp_input_body tcp_in (src_ip dst_ip : Ipv4Addr) (data : bytes) : NM () :=
  fields ← lift (parse_tcp data);
  match fields with
  | None => mret ()
  | Some g =>
      let remote := mkAddr src_ip (sg_src_port g) in
      let local := mkAddr dst_ip (sg_dst_port g) in
      let key := conn_key (sg_dst_port g) remote in
      n ← m_get;
      match find_conn n key with
      | Some id => on_segment tcp_in id remote (sg_seq g) (sg_ack g) (sg_flags g) (sg_payload g)
      | None =>
          if Z.land (sg_flags g) 2 =? 0 then mret ()
          else match find_listener n (sg_dst_port g) with
               | None => mret ()
               | Some l =>
                   passive_open tcp_in l local remote (sg_seq g)
               end
      end
  end.
Fixpoint tcp_input (fuel : nat) (src_ip dst_ip : Ipv4Addr) (data : bytes) : NM () :=
  match fuel with
  | O => m_panic
  | S fuel => tcp_input_body (tcp_input fuel) src_ip dst_ip data
  end.

(** Replies to the own address nest at most this deep; it is proved that the
    fuel does not run out. *)
Definition TCP_FUEL : nat := 4.
Definition tcp_in : Ipv4Addr → Ipv4Addr → bytes → NM () := tcp_input TCP_FUEL.

(** [handle_ipv4], [handle_frame]. *)
Definition handle_ipv4 (payload : bytes) : NM () :=
  n ← m_get;
  fields ← lift (parse_ipv4 (ns_ip (n_stack n)) payload);
  match fields with
  | None => mret ()
  | Some (proto, src, dst, data) =>
      if proto =? IP_PROTO_UDP then udp_input src data
      else if proto =? IP_PROTO_TCP then tcp_in src dst data
      else mret ()
  end.
Definition handle_frame (frame : bytes) : NM () :=
  fields ← lift (parse_eth frame);
  match fields with
  | None => mret ()
  | Some (ethertype, payload) =>
      if ethertype =? ETHERTYPE_ARP then handle_arp payload
      else if ethertype =? ETHERTYPE_IPV4 then handle_ipv4 payload
      else mret ()
  end.

(** ** Operations of UDP sockets *)

Definition udp_new : NM nat := λ n,
  let id := NEXT_ID n in
  (Ok id, upd_udp <[id := mkUdp None None None (sync_channel UDP_QUEUE) 1]> (bump_id n)).
Definition get_udp (u : nat) : NM UdpSocket := λ n,
  match udp_socks n !! u with Some s => (Ok s, n) | None => (Panic, n) end.
Definition put_udp (u : nat) (s : UdpSocket) : NM () := modify (upd_udp <[u := s]>).

(** [UdpSocket::bind]. *)
Definition udp_bind (u : nat) (port : Z) : NM () :=
  if port =? 0 then m_err InvalidArgument
  else
    n ← m_get;
    let l := retain_udp n (default [] (UDP_PORTS n !! port)) in
    match l with
    | _ :: _ => _ ← modify (upd_ports <[port := l]>); m_err ResourceBusy
    | [] =>
        _ ← modify (upd_ports <[port := [u]]>);
        s ← get_udp u;
        put_udp u (mkUdp (Some port) (u_peer s) (u_last_peer s) (u_chan s) (u_strong s))
    end.

(** [UdpSocket::connect]. *)
Definition udp_connect (u : nat) (peer : SocketAddrV4) : NM () :=
  s ← get_udp u; put_udp u (mkUdp (u_local_port s) (Some peer) (u_last_peer s) (u_chan s) (u_strong s)).

(** [Drop for UdpSocket], when the last reference goes. *)
Definition udp_drop (u : nat) : NM () :=
  s ← get_udp u;
  _ ← modify (upd_udp (delete u));
  match u_local_port s with
  | None => mret ()
  | Some port =>
      n ← m_get;
      match UDP_PORTS n !! port with
      | None => mret ()
      | Some l => match retain_udp n l with
                  | [] => modify (upd_ports (delete port))
                  | l' => modify (upd_ports <[port := l']>)
                  end
      end
  end.

Section memory.
Context {Mem : Type} `{UserMem Mem}.

(** [UdpSocket::read], non-blocking, into [n] bytes at [dst]. *)
Definition udp_read (u : nat) (mem : Mem) (dst : Z) (k : nat) : NM (nat * Mem) :=
  s ← get_udp u;
  match try_recv (u_chan s) with
  | (Ok (src, data), c) =>
      _ ← put_udp u (mkUdp (u_local_port s) (u_peer s) (Some src) c (u_strong s));
      let copy_len := Nat.min k (length data) in
      match copyout mem dst (take copy_len data) with
      | (Ok (), mem') => mret (copy_len, mem')
      | (Err e, _) => m_err e
      | (Panic, _) => m_panic
      end
  | (Err e, _) => m_err e
  | (Panic, _) => m_panic
  end.

(** [UdpSocket::write]. *)
Definition udp_write (u : nat) (mem : Mem) (src : Z) (k : nat) (nonblock : bool) : NM nat :=
  if (k =? 0)%nat then mret O
  else
    buf ← lift (copyin mem src k);
    s ← get_udp u;
    match u_peer s, u_last_peer s with
    | None, None => m_err NotConnected
    | p1, p2 =>
        let peer := default (default (mkAddr [] 0) p2) p1 in
        port ← match u_local_port s with
               | Some p => mret p
               | None =>
                   p ← alloc_ephemeral_port;
                   _ ← put_udp u (mkUdp (Some p) (u_peer s) (u_last_peer s) (u_chan s) (u_strong s));
                   _ ← udp_bind u p;
                   mret p
               end;
        n ← m_get;
        _ ← send_udp_segment tcp_in (mkAddr (ns_ip (n_stack n)) port) peer buf nonblock;
        mret k
    end.

(** ** Operations of TCP sockets *)

(** [TcpSocket::read], non-blocking: one byte at least, then what is there. *)
Fixpoint tcp_read_more (todo : nat) (mem : Mem) (dst : Z) (count : nat) (c : Chan Z) :
    Result (nat * Mem) * Chan Z :=
  match todo with
  | O => (Ok (count, mem), c)
  | S todo =>
      match try_recv c with
      | (Ok b, c') =>
          match copyout mem dst [b] with
          | (Ok (), mem') => tcp_read_more todo mem' (dst + 1) (S count) c'
          | (Err e, _) => (Err e, c')
          | (Panic, _) => (Panic, c')
          end
      | (_, c') => (Ok (count, mem), c')
      end
  end.
Definition tcp_read (id : nat) (mem : Mem) (dst : Z) (k : nat) : NM (nat * Mem) :=
  if (k =? 0)%nat then mret (O, mem)
  else
    t ← get_tcp id;
    match try_recv (t_chan t) with
    | (Ok b, c) =>
        match copyout mem dst [b] with
        | (Ok (), mem') =>
            let '(r, c') := tcp_read_more (k - 1) mem' (dst + 1) 1 c in
            _ ← put_tcp id (mkTcp (t_inner t) c' (t_strong t)); lift r
        | (Err e, _) => _ ← put_tcp id (mkTcp (t_inner t) c (t_strong t)); m_err e
        | (Panic, _) => m_panic
        end
    | (Err e, c) => m_err e
    | (Panic, _) => m_panic
    end.

(** [TcpSocket::write]: segments of at most [MSS] bytes. *)
Fixpoint tcp_write_loop (fuel : nat) (local peer : SocketAddrV4) (seq ack : Z) (mem : Mem) (src : Z)
    (todo : nat) (nonblock : bool) : NM Z :=
  match fuel, todo with
  | _, O => mret seq
  | O, _ => m_panic
  | S fuel, _ =>
      let chunk := Nat.min todo MSS in
      buf ← lift (copyin mem src chunk);
      _ ← send_tcp_segment tcp_in local peer seq ack 24 buf nonblock;
      tcp_write_loop fuel local peer (u32 (seq + Z.of_nat chunk)) ack mem (src + Z.of_nat chunk)
        (todo - chunk) nonblock
  end.
Definition tcp_write (id : nat) (mem : Mem) (src : Z) (k : nat) (nonblock : bool) : NM nat :=
  t ← get_tcp id;
  let i := t_inner t in
  if negb (bool_decide (t_state i = Established)) then m_err NotConnected
  else match t_local i, t_peer i with
       | Some local, Some peer =>
           seq ← tcp_write_loop k local peer (t_snd i) (t_rcv i) mem src k nonblock;
           t' ← get_tcp id;
           let i' := t_inner t' in
           _ ← put_tinner id t' (mkTcpInner (t_local i') (t_peer i') (t_state i') seq (t_rcv i') (t_listener i'));
           mret k
       | _, _ => m_err NotConnected
       end.
End memory.

(** [TcpSocket::bind]. *)
Definition tcp_bind (id : nat) (port : Z) : NM () :=
  if port =? 0 then m_err InvalidArgument
  else
    t ← get_tcp id; n ← m_get;
    let i := t_inner t in
    put_tinner id t (mkTcpInner (Some (mkAddr (ns_ip (n_stack n)) port)) (t_peer i) (t_state i) (t_snd i) (t_rcv i)
                       (t_listener i)).

(** [TcpSocket::connect] up to the wait: [true] when already established. *)
Definition tcp_connect (id : nat) (peer : SocketAddrV4) (nonblock : bool) : NM bool :=
  t ← get_tcp id;
  let i := t_inner t in
  if bool_decide (t_state i = Established) then mret true
  else
    n ← m_get;
    local ← match t_local i with
            | Some a => mret a
            | None => p ← alloc_ephemeral_port; mret (mkAddr (ns_ip (n_stack n)) p)
            end;
    _ ← put_tinner id t (mkTcpInner (Some local) (Some peer) SynSent 1 0 (t_listener i));
    let local' := mkAddr (ns_ip (n_stack n)) (sa_port local) in
    _ ← modify (upd_conns <[conn_key (sa_port local) peer := id]>);
    _ ← ignore (send_tcp_segment tcp_in local' peer 0 0 2 [] nonblock);
    if nonblock then m_err WouldBlock else mret false.

(** One pass of the waiting loop of [connect]. *)
Definition tcp_connect_wait (killed : bool) (id : nat) (n : Net) : blocking Error () :=
  match tcp_socks n !! id with
  | None => Returns Panic
  | Some t =>
      match t_state (t_inner t) with
      | Established => Returns (Ok ())
      | Closed => Returns (Err NotConnected)
      | _ => if killed then Returns (Err Interrupted) else Sleeps
      end
  end.

(** [TcpListener::new], [register], [accept] (non-blocking). *)
Definition listener_new (backlog port : Z) : NM nat := λ n,
  let id := NEXT_ID n in
  (Ok id, upd_lists <[id := mkListener port (sync_channel (Z.max 1 (Z.min backlog TCP_BACKLOG_MAX))) 1]> (bump_id n)).
Definition listener_register (l : nat) : NM () := λ n,
  match tcp_lists n !! l with
  | None => (Panic, n)
  | Some ls =>
      match find_listener n (l_port ls) with
      | Some _ => (Err ResourceBusy, n)
      | None => (Ok (), upd_listeners <[l_port ls := l]> n)
      end
  end.
Definition listener_accept (l : nat) : NM nat := λ n,
  match tcp_lists n !! l with
  | None => (Panic, n)
  | Some ls =>
      match try_recv (l_chan ls) with
      | (Ok id, c) => (Ok id, upd_lists <[l := mkListener (l_port ls) c (l_strong ls)]> n)
      | (Err e, c) => (Err e, upd_lists <[l := mkListener (l_port ls) c (l_strong ls)]> n)
      | (Panic, _) => (Panic, n)
      end
  end.
End net.
