(* ===== verification/NetInv.v ===== *)
(** * Safety of the network stack

    An invariant of the socket tables, and that handling any frame, whatever
    its contents, ends without a panic and preserves it: in particular the
    replies a packet to the own address triggers do not recurse for ever. *)

From stdpp Require Import base tactics numbers gmap list.
From S2P Require Import Prelude Errors Bytes SemTable Mpmc UserMem NetFmt Net.
Local Open Scope Z_scope.

Definition seq_ok (z : Z) : Prop := 0 ≤ z < 2 ^ 32.

Record tcp_ok (t : TcpSocket) : Prop := {
  to_strong : (1 ≤ t_strong t)%nat;
  to_snd : seq_ok (t_snd (t_inner t));
  to_rcv : seq_ok (t_rcv (t_inner t));
  to_addrs : t_state (t_inner t) ≠ Closed →
    ∃ local peer, t_local (t_inner t) = Some local ∧ t_peer (t_inner t) = Some peer ∧ sock_ok local ∧ sock_ok peer;
}.

Record net_ok (n : Net) : Prop := {
  no_ip : addr_ok (ns_ip (n_stack n));
  no_tcp : map_Forall (λ id t, tcp_ok t ∧ (id < NEXT_ID n)%nat) (tcp_socks n);
  no_conns : map_Forall (λ _ id, (id < NEXT_ID n)%nat) (TCP_CONNS n);
}.

(** What input processing preserves: live connections stay registered and
    alive, and the own address stays. *)
Record grows (n n' : Net) : Prop := {
  gr_ip : ns_ip (n_stack n') = ns_ip (n_stack n);
  gr_id : (NEXT_ID n ≤ NEXT_ID n')%nat;
  gr_socks : ∀ id t, tcp_socks n !! id = Some t →
    ∃ t', tcp_socks n' !! id = Some t' ∧ (t_strong t ≤ t_strong t')%nat;
  gr_conns : ∀ k id, find_conn n k = Some id → find_conn n' k = Some id;
}.

Global Instance grows_preorder : PreOrder grows.
Proof.
  split.
  - intros n. split; eauto.
  - intros a b c [A1 A2 A3 A4] [B1 B2 B3 B4]. split; [congruence|lia| |by auto].
    intros id t Ht. destruct (A3 id t Ht) as (t1&Ht1&?). destruct (B3 id t1 Ht1) as (t2&?&?).
    exists t2. split; [done|lia].
Qed.

Definition good (n n' : Net) : Prop := net_ok n' ∧ grows n n'.
(** [m] runs from [n] without panic or error and keeps the invariant. *)
Definition safe (m : NM ()) (n : Net) : Prop := ∃ n', m n = (Ok (), n') ∧ good n n'.

Lemma good_refl n : net_ok n → good n n.
Proof. by split. Qed.

Lemma good_trans a b c : good a b → good b c → good a c.
Proof. intros [_ ?] [? ?]. split; [done|]. by etrans. Qed.

Lemma safe_ret n : net_ok n → safe (mret ()) n.
Proof. intros H. exists n. split; [done|by apply good_refl]. Qed.

Lemma safe_bind m (f : () → NM ()) n :
  safe m n → (∀ n', good n n' → safe (f ()) n') → safe (m ≫= f) n.
Proof.
  intros (n1&H1&G1) Hf. destruct (Hf n1 G1) as (n2&H2&G2). exists n2.
  split; [|by eapply good_trans]. unfold mbind, M_bind. by rewrite H1.
Qed.

Lemma bind_lift_ok {A B} (a : A) (f : A → NM B) : (lift (Ok a) ≫= f) = f a.
Proof. done. Qed.

Lemma safe_get (f : Net → NM ()) n : safe (f n) n → safe (m_get ≫= f) n.
Proof. done. Qed.

Lemma safe_get_tcp id t (f : TcpSocket → NM ()) n :
  tcp_socks n !! id = Some t → safe (f t) n → safe (get_tcp id ≫= f) n.
Proof. intros Ht. unfold safe, mbind, M_bind, get_tcp. by rewrite Ht. Qed.

Lemma safe_modify f n : good n (f n) → safe (modify f) n.
Proof. intros H. by exists (f n). Qed.

Lemma safe_ignore {A} (m : NM A) n : wp m (λ _, good n) (good n) n → safe (ignore m) n.
Proof. unfold wp, safe, ignore. destruct (m n) as [[] n']; [eauto..|done]. Qed.

Lemma find_conn_Some n k id : find_conn n k = Some id ↔ TCP_CONNS n !! k = Some id ∧ is_Some (tcp_socks n !! id).
Proof.
  unfold find_conn. destruct (TCP_CONNS n !! k) as [j|]; simpl; [|split; [done|by intros []]].
  destruct (tcp_socks n !! j) eqn:E; simpl; split.
  - intros [= <-]. split; [done|]. by rewrite E.
  - by intros [[= <-] _].
  - done.
  - intros [[= <-] H]. rewrite E in H. by destruct H.
Qed.

(** Changes that touch neither the TCP sockets nor the connections. *)
Lemma good_frame n n' :
  net_ok n → ns_ip (n_stack n') = ns_ip (n_stack n) → tcp_socks n' = tcp_socks n →
  TCP_CONNS n' = TCP_CONNS n → NEXT_ID n' = NEXT_ID n → good n n'.
Proof.
  intros [H1 H2 H3] E1 E2 E3 E4. split.
  - split; [by rewrite E1|by rewrite E2, E4|by rewrite E3, E4].
  - split; [done|lia|rewrite E2; eauto|]. intros k id. rewrite !find_conn_Some. by rewrite E2, E3.
Qed.

(** Replacing the contents of a live socket. *)
Lemma good_put n id t t' :
  net_ok n → tcp_socks n !! id = Some t → tcp_ok t' → (t_strong t ≤ t_strong t')%nat →
  good n (upd_socks <[id := t']> n).
Proof.
  intros [H1 H2 H3] Ht Hok Hs. split.
  - split; [done| |done]. simpl. apply map_Forall_insert_2; [|done]. split; [done|]. by eapply H2.
  - split; [done|simpl; lia| |].
    + intros j u Hu. simpl. destruct (decide (j = id)) as [->|Hne].
      * rewrite lookup_insert_eq. exists t'. split; [done|]. congruence.
      * rewrite lookup_insert_ne by done. eauto.
    + intros k j. rewrite !find_conn_Some. simpl. intros [? ?]. split; [done|].
      destruct (decide (j = id)) as [->|Hne]; [by rewrite lookup_insert_eq|by rewrite lookup_insert_ne].
Qed.

Lemma tcp_lookup n id t : net_ok n → tcp_socks n !! id = Some t → tcp_ok t.
Proof. intros Hn Ht. by destruct (no_tcp _ Hn id t Ht). Qed.

Lemma safe_notify n : net_ok n → safe notify_tcp n.
Proof. intros Hn. apply safe_modify, good_frame; done. Qed.

Lemma u32_seq z : seq_ok (u32 z).
Proof. apply wrap_range. lia. Qed.
#[export] Hint Resolve u32_seq : kernel.

Section safety.
Context (dev : list bytes → bytes → bool → Result ()).
(** The device refuses or accepts frames; it does not crash. *)
Hypothesis dev_ok : ∀ out f nb, dev out f nb ≠ Panic.

Lemma send_frame_wp n frame nb : net_ok n → wp (send_frame dev frame nb) (λ _, good n) (good n) n.
Proof using dev_ok.
  intros Hn. unfold wp, send_frame. pose proof (dev_ok (n_out n) frame nb) as Hd.
  destruct (dev (n_out n) frame nb) as [[]|e|]; [by apply good_frame|by apply good_refl|done].
Qed.

(** Sending a segment without payload, as all replies are, when delivering it
    to the own address is safe. *)
Lemma send_tcp_wp tcp_in src dst seq ack flags n :
  net_ok n → sock_ok src → sock_ok dst → seq_ok seq → seq_ok ack → 0 ≤ flags < 256 →
  (∀ data, parse_tcp data = Ok (Some (mkSeg (sa_port src) (sa_port dst) seq ack flags [])) →
     sa_ip dst = ns_ip (n_stack n) → safe (tcp_in (sa_ip src) (sa_ip dst) data) n) →
  wp (send_tcp_segment dev tcp_in src dst seq ack flags [] true) (λ _, good n) (good n) n.
Proof using dev_ok.
  intros Hn Hs Hd Hseq Hack Hfl Hin. unfold send_tcp_segment.
  destruct (build_tcp_ok src dst seq ack flags [] Hs Hd) as (c&_&Hb&_); [by split; [constructor|]|].
  apply wp_bind. unfold wp at 1, lift. rewrite Hb.
  unfold send_ipv4_packet. apply wp_bind. unfold wp at 1, m_get. case_bool_decide as Hip.
  - change (IP_PROTO_TCP =? IP_PROTO_UDP) with false. change (IP_PROTO_TCP =? IP_PROTO_TCP) with true. cbv iota.
    destruct (Hin (tcp_header src dst seq ack flags c ++ [])) as (n'&Hrun&Hg); [|done|].
    + apply parse_tcp_header; [apply Hs|apply Hd|done..].
    + unfold wp. by rewrite Hrun.
  - destruct (arp_lookup _ _) as [mac|].
    + destruct (build_ipv4_ok IP_PROTO_TCP (sa_ip src) (sa_ip dst) (tcp_header src dst seq ack flags c ++ []))
        as (c2&_&Hp&_); [done|apply Hs|apply Hd|].
      apply wp_bind. unfold wp at 1, lift. rewrite Hp. by apply send_frame_wp.
    + apply wp_bind. destruct (safe_ignore (send_arp_request dev (route_ip (n_stack n) (sa_ip dst))) n) as (n'&Hrun&Hg).
      * unfold send_arp_request. apply wp_bind. unfold wp at 1, m_get. by apply send_frame_wp.
      * unfold wp at 1. rewrite Hrun. exact Hg.
Qed.

Lemma listener_enqueue_wp n l id :
  net_ok n → wp (listener_enqueue l id) (λ _, good n) (good n) n.
Proof using.
  intros Hn. unfold wp, listener_enqueue. destruct (tcp_lists n !! l) as [ls|]; [|by apply good_refl].
  destruct (tcp_socks n !! id) as [t|] eqn:Ht; [|by apply good_refl].
  pose proof (tcp_lookup _ _ _ Hn Ht) as Hok.
  assert (Hc : (try_send id (l_chan ls)).1 ≠ Panic).
  { unfold try_send, try_acquire, sem_try_wait. by repeat case_match; simplify_eq. }
  destruct (try_send id (l_chan ls)) as [r c].
  set (n1 := upd_lists _ n). assert (G1 : good n n1) by (by apply good_frame).
  destruct r as [[]|e|]; [|done..].
  eapply good_trans; [exact G1|]. destruct Hok as [O1 O2 O3 O4].
  apply good_put with t; [apply G1|done|by split; [simpl; lia|done..]|simpl; lia].
Qed.

(** An acknowledgement without payload triggers no reply. *)
Lemma tcp_ack_safe f src_ip dst_ip data sp dp seq ack n :
  net_ok n → parse_tcp data = Ok (Some (mkSeg sp dp seq ack 16 [])) →
  safe (tcp_input dev (S f) src_ip dst_ip data) n.
Proof using.
  intros Hn Hp. cbn [tcp_input]. unfold tcp_input_body. rewrite Hp, bind_lift_ok. cbn [sg_src_port sg_dst_port sg_flags sg_seq sg_ack sg_payload].
  apply safe_get. cbv zeta. destruct (find_conn n _) as [id|] eqn:Hf; [|by apply safe_ret].
  apply find_conn_Some in Hf as [_ [t Ht]]. pose proof (tcp_lookup _ _ _ Hn Ht) as Hok.
  unfold on_segment. apply (safe_get_tcp _ t); [done|]. cbv zeta. destruct (t_state (t_inner t)) eqn:Hst; [by apply safe_ret|by apply safe_ret| |by apply safe_ret].
  destruct (negb _ && _); [|by apply safe_ret].
  apply safe_bind.
  - apply safe_modify, good_put with t; [done..| |done]. destruct Hok as [O1 O2 O3 O4].
    split; [done..|]. intros _. apply O4. by rewrite Hst.
  - intros n1 [Hn1 _]. apply safe_bind; [|intros n2 [Hn2 _]; by apply safe_notify].
    destruct (t_listener _); [|by apply safe_ret]. by apply safe_ignore, listener_enqueue_wp.
Qed.

Lemma on_segment_safe f id t remote seq ack flags payload n :
  net_ok n → tcp_socks n !! id = Some t → sock_ok remote →
  safe (on_segment dev (tcp_input dev (S f)) id remote seq ack flags payload) n.
Proof using dev_ok.
  intros Hn Ht Hr. pose proof (tcp_lookup _ _ _ Hn Ht) as [O1 O2 O3 O4].
  assert (Hack : ∀ n1 src dst s a, net_ok n1 → sock_ok src → sock_ok dst → seq_ok s → seq_ok a →
    safe (ignore (send_tcp_segment dev (tcp_input dev (S f)) src dst s a 16 [] true)) n1).
  { intros n1 src dst s a ?????. apply safe_ignore, send_tcp_wp; try done.
    intros data Hp _. by eapply tcp_ack_safe. }
  unfold on_segment. apply (safe_get_tcp _ t); [done|]. cbv zeta.
  destruct (t_state (t_inner t)) eqn:Hst.
  - by apply safe_ret.
  - destruct (_ && _); [|by apply safe_ret]. destruct O4 as (local&peer&Hl&Hp&Hlo&Hpo); [done|].
    apply safe_bind.
    + apply safe_modify, good_put with t; [done..| |done]. split; [done|done|apply u32_seq|]. intros _. by exists local, remote.
    + intros n1 [Hn1 _]. rewrite Hl. apply safe_bind; [|intros n2 [Hn2 _]; by apply safe_notify].
      apply Hack; try done; apply u32_seq.
  - destruct (negb _ && _); [|by apply safe_ret]. apply safe_bind.
    + apply safe_modify, good_put with t; [done..| |done]. split; [done..|]. intros _. by apply O4.
    + intros n1 [Hn1 _]. apply safe_bind; [|intros n2 [Hn2 _]; by apply safe_notify].
      destruct (t_listener _); [|by apply safe_ret]. by apply safe_ignore, listener_enqueue_wp.
  - destruct (negb _ && _); [|by apply safe_ret]. destruct O4 as (local&peer&Hl&Hp&Hlo&Hpo); [done|].
    apply safe_bind.
    + apply safe_modify, good_put with t; [done..| |done]. split; [done|done|apply u32_seq|]. intros _. by exists local, peer.
    + intros n1 [Hn1 _]. rewrite Hl, Hp. apply Hack; try done; apply u32_seq.
Qed.

(** The state in which the SYN+ACK of a passive open is sent. *)
Definition opened (n : Net) (l : nat) (local remote : SocketAddrV4) (seq : Z) : Net :=
  upd_conns <[conn_key (sa_port local) remote := NEXT_ID n]>
    (upd_socks <[NEXT_ID n := mkTcp (mkTcpInner (Some local) (Some remote) SynReceived 2 (u32 (seq + 1)) (Some l))
                                (sync_channel TCP_QUEUE) 1]> (bump_id n)).

Lemma passive_open_run tcp_in l local remote seq n :
  passive_open dev tcp_in l local remote seq n =
    (_ ← ignore (send_tcp_segment dev tcp_in local remote 1 (u32 (seq + 1)) 18 [] true); drop_tcp (NEXT_ID n))
      (opened n l local remote seq).
Proof using.
  unfold passive_open, tcp_new, init_passive, bump_snd, put_tinner, put_tcp, get_tcp, modify, mbind, M_bind.
  simpl. do 3 (rewrite ?insert_insert_eq, ?lookup_insert_eq; simpl).
  unfold opened, upd_conns, upd_socks, bump_id. simpl. by rewrite !insert_insert_eq.
Qed.

Lemma find_conn_insert n k id : is_Some (tcp_socks n !! id) → find_conn (upd_conns <[k := id]> n) k = Some id.
Proof using. intros H. apply find_conn_Some. simpl. by rewrite lookup_insert_eq. Qed.

Lemma opened_good n l local remote seq :
  net_ok n → sock_ok local → sock_ok remote → find_conn n (conn_key (sa_port local) remote) = None →
  good n (opened n l local remote seq) ∧
  find_conn (opened n l local remote seq) (conn_key (sa_port local) remote) = Some (NEXT_ID n).
Proof using.
  intros [H1 H2 H3] Hl Hr Hnone.
  assert (Hfresh : tcp_socks n !! NEXT_ID n = None).
  { destruct (tcp_socks n !! NEXT_ID n) as [t|] eqn:E; [|done]. destruct (H2 _ _ E). lia. }
  split; [split|].
  - split; simpl; [done| |].
    + apply map_Forall_insert_2; [split; [|lia]|].
      * split; simpl; [done|by split|apply u32_seq|]. intros _. by exists local, remote.
      * intros id t Ht. destruct (H2 id t Ht). split; [done|lia].
    + apply map_Forall_insert_2; [lia|]. intros k id Hk. specialize (H3 k id Hk). simpl in H3. lia.
  - split; simpl; [done|lia| |].
    + intros id t Ht. rewrite lookup_insert_ne by congruence. eauto.
    + intros k id Hk. apply find_conn_Some. simpl.
      destruct (decide (k = conn_key (sa_port local) remote)) as [->|Hne]; [congruence|].
      apply find_conn_Some in Hk as [Hk1 [t Ht]]. rewrite lookup_insert_ne by done. split; [done|].
      rewrite lookup_insert_ne by congruence. by rewrite Ht.
  - apply find_conn_insert. simpl. by rewrite lookup_insert_eq.
Qed.

(** Dropping the reference of a passive open leaves the older sockets alone. *)
Lemma drop_fresh n n1 id t :
  net_ok n1 → grows n n1 → (NEXT_ID n ≤ id)%nat → net_ok n → tcp_socks n1 !! id = Some t →
  ∃ n2, drop_tcp id n1 = (Ok (), n2) ∧ good n n2.
Proof using.
  intros Hn1 Hg Hid Hn Ht. pose proof (tcp_lookup _ _ _ Hn1 Ht) as [O1 O2 O3 O4].
  unfold drop_tcp, mbind, M_bind, get_tcp. rewrite Ht.
  assert (Hold : ∀ j u, tcp_socks n !! j = Some u → j ≠ id).
  { intros j u Hu ->. destruct (no_tcp _ Hn _ _ Hu). lia. }
  destruct Hn1 as [M1 M2 M3]. destruct Hg as [G1 G2 G3 G4].
  assert (Hrest : ∀ m', (∀ j, j ≠ id → m' !! j = tcp_socks n1 !! j) →
    map_Forall (λ j u, tcp_ok u ∧ (j < NEXT_ID n1)%nat) m' → good n (upd_socks (λ _, m') n1)).
  { intros m' Hm Hall. split; [by split|]. split; simpl; [done|done| |].
    - intros j u Hu. rewrite Hm by (by eapply Hold). by apply G3.
    - intros k j Hk. specialize (G4 k j Hk) as G. apply find_conn_Some in G as [? ?].
      apply find_conn_Some in Hk as [_ [u Hu]]. apply find_conn_Some. simpl. split; [done|].
      by rewrite Hm by (by eapply Hold). }
  destruct (t_strong t) as [|[|k]] eqn:Hs; (eexists; split; [done|]).
  - lia.
  - apply (Hrest (delete id (tcp_socks n1))); [intros; by rewrite lookup_delete_ne|].
    by apply map_Forall_delete.
  - apply (Hrest (<[id := mkTcp (t_inner t) (t_chan t) (S k)]> (tcp_socks n1))); [intros; by rewrite lookup_insert_ne|].
    apply map_Forall_insert_2; [|done]. split; [by split; [simpl; lia|..]|]. by eapply M2.
Qed.

Lemma passive_open_safe tcp_in l local remote seq n :
  net_ok n → sock_ok local → sock_ok remote → seq_ok seq →
  find_conn n (conn_key (sa_port local) remote) = None →
  (∀ data s a, let n1 := opened n l local remote seq in
     parse_tcp data = Ok (Some (mkSeg (sa_port local) (sa_port remote) s a 18 [])) → seq_ok s → seq_ok a →
     sa_ip remote = ns_ip (n_stack n) →
     safe (tcp_in (sa_ip local) (sa_ip remote) data) n1) →
  safe (passive_open dev tcp_in l local remote seq) n.
Proof using dev_ok.
  intros Hn Hl Hr Hseq Hnone Hin. destruct (opened_good n l local remote seq Hn Hl Hr Hnone) as [Hg Hf].
  unfold safe. rewrite passive_open_run. set (n1 := opened n l local remote seq) in *.
  destruct (safe_ignore (send_tcp_segment dev tcp_in local remote 1 (u32 (seq + 1)) 18 [] true) n1) as (n2&Hrun&Hg2).
  { apply send_tcp_wp; [apply Hg|done|done|done|apply u32_seq|done|].
    intros data Hp Hip. eapply Hin; [done|done|apply u32_seq|]. rewrite Hip. apply (gr_ip _ _ (proj2 Hg)). }
  unfold mbind, M_bind. rewrite Hrun.
  assert (Hid : is_Some (tcp_socks n2 !! NEXT_ID n)).
  { destruct Hg2 as [_ [_ _ _ G]]. specialize (G _ _ Hf). apply find_conn_Some in G. apply G. }
  destruct Hid as [t Ht].
  apply (drop_fresh n n2 (NEXT_ID n) t); [apply Hg2|etrans; [apply Hg|apply Hg2]|lia|done|done].
Qed.

Definition seg_ok (g : TcpSeg) : Prop :=
  is_u16 (sg_src_port g) ∧ is_u16 (sg_dst_port g) ∧ seq_ok (sg_seq g) ∧ seq_ok (sg_ack g).
Definition seg_key (src_ip : Ipv4Addr) (g : TcpSeg) : ConnKey :=
  conn_key (sg_dst_port g) (mkAddr src_ip (sg_src_port g)).

(** A segment of a known connection: at most one reply, which ends there. *)
Lemma tcp_found_safe f src_ip dst_ip data g id n :
  net_ok n → addr_ok src_ip → parse_tcp data = Ok (Some g) → seg_ok g → find_conn n (seg_key src_ip g) = Some id →
  safe (tcp_input dev (S (S f)) src_ip dst_ip data) n.
Proof using dev_ok.
  intros Hn Hs Hp (Hsp&_) Hf. cbn [tcp_input]. unfold tcp_input_body. rewrite Hp, bind_lift_ok. apply safe_get. cbv zeta.
  unfold seg_key in Hf. rewrite Hf. apply find_conn_Some in Hf as [_ [t Ht]].
  by eapply on_segment_safe.
Qed.

(** The other case: nothing, or a passive open. *)
Lemma tcp_new_safe k src_ip dst_ip data g n :
  net_ok n → addr_ok src_ip → addr_ok dst_ip → parse_tcp data = Ok (Some g) → seg_ok g →
  find_conn n (seg_key src_ip g) = None →
  (∀ l data' s a,
     let local := mkAddr dst_ip (sg_dst_port g) in
     let remote := mkAddr src_ip (sg_src_port g) in
     let n1 := opened n l local remote (sg_seq g) in
     parse_tcp data' = Ok (Some (mkSeg (sg_dst_port g) (sg_src_port g) s a 18 [])) → seq_ok s → seq_ok a →
     src_ip = ns_ip (n_stack n) → safe (tcp_input dev k dst_ip src_ip data') n1) →
  safe (tcp_input dev (S k) src_ip dst_ip data) n.
Proof using dev_ok.
  intros Hn Hs Hd Hp (Hsp&Hdp&Hseq&Hack) Hf Hin. cbn [tcp_input]. unfold tcp_input_body. rewrite Hp, bind_lift_ok.
  apply safe_get. cbv zeta. unfold seg_key in Hf. rewrite Hf.
  destruct (Z.land _ 2 =? 0); [by apply safe_ret|].
  destruct (find_listener n _) as [l|]; [|by apply safe_ret].
  by apply passive_open_safe; [..|intros; eapply Hin].
Qed.

Lemma tcp_reply_safe f src_ip dst_ip data sp dp s a n :
  net_ok n → addr_ok src_ip → addr_ok dst_ip → parse_tcp data = Ok (Some (mkSeg sp dp s a 18 [])) →
  seg_ok (mkSeg sp dp s a 18 []) →
  (src_ip = ns_ip (n_stack n) → is_Some (find_conn n (conn_key sp (mkAddr dst_ip dp)))) →
  safe (tcp_input dev (S (S (S f))) src_ip dst_ip data) n.
Proof using dev_ok.
  intros Hn Hs Hd Hp Hg Hrev. destruct (find_conn n (seg_key src_ip (mkSeg sp dp s a 18 []))) as [id|] eqn:Hf.
  { by eapply tcp_found_safe. }
  eapply tcp_new_safe; [done..|]. cbn [sg_dst_port sg_src_port sg_seq]. intros l data' s' a' Hp' Hs' Ha' Hip.
  destruct (opened_good n l (mkAddr dst_ip dp) (mkAddr src_ip sp) s Hn) as [[Hn1 Hg1] _]; [by split; [|apply Hg]..|done|].
  destruct (Hrev Hip) as [id Hid]. apply (gr_conns _ _ Hg1) in Hid.
  eapply tcp_found_safe; [exact Hn1|exact Hd|exact Hp'| |exact Hid]. destruct Hg as (?&?&_). by split_and!.
Qed.

(** Any segment is processed in four levels of nesting. *)
Lemma tcp_input_safe f src_ip dst_ip data g n :
  net_ok n → addr_ok src_ip → addr_ok dst_ip → parse_tcp data = Ok (Some g) → seg_ok g →
  safe (tcp_input dev (S (S (S (S f)))) src_ip dst_ip data) n.
Proof using dev_ok.
  intros Hn Hs Hd Hp Hg. destruct (find_conn n (seg_key src_ip g)) as [id|] eqn:Hf.
  { by eapply tcp_found_safe. }
  eapply tcp_new_safe; [done..|]. intros l data' s' a' local remote n1 Hp' Hs' Ha' Hip.
  destruct Hg as (G1&G2&G3&G4).
  destruct (opened_good n l local remote (sg_seq g) Hn) as [[Hn1 Hg1] Hf1]; [by split..|done|].
  eapply tcp_reply_safe; [exact Hn1|done|done|exact Hp'|by split_and!|]. intros _. by exists (NEXT_ID n).
Qed.

(** ** Parsed fields are in range *)

Lemma be_val_range bs : Forall is_byte bs → 0 ≤ be_val bs < 2 ^ (8 * Z.of_nat (length bs)).
Proof using. intros H. unfold be_val. rewrite <-length_rev. apply le_val_range. by apply Forall_rev. Qed.

Lemma Forall_read_at off k p : Forall is_byte p → Forall is_byte (read_at off k p).
Proof using. intros H. unfold read_at. by apply Forall_take, Forall_drop. Qed.

Lemma field_range off k p : Forall is_byte p → (off + k ≤ length p)%nat →
  0 ≤ be_val (read_at off k p) < 2 ^ (8 * Z.of_nat k).
Proof using.
  intros Hp Hl. pose proof (be_val_range _ (Forall_read_at off k p Hp)) as H. by rewrite length_read_at in H.
Qed.

Lemma octets_addr off p : Forall is_byte p → (off + 4 ≤ length p)%nat → addr_ok (read_at off 4 p).
Proof using. intros Hp Hl. split; [by apply length_read_at|by apply Forall_read_at]. Qed.

(** The length tests are exactly what the accesses need: no parser panics,
    and what it finds is in range. *)
Lemma parse_tcp_ok d : Forall is_byte d →
  ∃ r, parse_tcp d = Ok r ∧ match r with Some g => seg_ok g | None => True end.
Proof using.
  intros Hd. unfold parse_tcp. destruct (Nat.ltb_spec (length d) 20); [by eexists|].
  rewrite !be_at_ok, !byte_at_ok by lia. cbn [mbind outcome_bind].
  destruct (Nat.ltb_spec (Z.to_nat (Z.shiftr (d !!! 12%nat) 4 * 4)) 20); [by eexists|].
  destruct (Nat.ltb_spec (length d) (Z.to_nat (Z.shiftr (d !!! 12%nat) 4 * 4))); [by eexists|].
  cbn [orb]. rewrite slice_ok by lia. eexists. split; [done|]. cbn [sg_src_port].
  split_and!; apply field_range; try done; lia.
Qed.

Lemma parse_ipv4_ok my p : Forall is_byte p →
  ∃ r, parse_ipv4 my p = Ok r ∧
    match r with
    | Some (proto, src, dst, data) => addr_ok src ∧ addr_ok dst ∧ Forall is_byte data
    | None => True
    end.
Proof using.
  intros Hp. unfold parse_ipv4. destruct (Nat.ltb_spec (length p) 20); [by eexists|].
  rewrite !be_at_ok, !byte_at_ok, !octets_at_ok by lia. cbn [mbind outcome_bind].
  destruct (negb _); [by eexists|]. set (ihl := Z.to_nat (Z.land _ 15 * 4)).
  set (total := Z.to_nat (be_val _)).
  destruct (Nat.ltb_spec (length p) ihl); [by eexists|]. destruct (Nat.ltb_spec total ihl); [by eexists|].
  destruct (Nat.ltb_spec (length p) total); [by eexists|]. cbn [orb]. destruct (negb _); [by eexists|].
  rewrite slice_ok by lia. eexists. split; [done|]. cbn beta iota.
  split_and!; [apply octets_addr; [done|lia]..|by apply Forall_read_at].
Qed.

Lemma parse_udp_ok d : ∃ r, parse_udp d = Ok r.
Proof using.
  unfold parse_udp. destruct (Nat.ltb_spec (length d) 8); [by eexists|].
  rewrite !be_at_ok by lia. cbn [mbind outcome_bind]. set (len := Z.to_nat _).
  destruct (Nat.ltb_spec len 8); [by eexists|]. destruct (Nat.ltb_spec (length d) len); [by eexists|].
  cbn [orb]. rewrite slice_ok by lia. by eexists.
Qed.

Lemma parse_arp_ok p : ∃ r, parse_arp p = Ok r.
Proof using.
  unfold parse_arp. destruct (Nat.ltb_spec (length p) 28); [by eexists|].
  rewrite be_at_ok, slice_ok, !octets_at_ok by lia. by eexists.
Qed.

Lemma parse_eth_ok frame : Forall is_byte frame →
  ∃ r, parse_eth frame = Ok r ∧ match r with Some (_, p) => Forall is_byte p | None => True end.
Proof using.
  intros Hf. unfold parse_eth. destruct (Nat.ltb_spec (length frame) 14); [by eexists|].
  rewrite be_at_ok, slice_ok by lia. eexists. split; [done|]. by apply Forall_read_at.
Qed.

Lemma udp_input_safe src data n : net_ok n → safe (udp_input src data) n.
Proof using.
  intros Hn. unfold udp_input. destruct (parse_udp_ok data) as [[[[sp dp] payload]|] ->];
    rewrite bind_lift_ok; [|by apply safe_ret].
  apply safe_get. destruct (UDP_PORTS n !! dp) as [l|]; [|by apply safe_ret]. cbv zeta.
  apply safe_bind; [by apply safe_modify, good_frame|]. intros n1 [Hn1 _]. clear Hn.
  generalize (retain_udp n l) as l'. intros l'. revert n1 Hn1. induction l' as [|u l' IH]; intros n1 Hn1; [by apply safe_ret|].
  simpl. apply safe_bind; [by apply safe_modify, good_frame|]. intros n2 [Hn2 _]. by apply IH.
Qed.

Lemma handle_arp_safe payload n : net_ok n → safe (handle_arp dev payload) n.
Proof using dev_ok.
  intros Hn. unfold handle_arp. destruct (parse_arp_ok payload) as [[[[[op mac] ip] target]|] ->];
    rewrite bind_lift_ok; [|by apply safe_ret].
  apply safe_bind.
  { unfold insert_arp. apply safe_bind; [by apply safe_modify, good_frame|].
    intros n1 [Hn1 _]. by apply safe_modify, good_frame. }
  intros n1 [Hn1 _]. apply safe_get. destruct (_ && _); [|by apply safe_ret].
  apply safe_ignore. unfold send_arp_reply. apply wp_bind. unfold wp at 1, m_get. by apply send_frame_wp.
Qed.
End safety.

Lemma net_ok_new mac : net_ok (Net_new mac).
Proof.
  split; [|apply map_Forall_empty|apply map_Forall_empty]. split; [done|].
  repeat (apply Forall_cons; split); try apply Forall_nil; unfold is_byte; lia.
Qed.

(** C24: No frame can bring the stack down.  Whatever bytes arrive, handling
    the frame ends without a panic (every index and slice of the parsers is
    checked and the length tests keep it in range), within the four levels of nesting that
    replies to the own address can take, keeps the invariant of the tables,
    and leaves every live connection alive and registered; the initial state
    satisfies the invariant. *)
Theorem handle_frame_safe dev frame n :
  (∀ out f nb, dev out f nb ≠ Panic) → net_ok n → Forall is_byte frame →
  (∃ n', handle_frame dev frame n = (Ok (), n') ∧ net_ok n' ∧ grows n n') ∧
  ∀ mac, net_ok (Net_new mac).
Proof.
  intros Hdev Hn Hb. split; [|apply net_ok_new].
  assert (safe (handle_frame dev frame) n) as (n'&?&?&?); [|by exists n'].
  unfold handle_frame. destruct (parse_eth_ok frame Hb) as ([[ethertype p]|]&->&Hp);
    rewrite bind_lift_ok; [|by apply safe_ret].
  destruct (_ =? ETHERTYPE_ARP); [by apply handle_arp_safe|].
  destruct (_ =? ETHERTYPE_IPV4); [|by apply safe_ret].
  unfold handle_ipv4. apply safe_get.
  destruct (parse_ipv4_ok (ns_ip (n_stack n)) p Hp) as ([[[[proto src] dst] data]|]&->&Hip);
    rewrite bind_lift_ok; [|by apply safe_ret].
  destruct Hip as (Hs&Hd&Hdata).
  destruct (proto =? _); [by apply udp_input_safe|]. destruct (proto =? _); [|by apply safe_ret].
  change (tcp_in dev) with (tcp_input dev 4). destruct (parse_tcp_ok data Hdata) as ([g|]&Hg&Hok).
  - by apply (tcp_input_safe dev Hdev 0 src dst data g).
  - cbn [tcp_input]. unfold tcp_input_body. rewrite Hg, bind_lift_ok. by apply safe_ret.
Qed.

Definition open_dev : list bytes → bytes → bool → Result () := λ _ _ _, Ok ().

Lemma handle_frame_safe_witness :
  ∃ n', handle_frame open_dev (replicate 60 255) (Net_new [2; 0; 0; 0; 0; 1]) = (Ok (), n') ∧ net_ok n'.
Proof.
  destruct (handle_frame_safe open_dev (replicate 60 255) (Net_new [2; 0; 0; 0; 0; 1])) as [(n'&H1&H2&_) _].
  - done.
  - apply net_ok_new.
  - apply Forall_replicate. unfold is_byte. lia.
  - exists n'. split; [exact H1|exact H2].
Defined.
