(* ===== verification/NetTcp.v ===== *)
(** * TCP connections

    What connections do: the three-way handshake and data transfer between
    two sockets of the machine, and the fate of a connection that is opened
    from another machine. *)

From stdpp Require Import base tactics numbers gmap list.
From S2P Require Import Prelude Errors Bytes SemTable Mpmc UserMem NetFmt Net NetInv.
Local Open Scope Z_scope.

Section tcp.
Context (dev : list bytes → bytes → bool → Result ()).

(** ** Evaluation rules *)

(** A segment to the own address is handed to [tcp_input]. *)
Lemma send_loopback tcp_in src dst seq ack flags payload nb n :
  sock_ok src → sock_ok dst → seq_ok seq → seq_ok ack → 0 ≤ flags < 256 → fits 40 payload →
  sa_ip dst = ns_ip (n_stack n) →
  ∃ data, parse_tcp data = Ok (Some (mkSeg (sa_port src) (sa_port dst) seq ack flags payload)) ∧
    send_tcp_segment dev tcp_in src dst seq ack flags payload nb n = tcp_in (sa_ip src) (sa_ip dst) data n.
Proof using.
  intros Hs Hd Hseq Hack Hfl Hf Hip.
  destruct (build_tcp_ok src dst seq ack flags payload Hs Hd Hf) as (c&_&Hb&_).
  exists (tcp_header src dst seq ack flags c ++ payload). split.
  - apply parse_tcp_header; [apply Hs|apply Hd|done..].
  - unfold send_tcp_segment, send_ipv4_packet, lift, mbind, M_bind, m_get. rewrite Hb. simpl.
    by rewrite bool_decide_eq_true_2.
Qed.

Lemma tcp_input_found f src_ip dst_ip data g id n :
  parse_tcp data = Ok (Some g) → find_conn n (seg_key src_ip g) = Some id →
  tcp_input dev (S f) src_ip dst_ip data n =
    on_segment dev (tcp_input dev f) id (mkAddr src_ip (sg_src_port g)) (sg_seq g) (sg_ack g) (sg_flags g) (sg_payload g) n.
Proof using.
  intros Hp Hf. cbn [tcp_input]. unfold tcp_input_body. rewrite Hp, bind_lift_ok.
  unfold mbind, M_bind, m_get. unfold seg_key in Hf. by rewrite Hf.
Qed.

Lemma tcp_input_syn f src_ip dst_ip data g l n :
  parse_tcp data = Ok (Some g) → find_conn n (seg_key src_ip g) = None → Z.land (sg_flags g) 2 ≠ 0 →
  find_listener n (sg_dst_port g) = Some l →
  tcp_input dev (S f) src_ip dst_ip data n =
    passive_open dev (tcp_input dev f) l (mkAddr dst_ip (sg_dst_port g)) (mkAddr src_ip (sg_src_port g)) (sg_seq g) n.
Proof using.
  intros Hp Hf Hfl Hl. cbn [tcp_input]. unfold tcp_input_body. rewrite Hp, bind_lift_ok.
  unfold mbind, M_bind, m_get. unfold seg_key in Hf. rewrite Hf. by rewrite (proj2 (Z.eqb_neq _ _) Hfl), Hl.
Qed.

Lemma bind_get_tcp {B} id t (f : TcpSocket → NM B) n :
  tcp_socks n !! id = Some t → (get_tcp id ≫= f) n = f t n.
Proof using. unfold mbind, M_bind, get_tcp. by intros ->. Qed.

Lemma ignore_ok {A} (m : NM A) a n n1 : m n = (Ok a, n1) → ignore m n = (Ok (), n1).
Proof using. unfold ignore. by intros ->. Qed.

(** ** The handshake *)

(** Room for one more connection in the backlog. *)
Definition backlog_room (ls : TcpListener) : Prop :=
  sem_closed (ch_sem (l_chan ls)) = false ∧ sem_count (ch_sem (l_chan ls)) ≠ 0.

Definition ephemeral (n : Net) : Z := let p := u16 (NEXT_PORT n) in if p <? 49152 then 49152 else p.

Lemma ephemeral_u16 n : is_u16 (ephemeral n).
Proof using.
  unfold ephemeral, is_u16. pose proof (wrap_range 16 (NEXT_PORT n)) as H. change (2 ^ 16) with 65536 in H.
  unfold u16. destruct (_ <? _); lia.
Qed.

(** Two established sockets of the machine with each other's addresses. *)
Record linked (n : Net) (c s : nat) (tc ts : TcpSocket) (ca sa : SocketAddrV4) : Prop := {
  sy_client : tcp_socks n !! c = Some tc;
  sy_server : tcp_socks n !! s = Some ts;
  sy_ne : c ≠ s;
  sy_ckey : find_conn n (conn_key (sa_port ca) sa) = Some c;
  sy_skey : find_conn n (conn_key (sa_port sa) ca) = Some s;
  sy_cstate : t_state (t_inner tc) = Established ∧ t_state (t_inner ts) = Established;
  sy_caddr : t_local (t_inner tc) = Some ca ∧ t_peer (t_inner tc) = Some sa;
  sy_saddr : t_local (t_inner ts) = Some sa ∧ t_peer (t_inner ts) = Some ca;
  sy_ips : sa_ip ca = ns_ip (n_stack n) ∧ sa_ip sa = ns_ip (n_stack n);
}.

(** Each side expects the other's next sequence number. *)
Definition synced (n : Net) (c s : nat) (tc ts : TcpSocket) (ca sa : SocketAddrV4) : Prop :=
  linked n c s tc ts ca sa ∧ t_snd (t_inner tc) = t_rcv (t_inner ts) ∧ t_snd (t_inner ts) = t_rcv (t_inner tc).

(** The tables after a step, up to counters and output. *)
Definition tables (n : Net) : gmap nat TcpSocket * gmap nat TcpListener * gmap ConnKey nat * NetStack :=
  (tcp_socks n, tcp_lists n, TCP_CONNS n, n_stack n).

Lemma find_conn_tables n n' k :
  TCP_CONNS n' = TCP_CONNS n → (∀ id, is_Some (tcp_socks n !! id) ↔ is_Some (tcp_socks n' !! id)) →
  find_conn n' k = find_conn n k.
Proof using.
  intros Hc Hs. apply option_eq. intros id. rewrite !find_conn_Some, Hc. by rewrite Hs.
Qed.

(** Step 3: the ACK reaches the server's half-open socket. *)
Lemma step_ack f me sp dp data id l ts ls n :
  parse_tcp data = Ok (Some (mkSeg sp dp 1 2 16 [])) →
  find_conn n (conn_key dp (mkAddr me sp)) = Some id → tcp_socks n !! id = Some ts →
  t_state (t_inner ts) = SynReceived → t_snd (t_inner ts) = 2 → t_listener (t_inner ts) = Some l →
  tcp_lists n !! l = Some ls → backlog_room ls →
  ∃ n', tcp_input dev (S f) me me data n = (Ok (), n') ∧
    let i := t_inner ts in
    tables n' = (<[id := mkTcp (mkTcpInner (t_local i) (t_peer i) Established 2 (t_rcv i) None) (t_chan ts) (S (t_strong ts))]>
                   (tcp_socks n),
                 <[l := mkListener (l_port ls) (try_send id (l_chan ls)).2 (l_strong ls)]> (tcp_lists n),
                 TCP_CONNS n, n_stack n).
Proof using.
  intros Hp Hf Ht Hst Hsnd Hl Hls [Hr1 Hr2].
  rewrite (tcp_input_found f me me data _ id n Hp Hf). unfold on_segment. rewrite (bind_get_tcp id ts) by done.
  cbv zeta. rewrite Hst, Hsnd. cbn [sg_flags sg_ack sg_src_port sg_seq sg_payload].
  change (negb (Z.land 16 16 =? 0) && (2 =? 2)) with true. cbv iota. rewrite Hl.
  eexists. split.
  - unfold put_tinner, put_tcp, modify, mbind, M_bind, ignore, listener_enqueue, notify_tcp. simpl.
    rewrite Hls, lookup_insert_eq. unfold try_send, try_acquire, sem_try_wait. rewrite Hr1, (proj2 (Z.eqb_neq _ _) Hr2). simpl. done.
  - unfold tables. simpl. unfold try_send, try_acquire, sem_try_wait. rewrite Hr1, (proj2 (Z.eqb_neq _ _) Hr2). simpl.
    by rewrite insert_insert_eq.
Qed.

(** Step 2: the SYN+ACK reaches the client, which acknowledges. *)
Lemma step_synack f ca sa data c id l tc ts ls n :
  let me := ns_ip (n_stack n) in
  sock_ok ca → sock_ok sa → sa_ip ca = me → sa_ip sa = me →
  parse_tcp data = Ok (Some (mkSeg (sa_port sa) (sa_port ca) 1 1 18 [])) →
  find_conn n (conn_key (sa_port ca) sa) = Some c → tcp_socks n !! c = Some tc →
  t_state (t_inner tc) = SynSent → t_snd (t_inner tc) = 1 → t_local (t_inner tc) = Some ca →
  find_conn n (conn_key (sa_port sa) ca) = Some id → tcp_socks n !! id = Some ts → c ≠ id →
  t_state (t_inner ts) = SynReceived → t_snd (t_inner ts) = 2 → t_listener (t_inner ts) = Some l →
  tcp_lists n !! l = Some ls → backlog_room ls →
  ∃ n', tcp_input dev (S (S f)) me me data n = (Ok (), n') ∧
    let i := t_inner ts in
    tables n' = (<[id := mkTcp (mkTcpInner (t_local i) (t_peer i) Established 2 (t_rcv i) None) (t_chan ts) (S (t_strong ts))]>
                   (<[c := mkTcp (mkTcpInner (Some ca) (Some sa) Established 1 2 (t_listener (t_inner tc)))
                             (t_chan tc) (t_strong tc)]> (tcp_socks n)),
                 <[l := mkListener (l_port ls) (try_send id (l_chan ls)).2 (l_strong ls)]> (tcp_lists n),
                 TCP_CONNS n, n_stack n).
Proof using.
  intros me Hca Hsa Ica Isa Hp Hfc Htc Hst Hsnd Hloc Hfs Hts Hne Hs1 Hs2 Hs3 Hls Hroom.
  assert (Esa : mkAddr me (sa_port sa) = sa) by (destruct sa; simpl in *; congruence).
  assert (Eca : mkAddr me (sa_port ca) = ca) by (destruct ca; simpl in *; congruence).
  rewrite (tcp_input_found (S f) me me data _ c n Hp); [|unfold seg_key; simpl; by rewrite Esa].
  unfold on_segment. rewrite (bind_get_tcp c tc) by done. cbv zeta. rewrite Hst, Hsnd.
  cbn [sg_flags sg_ack sg_src_port sg_seq sg_payload t_rcv].
  change ((Z.land 18 18 =? 18) && (1 =? 1)) with true. cbv iota. rewrite Hloc, Esa. change (u32 (1 + 1)) with 2.
  set (tc' := mkTcpInner _ _ Established _ _ _).
  set (n1 := upd_socks <[c := mkTcp tc' (t_chan tc) (t_strong tc)]> n).
  assert (Hput : put_tinner c tc tc' n = (Ok (), n1)) by done.
  rewrite (bind_ok _ _ _ _ _ Hput).
  destruct (send_loopback (tcp_input dev (S f)) ca sa 1 2 16 [] true n1) as (data'&Hp'&Hsend);
    [done|done|done|done|done|by split; [constructor|]|exact Isa|].
  assert (Hdom : ∀ j, is_Some (tcp_socks n !! j) ↔ is_Some (tcp_socks n1 !! j)).
  { intros j. unfold n1. simpl. destruct (decide (j = c)) as [->|Hj]; [rewrite lookup_insert_eq, Htc; split; by eauto|].
    by rewrite lookup_insert_ne. }
  destruct (step_ack f me (sa_port ca) (sa_port sa) data' id l ts ls n1) as (n2&Hrun&Htab); try done.
  { rewrite Eca. rewrite <-Hfs. by apply find_conn_tables. }
  { unfold n1. simpl. by rewrite lookup_insert_ne. }
  rewrite Ica, Isa in Hsend. fold me in Hsend. rewrite Hrun in Hsend.
  rewrite (bind_ok _ _ _ _ _ (ignore_ok _ _ _ _ Hsend)).
  eexists. split; [done|]. unfold tables in Htab |- *. injection Htab as H1 H2 H3 H4. simpl. by rewrite H1, H2, H3, H4.
Qed.

(** Step 0: what [connect] does before it sends the SYN. *)
Definition connecting (n : Net) (c : nat) (t : TcpSocket) (ca sa : SocketAddrV4) : Net :=
  upd_conns <[conn_key (sa_port ca) sa := c]>
    (upd_socks <[c := mkTcp (mkTcpInner (Some ca) (Some sa) SynSent 1 0 (t_listener (t_inner t))) (t_chan t) (t_strong t)]>
       (set_next_port (u64 (NEXT_PORT n + 1)) n)).

Lemma connect_run c t sa nb n :
  tcp_socks n !! c = Some t → t_state (t_inner t) = Closed → t_local (t_inner t) = None →
  let ca := mkAddr (ns_ip (n_stack n)) (ephemeral n) in
  tcp_connect dev c sa nb n =
    (_ ← ignore (send_tcp_segment dev (tcp_in dev) ca sa 0 0 2 [] nb);
     if nb then m_err WouldBlock else mret false) (connecting n c t ca sa).
Proof using.
  intros Ht Hst Hloc ca. unfold tcp_connect. rewrite (bind_get_tcp c t) by done. cbv zeta.
  rewrite Hst, Hloc. done.
Qed.

Lemma connecting_other n c t ca sa k :
  tcp_socks n !! c = Some t → k ≠ conn_key (sa_port ca) sa → find_conn n k = None →
  find_conn (connecting n c t ca sa) k = None.
Proof using.
  intros Ht Hk Hnone. destruct (find_conn (connecting n c t ca sa) k) as [j|] eqn:E; [|done].
  apply find_conn_Some in E as [E1 E2]. simpl in E1, E2. rewrite lookup_insert_ne in E1 by done.
  assert (find_conn n k = Some j) as E3; [|congruence].
  apply find_conn_Some. split; [done|]. destruct (decide (j = c)) as [->|]; [by rewrite Ht|].
  by rewrite lookup_insert_ne in E2.
Qed.

(** The whole exchange. *)
Lemma handshake_run c l t ls port n :
  net_ok n → tcp_socks n !! c = Some t → t_state (t_inner t) = Closed → t_local (t_inner t) = None →
  find_listener n port = Some l → tcp_lists n !! l = Some ls → backlog_room ls → is_u16 port →
  let me := ns_ip (n_stack n) in
  let ca := mkAddr me (ephemeral n) in
  let sa := mkAddr me port in
  let id := NEXT_ID n in
  port ≠ ephemeral n → find_conn n (conn_key port ca) = None →
  ∃ n', tcp_connect dev c sa false n = (Ok false, n') ∧
    tables n' =
      (<[id := mkTcp (mkTcpInner (Some sa) (Some ca) Established 2 1 None) (sync_channel TCP_QUEUE) 1]>
         (<[c := mkTcp (mkTcpInner (Some ca) (Some sa) Established 1 2 (t_listener (t_inner t))) (t_chan t) (t_strong t)]>
            (tcp_socks n)),
       <[l := mkListener (l_port ls) (try_send id (l_chan ls)).2 (l_strong ls)]> (tcp_lists n),
       <[conn_key port ca := id]> (<[conn_key (ephemeral n) sa := c]> (TCP_CONNS n)), n_stack n).
Proof using.
  intros Hn Ht Hst Hloc Hfl Hls Hroom Hport me ca sa id Hne Hnone.
  assert (Hca : sock_ok ca) by (split; [apply Hn|apply ephemeral_u16]).
  assert (Hsa : sock_ok sa) by (split; [apply Hn|done]).
  assert (Hcid : c ≠ id) by (intros ->; destruct (no_tcp _ Hn _ _ Ht); unfold id in *; lia).
  assert (Hk : conn_key port ca ≠ conn_key (ephemeral n) sa) by (unfold conn_key; congruence).
  rewrite (connect_run c t sa false n Ht Hst Hloc). fold me ca. set (n1 := connecting n c t ca sa).
  destruct (send_loopback (tcp_in dev) ca sa 0 0 2 [] false n1) as (d1&Hp1&Hsend1);
    [done|done|done|done|done|by split; [constructor|]|done|].
  change (tcp_in dev) with (tcp_input dev 4) in *.
  assert (Hf1 : find_conn n1 (conn_key port ca) = None) by (by apply connecting_other).
  assert (Hsyn : tcp_input dev 4 me me d1 n1 = passive_open dev (tcp_input dev 3) l sa ca 0 n1).
  { apply (tcp_input_syn 3 me me d1 _ l n1 Hp1); [exact Hf1|done|]. exact Hfl. }
  rewrite passive_open_run in Hsyn. change (NEXT_ID n1) with id in Hsyn. change (u32 (0 + 1)) with 1 in Hsyn.
  set (n2 := opened n1 l sa ca 0) in Hsyn.
  destruct (send_loopback (tcp_input dev 3) sa ca 1 1 18 [] true n2) as (d2&Hp2&Hsend2);
    [done|done|done|done|done|by split; [constructor|]|done|].
  set (ts := mkTcp (mkTcpInner (Some sa) (Some ca) SynReceived 2 1 (Some l)) (sync_channel TCP_QUEUE) 1).
  assert (Hs2 : tcp_socks n2 = <[id := ts]> (tcp_socks n1)) by done.
  assert (Hc2 : TCP_CONNS n2 = <[conn_key port ca := id]> (TCP_CONNS n1)) by done.
  set (tc := mkTcp (mkTcpInner (Some ca) (Some sa) SynSent 1 0 (t_listener (t_inner t))) (t_chan t) (t_strong t)).
  assert (Htc : tcp_socks n1 !! c = Some tc) by (unfold n1; simpl; by rewrite lookup_insert_eq).
  destruct (step_synack 1 ca sa d2 c id l tc ts ls n2) as (n3&Hrun3&Htab3); try done.
  { apply find_conn_Some. rewrite Hc2, Hs2. rewrite lookup_insert_ne by done. rewrite lookup_insert_ne by done.
    rewrite Htc. split; [|done]. unfold n1. simpl. by rewrite lookup_insert_eq. }
  { rewrite Hs2, lookup_insert_ne by done. exact Htc. }
  { apply find_conn_Some. rewrite Hc2, Hs2, !lookup_insert_eq. done. }
  { rewrite Hs2. by rewrite lookup_insert_eq. }
  change (sa_ip sa) with me in Hsend1, Hsend2. change (sa_ip ca) with me in Hsend1, Hsend2.
  change (ns_ip (n_stack n2)) with me in Hrun3. rewrite Hrun3 in Hsend2.
  rewrite (bind_ok _ _ _ _ _ (ignore_ok _ _ _ _ Hsend2)) in Hsyn.
  unfold tables in Htab3. injection Htab3 as T1 T2 T3 T4.
  unfold drop_tcp in Hsyn. rewrite (bind_get_tcp id _ _ n3) in Hsyn by (rewrite T1; apply lookup_insert_eq).
  cbn [t_strong] in Hsyn. rewrite Hsyn in Hsend1. rewrite (bind_ok _ _ _ _ _ (ignore_ok _ _ _ _ Hsend1)).
  eexists. split; [done|]. unfold tables, upd_socks. cbn [tcp_socks tcp_lists TCP_CONNS n_stack].
  rewrite T1, T2, T3, T4. refine (f_equal (λ m, (m, _, _, _)) _). apply map_eq. intros j.
  destruct (decide (j = id)) as [->|]; [by rewrite !lookup_insert_eq|].
  rewrite !(lookup_insert_ne _ id) by done.
  destruct (decide (j = c)) as [->|]; [by rewrite !lookup_insert_eq|]. by rewrite !lookup_insert_ne by done.
Qed.

(** ** Connections from other machines *)

(** Sending to another machine leaves the tables alone. *)
Lemma send_remote_tables tcp_in src dst seq ack flags n :
  (∀ out f nb, dev out f nb ≠ Panic) → sock_ok src → sock_ok dst → sa_ip dst ≠ ns_ip (n_stack n) →
  ∃ n', ignore (send_tcp_segment dev tcp_in src dst seq ack flags [] true) n = (Ok (), n') ∧ tables n' = tables n.
Proof using.
  intros Hdev Hs Hd Hip. destruct (build_tcp_ok src dst seq ack flags [] Hs Hd) as (c&_&Hb&_); [by split; [constructor|]|].
  unfold ignore, send_tcp_segment, send_ipv4_packet, lift, mbind, M_bind, m_get. rewrite Hb.
  rewrite bool_decide_eq_false_2 by done.
  assert (Hframe : ∀ f nb, ∃ r n', send_frame dev f nb n = (r, n') ∧ r ≠ Panic ∧ tables n' = tables n).
  { intros f nb. unfold send_frame. specialize (Hdev (n_out n) f nb). destruct (dev (n_out n) f nb) as [[]|e|]; eauto. }
  destruct (arp_lookup _ _) as [mac|].
  - destruct (build_ipv4_ok IP_PROTO_TCP (sa_ip src) (sa_ip dst) (tcp_header src dst seq ack flags c ++ []))
      as (c2&_&Hp&_); [done|apply Hs|apply Hd|]. rewrite Hp.
    destruct (Hframe (build_eth_frame (ns_mac (n_stack n)) mac ETHERTYPE_IPV4
      (ipv4_header IP_PROTO_TCP (sa_ip src) (sa_ip dst) (tcp_header src dst seq ack flags c ++ []) c2 ++
        tcp_header src dst seq ack flags c ++ [])) true) as (r&n'&->&Hr&Ht). destruct r; eauto. done.
  - unfold ignore. match goal with |- context [send_arp_request dev ?ip n] =>
      change (send_arp_request dev ip n) with
        (send_frame dev (arp_request (ns_mac (n_stack n)) (ns_ip (n_stack n)) ip) true n) end.
    match goal with |- context [send_frame dev ?f ?b n] => destruct (Hframe f b) as (r&n'&->&Hr&Ht) end.
    destruct r; eauto. done.
Qed.

End tcp.

(** Connecting to a listener on the same machine completes the three-way
    handshake in one go.  Afterwards [connect] returns success, the new server
    socket waits in the listener's queue (and is kept alive by it alone), both
    sockets are established with the addresses exchanged, both are found under
    their keys, and each side expects exactly the next sequence number of the
    other. *)
Theorem loopback_handshake dev c l t ls port n :
  net_ok n → tcp_socks n !! c = Some t → t_state (t_inner t) = Closed → t_local (t_inner t) = None →
  find_listener n port = Some l → tcp_lists n !! l = Some ls → backlog_room ls → is_u16 port →
  let ca := mkAddr (ns_ip (n_stack n)) (ephemeral n) in
  let sa := mkAddr (ns_ip (n_stack n)) port in
  port ≠ ephemeral n → find_conn n (conn_key port ca) = None →
  ∃ n' s tc ts ls', tcp_connect dev c sa false n = (Ok false, n') ∧
    tcp_connect_wait false c n' = Returns (Ok ()) ∧
    synced n' c s tc ts ca sa ∧ t_strong ts = 1%nat ∧ t_chan tc = t_chan t ∧ t_chan ts = sync_channel TCP_QUEUE ∧
    tcp_lists n' !! l = Some ls' ∧ ch_buf (l_chan ls') = ch_buf (l_chan ls) ++ [s].
Proof.
  intros Hn Ht Hst Hloc Hfl Hls Hroom Hport ca sa Hne Hnone.
  destruct (handshake_run dev c l t ls port n Hn Ht Hst Hloc Hfl Hls Hroom Hport Hne Hnone) as (n'&Hrun&Htab).
  fold ca sa in Hrun, Htab. unfold tables in Htab. injection Htab as T1 T2 T3 T4.
  assert (Hcid : c ≠ NEXT_ID n) by (intros ->; destruct (no_tcp _ Hn _ _ Ht); lia).
  assert (Hk : conn_key port ca ≠ conn_key (ephemeral n) sa) by (unfold conn_key; congruence).
  set (ts := mkTcp (mkTcpInner (Some sa) (Some ca) Established 2 1 None) (sync_channel TCP_QUEUE) 1) in *.
  set (tc := mkTcp (mkTcpInner (Some ca) (Some sa) Established 1 2 (t_listener (t_inner t))) (t_chan t) (t_strong t)) in *.
  set (ls' := mkListener _ _ _) in *.
  assert (Hs : tcp_socks n' !! NEXT_ID n = Some ts) by (by rewrite T1, lookup_insert_eq).
  assert (Hc : tcp_socks n' !! c = Some tc) by (by rewrite T1, lookup_insert_ne, lookup_insert_eq by done).
  exists n', (NEXT_ID n), tc, ts, ls'. split; [done|]. split; [unfold tcp_connect_wait; by rewrite Hc|].
  split; [|split; [|split; [|split; [|split]]]]; [|done|done|done|by rewrite T2, lookup_insert_eq|].
  - split; [|done]. split; try done.
    + apply find_conn_Some. rewrite Hc, T3. split; [|done]. by rewrite lookup_insert_ne, lookup_insert_eq by done.
    + apply find_conn_Some. rewrite Hs, T3. split; [|done]. by rewrite lookup_insert_eq.
    + simpl. by rewrite T4.
  - destruct Hroom as [Hr1 Hr2]. unfold ls'. cbn [l_chan]. unfold try_send, try_acquire, sem_try_wait. by rewrite Hr1, (proj2 (Z.eqb_neq _ _) Hr2).
Qed.

(** A listener on port 80 (object 0) and a client socket (object 1). *)
Definition demo_net : Net :=
  ((l ← listener_new 4 80; _ ← listener_register l; c ← tcp_new; mret c) (Net_new [2; 0; 0; 0; 0; 1])).2.

Lemma demo_net_ok : net_ok demo_net.
Proof.
  split; [exact (no_ip _ (net_ok_new [2; 0; 0; 0; 0; 1]))| |apply map_Forall_empty].
  change (tcp_socks demo_net) with
    (<[1%nat := mkTcp (mkTcpInner None None Closed 0 0 None) (sync_channel TCP_QUEUE) 1]> (∅ : gmap nat TcpSocket)).
  apply map_Forall_insert_2; [|apply map_Forall_empty]. split; [|vm_compute; lia]. by split.
Qed.

(** In [n] the peer has no connection, and its segments without SYN change
    nothing. *)
Definition deaf dev (n : Net) (src_ip dst_ip : Ipv4Addr) (key : ConnKey) : Prop :=
  find_conn n key = None ∧
  ∀ data g, parse_tcp data = Ok (Some g) → seg_key src_ip g = key → Z.land (sg_flags g) 2 = 0 →
    tcp_in dev src_ip dst_ip data n = (Ok (), n).

(** A connection from another machine is never accepted.  The SYN of a
    remote peer to a port with a listener creates a socket and a table entry,
    but the only reference to the socket goes when [tcp_input] returns: the
    sockets and the listener's queue are as before, the key finds nothing, and
    the ACK that would complete the handshake, like every later segment without
    SYN of that peer, is discarded.  So only connections of the machine to
    itself are ever established. *)
Theorem remote_connection_lost dev src_ip dst_ip data g l n :
  (∀ out f nb, dev out f nb ≠ Panic) → net_ok n → addr_ok src_ip → addr_ok dst_ip →
  parse_tcp data = Ok (Some g) → seg_ok g → src_ip ≠ ns_ip (n_stack n) →
  find_conn n (seg_key src_ip g) = None → Z.land (sg_flags g) 2 ≠ 0 → find_listener n (sg_dst_port g) = Some l →
  ∃ n', tcp_in dev src_ip dst_ip data n = (Ok (), n') ∧
    tcp_socks n' = tcp_socks n ∧ tcp_lists n' = tcp_lists n ∧ deaf dev n' src_ip dst_ip (seg_key src_ip g).
Proof.
  intros Hdev Hn Hs Hd Hp (G1&G2&G3&G4) Hip Hnone Hsyn Hl.
  set (local := mkAddr dst_ip (sg_dst_port g)). set (remote := mkAddr src_ip (sg_src_port g)).
  set (n1 := opened n l local remote (sg_seq g)).
  assert (Hfresh : tcp_socks n !! NEXT_ID n = None).
  { destruct (tcp_socks n !! NEXT_ID n) as [t|] eqn:E; [|done]. destruct (no_tcp _ Hn _ _ E). lia. }
  destruct (send_remote_tables dev (tcp_input dev 3) local remote 1 (u32 (sg_seq g + 1)) 18 n1) as (n2&Hrun&Htab);
    [done|by split|by split|done|].
  unfold tables in Htab. injection Htab as T1 T2 T3 T4. unfold n1 in T1, T2, T3. simpl in T1, T2, T3.
  exists (upd_socks (delete (NEXT_ID n)) n2).
  assert (Hsocks : tcp_socks (upd_socks (delete (NEXT_ID n)) n2) = tcp_socks n).
  { simpl. rewrite T1. by apply delete_insert_id. }
  assert (Hgone : find_conn (upd_socks (delete (NEXT_ID n)) n2) (seg_key src_ip g) = None).
  { apply eq_None_not_Some. intros [j E]. apply find_conn_Some in E as [E1 E2].
    rewrite Hsocks in E2. simpl in E1. rewrite T3 in E1. unfold seg_key, remote in E1. rewrite lookup_insert_eq in E1.
    injection E1 as <-. rewrite Hfresh in E2. by destruct E2. }
  split; [|split; [exact Hsocks|split; [exact T2|split; [exact Hgone|]]]].
  - unfold tcp_in, TCP_FUEL. rewrite (tcp_input_syn dev 3 _ _ _ g l n Hp Hnone Hsyn Hl), passive_open_run.
    fold local remote n1. rewrite (bind_ok _ _ _ _ _ Hrun). unfold drop_tcp.
    rewrite (bind_get_tcp (NEXT_ID n) _ _ n2) by (rewrite T1; apply lookup_insert_eq). done.
  - intros data' g' Hp' Hk Hfl. unfold tcp_in, TCP_FUEL. cbn [tcp_input]. unfold tcp_input_body. rewrite Hp', bind_lift_ok.
    unfold mbind, M_bind, m_get. fold (seg_key src_ip g'). rewrite Hk, Hgone, Hfl. done.
Qed.

(** A SYN from 10.0.2.2:5000 to port 80. *)
Definition demo_syn : bytes := [19; 136; 0; 80; 0; 0; 0; 9; 0; 0; 0; 0; 80; 2; 4; 0; 0; 0; 0; 0].

