(* ===== verification/NetData.v ===== *)
(** * TCP data transfer

    What [TcpSocket::write] on one side of a connection of the machine to
    itself delivers to [TcpSocket::read] on the other side. *)

From stdpp Require Import base tactics numbers gmap list.
From S2P Require Import Prelude Errors Bytes SemTable Mpmc UserMem Pipe NetFmt Net NetInv NetTcp.
Local Open Scope Z_scope.

(** ** The receive queue *)

(** Bytes are queued while there is room; the rest is dropped. *)
Lemma push_bytes_spec max p ch :
  chan_ok max ch →
  chan_ok max (push_bytes p ch) ∧ ch_buf (push_bytes p ch) = ch_buf ch ++ take (room ch) p ∧
  ch_scnt (push_bytes p ch) = ch_scnt ch.
Proof.
  revert ch. induction p as [|b p IH]; intros ch Hok.
  - simpl. by rewrite take_nil, app_nil_r.
  - cbn [push_bytes]. destruct (room ch) as [|r] eqn:Hr.
    + destruct (send_full max ch b Hok Hr) as [_ ->]. by rewrite app_nil_r.
    + destruct (send_ok max ch b Hok) as (c'&_&->&Hok'&Hb&Hr'&Hs&_); [lia|].
      destruct (IH c' Hok') as (I1&I2&I3). replace (room c') with r in I2 by lia.
      split_and!; [done| |congruence]. by rewrite I2, Hb, <-app_assoc.
Qed.

Lemma push_bytes_app max p q ch : chan_ok max ch → push_bytes (p ++ q) ch = push_bytes q (push_bytes p ch).
Proof.
  revert ch. induction p as [|b p IH]; intros ch Hok; [done|]. cbn [push_bytes app].
  destruct (room ch) as [|r] eqn:Hr.
  - destruct (send_full max ch b Hok Hr) as [_ ->]. destruct q as [|x q]; [done|]. cbn [push_bytes].
    by destruct (send_full max ch x Hok Hr) as [_ ->].
  - destruct (send_ok max ch b Hok) as (c'&_&->&Hok'&_); [lia|]. by apply IH.
Qed.

(** The receiver after the bytes [p]: all of them count as received. *)
Definition deliver (t : TcpSocket) (p : bytes) : TcpSocket :=
  let i := t_inner t in
  mkTcp (mkTcpInner (t_local i) (t_peer i) (t_state i) (t_snd i) (u32 (t_rcv i + Z.of_nat (length p))) (t_listener i))
    (push_bytes p (t_chan t)) (t_strong t).

Lemma u32_add_l a b : u32 (u32 a + b) = u32 (a + b).
Proof. unfold u32, wrap. apply Z.add_mod_idemp_l. lia. Qed.

Lemma deliver_nil t : seq_ok (t_rcv (t_inner t)) → deliver t [] = t.
Proof.
  intros Hr. destruct t as [[]]. unfold deliver. simpl in *. rewrite Z.add_0_r. unfold u32. by rewrite wrap_small.
Qed.

Lemma deliver_app max t p q : chan_ok max (t_chan t) → deliver (deliver t p) q = deliver t (p ++ q).
Proof.
  intros Hok. unfold deliver. simpl. rewrite (push_bytes_app max) by done. do 2 f_equal.
  rewrite length_app, u32_add_l. f_equal. lia.
Qed.

Lemma upd_socks_id n id t : tcp_socks n !! id = Some t → upd_socks <[id := t]> n = n.
Proof. intros H. destruct n. unfold upd_socks. simpl in *. by rewrite insert_id. Qed.

Lemma upd_socks_twice n id t t' : upd_socks <[id := t']> (upd_socks <[id := t]> n) = upd_socks <[id := t']> n.
Proof. unfold upd_socks. simpl. by rewrite insert_insert_eq. Qed.

(** Replacing the server side keeps the pair linked. *)
Lemma linked_server n c s tc ts ts' ca sa :
  linked n c s tc ts ca sa → t_state (t_inner ts') = Established →
  t_local (t_inner ts') = Some sa → t_peer (t_inner ts') = Some ca →
  linked (upd_socks <[s := ts']> n) c s tc ts' ca sa.
Proof.
  intros [L1 L2 L3 L4 L5 [L6 L6'] L7 L8 L9] H1 H2 H3.
  assert (Hdom : ∀ j, is_Some (tcp_socks n !! j) ↔ is_Some (tcp_socks (upd_socks <[s := ts']> n) !! j)).
  { intros j. simpl. destruct (decide (j = s)) as [->|Hj]; [rewrite lookup_insert_eq, L2; split; by eauto|].
    by rewrite lookup_insert_ne. }
  split; simpl; try done.
  - by rewrite lookup_insert_ne.
  - by rewrite lookup_insert_eq.
  - rewrite <-L4. by apply find_conn_tables.
  - rewrite <-L5. by apply find_conn_tables.
Qed.

Lemma linked_client n c s tc tc' ts ca sa :
  linked n c s tc ts ca sa → t_state (t_inner tc') = Established →
  t_local (t_inner tc') = Some ca → t_peer (t_inner tc') = Some sa →
  linked (upd_socks <[c := tc']> n) c s tc' ts ca sa.
Proof.
  intros [L1 L2 L3 L4 L5 [L6 L6'] L7 L8 L9] H1 H2 H3.
  assert (Hdom : ∀ j, is_Some (tcp_socks n !! j) ↔ is_Some (tcp_socks (upd_socks <[c := tc']> n) !! j)).
  { intros j. simpl. destruct (decide (j = c)) as [->|Hj]; [rewrite lookup_insert_eq, L1; split; by eauto|].
    by rewrite lookup_insert_ne. }
  split; simpl; try done.
  - by rewrite lookup_insert_eq.
  - by rewrite lookup_insert_ne.
  - rewrite <-L4. by apply find_conn_tables.
  - rewrite <-L5. by apply find_conn_tables.
Qed.

Section data.
Context (dev : list bytes → bytes → bool → Result ()).

(** An ACK without data changes nothing. *)
Lemma ack_ignored f src_ip dst_ip data g id t n :
  parse_tcp data = Ok (Some g) → sg_payload g = [] → find_conn n (seg_key src_ip g) = Some id →
  tcp_socks n !! id = Some t → t_state (t_inner t) = Established →
  tcp_input dev (S f) src_ip dst_ip data n = (Ok (), n).
Proof using.
  intros Hp He Hf Ht Hst. rewrite (tcp_input_found dev f _ _ _ g id n Hp Hf). unfold on_segment.
  rewrite (bind_get_tcp id t) by done. cbv zeta. by rewrite Hst, He.
Qed.

(** One segment with data. *)
Lemma segment_delivered seq ack p nb n c s tc ts ca sa :
  linked n c s tc ts ca sa → sock_ok ca → sock_ok sa → seq_ok seq → seq_ok ack → seq_ok (t_snd (t_inner ts)) →
  fits 40 p → p ≠ [] → t_rcv (t_inner ts) = seq →
  send_tcp_segment dev (tcp_in dev) ca sa seq ack 24 p nb n = (Ok (), upd_socks <[s := deliver ts p]> n).
Proof using.
  intros HL Hca Hsa Hseq Hack Hsnd Hf Hp Hrcv. pose proof HL as [L1 L2 L3 L4 L5 [L6 L6'] [L7 L7'] [L8 L8'] [L9 L9']].
  destruct (send_loopback dev (tcp_in dev) ca sa seq ack 24 p nb n) as (d&Hd&->); [done..|].
  change (tcp_in dev) with (tcp_input dev 4).
  rewrite (tcp_input_found dev 3 _ _ _ _ s n Hd) by (unfold seg_key; simpl; by destruct ca).
  unfold on_segment. rewrite (bind_get_tcp s ts) by done. cbv zeta. rewrite L6'.
  cbn [sg_flags sg_ack sg_src_port sg_seq sg_payload]. rewrite Hrcv, Z.eqb_refl.
  rewrite bool_decide_eq_false_2 by done. cbn [negb andb]. rewrite L8, L8'.
  assert (HL' : linked (upd_socks <[s := deliver ts p]> n) c s tc (deliver ts p) ca sa) by (by apply linked_server with ts).
  assert (Hput : put_tcp s (mkTcp (mkTcpInner (Some sa) (Some ca) Established (t_snd (t_inner ts))
      (u32 (seq + Z.of_nat (length p))) (t_listener (t_inner ts))) (push_bytes p (t_chan ts)) (t_strong ts)) n
      = (Ok (), upd_socks <[s := deliver ts p]> n)).
  { unfold put_tcp, modify, deliver. by rewrite L8, L8', L6', Hrcv. }
  rewrite (bind_ok _ _ _ _ _ Hput).
  destruct (send_loopback dev (tcp_input dev 3) sa ca (t_snd (t_inner ts)) (u32 (seq + Z.of_nat (length p))) 16 [] true
              (upd_socks <[s := deliver ts p]> n)) as (d'&Hd'&Hs);
    [done|done|done|apply u32_seq|done|by split; [constructor|]|apply L9|].
  eapply ignore_ok. rewrite Hs. eapply ack_ignored; [exact Hd'|done| |apply HL'|apply HL'].
  unfold seg_key. simpl. destruct sa. apply HL'.
Qed.

Context {Mem : Type} `{UM : UserMem Mem, UL : !UserMemLaws Mem}.

Lemma write_loop_delivers max fuel seq ack mem src todo nb n c s tc ts ca sa data :
  linked n c s tc ts ca sa → sock_ok ca → sock_ok sa → seq_ok seq → seq_ok ack →
  seq_ok (t_snd (t_inner ts)) → t_rcv (t_inner ts) = seq → chan_ok max (t_chan ts) →
  copyin mem src todo = Ok data → Forall is_byte data → (todo ≤ fuel)%nat →
  tcp_write_loop dev fuel ca sa seq ack mem src todo nb n =
    (Ok (u32 (seq + Z.of_nat todo)), upd_socks <[s := deliver ts data]> n).
Proof using All.
  revert seq src todo n ts data. induction fuel as [|fuel IH];
    intros seq src todo n ts data HL Hca Hsa Hseq Hack Hsnd Hrcv Hch Hin Hb Hle;
    pose proof (copyin_length _ _ _ _ Hin) as Hlen.
  - destruct todo; [|lia]. destruct data; [|done]. rewrite deliver_nil by (by rewrite Hrcv).
    rewrite upd_socks_id by apply HL. unfold u32. rewrite Z.add_0_r, wrap_small by done. done.
  - destruct (decide (todo = 0)%nat) as [->|Hne].
    { destruct data; [|done]. rewrite deliver_nil by (by rewrite Hrcv).
      rewrite upd_socks_id by apply HL. unfold u32. rewrite Z.add_0_r, wrap_small by done. done. }
    destruct todo as [|todo']; [done|]. cbn [tcp_write_loop]. set (todo := S todo') in *.
    set (k := Nat.min todo MSS). assert (Hk : (0 < k ≤ todo)%nat ∧ (k ≤ 512)%nat) by (unfold k, MSS, todo; lia).
    replace todo with (k + (todo - k))%nat in Hin by lia. destruct (copyin_prefix _ _ _ _ _ Hin) as [H1 H2].
    assert (Hl1 : length (take k data) = k) by (rewrite length_take; lia).
    assert (Hr : lift (copyin mem src k) n = (Ok (take k data), n)) by (unfold lift; by rewrite H1).
    rewrite (bind_ok _ _ _ _ _ Hr).
    assert (Hfit : fits 40 (take k data)) by (split; [by apply Forall_take|rewrite Hl1; lia]).
    assert (Hnil : take k data ≠ []) by (intros E; rewrite E in Hl1; simpl in Hl1; lia).
    rewrite (bind_ok _ _ _ _ _ (segment_delivered seq ack _ nb n c s tc ts ca sa HL Hca Hsa Hseq Hack Hsnd Hfit Hnil Hrcv)).
    assert (HL' : linked (upd_socks <[s := deliver ts (take k data)]> n) c s tc (deliver ts (take k data)) ca sa).
    { apply linked_server with ts; simpl; try done; apply HL. }
    rewrite (IH _ _ _ _ (deliver ts (take k data)) (drop k data) HL');
      [|done|done|apply u32_seq|done|done| |by apply push_bytes_spec|done|by apply Forall_drop|lia].
    + rewrite upd_socks_twice, (deliver_app max), take_drop by done. do 2 f_equal.
      rewrite u32_add_l. f_equal. lia.
    + simpl. by rewrite Hrcv, Hl1.
Qed.

(** [done_] are the bytes already delivered. *)
Lemma read_more_spec max mem dst todo ch done_ :
  chan_ok max ch → copyin mem dst (length done_) = Ok done_ →
  writable mem (dst + Z.of_nat (length done_)) todo →
  let got := done_ ++ take todo (ch_buf ch) in
  ∃ ch' mem', tcp_read_more todo mem (dst + Z.of_nat (length done_)) (length done_) ch = (Ok (length got, mem'), ch') ∧
    ch_buf ch' = drop todo (ch_buf ch) ∧ copyin mem' dst (length got) = Ok got.
Proof using Mem UM UL.
  revert mem ch done_. induction todo as [|todo IH]; intros mem ch done_ Hok Hc Hw; cbn [tcp_read_more].
  - exists ch, mem. simpl. by rewrite app_nil_r.
  - destruct (ch_buf ch) as [|b rest] eqn:Hb.
    + exists ch, mem. unfold try_recv. rewrite Hb. simpl. rewrite app_nil_r, Z.gtb_ltb. by destruct (0 <? ch_scnt ch).
    + destruct (recv_ok _ _ _ _ Hok Hb) as (c1&_&->&Hok1&Hb1&_).
      destruct (copyout_snoc mem dst done_ b todo Hc Hw) as (mem1&->&Hc'&Hw').
      destruct (IH mem1 c1 (done_ ++ [b]) Hok1 Hc') as (c2&mem2&Hrun&Hb2&Hc2).
      { by rewrite length_app, Nat2Z.inj_add, Z.add_assoc. }
      exists c2, mem2. rewrite Hb1 in *. simpl. rewrite <-app_assoc in Hrun, Hc2. simpl in Hrun, Hc2.
      split; [|done]. rewrite <-Hrun. f_equal; rewrite length_app; simpl; lia.
Qed.

Lemma tcp_read_spec max id t mem dst j n :
  tcp_socks n !! id = Some t → chan_ok max (t_chan t) → ch_buf (t_chan t) ≠ [] → (0 < j)%nat → writable mem dst j →
  let got := take j (ch_buf (t_chan t)) in
  ∃ mem' t', tcp_read id mem dst j n = (Ok (length got, mem'), upd_socks <[id := t']> n) ∧
    copyin mem' dst (length got) = Ok got ∧ t_inner t' = t_inner t ∧ ch_buf (t_chan t') = drop j (ch_buf (t_chan t)).
Proof using Mem UM UL.
  intros Ht Hok Hne Hj Hw got. destruct (ch_buf (t_chan t)) as [|b rest] eqn:Hb; [done|].
  destruct j as [|j]; [lia|]. unfold tcp_read. cbn [Nat.eqb Nat.sub]. rewrite (bind_get_tcp id t) by done.
  destruct (recv_ok _ _ _ _ Hok Hb) as (c1&_&->&Hok1&Hb1&_).
  destruct (copyout_ok mem dst [b]) as [mem1 Ho]; [eapply writable_sub; [done|lia|simpl; lia]|simpl; unfold PGSIZE; lia|].
  rewrite Ho. pose proof (copyout_copyin _ _ _ _ Ho) as Hc.
  destruct (read_more_spec max mem1 dst j c1 [b] Hok1 Hc) as (c2&mem2&Hrun&Hb2&Hc2).
  { eapply writable_sub; [by eapply copyout_writable|simpl; lia|simpl; lia]. }
  change (dst + Z.of_nat (length [b])) with (dst + 1) in Hrun. cbn [length] in Hrun. rewrite Nat.sub_0_r, Hrun. rewrite Hb1 in Hb2, Hc2.
  exists mem2, (mkTcp (t_inner t) c2 (t_strong t)). unfold got. rewrite Hb1. done.
Qed.
End data.

(** C25: Data arrives in order.  On a pair of connected sockets of the machine,
    [write] of [k] readable bytes returns [k], appends the bytes to the peer's
    queue as far as it has room, and leaves the pair connected with matching
    sequence numbers, so that the next write continues where this one ended;
    a [read] by the peer then returns the oldest bytes of its queue.  Bytes
    that find no room are dropped although they are acknowledged and counted
    as sent. *)
Theorem tcp_transfer `{UserMemLaws Mem} dev (mem : Mem) src k nb data n c s tc ts ca sa :
  net_ok n → synced n c s tc ts ca sa → chan_ok TCP_QUEUE (t_chan ts) →
  copyin mem src k = Ok data → Forall is_byte data →
  let ts' := deliver ts data in
  ∃ n' tc', tcp_write dev c mem src k nb n = (Ok k, n') ∧ synced n' c s tc' ts' ca sa ∧
    chan_ok TCP_QUEUE (t_chan ts') ∧ ch_buf (t_chan ts') = ch_buf (t_chan ts) ++ take (room (t_chan ts)) data ∧
    t_chan tc' = t_chan tc ∧ t_snd (t_inner tc') = u32 (t_snd (t_inner tc) + Z.of_nat k) ∧
    ∀ (mem2 : Mem) dst j, (0 < j)%nat → ch_buf (t_chan ts') ≠ [] → writable mem2 dst j →
      let got := take j (ch_buf (t_chan ts')) in
      ∃ mem' n'' ts'', tcp_read s mem2 dst j n' = (Ok (length got, mem'), n'') ∧
        copyin mem' dst (length got) = Ok got ∧
        tcp_socks n'' !! s = Some ts'' ∧ ch_buf (t_chan ts'') = drop j (ch_buf (t_chan ts')).
Proof.
  intros Hn [HL [Hsy1 Hsy2]] Hch Hin Hb ts'. unfold ts'. pose proof HL as [L1 L2 L3 L4 L5 [L6 L6'] [L7 L7'] [L8 L8'] [L9 L9']].
  destruct (no_tcp _ Hn _ _ L1) as [[T1 T2 T3 T4] _], (no_tcp _ Hn _ _ L2) as [[S1 S2 S3 S4] _].
  destruct T4 as (ca'&sa'&E1&E2&Hca&Hsa); [congruence|].
  assert (ca' = ca) as -> by congruence. assert (sa' = sa) as -> by congruence.
  set (n1 := upd_socks <[s := deliver ts data]> n).
  assert (HL1 : linked n1 c s tc (deliver ts data) ca sa) by (by apply linked_server with ts).
  set (i := t_inner tc).
  set (tc' := mkTcp (mkTcpInner (t_local i) (t_peer i) (t_state i) (u32 (t_snd i + Z.of_nat k)) (t_rcv i) (t_listener i))
                (t_chan tc) (t_strong tc)).
  destruct (push_bytes_spec TCP_QUEUE data (t_chan ts) Hch) as (P1&P2&_).
  assert (HL2 : linked (upd_socks <[c := tc']> n1) c s tc' (deliver ts data) ca sa) by (by apply linked_client with tc).
  exists (upd_socks <[c := tc']> n1), tc'. split; [|split; [|split; [done|split; [done|split; [done|split; [done|]]]]]].
  - unfold tcp_write. rewrite (bind_get_tcp c tc) by done. cbv zeta. rewrite L6, L7, L7'.
    rewrite bool_decide_eq_true_2 by done. cbn [negb].
    rewrite (bind_ok _ _ _ _ _ (write_loop_delivers dev TCP_QUEUE k _ _ mem src k nb n c s tc ts ca sa data HL Hca Hsa T2 T3 S2
               (eq_sym Hsy1) Hch Hin Hb (Nat.le_refl k))).
    by rewrite (bind_get_tcp c tc) by apply HL1.
  - split; [done|]. simpl. rewrite <-Hsy1. split; [|done]. do 3 f_equal. symmetry. by eapply copyin_length.
  - intros mem2 dst j Hj Hne Hw.
    destruct (tcp_read_spec TCP_QUEUE s (deliver ts data) mem2 dst j (upd_socks <[c := tc']> n1))
      as (mem'&ts''&R1&R2&_&R3); [apply HL2|done|done|done|done|].
    exists mem', (upd_socks <[s := ts'']> (upd_socks <[c := tc']> n1)), ts''. split_and!; [done|done| |done].
    simpl. by rewrite lookup_insert_eq.
Qed.

(** The connection of [demo_net]. *)
Definition demo_conn : Net := (tcp_connect open_dev 1 (mkAddr [10; 0; 2; 15] 80) false demo_net).2.
Definition demo_tc : TcpSocket :=
  mkTcp (mkTcpInner (Some (mkAddr [10; 0; 2; 15] 49152)) (Some (mkAddr [10; 0; 2; 15] 80)) Established 1 2 None)
    (sync_channel TCP_QUEUE) 1.
Definition demo_ts : TcpSocket :=
  mkTcp (mkTcpInner (Some (mkAddr [10; 0; 2; 15] 80)) (Some (mkAddr [10; 0; 2; 15] 49152)) Established 2 1 None)
    (sync_channel TCP_QUEUE) 1.

Lemma demo_addr_ok port : 0 ≤ port < 65536 → sock_ok (mkAddr [10; 0; 2; 15] port).
Proof.
  intros Hp. split; [|exact Hp]. split; [done|].
  repeat (apply Forall_cons; split); try apply Forall_nil; unfold is_byte; lia.
Qed.

Lemma demo_conn_ok : net_ok demo_conn.
Proof.
  split.
  - exact (no_ip _ (net_ok_new [2; 0; 0; 0; 0; 1])).
  - assert (tcp_socks demo_conn = <[2%nat := demo_ts]> (<[1%nat := demo_tc]> ∅)) as -> by (vm_compute; reflexivity).
    assert (NEXT_ID demo_conn = 3%nat) as -> by (vm_compute; reflexivity).
    repeat (apply map_Forall_insert_2; [split; [|lia]|]); [..|apply map_Forall_empty];
      (split; [simpl; lia|unfold seq_ok; simpl; lia..|]; intros _; eexists _, _; split_and!;
       [reflexivity|reflexivity|apply demo_addr_ok; lia|apply demo_addr_ok; lia]).
  - assert (TCP_CONNS demo_conn = <[(80, 49152, [10; 0; 2; 15]) := 2%nat]> (<[(49152, 80, [10; 0; 2; 15]) := 1%nat]> ∅)) as ->
      by (vm_compute; reflexivity).
    assert (NEXT_ID demo_conn = 3%nat) as -> by (vm_compute; reflexivity).
    repeat (apply map_Forall_insert_2; [lia|]). apply map_Forall_empty.
Qed.

Lemma tcp_transfer_witness :
  ∃ n' tc' ts', tcp_write open_dev 1 (<[0 := 104]> (<[1 := 105]> ∅) : FlatMem) 0 2 true demo_conn = (Ok 2%nat, n') ∧
    synced n' 1 2 tc' ts' (mkAddr [10; 0; 2; 15] 49152) (mkAddr [10; 0; 2; 15] 80) ∧ ch_buf (t_chan ts') = [104; 105].
Proof.
  destruct (tcp_transfer open_dev (<[0 := 104]> (<[1 := 105]> ∅) : FlatMem) 0 2 true [104; 105] demo_conn 1 2 demo_tc demo_ts
              (mkAddr [10; 0; 2; 15] 49152) (mkAddr [10; 0; 2; 15] 80)) as (n'&tc'&H1&H2&_&H3&_).
  - apply demo_conn_ok.
  - split; [|split; reflexivity]. split; try (split; reflexivity); try (vm_compute; reflexivity). discriminate.
  - split; vm_compute; first [reflexivity|discriminate].
  - vm_compute. reflexivity.
  - repeat (apply Forall_cons; split); try apply Forall_nil; unfold is_byte; lia.
  - exists n', tc', (deliver demo_ts [104; 105]). split; [exact H1|]. split; [exact H2|exact H3].
Defined.
