(* ===== verification/Console.v ===== *)
(** * The console

    The line discipline of [kernel/src/console.rs]: editing of the input
    line, the history of lines, and [read].  What [intr] does to the outside
    is recorded as a list of events: characters echoed, signals sent, and the
    wakeup of readers.  Indices are [Wrapping<usize>]. *)

From stdpp Require Import base tactics numbers gmap list.
From S2P Require Import Prelude Params Errors UserMem Signal.
Local Open Scope Z_scope.

Definition BS : Z := 0x08.
(** [ctrl]: [x - '@']. *)
Definition ctrl (x : Z) : Z := x - 64.
Definition INPUT_BUF_SIZE : Z := 128.
Definition HISTORY_LEN : nat := 16.

Record Cons := mkCons {
  c_buf : list Z; c_r : Z; c_w : Z; c_e : Z; line_start : Z; c_session : Z; c_fg_pgrp : Z;
  history : list (list Z); history_len : list nat; history_count : nat; history_next : nat;
  history_cursor : option nat; history_saved : list Z; history_saved_len : nat; esc_state : Z;
}.

Definition Cons_new : Cons :=
  mkCons (replicate 128 0) 0 0 0 0 0 0 (replicate HISTORY_LEN (replicate 128 0)) (replicate HISTORY_LEN 0%nat)
    0 0 None (replicate 128 0) 0 0.

(** What the handler does to the outside. *)
Inductive Event := EPut (c : Z) | EKill (pgid sig : Z) | EDump | EWakeup.

(** [putc], to the uart and the framebuffer. *)
Definition putc (c : Z) : list Event := if c =? ctrl 72 then [EPut BS; EPut 32; EPut BS] else [EPut c].

(** Handlers compute a new state and events. *)
Definition CM (A : Type) : Type := Cons → A * Cons * list Event.
Global Instance CM_ret : MRet CM := λ A a c, (a, c, []).
Global Instance CM_bind : MBind CM := λ A B f m c, let '(a, c1, e1) := m c in let '(b, c2, e2) := f a c1 in (b, c2, e1 ++ e2).
Definition cget : CM Cons := λ c, (c, c, []).
Definition cset (f : Cons → Cons) : CM () := λ c, ((), f c, []).
Definition cemit (es : list Event) : CM () := λ c, ((), c, es).

Definition with_e (e : Z) (c : Cons) : Cons :=
  mkCons (c_buf c) (c_r c) (c_w c) e (line_start c) (c_session c) (c_fg_pgrp c) (history c) (history_len c) (history_count c)
    (history_next c) (history_cursor c) (history_saved c) (history_saved_len c) (esc_state c).
Definition with_buf (b : list Z) (c : Cons) : Cons :=
  mkCons b (c_r c) (c_w c) (c_e c) (line_start c) (c_session c) (c_fg_pgrp c) (history c) (history_len c) (history_count c)
    (history_next c) (history_cursor c) (history_saved c) (history_saved_len c) (esc_state c).
Definition with_r (r : Z) (c : Cons) : Cons :=
  mkCons (c_buf c) r (c_w c) (c_e c) (line_start c) (c_session c) (c_fg_pgrp c) (history c) (history_len c) (history_count c)
    (history_next c) (history_cursor c) (history_saved c) (history_saved_len c) (esc_state c).
Definition with_w (w : Z) (c : Cons) : Cons :=
  mkCons (c_buf c) (c_r c) w (c_e c) (line_start c) (c_session c) (c_fg_pgrp c) (history c) (history_len c) (history_count c)
    (history_next c) (history_cursor c) (history_saved c) (history_saved_len c) (esc_state c).
Definition with_line_start (l : Z) (c : Cons) : Cons :=
  mkCons (c_buf c) (c_r c) (c_w c) (c_e c) l (c_session c) (c_fg_pgrp c) (history c) (history_len c) (history_count c)
    (history_next c) (history_cursor c) (history_saved c) (history_saved_len c) (esc_state c).
Definition with_pgrp (s g : Z) (c : Cons) : Cons :=
  mkCons (c_buf c) (c_r c) (c_w c) (c_e c) (line_start c) s g (history c) (history_len c) (history_count c)
    (history_next c) (history_cursor c) (history_saved c) (history_saved_len c) (esc_state c).
Definition with_cursor (k : option nat) (c : Cons) : Cons :=
  mkCons (c_buf c) (c_r c) (c_w c) (c_e c) (line_start c) (c_session c) (c_fg_pgrp c) (history c) (history_len c) (history_count c)
    (history_next c) k (history_saved c) (history_saved_len c) (esc_state c).
Definition with_saved (s : list Z) (n : nat) (c : Cons) : Cons :=
  mkCons (c_buf c) (c_r c) (c_w c) (c_e c) (line_start c) (c_session c) (c_fg_pgrp c) (history c) (history_len c) (history_count c)
    (history_next c) (history_cursor c) s n (esc_state c).
Definition with_history (h : list (list Z)) (ls : list nat) (n k : nat) (c : Cons) : Cons :=
  mkCons (c_buf c) (c_r c) (c_w c) (c_e c) (line_start c) (c_session c) (c_fg_pgrp c) h ls n
    k (history_cursor c) (history_saved c) (history_saved_len c) (esc_state c).
Definition with_esc (z : Z) (c : Cons) : Cons :=
  mkCons (c_buf c) (c_r c) (c_w c) (c_e c) (line_start c) (c_session c) (c_fg_pgrp c) (history c) (history_len c) (history_count c)
    (history_next c) (history_cursor c) (history_saved c) (history_saved_len c) z.

(** [buf[i % INPUT_BUF_SIZE]]. *)
Definition at_idx (c : Cons) (i : Z) : Z := nth (Z.to_nat (i mod INPUT_BUF_SIZE)) (c_buf c) 0.

(** [Cons::history_ring_index]. *)
Definition history_ring_index (c : Cons) (idx : nat) : nat :=
  if (history_count c <? HISTORY_LEN)%nat then idx else ((history_next c + idx) mod HISTORY_LEN)%nat.

(** [Cons::capture_line]: the bytes copied, at most [fuel] of them. *)
Fixpoint capture_from (fuel : nat) (c : Cons) (idx : Z) : list Z :=
  match fuel with
  | O => []
  | S fuel =>
      if idx =? c_e c then []
      else
        let b := at_idx c idx in
        if b =? 10 then [] else b :: capture_from fuel c (u64 (idx + 1))
  end.
Definition capture_line (c : Cons) : list Z := capture_from (Z.to_nat INPUT_BUF_SIZE) c (line_start c).

(** [dst[..src.len()].copy_from_slice(src)]. *)
Definition overwrite (dst src : list Z) : list Z := src ++ drop (length src) dst.

(** [Cons::push_history]. *)
Definition push_history : CM () :=
  c ← cget;
  let tmp := capture_line c in
  _ ← cset (with_cursor None);
  _ ← cset (λ c, with_saved (history_saved c) 0 c);
  if (length tmp =? 0)%nat then mret ()
  else
    let idx := history_next c in
    let h := <[idx := overwrite (nth idx (history c) []) tmp]> (history c) in
    let ls := <[idx := length tmp]> (history_len c) in
    cset (with_history h ls (if (history_count c <? HISTORY_LEN)%nat then S (history_count c) else history_count c)
           ((history_next c + 1) mod HISTORY_LEN)%nat).

(** [Cons::clear_line], as many times as the source's loop runs. *)
Fixpoint clear_loop (n : nat) : CM () :=
  match n with
  | O => mret ()
  | S n => _ ← cset (λ c, with_e (u64 (c_e c - 1)) c); _ ← cemit (putc (ctrl 72)); clear_loop n
  end.
Definition clear_line : CM () := c ← cget; clear_loop (Z.to_nat (u64 (c_e c - line_start c))).

(** [Cons::insert_byte]. *)
Definition put_byte (b : Z) : CM () :=
  _ ← cemit (putc b);
  cset (λ c, with_e (u64 (c_e c + 1)) (with_buf (<[Z.to_nat (c_e c mod INPUT_BUF_SIZE) := b]> (c_buf c)) c)).
Definition insert_byte (b : Z) : CM () :=
  c ← cget;
  if (b =? 0) || (INPUT_BUF_SIZE <=? u64 (c_e c - c_r c)) then mret () else put_byte b.
Fixpoint insert_all (l : list Z) : CM () := match l with [] => mret () | b :: l => _ ← insert_byte b; insert_all l end.

(** [Cons::load_history]. *)
Definition load_history (idx : nat) : CM () :=
  c ← cget;
  let k := history_ring_index c idx in
  _ ← clear_line;
  insert_all (take (nth k (history_len c) 0%nat) (nth k (history c) [])).

(** [Cons::history_up] and [Cons::history_down]. *)
Definition history_up : CM () :=
  c ← cget;
  if (history_count c =? 0)%nat then mret ()
  else
    cursor ← match history_cursor c with
             | None =>
                 let tmp := capture_line c in
                 _ ← cset (with_saved (overwrite (history_saved c) tmp) (length tmp));
                 mret (history_count c - 1)%nat
             | Some cur => mret (cur - 1)%nat
             end;
    _ ← cset (with_cursor (Some cursor));
    load_history cursor.
Definition history_down : CM () :=
  c ← cget;
  match history_cursor c with
  | None => mret ()
  | Some cur =>
      if (cur + 1 <? history_count c)%nat then
        _ ← cset (with_cursor (Some (cur + 1)%nat)); load_history (cur + 1)
      else
        _ ← cset (with_cursor None);
        _ ← clear_line;
        insert_all (take (history_saved_len c) (history_saved c))
  end.

(** [Cons::handle_escape]: whether the byte was taken. *)
Definition handle_escape (b : Z) : CM bool :=
  c ← cget;
  if esc_state c =? 0 then
    if b =? 0x1b then _ ← cset (with_esc 1); mret true else mret false
  else if esc_state c =? 1 then
    if b =? 91 then _ ← cset (with_esc 2); mret true else _ ← cset (with_esc 0); mret true
  else if esc_state c =? 2 then
    _ ← cset (with_esc 0);
    _ ← (if (b =? 65) || (b =? 68) then history_up else if (b =? 66) || (b =? 67) then history_down else mret ());
    mret true
  else _ ← cset (with_esc 0); mret true.

(** The default case of [intr]. *)
Definition intr_char (b : Z) : CM () :=
  c ← cget;
  if negb (b =? 0) && (u64 (c_e c - c_r c) <? INPUT_BUF_SIZE) then
    let b := if b =? 13 then 10 else b in
    _ ← put_byte b;
    _ ← cset (with_cursor None);
    c ← cget;
    if (b =? 10) || (b =? ctrl 68) || (u64 (c_e c - c_r c) =? INPUT_BUF_SIZE) then
      _ ← (if b =? 10 then _ ← push_history; cset (λ c, with_line_start (c_e c) c) else mret ());
      _ ← cset (λ c, with_w (c_e c) c);
      cemit [EWakeup]
    else mret ()
  else mret ().

(** [Mutex<Cons>::intr]; [pgid] is the group of the process running, or 0. *)
Definition intr (pgid b : Z) : CM () :=
  taken ← handle_escape b;
  if (taken : bool) then mret ()
  else
    c ← cget;
    let target := if c_fg_pgrp c =? 0 then pgid else c_fg_pgrp c in
    let signal sig := if negb (target =? 0) then cemit [EKill target sig] else mret () in
    if b =? ctrl 67 then signal SIGINT
    else if b =? ctrl 90 then signal SIGTSTP
    else if b =? ctrl 80 then cemit [EDump]
    else if b =? ctrl 85 then _ ← clear_line; cset (with_cursor None)
    else if b =? Z.lor (ctrl 72) 0x7f then
      _ ← (if negb (c_e c =? line_start c) then _ ← cset (λ c, with_e (u64 (c_e c - 1)) c); cemit (putc (ctrl 72)) else mret ());
      cset (with_cursor None)
    else intr_char b.

(** ** Readers and writers *)

Inductive read_res := RDone (r : Result nat) | RSleep (done_ : nat).

Section read.
Context {Mem : Type} `{UserMem Mem}.

(** The loop of [Device::read], with [n] of [target] bytes to go; it stops
    where it would sleep. *)
Fixpoint cons_read_loop (killed : bool) (mem : Mem) (dst : Z) (target n : nat) (c : Cons) : read_res * (Mem * Cons) :=
  match n with
  | O => (RDone (Ok target), (mem, c))
  | S n' =>
      if c_r c =? c_w c then (if killed then RDone (Err Interrupted) else RSleep (target - n), (mem, c))
      else
        let b := at_idx c (c_r c) in
        let c1 := with_r (u64 (c_r c + 1)) c in
        if b =? ctrl 68 then
          (RDone (Ok (target - n)%nat), (mem, if (n <? target)%nat then with_r (u64 (c_r c1 - 1)) c1 else c1))
        else
          match copyout mem dst [b] with
          | (Ok (), mem) =>
              if b =? 10 then (RDone (Ok (target - n')%nat), (mem, c1)) else cons_read_loop killed mem (dst + 1) target n' c1
          | (Err e, mem) => (RDone (Err e), (mem, c1))
          | (Panic, mem) => (RDone Panic, (mem, c1))
          end
  end.
Definition cons_read (killed : bool) (mem : Mem) (dst : Z) (n : nat) (c : Cons) : read_res * (Mem * Cons) :=
  cons_read_loop killed mem dst n n c.

(** [Device::write]: blocks of at most 512 bytes go to the uart, without
    [putc]'s rewriting of backspace, and to the framebuffer; [fuel] bounds the
    loop. *)
Fixpoint cons_write_loop (fuel : nat) (mem : Mem) (src : Z) (n written : nat) : Result nat * list Z :=
  match fuel with
  | O => (Ok written, [])
  | S fuel =>
      if (written <? n)%nat then
        let m := Nat.min 512 (n - written) in
        match copyin mem src m with
        | Ok buf => let '(r, out) := cons_write_loop fuel mem (src + Z.of_nat m) n (written + m) in (r, buf ++ out)
        | Err e => (Err e, [])
        | Panic => (Panic, [])
        end
      else (Ok written, [])
  end.
Definition cons_write (mem : Mem) (src : Z) (n : nat) : Result nat * list Z :=
  if (n =? 0)%nat then (Ok 0%nat, []) else cons_write_loop n mem src n 0.
End read.

(** [readable], [session], [fg_pgrp], [is_foreground], [set_session] and
    [set_fg_pgrp]. *)
Definition readable (c : Cons) : bool := negb (c_r c =? c_w c).
Definition is_foreground (pgid : Z) (c : Cons) : bool := (c_fg_pgrp c =? 0) || (c_fg_pgrp c =? pgid).
Definition set_session (sid : Z) (c : Cons) : Result () * Cons :=
  if negb (c_session c =? 0) && negb (c_session c =? sid) then (Err PermissionDenied, c)
  else (Ok (), if c_session c =? 0 then with_pgrp sid (c_fg_pgrp c) c else c).
Definition set_fg_pgrp (sid pgid : Z) (c : Cons) : Result () * Cons :=
  if negb (c_session c =? 0) && negb (c_session c =? sid) then (Err PermissionDenied, c)
  else (Ok (), with_pgrp (if c_session c =? 0 then sid else c_session c) pgid c).
