(* ===== verification/ConsoleSpec.v ===== *)
(** * What the console's line discipline does

    The reference is a line editor on lists ([Editor]): complete lines ready
    for readers, the line being typed, and the history.  [rep] relates it to
    the ring buffer, the indices and the history ring of [console.rs].  The
    handler refines the editor for every byte except control-D and a byte
    that fills the buffer, which leave the line start behind the write index;
    from such a state an erase can move the edit index behind the read index,
    and the console then never becomes readable again. *)

From stdpp Require Import base tactics numbers gmap list.
From S2P Require Import Prelude Params Errors UserMem Signal Console.
Local Open Scope Z_scope.

(** ** The reference *)

Record Editor := mkEditor {
  ready : list Z; line : list Z; hist : list (list Z); cursor : option nat; saved : list Z; esc : Z; fg : Z;
}.
Definition set_line (l : list Z) (A : Editor) := mkEditor (ready A) l (hist A) (cursor A) (saved A) (esc A) (fg A).
Definition set_cursor (k : option nat) (A : Editor) := mkEditor (ready A) (line A) (hist A) k (saved A) (esc A) (fg A).
Definition set_esc (z : Z) (A : Editor) := mkEditor (ready A) (line A) (hist A) (cursor A) (saved A) z (fg A).
Definition set_saved (l : list Z) (A : Editor) := mkEditor (ready A) (line A) (hist A) (cursor A) l (esc A) (fg A).

(** The bytes that still fit. *)
Definition room (A : Editor) : nat := 128 - (length (ready A) + length (line A)).

Definition erased (n : nat) : list Event := concat (replicate n (putc (ctrl 72))).
Definition echo (l : list Z) : list Event := concat (putc <$> l).

(** Replace the line being typed. *)
Definition replace_line (l : list Z) (A : Editor) : Editor * list Event :=
  let l := take (128 - length (ready A)) l in
  (set_line l A, erased (length (line A)) ++ echo l).

(** A complete line is remembered, the oldest of 16 forgotten. *)
Definition remember (l : list Z) (h : list (list Z)) : list (list Z) :=
  match l with [] => h | _ => drop (length h - 15) h ++ [l] end.

Definition up (A : Editor) : Editor * list Event :=
  match hist A with
  | [] => (A, [])
  | _ =>
      let '(k, A) := match cursor A with
                     | None => ((length (hist A) - 1)%nat, set_saved (line A) A)
                     | Some k => ((k - 1)%nat, A)
                     end in
      replace_line (nth k (hist A) []) (set_cursor (Some k) A)
  end.
Definition down (A : Editor) : Editor * list Event :=
  match cursor A with
  | None => (A, [])
  | Some k =>
      if (k + 1 <? length (hist A))%nat then replace_line (nth (k + 1) (hist A) []) (set_cursor (Some (k + 1)%nat) A)
      else replace_line (saved A) (set_cursor None A)
  end.

Definition erase_last (A : Editor) : Editor * list Event :=
  match line A with
  | [] => (set_cursor None A, [])
  | _ => (set_cursor None (set_line (removelast (line A)) A), putc (ctrl 72))
  end.

Definition type_char (b : Z) (A : Editor) : Editor * list Event :=
  if (b =? 0) || (room A =? 0)%nat then (A, [])
  else if (b =? 10) || (b =? 13) then
    (mkEditor (ready A ++ line A ++ [10]) [] (remember (line A) (hist A)) None [] (esc A) (fg A), putc 10 ++ [EWakeup])
  else (set_cursor None (set_line (line A ++ [b]) A), putc b).

Definition edit (pgid b : Z) (A : Editor) : Editor * list Event :=
  if esc A =? 0 then
    if b =? 0x1b then (set_esc 1 A, [])
    else
      let target := if fg A =? 0 then pgid else fg A in
      let signal sig := (A, if target =? 0 then [] else [EKill target sig]) in
      if b =? ctrl 67 then signal SIGINT
      else if b =? ctrl 90 then signal SIGTSTP
      else if b =? ctrl 80 then (A, [EDump])
      else if b =? ctrl 85 then (set_cursor None (set_line [] A), erased (length (line A)))
      else if b =? 0x7f then erase_last A
      else type_char b A
  else if esc A =? 1 then (set_esc (if b =? 91 then 2 else 0) A, [])
  else
    let A := set_esc 0 A in
    if (b =? 65) || (b =? 68) then up A else if (b =? 66) || (b =? 67) then down A else (A, []).

(** The bytes the editor describes: not control-D, and not one that fills the
    buffer without ending the line. *)
Definition plain (A : Editor) (b : Z) : bool :=
  negb (esc A =? 0) || ((b =? 0x1b) || (b =? 3) || (b =? 26) || (b =? 16) || (b =? 21) || (b =? 127) || (b =? 10) || (b =? 13)
    || (negb (b =? 4) && negb (room A =? 1)%nat)).

Fixpoint edits (pgid : Z) (bs : list Z) (A : Editor) : Editor * list Event :=
  match bs with
  | [] => (A, [])
  | b :: bs => let '(A1, e1) := edit pgid b A in let '(A2, e2) := edits pgid bs A1 in (A2, e1 ++ e2)
  end.
Fixpoint all_plain (pgid : Z) (A : Editor) (bs : list Z) : bool :=
  match bs with [] => true | b :: bs => plain A b && all_plain pgid (edit pgid b A).1 bs end.
Fixpoint intrs (pgid : Z) (bs : list Z) : CM () :=
  match bs with [] => mret () | b :: bs => _ ← intr pgid b; intrs pgid bs end.

(** What a reader gets: up to the end of the first line. *)
Fixpoint first_line (l : list Z) : list Z :=
  match l with [] => [] | b :: l => if b =? 10 then [b] else b :: first_line l end.

(** ** The relation *)

Definition pos (i : Z) : nat := Z.to_nat (i mod 128).

Record buf_rep (c : Cons) (rd ln : list Z) : Prop := {
  br_len : length (c_buf c) = 128%nat;
  br_r : 0 ≤ c_r c < 2 ^ 64;
  br_w : c_w c = u64 (c_r c + Z.of_nat (length rd));
  br_start : line_start c = c_w c;
  br_e : c_e c = u64 (c_r c + Z.of_nat (length rd + length ln));
  br_room : (length rd + length ln ≤ 128)%nat;
  br_at i x : (rd ++ ln) !! i = Some x → c_buf c !! pos (c_r c + Z.of_nat i) = Some x;
}.

(** Characters of a line: no newline, no zero, no control-D. *)
Definition line_char (b : Z) : Prop := b ≠ 10 ∧ b ≠ 0 ∧ b ≠ 4.
Definition line_ok (l : list Z) : Prop := Forall line_char l ∧ (length l ≤ 128)%nat.

Record hist_rep (c : Cons) (h : list (list Z)) : Prop := {
  hr_len : length (history c) = 16%nat;
  hr_lens : length (history_len c) = 16%nat;
  hr_full : Forall (λ l, length l = 128%nat) (history c);
  hr_count : history_count c = length h;
  hr_max : (length h ≤ 16)%nat;
  hr_next : (history_next c < 16)%nat;
  hr_start : (length h < 16)%nat → history_next c = length h;
  hr_at i l : h !! i = Some l → ∃ s, history c !! history_ring_index c i = Some s ∧
    history_len c !! history_ring_index c i = Some (length l) ∧ take (length l) s = l ∧ line_ok l;
}.

Record rep (c : Cons) (A : Editor) : Prop := {
  rp_buf : buf_rep c (ready A) (line A);
  rp_hist : hist_rep c (hist A);
  rp_line : Forall line_char (line A);
  rp_ready : Forall (λ b, b ≠ 4) (ready A) ∧ (ready A = [] ∨ last (ready A) = Some 10);
  rp_cursor : history_cursor c = cursor A;
  rp_cursor_lt k : cursor A = Some k → (k < length (hist A))%nat;
  rp_saved : length (history_saved c) = 128%nat ∧ history_saved_len c = length (saved A) ∧
    take (length (saved A)) (history_saved c) = saved A ∧ line_ok (saved A);
  rp_esc : esc_state c = esc A ∧ 0 ≤ esc A ≤ 2;
  rp_fg : c_fg_pgrp c = fg A;
}.

(** ** Indices *)

Lemma u64_idemp a b : u64 (u64 a + b) = u64 (a + b).
Proof. unfold u64, wrap. apply Zplus_mod_idemp_l. Qed.

Lemma u64_sub_idemp a b : u64 (u64 a - b) = u64 (a - b).
Proof. unfold u64, wrap. apply Zminus_mod_idemp_l. Qed.

Lemma u64_range z : 0 ≤ u64 z < 2 ^ 64.
Proof. by apply wrap_range. Qed.

Lemma u64_fits z : 0 ≤ z < 2 ^ 64 → u64 z = z.
Proof. apply wrap_small. Qed.

Lemma pos_u64 z : pos (u64 z) = pos z.
Proof. unfold pos, u64, wrap. f_equal. apply Z.mod_mod_divide. by exists (2 ^ 57). Qed.

Lemma pos_lt z : (pos z < 128)%nat.
Proof. unfold pos. pose proof (Z.mod_pos_bound z 128). lia. Qed.

Lemma pos_inj r i j : (i < 128)%nat → (j < 128)%nat → pos (r + Z.of_nat i) = pos (r + Z.of_nat j) → i = j.
Proof.
  unfold pos. intros Hi Hj H.
  pose proof (Z.mod_pos_bound (r + Z.of_nat i) 128 ltac:(lia)). pose proof (Z.mod_pos_bound (r + Z.of_nat j) 128 ltac:(lia)).
  pose proof (Z_div_mod_eq_full (r + Z.of_nat i) 128). pose proof (Z_div_mod_eq_full (r + Z.of_nat j) 128). lia.
Qed.

(** A distance between indices that is small. *)
Lemma u64_dist r n : Z.of_nat n < 2 ^ 64 → u64 (u64 (r + Z.of_nat n) - r) = Z.of_nat n.
Proof.
  intros Hn. rewrite u64_sub_idemp. replace (r + Z.of_nat n - r) with (Z.of_nat n) by lia.
  apply u64_fits. lia.
Qed.

Lemma u64_eq r i j : Z.of_nat i < 2 ^ 64 → Z.of_nat j < 2 ^ 64 →
  u64 (r + Z.of_nat i) = u64 (r + Z.of_nat j) ↔ i = j.
Proof.
  intros Hi Hj. split; [|by intros ->]. intros H.
  apply (f_equal (λ z, u64 (z - r))) in H. rewrite !u64_dist in H by lia. lia.
Qed.

(** ** Computations on the console *)

(** [Q] holds of the result, the state and the events of [m] run from [c]. *)
Definition cwp {A} (m : CM A) (c : Cons) (Q : A → Cons → list Event → Prop) : Prop :=
  let '(a, c', es) := m c in Q a c' es.

Lemma cwp_bind {A B} (m : CM A) (f : A → CM B) c Q :
  cwp m c (λ a c1 e1, cwp (f a) c1 (λ b c2 e2, Q b c2 (e1 ++ e2))) → cwp (m ≫= f) c Q.
Proof.
  unfold cwp, mbind, CM_bind. destruct (m c) as [[a c1] e1]. by destruct (f a c1) as [[b c2] e2].
Qed.

Lemma cwp_mono {A} (m : CM A) c (Q Q' : A → Cons → list Event → Prop) :
  cwp m c Q → (∀ a c' es, Q a c' es → Q' a c' es) → cwp m c Q'.
Proof. unfold cwp. destruct (m c) as [[a c1] e1]. auto. Qed.

Lemma cwp_get c (Q : Cons → Cons → list Event → Prop) : Q c c [] → cwp cget c Q.
Proof. done. Qed.
Lemma cwp_set f c (Q : () → Cons → list Event → Prop) : Q () (f c) [] → cwp (cset f) c Q.
Proof. done. Qed.
Lemma cwp_emit es c (Q : () → Cons → list Event → Prop) : Q () c es → cwp (cemit es) c Q.
Proof. done. Qed.
Lemma cwp_ret {A} (a : A) c (Q : A → Cons → list Event → Prop) : Q a c [] → cwp (mret a) c Q.
Proof. done. Qed.

Ltac cstep :=
  lazymatch goal with
  | |- cwp (_ ≫= _) _ _ => apply cwp_bind
  | |- cwp cget _ _ => apply cwp_get
  | |- cwp (cset _) _ _ => apply cwp_set
  | |- cwp (cemit _) _ _ => apply cwp_emit
  | |- cwp (mret _) _ _ => apply cwp_ret
  end; cbv beta.

(** ** The buffer *)

Lemma at_idx_pos c z : (length (c_buf c) = 128)%nat → c_buf c !! pos z = Some (at_idx c z).
Proof.
  intros Hl. unfold at_idx. fold (pos z). destruct (nth_lookup_or_length (c_buf c) (pos z) 0) as [|Hge]; [done|].
  pose proof (pos_lt z). lia.
Qed.

(** Only the buffer and the edit index change. *)
Definition edited (c c' : Cons) : Prop := ∃ b e, c' = with_e e (with_buf b c).

Lemma edited_refl c : edited c c.
Proof. exists (c_buf c), (c_e c). by destruct c. Qed.
Lemma edited_trans c1 c2 c3 : edited c1 c2 → edited c2 c3 → edited c1 c3.
Proof. intros (b & e & ->) (b' & e' & ->). by exists b', e'. Qed.

Lemma br_dist c rd ln : buf_rep c rd ln → u64 (c_e c - c_r c) = Z.of_nat (length rd + length ln).
Proof. intros []. rewrite br_e0. apply u64_dist. lia. Qed.

Lemma br_line_len c rd ln : buf_rep c rd ln → u64 (c_e c - line_start c) = Z.of_nat (length ln).
Proof.
  intros []. rewrite br_start0, br_e0, br_w0, u64_sub_idemp.
  unfold u64, wrap. rewrite Zminus_mod_idemp_r.
  replace (_ + _ - _) with (Z.of_nat (length ln)) by lia. apply Z.mod_small. lia.
Qed.

Lemma br_empty c rd ln : buf_rep c rd ln → (c_e c =? line_start c) = bool_decide (ln = []).
Proof.
  intros []. rewrite br_start0, br_e0, br_w0. apply eq_true_iff_eq.
  rewrite Z.eqb_eq, bool_decide_eq_true, u64_eq by lia. rewrite <-length_zero_iff_nil. lia.
Qed.

Lemma put_byte_spec c rd ln b :
  buf_rep c rd ln → (length rd + length ln < 128)%nat →
  cwp (put_byte b) c (λ _ c' es, es = putc b ∧ edited c c' ∧ buf_rep c' rd (ln ++ [b])).
Proof.
  intros H Hn. unfold put_byte. do 3 cstep. split; [by rewrite app_nil_r|]. split; [by repeat eexists|].
  assert (Hpos : Z.to_nat (c_e c mod INPUT_BUF_SIZE) = pos (c_r c + Z.of_nat (length rd + length ln))).
  { rewrite (br_e _ _ _ H). fold (pos (u64 (c_r c + Z.of_nat (length rd + length ln)))). apply pos_u64. }
  rewrite Hpos. destruct H. constructor; simpl; [by rewrite length_insert|done..| | |].
  - rewrite br_e0, u64_idemp, length_app. simpl. f_equal. lia.
  - rewrite length_app. simpl. lia.
  - intros i x. rewrite app_assoc. intros [Hi|[Hge Hi]]%lookup_app_Some.
    + rewrite list_lookup_insert_ne; [by apply br_at0|]. intros Heq%pos_inj; [|lia|].
      * apply lookup_lt_Some in Hi. rewrite length_app in Hi. lia.
      * apply lookup_lt_Some in Hi. rewrite length_app in Hi. lia.
    + apply list_lookup_singleton_Some in Hi as [Hi <-]. rewrite length_app in Hge, Hi.
      replace (Z.of_nat i) with (Z.of_nat (length rd + length ln)) by lia.
      apply list_lookup_insert_eq. rewrite br_len0. apply pos_lt.
Qed.

Lemma erase_spec c rd ln b : buf_rep c rd (ln ++ [b]) → buf_rep (with_e (u64 (c_e c - 1)) c) rd ln.
Proof.
  intros []. rewrite length_app in *. simpl in *. constructor; simpl; try done; try lia.
  - rewrite br_e0, u64_sub_idemp. f_equal. lia.
  - intros i x Hi. apply br_at0. rewrite app_assoc. by apply lookup_app_l_Some.
Qed.

Lemma erased_S n : erased (S n) = putc (ctrl 72) ++ erased n.
Proof. done. Qed.

Lemma clear_loop_spec ln c rd :
  buf_rep c rd ln →
  cwp (clear_loop (length ln)) c (λ _ c' es, es = erased (length ln) ∧ edited c c' ∧ buf_rep c' rd []).
Proof.
  revert c. induction ln as [|b ln IH] using rev_ind; intros c H.
  - cbn [length clear_loop]. cstep. eauto using edited_refl.
  - rewrite length_app, Nat.add_comm. cbn [clear_loop plus length]. repeat cstep.
    eapply cwp_mono; [apply IH; by eapply erase_spec|]. intros [] c' es (-> & Hed & Hb).
    rewrite erased_S. split; [done|]. split; [|done].
    eapply edited_trans; [|done]. exists (c_buf c), (u64 (c_e c - 1)). by destruct c.
Qed.

Lemma clear_line_spec ln c rd :
  buf_rep c rd ln →
  cwp clear_line c (λ _ c' es, es = erased (length ln) ∧ edited c c' ∧ buf_rep c' rd []).
Proof.
  intros H. unfold clear_line. repeat cstep. rewrite (br_line_len _ _ _ H), Nat2Z.id.
  eapply cwp_mono; [by apply clear_loop_spec|]. done.
Qed.

Lemma insert_byte_spec c rd ln b :
  buf_rep c rd ln → b ≠ 0 →
  cwp (insert_byte b) c (λ _ c' es, edited c c' ∧
    let l := take (128 - (length rd + length ln)) [b] in es = echo l ∧ buf_rep c' rd (ln ++ l)).
Proof.
  intros H Hb. unfold insert_byte. repeat cstep. rewrite (br_dist _ _ _ H).
  rewrite (proj2 (Z.eqb_neq b 0)) by done. simpl. unfold INPUT_BUF_SIZE. case_match; bool_to_prop.
  - cstep. split; [apply edited_refl|]. replace (128 - _)%nat with 0%nat by lia. simpl. by rewrite app_nil_r.
  - eapply cwp_mono; [apply put_byte_spec; [done|lia]|]. intros [] c' es (-> & Hed & Hc). split; [done|].
    destruct (128 - (length rd + length ln))%nat eqn:E; [lia|]. simpl. rewrite take_nil. unfold echo. simpl. by rewrite app_nil_r.
Qed.

Lemma insert_all_spec l c rd ln :
  buf_rep c rd ln → Forall line_char l →
  cwp (insert_all l) c (λ _ c' es, edited c c' ∧
    let l := take (128 - (length rd + length ln)) l in es = echo l ∧ buf_rep c' rd (ln ++ l)).
Proof.
  revert c ln. induction l as [|b l IH]; intros c ln H Hl; simpl.
  - cstep. rewrite take_nil, app_nil_r. eauto using edited_refl.
  - apply Forall_cons_1 in Hl as [Hb Hl]. cstep.
    eapply cwp_mono; [apply insert_byte_spec; [done|apply Hb]|]. intros [] c1 e1 (Hed & -> & Hc).
    eapply cwp_mono; [by apply IH|]. intros [] c2 e2 (Hed2 & -> & Hc2). split; [by eapply edited_trans|].
    destruct (128 - (length rd + length ln))%nat as [|n] eqn:E; simpl in *.
    + rewrite app_nil_r in Hc2 |- *. rewrite E, firstn_0 in *. by rewrite app_nil_r in Hc2.
    + rewrite take_nil in *. rewrite length_app in *. simpl in *.
      replace (128 - (length rd + (length ln + 1)))%nat with n in * by lia.
      rewrite <-app_assoc in Hc2. split; [|done]. unfold echo. simpl. by rewrite app_nil_r.
Qed.

(** The line being typed, with or without the newline that ends it. *)
Lemma capture_from_spec c fuel rd ln tl k :
  buf_rep c rd (ln ++ tl) → tl = [] ∨ tl = [10] → Forall line_char ln → (length ln - k ≤ fuel)%nat → (k ≤ length ln)%nat →
  capture_from fuel c (u64 (c_r c + Z.of_nat (length rd + k))) = drop k ln.
Proof.
  intros H Htl Hl. revert k. induction fuel as [|fuel IH]; intros k Hf Hk; simpl.
  { by rewrite drop_ge by lia. }
  assert (Hat : ∀ b, (ln ++ tl) !! k = Some b → at_idx c (u64 (c_r c + Z.of_nat (length rd + k))) = b).
  { intros b Hb. apply (inj Some). rewrite <-at_idx_pos by apply H. rewrite pos_u64. apply (br_at _ _ _ H).
    rewrite lookup_app_r by lia. by replace (length rd + k - length rd)%nat with k by lia. }
  rewrite (br_e _ _ _ H). pose proof (br_room _ _ _ H) as Hroom. rewrite length_app in *.
  destruct (decide (k = length ln)) as [->|Hne].
  - rewrite drop_ge by done. destruct Htl as [->| ->]; simpl in *; [by rewrite Nat.add_0_r, Z.eqb_refl|].
    rewrite (Hat 10) by (by apply list_lookup_middle). by case_match.
  - rewrite (proj2 (Z.eqb_neq _ _)) by (rewrite u64_eq by lia; lia).
    destruct (lookup_lt_is_Some_2 ln k ltac:(lia)) as [b Hb].
    rewrite (Hat b) by by apply lookup_app_l_Some. pose proof (proj1 (Forall_lookup _ _) Hl _ _ Hb) as (? & _).
    rewrite (proj2 (Z.eqb_neq _ _)) by done. rewrite (drop_S _ _ _ Hb), u64_idemp. f_equal.
    rewrite <-IH by lia. do 2 f_equal. lia.
Qed.

Lemma capture_line_spec c rd ln tl :
  buf_rep c rd (ln ++ tl) → tl = [] ∨ tl = [10] → Forall line_char ln → capture_line c = ln.
Proof.
  intros H Htl Hl. unfold capture_line. rewrite (br_start _ _ _ H), (br_w _ _ _ H).
  pose proof (br_room _ _ _ H) as Hr. rewrite length_app in Hr. rewrite <-(Nat.add_0_r (length rd)).
  by apply (capture_from_spec c 128 rd ln tl 0 H Htl Hl); lia.
Qed.

(** ** History *)

Lemma hist_rep_ext c c' h :
  history c' = history c → history_len c' = history_len c → history_count c' = history_count c →
  history_next c' = history_next c → hist_rep c h → hist_rep c' h.
Proof.
  intros E1 E2 E3 E4 []. constructor; rewrite ?E1, ?E2, ?E3, ?E4; try done.
  unfold history_ring_index in *. by rewrite E3, E4.
Qed.

Lemma buf_rep_ext c c' rd ln :
  c_buf c' = c_buf c → c_r c' = c_r c → c_w c' = c_w c → c_e c' = c_e c → line_start c' = line_start c →
  buf_rep c rd ln → buf_rep c' rd ln.
Proof. intros E1 E2 E3 E4 E5 []. constructor; rewrite ?E1, ?E2, ?E3, ?E4, ?E5; done. Qed.

Ltac rep_ext := first
  [ by eapply hist_rep_ext; [..|eassumption] | by eapply buf_rep_ext; [..|eassumption] ].

Lemma rep_edited c c' A l :
  rep c A → edited c c' → buf_rep c' (ready A) l → Forall line_char l → rep c' (set_line l A).
Proof. intros [] (b & e & ->) Hb Hl. constructor; simpl; try done. rep_ext. Qed.

Lemma rep_set_cursor c A k :
  rep c A → (∀ i, k = Some i → (i < length (hist A))%nat) → rep (with_cursor k c) (set_cursor k A).
Proof. intros [] Hk. constructor; simpl; try done; rep_ext. Qed.

Lemma rep_set_esc c A z : rep c A → 0 ≤ z ≤ 2 → rep (with_esc z c) (set_esc z A).
Proof. intros [] Hz. constructor; simpl; try done; rep_ext. Qed.

Lemma overwrite_spec dst src n :
  length dst = n → (length src ≤ n)%nat → length (overwrite dst src) = n ∧ take (length src) (overwrite dst src) = src.
Proof.
  intros Hd Hs. unfold overwrite. split; [rewrite length_app, length_drop; lia|]. by rewrite take_app_length.
Qed.

Lemma rep_set_saved c A l :
  rep c A → line_ok l → rep (with_saved (overwrite (history_saved c) l) (length l) c) (set_saved l A).
Proof.
  intros [] Hl. destruct (overwrite_spec (history_saved c) l 128) as [H1 H2]; [by apply rp_saved0|by apply Hl|].
  constructor; simpl; try done; rep_ext.
Qed.

Lemma rep_line_ok c A : rep c A → line_ok (line A).
Proof. intros []. split; [done|]. destruct rp_buf0. lia. Qed.

Lemma replace_line_spec c A l :
  rep c A → line_ok l →
  cwp (_ ← clear_line; insert_all l) c (λ _ c' es, es = (replace_line l A).2 ∧ rep c' (replace_line l A).1).
Proof.
  intros H [Hl _]. cstep. eapply cwp_mono; [apply clear_line_spec, H|]. intros [] c1 e1 (-> & Hed & Hb).
  eapply cwp_mono; [by apply insert_all_spec|]. intros [] c2 e2 (Hed2 & -> & Hb2). simpl in *.
  rewrite Nat.add_0_r in *. split; [done|]. eapply rep_edited; [done|by eapply edited_trans|done|by apply Forall_take].
Qed.

Lemma load_history_spec c A i l :
  rep c A → hist A !! i = Some l →
  cwp (load_history i) c (λ _ c' es, es = (replace_line l A).2 ∧ rep c' (replace_line l A).1).
Proof.
  intros H Hi. destruct (hr_at _ _ (rp_hist _ _ H) i l Hi) as (s & Hs & Hn & Ht & Hok).
  unfold load_history. do 2 cstep. eapply cwp_mono.
  - rewrite (nth_lookup_Some _ _ _ _ Hs), (nth_lookup_Some _ _ _ _ Hn), Ht. by apply replace_line_spec.
  - done.
Qed.

Lemma rep_capture c A : rep c A → capture_line c = line A.
Proof.
  intros []. apply (capture_line_spec c (ready A) (line A) []); [by rewrite app_nil_r|by left|done].
Qed.

Lemma hist_nth A k : (k < length (hist A))%nat → hist A !! k = Some (nth k (hist A) []).
Proof. intros Hk. destruct (nth_lookup_or_length (hist A) k []); [done|lia]. Qed.

Lemma history_up_spec c A :
  rep c A → cwp history_up c (λ _ c' es, es = (up A).2 ∧ rep c' (up A).1).
Proof.
  intros H. unfold history_up, up. do 2 cstep. rewrite (hr_count _ _ (rp_hist _ _ H)), (rp_cursor _ _ H).
  destruct (hist A) as [|h0 hs] eqn:Eh; [simpl; by cstep|]. cbn [length Nat.eqb].
  assert (Hpos : (0 < length (hist A))%nat) by (rewrite Eh; simpl; lia).
  destruct (cursor A) as [k|] eqn:Ek.
  - pose proof (rp_cursor_lt _ _ H k Ek). repeat cstep.
    rewrite <-?Eh. cbn [fst snd]. apply (load_history_spec _ (set_cursor (Some (k - 1)%nat) A)); [|apply (hist_nth A); lia].
    apply rep_set_cursor; [done|]. intros ? [= <-]. lia.
  - replace (S (length hs)) with (length (hist A)) by by rewrite Eh. repeat cstep. rewrite <-?Eh.
    rewrite (rep_capture _ _ H).
    apply (load_history_spec _ (set_cursor _ (set_saved (line A) A))); [|apply (hist_nth A); lia].
    apply rep_set_cursor; [apply rep_set_saved; [done|by eapply rep_line_ok]|]. intros ? [= <-]. simpl. lia.
Qed.

Lemma history_down_spec c A :
  rep c A → cwp history_down c (λ _ c' es, es = (down A).2 ∧ rep c' (down A).1).
Proof.
  intros H. unfold history_down, down. do 2 cstep. rewrite (hr_count _ _ (rp_hist _ _ H)), (rp_cursor _ _ H).
  destruct (cursor A) as [k|] eqn:Ek; [|by cstep]. case_match; bool_to_prop; do 2 cstep.
  - apply (load_history_spec _ (set_cursor _ A)); [|by apply (hist_nth A)].
    apply rep_set_cursor; [done|]. by intros ? [= <-].
  - destruct (rp_saved _ _ H) as (_ & -> & -> & Hok).
    apply (replace_line_spec _ (set_cursor None A)); [|done]. by apply rep_set_cursor.
Qed.

(** The slot of the [i]-th oldest line after a line is added. *)
Lemma ring_index_push count next i :
  (next < 16)%nat → (count < 16 → next = count)%nat → (count ≤ 16)%nat →
  (i < if count <? 16 then S count else 16)%nat →
  let idx c n j := (if c <? 16 then j else Nat.modulo (n + j) 16)%nat in
  let new := idx (if count <? 16 then S count else count)%nat (Nat.modulo (next + 1) 16) i in
  (i = (if count <? 16 then count else 15) ∧ new = next ∨
   i < (if count <? 16 then count else 15) ∧ new = idx count next (i + (count - 15)) ∧ new ≠ next)%nat.
Proof.
  intros Hn Hs Hc Hi idx new. subst idx new. cbv beta. destruct (count <? 16)%nat eqn:E; bool_to_prop; cbv beta iota in *.
  - rewrite (Hs E) in *. destruct (decide (i = count)) as [->|]; [left|right]; (split; [lia|]).
    + destruct (S count <? 16)%nat eqn:E'; bool_to_prop; [done|]. replace count with 15%nat by lia. done.
    + replace (count - 15)%nat with 0%nat by lia. rewrite Nat.add_0_r.
      destruct (S count <? 16)%nat eqn:E'; bool_to_prop; [split; [done|lia]|]. replace count with 15%nat in * by lia.
      change ((15 + 1) mod 16)%nat with 0%nat. rewrite Nat.add_0_l, Nat.mod_small by lia. lia.
  - replace count with 16%nat in * by lia. change ((16 <? 16)%nat) with false. cbv iota.
    rewrite Nat.Div0.add_mod_idemp_l. replace (next + 1 + i)%nat with (next + (i + 1))%nat by lia.
    destruct (decide (i = 15%nat)) as [->|]; [left|right]; (split; [lia|]).
    + change (15 + 1)%nat with (1 * 16)%nat. rewrite Nat.Div0.mod_add. by apply Nat.mod_small.
    + change (16 - 15)%nat with 1%nat. split; [done|]. intros Heq.
      pose proof (Nat.div_mod_eq (next + (i + 1)) 16). lia.
Qed.

(** The ring after a line is added. *)
Lemma history_ring_push c h l s :
  hist_rep c h → line_ok l → l ≠ [] → length s = 128%nat → take (length l) s = l →
  hist_rep (with_history (<[history_next c := s]> (history c)) (<[history_next c := length l]> (history_len c))
    (if (history_count c <? HISTORY_LEN)%nat then S (history_count c) else history_count c)
    ((history_next c + 1) mod HISTORY_LEN)%nat c) (remember l h).
Proof.
  intros [] Hl Hne Hs Ht. unfold remember. destruct l as [|l0 l']; [done|]. set (l := l0 :: l') in *.
  assert (Hlen : length (drop (length h - 15) h ++ [l]) = if (length h <? 16)%nat then S (length h) else 16%nat).
  { rewrite length_app, length_drop. simpl. case_match; bool_to_prop; lia. }
  unfold HISTORY_LEN. rewrite hr_count0. constructor; simpl; rewrite ?length_insert, ?Hlen; try done.
  - by apply Forall_insert.
  - case_match; bool_to_prop; lia.
  - case_match; bool_to_prop; lia.
  - by apply Nat.mod_upper_bound.
  - case_match; bool_to_prop; [|lia]. intros. rewrite hr_start0 by done. rewrite Nat.mod_small; lia.
  - intros i x Hi. unfold history_ring_index, HISTORY_LEN in *. rewrite hr_count0 in *. simpl in *.
    destruct (ring_index_push (length h) (history_next c) i) as [(Hii & ->)|(Hii & Heq & Hneq)]; try done.
    { by apply lookup_lt_Some in Hi; rewrite Hlen in Hi. }
    + assert (x = l) as ->.
      { rewrite lookup_app_r, length_drop in Hi by (rewrite length_drop; destruct (Nat.ltb_spec (length h) 16); lia).
        by apply list_lookup_singleton_Some in Hi as [_ ?]. }
      exists s. rewrite !list_lookup_insert_eq by lia. done.
    + rewrite !list_lookup_insert_ne by done. rewrite Heq. rewrite Nat.add_comm. apply hr_at0.
      rewrite lookup_app_l, lookup_drop in Hi by (rewrite length_drop; destruct (Nat.ltb_spec (length h) 16); lia). done.
Qed.

Lemma push_history_spec c h l :
  hist_rep c h → line_ok l → capture_line c = l →
  cwp push_history c (λ _ c' es, es = [] ∧ hist_rep c' (remember l h) ∧
    ∃ h ls n k, c' = with_history h ls n k (with_saved (history_saved c) 0 (with_cursor None c))).
Proof.
  intros Hh Hl Hcap. unfold push_history. do 6 cstep. rewrite Hcap. destruct (decide (l = [])) as [->|Hne].
  - simpl. cstep. split_and!; [done|rep_ext|]. by exists (history c), (history_len c), (history_count c), (history_next c).
  - rewrite (proj2 (Nat.eqb_neq (length l) 0)) by by rewrite length_zero_iff_nil.
    cstep. split_and!; [done| |by repeat eexists].
    destruct (lookup_lt_is_Some_2 (history c) (history_next c)) as [s Hs]; [destruct Hh; lia|].
    rewrite (nth_lookup_Some _ _ _ _ Hs).
    destruct (overwrite_spec s l 128) as [H1 H2]; [|apply Hl|].
    { by apply (proj1 (Forall_lookup _ _) (hr_full _ _ Hh) _ _ Hs). }
    eapply hist_rep_ext; [..|by eapply history_ring_push]; done.
Qed.

(** ** The handler *)

Lemma erase_last_spec c A :
  rep c A →
  cwp (_ ← (if negb (c_e c =? line_start c) then _ ← cset (λ c, with_e (u64 (c_e c - 1)) c); cemit (putc (ctrl 72)) else mret ());
       cset (with_cursor None)) c (λ _ c' es, es = (erase_last A).2 ∧ rep c' (erase_last A).1).
Proof.
  intros H. rewrite (br_empty _ _ _ (rp_buf _ _ H)). unfold erase_last.
  destruct (line A) as [|b l _] eqn:El using rev_ind.
  - rewrite bool_decide_true by done. simpl. repeat cstep. split; [done|]. by apply rep_set_cursor.
  - rewrite bool_decide_false by by destruct l. simpl. repeat cstep.
    replace (match l ++ [b] with [] => (set_cursor None A, []) | _ => (set_cursor None (set_line (removelast (l ++ [b])) A), putc (ctrl 72)) end)
      with (set_cursor None (set_line l A), putc (ctrl 72)) by (rewrite removelast_last; by destruct l).
    split; [done|]. apply (rep_set_cursor _ (set_line l A)); [|done].
    pose proof (rp_buf _ _ H) as Hb. pose proof (rp_line _ _ H) as Hl. rewrite El in Hb, Hl.
    apply erase_spec in Hb. apply Forall_app in Hl as [Hl _]. eapply rep_edited; [done| |done..].
    exists (c_buf c), (u64 (c_e c - 1)). by destruct c.
Qed.

Lemma last_snoc_some {A} (l l' : list A) x : last (l ++ l' ++ [x]) = Some x.
Proof. by rewrite app_assoc, last_snoc. Qed.

(** A newline makes the line ready. *)
Lemma newline_spec c A :
  rep c A → buf_rep c (ready A) (line A) → (0 < room A)%nat →
  cwp (_ ← put_byte 10; _ ← cset (with_cursor None); _ ← cget; _ ← (_ ← push_history; cset (λ c, with_line_start (c_e c) c));
       _ ← cset (λ c, with_w (c_e c) c); cemit [EWakeup]) c
    (λ _ c' es, es = (type_char 10 A).2 ∧ rep c' (type_char 10 A).1).
Proof.
  intros H Hb Hroom. unfold room in Hroom. cstep.
  eapply cwp_mono; [apply put_byte_spec; [done|lia]|]. intros [] c1 e1 (-> & (b & e & Hc1) & Hb1).
  assert (Hb2 : buf_rep (with_cursor None c1) (ready A) (line A ++ [10])) by rep_ext.
  assert (Hh1 : hist_rep (with_cursor None c1) (hist A)) by (subst c1; eapply hist_rep_ext; [..|apply H]; done).
  repeat cstep. eapply cwp_mono.
  { apply push_history_spec; [done|by eapply rep_line_ok|]. eapply capture_line_spec; [done|by right|apply H]. }
  intros [] c2 e2 (-> & Hh2 & (h & ls & n & k & Hc2)). repeat cstep. unfold type_char.
  rewrite (proj2 (Nat.eqb_neq (room A) 0)) by (unfold room; lia). simpl. split; [done|].
  destruct H as [Hbuf Hh Hline [Hr4 Hr] Hcur Hlt Hsv [He He'] Hfg]. subst c2. destruct Hb2. simpl in *.
  constructor; simpl; try done; try by subst c1.
  - constructor; simpl; try done.
    + rewrite br_e0. rewrite !length_app. done.
    + rewrite br_e0, !length_app. simpl. f_equal. lia.
    + rewrite !length_app in *. simpl in *. lia.
    + intros i x. rewrite app_nil_r. apply br_at0.
  - rep_ext.
  - split; [|right; apply last_snoc_some]. rewrite !Forall_app. split_and!; [done| |by repeat constructor].
    eapply Forall_impl; [done|]. by intros ? (_ & _ & ?).
  - subst c1. simpl. destruct Hsv as (? & _). split_and!; [done..|]. split; [done|simpl; lia].
Qed.

Lemma intr_char_spec c A b :
  rep c A → b = 10 ∨ b = 13 ∨ b ≠ 4 ∧ room A ≠ 1%nat →
  cwp (intr_char b) c (λ _ c' es, es = (type_char b A).2 ∧ rep c' (type_char b A).1).
Proof.
  intros H Hb. unfold intr_char. do 2 cstep. pose proof (rp_buf _ _ H) as Hbuf.
  rewrite (br_dist _ _ _ Hbuf).
  assert (Hroom : (Z.of_nat (length (ready A) + length (line A)) <? INPUT_BUF_SIZE) = negb (room A =? 0)%nat).
  { apply eq_true_iff_eq. rewrite negb_true_iff, Z.ltb_lt, Nat.eqb_neq. unfold room, INPUT_BUF_SIZE. lia. }
  rewrite Hroom. destruct (decide (room A = 0%nat ∨ b = 0)) as [Hz|Hz].
  { unfold type_char. replace (_ && _) with false by (destruct Hz as [-> | ->]; [by rewrite andb_false_r|done]).
    replace (_ || _) with true by (destruct Hz as [-> | ->]; [by rewrite orb_true_r|done]). by cstep. }
  apply Decidable.not_or in Hz as [Hz0 Hb0]. rewrite (proj2 (Z.eqb_neq b 0)), (proj2 (Nat.eqb_neq _ _)) by done. simpl negb. simpl andb.
  cbv iota. destruct (decide (b = 10 ∨ b = 13)) as [Hnl|Hnl].
  - replace (if b =? 13 then 10 else b) with 10 by (by destruct Hnl as [-> | ->]).
    replace (type_char b A) with (type_char 10 A) by (unfold type_char; destruct Hnl as [-> | ->]; done).
    simpl. eapply cwp_mono; [eapply newline_spec; [done..|lia]|]. done.
  - apply Decidable.not_or in Hnl as [H10 H13]. destruct Hb as [|[|[H4 H1]]]; [done..|].
    rewrite (proj2 (Z.eqb_neq b 13)) by done. cstep.
    eapply cwp_mono; [apply put_byte_spec; [done|unfold room in *; lia]|]. intros [] c1 e1 (-> & Hed & Hb1). do 4 cstep.
    replace (_ || _ || _) with false; last first.
    { symmetry. rewrite !orb_false_iff, !Z.eqb_neq. split_and!; [done..|]. simpl.
      rewrite (br_dist _ _ _ Hb1), length_app. unfold room, INPUT_BUF_SIZE in *. simpl. lia. }
    cstep. unfold type_char. rewrite (proj2 (Z.eqb_neq b 0)), (proj2 (Nat.eqb_neq _ _)) by done.
    rewrite (proj2 (Z.eqb_neq b 10)), (proj2 (Z.eqb_neq b 13)) by done. simpl. rewrite app_nil_r. split; [done|].
    apply (rep_set_cursor _ (set_line _ A)); [|done]. eapply rep_edited; [done..|].
    apply Forall_app. split; [apply H|]. by repeat constructor.
Qed.

Lemma handle_escape_spec c A b :
  rep c A → esc A ≠ 0 → ∀ pgid,
  cwp (handle_escape b) c (λ t c' es, t = true ∧ es = (edit pgid b A).2 ∧ rep c' (edit pgid b A).1).
Proof.
  intros H He pgid. destruct (rp_esc _ _ H) as [E Hr]. unfold handle_escape, edit. do 2 cstep. rewrite E.
  rewrite (proj2 (Z.eqb_neq (esc A) 0)) by done. destruct (Z.eqb_spec (esc A) 1) as [E1|E1].
  - by case_match; repeat cstep; split_and!; try done; apply rep_set_esc.
  - replace (esc A =? 2) with true by (symmetry; apply Z.eqb_eq; lia). do 3 cstep.
    assert (H0 : rep (with_esc 0 c) (set_esc 0 A)) by by apply rep_set_esc.
    case_match; [|case_match].
    + eapply cwp_mono; [by apply history_up_spec|]. intros [] c' es [-> Hc]. cstep. simpl. by rewrite app_nil_r.
    + eapply cwp_mono; [by apply history_down_spec|]. intros [] c' es [-> Hc]. cstep. simpl. by rewrite app_nil_r.
    + by repeat cstep.
Qed.

Lemma intr_spec pgid b c A :
  rep c A → plain A b = true → cwp (intr pgid b) c (λ _ c' es, es = (edit pgid b A).2 ∧ rep c' (edit pgid b A).1).
Proof.
  intros H Hp. unfold intr. cstep. destruct (decide (esc A = 0)) as [He|He]; last first.
  { eapply cwp_mono; [by apply (handle_escape_spec c A b H He pgid)|]. intros t c' es (-> & -> & Hc).
    cstep. by rewrite app_nil_r. }
  unfold plain in Hp. rewrite He in Hp. simpl in Hp. unfold handle_escape, edit. do 2 cstep.
  rewrite (proj1 (rp_esc _ _ H)), He. simpl Z.eqb. cbv iota.
  destruct (Z.eqb_spec b 27) as [->|N27]; [repeat cstep; split; [done|by apply rep_set_esc]|]. repeat cstep.
  rewrite (rp_fg _ _ H).
  change (Z.lor (ctrl 72) 127) with 127. change (ctrl 67) with 3. change (ctrl 90) with 26.
  change (ctrl 80) with 16. change (ctrl 85) with 21.
  repeat match goal with |- context [if ?x =? ?y then _ else _] =>
    lazymatch x with b => destruct (Z.eqb_spec x y) as [->|?] | _ => fail end end.
  - destruct ((if fg A =? 0 then pgid else fg A) =? 0); simpl; by cstep.
  - destruct ((if fg A =? 0 then pgid else fg A) =? 0); simpl; by cstep.
  - by cstep.
  - cstep. eapply cwp_mono; [apply clear_line_spec, H|]. intros [] c1 e1 (-> & Hed & Hb). repeat cstep. simpl.
    rewrite app_nil_r. split; [done|]. apply (rep_set_cursor _ (set_line [] A)); [|done]. by eapply rep_edited.
  - by apply erase_last_spec.
  - apply intr_char_spec; [done|]. destruct (Z.eqb_spec b 10); [by left|]. destruct (Z.eqb_spec b 13); [by right; left|].
    do 2 right. repeat (rewrite (proj2 (Z.eqb_neq b _)) in Hp by done). simpl in Hp.
    apply andb_true_iff in Hp as [H4 H1]. bool_to_prop. done.
Qed.

Lemma intrs_spec pgid bs c A :
  rep c A → all_plain pgid A bs = true →
  cwp (intrs pgid bs) c (λ _ c' es, es = (edits pgid bs A).2 ∧ rep c' (edits pgid bs A).1).
Proof.
  revert c A. induction bs as [|b bs IH]; intros c A H Hp; simpl in *; [by cstep|].
  apply andb_true_iff in Hp as [Hp1 Hp2]. cstep. eapply cwp_mono; [by apply intr_spec|]. intros [] c1 e1 [-> H1].
  eapply cwp_mono; [by apply IH|]. intros [] c2 e2 [-> H2].
  destruct (edit pgid b A) as [A1 e1] eqn:E. simpl in *. destruct (edits pgid bs A1) as [A2 e2] eqn:E2. done.
Qed.

(** ** Readers *)

Definition take_ready (n : nat) (A : Editor) : Editor :=
  mkEditor (drop n (ready A)) (line A) (hist A) (cursor A) (saved A) (esc A) (fg A).

Lemma rep_take_one c A b rd :
  rep c A → ready A = b :: rd → rep (with_r (u64 (c_r c + 1)) c) (take_ready 1 A) ∧ at_idx c (c_r c) = b ∧ c_r c ≠ c_w c.
Proof.
  intros [] E. rewrite E in *. destruct rp_buf0. split_and!.
  - constructor; simpl; rewrite ?E; cbn [skipn]; rewrite ?drop_0; try done; [|rep_ext|].
    + constructor; simpl; try done.
      * apply u64_range.
      * rewrite br_w0, u64_idemp. f_equal. simpl. lia.
      * rewrite br_e0, u64_idemp. f_equal. simpl. lia.
      * simpl in *. lia.
      * intros i x Hi. rewrite <-(br_at0 (S i) x Hi). rewrite <-pos_u64, u64_idemp, pos_u64. do 2 f_equal. lia.
    + destruct rp_ready0 as [H4 Hl]. split; [by apply Forall_cons_1 in H4 as [_ ?]|].
      destruct Hl as [|Hl]; [done|]. destruct rd; [by left|by right].
  - apply (inj Some). rewrite <-at_idx_pos by done. specialize (br_at0 0%nat b eq_refl).
    by rewrite Z.add_0_r in br_at0.
  - rewrite br_w0. rewrite <-(u64_fits (c_r c)) by done. rewrite <-(Z.add_0_r (c_r c)) at 1.
    rewrite u64_idemp. change 0 with (Z.of_nat 0). intros Heq%u64_eq; simpl in *; lia.
Qed.

Lemma first_line_cons b l : b ≠ 10 → first_line (b :: l) = b :: first_line l.
Proof. intros. simpl. by rewrite (proj2 (Z.eqb_neq b 10)). Qed.

Section readers.
Context {Mem : Type} `{UserMemLaws Mem}.

(** A read in progress: [l] is what has been copied. *)
Lemma cons_read_loop_spec killed n (m : Mem) dst l c A :
  rep c A → writable m dst (length l + n) → (0 < n → ready A ≠ [])%nat → mem_holds m dst l →
  let got := take n (first_line (ready A)) in
  ∃ m' c', cons_read_loop killed m (dst + Z.of_nat (length l)) (length l + n) n c = (RDone (Ok (length (l ++ got))), (m', c')) ∧
    mem_holds m' dst (l ++ got) ∧ rep c' (take_ready (length got) A).
Proof.
  revert m l c A. induction n as [|n IH]; intros m l c A Hrep Hw Hne Hl got; subst got.
  { exists m, c. simpl. rewrite Nat.add_0_r, app_nil_r. split_and!; [done..|]. by destruct A. }
  destruct (ready A) as [|b rd] eqn:Er; [exfalso; apply Hne; [lia|done]|].
  destruct (rep_take_one c A b rd Hrep Er) as (Hrep' & Hat & Hrw).
  cbn [cons_read_loop]. rewrite (proj2 (Z.eqb_neq _ _)) by done. rewrite Hat.
  pose proof (proj1 (rp_ready _ _ Hrep)) as H4. rewrite Er in H4. apply Forall_cons_1 in H4 as [H4 _].
  rewrite (proj2 (Z.eqb_neq b (ctrl 68))) by done.
  destruct (copyout_ok m (dst + Z.of_nat (length l)) [b]) as [m1 Hm1]; [|done|].
  { eapply writable_sub; [done|lia|simpl; lia]. }
  rewrite Hm1. pose proof (mem_holds_snoc _ _ _ _ _ Hl Hm1) as Hl1.
  destruct (Z.eqb_spec b 10) as [->|Hb].
  - exists m1, (with_r (u64 (c_r c + 1)) c). simpl. rewrite firstn_nil. split_and!; [|done..].
    rewrite length_app. simpl. do 3 f_equal. lia.
  - rewrite first_line_cons by done.
    destruct (IH m1 (l ++ [b]) (with_r (u64 (c_r c + 1)) c) (take_ready 1 A)) as (m2 & c2 & Hrun & Hin & Hr2); [done|..].
    + rewrite length_app. simpl. rewrite <-Nat.add_assoc. by eapply copyout_writable.
    + intros _. simpl. rewrite Er. simpl. rewrite drop_0. intros ->. destruct (proj2 (rp_ready _ _ Hrep)) as [Hr|Hr]; rewrite Er in Hr; [done|].
      by injection Hr.
    + done.
    + exists m2, c2. unfold take_ready in Hrun, Hin. simpl in Hrun, Hin, Hr2. rewrite Er in Hrun, Hin, Hr2. simpl in Hrun, Hin, Hr2. rewrite drop_0 in Hrun, Hin, Hr2.
      rewrite <-app_assoc in Hrun, Hin. rewrite length_app in Hrun. simpl in Hrun.
      split_and!; [|done|].
      * cbn [firstn]. rewrite <-Hrun. f_equal; lia.
      * simpl. unfold take_ready in *. simpl in *. rewrite Er in *. simpl in *. by rewrite drop_0 in Hr2.
Qed.
End readers.

(** ** Claims *)

Definition Editor_new : Editor := mkEditor [] [] [] None [] 0 0.

Lemma rep_new : rep Cons_new Editor_new.
Proof.
  constructor; simpl; try done; try lia.
  - constructor; simpl; try done; lia.
  - constructor; simpl; try done; try lia. by apply (bool_decide_unpack _).
  - by split; [|left].
  - split_and!; try done. split; [done|simpl; lia].
Qed.



(** *** Losing the console *)

(** The edit index is behind the read index, the line start behind both. *)
Definition deaf (c : Cons) : Prop :=
  0 ≤ line_start c ≤ c_e c ∧ c_e c < c_r c ∧ c_r c = c_w c ∧ c_r c < 2 ^ 64 - 128.

(** Nothing the handler does leaves such a state or wakes up a reader. *)
Definition keeps_deaf {A} (m : CM A) : Prop := ∀ c, deaf c → cwp m c (λ _ c' es, deaf c' ∧ EWakeup ∉ es).

Lemma keeps_bind {A B} (m : CM A) (f : A → CM B) : keeps_deaf m → (∀ a, keeps_deaf (f a)) → keeps_deaf (m ≫= f).
Proof.
  intros Hm Hf c Hc. cstep. eapply cwp_mono; [by apply Hm|]. intros a c1 e1 [H1 E1].
  eapply cwp_mono; [by apply Hf|]. intros b c2 e2 [H2 E2]. split; [done|]. by intros [?|?]%elem_of_app.
Qed.

(** The same where the continuation is used with the state just read. *)
Lemma keeps_get {B} (f : Cons → CM B) :
  (∀ c, deaf c → cwp (f c) c (λ _ c' es, deaf c' ∧ EWakeup ∉ es)) → keeps_deaf (c ← cget; f c).
Proof. intros Hf c Hc. do 2 cstep. eapply cwp_mono; [by apply Hf|]. done. Qed.

Lemma keeps_ret {A} (a : A) : keeps_deaf (mret a).
Proof. intros c Hc. cstep. split; [done|]. apply not_elem_of_nil. Qed.
Lemma keeps_emit es : EWakeup ∉ es → keeps_deaf (cemit es).
Proof. intros He c Hc. by cstep. Qed.
Lemma keeps_set f : (∀ c, deaf c → deaf (f c)) → keeps_deaf (cset f).
Proof. intros Hf c Hc. cstep. split; [by apply Hf|]. apply not_elem_of_nil. Qed.

Lemma putc_no_wakeup b : EWakeup ∉ putc b.
Proof. unfold putc. case_match; set_solver. Qed.

Create HintDb deaf.
#[local] Hint Resolve keeps_bind keeps_ret keeps_emit keeps_set putc_no_wakeup : deaf.

Lemma deaf_full c : deaf c → 128 ≤ u64 (c_e c - c_r c).
Proof.
  intros (? & ? & ? & ?). unfold u64, wrap. rewrite <-(Z_mod_plus_full _ 1), Z.mod_small; lia.
Qed.

Lemma keeps_insert_byte b : keeps_deaf (insert_byte b).
Proof.
  apply keeps_get. intros c Hc. pose proof (deaf_full c Hc).
  replace (_ || _) with true; [by apply keeps_ret|]. symmetry. apply orb_true_iff. right. by apply Z.leb_le.
Qed.

Lemma keeps_insert_all l : keeps_deaf (insert_all l).
Proof. induction l; simpl; eauto using keeps_insert_byte with deaf. Qed.

Lemma deaf_erase c : deaf c → c_e c ≠ line_start c → deaf (with_e (u64 (c_e c - 1)) c).
Proof. intros (? & ? & ? & ?) ?. unfold deaf. simpl. rewrite u64_fits by lia. lia. Qed.

Lemma keeps_clear_loop n c :
  deaf c → (Z.of_nat n ≤ c_e c - line_start c) → cwp (clear_loop n) c (λ _ c' es, deaf c' ∧ EWakeup ∉ es).
Proof.
  revert c. induction n as [|n IH]; intros c Hc Hn; cbn [clear_loop]; [by apply keeps_ret|]. repeat cstep.
  eapply cwp_mono; [apply IH|].
  - apply deaf_erase; [done|lia].
  - destruct Hc as (? & ? & ? & ?). simpl. rewrite u64_fits by lia. lia.
  - intros [] c' es [H1 H2]. split; [done|]. rewrite app_nil_l. intros [?|?]%elem_of_app; [|done].
    by eapply (putc_no_wakeup (ctrl 72)).
Qed.

Lemma keeps_clear_line : keeps_deaf clear_line.
Proof.
  apply keeps_get. intros c Hc. apply keeps_clear_loop; [done|].
  destruct Hc as (? & ? & ? & ?). rewrite u64_fits by lia. lia.
Qed.

#[local] Hint Resolve keeps_insert_byte keeps_insert_all keeps_clear_line : deaf.

Lemma deaf_ext c c' :
  c_e c' = c_e c → c_r c' = c_r c → c_w c' = c_w c → line_start c' = line_start c → deaf c → deaf c'.
Proof. unfold deaf. by intros -> -> -> ->. Qed.

Lemma keeps_load_history k : keeps_deaf (load_history k).
Proof. unfold load_history. apply keeps_get. intros c Hc. by apply keeps_bind; [apply keeps_clear_line|intros; apply keeps_insert_all|]. Qed.

Lemma keeps_history_up : keeps_deaf history_up.
Proof.
  apply keeps_get. intros c Hc. case_match; [by apply keeps_ret|].
  apply keeps_bind; [|intros k; apply keeps_bind; [by apply keeps_set|intros; apply keeps_load_history]|done].
  case_match; [apply keeps_ret|]. apply keeps_bind; [by apply keeps_set|intros; apply keeps_ret].
Qed.

Lemma keeps_history_down : keeps_deaf history_down.
Proof.
  apply keeps_get. intros c Hc. case_match; [|by apply keeps_ret]. case_match.
  - by apply keeps_bind; [by apply keeps_set|intros; apply keeps_load_history|].
  - apply keeps_bind; [by apply keeps_set| |done]. intros _. apply keeps_bind; [apply keeps_clear_line|intros; apply keeps_insert_all].
Qed.

Lemma keeps_handle_escape b : keeps_deaf (handle_escape b).
Proof.
  apply keeps_get. intros c Hc.
  assert (Hset : ∀ z, keeps_deaf (_ ← cset (with_esc z); mret true)).
  { intros z. apply keeps_bind; [by apply keeps_set|intros; apply keeps_ret]. }
  repeat case_match; try (by apply Hset); try (by apply keeps_ret).
  all: apply keeps_bind; [by apply keeps_set| |done]; intros _; apply keeps_bind; [|intros; apply keeps_ret].
  all: auto using keeps_history_up, keeps_history_down, keeps_ret.
Qed.

Lemma keeps_intr pgid b : keeps_deaf (intr pgid b).
Proof.
  unfold intr. apply keeps_bind; [apply keeps_handle_escape|]. intros t. case_match; [apply keeps_ret|].
  apply keeps_get. intros c Hc. repeat case_match; try (by apply keeps_ret).
  all: try by (apply keeps_emit; [set_solver|]).
  - apply keeps_bind; [apply keeps_clear_line|intros; by apply keeps_set|done].
  - bool_to_prop. repeat cstep. split; [by eapply deaf_ext; [..|apply deaf_erase; [apply Hc|done]]|].
    rewrite app_nil_r. apply (putc_no_wakeup (ctrl 72)).
  - unfold intr_char. do 2 cstep. rewrite (proj2 (Z.ltb_ge _ _)) by by apply deaf_full.
    rewrite andb_false_r. cstep. split; [done|]. apply not_elem_of_nil.
Qed.

Lemma keeps_intrs pgid bs : keeps_deaf (intrs pgid bs).
Proof. induction bs; simpl; auto using keeps_ret, keeps_bind, keeps_intr. Qed.

(** Control-H is typed, 127 erases. *)
Example control_h_is_typed :
  (intrs 0 [97; 8] Cons_new).1.2.(c_e) = 2 ∧ (intrs 0 [97; 127] Cons_new).1.2.(c_e) = 0.
Proof. vm_compute. split; reflexivity. Qed.

(** The console can be lost from the keyboard: after "a", control-D, a
    reader that consumes both, and an erase, no input of any length makes the
    console readable again or wakes up a reader.  (The erase is guarded by the
    start of the line, which control-D does not move, so it takes back a byte
    that has been read.) *)
Theorem console_lost :
  let '(_, c1, _) := intrs 0 [97; 4] Cons_new in
  let '(r1, (m1, c2)) := cons_read false ({[ 0 := 0 ]} : FlatMem) 0 1 c1 in
  let '(r2, (_, c3)) := cons_read false m1 0 1 c2 in
  let '(_, c4, _) := intrs 0 [127] c3 in
  r1 = RDone (Ok 1%nat) ∧ r2 = RDone (Ok 0%nat) ∧
  ∀ pgid bs, let '(_, c, es) := intrs pgid bs c4 in readable c = false ∧ EWakeup ∉ es.
Proof.
  assert (Hrun : ∃ c, deaf c ∧ (let '(_, c1, _) := intrs 0 [97; 4] Cons_new in
    let '(r1, (m1, c2)) := cons_read false ({[ 0 := 0 ]} : FlatMem) 0 1 c1 in
    let '(r2, (_, c3)) := cons_read false m1 0 1 c2 in
    (r1, r2, (intrs 0 [127] c3).1.2)) = (RDone (Ok 1%nat), RDone (Ok 0%nat), c)).
  { eexists. split; [|vm_compute; reflexivity]. unfold deaf. simpl. lia. }
  destruct Hrun as (c & Hd & Hrun).
  destruct (intrs 0 [97; 4] Cons_new) as [[u1 c1] e1]. destruct (cons_read _ _ _ _ c1) as [r1 [m1 c2]].
  destruct (cons_read _ _ _ _ c2) as [r2 [m2 c3]]. destruct (intrs 0 [127] c3) as [[u4 c4] e4]. simpl in Hrun.
  injection Hrun as -> -> ->. split_and!; [done..|]. intros pgid bs.
  pose proof (keeps_intrs pgid bs c Hd) as Hk. unfold cwp in Hk. destruct (intrs pgid bs c) as [[u c'] es].
  destruct Hk as [(_ & _ & Hrw & _) He]. split; [|done]. unfold readable. by rewrite Hrw, Z.eqb_refl.
Qed.
