(* ===== verification/UserIo.v ===== *)
(** * Strings, streams and environment of user programs

    The methods of [str] the user programs call.  A string is the list of its
    characters, a character its code point; offsets count characters where the
    library counts bytes, and are used only to cut the string they come
    from. *)

From stdpp Require Import base tactics numbers gmap list.
From S2P Require Import Prelude Errors Strs.
Local Open Scope Z_scope.

Abbreviation Str := (list Z).

(** [char::is_whitespace] (Unicode White_Space) and [is_ascii_control]. *)
Definition is_whitespace (c : Z) : bool :=
  ((9 <=? c) && (c <=? 13)) || (c =? 32) || (c =? 0x85) || (c =? 0xA0) || (c =? 0x1680) ||
  ((0x2000 <=? c) && (c <=? 0x200A)) || (c =? 0x2028) || (c =? 0x2029) || (c =? 0x202F) || (c =? 0x205F) || (c =? 0x3000).
Definition is_ascii_control (c : Z) : bool := (c <? 32) || (c =? 127).

(** [trim]. *)
Fixpoint skip_ws (s : Str) : Str :=
  match s with [] => [] | c :: s' => if is_whitespace c then skip_ws s' else s end.
Definition str_trim (s : Str) : Str := reverse (skip_ws (reverse (skip_ws s))).

(** [starts_with]. *)
Fixpoint starts_with (p s : Str) : bool :=
  match p, s with
  | [], _ => true
  | x :: p, y :: s => (x =? y) && starts_with p s
  | _ :: _, [] => false
  end.

(** [find] and [rfind] of a non-empty pattern. *)
Fixpoint str_find (p s : Str) : option nat :=
  if starts_with p s then Some 0%nat
  else match s with [] => None | _ :: s => S <$> str_find p s end.
Fixpoint str_rfind (p s : Str) : option nat :=
  match s with
  | [] => if starts_with p [] then Some 0%nat else None
  | _ :: s' => match str_rfind p s' with
               | Some i => Some (S i)
               | None => if starts_with p s then Some 0%nat else None
               end
  end.

(** [replace] of a non-empty pattern: leftmost matches, not overlapping. *)
Fixpoint str_replace (fuel : nat) (p w s : Str) : Str :=
  match fuel with
  | O => s
  | S fuel =>
      if starts_with p s then w ++ str_replace fuel p w (drop (length p) s)
      else match s with [] => [] | c :: s => c :: str_replace fuel p w s end
  end.

(** [split_whitespace]; [buf] is the word being collected. *)
Fixpoint split_ws (buf s : Str) : list Str :=
  match s with
  | [] => match buf with [] => [] | _ => [buf] end
  | c :: s =>
      if is_whitespace c then match buf with [] => split_ws [] s | _ => buf :: split_ws [] s end
      else split_ws (buf ++ [c]) s
  end.
Definition split_whitespace (s : Str) : list Str := split_ws [] s.

(** ** Lemmas *)

Lemma starts_with_spec p s : starts_with p s = true ↔ ∃ t, s = p ++ t.
Proof.
  revert s. induction p as [|x p IH]; intros s; simpl; [split; [by exists s|done]|].
  destruct s as [|y s]; [split; [done|by intros [t [=]]]|].
  rewrite andb_true_iff, Z.eqb_eq, IH. split.
  - intros [-> [t ->]]. by exists t.
  - intros [t [= -> ->]]. eauto.
Qed.

Lemma str_find_Some p s i : str_find p s = Some i → ∃ a t, s = a ++ p ++ t ∧ length a = i.
Proof.
  revert i. induction s as [|c s IH]; intros i; simpl; destruct (starts_with p _) eqn:E; try done.
  - intros [= <-]. apply starts_with_spec in E as [t ->]. by exists [], t.
  - intros [= <-]. apply starts_with_spec in E as [t ->]. by exists [], t.
  - intros (j & (a & t & -> & <-)%IH & ->)%fmap_Some. by exists (c :: a), t.
Qed.

Lemma str_rfind_Some p s i : str_rfind p s = Some i → ∃ a t, s = a ++ p ++ t ∧ length a = i.
Proof.
  revert i. induction s as [|c s IH]; intros i; simpl.
  - destruct (starts_with p _) eqn:E; [|done]. intros [= <-]. apply starts_with_spec in E as [t ->]. by exists [], t.
  - destruct (str_rfind p s) as [j|].
    + intros [= <-]. destruct (IH j eq_refl) as (a & t & -> & <-). by exists (c :: a), t.
    + destruct (starts_with p _) eqn:E; [|done]. intros [= <-]. apply starts_with_spec in E as [t ->]. by exists [], t.
Qed.

(** * Reading and writing in user programs

    The traits [Read] and [Write] of [user/src/lib/io.rs] as classes: the
    required method is a field, the provided ones ([write_all],
    [read_to_end]) are defined from it.  [ReadLaws] and [WriteLaws] say what a
    working file does: it may move fewer bytes than asked for and be
    interrupted, finitely often.  [Src] and [Sink] are files that follow a
    given schedule of such events.  The end of the file holds the splitting of
    an array into one range per processor, which the parallel programs
    share. *)

Local Open Scope nat_scope.
(** [Write::write] returns how many bytes of the buffer it took;
    [w_bound] bounds how often calls will be interrupted. *)
Class Write (W : Type) := { write : list Z → M Error W nat; w_bound : W → nat }.
(** [Read::read] with a buffer of [n] bytes returns the bytes read; [r_bound]
    bounds the calls before the end of the file. *)
Class Read (R : Type) := { read : nat → M Error R (list Z); r_bound : R → nat }.

(** ** The provided methods *)

Section methods.
Context {W : Type} `{Write W} {R : Type} `{Read R}.

(** [Write::write_all]. *)
Fixpoint write_all_loop (fuel : nat) (buf : list Z) : M Error W () := λ w,
  match buf, fuel with
  | [], _ => (Ok (), w)
  | _, O => (Panic, w)
  | _, S fuel =>
      match write buf w with
      | (Ok 0, w) => (Err WriteZero, w)
      | (Ok n, w) => if n <=? length buf then write_all_loop fuel (drop n buf) w else (Panic, w)
      | (Err Interrupted, w) => write_all_loop fuel buf w
      | (Err e, w) => (Err e, w)
      | (Panic, w) => (Panic, w)
      end
  end.
Definition write_all (buf : list Z) : M Error W () := λ w, write_all_loop (length buf + w_bound w) buf w.

(** [Read::read_to_end]: the buffer after the call; it returns how much it has
    grown. *)
Fixpoint read_to_end_loop (fuel : nat) (buf : list Z) : M Error R (list Z) := λ r,
  match fuel with
  | O => (Panic, r)
  | S fuel =>
      match read 32 r with
      | (Ok [], r) => (Ok buf, r)
      | (Ok bs, r) => read_to_end_loop fuel (buf ++ bs) r
      | (Err Interrupted, r) => read_to_end_loop fuel buf r
      | (Err e, r) => (Err e, r)
      | (Panic, r) => (Panic, r)
      end
  end.
Definition read_to_end (buf : list Z) : M Error R (list Z) := λ r, read_to_end_loop (S (r_bound r)) buf r.
End methods.

(** ** Working files *)

Class WriteLaws (W : Type) `{Write W} := {
  written : W → list Z;
  write_spec buf w : buf ≠ [] →
    match write buf w with
    | (Ok n, w') => 0 < n ≤ length buf ∧ written w' = written w ++ take n buf ∧ w_bound w' ≤ w_bound w
    | (Err e, w') => e = Interrupted ∧ written w' = written w ∧ w_bound w' < w_bound w
    | (Panic, _) => False
    end;
}.

Class ReadLaws (R : Type) `{Read R} := {
  content : R → list Z;
  read_spec n r : 0 < n →
    match read n r with
    | (Ok bs, r') => content r = bs ++ content r' ∧ length bs ≤ n ∧
        (bs = [] → content r = []) ∧ (bs ≠ [] → r_bound r' < r_bound r)
    | (Err e, r') => e = Interrupted ∧ content r' = content r ∧ r_bound r' < r_bound r
    | (Panic, _) => False
    end;
}.

Lemma write_all_spec {W : Type} `{WriteLaws W} buf w :
  ∃ w', write_all buf w = (Ok (), w') ∧ written w' = written w ++ buf.
Proof.
  unfold write_all. assert (Hf : length buf + w_bound w ≤ length buf + w_bound w) by done. revert Hf.
  generalize (length buf + w_bound w) at 2 3 as fuel. intros fuel. revert buf w.
  induction fuel as [|fuel IH]; intros [|b buf] w Hf; simpl; try by (exists w; rewrite app_nil_r).
  { simpl in Hf. lia. }
  pose proof (write_spec (b :: buf) w ltac:(done)) as Hw.
  destruct (write (b :: buf) w) as [[[|n]|e|] w1]; try done.
  - lia.
  - destruct Hw as ([_ Hn] & Hw & Hb). rewrite (proj2 (Nat.leb_le _ _)) by done.
    destruct (IH (drop (S n) (b :: buf)) w1) as (w' & -> & Hw'); [rewrite length_drop; simpl in *; lia|].
    exists w'. split; [done|]. rewrite Hw', Hw, <-app_assoc. by rewrite take_drop.
  - destruct Hw as (-> & Hw & Hb). destruct (IH (b :: buf) w1) as (w' & -> & Hw'); [simpl in *; lia|].
    exists w'. by rewrite Hw', Hw.
Qed.

Lemma read_to_end_spec {R : Type} `{ReadLaws R} buf r :
  ∃ r', read_to_end buf r = (Ok (buf ++ content r), r') ∧ content r' = [].
Proof.
  unfold read_to_end. assert (Hf : r_bound r < S (r_bound r)) by lia. revert Hf.
  generalize (S (r_bound r)) as fuel. intros fuel. revert buf r.
  induction fuel as [|fuel IH]; intros buf r Hf; [lia|]. simpl.
  pose proof (read_spec 32 r ltac:(lia)) as Hr. destruct (read 32 r) as [[[|b bs]|e|] r1]; [..|done].
  - destruct Hr as (Hc & _ & Hnil & _). specialize (Hnil eq_refl). exists r1. rewrite Hnil, app_nil_r.
    split; [done|]. by rewrite Hnil in Hc.
  - destruct Hr as (Hc & _ & _ & Hb). specialize (Hb ltac:(done)).
    destruct (IH (buf ++ b :: bs) r1) as (r' & -> & Hr'); [lia|]. exists r'. by rewrite Hc, <-app_assoc.
  - destruct Hr as (-> & Hc & Hb). destruct (IH buf r1) as (r' & -> & Hr'); [lia|]. exists r'. by rewrite Hc.
Qed.

(** ** Scheduled files *)

(** What the next call meets: an interruption, or a transfer of at most
    [k + 1] bytes. *)
Inductive Hiccup := Intr | Short (k : nat).

Record Src := mkSrc { src_data : list Z; src_script : list Hiccup }.
Record Sink := mkSink { sink_data : list Z; sink_script : list Hiccup }.

Definition src_read (n : nat) : M Error Src (list Z) := λ s,
  match src_script s with
  | Intr :: sc => (Err Interrupted, mkSrc (src_data s) sc)
  | Short k :: sc => (Ok (take (n `min` S k) (src_data s)), mkSrc (drop (n `min` S k) (src_data s)) sc)
  | [] => (Ok (take n (src_data s)), mkSrc (drop n (src_data s)) [])
  end.
Definition sink_write (buf : list Z) : M Error Sink nat := λ s,
  match sink_script s with
  | Intr :: sc => (Err Interrupted, mkSink (sink_data s) sc)
  | Short k :: sc =>
      (Ok (length buf `min` S k), mkSink (sink_data s ++ take (length buf `min` S k) buf) sc)
  | [] => (Ok (length buf), mkSink (sink_data s ++ buf) [])
  end.

#[global] Instance src_Read : Read Src := { read := src_read; r_bound s := length (src_data s) + length (src_script s) }.
#[global] Instance sink_Write : Write Sink := { write := sink_write; w_bound s := length (sink_script s) }.

Lemma take_nil_min {A} n (l : list A) : 0 < n → take n l = [] → l = [].
Proof. destruct n, l; simpl; [lia..|done|done]. Qed.

Lemma src_read_spec n (r : Src) : 0 < n →
  match read n r with
  | (Ok bs, r') => src_data r = bs ++ src_data r' ∧ length bs ≤ n ∧
      (bs = [] → src_data r = []) ∧ (bs ≠ [] → r_bound r' < r_bound r)
  | (Err e, r') => e = Interrupted ∧ src_data r' = src_data r ∧ r_bound r' < r_bound r
  | (Panic, _) => False
  end.
Proof.
  destruct r as [data sc]. intros Hn. simpl. unfold src_read. simpl.
  destruct sc as [|[|k] sc]; simpl.
  2: { split_and!; [done..|lia]. }
  all: rewrite take_drop, length_take, length_drop; split_and!; [done|lia|intros; by eapply take_nil_min; [|done]; lia|].
  all: intros Hne; destruct data as [|b data]; [by rewrite take_nil in Hne|simpl; lia].
Qed.

Lemma sink_write_spec buf (w : Sink) : buf ≠ [] →
  match write buf w with
  | (Ok n, w') => 0 < n ≤ length buf ∧ sink_data w' = sink_data w ++ take n buf ∧ w_bound w' ≤ w_bound w
  | (Err e, w') => e = Interrupted ∧ sink_data w' = sink_data w ∧ w_bound w' < w_bound w
  | (Panic, _) => False
  end.
Proof.
  destruct w as [data sc]. intros Hb. simpl. unfold sink_write. simpl.
  assert (0 < length buf) by (destruct buf; [done|simpl; lia]).
  destruct sc as [|[|k] sc]; simpl; rewrite ?firstn_all; split_and!; (done || lia).
Qed.

#[global] Instance src_ReadLaws : ReadLaws Src := {| content := src_data; read_spec := src_read_spec |}.
#[global] Instance sink_WriteLaws : WriteLaws Sink := {| written := sink_data; write_spec := sink_write_spec |}.

(** ** One range per processor *)

(** The loop of the parallel programs that computes [start] and [end] for
    [i] in [0..chunk_count], from the [i]-th on. *)
Fixpoint ranges_from (n i size len : nat) : list (nat * nat) :=
  match n with
  | O => []
  | S n => if len <=? i * size then [] else (i * size, Nat.min (i * size + size) len) :: ranges_from n (S i) size len
  end.
Definition ranges (chunk_count size len : nat) : list (nat * nat) := ranges_from chunk_count 0 size len.

(** [data[start..end]]. *)
Definition slice {A} (data : list A) (r : nat * nat) : list A := take (r.2 - r.1) (drop r.1 data).

Lemma ranges_from_concat {A} (data : list A) n i size :
  length data ≤ (i + n) * size → concat (slice data <$> ranges_from n i size (length data)) = drop (i * size) data.
Proof.
  revert i. induction n as [|n IH]; intros i Hl; simpl.
  - rewrite drop_ge by lia. done.
  - destruct (Nat.leb_spec (length data) (i * size)); [by rewrite drop_ge by lia|]. simpl.
    rewrite IH by lia. unfold slice. simpl.
    destruct (Nat.le_gt_cases (i * size + size) (length data)) as [Hle|Hgt].
    + rewrite Nat.min_l by lia. replace (i * size + size - i * size) with size by lia.
      rewrite <-(take_drop size (drop (i * size) data)) at 2. rewrite drop_drop. do 2 f_equal. lia.
    + rewrite Nat.min_r, (drop_ge _ (size + i * size)), app_nil_r by lia. apply take_ge. rewrite length_drop. lia.
Qed.

(** The chunk size [(len + count - 1) / count] covers the array. *)
Lemma ranges_concat {A} (data : list A) count :
  0 < count → concat (slice data <$> ranges count ((length data + count - 1) / count) (length data)) = data.
Proof.
  intros Hc. unfold ranges. rewrite ranges_from_concat; [done|]. simpl.
  pose proof (Nat.div_mod_eq (length data + count - 1) count).
  pose proof (Nat.mod_upper_bound (length data + count - 1) count). lia.
Qed.

Lemma ranges_from_nil n i size len : len ≤ i * size → ranges_from n i size len = [].
Proof. intros. destruct n; [done|]. simpl. by rewrite (proj2 (Nat.leb_le _ _)). Qed.

(** Rewriting every range in place, keeping its length. *)
Lemma ranges_from_map {A} (f : list A → list A) (data pre : list A) n i size :
  (∀ l, length (f l) = length l) → length pre = i * size →
  let rs := ranges_from n i size (length data) in
  slice (pre ++ concat ((λ r, f (slice data r)) <$> rs)) <$> rs = (λ r, f (slice data r)) <$> rs.
Proof.
  intros Hf. revert i pre. induction n as [|n IH]; intros i pre Hpre; [done|]. simpl.
  destruct (Nat.leb_spec (length data) (i * size)) as [|Hlt]; [done|]. rewrite !fmap_cons. cbn [concat].
  set (r := (i * size, Nat.min (i * size + size) (length data))).
  assert (Hlen : length (f (slice data r)) = r.2 - r.1).
  { rewrite Hf. unfold slice. rewrite length_take, length_drop. subst r. simpl. lia. }
  f_equal.
  - unfold slice at 1. rewrite drop_app_length' by done. by rewrite take_app_length' by done.
  - destruct (Nat.le_gt_cases (length data) (S i * size)) as [Hle|Hgt]; [by rewrite ranges_from_nil by done|].
    rewrite app_assoc. apply IH. rewrite length_app, Hlen, Hpre. subst r. simpl in *. lia.
Qed.

(** * The environment of a program

    [user/src/lib/env.rs]: the slots the kernel passed on the stack, entries
    [key=value] and free slots, and the variables read from them. *)

Local Open Scope Z_scope.

(** [ENVIRON]. *)
Definition Environ : Type := option (list (option Str)).

(** [vars]: the entries that have a [=]. *)
Definition entry (e : option Str) : option (Str * Str) := e ≫= split_once 61.
Definition vars (env : Environ) : list (Str * Str) :=
  match env with Some slots => omap entry slots | None => [] end.

(** [var]: the first entry of the key. *)
Fixpoint find_var (key : Str) (l : list (Str * Str)) : option Str :=
  match l with [] => None | (k, v) :: l => if bool_decide (k = key) then Some v else find_var key l end.
Definition env_var (key : Str) (env : Environ) : option Str := find_var key (vars env).

(** [set_var]: the first slot that is free or starts with the key. *)
Fixpoint set_slots (key new : Str) (slots : list (option Str)) : option (list (option Str)) :=
  match slots with
  | [] => None
  | Some kv :: rest => if starts_with key kv then Some (Some new :: rest) else cons (Some kv) <$> set_slots key new rest
  | None :: rest => Some (Some new :: rest)
  end.
Definition set_var (key value : Str) (env : Environ) : Result () * Environ :=
  match env ≫= set_slots key (key ++ [61] ++ value) with
  | Some slots => (Ok (), Some slots)
  | None => (Err ArgumentListTooLong, env)
  end.

(** [remove_var]: the first entry that starts with the key. *)
Fixpoint remove_slots (key : Str) (slots : list (option Str)) : option (list (option Str)) :=
  match slots with
  | [] => None
  | Some kv :: rest => if starts_with key kv then Some (None :: rest) else cons (Some kv) <$> remove_slots key rest
  | None :: rest => cons None <$> remove_slots key rest
  end.
Definition remove_var (key : Str) (env : Environ) : Result () * Environ :=
  match env ≫= remove_slots key with
  | Some slots => (Ok (), Some slots)
  | None => (Err InvalidArgument, env)
  end.

(** [Args::next]: arguments stop at the first free slot. *)
Fixpoint args_list (slots : list (option Str)) : list Str :=
  match slots with Some a :: slots => a :: args_list slots | _ => [] end.

(** ** What they do *)

Definition no_eq (key : Str) : Prop := Forall (λ b, b ≠ 61) key.

Lemma entry_new key value : no_eq key → entry (Some (key ++ 61 :: value)) = Some (key, value).
Proof. intros Hk. simpl. apply split_once_Some. done. Qed.

(** An entry that does not start with the key is of another variable. *)
Lemma entry_other key kv k v : starts_with key kv = false → entry (Some kv) = Some (k, v) → k ≠ key.
Proof.
  intros Hs He ->. simpl in He. apply split_once_Some in He as [-> _].
  by rewrite (proj2 (starts_with_spec _ _)) in Hs by (by eexists).
Qed.

(** An entry that starts with the key is of a variable whose name does. *)
Lemma entry_prefix key kv k v :
  no_eq key → starts_with key kv = true → entry (Some kv) = Some (k, v) → starts_with key k = true.
Proof.
  intros Hk Hs He. simpl in He. apply split_once_Some in He as [-> Hne]. apply starts_with_spec in Hs as [t Ht].
  apply starts_with_spec. revert k Ht Hne. induction key as [|x key IH]; intros k Ht Hne; [by exists k|].
  apply Forall_cons_1 in Hk as [Hx Hk]. destruct k as [|y k]; simpl in Ht; [by injection Ht|].
  injection Ht as -> Ht. destruct (IH Hk k Ht) as [t' ->]; [|by exists t'].
  by apply Forall_cons_1 in Hne as [_ ?].
Qed.

Lemma vars_cons e slots : vars (Some (e :: slots)) = match entry e with Some kv => kv :: vars (Some slots) | None => vars (Some slots) end.
Proof. done. Qed.

Lemma env_var_cons k e slots :
  env_var k (Some (e :: slots)) =
  match entry e with
  | Some (k', v) => if bool_decide (k' = k) then Some v else env_var k (Some slots)
  | None => env_var k (Some slots)
  end.
Proof. unfold env_var. rewrite vars_cons. by destruct (entry e) as [[]|]. Qed.

Lemma set_slots_spec key value slots slots' :
  no_eq key → set_slots key (key ++ [61] ++ value) slots = Some slots' →
  env_var key (Some slots') = Some value ∧ ∀ k, starts_with key k = false → env_var k (Some slots') = env_var k (Some slots).
Proof.
  intros Hk. revert slots'. induction slots as [|[kv|] slots IH]; intros slots' Hs; simpl in Hs; [done|..].
  - destruct (starts_with key kv) eqn:E.
    + injection Hs as <-. split; [by rewrite env_var_cons, entry_new, bool_decide_true|]. intros k Hpre. rewrite !env_var_cons, entry_new by done.
      rewrite bool_decide_false; last first.
      { intros <-. by rewrite (proj2 (starts_with_spec _ _)) in Hpre by (exists []; by rewrite app_nil_r). }
      destruct (entry (Some kv)) as [[k' v']|] eqn:He; [|done]. rewrite bool_decide_false; [done|]. intros ->.
      by rewrite (entry_prefix key kv k v') in Hpre.
    + apply fmap_Some in Hs as (slots1 & Hs & ->). destruct (IH slots1 Hs) as [H1 H2]. split.
      * rewrite env_var_cons. destruct (entry (Some kv)) as [[k' v']|] eqn:He; [|done].
        rewrite bool_decide_false; [done|]. by eapply entry_other.
      * intros k Hpre. rewrite !env_var_cons. destruct (entry (Some kv)) as [[k' v']|]; [case_bool_decide; [done|]|]; by apply H2.
  - injection Hs as <-. split; [by rewrite env_var_cons, entry_new, bool_decide_true|]. intros k Hpre. rewrite !env_var_cons, entry_new by done.
    rewrite bool_decide_false; [done|]. intros <-. by rewrite (proj2 (starts_with_spec _ _)) in Hpre by (exists []; by rewrite app_nil_r).
Qed.

(** A variable that has been set is read back, and the other variables
    keep their values, except those whose name starts with the name set (for
    them see [set_var_clobbers]). *)
Theorem set_var_correct key value env env' :
  no_eq key → set_var key value env = (Ok (), env') →
  env_var key env' = Some value ∧ ∀ k, starts_with key k = false → env_var k env' = env_var k env.
Proof.
  intros Hk Hs. unfold set_var in Hs. destruct env as [slots|]; simpl in Hs; [|done].
  destruct (set_slots key _ slots) as [slots'|] eqn:E; [|done]. injection Hs as <-. by eapply set_slots_spec.
Qed.

(** "PATH=/" *)
Definition PATH_ENTRY : Str := [80; 65; 84; 72; 61; 47].
Definition PATH : Str := [80; 65; 84; 72].

(** A [for] loop over a variable [P] loses [PATH]: the loop sets [P], which
    overwrites the entry of [PATH], and removes [P] at its end. *)
Example set_var_clobbers :
  let env := Some [Some PATH_ENTRY; None] in
  env_var [80] env = None ∧
  let env1 := (set_var [80] [97] env).2 in
  env_var PATH env1 = None ∧ env_var PATH (remove_var [80] env1).2 = None.
Proof. vm_compute. done. Qed.

(** A variable that was set again after a slot was freed before it comes back
    with its old value when it is removed. *)
Example removed_variable_returns :
  let env := Some [Some [65; 61; 49]; Some [66; 61; 49]] in
  let env1 := (set_var [66] [50] (remove_var [65] env).2).2 in
  env_var [66] env1 = Some [50] ∧ env_var [66] (remove_var [66] env1).2 = Some [49].
Proof. vm_compute. done. Qed.
