(* ===== verification/Zip.v ===== *)
(** * Run-length compression

    [user/src/bin/pzip.rs] and [punzip.rs].  The program splits each file into
    one chunk per processor, encodes the chunks in threads and merges runs
    across chunks and files; a worker writes only its own slot of the results,
    so its interleaving with the others does not matter.  What the standard
    output and the files do is the interface of UserIo.v; [open] is the file
    system and [joined] what [thread_join] returned. *)

From stdpp Require Import base tactics numbers gmap list.
From S2P Require Import Prelude Errors Bytes UserIo.
Local Open Scope Z_scope.

Record Run := mkRun { count : Z; byte : Z }.
Definition U32_MAX : Z := 2 ^ 32 - 1.
Inductive ExitCode := SUCCESS | FAILURE.

(** [rle_encode]: [current] repeated [count] times before [buf]. *)
Fixpoint rle_from (current count : Z) (buf : list Z) : list Run :=
  match buf with
  | [] => [mkRun count current]
  | b :: buf =>
      if (b =? current) && (count <? U32_MAX) then rle_from current (count + 1) buf
      else mkRun count current :: rle_from b 1 buf
  end.
Definition rle_encode (buf : list Z) : list Run :=
  match buf with [] => [] | b :: buf => rle_from b 1 buf end.

(** The record of a run. *)
Definition record_bytes (r : Run) : list Z := le_bytes 4 (count r) ++ [byte r].

(** The arguments of both programs: trimmed, without empty ones. *)
Definition clean_args (args : list Str) : list Str := filter (λ a, a ≠ []) (str_trim <$> tail args).

Section pzip.
Context {W : Type} `{Write W} {R : Type} `{Read R}.

(** The writer, and the run not yet written. *)
Abbreviation Z_M := (M Error (option Run * W)).
Definition to_writer {A} (m : M Error W A) : Z_M A := λ s, let '(r, w) := m s.2 in (r, (s.1, w)).

Definition set_prev (r : Run) : Z_M () := λ s, (Ok (), (Some r, s.2)).

Definition write_run (r : Run) : Z_M () := to_writer (write_all (record_bytes r)).

Definition flush_prev : Z_M () := λ s,
  match s.1 with Some r => write_run r (None, s.2) | None => (Ok (), s) end.

(** The loop of [merge_run]: full records while the total is too large. *)
Fixpoint split_total (fuel : nat) (total b : Z) : Z_M Z :=
  match fuel with
  | O => m_panic
  | S fuel => if U32_MAX <? total then _ ← write_run (mkRun U32_MAX b); split_total fuel (total - U32_MAX) b else mret total
  end.
Definition merge_run (r : Run) : Z_M () := λ s,
  match s.1 with
  | Some p =>
      if byte p =? byte r then
        (total ← split_total 3 (count p + count r) (byte p); set_prev (mkRun (u32 total) (byte p))) s
      else (_ ← flush_prev; set_prev r) s
  | None => (_ ← flush_prev; set_prev r) s
  end.

Definition compress_data (nprocs : nat) (joined : Result ()) (data : list Z) : Z_M () :=
  if (length data =? 0)%nat then mret ()
  else
    let chunk_count := Nat.min (Nat.max nprocs 1) (length data) in
    let chunk_size := ((length data + chunk_count - 1) / chunk_count)%nat in
    let results := (λ r, rle_encode (slice data r)) <$> ranges chunk_count chunk_size (length data) in
    _ ← ((λ s, (joined, s)) : Z_M ());
    m_for (concat results) merge_run.

(** The loop of [main] over the files. *)
Fixpoint pzip_files (nprocs : nat) (joined : Result ()) (open : Str → Result R) (files : list Str) (s : option Run * W) :
    ExitCode * (option Run * W) :=
  match files with
  | [] => (SUCCESS, s)
  | path :: files =>
      match open path with
      | Ok file =>
          match (read_to_end [] file).1 with
          | Ok data =>
              match compress_data nprocs joined data s with
              | (Ok (), s) => pzip_files nprocs joined open files s
              | (_, s) => (FAILURE, s)
              end
          | _ => (FAILURE, s)
          end
      | _ => (FAILURE, s)
      end
  end.
Definition pzip (nprocs : nat) (joined : Result ()) (open : Str → Result R) (args : list Str) (w : W) : ExitCode * W :=
  let files := clean_args args in
  if (length files =? 0)%nat then (FAILURE, w)
  else
    match pzip_files nprocs joined open files (None, w) with
    | (SUCCESS, s) => match flush_prev s with (Ok (), s) => (SUCCESS, s.2) | (_, s) => (FAILURE, s.2) end
    | (FAILURE, s) => (FAILURE, s.2)
    end.

(** [read_record]: five bytes, or nothing at the end of the file. *)
Fixpoint read_record_loop (fuel : nat) (buf : list Z) : M Error R (option Run) := λ r,
  if (length buf <? 5)%nat then
    match fuel with
    | O => (Panic, r)
    | S fuel =>
        match read (5 - length buf) r with
        | (Ok [], r) => (if (length buf =? 0)%nat then Ok None else Err InvalidArgument, r)
        | (Ok bs, r) => read_record_loop fuel (buf ++ bs) r
        | (Err Interrupted, r) => read_record_loop fuel buf r
        | (Err e, r) => (Err e, r)
        | (Panic, r) => (Panic, r)
        end
    end
  else (Ok (Some (mkRun (le_val (take 4 buf)) (nth 4 buf 0))), r).
Definition read_record : M Error R (option Run) := λ r, read_record_loop (S (r_bound r)) [] r.

(** [write_repeat]. *)
Fixpoint write_repeat_loop (fuel : nat) (b count : Z) : M Error W () :=
  match fuel with
  | O => if 0 <? count then m_panic else mret ()
  | S fuel =>
      if 0 <? count then
        let chunk := Z.min count 4096 in
        _ ← write_all (replicate (Z.to_nat chunk) b); write_repeat_loop fuel b (count - chunk)
      else mret ()
  end.
Definition write_repeat (b count : Z) : M Error W () := write_repeat_loop (Z.to_nat (count / 4096 + 1)) b count.

(** The loop over the records of a file. *)
Fixpoint unzip_loop (fuel : nat) (r : R) (w : W) : ExitCode * W :=
  match fuel with
  | O => (FAILURE, w)
  | S fuel =>
      match read_record r with
      | (Ok (Some run), r) =>
          if count run =? 0 then (FAILURE, w)
          else match write_repeat (byte run) (count run) w with
               | (Ok (), w) => unzip_loop fuel r w
               | (_, w) => (FAILURE, w)
               end
      | (Ok None, _) => (SUCCESS, w)
      | (_, _) => (FAILURE, w)
      end
  end.
Fixpoint punzip_files (open : Str → Result R) (files : list Str) (w : W) : ExitCode * W :=
  match files with
  | [] => (SUCCESS, w)
  | path :: files =>
      match open path with
      | Ok file =>
          match unzip_loop (S (r_bound file)) file w with
          | (SUCCESS, w) => punzip_files open files w
          | (FAILURE, w) => (FAILURE, w)
          end
      | _ => (FAILURE, w)
      end
  end.
Definition punzip (open : Str → Result R) (args : list Str) (w : W) : ExitCode * W :=
  let files := clean_args args in
  if (length files =? 0)%nat then (FAILURE, w) else punzip_files open files w.
End pzip.

(** ** Encoding *)

Definition expand (r : Run) : list Z := replicate (Z.to_nat (count r)) (byte r).
Definition expand_all (rs : list Run) : list Z := concat (expand <$> rs).
Definition expand_prev (p : option Run) : list Z := match p with Some r => expand r | None => [] end.
Definition run_ok (r : Run) : Prop := 0 < count r ≤ U32_MAX.
Definition prev_ok (p : option Run) : Prop := match p with Some r => run_ok r | None => True end.
Definition records (rs : list Run) : list Z := concat (record_bytes <$> rs).

Lemma expand_all_app rs1 rs2 : expand_all (rs1 ++ rs2) = expand_all rs1 ++ expand_all rs2.
Proof. unfold expand_all. by rewrite fmap_app, concat_app. Qed.
Lemma records_app rs1 rs2 : records (rs1 ++ rs2) = records rs1 ++ records rs2.
Proof. unfold records. by rewrite fmap_app, concat_app. Qed.

Lemma expand_all_cons r rs : expand_all (r :: rs) = expand r ++ expand_all rs.
Proof. done. Qed.
Lemma records_cons r rs : records (r :: rs) = record_bytes r ++ records rs.
Proof. done. Qed.

Lemma replicate_Z_add a b (x : Z) : 0 ≤ a → 0 ≤ b →
  replicate (Z.to_nat (a + b)) x = replicate (Z.to_nat a) x ++ replicate (Z.to_nat b) x.
Proof. intros. rewrite Z2Nat.inj_add by done. apply replicate_add. Qed.

Lemma rle_from_spec buf cur n :
  0 < n ≤ U32_MAX → expand_all (rle_from cur n buf) = replicate (Z.to_nat n) cur ++ buf ∧ Forall run_ok (rle_from cur n buf).
Proof.
  revert cur n. induction buf as [|b buf IH]; intros cur n Hn; simpl.
  - split; [done|]. by apply Forall_singleton.
  - destruct (Z.eqb_spec b cur) as [->|Hne]; [destruct (Z.ltb_spec n U32_MAX)|]; simpl.
    + destruct (IH cur (n + 1)) as [-> ?]; [lia|]. split; [|done].
      rewrite replicate_Z_add by lia. by rewrite <-app_assoc.
    + destruct (IH cur 1) as [E ?]; [unfold U32_MAX; lia|]. split; [|by constructor].
      by rewrite expand_all_cons, E.
    + destruct (IH b 1) as [E ?]; [unfold U32_MAX; lia|]. split; [|by constructor].
      by rewrite expand_all_cons, E.
Qed.

Lemma rle_encode_spec buf : expand_all (rle_encode buf) = buf ∧ Forall run_ok (rle_encode buf).
Proof.
  destruct buf as [|b buf]; simpl; [done|]. destruct (rle_from_spec buf b 1) as [-> ?]; [unfold U32_MAX; lia|]. done.
Qed.

(** The runs of the chunks stand for the file. *)
Lemma chunk_runs_spec data count :
  (0 < count)%nat →
  let rs := concat ((λ r, rle_encode (slice data r)) <$> ranges count ((length data + count - 1) / count) (length data)) in
  expand_all rs = data ∧ Forall run_ok rs.
Proof.
  intros Hc rs. rewrite <-(ranges_concat data count Hc). subst rs.
  induction (ranges count ((length data + count - 1) / count) (length data)) as [|r l IH]; [done|]. rewrite !fmap_cons. cbn [concat].
  destruct IH as [E Hf]. destruct (rle_encode_spec (slice data r)) as [E' Hf'].
  rewrite expand_all_app, E, E'. split; [done|]. by apply Forall_app.
Qed.

(** ** Writing *)

Section writing.
Context {W : Type} `{WriteLaws W}.

Lemma write_run_spec r p w :
  ∃ w', write_run r (p, w) = (Ok (), (p, w')) ∧ written w' = written w ++ record_bytes r.
Proof.
  unfold write_run, to_writer. simpl. destruct (write_all_spec (record_bytes r) w) as (w' & -> & Hw). eauto.
Qed.

Lemma flush_prev_spec p w :
  prev_ok p → ∃ rs w', flush_prev (p, w) = (Ok (), (None, w')) ∧ written w' = written w ++ records rs ∧
    expand_all rs = expand_prev p ∧ Forall run_ok rs.
Proof.
  intros Hp. unfold flush_prev. simpl. destruct p as [r|].
  - destruct (write_run_spec r None w) as (w' & -> & Hw). exists [r], w'. unfold records, expand_all. simpl.
    rewrite !app_nil_r. split_and!; [done..|]. by apply Forall_singleton.
  - exists [], w. unfold records, expand_all. simpl. by rewrite app_nil_r.
Qed.

Lemma split_total_eq fuel total b :
  split_total (S fuel) total b =
  if U32_MAX <? total then _ ← write_run (mkRun U32_MAX b); split_total fuel (total - U32_MAX) b else mret total.
Proof. done. Qed.

Lemma split_total_spec fuel total b p w :
  0 < total → total ≤ Z.of_nat fuel * U32_MAX →
  ∃ rs total' w', split_total (S fuel) total b (p, w) = (Ok total', (p, w')) ∧ written w' = written w ++ records rs ∧
    0 < total' ≤ U32_MAX ∧ Forall run_ok rs ∧
    expand_all rs ++ replicate (Z.to_nat total') b = replicate (Z.to_nat total) b.
Proof.
  revert total w. induction fuel as [|fuel IH]; intros total w Hpos Hle; [lia|].
  rewrite split_total_eq. destruct (Z.ltb_spec U32_MAX total) as [Hlt|Hge]; last first.
  { exists [], total, w. unfold records, expand_all. simpl. rewrite app_nil_r. split_and!; try done; lia. }
  destruct (write_run_spec (mkRun U32_MAX b) p w) as (w1 & E1 & Hw1).
  destruct (IH (total - U32_MAX) w1) as (rs & t' & w' & E & Hw & Ht & Hrs & Hx); [lia..|].
  destruct Ht. exists (mkRun U32_MAX b :: rs), t', w'. rewrite (bind_ok _ _ _ _ _ E1), E. split_and!; try done.
  - by rewrite Hw, Hw1, records_cons, <-app_assoc.
  - constructor; [|done]. by unfold run_ok, U32_MAX.
  - rewrite expand_all_cons. unfold expand. cbn [count byte]. rewrite <-app_assoc, Hx, <-replicate_Z_add; [|unfold U32_MAX; lia|lia].
    f_equal. lia.
Qed.

Lemma merge_run_spec r p w :
  prev_ok p → run_ok r →
  ∃ rs p' w', merge_run r (p, w) = (Ok (), (p', w')) ∧ written w' = written w ++ records rs ∧ prev_ok p' ∧
    Forall run_ok rs ∧ expand_all rs ++ expand_prev p' = expand_prev p ++ expand r.
Proof.
  intros Hp Hr. unfold merge_run. cbn [fst].
  assert (Hflush : ∃ rs p' w', (_ ← flush_prev; set_prev r) (p, w) = (Ok (), (p', w')) ∧ written w' = written w ++ records rs ∧ prev_ok p' ∧
    Forall run_ok rs ∧ expand_all rs ++ expand_prev p' = expand_prev p ++ expand r).
  { destruct (flush_prev_spec p w Hp) as (rs & w' & E & Hw & Hx & Hf). rewrite (bind_ok _ _ _ _ _ E).
    exists rs, (Some r), w'. by rewrite Hx. }
  destruct p as [pr|]; [|done]. destruct (Z.eqb_spec (byte pr) (byte r)) as [Hb|]; [|done].
  simpl in Hp. unfold run_ok in *.
  destruct (split_total_spec 2 (count pr + count r) (byte pr) (Some pr) w) as (rs & t' & w' & E & Hw & Ht & Hrs & Hx); [lia..|].
  rewrite (bind_ok _ _ _ _ _ E). exists rs, (Some (mkRun (u32 t') (byte pr))), w'.
  assert (Hu : u32 t' = t') by (apply wrap_small; unfold U32_MAX in *; lia). rewrite Hu.
  split_and!; try done. unfold expand_prev, expand in *. cbn [count byte]. rewrite Hx, replicate_Z_add by lia. by rewrite Hb.
Qed.

Lemma merge_runs_spec rs0 p w :
  prev_ok p → Forall run_ok rs0 →
  ∃ rs p' w', m_for rs0 merge_run (p, w) = (Ok (), (p', w')) ∧ written w' = written w ++ records rs ∧ prev_ok p' ∧
    Forall run_ok rs ∧ expand_all rs ++ expand_prev p' = expand_prev p ++ expand_all rs0.
Proof.
  revert p w. induction rs0 as [|r rs0 IH]; intros p w Hp Hrs; cbn [m_for].
  - exists [], p, w. unfold records, expand_all. simpl. by rewrite !app_nil_r.
  - apply Forall_cons_1 in Hrs as [Hr Hrs].
    destruct (merge_run_spec r p w Hp Hr) as (rs1 & p1 & w1 & E1 & Hw1 & Hp1 & Hf1 & Hx1).
    destruct (IH p1 w1 Hp1 Hrs) as (rs2 & p2 & w2 & E2 & Hw2 & Hp2 & Hf2 & Hx2).
    exists (rs1 ++ rs2), p2, w2. rewrite (bind_ok _ _ _ _ _ E1), E2. split_and!; try done.
    + by rewrite Hw2, Hw1, records_app, app_assoc.
    + by apply Forall_app.
    + rewrite expand_all_app, <-app_assoc, Hx2, app_assoc, Hx1, expand_all_cons. by rewrite <-app_assoc.
Qed.

Lemma compress_data_spec nprocs data p w :
  prev_ok p →
  ∃ rs p' w', compress_data nprocs (Ok ()) data (p, w) = (Ok (), (p', w')) ∧ written w' = written w ++ records rs ∧ prev_ok p' ∧
    Forall run_ok rs ∧ expand_all rs ++ expand_prev p' = expand_prev p ++ data.
Proof.
  intros Hp. unfold compress_data. destruct (Nat.eqb_spec (length data) 0) as [Hz|Hz].
  - apply length_zero_iff_nil in Hz as ->. exists [], p, w. unfold records, expand_all. simpl. by rewrite !app_nil_r.
  - rewrite (bind_ok _ _ _ () (p, w)) by done.
    destruct (chunk_runs_spec data (Nat.min (Nat.max nprocs 1) (length data))) as [Hx Hf]; [lia|].
    destruct (merge_runs_spec _ p w Hp Hf) as (rs & p' & w' & E & Hw & Hp' & Hf' & Hx').
    exists rs, p', w'. rewrite Hx in Hx'. done.
Qed.

Context {R : Type} `{ReadLaws R}.

Lemma pzip_files_spec nprocs open files rs0 p w :
  Forall2 (λ f r, open f = Ok r) files rs0 → prev_ok p →
  ∃ rs p' w', pzip_files nprocs (Ok ()) open files (p, w) = (SUCCESS, (p', w')) ∧ written w' = written w ++ records rs ∧ prev_ok p' ∧
    Forall run_ok rs ∧ expand_all rs ++ expand_prev p' = expand_prev p ++ concat (content <$> rs0).
Proof.
  intros Hopen. revert p w. induction Hopen as [|f r files rs0 Hf Hopen IH]; intros p w Hp; cbn [pzip_files].
  - exists [], p, w. unfold records, expand_all. simpl. by rewrite !app_nil_r.
  - rewrite Hf. destruct (read_to_end_spec [] r) as (r' & -> & _). cbn [fst app].
    destruct (compress_data_spec nprocs (content r) p w Hp) as (rs1 & p1 & w1 & -> & Hw1 & Hp1 & Hf1 & Hx1).
    destruct (IH p1 w1 Hp1) as (rs2 & p2 & w2 & -> & Hw2 & Hp2 & Hf2 & Hx2).
    exists (rs1 ++ rs2), p2, w2. split_and!; try done.
    + by rewrite Hw2, Hw1, records_app, app_assoc.
    + by apply Forall_app.
    + rewrite expand_all_app, <-app_assoc, Hx2, app_assoc, Hx1. simpl. by rewrite <-app_assoc.
Qed.

(** ** Decoding *)

Lemma write_repeat_spec b n w :
  0 ≤ n → ∃ w', write_repeat b n w = (Ok (), w') ∧ written w' = written w ++ replicate (Z.to_nat n) b.
Proof.
  intros Hn. unfold write_repeat. assert (Hf : n ≤ 4096 * Z.of_nat (Z.to_nat (n / 4096 + 1))).
  { pose proof (Z_div_mod_eq_full n 4096). pose proof (Z.mod_pos_bound n 4096 ltac:(lia)).
    pose proof (Z.div_pos n 4096 Hn ltac:(lia)). lia. }
  revert Hf. generalize (Z.to_nat (n / 4096 + 1)) as fuel. intros fuel. revert n w Hn.
  induction fuel as [|fuel IH]; intros n w Hn Hf; cbn [write_repeat_loop]; destruct (Z.ltb_spec 0 n) as [Hp|Hp].
  1: lia.
  1,3: replace n with 0 by lia; exists w; by rewrite app_nil_r.
  destruct (write_all_spec (replicate (Z.to_nat (Z.min n 4096)) b) w) as (w1 & E1 & Hw1).
  destruct (IH (n - Z.min n 4096) w1) as (w' & E & Hw); [lia..|].
  rewrite (bind_ok _ _ _ _ _ E1), E. exists w'. split; [done|].
  rewrite Hw, Hw1, <-app_assoc, <-replicate_Z_add by lia. do 2 f_equal. f_equal. lia.
Qed.

Lemma read_record_loop_spec fuel buf rest r rec :
  content r = rest ++ rec → (length buf + length rest = 5)%nat → (r_bound r < fuel)%nat →
  ∃ r', read_record_loop fuel buf r = (Ok (Some (mkRun (le_val (take 4 (buf ++ rest))) (nth 4 (buf ++ rest) 0))), r') ∧
    content r' = rec ∧ (r_bound r' ≤ r_bound r)%nat ∧ (rest ≠ [] → r_bound r' < r_bound r)%nat.
Proof.
  revert buf rest r. induction fuel as [|fuel IH]; intros buf rest r Hc Hl Hb; [lia|]. cbn [read_record_loop].
  destruct (Nat.ltb_spec (length buf) 5) as [Hlt|Hge]; last first.
  { destruct rest; [|simpl in *; lia]. exists r. by rewrite app_nil_r. }
  pose proof (read_spec (5 - length buf) r ltac:(lia)) as Hr.
  destruct (read (5 - length buf) r) as [[[|b bs]|e|] r1]; [..|done].
  - destruct Hr as (_ & _ & Hnil & _). rewrite Hnil in Hc by done. destruct rest; [simpl in *; lia|done].
  - destruct Hr as (Hc1 & Hn & _ & Hb1). specialize (Hb1 ltac:(done)). rewrite Hc in Hc1.
    assert (∃ rest', rest = (b :: bs) ++ rest' ∧ content r1 = rest' ++ rec) as (rest' & -> & Hc').
    { apply app_eq_inv in Hc1 as [(k & -> & Hk)|(k & Hk & ->)]; [by exists k|].
      exists []. assert (k = []) as ->; [|by rewrite app_nil_r in *].
      apply (f_equal length) in Hk. rewrite length_app in Hk. destruct k; [done|]. simpl in *. lia. }
    rewrite length_app in Hl.
    destruct (IH (buf ++ b :: bs) rest' r1) as (r' & -> & Hr' & Hle & _); [done|rewrite length_app; lia|lia|].
    exists r'. rewrite <-!app_assoc. split_and!; [done..|lia|lia].
  - destruct Hr as (-> & Hc1 & Hb1). destruct (IH buf rest r1) as (r' & -> & Hr' & Hle & _); [by rewrite Hc1|done|lia|].
    exists r'. split_and!; [done..|lia|lia].
Qed.

Lemma read_record_spec run r rec :
  run_ok run → content r = record_bytes run ++ rec →
  ∃ r', read_record r = (Ok (Some run), r') ∧ content r' = rec ∧ (r_bound r' < r_bound r)%nat.
Proof.
  intros Hrun Hc. destruct (read_record_loop_spec (S (r_bound r)) [] (record_bytes run) r rec) as (r' & E & Hc' & _ & Hb); [done| |lia|].
  { unfold record_bytes. by rewrite length_app, length_le_bytes. }
  exists r'. unfold read_record. rewrite E. split_and!; [|done|].
  - cbn [app]. unfold record_bytes. rewrite take_app_length' by by rewrite length_le_bytes.
    rewrite app_nth2; rewrite length_le_bytes; [|lia]. simpl nth.
    rewrite le_val_bytes by (unfold run_ok, U32_MAX in *; lia). by destruct run.
  - apply Hb. unfold record_bytes. by destruct (le_bytes 4 (count run)).
Qed.

Lemma read_record_end r : content r = [] → ∃ r', read_record r = (Ok None, r').
Proof.
  unfold read_record. assert (Hb : (r_bound r < S (r_bound r))%nat) by lia. revert Hb.
  generalize (S (r_bound r)) as fuel. intros fuel. revert r. induction fuel as [|fuel IH]; intros r Hb Hc; [lia|]. simpl.
  pose proof (read_spec 5 r ltac:(lia)) as Hr. destruct (read 5 r) as [[[|b bs]|e|] r1]; [by eexists| |..|done].
  - destruct Hr as (Hc1 & _). by rewrite Hc in Hc1.
  - destruct Hr as (-> & Hc1 & Hb1). apply IH; [lia|by rewrite Hc1].
Qed.

Lemma unzip_loop_spec rs fuel r w :
  Forall run_ok rs → content r = records rs → (r_bound r < fuel)%nat →
  ∃ w', unzip_loop fuel r w = (SUCCESS, w') ∧ written w' = written w ++ expand_all rs.
Proof.
  revert fuel r w. induction rs as [|run rs IH]; intros [|fuel] r w Hrs Hc Hb; [lia| |lia|]; cbn [unzip_loop].
  - destruct (read_record_end r Hc) as [r' ->]. exists w. unfold expand_all. simpl. by rewrite app_nil_r.
  - apply Forall_cons_1 in Hrs as [Hrun Hrs].
    destruct (read_record_spec run r (records rs) Hrun Hc) as (r1 & -> & Hc1 & Hb1). unfold run_ok in Hrun.
    rewrite (proj2 (Z.eqb_neq (count run) 0)) by lia.
    destruct (write_repeat_spec (byte run) (count run) w) as (w1 & -> & Hw1); [lia|].
    destruct (IH fuel r1 w1) as (w' & -> & Hw); [done..|lia|]. exists w'. split; [done|].
    by rewrite Hw, Hw1, expand_all_cons, <-app_assoc.
Qed.

(** C38: Decompression undoes compression: whatever the number of processors
    and however the files deliver and take their bytes (short transfers,
    interruptions), [pzip] on files that can be read succeeds, and [punzip] on
    a file that holds what it wrote succeeds and writes exactly the
    concatenated contents. *)
Theorem pzip_punzip_roundtrip nprocs open args rs0 (w : W) :
  clean_args args ≠ [] → Forall2 (λ f r, open f = Ok r) (clean_args args) rs0 →
  ∃ z w1, pzip nprocs (Ok ()) open args w = (SUCCESS, w1) ∧ written w1 = written w ++ z ∧
  ∀ open' args' f (r : R) (w2 : W), clean_args args' = [f] → open' f = Ok r → content r = z →
    ∃ w3, punzip open' args' w2 = (SUCCESS, w3) ∧ written w3 = written w2 ++ concat (content <$> rs0).
Proof.
  intros Hne Hopen. unfold pzip. rewrite (proj2 (Nat.eqb_neq _ 0)) by by rewrite length_zero_iff_nil.
  destruct (pzip_files_spec nprocs open _ rs0 None w Hopen) as (rs & p & w1 & -> & Hw1 & Hp & Hf & Hx); [done|].
  destruct (flush_prev_spec p w1 Hp) as (rs' & w1' & -> & Hw1' & Hx' & Hf').
  exists (records (rs ++ rs')), w1'. split_and!; [done|by rewrite Hw1', Hw1, records_app, app_assoc|].
  intros open' args' f r w2 Hargs Hf2 Hc. unfold punzip. rewrite Hargs. cbn [length Nat.eqb punzip_files]. rewrite Hf2.
  destruct (unzip_loop_spec (rs ++ rs') (S (r_bound r)) r w2) as (w3 & -> & Hw3); [by apply Forall_app|done|lia|].
  exists w3. split; [done|]. rewrite Hw3, expand_all_app, Hx', Hx. done.
Qed.
End writing.

(** Two files that share a run across their boundary, read in pieces. *)
Lemma pzip_punzip_roundtrip_witness :
  let open := (λ f, if bool_decide (f = [97]) then Ok (mkSrc [7; 7; 7; 9] [Intr; Short 0]) else Ok (mkSrc [9; 9; 8] [])) : Str → Result Src in
  clean_args [[112]; [97; 32]; [98]] = [[97]; [98]] ∧
  ∃ z w1, pzip 2 (Ok ()) open [[112]; [97; 32]; [98]] (mkSink [] [Short 1; Intr]) = (SUCCESS, w1) ∧ written w1 = [] ++ z ∧
  ∀ open' args' f (r : Src) (w2 : Sink), clean_args args' = [f] → open' f = Ok r → content r = z →
    ∃ w3, punzip open' args' w2 = (SUCCESS, w3) ∧ written w3 = written w2 ++ [7; 7; 7; 9; 9; 9; 8].
Proof.
  intros open. split; [vm_compute; reflexivity|].
  set (files := [mkSrc [7; 7; 7; 9] [Intr; Short 0]; mkSrc [9; 9; 8] []]).
  assert (Hne : clean_args [[112]; [97; 32]; [98]] ≠ []) by (vm_compute; discriminate).
  assert (Hopen : Forall2 (λ f r, open f = Ok r) (clean_args [[112]; [97; 32]; [98]]) files) by (vm_compute; repeat constructor).
  exact (pzip_punzip_roundtrip 2 open [[112]; [97; 32]; [98]] files (mkSink [] [Short 1; Intr]) Hne Hopen).
Defined.
