(* ===== verification/Psort.v ===== *)
(** * Parallel sort

    [user/src/bin/psort.rs]: records of 100 bytes, sorted by their first four
    bytes.  Each range of the array is sorted by a thread of its own and the
    ranges are merged while writing.  [sort_by_key] stands for
    [slice::sort_unstable_by_key], which returns some sorted permutation. *)

From Stdlib Require Import Sorting.Sorted.
From stdpp Require Import base tactics numbers gmap list sorting.
From S2P Require Import Prelude Errors Bytes UserIo Zip.
Local Open Scope nat_scope.

Definition RECORD_SIZE : nat := 100.
(** [Record::key]. *)
Abbreviation Rec := (list Z).
Definition key (r : Rec) : Z := le_val (take 4 r).

(** [parse_records]: the full chunks. *)
Definition parse_records (data : list Z) : list Rec :=
  (λ i, slice data (i * RECORD_SIZE, i * RECORD_SIZE + RECORD_SIZE)) <$> seq 0 (length data / RECORD_SIZE).

Record Cursor := mkCursor { chunk : nat; index : nat; cend : nat }.

(** The cursors of [merge_write]. *)
Fixpoint cursors_from (n i size len : nat) : list Cursor :=
  match n with
  | O => []
  | S n => if len <=? i * size then [] else mkCursor i (i * size) (Nat.min (i * size + size) len) :: cursors_from n (S i) size len
  end.

Section psort.
Context (sort_by_key : list Rec → list Rec).
Context {W : Type} `{Write W} {R : Type} `{Read R}.

(** [parallel_sort], with [sort_range] for each task. *)
Definition parallel_sort (nprocs : nat) (joined : Result ()) (records : list Rec) : Result (list Rec) :=
  let count := length records in
  if count <=? 1 then Ok records
  else
    let chunk_count := Nat.min (Nat.max nprocs 1) count in
    let chunk_size := (count + chunk_count - 1) / chunk_count in
    let sorted := (λ r, sort_by_key (slice records r)) <$> ranges chunk_count chunk_size count in
    _ ← joined; Ok (concat sorted).

(** The best cursor so far: its position, key and chunk. *)
Definition consider (records : list Rec) (i : nat) (c : Cursor) (best : option (nat * Z * nat)) : Result (option (nat * Z * nat)) :=
  if cend c <=? index c then Ok best
  else
    match records !! index c with
    | None => Panic
    | Some r =>
        let pick := match best with
                    | None => true
                    | Some (_, bk, bc) => ((key r <? bk)%Z || ((key r =? bk)%Z && (chunk c <? bc)))
                    end in
        Ok (if pick then Some (i, key r, chunk c) else best)
    end.
Fixpoint best_from (records : list Rec) (i : nat) (cs : list Cursor) (best : option (nat * Z * nat)) : Result (option (nat * Z * nat)) :=
  match cs with
  | [] => Ok best
  | c :: cs => best ← consider records i c best; best_from records (S i) cs best
  end.

(** The loop of [merge_write]. *)
Fixpoint merge_records (fuel : nat) (records : list Rec) (cs : list Cursor) (w : W) : Result () * W :=
  match best_from records 0 cs None with
  | Ok None => (Ok (), w)
  | Ok (Some (i, _, _)) =>
      match fuel, cs !! i with
      | S fuel, Some c =>
          match records !! index c with
          | Some r =>
              match write_all r w with
              | (Ok (), w) => merge_records fuel records (<[i := mkCursor (chunk c) (index c + 1) (cend c)]> cs) w
              | (e, w) => (e, w)
              end
          | None => (Panic, w)
          end
      | _, _ => (Panic, w)
      end
  | Err e => (Err e, w)
  | Panic => (Panic, w)
  end.
Definition merge_write (records : list Rec) (chunk_count chunk_size : nat) (w : W) : Result () * W :=
  merge_records (length records) records (cursors_from chunk_count 0 chunk_size (length records)) w.

(** [main]. *)
Definition psort (nprocs : nat) (joined : Result ()) (open : Str → Result R) (args : list Str) (w : W) : ExitCode * W :=
  match clean_args args with
  | [path] =>
      match open path with
      | Ok file =>
          match (read_to_end [] file).1 with
          | Ok data =>
              if negb (length data mod RECORD_SIZE =? 0) then (FAILURE, w)
              else
                match parallel_sort nprocs joined (parse_records data) with
                | Ok records =>
                    let chunk_count := Nat.min (Nat.max nprocs 1) (Nat.max (length records) 1) in
                    let chunk_size := if length records =? 0 then 0 else (length records + chunk_count - 1) / chunk_count in
                    match merge_write records chunk_count chunk_size w with
                    | (Ok (), w) => (SUCCESS, w)
                    | (_, w) => (FAILURE, w)
                    end
                | _ => (FAILURE, w)
                end
          | _ => (FAILURE, w)
          end
      | _ => (FAILURE, w)
      end
  | _ => (FAILURE, w)
  end.
End psort.

(** ** Records *)

Lemma parse_records_concat data : length data mod RECORD_SIZE = 0 → concat (parse_records data) = data.
Proof.
  intros Hm. unfold parse_records, RECORD_SIZE in *.
  assert (Hl : length data = (length data / 100) * 100) by (pose proof (Nat.div_mod_eq (length data) 100); lia).
  assert (Hgen : ∀ n i, (i + n) * 100 = length data →
    concat ((λ i, slice data (i * 100, i * 100 + 100)) <$> seq i n) = drop (i * 100) data).
  { induction n as [|n IH]; intros i Hi; simpl; [by rewrite drop_ge by lia|].
    rewrite IH by lia. unfold slice. simpl. replace (i * 100 + 100 - i * 100) with 100 by lia.
    rewrite <-(take_drop 100 (drop (i * 100) data)) at 2. rewrite drop_drop. do 2 f_equal. lia. }
  by apply (Hgen _ 0).
Qed.

(** ** Merging *)

Definition key_le (a b : Rec) : Prop := (key a ≤ key b)%Z.

Lemma key_le_trans a b c : key_le a b → key_le b c → key_le a c.
Proof. unfold key_le. lia. Qed.

(** What a cursor has still to deliver. *)
Definition remaining (records : list Rec) (c : Cursor) : list Rec := slice records (index c, cend c).

Definition cursor_ok (records : list Rec) (c : Cursor) : Prop :=
  cend c ≤ length records ∧ StronglySorted key_le (remaining records c).

Lemma remaining_nil records c : cend c ≤ index c → remaining records c = [].
Proof. intros. unfold remaining, slice. simpl. by replace (cend c - index c) with 0 by lia. Qed.

Lemma remaining_cons records c :
  index c < cend c → cend c ≤ length records →
  ∃ r, records !! index c = Some r ∧ remaining records c = r :: remaining records (mkCursor (chunk c) (index c + 1) (cend c)).
Proof.
  intros Hi He. destruct (lookup_lt_is_Some_2 records (index c) ltac:(lia)) as [r Hr]. exists r. split; [done|].
  unfold remaining, slice. simpl. rewrite (drop_S _ _ _ Hr). destruct (cend c - index c) as [|n] eqn:E; [lia|].
  simpl. replace (index c + 1) with (S (index c)) by lia. by replace (cend c - S (index c)) with n by lia.
Qed.

(** The head of what cursor [c] delivers has a key of at least [k]. *)
Definition above (records : list Rec) (k : Z) (c : Cursor) : Prop :=
  ∀ r, head (remaining records c) = Some r → (k ≤ key r)%Z.

(** [best] describes the first [i] cursors, [pre]. *)
Definition best_ok (records : list Rec) (pre : list Cursor) (best : option (nat * Z * nat)) : Prop :=
  match best with
  | None => Forall (λ c, remaining records c = []) pre
  | Some (i, k, _) => ∃ c r, pre !! i = Some c ∧ index c < cend c ∧ records !! index c = Some r ∧ key r = k ∧
      Forall (above records k) pre
  end.

Lemma consider_ok records pre c best :
  cursor_ok records c → best_ok records pre best →
  ∃ best', consider records (length pre) c best = Ok best' ∧ best_ok records (pre ++ [c]) best'.
Proof.
  intros [He Hs] Hb. unfold consider. destruct (Nat.leb_spec (cend c) (index c)) as [Hle|Hlt].
  - exists best. split; [done|]. destruct best as [[[i k] ch]|]; simpl in *.
    + destruct Hb as (c' & r & Hc & Hi & Hr & Hk & Hf). exists c', r. split_and!; try done; [by apply lookup_app_l_Some|].
      apply Forall_app. split; [done|]. apply Forall_singleton. intros x. by rewrite (remaining_nil _ _ Hle).
    + apply Forall_app. split; [done|]. apply Forall_singleton. by apply remaining_nil.
  - destruct (remaining_cons records c Hlt He) as (r & Hr & Hrem). rewrite Hr.
    eexists. split; [reflexivity|].
    assert (Hnew : ∀ k, (∀ k', best_ok records pre best → match best with Some (_, bk, _) => bk = k' | None => False end → (k ≤ k')%Z) →
      k = key r → best_ok records (pre ++ [c]) (Some (length pre, k, chunk c))).
    { intros k Hk ->. exists c, r. split_and!; try done; [by apply list_lookup_middle|].
      apply Forall_app. split.
      - destruct best as [[[i bk] bc]|]; simpl in *.
        + specialize (Hk bk Hb eq_refl). destruct Hb as (c0 & r0 & _ & _ & _ & _ & Hf).
          eapply Forall_impl; [done|]. intros c' Ha x Hx. specialize (Ha x Hx). lia.
        + eapply Forall_impl; [done|]. intros c' Ha x. by rewrite Ha.
      - apply Forall_singleton. intros x. rewrite Hrem. intros [= <-]. lia. }
    destruct best as [[[i bk] bc]|]; [|by apply Hnew].
    destruct (Z.ltb_spec (key r) bk) as [Hlk|Hgk]; simpl.
    { apply Hnew; [|done]. intros k' _ ->. lia. }
    destruct (Z.eqb_spec (key r) bk) as [Hek|Hnk]; simpl; [destruct (chunk c <? bc)|].
    { apply Hnew; [|done]. intros k' _ ->. lia. }
    all: simpl in *; destruct Hb as (c' & r' & Hc & Hi & Hr' & Hk & Hf); exists c', r'; split_and!; try done; [by apply lookup_app_l_Some|].
    all: apply Forall_app; split; [done|]; apply Forall_singleton; intros x; rewrite Hrem; intros [= <-]; lia.
Qed.

Lemma best_from_ok records cs pre best :
  Forall (cursor_ok records) cs → best_ok records pre best →
  ∃ best', best_from records (length pre) cs best = Ok best' ∧ best_ok records (pre ++ cs) best'.
Proof.
  revert pre best. induction cs as [|c cs IH]; intros pre best Hcs Hb; cbn [best_from]; [exists best; by rewrite app_nil_r|].
  apply Forall_cons_1 in Hcs as [Hc Hcs]. destruct (consider_ok records pre c best Hc Hb) as (b1 & -> & Hb1). bind_simpl.
  destruct (IH (pre ++ [c]) b1 Hcs Hb1) as (b2 & E & Hb2). rewrite length_app, Nat.add_comm in E. exists b2.
  by rewrite <-app_assoc in Hb2.
Qed.

Definition all_remaining (records : list Rec) (cs : list Cursor) : list Rec := concat (remaining records <$> cs).

(** The record of least key comes first in a sorted permutation. *)
Lemma head_least records cs k :
  Forall (cursor_ok records) cs → Forall (above records k) cs → Forall (λ r, (k ≤ key r)%Z) (all_remaining records cs).
Proof.
  intros Hok Ha. unfold all_remaining. induction cs as [|c cs IH]; [done|]. rewrite fmap_cons. simpl.
  apply Forall_cons_1 in Hok as [[_ Hs] Hok]. apply Forall_cons_1 in Ha as [Hc Ha]. apply Forall_app. split; [|by apply IH].
  unfold above in Hc. destruct (remaining records c) as [|r l]; [done|]. specialize (Hc r eq_refl).
  apply StronglySorted_inv in Hs as [_ Hl]. constructor; [done|]. eapply Forall_impl; [done|]. unfold key_le. intros x ?. lia.
Qed.

Lemma advance records cs i c r :
  Forall (cursor_ok records) cs → cs !! i = Some c → index c < cend c → records !! index c = Some r →
  let cs' := <[i := mkCursor (chunk c) (index c + 1) (cend c)]> cs in
  all_remaining records cs ≡ₚ r :: all_remaining records cs' ∧ Forall (cursor_ok records) cs'.
Proof.
  intros Hok Hi Hlt Hr. destruct (proj1 (Forall_lookup _ _) Hok _ _ Hi) as [He Hs].
  destruct (remaining_cons records c Hlt He) as (r' & Hr' & Hrem). rewrite Hr in Hr'. injection Hr' as <-. split.
  - unfold all_remaining. rewrite <-(take_drop_middle _ _ _ Hi) at 1. rewrite insert_take_drop by (eapply lookup_lt_Some, Hi).
    rewrite !fmap_app, !concat_app, !fmap_cons. cbn [concat]. rewrite Hrem. simpl. symmetry. apply Permutation_middle.
  - apply Forall_insert; [done|]. split; [done|]. rewrite Hrem in Hs. by apply StronglySorted_inv in Hs as [? _].
Qed.

Lemma nothing_left records cs : Forall (λ c, remaining records c = []) cs → all_remaining records cs = [].
Proof. unfold all_remaining. induction 1 as [|c cs Hc _ IH]; [done|]. rewrite fmap_cons. simpl. by rewrite Hc. Qed.

Section merging.
Context {W : Type} `{WriteLaws W}.

Lemma merge_records_spec fuel records cs (w : W) :
  Forall (cursor_ok records) cs → length (all_remaining records cs) ≤ fuel →
  ∃ out w', merge_records fuel records cs w = (Ok (), w') ∧ written w' = written w ++ concat out ∧
    out ≡ₚ all_remaining records cs ∧ StronglySorted key_le out.
Proof.
  revert cs w. induction fuel as [|fuel IH]; intros cs w Hok Hf; cbn [merge_records];
    (destruct (best_from_ok records cs [] None Hok) as (best & Hbest & Hb); [apply Forall_nil_2|]); cbn [app length] in *; rewrite Hbest; clear Hbest.
  all: destruct best as [[[i k] ch]|]; [destruct Hb as (c & r & Hc & Hlt & Hr & Hk & Ha)|].
  - exfalso. destruct (advance records cs i c r Hok Hc Hlt Hr) as [Hp _]. rewrite Hp in Hf. simpl in Hf. lia.
  - exists [], w. rewrite app_nil_r. split_and!; [done..| |constructor]. by rewrite nothing_left.
  - rewrite Hc. cbv beta iota. rewrite Hr. destruct (advance records cs i c r Hok Hc Hlt Hr) as [Hp Hok'].
    destruct (write_all_spec r w) as (w1 & -> & Hw1). rewrite Hp in Hf.
    destruct (IH _ w1 Hok') as (out & w' & -> & Hw & Hperm & Hsorted); [simpl in Hf; lia|].
    exists (r :: out), w'. split_and!; [done|by rewrite Hw, Hw1, <-app_assoc|by rewrite Hp, Hperm|].
    constructor; [done|]. rewrite Hperm. pose proof (head_least records cs k Hok Ha) as Hl. rewrite Hp in Hl.
    apply Forall_cons_1 in Hl as [_ Hl]. eapply Forall_impl; [done|]. unfold key_le. intros x ?. lia.
  - exists [], w. rewrite app_nil_r. split_and!; [done..| |constructor]. by rewrite nothing_left.
Qed.
End merging.

(** ** The program *)

Lemma cursors_from_spec records n i size :
  let rs := ranges_from n i size (length records) in
  (remaining records <$> cursors_from n i size (length records)) = (slice records <$> rs) ∧
  Forall (λ c, cend c ≤ length records) (cursors_from n i size (length records)).
Proof.
  revert i. induction n as [|n IH]; intros i; simpl; [done|]. case_match; [done|]. destruct (IH (S i)) as [E Hf].
  rewrite !fmap_cons, E. split; [done|]. constructor; [simpl; lia|done].
Qed.

Section program.
Context (sort_by_key : list Rec → list Rec).
Hypothesis sort_spec : ∀ l, sort_by_key l ≡ₚ l ∧ StronglySorted key_le (sort_by_key l).

Lemma sort_ranges_perm (records : list Rec) l :
  concat ((λ r, sort_by_key (slice records r)) <$> l) ≡ₚ concat (slice records <$> l).
Proof. induction l as [|r l IH]; [done|]. rewrite !fmap_cons. simpl. by rewrite (proj1 (sort_spec _)), IH. Qed.

(** After [parallel_sort] every range is sorted. *)
Lemma parallel_sort_spec nprocs records :
  ∃ sorted, parallel_sort sort_by_key nprocs (Ok ()) records = Ok sorted ∧ sorted ≡ₚ records ∧
    let count := Nat.min (Nat.max nprocs 1) (Nat.max (length sorted) 1) in
    let size := if length sorted =? 0 then 0 else (length sorted + count - 1) / count in
    Forall (λ r, StronglySorted key_le (slice sorted r)) (ranges count size (length sorted)) ∧
    concat (slice sorted <$> ranges count size (length sorted)) = sorted.
Proof.
  unfold parallel_sort. destruct (Nat.leb_spec (length records) 1) as [Hle|Hgt].
  - exists records. do 2 (split; [done|]).
    destruct records as [|r [|r' l]]; simpl in *; [|idtac|lia].
    + rewrite Nat.min_r by lia. done.
    + rewrite Nat.min_r by lia. simpl. by repeat constructor.
  - set (count := Nat.min (Nat.max nprocs 1) (length records)).
    set (size := (length records + count - 1) / count).
    exists (concat ((λ r, sort_by_key (slice records r)) <$> ranges count size (length records))). split; [done|].
    assert (Hc : concat (slice records <$> ranges count size (length records)) = records) by (apply ranges_concat; lia).
    assert (Hp : concat ((λ r, sort_by_key (slice records r)) <$> ranges count size (length records)) ≡ₚ records).
    { rewrite sort_ranges_perm. by rewrite Hc. }
    split; [done|]. rewrite (Permutation_length Hp). rewrite (Nat.max_l (length records)) by lia. fold count.
    rewrite (proj2 (Nat.eqb_neq _ 0)) by lia. fold size.
    pose proof (ranges_from_map sort_by_key records [] count 0 size (λ l, Permutation_length (proj1 (sort_spec l))) eq_refl) as Hm.
    simpl in Hm. fold (ranges count size (length records)) in Hm. split; [|by rewrite Hm].
    apply (proj1 (Forall_fmap (slice _) (StronglySorted key_le) _)). rewrite Hm. apply Forall_fmap, Forall_true. intros r. apply sort_spec.
Qed.

Context {W : Type} `{WriteLaws W} {R : Type} `{ReadLaws R}.

(** C39: [psort] sorts: on a file of whole records it writes the file's records
    as a permutation ordered by key, however many processors there are,
    whichever order [sort_unstable_by_key] gives equal keys and however the
    file and the output transfer their bytes; on a file of any other length
    it fails and writes nothing. *)
Theorem psort_sorts nprocs open args path (r : R) (w : W) :
  clean_args args = [path] → open path = Ok r →
  if length (content r) mod RECORD_SIZE =? 0 then
    ∃ out w', psort sort_by_key nprocs (Ok ()) open args w = (SUCCESS, w') ∧ written w' = written w ++ concat out ∧
      out ≡ₚ parse_records (content r) ∧ concat (parse_records (content r)) = content r ∧ StronglySorted key_le out
  else psort sort_by_key nprocs (Ok ()) open args w = (FAILURE, w).
Proof.
  intros Hargs Hopen. unfold psort. rewrite Hargs, Hopen. destruct (read_to_end_spec [] r) as (r' & -> & _). cbn [fst app].
  destruct (Nat.eqb_spec (length (content r) mod RECORD_SIZE) 0) as [Hm|Hm]; [|done]. cbn [negb].
  destruct (parallel_sort_spec nprocs (parse_records (content r))) as (sorted & -> & Hp & Hs & Hc).
  unfold merge_write. set (count := Nat.min _ _) in *. set (size := if length sorted =? 0 then 0 else _) in *.
  destruct (cursors_from_spec sorted count 0 size) as [Hrem Hend].
  destruct (merge_records_spec (length sorted) sorted (cursors_from count 0 size (length sorted)) w) as (out & w' & -> & Hw & Hperm & Hsorted).
  - apply Forall_and. split; [done|]. apply (proj1 (Forall_fmap (remaining sorted) (StronglySorted key_le) _)). rewrite Hrem. by apply Forall_fmap.
  - unfold all_remaining. rewrite Hrem. fold (ranges count size (length sorted)). by rewrite Hc.
  - exists out, w'. split_and!; [done..| |by apply parse_records_concat|done].
    rewrite Hperm, <-Hp. unfold all_remaining. rewrite Hrem. fold (ranges count size (length sorted)). by rewrite Hc.
Qed.
End program.

#[global] Instance key_le_dec : RelDecision key_le.
Proof. intros a b. unfold key_le. apply _. Defined.
#[global] Instance key_le_total : Total key_le.
Proof. intros a b. unfold key_le. lia. Qed.
#[global] Instance key_le_transitive : Transitive key_le.
Proof. intros a b c. apply key_le_trans. Qed.

(** Three records on two processors, with merge sort for the library's sort. *)
Lemma psort_sorts_witness :
  let rec_ k := [k; 0; 0; 0]%Z ++ replicate 96 k in
  let file := mkSrc (rec_ 3%Z ++ rec_ 1%Z ++ rec_ 2%Z) [Short 120; Intr] in
  (∀ l, merge_sort key_le l ≡ₚ l ∧ StronglySorted key_le (merge_sort key_le l)) ∧
  ∃ out w', psort (merge_sort key_le) 2 (Ok ()) (λ _, Ok file) [[112]; [97]]%Z (mkSink [] []) = (SUCCESS, w') ∧ written w' = [] ++ concat out ∧
    out ≡ₚ parse_records (content file) ∧ concat (parse_records (content file)) = content file ∧ StronglySorted key_le out.
Proof.
  intros rec_ file.
  assert (Hs : ∀ l, merge_sort key_le l ≡ₚ l ∧ StronglySorted key_le (merge_sort key_le l)).
  { intros l. split; [apply merge_sort_Permutation|apply StronglySorted_merge_sort; apply _]. }
  split; [exact Hs|].
  pose proof (psort_sorts (merge_sort key_le) Hs 2 (λ _, Ok file) [[112]; [97]]%Z [97%Z] file (mkSink [] []) eq_refl eq_refl) as Hc.
  exact Hc.
Defined.
