(* ===== verification/Shell.v ===== *)
(** * The shell: reading commands

    The lexer and the parser of [user/src/bin/sh.rs], the [for] loop and the
    cleaning of an input line.  A cursor into the token vector is the list of
    tokens that are left. *)

From stdpp Require Import base tactics numbers gmap list.
From S2P Require Import Prelude UserIo.
Local Open Scope Z_scope.

Inductive Op := Semi | Pipe | AndAnd | OrOr | Amp | RedirOut | RedirOutAppend | RedirIn.
Inductive Token := Word (w : Str) | TOp (o : Op).

Record OutputRedir := mkOutputRedir { out_path : Str; append : bool }.
Record Redir := mkRedir { input : option Str; output : option OutputRedir }.
Record SimpleCmd := mkSimpleCmd { argv : list Str; redir : Redir }.
Record Pipeline := mkPipeline { cmds : list SimpleCmd; background : bool }.
Inductive CondOp := And | Or.
Record CondItem := mkCondItem { op : option CondOp; pipeline : Pipeline }.
Record ForLoop := mkForLoop { var : Str; items : list Str; body : Str }.

Inductive Mode := Normal | Single | Double.

(** The messages of the parser. *)
Inductive ParseErr :=
| UnterminatedSingle | UnterminatedDouble | ExpectedInput | MultipleInput | ExpectedOutput | MultipleOutput
| EmptyCommand | UnexpectedOperator | MissingOperator
| ForMissingDo | ForMissingDone | ForBadOrder | ForEmptyBody | ForMissingVar | ForMissingIn | ForExpectedIn | ForMissingItems.

#[global] Instance Op_eq_dec : EqDecision Op.
Proof. solve_decision. Defined.
#[global] Instance Token_eq_dec : EqDecision Token.
Proof. solve_decision. Defined.

(** ** The lexer *)

Definition apply_escape (next : Z) : Z :=
  if next =? 110 then 10 else if next =? 116 then 9 else if next =? 114 then 13 else next.

(** [tokens.push(Word(take(&mut buf)))] when the buffer is not empty. *)
Definition flush_word (buf : Str) (ts : list Token) : list Token :=
  match buf with [] => ts | _ => Word buf :: ts end.

(** The loop of [tokenize]: the tokens that follow, from a mode and a buffer. *)
Fixpoint tok (mode : Mode) (buf : Str) (s : Str) {struct s} : outcome ParseErr (list Token) :=
  match s with
  | [] =>
      match mode with
      | Normal => Ok (flush_word buf [])
      | Single => Err UnterminatedSingle
      | Double => Err UnterminatedDouble
      end
  | ch :: s =>
      match mode with
      | Normal =>
          if is_whitespace ch then ts ← tok Normal [] s; Ok (flush_word buf ts)
          else if ch =? 39 then tok Single buf s
          else if ch =? 34 then tok Double buf s
          else if ch =? 92 then
            match s with
            | next :: s => tok Normal (buf ++ [apply_escape next]) s
            | [] => tok Normal (buf ++ [92]) s
            end
          else if ch =? 59 then ts ← tok Normal [] s; Ok (flush_word buf (TOp Semi :: ts))
          else if ch =? 124 then
            match s with
            | 124 :: s => ts ← tok Normal [] s; Ok (flush_word buf (TOp OrOr :: ts))
            | _ => ts ← tok Normal [] s; Ok (flush_word buf (TOp Pipe :: ts))
            end
          else if ch =? 38 then
            match s with
            | 38 :: s => ts ← tok Normal [] s; Ok (flush_word buf (TOp AndAnd :: ts))
            | _ => ts ← tok Normal [] s; Ok (flush_word buf (TOp Amp :: ts))
            end
          else if ch =? 62 then
            match s with
            | 62 :: s => ts ← tok Normal [] s; Ok (flush_word buf (TOp RedirOutAppend :: ts))
            | _ => ts ← tok Normal [] s; Ok (flush_word buf (TOp RedirOut :: ts))
            end
          else if ch =? 60 then ts ← tok Normal [] s; Ok (flush_word buf (TOp RedirIn :: ts))
          else tok Normal (buf ++ [ch]) s
      | Single => if ch =? 39 then tok Normal buf s else tok Single (buf ++ [ch]) s
      | Double =>
          if ch =? 34 then tok Normal buf s
          else if ch =? 92 then
            match s with
            | next :: s => tok Double (buf ++ [apply_escape next]) s
            | [] => tok Double (buf ++ [92]) s
            end
          else tok Double (buf ++ [ch]) s
      end
  end.
Definition tokenize (s : Str) : outcome ParseErr (list Token) := tok Normal [] s.

(** ** The parser *)

(** The loop of [parse_simple]: the command and the tokens left. *)
Fixpoint parse_simple_loop (args : list Str) (r : Redir) (tokens : list Token) {struct tokens} : outcome ParseErr (SimpleCmd * list Token) :=
  let finish := match args with [] => Err EmptyCommand | _ => Ok (mkSimpleCmd args r, tokens) end in
  match tokens with
  | Word w :: tokens => parse_simple_loop (args ++ [w]) r tokens
  | TOp RedirIn :: tokens =>
      match tokens with
      | Word path :: tokens =>
          match input r with
          | Some _ => Err MultipleInput
          | None => parse_simple_loop args (mkRedir (Some path) (output r)) tokens
          end
      | _ => Err ExpectedInput
      end
  | TOp RedirOut :: tokens =>
      match tokens with
      | Word path :: tokens =>
          match output r with
          | Some _ => Err MultipleOutput
          | None => parse_simple_loop args (mkRedir (input r) (Some (mkOutputRedir path false))) tokens
          end
      | _ => Err ExpectedOutput
      end
  | TOp RedirOutAppend :: tokens =>
      match tokens with
      | Word path :: tokens =>
          match output r with
          | Some _ => Err MultipleOutput
          | None => parse_simple_loop args (mkRedir (input r) (Some (mkOutputRedir path true))) tokens
          end
      | _ => Err ExpectedOutput
      end
  | _ => finish
  end.
Definition parse_simple (tokens : list Token) : outcome ParseErr (SimpleCmd * list Token) :=
  parse_simple_loop [] (mkRedir None None) tokens.

(** [parse_pipeline]; each turn consumes a token, so [fuel] is a bound on the
    tokens. *)
Fixpoint parse_pipeline_loop (fuel : nat) (cs : list SimpleCmd) (tokens : list Token) : outcome ParseErr (Pipeline * list Token) :=
  match fuel with
  | O => Panic
  | S fuel =>
      '(cmd, tokens) ← parse_simple tokens;
      match tokens with
      | TOp Pipe :: tokens => parse_pipeline_loop fuel (cs ++ [cmd]) tokens
      | _ => Ok (mkPipeline (cs ++ [cmd]) false, tokens)
      end
  end.
Definition parse_pipeline (tokens : list Token) : outcome ParseErr (Pipeline * list Token) :=
  parse_pipeline_loop (S (length tokens)) [] tokens.

(** The loop of [parse_line]. *)
Fixpoint parse_line_loop (fuel : nat) (sequences : list (list CondItem)) (chain : list CondItem) (pending : option CondOp)
    (tokens : list Token) : outcome ParseErr (list (list CondItem)) :=
  let finish := Ok (match chain with [] => sequences | _ => sequences ++ [chain] end) in
  match tokens, fuel with
  | [], _ => finish
  | _, O => Panic
  | _, S fuel =>
      '(p, tokens) ← parse_pipeline tokens;
      match tokens with
      | TOp Amp :: tokens =>
          parse_line_loop fuel (sequences ++ [chain ++ [mkCondItem pending (mkPipeline (cmds p) true)]]) [] None tokens
      | _ =>
          let chain := chain ++ [mkCondItem pending p] in
          match tokens with
          | [] => Ok (sequences ++ [chain])
          | TOp Semi :: tokens => parse_line_loop fuel (sequences ++ [chain]) [] None tokens
          | TOp AndAnd :: tokens => parse_line_loop fuel sequences chain (Some And) tokens
          | TOp OrOr :: tokens => parse_line_loop fuel sequences chain (Some Or) tokens
          | TOp _ :: _ => Err UnexpectedOperator
          | Word _ :: _ => Err MissingOperator
          end
      end
  end.
Definition parse_line (tokens : list Token) : outcome ParseErr (list (list CondItem)) :=
  parse_line_loop (length tokens) [] [] None tokens.

(** [pipeline_display]. *)
Definition join (sep : Str) (ws : list Str) : Str :=
  match ws with [] => [] | w :: ws => w ++ concat ((λ w, sep ++ w) <$> ws) end.
Definition pipeline_display (p : Pipeline) : Str :=
  join [32; 124; 32] ((λ c, join [32] (argv c)) <$> cmds p) ++ (if background p then [32; 38] else []).

(** ** The [for] loop and the input line *)

(** "for ", "; do " and "; done". *)
Definition FOR : Str := [102; 111; 114; 32].
Definition DO_MARKER : Str := [59; 32; 100; 111; 32].
Definition DONE_MARKER : Str := [59; 32; 100; 111; 110; 101].
Definition IN : Str := [105; 110].

(** [&s[a..b]], which panics unless [a <= b <= len]. *)
Definition str_slice (s : Str) (a b : nat) : outcome ParseErr Str :=
  if (a <=? b)%nat && (b <=? length s)%nat then Ok (take (b - a) (drop a s)) else Panic.

Definition parse_for_loop (line : Str) : outcome ParseErr (option ForLoop) :=
  let trimmed := str_trim line in
  if negb (starts_with FOR trimmed) then Ok None
  else
    match str_find DO_MARKER trimmed with
    | None => Err ForMissingDo
    | Some do_pos =>
        match str_rfind DONE_MARKER trimmed with
        | None => Err ForMissingDone
        | Some done_pos =>
            if (done_pos <? do_pos)%nat then Err ForBadOrder
            else
              header ← str_slice trimmed 4 do_pos;
              body ← str_slice trimmed (do_pos + length DO_MARKER) done_pos;
              let body := str_trim body in
              match body with
              | [] => Err ForEmptyBody
              | _ =>
                  match split_whitespace header with
                  | [] => Err ForMissingVar
                  | [_] => Err ForMissingIn
                  | var :: in_kw :: items =>
                      if negb (bool_decide (in_kw = IN)) then Err ForExpectedIn
                      else match items with [] => Err ForMissingItems | _ => Ok (Some (mkForLoop var items body)) end
                  end
              end
        end
    end.

(** The body of a [for] loop with its variable replaced by an item: first
    [${var}], then [$var]. *)
Definition replace_all (p w s : Str) : Str := str_replace (length s) p w s.
Definition for_body (l : ForLoop) (item : Str) : Str :=
  replace_all ([36] ++ var l) item (replace_all ([36; 123] ++ var l ++ [125]) item (body l)).

(** [normalize_input]: control characters are dropped, backspace and delete
    take back a character. *)
Fixpoint normalize_from (out : Str) (s : Str) : Str :=
  match s with
  | [] => out
  | ch :: s =>
      if (ch =? 8) || (ch =? 127) then normalize_from (removelast out) s
      else if is_ascii_control ch then normalize_from out s
      else normalize_from (out ++ [ch]) s
  end.
Definition normalize_input (s : Str) : Str := normalize_from [] s.
