(* ===== verification/ShellSpec.v ===== *)
(** * The shell's language

    Every command line that the syntax tree of [sh.rs] can express can be
    typed: printing a tree with quoted words and reading it back gives the
    tree.  The [for] loop never cuts a string out of range. *)

From stdpp Require Import base tactics numbers gmap list.
From S2P Require Import Prelude UserIo Shell.
Local Open Scope Z_scope.

(** ** Printing *)

(** A character inside double quotes, and a quoted word. *)
Definition print_char (c : Z) : Str := if (c =? 34) || (c =? 92) then [92; c] else [c].
Definition quote (w : Str) : Str := [34] ++ concat (print_char <$> w) ++ [34].

Definition print_op (o : Op) : Str :=
  match o with
  | Semi => [59] | Pipe => [124] | AndAnd => [38; 38] | OrOr => [124; 124] | Amp => [38]
  | RedirOut => [62] | RedirOutAppend => [62; 62] | RedirIn => [60]
  end.
Definition print_token (t : Token) : Str := (match t with Word w => quote w | TOp o => print_op o end) ++ [32].
Definition print_tokens (ts : list Token) : Str := concat (print_token <$> ts).

(** The tokens of a tree.  A chain is followed by [;] unless it runs in the
    background. *)
Definition redir_tokens (r : Redir) : list Token :=
  match input r with Some p => [TOp RedirIn; Word p] | None => [] end ++
  match output r with
  | Some o => [TOp (if append o then RedirOutAppend else RedirOut); Word (out_path o)]
  | None => []
  end.
Definition simple_tokens (c : SimpleCmd) : list Token := (Word <$> argv c) ++ redir_tokens (redir c).
Fixpoint cmds_tokens (cs : list SimpleCmd) : list Token :=
  match cs with
  | [] => []
  | [c] => simple_tokens c
  | c :: cs => simple_tokens c ++ TOp Pipe :: cmds_tokens cs
  end.
Definition item_tokens (i : CondItem) : list Token :=
  match op i with Some And => [TOp AndAnd] | Some Or => [TOp OrOr] | None => [] end ++
  cmds_tokens (cmds (pipeline i)) ++ (if background (pipeline i) then [TOp Amp] else []).
Definition chain_tokens (ch : list CondItem) : list Token :=
  concat (item_tokens <$> ch) ++
  match last ch with Some i => if background (pipeline i) then [] else [TOp Semi] | None => [] end.
Definition line_tokens (l : list (list CondItem)) : list Token := concat (chain_tokens <$> l).

(** ** Well-formed trees *)

Definition simple_ok (c : SimpleCmd) : Prop :=
  argv c ≠ [] ∧ Forall (λ w, w ≠ []) (argv c) ∧ (∀ p, input (redir c) = Some p → p ≠ []) ∧
  (∀ o, output (redir c) = Some o → out_path o ≠ []).
Definition pipeline_ok (p : Pipeline) : Prop := cmds p ≠ [] ∧ Forall simple_ok (cmds p).

(** The items after the first of a chain: linked, and only the last in the
    background. *)
Fixpoint items_ok (l : list CondItem) : Prop :=
  match l with
  | [] => True
  | i :: l => pipeline_ok (pipeline i) ∧ op i ≠ None ∧ (l ≠ [] → background (pipeline i) = false) ∧ items_ok l
  end.
Definition chain_ok (ch : list CondItem) : Prop :=
  match ch with
  | [] => False
  | i :: l => pipeline_ok (pipeline i) ∧ op i = None ∧ (l ≠ [] → background (pipeline i) = false) ∧ items_ok l
  end.

(** ** Lexing what was printed *)

Lemma tok_double w buf s : tok Double buf (concat (print_char <$> w) ++ 34 :: s) = tok Normal (buf ++ w) s.
Proof.
  revert buf. induction w as [|c w IH]; intros buf; [simpl; by rewrite app_nil_r|].
  rewrite fmap_cons. unfold print_char at 1. destruct ((c =? 34) || (c =? 92)) eqn:E; simpl.
  - rewrite IH, <-app_assoc. do 3 f_equal. unfold apply_escape.
    apply orb_true_iff in E as [E|E]; apply Z.eqb_eq in E as ->; done.
  - apply orb_false_iff in E as [-> ->]. by rewrite IH, <-app_assoc.
Qed.

Lemma tok_word w s : w ≠ [] → tok Normal [] (quote w ++ 32 :: s) = ts ← tok Normal [] s; Ok (Word w :: ts).
Proof.
  intros Hw. unfold quote. rewrite <-!app_assoc. cbn [app]. cbn [tok is_whitespace]. simpl. rewrite tok_double. simpl. by destruct w.
Qed.

Definition token_ok (t : Token) : Prop := match t with Word w => w ≠ [] | TOp _ => True end.

Lemma tokenize_print ts : Forall token_ok ts → tokenize (print_tokens ts) = Ok ts.
Proof.
  unfold tokenize, print_tokens. induction 1 as [|t ts Ht Hts IH]; [done|]. rewrite fmap_cons. cbn [concat]. unfold print_token at 1.
  destruct t as [w|o]; rewrite <-app_assoc; cbn [app].
  - rewrite tok_word by done. by rewrite IH.
  - destruct o; simpl; by rewrite IH.
Qed.

(** ** Parsing the tokens of a tree *)

(** No token that would continue a simple command. *)
Definition ends_simple (ts : list Token) : bool :=
  match ts with
  | [] | TOp (Semi | Pipe | AndAnd | OrOr | Amp) :: _ => true
  | _ => false
  end.

Lemma parse_simple_words args ws r ts :
  parse_simple_loop args r ((Word <$> ws) ++ ts) = parse_simple_loop (args ++ ws) r ts.
Proof.
  revert args. induction ws as [|w ws IH]; intros args; [by rewrite app_nil_r|]. simpl. by rewrite IH, <-app_assoc.
Qed.

Lemma parse_simple_tokens c ts :
  simple_ok c → ends_simple ts = true → parse_simple (simple_tokens c ++ ts) = Ok (c, ts).
Proof.
  destruct c as [args [i o]]. intros (Ha & _) He. unfold parse_simple, simple_tokens, redir_tokens. simpl in *.
  rewrite <-!app_assoc, parse_simple_words. cbn [app].
  assert (Hend : ∀ r, parse_simple_loop args r ts = Ok (mkSimpleCmd args r, ts)).
  { intros r. destruct ts as [|[w|[]] ts]; try done; destruct args; done. }
  destruct i as [i|], o as [[p []]|]; simpl; by rewrite Hend.
Qed.

Lemma simple_tokens_pos c : simple_ok c → (0 < length (simple_tokens c))%nat.
Proof. intros (Ha & _). unfold simple_tokens. rewrite length_app, length_fmap. destruct (argv c); [done|simpl; lia]. Qed.

(** Not a simple command and not a pipe. *)
Definition ends_pipeline (ts : list Token) : bool :=
  ends_simple ts && match ts with TOp Pipe :: _ => false | _ => true end.

Lemma parse_pipeline_cmds cs fuel pre ts :
  cs ≠ [] → Forall simple_ok cs → ends_pipeline ts = true → (length cs ≤ fuel)%nat →
  parse_pipeline_loop fuel pre (cmds_tokens cs ++ ts) = Ok (mkPipeline (pre ++ cs) false, ts).
Proof.
  revert fuel pre. induction cs as [|c cs IH]; intros fuel pre Hne Hcs He Hf; [done|].
  apply Forall_cons_1 in Hcs as [Hc Hcs]. apply andb_true_iff in He as [Hs Hp].
  destruct fuel as [|fuel]; [simpl in Hf; lia|]. cbn [parse_pipeline_loop]. destruct cs as [|c' cs].
  - cbn [cmds_tokens]. rewrite (parse_simple_tokens c ts) by done. bind_simpl.
    by destruct ts as [|[w|[]] ts].
  - change (cmds_tokens (c :: c' :: cs)) with (simple_tokens c ++ TOp Pipe :: cmds_tokens (c' :: cs)). rewrite <-app_assoc.
    rewrite (parse_simple_tokens c) by done. bind_simpl. cbn [app]. rewrite IH; [by rewrite <-app_assoc|done|done|by apply andb_true_iff|simpl in *; lia].
Qed.

Lemma cmds_length cs : Forall simple_ok cs → (length cs ≤ length (cmds_tokens cs))%nat.
Proof.
  induction 1 as [|c [|c' cs] Hc Hcs IH]; [done|..]; pose proof (simple_tokens_pos c Hc); [cbn [length cmds_tokens] in *; lia|].
  change (cmds_tokens (c :: c' :: cs)) with (simple_tokens c ++ TOp Pipe :: cmds_tokens (c' :: cs)). rewrite length_app. cbn [length] in *. lia.
Qed.

Lemma parse_pipeline_tokens p ts :
  pipeline_ok p → ends_pipeline ts = true → parse_pipeline (cmds_tokens (cmds p) ++ ts) = Ok (mkPipeline (cmds p) false, ts).
Proof.
  intros [Hne Hok] He. unfold parse_pipeline. rewrite parse_pipeline_cmds; [done..|].
  rewrite length_app. pose proof (cmds_length _ Hok). lia.
Qed.

Lemma pipeline_tokens_cons p : pipeline_ok p → ∃ t ts, cmds_tokens (cmds p) = t :: ts.
Proof.
  intros [Hne Hok]. pose proof (cmds_length _ Hok). destruct (cmds p) as [|c cs]; [done|].
  destruct (cmds_tokens (c :: cs)) as [|t ts]; [simpl in *; lia|eauto].
Qed.

Lemma parse_line_cons fuel seqs ch pend t ts :
  parse_line_loop (S fuel) seqs ch pend (t :: ts) =
  '(p, tokens) ← parse_pipeline (t :: ts);
  match tokens with
  | TOp Amp :: tokens => parse_line_loop fuel (seqs ++ [ch ++ [mkCondItem pend (mkPipeline (cmds p) true)]]) [] None tokens
  | _ =>
      let chain := ch ++ [mkCondItem pend p] in
      match tokens with
      | [] => Ok (seqs ++ [chain])
      | TOp Semi :: tokens => parse_line_loop fuel (seqs ++ [chain]) [] None tokens
      | TOp AndAnd :: tokens => parse_line_loop fuel seqs chain (Some And) tokens
      | TOp OrOr :: tokens => parse_line_loop fuel seqs chain (Some Or) tokens
      | TOp _ :: _ => Err UnexpectedOperator
      | Word _ :: _ => Err MissingOperator
      end
  end.
Proof. done. Qed.

(** One pipeline of a chain: [rest] is what follows it. *)
Lemma parse_line_pipeline fuel seqs ch pend p rest :
  pipeline_ok p → ends_pipeline rest = true →
  parse_line_loop (S fuel) seqs ch pend (cmds_tokens (cmds p) ++ rest) =
  match rest with
  | TOp Amp :: tokens => parse_line_loop fuel (seqs ++ [ch ++ [mkCondItem pend (mkPipeline (cmds p) true)]]) [] None tokens
  | _ =>
      let chain := ch ++ [mkCondItem pend (mkPipeline (cmds p) false)] in
      match rest with
      | [] => Ok (seqs ++ [chain])
      | TOp Semi :: tokens => parse_line_loop fuel (seqs ++ [chain]) [] None tokens
      | TOp AndAnd :: tokens => parse_line_loop fuel seqs chain (Some And) tokens
      | TOp OrOr :: tokens => parse_line_loop fuel seqs chain (Some Or) tokens
      | TOp _ :: _ => Err UnexpectedOperator
      | Word _ :: _ => Err MissingOperator
      end
  end.
Proof.
  intros Hp He. destruct (pipeline_tokens_cons p Hp) as (t & ts & E). pose proof (parse_pipeline_tokens p rest Hp He) as Hpp.
  rewrite E in *. cbn [app] in *. rewrite parse_line_cons, Hpp. bind_simpl. done.
Qed.

Definition chain_end (ch : list CondItem) : list Token :=
  match last ch with Some i => if background (pipeline i) then [] else [TOp Semi] | None => [] end.

Lemma item_eta i b : background (pipeline i) = b → mkCondItem (op i) (mkPipeline (cmds (pipeline i)) b) = i.
Proof. destruct i as [o [cs bg]]. by intros <-. Qed.

(** A chain from its first pipeline on, with what follows it. *)
Lemma parse_items l i fuel seqs ch rest :
  pipeline_ok (pipeline i) → (l ≠ [] → background (pipeline i) = false) → items_ok l →
  parse_line_loop (S (length l) + fuel) seqs ch (op i)
    (cmds_tokens (cmds (pipeline i)) ++ (if background (pipeline i) then [TOp Amp] else []) ++
     concat (item_tokens <$> l) ++ chain_end (i :: l) ++ rest)
  = parse_line_loop fuel (seqs ++ [ch ++ i :: l]) [] None rest.
Proof.
  revert i ch. induction l as [|i' l IH]; intros i ch Hp Hb Hl; cbn [Nat.add length].
  - cbn [fmap list_fmap concat chain_end last]. unfold chain_end. cbn [last]. destruct (background (pipeline i)) eqn:E; cbn [app].
    + rewrite parse_line_pipeline by done. by rewrite item_eta.
    + rewrite parse_line_pipeline by done. by rewrite item_eta.
  - rewrite Hb by done. destruct Hl as (Hp' & Ho & Hb' & Hl). rewrite fmap_cons. cbn [concat app].
    unfold item_tokens at 1. rewrite <-!app_assoc. cbn [app].
    change (chain_end (i :: i' :: l)) with (chain_end (i' :: l)).
    specialize (IH i' (ch ++ [i]) Hp' Hb' Hl). rewrite <-(app_assoc ch) in IH. cbn [app] in IH. rewrite <-IH. clear IH.
    destruct (op i') as [[]|]; [| |done]; cbn [app]; rewrite parse_line_pipeline by done; by rewrite item_eta by by apply Hb.
Qed.

Lemma parse_chains l fuel seqs :
  Forall chain_ok l → (length (concat l) ≤ fuel)%nat →
  parse_line_loop fuel seqs [] None (line_tokens l) = Ok (seqs ++ l).
Proof.
  revert fuel seqs. induction l as [|ch l IH]; intros fuel seqs Hl Hf.
  - rewrite app_nil_r. unfold line_tokens. simpl. by destruct fuel.
  - apply Forall_cons_1 in Hl as [Hch Hl]. destruct ch as [|i is_]; [done|]. destruct Hch as (Hp & Ho & Hb & His).
    unfold line_tokens. rewrite fmap_cons. cbn [concat]. fold (line_tokens l). unfold chain_tokens.
    fold (chain_end (i :: is_)). rewrite fmap_cons. cbn [concat]. unfold item_tokens at 1. rewrite Ho, <-!app_assoc. cbn [app].
    cbn [concat] in Hf. rewrite length_app in Hf. cbn [length] in Hf.
    replace fuel with (S (length is_) + (fuel - S (length is_)))%nat by lia.
    rewrite <-Ho at 1. rewrite parse_items by done. rewrite IH by (done || lia). by rewrite <-app_assoc.
Qed.

(** ** Claims *)

Lemma line_token_count l : Forall chain_ok l → (length (concat l) ≤ length (line_tokens l))%nat.
Proof.
  assert (Hi : ∀ i, pipeline_ok (pipeline i) → (1 ≤ length (item_tokens i))%nat).
  { intros i Hp. destruct (pipeline_tokens_cons _ Hp) as (t & ts & E). unfold item_tokens. rewrite !length_app, E. simpl. lia. }
  assert (His : ∀ l, items_ok l → (length l ≤ length (concat (item_tokens <$> l)))%nat).
  { induction l0 as [|i l0 IH]; [done|]. intros (Hp & _ & _ & Hl). rewrite fmap_cons. cbn [concat length].
    rewrite length_app. specialize (Hi i Hp). specialize (IH Hl). lia. }
  induction 1 as [|ch l Hch Hl IH]; [done|]. unfold line_tokens in *. rewrite fmap_cons. cbn [concat].
  rewrite !length_app. destruct ch as [|i l0]; [done|]. destruct Hch as (Hp & _ & _ & Hl0).
  unfold chain_tokens at 1. rewrite fmap_cons. cbn [concat length]. rewrite !length_app. specialize (Hi i Hp). specialize (His l0 Hl0). lia.
Qed.

Lemma tokens_ok l : Forall chain_ok l → Forall token_ok (line_tokens l).
Proof.
  assert (Hs : ∀ c, simple_ok c → Forall token_ok (simple_tokens c)).
  { intros [args [i o]] (_ & Ha & Hi & Ho). unfold simple_tokens, redir_tokens. simpl in *. rewrite !Forall_app. split_and!.
    - by apply Forall_fmap.
    - destruct i; [|done]. repeat constructor. by apply Hi.
    - destruct o as [[p a]|]; [|done]. repeat constructor. by apply (Ho (mkOutputRedir p a)). }
  assert (Hc : ∀ cs, Forall simple_ok cs → Forall token_ok (cmds_tokens cs)).
  { induction 1 as [|c [|c' cs] Hok Hcs IH]; [done|by apply Hs|].
    change (cmds_tokens (c :: c' :: cs)) with (simple_tokens c ++ TOp Pipe :: cmds_tokens (c' :: cs)).
    apply Forall_app. split; [by apply Hs|]. by constructor. }
  assert (Hi : ∀ i, pipeline_ok (pipeline i) → Forall token_ok (item_tokens i)).
  { intros i [_ Hp]. unfold item_tokens. rewrite !Forall_app. split_and!; [|by apply Hc|].
    - destruct (op i) as [[]|]; by repeat constructor.
    - destruct (background (pipeline i)); by repeat constructor. }
  assert (His : ∀ is_, items_ok is_ → Forall token_ok (concat (item_tokens <$> is_))).
  { induction is_ as [|i is_ IH]; [done|]. intros (Hp & _ & _ & Hl). rewrite fmap_cons. cbn [concat]. apply Forall_app. auto. }
  induction 1 as [|ch l Hch Hl IH]; [done|]. unfold line_tokens in *. rewrite fmap_cons. cbn [concat]. apply Forall_app. split; [|done].
  destruct ch as [|i is_]; [done|]. destruct Hch as (Hp & _ & _ & Hl0). unfold chain_tokens. rewrite fmap_cons. cbn [concat].
  rewrite !Forall_app. split_and!; [by apply Hi|by apply His|]. fold (chain_end (i :: is_)). unfold chain_end.
  destruct (last (i :: is_)) as [j|]; [|done]. destruct (background (pipeline j)); by repeat constructor.
Qed.

(** C34: Every command line of the syntax whose words and file names are not
    empty can be typed: the printed form of a tree (chains of [&&] and [||],
    pipelines, redirections, background jobs that end their chain; words
    quoted, with any characters in them) is read back by [tokenize] and
    [parse_line] as that tree.  An empty word cannot be typed (see [empty_argument_lost]). *)
Theorem shell_syntax_roundtrip l :
  Forall chain_ok l → (ts ← tokenize (print_tokens (line_tokens l)); parse_line ts) = Ok l.
Proof.
  intros Hl. rewrite tokenize_print by by apply tokens_ok. bind_simpl. unfold parse_line.
  by rewrite parse_chains by (done || by apply line_token_count).
Qed.

(** [cat "a b" < f | wc >> g && ls & true], with a quote in a word. *)
Definition demo_line : list (list CondItem) :=
  let cmd ws := mkSimpleCmd ws (mkRedir None None) in
  [ [ mkCondItem None (mkPipeline [mkSimpleCmd [[99; 97; 116]; [97; 32; 34]] (mkRedir (Some [102]) None);
                                   mkSimpleCmd [[119; 99]] (mkRedir None (Some (mkOutputRedir [103] true)))] false);
      mkCondItem (Some And) (mkPipeline [cmd [[108; 115]]] true) ];
    [ mkCondItem None (mkPipeline [cmd [[116]]] false) ] ].

Lemma demo_line_ok : Forall chain_ok demo_line.
Proof.
  assert (Hs : ∀ ws i o, ws ≠ [] → Forall (λ w, w ≠ []) ws → (∀ p, i = Some p → p ≠ []) → (∀ q, o = Some q → out_path q ≠ []) →
    simple_ok (mkSimpleCmd ws (mkRedir i o))) by (intros; split_and!; assumption).
  repeat first [apply Forall_cons; split | apply Forall_nil; exact I | split | apply Hs | discriminate
    | intros ? [= <-]; discriminate | reflexivity | exact I | intros []; reflexivity ].
Qed.

Lemma shell_syntax_roundtrip_witness :
  Forall chain_ok demo_line ∧ (ts ← tokenize (print_tokens (line_tokens demo_line)); parse_line ts) = Ok demo_line.
Proof. split; [exact demo_line_ok|exact (shell_syntax_roundtrip demo_line demo_line_ok)]. Defined.

(** ** The [for] loop *)

Lemma pattern_at (s a p t : Str) j c : s = a ++ p ++ t → p !! j = Some c → s !! (length a + j)%nat = Some c.
Proof.
  intros -> Hj. rewrite lookup_app_r by lia. replace (length a + j - length a)%nat with j by lia. by apply lookup_app_l_Some.
Qed.

(** C35: Reading a [for] loop never cuts a string out of range, so no line
    makes the shell panic: the body starts after [; do ] and ends at the last
    [; done], which cannot overlap. *)
Theorem parse_for_loop_safe line : parse_for_loop line ≠ Panic.
Proof.
  unfold parse_for_loop. set (s := str_trim line). destruct (starts_with FOR s) eqn:Hfor; [|done]. cbn [negb].
  destruct (str_find DO_MARKER s) as [d|] eqn:Hd; [|done]. destruct (str_rfind DONE_MARKER s) as [e|] eqn:He; [|done].
  destruct (Nat.ltb_spec e d) as [|Hle]; [done|].
  apply starts_with_spec in Hfor as [t Ht]. apply str_find_Some in Hd as (a & t1 & Ha & <-). apply str_rfind_Some in He as (b & t2 & Hb & <-).
  pose proof (λ j c, pattern_at s [] FOR t j c Ht) as Lfor. pose proof (λ j c, pattern_at s a DO_MARKER t1 j c Ha) as Ldo.
  pose proof (λ j c, pattern_at s b DONE_MARKER t2 j c Hb) as Ldone. cbn [length Nat.add] in Lfor.
  assert (Hd4 : (4 ≤ length a)%nat).
  { destruct (Nat.le_gt_cases 4 (length a)) as [|Hlt]; [done|]. exfalso. specialize (Ldo 0%nat 59 eq_refl). rewrite Nat.add_0_r in Ldo.
    assert (∃ c, FOR !! length a = Some c ∧ c ≠ 59) as (c & Hc & Hne).
    { destruct (length a) as [|[|[|[|n]]]]; [..|lia]; eexists; (split; [reflexivity|done]). }
    rewrite (Lfor _ _ Hc) in Ldo. congruence. }
  assert (He5 : (length a + 5 ≤ length b)%nat).
  { destruct (Nat.le_gt_cases (length a + 5) (length b)) as [|Hlt]; [done|]. exfalso.
    destruct (Nat.eq_dec (length b) (length a)) as [Heq|Hne].
    - specialize (Ldone 4%nat 110 eq_refl). specialize (Ldo 4%nat 32 eq_refl). rewrite Heq in Ldone. congruence.
    - specialize (Ldone 0%nat 59 eq_refl). assert (∃ k, length b = length a + S k ∧ (k < 4)%nat)%nat as (k & Hk & Hk4) by (exists (length b - length a - 1)%nat; lia).
      assert (∃ c, DO_MARKER !! S k = Some c ∧ c ≠ 59) as (c & Hc & Hne').
      { destruct k as [|[|[|[|k]]]]; [..|lia]; eexists; (split; [reflexivity|done]). }
      rewrite Hk, Nat.add_0_r, (Ldo _ _ Hc) in Ldone. congruence. }
  assert (Hlen : (length b + 6 ≤ length s)%nat) by (rewrite Hb, !length_app; simpl; lia).
  unfold str_slice. rewrite !(proj2 (Nat.leb_le _ _)) by (simpl; lia). simpl. repeat case_match; done.
Qed.
