(* ===== verification/ShellRun.v ===== *)
(** * The shell: running commands

    Jobs, builtins, pipelines and lines of [user/src/bin/sh.rs].  The calls
    into the system are the class [ShellSys]; [say] records what is printed.
    A loop that retries an interrupted call runs as long as [interrupts]
    allows. *)

From stdpp Require Import base tactics numbers gmap list.
From S2P Require Import Prelude Errors Strs UserIo Shell Signal.
Local Open Scope Z_scope.

(** [Stdio] of a command that is spawned. *)
Inductive Stdio := Inherit | MakePipe | Fd (fd : Z).
Record Spawn := mkSpawn {
  sp_argv : list Str; sp_pgrp : Z; sp_foreground : bool; sp_stdin : Stdio; sp_stdout : Stdio;
}.

Inductive Msg :=
| MStopped (id : Z) (cmd : Str) | MDone (id : Z) (cmd : Str) | MJob (id : Z) (stopped : bool) (cmd : Str)
| MStarted (id pgid : Z) | MError (e : Error) | MVar (k v : Str) | MText (n : nat) | MParse (e : ParseErr).

Class ShellSys (Y : Type) := {
  sys_waitpid : Z → bool → M Error Y (Z * Z);     (* [WNOHANG] or not, always [WUNTRACED]; pid and status *)
  sys_kill : Z → Z → M Error Y ();
  sys_setpgid : Z → Z → M Error Y ();
  sys_tcsetpgrp : Z → M Error Y ();
  sys_sleep : M Error Y ();
  sys_chdir : Str → M Error Y ();
  sys_open_in : Str → M Error Y Z;
  sys_open_out : Str → bool → M Error Y Z;
  sys_spawn : Spawn → M Error Y (Z * option Z);    (* pid, read end of a new pipe *)
  say : Msg → Y → Y;
  interrupts : Y → nat;
}.

(** ** Jobs *)

Record Job := mkJob { j_id : Z; j_pgid : Z; j_pids : list Z; j_last_pid : Z; j_cmd : Str; j_stopped : bool }.

Definition status_stopped (status : Z) : option Z :=
  if Z.land status 0xff =? 0x7f then Some (Z.land (Z.shiftr status 8) 0xff) else None.
Definition exit_status_code (status : Z) : Z :=
  match status_stopped status with
  | Some _ => 1
  | None => if Z.land status 0xff =? 0 then Z.land (Z.shiftr status 8) 0xff else 1
  end.

(** [str::parse::<usize>]: an optional [+], then digits, without overflow. *)
Fixpoint parse_digits (acc : Z) (s : Str) : option Z :=
  match s with
  | [] => Some acc
  | c :: s =>
      if (48 <=? c) && (c <=? 57) then
        let v := acc * 10 + (c - 48) in if v <=? USIZE_MAX then parse_digits v s else None
      else None
  end.
Definition parse_usize (s : Str) : option Z :=
  match s with
  | [] => None
  | 43 :: [] => None
  | 43 :: s => parse_digits 0 s
  | s => parse_digits 0 s
  end.

Definition parse_job_id (arg : option Str) (jobs : list Job) : option Z :=
  match arg with
  | Some raw => parse_usize (trim_start 37 raw)
  | None => j_id <$> last jobs
  end.

Section run.
Context {Y : Type} `{ShellSys Y}.

(** The shell: its jobs, the next job number, its environment, the system. *)
Record Sh := mkSh { jobs : list Job; next_job_id : Z; env : Environ; sys : Y }.

Abbreviation SM := (M Error Sh).
Definition on_sys {A} (m : M Error Y A) : SM A := λ s, let '(r, y) := m (sys s) in (r, mkSh (jobs s) (next_job_id s) (env s) y).
Definition put_jobs (l : list Job) : SM () := λ s, (Ok (), mkSh l (next_job_id s) (env s) (sys s)).
Definition put_env (e : Environ) : SM () := λ s, (Ok (), mkSh (jobs s) (next_job_id s) e (sys s)).
Definition print (m : Msg) : SM () := λ s, (Ok (), mkSh (jobs s) (next_job_id s) (env s) (say m (sys s))).
(** [let _ = f()]: an error is ignored. *)
Definition ignore_err {A} (m : SM A) : SM () := λ s, match m s with (Panic, s) => (Panic, s) | (_, s) => (Ok (), s) end.
(** [match f()]: an error is handled. *)
Definition attempt {A} (m : SM A) : SM (A + Error) := λ s,
  match m s with (Ok a, s) => (Ok (inl a), s) | (Err e, s) => (Ok (inr e), s) | (Panic, s) => (Panic, s) end.

(** The inner loop of [reap_jobs]: the processes kept and whether one
    stopped. *)
Fixpoint reap_pids (pids : list Z) : SM (list Z * bool) :=
  match pids with
  | [] => mret ([], false)
  | pid :: pids =>
      r ← attempt (on_sys (sys_waitpid pid true));
      match r with
      | inl (0, _) | inr _ => '(l, st) ← reap_pids pids; mret (pid :: l, st)
      | inl (_, status) =>
          match status_stopped status with
          | Some _ => '(l, _) ← reap_pids pids; mret (pid :: l, true)
          | None => reap_pids pids
          end
      end
  end.
(** [reap_jobs]: the jobs that are left of [todo]. *)
Fixpoint reap_loop (todo : list Job) : SM (list Job) :=
  match todo with
  | [] => mret []
  | j :: todo =>
      '(pids, stopped) ← reap_pids (j_pids j);
      let j := mkJob (j_id j) (j_pgid j) pids (j_last_pid j) (j_cmd j) (j_stopped j || stopped) in
      _ ← (if (stopped : bool) then print (MStopped (j_id j) (j_cmd j)) else mret ());
      match pids with
      | [] => _ ← print (MDone (j_id j) (j_cmd j)); reap_loop todo
      | _ => l ← reap_loop todo; mret (j :: l)
      end
  end.
Definition reap_jobs : SM () := s ← m_get; l ← reap_loop (jobs s); put_jobs l.

(** [wait_foreground]: the job after the wait, whether it stopped, and the
    status. *)
Fixpoint wait_loop (fuel : nat) (j : Job) (last_status : Z) : SM (Job * bool * Z) :=
  match j_pids j, fuel with
  | [], _ => mret (j, false, last_status)
  | _, O => m_panic
  | pid :: rest, S fuel =>
      r ← attempt (on_sys (sys_waitpid pid false));
      match r with
      | inl (_, status) =>
          match status_stopped status with
          | Some _ => mret (mkJob (j_id j) (j_pgid j) (j_pids j) (j_last_pid j) (j_cmd j) true, true, 1)
          | None =>
              wait_loop fuel (mkJob (j_id j) (j_pgid j) rest (j_last_pid j) (j_cmd j) (j_stopped j))
                (if pid =? j_last_pid j then exit_status_code status else last_status)
          end
      | inr Interrupted => _ ← ignore_err (on_sys sys_sleep); wait_loop fuel j last_status
      | inr e => m_err e
      end
  end.
Definition wait_foreground (j : Job) : SM (Job * bool * Z) := λ s, wait_loop (length (j_pids j) + interrupts (sys s)) j 1 s.

(** ** Builtins *)

Inductive BuiltinResult := Status (status : Z) | Exit.

Definition TRUE : Str := [116; 114; 117; 101].
Definition FALSE : Str := [102; 97; 108; 115; 101].
Definition CD : Str := [99; 100].
Definition EXPORT : Str := [101; 120; 112; 111; 114; 116].
Definition JOBS : Str := [106; 111; 98; 115].
Definition FG : Str := [102; 103].
Definition BG : Str := [98; 103].
Definition EXIT : Str := [101; 120; 105; 116].

Definition run_cd (args : list Str) : SM BuiltinResult :=
  r ← attempt (on_sys (sys_chdir (default [47] (args !! 1%nat))));
  match r with inl _ => mret (Status 0) | inr e => _ ← print (MError e); mret (Status 1) end.

(** The loop of [export] over its arguments. *)
Fixpoint export_loop (args : list Str) (status : Z) : SM Z :=
  match args with
  | [] => mret status
  | arg :: args =>
      match split_once 61 arg with
      | Some (key, value) =>
          s ← m_get;
          match set_var key value (env s) with
          | (Ok _, e) => _ ← put_env e; export_loop args status
          | (Err err, e) => _ ← put_env e; _ ← print (MError err); export_loop args 1
          | (Panic, e) => m_panic
          end
      | None => _ ← print (MText 0); export_loop args 1
      end
  end.
Definition run_export (args : list Str) : SM BuiltinResult :=
  if match args !! 1%nat with None => true | Some a => bool_decide (a = [45; 112]) end then
    s ← m_get;
    _ ← m_for (vars (env s)) (λ kv, print (MVar kv.1 kv.2));
    mret (Status 0)
  else st ← export_loop (drop 1 args) 0; mret (Status st).

(** [SIGCONT] to the processes of a stopped job. *)
Definition continue_job (j : Job) : SM Job :=
  if j_stopped j then
    _ ← m_for (j_pids j) (λ pid, ignore_err (on_sys (sys_kill pid SIGCONT)));
    mret (mkJob (j_id j) (j_pgid j) (j_pids j) (j_last_pid j) (j_cmd j) false)
  else mret j.

Fixpoint position (id : Z) (l : list Job) : option nat :=
  match l with [] => None | j :: l => if j_id j =? id then Some 0%nat else S <$> position id l end.

Definition run_fg (args : list Str) (shell_pgid : Z) : SM BuiltinResult :=
  s ← m_get;
  match parse_job_id (args !! 1%nat) (jobs s) with
  | None => _ ← print (MText 1); mret (Status 1)
  | Some id =>
      match position id (jobs s) with
      | None => _ ← print (MText 2); mret (Status 1)
      | Some pos =>
          match jobs s !! pos with
          | None => m_panic
          | Some j =>
              _ ← put_jobs (delete pos (jobs s));
              j ← continue_job j;
              _ ← ignore_err (on_sys (sys_tcsetpgrp (j_pgid j)));
              r ← attempt (wait_foreground j);
              _ ← ignore_err (on_sys (sys_tcsetpgrp shell_pgid));
              match r with
              | inl (j, true, _) =>
                  _ ← print (MStopped (j_id j) (j_cmd j)); s ← m_get; _ ← put_jobs (jobs s ++ [j]); mret (Status 1)
              | inl (_, false, status) => mret (Status status)
              | inr e => _ ← print (MError e); mret (Status 1)
              end
          end
      end
  end.
Definition run_bg (args : list Str) : SM BuiltinResult :=
  s ← m_get;
  match parse_job_id (args !! 1%nat) (jobs s) with
  | None => _ ← print (MText 3); mret (Status 1)
  | Some id =>
      match position id (jobs s) with
      | None => _ ← print (MText 4); mret (Status 1)
      | Some pos =>
          match jobs s !! pos with
          | None => m_panic
          | Some j =>
              j ← continue_job j;
              _ ← put_jobs (<[pos := j]> (jobs s));
              _ ← print (MJob (j_id j) false (j_cmd j));
              mret (Status 0)
          end
      end
  end.

Definition run_builtin (cmd : SimpleCmd) (shell_pgid : Z) : SM (option BuiltinResult) :=
  match argv cmd with
  | [] => mret None
  | command :: _ =>
      if bool_decide (command = TRUE) then mret (Some (Status 0))
      else if bool_decide (command = FALSE) then mret (Some (Status 1))
      else if bool_decide (command = CD) then r ← run_cd (argv cmd); mret (Some r)
      else if bool_decide (command = EXPORT) then r ← run_export (argv cmd); mret (Some r)
      else if bool_decide (command = JOBS) then
        s ← m_get; _ ← m_for (jobs s) (λ j, print (MJob (j_id j) (j_stopped j) (j_cmd j))); mret (Some (Status 0))
      else if bool_decide (command = FG) then r ← run_fg (argv cmd) shell_pgid; mret (Some r)
      else if bool_decide (command = BG) then r ← run_bg (argv cmd); mret (Some r)
      else if bool_decide (command = EXIT) then mret (Some Exit)
      else mret None
  end.

(** ** Pipelines *)

Definition bad_redirect (p : Pipeline) : option nat :=
  let n := length (cmds p) in
  let bad i c :=
    if negb (bool_decide (input (redir c) = None)) && negb (i =? 0)%nat then Some 5%nat
    else if negb (bool_decide (output (redir c) = None)) && (i + 1 <? n)%nat then Some 6%nat else None in
  head (omap (λ ic, bad ic.1 ic.2) (zip (seq 0 n) (cmds p))).

(** The loop of [run_pipeline] over the commands from the [i]-th on: the
    processes started, the group and the last process; [None] when a command
    could not be started, which the source reports and gives up on.
    [prev] is the read end of the last pipe. *)
Fixpoint spawn_loop (n i : nat) (bg : bool) (prev : option Stdio) (pgid : option Z) (pids : list Z) (last_pid : Z)
    (cs : list SimpleCmd) : SM (option (list Z * option Z * Z)) :=
  match cs with
  | [] => mret (Some (pids, pgid, last_pid))
  | cmd :: cs =>
      match argv cmd with
      | [] => mret None
      | _ =>
          stdin ← match i, input (redir cmd) with
                  | O, Some path => fd ← on_sys (sys_open_in path); mret (Fd fd)
                  | _, _ => mret (default Inherit prev)
                  end;
          stdout ← (if (i + 1 <? n)%nat then mret MakePipe
                    else match output (redir cmd) with
                         | Some o => fd ← on_sys (sys_open_out (out_path o) (append o)); mret (Fd fd)
                         | None => mret Inherit
                         end);
          let is_first := bool_decide (pgid = None) in
          r ← attempt (on_sys (sys_spawn (mkSpawn (argv cmd) (default 0 pgid) (is_first && negb bg) stdin stdout)));
          match r with
          | inl (pid, pipe) =>
              let job_pgid := default pid pgid in
              _ ← ignore_err (on_sys (sys_setpgid pid job_pgid));
              _ ← (if is_first && negb bg then ignore_err (on_sys (sys_tcsetpgrp job_pgid)) else mret ());
              spawn_loop n (S i) bg (if (i + 1 <? n)%nat then Fd <$> pipe else None) (Some job_pgid) (pids ++ [pid])
                (if (i + 1 =? n)%nat then pid else last_pid) cs
          | inr e => _ ← print (MError e); mret None
          end
      end
  end.

(** A job that is added to the list gets the next number. *)
Definition add_job (j : Job) : SM Z := λ s,
  (Ok (next_job_id s),
   mkSh (jobs s ++ [mkJob (next_job_id s) (j_pgid j) (j_pids j) (j_last_pid j) (j_cmd j) (j_stopped j)]) (next_job_id s + 1) (env s) (sys s)).

Definition run_pipeline (p : Pipeline) (shell_pgid : Z) : SM Z :=
  match bad_redirect p with
  | Some t => _ ← print (MText t); mret 1
  | None =>
      r ← spawn_loop (length (cmds p)) 0 (background p) None None [] 0 (cmds p);
      match r with
      | None | Some ([], _, _) => mret 1
      | Some (pids, pgid, last_pid) =>
          let pgid := default 0 pgid in
          let j := mkJob 0 pgid pids last_pid (pipeline_display p) false in
          if background p then id ← add_job j; _ ← print (MStarted id pgid); mret 0
          else
            _ ← ignore_err (on_sys (sys_tcsetpgrp pgid));
            r ← attempt (wait_foreground j);
            _ ← ignore_err (on_sys (sys_tcsetpgrp shell_pgid));
            match r with
            | inl (j, true, _) => id ← add_job j; _ ← print (MStopped id (j_cmd j)); mret 1
            | inl (_, false, status) => mret status
            | inr e => _ ← print (MError e); mret 1
            end
      end
  end.

(** ** Lines *)

(** What [execute_line] does with one item of a chain: its status, or [None]
    to leave the shell. *)
Definition run_item (shell_pgid : Z) (p : Pipeline) : SM (option Z) :=
  let run := r ← attempt (run_pipeline p shell_pgid);
             match r with inl st => mret (Some st) | inr e => _ ← print (MError e); mret (Some 1) end in
  match cmds p with
  | [] => run
  | cmd :: rest =>
      r ← run_builtin cmd shell_pgid;
      if bool_decide (rest = []) && negb (background p) then
        match r with
        | Some Exit => mret None
        | Some (Status st) => mret (Some st)
        | None => run
        end
      else
        match r with
        | Some _ => _ ← print (MText 7); mret (Some 1)
        | None => run
        end
  end.

(** The loop over a chain, from the last status; [None] to leave. *)
Fixpoint run_chain (shell_pgid : Z) (last_status : Z) (chain : list CondItem) : SM (option Z) :=
  match chain with
  | [] => mret (Some last_status)
  | item :: chain =>
      let skip := match op item with
                  | Some And => negb (last_status =? 0)
                  | Some Or => last_status =? 0
                  | None => false
                  end in
      if skip then run_chain shell_pgid last_status chain
      else
        r ← run_item shell_pgid (pipeline item);
        match r with None => mret None | Some st => run_chain shell_pgid st chain end
  end.
Fixpoint run_sequences (shell_pgid : Z) (seqs : list (list CondItem)) : SM bool :=
  match seqs with
  | [] => mret false
  | chain :: seqs =>
      r ← run_chain shell_pgid 0 chain;
      match r with None => mret true | Some _ => run_sequences shell_pgid seqs end
  end.
(** [execute_line]: whether to leave the shell. *)
Definition execute_line (line : Str) (shell_pgid : Z) : SM bool :=
  match (ts ← tokenize line; parse_line ts) with
  | Ok seqs => run_sequences shell_pgid seqs
  | Err e => _ ← print (MParse e); mret false
  | Panic => m_panic
  end.

(** A line read by [main]: whether to leave the shell. *)
Fixpoint run_for (l : ForLoop) (todo : list Str) (shell_pgid : Z) : SM bool :=
  match todo with
  | [] => mret false
  | item :: todo =>
      s ← m_get;
      _ ← put_env (set_var (var l) item (env s)).2;
      leave ← execute_line (for_body l item) shell_pgid;
      if (leave : bool) then mret true else run_for l todo shell_pgid
  end.
Definition run_input (raw : Str) (shell_pgid : Z) : SM bool :=
  let line := str_trim (normalize_input raw) in
  match line with
  | [] => mret false
  | _ =>
      match parse_for_loop line with
      | Ok (Some l) =>
          s ← m_get;
          let prev := env_var (var l) (env s) in
          leave ← run_for l (items l) shell_pgid;
          if (leave : bool) then mret true
          else
            s ← m_get;
            _ ← put_env (match prev with Some v => set_var (var l) v (env s) | None => remove_var (var l) (env s) end).2;
            mret false
      | Ok None => execute_line line shell_pgid
      | Err e => _ ← print (MParse e); mret false
      | Panic => m_panic
      end
  end.
End run.
Arguments Sh : clear implicits.
