(* ===== verification/ShellExec.v ===== *)
(** * What the shell does with a line

    A chain of [&&] and [||] runs as the left-nested conditional it denotes,
    a typed line as the sequence of its chains, and on a system that runs
    programs ([Os]) a pipeline starts exactly its commands, connected as they
    were written.  Whatever the system answers about its children
    ([ShellKids]), jobs keep distinct numbers, and the processes they list are
    children that have not been waited for. *)

From stdpp Require Import base tactics numbers gmap list.
From S2P Require Import Prelude Errors Strs UserIo Shell ShellSpec ShellRun Signal.
Local Open Scope Z_scope.

(** ** Conditionals *)

(** A pipeline, or a conditional followed by [&&] or [||] and a pipeline. *)
Inductive Cond := Leaf (p : Pipeline) | Cand (c : Cond) (p : Pipeline) | Cor (c : Cond) (p : Pipeline).

Definition link (c : Cond) (i : CondItem) : Cond :=
  match op i with Some And => Cand c (pipeline i) | Some Or => Cor c (pipeline i) | None => Leaf (pipeline i) end.
Definition cond_of (chain : list CondItem) : option Cond :=
  match chain with [] => None | i :: l => Some (foldl link (Leaf (pipeline i)) l) end.

Section cond.
Context {Y : Type} `{ShellSys Y}.
Abbreviation SM := (M Error (Sh Y)).

(** The status of a conditional, [None] to leave the shell. *)
Fixpoint eval (pgid : Z) (c : Cond) : SM (option Z) :=
  match c with
  | Leaf p => run_item pgid p
  | Cand c p =>
      r ← eval pgid c;
      match r with Some st => if st =? 0 then run_item pgid p else mret (Some st) | None => mret None end
  | Cor c p =>
      r ← eval pgid c;
      match r with Some st => if st =? 0 then mret (Some st) else run_item pgid p | None => mret None end
  end.
Fixpoint eval_line (pgid : Z) (cs : list Cond) : SM bool :=
  match cs with
  | [] => mret false
  | c :: cs => r ← eval pgid c; match r with None => mret true | Some _ => eval_line pgid cs end
  end.

(** The chain after a conditional that has been evaluated. *)
Definition continue_with (pgid : Z) (l : list CondItem) (r : option Z) : SM (option Z) :=
  match r with None => mret None | Some st => run_chain pgid st l end.

Lemma bind_assoc {A B C} (m : SM A) (f : A → SM B) (g : B → SM C) s : ((m ≫= f) ≫= g) s = (m ≫= λ a, f a ≫= g) s.
Proof. unfold mbind, M_bind. by destruct (m s) as [[] ?]. Qed.

Lemma bind_ext {A B} (m : SM A) (f g : A → SM B) s : (∀ a s', f a s' = g a s') → (m ≫= f) s = (m ≫= g) s.
Proof. unfold mbind, M_bind. intros E. destruct (m s) as [[] ?]; auto. Qed.

Lemma eval_link pgid l c s :
  Forall (λ i, op i ≠ None) l → (r ← eval pgid c; continue_with pgid l r) s = eval pgid (foldl link c l) s.
Proof.
  revert c. induction l as [|i l IH]; intros c Hl.
  - simpl. unfold mbind, M_bind. by destruct (eval pgid c s) as [[[st|]| |] s'].
  - apply Forall_cons_1 in Hl as [Hi Hl]. cbn [foldl]. rewrite <-(IH (link c i)) by done. unfold link.
    destruct (op i) as [[]|] eqn:E; [| |done]; cbn [eval]; rewrite bind_assoc; apply bind_ext; intros [st|] s'; try done;
      cbn [continue_with run_chain]; rewrite E; destruct (st =? 0); done.
Qed.

Lemma run_chain_eval pgid i l s :
  chain_ok (i :: l) → run_chain pgid 0 (i :: l) s = eval pgid (foldl link (Leaf (pipeline i)) l) s.
Proof.
  intros (_ & Ho & _ & Hl). rewrite <-eval_link; [cbn [run_chain]; by rewrite Ho|].
  clear Ho. induction l as [|j l IH]; [done|]. destruct Hl as (_ & Hj & _ & Hl). constructor; [done|by apply IH].
Qed.

(** A printed line runs as the conditionals it denotes, with any system
    underneath. *)
Lemma execute_line_eval l pgid s :
  Forall chain_ok l → execute_line (print_tokens (line_tokens l)) pgid s = eval_line pgid (omap cond_of l) s.
Proof.
  intros Hl. unfold execute_line. rewrite tokenize_print by by apply tokens_ok. bind_simpl.
  unfold parse_line. rewrite parse_chains by (done || by apply line_token_count). cbn [app].
  revert s. induction Hl as [|[|i ch] l Hch Hl IH]; intros s; [done..|]. cbn [run_sequences omap list_omap cond_of eval_line].
  pose proof (run_chain_eval pgid i ch s Hch) as E.
  unfold mbind at 1 2, M_bind. rewrite E. by destruct (eval _ _ s) as [[[st|]| |] s'].
Qed.
End cond.

(** ** A system that runs commands

    [code argv] is the exit code of the program [argv], [None] when there is
    no such program.  The system records the processes started, the files
    opened (for reading, or for writing and whether to append), the group that
    has the terminal, the processes waited for and what was printed.  The
    [k]-th process has number [10 + k]; the read end of the pipe it makes and
    the [k]-th file have descriptors of their own. *)
Record Os := mkOs {
  os_started : list Spawn; os_files : list (Str * option bool); os_term : Z; os_waited : list Z;
  os_cwd : Str; os_said : list Msg;
}.
Definition next_pid (y : Os) : Z := 10 + Z.of_nat (length (os_started y)).
Definition pipe_fd (pid : Z) : Z := 2 * pid + 101.
Definition file_fd (k : nat) : Z := 2 * Z.of_nat k + 100.
Definition set_term (g : Z) (y : Os) : Os := mkOs (os_started y) (os_files y) g (os_waited y) (os_cwd y) (os_said y).
Definition add_file (f : Str * option bool) (y : Os) : Os :=
  mkOs (os_started y) (os_files y ++ [f]) (os_term y) (os_waited y) (os_cwd y) (os_said y).
Definition add_waited (l : list Z) (y : Os) : Os :=
  mkOs (os_started y) (os_files y) (os_term y) (os_waited y ++ l) (os_cwd y) (os_said y).
Definition add_started (l : list Spawn) (y : Os) : Os :=
  mkOs (os_started y ++ l) (os_files y) (os_term y) (os_waited y) (os_cwd y) (os_said y).
Definition set_sys {Y} (y : Y) (s : Sh Y) : Sh Y := mkSh (jobs s) (next_job_id s) (env s) y.

Section os.
Context (code : list Str → option Z).

(** The status of a process that has been started, as [waitpid] reports it. *)
Definition status_of (y : Os) (pid : Z) : Z :=
  match os_started y !! Z.to_nat (pid - 10) with
  | Some r => Z.shiftl (default 0 (code (sp_argv r))) 8
  | None => 0
  end.
Definition os_spawn (r : Spawn) (y : Os) : Result (Z * option Z) * Os :=
  match code (sp_argv r) with
  | None => (Err NotFound, y)
  | Some _ => (Ok (next_pid y, match sp_stdout r with MakePipe => Some (pipe_fd (next_pid y)) | _ => None end),
               add_started [r] y)
  end.
#[local] Instance os_sys : ShellSys Os := {|
  sys_waitpid := λ pid nohang y,
    if (nohang : bool) then (Ok (0, 0), y) else (Ok (pid, status_of y pid), add_waited [pid] y);
  sys_kill := λ _ _ y, (Ok (), y);
  sys_setpgid := λ _ _ y, (Ok (), y);
  sys_tcsetpgrp := λ g y, (Ok (), set_term g y);
  sys_sleep := λ y, (Ok (), y);
  sys_chdir := λ d y, (Ok (), mkOs (os_started y) (os_files y) (os_term y) (os_waited y) d (os_said y));
  sys_open_in := λ path y, (Ok (file_fd (length (os_files y))), add_file (path, None) y);
  sys_open_out := λ path app y, (Ok (file_fd (length (os_files y))), add_file (path, Some app) y);
  sys_spawn := os_spawn;
  say := λ m y, mkOs (os_started y) (os_files y) (os_term y) (os_waited y) (os_cwd y) (os_said y ++ [m]);
  interrupts := λ _, 0%nat;
|}.

(** ** What a line means there *)

(** The number of commands that can be started: those before the first that
    does not exist. *)
Fixpoint launched (cs : list SimpleCmd) : nat :=
  match cs with [] => 0 | c :: cs => match code (argv c) with Some _ => S (launched cs) | None => 0 end end.
Definition in_file (p : Pipeline) : list (Str * option bool) :=
  match cmds p with c :: _ => match input (redir c) with Some f => [(f, None)] | None => [] end | [] => [] end.
Definition out_file (p : Pipeline) : list (Str * option bool) :=
  match last (cmds p) with
  | Some c => match output (redir c) with Some o => [(out_path o, Some (append o))] | None => [] end
  | None => []
  end.

(** How the [i]-th command of [p] is started, where the first process is
    [base] and [k] files have been opened before: the first command makes a
    group, which gets the terminal unless it runs in the background, and the
    others join it; it reads what its predecessor writes. *)
Definition request (p : Pipeline) (base : Z) (k : nat) (i : nat) (c : SimpleCmd) : Spawn :=
  mkSpawn (argv c) (if (i =? 0)%nat then 0 else base) ((i =? 0)%nat && negb (background p))
    (if (i =? 0)%nat then match input (redir c) with Some _ => Fd (file_fd k) | None => Inherit end
     else Fd (pipe_fd (base + Z.of_nat i - 1)))
    (if (i + 1 <? length (cmds p))%nat then MakePipe
     else match output (redir c) with Some _ => Fd (file_fd (k + length (in_file p))) | None => Inherit end).

(** The system once the commands of [p] have been started. *)
Definition started (p : Pipeline) (y : Os) : Os :=
  let k := launched (cmds p) in
  mkOs (os_started y ++ imap (request p (next_pid y) (length (os_files y))) (take k (cmds p)))
    (os_files y ++ in_file p ++ (if (length (cmds p) <=? k + 1)%nat then out_file p else []))
    (if (0 <? k)%nat && negb (background p) then next_pid y else os_term y)
    (os_waited y) (os_cwd y) (os_said y).
Definition last_code (p : Pipeline) : Z :=
  match last (cmds p) with Some c => default 0 (code (argv c)) | None => 0 end.

(** A pipeline whose commands all exist runs: in the background it becomes a
    job and the status is 0; otherwise every process is waited for, the shell
    takes the terminal back and the status is that of the last command. *)
Definition pipeline_spec (pgid : Z) (p : Pipeline) (s : Sh Os) : Z * Sh Os :=
  let y := started p (sys s) in
  let base := next_pid (sys s) in
  let n := length (cmds p) in
  if (launched (cmds p) <? n)%nat then (1, set_sys (say (MError NotFound) y) s)
  else if background p then
    let j := mkJob (next_job_id s) base (seqZ base (Z.of_nat n)) (base + Z.of_nat n - 1) (pipeline_display p) false in
    (0, mkSh (jobs s ++ [j]) (next_job_id s + 1) (env s) (say (MStarted (next_job_id s) base) y))
  else (last_code p, set_sys (set_term pgid (add_waited (seqZ base (Z.of_nat n)) y)) s).

Definition is_builtin (c : SimpleCmd) : Prop :=
  match argv c with w :: _ => w ∈ [TRUE; FALSE; CD; EXPORT; JOBS; FG; BG; EXIT] | [] => False end.
Definition name_is (w : Str) (c : SimpleCmd) : bool := bool_decide (head (argv c) = Some w).
Definition item_spec (pgid : Z) (p : Pipeline) (s : Sh Os) : option Z * Sh Os :=
  match cmds p with
  | c :: _ =>
      if name_is TRUE c then (Some 0, s) else if name_is FALSE c then (Some 1, s) else if name_is EXIT c then (None, s)
      else let '(st, s') := pipeline_spec pgid p s in (Some st, s')
  | [] => (None, s)
  end.
Fixpoint cond_spec (pgid : Z) (c : Cond) (s : Sh Os) : option Z * Sh Os :=
  match c with
  | Leaf p => item_spec pgid p s
  | Cand c p =>
      match cond_spec pgid c s with
      | (Some st, s) => if st =? 0 then item_spec pgid p s else (Some st, s)
      | (None, s) => (None, s)
      end
  | Cor c p =>
      match cond_spec pgid c s with
      | (Some st, s) => if st =? 0 then (Some st, s) else item_spec pgid p s
      | (None, s) => (None, s)
      end
  end.
Fixpoint line_spec (pgid : Z) (cs : list Cond) (s : Sh Os) : bool * Sh Os :=
  match cs with
  | [] => (false, s)
  | c :: cs => match cond_spec pgid c s with (None, s) => (true, s) | (Some _, s) => line_spec pgid cs s end
  end.

(** Redirections stand where they may, and the builtins are the simple ones,
    alone and in the foreground. *)
Definition item_ok (p : Pipeline) : Prop :=
  (∀ i c, cmds p !! i = Some c → argv c ≠ [] ∧ (input (redir c) ≠ None → i = 0%nat) ∧ (output (redir c) ≠ None → S i = length (cmds p))) ∧
  match cmds p with
  | c :: rest => is_builtin c → rest = [] ∧ background p = false ∧ (name_is TRUE c || name_is FALSE c || name_is EXIT c)
  | [] => False
  end.
(** *** The loop that starts the commands *)

(** [i] commands have been started, and the files opened. *)
Definition stage (p : Pipeline) (y : Os) (i : nat) (out : bool) : Os :=
  mkOs (os_started y ++ imap (request p (next_pid y) (length (os_files y))) (take i (cmds p)))
    (os_files y ++ in_file p ++ (if out then out_file p else []))
    (if (0 <? i)%nat && negb (background p) then next_pid y else os_term y) (os_waited y) (os_cwd y) (os_said y).

Lemma stage_pid p y i o : (i ≤ length (cmds p))%nat → next_pid (stage p y i o) = next_pid y + Z.of_nat i.
Proof using. intros Hi. unfold next_pid, stage. cbn. rewrite length_app, length_imap, length_take. lia. Qed.

Lemma stage_S p y i c o t : cmds p !! i = Some c → (t = next_pid y ∨ (0 < i)%nat ∨ background p = true) →
  (if (i =? 0)%nat && negb (background p) then set_term t else id) (add_started [request p (next_pid y) (length (os_files y)) i c] (stage p y i o))
  = stage p y (S i) o.
Proof using.
  intros Hc Ht. pose proof (lookup_lt_Some _ _ _ Hc). unfold stage, add_started. cbn [os_started os_files os_term os_waited os_cwd os_said].
  rewrite (take_S_r _ _ _ Hc), imap_app. cbn [imap]. unfold compose.
  rewrite length_take, Nat.min_l, Nat.add_0_r, (app_assoc (os_started y)) by lia.
  destruct i as [|i], (background p); cbn; try done. by destruct Ht as [->|[?|?]]; [|lia|].
Qed.

Lemma out_file_last p i c : cmds p !! i = Some c → (i + 1)%nat = length (cmds p) →
  out_file p = match output (redir c) with Some o => [(out_path o, Some (append o))] | None => [] end.
Proof using.
  intros Hc Hi. unfold out_file. rewrite last_lookup. replace (pred (length (cmds p))) with i by lia. by rewrite Hc.
Qed.

(** The output of the [i]-th command. *)
Lemma stdout_run p y (s : Sh Os) i c : cmds p !! i = Some c →
  (if (i + 1 <? length (cmds p))%nat then mret MakePipe
   else match output (redir c) with
        | Some o => fd ← on_sys (sys_open_out (out_path o) (append o)); mret (Fd fd)
        | None => mret Inherit
        end) (set_sys (stage p y i false) s)
  = (Ok (sp_stdout (request p (next_pid y) (length (os_files y)) i c)), set_sys (stage p y i (length (cmds p) <=? i + 1)%nat) s).
Proof using.
  intros Hc. pose proof (lookup_lt_Some _ _ _ Hc). cbn [sp_stdout request].
  destruct (Nat.ltb_spec (i + 1) (length (cmds p))); [by rewrite (proj2 (Nat.leb_gt _ _)) by lia|].
  rewrite (proj2 (Nat.leb_le _ _)) by lia. unfold stage. rewrite (out_file_last p i c Hc) by lia.
  destruct (output (redir c)) as [o|]; [|done]. unfold mbind, M_bind, on_sys. cbn.
  unfold add_file, set_sys, file_fd. cbn. rewrite app_nil_r, length_app, app_assoc. done.
Qed.

Lemma spawn_step p y (s s1 : Sh Os) i c cs prev lp pids : cmds p !! i = Some c → argv c ≠ [] →
  (match i, input (redir c) with O, Some path => fd ← on_sys (sys_open_in path); mret (Fd fd) | _, _ => mret (default Inherit prev) end) s1
    = (Ok (sp_stdin (request p (next_pid y) (length (os_files y)) i c)), set_sys (stage p y i false) s) →
  let n := length (cmds p) in
  spawn_loop n i (background p) prev (if (i =? 0)%nat then None else Some (next_pid y)) pids lp (c :: cs) s1 =
  match code (argv c) with
  | None => (Ok None, set_sys (say (MError NotFound) (stage p y i (n <=? i + 1)%nat)) s)
  | Some _ =>
      spawn_loop n (S i) (background p) (if (i + 1 <? n)%nat then Some (Fd (pipe_fd (next_pid y + Z.of_nat i))) else None)
        (Some (next_pid y)) (pids ++ [next_pid y + Z.of_nat i]) (if (i + 1 =? n)%nat then next_pid y + Z.of_nat i else lp) cs
        (set_sys (stage p y (S i) (n <=? i + 1)%nat) s)
  end.
Proof using.
  intros Hc Ha Hin n. pose proof (lookup_lt_Some _ _ _ Hc) as Hlt. cbn [spawn_loop].
  destruct (argv c) as [|w ws] eqn:Ea; [done|]. rewrite (bind_ok _ _ _ _ _ Hin).
  rewrite (bind_ok _ _ _ _ _ (stdout_run p y s i c Hc)). rewrite <-Ea.
  assert (Hr : mkSpawn (argv c) (default 0 (if (i =? 0)%nat then None else Some (next_pid y)))
    (bool_decide ((if (i =? 0)%nat then None else Some (next_pid y)) = None) && negb (background p))
    (sp_stdin (request p (next_pid y) (length (os_files y)) i c)) (sp_stdout (request p (next_pid y) (length (os_files y)) i c))
    = request p (next_pid y) (length (os_files y)) i c) by (unfold request; by destruct i).
  rewrite Hr. clear Hr. unfold mbind at 1, M_bind, attempt, on_sys, sys_spawn, os_sys, os_spawn. cbn [sys set_sys].
  replace (sp_argv (request p (next_pid y) (length (os_files y)) i c)) with (argv c) by done.
  destruct (code (argv c)) as [st|] eqn:Ec; [|done]. rewrite stage_pid by (unfold n in *; lia).
  unfold mbind, M_bind, ignore_err, on_sys. cbn [sys set_sys jobs next_job_id env].
  assert (Hfirst : bool_decide ((if (i =? 0)%nat then None else Some (next_pid y)) = None) = (i =? 0)%nat) by (by destruct i).
  assert (Hpg : default (next_pid y + Z.of_nat i) (if (i =? 0)%nat then None else Some (next_pid y)) = next_pid y).
  { destruct i; cbn; lia. }
  rewrite Hfirst, Hpg. pose proof (stage_S p y i c (n <=? i + 1)%nat (next_pid y) Hc (or_introl eq_refl)) as Hs.
  assert (Hpipe : (if (i + 1 <? n)%nat then Fd <$> match sp_stdout (request p (next_pid y) (length (os_files y)) i c) with
      MakePipe => Some (pipe_fd (next_pid y + Z.of_nat i)) | _ => None end else None)
    = (if (i + 1 <? n)%nat then Some (Fd (pipe_fd (next_pid y + Z.of_nat i))) else None)).
  { cbn [sp_stdout request]. fold n. by destruct (i + 1 <? n)%nat. }
  cbn [mret M_ret]. rewrite Hpipe. destruct ((i =? 0)%nat && negb (background p)); cbn [id] in Hs; unfold set_sys; cbn; rewrite <-Hs; done.
Qed.

Lemma launched_le cs : (launched cs ≤ length cs)%nat.
Proof using. induction cs as [|c cs IH]; cbn; [lia|]. destruct (code (argv c)); lia. Qed.

(** The rest of the loop, and all of it. *)
Definition spawned (p : Pipeline) (y : Os) (k : nat) : option (list Z * option Z * Z) * Os :=
  let n := length (cmds p) in
  if (k <? n)%nat then (None, say (MError NotFound) (stage p y k (n <=? k + 1)%nat))
  else (Some (seqZ (next_pid y) (Z.of_nat n), Some (next_pid y), next_pid y + Z.of_nat n - 1), stage p y k (n <=? k + 1)%nat).

Lemma spawn_rest p y s cs i lp : (∀ j c, cmds p !! j = Some c → argv c ≠ []) → cs = drop i (cmds p) → (0 < i ≤ length (cmds p))%nat →
  (i = length (cmds p) → lp = next_pid y + Z.of_nat i - 1) →
  let n := length (cmds p) in
  spawn_loop n i (background p) (if (i <? n)%nat then Some (Fd (pipe_fd (next_pid y + Z.of_nat i - 1))) else None)
    (Some (next_pid y)) (seqZ (next_pid y) (Z.of_nat i)) lp cs (set_sys (stage p y i (n <=? i)%nat) s)
  = (Ok (spawned p y (i + launched cs)).1, set_sys (spawned p y (i + launched cs)).2 s).
Proof using.
  intros Ha. revert i lp. induction cs as [|c cs IH]; intros i lp Hcs Hi Hlp n.
  - assert (i = n) as -> by (apply (f_equal length) in Hcs; rewrite length_drop in Hcs; cbn in Hcs; unfold n in *; lia).
    cbn [spawn_loop launched]. rewrite Nat.add_0_r. unfold spawned. fold n. rewrite Nat.ltb_irrefl, Hlp by done.
    by rewrite !(proj2 (Nat.leb_le _ _)) by lia.
  - assert (Hc : cmds p !! i = Some c) by (rewrite <-(Nat.add_0_r i), <-lookup_drop, <-Hcs; done).
    assert (Hcs' : cs = drop (S i) (cmds p)) by (rewrite (drop_S _ _ _ Hc) in Hcs; by injection Hcs).
    pose proof (lookup_lt_Some _ _ _ Hc) as Hlt. fold n in Hlt. rewrite (proj2 (Nat.ltb_lt i n)), (proj2 (Nat.leb_gt n i)) by lia.
    assert (Hne : (i =? 0)%nat = false) by (apply Nat.eqb_neq; lia).
    pose proof (spawn_step p y s (set_sys (stage p y i false) s) i c cs (Some (Fd (pipe_fd (next_pid y + Z.of_nat i - 1)))) lp
      (seqZ (next_pid y) (Z.of_nat i)) Hc (Ha _ _ Hc)) as Hstep.
    rewrite Hne in Hstep. cbv zeta in Hstep. fold n in Hstep. rewrite Hstep; [|destruct i; [lia|]; by destruct (input (redir c))].
    cbn [launched]. destruct (code (argv c)) as [st|].
    + rewrite <-seqZ_S. replace (i + S (launched cs))%nat with (S i + launched cs)%nat by lia.
      rewrite <-(IH (S i) (if (i + 1 =? n)%nat then next_pid y + Z.of_nat i else lp) Hcs'); [|unfold n in *; lia|].
      * replace (next_pid y + Z.of_nat (S i) - 1) with (next_pid y + Z.of_nat i) by lia.
        replace (i + 1)%nat with (S i) by lia. done.
      * intros E. fold n in E. rewrite (proj2 (Nat.eqb_eq _ _)) by lia. lia.
    + rewrite Nat.add_0_r. unfold spawned. fold n. by rewrite (proj2 (Nat.ltb_lt i n)) by lia.
Qed.

Lemma spawn_all p (s : Sh Os) : (∀ j c, cmds p !! j = Some c → argv c ≠ []) → cmds p ≠ [] →
  let n := length (cmds p) in let y := sys s in
  spawn_loop n 0 (background p) None None [] 0 (cmds p) s
  = (Ok (spawned p y (launched (cmds p))).1, set_sys (spawned p y (launched (cmds p))).2 s).
Proof using.
  intros Ha Hne n y. destruct (cmds p) as [|c cs] eqn:Hp; [done|]. clear Hne.
  assert (Hc : cmds p !! 0%nat = Some c) by (by rewrite Hp).
  assert (Hin : (match 0%nat, input (redir c) with O, Some path => fd ← on_sys (sys_open_in path); mret (Fd fd) | _, _ => mret (default Inherit None) end) s
    = (Ok (sp_stdin (request p (next_pid y) (length (os_files y)) 0 c)), set_sys (stage p y 0 false) s)).
  { cbn [sp_stdin request Nat.eqb]. unfold stage, in_file, y. rewrite Hp.
    destruct s as [js nx e [st fs tm wa cw sd]]. cbn. rewrite app_nil_r.
    destruct (input (redir c)) as [f|]; unfold mbind, M_bind, on_sys, set_sys, add_file; cbn; by rewrite ?app_nil_r. }
  pose proof (spawn_step p y s s 0 c cs None 0 [] Hc) as Hstep. cbv zeta in Hstep. rewrite Hp in Hstep. cbn [Nat.eqb] in Hstep.
  unfold n. rewrite Hstep; [|by apply (Ha 0%nat)|exact Hin]. cbn [launched]. destruct (code (argv c)) as [st|].
  - pose proof (spawn_rest p y s cs 1 (if (0 + 1 =? length (c :: cs))%nat then next_pid y + 0 else 0)) as Hrest.
    cbv zeta in Hrest. rewrite Hp in Hrest. cbn [Nat.add] in Hrest |- *. rewrite <-Hrest; [|done|done|cbn; lia|].
    + rewrite seqZ_S. replace (next_pid y + Z.of_nat 1 - 1) with (next_pid y + Z.of_nat 0) by lia. done.
    + intros E. rewrite (proj2 (Nat.eqb_eq _ _) E). lia.
  - unfold spawned. rewrite Hp. by rewrite (proj2 (Nat.ltb_lt _ _)) by (cbn; lia).
Qed.

Lemma started_stage p y : started p y = stage p y (launched (cmds p)) (length (cmds p) <=? launched (cmds p) + 1)%nat.
Proof using. done. Qed.

(** *** Waiting for them *)

Hypothesis code_ok : ∀ a c, code a = Some c → 0 ≤ c < 256.

Lemma status_code y pid : ∃ c, status_of y pid = Z.shiftl c 8 ∧ 0 ≤ c < 256 ∧
  (∀ r, os_started y !! Z.to_nat (pid - 10) = Some r → c = default 0 (code (sp_argv r))).
Proof using code_ok.
  unfold status_of. destruct (os_started y !! Z.to_nat (pid - 10)) as [r|] eqn:E.
  - exists (default 0 (code (sp_argv r))). split_and!; [done|..|by intros ? [= <-]];
      destruct (code (sp_argv r)) as [c|] eqn:Ec; cbn; try lia; apply code_ok in Ec; lia.
  - exists 0. split_and!; [done|lia|lia|done].
Qed.

Lemma exit_code c : 0 ≤ c < 256 → status_stopped (Z.shiftl c 8) = None ∧ exit_status_code (Z.shiftl c 8) = c.
Proof using.
  intros Hc. assert (E : Z.land (Z.shiftl c 8) 255 = 0).
  { change 255 with (Z.ones 8). rewrite Z.land_ones, Z.shiftl_mul_pow2 by lia. apply Z.mod_mul. lia. }
  assert (E2 : Z.land (Z.shiftr (Z.shiftl c 8) 8) 255 = c).
  { rewrite Z.shiftr_shiftl_l, Z.shiftl_0_r by lia. change 255 with (Z.ones 8). rewrite Z.land_ones by lia. by apply Z.mod_small. }
  unfold exit_status_code, status_stopped. rewrite E. cbn. split; [done|]. exact E2.
Qed.

Lemma wait_run j (s : Sh Os) : ∀ pids st, j_pids j = pids →
  ∃ j', wait_loop (length pids) j st s =
    (Ok (j', false, if bool_decide (j_last_pid j ∈ pids) then exit_status_code (status_of (sys s) (j_last_pid j)) else st),
     set_sys (add_waited pids (sys s)) s).
Proof using code_ok.
  intros pids. revert j s. induction pids as [|pid pids IH]; intros j s st Hp.
  - exists j. cbn. rewrite Hp. unfold add_waited. destruct s as [js nx e [? ? ? ? ? ?]]. cbn. by rewrite app_nil_r.
  - cbn [length wait_loop]. rewrite Hp. unfold mbind, M_bind, attempt, on_sys. cbn [sys_waitpid os_sys].
    destruct (status_code (sys s) pid) as (c & Es & Hc & _). destruct (exit_code c Hc) as [Hst Hex].
    rewrite Es, Hst, Hex.
    set (j1 := mkJob (j_id j) (j_pgid j) pids (j_last_pid j) (j_cmd j) (j_stopped j)).
    destruct (IH j1 (set_sys (add_waited [pid] (sys s)) s) (if pid =? j_last_pid j then c else st) eq_refl) as (j' & Hrun).
    exists j'. unfold set_sys in Hrun at 1. rewrite Hrun. f_equal; [|unfold set_sys, add_waited; cbn; by rewrite <-app_assoc].
    do 2 f_equal. change (j_last_pid j1) with (j_last_pid j).
    change (status_of (sys (set_sys (add_waited [pid] (sys s)) s)) (j_last_pid j)) with (status_of (sys s) (j_last_pid j)).
    destruct (Z.eqb_spec pid (j_last_pid j)) as [<-|Hne].
    + rewrite (bool_decide_eq_true_2 (pid ∈ pid :: pids)) by set_solver. rewrite Es, Hex. clear. by case_bool_decide.
    + assert (bool_decide (j_last_pid j ∈ pid :: pids) = bool_decide (j_last_pid j ∈ pids)) as -> by (apply bool_decide_ext; set_solver).
      done.
Qed.

(** *** Pipelines, conditionals, lines *)

Lemma head_omap_None {A B} (f : A → option B) l : (∀ x, x ∈ l → f x = None) → head (omap f l) = None.
Proof using.
  induction l as [|x l IH]; intros Hl; [done|]. cbn. rewrite Hl by by left. apply IH. intros y Hy. apply Hl. by right.
Qed.

Lemma good_redirect p : item_ok p → bad_redirect p = None.
Proof using.
  intros [Hp _]. unfold bad_redirect. apply head_omap_None. intros [i c] Hin. cbn [fst snd].
  assert (Hc : cmds p !! i = Some c).
  { apply list_elem_of_lookup_1 in Hin as [j Hj]. apply lookup_zip_with_Some in Hj as (i' & c' & E & Hi & Hc).
    injection E as -> ->. by apply lookup_seq in Hi as [-> _]. }
  destruct (Hp _ _ Hc) as (_ & Hi & Ho). pose proof (lookup_lt_Some _ _ _ Hc).
  assert (negb (bool_decide (input (redir c) = None)) && negb (i =? 0)%nat = false) as ->.
  { case_bool_decide as E; [done|]. by rewrite (Hi E). }
  assert (negb (bool_decide (output (redir c) = None)) && (i + 1 <? length (cmds p))%nat = false) as ->; [|done].
  case_bool_decide as E; [done|]. specialize (Ho E). cbn [negb andb]. apply Nat.ltb_ge. lia.
Qed.

Lemma last_status_ok p y : cmds p ≠ [] → launched (cmds p) = length (cmds p) →
  exit_status_code (status_of (started p y) (next_pid y + Z.of_nat (length (cmds p)) - 1)) = last_code p.
Proof using code_ok.
  intros Hne Hk. destruct (status_code (started p y) (next_pid y + Z.of_nat (length (cmds p)) - 1)) as (c & -> & Hc & Hl).
  destruct (exit_code c Hc) as [_ ->]. unfold last_code. rewrite last_lookup.
  destruct (cmds p !! pred (length (cmds p))) as [x|] eqn:Hx.
  2: { apply lookup_ge_None in Hx. destruct (cmds p); cbn in *; [done|lia]. }
  pose proof (lookup_lt_Some _ _ _ Hx) as Hlt.
  erewrite (Hl (request p (next_pid y) (length (os_files y)) (pred (length (cmds p))) x)); [done|].
  unfold started, next_pid. cbn [os_started]. rewrite Hk, firstn_all, lookup_app_r by lia. rewrite list_lookup_imap.
  replace (Z.to_nat (10 + Z.of_nat (length (os_started y)) + Z.of_nat (length (cmds p)) - 1 - 10) - length (os_started y))%nat
    with (pred (length (cmds p))) by lia. by rewrite Hx.
Qed.

Lemma pipeline_run pgid p s : item_ok p → run_pipeline p pgid s = (Ok (pipeline_spec pgid p s).1, (pipeline_spec pgid p s).2).
Proof using code_ok.
  intros Hp. assert (Hne : cmds p ≠ []) by (destruct Hp as [_ Hp]; by destruct (cmds p)).
  assert (Ha : ∀ j c, cmds p !! j = Some c → argv c ≠ []) by (intros j c Hc; by apply (proj1 Hp j c)).
  unfold run_pipeline, pipeline_spec. rewrite good_redirect by done. rewrite (bind_ok _ _ _ _ _ (spawn_all p s Ha Hne)).
  unfold spawned. rewrite started_stage. pose proof (launched_le (cmds p)) as Hle.
  destruct (Nat.ltb_spec (launched (cmds p)) (length (cmds p))) as [Hlt|Hge]; [done|]. cbn [fst snd].
  assert (Hn : (0 < length (cmds p))%nat) by (destruct (cmds p); [done|cbn; lia]).
  destruct (seqZ (next_pid (sys s)) (Z.of_nat (length (cmds p)))) as [|b l] eqn:Eq; [apply (f_equal length) in Eq; rewrite length_seqZ in Eq; cbn in Eq; lia|].
  rewrite <-Eq. clear Eq b l. cbn [default]. destruct (background p) eqn:Hbg; [done|].
  rewrite <-started_stage. unfold mbind at 1, M_bind, ignore_err, on_sys. cbn [sys set_sys sys_tcsetpgrp os_sys].
  set (j := mkJob _ _ _ _ _ _).
  set (s1 := mkSh _ _ _ (set_term _ _)).
  destruct (wait_run j s1 (j_pids j) 1 eq_refl) as [j' Hw].
  unfold mbind at 1, attempt, wait_foreground. cbn [interrupts os_sys]. rewrite Nat.add_0_r, Hw.
  unfold mbind, M_bind. cbn [sys set_sys jobs next_job_id env fst snd]. cbn [j_last_pid j_pids j].
  rewrite bool_decide_eq_true_2 by (apply elem_of_seqZ; lia). unfold mret, M_ret. f_equal.
  f_equal. rewrite <-last_status_ok with (y := sys s) by (done || lia). done.
Qed.

Lemma builtin_run pgid c p s : item_ok p → cmds p = [c] ∨ (∃ d cs, cmds p = c :: d :: cs) →
  run_builtin c pgid s = (Ok (if name_is TRUE c then Some (Status 0) else if name_is FALSE c then Some (Status 1) else if name_is EXIT c then Some Exit else None), s).
Proof using code_ok.
  intros [Ha Hp] Hcs. assert (cmds p !! 0%nat = Some c) as Hc by (destruct Hcs as [->|(?&?&->)]; done).
  destruct (Ha _ _ Hc) as [Hargs _]. unfold run_builtin, name_is.
  assert (Hb : is_builtin c → name_is TRUE c || name_is FALSE c || name_is EXIT c).
  { intros Hb. destruct (cmds p) as [|c' rest]; [done|]. injection Hc as ->. by apply Hp. }
  unfold is_builtin, name_is in Hb. destruct (argv c) as [|w ws]; [done|]. cbn [head] in *.
  assert (∀ v, bool_decide (Some w = Some v) = bool_decide (w = v)) as E by (intros v; apply bool_decide_ext; naive_solver).
  rewrite !E in *. repeat (case_bool_decide; [subst; try done|]); try done;
    exfalso; (assert (False ∨ False ∨ False) as Hx; [|naive_solver]);
    (assert (Is_true false) as []; apply Hb; set_solver).
Qed.

Lemma item_run pgid p s : item_ok p → run_item pgid p s = (Ok (item_spec pgid p s).1, (item_spec pgid p s).2).
Proof using code_ok.
  intros Hp. unfold run_item, item_spec. destruct (cmds p) as [|c rest] eqn:Hcs; [by destruct Hp as [_ Hp]; rewrite Hcs in Hp|].
  rewrite (bind_ok _ _ _ _ _ (builtin_run pgid c p s Hp ltac:(rewrite Hcs; destruct rest; eauto))).
  assert (Hrun : (r ← attempt (run_pipeline p pgid);
    match r with inl st => mret (Some st) | inr e => _ ← print (MError e); mret (Some 1) end) s
    = (Ok (Some (pipeline_spec pgid p s).1), (pipeline_spec pgid p s).2)).
  { unfold mbind, M_bind, attempt. by rewrite (pipeline_run pgid p s Hp). }
  destruct Hp as [_ Hb]. rewrite Hcs in Hb.
  assert (Hn : name_is TRUE c || name_is FALSE c || name_is EXIT c → rest = [] ∧ background p = false).
  { intros Hn. destruct Hb as (? & ? & _); [|done]. unfold is_builtin, name_is in *.
    destruct (argv c) as [|w ws]; [done|]. cbn in Hn. apply orb_True in Hn as [[Hn|Hn]%orb_True|Hn];
      apply bool_decide_unpack in Hn; injection Hn as ->; set_solver. }
  destruct (name_is TRUE c); [destruct Hn as [-> ->]; done|]. destruct (name_is FALSE c); [destruct Hn as [-> ->]; done|].
  destruct (name_is EXIT c); [destruct Hn as [-> ->]; done|]. destruct (pipeline_spec pgid p s) as [st s']. 
  destruct (_ && _); exact Hrun.
Qed.

Fixpoint cond_ok (c : Cond) : Prop :=
  match c with Leaf p => item_ok p | Cand c p | Cor c p => cond_ok c ∧ item_ok p end.

Lemma cond_run pgid c s : cond_ok c → eval pgid c s = (Ok (cond_spec pgid c s).1, (cond_spec pgid c s).2).
Proof using code_ok.
  revert s. induction c as [p|c IH p|c IH p]; intros s; [by apply item_run|..]; intros [Hc Hp]; cbn [eval cond_spec];
    rewrite (bind_ok _ _ _ _ _ (IH s Hc)); destruct (cond_spec pgid c s) as [[st|] s']; try done;
    cbn [fst snd]; destruct (st =? 0); by rewrite ?item_run.
Qed.

Lemma chain_cond_ok ch c : Forall (λ i, item_ok (pipeline i)) ch → cond_of ch = Some c → cond_ok c.
Proof using.
  destruct ch as [|i l]; [done|]. cbn. intros [Hi Hl]%Forall_cons [= <-].
  assert (Hleaf : cond_ok (Leaf (pipeline i))) by done. revert Hleaf. generalize (Leaf (pipeline i)). clear Hi.
  induction Hl as [|j l Hj _ IH]; intros c Hc; [done|]. cbn. apply IH. unfold link. by destruct (op j) as [[]|].
Qed.
End os.

(** C@: A typed line means what it says.  On a system that runs programs, where
    [code] gives the exit code of a command or says that there is none, running
    the printed form of a tree is evaluating the conditional each chain
    denotes, one after the other ([&&] and [||] of equal precedence, grouped to
    the left; a pipeline is skipped exactly when the status before it decides
    the outcome; [exit] leaves at once), and running a pipeline starts exactly
    its commands, in order and in one process group, the first reading the
    input file, each other one what its predecessor writes, the last writing
    the output file; in the foreground the group has the terminal until every
    process has been waited for, and the status is that of the last command;
    in the background it becomes a job; when a command does not exist those
    before it have been started and the status is 1.  Redirections stand where
    the shell allows them; of the builtins the claim covers [true], [false]
    and [exit], alone and in the foreground; words are not empty. *)
Theorem execute_line_equiv code l pgid s :
  (∀ a c, code a = Some c → 0 ≤ c < 256) → Forall chain_ok l → Forall (Forall (λ i, item_ok (pipeline i))) l →
  execute_line (H := os_sys code) (print_tokens (line_tokens l)) pgid s =
    (Ok (line_spec code pgid (omap cond_of l) s).1, (line_spec code pgid (omap cond_of l) s).2).
Proof.
  intros Hcode Hl Hit. rewrite (execute_line_eval (H := os_sys code)) by done. clear Hl.
  assert (Hok : Forall cond_ok (omap cond_of l)).
  { induction Hit as [|ch l Hch _ IH]; [constructor|]. cbn. destruct (cond_of ch) as [c|] eqn:E; [|done].
    constructor; [by eapply chain_cond_ok|done]. }
  revert s. induction Hok as [|c cs Hc _ IH]; intros s; [done|]. cbn [eval_line line_spec].
  rewrite (bind_ok _ _ _ _ _ (cond_run code Hcode pgid c s Hc)). destruct (cond_spec code pgid c s) as [[st|] s']; [apply IH|done].
Qed.

(** Every program exists and succeeds, but [n]. *)
Definition demo_code (a : list Str) : option Z := if bool_decide (a = [[110]]) then None else Some 0.
#[global] Instance demo_sys : ShellSys Os := os_sys demo_code.
Definition demo_shell : Sh Os := mkSh [] 1 None (mkOs [] [] 1 [] [47] []).

Lemma demo_code_ok a c : demo_code a = Some c → 0 ≤ c < 256.
Proof. unfold demo_code. case_bool_decide; [done|]. intros [= <-]. lia. Qed.

Lemma demo_items_ok : Forall (Forall (λ i, item_ok (pipeline i))) demo_line.
Proof.
  assert (Hb : ∀ w ws r, bool_decide (w ∈ [TRUE; FALSE; CD; EXPORT; JOBS; FG; BG; EXIT]) = false → ¬ is_builtin (mkSimpleCmd (w :: ws) r)).
  { intros w ws r Hw Hin. by apply bool_decide_eq_false in Hw. }
  repeat (apply Forall_cons; split); try apply Forall_nil; try done;
    (split; [|intros Hin; exfalso; revert Hin; by apply Hb]); intros [|[|i]] c [= <-]; split_and!; done.
Qed.

Lemma execute_line_equiv_witness :
  Forall chain_ok demo_line ∧
  execute_line (print_tokens (line_tokens demo_line)) 1 demo_shell =
    (Ok (line_spec demo_code 1 (omap cond_of demo_line) demo_shell).1,
     (line_spec demo_code 1 (omap cond_of demo_line) demo_shell).2) ∧
  sp_argv <$> os_started (sys (line_spec demo_code 1 (omap cond_of demo_line) demo_shell).2) =
    [[[99; 97; 116]; [97; 32; 34]]; [[119; 99]]; [[108; 115]]; [[116]]].
Proof.
  split; [exact demo_line_ok|]. split; [|vm_compute; reflexivity].
  exact (execute_line_equiv demo_code demo_line 1 demo_shell demo_code_ok demo_line_ok demo_items_ok).
Defined.

(** [a | n], where [n] does not exist: [a] has been started and has the
    terminal; the shell neither waits for it nor lists it as a job, and it does
    not take the terminal back. *)
Example failed_pipeline_keeps_terminal :
  let '(r, s) := execute_line [97; 32; 124; 32; 110] 1 demo_shell in
  r = Ok false ∧ os_term (sys s) = 10 ∧ os_waited (sys s) = [] ∧ jobs s = [] ∧ os_said (sys s) = [MError NotFound].
Proof. vm_compute. done. Qed.

(** [cd a | b]: the shell says that a builtin in a pipeline is not supported,
    after it has changed its directory. *)
Example builtin_in_pipeline_runs :
  let s := (execute_line [99; 100; 32; 97; 32; 124; 32; 98] 1 demo_shell).2 in
  os_cwd (sys s) = [97] ∧ os_said (sys s) = [MText 7] ∧ os_started (sys s) = [].
Proof. vm_compute. done. Qed.

(** [exit &]: the shell does not leave. *)
Example exit_in_background_ignored : (execute_line [101; 120; 105; 116; 32; 38] 1 demo_shell).1 = Ok false.
Proof. vm_compute. done. Qed.

(** An empty argument is lost: [a ""] is the command [a]. *)
Example empty_argument_lost : tokenize [97; 32; 34; 34] = Ok [Word [97]].
Proof. vm_compute. done. Qed.

(** ** Jobs *)

Create HintDb quiet.

(** Time passes: children may exit. *)
Definition ages (m m' : gmap Z bool) : Prop :=
  (∀ pid, is_Some (m' !! pid) ↔ is_Some (m !! pid)) ∧ ∀ pid, m !! pid = Some true → m' !! pid = Some true.

#[global] Instance ages_preorder : PreOrder ages.
Proof.
  split; [by intros m|]. intros m1 m2 m3 [A1 B1] [A2 B2]. split; [|by auto]. intros pid. by rewrite A2.
Qed.

(** What the system says about processes.  [kids y] are the children that have
    not been waited for, and whether each one has exited: a call of [waitpid]
    that reports an exit takes the child away, one without waiting does not
    overlook an exit, a new process has a number of its own, and nothing else
    changes them. *)
Class ShellKids (Y : Type) `{ShellSys Y} := {
  kids : Y → gmap Z bool;
  kids_wait pid (nohang : bool) y :
    match sys_waitpid pid nohang y with
    | (Ok (p, status), y') =>
        if decide (p ≠ 0 ∧ status_stopped status = None) then ages (delete pid (kids y)) (kids y')
        else (nohang = true → kids y !! pid ≠ Some true) ∧ ages (kids y) (kids y')
    | (Err _, y') => (nohang = true → kids y !! pid ≠ Some true) ∧ ages (kids y) (kids y')
    | (Panic, _) => False
    end;
  kids_blocks pid y p status y' : sys_waitpid pid false y = (Ok (p, status), y') → p ≠ 0;
  kids_spawn r y :
    match sys_spawn r y with
    | (Ok (pid, _), y') => kids y !! pid = None ∧ ages (<[pid := false]> (kids y)) (kids y')
    | (_, y') => ages (kids y) (kids y')
    end;
  kids_kill pid sig y : ages (kids y) (kids (sys_kill pid sig y).2);
  kids_setpgid pid g y : ages (kids y) (kids (sys_setpgid pid g y).2);
  kids_tcsetpgrp g y : ages (kids y) (kids (sys_tcsetpgrp g y).2);
  kids_sleep y : ages (kids y) (kids (sys_sleep y).2);
  kids_chdir d y : ages (kids y) (kids (sys_chdir d y).2);
  kids_open_in f y : ages (kids y) (kids (sys_open_in f y).2);
  kids_open_out f app y : ages (kids y) (kids (sys_open_out f app y).2);
  kids_say m y : ages (kids y) (kids (say m y));
}.

Section jobs.
Context {Y : Type} `{ShellKids Y}.
Abbreviation SM := (M Error (Sh Y)).

Definition pids_of (l : list Job) : list Z := mjoin (j_pids <$> l).

(** The jobs are numbered apart, below the next number, and none is empty. *)
Definition numbered (s : Sh Y) : Prop :=
  NoDup (j_id <$> jobs s) ∧ Forall (λ j, 0 < j_id j < next_job_id s ∧ j_pids j ≠ []) (jobs s) ∧ 0 < next_job_id s.
(** Moreover every process of a job, and of the list [l] the shell works on, is
    a child that has not been waited for, and belongs to one job only. *)
Definition hold (l : list Z) (s : Sh Y) : Prop :=
  numbered s ∧ NoDup (pids_of (jobs s) ++ l) ∧ ∀ pid, pid ∈ pids_of (jobs s) ++ l → is_Some (kids (sys s) !! pid).
Definition jobs_ok (s : Sh Y) : Prop := hold [] s.

Lemma pids_of_app l1 l2 : pids_of (l1 ++ l2) = pids_of l1 ++ pids_of l2.
Proof. unfold pids_of. by rewrite fmap_app, join_app. Qed.

(** The list may shrink, and time pass. *)
Lemma hold_sub l l' s s' : hold l s → l' `sublist_of` l → jobs s' = jobs s → next_job_id s' = next_job_id s →
  (∀ pid, pid ∈ pids_of (jobs s) ++ l' → is_Some (kids (sys s) !! pid) → is_Some (kids (sys s') !! pid)) → hold l' s'.
Proof.
  intros (Hn & Hnd & Hk) Hl E1 E2 Hkids. split; [unfold numbered in *; by rewrite E1, E2|]. rewrite E1. split.
  - eapply sublist_NoDup; [exact Hnd|]. by apply sublist_app.
  - intros pid Hin. apply Hkids; [done|]. apply Hk. rewrite elem_of_app in *. destruct Hin as [|Hin]; [by left|right].
    eapply elem_of_submseteq; [exact Hin|by apply sublist_submseteq].
Qed.

Lemma hold_ages l l' s s' : hold l s → l' `sublist_of` l → jobs s' = jobs s → next_job_id s' = next_job_id s →
  ages (kids (sys s)) (kids (sys s')) → hold l' s'.
Proof. intros Hh Hl E1 E2 [Ha _]. eapply hold_sub; try done. intros pid _. by rewrite Ha. Qed.

(** [m] keeps the jobs in order, whatever its outcome, and its result
    satisfies [Q] of the state. *)
Definition keeps {A} (P : Sh Y → Prop) (m : SM A) (Q : A → Sh Y → Prop) : Prop :=
  ∀ s, P s → match m s with (Ok a, s') => Q a s' | (_, s') => jobs_ok s' end.

Lemma keeps_bind_seq {A B} P (m : SM A) (f : A → SM B) R Q :
  keeps P m R → (∀ a, keeps (R a) (f a) Q) → keeps P (m ≫= f) Q.
Proof.
  intros Hm Hf s Hs. specialize (Hm s Hs). unfold mbind, M_bind. destruct (m s) as [[a|e|] s']; [|done..].
  by apply Hf.
Qed.
Lemma keeps_mret {A} (a : A) (P : Sh Y → Prop) (Q : A → Sh Y → Prop) : (∀ s, P s → Q a s) → keeps P (mret a) Q.
Proof. intros HQ s Hs. by apply HQ. Qed.

(** Steps that look neither at the jobs nor wait for or start processes. *)
Definition quiet {A} (m : SM A) : Prop :=
  ∀ s, let s' := (m s).2 in jobs s' = jobs s ∧ next_job_id s' = next_job_id s ∧ ages (kids (sys s)) (kids (sys s')).

Lemma quiet_bind {A B} (m : SM A) (f : A → SM B) : quiet m → (∀ a, quiet (f a)) → quiet (m ≫= f).
Proof.
  intros Hm Hf s. specialize (Hm s). unfold mbind, M_bind. destruct (m s) as [[a|e|] s1]; simpl in *; [|done..].
  destruct (Hf a s1) as (E1 & E2 & E3), Hm as (F1 & F2 & F3). split_and!; [congruence..|]. by etrans.
Qed.
Lemma quiet_mret {A} (a : A) : quiet (mret a).
Proof. done. Qed.
Lemma quiet_get : quiet m_get.
Proof. done. Qed.
Lemma quiet_err {A} e : quiet (m_err (A := A) e).
Proof. done. Qed.
Lemma quiet_panic {A} : quiet (m_panic (A := A)).
Proof. done. Qed.
Lemma quiet_on_sys {A} (m : M Error Y A) : (∀ y, ages (kids y) (kids (m y).2)) → quiet (on_sys m).
Proof. intros Hm s. specialize (Hm (sys s)). unfold on_sys. by destruct (m (sys s)). Qed.
Lemma quiet_print m : quiet (print m).
Proof. intros s. split_and!; [done..|]. apply kids_say. Qed.
Lemma quiet_put_env e : quiet (put_env e).
Proof. done. Qed.
Lemma quiet_ignore {A} (m : SM A) : quiet m → quiet (ignore_err m).
Proof. intros Hm s. specialize (Hm s). unfold ignore_err. by destruct (m s) as [[] ?]. Qed.
Lemma quiet_attempt {A} (m : SM A) : quiet m → quiet (attempt m).
Proof. intros Hm s. specialize (Hm s). unfold attempt. by destruct (m s) as [[] ?]. Qed.
Lemma quiet_for {A} (l : list A) (f : A → SM ()) : (∀ x, quiet (f x)) → quiet (m_for l f).
Proof. intros Hf. induction l; simpl; [apply quiet_mret|]. apply quiet_bind; auto. Qed.

#[local] Hint Resolve quiet_bind quiet_mret quiet_get quiet_err quiet_panic quiet_on_sys quiet_print quiet_put_env quiet_ignore
  quiet_attempt quiet_for kids_kill kids_setpgid kids_tcsetpgrp kids_sleep kids_chdir kids_open_in kids_open_out : quiet.

(** What survives quiet steps. *)
Definition steady (P : Sh Y → Prop) : Prop :=
  ∀ s s', jobs s' = jobs s → next_job_id s' = next_job_id s → ages (kids (sys s)) (kids (sys s')) → P s → P s' ∧ jobs_ok s'.

Lemma hold_steady l : steady (hold l).
Proof. intros s s' E1 E2 Ha Hs. split; eapply hold_ages; try done. apply sublist_nil_l. Qed.
Lemma jobs_ok_steady : steady jobs_ok.
Proof. apply hold_steady. Qed.

Lemma keeps_quiet {A} (m : SM A) (P : Sh Y → Prop) : quiet m → steady P → keeps P m (λ _, P).
Proof.
  intros Hm HP s Hs. destruct (Hm s) as (E1 & E2 & E3). destruct (HP s (m s).2 E1 E2 E3 Hs).
  destruct (m s) as [[] ?]; auto.
Qed.
Lemma keeps_ok {A} (m : SM A) : quiet m → keeps jobs_ok m (λ _, jobs_ok).
Proof. intros Hm. apply keeps_quiet; [done|]. apply jobs_ok_steady. Qed.

(** What a computation returns, when it does. *)
Definition returns {A} (m : SM A) (Φ : A → Prop) : Prop := ∀ s a s', m s = (Ok a, s') → Φ a.

Lemma returns_bind {A B} (m : SM A) (f : A → SM B) Φ Ψ : returns m Φ → (∀ a, Φ a → returns (f a) Ψ) → returns (m ≫= f) Ψ.
Proof.
  intros Hm Hf s b s'. unfold mbind, M_bind. destruct (m s) as [[a|e|] s1] eqn:E; [|done..]. intros Hb.
  by eapply Hf; [eapply Hm|].
Qed.
Lemma returns_true {A} (m : SM A) : returns m (λ _, True).
Proof. done. Qed.
Lemma returns_mret {A} (a : A) (Φ : A → Prop) : Φ a → returns (mret a) Φ.
Proof. by intros Ha s b s' [= <- _]. Qed.

(** A quiet step whose result is known. *)
Lemma keeps_step {A B} (P : Sh Y → Prop) (m : SM A) (f : A → SM B) Φ Q :
  quiet m → returns m Φ → steady P → (∀ a, Φ a → keeps P (f a) Q) → keeps P (m ≫= f) Q.
Proof.
  intros Hq Hr HP Hf s Hs. destruct (Hq s) as (E1 & E2 & E3). specialize (Hr s). destruct (HP s (m s).2 E1 E2 E3 Hs) as [HP' Hok].
  unfold mbind, M_bind. destruct (m s) as [[a|e|] s1]; [|done..]. simpl in *. by apply (Hf a (Hr a s1 eq_refl)).
Qed.
Lemma keeps_then {A B} (P : Sh Y → Prop) (m : SM A) (f : A → SM B) Q :
  quiet m → steady P → (∀ a, keeps P (f a) Q) → keeps P (m ≫= f) Q.
Proof. intros Hq HP Hf. eapply keeps_step; [done|apply returns_true|done|auto]. Qed.

(** *** Reaping *)

(** The processes kept of [l] when time goes from [y] to [y']: none had exited
    before, and they are exactly the children that are left. *)
Record kept (y y' : Y) (l l' : list Z) : Prop := {
  kp_sub : l' `sublist_of` l;
  kp_live pid : pid ∈ l' → kids y !! pid ≠ Some true;
  kp_left pid : pid ∈ l → is_Some (kids y' !! pid) ↔ pid ∈ l' }.
(** The children outside [l] stay. *)
Definition others_stay (y y' : Y) (l : list Z) : Prop :=
  ∀ pid, pid ∉ l → (is_Some (kids y' !! pid) ↔ is_Some (kids y !! pid)) ∧ (kids y !! pid = Some true → kids y' !! pid = Some true).

Definition same_jobs (s s' : Sh Y) : Prop := jobs s' = jobs s ∧ next_job_id s' = next_job_id s.

Lemma others_stay_ages y y' y2 l : others_stay y y' l → ages (kids y') (kids y2) → others_stay y y2 l.
Proof. intros Ho [A1 A2] pid Hp. destruct (Ho pid Hp) as [<- ?]. split; [apply A1|auto]. Qed.

Lemma sublist_in {A} (l l' : list A) x : l' `sublist_of` l → x ∈ l' → x ∈ l.
Proof. intros Hs Hx. eapply elem_of_submseteq; [exact Hx|by apply sublist_submseteq]. Qed.

(** One process is asked about first: it has exited, or it stays. *)
Lemma kept_gone y y1 y' pid l l' : pid ∉ l → ages (delete pid (kids y)) (kids y1) →
  kept y1 y' l l' ∧ others_stay y1 y' l → kept y y' (pid :: l) l' ∧ others_stay y y' (pid :: l).
Proof.
  intros Hpid [A1 A2] [[K1 K2 K3] Ho].
  assert (Hk1 : ∀ q, q ≠ pid → (is_Some (kids y1 !! q) ↔ is_Some (kids y !! q)) ∧ (kids y !! q = Some true → kids y1 !! q = Some true)).
  { intros q Hq. rewrite A1, lookup_delete_ne by done. split; [done|]. intros E. apply A2. by rewrite lookup_delete_ne. }
  split; [split|].
  - by apply sublist_cons.
  - intros q Hq E. apply (K2 q Hq). apply Hk1; [|done]. intros ->. by eapply Hpid, sublist_in.
  - intros q [->|Hq]%elem_of_cons; [|by apply K3]. destruct (Ho pid Hpid) as [-> _]. split; intros Hc; exfalso.
    + apply A1 in Hc. rewrite lookup_delete_eq in Hc. by destruct Hc.
    + by eapply Hpid, sublist_in.
  - intros q [Hq1 Hq2]%not_elem_of_cons. destruct (Ho q Hq2) as [-> Ho2]. destruct (Hk1 q Hq1) as [<- ?]. split; [done|]. auto.
Qed.

Lemma kept_stays y y1 y' pid l l' : pid ∉ l → ages (kids y) (kids y1) → kids y !! pid ≠ Some true → is_Some (kids y !! pid) →
  kept y1 y' l l' ∧ others_stay y1 y' l → kept y y' (pid :: l) (pid :: l') ∧ others_stay y y' (pid :: l).
Proof.
  intros Hpid [A1 A2] Hlive Hsome [[K1 K2 K3] Ho]. split; [split|].
  - by apply sublist_skip.
  - intros q [->|Hq]%elem_of_cons; [done|]. intros E. by apply (K2 q Hq), A2.
  - intros q Hq. rewrite elem_of_cons in Hq |- *. destruct Hq as [->|Hq].
    + split; [by left|]. intros _. destruct (Ho pid Hpid) as [-> _]. by apply A1.
    + rewrite (K3 q Hq). split; [by right|]. intros [->|?]; [by contradict Hpid|done].
  - intros q [Hq1 Hq2]%not_elem_of_cons. destruct (Ho q Hq2) as [-> Ho2]. rewrite A1. split; [done|]. auto.
Qed.

Lemma reap_pids_spec l (s : Sh Y) : NoDup l → (∀ pid, pid ∈ l → is_Some (kids (sys s) !! pid)) →
  ∃ l' st s', reap_pids l s = (Ok (l', st), s') ∧ same_jobs s s' ∧ kept (sys s) (sys s') l l' ∧ others_stay (sys s) (sys s') l.
Proof.
  revert s. induction l as [|pid l IH]; intros s Hnd Hk; cbn [reap_pids].
  { exists [], false, s. split; [done|]. split; [done|]. split; [split|]; try done; by intros pid ?%not_elem_of_nil. }
  apply NoDup_cons in Hnd as [Hpid Hnd]. pose proof (kids_wait pid true (sys s)) as Hw.
  assert (Hpk : is_Some (kids (sys s) !! pid)) by (apply Hk; by left).
  unfold mbind at 1, M_bind, attempt, on_sys. destruct (sys_waitpid pid true (sys s)) as [[[p status]|e|] y]; [| |done].
  all: set (s1 := mkSh _ _ _ y).
  - destruct (decide (p ≠ 0 ∧ status_stopped status = None)) as [[Hp Hst]|Hno].
    + destruct (IH s1 Hnd) as (l' & st & s' & Hrun & Hsame & HK).
      { intros q Hq. apply Hw. rewrite lookup_delete_ne by (by intros ->). apply Hk. by right. }
      exists l', st, s'. split; [destruct p; try done; by rewrite Hst|]. split; [done|]. by apply (kept_gone _ y).
    + destruct Hw as [Hlive Ha]. specialize (Hlive eq_refl).
      destruct (IH s1 Hnd) as (l' & st & s' & Hrun & Hsame & HK); [intros q Hq; apply Ha, Hk; by right|].
      destruct (status_stopped status) eqn:Hs, p; try (exfalso; by apply Hno);
        (eexists (pid :: l'), _, s'; split; [unfold mbind, M_bind; rewrite Hrun; reflexivity|]; split; [done|]; by apply (kept_stays _ y)).
  - destruct Hw as [Hlive Ha]. specialize (Hlive eq_refl).
    destruct (IH s1 Hnd) as (l' & st & s' & Hrun & Hsame & HK); [intros q Hq; apply Ha, Hk; by right|].
    exists (pid :: l'), st, s'. split; [unfold mbind, M_bind; by rewrite Hrun|]. split; [done|]. by apply (kept_stays _ y).
Qed.

Lemma kept_ages y y' y2 l l' : ages (kids y') (kids y2) →
  kept y y' l l' ∧ others_stay y y' l → kept y y2 l l' ∧ others_stay y y2 l.
Proof.
  intros Ha [[K1 K2 K3] Ho]. split; [|by eapply others_stay_ages]. split; [done..|].
  intros pid Hp. rewrite <-(K3 pid Hp). apply Ha.
Qed.

Lemma kept_app y y1 y2 l1 l1' l2 l2' : (∀ x, x ∈ l1 → x ∉ l2) →
  kept y y1 l1 l1' ∧ others_stay y y1 l1 → kept y1 y2 l2 l2' ∧ others_stay y1 y2 l2 →
  kept y y2 (l1 ++ l2) (l1' ++ l2') ∧ others_stay y y2 (l1 ++ l2).
Proof.
  intros Hd [[K1 K2 K3] Ho] [[L1 L2 L3] Hp].
  assert (Hd2 : ∀ x, x ∈ l2 → x ∉ l1) by (intros x Hx Hx'; by eapply Hd).
  split; [split|].
  - by apply sublist_app.
  - intros pid [Hin|Hin]%elem_of_app; [by apply K2|]. intros E. apply (L2 pid Hin).
    apply Ho; [|done]. by eapply Hd2, sublist_in.
  - intros pid. rewrite !elem_of_app. intros [Hin|Hin].
    + destruct (Hp pid (Hd _ Hin)) as [-> _]. rewrite (K3 pid Hin). split; [by left|]. intros [?|Hc]; [done|].
      exfalso. by eapply Hd, sublist_in.
    + rewrite (L3 pid Hin). split; [by right|]. intros [Hc|?]; [|done]. exfalso. by eapply Hd2, sublist_in.
  - intros pid [H1 H2]%not_elem_of_app. destruct (Hp pid H2) as [-> Hp2], (Ho pid H1) as [-> Ho2]. split; [done|]. auto.
Qed.

Lemma reap_loop_spec todo (s : Sh Y) : NoDup (pids_of todo) → (∀ pid, pid ∈ pids_of todo → is_Some (kids (sys s) !! pid)) →
  ∃ l s', reap_loop todo s = (Ok l, s') ∧ same_jobs s s' ∧
    (kept (sys s) (sys s') (pids_of todo) (pids_of l) ∧ others_stay (sys s) (sys s') (pids_of todo)) ∧
    (j_id <$> l) `sublist_of` (j_id <$> todo) ∧ Forall (λ j, j_pids j ≠ []) l.
Proof.
  revert s. induction todo as [|j todo IH]; intros s Hnd Hk; cbn [reap_loop].
  { exists [], s. split_and!; try done. split; [done|..]; by intros pid ?%not_elem_of_nil. }
  unfold pids_of in Hnd, Hk |- *. cbn [fmap list_fmap mjoin list_join] in Hnd, Hk |- *. fold (pids_of todo) in Hnd, Hk |- *.
  apply NoDup_app in Hnd as (Hn1 & Hdis & Hn2).
  destruct (reap_pids_spec (j_pids j) s Hn1) as (pids & st & s1 & Hrun & [E1 E2] & HK); [intros pid Hp; apply Hk, elem_of_app; by left|].
  rewrite (bind_ok _ _ _ _ _ Hrun).
  assert (Hk1 : ∀ q, q ∈ pids_of todo → is_Some (kids (sys s1) !! q)).
  { intros q Hq. destruct HK as [_ Ho]. apply Ho; [|apply Hk, elem_of_app; by right]. intros Hc. by eapply Hdis. }
  set (j' := mkJob _ _ _ _ _ _). assert (∃ s2, (if st then print (MStopped (j_id j') (j_cmd j')) else mret ()) s1 = (Ok (), s2) ∧ same_jobs s1 s2 ∧ ages (kids (sys s1)) (kids (sys s2))) as (s2 & Hp & [F1 F2] & Ha2).
  { destruct st; [|by exists s1]. eexists. split; [done|]. split; [done|]. apply kids_say. }
  rewrite (bind_ok _ _ _ _ _ Hp).
  destruct pids as [|p ps].
  - rewrite (bind_ok (print _) _ _ _ _ eq_refl). set (s3 := mkSh _ _ _ _).
    assert (Ha3 : ages (kids (sys s1)) (kids (sys s3))) by (etrans; [exact Ha2|apply kids_say]).
    destruct (IH s3 Hn2) as (l & s' & Hl & [G1 G2] & HK2 & Hs & Hf); [intros q Hq; by apply Ha3, Hk1|].
    exists l, s'. split; [done|]. split; [split; cbn in *; congruence|]. split; [|split; [by apply sublist_cons|done]].
    exact (kept_app _ _ _ _ [] _ _ Hdis (kept_ages _ _ _ _ _ Ha3 HK) HK2).
  - destruct (IH s2 Hn2) as (l & s' & Hl & [G1 G2] & HK2 & Hs & Hf); [intros q Hq; by apply Ha2, Hk1|].
    exists (j' :: l), s'. split; [by rewrite (bind_ok _ _ _ _ _ Hl)|]. split; [split; congruence|].
    split; [|split; [by apply sublist_skip|by constructor]].
    exact (kept_app _ _ _ _ (p :: ps) _ _ Hdis (kept_ages _ _ _ _ _ Ha2 HK) HK2).
Qed.

(** What reaping does: the processes that are left in the list are the children
    that are left, and none of them had exited before. *)
Lemma reap_jobs_spec s : jobs_ok s →
  ∃ s', reap_jobs s = (Ok (), s') ∧ jobs_ok s' ∧
    (∀ pid, pid ∈ pids_of (jobs s) → kids (sys s) !! pid = Some true → pid ∉ pids_of (jobs s')) ∧
    (∀ pid, pid ∈ pids_of (jobs s') ↔ pid ∈ pids_of (jobs s) ∧ is_Some (kids (sys s') !! pid)).
Proof.
  intros (Hnum & Hnd & Hk). rewrite app_nil_r in Hnd, Hk.
  destruct (reap_loop_spec (jobs s) s Hnd Hk) as (l & s1 & Hrun & [E1 E2] & [[K1 K2 K3] Ho] & Hsub & Hne).
  exists (mkSh l (next_job_id s1) (env s1) (sys s1)). split.
  { unfold reap_jobs. rewrite (bind_ok m_get _ _ _ _ eq_refl), (bind_ok _ _ _ _ _ Hrun). done. }
  split; [split; [|split]|].
  - destruct Hnum as (N1 & N2 & N3). unfold numbered. cbn. rewrite E2. split_and!; [by apply (sublist_NoDup _ _ N1)| |done].
    apply Forall_forall. intros j Hj. split; [|by apply (proj1 (Forall_forall _ _) Hne)].
    assert (Hin : j_id j ∈ j_id <$> jobs s) by (eapply sublist_in; [exact Hsub|by apply list_elem_of_fmap_2]).
    apply list_elem_of_fmap in Hin as (j' & -> & Hj'). by apply (proj1 (Forall_forall _ _) N2).
  - cbn. rewrite app_nil_r. by apply (sublist_NoDup _ _ Hnd).
  - cbn. rewrite app_nil_r. intros pid Hp. apply K3; [by eapply sublist_in|done].
  - cbn. split; [intros pid Hp E Hin; by eapply K2|]. intros pid. split.
    + intros Hin. assert (pid ∈ pids_of (jobs s)) by (by eapply sublist_in). split; [done|]. by apply K3.
    + intros [Hin Hs]. by apply K3.
Qed.

(** *** Waiting in the foreground *)

Lemma wait_loop_spec fuel j st s : hold (j_pids j) s →
  match wait_loop fuel j st s with
  | (Ok (j', stopped, _), s') => same_jobs s s' ∧ hold (j_pids j') s' ∧ j_id j' = j_id j ∧ (stopped = true → j_pids j' ≠ [])
  | (_, s') => same_jobs s s' ∧ jobs_ok s'
  end.
Proof.
  revert j st s. induction fuel as [|fuel IH]; intros j st s Hs; cbn [wait_loop]; destruct (j_pids j) as [|pid rest] eqn:E.
  { cbn. rewrite E. by split_and!. }
  { cbn. split; [done|]. eapply hold_ages; try done. apply sublist_nil_l. }
  { cbn. rewrite E. by split_and!. }
  unfold mbind at 1, M_bind, attempt, on_sys at 1. pose proof (kids_wait pid false (sys s)) as Hw.
  pose proof (kids_blocks pid (sys s)) as Hb.
  destruct (sys_waitpid pid false (sys s)) as [[[p status]|e|] y]; [| |done]; set (s1 := mkSh _ _ _ y).
  - specialize (Hb _ _ _ eq_refl). destruct (status_stopped status) eqn:Hst.
    + rewrite decide_False in Hw by naive_solver. cbn. split_and!; try done.
      by eapply (hold_ages _ _ s s1); [exact Hs|..|exact (proj2 Hw)].
    + rewrite decide_True in Hw by done. set (j1 := mkJob _ _ rest _ _ _).
      specialize (IH j1 (if pid =? j_last_pid j then exit_status_code status else st) s1). apply IH. 
      eapply (hold_sub (pid :: rest) rest s s1); try done; [by apply sublist_cons|].
      intros q Hq Hk. apply Hw. rewrite lookup_delete_ne; [done|]. intros <-. destruct Hs as (_ & Hnd & _).
      rewrite <-Permutation_middle in Hnd. apply NoDup_cons in Hnd as [Hnd _]. done.
  - assert (H1 : hold (j_pids j) s1) by (rewrite E; eapply (hold_ages _ _ s s1); [exact Hs|..|exact (proj2 Hw)]; done).
    assert (Hno : same_jobs s s1 ∧ jobs_ok s1) by (split; [done|]; eapply hold_ages; try done; apply sublist_nil_l).
    destruct e; try exact Hno. 
    assert (Hq : quiet (ignore_err (on_sys sys_sleep))) by auto with quiet. destruct (Hq s1) as (Q1 & Q2 & Q3). unfold mbind, M_bind.
    destruct (hold_steady (j_pids j) s1 (ignore_err (on_sys sys_sleep) s1).2 Q1 Q2 Q3 H1) as [H2 H2'].
    destruct (ignore_err (on_sys sys_sleep) s1) as [[[]|e|] s2]; cbn [snd] in *; [|cbn; by split..].
    specialize (IH j st s2 H2). destruct (wait_loop fuel j st s2) as [[[[j' sp] st']|e|] s3]; destruct IH as [[I1 I2] IH]; (split; [split; cbn in *; congruence|done]).
Qed.

(** Waiting for a job the shell holds; [P] does not depend on the system. *)
Lemma keeps_wait (P : Sh Y → Prop) j :
  (∀ s s', same_jobs s s' → P s → P s') →
  keeps (λ s, P s ∧ hold (j_pids j) s) (attempt (wait_foreground j)) (λ r s, P s ∧
    match r with
    | inl (j', stopped, _) => hold (j_pids j') s ∧ j_id j' = j_id j ∧ ((stopped : bool) = true → j_pids j' ≠ [])
    | inr _ => jobs_ok s
    end).
Proof.
  intros HP s [Hp Hs]. unfold attempt, wait_foreground.
  pose proof (wait_loop_spec (length (j_pids j) + interrupts (sys s)) j 1 s Hs) as Hw.
  destruct (wait_loop _ j 1 s) as [[[[j' st] v]|e|] s'].
  - destruct Hw as (Hsame & Hw). split; [by eapply HP|done].
  - destruct Hw as (Hsame & Hw). split; [by eapply HP|done].
  - apply Hw.
Qed.

Lemma continue_job_quiet j : quiet (continue_job j).
Proof. unfold continue_job. case_match; auto 7 with quiet. Qed.
Lemma continue_job_returns j : returns (continue_job j) (λ j', j_id j' = j_id j ∧ j_pids j' = j_pids j).
Proof.
  unfold continue_job. case_match; [|by apply returns_mret]. eapply returns_bind; [apply returns_true|]. intros _ _. by apply returns_mret.
Qed.

(** The number [id] is not in use. *)
Definition unused (id : Z) (s : Sh Y) : Prop := (id ∉ (j_id <$> jobs s)) ∧ 0 < id < next_job_id s.
Lemma unused_same id s s' : same_jobs s s' → unused id s → unused id s'.
Proof. unfold unused. by intros [-> ->]. Qed.
Lemma unused_steady id l : steady (λ s, unused id s ∧ hold l s).
Proof.
  intros s s' E1 E2 Ha [Hu Hh]. destruct (hold_steady l s s' E1 E2 Ha Hh). split_and!; [|done..]. by eapply unused_same.
Qed.

(** A job with the processes held is added under an unused number. *)
Lemma hold_add j s nx : hold (j_pids j) s → j_pids j ≠ [] → j_id j ∉ (j_id <$> jobs s) → 0 < j_id j < nx → next_job_id s ≤ nx →
  jobs_ok (mkSh (jobs s ++ [j]) nx (env s) (sys s)).
Proof.
  intros ((Hn1 & Hn2 & Hn3) & Hnd & Hk) Hne Hid Hlt Hnx.
  assert (E : pids_of (jobs s ++ [j]) ++ [] = pids_of (jobs s) ++ j_pids j).
  { rewrite pids_of_app. unfold pids_of at 2. cbn. by rewrite !app_nil_r. }
  split; [|cbn [jobs sys]; rewrite E; done]. unfold numbered. cbn. rewrite fmap_app. split_and!; [| |lia].
  - apply list.NoDup_app. split_and!; [done| |by apply NoDup_singleton]. intros x Hx Hx'. by apply list_elem_of_singleton in Hx' as ->.
  - apply Forall_app. split; [|by apply Forall_singleton]. eapply Forall_impl; [done|]. intros j' [? ?]. split; [lia|done].
Qed.

Lemma keeps_put_back {A} (j : Job) (r : A) : j_pids j ≠ [] →
  keeps (λ s, unused (j_id j) s ∧ hold (j_pids j) s) (s ← m_get; _ ← put_jobs (jobs s ++ [j]); mret r) (λ _, jobs_ok).
Proof. intros Hne s [[Hid Hlt] Hh]. cbn. by apply hold_add. Qed.

Lemma keeps_add_job j : j_pids j ≠ [] → keeps (hold (j_pids j)) (add_job j) (λ _, jobs_ok).
Proof.
  intros Hne s Hs. unfold add_job. pose proof Hs as ((_ & Hf & Hn) & _).
  apply (hold_add (mkJob (next_job_id s) _ _ _ _ _)); try done; cbn; try lia.
  intros (j' & E & Hj')%list_elem_of_fmap. apply (proj1 (Forall_forall _ _) Hf) in Hj' as [? _]. lia.
Qed.

Lemma position_Some id l pos : position id l = Some pos → ∃ j, l !! pos = Some j ∧ j_id j = id.
Proof.
  revert pos. induction l as [|j l IH]; intros pos; simpl; [done|]. destruct (Z.eqb_spec (j_id j) id).
  - intros [= <-]. eauto.
  - intros (k & Hk & ->)%fmap_Some. by apply IH.
Qed.

(** A job is taken out of the list. *)
Lemma delete_taken s pos j : jobs_ok s → jobs s !! pos = Some j →
  j_pids j ≠ [] ∧ let s' := mkSh (delete pos (jobs s)) (next_job_id s) (env s) (sys s) in unused (j_id j) s' ∧ hold (j_pids j) s'.
Proof.
  intros ((Hnd & Hf & Hn) & Hnd2 & Hk) Hj. destruct (proj1 (Forall_lookup _ _) Hf _ _ Hj) as [Hid Hne]. split; [done|].
  assert (Hperm : pids_of (jobs s) ++ [] ≡ₚ pids_of (delete pos (jobs s)) ++ j_pids j).
  { rewrite app_nil_r, <-(take_drop_middle _ _ _ Hj) at 1. rewrite delete_take_drop, !pids_of_app.
    unfold pids_of at 2. cbn. fold (pids_of (drop (S pos) (jobs s))). solve_Permutation. }
  rewrite <-(take_drop_middle _ _ _ Hj) in Hnd. rewrite fmap_app, fmap_cons in Hnd.
  rewrite <-Permutation_middle, NoDup_cons in Hnd. destruct Hnd as [Hni Hnd]. cbn. unfold unused, hold, numbered. cbn.
  rewrite <-Hperm. rewrite delete_take_drop, fmap_app. split_and!; try done; try lia.
  - apply Forall_app. split; [by apply Forall_take|by apply Forall_drop].
  - intros pid Hp. apply Hk. rewrite Hperm, delete_take_drop. exact Hp.
Qed.

Lemma keeps_say {A} t (r : A) : keeps jobs_ok (_ ← print t; mret r) (λ _, jobs_ok).
Proof. apply keeps_ok. auto with quiet. Qed.

Lemma keeps_pre {A} (P P' : Sh Y → Prop) (m : SM A) (Q : A → Sh Y → Prop) : keeps P m Q → (∀ s, P' s → P s) → keeps P' m Q.
Proof. intros Hm HP s Hs. by apply Hm, HP. Qed.

Lemma hold_jobs_ok l s : hold l s → jobs_ok s.
Proof. intros Hh. eapply hold_ages; try done. apply sublist_nil_l. Qed.

Lemma keeps_fg args pgid : keeps jobs_ok (run_fg args pgid) (λ _, jobs_ok).
Proof.
  intros s Hs. unfold run_fg. unfold mbind at 1, M_bind. cbn [m_get].
  destruct (parse_job_id _ _) as [id|]; [|by apply keeps_say].
  destruct (position id (jobs s)) as [pos|] eqn:Ep; [|by apply keeps_say].
  destruct (position_Some _ _ _ Ep) as (j & Hj & Hid). rewrite Hj. destruct (delete_taken s pos j Hs Hj) as [Hne Ht].
  unfold mbind at 1, M_bind. cbn [put_jobs]. revert Ht. generalize (mkSh (delete pos (jobs s)) (next_job_id s) (env s) (sys s)).
  assert (Hk : keeps (λ s, unused (j_id j) s ∧ hold (j_pids j) s) (j1 ← continue_job j; _ ← ignore_err (on_sys (sys_tcsetpgrp (j_pgid j1)));
    r ← attempt (wait_foreground j1); _ ← ignore_err (on_sys (sys_tcsetpgrp pgid));
    match r with
    | inl (j2, true, _) => _ ← print (MStopped (j_id j2) (j_cmd j2)); s ← m_get; _ ← put_jobs (jobs s ++ [j2]); mret (Status 1)
    | inl (_, false, status) => mret (Status status)
    | inr e => _ ← print (MError e); mret (Status 1)
    end) (λ _, jobs_ok)); [|intros s'; exact (Hk s')].
  eapply keeps_step; [apply continue_job_quiet|apply continue_job_returns|apply unused_steady|]. intros j1 [Hid1 Hp1].
  apply keeps_then; [auto with quiet|apply unused_steady|]. intros _. rewrite <-Hid1, <-Hp1.
  eapply keeps_bind_seq; [apply keeps_wait, unused_same|]. intros [[[j2 st] v]|e].
  - destruct st.
    + intros s1 (Hu & Hh & Hid2 & Hne2). specialize (Hne2 eq_refl). rewrite <-Hid2 in Hu. revert s1 Hu Hh.
      assert (Hk : keeps (λ s, unused (j_id j2) s ∧ hold (j_pids j2) s) (_ ← ignore_err (on_sys (sys_tcsetpgrp pgid));
        _ ← print (MStopped (j_id j2) (j_cmd j2)); s ← m_get; _ ← put_jobs (jobs s ++ [j2]); mret (Status 1)) (λ _, jobs_ok)); [|intros s1 Hu Hh; by apply (Hk s1)].
      apply keeps_then; [auto with quiet|apply unused_steady|]. intros _.
      apply keeps_then; [auto with quiet|apply unused_steady|]. intros _. by apply keeps_put_back.
    + apply (keeps_pre jobs_ok); [|intros s1 (_ & Hh & _); by eapply hold_jobs_ok]. apply keeps_ok. auto with quiet.
  - apply (keeps_pre jobs_ok); [|by intros s1 [_ ?]]. apply keeps_ok. auto with quiet.
Qed.

Lemma pids_of_insert l pos j j' : l !! pos = Some j → j_pids j' = j_pids j → pids_of (<[pos := j']> l) = pids_of l.
Proof.
  intros Hj E. unfold pids_of. rewrite list_fmap_insert, E, list_insert_id; [done|]. by rewrite list_lookup_fmap, Hj.
Qed.

Lemma keeps_bg args : keeps jobs_ok (run_bg args) (λ _, jobs_ok).
Proof.
  intros s Hs. unfold run_bg. unfold mbind at 1, M_bind. cbn [m_get].
  destruct (parse_job_id _ _) as [id|]; [|by apply keeps_say].
  destruct (position id (jobs s)) as [pos|] eqn:Ep; [|by apply keeps_say].
  destruct (position_Some _ _ _ Ep) as (j & Hj & Hid). rewrite Hj.
  assert (Hk : keeps (λ s', jobs_ok s' ∧ jobs s' = jobs s) (j1 ← continue_job j; _ ← put_jobs (<[pos := j1]> (jobs s));
    _ ← print (MJob (j_id j1) false (j_cmd j1)); mret (Status 0)) (λ _, jobs_ok)); [|by apply Hk].
  eapply keeps_step; [apply continue_job_quiet|apply continue_job_returns| |].
  { intros s1 s2 E1 E2 Ha [Hok E]. destruct (jobs_ok_steady s1 s2 E1 E2 Ha Hok). rewrite E1. done. }
  intros j1 [E1 E2]. eapply (keeps_bind_seq _ _ _ (λ _, jobs_ok)); [|intros _; apply keeps_say].
  intros s1 [((Hnd & Hf & Hn) & Hrest) Ejobs]. rewrite Ejobs in *. unfold jobs_ok, hold, numbered. cbn [put_jobs jobs next_job_id sys].
  rewrite (pids_of_insert _ _ j) by done. split; [|done]. split_and!; [|apply Forall_insert; [done|]|done].
  - rewrite list_fmap_insert, E1, list_insert_id; [done|]. by rewrite list_lookup_fmap, Hj.
  - rewrite E1, E2. by apply (proj1 (Forall_lookup _ _) Hf _ _ Hj).
Qed.

Lemma export_quiet args st : quiet (export_loop args st).
Proof.
  revert st. induction args as [|a args IH]; intros st; simpl; [auto with quiet|].
  destruct (split_once 61 a) as [[k v]|]; [|auto with quiet]. apply quiet_bind; [auto with quiet|]. intros s.
  destruct (set_var k v (env s)) as [[] e]; auto with quiet.
Qed.

Lemma keeps_builtin cmd pgid : keeps jobs_ok (run_builtin cmd pgid) (λ _, jobs_ok).
Proof.
  unfold run_builtin. destruct (argv cmd) as [|c args]; [by apply keeps_mret|].
  repeat (case_bool_decide; [try by apply keeps_mret|]); try by apply keeps_mret.
  - apply keeps_ok. apply quiet_bind; [|auto with quiet]. unfold run_cd. apply quiet_bind; [auto with quiet|].
    intros [|]; auto with quiet.
  - apply keeps_ok. apply quiet_bind; [|auto with quiet]. unfold run_export. case_match; [auto 6 with quiet|].
    apply quiet_bind; [apply export_quiet|auto with quiet].
  - apply keeps_ok. auto 6 with quiet.
  - eapply keeps_bind_seq; [apply keeps_fg|]. intros r. by apply keeps_mret.
  - eapply keeps_bind_seq; [apply keeps_bg|]. intros r. by apply keeps_mret.
Qed.

(** *** Starting a pipeline *)

Lemma hold_spawn l s r pid pipe y : hold l s → sys_spawn r (sys s) = (Ok (pid, pipe), y) →
  hold (l ++ [pid]) (mkSh (jobs s) (next_job_id s) (env s) y).
Proof.
  intros (Hnum & Hnd & Hk) Hsp. pose proof (kids_spawn r (sys s)) as Hs. rewrite Hsp in Hs. destruct Hs as [Hfresh [Ha _]].
  split; [done|]. cbn. rewrite app_assoc. split.
  - apply list.NoDup_app. split_and!; [done| |by apply NoDup_singleton]. intros x Hx Hx'. apply list_elem_of_singleton in Hx' as ->.
    destruct (Hk _ Hx) as [b Hb]. congruence.
  - intros q Hq. apply Ha. rewrite elem_of_app, list_elem_of_singleton in Hq. destruct (decide (q = pid)) as [->|Hne].
    + rewrite lookup_insert_eq. eauto.
    + rewrite lookup_insert_ne by done. apply Hk. naive_solver.
Qed.

Lemma keeps_spawn n i bg prev pg pids lp cs :
  keeps (hold pids) (spawn_loop n i bg prev pg pids lp cs) (λ r s, match r with Some (l, _, _) => hold l s | None => jobs_ok s end).
Proof.
  revert i prev pg pids lp. induction cs as [|c cs IH]; intros i prev pg pids lp; cbn [spawn_loop]; [by apply keeps_mret|].
  destruct (argv c); [apply keeps_mret, hold_jobs_ok|].
  apply keeps_then; [repeat case_match; auto with quiet|apply hold_steady|]. intros si.
  apply keeps_then; [repeat case_match; auto with quiet|apply hold_steady|]. intros so.
  intros s Hs. set (r := mkSpawn _ _ _ _ _). pose proof (kids_spawn r (sys s)) as Hk.
  unfold mbind at 1, M_bind, attempt, on_sys at 1. destruct (sys_spawn r (sys s)) as [[[pid pipe]|e|] y] eqn:Esp.
  - pose proof (hold_spawn _ _ _ _ _ _ Hs Esp) as Hs1. revert Hs1. generalize (mkSh (jobs s) (next_job_id s) (env s) y).
    match goal with |- ∀ s, _ → match ?m s with _ => _ end =>
      enough (Hk' : keeps (hold (pids ++ [pid])) m (λ r s, match r with Some (l, _, _) => hold l s | None => jobs_ok s end)) by exact Hk' end.
    apply keeps_then; [auto with quiet|apply hold_steady|]. intros _.
    apply keeps_then; [case_match; auto with quiet|apply hold_steady|]. intros _. apply IH.
  - destruct (jobs_ok_steady s (mkSh (jobs s) (next_job_id s) (env s) y) eq_refl eq_refl Hk) as [_ Hok]; [by eapply hold_jobs_ok|].
    exact (keeps_say (MError e) (None (A := list Z * option Z * Z)) _ Hok).
  - by eapply (jobs_ok_steady s); [..|exact Hk|by eapply hold_jobs_ok].
Qed.

Lemma keeps_pipeline p pgid : keeps jobs_ok (run_pipeline p pgid) (λ _, jobs_ok).
Proof.
  unfold run_pipeline. destruct (bad_redirect p); [apply keeps_say|].
  eapply keeps_bind_seq; [apply keeps_spawn|].
  intros [[[[|pid pids] pg] lp]|]; [apply keeps_mret, hold_jobs_ok| |by apply keeps_mret]. destruct (background p).
  - eapply keeps_bind_seq; [by apply (keeps_add_job (mkJob _ _ (pid :: pids) _ _ _))|]. intros id. apply keeps_say.
  - set (j := mkJob _ _ _ _ _ _). change (pid :: pids) with (j_pids j).
    apply keeps_then; [auto with quiet|apply hold_steady|]. intros _.
    eapply keeps_bind_seq; [eapply keeps_pre; [by apply (keeps_wait (λ _, True) j)|done]|].
    intros [[[j2 st] v]|e].
    + destruct st.
      * intros s1 (_ & Hh & _ & Hne). specialize (Hne eq_refl). revert s1 Hh.
        match goal with |- ∀ s, _ → match ?m s with _ => _ end => enough (Hk : keeps (hold (j_pids j2)) m (λ _, jobs_ok)) by exact Hk end.
        apply keeps_then; [auto with quiet|apply hold_steady|]. intros _.
        eapply keeps_bind_seq; [by apply keeps_add_job|]. intros id. apply keeps_say.
      * apply (keeps_pre jobs_ok); [|intros s1 (_ & Hh & _); by eapply hold_jobs_ok]. apply keeps_ok. auto with quiet.
    + apply (keeps_pre jobs_ok); [|by intros s1 [_ ?]]. apply keeps_ok. auto with quiet.
Qed.

Lemma keeps_attempt {A} (m : SM A) : keeps jobs_ok m (λ _, jobs_ok) → keeps jobs_ok (attempt m) (λ _, jobs_ok).
Proof. intros Hm s Hs. specialize (Hm s Hs). unfold attempt. by destruct (m s) as [[] ?]. Qed.

Lemma keeps_item pgid p : keeps jobs_ok (run_item pgid p) (λ _, jobs_ok).
Proof.
  unfold run_item. assert (Hrun : keeps jobs_ok (r ← attempt (run_pipeline p pgid);
    match r with inl st => mret (Some st) | inr e => _ ← print (MError e); mret (Some 1) end) (λ _, jobs_ok)).
  { eapply keeps_bind_seq; [apply keeps_attempt, keeps_pipeline|]. intros [st|e]; [by apply keeps_mret|apply keeps_say]. }
  destruct (cmds p) as [|c cs]; [done|]. eapply keeps_bind_seq; [apply keeps_builtin|]. intros r.
  case_match; destruct r as [[st|]|]; try done; try (by apply keeps_mret); apply keeps_say.
Qed.

Lemma keeps_chain pgid st l : keeps jobs_ok (run_chain pgid st l) (λ _, jobs_ok).
Proof.
  revert st. induction l as [|i l IH]; intros st; cbn [run_chain]; [by apply keeps_mret|].
  case_match; [done|]. eapply keeps_bind_seq; [apply keeps_item|]. intros [r|]; [apply IH|by apply keeps_mret].
Qed.

Lemma keeps_line line pgid : keeps jobs_ok (execute_line line pgid) (λ _, jobs_ok).
Proof.
  unfold execute_line. destruct (tokenize line ≫= parse_line) as [a|e|]; [|apply keeps_say|by apply keeps_ok].
  induction a as [|ch l IH]; cbn [run_sequences]; [by apply keeps_mret|].
  eapply keeps_bind_seq; [apply keeps_chain|]. intros [r|]; [done|by apply keeps_mret].
Qed.

Lemma keeps_for l todo pgid : keeps jobs_ok (run_for l todo pgid) (λ _, jobs_ok).
Proof.
  induction todo as [|item todo IH]; cbn [run_for]; [by apply keeps_mret|].
  eapply keeps_bind_seq; [apply keeps_ok; auto with quiet|]. intros s. eapply keeps_bind_seq; [apply keeps_ok; auto with quiet|]. intros [].
  eapply keeps_bind_seq; [apply keeps_line|]. intros []; [by apply keeps_mret|done].
Qed.

Lemma keeps_input raw pgid : keeps jobs_ok (run_input raw pgid) (λ _, jobs_ok).
Proof.
  unfold run_input. destruct (str_trim _) as [|c line]; [by apply keeps_mret|].
  destruct (parse_for_loop _) as [[l|]|e|]; [|apply keeps_line|apply keeps_say|by apply keeps_ok].
  eapply keeps_bind_seq; [apply keeps_ok; auto with quiet|]. intros s. eapply keeps_bind_seq; [apply keeps_for|].
  intros []; [by apply keeps_mret|]. apply keeps_ok. auto with quiet.
Qed.

(** The loop of [main]: finished jobs are reaped before each line. *)
Fixpoint run_shell (lines : list Str) (pgid : Z) (s : Sh Y) : Sh Y :=
  match lines with
  | [] => s
  | raw :: lines =>
      match reap_jobs s with
      | (Ok (), s) =>
          match run_input raw pgid s with
          | (Ok false, s) => run_shell lines pgid s
          | (_, s) => s
          end
      | (_, s) => s
      end
  end.

(** C@: Job control never confuses jobs or processes.  Through any lines typed,
    and whatever the system answers within the rules for children, the jobs
    have distinct numbers below the next one, none is empty, and every process
    listed in a job is a child of the shell that has not been waited for, in
    that job only.  Reaping before a line does its work: it ends, a process
    that had exited when it began is listed no more, and the processes listed
    afterwards are exactly those listed before that are still children.  (A
    child that exits later stays in the list until the next reaping.) *)
Theorem shell_jobs_invariant lines pgid s : jobs_ok s →
  jobs_ok (run_shell lines pgid s) ∧
  ∃ s', reap_jobs s = (Ok (), s') ∧ jobs_ok s' ∧
    (∀ pid, pid ∈ pids_of (jobs s) → kids (sys s) !! pid = Some true → pid ∉ pids_of (jobs s')) ∧
    (∀ pid, pid ∈ pids_of (jobs s') ↔ pid ∈ pids_of (jobs s) ∧ is_Some (kids (sys s') !! pid)).
Proof.
  intros Hok. split; [|by apply reap_jobs_spec]. revert s Hok.
  induction lines as [|raw lines IH]; intros s Hs; cbn [run_shell]; [done|].
  destruct (reap_jobs_spec s Hs) as (s1 & -> & H1 & _).
  pose proof (keeps_input raw pgid s1 H1) as H2. destruct (run_input raw pgid s1) as [[[]|e|] s2]; auto.
Qed.
End jobs.

(** A system of children that exit at once. *)
Definition fresh_pid (m : gmap Z bool) : Z := fresh ({[0]} ∪ dom m).
#[local] Instance kids_sys : ShellSys (gmap Z bool) := {|
  sys_waitpid := λ pid _ y,
    if bool_decide (pid ≠ 0 ∧ is_Some (y !! pid)) then (Ok (pid, 0), delete pid y) else (Err NoChildProcesses, y);
  sys_kill := λ _ _ y, (Ok (), y);
  sys_setpgid := λ _ _ y, (Ok (), y);
  sys_tcsetpgrp := λ _ y, (Ok (), y);
  sys_sleep := λ y, (Ok (), y);
  sys_chdir := λ d y, (Ok (), y);
  sys_open_in := λ _ y, (Ok 3, y);
  sys_open_out := λ _ _ y, (Ok 4, y);
  sys_spawn := λ r y, (Ok (fresh_pid y, Some 5), <[fresh_pid y := true]> y);
  say := λ _ y, y;
  interrupts := λ _, 0%nat;
|}.

Lemma fresh_pid_ok m : fresh_pid m ≠ 0 ∧ m !! fresh_pid m = None.
Proof.
  pose proof (is_fresh ({[0]} ∪ dom m)) as Hf. fold (fresh_pid m) in Hf. split; [set_solver|]. apply not_elem_of_dom. set_solver.
Qed.

#[local] Program Instance kids_laws : ShellKids (gmap Z bool) := {| kids := delete 0 |}.
Next Obligation.
  intros pid nohang y. cbn. case_bool_decide as Hb.
  - rewrite decide_True by (split; [apply Hb|done]). by rewrite delete_delete.
  - split; [|done]. intros _ E. apply lookup_delete_Some in E as [? E]. apply Hb. split; [done|by eexists].
Qed.
Next Obligation. intros pid y p status y'. cbn. case_bool_decide as Hb; [|done]. intros [= <- _ _]. apply Hb. Qed.
Next Obligation.
  intros r y. cbn. destruct (fresh_pid_ok y) as [H0 Hn]. rewrite delete_insert_ne by done. split; [by rewrite lookup_delete_ne|].
  split; intros pid; destruct (decide (pid = fresh_pid y)) as [->|Hne]; rewrite ?lookup_insert_eq, ?lookup_insert_ne by done; done.
Qed.
Solve All Obligations with done.

(** Two jobs in the background, [a &] and [b | c &], then an empty line: the
    first two processes have exited and are gone when the second line comes. *)
Lemma shell_jobs_invariant_witness :
  let s0 : Sh (gmap Z bool) := mkSh [] 1 None ∅ in
  let s := run_shell [[97; 32; 38]; [98; 32; 124; 32; 99; 32; 38]] 1 s0 in
  jobs_ok s0 ∧ jobs_ok s ∧ j_id <$> jobs s = [2] ∧ length (pids_of (jobs s)) = 2%nat ∧
  ∃ s', reap_jobs s = (Ok (), s') ∧ ∀ pid, pid ∈ pids_of (jobs s) → kids (sys s) !! pid = Some true → pid ∉ pids_of (jobs s').
Proof.
  intros s0 s. assert (H0 : jobs_ok s0).
  { split; [split; [constructor|split; [constructor|reflexivity]]|]. split; [constructor|]. intros pid Hp. inversion Hp. }
  destruct (shell_jobs_invariant [[97; 32; 38]; [98; 32; 124; 32; 99; 32; 38]] 1 s0 H0) as [H1 _].
  destruct (shell_jobs_invariant [] 1 s H1) as [_ (s' & Hr & _ & Hgone & _)].
  split; [exact H0|]. split; [exact H1|]. split; [vm_compute; reflexivity|]. split; [vm_compute; reflexivity|].
  exists s'. split; [exact Hr|exact Hgone].
Defined.
