(* ===== verification/SysArgs.v ===== *)
(** * Arguments of system calls

    How a handler of [kernel/src/syscall.rs] gets its arguments: the registers
    of the trap frame, and slices that the caller describes by a pair of
    address and length in its memory.  [sz] is the size of the caller's address
    space. *)

From stdpp Require Import base tactics numbers gmap list.
From S2P Require Import Prelude Params Errors UserMem Bytes Strs.
Local Open Scope Z_scope.

(** [argraw]: one of [a0] to [a5]. *)
Definition argraw (regs : list Z) (n : nat) : Result Z :=
  if (n <? 6)%nat then match regs !! n with Some v => Ok v | None => Panic end else Panic.

Record SBInfo := mkSB { sb_ptr : Z; sb_len : Z }.
Definition sb_of (bs : list Z) : SBInfo := mkSB (le_val (take 8 bs)) (le_val (take 8 (drop 8 bs))).
Definition sb_bytes (sb : SBInfo) : list Z := le_bytes 8 (sb_ptr sb) ++ le_bytes 8 (sb_len sb).
Inductive Slice := Ref (addr : Z) | Buf (info : SBInfo).

Section args.
Context {Mem : Type} `{UserMem Mem}.

(** [fetch_addr] of a value of [n] bytes. *)
Definition fetch_addr (m : Mem) (sz addr : Z) (n : nat) : Result (list Z) :=
  if (sz <=? addr) || (sz <? addr + Z.of_nat n) then Err BadVirtAddr else copyin m addr n.

(** [fetch_slice] into a buffer of [cap] elements of [size] bytes: the bytes of
    the elements copied. *)
Definition fetch_slice (m : Mem) (sz : Z) (size cap : nat) (s : Slice) : Result (option (list Z)) :=
  sb ← match s with
       | Ref addr => bs ← fetch_addr m sz addr 16; Ok (sb_of bs)
       | Buf info => Ok info
       end;
  if sb_ptr sb =? 0 then Ok None
  else if Z.of_nat cap <? sb_len sb then Err NoBufferSpace
  else bs ← copyin m (sb_ptr sb) (Z.to_nat (sb_len sb) * size); Ok (Some bs).

(** [<SBInfo as Arg>::from_arg] and [<Path as Arg>::from_arg]. *)
Definition sb_from_arg (m : Mem) (sz : Z) (regs : list Z) (n : nat) : Result SBInfo :=
  addr ← argraw regs n; bs ← fetch_addr m sz addr 16; Ok (sb_of bs).
Definition path_from_arg (m : Mem) (sz : Z) (regs : list Z) (n : nat) : Result str :=
  addr ← argraw regs n;
  r ← fetch_slice m sz 1 MAXPATH (Ref addr);
  match r with
  | None => Err InvalidArgument
  | Some bs => if utf8_valid bs then Ok (trim_end 0 bs) else Err Utf8Error
  end.

(** [<File as Arg>::from_arg]: the descriptor, if it is open. *)
Definition file_from_arg {F} (ofile : list (option F)) (regs : list Z) (n : nat) : Result (F * nat) :=
  fd ← argraw regs n;
  match ofile !! Z.to_nat fd with
  | None => Err FileDescriptorTooLarge
  | Some None => Err BadFileDescriptor
  | Some (Some f) => Ok (f, Z.to_nat fd)
  end.

(** The [n] pairs of a slice of strings. *)
Fixpoint sb_list (n : nat) (bs : list Z) : list SBInfo :=
  match n with O => [] | S n => sb_of (take 16 bs) :: sb_list n (drop 16 bs) end.

(** The loop of [Argv::from_arg] and [Envp::from_arg]: a slot for each pair,
    with [unwrap] on the copy and on the decoding. *)
Fixpoint fetch_strings (m : Mem) (sz : Z) (l : list SBInfo) : Result (list (option str)) :=
  match l with
  | [] => Ok []
  | sb :: l =>
      match fetch_slice m sz 1 4096 (Buf sb) with
      | Ok None => r ← fetch_strings m sz l; Ok (None :: r)
      | Ok (Some bs) => if utf8_valid bs then r ← fetch_strings m sz l; Ok (Some bs :: r) else Panic
      | _ => Panic
      end
  end.
Definition pad_slots (l : list (option str)) : list (option str) := l ++ replicate (MAXARG - length l) None.
Definition argv_from_arg (m : Mem) (sz : Z) (regs : list Z) (n : nat) : Result (list (option str)) :=
  addr ← argraw regs n;
  r ← fetch_slice m sz 16 MAXARG (Ref addr);
  match r with
  | None => Err InvalidArgument
  | Some bs => l ← fetch_strings m sz (sb_list (length bs / 16) bs); Ok (pad_slots l)
  end.
Definition envp_from_arg (m : Mem) (sz : Z) (regs : list Z) (n : nat) : Result (list (option str)) :=
  addr ← argraw regs n;
  r ← fetch_slice m sz 16 MAXARG (Ref addr);
  match r with
  | None => Ok (replicate MAXARG None)
  | Some bs => l ← fetch_strings m sz (sb_list (length bs / 16) bs); Ok (pad_slots l)
  end.
End args.

(** ** Slices of strings in memory *)

Definition usize (z : Z) : Prop := 0 ≤ z < 2 ^ 64.
Definition sb_ok (sb : SBInfo) : Prop := usize (sb_ptr sb) ∧ usize (sb_len sb).

Lemma length_sb_bytes sb : length (sb_bytes sb) = 16%nat.
Proof. unfold sb_bytes. by rewrite length_app, !length_le_bytes. Qed.

Lemma sb_of_bytes sb : sb_ok sb → sb_of (sb_bytes sb) = sb.
Proof.
  intros [Hp Hl]. unfold sb_of, sb_bytes. rewrite take_app_length' by by rewrite length_le_bytes.
  rewrite drop_app_length' by by rewrite length_le_bytes. rewrite (take_ge (le_bytes 8 (sb_len sb))) by by rewrite length_le_bytes.
  rewrite !le_val_bytes by done. by destruct sb.
Qed.

Definition sbs_bytes (l : list SBInfo) : list Z := concat (sb_bytes <$> l).

Lemma length_sbs_bytes l : length (sbs_bytes l) = (16 * length l)%nat.
Proof. unfold sbs_bytes. induction l as [|sb l IH]; [done|]. rewrite fmap_cons. cbn [concat length]. rewrite length_app, length_sb_bytes, IH. lia. Qed.

Lemma sb_list_bytes l : Forall sb_ok l → sb_list (length l) (sbs_bytes l) = l.
Proof.
  induction 1 as [|sb l Hsb _ IH]; [done|]. unfold sbs_bytes in *. rewrite fmap_cons. cbn [concat length sb_list].
  rewrite take_app_length', drop_app_length' by by rewrite length_sb_bytes. by rewrite sb_of_bytes, IH.
Qed.

Section slices.
Context {Mem : Type} `{UserMemLaws Mem}.

(** The pair [sb] denotes the slot [s]: null, or a string in memory. *)
Definition slot_at (m : Mem) (sb : SBInfo) (s : option str) : Prop :=
  sb_ok sb ∧
  match s with
  | None => sb_ptr sb = 0
  | Some bs => sb_ptr sb ≠ 0 ∧ sb_len sb = Z.of_nat (length bs) ∧ copyin m (sb_ptr sb) (length bs) = Ok bs
  end.

Definition str_ok (s : option str) : Prop :=
  match s with Some bs => utf8_valid bs = true ∧ (length bs ≤ 4096)%nat | None => True end.

Lemma fetch_strings_spec m sz l slots :
  Forall2 (slot_at m) l slots → Forall str_ok slots → fetch_strings m sz l = Ok slots.
Proof.
  intros Hl. induction Hl as [|sb s l slots [[Hp Hn] Hs] Hl IH]; intros Hok; [done|].
  apply Forall_cons_1 in Hok as [Hsok Hok]. cbn [fetch_strings]. unfold fetch_slice. bind_simpl.
  destruct s as [bs|]; [|by rewrite Hs; simpl; rewrite IH].
  destruct Hs as (Hnz & Hlen & Hc). destruct Hsok as [Hu Hmax]. rewrite (proj2 (Z.eqb_neq _ 0)) by done.
  rewrite Hlen, (proj2 (Z.ltb_ge _ _)) by lia. rewrite Nat2Z.id, Nat.mul_1_r, Hc. bind_simpl. rewrite Hu, IH by done. done.
Qed.

(** A slice of strings: at [addr] the pair that describes it, and its pairs
    where that pair says. *)
Definition strings_at (m : Mem) (sz addr : Z) (slots : list (option str)) : Prop :=
  ∃ ptr l, usize ptr ∧ ptr ≠ 0 ∧ addr + 16 ≤ sz ∧ copyin m addr 16 = Ok (sb_bytes (mkSB ptr (Z.of_nat (length l)))) ∧
    (length l ≤ MAXARG)%nat ∧ copyin m ptr (length (sbs_bytes l)) = Ok (sbs_bytes l) ∧ Forall2 (slot_at m) l slots.

Lemma argv_from_arg_spec m sz regs n addr slots :
  argraw regs n = Ok addr → strings_at m sz addr slots → Forall str_ok slots →
  argv_from_arg m sz regs n = Ok (pad_slots slots) ∧ envp_from_arg m sz regs n = Ok (pad_slots slots).
Proof.
  intros Ha (ptr & l & Hp & Hnz & Hsz & Hsb & Hmax & Hl & Hf) Hok. unfold argv_from_arg, envp_from_arg. rewrite Ha. bind_simpl.
  unfold fetch_slice, fetch_addr. rewrite (proj2 (Z.leb_gt _ _)), (proj2 (Z.ltb_ge _ _)) by lia. simpl orb. cbv iota. rewrite Hsb. bind_simpl.
  rewrite sb_of_bytes; [|split; [done|unfold usize, MAXARG in *; simpl; lia]]. cbn [sb_ptr sb_len].
  rewrite (proj2 (Z.eqb_neq _ 0)) by done. rewrite (proj2 (Z.ltb_ge _ _)) by lia.
  rewrite Nat2Z.id. replace (length l * 16)%nat with (length (sbs_bytes l)) by (rewrite length_sbs_bytes; lia). rewrite Hl. bind_simpl.
  rewrite length_sbs_bytes, Nat.mul_comm, Nat.div_mul by done. rewrite sb_list_bytes, (fetch_strings_spec m sz l slots) by
    (done || (apply Forall_forall; intros sb Hsb'; apply list_elem_of_lookup in Hsb' as [i Hi];
      destruct (Forall2_lookup_l _ _ _ _ _ Hf Hi) as (s & _ & [? _]); done)). done.
Qed.

(** A process can stop the kernel with [exec]: when a pair in the slice of
    arguments or of the environment describes a string that cannot be read,
    that is longer than a page or that is not UTF-8, decoding the arguments
    panics instead of returning an error (the results are unwrapped). *)
Theorem exec_bad_string_panics m sz regs n addr ptr l sb :
  argraw regs n = Ok addr → addr + 16 ≤ sz → usize ptr → ptr ≠ 0 → (length (sb :: l) ≤ MAXARG)%nat →
  copyin m addr 16 = Ok (sb_bytes (mkSB ptr (Z.of_nat (length (sb :: l))))) →
  copyin m ptr (length (sbs_bytes (sb :: l))) = Ok (sbs_bytes (sb :: l)) → Forall sb_ok (sb :: l) → sb_ptr sb ≠ 0 →
  (∀ bs, copyin m (sb_ptr sb) (Z.to_nat (sb_len sb)) = Ok bs → 4096 < sb_len sb ∨ utf8_valid bs = false) →
  argv_from_arg m sz regs n = Panic ∧ envp_from_arg m sz regs n = Panic.
Proof.
  intros Ha Hsz Hp Hnz Hmax Hsb Hl Hok Hsnz Hbad. unfold argv_from_arg, envp_from_arg. rewrite Ha. bind_simpl.
  unfold fetch_slice at 1 2, fetch_addr. rewrite (proj2 (Z.leb_gt _ _)), (proj2 (Z.ltb_ge _ _)) by lia. simpl orb. cbv iota. rewrite Hsb. bind_simpl.
  rewrite sb_of_bytes; [|split; [done|unfold usize, MAXARG in *; simpl in *; lia]]. cbn [sb_ptr sb_len].
  rewrite (proj2 (Z.eqb_neq ptr 0)) by done. rewrite (proj2 (Z.ltb_ge _ _)) by lia.
  rewrite Nat2Z.id. replace (length (sb :: l) * 16)%nat with (length (sbs_bytes (sb :: l))) by (rewrite length_sbs_bytes; lia). rewrite Hl. bind_simpl.
  rewrite length_sbs_bytes, Nat.mul_comm, Nat.div_mul by done. rewrite sb_list_bytes by done. cbn [fetch_strings].
  unfold fetch_slice. bind_simpl. rewrite (proj2 (Z.eqb_neq _ 0)) by done.
  destruct (Z.ltb_spec (Z.of_nat 4096) (sb_len sb)); [done|]. rewrite Nat.mul_1_r.
  destruct (copyin m (sb_ptr sb) (Z.to_nat (sb_len sb))) as [bs|e|] eqn:E; [|done..]. bind_simpl.
  destruct (Hbad bs eq_refl) as [?| ->]; [lia|done].
Qed.
End slices.

(** A process with one argument, at an address that is not mapped. *)
Definition demo_bad_args : ProcMem :=
  mkProcMem (list_to_map (zip (seqZ 100 32) (sb_bytes (mkSB 116 1) ++ sb_bytes (mkSB 500 4)))).

