(* ===== verification/Exec.v ===== *)
(** * Running a program

    [kernel/src/exec.rs] with the headers of [elf.rs]: loading the segments of
    a file into a new address space, and laying out the arguments and the
    environment on its stack; and the other end, [lang_start] of
    [user/src/lib/lib.rs], which finds them there.  The new address space is
    the class [Image]; [file] is [read] of the locked inode. *)

From stdpp Require Import base tactics numbers gmap list.
From S2P Require Import Prelude Params Errors UserMem Bytes Strs PageTable SysArgs.
Local Open Scope Z_scope.

Class Image (U : Type) `{UserMem U} := {
  im_alloc : Z → Z → Z → M Error U Z;       (* [Uvm::alloc]: old size, new size, permission *)
  im_walkaddr : Z → M Error U Z;            (* [walkaddr]: the physical address *)
  im_store : Z → list Z → M Error U ();     (* bytes to a physical address *)
  im_clear : Z → M Error U ();              (* [Uvm::clear] *)
}.

(** ** Headers *)

Definition ELF_MAGIC : list Z := [127; 69; 76; 70].
Definition PT_LOAD : Z := 1.
Definition ELF_SIZE : nat := 64.
Definition PH_SIZE : nat := 56.
Definition field (off n : nat) (bs : list Z) : Z := le_val (read_at off n bs).
(** Fields of [ElfHdr] and [ProgHdr]. *)
Definition e_entry (h : list Z) : Z := field 24 8 h.
Definition e_phoff (h : list Z) : Z := field 32 8 h.
Definition e_phnum (h : list Z) : Z := field 56 2 h.
Definition p_type (h : list Z) : Z := field 0 4 h.
Definition p_flags (h : list Z) : Z := field 4 4 h.
Definition p_offset (h : list Z) : Z := field 8 8 h.
Definition p_vaddr (h : list Z) : Z := field 16 8 h.
Definition p_fsize (h : list Z) : Z := field 32 8 h.
Definition p_msize (h : list Z) : Z := field 40 8 h.

Definition flags2perm (flags : Z) : Z :=
  let perm := if negb (Z.land flags 1 =? 0) then PTE_X else 0 in
  if negb (Z.land flags 2 =? 0) then Z.lor perm PTE_W else perm.

Definition STACK_PAGE_NUM : Z := 25.

Section exec.
Context {U : Type} `{Image U} (file : Z → nat → Result (list Z)).

(** The new address space and its size. *)
Abbreviation IM := (M Error (U * Z)).
Definition on_image {A} (m : M Error U A) : IM A := λ s, let '(r, u) := m s.1 in (r, (u, s.2)).
Definition from_file {A} (r : Result A) : IM A := λ s, (r, s).
Definition get_size : IM Z := λ s, (Ok s.2, s).
Definition set_size (z : Z) : IM () := λ s, (Ok (), (s.1, z)).

(** [read] into a variable: a short read leaves the rest of it. *)
Definition read_into (old : list Z) (off : Z) (n : nat) : IM (list Z) :=
  bs ← from_file (file (u32 off) n); mret (bs ++ drop (length bs) old).

(** [Uvm::loadseg]. *)
Fixpoint loadseg_loop (fuel : nat) (va offset sz i : Z) : IM () :=
  if i <? sz then
    match fuel with
    | O => m_panic
    | S fuel =>
        pa ← on_image (im_walkaddr (va + i));
        let n := if sz - i <? PGSIZE then sz - i else PGSIZE in
        bs ← from_file (file (u32 (offset + i)) (Z.to_nat n));
        _ ← on_image (im_store pa bs);
        loadseg_loop fuel va offset sz (i + PGSIZE)
    end
  else mret ().
Definition loadseg (va offset sz : Z) : IM () :=
  if negb (va mod PGSIZE =? 0) then m_panic else loadseg_loop (Z.to_nat (sz / PGSIZE + 1)) va offset sz 0.

(** One loadable segment. *)
Definition load_segment (phdr : list Z) : IM () :=
  if p_msize phdr <? p_fsize phdr then m_err ExecFileFormatError
  else if USIZE_MAX <? p_vaddr phdr + p_msize phdr then m_err ExecFileFormatError
  else if negb (p_vaddr phdr mod PGSIZE =? 0) then m_err ExecFileFormatError
  else
    sz ← get_size;
    sz ← on_image (im_alloc sz (p_vaddr phdr + p_msize phdr) (flags2perm (p_flags phdr)));
    _ ← set_size sz;
    loadseg (p_vaddr phdr) (p_offset phdr) (p_fsize phdr).

(** The loop over the program headers, with [n] to go: the offset moves only
    after a loadable segment. *)
Fixpoint load_headers (n : nat) (phdr : list Z) (off : Z) : IM () :=
  match n with
  | O => mret ()
  | S n =>
      phdr ← read_into phdr off PH_SIZE;
      if negb (p_type phdr =? PT_LOAD) then load_headers n phdr off
      else _ ← load_segment phdr; load_headers n phdr (off + Z.of_nat PH_SIZE)
  end.

(** [load], after the path was resolved and with an empty address space: the
    header. *)
Definition load : IM (list Z) :=
  elf ← read_into (replicate ELF_SIZE 0) 0 ELF_SIZE;
  if negb (bool_decide (take 4 elf = ELF_MAGIC)) then m_err ExecFileFormatError
  else
    _ ← load_headers (Z.to_nat (e_phnum elf)) (replicate PH_SIZE 0) (e_phoff elf);
    mret elf.

(** ** The stack *)

(** [sp -= len; sp -= sp % 16]; the check against the stack's base, and the
    copy. *)
Definition align_down (sp : Z) (len : nat) : Z := let a := sp - Z.of_nat len in a - a mod 16.
Definition push_bytes (sp base : Z) (bs : list Z) : IM Z :=
  if sp <? Z.of_nat (length bs) then m_panic
  else
    let sp := align_down sp (length bs) in
    if sp <? base then m_err NoBufferSpace
    else _ ← on_image (λ u, copyout u sp bs); mret sp.

(** [*ustack.get_mut(i).ok_or(ArgumentListTooLong)? = v]. *)
Definition ustack_set (i : nat) (v : Z) (ustack : list Z) : IM (list Z) :=
  if (i <? length ustack)%nat then mret (<[i := v]> ustack) else m_err ArgumentListTooLong.

(** The two loops over strings, from slot [i] on. *)
Fixpoint push_strings (i : nat) (sp base : Z) (ustack : list Z) (l : list str) : IM (Z * list Z) :=
  match l with
  | [] => mret (sp, ustack)
  | s :: l =>
      sp ← push_bytes sp base s;
      ustack ← ustack_set (i * 2) sp ustack;
      ustack ← ustack_set (i * 2 + 1) (Z.of_nat (length s)) ustack;
      push_strings (S i) sp base ustack l
  end.

(** [argv.take_while(is_some).flatten()] and [envp.flatten()]. *)
Fixpoint leading (l : list (option str)) : list str :=
  match l with Some s :: l => s :: leading l | _ => [] end.
Definition words_bytes (ws : list Z) : list Z := concat (le_bytes 8 <$> ws).

(** From the size of the loaded program to the registers: stack pointer,
    [argc] and [a1]. *)
Definition exec_stack (argv envp : list (option str)) : IM (Z * nat * Z) :=
  let pgnum := 1 + STACK_PAGE_NUM in
  sz ← get_size;
  _ ← set_size (pgroundup sz);
  sz ← on_image (im_alloc (pgroundup sz) (pgroundup sz + pgnum * PGSIZE) PTE_W);
  _ ← set_size sz;
  _ ← on_image (im_clear (sz - pgnum * PGSIZE));
  let base := sz - PGSIZE * STACK_PAGE_NUM in
  let args := leading argv in
  '(sp, ustack) ← push_strings 0 sz base (replicate (MAXARG * 2) 0) args;
  '(sp, ustack) ← push_strings (length args) sp base ustack (omap id envp);
  sp ← push_bytes sp base (words_bytes ustack);
  let slice := [sp; Z.of_nat MAXARG] in
  sp ← push_bytes sp base (words_bytes slice);
  mret (sp, length args, if (0 <? length args)%nat then sp else 0).
End exec.

(** ** The other end *)

Section lang_start.
Context {U : Type} `{UserMem U}.

Definition load_word (u : U) (a : Z) : Result Z := bs ← copyin u a 8; Ok (le_val bs).
(** An [Option<&str>]: nothing is read of an empty string. *)
Definition load_slot (u : U) (a : Z) : Result (option str) :=
  p ← load_word u a;
  n ← load_word u (a + 8);
  if p =? 0 then Ok None
  else if n =? 0 then Ok (Some [])
  else bs ← copyin u p (Z.to_nat n); Ok (Some bs).
Fixpoint load_slots (u : U) (n : nat) (a : Z) : Result (list (option str)) :=
  match n with
  | O => Ok []
  | S n => s ← load_slot u a; l ← load_slots u n (a + 16); Ok (s :: l)
  end.
(** [lang_start]: [ARGS] and [ENVIRON]. *)
Definition lang_start (u : U) (argc : nat) (argv : Z) : Result (option (list (option str) * list (option str))) :=
  if argv =? 0 then Ok None
  else
    ptr ← load_word u argv;
    len ← load_word u (argv + 8);
    slots ← load_slots u (Z.to_nat len) ptr;
    if (argc <=? Z.to_nat len)%nat then Ok (Some (take argc slots, drop argc slots)) else Panic.
End lang_start.

(** ** Segments *)

Section segments.
Context {U : Type} `{Image U} (file : Z → nat → Result (list Z)).

(** The headers [hs] are in the file from [off] on. *)
Fixpoint headers_at (off : Z) (hs : list (list Z)) : Prop :=
  match hs with
  | [] => True
  | h :: hs => file (u32 off) PH_SIZE = Ok h ∧ length h = PH_SIZE ∧ headers_at (off + Z.of_nat PH_SIZE) hs
  end.

Lemma read_into_full old off n bs (s : U * Z) :
  file (u32 off) n = Ok bs → length bs = n → length old = n → read_into file old off n s = (Ok bs, s).
Proof.
  intros Hf Hb Ho. unfold read_into. erewrite bind_ok; [|unfold from_file; by rewrite Hf].
  rewrite drop_ge, app_nil_r by lia. done.
Qed.

(** At a header of another kind the loop stays where it is. *)
Lemma load_headers_stuck n old off h (s : U * Z) :
  file (u32 off) PH_SIZE = Ok h → length h = PH_SIZE → length old = PH_SIZE → p_type h ≠ PT_LOAD →
  load_headers file n old off s = (Ok (), s).
Proof.
  intros Hf Hl. revert old. induction n as [|n IH]; intros old Ho Ht; cbn [load_headers]; [done|].
  rewrite (bind_ok _ _ _ _ _ (read_into_full _ _ _ _ s Hf Hl Ho)), (proj2 (Z.eqb_neq _ _)) by done. cbn [negb]. by apply IH.
Qed.

Lemma load_headers_loads hs n old off (s : U * Z) :
  headers_at off hs → Forall (λ h, p_type h = PT_LOAD) hs → length old = PH_SIZE →
  (n = 0%nat ∨ ∃ h, file (u32 (off + Z.of_nat (PH_SIZE * length hs))) PH_SIZE = Ok h ∧ length h = PH_SIZE ∧ p_type h ≠ PT_LOAD) →
  load_headers file (length hs + n) old off s = m_for hs (load_segment file) s.
Proof.
  revert old off s. induction hs as [|h hs IH]; intros old off s Hh Ht Ho Hend; cbn [length Nat.add m_for].
  - destruct Hend as [->|(h & Hf & Hl & Hty)]; [done|]. rewrite Nat.mul_0_r, Z.add_0_r in Hf. by eapply load_headers_stuck.
  - destruct Hh as (Hf & Hl & Hh). apply Forall_cons_1 in Ht as [Hty Ht]. cbn [load_headers].
    rewrite (bind_ok _ _ _ _ _ (read_into_full _ _ _ _ s Hf Hl Ho)), Hty. cbn [negb Z.eqb].
    change (negb (PT_LOAD =? PT_LOAD)) with false. cbv iota. unfold mbind, M_bind.
    destruct (load_segment file h s) as [[[]|e|] s1]; [|done..]. apply IH; try done.
    destruct Hend as [->|Hend]; [by left|right]. replace (off + Z.of_nat PH_SIZE + Z.of_nat (PH_SIZE * length hs))
      with (off + Z.of_nat (PH_SIZE * length (h :: hs))) by (simpl length; lia). done.
Qed.

(** C29: Only the segments before the first header that is not [PT_LOAD] are
    loaded: the loop does not move past such a header, so for a file with the
    loadable headers [hs], then a header of another kind, then any others,
    loading is loading [hs], however many headers the file declares; with
    loadable headers only, all of them are loaded. *)
Theorem exec_loads_prefix hs n old off (s : U * Z) :
  headers_at off hs → Forall (λ h, p_type h = PT_LOAD) hs → length old = PH_SIZE →
  load_headers file (length hs) old off s = m_for hs (load_segment file) s ∧
  ∀ h, file (u32 (off + Z.of_nat (PH_SIZE * length hs))) PH_SIZE = Ok h → length h = PH_SIZE → p_type h ≠ PT_LOAD →
    load_headers file (length hs + n) old off s = m_for hs (load_segment file) s.
Proof.
  intros Hh Ht Ho. split; [|intros h Hf Hl Hty; apply load_headers_loads; eauto].
  rewrite <-(Nat.add_0_r (length hs)). apply load_headers_loads; auto.
Qed.
End segments.
