(* ===== verification/ExecArgs.v ===== *)
(** * Arguments from one program to the next

    What a program passes to [exec] is what the new program finds: the strings
    are read from the caller's memory (SysArgs.v), laid out on the new stack
    (Exec.v), and found there by [lang_start]. *)

From stdpp Require Import base tactics numbers gmap list.
From S2P Require Import Prelude Params Errors UserMem Bytes Strs PageTable SysArgs Exec.
Local Open Scope Z_scope.

(** ** The table of slots *)

(** The words of a table of slots. *)
Definition sb_words (sb : SBInfo) : list Z := [sb_ptr sb; sb_len sb].
Definition table_words (l : list SBInfo) : list Z := concat (sb_words <$> l).

Lemma table_words_cons sb l : table_words (sb :: l) = sb_ptr sb :: sb_len sb :: table_words l.
Proof. done. Qed.

Lemma length_table_words l : length (table_words l) = (2 * length l)%nat.
Proof. induction l as [|sb l IH]; [done|]. rewrite table_words_cons. cbn [length]. lia. Qed.

Lemma table_words_null n : replicate (n * 2) 0 = table_words (replicate n (mkSB 0 0)).
Proof. induction n as [|n IH]; [done|]. cbn [replicate Nat.mul Nat.add]. by rewrite table_words_cons, IH. Qed.

Lemma words_bytes_table l : words_bytes (table_words l) = sbs_bytes l.
Proof.
  unfold words_bytes, sbs_bytes, table_words. induction l as [|sb l IH]; [done|]. rewrite !fmap_cons. cbn [concat].
  rewrite fmap_app, concat_app, IH. unfold sb_bytes. simpl. by rewrite app_nil_r.
Qed.

Lemma table_words_insert l i sb :
  (i < length l)%nat →
  <[(i * 2 + 1)%nat := sb_len sb]> (<[(i * 2)%nat := sb_ptr sb]> (table_words l)) = table_words (<[i := sb]> l).
Proof.
  revert i. induction l as [|x l IH]; intros i Hi; [simpl in Hi; lia|]. destruct i as [|i]; [done|].
  change (<[S i := sb]> (x :: l)) with (x :: <[i := sb]> l). rewrite !table_words_cons, <-IH by (simpl in Hi; lia). done.
Qed.

(** ** Addresses on the stack *)

Lemma align_down_spec sp n :
  Z.of_nat n ≤ sp → 0 ≤ align_down sp n ∧ align_down sp n + Z.of_nat n ≤ sp ∧ sp - Z.of_nat n - 16 < align_down sp n.
Proof.
  intros Hn. unfold align_down. set (a := sp - Z.of_nat n). pose proof (Z.mod_pos_bound a 16 ltac:(lia)).
  pose proof (Z.mod_le a 16 ltac:(lia) ltac:(lia)). lia.
Qed.

(** The pairs of the strings [l] pushed from [sp] on, and where they end. *)
Fixpoint pushed (sp : Z) (l : list str) : list SBInfo :=
  match l with [] => [] | s :: l => let p := align_down sp (length s) in mkSB p (Z.of_nat (length s)) :: pushed p l end.
Fixpoint sp_after (sp : Z) (l : list str) : Z :=
  match l with [] => sp | s :: l => sp_after (align_down sp (length s)) l end.

Lemma length_pushed sp l : length (pushed sp l) = length l.
Proof. revert sp. induction l as [|s l IH]; intros sp; simpl; [done|]. by rewrite IH. Qed.

(** The stack has room: no string goes below [base]. *)
Fixpoint fits (sp base : Z) (l : list str) : Prop :=
  match l with
  | [] => True
  | s :: l => Z.of_nat (length s) < PGSIZE ∧ base ≤ align_down sp (length s) ∧ fits (align_down sp (length s)) base l
  end.

Section layout.
Context {U : Type} `{Image U} `{!UserMemLaws U}.
Context (base top : Z) (Hbase : 0 < base).

(** The stack can be written. *)
Definition stack_ok (u : U) : Prop := writable u base (Z.to_nat (top - base)).

(** What was written above [sp] stays. *)
Definition above_kept (sp : Z) (u u' : U) : Prop := ∀ p bs, sp ≤ p → mem_holds u p bs → mem_holds u' p bs.

Lemma stack_push_spec sp bs u z :
  stack_ok u → base ≤ align_down sp (length bs) → sp ≤ top → Z.of_nat (length bs) < PGSIZE →
  let sp' := align_down sp (length bs) in
  ∃ u', push_bytes sp base bs (u, z) = (Ok sp', (u', z)) ∧ stack_ok u' ∧ mem_holds u' sp' bs ∧ above_kept sp u u' ∧ sp' ≤ sp.
Proof.
  intros Hok Hb Ht Hl sp'. unfold push_bytes.
  assert (Hlen : Z.of_nat (length bs) ≤ sp).
  { destruct (Z.le_gt_cases (Z.of_nat (length bs)) sp) as [|Hgt]; [done|]. exfalso. unfold align_down in Hb.
    pose proof (Z.mod_pos_bound (sp - Z.of_nat (length bs)) 16 ltac:(lia)). lia. }
  rewrite (proj2 (Z.ltb_ge _ _)) by lia. fold sp'. rewrite (proj2 (Z.ltb_ge sp' base)) by done.
  destruct (align_down_spec sp (length bs) Hlen) as (H1 & H2 & H3). fold sp' in H1, H2, H3.
  destruct (copyout_ok u sp' bs) as [u' Hc]; [|done|].
  { eapply writable_sub; [exact Hok|done|lia]. }
  exists u'. split; [|split_and!].
  - erewrite bind_ok; [done|]. unfold on_image. simpl. by rewrite Hc.
  - by eapply copyout_writable.
  - by eapply mem_holds_copyout.
  - intros p l Hp Hm. eapply mem_holds_frame; [done..|]. lia.
  - lia.
Qed.

(** Slots of the table that strings were pushed for. *)
Definition held (u : U) (sb : SBInfo) (s : option str) : Prop :=
  match s with
  | None => sb_ptr sb = 0
  | Some bs => 0 < sb_ptr sb ∧ sb_len sb = Z.of_nat (length bs) ∧ mem_holds u (sb_ptr sb) bs
  end.

Lemma held_kept sp u u' sb s : above_kept sp u u' → (∀ bs, s = Some bs → sp ≤ sb_ptr sb) → held u sb s → held u' sb s.
Proof. intros Hk Hsp. destruct s as [bs|]; simpl; [|done]. intros (? & ? & ?). split_and!; [done..|]. apply Hk; [by eapply Hsp|done]. Qed.

Lemma ustack_set_ok i v ws (s : U * Z) : (i < length ws)%nat → ustack_set i v ws s = (Ok (<[i := v]> ws), s).
Proof. intros Hi. unfold ustack_set. by rewrite (proj2 (Nat.ltb_lt _ _)). Qed.

Lemma push_strings_spec l i sp sbs u z :
  stack_ok u → fits sp base l → sp ≤ top → (i + length l ≤ length sbs)%nat →
  ∃ u', push_strings i sp base (table_words sbs) l (u, z)
      = (Ok (sp_after sp l, table_words (take i sbs ++ pushed sp l ++ drop (i + length l) sbs)), (u', z)) ∧
    stack_ok u' ∧ above_kept sp u u' ∧ sp_after sp l ≤ sp ∧
    Forall2 (held u') (pushed sp l) (Some <$> l) ∧ Forall (λ sb, sp_after sp l ≤ sb_ptr sb) (pushed sp l).
Proof.
  revert i sp sbs u. induction l as [|s l IH]; intros i sp sbs u Hok Hf Ht Hi; cbn [push_strings].
  - exists u. simpl. rewrite Nat.add_0_r, take_drop. split_and!; try done; try lia. by intros p.
  - destruct Hf as (Hl & Hb & Hf). destruct (stack_push_spec sp s u z Hok Hb Ht Hl) as (u1 & E1 & Hok1 & Hm1 & Hk1 & Hsp1).
    set (p := align_down sp (length s)) in *. cbn [length] in Hi.
    rewrite (bind_ok _ _ _ _ _ E1). erewrite bind_ok; [|apply ustack_set_ok; rewrite length_table_words; lia].
    erewrite bind_ok; [|apply ustack_set_ok; rewrite length_insert, length_table_words; lia].
    pose proof (table_words_insert sbs i (mkSB p (Z.of_nat (length s))) ltac:(lia)) as Hw. cbn [sb_ptr sb_len] in Hw. rewrite Hw.
    destruct (IH (S i) p (<[i := mkSB p (Z.of_nat (length s))]> sbs) u1) as (u2 & E2 & Hok2 & Hk2 & Hsp2 & Hh2 & Ha2);
      [done|done|lia|rewrite length_insert; lia|].
    exists u2. cbn [pushed sp_after]. fold p. split_and!; [|done| |lia| |].
    + rewrite E2. do 4 f_equal.
      rewrite (take_S_r _ _ (mkSB p (Z.of_nat (length s)))) by (apply list_lookup_insert_eq; lia).
      rewrite take_insert_ge, drop_insert_lt, <-app_assoc by lia. cbn [app length]. do 4 f_equal. lia.
    + intros q bs Hq Hm. apply Hk2; [lia|]. apply Hk1; [lia|done].
    + constructor; [|done]. simpl. split_and!; [lia|done|]. apply Hk2; [simpl; lia|done].
    + constructor; [simpl; lia|done].
Qed.
End layout.

(** ** Finding the arguments *)

Section finding.
Context {U : Type} `{UserMemLaws U}.

Lemma load_word_spec (u : U) a l1 w l2 :
  mem_holds u a (l1 ++ le_bytes 8 w ++ l2) → usize w → load_word u (a + Z.of_nat (length l1)) = Ok w.
Proof.
  intros Hm Hw. apply mem_holds_sub in Hm as [Hn|Hc].
  - apply (f_equal length) in Hn. by rewrite length_le_bytes in Hn.
  - rewrite length_le_bytes in Hc. unfold load_word. rewrite Hc. bind_simpl. by rewrite le_val_bytes.
Qed.

Lemma load_slots_spec (u : U) l slots a :
  mem_holds u a (sbs_bytes l) → Forall sb_ok l → Forall2 (held u) l slots → load_slots u (length l) a = Ok slots.
Proof.
  intros Hm Hok Hh. revert a Hm. induction Hh as [|sb s l slots Hs Hh IH]; intros a Hm; [done|].
  apply Forall_cons_1 in Hok as [[Hp Hn] Hok]. cbn [length load_slots]. unfold sbs_bytes in Hm. rewrite fmap_cons in Hm. cbn [concat] in Hm.
  assert (H1 : load_word u a = Ok (sb_ptr sb)).
  { rewrite <-(Z.add_0_r a). apply (load_word_spec u a [] _ (le_bytes 8 (sb_len sb) ++ concat (sb_bytes <$> l))); [|done].
    unfold sb_bytes at 1 in Hm. by rewrite <-app_assoc in Hm. }
  assert (H2 : load_word u (a + 8) = Ok (sb_len sb)).
  { change 8 with (Z.of_nat (length (le_bytes 8 (sb_ptr sb)))). apply (load_word_spec u a _ _ (concat (sb_bytes <$> l))); [|done].
    unfold sb_bytes at 1 in Hm. by rewrite <-app_assoc in Hm. }
  assert (H3 : load_slots u (length l) (a + 16) = Ok slots).
  { apply IH; [done|]. change 16 with (Z.of_nat 16). rewrite <-(length_sb_bytes sb).
    apply (mem_holds_sub u a _ _ []). by rewrite app_nil_r. }
  unfold load_slot. rewrite H1. bind_simpl. rewrite H2. bind_simpl. destruct s as [bs|].
  - destruct Hs as (Hpos & Hlen & Hbs). rewrite (proj2 (Z.eqb_neq _ 0)) by lia. rewrite Hlen. destruct bs as [|b bs].
    + simpl. by rewrite H3.
    + rewrite (proj2 (Z.eqb_neq _ 0)) by (simpl; lia). destruct Hbs as [|Hc]; [done|]. rewrite Nat2Z.id, Hc. bind_simpl. by rewrite H3.
  - rewrite Hs. simpl. by rewrite H3.
Qed.

Lemma lang_start_spec (u : U) a ptr l slots argc :
  mem_holds u a (words_bytes [ptr; Z.of_nat (length l)]) → 0 < a → usize ptr → Z.of_nat (length l) < 2 ^ 64 →
  mem_holds u ptr (sbs_bytes l) → Forall sb_ok l → Forall2 (held u) l slots → (argc ≤ length l)%nat →
  lang_start u argc a = Ok (Some (take argc slots, drop argc slots)).
Proof.
  intros Ha Hpos Hp Hn Hl Hok Hh Hargc. unfold words_bytes in Ha. simpl in Ha. rewrite app_nil_r in Ha.
  unfold lang_start. rewrite (proj2 (Z.eqb_neq a 0)) by lia.
  assert (H1 : load_word u a = Ok ptr).
  { rewrite <-(Z.add_0_r a). by apply (load_word_spec u a [] _ (le_bytes 8 (Z.of_nat (length l)))). }
  assert (H2 : load_word u (a + 8) = Ok (Z.of_nat (length l))).
  { change 8 with (Z.of_nat (length (le_bytes 8 ptr))). apply (load_word_spec u a _ _ []); [by rewrite app_nil_r|split; lia]. }
  rewrite H1. bind_simpl. rewrite H2. bind_simpl. rewrite Nat2Z.id, (load_slots_spec u l slots) by done. bind_simpl.
  by rewrite (proj2 (Nat.leb_le _ _)).
Qed.
End finding.

(** ** From one program to the next *)

Lemma leading_pad l : leading (pad_slots (Some <$> l)) = l.
Proof.
  unfold pad_slots. generalize (MAXARG - length (Some <$> l))%nat as n. intros n. induction l as [|s l IH]; [by destruct n|].
  rewrite fmap_cons. cbn [app leading]. by rewrite IH.
Qed.

Lemma omap_pad l : omap id (pad_slots (Some <$> l)) = l.
Proof.
  unfold pad_slots. generalize (MAXARG - length (Some <$> l))%nat as n. intros n.
  induction l as [|s l IH]; [by induction n|]. rewrite fmap_cons. cbn [app]. change (s :: omap id ((Some <$> l) ++ replicate n None) = s :: l). by rewrite IH.
Qed.

Lemma pushed_app sp l1 l2 : pushed sp (l1 ++ l2) = pushed sp l1 ++ pushed (sp_after sp l1) l2.
Proof. revert sp. induction l1 as [|s l1 IH]; intros sp; simpl; [done|]. by rewrite IH. Qed.
Lemma sp_after_app sp l1 l2 : sp_after sp (l1 ++ l2) = sp_after (sp_after sp l1) l2.
Proof. revert sp. induction l1 as [|s l1 IH]; intros sp; simpl; [done|]. by rewrite IH. Qed.
Lemma fits_app sp base l1 l2 : fits sp base (l1 ++ l2) → fits sp base l1 ∧ fits (sp_after sp l1) base l2.
Proof. revert sp. induction l1 as [|s l1 IH]; intros sp; simpl; [done|]. intros (? & ? & [? ?]%IH). done. Qed.

Lemma pushed_ok sp base l : 0 < base → sp < 2 ^ 64 → fits sp base l → Forall sb_ok (pushed sp l).
Proof.
  intros Hb. revert sp. induction l as [|s l IH]; intros sp Hsp; [done|]. intros (Hl & Hba & Hf). cbn [pushed]. set (p := align_down sp (length s)) in *.
  assert (p ≤ sp). { subst p. unfold align_down in *. pose proof (Z.mod_pos_bound (sp - Z.of_nat (length s)) 16 ltac:(lia)). lia. }
  constructor; [|apply IH; [lia|done]]. unfold sb_ok, usize, PGSIZE in *. simpl. lia.
Qed.

Lemma align_down_aligned sp n : align_down sp n mod 16 = 0.
Proof. unfold align_down. set (a := sp - Z.of_nat n). rewrite Zminus_mod, Z.mod_mod, Z.sub_diag by lia. done. Qed.

Section exec_stack.
Context {U : Type} `{Image U} `{!UserMemLaws U}.

(** The pairs on the new stack: arguments, environment, free slots. *)
Definition final_table (top : Z) (args env : list str) : list SBInfo :=
  pushed top (args ++ env) ++ replicate (MAXARG - length (args ++ env)) (mkSB 0 0).

Lemma length_final_table top args env : (length (args ++ env) ≤ MAXARG)%nat → length (final_table top args env) = MAXARG.
Proof. intros. unfold final_table. rewrite length_app, length_pushed, length_replicate. lia. Qed.

(** Both loops over strings. *)
Lemma push_all_spec base top args env (u : U) z :
  0 < base → stack_ok base top u → fits top base (args ++ env) → (length (args ++ env) ≤ MAXARG)%nat →
  ∃ u1 u', push_strings 0 top base (replicate (MAXARG * 2) 0) args (u, z)
      = (Ok (sp_after top args, table_words (pushed top args ++ replicate (MAXARG - length args) (mkSB 0 0))), (u1, z)) ∧
    push_strings (length args) (sp_after top args) base (table_words (pushed top args ++ replicate (MAXARG - length args) (mkSB 0 0))) env (u1, z)
      = (Ok (sp_after top (args ++ env), table_words (final_table top args env)), (u', z)) ∧
    stack_ok base top u' ∧ sp_after top (args ++ env) ≤ top ∧
    Forall2 (held u') (pushed top (args ++ env)) (Some <$> (args ++ env)) ∧
    Forall (λ sb, sp_after top (args ++ env) ≤ sb_ptr sb) (pushed top (args ++ env)).
Proof.
  intros Hb Hok Hf Hn. destruct (fits_app _ _ _ _ Hf) as [Hf1 Hf2]. rewrite length_app in Hn. rewrite table_words_null.
  destruct (push_strings_spec base top Hb args 0 top (replicate MAXARG (mkSB 0 0)) u z Hok Hf1) as (u1 & E1 & Hok1 & Hk1 & Hsp1 & Hh1 & Ha1);
    [lia|rewrite length_replicate; lia|].
  rewrite take_0, app_nil_l, drop_replicate, Nat.add_0_l in E1.
  destruct (push_strings_spec base top Hb env (length args) (sp_after top args) (pushed top args ++ replicate (MAXARG - length args) (mkSB 0 0)) u1 z Hok1 Hf2)
    as (u2 & E2 & Hok2 & Hk2 & Hsp2 & Hh2 & Ha2); [lia|rewrite length_app, length_pushed, length_replicate; lia|].
  rewrite take_app_length' in E2 by by rewrite length_pushed.
  rewrite drop_app_ge, length_pushed, drop_replicate in E2 by (rewrite length_pushed; lia).
  exists u1, u2. unfold final_table. rewrite pushed_app, sp_after_app, fmap_app. split_and!; [done| |done|lia| |].
  - rewrite E2. rewrite <-app_assoc, length_app. do 7 f_equal. lia.
  - apply Forall2_app; [|done]. apply Forall2_same_length_lookup_2; [by rewrite length_pushed, length_fmap|].
    intros i sb s Hsb Hs. pose proof (Forall2_lookup_lr _ _ _ _ _ _ Hh1 Hsb Hs) as Hheld.
    eapply held_kept; [exact Hk2| |exact Hheld]. intros bs _. apply (proj1 (Forall_lookup _ _) Ha1 _ _ Hsb).
  - apply Forall_app. split; [|done]. eapply Forall_impl; [exact Ha1|]. simpl. intros sb ?. lia.
Qed.

Lemma exec_stack_spec args env (u : U) osz u1 u2 top :
  (length (args ++ env) ≤ MAXARG)%nat →
  im_alloc (pgroundup osz) (pgroundup osz + (1 + STACK_PAGE_NUM) * PGSIZE) PTE_W u = (Ok top, u1) →
  im_clear (top - (1 + STACK_PAGE_NUM) * PGSIZE) u1 = (Ok (), u2) →
  let base := top - PGSIZE * STACK_PAGE_NUM in
  0 < base → top < 2 ^ 64 → stack_ok base top u2 → fits top base (args ++ env) → base + 560 ≤ sp_after top (args ++ env) →
  ∃ u' sp, exec_stack (pad_slots (Some <$> args)) (pad_slots (Some <$> env)) (u, osz)
      = (Ok (sp, length args, if (0 <? length args)%nat then sp else 0), (u', top)) ∧
    0 < sp ∧ sp mod 16 = 0 ∧
    lang_start u' (length args) sp = Ok (Some (Some <$> args, (Some <$> env) ++ replicate (MAXARG - length (args ++ env)) None)).
Proof.
  intros Hn Halloc Hclear base Hb Ht Hok Hf Hroom.
  destruct (push_all_spec base top args env u2 top Hb Hok Hf Hn) as (u3 & u4 & E3 & E4 & Hok4 & Hsp4 & Hh4 & Ha4).
  set (sp4 := sp_after top (args ++ env)) in *. set (tbl := final_table top args env) in *.
  assert (Htl : length (words_bytes (table_words tbl)) = 512%nat).
  { rewrite words_bytes_table, length_sbs_bytes. unfold tbl. by rewrite length_final_table. }
  assert (Hal : ∀ sp n, sp - Z.of_nat n - 16 < align_down sp n ≤ sp - Z.of_nat n).
  { intros sp n. unfold align_down. pose proof (Z.mod_pos_bound (sp - Z.of_nat n) 16 ltac:(lia)). lia. }
  pose proof (Hal sp4 512%nat) as Hal5.
  destruct (stack_push_spec base top Hb sp4 (words_bytes (table_words tbl)) u4 top Hok4) as (u5 & E5 & Hok5 & Hm5 & Hk5 & Hsp5);
    [rewrite Htl; lia|lia|rewrite Htl; done|]. rewrite Htl in E5, Hm5, Hsp5. set (sp5 := align_down sp4 512) in *.
  pose proof (Hal sp5 16%nat) as Hal6.
  destruct (stack_push_spec base top Hb sp5 (words_bytes [sp5; Z.of_nat MAXARG]) u5 top Hok5) as (u6 & E6 & Hok6 & Hm6 & Hk6 & Hsp6);
    [change (length (words_bytes [sp5; Z.of_nat MAXARG])) with 16%nat; lia|lia|done|].
  change (length (words_bytes [sp5; Z.of_nat MAXARG])) with 16%nat in E6, Hm6, Hsp6. set (sp6 := align_down sp5 16) in *.
  exists u6, sp6. split_and!.
  - unfold exec_stack. rewrite leading_pad, omap_pad. erewrite bind_ok by done. erewrite bind_ok by done. cbn [fst snd].
    erewrite bind_ok by (unfold on_image; cbn [fst snd]; rewrite Halloc; done). erewrite bind_ok by done. cbn [fst snd].
    erewrite bind_ok by (unfold on_image; cbn [fst snd]; rewrite Hclear; done). fold base.
    rewrite (bind_ok _ _ _ _ _ E3). cbv beta iota. rewrite (bind_ok _ _ _ _ _ E4). cbv beta iota.
    rewrite (bind_ok _ _ _ _ _ E5). by rewrite (bind_ok _ _ _ _ _ E6).
  - lia.
  - apply align_down_aligned.
  - rewrite words_bytes_table in Hm5.
    assert (Hheld : Forall2 (held u6) tbl ((Some <$> args ++ env) ++ replicate (MAXARG - length (args ++ env)) None)).
    { apply Forall2_app; [|by apply Forall2_replicate]. apply Forall2_same_length_lookup_2; [by rewrite length_pushed, length_fmap|].
      intros i sb s Hsb Hs. pose proof (proj1 (Forall_lookup _ _) Ha4 _ _ Hsb) as Hge. simpl in Hge.
      pose proof (Forall2_lookup_lr _ _ _ _ _ _ Hh4 Hsb Hs) as Hheld.
      eapply (held_kept sp5); [exact Hk6|intros; lia|]. eapply (held_kept sp4); [exact Hk5|intros; lia|exact Hheld]. }
    assert (Htok : Forall sb_ok tbl).
    { apply Forall_app. split; [by eapply pushed_ok|]. apply Forall_replicate. unfold sb_ok, usize. simpl. lia. }
    assert (Hlen : length tbl = MAXARG) by by apply length_final_table.
    rewrite <-Hlen in Hm6. rewrite length_app in Hn.
    rewrite (lang_start_spec u6 sp6 sp5 tbl ((Some <$> args ++ env) ++ replicate (MAXARG - (length args + length env)) None) (length args) Hm6);
      [|lia|unfold usize; lia|rewrite Hlen; unfold MAXARG; lia| |done|by rewrite length_app in Hheld|lia].
    + rewrite fmap_app, <-app_assoc, take_app_length', drop_app_length' by by rewrite length_fmap. by rewrite length_app.
    + apply Hk6; [lia|done].
Qed.

(** C28: Arguments and environment cross [exec]: for strings in the caller's
    memory that are valid and fit, of which at least one is an argument, the
    slots the kernel decodes, lays out on the new stack and passes in the
    registers are found by the new program's [lang_start] as exactly those
    strings, followed by the free slots of the environment; the stack pointer
    is aligned to 16 bytes.  With no arguments at all the register that leads
    to the slots is 0 and [lang_start] finds nothing, not even the
    environment. *)
Theorem exec_arguments {M0} `{UserMemLaws M0} (m : M0) sz regs a1 a2 args env (u : U) osz u1 u2 top :
  argraw regs 1 = Ok a1 → argraw regs 2 = Ok a2 →
  strings_at m sz a1 (Some <$> args) → strings_at m sz a2 (Some <$> env) → Forall str_ok (Some <$> (args ++ env)) →
  (length (args ++ env) ≤ MAXARG)%nat →
  im_alloc (pgroundup osz) (pgroundup osz + (1 + STACK_PAGE_NUM) * PGSIZE) PTE_W u = (Ok top, u1) →
  im_clear (top - (1 + STACK_PAGE_NUM) * PGSIZE) u1 = (Ok (), u2) →
  let base := top - PGSIZE * STACK_PAGE_NUM in
  0 < base → top < 2 ^ 64 → stack_ok base top u2 → fits top base (args ++ env) → base + 560 ≤ sp_after top (args ++ env) →
  ∃ argv envp u' sp a1', argv_from_arg m sz regs 1 = Ok argv ∧ envp_from_arg m sz regs 2 = Ok envp ∧
    exec_stack argv envp (u, osz) = (Ok (sp, length args, a1'), (u', top)) ∧ sp mod 16 = 0 ∧
    lang_start u' (length args) a1' = Ok (match args with
      | [] => None
      | _ => Some (Some <$> args, (Some <$> env) ++ replicate (MAXARG - length (args ++ env)) None)
      end).
Proof.
  intros Hr1 Hr2 Hs1 Hs2 Hstr Hn Halloc Hclear base Hb Ht Hok Hf Hroom. rewrite fmap_app in Hstr. apply Forall_app in Hstr as [Hstr1 Hstr2].
  destruct (argv_from_arg_spec m sz regs 1 a1 _ Hr1 Hs1 Hstr1) as [Ea _].
  destruct (argv_from_arg_spec m sz regs 2 a2 _ Hr2 Hs2 Hstr2) as [_ Ee].
  destruct (exec_stack_spec args env u osz u1 u2 top Hn Halloc Hclear Hb Ht Hok Hf Hroom) as (u' & sp & E & Hsp & Hal & Hls).
  eexists (pad_slots (Some <$> args)), (pad_slots (Some <$> env)), u', sp, _. split_and!; [done|done|exact E|done|].
  by destruct args.
Qed.
End exec_stack.

(** ** A memory where every address is mapped *)

Record TotalMem := mkTotal { tm_at : Z → Z }.
Definition total_copyin (m : TotalMem) (a : Z) (n : nat) : Result (list Z) := Ok (tm_at m <$> seqZ a (Z.of_nat n)).
Definition total_copyout (m : TotalMem) (a : Z) (bs : list Z) : Result () * TotalMem :=
  (Ok (), mkTotal (λ x, if (a <=? x) && (x <? a + Z.of_nat (length bs)) then nth (Z.to_nat (x - a)) bs 0 else tm_at m x)).
#[global] Instance total_UserMem : UserMem TotalMem :=
  { copyin := total_copyin; copyout := total_copyout; writable := λ _ _ _, True }.

Lemma seqZ_app_nat a n1 n2 : seqZ a (Z.of_nat (n1 + n2)) = seqZ a (Z.of_nat n1) ++ seqZ (a + Z.of_nat n1) (Z.of_nat n2).
Proof. rewrite Nat2Z.inj_add. apply seqZ_app; lia. Qed.

#[global] Instance total_UserMemLaws : UserMemLaws TotalMem.
Proof.
  split; simpl; unfold total_copyin, total_copyout.
  - intros m a n bs [= <-]. by rewrite length_fmap, length_seqZ, Nat2Z.id.
  - intros m a n1 n2 bs1 bs2 [= <-] [= <-]. by rewrite seqZ_app_nat, fmap_app.
  - intros m a n1 n2 bs [= <-]. rewrite seqZ_app_nat, fmap_app.
    assert (Hl : n1 = length (tm_at m <$> seqZ a (Z.of_nat n1))) by by rewrite length_fmap, length_seqZ, Nat2Z.id.
    by rewrite (take_app_length' _ _ n1), (drop_app_length' _ _ n1).
  - intros m a bs m' [= <-]. simpl. f_equal. apply list_eq. intros i. rewrite list_lookup_fmap.
    destruct (decide (i < length bs)%nat) as [Hi|Hi].
    + rewrite lookup_seqZ_lt by lia. simpl. rewrite (proj2 (Z.leb_le _ _)), (proj2 (Z.ltb_lt _ _)) by lia. simpl.
      replace (Z.to_nat (a + Z.of_nat i - a)) with i by lia. destruct (nth_lookup_or_length bs i 0) as [->|]; [done|lia].
    + rewrite lookup_seqZ_ge by lia. simpl. symmetry. apply lookup_ge_None. lia.
  - intros m a bs m' b n cs [= <-] [= <-] Hd. simpl. f_equal. apply list_fmap_ext. intros i x Hx. apply lookup_seqZ in Hx as [-> Hi].
    destruct (a <=? b + Z.of_nat i) eqn:E1, (b + Z.of_nat i <? a + Z.of_nat (length bs)) eqn:E2; try done. bool_to_prop. lia.
  - eauto.
  - done.
  - done.
Qed.

#[global] Instance total_Image : Image TotalMem := {|
  im_alloc := λ _ new _ u, (Ok new, u);
  im_walkaddr := λ va u, (Ok va, u);
  im_store := λ pa bs u, copyout u pa bs;
  im_clear := λ _ u, (Ok (), u);
|}.

(** The memory of a caller with the argument "a" and the variable "b=". *)
Definition demo_caller : TotalMem :=
  mkTotal (λ x, nth (Z.to_nat (x - 100))
    (sb_bytes (mkSB 116 1) ++ sb_bytes (mkSB 132 1) ++ [97] ++ sb_bytes (mkSB 149 1) ++ sb_bytes (mkSB 165 2) ++ [98; 61]) 0).

Lemma exec_arguments_witness :
  strings_at demo_caller 4096 100 [Some [97]] ∧ strings_at demo_caller 4096 133 [Some [98; 61]] ∧
  ∃ argv envp u' sp a1, argv_from_arg demo_caller 4096 [0; 100; 133] 1 = Ok argv ∧ envp_from_arg demo_caller 4096 [0; 100; 133] 2 = Ok envp ∧
    exec_stack argv envp (mkTotal (λ _, 0), 0) = (Ok (sp, 1%nat, a1), (u', 106496)) ∧ sp mod 16 = 0 ∧
    lang_start u' 1 a1 = Ok (Some ([Some [97]], [Some [98; 61]] ++ replicate 30 None)).
Proof.
  assert (H1 : strings_at demo_caller 4096 100 (Some <$> [[97]])).
  { exists 116, [mkSB 132 1]. unfold usize, MAXARG. simpl. repeat (split; [lia|]). split; [vm_compute; reflexivity|]. split; [lia|].
    split; [vm_compute; reflexivity|]. constructor; [|constructor]. unfold slot_at, sb_ok, usize. simpl. split; [lia|]. split; [lia|]. split; [lia|]. vm_compute. reflexivity. }
  assert (H2 : strings_at demo_caller 4096 133 (Some <$> [[98; 61]])).
  { exists 149, [mkSB 165 2]. unfold usize, MAXARG. simpl. repeat (split; [lia|]). split; [vm_compute; reflexivity|]. split; [lia|].
    split; [vm_compute; reflexivity|]. constructor; [|constructor]. unfold slot_at, sb_ok, usize. simpl. split; [lia|]. split; [lia|]. split; [lia|]. vm_compute. reflexivity. }
  split; [exact H1|]. split; [exact H2|].
  apply (exec_arguments demo_caller 4096 [0; 100; 133] 100 133 [[97]] [[98; 61]] (mkTotal (λ _, 0)) 0 (mkTotal (λ _, 0)) (mkTotal (λ _, 0)) 106496 eq_refl eq_refl H1 H2).
  - constructor; [split; [vm_compute; reflexivity|simpl; lia]|]. constructor; [split; [vm_compute; reflexivity|simpl; lia]|constructor].
  - vm_compute. lia.
  - reflexivity.
  - reflexivity.
  - vm_compute. reflexivity.
  - lia.
  - exact I.
  - vm_compute. repeat split; discriminate.
  - vm_compute. discriminate.
Defined.

(** A file with a loadable header, a note and another loadable header: only the
    first segment is loaded. *)
Definition demo_header (ty : Z) : list Z := le_bytes 4 ty ++ replicate 52 0.
Definition demo_file (off : Z) (n : nat) : Result (list Z) :=
  Ok (take n (demo_header (if off =? 64 then 1 else if off =? 120 then 4 else 1))).

Lemma exec_loads_prefix_witness :
  let s := (mkTotal (λ _, 0), 0) in
  let hs := [demo_header 1] in
  headers_at demo_file 64 hs ∧
  (load_headers demo_file 1 (replicate PH_SIZE 0) 64 s = m_for hs (load_segment demo_file) s ∧
   ∀ h, demo_file (u32 (64 + Z.of_nat (PH_SIZE * 1))) PH_SIZE = Ok h → length h = PH_SIZE → p_type h ≠ PT_LOAD →
     load_headers demo_file (1 + 2) (replicate PH_SIZE 0) 64 s = m_for hs (load_segment demo_file) s) ∧
  demo_file (u32 (64 + Z.of_nat (PH_SIZE * 1))) PH_SIZE = Ok (demo_header 4) ∧ p_type (demo_header 4) ≠ PT_LOAD.
Proof.
  intros s hs. assert (Hh : headers_at demo_file 64 hs) by (vm_compute; repeat split).
  split; [exact Hh|]. split; [|split; [vm_compute; reflexivity|vm_compute; discriminate]].
  apply (exec_loads_prefix demo_file hs 2 (replicate PH_SIZE 0) 64 s Hh); [|reflexivity].
  constructor; [vm_compute; reflexivity|constructor].
Defined.
