(* ===== verification/Sync.v ===== *)
(** * Cells initialised once

    [OnceLock] and [LazyLock] of [kernel/src/sync.rs].  Threads call
    [get_or_init], [set] or [force] on one cell at the same time; each access
    to the atomic state, and the write of the value between two of them, is a
    step of one thread.  The closure of [force] takes the initialiser of the
    lazy cell and panics when it is gone. *)

From stdpp Require Import base tactics numbers gmap list.
From S2P Require Import Prelude.
Local Open Scope nat_scope.

Inductive OState := IMCOMPLETE | POISONED | RUNNING | COMPLETE.

Section once.
Context {T : Type}.

(** What a thread runs: [get_or_init] or [set] with a value of its own, or
    [force] of the lazy cell. *)
Inductive Call := WithValue (v : T) | Force.

(** Where a thread is: before [try_get]; before [try_block]; in
    [try_init_inner] before the write, and after it with the guard not yet
    dropped; after the drop; in the loop of [get_or_init]; returned, with the
    value and whether its closure ran; stopped by a panic. *)
Inductive Pc := Start (c : Call) | Block (c : Call) | Init (c : Call) | Unblock | Return_ | Spin | Done (v : T) (ran : bool) | Panicked.

Record Cell := mkCell { state : OState; inner : option T; lazy_init : option T; threads : list Pc }.

Definition set_pc (i : nat) (p : Pc) (c : Cell) : Cell := mkCell (state c) (inner c) (lazy_init c) (<[i := p]> (threads c)).

(** [get_unchecked]: reading a value that was never written is not a state of
    the program; it is recorded as a stop. *)
Definition get_unchecked (ran : bool) (c : Cell) : Pc := match inner c with Some v => Done v ran | None => Panicked end.

(** [try_get] and the choice [get_or_try_init] makes of it. *)
Definition try_get (call : Call) (c : Cell) : Pc :=
  match state c with
  | POISONED => Panicked
  | COMPLETE => get_unchecked false c
  | IMCOMPLETE => Block call
  | RUNNING => Spin
  end.

(** One step of thread [i]. *)
Definition thread_step (i : nat) (c : Cell) : option Cell :=
  match threads c !! i with
  | Some (Start call) => Some (set_pc i (try_get call c) c)
  | Some (Block call) =>
      Some (match state c with
            | IMCOMPLETE => mkCell RUNNING (inner c) (lazy_init c) (<[i := Init call]> (threads c))
            | _ => set_pc i Spin c
            end)
  | Some (Init (WithValue v)) => Some (mkCell (state c) (Some v) (lazy_init c) (<[i := Unblock]> (threads c)))
  | Some (Init Force) =>
      Some (match lazy_init c with
            | Some v => mkCell (state c) (Some v) None (<[i := Unblock]> (threads c))
            | None => set_pc i Panicked c
            end)
  | Some Unblock => Some (mkCell COMPLETE (inner c) (lazy_init c) (<[i := Return_]> (threads c)))
  | Some Return_ => Some (set_pc i (get_unchecked true c) c)
  | Some Spin => Some (match state c with COMPLETE => set_pc i (get_unchecked false c) c | _ => c end)
  | Some (Done _ _) | Some Panicked | None => None
  end.

(** [OnceLock::set] of the value its thread brought. *)
Definition set_result (v : T) (p : Pc) : option (() + T) :=
  match p with Done _ true => Some (inl ()) | Done _ false => Some (inr v) | _ => None end.

Inductive steps : Cell → Cell → Prop :=
| steps_refl c : steps c c
| steps_more i c1 c2 c3 : thread_step i c1 = Some c2 → steps c2 c3 → steps c1 c3.

Definition cell_new (lazy : option T) (calls : list Call) : Cell := mkCell IMCOMPLETE None lazy (Start <$> calls).

(** ** The invariant *)

Definition is_init (p : Pc) : bool := match p with Init _ | Unblock => true | _ => false end.
(** The thread has written the value, or has returned after doing so. *)
Definition has_run (p : Pc) : bool := match p with Unblock | Return_ | Done _ true => true | _ => false end.

Definition count (f : Pc → bool) (l : list Pc) : nat := length (filter (λ p, f p = true) l).

(** The call a thread has still to make. *)
Definition pc_call (p : Pc) : option Call := match p with Start call | Block call | Init call => Some call | _ => None end.

(** [Q] are the calls that are made; [lazy0] is what the lazy cell had at
    first. *)
Record cell_ok (Q : Call → Prop) (lazy0 : option T) (c : Cell) : Prop := {
  co_lock : count is_init (threads c) = match state c with RUNNING => 1 | _ => 0 end;
  co_run : count has_run (threads c) = match inner c with Some _ => 1 | None => 0 end;
  co_state : match state c with
             | IMCOMPLETE => inner c = None
             | RUNNING => True
             | COMPLETE => inner c ≠ None
             | POISONED => False
             end;
  co_init i call : threads c !! i = Some (Init call) → state c = RUNNING ∧ inner c = None;
  co_unblock i : threads c !! i = Some Unblock → state c = RUNNING ∧ inner c ≠ None;
  co_done i v r : threads c !! i = Some (Done v r) → inner c = Some v ∧ state c = COMPLETE;
  co_ret i : threads c !! i = Some Return_ → state c = COMPLETE;
  co_panic i : threads c !! i ≠ Some Panicked;
  co_lazy : inner c = None → lazy_init c = lazy0;
  co_call i p call : threads c !! i = Some p → pc_call p = Some call → Q call;
  co_value v : inner c = Some v → Q (WithValue v) ∨ lazy0 = Some v;
  co_spin i : threads c !! i = Some Spin → state c ≠ IMCOMPLETE;
}.

Lemma cell_count_insert f l i p p' :
  l !! i = Some p → count f (<[i := p']> l) + (if f p then 1 else 0) = count f l + (if f p' then 1 else 0).
Proof.
  unfold count. intros Hi. rewrite insert_take_drop by by eapply lookup_lt_Some.
  rewrite <-(take_drop_middle _ _ _ Hi) at 3. rewrite !filter_app, !filter_cons, !length_app.
  destruct (f p) eqn:E1, (f p') eqn:E2; repeat case_decide; simplify_eq/=; try congruence; lia.
Qed.

Lemma count_pos f l i p : l !! i = Some p → f p = true → 0 < count f l.
Proof.
  intros Hi Hf. unfold count. assert (Hin : p ∈ filter (λ p, f p = true) l) by (apply list_elem_of_filter; split; [done|by eapply list_elem_of_lookup_2]).
  destruct (filter _ l); [by apply not_elem_of_nil in Hin|simpl; lia].
Qed.

(** The only thread that initialises. *)
Lemma count_unique f l i j p q :
  f Panicked = false → count f l ≤ 1 → l !! i = Some p → l !! j = Some q → f p = true → f q = true → i = j.
Proof.
  intros Hf Hc Hi Hj Hp Hq. destruct (decide (i = j)) as [|Hne]; [done|]. exfalso.
  pose proof (cell_count_insert f l i p Panicked Hi) as H1. rewrite Hp, Hf in H1.
  assert (Hj' : <[i := Panicked]> l !! j = Some q) by by rewrite list_lookup_insert_ne.
  pose proof (count_pos f _ _ _ Hj' Hq). lia.
Qed.

(** A thread moves from [p] to [p']; the others stay. *)
Lemma moved (l : list Pc) i p' j q : <[i := p']> l !! j = Some q → j = i ∧ q = p' ∨ j ≠ i ∧ l !! j = Some q.
Proof.
  destruct (decide (j = i)) as [->|]; [|rewrite list_lookup_insert_ne; auto].
  intros H. pose proof (lookup_lt_Some _ _ _ H) as Hl. rewrite length_insert in Hl.
  rewrite list_lookup_insert_eq in H by done. injection H as <-. auto.
Qed.

(** Steps that change only the position of a thread that does not hold the
    guard, to one that does not either. *)
Lemma set_pc_ok Q lz c i p p' :
  cell_ok Q lz c → threads c !! i = Some p → is_init p = false → is_init p' = false → has_run p' = has_run p →
  (∀ call, pc_call p' = Some call → pc_call p = Some call) → p' ≠ Panicked → (p' = Return_ → p = Return_) →
  (∀ v r, p' = Done v r → inner c = Some v ∧ state c = COMPLETE) → (p' = Spin → state c ≠ IMCOMPLETE) → cell_ok Q lz (set_pc i p' c).
Proof.
  intros [] Hi H1 H2 H3 H4 H5 H6 H7 H8.
  pose proof (cell_count_insert is_init _ _ _ p' Hi) as C1. pose proof (cell_count_insert has_run _ _ _ p' Hi) as C2. rewrite H1, H2 in C1. rewrite H3 in C2. cbn in C1.
  constructor; simpl; try done; try lia.
  - intros j call [[-> <-]|[_ Hj]]%moved; [done|eauto].
  - intros j [[-> <-]|[_ Hj]]%moved; [done|eauto].
  - intros j v r [[-> <-]|[_ Hj]]%moved; eauto.
  - intros j [[-> <-]|[_ Hj]]%moved; [|eauto]. rewrite H6 in Hi by done. eauto.
  - intros j [[-> <-]|[_ Hj]]%moved; [done|]. by apply (co_panic0 j).
  - intros j q call [[-> ->]|[_ Hj]]%moved Hq; eauto.
  - intros j [[-> <-]|[_ Hj]]%moved; eauto.
Qed.

Lemma get_unchecked_cases r c : inner c ≠ None → ∃ v, inner c = Some v ∧ get_unchecked r c = Done v r.
Proof. unfold get_unchecked. destruct (inner c) as [v|]; [eauto|done]. Qed.

Lemma return_ok Q lz c i p r :
  cell_ok Q lz c → threads c !! i = Some p → is_init p = false → has_run p = r → state c = COMPLETE → cell_ok Q lz (set_pc i (get_unchecked r c) c).
Proof.
  intros Hc Hi H1 H2 Hs. pose proof (co_state _ _ _ Hc) as Hst. rewrite Hs in Hst.
  destruct (get_unchecked_cases r c Hst) as (v & Hv & ->). eapply set_pc_ok; try done; [by rewrite H2; destruct r|].
  intros v' r' [= <- <-]. done.
Qed.

Lemma step_ok (Q : Call → Prop) lz i c c' :
  (Q Force → lz ≠ None) → cell_ok Q lz c → thread_step i c = Some c' → cell_ok Q lz c'.
Proof.
  intros Hlz Hc. unfold thread_step. destruct (threads c !! i) as [p|] eqn:Hi; [|done].
  pose proof (λ p', cell_count_insert is_init _ _ _ p' Hi) as C1. pose proof (λ p', cell_count_insert has_run _ _ _ p' Hi) as C2.
  destruct p as [call|call|call| | | |v r|]; try done.
  - intros [= <-]. unfold try_get. destruct (state c) eqn:Es.
    + eapply set_pc_ok; try done.
    + pose proof (co_state _ _ _ Hc) as Hst. by rewrite Es in Hst.
    + eapply set_pc_ok; try done. by rewrite Es.
    + by eapply return_ok.
  - destruct (state c) eqn:Es; intros [= <-]; try by (eapply set_pc_ok; try done; by rewrite Es). destruct Hc. rewrite Es in *.
    specialize (C1 (Init call)). specialize (C2 (Init call)). simpl in C1, C2.
    constructor; simpl; try done; try lia.
    + intros j [[_ [=]]|[_ Hj]]%moved. by destruct (co_unblock0 _ Hj).
    + intros j v r [[_ [=]]|[_ Hj]]%moved. by destruct (co_done0 _ _ _ Hj).
    + intros j [[_ [=]]|[_ Hj]]%moved. by specialize (co_ret0 _ Hj).
    + intros j [[_ [=]]|[_ Hj]]%moved. by apply (co_panic0 j).
    + intros j q call' [[-> ->]|[_ Hj]]%moved Hq; eauto.
  - destruct (co_init _ _ _ Hc _ _ Hi) as [Es Ei].
    assert (Hwrite : ∀ v lz', Q (WithValue v) ∨ lz = Some v → cell_ok Q lz (mkCell (state c) (Some v) lz' (<[i := Unblock]> (threads c)))).
    { intros v lz' Hv. specialize (C1 Unblock). specialize (C2 Unblock). simpl in C1, C2. destruct Hc. rewrite Es, Ei in *.
      constructor; simpl; try done; try lia.
      - intros j call' [[_ [=]]|[Hne Hj]]%moved. exfalso. apply Hne. by eapply (count_unique is_init _ _ _ _ _ eq_refl); [|exact Hj|exact Hi|..]; [lia|..].
      - intros j v' r [[_ [=]]|[_ Hj]]%moved. by destruct (co_done0 _ _ _ Hj).
      - intros j [[_ [=]]|[_ Hj]]%moved. by specialize (co_ret0 _ Hj).
      - intros j [[_ [=]]|[_ Hj]]%moved. by apply (co_panic0 j).
      - intros j q call' [[-> ->]|[_ Hj]]%moved Hq; [done|eauto].
      - intros v' [= <-]. done. }
    pose proof (co_call _ _ _ Hc _ _ call Hi eq_refl) as Hcall.
    destruct call as [v|]; [intros [= <-]; apply Hwrite; by left|].
    rewrite (co_lazy _ _ _ Hc Ei). destruct lz as [v|]; [|by specialize (Hlz Hcall)]. intros [= <-]. apply Hwrite. by right.
  - destruct (co_unblock _ _ _ Hc _ Hi) as [Es Ei]. intros [= <-].
    specialize (C1 Return_). specialize (C2 Return_). simpl in C1, C2. destruct Hc. rewrite Es in *.
    constructor; simpl; try done; try lia.
    + intros j call' [[_ [=]]|[Hne Hj]]%moved. exfalso. apply Hne. by eapply (count_unique is_init _ _ _ _ _ eq_refl); [|exact Hj|exact Hi|..]; [lia|..].
    + intros j [[_ [=]]|[Hne Hj]]%moved. exfalso. apply Hne. by eapply (count_unique is_init _ _ _ _ _ eq_refl); [|exact Hj|exact Hi|..]; [lia|..].
    + intros j v r [[_ [=]]|[_ Hj]]%moved. by destruct (co_done0 _ _ _ Hj).
    + intros j [[_ [=]]|[_ Hj]]%moved. by apply (co_panic0 j).
    + intros j q call' [[-> ->]|[_ Hj]]%moved Hq; [done|eauto].
  - intros [= <-]. eapply return_ok; try done. by eapply co_ret.
  - destruct (state c) eqn:Es; intros [= <-]; try done. by eapply return_ok.
Qed.

Lemma count_zero f l : (∀ i p, l !! i = Some p → f p = false) → count f l = 0.
Proof.
  intros Hf. unfold count. destruct (filter _ l) as [|p k] eqn:E; [done|]. exfalso.
  assert (Hin : p ∈ filter (λ p, f p = true) l) by (rewrite E; left). apply list_elem_of_filter in Hin as [Hp [i Hi]%list_elem_of_lookup].
  by rewrite (Hf i p Hi) in Hp.
Qed.

Lemma count_exists f l : count f l ≠ 0 → ∃ i p, l !! i = Some p ∧ f p = true.
Proof.
  unfold count. intros Hc. destruct (filter (λ p, f p = true) l) as [|p k] eqn:E; [done|].
  assert (Hin : p ∈ filter (λ p, f p = true) l) by (rewrite E; left).
  apply list_elem_of_filter in Hin as [Hp [i Hi]%list_elem_of_lookup]. eauto.
Qed.

Lemma cell_new_ok (Q : Call → Prop) lz calls : Forall Q calls → cell_ok Q lz (cell_new lz calls).
Proof.
  intros Hq. assert (Hst : ∀ i p, (Start <$> calls) !! i = Some p → ∃ call, p = Start call ∧ Q call).
  { intros i p Hp. rewrite list_lookup_fmap in Hp. apply fmap_Some in Hp as (call & Hcall & ->). exists call. split; [done|].
    by apply (proj1 (Forall_lookup _ _) Hq _ _ Hcall). }
  constructor; simpl; try done.
  - apply count_zero. by intros i p (call & -> & _)%Hst.
  - apply count_zero. by intros i p (call & -> & _)%Hst.
  - by intros i call (? & [=] & _)%Hst.
  - by intros i (? & [=] & _)%Hst.
  - by intros i v r (? & [=] & _)%Hst.
  - by intros i (? & [=] & _)%Hst.
  - by intros i (? & [=] & _)%Hst.
  - intros i p call (? & -> & ?)%Hst [= <-]. done.
  - by intros i (? & [=] & _)%Hst.
Qed.

Lemma steps_ok (Q : Call → Prop) lz c c' : (Q Force → lz ≠ None) → steps c c' → cell_ok Q lz c → cell_ok Q lz c'.
Proof. intros Hlz Hs. induction Hs; [done|]. eauto using step_ok. Qed.

(** A thread that is not done and not spinning can move on. *)
Definition busy (p : Pc) : bool := match p with Spin | Done _ _ | Panicked => false | _ => true end.

Lemma moved_neq c c' i p p' : threads c !! i = Some p → threads c' = <[i := p']> (threads c) → p ≠ p' → c' ≠ c.
Proof.
  intros Hi E Hne ->. rewrite E in Hi. rewrite list_lookup_insert_eq in Hi; [congruence|].
  apply lookup_lt_Some in Hi. by rewrite length_insert in Hi.
Qed.

Lemma busy_moves Q lz c i p : cell_ok Q lz c → threads c !! i = Some p → busy p = true → ∃ c', thread_step i c = Some c' ∧ c' ≠ c.
Proof.
  intros Hc Hi Hb. unfold thread_step. rewrite Hi.
  destruct p as [call|call|call| | | | |]; try done; [..|destruct call as [v|]|idtac|idtac]; eexists; (split; [reflexivity|]).
  - eapply moved_neq; [exact Hi|done|]. unfold try_get, get_unchecked. by repeat case_match.
  - destruct (state c); by eapply moved_neq.
  - by eapply moved_neq.
  - destruct (lazy_init c); by eapply moved_neq.
  - by eapply moved_neq.
  - eapply moved_neq; [exact Hi|done|]. unfold get_unchecked. by case_match.
Qed.

(** C32: A cell is initialised exactly once, under every interleaving of any
    number of threads that call [get_or_init], [set] and [force] on it: no
    thread panics or reads a value that was not written, at most one closure
    runs, every call that returns returns the same value, one that was offered
    (so of the calls to [set] that return at most one succeeds), and as long as
    a call has not returned some thread can move, so the spinning loops end. *)
Theorem once_exactly_once lz calls c :
  (Force ∈ calls → lz ≠ None) → steps (cell_new lz calls) c →
  (∀ i, threads c !! i ≠ Some Panicked) ∧ count has_run (threads c) ≤ 1 ∧
  (∀ i j v v' r r', threads c !! i = Some (Done v r) → threads c !! j = Some (Done v' r') →
     v = v' ∧ (WithValue v ∈ calls ∨ lz = Some v) ∧ (r = true → r' = true → i = j)) ∧
  (∀ i p, threads c !! i = Some p → (∃ v r, p = Done v r) ∨ ∃ j c', thread_step j c = Some c' ∧ c' ≠ c).
Proof.
  intros Hlz Hs. assert (Hc : cell_ok (λ call, call ∈ calls) lz c).
  { eapply (steps_ok _ _ _ _ Hlz Hs), cell_new_ok. by apply Forall_forall. }
  assert (Hrun : count has_run (threads c) ≤ 1) by (rewrite (co_run _ _ _ Hc); case_match; lia).
  split; [apply Hc|]. split; [done|]. split.
  - intros i j v v' r r' Hi Hj. destruct (co_done _ _ _ Hc _ _ _ Hi) as [Ei _]. destruct (co_done _ _ _ Hc _ _ _ Hj) as [Ej _].
    rewrite Ei in Ej. injection Ej as <-. split; [done|]. split; [by apply (co_value _ _ _ Hc)|]. intros -> ->.
    by eapply (count_unique has_run _ _ _ _ _ eq_refl).
  - intros i p Hi. destruct p as [call|call|call| | | |v r|]; [right..|by left; eauto|by apply (co_panic _ _ _ Hc) in Hi].
    1-5: destruct (busy_moves _ _ c i _ Hc Hi eq_refl) as (c' & ? & ?); by exists i, c'.
    pose proof (co_lock _ _ _ Hc) as Hlock. pose proof (co_state _ _ _ Hc) as Hst. pose proof (co_spin _ _ _ Hc _ Hi) as Hsp.
    destruct (state c) eqn:Es; [done|done| |].
    + destruct (count_exists is_init (threads c)) as (j & q & Hj & Hq); [lia|].
      destruct (busy_moves _ _ c j q Hc Hj) as (c' & ? & ?); [by destruct q|]. by exists j, c'.
    + exists i. unfold thread_step. rewrite Hi, Es. eexists. split; [reflexivity|].
      eapply moved_neq; [exact Hi|done|]. unfold get_unchecked. by case_match.
Qed.
End once.
Arguments Call : clear implicits.
Arguments Pc : clear implicits.
Arguments Cell : clear implicits.

(** Two calls of [set]: the first takes the lock, the second finds it running
    and spins until the value is there. *)
Lemma once_exactly_once_witness :
  let c0 := cell_new None [WithValue 1; WithValue 2] in
  let c := mkCell COMPLETE (Some 1) None [Done 1 true; Done 1 false] in
  steps c0 c ∧
  (∀ i, threads c !! i ≠ Some Panicked) ∧ count has_run (threads c) ≤ 1 ∧
  (∀ i j v v' r r', threads c !! i = Some (Done v r) → threads c !! j = Some (Done v' r') →
     v = v' ∧ (WithValue v ∈ [WithValue 1; WithValue 2] ∨ None = Some v) ∧ (r = true → r' = true → i = j)) ∧
  (∀ i p, threads c !! i = Some p → (∃ v r, p = Done v r) ∨ ∃ j c', thread_step j c = Some c' ∧ c' ≠ c).
Proof.
  intros c0 c.
  assert (Hs : steps c0 c).
  { do 2 (eapply (steps_more 0); [reflexivity|]). do 2 (eapply (steps_more 1); [reflexivity|]).
    do 3 (eapply (steps_more 0); [reflexivity|]). eapply (steps_more 1); [reflexivity|]. apply steps_refl. }
  split; [exact Hs|].
  apply (once_exactly_once None [WithValue 1; WithValue 2] c); [|exact Hs].
  intros H. inversion H as [|? ? ? H']; subst. inversion H' as [|? ? ? H'']; subst. inversion H''.
Defined.
