(* ===== verification/SleepLock.v ===== *)
(** * Sleep locks

    [kernel/src/sleeplock.rs].  The lock word and the owner's pid are kept
    under a spin lock, so one pass of the loop of [lock], the test of
    [holding] and the body of the drop are each one step.  [sleep] gives up the
    spin lock and puts the process to sleep in one step (it takes the lock of
    the process first); [wakeup] makes every process sleeping on the lock
    runnable again. *)

From stdpp Require Import base tactics numbers list.
From S2P Require Import Prelude.
Local Open Scope Z_scope.

(** [SleepLockInfo]. *)
Record SleepLock := mkSleepLock { sl_locked : bool; sl_pid : Z }.
Definition SleepLock_new : SleepLock := mkSleepLock false 0.

(** Where a process is: outside, in the loop of [lock] (runnable), asleep in
    it, with the guard, or in the drop of the guard past its assertion. *)
Inductive Place := Away | Trying | Asleep | Guarding | Dropping.
#[global] Instance Place_eq_dec : EqDecision Place.
Proof. solve_decision. Defined.

Record Proc := mkProc { pid : Z; place : Place }.
Record Locked := mkLocked { sl : SleepLock; procs : list Proc }.

(** [SleepLock::holding], asked by the process with this pid. *)
Definition sl_holding (p : Z) (lk : SleepLock) : bool := sl_locked lk && (sl_pid lk =? p).

(** [wakeup] on the lock's channel. *)
Definition sl_wakeup (ps : list Proc) : list Proc :=
  (λ p, if decide (place p = Asleep) then mkProc (pid p) Trying else p) <$> ps.

Definition move (i : nat) (p : Proc) (pl : Place) (s : Locked) : Locked := mkLocked (sl s) (<[i := mkProc (pid p) pl]> (procs s)).

(** The body of the drop, past its assertion. *)
Definition sl_release (i : nat) (p : Proc) (s : Locked) : Locked :=
  mkLocked (mkSleepLock false 0) (sl_wakeup (<[i := mkProc (pid p) Away]> (procs s))).

(** The next step of process [i], which the code alone decides: it enters
    [lock], makes a pass of the loop, drops its guard (the assertion, then the
    release).  [None]: it is asleep or does not exist. *)
Definition sl_step (i : nat) (s : Locked) : option (outcome () Locked) :=
  match procs s !! i with
  | None => None
  | Some p =>
      match place p with
      | Away => Some (Ok (move i p Trying s))
      | Trying =>
          if sl_locked (sl s) then Some (Ok (move i p Asleep s))
          else Some (Ok (mkLocked (mkSleepLock true (pid p)) (<[i := mkProc (pid p) Guarding]> (procs s))))
      | Asleep => None
      | Guarding => if sl_holding (pid p) (sl s) then Some (Ok (move i p Dropping s)) else Some Panic
      | Dropping => Some (Ok (sl_release i p s))
      end
  end.

Inductive sl_runs : Locked → Locked → Prop :=
| sl_runs_refl s : sl_runs s s
| sl_runs_more i s1 s2 s3 : sl_step i s1 = Some (Ok s2) → sl_runs s2 s3 → sl_runs s1 s3.

Definition sl_start (pids : list Z) : Locked := mkLocked SleepLock_new ((λ p, mkProc p Away) <$> pids).

(** ** The invariant *)

Definition owns (pl : Place) : bool := match pl with Guarding | Dropping => true | _ => false end.

(** Either the lock is free, nobody owns it and nobody sleeps, or exactly one
    process owns it and the lock has its pid. *)
Definition sl_inv (s : Locked) : Prop :=
  (sl_locked (sl s) = false ∧ ∀ i p, procs s !! i = Some p → owns (place p) = false ∧ place p ≠ Asleep) ∨
  (sl_locked (sl s) = true ∧ ∃ j q, procs s !! j = Some q ∧ owns (place q) = true ∧ sl_pid (sl s) = pid q ∧
     ∀ i p, procs s !! i = Some p → owns (place p) = true → i = j).

Lemma sl_wakeup_lookup ps i p : sl_wakeup ps !! i = Some p →
  ∃ q, ps !! i = Some q ∧ place p ≠ Asleep ∧ owns (place p) = owns (place q).
Proof.
  unfold sl_wakeup. rewrite list_lookup_fmap. intros (q & Hq & ->)%fmap_Some. exists q. split; [done|].
  by case_decide as E; [rewrite E|].
Qed.

(** A process moves between places that do not own the lock. *)
Lemma move_inv i p pl s :
  procs s !! i = Some p → owns (place p) = owns pl → (pl = Asleep → sl_locked (sl s) = true) → sl_inv s → sl_inv (move i p pl s).
Proof.
  intros Hi Ho Ha [[Hf Hn]|(Hl & j & q & Hj & Hq & Hp & Hu)].
  - left. split; [done|]. intros k p' [(<- & <- & _)|(_ & Hk)]%list_lookup_insert_Some; [|by eapply Hn].
    simpl. rewrite <-Ho. split; [by eapply Hn|]. intros ->. specialize (Ha eq_refl). congruence.
  - right. split; [done|]. destruct (decide (j = i)) as [->|Hne].
    + assert (q = p) as -> by congruence. exists i, (mkProc (pid p) pl).
      split_and!; simpl; [apply list_lookup_insert_eq; by eapply lookup_lt_Some|congruence|done|].
      intros k p' [(<- & _)|(_ & Hk)]%list_lookup_insert_Some; [done|by eapply Hu].
    + exists j, q. simpl. rewrite list_lookup_insert_ne by done. split_and!; [done..|].
      intros k p' [(<- & <- & _)|(_ & Hk)]%list_lookup_insert_Some Hk'; [|by eapply Hu]. apply (Hu i p Hi). simpl in Hk'. congruence.
Qed.

Lemma sl_step_inv i s : sl_inv s → match sl_step i s with Some (Ok s') => sl_inv s' | Some _ => False | None => True end.
Proof.
  intros Hs. unfold sl_step. destruct (procs s !! i) as [p|] eqn:Hi; [|done]. destruct (place p) eqn:Hp.
  - apply move_inv; [done|by rewrite Hp|done|done].
  - destruct (sl_locked (sl s)) eqn:Hl; [apply move_inv; [done|by rewrite Hp|done..]|].
    destruct Hs as [[_ Hn]|[? _]]; [|congruence]. right. split; [done|]. exists i, (mkProc (pid p) Guarding).
    split_and!; simpl; [apply list_lookup_insert_eq; by eapply lookup_lt_Some|done..|].
    intros k p' [(<- & _)|(_ & Hk)]%list_lookup_insert_Some Ho; [done|]. apply Hn in Hk as [? _]. congruence.
  - done.
  - destruct Hs as [[_ Hn]|(Hl & j & q & Hj & Hq & Hpid & Hu)]; [apply Hn in Hi as [Ho _]; by rewrite Hp in Ho|].
    assert (i = j) as <- by (eapply Hu; [done|by rewrite Hp]). assert (q = p) as -> by congruence.
    unfold sl_holding. rewrite Hl, Hpid, Z.eqb_refl. simpl. apply move_inv; [done|by rewrite Hp|done|].
    right. split; [done|]. by exists i, p.
  - left. split; [done|]. intros k p' (q & Hq & Ha & Ho)%sl_wakeup_lookup. split; [|done]. rewrite Ho.
    apply list_lookup_insert_Some in Hq as [(<- & <- & _)|(Hne & Hk)]; [done|].
    destruct Hs as [[_ Hn]|(Hl & j & r & Hj & Hr & Hpid & Hu)]; [by apply Hn in Hk as [? _]|].
    destruct (owns (place q)) eqn:E; [|done]. destruct Hne. transitivity j; [|symmetry; by eapply Hu]. eapply Hu; [done|by rewrite Hp].
Qed.

Lemma sl_start_inv pids : sl_inv (sl_start pids).
Proof. left. split; [done|]. intros i p. simpl. rewrite list_lookup_fmap. by intros (q & _ & ->)%fmap_Some. Qed.

(** C31: Sleep locks, with any processes taking and releasing one in any order:
    no step fails the assertion of the drop, at most one process has the guard,
    and no wake-up is lost: while a process sleeps in [lock], another one owns
    the lock, is not asleep itself, and its release makes every sleeper
    runnable. *)
Theorem sleeplock_correct pids s :
  sl_runs (sl_start pids) s →
  (∀ i, sl_step i s ≠ Some Panic) ∧
  (∀ i j p q, procs s !! i = Some p → procs s !! j = Some q → owns (place p) = true → owns (place q) = true → i = j) ∧
  (∀ i p, procs s !! i = Some p → place p = Asleep →
     ∃ j q, procs s !! j = Some q ∧ owns (place q) = true ∧ sl_step j s ≠ None ∧
       (place q = Dropping → ∃ s', sl_step j s = Some (Ok s') ∧ ∀ k r, procs s' !! k = Some r → place r ≠ Asleep)).
Proof.
  intros Hr. assert (Hs : sl_inv s).
  { pose proof (sl_start_inv pids) as H0. induction Hr as [|i s1 s2 s3 Hst _ IH]; [done|]. apply IH.
    pose proof (sl_step_inv i s1 H0) as H1. by rewrite Hst in H1. }
  split; [|split].
  - intros i Hp. pose proof (sl_step_inv i s Hs) as H1. by rewrite Hp in H1.
  - intros i j p q Hi Hj Hp Hq. destruct Hs as [[_ Hn]|(_ & k & r & _ & _ & _ & Hu)].
    + apply Hn in Hi as [? _]. congruence.
    + transitivity k; [by eapply Hu|symmetry; by eapply Hu].
  - intros i p Hi Hp. destruct Hs as [[_ Hn]|(_ & k & r & Hk & Hr' & _ & Hu)]; [by apply Hn in Hi as [_ ?]|].
    exists k, r. split_and!; [done..| |].
    + unfold sl_step. rewrite Hk. destruct (place r); try done. by case_match.
    + intros Hd. unfold sl_step. rewrite Hk, Hd. eexists. split; [done|]. simpl.
      by intros j t (q & _ & Ha & _)%sl_wakeup_lookup.
Qed.

(** One process has the lock, one sleeps for it. *)
Lemma sleeplock_correct_witness :
  let s := mkLocked (mkSleepLock true 3) [mkProc 3 Dropping; mkProc 4 Asleep] in
  sl_runs (sl_start [3; 4]) s ∧ (∀ i, sl_step i s ≠ Some Panic) ∧
  ∃ s', sl_step 0 s = Some (Ok s') ∧ ∀ k r, procs s' !! k = Some r → place r ≠ Asleep.
Proof.
  intros s. assert (Hr : sl_runs (sl_start [3; 4]) s).
  { eapply (sl_runs_more 0); [reflexivity|]. eapply (sl_runs_more 0); [reflexivity|]. eapply (sl_runs_more 1); [reflexivity|].
    eapply (sl_runs_more 1); [reflexivity|]. eapply (sl_runs_more 0); [reflexivity|]. apply sl_runs_refl. }
  destruct (sleeplock_correct [3; 4] s Hr) as (H1 & H2 & H3). split; [exact Hr|]. split; [exact H1|].
  destruct (H3 1%nat (mkProc 4 Asleep) eq_refl eq_refl) as (j & q & Hj & Hq & _ & Hd).
  assert (j = 0%nat) as -> by exact (H2 j 0%nat q (mkProc 3 Dropping) Hj eq_refl Hq eq_refl).
  apply Hd. injection Hj as <-. reflexivity.
Defined.
