(* ===== verification/MkFs.v ===== *)
(** * Making a file system

    [mkfs/src/main.rs], the tool that writes the image the kernel mounts.
    The image file is the map of its sectors with its length in bytes; reading
    and writing the host's files succeeds.  [die] is the error [()].  The tool
    is installed in release mode ([build.rs]), where unsigned subtraction wraps
    around: [iappend] relies on it. *)

From stdpp Require Import base tactics numbers gmap list.
From S2P Require Import Prelude Params Bytes Log FsLayout.
Local Open Scope Z_scope.

Definition NINODES : Z := 200.
Definition NBITMAP : Z := FSSIZE / (1024 * 8) + 1.
Definition NINODEBLOCKS : Z := NINODES / IPB + 1.
Definition NLOG : Z := Z.of_nat LOGSIZE.
Definition NMETA : Z := 2 + NLOG + NINODEBLOCKS + NBITMAP.
Definition NBLOCKS : Z := FSSIZE - NMETA.

(** The superblock [main] writes. *)
Definition mkfs_sb : SuperBlock :=
  mkSuperBlock FSMAGIC FSSIZE NBLOCKS NINODES NLOG 2 (2 + NLOG) (2 + NLOG + NINODEBLOCKS).

(** [struct FsImg], less the superblock: sectors of the image, its length,
    and the next free inode and block. *)
Record FsImg := mkFsImg { sects : gmap Z block; ilen : Z; freeinode : Z; freeblock : Z }.
Abbreviation MK := (M () FsImg).

Definition FsImg_new : FsImg := mkFsImg ∅ 0 1 NMETA.

(** A buffer laid over consecutive sectors. *)
Fixpoint put_span (fuel : nat) (sec : Z) (buf : list Z) (g : gmap Z block) : gmap Z block :=
  match fuel, buf with
  | S fuel, _ :: _ => put_span fuel (sec + 1) (drop BSIZE buf) (<[sec := write_at 0 (take BSIZE buf) (dget g sec)]> g)
  | _, _ => g
  end.

Definition wsect (sec : Z) (buf : list Z) : MK () := λ m,
  (Ok (), mkFsImg (put_span (length buf) sec buf (sects m)) (Z.max (ilen m) (sec * 1024 + Z.of_nat (length buf)))
            (freeinode m) (freeblock m)).
Definition rsect (sec : Z) : MK block := λ m,
  if sec * 1024 + 1024 <=? ilen m then (Ok (dget (sects m) sec), m) else (Err (), m).

(** The tool's own [struct DInode]: plain integers. *)
Record RawInode := mkRaw {
  r_itype : Z; r_major : Z; r_minor : Z; r_nlink : Z; r_size : Z; r_addrs : list Z;
  r_atime : Z; r_mtime : Z; r_ctime : Z; r_padding : list Z;
}.
Definition raw_default : RawInode := mkRaw 0 0 0 0 0 (replicate (NDIRECT + 2) 0) 0 0 0 (replicate 10 0).
Definition raw_widths : list nat := dinode_widths ++ replicate 10 4%nat.
Definition raw_values (d : RawInode) : list Z :=
  [r_itype d; r_major d; r_minor d; r_nlink d; r_size d] ++ r_addrs d ++ [r_atime d; r_mtime d; r_ctime d] ++ r_padding d.
Definition raw_bytes (d : RawInode) : list Z := encode_words raw_widths (raw_values d).
Definition raw_of_bytes (bs : list Z) : RawInode :=
  match decode_words raw_widths bs with
  | ty :: mj :: mi :: nl :: sz :: vs => mkRaw ty mj mi nl sz (take 13 vs) (vs !!! 13%nat) (vs !!! 14%nat) (vs !!! 15%nat) (drop 16 vs)
  | _ => raw_default
  end.

Definition raw_slot (inum : Z) : nat := Z.to_nat (inum mod IPB).

Definition winode (inum : Z) (ip : RawInode) : MK () :=
  let bn := iblock mkfs_sb inum in
  buf ← rsect bn;
  wsect bn (write_at (DINODE_SIZE * raw_slot inum) (raw_bytes ip) buf).
Definition rinode (inum : Z) : MK RawInode :=
  buf ← rsect (iblock mkfs_sb inum);
  mret (raw_of_bytes (read_at (DINODE_SIZE * raw_slot inum) DINODE_SIZE buf)).

Definition ialloc (itype : FileType) : MK Z := λ m,
  let inum := u32 (freeinode m) in
  (_ ← winode inum (mkRaw (filetype_as_u16 itype) 0 0 1 0 (r_addrs raw_default) 0 0 0 (r_padding raw_default));
   mret inum) (mkFsImg (sects m) (ilen m) (freeinode m + 1) (freeblock m)).

(** The bitmap: a buffer of [used] bytes, of which the first [used] bits are
    set. *)
Definition bitmap_bytes (used : Z) : list Z :=
  foldl (λ buf i, match buf !! Z.to_nat (i / 8) with
                  | Some elem => <[Z.to_nat (i / 8) := Z.lor elem (Z.shiftl 1 (i mod 8))]> buf
                  | None => buf
                  end) (replicate (Z.to_nat used) 0) (seqZ 0 used).
Definition mkfs_balloc (used : Z) : MK () := wsect (sb_bmapstart mkfs_sb) (bitmap_bytes used).

(** [self.freeblock as u32] and the increment. *)
Definition take_block : MK Z := λ m, (Ok (u32 (freeblock m)), mkFsImg (sects m) (ilen m) (freeinode m) (freeblock m + 1)).

Definition with_raw_addrs (a : list Z) (d : RawInode) : RawInode :=
  mkRaw (r_itype d) (r_major d) (r_minor d) (r_nlink d) (r_size d) a (r_atime d) (r_mtime d) (r_ctime d) (r_padding d).
Definition with_raw_size (z : Z) (d : RawInode) : RawInode :=
  mkRaw (r_itype d) (r_major d) (r_minor d) (r_nlink d) z (r_addrs d) (r_atime d) (r_mtime d) (r_ctime d) (r_padding d).

(** [din.addrs[k]], with a new block when it is 0. *)
Definition addr_slot (k : nat) (din : RawInode) : MK (Z * RawInode) :=
  if r_addrs din !!! k =? 0 then b ← take_block; mret (b, with_raw_addrs (<[k := b]> (r_addrs din)) din)
  else mret (r_addrs din !!! k, din).
(** Word [i] of the index block [blk], with a new block when it is 0. *)
Definition index_slot (blk : Z) (i : nat) : MK Z :=
  indirect ← rsect blk;
  if get_u32 i indirect =? 0 then b ← take_block; _ ← wsect blk (put_u32 i b indirect); mret b
  else mret (get_u32 i indirect).

(** The block of file block [o_fbn]; [x] is the block of the pass before. *)
Definition map_block (o_fbn x : Z) (din : RawInode) : MK (Z * RawInode) :=
  '(x, din) ← (if o_fbn <? Z.of_nat NDIRECT then addr_slot (Z.to_nat o_fbn) din else mret (x, din));
  let fbn := u64 (o_fbn - Z.of_nat NDIRECT) in
  '(x, din) ← (if fbn <? Z.of_nat NINDIRECT then
                 '(blk, din) ← addr_slot NDIRECT din;
                 b ← index_slot blk (Z.to_nat fbn);
                 mret (b, din)
               else mret (x, din));
  let fbn := u64 (fbn - Z.of_nat NINDIRECT) in
  if fbn <? Z.of_nat NDINDIRECT then
    '(blk, din) ← addr_slot (NDIRECT + 1) din;
    blk ← index_slot blk (Z.to_nat (fbn / Z.of_nat NINDIRECT));
    b ← index_slot blk (Z.to_nat (fbn mod Z.of_nat NINDIRECT));
    mret (b, din)
  else mret (x, din).

(** The loop of [iappend]: the inode and the offset at the end. *)
Fixpoint iappend_loop (fuel : nat) (data : list Z) (off x : Z) (din : RawInode) : MK (RawInode * Z) :=
  match data, fuel with
  | [], _ => mret (din, off)
  | _, O => m_panic
  | _, S fuel =>
      let o_fbn := off / 1024 in
      if Z.of_nat MAXFILE <? o_fbn then m_err ()
      else
        '(x, din) ← map_block o_fbn x din;
        let n1 := Z.to_nat (Z.min (Z.of_nat (length data)) ((o_fbn + 1) * 1024 - off)) in
        buf ← rsect x;
        _ ← wsect x (write_at (Z.to_nat (off - o_fbn * 1024)) (take n1 data) buf);
        iappend_loop fuel (drop n1 data) (off + Z.of_nat n1) x din
  end.
Definition iappend (inum : Z) (data : list Z) : MK () :=
  din ← rinode inum;
  '(din, off) ← iappend_loop (length data) data (r_size din) 0 din;
  winode inum (with_raw_size (u32 off) din).

(** [de.name[..n].copy_from_slice(name)]: a longer name panics. *)
Definition dirent_bytes (inum : Z) (name : list Z) : MK (list Z) :=
  if (DIRSIZ <? length name)%nat then m_panic
  else mret (encode_dirent (mkDirEnt (u16 inum) (name ++ replicate (DIRSIZ - length name) 0))).
Definition add_entry (dir inum : Z) (name : list Z) : MK () := de ← dirent_bytes inum name; iappend dir de.

Definition DOT : list Z := [46].
Definition DOTDOT : list Z := [46; 46].

(** The closure [create_dir]. *)
Definition create_dir (rootino : Z) (name : list Z) : MK Z :=
  result ← ialloc FT_Dir;
  _ ← add_entry rootino result name;
  _ ← add_entry result result DOT;
  _ ← add_entry result rootino DOTDOT;
  mret result.

(** A host file that exists: its file name, the name of the directory it is
    in, and what the reads of it return. *)
Record HostFile := mkHostFile { h_name : list Z; h_parent : option (list Z); h_reads : list (list Z) }.

Definition BIN : list Z := [98; 105; 110].
Definition LIB : list Z := [108; 105; 98].
Definition ETC : list Z := [101; 116; 99].
Definition DEV : list Z := [100; 101; 118].
Definition INIT : list Z := [105; 110; 105; 116].

(** [trim_start_matches("_")]. *)
Fixpoint shortname (name : list Z) : list Z := match name with 95 :: name => shortname name | _ => name end.
Fixpoint is_prefix (p s : list Z) : bool :=
  match p, s with [], _ => true | a :: p, b :: s => (a =? b) && is_prefix p s | _, [] => false end.
Fixpoint contains (p s : list Z) : bool := is_prefix p s || match s with [] => false | _ :: s => contains p s end.

Definition parent_ino (rootino binino libino etcino : Z) (f : HostFile) : Z :=
  match h_parent f with
  | Some d =>
      if bool_decide (d = BIN) && contains INIT (shortname (h_name f)) then rootino
      else if bool_decide (d = BIN) then binino
      else if bool_decide (d = LIB) then libino
      else if bool_decide (d = ETC) then etcino
      else rootino
  | None => rootino
  end.

Definition add_file (rootino binino libino etcino : Z) (f : HostFile) : MK () :=
  let name := shortname (h_name f) in
  if (14 <=? length name)%nat then m_panic
  else
    inum ← ialloc FT_File;
    _ ← add_entry (parent_ino rootino binino libino etcino f) inum name;
    m_for (h_reads f) (iappend inum).

(** The bytes of block 1. *)
Definition sb_block : block :=
  put_u32s 0 [sb_magic mkfs_sb; sb_size mkfs_sb; sb_nblocks mkfs_sb; sb_ninodes mkfs_sb; sb_nlog mkfs_sb;
              sb_logstart mkfs_sb; sb_inodestart mkfs_sb; sb_bmapstart mkfs_sb] zero_block.

(** [main] from the root directory to the last file; it returns [rootino]. *)
Definition populate_image (files : list HostFile) : MK Z :=
  rootino ← ialloc FT_Dir;
  if negb (rootino =? ROOTINO) then m_panic
  else
    _ ← add_entry rootino rootino DOT;
    _ ← add_entry rootino rootino DOTDOT;
    _ ← create_dir rootino DEV;
    binino ← create_dir rootino BIN;
    libino ← create_dir rootino LIB;
    etcino ← create_dir rootino ETC;
    _ ← m_for files (add_file rootino binino libino etcino);
    mret rootino.

(** The end of [main]: the size of the root directory is rounded up, and the
    bitmap is written. *)
Definition finish_image (rootino : Z) : MK () :=
  din ← rinode rootino;
  _ ← winode rootino (with_raw_size (u32 ((r_size din / 1024 + 1) * 1024)) din);
  m ← m_get; mkfs_balloc (freeblock m).

(** [main], from the creation of the image on. *)
Definition mkfs (files : list HostFile) : MK () :=
  _ ← m_for (seqZ 0 FSSIZE) (λ sec, wsect sec zero_block);
  _ ← wsect 1 sb_block;
  rootino ← populate_image files;
  finish_image rootino.
