(* ===== verification/MkFsSim.v ===== *)
(** * Appending to a file of a new image, as the kernel would

    [FsImg] hands out blocks in order and writes the bitmap last.  [sim]
    relates an image under construction to a disk whose bitmap is up to date:
    on it the kernel's [bmap] takes the very same blocks, so that [iappend]
    inherits what is proved of the block map of an inode. *)

From stdpp Require Import base tactics numbers gmap list.
From S2P Require Import Prelude Params Errors Bytes Log LogOps FsLayout FsBlocks FsInode FsBmap UserMem FsData MkFs.
Local Open Scope Z_scope.

#[global] Arguments FSSIZE : simpl never.
#[global] Arguments NMETA : simpl never.
#[global] Arguments mkfs_sb : simpl never.

Lemma mkfs_size : sb_size mkfs_sb = FSSIZE. Proof. reflexivity. Qed.
Lemma mkfs_datastart : datastart mkfs_sb = NMETA. Proof. reflexivity. Qed.
Lemma mkfs_layout : layout_ok mkfs_sb.
Proof. split; vm_compute; (split; congruence) || congruence || done. Qed.
Lemma mkfs_meta c : 0 ≤ c < FSSIZE → 58 ≤ bblock mkfs_sb c < NMETA.
Proof.
  intros Hc. change NMETA with 83. unfold bblock. change (sb_bmapstart mkfs_sb) with 58.
  assert (0 ≤ c / BPB < 25); [|lia]. unfold BPB, FSSIZE in *. split; [apply Z.div_pos; lia|apply Z.div_lt_upper_bound; lia].
Qed.
Lemma mkfs_iblock i : 0 ≤ i < NINODES → 32 ≤ iblock mkfs_sb i < 58.
Proof.
  intros Hc. unfold iblock. change (sb_inodestart mkfs_sb) with 32.
  assert (0 ≤ i / IPB < 26); [|lia]. unfold IPB, NINODES in *. split; [apply Z.div_pos; lia|apply Z.div_lt_upper_bound; lia].
Qed.

(** ** Sectors *)

Abbreviation sect m c := (dget (sects m) c).

Record image_ok (m : FsImg) : Prop := {
  im_len c : length (sect m c) = BSIZE;
  im_ilen : FSSIZE * 1024 ≤ ilen m;
}.

Definition put_sect (c : Z) (x : block) (m : FsImg) : FsImg := mkFsImg (<[c := x]> (sects m)) (ilen m) (freeinode m) (freeblock m).

Lemma dget_insert (g : gmap Z block) c x c' : dget (<[c := x]> g) c' = if decide (c' = c) then x else dget g c'.
Proof. unfold dget. case_decide; subst; [by rewrite lookup_insert_eq|by rewrite lookup_insert_ne]. Qed.

Lemma rsect_ok m c : image_ok m → c < FSSIZE → rsect c m = (Ok (sect m c), m).
Proof. intros [_ Hl] Hc. unfold rsect. by rewrite (proj2 (Z.leb_le _ _)) by lia. Qed.

Lemma put_span_one fuel c x g : (0 < fuel)%nat → length x = BSIZE → length (dget g c) = BSIZE → put_span fuel c x g = <[c := x]> g.
Proof.
  intros Hf Hx Hg. destruct fuel as [|fuel]; [lia|]. destruct x as [|b x]; [discriminate Hx|].
  cbn [put_span]. rewrite drop_ge, take_ge by (rewrite Hx; done).
  replace (write_at 0 (b :: x) (dget g c)) with (b :: x); [by destruct fuel|].
  unfold write_at. rewrite drop_ge by (rewrite Hg, Hx; done). by rewrite app_nil_r.
Qed.

Lemma wsect_ok m c x : image_ok m → c < FSSIZE → length x = BSIZE → wsect c x m = (Ok (), put_sect c x m) ∧ image_ok (put_sect c x m).
Proof.
  intros [Hs Hl] Hc Hx. split.
  - unfold wsect, put_sect. rewrite Hx at 2. change (Z.of_nat BSIZE) with 1024. rewrite Z.max_l by lia. do 2 f_equal.
    apply put_span_one; [rewrite Hx; unfold BSIZE; lia|done|done].
  - split; [|done]. intros c'. simpl. rewrite dget_insert. by case_decide.
Qed.

(** ** The disk with its bitmap *)

Record sim (m : FsImg) (d : gmap Z block) : Prop := {
  si_image : image_ok m;
  si_data c : NMETA ≤ c < FSSIZE ∨ c = 0 → dget d c = sect m c;
  si_fresh c : freeblock m ≤ c < FSSIZE → sect m c = zero_block;
  si_used c : 0 ≤ c < FSSIZE → used mkfs_sb d c = (c <? freeblock m);
  si_bitmap : bitmap_ok mkfs_sb d;
  si_free : NMETA ≤ freeblock m;
}.

(** Other blocks of the disk do not matter. *)
Lemma sim_frame m d d' :
  sim m d → (∀ c, NMETA ≤ c < FSSIZE ∨ c = 0 ∨ 58 ≤ c < NMETA → dget d' c = dget d c) → sim m d'.
Proof.
  intros [] Hf. destruct (bitmap_frame mkfs_sb d d') as [Hu Hb].
  { intros c Hc. rewrite mkfs_size in Hc. apply Hf. pose proof (mkfs_meta c). lia. }
  split; try done; [|intros c Hc; rewrite Hu; [by apply si_used0|done]|by apply Hb].
  intros c Hc. rewrite Hf; [by apply si_data0|lia].
Qed.

(** The image and the disk change in a block in use. *)
Lemma sim_put m d b x d' :
  sim m d → NMETA ≤ b < freeblock m → b < FSSIZE → length x = BSIZE → (∀ c, dget d' c = if decide (c = b) then x else dget d c) →
  wsect b x m = (Ok (), put_sect b x m) ∧ sim (put_sect b x m) d'.
Proof.
  intros Hs Hb Hb' Hx Hd. pose proof Hs as []. destruct (wsect_ok m b x si_image0 Hb' Hx) as [Hw Hi]. split; [done|].
  destruct (bitmap_frame mkfs_sb d d') as [Hu Hbm].
  { intros c Hc. rewrite mkfs_size in Hc. pose proof (mkfs_meta c Hc). simpl. rewrite Hd, decide_False by lia. done. }
  split; try done; [..|by apply Hbm].
  - intros c Hc. simpl. rewrite Hd, dget_insert. case_decide; [done|by apply si_data0].
  - intros c Hc. simpl in *. rewrite dget_insert, decide_False by lia. by apply si_fresh0.
  - intros c Hc. simpl. rewrite Hu by done. by apply si_used0.
Qed.

(** The kernel's allocator takes the next block too. *)
Lemma sim_alloc m d :
  sim m d → freeblock m < FSSIZE →
  ∃ d', balloc mkfs_sb d = (Ok (freeblock m), d') ∧
    take_block m = (Ok (freeblock m), mkFsImg (sects m) (ilen m) (freeinode m) (freeblock m + 1)) ∧
    sim (mkFsImg (sects m) (ilen m) (freeinode m) (freeblock m + 1)) d' ∧
    ∀ c, NMETA ≤ c < FSSIZE ∨ c = 0 → dget d' c = dget d c.
Proof.
  intros Hs Hf. pose proof Hs as []. assert (Hn : 83 ≤ freeblock m) by exact si_free0.
  destruct (balloc_spec mkfs_sb d 0 mkfs_layout si_bitmap0) as (b & d' & Hb & _ & Ha); [exact I| |].
  { exists (freeblock m). rewrite mkfs_size. split; [lia|]. rewrite si_used0 by lia. by apply Z.ltb_irrefl. }
  pose proof Ha as [A1 A2 A3 A4 A5 A6 A7]. rewrite mkfs_size in *.
  assert (b = freeblock m) as ->.
  { rewrite si_used0 in A2 by lia. apply Z.ltb_ge in A2. destruct (decide (b = freeblock m)); [done|].
    specialize (A3 (freeblock m)). rewrite si_used0 in A3 by lia. rewrite Z.ltb_irrefl in A3. discriminate A3. lia. }
  assert (Hdd : ∀ c, NMETA ≤ c < FSSIZE ∨ c = 0 → dget d' c = dget d c).
  { intros c Hc. destruct (decide (c = freeblock m)) as [->|].
    - simpl in A4. rewrite A4, si_data0 by done. symmetry. apply si_fresh0. lia.
    - apply A5; [done|]. pose proof (mkfs_meta (freeblock m)). change NMETA with 83 in *. lia. }
  exists d'. split; [done|]. split.
  { unfold take_block. do 2 f_equal. apply wrap_small. unfold FSSIZE in *. lia. }
  split; [|done]. split; simpl; try done; [by destruct si_image0|..].
  - intros c Hc. rewrite Hdd by done. by apply si_data0.
  - intros c Hc. apply si_fresh0. lia.
  - intros c Hc. rewrite A6 by done. case_decide; [subst; symmetry; apply Z.ltb_lt; lia|].
    rewrite si_used0 by done. destruct (Z.ltb_spec c (freeblock m)), (Z.ltb_spec c (freeblock m + 1)); lia || done.
  - lia.
Qed.

(** ** Slots *)

(** [n] more blocks are taken; nothing below the data area changes. *)
Record grown (n : Z) (m m' : FsImg) : Prop := {
  gr_free : freeblock m' = freeblock m + n;
  gr_inode : freeinode m' = freeinode m;
  gr_meta c : c < NMETA → sect m' c = sect m c;
}.
Lemma image_grown_refl m : grown 0 m m.
Proof. split; [lia|done..]. Qed.
Lemma image_grown_trans n1 n2 m1 m2 m3 : grown n1 m1 m2 → grown n2 m2 m3 → grown (n1 + n2) m1 m3.
Proof. intros [] []. split; [lia|congruence|]. intros c Hc. by rewrite gr_meta1, gr_meta0. Qed.
Lemma grown_put m c x : NMETA ≤ c → grown 0 m (put_sect c x m).
Proof. intros Hc. split; simpl; [lia|done|]. intros c' Hc'. by rewrite dget_insert, decide_False by lia. Qed.

Lemma with_raw_addrs_same din : with_raw_addrs (r_addrs din) din = din.
Proof. by destruct din. Qed.

Definition absent (a : Z) : Z := if a =? 0 then 1 else 0.

Lemma addr_slot_sim k m d ip din a d' ip' :
  sim m d → id_addrs ip = r_addrs din → 0 ≤ id_inum ip < NINODES → freeblock m < FSSIZE →
  root_slot mkfs_sb k true (d, ip) = (Ok a, (d', ip')) →
  ∃ m', addr_slot k din m = (Ok (a, with_raw_addrs (id_addrs ip') din), m') ∧ sim m' d' ∧ grown (absent (id_addrs ip !!! k)) m m'.
Proof.
  intros Hs Ha Hi Hf. unfold root_slot, addr_slot, absent, mbind, M_bind. simpl self. cbv beta iota zeta. rewrite <-Ha.
  destruct (Z.eqb_spec (id_addrs ip !!! k) 0) as [E|E]; cbn [andb]; cbv beta iota.
  2:{ intros [= <- <- <-]. exists m. rewrite Ha, with_raw_addrs_same. split; [done|]. split; [done|apply image_grown_refl]. }
  destruct (sim_alloc m d Hs Hf) as (d1 & Hb & Ht & Hs1 & Hd1). unfold lift.
  rewrite Hb, Ht. cbv beta iota.
  unfold set_addrs, mbind, M_bind. simpl set_self. cbv beta iota.
  set (ip1 := with_addrs _ ip). destruct (update_spec mkfs_sb d1 ip1 0) as (d2 & Hu & _ & Hd2); [exact I|]. rewrite Hu.
  intros [= <- <- <-]. eexists. split; [done|]. split.
  - apply (sim_frame _ d1); [done|]. intros c Hc. simpl in Hd2. rewrite Hd2, decide_False; [done|].
    pose proof (mkfs_iblock (id_inum ip) Hi). simpl. change NMETA with 83 in *. lia.
  - split; simpl; [done..|]. by intros.
Qed.

Lemma index_slot_sim blk i m d ip a d' ip' :
  sim m d → NMETA ≤ blk < FSSIZE → used mkfs_sb d blk = true → (i < 256)%nat → freeblock m < FSSIZE →
  word_slot mkfs_sb blk i true (d, ip) = (Ok a, (d', ip')) →
  ∃ m', index_slot blk i m = (Ok a, m') ∧ sim m' d' ∧ grown (absent (get_u32 i (dget d blk))) m m' ∧ ip' = ip.
Proof.
  intros Hs Hr Hu Hi Hf. pose proof Hs as []. rewrite si_used0 in Hu by (change NMETA with 83 in *; lia). apply Z.ltb_lt in Hu.
  unfold word_slot, index_slot, absent, mbind, M_bind. rewrite rsect_ok by (done || lia). simpl bread. cbv beta iota zeta.
  rewrite <-si_data0 by lia. destruct (Z.eqb_spec (get_u32 i (dget d blk)) 0) as [E|E]; cbn [andb]; cbv beta iota.
  2:{ intros [= <- <- <-]. exists m. split; [done|]. split; [done|]. split; [apply image_grown_refl|done]. }
  destruct (sim_alloc m d Hs Hf) as (d1 & Hb & Ht & Hs1 & Hd1). unfold lift. rewrite Hb, Ht. cbv beta iota.
  unfold bs_update, mem_block_store, mem_update. intros [= <- <- <-].
  assert (Hlen : length (put_u32 i (freeblock m) (dget d blk)) = BSIZE).
  { rewrite length_put_u32; rewrite si_data0 by lia; rewrite (im_len _ si_image0); [done|unfold BSIZE; lia]. }
  destruct (sim_put _ d1 blk (put_u32 i (freeblock m) (dget d blk)) (<[blk := put_u32 i (freeblock m) (dget d blk)]> d1) Hs1)
    as [Hw Hs2]; [simpl; lia|lia|done|apply dget_insert|]. rewrite Hw.
  eexists. split; [done|]. split; [done|]. split; [|done].
  replace 1 with (1 + 0) by done. eapply image_grown_trans; [|apply grown_put; lia]. by split.
Qed.

(** ** The block of a file block *)

(** The places on the way to file block [bn], and how many of them have no
    block yet. *)
Definition path (bn : nat) : list pos :=
  match bpos bn with
  | Child (Child q i) j => [q; Child q i; Child (Child q i) j]
  | Child q i => [q; Child q i]
  | q => [q]
  end.
Definition missing (d : gmap Z block) (ip : IData) (bn : nat) : Z := foldr (λ p n, absent (addr_at d ip p) + n) 0 (path bn).

Definition raw_like (ip : IData) (din : RawInode) : Prop := id_addrs ip = r_addrs din.

Lemma fbn_wraps (bn k : nat) : (bn < k)%nat → Z.of_nat k ≤ 2 ^ 32 → u64 (Z.of_nat bn - Z.of_nat k) = Z.of_nat bn - Z.of_nat k + 2 ^ 64.
Proof. intros. unfold u64, wrap. rewrite <-(Z.mod_add _ 1) by lia. apply Z.mod_small. lia. Qed.

Lemma map_block_direct bn x din m r m' :
  (bn < NDIRECT)%nat → addr_slot bn din m = (Ok r, m') → map_block (Z.of_nat bn) x din m = (Ok r, m').
Proof.
  intros Hb Hr. unfold map_block, mbind, M_bind. rewrite (proj2 (Z.ltb_lt _ _)) by lia. rewrite Nat2Z.id, Hr. destruct r as [y din'].
  rewrite fbn_wraps by (unfold NDIRECT in *; lia). rewrite (proj2 (Z.ltb_ge _ _)) by (unfold NINDIRECT, NDIRECT in *; lia).
  unfold mret, M_ret. cbv beta iota. unfold u64, wrap. rewrite Z.mod_small by (unfold NINDIRECT, NDIRECT in *; lia).
  rewrite (proj2 (Z.ltb_ge _ _)) by (unfold NDINDIRECT, NINDIRECT, NDIRECT in *; lia). done.
Qed.

Lemma map_block_indirect bn x din m blk din1 m1 b m2 :
  (NDIRECT ≤ bn < NDIRECT + NINDIRECT)%nat → addr_slot NDIRECT din m = (Ok (blk, din1), m1) →
  index_slot blk (bn - NDIRECT) m1 = (Ok b, m2) → map_block (Z.of_nat bn) x din m = (Ok (b, din1), m2).
Proof.
  intros Hb Hr1 Hr2. unfold map_block, mbind, M_bind. rewrite (proj2 (Z.ltb_ge _ _)) by lia. unfold mret, M_ret. cbv beta iota.
  unfold u64 at 1 2, wrap. rewrite Z.mod_small by (unfold NINDIRECT, NDIRECT in *; lia).
  rewrite (proj2 (Z.ltb_lt _ _)) by lia. rewrite Hr1. replace (Z.to_nat (Z.of_nat bn - Z.of_nat NDIRECT)) with (bn - NDIRECT)%nat by lia.
  rewrite Hr2. cbv beta iota. unfold u64, wrap. rewrite (Z.mod_small (Z.of_nat bn - _)) by (unfold NINDIRECT, NDIRECT in *; lia).
  rewrite <-(Z.mod_add _ 1), Z.mod_small by (unfold NINDIRECT, NDIRECT in *; lia).
  rewrite (proj2 (Z.ltb_ge _ _)) by (unfold NDINDIRECT, NINDIRECT, NDIRECT in *; lia). done.
Qed.

Lemma map_block_double bn x din m blk din1 m1 blk2 m2 b m3 :
  (NDIRECT + NINDIRECT ≤ bn < MAXFILE)%nat → let k := (bn - NDIRECT - NINDIRECT)%nat in
  addr_slot (NDIRECT + 1) din m = (Ok (blk, din1), m1) → index_slot blk (k / NINDIRECT) m1 = (Ok blk2, m2) →
  index_slot blk2 (k mod NINDIRECT) m2 = (Ok b, m3) → map_block (Z.of_nat bn) x din m = (Ok (b, din1), m3).
Proof.
  intros Hb k Hr1 Hr2 Hr3. unfold map_block, mbind, M_bind. rewrite (proj2 (Z.ltb_ge _ _)) by lia. unfold mret, M_ret. cbv beta iota.
  assert (Hm : Z.of_nat MAXFILE ≤ 100000) by (vm_compute; congruence).
  unfold u64, wrap. rewrite !(Z.mod_small (Z.of_nat bn - _)) by (unfold NINDIRECT, NDIRECT in *; lia).
  rewrite (proj2 (Z.ltb_ge _ _)) by lia. cbv beta iota.
  replace (Z.of_nat bn - Z.of_nat NDIRECT - Z.of_nat NINDIRECT) with (Z.of_nat k) by lia.
  rewrite Z.mod_small by lia. rewrite (proj2 (Z.ltb_lt _ _)) by (unfold MAXFILE in *; lia). rewrite Hr1.
  rewrite <-Nat2Z.inj_div, <-Nat2Z.inj_mod, !Nat2Z.id, Hr2, Hr3. done.
Qed.

Lemma filter_true {A} (P : A → Prop) `{!∀ x, Decision (P x)} (l : list A) : Forall P l → filter P l = l.
Proof. induction 1 as [|x l Hx _ IH]; [done|]. by rewrite filter_cons_True, IH by done. Qed.

Lemma sim_nfree m d : sim m d → freeblock m ≤ FSSIZE → (Z.to_nat (FSSIZE - freeblock m) ≤ nfree mkfs_sb d)%nat.
Proof.
  intros [] Hf. unfold nfree. rewrite mkfs_size. change NMETA with 83 in *.
  replace (seqZ 0 FSSIZE) with (seqZ 0 (freeblock m) ++ seqZ (0 + freeblock m) (FSSIZE - freeblock m)).
  2:{ rewrite <-seqZ_app by lia. f_equal. lia. }
  rewrite filter_app, length_app. rewrite (filter_true _ (seqZ (0 + _) _)); [rewrite length_seqZ; lia|].
  apply Forall_forall. intros c Hc%elem_of_seqZ. rewrite si_used0 by lia. apply Z.ltb_ge. lia.
Qed.

Section map.
Context (m : FsImg) (d : gmap Z block) (ip : IData) (din : RawInode).
Context (Hs : sim m d) (Hd : disk_wf mkfs_sb d) (Hw : inode_wf mkfs_sb d ip) (Ha : id_addrs ip = r_addrs din).
Context (Hf : freeblock m + 3 ≤ FSSIZE).

Lemma map_root k : (k < 13)%nat →
  ∃ a m1 d1 ip1, root_slot mkfs_sb k true (d, ip) = (Ok a, (d1, ip1)) ∧
    addr_slot k din m = (Ok (a, with_raw_addrs (id_addrs ip1) din), m1) ∧ sim m1 d1 ∧
    grown (absent (addr_at d ip (Root k))) m m1 ∧ slot_result mkfs_sb (Root k) 0 0 d ip a d1 ip1.
Proof.
  intros Hk. destruct (root_slot_spec mkfs_sb k 0 0 d ip Hd Hw) as (a & d1 & ip1 & Hr & Hres); [exact I| |done|].
  { pose proof (sim_nfree m d Hs). lia. }
  destruct (addr_slot_sim k m d ip din a d1 ip1 Hs Ha) as (m1 & Hr1 & Hs1 & Hg); [apply Hw|lia|done|].
  exists a, m1, d1, ip1. done.
Qed.
End map.

Lemma map_index m d ip q i :
  sim m d → disk_wf mkfs_sb d → inode_wf mkfs_sb d ip → freeblock m < FSSIZE → valid_pos (Child q i) → addr_at d ip q ≠ 0 →
  ∃ a m1 d1, word_slot mkfs_sb (addr_at d ip q) i true (d, ip) = (Ok a, (d1, ip)) ∧
    index_slot (addr_at d ip q) i m = (Ok a, m1) ∧ sim m1 d1 ∧ grown (absent (addr_at d ip (Child q i))) m m1 ∧
    slot_result mkfs_sb (Child q i) 0 0 d ip a d1 ip.
Proof.
  intros Hs Hd Hw Hf Hv Hnz. destruct (word_slot_spec mkfs_sb q i 0 0 d ip Hd Hw) as (a & d1 & ip1 & Hr & Hres); [exact I| |done|done|].
  { pose proof (sim_nfree m d Hs). lia. }
  destruct (valid_parent q i Hv) as (Hvq & _ & Hi). destruct (iw_block _ _ _ Hw q Hvq Hnz) as (Hrg & Hu & _).
  rewrite mkfs_datastart, mkfs_size in Hrg.
  destruct (index_slot_sim (addr_at d ip q) i m d ip a d1 ip1 Hs Hrg Hu Hi Hf Hr) as (m1 & Hr1 & Hs1 & Hg & ->).
  exists a, m1, d1. done.
Qed.

Lemma slot_grown p m m1 d ip a d1 ip1 :
  slot_result mkfs_sb p 0 0 d ip a d1 ip1 → is_index p → grown (absent (addr_at d ip p)) m m1 →
  disk_wf mkfs_sb d1 ∧ inode_wf mkfs_sb d1 ip1 ∧ addr_at d1 ip1 p = a ∧ a ≠ 0 ∧ freeblock m1 ≤ freeblock m + 1 ∧
  ∀ q, valid_pos q → q ≠ p → addr_at d1 ip1 q = addr_at d ip q.
Proof.
  intros [_ _ He Ho Hp Hz _] Hi []. destruct (He (Root 0) (or_introl Hi)). split_and!; try done. rewrite gr_free0. unfold absent. case_match; lia.
Qed.

Lemma map_block_sim bn x m d ip din :
  sim m d → disk_wf mkfs_sb d → inode_wf mkfs_sb d ip → id_addrs ip = r_addrs din → (bn < MAXFILE)%nat → freeblock m + 3 ≤ FSSIZE →
  ∃ a m' d' ip', bmap mkfs_sb bn true (d, ip) = (Ok a, (d', ip')) ∧
    map_block (Z.of_nat bn) x din m = (Ok (a, with_raw_addrs (id_addrs ip') din), m') ∧ sim m' d' ∧ grown (missing d ip bn) m m'.
Proof.
  intros Hs Hd Hw Ha Hbn Hf. destruct (bpos_valid bn Hbn) as [Hv _]. revert Hv. unfold bmap, missing, path, bpos, MAXFILE, NDINDIRECT in *.
  destruct (Nat.ltb_spec bn NDIRECT) as [|H1]; [|destruct (Nat.ltb_spec (bn - NDIRECT) NINDIRECT) as [H2|H2]]; intros Hv.
  - destruct (map_root m d ip din Hs Hd Hw Ha Hf bn) as (a & m1 & d1 & ip1 & Hr & Hr' & Hs1 & Hg & _); [unfold NDIRECT in *; lia|].
    exists a, m1, d1, ip1. split; [done|]. split; [by apply map_block_direct|]. split; [done|]. simpl. by rewrite Z.add_0_r.
  - destruct (map_root m d ip din Hs Hd Hw Ha Hf NDIRECT) as (a & m1 & d1 & ip1 & Hr & Hr' & Hs1 & Hg & Hres); [unfold NDIRECT; lia|].
    destruct (slot_grown _ m m1 _ _ _ _ _ Hres) as (Hd1 & Hw1 & Ha1 & Hnz & Hfr & Hoth); [simpl; unfold NDIRECT; lia|done|].
    destruct (map_index m1 d1 ip1 (Root NDIRECT) (bn - NDIRECT) Hs1 Hd1 Hw1) as (b & m2 & d2 & Hr2 & Hr2' & Hs2 & Hg2 & _); [lia|done|congruence|].
    rewrite Ha1 in *. rewrite Hoth in Hg2 by done.
    exists b, m2, d2, ip1. split; [unfold mbind, M_bind; by rewrite Hr, Hr2|]. split; [eapply map_block_indirect; try done; lia|].
    split; [done|]. cbn [foldr]. rewrite Z.add_0_r. by eapply image_grown_trans.
  - rewrite (proj2 (Nat.ltb_lt _ _)) by lia. set (k := (bn - NDIRECT - NINDIRECT)%nat) in *.
    destruct (valid_parent _ _ Hv) as (Hv2 & Hix2 & _).
    destruct (map_root m d ip din Hs Hd Hw Ha Hf (NDIRECT + 1)) as (a & m1 & d1 & ip1 & Hr & Hr' & Hs1 & Hg & Hres); [unfold NDIRECT; lia|].
    destruct (slot_grown _ m m1 _ _ _ _ _ Hres) as (Hd1 & Hw1 & Ha1 & Hnz & Hfr & Hoth); [simpl; unfold NDIRECT; lia|done|].
    destruct (map_index m1 d1 ip1 (Root (NDIRECT + 1)) (k / NINDIRECT) Hs1 Hd1 Hw1) as (b & m2 & d2 & Hr2 & Hr2' & Hs2 & Hg2 & Hres2); [lia|done|congruence|].
    destruct (slot_grown _ m1 m2 _ _ _ _ _ Hres2) as (Hd2 & Hw2 & Ha2 & Hnz2 & Hfr2 & Hoth2); [done|done|].
    destruct (map_index m2 d2 ip1 (Child (Root (NDIRECT + 1)) (k / NINDIRECT)) (k mod NINDIRECT) Hs2 Hd2 Hw2)
      as (e & m3 & d3 & Hr3 & Hr3' & Hs3 & Hg3 & _); [lia|done|congruence|].
    rewrite Ha1 in *. rewrite Ha2 in *. rewrite (Hoth (Child _ _)) in Hg2 by done. rewrite Hoth2, Hoth in Hg3 by done.
    exists e, m3, d3, ip1. split; [unfold mbind, M_bind; by rewrite Hr, Hr2, Hr3|].
    split; [eapply map_block_double; try done; unfold MAXFILE, NDINDIRECT; lia|]. split; [done|].
    cbn [foldr]. rewrite Z.add_0_r. eapply image_grown_trans; [done|]. by eapply image_grown_trans.
Qed.

(** ** How many blocks a file takes *)

(** Blocks that the file block [bn] takes when the ones before it are there:
    its own, and the index blocks that begin with it. *)
Definition cost (bn : nat) : Z :=
  1 + (if (bn =? 11)%nat then 1 else 0) + (if (bn =? 267)%nat then 1 else 0)
    + (if (267 <=? bn)%nat && ((bn - 267) mod 256 =? 0)%nat then 1 else 0).
Fixpoint need (nb : nat) : Z := match nb with O => 0 | S nb => need nb + cost nb end.
Definition fblocks (size : Z) : nat := Z.to_nat ((size + 1023) / 1024).

(** The blocks of the file up to [size] are there. *)
Definition full (d : gmap Z block) (ip : IData) (size : Z) : Prop := ∀ k, (k < fblocks size)%nat → addr_at d ip (bpos k) ≠ 0.

Lemma absent_nz a : a ≠ 0 → absent a = 0.
Proof. intros. unfold absent. by rewrite (proj2 (Z.eqb_neq _ _)). Qed.
Lemma absent_le a : absent a ≤ 1.
Proof. unfold absent. case_match; lia. Qed.

Lemma child_nz (d : gmap Z block) ip q i :
  dget d 0 = zero_block → valid_pos (Child q i) → addr_at d ip (Child q i) ≠ 0 → addr_at d ip q ≠ 0.
Proof.
  intros Hz Hv Hnz E. apply Hnz. destruct (valid_parent q i Hv) as (_ & _ & Hi).
  simpl in *. rewrite E, Hz. by apply get_u32_zero.
Qed.

Lemma missing_none d ip bn : dget d 0 = zero_block → (bn < MAXFILE)%nat → addr_at d ip (bpos bn) ≠ 0 → missing d ip bn = 0.
Proof.
  intros Hz Hb. destruct (bpos_valid bn Hb) as [Hv _]. unfold missing, path. revert Hv.
  destruct (bpos bn) as [k|[k|q i] j]; intros Hv Hnz; cbn [foldr].
  - by rewrite absent_nz.
  - rewrite (absent_nz _ Hnz). by rewrite (absent_nz _ (child_nz d ip (Root k) j Hz Hv Hnz)).
  - pose proof (child_nz d ip (Child q i) j Hz Hv Hnz) as H2. destruct (valid_parent _ _ Hv) as (Hv2 & _).
    by rewrite (absent_nz _ Hnz), (absent_nz _ H2), (absent_nz _ (child_nz d ip q i Hz Hv2 H2)).
Qed.

Lemma missing_cost d ip bn :
  dget d 0 = zero_block → (bn < MAXFILE)%nat → (bn ≠ 0%nat → addr_at d ip (bpos (bn - 1)) ≠ 0) → missing d ip bn ≤ cost bn.
Proof.
  intros Hz Hb Hprev. destruct (bpos_valid bn Hb) as [Hv _]. unfold missing, path, cost. revert Hv Hprev.
  assert (Hv' : bn ≠ 0%nat → valid_pos (bpos (bn - 1))) by (intros; apply bpos_valid; lia). revert Hv'.
  unfold bpos, NDIRECT, NINDIRECT.
  destruct (Nat.ltb_spec bn 11) as [|H1]; [|destruct (Nat.ltb_spec (bn - 11) 256) as [H2|H2]]; intros Hv' Hv Hprev; cbn [foldr].
  - pose proof (absent_le (addr_at d ip (Root bn))). repeat case_match; lia.
  - pose proof (absent_le (addr_at d ip (Child (Root 11) (bn - 11)))) as A1. pose proof (absent_le (addr_at d ip (Root 11))) as A2.
    destruct (Nat.eqb_spec bn 11) as [E|E]; [repeat case_match; lia|].
    rewrite (proj2 (Nat.ltb_ge (bn - 1) 11)), (proj2 (Nat.ltb_lt (bn - 1 - 11) 256)) in * by lia.
    rewrite (absent_nz (addr_at d ip (Root 11))); [repeat case_match; lia|]. apply (child_nz d ip _ (bn - 1 - 11)); [done|apply Hv'; lia|apply Hprev; lia].
  - set (k := (bn - 11 - 256)%nat) in *.
    pose proof (absent_le (addr_at d ip (Root (11 + 1)))) as A1.
    pose proof (absent_le (addr_at d ip (Child (Root (11 + 1)) (k / 256)))) as A2.
    pose proof (absent_le (addr_at d ip (Child (Child (Root (11 + 1)) (k / 256)) (k mod 256)))) as A3.
    rewrite (proj2 (Nat.eqb_neq bn 11)), (proj2 (Nat.leb_le 267 bn)) by lia. cbn [andb].
    replace (bn - 267)%nat with k by lia.
    destruct (Nat.eqb_spec bn 267) as [E|E]; [assert (k = 0%nat) as -> by lia; change (0 mod 256 =? 0)%nat with true; lia|].
    rewrite (proj2 (Nat.ltb_ge (bn - 1) 11)), (proj2 (Nat.ltb_ge (bn - 1 - 11) 256)) in * by lia. cbv zeta in *.
    specialize (Hv' ltac:(lia)). specialize (Hprev ltac:(lia)). replace (bn - 1 - 11 - 256)%nat with (k - 1)%nat in * by lia.
    destruct (valid_parent _ _ Hv') as (Hv2 & _). pose proof (child_nz d ip _ _ Hz Hv' Hprev) as Hc. pose proof (child_nz d ip _ _ Hz Hv2 Hc) as Hr.
    rewrite (absent_nz _ Hr). destruct (Nat.eqb_spec (k mod 256) 0) as [E0|E0]; [lia|].
    replace ((k - 1) / 256)%nat with (k / 256)%nat in Hc; [rewrite (absent_nz _ Hc); lia|].
    pose proof (Nat.div_mod_eq k 256). apply (Nat.div_unique (k - 1) 256 (k / 256) (k mod 256 - 1)); pose proof (Nat.mod_upper_bound k 256); lia.
Qed.

(** ** A pass of [iappend] *)

Lemma fblocks_pass off k :
  0 ≤ off → 0 < k ≤ 1024 - off mod 1024 → fblocks (off + k) = S (block_index off) ∧ (fblocks off = block_index off ∨ fblocks off = S (block_index off)).
Proof.
  intros Ho Hk. unfold fblocks, block_index, BSZ. pose proof (Z.div_mod off 1024). pose proof (Z.mod_pos_bound off 1024).
  assert (0 ≤ off / 1024) by (apply Z.div_pos; lia).
  assert ((off + k + 1023) / 1024 = off / 1024 + 1) as ->
    by (symmetry; apply (Z.div_unique _ _ _ (off mod 1024 + k - 1)); lia).
  split; [lia|]. destruct (decide (off mod 1024 = 0)) as [E|E].
  - left. f_equal. symmetry. apply (Z.div_unique _ _ _ 1023); lia.
  - right. assert ((off + 1023) / 1024 = off / 1024 + 1) as ->; [|lia].
    symmetry. apply (Z.div_unique _ _ _ (off mod 1024 - 1)); lia.
Qed.

Lemma missing_need d ip off k :
  dget d 0 = zero_block → full d ip off → 0 ≤ off < MAXBYTES → 0 < k ≤ 1024 - off mod 1024 →
  missing d ip (block_index off) ≤ need (fblocks (off + k)) - need (fblocks off).
Proof.
  intros Hz Hfull Ho Hk. destruct (fblocks_pass off k) as (E1 & E2); [lia|done|]. rewrite E1. cbn [need].
  pose proof (block_index_lt off Ho) as Hb. destruct E2 as [E2|E2]; rewrite E2.
  - pose proof (missing_cost d ip (block_index off) Hz Hb). rewrite <-E2 in *. enough (missing d ip (fblocks off) ≤ cost (fblocks off)) by lia.
    apply H. intros. apply Hfull. lia.
  - rewrite missing_none; [cbn [need]; lia|done|done|]. apply Hfull. lia.
Qed.

Record appended (m : FsImg) (d : gmap Z block) (ip : IData) (off : Z) (bs : list Z) (m' : FsImg) (d' : gmap Z block) (ip' : IData) : Prop := {
  ap_sim : sim m' d';
  ap_kept : kept mkfs_sb d ip d' ip';
  ap_bytes o : 0 ≤ o < MAXBYTES →
    fbyte d' ip' o = if decide (off ≤ o < off + Z.of_nat (length bs)) then bs !!! Z.to_nat (o - off) else fbyte d ip o;
  ap_full : full d' ip' (off + Z.of_nat (length bs));
  ap_need : freeblock m' ≤ freeblock m + need (fblocks (off + Z.of_nat (length bs))) - need (fblocks off);
  ap_inode : freeinode m' = freeinode m;
  ap_meta c : c < NMETA → sect m' c = sect m c;
}.

Lemma append_pass m d ip din off data x :
  sim m d → disk_wf mkfs_sb d → inode_wf mkfs_sb d ip → id_addrs ip = r_addrs din → full d ip off →
  0 ≤ off → data ≠ [] → off + Z.of_nat (length data) ≤ MAXBYTES → freeblock m + 3 ≤ FSSIZE →
  let bs := take (chunk off (length data)) data in
  ∃ a m1 m2 d2 ip', map_block (off / 1024) x din m = (Ok (a, with_raw_addrs (id_addrs ip') din), m1) ∧
    rsect a m1 = (Ok (sect m1 a), m1) ∧ wsect a (write_at (block_offset off) bs (sect m1 a)) m1 = (Ok (), m2) ∧
    appended m d ip off bs m2 d2 ip'.
Proof.
  intros Hs Hd Hw Ha Hfull Ho Hne Hmax Hf bs. assert (Hlen : (0 < length data)%nat) by (destruct data; [done|simpl; lia]).
  pose proof (chunk_pos off (length data) Hlen) as Hc. pose proof (chunk_bound off (length data)) as Hcb.
  assert (Hlb : length bs = chunk off (length data)) by (unfold bs; rewrite length_take; lia).
  assert (Hbn : (block_index off < MAXFILE)%nat) by (apply block_index_lt; lia).
  destruct (bpos_valid _ Hbn) as [Hv Hni].
  destruct (map_block_sim (block_index off) x m d ip din Hs Hd Hw Ha Hbn Hf) as (a & m1 & d1 & ip1 & Hbm & Hmb & Hs1 & Hg).
  destruct (bmap_spec mkfs_sb (block_index off) 0 0 d ip Hd Hw) as (a' & d1' & ip1' & Hbm' & Hmp); [exact I| |done|].
  { pose proof (sim_nfree m d Hs). lia. }
  rewrite Hbm in Hbm'. injection Hbm' as <- <- <-. pose proof Hmp as [_ _ He Hat Hnz Hzero]. pose proof He as [Hd1 Hw1 _ Hkeep _ _ _ _].
  rewrite <-Hat in Hnz. destruct (iw_block _ _ _ Hw1 _ Hv Hnz) as (Hrg & Hu & Hl). rewrite Hat in Hrg, Hu, Hl. change (length (dget d1 a) = BSIZE) in Hl.
  rewrite mkfs_datastart, mkfs_size in Hrg. pose proof Hs1 as []. rewrite si_used0 in Hu by (change NMETA with 83 in *; lia). apply Z.ltb_lt in Hu.
  assert (Hxl : length (write_at (block_offset off) bs (dget d1 a)) = BSIZE).
  { rewrite length_write_at; rewrite Hl; [done|]. rewrite Hlb. done. }
  assert (Hsa : sect m1 a = dget d1 a) by (symmetry; apply si_data0; lia).
  destruct (sim_put m1 d1 a (write_at (block_offset off) bs (dget d1 a)) (<[a := write_at (block_offset off) bs (dget d1 a)]> d1) Hs1)
    as [Hwr Hs2]; [lia|lia|done|apply dget_insert|].
  set (d2 := <[a := _]> d1) in *. assert (Hrd : ∀ c, bs_read d2 c = if decide (c = addr_at d1 ip1 (bpos (block_index off)))
       then write_at (block_offset off) bs (dget d1 a) else bs_read d1 c) by (intros c; rewrite Hat; apply dget_insert).
  destruct (data_update mkfs_sb d1 d2 ip1 (bpos (block_index off)) (write_at (block_offset off) bs (dget d1 a)) Hd1 Hw1 Hv Hni Hnz Hxl Hrd) as (Hk2 & Htree & _).
  exists a, m1, (put_sect a (write_at (block_offset off) bs (dget d1 a)) m1), d2, ip1. split_and!.
  - rewrite <-Hmb. f_equal. unfold block_index, BSZ. rewrite Z2Nat.id; [done|apply Z.div_pos; lia].
  - apply rsect_ok; [done|lia].
  - by rewrite Hsa.
  - assert (Hk : 0 < Z.of_nat (length bs) ≤ 1024 - off mod 1024).
    { rewrite Hlb. unfold block_offset, BSZ, BSIZE in Hcb. pose proof (Z.mod_pos_bound off 1024). lia. }
    pose proof (grown_put m1 a (write_at (block_offset off) bs (dget d1 a))) as Hg2.
    destruct (image_grown_trans _ _ _ _ _ Hg (Hg2 ltac:(lia))) as [G1 G2 G3].
    split; [done|eapply kept_trans; [by eapply ext_kept|done]|..]; try done.
    + intros o Hoo. rewrite Hlb. rewrite (update_fbyte mkfs_sb d1 d2 ip1 off (length data) bs o); try done.
      * case_decide; [done|]. by eapply (mapped_fbyte mkfs_sb (block_index off)).
      * by rewrite Hat.
      * intros c. rewrite Hrd. case_decide as Ec; [by rewrite Ec, Hat|done].
    + intros k Hk'. destruct (fblocks_pass off (Z.of_nat (length bs)) Ho Hk) as [E1 E2]. rewrite E1 in Hk'.
      assert (Hkv : valid_pos (bpos k)) by (apply bpos_valid; lia). rewrite Htree by done.
      destruct (decide (k = block_index off)) as [->|Hne']; [done|].
      assert (addr_at d ip (bpos k) ≠ 0) by (apply Hfull; lia). by rewrite Hkeep.
    + rewrite G1. pose proof (missing_need d ip off (Z.of_nat (length bs)) (dw_boot _ _ Hd) Hfull). lia.
Qed.

Lemma appended_trans m d ip off bs1 bs2 m1 d1 ip1 m2 d2 ip2 :
  0 ≤ off → appended m d ip off bs1 m1 d1 ip1 → appended m1 d1 ip1 (off + Z.of_nat (length bs1)) bs2 m2 d2 ip2 →
  appended m d ip off (bs1 ++ bs2) m2 d2 ip2.
Proof.
  intros Ho [] [].
  assert (Hl : off + Z.of_nat (length bs1) + Z.of_nat (length bs2) = off + Z.of_nat (length (bs1 ++ bs2))) by (rewrite length_app; lia).
  rewrite Hl in *. split; try done; [by eapply kept_trans| |lia|congruence|].
  - intros o Hoo. rewrite ap_bytes1, ap_bytes0 by done. rewrite length_app. repeat case_decide; try lia; try done.
    + rewrite !list_lookup_total_alt, lookup_app_r by lia. do 2 f_equal. lia.
    + rewrite !list_lookup_total_alt, lookup_app_l by lia. done.
  - intros c Hc. by rewrite ap_meta1, ap_meta0.
Qed.

Lemma with_raw_addrs_twice a b din : with_raw_addrs a (with_raw_addrs b din) = with_raw_addrs a din.
Proof. done. Qed.

Lemma need_mono a b : (a ≤ b)%nat → need a ≤ need b.
Proof. induction 1 as [|b _ IH]; [lia|]. cbn [need]. unfold cost. repeat case_match; lia. Qed.
Lemma fblocks_mono a b : a ≤ b → (fblocks a ≤ fblocks b)%nat.
Proof. intros H. unfold fblocks. pose proof (Z.div_le_mono (a + 1023) (b + 1023) 1024). lia. Qed.

Lemma iappend_loop_sim fuel m d ip din off data x :
  sim m d → disk_wf mkfs_sb d → inode_wf mkfs_sb d ip → id_addrs ip = r_addrs din → full d ip off →
  0 ≤ off → off + Z.of_nat (length data) ≤ MAXBYTES → (length data ≤ fuel)%nat →
  freeblock m + need (fblocks (off + Z.of_nat (length data))) - need (fblocks off) + 3 ≤ FSSIZE →
  ∃ m' d' ip', iappend_loop fuel data off x din m = (Ok (with_raw_addrs (id_addrs ip') din, off + Z.of_nat (length data)), m') ∧
    appended m d ip off data m' d' ip'.
Proof.
  revert m d ip din off data x. induction fuel as [|fuel IH]; intros m d ip din off data x Hs Hd Hw Ha Hfull Ho Hmax Hfu Hf.
  all: destruct data as [|b data']; [|simpl in Hfu; try lia].
  1,2: exists m, d, ip; split; [rewrite Ha, with_raw_addrs_same; simpl; by rewrite Z.add_0_r|];
    split; try done; [by apply kept_refl|intros o _; rewrite decide_False by (simpl; lia); done|simpl; by rewrite Z.add_0_r|simpl; rewrite Z.add_0_r; lia].
  set (data := b :: data') in *. cbn [iappend_loop]. fold data.
  pose proof (need_mono (fblocks off) (fblocks (off + Z.of_nat (length data)))) as Hnm. pose proof (fblocks_mono off (off + Z.of_nat (length data))) as Hnb.
  assert (Hdata : data ≠ []) by done. assert (Hlen : (0 < length data)%nat) by (simpl; lia).
  destruct (append_pass m d ip din off data x) as (a & m1 & m2 & d2 & ip2 & Hmb & Hrs & Hws & Hap); try done; [lia|].
  pose proof (chunk_pos off (length data) Hlen) as Hc. set (k := chunk off (length data)) in *.
  assert (Hk : Z.to_nat (Z.min (Z.of_nat (length data)) ((off / 1024 + 1) * 1024 - off)) = k).
  { unfold k, chunk, block_offset, BSZ, BSIZE. pose proof (Z.div_mod off 1024). pose proof (Z.mod_pos_bound off 1024). lia. }
  assert (Hbo : Z.to_nat (off - off / 1024 * 1024) = block_offset off).
  { unfold block_offset, BSZ. pose proof (Z.div_mod off 1024). f_equal. lia. }
  assert (Hmf : (Z.of_nat MAXFILE <? off / 1024) = false).
  { apply Z.ltb_ge. assert (off / 1024 < 65804) by (apply Z.div_lt_upper_bound; unfold MAXBYTES in *; lia).
    assert (Z.of_nat MAXFILE = 65803) as -> by reflexivity. lia. }
  rewrite Hmf, Hk, Hbo. pose proof Hap as [Hs2 [Hd2 Hw2 _ _ _] _ Hfull2 Hneed2 _ _].
  assert (Hlt : length (take k data) = k) by (rewrite length_take; lia). rewrite Hlt in *.
  assert (Hsum : off + Z.of_nat k + Z.of_nat (length (drop k data)) = off + Z.of_nat (length data)) by (rewrite length_drop; lia).
  destruct (IH m2 d2 ip2 (with_raw_addrs (id_addrs ip2) din) (off + Z.of_nat k) (drop k data) a) as (m3 & d3 & ip3 & Hrun & Hap3); try done.
  { lia. } { lia. } { rewrite length_drop. simpl. lia. } { rewrite Hsum. lia. }
  exists m3, d3, ip3. split.
  - unfold data at 1. cbv iota. unfold mbind, M_bind. rewrite Hmb, Hrs, Hws. cbv beta iota. rewrite Hrun, with_raw_addrs_twice, Hsum. done.
  - rewrite <-(take_drop k data). eapply appended_trans; [done|done|by rewrite Hlt].
Qed.
