(* ===== verification/MkFsNode.v ===== *)
(** * Inodes of an image under construction

    [winode], [rinode], [ialloc] and [iappend] on an image with any number of
    files: each file keeps its bytes, and no block belongs to two. *)

From stdpp Require Import base tactics numbers gmap list.
From S2P Require Import Prelude Params Errors Bytes Log LogOps FsLayout FsBlocks FsInode FsBmap UserMem FsData MkFs MkFsSim.
Local Open Scope Z_scope.

#[global] Arguments raw_bytes : simpl never.
#[global] Arguments raw_of_bytes : simpl never.

(** ** The two views of an inode *)

Definition raw_of (D : DInode) : RawInode :=
  mkRaw (filetype_as_u16 (di_itype D)) (major_as_u16 (di_major D)) (di_minor D) (di_nlink D) (di_size D) (di_addrs D)
    (di_atime D) (di_mtime D) (di_ctime D) (replicate 10 0).
(** The 128 bytes of the tool's structure. *)
Definition slot_bytes (D : DInode) : list Z := encode_dinode D ++ replicate 40 0.

Lemma encode_words_app ws1 vs1 ws2 vs2 :
  length ws1 = length vs1 → encode_words (ws1 ++ ws2) (vs1 ++ vs2) = encode_words ws1 vs1 ++ encode_words ws2 vs2.
Proof.
  revert vs1. induction ws1 as [|w ws1 IH]; intros [|v vs1] Hl; simpl in *; try done. rewrite IH by lia. by rewrite app_assoc.
Qed.

Lemma raw_values_of D : raw_values (raw_of D) = dinode_values D ++ replicate 10 0.
Proof. unfold raw_values, dinode_values. simpl. by rewrite <-app_assoc. Qed.

Lemma raw_bytes_of D : length (di_addrs D) = 13%nat → raw_bytes (raw_of D) = slot_bytes D.
Proof.
  intros Hl. unfold raw_bytes. rewrite raw_values_of. unfold raw_widths. rewrite encode_words_app; [done|].
  unfold dinode_values. rewrite !length_app, Hl. done.
Qed.

Lemma length_slot_bytes D : length (di_addrs D) = 13%nat → length (slot_bytes D) = DINODE_SIZE.
Proof. intros Hl. unfold slot_bytes. by rewrite length_app, length_encode_dinode. Qed.

Lemma raw_of_bytes_of D : dinode_ok D → raw_of_bytes (slot_bytes D) = raw_of D.
Proof.
  intros Hd. pose proof (di_addrs_len _ Hd) as Hl. unfold raw_of_bytes. rewrite <-raw_bytes_of by done. unfold raw_bytes.
  rewrite <-(app_nil_r (encode_words _ _)), decode_encode_words.
  - rewrite raw_values_of. unfold dinode_values. cbn [app]. rewrite <-!app_assoc. rewrite take_app_length' by done.
    rewrite !list_lookup_total_alt.
    rewrite (lookup_app_r _ _ 13), (lookup_app_r _ _ 14), (lookup_app_r _ _ 15), drop_app_ge by lia. by rewrite Hl.
  - rewrite raw_values_of. apply Forall2_app; [by apply dinode_values_ok|]. apply Forall2_replicate; simpl; lia.
Qed.

(** ** Inodes on the image *)

Definition inode_at (m : FsImg) (inum : Z) (D : DInode) : Prop :=
  read_at (DINODE_SIZE * raw_slot inum) DINODE_SIZE (sect m (iblock mkfs_sb inum)) = slot_bytes D.

Lemma raw_slot_lt inum : (raw_slot inum < 8)%nat.
Proof. unfold raw_slot. pose proof (Z.mod_pos_bound inum IPB). unfold IPB in *. lia. Qed.

Lemma rinode_ok m inum D : image_ok m → 0 ≤ inum < NINODES → inode_at m inum D → dinode_ok D → rinode inum m = (Ok (raw_of D), m).
Proof.
  intros Hm Hi Hat Hd. unfold rinode. erewrite bind_ok; [|apply rsect_ok; [done|]].
  - unfold mret, M_ret. by rewrite Hat, raw_of_bytes_of.
  - pose proof (mkfs_iblock inum Hi). unfold FSSIZE. lia.
Qed.

(** The kernel reads the same inode. *)
Lemma inode_at_get m inum D : inode_at m inum D → dinode_ok D → get_dinode (inode_index inum) (sect m (iblock mkfs_sb inum)) = Some D.
Proof.
  intros Hat Hd. unfold get_dinode. pose proof (di_addrs_len _ Hd) as Hl.
  replace (read_at (DINODE_SIZE * inode_index inum) DINODE_DATA (sect m (iblock mkfs_sb inum)))
    with (take DINODE_DATA (read_at (DINODE_SIZE * raw_slot inum) DINODE_SIZE (sect m (iblock mkfs_sb inum)))).
  - rewrite Hat. unfold slot_bytes. rewrite take_app_length' by by rewrite length_encode_dinode.
    rewrite <-(app_nil_r (encode_dinode D)). unfold encode_dinode. rewrite decode_encode_words by by apply dinode_values_ok.
    by apply dinode_of_values_of.
  - unfold read_at. rewrite take_take. done.
Qed.

Lemma sect_put c x m c' : sect (put_sect c x m) c' = if decide (c' = c) then x else sect m c'.
Proof. apply dget_insert. Qed.

Lemma winode_ok m inum D :
  image_ok m → 0 ≤ inum < NINODES → dinode_ok D →
  ∃ x, winode inum (raw_of D) m = (Ok (), put_sect (iblock mkfs_sb inum) x m) ∧ image_ok (put_sect (iblock mkfs_sb inum) x m) ∧
    inode_at (put_sect (iblock mkfs_sb inum) x m) inum D ∧
    ∀ j E, 0 ≤ j < NINODES → j ≠ inum → inode_at m j E → inode_at (put_sect (iblock mkfs_sb inum) x m) j E.
Proof.
  intros Hm Hi Hd. pose proof (di_addrs_len _ Hd) as Hl. pose proof (mkfs_iblock inum Hi) as Hb. pose proof (raw_slot_lt inum) as Hs.
  set (x := write_at (DINODE_SIZE * raw_slot inum) (slot_bytes D) (sect m (iblock mkfs_sb inum))).
  assert (Hfit : (DINODE_SIZE * raw_slot inum + length (slot_bytes D) ≤ length (sect m (iblock mkfs_sb inum)))%nat).
  { rewrite length_slot_bytes, (im_len _ Hm) by done. unfold DINODE_SIZE, BSIZE. lia. }
  assert (Hx : length x = BSIZE) by (unfold x; rewrite length_write_at by done; apply Hm).
  destruct (wsect_ok m (iblock mkfs_sb inum) x Hm) as [Hw Hm']; [unfold FSSIZE; lia|done|].
  exists x. split; [|split; [done|split]].
  - unfold winode. erewrite bind_ok; [|apply rsect_ok; [done|unfold FSSIZE; lia]]. by rewrite raw_bytes_of.
  - unfold inode_at. rewrite sect_put, decide_True by done. unfold x. rewrite <-(length_slot_bytes D Hl) at 2. by apply read_write_at.
  - intros j E Hj Hne Hat. unfold inode_at. rewrite sect_put. case_decide as Eb; [|done]. unfold x.
    rewrite read_write_at_ne; [by rewrite <-Eb|done|]. rewrite length_slot_bytes by done.
    assert (raw_slot j ≠ raw_slot inum); [|unfold DINODE_SIZE; lia]. intros E'. apply Hne. unfold raw_slot, iblock in *.
    pose proof (Z.div_mod j IPB). pose proof (Z.div_mod inum IPB). pose proof (Z.mod_pos_bound j IPB). pose proof (Z.mod_pos_bound inum IPB).
    unfold IPB in *. lia.
Qed.

(** ** Trees of blocks *)

Lemma addr_at_addrs (d : gmap Z block) ip ip2 p : id_addrs ip2 = id_addrs ip → addr_at d ip2 p = addr_at d ip p.
Proof. intros E. induction p as [k|q IH i]; simpl; [by rewrite E|by rewrite IH]. Qed.

Lemma inode_wf_meta (d : gmap Z block) ip ip2 :
  inode_wf mkfs_sb d ip → dinode_ok (idata_dinode ip2) → id_inum ip2 = id_inum ip → id_addrs ip2 = id_addrs ip → inode_wf mkfs_sb d ip2.
Proof.
  intros [W1 W2 W3 W4] Hok Hi Ha. assert (Hp : ∀ p, addr_at d ip2 p = addr_at d ip p) by (intros; by apply addr_at_addrs).
  split; [done|by rewrite Hi|..]; intros p; rewrite !Hp; [apply W3|]. intros q. rewrite Hp. apply W4.
Qed.

Definition apart (d : gmap Z block) (ip jp : IData) : Prop :=
  ∀ p q, valid_pos p → valid_pos q → addr_at d ip p ≠ 0 → addr_at d ip p ≠ addr_at d jp q.
Lemma apart_sym d ip jp : apart d ip jp → apart d jp ip.
Proof. intros H p q Hp Hq Hnz E. apply (H q p Hq Hp); congruence. Qed.

(** What writing to the file [ip] does to the disk around it. *)
Record moved (d : gmap Z block) (ip : IData) (d' : gmap Z block) (ip' : IData) : Prop := {
  mv_disk : disk_wf mkfs_sb d';
  mv_frame c : datastart mkfs_sb ≤ c < sb_size mkfs_sb → used mkfs_sb d c = true →
    (∀ q, valid_pos q → addr_at d ip q ≠ c) → dget d' c = dget d c ∧ ∀ q, valid_pos q → addr_at d' ip' q ≠ c;
  mv_used c : 0 ≤ c < sb_size mkfs_sb → used mkfs_sb d c = true → used mkfs_sb d' c = true;
}.

(** A file that is not being written keeps its tree and its blocks. *)
Lemma other_kept d ip d' ip' jp :
  disk_wf mkfs_sb d → inode_wf mkfs_sb d jp → moved d ip d' ip' → apart d jp ip →
  (∀ p, valid_pos p → addr_at d' jp p = addr_at d jp p ∧ dget d' (addr_at d jp p) = dget d (addr_at d jp p)) ∧
  inode_wf mkfs_sb d' jp ∧ apart d' jp ip'.
Proof.
  intros Hd Hw [Hd' Hfr Hus] Hap.
  assert (Hb : ∀ p, valid_pos p → dget d' (addr_at d jp p) = dget d (addr_at d jp p)).
  { intros p Hp. destruct (decide (addr_at d jp p = 0)) as [->|Hnz]; [transitivity zero_block; [apply Hd'|symmetry; apply Hd]|].
    destruct (iw_block _ _ _ Hw p Hp Hnz) as (Hr & Hu & _). apply (Hfr _ Hr Hu). intros q Hq E. by apply (Hap p q Hp Hq Hnz). }
  assert (Ht : ∀ p, valid_pos p → addr_at d' jp p = addr_at d jp p) by (intros p; apply addr_at_frame; intros q Hq _; by apply Hb).
  pose proof mkfs_datastart as Eds. change NMETA with 83 in Eds.
  split; [by intros p Hp; split; [apply Ht|apply Hb]|]. split; [split; try apply Hw|].
  - intros p Hp. rewrite Ht by done. intros Hnz. destruct (iw_block _ _ _ Hw p Hp Hnz) as (Hr & Hu & Hl).
    split; [done|]. split; [apply Hus; [lia|done]|]. change (bs_read d' ?a) with (dget d' a). by rewrite Hb.
  - intros p q Hp Hq. rewrite !Ht by done. by apply Hw.
  - intros p q Hp Hq. rewrite Ht by done. intros Hnz E. destruct (iw_block _ _ _ Hw p Hp Hnz) as (Hr & Hu & _).
    destruct (Hfr _ Hr Hu) as [_ H2]; [intros r Hr' E'; by apply (Hap p r Hp Hr' Hnz)|]. by apply (H2 q Hq).
Qed.

Lemma kept_fbyte (d d' : gmap Z block) jp o :
  0 ≤ o < MAXBYTES → (∀ p, valid_pos p → addr_at d' jp p = addr_at d jp p ∧ dget d' (addr_at d jp p) = dget d (addr_at d jp p)) →
  fbyte d' jp o = fbyte d jp o.
Proof.
  intros Ho H. unfold fbyte. destruct (bpos_valid _ (block_index_lt o Ho)) as [Hv _]. destruct (H _ Hv) as [-> E].
  by change (bs_read ?x ?a) with (dget x a); rewrite E.
Qed.

(** ** The image as a list of files *)

Abbreviation FileSpec := (FileType * list Z)%type.

Definition node (ty : FileType) (size : Z) (addrs : list Z) : DInode := mkDInode ty MNull 0 1 size addrs 0 0 0.
(** The inode as the kernel loads it; file [i] has inode number [i + 1]. *)
Definition node_ip (i : nat) (D : DInode) : IData := idata_load 1 (Z.of_nat i + 1) D.

Record node_ok (m : FsImg) (d : gmap Z block) (i : nat) (ty : FileType) (c : list Z) (D : DInode) : Prop := {
  no_at : inode_at m (Z.of_nat i + 1) D;
  no_node : D = node ty (Z.of_nat (length c)) (di_addrs D);
  no_wf : inode_wf mkfs_sb d (node_ip i D);
  no_bytes o : 0 ≤ o < MAXBYTES → fbyte d (node_ip i D) o = default 0 (c !! Z.to_nat o);
  no_full : full d (node_ip i D) (Z.of_nat (length c));
  no_max : Z.of_nat (length c) ≤ MAXBYTES;
}.

Definition total (L : list FileSpec) : Z := foldr (λ f n, need (fblocks (Z.of_nat (length f.2))) + n) 0 L.

(** The bitmap tool writes [used] bytes, so more blocks than the bitmap has
    bytes would not fit. *)
Definition LIMIT : Z := NBITMAP * 1024.
Definition fits (L : list FileSpec) : Prop :=
  NMETA + total L ≤ LIMIT ∧ Z.of_nat (length L) < NINODES ∧ Forall (λ f, Z.of_nat (length f.2) ≤ MAXBYTES) L.

Record fs_inv (m : FsImg) (L : list FileSpec) (d : gmap Z block) (Ds : list DInode) : Prop := {
  fi_sim : sim m d;
  fi_disk : disk_wf mkfs_sb d;
  fi_nodes : length Ds = length L;
  fi_node i ty c D : L !! i = Some (ty, c) → Ds !! i = Some D → node_ok m d i ty c D;
  fi_apart i j D E : i ≠ j → Ds !! i = Some D → Ds !! j = Some E → apart d (node_ip i D) (node_ip j E);
  fi_inode : freeinode m = Z.of_nat (length L) + 1;
  fi_block : freeblock m ≤ NMETA + total L;
  fi_bitmap c : 58 ≤ c < NMETA → sect m c = zero_block;
  fi_super : sect m 1 = sb_block;
}.

Lemma total_insert L i ty c c' :
  L !! i = Some (ty, c) → total (<[i := (ty, c')]> L) = total L - need (fblocks (Z.of_nat (length c))) + need (fblocks (Z.of_nat (length c'))).
Proof.
  revert i. induction L as [|f L IH]; intros [|i] Hi; simpl in *; try done; [injection Hi as ->; simpl; lia|].
  rewrite (IH i Hi). lia.
Qed.
Lemma total_snoc L ty : total (L ++ [(ty, [])]) = total L.
Proof. induction L as [|f L IH]; [done|]. simpl. by rewrite IH. Qed.

Lemma node_dinode_ok (d : gmap Z block) i D ty size :
  inode_wf mkfs_sb d (node_ip i D) → 0 ≤ size < 2 ^ 32 → dinode_ok (node ty size (di_addrs D)).
Proof. intros [[] _ _ _] Hs. by split. Qed.

(** Writing an inode leaves the rest of the image. *)
Lemma sim_inode m d c x : sim m d → image_ok (put_sect c x m) → 32 ≤ c < 58 → sim (put_sect c x m) d.
Proof.
  intros [] Hi Hc. split; try done; intros c' Hc'; rewrite sect_put, decide_False by (unfold put_sect in *; simpl in *; change NMETA with 83 in *; lia); auto.
Qed.

Lemma fits_bounds L : fits L → NMETA + total L + 3 ≤ FSSIZE.
Proof. intros (H & _). unfold LIMIT in H. change (NBITMAP * 1024) with 25600 in H. unfold FSSIZE. lia. Qed.

Lemma iappend_run m L d Ds i ty c data D :
  fs_inv m L d Ds → L !! i = Some (ty, c) → Ds !! i = Some D → fits (<[i := (ty, c ++ data)]> L) →
  ∃ m1 d' ip' x, iappend (Z.of_nat i + 1) data m = (Ok (), put_sect (iblock mkfs_sb (Z.of_nat i + 1)) x m1) ∧
    appended m d (node_ip i D) (Z.of_nat (length c)) data m1 d' ip' ∧
    let D' := node ty (Z.of_nat (length (c ++ data))) (id_addrs ip') in
    inode_wf mkfs_sb d' (node_ip i D') ∧ image_ok (put_sect (iblock mkfs_sb (Z.of_nat i + 1)) x m1) ∧
    inode_at (put_sect (iblock mkfs_sb (Z.of_nat i + 1)) x m1) (Z.of_nat i + 1) D' ∧
    ∀ j E, 0 ≤ j < NINODES → j ≠ Z.of_nat i + 1 → inode_at m1 j E → inode_at (put_sect (iblock mkfs_sb (Z.of_nat i + 1)) x m1) j E.
Proof.
  intros [] Hi HD Hfit. destruct (fi_node0 i ty c D Hi HD) as [Hat Hn Hw Hby Hfu _].
  assert (Hin : 0 ≤ Z.of_nat i + 1 < NINODES) by (apply lookup_lt_Some in Hi; destruct Hfit as (_ & Hl & _); rewrite length_insert in Hl; lia).
  assert (Hmax : Z.of_nat (length c) + Z.of_nat (length data) ≤ MAXBYTES).
  { destruct Hfit as (_ & _ & Hall). rewrite Forall_forall in Hall. specialize (Hall (ty, c ++ data)). simpl in Hall. rewrite length_app in Hall.
    assert (Hel : (ty, c ++ data) ∈ <[i := (ty, c ++ data)]> L); [|specialize (Hall Hel); lia].
    eapply list_elem_of_lookup_2, list_lookup_insert_eq. by eapply lookup_lt_Some. }
  pose proof (fits_bounds _ Hfit) as Hbd. rewrite (total_insert L i ty c) in Hbd by done. rewrite length_app, Nat2Z.inj_add in Hbd.
  destruct (iappend_loop_sim (length data) m d (node_ip i D) (raw_of D) (Z.of_nat (length c)) data 0) as (m1 & d' & ip' & Hrun & Hap);
    try done; try lia.
  pose proof Hap as [Hs1 [Hd1 Hw1 Hsame _ _] _ _ _ _ _].
  assert (Hok : dinode_ok (node ty (Z.of_nat (length (c ++ data))) (id_addrs ip'))).
  { destruct (iw_dinode _ _ _ Hw1). split; simpl in *; try done; try lia. rewrite length_app. unfold MAXBYTES in *. lia. }
  destruct (winode_ok m1 (Z.of_nat i + 1) _ (si_image _ _ Hs1) Hin Hok) as (x & Hwr & Him & Hat' & Hoth).
  exists m1, d', ip', x. cbv zeta. split_and!; try done.
  - unfold iappend. erewrite bind_ok; [|apply rinode_ok; [apply fi_sim0|done|exact Hat|]].
    2:{ pose proof (iw_dinode _ _ _ Hw) as Hdok. by destruct D. }
    replace (r_size (raw_of D)) with (Z.of_nat (length c)) by (by rewrite Hn). erewrite bind_ok; [|exact Hrun]. cbv beta iota.
    rewrite <-Hwr. f_equal. rewrite Hn. unfold raw_of, with_raw_size, with_raw_addrs. simpl. f_equal.
    rewrite length_app, Nat2Z.inj_add. apply wrap_small. unfold MAXBYTES in *. lia.
  - eapply inode_wf_meta; [exact Hw1|done|by rewrite Hsame|done].
Qed.

Lemma fblocks_max size : size ≤ MAXBYTES → (fblocks size ≤ MAXFILE)%nat.
Proof. intros H. pose proof (fblocks_mono size MAXBYTES H). assert (fblocks MAXBYTES = MAXFILE) by reflexivity. lia. Qed.

(** What an update of node [i] has to show for the invariant of the whole. *)
Lemma fs_inv_update m L d Ds m' d' i ty c c' D D' :
  fs_inv m L d Ds → L !! i = Some (ty, c) → Ds !! i = Some D → Z.of_nat (length L) < NINODES →
  sim m' d' → disk_wf mkfs_sb d' → node_ok m' d' i ty c' D' → moved d (node_ip i D) d' (node_ip i D') ∨ (d' = d ∧ di_addrs D' = di_addrs D) →
  (∀ j E, 0 ≤ j < NINODES → j ≠ Z.of_nat i + 1 → inode_at m j E → inode_at m' j E) →
  freeinode m' = freeinode m → freeblock m' ≤ NMETA + total (<[i := (ty, c')]> L) →
  (∀ k, k = 1 ∨ 58 ≤ k < NMETA → sect m' k = sect m k) →
  fs_inv m' (<[i := (ty, c')]> L) d' (<[i := D']> Ds).
Proof.
  intros [] Hi HD Hn Hs Hd Hno Hk Hat Hfi Hfb Hse. pose proof (lookup_lt_Some _ _ _ Hi) as Hlt.
  assert (Hother : ∀ j E ty2 c2, j ≠ i → Ds !! j = Some E → L !! j = Some (ty2, c2) →
    (∀ p, valid_pos p → addr_at d' (node_ip j E) p = addr_at d (node_ip j E) p ∧
       dget d' (addr_at d (node_ip j E) p) = dget d (addr_at d (node_ip j E) p)) ∧
    inode_wf mkfs_sb d' (node_ip j E) ∧ apart d' (node_ip j E) (node_ip i D')).
  { intros j E ty2 c2 Hne HE HL. pose proof (fi_node0 j ty2 c2 E HL HE) as [_ _ Hw _ _ _]. pose proof (fi_apart0 j i E D Hne HE HD) as Hap.
    destruct Hk as [Hk|[-> Ha]]; [by eapply other_kept|]. split; [done|]. split; [done|]. intros p q Hp Hq Hnz.
    rewrite (addr_at_addrs d (node_ip i D) (node_ip i D')) by done. by apply Hap. }
  assert (Hsome : ∀ j E, Ds !! j = Some E → ∃ f, L !! j = Some f).
  { intros j E HE. apply lookup_lt_is_Some_2. rewrite <-fi_nodes0. by eapply lookup_lt_Some. }
  split; try done.
  - by rewrite !length_insert.
  - intros j ty2 c2 E [(<- & Ef & _)|(Hne & HL)]%list_lookup_insert_Some [(? & <- & _)|(? & HE)]%list_lookup_insert_Some; try done.
    { by injection Ef as <- <-. }
    destruct (Hother j E ty2 c2) as (Ht & Hw & _); [done..|]. destruct (fi_node0 j ty2 c2 E HL HE) as [A1 A2 A3 A4 A5 A6]. split; try done.
    + apply Hat; [pose proof (lookup_lt_Some _ _ _ HL); lia|lia|done].
    + intros o Ho. rewrite (kept_fbyte d d') by done. by apply A4.
    + intros k Hk'. specialize (A5 k Hk'). pose proof (fblocks_max _ A6). destruct (bpos_valid k) as [Hv _]; [lia|]. destruct (Ht _ Hv) as [-> _]. done.
  - intros j k E F Hne [(<- & <- & _)|(Hj & HE)]%list_lookup_insert_Some [(<- & <- & _)|(Hk2 & HF)]%list_lookup_insert_Some; try done.
    + destruct (Hsome k F HF) as [[ty2 c2] HL]. apply apart_sym. by apply (Hother k F ty2 c2).
    + destruct (Hsome j E HE) as [[ty2 c2] HL]. by apply (Hother j E ty2 c2).
    + destruct (Hsome j E HE) as [[ty2 c2] HL]. destruct (Hsome k F HF) as [[ty3 c3] HL3].
      destruct (Hother j E ty2 c2) as (Ht & _); [done..|]. destruct (Hother k F ty3 c3) as (Ht' & _); [done..|].
      intros p q Hp Hq. destruct (Ht p Hp) as [-> _], (Ht' q Hq) as [-> _]. by apply (fi_apart0 j k E F).
  - by rewrite length_insert, Hfi.
  - intros k Hk'. rewrite Hse by lia. by apply fi_bitmap0.
  - rewrite Hse by lia. done.
Qed.

Lemma fits_files L : fits L → Z.of_nat (length L) < NINODES.
Proof. intros (_ & H & _). done. Qed.

(** [iappend] adds its bytes to one file and leaves the others. *)
Lemma iappend_spec m L d Ds i ty c data :
  fs_inv m L d Ds → L !! i = Some (ty, c) → fits (<[i := (ty, c ++ data)]> L) →
  ∃ m' d' Ds', iappend (Z.of_nat i + 1) data m = (Ok (), m') ∧ fs_inv m' (<[i := (ty, c ++ data)]> L) d' Ds'.
Proof.
  intros Hinv Hi Hfit. pose proof (fits_files _ Hfit) as Hn. rewrite length_insert in Hn. pose proof (lookup_lt_Some _ _ _ Hi) as Hlt.
  destruct (lookup_lt_is_Some_2 Ds i) as [D HD]; [by rewrite (fi_nodes _ _ _ _ Hinv)|].
  destruct (iappend_run m L d Ds i ty c data D Hinv Hi HD Hfit) as (m1 & d' & ip' & x & Hrun & Hap & Hw & Him & Hat & Hoth).
  set (D' := node ty (Z.of_nat (length (c ++ data))) (id_addrs ip')) in *.
  destruct (fi_node _ _ _ _ Hinv i ty c D Hi HD) as [_ Hnode _ Hby _ _]. pose proof Hap as [Hs1 Hk1 Hby1 Hfu1 Hne1 Hfi1 Hme1].
  assert (Hib : 32 ≤ iblock mkfs_sb (Z.of_nat i + 1) < 58) by (apply mkfs_iblock; lia).
  assert (Hads : ∀ p, addr_at d' (node_ip i D') p = addr_at d' ip' p) by (intros p; by apply addr_at_addrs).
  assert (Hmax : Z.of_nat (length (c ++ data)) ≤ MAXBYTES).
  { destruct Hfit as (_ & _ & Hall). rewrite Forall_forall in Hall. apply (Hall (ty, c ++ data)).
    by eapply list_elem_of_lookup_2, list_lookup_insert_eq. }
  exists (put_sect (iblock mkfs_sb (Z.of_nat i + 1)) x m1), d', (<[i := D']> Ds). split; [done|].
  eapply fs_inv_update; try done.
  - by apply sim_inode.
  - apply Hk1.
  - split; try done.
    + intros o Ho. transitivity (fbyte d' ip' o); [unfold fbyte; by rewrite Hads|]. rewrite Hby1, Hby by done.
      case_decide.
      { rewrite lookup_app_r by lia. replace (Z.to_nat o - length c)%nat with (Z.to_nat (o - Z.of_nat (length c))) by lia.
        rewrite list_lookup_lookup_total_lt; [done|lia]. }
      destruct (decide (o < Z.of_nat (length c))); [by rewrite lookup_app_l by lia|].
      rewrite !lookup_ge_None_2; [done|rewrite length_app; lia|lia].
    + intros k Hk. rewrite Hads. apply Hfu1. by rewrite length_app, Nat2Z.inj_add in Hk.
  - left. destruct Hk1 as [K1 K2 K3 K4 K5]. split; [done| |done].
    intros k Hk Hu Hq. destruct (K4 k Hk Hu Hq) as [E1 E2]. split; [done|]. intros q Hq'. rewrite Hads. by apply E2.
  - intros j E Hj Hne HE. apply Hoth; [done|done|]. unfold inode_at in *. rewrite Hme1; [done|].
    pose proof (mkfs_iblock j Hj). change NMETA with 83. lia.
  - rewrite (total_insert L i ty c) by done. rewrite length_app, Nat2Z.inj_add. pose proof (fi_block _ _ _ _ Hinv). simpl. lia.
  - intros k Hk. rewrite sect_put, decide_False by lia. apply Hme1. change NMETA with 83 in *. lia.
Qed.

(** ** A new inode *)

Definition blank (ty : FileType) : DInode := node ty 0 (replicate 13 0).

Lemma blank_addr (d : gmap Z block) i ty p : dget d 0 = zero_block → valid_pos p → addr_at d (node_ip i (blank ty)) p = 0.
Proof.
  intros Hz. induction p as [k|q IH j]; intros Hv.
  - change (replicate 13 0 !!! k = 0). by apply lookup_total_replicate_2.
  - destruct (valid_parent q j Hv) as (Hq & _ & Hj). cbn [addr_at]. rewrite (IH Hq). change (bs_read d 0) with (dget d 0). rewrite Hz. by apply get_u32_zero.
Qed.

Lemma blank_ok ty : dinode_ok (blank ty).
Proof. split; simpl; try lia; try done. repeat constructor; lia. Qed.

Lemma blank_node m d i ty :
  disk_wf mkfs_sb d → Z.of_nat i + 1 < NINODES → inode_at m (Z.of_nat i + 1) (blank ty) → node_ok m d i ty [] (blank ty).
Proof.
  intros Hd Hi Hat. pose proof (dw_boot _ _ Hd) as Hz. assert (Hb : ∀ p, valid_pos p → addr_at d (node_ip i (blank ty)) p = 0) by (intros; by apply blank_addr).
  split; try done.
  - split; [apply blank_ok|simpl; unfold NINODES in *; change (sb_ninodes mkfs_sb) with 200; lia|..]; intros p; [intros Hp; by rewrite Hb|].
    intros q Hp Hq. by rewrite Hb.
  - intros o Ho. unfold fbyte. destruct (bpos_valid _ (block_index_lt o Ho)) as [Hv _]. rewrite Hb, Hz by done.
    unfold zero_block. rewrite lookup_total_replicate_2; [done|apply block_offset_lt].
  - intros k Hk. exfalso. change (fblocks (Z.of_nat (length []))) with 0%nat in Hk. lia.
Qed.

Lemma ialloc_spec m L d Ds ty :
  fs_inv m L d Ds → Z.of_nat (length L) + 1 < NINODES →
  ∃ m', ialloc ty m = (Ok (Z.of_nat (length L) + 1), m') ∧ fs_inv m' (L ++ [(ty, [])]) d (Ds ++ [blank ty]).
Proof.
  intros Hinv Hn. pose proof Hinv as []. assert (Hin : 0 ≤ Z.of_nat (length L) + 1 < NINODES) by lia.
  set (m0 := mkFsImg (sects m) (ilen m) (freeinode m + 1) (freeblock m)).
  assert (Hs0 : sim m0 d) by (destruct fi_sim0 as [[]]; by split).
  destruct (winode_ok m0 (Z.of_nat (length L) + 1) (blank ty) (si_image _ _ Hs0) Hin (blank_ok ty)) as (x & Hw & Him & Hat & Hoth).
  pose proof (mkfs_iblock _ Hin) as Hib. set (m1 := put_sect _ x m0) in *. exists m1.
  split.
  { unfold ialloc. unfold u32. rewrite wrap_small by (rewrite fi_inode0; unfold NINODES in *; lia). cbv zeta. fold m0. rewrite fi_inode0. erewrite bind_ok; [|exact Hw]. done. }
  assert (Hsome : ∀ j E, Ds !! j = Some E → (j < length L)%nat) by (intros j E HE; rewrite <-fi_nodes0; by eapply lookup_lt_Some).
  assert (Hz : ∀ p, valid_pos p → addr_at d (node_ip (length L) (blank ty)) p = 0) by (intros; apply blank_addr; [apply fi_disk0|done]).
  split; try done.
  - by apply sim_inode.
  - by rewrite !length_app, fi_nodes0.
  - intros j ty2 c2 E [HL|[Hge HL]]%lookup_app_Some [HE|[Hge' HE]]%lookup_app_Some.
    + destruct (fi_node0 j ty2 c2 E HL HE) as [A1 A2 A3 A4 A5 A6]. split; try done.
      apply Hoth; [|pose proof (lookup_lt_Some _ _ _ HL); lia|exact A1]. pose proof (lookup_lt_Some _ _ _ HL). lia.
    + pose proof (lookup_lt_Some _ _ _ HL). lia.
    + pose proof (Hsome _ _ HE). lia.
    + apply list_lookup_singleton_Some in HL as [Hj HL]. apply list_lookup_singleton_Some in HE as [_ <-]. injection HL as <- <-.
      assert (j = length L) as -> by lia. by apply blank_node.
  - intros j k E F Hne [HE|[Hge HE]]%lookup_app_Some [HF|[Hge' HF]]%lookup_app_Some.
    + by apply (fi_apart0 j k E F).
    + apply list_lookup_singleton_Some in HF as [Hk <-]. assert (k = length L) as -> by lia. intros p q Hp Hq. by rewrite (Hz q Hq).
    + apply list_lookup_singleton_Some in HE as [Hk <-]. assert (j = length L) as -> by lia. intros p q Hp Hq. by rewrite (Hz p Hp).
    + apply list_lookup_singleton_Some in HE as [Hk _]. apply list_lookup_singleton_Some in HF as [Hk' _]. lia.
  - simpl. rewrite length_app. simpl. lia.
  - rewrite total_snoc. done.
  - intros c Hc. unfold m1. rewrite sect_put, decide_False by lia. by apply fi_bitmap0.
  - unfold m1. rewrite sect_put, decide_False by lia. done.
Qed.
