(* ===== verification/MkFsSpec.v ===== *)
(** * The image mkfs makes is one the kernel can mount

    [layout] says which files an image has, in the order of their inodes; the
    theorem of this file is that the kernel finds exactly these on it. *)

From stdpp Require Import base tactics numbers gmap list.
From S2P Require Import Prelude Params Errors Bytes Log LogOps FsLayout FsBlocks FsInode FsBmap UserMem FsData MkFs MkFsSim MkFsNode.
Local Open Scope Z_scope.

(** ** The bitmap *)

Lemma put_span_get fuel sec buf g c :
  (length buf ≤ fuel)%nat →
  dget (put_span fuel sec buf g) c =
    if decide (sec ≤ c ∧ (c - sec) * 1024 < Z.of_nat (length buf))
    then write_at 0 (take BSIZE (drop (Z.to_nat ((c - sec) * 1024)) buf)) (dget g c) else dget g c.
Proof.
  revert sec buf g. induction fuel as [|fuel IH]; intros sec buf g Hf.
  { destruct buf; [|simpl in Hf; lia]. simpl. by rewrite decide_False by lia. }
  destruct buf as [|b buf]; [simpl; by rewrite decide_False by lia|]. cbn [put_span]. set (l := b :: buf) in *.
  assert (Hl : (0 < length l)%nat) by (simpl; lia). rewrite IH by (rewrite length_drop; unfold BSIZE; lia). rewrite length_drop, dget_insert.
  destruct (decide (c = sec)) as [->|Hne].
  - rewrite decide_False, decide_True by lia. replace (Z.to_nat ((sec - sec) * 1024)) with 0%nat by lia. done.
  - destruct (decide (sec ≤ c ∧ (c - sec) * 1024 < Z.of_nat (length l))) as [Hc|Hc].
    + rewrite decide_True by (unfold BSIZE; lia). rewrite drop_drop. do 3 f_equal. unfold BSIZE. lia.
    + rewrite decide_False by (unfold BSIZE; lia). done.
Qed.

Definition set_bit (buf : list Z) (i : Z) : list Z :=
  match buf !! Z.to_nat (i / 8) with
  | Some elem => <[Z.to_nat (i / 8) := Z.lor elem (Z.shiftl 1 (i mod 8))]> buf
  | None => buf
  end.

Lemma set_bit_spec buf i j b :
  0 ≤ i → 0 ≤ j → 0 ≤ b < 8 → i / 8 < Z.of_nat (length buf) →
  Z.testbit (default 0 (set_bit buf i !! Z.to_nat j)) b = (8 * j + b =? i) || Z.testbit (default 0 (buf !! Z.to_nat j)) b.
Proof.
  intros Hi Hj Hb Hl. unfold set_bit. pose proof (Z.div_mod i 8). pose proof (Z.mod_pos_bound i 8).
  assert (0 ≤ i / 8) by (apply Z.div_pos; lia).
  destruct (lookup_lt_is_Some_2 buf (Z.to_nat (i / 8))) as [v Hv]; [lia|]. rewrite Hv. destruct (decide (j = i / 8)) as [->|Hne].
  - rewrite list_lookup_insert_eq by lia. rewrite Hv. simpl. rewrite Z.lor_spec, shiftl_1_bit by lia.
    rewrite orb_comm. f_equal. destruct (Z.eqb_spec (i mod 8) b), (Z.eqb_spec (8 * (i / 8) + b) i); lia || done.
  - rewrite list_lookup_insert_ne by lia. rewrite (proj2 (Z.eqb_neq _ _)); [done|]. intros E. apply Hne.
    apply (Z.div_unique i 8 j b); lia.
Qed.

Lemma length_set_bit buf i : length (set_bit buf i) = length buf.
Proof. unfold set_bit. case_match; [apply length_insert|done]. Qed.

Lemma set_bits_spec (n : nat) U j b :
  Z.of_nat n ≤ Z.of_nat U → 0 ≤ j → 0 ≤ b < 8 →
  length (foldl set_bit (replicate U 0) (seqZ 0 (Z.of_nat n))) = U ∧
  Z.testbit (default 0 (foldl set_bit (replicate U 0) (seqZ 0 (Z.of_nat n)) !! Z.to_nat j)) b = (8 * j + b <? Z.of_nat n).
Proof.
  intros Hn Hj Hb. induction n as [|n IH].
  { simpl. rewrite length_replicate. split; [done|]. rewrite (proj2 (Z.ltb_ge _ _)) by lia.
    destruct (replicate U 0 !! Z.to_nat j) as [v|] eqn:E; [apply lookup_replicate in E as [-> _]|]; apply Z.testbit_0_l. }
  destruct IH as [IH1 IH2]; [lia|]. rewrite seqZ_S, foldl_app, Z.add_0_l. cbn [foldl].
  split; [by rewrite length_set_bit|]. rewrite set_bit_spec; [|lia|lia|lia|].
  - rewrite IH2. destruct (Z.eqb_spec (8 * j + b) (Z.of_nat n)), (Z.ltb_spec (8 * j + b) (Z.of_nat n)), (Z.ltb_spec (8 * j + b) (Z.of_nat (S n))); lia || done.
  - rewrite IH1. apply Z.div_lt_upper_bound; lia.
Qed.

Lemma bitmap_bytes_spec used j b :
  0 ≤ used → 0 ≤ j → 0 ≤ b < 8 →
  length (bitmap_bytes used) = Z.to_nat used ∧ Z.testbit (default 0 (bitmap_bytes used !! Z.to_nat j)) b = (8 * j + b <? used).
Proof.
  intros Hu Hj Hb. destruct (set_bits_spec (Z.to_nat used) (Z.to_nat used) j b) as [H1 H2]; [lia..|].
  rewrite Z2Nat.id in H1, H2 by done. done.
Qed.

(** The bitmap of the finished image. *)
Lemma balloc_used m F used c :
  image_ok m → (∀ k, 58 ≤ k < NMETA → sect m k = zero_block) → 0 ≤ used ≤ LIMIT → 0 ≤ c < FSSIZE →
  F = put_span (length (bitmap_bytes used)) (sb_bmapstart mkfs_sb) (bitmap_bytes used) (sects m) →
  FsBlocks.used mkfs_sb F c = (c <? used) ∧ length (dget F (bblock mkfs_sb c)) = BSIZE.
Proof.
  intros Hm Hz Hu Hc ->. pose proof (mkfs_meta c Hc) as Hbm. unfold FsBlocks.used. change (bs_read ?s ?a) with (dget s a).
  rewrite put_span_get by done. change (sb_bmapstart mkfs_sb) with 58. rewrite Hz by done.
  assert (Hk : bblock mkfs_sb c - 58 = c / BPB) by (unfold bblock; change (sb_bmapstart mkfs_sb) with 58; lia). rewrite Hk.
  pose proof (Z.mod_pos_bound c BPB) as Hmod. pose proof (Z.div_mod c BPB) as Hdm. unfold BPB in *.
  assert (H0 : 0 ≤ c / 8192) by (apply Z.div_pos; lia). set (k := c / 8192) in *. set (bi := c mod 8192) in *.
  assert (Hj : 0 ≤ bi / 8 < 1024) by (split; [apply Z.div_pos; lia|apply Z.div_lt_upper_bound; lia]).
  pose proof (Z.mod_pos_bound bi 8) as Hb8. pose proof (Z.div_mod bi 8) as Hd8.
  destruct (bitmap_bytes_spec used (k * 1024 + bi / 8) (bi mod 8)) as [Hlen Hbit]; [lia..|].
  replace (8 * (k * 1024 + bi / 8) + bi mod 8) with c in Hbit by lia. rewrite <-Hbit.
  rewrite Hlen, Z2Nat.id by lia. unfold bit_in, byte_at. split.
  - case_decide as Hd.
    + unfold write_at. rewrite take_0, app_nil_l. set (piece := take BSIZE (drop (Z.to_nat (k * 1024)) (bitmap_bytes used))).
      destruct (decide (k * 1024 + bi / 8 < used)).
      * assert (Hp : piece !! Z.to_nat (bi / 8) = bitmap_bytes used !! Z.to_nat (k * 1024 + bi / 8)).
        { unfold piece. rewrite lookup_take_lt by (unfold BSIZE; lia). rewrite lookup_drop. f_equal. lia. }
        destruct (lookup_lt_is_Some_2 (bitmap_bytes used) (Z.to_nat (k * 1024 + bi / 8))) as [v Hv]; [lia|]. rewrite Hv in Hp |- *.
        rewrite lookup_app_l by (apply lookup_lt_Some in Hp; exact Hp). by rewrite Hp.
      * rewrite (lookup_ge_None_2 (bitmap_bytes used)) by lia. simpl. rewrite Z.testbit_0_l.
        rewrite lookup_app_r by (unfold piece; rewrite length_take, length_drop, Hlen; unfold BSIZE; lia).
        rewrite lookup_drop. destruct (zero_block !! _) as [v|] eqn:E; [|done]. apply lookup_replicate in E as [-> _]. apply Z.testbit_0_l.
    + rewrite (lookup_ge_None_2 (bitmap_bytes used)) by lia. simpl. rewrite Z.testbit_0_l.
      destruct (zero_block !! _) as [v|] eqn:E; [|done]. apply lookup_replicate in E as [-> _]. apply Z.testbit_0_l.
  - case_decide; [|by unfold zero_block; rewrite length_replicate].
    rewrite length_write_at; unfold zero_block; rewrite length_replicate; [done|]. rewrite length_take. lia.
Qed.

(** ** The files of an image *)

Definition append_file (i : nat) (data : list Z) (L : list FileSpec) : list FileSpec := alter (λ f, (f.1, f.2 ++ data)) i L.
Definition entry_bytes (inum : Z) (name : list Z) : list Z :=
  encode_dirent (mkDirEnt inum (name ++ replicate (DIRSIZ - length name) 0)).
(** Directory [dir] gets the entry [name], for inode [inum]. *)
Definition link_entry (dir : nat) (inum : Z) (name : list Z) : list FileSpec → list FileSpec := append_file dir (entry_bytes inum name).
Definition new_dir (name : list Z) (L : list FileSpec) : list FileSpec :=
  let i := length L in
  link_entry i 1 DOTDOT (link_entry i (Z.of_nat i + 1) DOT (link_entry 0 (Z.of_nat i + 1) name (L ++ [(FT_Dir, [])]))).
Definition new_file (f : HostFile) (L : list FileSpec) : list FileSpec :=
  let i := length L in
  append_file i (concat (h_reads f))
    (link_entry (Z.to_nat (parent_ino 1 3 4 5 f - 1)) (Z.of_nat i + 1) (shortname (h_name f)) (L ++ [(FT_File, [])])).
(** Root, dev, bin, lib, etc, then the files. *)
Definition skeleton : list FileSpec :=
  new_dir ETC (new_dir LIB (new_dir BIN (new_dir DEV (link_entry 0 1 DOTDOT (link_entry 0 1 DOT [(FT_Dir, [])]))))).
Definition layout (files : list HostFile) : list FileSpec := foldl (λ L f, new_file f L) skeleton files.

(** ** Running the tool on the invariant *)

Definition builds {A} (p : MK A) (L L' : list FileSpec) (a : A) : Prop :=
  (fits L' → fits L) ∧
  ∀ m d Ds, fs_inv m L d Ds → fits L' → ∃ m' d' Ds', p m = (Ok a, m') ∧ fs_inv m' L' d' Ds'.

Lemma builds_ret {A} (a : A) L : builds (mret a) L L a.
Proof. split; [done|]. intros m d Ds H _. by exists m, d, Ds. Qed.

Lemma builds_bind {A B} (p : MK A) (f : A → MK B) L L1 L2 a b :
  builds p L L1 a → builds (f a) L1 L2 b → builds (p ≫= f) L L2 b.
Proof.
  intros [H1 H2] [H3 H4]. split; [auto|]. intros m d Ds Hi Hf. destruct (H2 m d Ds Hi (H3 Hf)) as (m1 & d1 & Ds1 & E & Hi1).
  destruct (H4 m1 d1 Ds1 Hi1 Hf) as (m2 & d2 & Ds2 & E2 & Hi2). exists m2, d2, Ds2. by rewrite (bind_ok _ _ _ _ _ E).
Qed.


Lemma append_file_insert i data L ty c : L !! i = Some (ty, c) → append_file i data L = <[i := (ty, c ++ data)]> L.
Proof.
  intros H. apply list_eq. intros j. unfold append_file. destruct (decide (j = i)) as [->|].
  - rewrite list_lookup_alter_eq, H. rewrite list_lookup_insert_eq by by eapply lookup_lt_Some. done.
  - by rewrite list_lookup_alter_ne, list_lookup_insert_ne by done.
Qed.

Lemma fits_append i data L : fits (append_file i data L) → fits L.
Proof.
  destruct (L !! i) as [[ty c]|] eqn:E.
  - rewrite (append_file_insert i data L ty c E). intros (H1 & H2 & H3). rewrite length_insert in H2.
    rewrite (total_insert L i ty c) in H1 by done. pose proof (need_mono (fblocks (Z.of_nat (length c))) (fblocks (Z.of_nat (length (c ++ data))))) as Hn.
    pose proof (fblocks_mono (Z.of_nat (length c)) (Z.of_nat (length (c ++ data)))) as Hb. rewrite length_app in *.
    split; [lia|]. split; [done|]. apply Forall_lookup_2. intros j [ty2 c2] Hj. rewrite Forall_lookup in H3.
    destruct (decide (j = i)) as [->|]; [|apply (H3 j); by rewrite list_lookup_insert_ne].
    specialize (H3 i (ty, c ++ data)). rewrite list_lookup_insert_eq in H3 by by eapply lookup_lt_Some.
    rewrite E in Hj. injection Hj as <- <-. specialize (H3 eq_refl). simpl in *. rewrite length_app in H3. lia.
  - enough (append_file i data L = L) as -> by done. apply list_eq. intros j. unfold append_file.
    destruct (decide (j = i)) as [->|]; [by rewrite list_lookup_alter_eq, E|by rewrite list_lookup_alter_ne].
Qed.

Lemma builds_iappend i data L : (i < length L)%nat → builds (iappend (Z.of_nat i + 1) data) L (append_file i data L) ().
Proof.
  intros Hi. split; [apply fits_append|]. intros m d Ds Hinv Hf. destruct (lookup_lt_is_Some_2 L i Hi) as [[ty c] Hl].
  rewrite (append_file_insert i data L ty c Hl) in *. by eapply iappend_spec.
Qed.

Lemma builds_ialloc ty L : builds (ialloc ty) L (L ++ [(ty, [])]) (Z.of_nat (length L) + 1).
Proof.
  split.
  - intros (H1 & H2 & H3). rewrite total_snoc in H1. rewrite length_app in H2. simpl in H2. apply Forall_app in H3 as [H3 _]. split; [done|]. split; [lia|done].
  - intros m d Ds Hinv (_ & H2 & _). rewrite length_app in H2. simpl in H2.
    destruct (ialloc_spec m L d Ds ty Hinv) as (m' & E & Hi); [lia|]. by eexists _, _, _.
Qed.

Lemma builds_fits {A} (p : MK A) L L' a : (fits L' → fits L) → (fits L' → builds p L L' a) → builds p L L' a.
Proof. intros H1 H2. split; [done|]. intros m d Ds Hi Hf. by eapply (proj2 (H2 Hf)). Qed.

Lemma builds_entry dir inum name L :
  (dir < length L)%nat → (length name ≤ DIRSIZ)%nat → 0 ≤ inum ≤ Z.of_nat (length L) →
  builds (add_entry (Z.of_nat dir + 1) inum name) L (link_entry dir inum name L) ().
Proof.
  intros Hd Hn Hi. apply builds_fits; [apply fits_append|]. intros Hf%fits_append%fits_files.
  unfold add_entry, dirent_bytes. rewrite (proj2 (Nat.ltb_ge _ _)) by done. unfold u16. rewrite wrap_small by (unfold NINODES in *; lia).
  eapply builds_bind; [apply builds_ret|]. by apply builds_iappend.
Qed.

Lemma length_append_file i data L : length (append_file i data L) = length L.
Proof. apply length_alter. Qed.
Lemma append_file_app i a b L : append_file i b (append_file i a L) = append_file i (a ++ b) L.
Proof.
  unfold append_file. apply list_eq. intros j. destruct (decide (j = i)) as [->|]; [|by rewrite !list_lookup_alter_ne by done].
  rewrite !list_lookup_alter_eq. destruct (L !! i) as [[ty c]|]; simpl; [|done]. by rewrite app_assoc.
Qed.
Lemma append_file_nil i L : append_file i [] L = L.
Proof.
  unfold append_file. apply list_eq. intros j. destruct (decide (j = i)) as [->|]; [|by rewrite list_lookup_alter_ne by done].
  rewrite list_lookup_alter_eq. destruct (L !! i) as [[ty c]|]; simpl; [|done]. by rewrite app_nil_r.
Qed.

Lemma builds_reads i reads L : (i < length L)%nat → builds (m_for reads (iappend (Z.of_nat i + 1))) L (append_file i (concat reads) L) ().
Proof.
  revert L. induction reads as [|r reads IH]; intros L Hi; simpl.
  - rewrite append_file_nil. apply builds_ret.
  - rewrite <-append_file_app. eapply builds_bind; [by apply builds_iappend|]. apply IH. by rewrite length_append_file.
Qed.

Lemma length_link_entry dir inum name L : length (link_entry dir inum name L) = length L.
Proof. apply length_append_file. Qed.
Lemma length_new_dir name L : length (new_dir name L) = S (length L).
Proof. unfold new_dir. rewrite !length_link_entry, length_app. simpl. lia. Qed.
Lemma length_new_file f L : length (new_file f L) = S (length L).
Proof. unfold new_file. rewrite length_append_file, length_link_entry, length_app. simpl. lia. Qed.

Ltac build_lengths := rewrite ?length_link_entry, ?length_append_file, ?length_app; simpl; lia.

Lemma builds_dir name L : (length name ≤ DIRSIZ)%nat → builds (create_dir 1 name) L (new_dir name L) (Z.of_nat (length L) + 1).
Proof.
  intros Hn. unfold create_dir, new_dir. eapply builds_bind; [apply builds_ialloc|].
  eapply builds_bind; [apply (builds_entry 0); [build_lengths|done|build_lengths]|].
  eapply builds_bind; [apply builds_entry; [build_lengths|by apply Nat.leb_le|build_lengths]|].
  eapply builds_bind; [apply builds_entry; [build_lengths|by apply Nat.leb_le|build_lengths]|]. apply builds_ret.
Qed.

(** A name that fits in a directory entry, with the byte the assertion asks
    for. *)
Definition name_ok (f : HostFile) : Prop := (length (shortname (h_name f)) < 14)%nat.

Lemma parent_cases f : parent_ino 1 3 4 5 f = Z.of_nat (Z.to_nat (parent_ino 1 3 4 5 f - 1)) + 1 ∧ (Z.to_nat (parent_ino 1 3 4 5 f - 1) < 5)%nat.
Proof. unfold parent_ino. repeat case_match; lia. Qed.

Lemma builds_file f L : name_ok f → (5 ≤ length L)%nat → builds (add_file 1 3 4 5 f) L (new_file f L) ().
Proof.
  intros Hn Hl. unfold name_ok in Hn. unfold add_file, new_file. rewrite (proj2 (Nat.leb_gt _ _)) by done.
  destruct (parent_cases f) as [Hp Hp5]. eapply builds_bind; [apply builds_ialloc|]. rewrite Hp at 1.
  eapply builds_bind; [apply builds_entry; [build_lengths|unfold DIRSIZ; lia|build_lengths]|].
  apply builds_reads. build_lengths.
Qed.

Lemma builds_files files L :
  Forall name_ok files → (5 ≤ length L)%nat → builds (m_for files (add_file 1 3 4 5)) L (foldl (λ L f, new_file f L) L files) ().
Proof.
  intros Hn. revert L. induction Hn as [|f files Hf _ IH]; intros L Hl; simpl; [apply builds_ret|].
  eapply builds_bind; [by apply builds_file|]. apply IH. rewrite length_new_file. lia.
Qed.

Lemma builds_image files : Forall name_ok files → builds (populate_image files) [] (layout files) ROOTINO.
Proof.
  intros Hn. unfold populate_image, layout, skeleton. eapply builds_bind; [apply (builds_ialloc FT_Dir [])|].
  eapply builds_bind; [apply (builds_entry 0); [build_lengths|by apply Nat.leb_le|build_lengths]|].
  eapply builds_bind; [apply (builds_entry 0); [build_lengths|by apply Nat.leb_le|build_lengths]|].
  eapply builds_bind; [apply builds_dir; by apply Nat.leb_le|].
  eapply builds_bind; [apply builds_dir; by apply Nat.leb_le|].
  eapply builds_bind; [apply builds_dir; by apply Nat.leb_le|].
  eapply builds_bind; [apply builds_dir; by apply Nat.leb_le|].
  eapply builds_bind; [|apply builds_ret]. rewrite !length_new_dir, !length_link_entry. apply builds_files; [done|]. rewrite !length_new_dir, !length_link_entry. simpl. lia.
Qed.

(** ** The empty image *)

Lemma zero_loop (l : list Z) m :
  (∀ c, sect m c = zero_block) → Forall (λ c, 0 ≤ c) l →
  ∃ m', m_for l (λ sec, wsect sec zero_block) m = (Ok (), m') ∧ (∀ c, sect m' c = zero_block) ∧
    freeinode m' = freeinode m ∧ freeblock m' = freeblock m ∧ ilen m ≤ ilen m' ∧ (∀ c, c ∈ l → c * 1024 + 1024 ≤ ilen m').
Proof.
  intros Hz Hl. revert m Hz. induction Hl as [|c l Hc _ IH]; intros m Hz.
  { exists m. split_and!; try done. by intros c ?%not_elem_of_nil. }
  assert (Hzl : length zero_block = BSIZE) by (unfold zero_block; apply length_replicate).
  cbn [m_for]. erewrite bind_ok; [|unfold wsect; rewrite put_span_one; [reflexivity|rewrite Hzl; unfold BSIZE; lia|done|by rewrite Hz]].
  match goal with |- ∃ m', m_for _ _ ?x = _ ∧ _ => set (m1 := x) end.
  destruct (IH m1) as (m' & Hrun & H1 & H2 & H3 & H4 & H5).
  { intros c'. unfold m1. cbn [sects]. rewrite dget_insert. by case_decide. }
  exists m'. split; [done|]. unfold m1 in *. cbn [freeinode freeblock ilen] in *. rewrite Hzl in *. change (Z.of_nat BSIZE) with 1024 in *.
  split_and!; try done; [lia|]. intros c' [->|Hc']%elem_of_cons; [lia|by apply H5].
Qed.

(** A disk with the bitmap of an image without files. *)
Definition start_disk : gmap Z block := put_span (length (bitmap_bytes NMETA)) (sb_bmapstart mkfs_sb) (bitmap_bytes NMETA) ∅.

Lemma sb_block_length : length sb_block = BSIZE. Proof. reflexivity. Qed.

Lemma empty_image_inv m :
  image_ok m → (∀ c, sect m c = if decide (c = 1) then sb_block else zero_block) → freeinode m = 1 → freeblock m = NMETA →
  fs_inv m [] start_disk [].
Proof.
  intros Hm Hz Hi Hb. set (e := mkFsImg ∅ (FSSIZE * 1024) 1 NMETA).
  assert (He : image_ok e) by (split; [intros c; reflexivity|done]).
  assert (Hu : ∀ c, 0 ≤ c < FSSIZE → used mkfs_sb start_disk c = (c <? NMETA) ∧ length (dget start_disk (bblock mkfs_sb c)) = BSIZE).
  { intros c Hc. apply (balloc_used e start_disk NMETA c He); [done|vm_compute; split; congruence|done|done]. }
  assert (Hd0 : ∀ c, ¬ 58 ≤ c < NMETA → dget start_disk c = zero_block).
  { intros c Hc. unfold start_disk. rewrite put_span_get by done. rewrite decide_False; [done|].
    destruct (bitmap_bytes_spec NMETA 0 0) as [-> _]; [vm_compute; congruence|lia|lia|]. change (sb_bmapstart mkfs_sb) with 58. change NMETA with 83 in *. lia. }
  assert (Hbm : bitmap_ok mkfs_sb start_disk).
  { split; [intros b Hb'; by apply Hu|]. intros b Hb1 Hb2. rewrite mkfs_size in Hb2. rewrite mkfs_datastart in Hb1.
    destruct (Hu b) as [-> _]; [lia|]. apply Z.ltb_lt. lia. }
  split; try done.
  - split; try done; try (rewrite Hb; lia).
    + intros c Hc. rewrite Hd0 by lia. rewrite Hz, decide_False; [done|]. change NMETA with 83 in *. lia.
    + intros c Hc. rewrite Hz, decide_False; [done|]. rewrite Hb in Hc. change NMETA with 83 in *. lia.
    + intros c Hc. rewrite Hb. by apply Hu.
  - split; [apply mkfs_layout|done|apply Hd0; change NMETA with 83; lia|]. intros i Hi'. change (sb_ninodes mkfs_sb) with NINODES in Hi'.
    pose proof (mkfs_iblock i Hi'). change (bs_read ?s ?a) with (dget s a). rewrite Hd0 by (change NMETA with 83; lia). reflexivity.
  - simpl. rewrite Hb. lia.
  - intros c Hc. rewrite Hz, decide_False by lia. done.
Qed.

(** ** The finished image *)

(** Two disks with the same data and the same bitmap have the same files. *)
Lemma same_files (d F : gmap Z block) ip :
  disk_wf mkfs_sb d → inode_wf mkfs_sb d ip → (∀ c, NMETA ≤ c < FSSIZE ∨ c = 0 → dget F c = dget d c) →
  (∀ c, 0 ≤ c < FSSIZE → used mkfs_sb F c = used mkfs_sb d c) →
  (∀ p, valid_pos p → addr_at F ip p = addr_at d ip p ∧ dget F (addr_at d ip p) = dget d (addr_at d ip p)) ∧ inode_wf mkfs_sb F ip.
Proof.
  intros Hd Hw Hc Hu.
  assert (Hb : ∀ p, valid_pos p → dget F (addr_at d ip p) = dget d (addr_at d ip p)).
  { intros p Hp. apply Hc. pose proof (addr_nonneg mkfs_sb d ip p Hd Hw Hp) as Hn. rewrite mkfs_datastart, mkfs_size in Hn. naive_solver. }
  assert (Ht : ∀ p, valid_pos p → addr_at F ip p = addr_at d ip p) by (intros p; apply addr_at_frame; intros q Hq _; by apply Hb).
  split; [by intros p Hp; split; [apply Ht|apply Hb]|]. destruct Hw as [W1 W2 W3 W4]. split; try done.
  - intros p Hp. rewrite (Ht p Hp). intros Hnz. destruct (W3 p Hp Hnz) as (R1 & R2 & R3). split; [done|].
    rewrite mkfs_datastart, mkfs_size in R1. rewrite Hu by (change NMETA with 83 in *; lia). split; [done|].
    change (bs_read F ?a) with (dget F a). by rewrite (Hb p Hp).
  - intros p q Hp Hq. rewrite !Ht by done. by apply W4.
Qed.

Definition final_size (i : nat) (c : list Z) : Z :=
  if (i =? 0)%nat then (Z.of_nat (length c) / 1024 + 1) * 1024 else Z.of_nat (length c).

(** What the kernel finds on a disk. *)
Record mounts (F : gmap Z block) (L : list FileSpec) (ips : list IData) : Prop := {
  mt_super : superblock_read (dget F 1) = mkfs_sb;
  mt_disk : disk_wf mkfs_sb F;
  mt_files : length ips = length L;
  mt_file i ty c ip : L !! i = Some (ty, c) → ips !! i = Some ip →
    ilock mkfs_sb 1 (Z.of_nat i + 1) (F, idata_new 1 (Z.of_nat i + 1)) = (Ok (), (F, ip)) ∧
    id_itype ip = ty ∧ id_nlink ip = 1 ∧ id_size ip = final_size i c ∧ inode_wf mkfs_sb F ip ∧
    ∀ o, 0 ≤ o < MAXBYTES → fbyte F ip o = default 0 (c !! Z.to_nat o);
  mt_apart i j ip jp : i ≠ j → ips !! i = Some ip → ips !! j = Some jp → apart F ip jp;
  (** The bitmap marks the metadata and the blocks of the files. *)
  mt_free c : NMETA + total L ≤ c < FSSIZE → used mkfs_sb F c = false;
}.

(** ** The last writes *)

Section finish.
Context (m : FsImg) (L : list FileSpec) (d : gmap Z block) (Ds : list DInode) (ty0 : FileType) (c0 : list Z) (D0 : DInode).
Context (Hinv : fs_inv m L d Ds) (Hfit : fits L) (H0 : L !! 0%nat = Some (ty0, c0)) (HD0 : Ds !! 0%nat = Some D0).

(** The image once the root inode is written, and the finished one. *)
Context (x : block) (Him : image_ok (put_sect (iblock mkfs_sb ROOTINO) x m)).
Let m1 : FsImg := put_sect (iblock mkfs_sb ROOTINO) x m.
Let F : gmap Z block := put_span (length (bitmap_bytes (freeblock m))) (sb_bmapstart mkfs_sb) (bitmap_bytes (freeblock m)) (sects m1).

Lemma root_block : 32 ≤ iblock mkfs_sb ROOTINO < 58.
Proof. apply mkfs_iblock. unfold ROOTINO, NINODES. lia. Qed.

Lemma finish_bound : 0 ≤ freeblock m ≤ LIMIT.
Proof.
  pose proof (si_free _ _ (fi_sim _ _ _ _ Hinv)) as Hf. pose proof (fi_block _ _ _ _ Hinv). change NMETA with 83 in *. destruct Hfit as (Hl & _).
  change NMETA with 83 in *. lia.
Qed.

Lemma finish_sect c : ¬ 58 ≤ c < NMETA → dget F c = sect m1 c.
Proof.
  intros Hc. pose proof finish_bound as Hub. unfold F. rewrite put_span_get by done. rewrite decide_False; [done|].
  destruct (bitmap_bytes_spec (freeblock m) 0 0) as [-> _]; [lia..|]. change (sb_bmapstart mkfs_sb) with 58.
  unfold LIMIT in Hub. change (NBITMAP * 1024) with 25600 in Hub. change NMETA with 83 in *. lia.
Qed.

Lemma finish_other c : c ≠ iblock mkfs_sb ROOTINO → sect m1 c = sect m c.
Proof. intros Hc. unfold m1. by rewrite sect_put, decide_False. Qed.

Lemma finish_used c : 0 ≤ c < FSSIZE → used mkfs_sb F c = (c <? freeblock m) ∧ length (dget F (bblock mkfs_sb c)) = BSIZE.
Proof.
  intros Hc. apply (balloc_used m1 F (freeblock m) c Him); [|apply finish_bound|done|done]. intros k Hk. pose proof root_block.
  rewrite finish_other by lia. by apply (fi_bitmap _ _ _ _ Hinv).
Qed.

Lemma finish_data c : NMETA ≤ c < FSSIZE ∨ c = 0 → dget F c = dget d c.
Proof.
  intros Hc. pose proof root_block. rewrite finish_sect, finish_other by (change NMETA with 83 in *; lia). symmetry. by apply (fi_sim _ _ _ _ Hinv).
Qed.

Lemma finish_used_same c : 0 ≤ c < FSSIZE → used mkfs_sb F c = used mkfs_sb d c.
Proof. intros Hc. rewrite (si_used _ _ (fi_sim _ _ _ _ Hinv) c Hc). by apply finish_used. Qed.

Lemma finish_disk : disk_wf mkfs_sb F.
Proof.
  split; [apply mkfs_layout| |rewrite finish_data by lia; apply (fi_disk _ _ _ _ Hinv)|].
  - split; [intros b Hb; by apply finish_used|]. intros b Hb1 Hb2. rewrite mkfs_size in Hb2. rewrite mkfs_datastart in Hb1.
    destruct (finish_used b) as [-> _]; [lia|]. apply Z.ltb_lt. pose proof (si_free _ _ (fi_sim _ _ _ _ Hinv)). lia.
  - intros i Hi. change (sb_ninodes mkfs_sb) with NINODES in Hi. pose proof (mkfs_iblock i Hi).
    change (bs_read F ?a) with (dget F a). rewrite finish_sect by lia. apply Him.
Qed.

Lemma finish_super : superblock_read (dget F 1) = mkfs_sb.
Proof.
  pose proof root_block. rewrite finish_sect, finish_other, (fi_super _ _ _ _ Hinv) by (change NMETA with 83; lia). vm_compute. reflexivity.
Qed.

(** Every node, with the new size of the root. *)
Let D0' : DInode := node ty0 (final_size 0 c0) (di_addrs D0).
Context (Hroot : inode_at m1 ROOTINO D0') (Hok : dinode_ok D0').
Context (Hoth : ∀ j E, 0 ≤ j < NINODES → j ≠ ROOTINO → inode_at m j E → inode_at m1 j E).

Lemma finish_node i ty c D' :
  L !! i = Some (ty, c) → <[0%nat := D0']> Ds !! i = Some D' → ∃ D, Ds !! i = Some D ∧ di_addrs D' = di_addrs D ∧
    D' = node ty (final_size i c) (di_addrs D') ∧ inode_at m1 (Z.of_nat i + 1) D' ∧ inode_wf mkfs_sb d (node_ip i D') ∧ dinode_ok D' ∧
    ∀ o, 0 ≤ o < MAXBYTES → fbyte d (node_ip i D') o = default 0 (c !! Z.to_nat o).
Proof.
  intros HL [(<- & <- & _)|(Hne & HD)]%list_lookup_insert_Some.
  - rewrite H0 in HL. injection HL as <- <-. exists D0. destruct (fi_node _ _ _ _ Hinv 0%nat ty0 c0 D0 H0 HD0) as [A1 A2 A3 A4 _ _].
    split_and!; try done; [by eapply inode_wf_meta|].
    intros o Ho. rewrite <-A4 by done. unfold fbyte. by rewrite (addr_at_addrs d (node_ip 0 D0) (node_ip 0 D0')).
  - exists D'. destruct (fi_node _ _ _ _ Hinv i ty c D' HL HD) as [A1 A2 A3 A4 A5 A6]. split_and!; try done.
    + unfold final_size. rewrite (proj2 (Nat.eqb_neq i 0)) by lia. done.
    + apply Hoth; [|unfold ROOTINO; lia|done]. pose proof (fits_files _ Hfit). pose proof (lookup_lt_Some _ _ _ HL). lia.
    + pose proof (iw_dinode _ _ _ A3) as Hdok. by destruct D'.
Qed.

(** What the kernel reads of it. *)
Lemma finish_lock i ty c D' :
  L !! i = Some (ty, c) → ty ≠ FT_Empty → <[0%nat := D0']> Ds !! i = Some D' →
  ilock mkfs_sb 1 (Z.of_nat i + 1) (F, idata_new 1 (Z.of_nat i + 1)) = (Ok (), (F, node_ip i D')) ∧
  id_itype (node_ip i D') = ty ∧ id_nlink (node_ip i D') = 1 ∧ id_size (node_ip i D') = final_size i c ∧ inode_wf mkfs_sb F (node_ip i D') ∧
  ∀ o, 0 ≤ o < MAXBYTES → fbyte F (node_ip i D') o = default 0 (c !! Z.to_nat o).
Proof.
  intros HL Hty HD'. destruct (finish_node i ty c D' HL HD') as (D & HD & Had & Hnd & Hat1 & Hwd & Hdok & Hbytes).
  destruct (same_files d F (node_ip i D') (fi_disk _ _ _ _ Hinv) Hwd finish_data finish_used_same) as [Hsame HwF].
  split; [|split_and!; try (rewrite Hnd; done); [done|]].
  - assert (Hi : 0 ≤ Z.of_nat i + 1 < NINODES) by (pose proof (fits_files _ Hfit); pose proof (lookup_lt_Some _ _ _ HL); lia).
    unfold ilock. cbn [id_valid idata_new]. change (bs_read F ?a) with (dget F a). pose proof (mkfs_iblock _ Hi).
    rewrite finish_sect by lia. rewrite (inode_at_get m1 _ D' Hat1 Hdok). rewrite bool_decide_false; [done|]. by rewrite Hnd.
  - intros o Ho. rewrite (kept_fbyte d F) by done. by apply Hbytes.
Qed.

Lemma finish_apart i j D' E' :
  i ≠ j → <[0%nat := D0']> Ds !! i = Some D' → <[0%nat := D0']> Ds !! j = Some E' → apart F (node_ip i D') (node_ip j E').
Proof.
  intros Hne HD' HE'. assert (Hlen : ∀ k E, <[0%nat := D0']> Ds !! k = Some E → ∃ f, L !! k = Some f).
  { intros k E Hk%lookup_lt_Some. rewrite length_insert, (fi_nodes _ _ _ _ Hinv) in Hk. by apply lookup_lt_is_Some_2. }
  destruct (Hlen i D' HD') as [[ty c] HL], (Hlen j E' HE') as [[ty2 c2] HL2].
  destruct (finish_node i ty c D' HL HD') as (D & HD & Had & _ & _ & Hwd & _). destruct (finish_node j ty2 c2 E' HL2 HE') as (E & HE & Had2 & _ & _ & Hwe & _).
  destruct (same_files d F (node_ip i D') (fi_disk _ _ _ _ Hinv) Hwd finish_data finish_used_same) as [S1 _].
  destruct (same_files d F (node_ip j E') (fi_disk _ _ _ _ Hinv) Hwe finish_data finish_used_same) as [S2 _].
  intros p q Hp Hq. destruct (S1 p Hp) as [-> _], (S2 q Hq) as [-> _].
  rewrite (addr_at_addrs d (node_ip i D) (node_ip i D')), (addr_at_addrs d (node_ip j E) (node_ip j E')) by done.
  by apply (fi_apart _ _ _ _ Hinv i j D E Hne HD HE).
Qed.

Lemma finish_mounts : (∀ i ty c, L !! i = Some (ty, c) → ty ≠ FT_Empty) → mounts F L (imap node_ip (<[0%nat := D0']> Ds)).
Proof.
  intros Hty. split; [apply finish_super|apply finish_disk|by rewrite length_imap, length_insert, (fi_nodes _ _ _ _ Hinv)|..].
  - intros i ty c ip HL Hip. rewrite list_lookup_imap in Hip. apply fmap_Some in Hip as (D' & HD' & ->). apply finish_lock; eauto.
  - intros i j ip jp Hne Hip Hjp. rewrite list_lookup_imap in Hip, Hjp. apply fmap_Some in Hip as (D' & HD' & ->). apply fmap_Some in Hjp as (E' & HE' & ->).
    by apply finish_apart.
  - intros c Hc. pose proof (si_free _ _ (fi_sim _ _ _ _ Hinv)). pose proof (fi_block _ _ _ _ Hinv). change NMETA with 83 in *.
    destruct (finish_used c) as [-> _]; [lia|]. apply Z.ltb_ge. lia.
Qed.
End finish.

Lemma finish_spec m L d Ds ty0 c0 :
  fs_inv m L d Ds → fits L → L !! 0%nat = Some (ty0, c0) → (∀ i ty c, L !! i = Some (ty, c) → ty ≠ FT_Empty) →
  ∃ m' ips, finish_image ROOTINO m = (Ok (), m') ∧ mounts (sects m') L ips.
Proof.
  intros Hinv Hfit H0 Hty. destruct (lookup_lt_is_Some_2 Ds 0) as [D0 HD0]; [rewrite (fi_nodes _ _ _ _ Hinv); by eapply lookup_lt_Some|].
  pose proof (fi_sim _ _ _ _ Hinv) as Hs. destruct (fi_node _ _ _ _ Hinv 0%nat ty0 c0 D0 H0 HD0) as [Hat Hnode Hw _ _ Hmax].
  change (Z.of_nat 0 + 1) with ROOTINO in Hat.
  assert (HR : 0 ≤ final_size 0 c0 < 2 ^ 32).
  { unfold final_size, MAXBYTES in *. simpl. pose proof (Z.div_mod (Z.of_nat (length c0)) 1024). pose proof (Z.mod_pos_bound (Z.of_nat (length c0)) 1024). lia. }
  assert (Hok : dinode_ok (node ty0 (final_size 0 c0) (di_addrs D0))) by (by eapply node_dinode_ok).
  assert (Hok0 : dinode_ok D0) by (pose proof (iw_dinode _ _ _ Hw) as Hdok; by destruct D0).
  assert (Hin : 0 ≤ ROOTINO < NINODES) by (unfold ROOTINO, NINODES; lia).
  destruct (winode_ok m ROOTINO _ (si_image _ _ Hs) Hin Hok) as (x & Hwr & Him & Hat' & Hoth).
  eexists _, _. split.
  { unfold finish_image. erewrite bind_ok; [|apply rinode_ok; [apply Hs|done|exact Hat|done]].
  replace (r_size (raw_of D0)) with (Z.of_nat (length c0)) by (by rewrite Hnode). unfold u32. rewrite wrap_small by done.
  replace (with_raw_size ((Z.of_nat (length c0) / 1024 + 1) * 1024) (raw_of D0)) with (raw_of (node ty0 (final_size 0 c0) (di_addrs D0)))
    by (rewrite Hnode; done).
  erewrite bind_ok; [|exact Hwr]. reflexivity. }
  cbn [sects]. by apply (finish_mounts m L d Ds ty0 c0 D0).
Qed.

Lemma layout_types files i ty c : layout files !! i = Some (ty, c) → ty ≠ FT_Empty.
Proof.
  unfold layout. assert (H0 : Forall (λ f : FileSpec, f.1 ≠ FT_Empty) skeleton) by (repeat constructor; done).
  intros Hl. revert Hl H0. generalize skeleton as L. revert i. induction files as [|f files IH]; intros i L Hl H0; simpl in Hl.
  - rewrite Forall_lookup in H0. by apply (H0 i _ Hl).
  - apply (IH _ _ Hl). assert (Hap : ∀ k data (M : list FileSpec), Forall (λ f : FileSpec, f.1 ≠ FT_Empty) M → Forall (λ f : FileSpec, f.1 ≠ FT_Empty) (append_file k data M)).
    { intros k data M HM. apply Forall_alter; [done|]. intros [] _. done. }
    unfold new_file, link_entry. apply Hap, Hap. apply Forall_app. split; [done|]. by repeat constructor.
Qed.

Lemma layout_root files : ∃ ty c, layout files !! 0%nat = Some (ty, c).
Proof.
  assert (H : (0 < length (layout files))%nat).
  { unfold layout. generalize (eq_refl : (0 <? length skeleton)%nat = true). generalize skeleton as L.
    induction files as [|f files IH]; intros L HL; simpl; [by apply Nat.ltb_lt|]. apply IH. apply Nat.ltb_lt. rewrite length_new_file. lia. }
  destruct (lookup_lt_is_Some_2 _ _ H) as [[ty c] E]. by exists ty, c.
Qed.

(** C13: The image that mkfs writes is one the kernel can mount.  For any
    files with names that fit, as long as the blocks they need (data and index
    blocks) and the inodes are there, mkfs succeeds, and on its image the kernel
    finds: the superblock; a well-formed disk whose bitmap leaves the blocks
    after the last file free; and for every inode, by its own [ilock], the
    directory or file that [layout] lists, with its size (the root directory's
    rounded up to whole blocks), one link, a well-formed block map, exactly its
    bytes and zeros after them; no block is in two files. *)
Theorem mkfs_mountable files :
  Forall name_ok files → fits (layout files) →
  ∃ m ips, mkfs files FsImg_new = (Ok (), m) ∧ mounts (sects m) (layout files) ips.
Proof.
  intros Hn Hf. destruct (zero_loop (seqZ 0 FSSIZE) FsImg_new) as (m0 & E0 & Hz & Hi & Hb & Hl & Hall); [done| |].
  { apply Forall_forall. intros c Hc%elem_of_seqZ. lia. }
  assert (Him : image_ok m0).
  { split; [intros c; rewrite Hz; unfold zero_block; apply length_replicate|].
    assert (Hlast : FSSIZE - 1 ∈ seqZ 0 FSSIZE) by (apply elem_of_seqZ; unfold FSSIZE; lia). specialize (Hall _ Hlast). lia. }
  destruct (wsect_ok m0 1 sb_block Him) as [E1 Him1]; [unfold FSSIZE; lia|apply sb_block_length|].
  assert (Hst : fs_inv (put_sect 1 sb_block m0) [] start_disk []).
  { apply empty_image_inv; [done| |done|done]. intros c. rewrite sect_put, Hz. done. }
  destruct (proj2 (builds_image files Hn) _ _ _ Hst Hf) as (m2 & d2 & Ds2 & E2 & Hinv).
  destruct (layout_root files) as (ty & c & Hroot).
  destruct (finish_spec m2 (layout files) d2 Ds2 ty c Hinv Hf Hroot (layout_types files)) as (m3 & ips & E3 & Hm).
  exists m3, ips. split; [|done]. unfold mkfs.
  rewrite (bind_ok _ _ _ _ _ E0), (bind_ok _ _ _ _ _ E1), (bind_ok _ _ _ _ _ E2). exact E3.
Qed.

(** Two programs, one of them [init], which goes to the root directory. *)
Definition demo_files : list HostFile :=
  [mkHostFile [95; 105; 110; 105; 116] (Some BIN) [replicate 1024 7; replicate 100 8]; mkHostFile [99; 97; 116] (Some BIN) [[1; 2; 3]]].

Lemma mkfs_mountable_witness :
  Forall name_ok demo_files ∧ fits (layout demo_files) ∧
  ∃ m ips, mkfs demo_files FsImg_new = (Ok (), m) ∧ mounts (sects m) (layout demo_files) ips.
Proof.
  assert (Hn : Forall name_ok demo_files) by (repeat constructor; unfold name_ok; simpl; lia).
  assert (Hf : fits (layout demo_files)).
  { split; [vm_compute; congruence|]. split; [vm_compute; reflexivity|]. apply Forall_lookup_2. intros i f Hi.
    assert (Hall : forallb (λ f : FileSpec, Z.of_nat (length f.2) <=? MAXBYTES) (layout demo_files) = true) by (vm_compute; reflexivity).
    rewrite forallb_forall in Hall. apply Z.leb_le, Hall, list_elem_of_In, (list_elem_of_lookup_2 _ _ _ Hi). }
  split; [exact Hn|]. split; [exact Hf|]. exact (mkfs_mountable demo_files Hn Hf).
Defined.

(** Past [LIMIT] blocks the bitmap buffer, which has a byte and not a bit for
    each, runs into the data: the first block of the first file, the root
    directory, is cleared. *)
Lemma bitmap_overrun m used j b :
  image_ok m → 0 ≤ j < 1024 → 0 ≤ b < 8 → LIMIT + j < used ≤ FSSIZE →
  ∃ m', mkfs_balloc used m = (Ok (), m') ∧ Z.testbit (default 0 (sect m' NMETA !! Z.to_nat j)) b = false.
Proof.
  intros Hm Hj Hb Hu. unfold LIMIT in Hu. change (NBITMAP * 1024) with 25600 in Hu. unfold FSSIZE in Hu.
  eexists. split; [reflexivity|]. cbn [sects]. rewrite put_span_get by done.
  destruct (bitmap_bytes_spec used (25600 + j) b) as [Hlen Hbit]; [lia..|].
  change (sb_bmapstart mkfs_sb) with 58. change NMETA with 83. rewrite decide_True by lia. unfold write_at. rewrite take_0, app_nil_l.
  rewrite lookup_app_l by (rewrite length_take, length_drop; unfold BSIZE; lia).
  rewrite lookup_take_lt by (unfold BSIZE; lia). rewrite lookup_drop.
  replace (Z.to_nat ((83 - 58) * 1024) + Z.to_nat j)%nat with (Z.to_nat (25600 + j)) by lia. rewrite Hbit. apply Z.ltb_ge. lia.
Qed.
