(* ===== verification/UMalloc.v ===== *)
(** * The allocator of user programs

    [user/src/lib/umalloc.rs]: a circular list of free blocks in order of
    address, first fit from where the last search stopped, merging of
    neighbours on [free].  Memory is the map of the headers the allocator has
    written; a header is 16 bytes and sizes count headers.  [sbrk] returns the
    old end of the heap, or fails when [grow] says so. *)

From stdpp Require Import base tactics numbers gmap list.
From S2P Require Import Prelude Errors.
Local Open Scope Z_scope.

(** [struct Header]. *)
Record Header := mkHeader { ptr : option Z; hsize : Z }.

(** [struct Allocator]; [base] is at a fixed address. *)
Record Heap := mkHeap { freep : option Z; hdrs : gmap Z Header; brk : Z }.
Abbreviation UA := (M Error Heap).

Section umalloc.
Context (base : Z) (grow : Z → Z → bool).

(** Reading and writing headers; memory that never held one is not read. *)
Definition load (a : Z) : UA Header := λ h, match hdrs h !! a with Some x => (Ok x, h) | None => (Panic, h) end.
Definition next (a : Z) : UA Z := x ← load a; match ptr x with Some p => mret p | None => m_panic end.
Definition put_header (a : Z) (x : Header) : UA () := λ h, (Ok (), mkHeap (freep h) (<[a := x]> (hdrs h)) (brk h)).
Definition set_ptr (a : Z) (p : Z) : UA () := x ← load a; put_header a (mkHeader (Some p) (hsize x)).
(** The size of a header whose other field may be anything. *)
Definition set_hsize (a : Z) (n : Z) : UA () := λ h, put_header a (mkHeader (hdrs h !! a ≫= ptr) n) h.
Definition get_freep : UA Z := λ h, match freep h with Some p => (Ok p, h) | None => (Panic, h) end.
Definition set_freep (p : Z) : UA () := λ h, (Ok (), mkHeap (Some p) (hdrs h) (brk h)).

Definition sbrk (n : Z) : UA Z := λ h, if grow (brk h) n then (Ok (brk h), mkHeap (freep h) (hdrs h) (brk h + n)) else (Err OutOfMemory, h).

(** The loop of [free]: the block to insert after. *)
Fixpoint free_loop (fuel : nat) (bp p : Z) : UA Z :=
  match fuel with
  | O => m_panic
  | S fuel =>
      nx ← next p;
      if (p <? bp) && (bp <? nx) then mret p
      else if (nx <=? p) && ((p <? bp) || (bp <? nx)) then mret p
      else free_loop fuel bp nx
  end.

Definition free (ap : Z) : UA () :=
  let bp := ap - 16 in
  p ← get_freep;
  h ← m_get;
  p ← free_loop (S (size (hdrs h))) bp p;
  b ← load bp;
  nx ← next p;
  _ ← (if bp + 16 * hsize b =? nx then
         x ← load nx;
         _ ← set_hsize bp (hsize b + hsize x);
         p' ← next nx; set_ptr bp p'
       else set_ptr bp nx);
  x ← load p;
  b ← load bp;
  _ ← (if p + 16 * hsize x =? bp then
         _ ← set_hsize p (hsize x + hsize b);
         p' ← next bp; set_ptr p p'
       else set_ptr p bp);
  set_freep p.

(** [None]: no more memory. *)
Definition morecore (nu : Z) : UA (option Z) := λ h,
  let nu := Z.max nu 4096 in
  match sbrk (nu * 16) h with
  | (Ok p, h) =>
      (if p =? 0 then m_panic
       else _ ← set_hsize p nu; _ ← free (p + 16); f ← get_freep; mret (Some f)) h
  | (Err _, h) => (Ok None, h)
  | (Panic, h) => (Panic, h)
  end.

(** Serving a request from the free block [p], whose header is [x]. *)
Definition take (nunits prevp p : Z) (x : Header) : UA (option Z) :=
  q ← (if hsize x =? nunits then nx ← next p; _ ← set_ptr prevp nx; mret p
       else
         _ ← set_hsize p (hsize x - nunits);
         let q := p + 16 * (hsize x - nunits) in
         _ ← set_hsize q nunits; mret q);
  _ ← set_freep prevp;
  mret (Some (q + 16)).

(** The loop of [alloc]: the address handed out, or [None] for null. *)
Fixpoint alloc_loop (fuel : nat) (nunits prevp p : Z) : UA (option Z) :=
  match fuel with
  | O => m_panic
  | S fuel =>
      x ← load p;
      if nunits <=? hsize x then take nunits prevp p x
      else
        f ← get_freep;
        r ← (if p =? f then morecore nunits else mret (Some p));
        match r with
        | None => mret None
        | Some p => nx ← next p; alloc_loop fuel nunits p nx
        end
  end.

Definition alloc (nbytes : Z) : UA (option Z) :=
  let nunits := (nbytes + 16 - 1) / 16 + 1 in
  if USIZE_MAX <? nbytes + 16 then m_panic
  else
    h ← m_get;
    prevp ← match freep h with
            | Some p => mret p
            | None => _ ← set_freep base; _ ← put_header base (mkHeader (Some base) 0); mret base
            end;
    p ← next prevp;
    h ← m_get;
    alloc_loop (2 * size (hdrs h) + 4) nunits prevp p.
End umalloc.

(** * The user allocator hands out disjoint memory

    The invariant of the heap of [UMalloc]: the free list is a ring in order
    of address through the header in [base], no two free blocks touch, and the
    free blocks with the blocks the program holds tile the memory obtained
    from the kernel exactly.  Every sequence of calls keeps it, whatever the
    program writes into its blocks. *)

(** A block: the address of its header and its size, in headers. *)
Abbreviation blk := (Z * Z)%type.

Definition first (l : list blk) (q : Z) : Z := match l with [] => q | (a, _) :: _ => a end.
Definition final (l : list blk) (q : Z) : Z := match last l with Some b => b.1 | None => q end.

(** The headers of [l], each pointing to the next and the last to [q]. *)
Fixpoint seg (m : gmap Z Header) (l : list blk) (q : Z) : Prop :=
  match l with
  | [] => True
  | (a, n) :: l => m !! a = Some (mkHeader (Some (first l q)) n) ∧ seg m l q
  end.

(** In order of address, with a gap between any two. *)
Fixpoint apart (l : list blk) : Prop :=
  match l with
  | [] => True
  | (a, n) :: l => Forall (λ b, a + 16 * n < b.1) l ∧ apart l
  end.

Section lists.
Implicit Types (l : list blk) (m : gmap Z Header).

Lemma first_app l1 l2 q : first (l1 ++ l2) q = first l1 (first l2 q).
Proof. by destruct l1 as [|[]]. Qed.

Lemma final_app l x : ∀ q, final (l ++ [x]) q = x.1.
Proof. intros. unfold final. by rewrite last_snoc. Qed.

Lemma seg_app m l1 l2 q : seg m (l1 ++ l2) q ↔ seg m l1 (first l2 q) ∧ seg m l2 q.
Proof. induction l1 as [|[a n] l1 IH]; simpl; [tauto|]. rewrite IH, first_app. tauto. Qed.

Lemma seg_ext m m' l q : (∀ a n, (a, n) ∈ l → m' !! a = m !! a) → seg m l q → seg m' l q.
Proof.
  induction l as [|[a n] l IH]; simpl; [done|]. intros Hm [Ha Hs]. split.
  - rewrite (Hm a n); [done|left].
  - apply IH; [|done]. intros b k Hb. apply (Hm b k). by right.
Qed.

Lemma seg_insert m l q a x : a ∉ l.*1 → seg m l q → seg (<[a := x]> m) l q.
Proof.
  intros Ha. apply seg_ext. intros b n Hb. apply lookup_insert_ne. intros ->.
  apply Ha, list_elem_of_fmap. by exists (b, n).
Qed.

Lemma seg_size m l q a n : seg m l q → (a, n) ∈ l → ∃ p, m !! a = Some (mkHeader p n).
Proof.
  induction l as [|[b k] l IH]; simpl; [set_solver|]. intros [Hb Hs] [[= -> ->]|Hin]%elem_of_cons; eauto.
Qed.

Lemma apart_app l1 l2 :
  apart (l1 ++ l2) ↔ apart l1 ∧ apart l2 ∧ (∀ a n b k, (a, n) ∈ l1 → (b, k) ∈ l2 → a + 16 * n < b).
Proof.
  induction l1 as [|[a n] l1 IH]; simpl; [set_solver|]. rewrite IH, Forall_app, !Forall_forall. split.
  - intros ((H1 & H2) & H3 & H4 & H5). split_and!; [done..|].
    intros a' n' b k [[= -> ->]|Hin]%elem_of_cons Hb; [by apply (H2 (b, k))|eauto].
  - intros ((H1 & H2) & H3 & H4). split_and!; [done| |done|done|].
    + intros [b k] Hb. apply (H4 a n b k); [left|done].
    + intros. eapply H4; [by right|done].
Qed.

Lemma apart_NoDup l : Forall (λ b, 0 ≤ b.2) l → apart l → NoDup l.*1.
Proof.
  induction l as [|[a n] l IH]; simpl; [constructor|]. rewrite !Forall_cons. intros [Hn Hl] [Hf Hs].
  constructor; [|by apply IH]. simpl in Hn. intros ([b k] & -> & Hb)%list_elem_of_fmap.
  rewrite Forall_forall in Hf. specialize (Hf _ Hb). simpl in Hf. lia.
Qed.

Lemma seg_length m l q : NoDup l.*1 → seg m l q → (length l ≤ size m)%nat.
Proof.
  revert m. induction l as [|[a n] l IH]; intros m; simpl; [lia|].
  intros [Ha Hl]%NoDup_cons [Hm Hs]. rewrite <- (insert_delete_id m a _ Hm).
  rewrite map_size_insert_None by apply lookup_delete_eq. apply le_n_S, IH; [done|].
  eapply seg_ext; [|exact Hs]. intros b k Hb. apply lookup_delete_ne. intros ->.
  apply Ha, list_elem_of_fmap. by exists (b, k).
Qed.
End lists.

(** ** The walk of [free] *)
Section walk.
Context (base : Z).
Implicit Types (l : list blk) (h : Heap).

Lemma load_ok h a x : hdrs h !! a = Some x → load a h = (Ok x, h).
Proof. unfold load. by intros ->. Qed.

Lemma next_ok h a p n : hdrs h !! a = Some (mkHeader (Some p) n) → next a h = (Ok p, h).
Proof. intros Ha. unfold next. by rewrite (bind_ok _ _ _ _ _ (load_ok _ _ _ Ha)). Qed.

Lemma next_seg h a n l q : seg (hdrs h) ((a, n) :: l) q → next a h = (Ok (first l q), h).
Proof. intros [Ha _]. by eapply next_ok. Qed.

Lemma walk_up h bp p n l2 : p < bp → base ≤ p → Forall (λ b, bp < b.1) l2 → ∀ mid fuel,
  seg (hdrs h) (mid ++ (p, n) :: l2) base → apart (mid ++ (p, n) :: l2) → Forall (λ b, 0 ≤ b.2) mid →
  (length mid < fuel)%nat → free_loop fuel bp (first mid p) h = (Ok p, h).
Proof.
  intros Hp Hbase H2 mid. induction mid as [|[a k] mid IH]; intros fuel Hs Hap Hk Hf; (destruct fuel as [|fuel]; [simpl in Hf; lia|]); cbn [free_loop first].
  - rewrite (bind_ok _ _ _ _ _ (next_seg _ _ _ _ _ Hs)). destruct l2 as [|[b j] l2]; cbn [first].
    + replace (base <=? p) with true by lia. replace (p <? bp) with true by lia. by destruct (bp <? base).
    + apply Forall_cons in H2 as [Hb _]. simpl in Hb. replace (p <? bp) with true by lia. by replace (bp <? b) with true by lia.
  - rewrite (bind_ok _ _ _ _ _ (next_seg _ _ _ _ _ Hs)). rewrite first_app. cbn [first].
    destruct Hap as [Ha Hap], Hs as [_ Hs]. apply Forall_cons in Hk as [Hk0 Hk]. simpl in Hk0, Hf.
    assert (a < first mid p ≤ p) as [Hlt Hle].
    { rewrite Forall_app, Forall_cons in Ha. destruct Ha as (Ha1 & Ha2 & _). simpl in Ha2. destruct mid as [|[c j] mid]; simpl; [lia|].
      apply Forall_cons in Ha1 as [Hc _]. simpl in Hc. split; [lia|]. rewrite <- app_comm_cons in Hap.
      destruct Hap as [Hap _]. rewrite Forall_app, Forall_cons in Hap. destruct Hap as (_ & Hcp & _). simpl in Hcp.
      apply Forall_cons in Hk as [Hj _]. simpl in Hj. lia. }
    replace (bp <? first mid p) with false by lia. rewrite andb_false_r, orb_false_r.
    replace (first mid p <=? a) with false by lia. apply IH; [done|done|done|lia].
Qed.

Lemma walk_over h bp : base < bp → ∀ l2 fuel,
  seg (hdrs h) l2 base → apart l2 → Forall (λ b, bp < b.1 ∧ 0 ≤ b.2) l2 →
  free_loop (length l2 + fuel) bp (first l2 base) h = free_loop fuel bp base h.
Proof.
  intros Hbase l2. induction l2 as [|[a k] l2 IH]; intros fuel Hs Hap H2; [done|]. cbn [length plus free_loop first].
  rewrite (bind_ok _ _ _ _ _ (next_seg _ _ _ _ _ Hs)). destruct Hap as [Ha Hap], Hs as [_ Hs].
  apply Forall_cons in H2 as [[Hb Hk] H2]. simpl in Hb, Hk. replace (a <? bp) with false by lia. simpl.
  destruct l2 as [|[c j] l2]; [|].
  - cbn [first]. replace (bp <? base) with false by lia. by rewrite andb_false_r.
  - cbn [first]. apply Forall_cons in Ha as [Hc _]. simpl in Hc. replace (c <=? a) with false by lia. by apply IH.
Qed.

(** From any block of the ring the walk stops after the last one before
    [bp]. *)
Lemma free_loop_spec h bp f fuel l1 p n l2 :
  seg (hdrs h) (l1 ++ (p, n) :: l2) base → first (l1 ++ (p, n) :: l2) base = base → apart (l1 ++ (p, n) :: l2) →
  Forall (λ b, 0 ≤ b.2) (l1 ++ (p, n) :: l2) → p < bp → Forall (λ b, bp < b.1) l2 →
  f ∈ (l1 ++ (p, n) :: l2).*1 → (length (l1 ++ (p, n) :: l2) ≤ fuel)%nat →
  free_loop fuel bp f h = (Ok p, h).
Proof.
  intros Hs Hf Hap Hk Hp H2 Hin Hfuel.
  assert (base ≤ p) as Hbp.
  { destruct l1 as [|[a k] l1]; simpl in *; subst; [lia|]. destruct Hap as [Ha _]. rewrite Forall_forall in Ha.
    assert ((p, n) ∈ l1 ++ (p, n) :: l2) as Hi by set_solver. specialize (Ha _ Hi). apply Forall_cons in Hk as [Hk _]. simpl in *. lia. }
  rewrite length_app in Hfuel. simpl in Hfuel. rewrite fmap_app, fmap_cons in Hin. apply Forall_app in Hk as [Hk1 Hk2].
  apply elem_of_app in Hin as [Hin|Hin].
  - apply list_elem_of_fmap in Hin as ([a k] & -> & Hin). apply list_elem_of_split in Hin as (u & v & ->).
    rewrite <- app_assoc in Hs, Hap. apply seg_app in Hs as [_ Hs]. apply apart_app in Hap as (_ & Hap & _).
    apply Forall_app in Hk1 as [_ Hk1]. rewrite length_app in Hfuel.
    apply (walk_up h bp p n l2 Hp Hbp H2 ((a, k) :: v)); [done..|simpl in *; lia].
  - apply elem_of_cons in Hin as [->|Hin].
    + apply seg_app in Hs as [_ Hs]. apply apart_app in Hap as (_ & Hap & _).
      apply (walk_up h bp p n l2 Hp Hbp H2 []); [done..|simpl; lia].
    + apply list_elem_of_fmap in Hin as ([a k] & -> & Hin). apply list_elem_of_split in Hin as (u & v & ->).
      rewrite length_app in Hfuel. simpl in Hfuel.
      assert (Hs' := Hs). assert (Hap' := Hap).
      rewrite app_comm_cons, app_assoc in Hs', Hap'. apply seg_app in Hs' as [_ Hs']. apply apart_app in Hap' as (_ & Hap' & _).
      apply Forall_app in H2 as Huv. destruct Huv as [_ Hv]. apply Forall_cons in Hk2 as [_ Hk2]. apply Forall_app in Hk2 as [_ Hkv].
      assert (fuel = length ((a, k) :: v) + (fuel - length ((a, k) :: v)))%nat as -> by (simpl; lia).
      rewrite (walk_over h bp ltac:(lia) ((a, k) :: v)); [|done|done|by apply Forall_and].
      rewrite <- Hf at 1. rewrite first_app. apply (walk_up h bp p n _ Hp Hbp H2); [done..|simpl; lia].
Qed.
End walk.

(** ** Tilings *)
Definition covers (b : blk) (x : Z) : Z := if decide (b.1 ≤ x < b.1 + 16 * b.2) then 1 else 0.
Fixpoint cov (l : list blk) (x : Z) : Z := match l with [] => 0 | b :: l => covers b x + cov l x end.

Lemma covers_cases b x : (covers b x = 1 ∧ b.1 ≤ x < b.1 + 16 * b.2) ∨ (covers b x = 0 ∧ ¬ (b.1 ≤ x < b.1 + 16 * b.2)).
Proof. unfold covers. case_decide; auto. Qed.

(** Arithmetic on the number of blocks that hold a byte. *)
Ltac cov_lia :=
  repeat match goal with
  | |- context [covers ?b ?x] => let H := fresh in pose proof (covers_cases b x) as H; generalize dependent (covers b x); intros; simpl in *
  | H : context [covers ?b ?x] |- _ => let H' := fresh in pose proof (covers_cases b x) as H'; generalize dependent (covers b x); intros; simpl in *
  end; simpl in *; lia.

Lemma cov_app l1 l2 x : cov (l1 ++ l2) x = cov l1 x + cov l2 x.
Proof. induction l1 as [|b l1 IH]; simpl; [done|]. rewrite IH. lia. Qed.

Lemma cov_nonneg l x : 0 ≤ cov l x.
Proof. induction l as [|b l IH]; simpl; [done|]. cov_lia. Qed.

Lemma cov_elem l b x : b ∈ l → covers b x ≤ cov l x.
Proof.
  intros (u & v & ->)%list_elem_of_split. rewrite cov_app. simpl.
  pose proof (cov_nonneg u x). pose proof (cov_nonneg v x). lia.
Qed.

Definition disjoint_blk (a n b k : Z) : Prop := a + 16 * n ≤ b ∨ b + 16 * k ≤ a.

(** Blocks of a tiling do not overlap. *)
Lemma cov_disjoint l1 l2 a n b k : (∀ x, cov (l1 ++ l2) x ≤ 1) → 0 < n → 0 < k →
  (a, n) ∈ l1 → (b, k) ∈ l2 → disjoint_blk a n b k.
Proof.
  intros Hc Hn Hk Ha Hb. specialize (Hc (Z.max a b)). rewrite cov_app in Hc.
  pose proof (cov_elem _ _ (Z.max a b) Ha). pose proof (cov_elem _ _ (Z.max a b) Hb).
  unfold disjoint_blk. cov_lia.
Qed.

(** Where a block belongs in the ring. *)
Lemma split_at b l : ∀ c j, c < b → apart ((c, j) :: l) → Forall (λ x, 0 ≤ x.2 ∧ x.1 ≠ b) l →
  ∃ l1 p n l2, (c, j) :: l = l1 ++ (p, n) :: l2 ∧ p < b ∧ Forall (λ x, b < x.1) l2.
Proof.
  induction l as [|[a n] l IH]; intros c j Hc Hap Hl; [by exists [], c, j, []|].
  apply Forall_cons in Hl as [[Hn Ha] Hl]. destruct Hap as [_ Hap]. simpl in Hn, Ha.
  destruct (decide (a < b)).
  - destruct (IH a n) as (l1 & p & k & l2 & -> & ? & ?); [done..|]. by exists ((c, j) :: l1), p, k, l2.
  - exists [], c, j, ((a, n) :: l). split_and!; [done..|]. apply Forall_cons. split; [simpl; lia|].
    destruct Hap as [Hap _]. eapply Forall_impl; [exact Hap|]. simpl. lia.
Qed.

(** ** [free] *)
Definition upd (a : Z) (x : Header) (h : Heap) : Heap := mkHeap (freep h) (<[a := x]> (hdrs h)) (brk h).

Lemma set_ptr_ok h a p x : hdrs h !! a = Some x → set_ptr a p h = (Ok (), upd a (mkHeader (Some p) (hsize x)) h).
Proof. intros Ha. unfold set_ptr. by rewrite (bind_ok _ _ _ _ _ (load_ok _ _ _ Ha)). Qed.

Lemma set_hsize_ok h a p k n : hdrs h !! a = Some (mkHeader p k) → set_hsize a n h = (Ok (), upd a (mkHeader p n) h).
Proof. intros Ha. unfold set_hsize, put_header, upd. by rewrite Ha. Qed.

Lemma upd_upd a x y h : upd a y (upd a x h) = upd a y h.
Proof. unfold upd. simpl. by rewrite insert_insert_eq. Qed.

(** The freed block with the free block above it, when they touch. *)
Definition join_up (b k : Z) (l2 : list blk) : Z * list blk :=
  match l2 with
  | (a, n) :: l2' => if b + 16 * k =? a then (k + n, l2') else (k, l2)
  | [] => (k, [])
  end.
(** And with the one below. *)
Definition join_down (p n b k : Z) (l2 : list blk) : list blk :=
  if p + 16 * n =? b then (p, n + k) :: l2 else (p, n) :: (b, k) :: l2.

Definition freed (l1 : list blk) (p n b k : Z) (l2 : list blk) : list blk :=
  l1 ++ join_down p n b (join_up b k l2).1 (join_up b k l2).2.

Section free.
Context (base : Z).
Implicit Types (l : list blk) (h : Heap).

Lemma run_join_up h b r k l2 : base < b + 16 * k → hdrs h !! b = Some (mkHeader r k) → seg (hdrs h) l2 base → b ∉ l2.*1 →
  (if b + 16 * k =? first l2 base then
     x ← load (first l2 base);
     _ ← set_hsize b (k + hsize x);
     p' ← next (first l2 base); set_ptr b p'
   else set_ptr b (first l2 base)) h
  = (Ok (), upd b (mkHeader (Some (first (join_up b k l2).2 base)) (join_up b k l2).1) h).
Proof.
  intros Hb Hh Hs Hn. destruct l2 as [|[a n] l2]; cbn [first join_up].
  - replace (b + 16 * k =? base) with false by lia. by apply set_ptr_ok with (x := mkHeader r k).
  - rewrite fmap_cons, not_elem_of_cons in Hn. destruct Hn as [Hne _]. simpl in Hne.
    destruct (b + 16 * k =? a); [|by apply set_ptr_ok with (x := mkHeader r k)]. destruct Hs as [Ha Hs].
    rewrite (bind_ok _ _ _ _ _ (load_ok _ _ _ Ha)). rewrite (bind_ok _ _ _ _ _ (set_hsize_ok _ _ _ _ _ Hh)). cbn [hsize].
    erewrite bind_ok; [|apply next_ok with (n := n); unfold upd; cbn [hdrs]; rewrite lookup_insert_ne by done; exact Ha].
    rewrite set_ptr_ok with (x := mkHeader r (k + n)); [by rewrite upd_upd|]. unfold upd; cbn [hdrs]. apply lookup_insert_eq.
Qed.

Lemma run_join_down h p n q b k nx : p ≠ b →
  hdrs h !! p = Some (mkHeader q n) → hdrs h !! b = Some (mkHeader (Some nx) k) →
  (if p + 16 * n =? b then
     _ ← set_hsize p (n + k);
     p' ← next b; set_ptr p p'
   else set_ptr p b) h
  = (Ok (), if p + 16 * n =? b then upd p (mkHeader (Some nx) (n + k)) h else upd p (mkHeader (Some b) n) h).
Proof.
  intros Hne Hp Hb. destruct (p + 16 * n =? b); [|by apply set_ptr_ok with (x := mkHeader q n)].
  rewrite (bind_ok _ _ _ _ _ (set_hsize_ok _ _ _ _ _ Hp)).
  erewrite bind_ok; [|apply next_ok with (n := k); unfold upd; cbn [hdrs]; rewrite lookup_insert_ne by done; exact Hb].
  rewrite set_ptr_ok with (x := mkHeader q (n + k)); [by rewrite upd_upd|]. unfold upd; cbn [hdrs]. apply lookup_insert_eq.
Qed.

(** The ring [free] works on, and where the block goes. *)
Record place (m : gmap Z Header) (l1 : list blk) (p n b : Z) (l2 : list blk) : Prop := {
  pl_seg : seg m (l1 ++ (p, n) :: l2) base;
  pl_first : first (l1 ++ (p, n) :: l2) base = base;
  pl_apart : apart (l1 ++ (p, n) :: l2);
  pl_size : Forall (λ x, 0 ≤ x.2) (l1 ++ (p, n) :: l2);
  pl_below : p < b;
  pl_above : Forall (λ x, b < x.1) l2 }.

Lemma place_fresh m l1 p n b l2 : place m l1 p n b l2 → (p ∉ l1.*1) ∧ (p ∉ l2.*1) ∧ (b ∉ l1.*1) ∧ (b ∉ l2.*1).
Proof.
  intros []. assert (NoDup (l1 ++ (p, n) :: l2).*1) as Hnd by by apply apart_NoDup.
  rewrite fmap_app, fmap_cons in Hnd. apply NoDup_app in Hnd as (_ & Hd & [Hp _]%NoDup_cons). simpl in *.
  split_and!; [intros Hin; by apply (Hd p Hin); left|done| |].
  - intros ([a k] & -> & Hin)%list_elem_of_fmap. apply apart_app in pl_apart0 as (_ & _ & Hlt). simpl in *.
    specialize (Hlt a k p n Hin ltac:(left)). apply Forall_app in pl_size0 as [Hs _]. rewrite Forall_forall in Hs.
    specialize (Hs _ Hin). simpl in Hs. lia.
  - intros ([a k] & -> & Hin)%list_elem_of_fmap. rewrite Forall_forall in pl_above0. specialize (pl_above0 _ Hin). simpl in *. lia.
Qed.

Lemma place_base m l1 p n b l2 : place m l1 p n b l2 → base < b.
Proof.
  intros []. destruct l1 as [|[a k] l1]; simpl in *; [lia|]. subst. destruct pl_apart0 as [Ha _]. apply Forall_cons in pl_size0 as [Hk _].
  rewrite Forall_app, Forall_cons in Ha. simpl in *. lia.
Qed.

Lemma join_up_sub b k l2 x : x ∈ (join_up b k l2).2 → x ∈ l2.
Proof. destruct l2 as [|[a n] l2]; simpl; [done|]. case_match; simpl; [by right|done]. Qed.

Lemma seg_freed m l1 p n b k l2 : place m l1 p n b l2 →
  let '(k', l2') := join_up b k l2 in
  let m1 := <[b := mkHeader (Some (first l2' base)) k']> m in
  seg (if p + 16 * n =? b then <[p := mkHeader (Some (first l2' base)) (n + k')]> m1
       else <[p := mkHeader (Some b) n]> m1) (freed l1 p n b k l2) base.
Proof.
  intros Hpl. destruct (place_fresh _ _ _ _ _ _ Hpl) as (Hp1 & Hp2 & Hb1 & Hb2). destruct Hpl.
  unfold freed. destruct (join_up b k l2) as [k' l2'] eqn:Hj. cbn [fst snd].
  assert (∀ x, x ∈ l2' → x ∈ l2) as Hsub by (intros x Hx; apply (join_up_sub b k); by rewrite Hj).
  assert (p ∉ l2'.*1) as Hp2' by set_solver. assert (b ∉ l2'.*1) as Hb2' by set_solver.
  apply seg_app in pl_seg0 as [Hs1 [Hp Hs2]]. cbn [first] in Hs1.
  assert (seg m l2' base) as Hs2'.
  { destruct l2 as [|[a j] l2]; simpl in Hj; [by simplify_eq|]. case_match; simplify_eq; [apply Hs2|done]. }
  unfold join_down. destruct (p + 16 * n =? b) eqn:Hm; apply seg_app; cbn [first seg].
  - split; [by do 2 (apply seg_insert; [done|])|]. split; [by rewrite lookup_insert_eq|]. by do 2 (apply seg_insert; [done|]).
  - split; [by do 2 (apply seg_insert; [done|])|]. split_and!; [by rewrite lookup_insert_eq| |by do 2 (apply seg_insert; [done|])].
    rewrite lookup_insert_ne by lia. by rewrite lookup_insert_eq.
Qed.

Lemma free_run h f l1 p n b r k l2 : place (hdrs h) l1 p n b l2 → 0 < k →
  hdrs h !! b = Some (mkHeader r k) → freep h = Some f → f ∈ (l1 ++ (p, n) :: l2).*1 →
  ∃ m', free (b + 16) h = (Ok (), mkHeap (Some p) m' (brk h)) ∧ seg m' (freed l1 p n b k l2) base ∧
    (∀ a, a ≠ p → a ≠ b → m' !! a = hdrs h !! a).
Proof.
  intros Hpl Hk Hb Hf Hin. pose proof (place_base _ _ _ _ _ _ Hpl) as Hbase.
  pose proof (seg_freed _ _ _ _ _ k _ Hpl) as Hseg. destruct (place_fresh _ _ _ _ _ _ Hpl) as (Hp1 & Hp2 & Hb1 & Hb2). destruct Hpl.
  unfold free. replace (b + 16 - 16) with b by lia.
  erewrite bind_ok; [|unfold get_freep; by rewrite Hf]. rewrite (bind_ok m_get _ _ h h eq_refl).
  assert (length (l1 ++ (p, n) :: l2) ≤ size (hdrs h))%nat as Hlen by (eapply seg_length; [by apply apart_NoDup|done]).
  erewrite bind_ok; [|eapply free_loop_spec; [done..|lia]].
  rewrite (bind_ok _ _ _ _ _ (load_ok _ _ _ Hb)).
  pose proof pl_seg0 as [_ Hs2]%seg_app. rewrite (bind_ok _ _ _ _ _ (next_seg _ _ _ _ _ Hs2)). destruct Hs2 as [Hp Hs2]. cbn [hsize].
  erewrite bind_ok; [|eapply run_join_up; [lia|done..]].
  destruct (join_up b k l2) as [k' l2'] eqn:Hj. cbn [fst snd].
  set (h1 := upd b _ h). assert (hdrs h1 !! p = Some (mkHeader (Some (first l2 base)) n)) as Hp'.
  { unfold h1, upd. cbn [hdrs]. rewrite lookup_insert_ne by lia. done. }
  assert (hdrs h1 !! b = Some (mkHeader (Some (first l2' base)) k')) as Hb'.
  { unfold h1, upd. cbn [hdrs]. by rewrite lookup_insert_eq. }
  rewrite (bind_ok _ _ _ _ _ (load_ok _ _ _ Hp')), (bind_ok _ _ _ _ _ (load_ok _ _ _ Hb')). cbn [hsize].
  erewrite bind_ok; [|eapply run_join_down; [lia|done..]]. unfold set_freep.
  match goal with |- context [mkHeap (Some p) (hdrs ?x)] => set (h2 := x) end. exists (hdrs h2). split_and!.
  - unfold h2. by destruct (p + 16 * n =? b).
  - unfold h2. destruct (p + 16 * n =? b); exact Hseg.
  - intros a Hap Hab. unfold h2. destruct (p + 16 * n =? b); unfold h1, upd; cbn [hdrs]; by rewrite !lookup_insert_ne by done.
Qed.

(** The free list with the block in it. *)
Lemma join_up_spec b k l2 : 0 ≤ k → apart l2 → Forall (λ x, 0 ≤ x.2 ∧ b + 16 * k ≤ x.1) l2 →
  apart ((b, (join_up b k l2).1) :: (join_up b k l2).2) ∧ k ≤ (join_up b k l2).1 ∧
  (∀ x, covers (b, (join_up b k l2).1) x + cov (join_up b k l2).2 x = covers (b, k) x + cov l2 x).
Proof.
  intros Hk Hap Hl. destruct l2 as [|[a n] l2]; [by split_and!|]. cbn [join_up].
  apply Forall_cons in Hl as [[Hn Ha] Hl]. simpl in Hn, Ha. destruct Hap as [Ha2 Hap]. case_match; bool_to_prop; cbn [fst snd].
  - split_and!; [|lia|]; [split; [|done]|].
    + eapply Forall_impl; [exact Ha2|]. intros [c j]. simpl. lia.
    + intros x. cbn [cov]. subst a. cov_lia.
  - split_and!; [|lia|done]. split; [|done]. apply Forall_cons. split; [simpl; lia|].
    eapply Forall_impl; [exact Ha2|]. intros [c j]. simpl. lia.
Qed.

Lemma freed_spec m l1 p n b k l2 : place m l1 p n b l2 → 0 < k → p + 16 * n ≤ b → Forall (λ x, b + 16 * k ≤ x.1) l2 →
  apart (freed l1 p n b k l2) ∧
  (∀ x, cov (freed l1 p n b k l2) x = cov (l1 ++ (p, n) :: l2) x + covers (b, k) x) ∧
  (∃ a j, (a, j) ∈ freed l1 p n b k l2 ∧ k ≤ j) ∧
  (∀ a j, (a, j) ∈ freed l1 p n b k l2 → (a, j) ∈ l1 ++ (p, n) :: l2 ∨ (k ≤ j ∧ (a = b ∨ (a = p ∧ p + 16 * n = b)))).
Proof.
  intros [] Hk Hpb Hl2. apply apart_app in pl_apart0 as (Hap1 & [Hp Hap2] & Hlt).
  apply Forall_app in pl_size0 as [Hz1 [Hn Hz2]%Forall_cons]. simpl in Hn.
  destruct (join_up_spec b k l2) as (Hap & Hk' & Hc); [lia|done|by apply Forall_and|].
  assert (∀ x, x ∈ (join_up b k l2).2 → x ∈ l2) as Hsub by apply join_up_sub.
  unfold freed. destruct (join_up b k l2) as [k' l2']. cbn [fst snd] in *.
  assert (∀ a j b' j', (a, j) ∈ l1 → b' = p ∨ b' = b ∨ (b', j') ∈ l2 → a + 16 * j < b') as Hl1.
  { intros a j b' j' Ha [->|[->|Hb']]; [apply (Hlt a j p n Ha); left| |apply (Hlt a j b' j' Ha); by right].
    specialize (Hlt a j p n Ha ltac:(left)). lia. }
  unfold join_down. case_match; bool_to_prop; (split_and!; [apply apart_app; split_and!; [done| |]|..]).
  - destruct Hap as [Hb Hap]. split; [|done]. eapply Forall_impl; [exact Hb|]. intros [c j]. simpl. lia.
  - intros a j c i Ha [[= -> ->]|Hc']%elem_of_cons; first [by eapply (Hl1 _ _ _ 0); eauto|eapply Hl1; eauto].
  - intros x. rewrite !cov_app. cbn [cov]. specialize (Hc x). subst b. cov_lia.
  - exists p, (n + k'). split; [set_solver|lia].
  - intros a j [Ha|[[= -> ->]|Ha]%elem_of_cons]%elem_of_app; [set_solver| |set_solver]. right. split; [lia|auto].
  - destruct Hap as [Hb Hap]. split; [|by split]. apply Forall_cons. split; [simpl; lia|].
    apply Forall_forall. intros [c j] Hc'. rewrite Forall_forall in Hp. by apply Hp, Hsub.
  - intros a j c i Ha [[= -> ->]|[[= -> ->]|Hc']%elem_of_cons]%elem_of_cons; first [by eapply (Hl1 _ _ _ 0); eauto|eapply Hl1; eauto].
  - intros x. rewrite !cov_app. cbn [cov]. specialize (Hc x). lia.
  - exists b, k'. split; [set_solver|lia].
  - intros a j [Ha|[[= -> ->]|[[= -> ->]|Ha]%elem_of_cons]%elem_of_cons]%elem_of_app; [set_solver|set_solver| |set_solver].
    right. auto.
Qed.
End free.
