(* ===== verification/UMallocSpec.v ===== *)
(** * The contract of the user allocator

    [heap_ok] holds in every state a program can bring the allocator to; no
    call panics, blocks handed out are aligned, large enough and disjoint
    from everything else in use, and a request fails only when no free block
    is large enough and the kernel refuses to extend the heap. *)

From stdpp Require Import base tactics numbers gmap list.
From S2P Require Import Prelude Errors UMalloc.
Local Open Scope Z_scope.

Section contract.
Context (base brk0 : Z) (grow : Z → Z → bool).
Implicit Types (h : Heap) (fl live : list blk).

Record heap_ok h fl live : Prop := {
  ok_ring : seg (hdrs h) ((base, 0) :: fl) base;
  ok_apart : apart ((base, 0) :: fl);
  ok_size : Forall (λ b, 0 < b.2) (fl ++ live);
  ok_align : Forall (λ b, b.1 `mod` 16 = 0) (fl ++ live);
  ok_brk : brk0 ≤ brk h ∧ brk h `mod` 16 = 0;
  ok_tile : ∀ x, cov (fl ++ live) x = if decide (brk0 ≤ x < brk h) then 1 else 0;
  ok_live : Forall (λ b, ∃ p, hdrs h !! b.1 = Some (mkHeader p b.2)) live;
  ok_freep : ∃ f, freep h = Some f ∧ f ∈ ((base, 0) :: fl).*1 }.

Context (Hbase : 0 < base) (Hbrk0 : base + 16 ≤ brk0).

Lemma cov_perm l1 l2 x : l1 ≡ₚ l2 → cov l1 x = cov l2 x.
Proof. induction 1; simpl; lia. Qed.

Lemma heap_ok_perm h fl live live' : live ≡ₚ live' → heap_ok h fl live → heap_ok h fl live'.
Proof.
  intros Hp []. assert (fl ++ live ≡ₚ fl ++ live') as Hp' by (by rewrite Hp).
  split; [done|done|by rewrite <- Hp'|by rewrite <- Hp'|done| |by rewrite <- Hp|done].
  intros x. by rewrite <- (cov_perm _ _ x Hp').
Qed.

Lemma tile_le1 h fl live : heap_ok h fl live → ∀ x, cov (fl ++ live) x ≤ 1.
Proof. intros [] x. rewrite ok_tile0. by case_decide. Qed.

Lemma block_in_heap h fl live b k : heap_ok h fl live → (b, k) ∈ fl ++ live → brk0 ≤ b ∧ b + 16 * k ≤ brk h ∧ 0 < k.
Proof.
  intros [] Hin. assert (0 < k) as Hk by by (rewrite Forall_forall in ok_size0; apply (ok_size0 _ Hin)).
  pose proof (cov_elem _ _ b Hin) as H1. pose proof (cov_elem _ _ (b + 16 * k - 1) Hin) as H2. rewrite ok_tile0 in H1, H2.
  do 2 case_decide; cov_lia.
Qed.

Lemma free_live_disjoint h fl live b k a n : heap_ok h fl live → (a, n) ∈ fl → (b, k) ∈ live → disjoint_blk a n b k.
Proof.
  intros Hok Ha Hb. eapply cov_disjoint; [by eapply tile_le1|..|done|done];
    eapply block_in_heap; [done|by apply elem_of_app; left|done|by apply elem_of_app; right].
Qed.

Lemma freed_head fl l1 p n b k l2 : (base, 0) :: fl = l1 ++ (p, n) :: l2 → p < b → ∃ fl', freed l1 p n b k l2 = (base, 0) :: fl'.
Proof.
  intros Hl Hp. destruct l1 as [|x l1]; simplify_eq/=; [|by eexists]. unfold freed, join_down. simpl.
  replace (p + 16 * 0 =? b) with false by lia. by eexists.
Qed.

Lemma freed_pred l1 p n b k l2 : p ∈ (freed l1 p n b k l2).*1.
Proof. unfold freed, join_down. apply list_elem_of_fmap. case_match; eexists (p, _); (split; [done|apply elem_of_app; right; left]). Qed.

Lemma freed_length l1 p n b k l2 : (length (freed l1 p n b k l2) ≤ S (length (l1 ++ (p, n) :: l2)))%nat.
Proof.
  unfold freed. assert (length (join_up b k l2).2 ≤ length l2)%nat by (destruct l2 as [|[]]; simpl; [lia|case_match; simpl; lia]).
  rewrite !length_app. unfold join_down. case_match; simpl; lia.
Qed.

Lemma free_disjoint h fl live b k a n : heap_ok h fl ((b, k) :: live) → (a, n) ∈ fl → disjoint_blk a n b k ∧ 0 < n.
Proof. intros Hok Ha. split; [eapply free_live_disjoint; [done|done|left]|]. eapply block_in_heap; [done|by apply elem_of_app; left]. Qed.

(** The other blocks in use are none of those [free] writes to. *)
Lemma live_other h fl live b k c i : heap_ok h fl ((b, k) :: live) → (c, i) ∈ live → brk0 ≤ c ∧ c ≠ b ∧ c ∉ fl.*1.
Proof.
  intros Hok Hc. destruct (block_in_heap _ _ _ c i Hok) as (? & ? & ?); [set_solver|].
  destruct (block_in_heap _ _ _ b k Hok) as (? & ? & ?); [set_solver|]. split_and!; [done|..].
  - assert (disjoint_blk b k c i) as [?|?]; [|lia..]. apply (cov_disjoint (fl ++ [(b, k)]) live); [|done|done|set_solver|done].
    rewrite <- app_assoc. by eapply tile_le1.
  - intros ([a n] & -> & Ha)%list_elem_of_fmap. simpl in *. destruct (free_disjoint _ _ _ _ _ _ _ Hok Ha) as [_ ?].
    assert (disjoint_blk a n a i) as [?|?]; [|lia..]. eapply free_live_disjoint; [done|done|by right].
Qed.

Lemma free_place h fl live b k : heap_ok h fl ((b, k) :: live) → ∃ l1 p n l2,
  (base, 0) :: fl = l1 ++ (p, n) :: l2 ∧ place base (hdrs h) l1 p n b l2 ∧ p + 16 * n ≤ b ∧ Forall (λ x, b + 16 * k ≤ x.1) l2.
Proof.
  intros Hok. assert (brk0 ≤ b ∧ b + 16 * k ≤ brk h ∧ 0 < k) as (Hb & Hbk & Hk) by (eapply block_in_heap; [done|set_solver]).
  pose proof (λ a n, free_disjoint _ _ _ _ _ a n Hok) as Hdis. destruct Hok as [Hring Hap _ _ _ _ _ _].
  destruct (split_at b fl base 0) as (l1 & p & n & l2 & Hl & Hp & Hl2); [lia|done| |].
  { apply Forall_forall. intros [a n] Ha. destruct (Hdis _ _ Ha) as [[?|?] ?]; simpl; lia. }
  assert (∀ x, x ∈ l1 ++ (p, n) :: l2 → x = (base, 0) ∨ x ∈ fl) as Hmem by (intros x; rewrite <- Hl; apply elem_of_cons).
  exists l1, p, n, l2. split_and!; [done|..].
  - split; rewrite <- ?Hl; [done..| |done|done]. apply Forall_cons. split; [done|]. apply Forall_forall.
    intros [a j] Ha. simpl. specialize (Hdis _ _ Ha). lia.
  - destruct (Hmem (p, n)) as [[= -> ->]|Hin]; [set_solver|lia|]. destruct (Hdis _ _ Hin) as [[?|?] ?]; lia.
  - apply Forall_forall. intros [a j] Ha. rewrite Forall_forall in Hl2. pose proof (Hl2 _ Ha). simpl in *.
    destruct (Hmem (a, j)) as [[= -> ->]|Hin]; [set_solver|lia|]. destruct (Hdis _ _ Hin) as [[?|?] ?]; lia.
Qed.

(** The blocks of the free list after [free]. *)
Lemma freed_blocks h fl live b k l1 p n l2 fl' : heap_ok h fl ((b, k) :: live) →
  (base, 0) :: fl = l1 ++ (p, n) :: l2 → place base (hdrs h) l1 p n b l2 → p + 16 * n ≤ b → Forall (λ x, b + 16 * k ≤ x.1) l2 →
  freed l1 p n b k l2 = (base, 0) :: fl' →
  ∀ a j, (a, j) ∈ fl' → (a, j) ∈ fl ∨ (0 < j ∧ (a = b ∨ a ∈ fl.*1)).
Proof.
  intros Hok Hl Hpl Hpn Hl2 Hfl' c i Hc.
  destruct (block_in_heap _ _ _ b k Hok) as (? & ? & Hk); [set_solver|].
  destruct (freed_spec _ _ _ _ _ _ _ _ Hpl Hk Hpn Hl2) as (Hap' & _ & _ & Hel). rewrite Hfl' in Hap', Hel. rewrite <- Hl in Hel.
  destruct Hap' as [Hlt _]. rewrite Forall_forall in Hlt. specialize (Hlt _ Hc). simpl in Hlt.
  destruct (Hel c i) as [[[= -> ->]|]%elem_of_cons|(Hi & [->|[-> Heq]])]; [by right|lia|by left|right; split; [lia|by left]|].
  right. split; [lia|]. right. assert ((p, n) ∈ (base, 0) :: fl) as [[= -> ->]|Hin]%elem_of_cons by (rewrite Hl; set_solver); [lia|].
  apply list_elem_of_fmap. by exists (p, n).
Qed.

(** Giving back a block. *)
Lemma free_ok h fl live b k : heap_ok h fl ((b, k) :: live) →
  ∃ h' fl', free (b + 16) h = (Ok (), h') ∧ heap_ok h' fl' live ∧ brk h' = brk h ∧
    (length fl' ≤ S (length fl))%nat ∧ ∃ a j, (a, j) ∈ fl' ∧ k ≤ j.
Proof.
  intros Hok. destruct (free_place _ _ _ _ _ Hok) as (l1 & p & n & l2 & Hl & Hpl & Hpn & Hl2).
  destruct (block_in_heap _ _ _ b k Hok) as (? & ? & Hk); [set_solver|].
  destruct (freed_head _ _ _ _ b k _ Hl (pl_below _ _ _ _ _ _ _ Hpl)) as [fl' Hfl'].
  pose proof (freed_blocks _ _ _ _ _ _ _ _ _ _ Hok Hl Hpl Hpn Hl2 Hfl') as Hfl.
  pose proof (λ c i, live_other _ _ _ _ _ c i Hok) as Hother.
  destruct Hok as [Hring Hap Hsz Hal Hbrk Htile [[r Hbh] Hlive]%Forall_cons (f & Hf & Hfin)].
  rewrite Hl in Hfin. destruct (free_run _ _ _ _ _ _ _ _ _ _ Hpl Hk Hbh Hf Hfin) as (m' & Hrun & Hseg & Hframe).
  destruct (freed_spec _ _ _ _ _ _ _ _ Hpl Hk Hpn Hl2) as (Hap' & Hcov & (a & j & Haj & Hkj) & _).
  pose proof (freed_pred l1 p n b k l2) as Hpred.
  rewrite Hfl' in Hseg, Hap', Hcov, Haj, Hpred. rewrite <- Hl in Hcov.
  apply Forall_app in Hsz as [Hsz1 [_ Hsz2]%Forall_cons]. apply Forall_app in Hal as [Hal1 [Hal0 Hal2]%Forall_cons]. simpl in Hal0.
  exists (mkHeap (Some p) m' (brk h)), fl'. split_and!; [done| |done|..].
  - split; cbn [hdrs freep brk]; [done|done|..|done| | |by exists p].
    + apply Forall_app. split; [|done]. apply Forall_forall. intros [c i] Hc. destruct (Hfl _ _ Hc) as [Hc'|[? _]]; [|done].
      rewrite Forall_forall in Hsz1. by apply Hsz1.
    + apply Forall_app. split; [|done]. apply Forall_forall. intros [c i] Hc. rewrite Forall_forall in Hal1.
      destruct (Hfl _ _ Hc) as [Hc'|[_ [->|([d i'] & -> & Hd)%list_elem_of_fmap]]]; [by apply Hal1|done|]. apply (Hal1 _ Hd).
    + intros x. rewrite <- Htile, !cov_app. specialize (Hcov x). cbn [cov] in *. lia.
    + rewrite Forall_forall in Hlive |- *. intros [c i] Hc. destruct (Hother _ _ Hc) as (? & ? & Hcf). cbn [fst snd].
      rewrite Hframe; [by apply (Hlive (c, i))| |done]. intros ->.
      assert ((p, n) ∈ (base, 0) :: fl) as [[= -> ->]|Hin]%elem_of_cons by (rewrite Hl; apply elem_of_app; right; left); [lia|].
      apply Hcf, list_elem_of_fmap. by exists (p, n).
  - pose proof (freed_length l1 p n b k l2) as Hlen. rewrite Hfl', <- Hl in Hlen. simpl in Hlen. lia.
  - apply elem_of_cons in Haj as [[= -> ->]|Haj]; [lia|]. eauto.
Qed.

(** A block, in use or free, and any other one. *)
Lemma block_others h fl live A p n B : heap_ok h fl live → fl ++ live ≡ₚ A ++ (p, n) :: B →
  ∀ c i, (c, i) ∈ A ++ B → brk0 ≤ c ∧ 0 < i ∧ disjoint_blk p n c i.
Proof.
  intros Hok Hl c i Hc. assert (fl ++ live ≡ₚ (p, n) :: A ++ B) as Hp by (rewrite Hl; solve_Permutation).
  destruct (block_in_heap _ _ _ c i Hok) as (? & _ & Hi); [rewrite Hp; by right|].
  destruct (block_in_heap _ _ _ p n Hok) as (_ & _ & Hn); [rewrite Hp; left|]. split_and!; [done..|].
  apply (cov_disjoint [(p, n)] (A ++ B)); [|done|done|left|done].
  intros x. pose proof (tile_le1 _ _ _ Hok x) as Hle. by rewrite (cov_perm _ _ x Hp) in Hle.
Qed.

(** ** The search of [alloc] *)
Lemma final_ne l x y : l ≠ [] → final l x = final l y.
Proof. destruct l using rev_ind; [done|]. intros _. by rewrite !final_app. Qed.

Lemma final_cons a n l q : final ((a, n) :: l) q = final l a.
Proof. destruct l as [|x l]; [done|]. unfold final. destruct (last (x :: l)) as [y|] eqn:Hy; [by rewrite last_cons_cons, Hy|]. by apply last_None in Hy. Qed.

Lemma find_fit nunits (l : list blk) :
  Forall (λ b, b.2 < nunits) l ∨ ∃ A p n B, l = A ++ (p, n) :: B ∧ Forall (λ b, b.2 < nunits) A ∧ nunits ≤ n.
Proof.
  induction l as [|[a n] l IH]; [by left|]. destruct (decide (nunits ≤ n)); [right; by exists [], a, n, l|].
  destruct IH as [Hl|(A & p & k & B & -> & HA & Hk)]; [left; constructor; [simpl; lia|done]|].
  right. exists ((a, n) :: A), p, k, B. split_and!; [done| |done]. constructor; [simpl; lia|done].
Qed.

Lemma scan_seg h f nunits q : freep h = Some f → ∀ l prev fuel, seg (hdrs h) l q → Forall (λ b, b.2 < nunits) l → f ∉ l.*1 →
  alloc_loop grow (length l + fuel) nunits prev (first l q) h = alloc_loop grow fuel nunits (final l prev) q h.
Proof.
  intros Hf l. induction l as [|[a n] l IH]; intros prev fuel Hs Hl Hfl; [done|]. rewrite final_cons.
  pose proof Hs as [Ha Hs']. apply Forall_cons in Hl as [Hn Hl]. rewrite fmap_cons, not_elem_of_cons in Hfl. destruct Hfl as [Hne Hfl]. simpl in Hn, Hne.
  cbn [length plus alloc_loop first]. rewrite (bind_ok _ _ _ _ _ (load_ok _ _ _ Ha)). cbn [hsize]. replace (nunits <=? n) with false by lia.
  erewrite bind_ok; [|unfold get_freep; by rewrite Hf]. replace (a =? f) with false by lia.
  erewrite bind_ok; [|done]. cbn beta iota. rewrite (bind_ok _ _ _ _ _ (next_seg _ _ _ _ _ Hs)). by apply IH.
Qed.

Lemma scan_fit h nunits p n l q prev fuel : seg (hdrs h) ((p, n) :: l) q → nunits ≤ n → (0 < fuel)%nat →
  alloc_loop grow fuel nunits prev p h = take nunits prev p (mkHeader (Some (first l q)) n) h.
Proof.
  intros [Hp _] Hn Hfuel. destruct fuel as [|fuel]; [lia|]. cbn [alloc_loop]. rewrite (bind_ok _ _ _ _ _ (load_ok _ _ _ Hp)). cbn [hsize]. by replace (nunits <=? n) with true by lia.
Qed.

Lemma final_mid A a n B q : final (A ++ (a, n) :: B) q = final B a.
Proof.
  destruct B as [|x B] using rev_ind; [by rewrite final_app|].
  by rewrite app_comm_cons, app_assoc, !final_app.
Qed.

Lemma final_last l A a n q : l = A ++ [(a, n)] → final l q = a.
Proof. intros ->. apply final_app. Qed.

(** What a search does: serve the request from a block that fits, or visit
    every block and ask for more memory. *)
Definition fits (h : Heap) (fl : list blk) (nunits : Z) (r : outcome Error (option Z) * Heap) : Prop :=
  ∃ A p n B, (base, 0) :: fl = A ++ (p, n) :: B ∧ A ≠ [] ∧ nunits ≤ n ∧
    r = take nunits (final A base) p (mkHeader (Some (first B base)) n) h.
Definition extends (h : Heap) (nunits : Z) (fuel : nat) (r : outcome Error (option Z) * Heap) : Prop :=
  r = (r ← morecore grow nunits;
       match r with None => mret None | Some p => nx ← next p; alloc_loop grow fuel nunits p nx end) h.

Lemma ring_NoDup h fl live : heap_ok h fl live → NoDup ((base, 0) :: fl).*1.
Proof.
  intros []. apply apart_NoDup; [|done]. constructor; [done|]. apply Forall_app in ok_size0 as [Hsz _].
  eapply Forall_impl; [exact Hsz|]. simpl. lia.
Qed.

Lemma ring_split h fl live f : heap_ok h fl live → freep h = Some f → ∃ L1 nf L2, (base, 0) :: fl = L1 ++ (f, nf) :: L2 ∧
  (f ∉ L1.*1) ∧ (f ∉ L2.*1) ∧ seg (hdrs h) L1 f ∧ seg (hdrs h) ((f, nf) :: L2) base.
Proof.
  intros Hok Hf. pose proof (ring_NoDup _ _ _ Hok) as Hnd. destruct Hok as [Hring _ _ _ _ _ _ (f' & Hf' & Hin)]. simplify_eq.
  apply list_elem_of_fmap in Hin as ([f0 nf] & -> & Hin). apply list_elem_of_split in Hin as (L1 & L2 & HL). cbn [fst] in *.
  rewrite HL in Hnd, Hring. rewrite fmap_app, fmap_cons in Hnd. apply NoDup_app in Hnd as (_ & Hd & [Hf2 _]%NoDup_cons).
  apply seg_app in Hring as [Hs1 Hs2]. exists L1, nf, L2. split; [done|].
  split; [intros Hi; apply (Hd _ Hi); left|]. split; [done|]. split; [exact Hs1|exact Hs2].
Qed.

Lemma search_spec h fl live nunits f k : heap_ok h fl live → freep h = Some f → 0 < nunits → ∃ nx,
  next f h = (Ok nx, h) ∧
  (fits h fl nunits (alloc_loop grow (S (length fl) + S k) nunits f nx h) ∨
   (Forall (λ b, b.2 < nunits) fl ∧ extends h nunits (S k) (alloc_loop grow (S (length fl) + S k) nunits f nx h))).
Proof.
  intros Hok Hf Hnu. destruct (ring_split _ _ _ _ Hok Hf) as (L1 & nf & L2 & HL & H1 & H2 & Hs1 & Hs2).
  exists (first L2 base). split; [by eapply next_seg|].
  assert (S (length fl) + S k = length L2 + (length L1 + S (S k)))%nat as ->.
  { apply (f_equal length) in HL. rewrite length_app in HL. simpl in HL. lia. }
  destruct (find_fit nunits L2) as [Hl2|(A & p & n & B & -> & HA & Hn)].
  2: { left. exists (L1 ++ (f, nf) :: A), p, n, B. rewrite final_mid. split_and!; [by rewrite <- app_assoc|by destruct L1|done|].
       destruct Hs2 as [_ Hs2]. apply seg_app in Hs2 as [HsA HsB]. rewrite fmap_app, not_elem_of_app in H2.
       rewrite first_app, length_app. cbn [first length] in *. rewrite <- Nat.add_assoc. rewrite (scan_seg _ f) by (done || apply H2).
       by rewrite (scan_fit _ _ _ n B base) by (done || lia). }
  rewrite (scan_seg _ f) by (done || apply Hs2).
  assert (first L1 f = base) as Hfst by (destruct L1; by simplify_eq/=).
  destruct (find_fit nunits L1) as [Hl1|(A & p & n & B & -> & HA & Hn)].
  2: { left. exists A, p, n, (B ++ (f, nf) :: L2). rewrite <- app_assoc in HL.
       assert (A ≠ []) as HAne by (intros ->; simplify_eq/=; lia). split_and!; [done..|].
       rewrite (final_ne _ base (final L2 f)) by done. rewrite first_app in Hfst. cbn [first] in Hfst.
       apply seg_app in Hs1 as [HsA HsB]. rewrite fmap_app, not_elem_of_app in H1. rewrite length_app. cbn [first length] in *.
       rewrite <- Nat.add_assoc. epose proof (scan_seg h f nunits p Hf A (final L2 f) _ HsA HA (proj1 H1)) as Hscan.
       rewrite Hfst in Hscan. rewrite Hscan. rewrite (scan_fit _ _ _ n B f) by (done || lia). by rewrite first_app. }
  epose proof (scan_seg h f nunits f Hf L1 (final L2 f) _ Hs1 Hl1 H1) as Hscan. rewrite Hfst in Hscan. rewrite Hscan.
  destruct (decide (nunits ≤ nf)) as [Hnf|Hnf].
  - left. exists L1, f, nf, L2. assert (L1 ≠ []) as Hne by (intros ->; simplify_eq/=; lia). split_and!; [done..|].
    rewrite (final_ne _ base (final L2 f)) by done. by rewrite (scan_fit _ _ _ nf L2 base) by (done || lia).
  - right. split.
    + assert (Forall (λ b, b.2 < nunits) ((base, 0) :: fl)) as [_ ?]%Forall_cons; [|done]. rewrite HL.
      apply Forall_app. split; [done|]. constructor; [simpl; lia|done].
    + unfold extends. cbn [alloc_loop]. destruct Hs2 as [Hfh _]. rewrite (bind_ok _ _ _ _ _ (load_ok _ _ _ Hfh)). cbn [hsize].
      replace (nunits <=? nf) with false by lia. erewrite bind_ok; [|unfold get_freep; by rewrite Hf].
      by replace (f =? f) with true by lia.
Qed.

(** ** Serving a request *)
Lemma seg_relink m A a n q q' : a ∉ A.*1 → seg m (A ++ [(a, n)]) q → seg (<[a := mkHeader (Some q') n]> m) (A ++ [(a, n)]) q'.
Proof.
  intros Ha [Hs [_ _]]%seg_app. apply seg_app. cbn [first] in *. split; [by apply seg_insert|]. split; [by rewrite lookup_insert_eq|done].
Qed.

Lemma tile_others h A p n B live : heap_ok h (A ++ (p, n) :: B) live →
  ∀ c i, (c, i) ∈ A ++ B ++ live → brk0 ≤ c ∧ 0 < i ∧ disjoint_blk p n c i.
Proof.
  intros Hok c i Hc. apply (block_others h (A ++ (p, n) :: B) live A p n (B ++ live)); [done| |done]. by rewrite <- app_assoc.
Qed.

Lemma live_not_free h fl live c i : heap_ok h fl live → (c, i) ∈ live → c ∉ ((base, 0) :: fl).*1.
Proof.
  intros Hok Hc. destruct (block_in_heap _ _ _ c i Hok) as (? & _ & ?); [by apply elem_of_app; right|].
  intros ([a n] & -> & [[= -> ->]|Ha]%elem_of_cons)%list_elem_of_fmap; simpl in *; [lia|].
  destruct (block_in_heap _ _ _ a n Hok) as (_ & _ & ?); [by apply elem_of_app; left|].
  destruct (free_live_disjoint _ _ _ _ _ _ _ Hok Ha Hc); lia.
Qed.

Lemma take_exact h A p n B live : heap_ok h (A ++ (p, n) :: B) live →
  ∃ h', take n (final ((base, 0) :: A) base) p (mkHeader (Some (first B base)) n) h = (Ok (Some (p + 16)), h') ∧
    heap_ok h' (A ++ B) ((p, n) :: live).
Proof.
  intros Hok. pose proof (ring_NoDup _ _ _ Hok) as Hnd. pose proof (λ c i, live_not_free _ _ _ c i Hok) as Hoth.
  destruct Hok as [Hring Hap Hsz Hal Hbrk Htile Hlive _].
  assert ((A ++ (p, n) :: B) ++ live ≡ₚ (A ++ B) ++ (p, n) :: live) as Hperm by solve_Permutation.
  rewrite app_comm_cons in Hring, Hap, Hnd. apply apart_app in Hap as (Hap1 & [HapB HapB'] & Hlt).
  destruct (exists_last (l := (base, 0) :: A)) as (A0 & [a n0] & HA); [done|]. rewrite (final_last _ _ _ _ _ HA).
  rewrite HA in Hring, Hnd. rewrite !fmap_app, fmap_cons in Hnd. apply NoDup_app in Hnd as (Hnd0 & Hnd1 & [HpB _]%NoDup_cons).
  apply NoDup_app in Hnd0 as (_ & HA0 & _). cbn [fst fmap list_fmap] in HA0, Hnd1.
  assert (a ∈ ((base, 0) :: A).*1) as Hain by (rewrite HA, fmap_app; apply elem_of_app; right; left).
  assert (a ∉ A0.*1) as Ha0 by (intros Hi; by apply (HA0 _ Hi); left).
  assert (a ∉ p :: B.*1) as HaB by (apply Hnd1, elem_of_app; right; left). apply not_elem_of_cons in HaB as [Hap HaB].
  apply seg_app in Hring as [HsA [Hp HsB]]. cbn [first] in HsA. pose proof HsA as [_ [Ha _]]%seg_app.
  eexists. split.
  { unfold take. cbn [hsize]. replace (n =? n) with true by lia. erewrite bind_ok; [|erewrite bind_ok; [|by eapply next_ok]].
    2: { erewrite bind_ok; [done|by apply set_ptr_ok with (x := mkHeader (Some p) n0)]. } done. }
  split; cbn [hdrs freep brk upd hsize].
  - rewrite app_comm_cons, HA. apply seg_app. split; [by eapply seg_relink|by apply seg_insert].
  - rewrite app_comm_cons. apply apart_app. split_and!; [done..|]. intros c i d j Hc Hd. apply (Hlt c i d j Hc). by right.
  - by rewrite <- Hperm.
  - by rewrite <- Hperm.
  - done.
  - intros x. by rewrite <- (cov_perm _ _ x Hperm).
  - constructor; cbn [fst snd]; [rewrite lookup_insert_ne by done; eauto|]. rewrite Forall_forall in Hlive |- *. intros [c i] Hc.
    cbn [fst snd]. rewrite lookup_insert_ne; [by apply (Hlive (c, i))|]. intros ->. apply (Hoth _ _ Hc).
    rewrite app_comm_cons, fmap_app. by apply elem_of_app; left.
  - exists a. split; [done|]. rewrite app_comm_cons, fmap_app. by apply elem_of_app; left.
Qed.

Lemma apart_shrink A p n n' B : n' ≤ n → apart (A ++ (p, n) :: B) → apart (A ++ (p, n') :: B).
Proof.
  intros Hn [HA ([HB HB'] & Hlt)]%apart_app. apply apart_app. split_and!; [done| |].
  - split; [|done]. eapply Forall_impl; [exact HB|]. simpl. lia.
  - intros a j b k Ha [[= -> ->]|Hb]%elem_of_cons; [apply (Hlt a j p n Ha); left|apply (Hlt a j b k Ha); by right].
Qed.

Lemma final_in l q : l ≠ [] → final l q ∈ l.*1.
Proof. destruct l as [|[a n] l _] using rev_ind; [done|]. intros _. rewrite final_app, fmap_app. apply elem_of_app. right. left. Qed.

Lemma take_split h A p n B live nunits : heap_ok h (A ++ (p, n) :: B) live → 0 < nunits < n →
  ∃ h', take nunits (final ((base, 0) :: A) base) p (mkHeader (Some (first B base)) n) h
          = (Ok (Some (p + 16 * (n - nunits) + 16)), h') ∧
    heap_ok h' (A ++ (p, n - nunits) :: B) ((p + 16 * (n - nunits), nunits) :: live).
Proof.
  intros Hok Hnu. pose proof (ring_NoDup _ _ _ Hok) as Hnd. pose proof (λ c i, live_not_free _ _ _ c i Hok) as Hoth.
  pose proof (tile_others _ _ _ _ _ _ Hok) as Hdis. set (q := p + 16 * (n - nunits)).
  destruct (block_in_heap _ _ _ p n Hok) as (Hpb & _ & Hn); [set_solver|].
  assert (∀ c i, (c, i) ∈ (base, 0) :: A ++ B ++ live → c ≠ q) as Hq.
  { intros c i [[= -> ->]|Hc]%elem_of_cons; [unfold q; lia|]. destruct (Hdis _ _ Hc) as (? & ? & [?|?]); unfold q; lia. }
  destruct Hok as [Hring Hap Hsz Hal Hbrk Htile Hlive _]. rewrite app_comm_cons in Hring, Hap, Hnd.
  apply seg_app in Hring as [HsA [Hp HsB]]. cbn [first] in HsA. rewrite fmap_app, fmap_cons in Hnd.
  apply NoDup_app in Hnd as (_ & Hnd1 & [HpB _]%NoDup_cons). cbn [fst] in *.
  assert (p ∉ ((base, 0) :: A).*1) as HpA by (intros Hi; apply (Hnd1 _ Hi); left).
  eexists. split.
  { unfold take. cbn [hsize]. replace (n =? nunits) with false by lia.
    erewrite bind_ok; [|erewrite bind_ok; [|by eapply set_hsize_ok]]. 2: { by erewrite bind_ok. } done. }
  assert (∀ l : list blk, (∀ c i, (c, i) ∈ l → c ≠ q) → q ∉ l.*1) as Hq'.
  { intros l Hl ([c i] & Heq & Hc)%list_elem_of_fmap. by apply (Hl c i). }
  split; cbn [hdrs freep brk upd hsize].
  - rewrite app_comm_cons. apply seg_app. cbn [first]. split; [|split].
    + apply seg_insert; [|by apply seg_insert]. apply Hq'. intros c i Hc. apply (Hq c i). set_solver.
    + rewrite lookup_insert_ne by (unfold q; lia). by rewrite lookup_insert_eq.
    + apply seg_insert; [|by apply seg_insert]. apply Hq'. intros c i Hc. apply (Hq c i). set_solver.
  - rewrite app_comm_cons. eapply apart_shrink; [|exact Hap]. lia.
  - apply Forall_app in Hsz as [[? [_ ?]%Forall_cons]%Forall_app ?]. apply Forall_app. split; [apply Forall_app; split; [done|]|]; (constructor; [simpl; lia|done]).
  - apply Forall_app in Hal as [[? [Hpa ?]%Forall_cons]%Forall_app ?]. apply Forall_app. split; [apply Forall_app; split; [done|by constructor]|].
    constructor; [|done]. cbn [fst] in *. unfold q. rewrite Z.mul_comm, Z_mod_plus_full. done.
  - done.
  - intros x. rewrite <- Htile, !cov_app. cbn [cov]. unfold q. clear -Hnu. cov_lia.
  - constructor; cbn [fst snd]; [rewrite lookup_insert_eq; eauto|]. rewrite Forall_forall in Hlive |- *. intros [c i] Hc. cbn [fst snd].
    rewrite !lookup_insert_ne; [by apply (Hlive (c, i))| |].
    + intros <-. apply (Hoth _ _ Hc). rewrite fmap_cons, fmap_app. right. apply elem_of_app. right. left.
    + intros Heq. apply (Hq c i); [set_solver|done].
  - eexists. split; [done|]. rewrite app_comm_cons, fmap_app. apply elem_of_app. left. apply final_in. done.
Qed.

Lemma take_ok h fl live nunits r : heap_ok h fl live → 0 < nunits → fits h fl nunits r →
  ∃ q h' fl', r = (Ok (Some (q + 16)), h') ∧ heap_ok h' fl' ((q, nunits) :: live).
Proof.
  intros Hok Hnu (A & p & n & B & Hl & HA & Hn & ->). destruct A as [|x A]; [done|]. simplify_eq/=.
  destruct (decide (n = nunits)) as [->|Hne].
  - destruct (take_exact _ _ _ _ _ _ Hok) as (h' & Hrun & Hok'). eauto.
  - destruct (take_split _ _ _ _ _ _ nunits Hok) as (h' & Hrun & Hok'); [lia|]. eauto.
Qed.

(** Memory from the kernel goes onto the free list. *)
Lemma heap_ok_grow h fl live nu x : heap_ok h fl live → 0 < nu →
  heap_ok (mkHeap (freep h) (<[brk h := mkHeader x nu]> (hdrs h)) (brk h + nu * 16)) fl ((brk h, nu) :: live).
Proof.
  intros Hok Hnu. assert (∀ c i, (c, i) ∈ (base, 0) :: fl ++ live → c ≠ brk h) as Hne.
  { destruct (ok_brk _ _ _ Hok). intros c i [[= -> ->]|Hc]%elem_of_cons; [lia|]. destruct (block_in_heap _ _ _ c i Hok Hc). lia. }
  destruct Hok as [Hring Hap Hsz Hal Hbrk Htile Hlive Hfreep].
  apply Forall_app in Hsz as [? ?]. apply Forall_app in Hal as [? ?]. split; cbn [hdrs freep brk]; [|done|..|done].
  - apply seg_insert; [|done]. intros ([c i] & Heq & Hc)%list_elem_of_fmap. apply (Hne c i); [set_solver|done].
  - apply Forall_app. split; [done|]. by constructor.
  - apply Forall_app. split; [done|]. constructor; [apply Hbrk|done].
  - split; [lia|]. rewrite Z_mod_plus_full. apply Hbrk.
  - intros y. specialize (Htile y). rewrite cov_app in *. cbn [cov]. destruct Hbrk as [Hbrk _]. clear -Htile Hnu Hbrk. repeat case_decide; cov_lia.
  - constructor; cbn [fst snd]; [rewrite lookup_insert_eq; eauto|]. rewrite Forall_forall in Hlive |- *. intros [c i] Hc. cbn [fst snd].
    rewrite lookup_insert_ne; [by apply (Hlive (c, i))|]. intros Heq. apply (Hne c i); [set_solver|done].
Qed.

Definition more (nunits : Z) : Z := Z.max nunits 4096.

Lemma morecore_ok h fl live nunits : heap_ok h fl live → 0 < nunits →
  if grow (brk h) (more nunits * 16) then
    ∃ h' fl' f', morecore grow nunits h = (Ok (Some f'), h') ∧ freep h' = Some f' ∧ heap_ok h' fl' live ∧
      (length fl' ≤ S (length fl))%nat ∧ ∃ a j, (a, j) ∈ fl' ∧ nunits ≤ j
  else morecore grow nunits h = (Ok None, h).
Proof.
  intros Hok Hnu. destruct (ok_brk _ _ _ Hok) as [Hb _]. unfold morecore, sbrk. fold (more nunits). destruct (grow _ _); [|done].
  replace (brk h =? 0) with false by lia. erewrite bind_ok; [|by unfold set_hsize, put_header]. cbn [hdrs freep brk].
  destruct (free_ok _ _ _ _ _ (heap_ok_grow _ _ _ (more nunits) (hdrs h !! brk h ≫= ptr) Hok ltac:(unfold more; lia)))
    as (h' & fl' & Hrun & Hok' & _ & Hlen & a & j & Haj & Hj).
  rewrite (bind_ok _ _ _ _ _ Hrun). destruct (ok_freep _ _ _ Hok') as (f & Hf & _). exists h', fl', f.
  erewrite bind_ok; [|unfold get_freep; by rewrite Hf]. split_and!; [done..|]. exists a, j. split; [done|]. unfold more in Hj. lia.
Qed.

(** The outcome of a request: a new block, or nothing when no free block is
    large enough and the heap cannot grow. *)
Definition alloc_post (h : Heap) (fl live : list blk) (nunits : Z) (r : outcome Error (option Z) * Heap) : Prop :=
  (∃ q h' fl', r = (Ok (Some (q + 16)), h') ∧ heap_ok h' fl' ((q, nunits) :: live)) ∨
  (r = (Ok None, h) ∧ Forall (λ b, b.2 < nunits) fl ∧ grow (brk h) (more nunits * 16) = false).

Lemma alloc_loop_ok h fl live nunits f nx fuel : heap_ok h fl live → freep h = Some f → next f h = (Ok nx, h) → 0 < nunits →
  (2 * length fl + 5 ≤ fuel)%nat → alloc_post h fl live nunits (alloc_loop grow fuel nunits f nx h).
Proof.
  intros Hok Hf Hnx Hnu Hfuel. assert (∃ k, fuel = S (length fl) + S k ∧ length fl + 3 ≤ S k)%nat as (k & -> & Hk).
  { exists (fuel - length fl - 2)%nat. lia. }
  destruct (search_spec _ _ _ nunits _ k Hok Hf Hnu) as (nx' & Hnx' & Hcase). rewrite Hnx in Hnx'. injection Hnx' as <-.
  destruct Hcase as [Hfit|[Hsmall ->]]; [left; by eapply take_ok|].
  pose proof (morecore_ok _ _ _ nunits Hok Hnu) as Hmore. destruct (grow _ _) eqn:Hg; [|right; by rewrite (bind_ok _ _ _ _ _ Hmore)].
  destruct Hmore as (h' & fl' & f' & Hrun & Hf' & Hok' & Hlen & a & j & Haj & Hj). rewrite (bind_ok _ _ _ _ _ Hrun). cbn beta iota.
  left. assert (∃ k', S k = S (length fl') + S k')%nat as (k' & ->) by (exists (k - length fl' - 1)%nat; lia).
  destruct (search_spec _ _ _ nunits _ k' Hok' Hf' Hnu) as (nx' & Hnx' & [Hfit|[Hsmall' _]]).
  - rewrite (bind_ok _ _ _ _ _ Hnx'). by eapply take_ok.
  - rewrite Forall_forall in Hsmall'. specialize (Hsmall' _ Haj). simpl in Hsmall'. lia.
Qed.

Lemma alloc_ok h fl live nbytes : heap_ok h fl live → 0 ≤ nbytes ≤ ISIZE_MAX →
  alloc_post h fl live ((nbytes + 15) / 16 + 1) (alloc base grow nbytes h).
Proof.
  intros Hok Hn. unfold alloc. replace (nbytes + 16 - 1) with (nbytes + 15) by lia.
  replace (USIZE_MAX <? nbytes + 16) with false by (unfold USIZE_MAX, ISIZE_MAX in *; lia).
  destruct (ok_freep _ _ _ Hok) as (f & Hf & Hfin). rewrite (bind_ok m_get _ _ h h eq_refl), Hf. erewrite bind_ok; [|done].
  assert (∃ nx, next f h = (Ok nx, h)) as [nx Hnx].
  { destruct (ring_split _ _ _ _ Hok Hf) as (L1 & nf & L2 & _ & _ & _ & _ & Hs). eexists. by eapply next_seg. }
  rewrite (bind_ok _ _ _ _ _ Hnx), (bind_ok m_get _ _ h h eq_refl). eapply alloc_loop_ok; [done|done|done|..].
  - assert (0 ≤ (nbytes + 15) / 16) by (apply Z.div_pos; lia). lia.
  - pose proof (seg_length _ _ _ (ring_NoDup _ _ _ Hok) (ok_ring _ _ _ Hok)). cbn [length] in *. lia.
Qed.

(** The first request sets up an empty ring. *)
Definition fresh_heap : Heap := mkHeap None ∅ brk0.
Definition ring_heap : Heap := mkHeap (Some base) {[base := mkHeader (Some base) 0]} brk0.

Lemma ring_heap_ok : brk0 `mod` 16 = 0 → heap_ok ring_heap [] [].
Proof.
  intros Hm. split; cbn [hdrs freep brk ring_heap app]; [|by split|done|done|done| |done|].
  - split; [apply lookup_singleton_eq|done].
  - intros x. cbn [cov]. case_decide; [lia|done].
  - exists base. split; [done|left].
Qed.

Lemma alloc_fresh nbytes : alloc base grow nbytes fresh_heap = alloc base grow nbytes ring_heap ∨ USIZE_MAX < nbytes + 16.
Proof.
  unfold alloc. destruct (USIZE_MAX <? nbytes + 16) eqn:Ho; bool_to_prop; [by right|left].
  rewrite !(bind_ok m_get _ _ _ _ eq_refl). cbn [freep fresh_heap ring_heap].
  by erewrite (bind_ok _ _ fresh_heap base ring_heap).
Qed.

(** ** Programs

    What a program does with the allocator: requests, returns of blocks it
    holds, and writes to its blocks, which may change anything between the
    block's header and its end. *)
Inductive ustep : Heap * list blk → Heap * list blk → Prop :=
| us_alloc h live n a h' : 0 ≤ n ≤ ISIZE_MAX → alloc base grow n h = (Ok (Some a), h') →
    ustep (h, live) (h', (a - 16, (n + 15) / 16 + 1) :: live)
| us_null h live n h' : 0 ≤ n ≤ ISIZE_MAX → alloc base grow n h = (Ok None, h') → ustep (h, live) (h', live)
| us_free h l1 b k l2 h' : free (b + 16) h = (Ok (), h') → ustep (h, l1 ++ (b, k) :: l2) (h', l1 ++ l2)
| us_write h live b k m' : (b, k) ∈ live → (∀ a, ¬ (b < a < b + 16 * k) → m' !! a = hdrs h !! a) →
    ustep (h, live) (mkHeap (freep h) m' (brk h), live).

Definition uinv (s : Heap * list blk) : Prop := s = (fresh_heap, []) ∨ ∃ fl, heap_ok s.1 fl s.2.

Lemma heap_ok_write h fl live b k m' : heap_ok h fl live → (b, k) ∈ live →
  (∀ a, ¬ (b < a < b + 16 * k) → m' !! a = hdrs h !! a) → heap_ok (mkHeap (freep h) m' (brk h)) fl live.
Proof.
  intros Hok Hb Hm. destruct (block_in_heap _ _ _ b k Hok) as (? & ? & ?); [by apply elem_of_app; right|].
  apply list_elem_of_split in Hb as (l1 & l2 & ->).
  assert (∀ c i, (c, i) ∈ (base, 0) :: fl ++ l1 ++ (b, k) :: l2 → m' !! c = hdrs h !! c) as Hsame.
  { intros c i [[= -> ->]|Hc]%elem_of_cons; [apply Hm; lia|]. apply Hm.
    assert ((c, i) = (b, k) ∨ (c, i) ∈ (fl ++ l1) ++ l2) as [[= -> ->]|Hc'] by (rewrite !elem_of_app, elem_of_cons in *; tauto); [lia|].
    destruct (block_others _ _ _ _ b k _ Hok ltac:(by rewrite app_assoc) c i Hc') as (? & ? & [?|?]); lia. }
  destruct Hok as [Hring Hap Hsz Hal Hbrk Htile Hlive Hfreep]. split; cbn [hdrs freep brk]; [|done..| |done].
  - eapply seg_ext; [|exact Hring]. intros a n Ha. apply (Hsame a n). rewrite elem_of_cons, elem_of_app in *. tauto.
  - rewrite Forall_forall in Hlive |- *. intros [c i] Hc. cbn [fst snd]. rewrite (Hsame c i); [by apply (Hlive (c, i))|].
    right. by apply elem_of_app; right.
Qed.

Context (Hmod : brk0 `mod` 16 = 0).

Lemma uinv_alloc s n : uinv s → 0 ≤ n ≤ ISIZE_MAX → ∃ h fl, heap_ok h fl s.2 ∧ brk h = brk s.1 ∧
  alloc base grow n s.1 = alloc base grow n h.
Proof.
  intros [->|[fl Hok]] Hn; [|by exists s.1, fl]. exists ring_heap, []. split_and!; [by apply ring_heap_ok|done|]. cbn [fst].
  destruct (alloc_fresh n) as [|Ho]; [done|]. unfold USIZE_MAX, ISIZE_MAX in *. lia.
Qed.

Lemma ustep_inv s s' : uinv s → ustep s s' → uinv s'.
Proof.
  intros Hinv Hstep. destruct Hstep as [h live n a h' Hn Hrun|h live n h' Hn Hrun|h l1 b k l2 h' Hrun|h live b k m' Hb Hm].
  - destruct (uinv_alloc _ _ Hinv Hn) as (h0 & fl & Hok & _ & Heq). cbn [fst snd] in *. rewrite Hrun in Heq.
    destruct (alloc_ok _ _ _ _ Hok Hn) as [(q & h1 & fl' & Hr & Hok')|[Hr _]]; rewrite Hr in Heq; [|done].
    simplify_eq. replace (q + 16 - 16) with q by lia. right. by exists fl'.
  - destruct (uinv_alloc _ _ Hinv Hn) as (h0 & fl & Hok & _ & Heq). cbn [fst snd] in *. rewrite Hrun in Heq.
    destruct (alloc_ok _ _ _ _ Hok Hn) as [(q & h1 & fl' & Hr & Hok')|[Hr _]]; rewrite Hr in Heq; [done|].
    simplify_eq. right. by exists fl.
  - destruct Hinv as [Heq|[fl Hok]]; [by destruct l1|]. cbn [fst snd] in *.
    destruct (free_ok h fl (l1 ++ l2) b k) as (h1 & fl' & Hr & Hok' & _); [eapply heap_ok_perm; [|exact Hok]; solve_Permutation|].
    rewrite Hrun in Hr. simplify_eq. right. by exists fl'.
  - destruct Hinv as [Heq|[fl Hok]]; [simplify_eq; by apply elem_of_nil in Hb|]. right. exists fl. by eapply heap_ok_write.
Qed.

(** With nothing in use the heap is one free block. *)
Lemma all_free h fl : heap_ok h fl [] → brk0 < brk h → ∃ n, fl = [(brk0, n)] ∧ 16 * n = brk h - brk0.
Proof.
  intros Hok Hlt. pose proof (λ b k, block_in_heap _ _ _ b k Hok) as Hin. destruct Hok as [_ [_ Hap] _ _ _ Htile _ _].
  rewrite app_nil_r in *. destruct fl as [|[a n] fl]; [specialize (Htile brk0); simpl in Htile; case_decide; lia|].
  destruct (Hin a n) as (? & ? & ?); [left|]. destruct Hap as [Hfst Hap].
  destruct fl as [|[b k] fl].
  - exists n. pose proof (Htile brk0) as Hlo. pose proof (Htile (a + 16 * n)) as Hhi. cbn [cov] in Hlo, Hhi.
    assert (a = brk0 ∧ a + 16 * n = brk h) as [-> <-]; [|split; [done|lia]]. repeat case_decide; cov_lia.
  - exfalso. assert (cov ((a, n) :: (b, k) :: fl) (a + 16 * n) = 0) as Hgap.
    { cbn [cov]. assert (∀ l, Forall (λ b, a + 16 * n < b.1) l → cov l (a + 16 * n) = 0) as Hz.
      { intros l. induction 1; simpl; [done|]. cov_lia. }
      specialize (Hz _ Hfst). cbn [cov] in Hz. rewrite Hz. clear. cov_lia. }
    rewrite Htile in Hgap. destruct (Hin b k) as (? & ? & ?); [set_solver|]. apply Forall_cons in Hfst as [Hb _]. simpl in Hb.
    case_decide; lia.
Qed.

End contract.

