(* ===== verification/FTable.v ===== *)
(** * The table of open files

    [kernel/src/file.rs], the life of a [VFile]: [FTable::alloc] puts it in a
    slot of the table and hands out a [File]; descriptors are copied with
    [clone]; [Drop for File] takes the file out of the table when its caller
    is the last holder.  An [Arc] is a number with a strong count; dropping the
    last one, or unwrapping it, runs the destructor, recorded in [dropped]
    with a flag that says whether the drop has a transaction of its own.

    [Drop for File] reads the count, reads it again, takes the lock of the
    table, and unwraps the [Arc] one after the other without holding anything
    across them, so these are separate steps ([advance]) that any number of
    threads interleave. *)

From stdpp Require Import base tactics numbers gmap list relations.
From S2P Require Import Prelude Params Errors Fcntl FsLayout FileNode.
Local Open Scope nat_scope.

(** [struct DNod]: the driver, by its major number. *)
Record DNod := mkDNod { dn_major : Major; dn_off : Z; dn_ip : nat }.

(** [enum VFile], over the types of pipes and sockets. *)
Inductive VFile (P K I : Type) :=
| VDevice (d : DNod)
| VInode (f : FNod)
| VPipe (p : P)
| VSocket (s : K)
| VInetSocket (s : I)
| VRemote (handle : Z)
| VNone.
Arguments VDevice {P K I} d.
Arguments VInode {P K I} f.
Arguments VPipe {P K I} p.
Arguments VSocket {P K I} s.
Arguments VInetSocket {P K I} s.
Arguments VRemote {P K I} handle.
Arguments VNone {P K I}.

(** [struct File]. *)
Record File := mkFile {
  f_obj : nat;
  f_readable : bool;
  f_writable : bool;
  f_cloexec : bool;
  f_nonblock : bool;
  f_append : bool;
}.

Section ftable.
Context {P K I : Type}.
Abbreviation VF := (VFile P K I).

Record FTable := mkFT {
  slots : list (option nat);
  strong : gmap nat nat;
  nodes : gmap nat VF;
  fresh : nat;
  dropped : list (bool * VF);
}.
Abbreviation FT := (M Error FTable).

Definition ftable_new : FTable := mkFT (replicate NFILE None) ∅ ∅ 0 [].

(** ** [Arc<VFile>] *)
Definition arc_new (v : VF) : FT nat := λ ft,
  (Ok (fresh ft), mkFT (slots ft) (<[fresh ft := 1]> (strong ft)) (<[fresh ft := v]> (nodes ft)) (S (fresh ft)) (dropped ft)).
Definition strong_count (o : nat) : FT nat := λ ft,
  match strong ft !! o with Some n => (Ok n, ft) | None => (Panic, ft) end.
Definition set_strong (o n : nat) : FT () := λ ft,
  (Ok (), mkFT (slots ft) (<[o := n]> (strong ft)) (nodes ft) (fresh ft) (dropped ft)).
Definition arc_clone (o : nat) : FT () := n ← strong_count o; set_strong o (S n).
(** The destructor of the [VFile] itself. *)
Definition arc_free (o : nat) (txn : VF → bool) : FT () := λ ft,
  match nodes ft !! o with
  | Some v => (Ok (), mkFT (slots ft) (delete o (strong ft)) (delete o (nodes ft)) (fresh ft) (dropped ft ++ [(txn v, v)]))
  | None => (Panic, ft)
  end.
Definition arc_drop (o : nat) : FT () :=
  n ← strong_count o;
  if n =? 1 then arc_free o (λ _, false) else set_strong o (n - 1).

(** ** [FTable::alloc], once the [VFile] is made *)
Definition ftable_alloc (opts : OMode) (v : VF) : FT File :=
  o ← arc_new v;
  ft ← m_get;
  match list_find (λ s, s = None) (slots ft) with
  | None => _ ← arc_drop o; m_err FileTableOverflow
  | Some (i, _) =>
      _ ← m_put (mkFT (<[i := Some o]> (slots ft)) (strong ft) (nodes ft) (fresh ft) (dropped ft));
      _ ← arc_clone o;
      mret (mkFile o (om_read opts) (om_write opts) (om_cloexec opts) (om_nonblock opts) (om_append opts))
  end.

(** [File::clone]: the flags are copied, the [VFile] is shared. *)
Definition file_clone (f : File) : FT File := _ ← arc_clone (f_obj f); mret f.

(** ** [Drop for File] *)
Definition drop_check (o : nat) : FT () :=
  n ← strong_count o;
  if n <? 2 then m_panic else mret ().
Definition drop_last (o : nat) : FT bool := n ← strong_count o; mret (n =? 2).

Definition take_slot (o i : nat) : FT () := λ ft,
  if decide (slots ft !! i = Some (Some o)) then
    arc_drop o (mkFT (<[i := None]> (slots ft)) (strong ft) (nodes ft) (fresh ft) (dropped ft))
  else (Ok (), ft).
Definition remove_from_table (o : nat) : FT () := λ ft, m_for (seq 0 (length (slots ft))) (take_slot o) ft.

(** [Arc::try_unwrap] and the drop of the inode it holds, inside
    [begin_op] and [end_op]. *)
Definition is_node (v : VF) : bool := match v with VInode _ | VDevice _ => true | _ => false end.
Definition try_unwrap (o : nat) : FT bool :=
  n ← strong_count o;
  if n =? 1 then _ ← arc_free o is_node; mret true else mret false.

Definition file_drop (o : nat) : FT () :=
  _ ← drop_check o;
  last ← drop_last o;
  _ ← (if last : bool then remove_from_table o else mret ());
  ok ← try_unwrap o;
  if ok : bool then mret () else arc_drop o.

(** Where a holder of an [Arc] is in its destructor. *)
Inductive phase := Held | Tested | Checked (last : bool) | Removed | Failed | Gone.
Global Instance phase_eq_dec : EqDecision phase.
Proof. solve_decision. Defined.

Definition advance (ph : phase) (o : nat) : FT phase :=
  match ph with
  | Held => _ ← drop_check o; mret Tested
  | Tested => last ← drop_last o; mret (Checked last)
  | Checked true => _ ← remove_from_table o; mret Removed
  | Checked false | Removed => ok ← try_unwrap o; mret (if ok : bool then Gone else Failed)
  | Failed => _ ← arc_drop o; mret Gone
  | Gone => mret Gone
  end.

(** All the holders of a machine; [serial]: a drop starts only when no other
    holder of the same file is in the middle of its own. *)
Inductive hstep (serial : bool) : FTable * list (nat * phase) → FTable * list (nat * phase) → Prop :=
| hs_alloc ft hs opts v f ft' : ftable_alloc opts v ft = (Ok f, ft') →
    hstep serial (ft, hs) (ft', hs ++ [(f_obj f, Held)])
| hs_full ft hs opts v e ft' : ftable_alloc opts v ft = (Err e, ft') → hstep serial (ft, hs) (ft', hs)
| hs_clone ft hs i o ft' : hs !! i = Some (o, Held) → arc_clone o ft = (Ok (), ft') →
    hstep serial (ft, hs) (ft', hs ++ [(o, Held)])
| hs_drop ft hs i o ph ph' ft' : hs !! i = Some (o, ph) → ph ≠ Gone →
    (serial = true → ph = Held → ∀ j q, hs !! j = Some (o, q) → q = Held ∨ q = Gone) →
    advance ph o ft = (Ok ph', ft') → hstep serial (ft, hs) (ft', <[i := (o, ph')]> hs).

(** ** The invariant *)
Definition holders (o : nat) (hs : list (nat * phase)) : nat := length (filter (λ h, h.1 = o ∧ h.2 ≠ Gone) hs).
Definition in_table (o : nat) (sl : list (option nat)) : nat := length (filter (λ s, s = Some o) sl).

(** What a holder in phase [ph] knows of the slots and holders of its file. *)
Definition phase_ok (ph : phase) (T H : nat) : Prop :=
  match ph with
  | Held | Tested | Checked false | Failed => T = 1
  | Checked true => T = 1 ∧ H = 1
  | Removed => T = 0 ∧ H = 1
  | Gone => True
  end.

Record ft_ok (ft : FTable) (hs : list (nat * phase)) : Prop := {
  ok_slots : length (slots ft) = NFILE;
  ok_count o : strong ft !! o = (let n := holders o hs + in_table o (slots ft) in if n =? 0 then None else Some n);
  ok_nodes o : is_Some (nodes ft !! o) ↔ is_Some (strong ft !! o);
  ok_once o : in_table o (slots ft) ≤ 1;
  ok_total : length (dropped ft) + size (nodes ft) = fresh ft;
  ok_fresh o : fresh ft ≤ o → holders o hs + in_table o (slots ft) = 0;
  ok_phase i o ph : hs !! i = Some (o, ph) → phase_ok ph (in_table o (slots ft)) (holders o hs) }.
End ftable.

(** *** Counting holders and slots *)
Section counts.
Implicit Types (hs : list (nat * phase)) (sl : list (option nat)).

Lemma holders_insert hs i o ph ph' o' : hs !! i = Some (o, ph) →
  holders o' (<[i := (o, ph')]> hs) + (if decide (o = o' ∧ ph ≠ Gone) then 1 else 0)
  = holders o' hs + (if decide (o = o' ∧ ph' ≠ Gone) then 1 else 0).
Proof. exact (count_insert (λ h : nat * phase, h.1 = o' ∧ h.2 ≠ Gone) hs i (o, ph) (o, ph')). Qed.

Lemma holders_snoc hs o ph o' : holders o' (hs ++ [(o, ph)]) = holders o' hs + (if decide (o = o' ∧ ph ≠ Gone) then 1 else 0).
Proof. unfold holders. rewrite filter_app, length_app, filter_cons. simpl. by destruct (decide _). Qed.

Lemma holders_pos hs i o ph : hs !! i = Some (o, ph) → ph ≠ Gone → 0 < holders o hs.
Proof. intros Hi Hph. pose proof (holders_insert hs i o ph Gone o Hi) as H. rewrite decide_True, decide_False in H by naive_solver. lia. Qed.

Lemma holders_two hs i j o p q : i ≠ j → hs !! i = Some (o, p) → hs !! j = Some (o, q) → p ≠ Gone → q ≠ Gone → 2 ≤ holders o hs.
Proof.
  intros Hij Hi Hj Hp Hq. pose proof (holders_insert hs i o p Gone o Hi) as H. rewrite decide_True, decide_False in H by naive_solver.
  pose proof (holders_pos (<[i := (o, Gone)]> hs) j o q) as H2. rewrite list_lookup_insert_ne in H2 by done. specialize (H2 Hj Hq). lia.
Qed.

Lemma in_table_insert sl i x y o : sl !! i = Some x →
  in_table o (<[i := y]> sl) + (if decide (x = Some o) then 1 else 0) = in_table o sl + (if decide (y = Some o) then 1 else 0).
Proof. exact (count_insert (λ s, s = Some o) sl i x y). Qed.

Lemma in_table_elem sl o : 0 < in_table o sl → ∃ i, sl !! i = Some (Some o).
Proof.
  unfold in_table. destruct (filter _ sl) as [|x l] eqn:Hf; [simpl; lia|]. intros _.
  assert (x ∈ filter (λ s, s = Some o) sl) as [-> Hin]%list_elem_of_filter by (rewrite Hf; left). by apply list_elem_of_lookup in Hin.
Qed.

Lemma in_table_unique sl o i j : in_table o sl ≤ 1 → sl !! i = Some (Some o) → sl !! j = Some (Some o) → i = j.
Proof.
  intros H1 Hi Hj. destruct (decide (i = j)) as [|Hij]; [done|]. pose proof (in_table_insert sl i _ None o Hi) as H.
  rewrite decide_True, decide_False in H by done.
  pose proof (in_table_insert (<[i := None]> sl) j (Some o) None o) as H2. rewrite list_lookup_insert_ne in H2 by done.
  specialize (H2 Hj). rewrite decide_True, decide_False in H2 by done. lia.
Qed.
End counts.

(** Decide a comparison of naturals by arithmetic. *)
Ltac nat_test e b :=
  replace e with b by (symmetry; first [apply Nat.eqb_neq; lia|apply Nat.eqb_eq; lia|apply Nat.ltb_ge; lia|apply Nat.ltb_lt; lia]).

Lemma m_for_app {E S A} (l1 l2 : list A) (f : A → M E S ()) s : m_for (l1 ++ l2) f s = (_ ← m_for l1 f; m_for l2 f) s.
Proof.
  revert s. induction l1 as [|x l1 IH]; intros s; [done|]. cbn [m_for app]. unfold mbind, M_bind in *.
  destruct (f x s) as [[[]| |] s']; [apply IH|done|done].
Qed.

Section safety.
Context {P K I : Type}.
Abbreviation state := (FTable (P := P) (K := K) (I := I) * list (nat * phase))%type.
Implicit Types (ft : FTable (P := P) (K := K) (I := I)) (hs : list (nat * phase)).

Lemma strong_pos ft hs o : ft_ok ft hs → 0 < holders o hs + in_table o (slots ft) →
  strong ft !! o = Some (holders o hs + in_table o (slots ft)).
Proof. intros [] Hn. rewrite ok_count0. cbv zeta. case_match; bool_to_prop; [lia|done]. Qed.

Lemma strong_count_ok ft o n : strong ft !! o = Some n → strong_count o ft = (Ok n, ft).
Proof. unfold strong_count. by intros ->. Qed.

Lemma arc_drop_more ft o n : strong ft !! o = Some n → 2 ≤ n →
  arc_drop o ft = (Ok (), mkFT (slots ft) (<[o := n - 1]> (strong ft)) (nodes ft) (fresh ft) (dropped ft)).
Proof.
  intros Ho Hn. unfold arc_drop. rewrite (bind_ok _ _ _ _ _ (strong_count_ok _ _ _ Ho)). by nat_test (n =? 1) false.
Qed.

(** The only slot of a file is cleared. *)
Lemma take_slot_skip o l ft : (∀ j, j ∈ l → slots ft !! j ≠ Some (Some o)) → m_for l (take_slot o) ft = (Ok (), ft).
Proof.
  induction l as [|j l IH]; intros Hl; [done|]. cbn [m_for].
  rewrite (bind_ok _ _ ft () ft); [apply IH; intros; apply Hl; by right|]. unfold take_slot. rewrite decide_False; [done|]. apply Hl. left.
Qed.

Lemma take_slot_hit ft o i n : slots ft !! i = Some (Some o) → strong ft !! o = Some n → 2 ≤ n →
  take_slot o i ft = (Ok (), mkFT (<[i := None]> (slots ft)) (<[o := n - 1]> (strong ft)) (nodes ft) (fresh ft) (dropped ft)).
Proof. intros Hi Ho Hn. unfold take_slot. rewrite decide_True by done. by apply (arc_drop_more (mkFT _ _ _ _ _) o n). Qed.

Lemma remove_run ft o i n : in_table o (slots ft) ≤ 1 → slots ft !! i = Some (Some o) → strong ft !! o = Some n → 2 ≤ n →
  remove_from_table o ft = (Ok (), mkFT (<[i := None]> (slots ft)) (<[o := n - 1]> (strong ft)) (nodes ft) (fresh ft) (dropped ft)).
Proof.
  intros H1 Hi Ho Hn. unfold remove_from_table. assert (i < length (slots ft)) as Hlt by by eapply lookup_lt_Some.
  replace (length (slots ft)) with (i + S (length (slots ft) - S i)) by lia. rewrite seq_app. cbn [seq plus].
  rewrite m_for_app, (bind_ok _ _ ft () ft).
  2: { apply take_slot_skip. intros j [_ Hj]%elem_of_seq Hs. pose proof (in_table_unique _ _ _ _ H1 Hi Hs). lia. }
  cbn [m_for]. rewrite (bind_ok _ _ _ _ _ (take_slot_hit _ _ _ _ Hi Ho Hn)).
  apply take_slot_skip. cbn [slots]. intros j [Hj _]%elem_of_seq Hs. rewrite list_lookup_insert_ne in Hs by lia.
  pose proof (in_table_unique _ _ _ _ H1 Hi Hs). lia.
Qed.

(** A holder moves on; nobody else is touched. *)
Lemma phase_others hs i o ph' j o' q :
  <[i := (o, ph')]> hs !! j = Some (o', q) → (j = i ∧ o' = o ∧ q = ph') ∨ (j ≠ i ∧ hs !! j = Some (o', q)).
Proof.
  destruct (decide (i = j)) as [<-|Hij]; [|rewrite list_lookup_insert_ne by done; naive_solver].
  intros Hl. assert (i < length hs) as Hlt by (apply lookup_lt_Some in Hl; by rewrite length_insert in Hl).
  rewrite list_lookup_insert_eq in Hl by done. left. naive_solver.
Qed.

(** The state after a change of one count. *)
Lemma ft_ok_update ft hs ft' hs' o : ft_ok ft hs → length (slots ft') = NFILE → fresh ft' = fresh ft → length (dropped ft') + size (nodes ft') = fresh ft' →
  (∀ o', o' ≠ o → strong ft' !! o' = strong ft !! o' ∧ nodes ft' !! o' = nodes ft !! o' ∧
     holders o' hs' = holders o' hs ∧ in_table o' (slots ft') = in_table o' (slots ft)) →
  (∀ i o' q, hs' !! i = Some (o', q) → o' ≠ o → hs !! i = Some (o', q)) →
  o < fresh ft → in_table o (slots ft') ≤ 1 →
  strong ft' !! o = (let n := holders o hs' + in_table o (slots ft') in if n =? 0 then None else Some n) →
  (is_Some (nodes ft' !! o) ↔ is_Some (strong ft' !! o)) →
  (∀ i ph, hs' !! i = Some (o, ph) → phase_ok ph (in_table o (slots ft')) (holders o hs')) →
  ft_ok ft' hs'.
Proof.
  intros [Hsl Hc Hn Ho _ Hf Hp] Hsl' Hfr Htot Hoth Hhs Hlt Hone Hst Hnd Hph. split; [done|..|done| |].
  - intros o'. destruct (decide (o' = o)) as [->|Hne]; [done|]. destruct (Hoth o' Hne) as (-> & _ & -> & ->). apply Hc.
  - intros o'. destruct (decide (o' = o)) as [->|Hne]; [done|]. destruct (Hoth o' Hne) as (-> & -> & _). apply Hn.
  - intros o'. destruct (decide (o' = o)) as [->|Hne]; [done|]. destruct (Hoth o' Hne) as (_ & _ & _ & ->). apply Ho.
  - intros o'. rewrite Hfr. destruct (decide (o' = o)) as [->|Hne]; [lia|]. destruct (Hoth o' Hne) as (_ & _ & -> & ->). apply Hf.
  - intros i o' ph Hi. destruct (decide (o' = o)) as [->|Hne]; [by eapply Hph|].
    destruct (Hoth o' Hne) as (_ & _ & -> & ->). eapply Hp, Hhs; done.
Qed.

Lemma holders_other hs i o ph ph' o' : hs !! i = Some (o, ph) → o' ≠ o → holders o' (<[i := (o, ph')]> hs) = holders o' hs.
Proof. intros Hi Hne. pose proof (holders_insert hs i o ph ph' o' Hi) as H. rewrite !decide_False in H by naive_solver. lia. Qed.

(** A holder that stays one. *)
Lemma holders_same hs i o ph ph' : hs !! i = Some (o, ph) → ph ≠ Gone → ph' ≠ Gone → holders o (<[i := (o, ph')]> hs) = holders o hs.
Proof. intros Hi Hp Hp'. pose proof (holders_insert hs i o ph ph' o Hi) as H. rewrite !decide_True in H by done. lia. Qed.

Lemma holders_gone hs i o ph : hs !! i = Some (o, ph) → ph ≠ Gone → S (holders o (<[i := (o, Gone)]> hs)) = holders o hs.
Proof. intros Hi Hp. pose proof (holders_insert hs i o ph Gone o Hi) as H. rewrite decide_True, decide_False in H by naive_solver. lia. Qed.

Lemma held_below ft hs i o ph : ft_ok ft hs → hs !! i = Some (o, ph) → ph ≠ Gone → o < fresh ft.
Proof.
  intros [] Hi Hph. pose proof (holders_pos _ _ _ _ Hi Hph). destruct (decide (o < fresh ft)); [done|]. specialize (ok_fresh0 o). lia.
Qed.

(** The other holders when one of them changes. *)
Lemma phase_kept ft hs i o ph ph' ft' : ft_ok ft hs → hs !! i = Some (o, ph) → ph ≠ Gone →
  in_table o (slots ft') = in_table o (slots ft) ∨ holders o hs = 1 →
  phase_ok ph' (in_table o (slots ft')) (holders o (<[i := (o, ph')]> hs)) →
  ∀ j q, <[i := (o, ph')]> hs !! j = Some (o, q) → phase_ok q (in_table o (slots ft')) (holders o (<[i := (o, ph')]> hs)).
Proof.
  intros Hok Hi Hph Ht Hnew j q [(-> & _ & ->)|[Hj Hq]]%phase_others; [done|]. destruct Hok. pose proof (ok_phase0 _ _ _ Hq) as Hp.
  destruct (decide (q = Gone)) as [->|Hg]; [done|]. pose proof (holders_two _ _ _ _ _ _ Hj Hq Hi Hg Hph) as H2.
  destruct Ht as [->|?]; [|lia]. destruct q as [| |[]| | |]; simpl in *; lia.
Qed.

Lemma move_ok ft hs i o ph ph' ft' H : ft_ok ft hs → hs !! i = Some (o, ph) → ph ≠ Gone →
  holders o (<[i := (o, ph')]> hs) = H → length (slots ft') = NFILE → fresh ft' = fresh ft → length (dropped ft') + size (nodes ft') = fresh ft' →
  (∀ o', o' ≠ o → strong ft' !! o' = strong ft !! o' ∧ nodes ft' !! o' = nodes ft !! o' ∧ in_table o' (slots ft') = in_table o' (slots ft)) →
  in_table o (slots ft') ≤ 1 →
  strong ft' !! o = (let n := H + in_table o (slots ft') in if n =? 0 then None else Some n) →
  (is_Some (nodes ft' !! o) ↔ is_Some (strong ft' !! o)) →
  in_table o (slots ft') = in_table o (slots ft) ∨ holders o hs = 1 →
  phase_ok ph' (in_table o (slots ft')) H →
  ft_ok ft' (<[i := (o, ph')]> hs).
Proof.
  intros Hok Hi Hph <- Hsl Hfr Htot Hoth Hone Hst Hnd Ht Hnew. eapply (ft_ok_update ft hs _ _ o); [done|done|done|done|..|done|done|done|].
  - intros o' Hne. destruct (Hoth o' Hne) as (? & ? & ?). split_and!; [done..| |done]. by eapply holders_other.
  - intros j o' q [(_ & ? & _)|[_ ?]]%phase_others Hne; done.
  - by eapply held_below.
  - by eapply phase_kept.
Qed.

(** One step of a destructor, from each phase. *)
Section one.
Context ft hs (i o : nat) (Hok : ft_ok ft hs).

Lemma advance_held : hs !! i = Some (o, Held) → advance Held o ft = (Ok Tested, ft) ∧ ft_ok ft (<[i := (o, Tested)]> hs).
Proof.
  intros Hi. pose proof (holders_pos _ _ _ _ Hi ltac:(done)) as HH. pose proof (ok_phase _ _ Hok _ _ _ Hi) as Hp. simpl in Hp.
  pose proof (strong_pos _ _ o Hok ltac:(lia)) as Hs. rewrite Hp in Hs. split.
  - unfold advance, drop_check. erewrite bind_ok; [|rewrite (bind_ok _ _ _ _ _ (strong_count_ok _ _ _ Hs))].
    2: { by nat_test (holders o hs + 1 <? 2) false. } done.
  - pose proof Hok as []. eapply (move_ok ft hs i o Held); [done|done|done|by eapply holders_same|done|done|done|done| | |done|by left|]; rewrite ?Hp; [done|by rewrite ok_count0, Hp|done].
Qed.

Lemma advance_tested : hs !! i = Some (o, Tested) →
  advance Tested o ft = (Ok (Checked (holders o hs =? 1)), ft) ∧ ft_ok ft (<[i := (o, Checked (holders o hs =? 1))]> hs).
Proof.
  intros Hi. pose proof (holders_pos _ _ _ _ Hi ltac:(done)) as HH. pose proof (ok_phase _ _ Hok _ _ _ Hi) as Hp. simpl in Hp.
  pose proof (strong_pos _ _ o Hok ltac:(lia)) as Hs. rewrite Hp in Hs. split.
  - unfold advance, drop_last. erewrite bind_ok; [|by rewrite (bind_ok _ _ _ _ _ (strong_count_ok _ _ _ Hs))].
    assert ((holders o hs + 1 =? 2) = (holders o hs =? 1)) as ->; [|done].
    destruct (holders o hs =? 1) eqn:E; bool_to_prop; [by rewrite E|by nat_test (holders o hs + 1 =? 2) false].
  - pose proof Hok as []. eapply (move_ok ft hs i o Tested); [done|done|done|by eapply holders_same|done|done|done|done| | |done|by left|]; rewrite ?Hp; [done|by rewrite ok_count0, Hp|].
    destruct (holders o hs =? 1) eqn:E; bool_to_prop; done.
Qed.

Lemma advance_last : hs !! i = Some (o, Checked true) →
  ∃ j, slots ft !! j = Some (Some o) ∧
    let ft' := mkFT (<[j := None]> (slots ft)) (<[o := 1]> (strong ft)) (nodes ft) (fresh ft) (dropped ft) in
    advance (Checked true) o ft = (Ok Removed, ft') ∧ ft_ok ft' (<[i := (o, Removed)]> hs).
Proof.
  intros Hi. pose proof (ok_phase _ _ Hok _ _ _ Hi) as [Ht Hh]. pose proof (strong_pos _ _ o Hok ltac:(lia)) as Hs. rewrite Hh, Ht in Hs.
  destruct (in_table_elem (slots ft) o) as [j Hj]; [lia|]. exists j. split; [done|]. pose proof Hok as [].
  assert (∀ o', in_table o' (<[j := None]> (slots ft)) + (if decide (o' = o) then 1 else 0) = in_table o' (slots ft)) as Hcl.
  { intros o'. pose proof (in_table_insert _ _ _ None o' Hj) as H. rewrite (decide_False (P := None = Some o')) in H by done.
    destruct (decide (o' = o)) as [->|]; [rewrite decide_True in H by done|rewrite decide_False in H by naive_solver]; lia. }
  pose proof (Hcl o) as Hcl0. rewrite decide_True, Ht in Hcl0 by done. assert (in_table o (<[j := None]> (slots ft)) = 0) as Hz by lia. split.
  - unfold advance. rewrite (bind_ok _ _ _ _ _ (remove_run ft o j 2 ltac:(lia) Hj Hs ltac:(lia))). done.
  - eapply (move_ok ft hs i o (Checked true)); [done|done|done|by eapply holders_same|cbn [slots strong nodes fresh]..].
    + by rewrite length_insert.
    + done.
    + done.
    + intros o' Hne. rewrite lookup_insert_ne by done. specialize (Hcl o'). rewrite decide_False in Hcl by done. split_and!; [done..|lia].
    + lia.
    + by rewrite lookup_insert_eq, Hz, Hh.
    + rewrite lookup_insert_eq. split; [done|]. intros _. apply ok_nodes0. by rewrite Hs.
    + by right.
    + by rewrite Hz, Hh.
Qed.

Lemma advance_checked : hs !! i = Some (o, Checked false) →
  advance (Checked false) o ft = (Ok Failed, ft) ∧ ft_ok ft (<[i := (o, Failed)]> hs).
Proof.
  intros Hi. pose proof (ok_phase _ _ Hok _ _ _ Hi) as Hp. simpl in Hp. pose proof (holders_pos _ _ _ _ Hi ltac:(done)) as HH.
  pose proof (strong_pos _ _ o Hok ltac:(lia)) as Hs. rewrite Hp in Hs. split.
  - unfold advance, try_unwrap. erewrite bind_ok; [|rewrite (bind_ok _ _ _ _ _ (strong_count_ok _ _ _ Hs))].
    2: { by nat_test (holders o hs + 1 =? 1) false. } done.
  - pose proof Hok as []. eapply (move_ok ft hs i o (Checked false)); [done|done|done|by eapply holders_same|done|done|done|done| | |done|by left|]; rewrite ?Hp; [done|by rewrite ok_count0, Hp|done].
Qed.

Lemma advance_removed : hs !! i = Some (o, Removed) → ∃ v, nodes ft !! o = Some v ∧
  let ft' := mkFT (slots ft) (delete o (strong ft)) (delete o (nodes ft)) (fresh ft) (dropped ft ++ [(is_node v, v)]) in
  advance Removed o ft = (Ok Gone, ft') ∧ ft_ok ft' (<[i := (o, Gone)]> hs).
Proof.
  intros Hi. pose proof (ok_phase _ _ Hok _ _ _ Hi) as [Ht Hh]. pose proof (strong_pos _ _ o Hok ltac:(lia)) as Hs. rewrite Hh, Ht in Hs.
  change (1 + 0) with 1 in Hs. pose proof Hok as []. assert (is_Some (nodes ft !! o)) as [v Hv] by (apply ok_nodes0; by rewrite Hs). exists v. split; [done|]. split.
  - unfold advance, try_unwrap. erewrite bind_ok; [|rewrite (bind_ok _ _ _ _ _ (strong_count_ok _ _ _ Hs))].
    2: { cbn [Nat.eqb]. cbv iota. erewrite bind_ok; [done|]. unfold arc_free. by rewrite Hv. } done.
  - pose proof (holders_gone _ _ _ _ Hi ltac:(done)) as Hg.
    eapply (move_ok ft hs i o Removed _ _ 0); [done|done|done|lia|cbn [slots strong nodes fresh dropped]..]; [done|done|..].
    + rewrite length_app, map_size_delete_Some by by rewrite Hv. simpl.
      assert (size (nodes ft) ≠ 0) by (intros Hz%map_size_empty_inv; by rewrite Hz in Hv). lia.
    + intros o' Hne. by rewrite !lookup_delete_ne.
    + lia.
    + by rewrite lookup_delete_eq, Ht.
    + rewrite !lookup_delete_eq. split; by intros [? ?].
    + by left.
    + done.
Qed.

Lemma advance_failed : hs !! i = Some (o, Failed) →
  let ft' := mkFT (slots ft) (<[o := holders o hs]> (strong ft)) (nodes ft) (fresh ft) (dropped ft) in
  advance Failed o ft = (Ok Gone, ft') ∧ ft_ok ft' (<[i := (o, Gone)]> hs).
Proof.
  intros Hi. pose proof (ok_phase _ _ Hok _ _ _ Hi) as Ht. simpl in Ht. pose proof (holders_pos _ _ _ _ Hi ltac:(done)) as HH.
  pose proof (strong_pos _ _ o Hok ltac:(lia)) as Hs. rewrite Ht in Hs. pose proof Hok as []. split.
  - unfold advance. rewrite (bind_ok _ _ _ _ _ (arc_drop_more _ _ _ Hs ltac:(lia))). by rewrite Nat.add_sub.
  - pose proof (holders_gone _ _ _ _ Hi ltac:(done)) as Hg.
    eapply (move_ok ft hs i o Failed _ _ (holders o hs - 1)); [done|done|done|lia|cbn [slots strong nodes fresh dropped]..]; [done|done|done|..].
    + intros o' Hne. by rewrite lookup_insert_ne.
    + lia.
    + rewrite lookup_insert_eq, Ht. cbv zeta. nat_test (holders o hs - 1 + 1 =? 0) false. f_equal. lia.
    + rewrite lookup_insert_eq. split; [done|]. intros _. apply ok_nodes0. by rewrite Hs.
    + by left.
    + done.
Qed.
End one.

(** A new holder at the end of the list. *)
Lemma snoc_ok ft hs o ft' : ft_ok ft hs → length (slots ft') = NFILE → fresh ft ≤ fresh ft' → o < fresh ft' → length (dropped ft') + size (nodes ft') = fresh ft' →
  (∀ o', o' ≠ o → strong ft' !! o' = strong ft !! o' ∧ nodes ft' !! o' = nodes ft !! o' ∧ in_table o' (slots ft') = in_table o' (slots ft)) →
  in_table o (slots ft') = 1 → strong ft' !! o = Some (holders o hs + 2) → is_Some (nodes ft' !! o) →
  (∀ i ph, hs !! i = Some (o, ph) → ph ≠ Gone → in_table o (slots ft) = 1 ∧ (holders o hs = 1 → ph = Held)) →
  ft_ok ft' (hs ++ [(o, Held)]).
Proof.
  intros [Hsl Hc Hn Ho _ Hf Hp] Hsl' Hfr Hlt Htot Hoth Ht Hst Hnd Hph.
  assert (∀ o', o' ≠ o → holders o' (hs ++ [(o, Held)]) = holders o' hs) as Hho by (intros o' Hne; rewrite holders_snoc, decide_False; [lia|naive_solver]).
  assert (holders o (hs ++ [(o, Held)]) = holders o hs + 1) as Hh by (by rewrite holders_snoc, decide_True).
  split; [done|..|done| |].
  - intros o'. destruct (decide (o' = o)) as [->|Hne]; [rewrite Hst, Hh, Ht; cbv zeta; nat_test (holders o hs + 1 + 1 =? 0) false; f_equal; lia|].
    destruct (Hoth o' Hne) as (-> & _ & ->). rewrite Hho by done. apply Hc.
  - intros o'. destruct (decide (o' = o)) as [->|Hne]; [by rewrite Hst|]. destruct (Hoth o' Hne) as (-> & -> & _). apply Hn.
  - intros o'. destruct (decide (o' = o)) as [->|Hne]; [by rewrite Ht|]. destruct (Hoth o' Hne) as (_ & _ & ->). apply Ho.
  - intros o' Hle. assert (o' ≠ o) as Hne by lia. destruct (Hoth o' Hne) as (_ & _ & ->). rewrite Hho by done. apply Hf. lia.
  - intros i o' ph [Hi|[Hi Heq]]%lookup_snoc_Some; [|simplify_eq; done]. destruct Hi as [_ Hi]. pose proof (Hp _ _ _ Hi) as Hok.
    destruct (decide (o' = o)) as [->|Hne]; [|destruct (Hoth o' Hne) as (_ & _ & ->); by rewrite Hho].
    destruct (decide (ph = Gone)) as [->|Hg]; [done|]. destruct (Hph _ _ Hi Hg) as [Ht0 H1]. rewrite Ht0 in Hok. rewrite Ht, Hh.
    destruct ph as [| |[]| | |]; simpl in *; try done; destruct Hok as [? Hok]; by specialize (H1 Hok).
Qed.

Lemma clone_ok ft hs i o : ft_ok ft hs → hs !! i = Some (o, Held) →
  let ft' := mkFT (slots ft) (<[o := holders o hs + 2]> (strong ft)) (nodes ft) (fresh ft) (dropped ft) in
  arc_clone o ft = (Ok (), ft') ∧ ft_ok ft' (hs ++ [(o, Held)]).
Proof.
  intros Hok Hi. pose proof (ok_phase _ _ Hok _ _ _ Hi) as Ht. simpl in Ht. pose proof (holders_pos _ _ _ _ Hi ltac:(done)) as HH.
  pose proof (strong_pos _ _ o Hok ltac:(lia)) as Hs. rewrite Ht in Hs. pose proof (held_below _ _ _ _ _ Hok Hi ltac:(done)) as Hb. split.
  - unfold arc_clone. rewrite (bind_ok _ _ _ _ _ (strong_count_ok _ _ _ Hs)). unfold set_strong.
    by replace (S (holders o hs + 1)) with (holders o hs + 2) by lia.
  - pose proof Hok as []. apply (snoc_ok ft); cbn [slots strong nodes fresh dropped]; [done|done|lia|done|done| |done|by rewrite lookup_insert_eq|..].
    + intros o' Hne. by rewrite lookup_insert_ne.
    + apply ok_nodes0. by rewrite Hs.
    + intros j ph Hj Hg. split; [done|]. intros H1. destruct (decide (j = i)) as [->|Hne]; [by simplify_eq|].
      pose proof (holders_two _ _ _ _ _ _ Hne Hj Hi Hg ltac:(done)). lia.
Qed.

Lemma fresh_unused ft hs : ft_ok ft hs → strong ft !! fresh ft = None ∧ nodes ft !! fresh ft = None.
Proof.
  intros []. assert (strong ft !! fresh ft = None) as Hs by (by rewrite ok_count0, ok_fresh0 by lia).
  split; [done|]. apply eq_None_not_Some. rewrite ok_nodes0, Hs. by intros [? ?].
Qed.

(** [alloc] with a free slot, and without one. *)
Lemma alloc_slot ft hs opts v i : ft_ok ft hs → list_find (λ s, s = None) (slots ft) = Some (i, None) →
  let o := fresh ft in
  let ft' := mkFT (<[i := Some o]> (slots ft)) (<[o := 2]> (strong ft)) (<[o := v]> (nodes ft)) (S o) (dropped ft) in
  ftable_alloc opts v ft = (Ok (mkFile o (om_read opts) (om_write opts) (om_cloexec opts) (om_nonblock opts) (om_append opts)), ft') ∧
  ft_ok ft' (hs ++ [(o, Held)]).
Proof.
  intros Hok Hf. pose proof Hok as []. pose proof (ok_fresh0 _ (Nat.le_refl _)) as Hz. apply list_find_Some in Hf as Hi. destruct Hi as (Hi & _ & _).
  pose proof (fresh_unused _ _ Hok) as [_ Hn]. split.
  - unfold ftable_alloc. rewrite (bind_ok (arc_new v) _ _ _ _ eq_refl), (bind_ok m_get _ _ _ _ eq_refl). cbn [slots]. rewrite Hf.
    rewrite (bind_ok (m_put _) _ _ _ _ eq_refl). erewrite bind_ok; [done|]. unfold arc_clone.
    erewrite bind_ok; [|apply strong_count_ok; cbn [strong]; apply lookup_insert_eq].
    unfold set_strong. cbn [slots strong nodes fresh dropped]. by rewrite insert_insert_eq.
  - pose proof (λ o', in_table_insert _ _ _ (Some (fresh ft)) o' Hi) as Hin.
    apply (snoc_ok ft); cbn [slots strong nodes fresh dropped]; [done|by rewrite length_insert|lia|lia|..].
    + rewrite map_size_insert_None by done. lia.
    + intros o' Hne. rewrite !lookup_insert_ne by done. specialize (Hin o'). rewrite !decide_False in Hin by naive_solver. split_and!; [done..|lia].
    + specialize (Hin (fresh ft)). rewrite decide_False, decide_True in Hin by done. lia.
    + rewrite lookup_insert_eq. f_equal. lia.
    + by rewrite lookup_insert_eq.
    + intros j ph Hj Hg. pose proof (holders_pos _ _ _ _ Hj Hg). lia.
Qed.

Lemma alloc_full ft hs opts v : ft_ok ft hs → list_find (λ s, s = None) (slots ft) = None →
  let ft' := mkFT (slots ft) (strong ft) (nodes ft) (S (fresh ft)) (dropped ft ++ [(false, v)]) in
  ftable_alloc opts v ft = (Err FileTableOverflow, ft') ∧ ft_ok ft' hs.
Proof.
  intros Hok Hf. pose proof Hok as []. pose proof (ok_fresh0 _ (Nat.le_refl _)) as Hz.
  pose proof (fresh_unused _ _ Hok) as [Hs Hn]. split.
  - unfold ftable_alloc. rewrite (bind_ok (arc_new v) _ _ _ _ eq_refl), (bind_ok m_get _ _ _ _ eq_refl). cbn [slots]. rewrite Hf.
    erewrite bind_ok; [done|]. unfold arc_drop. erewrite bind_ok; [|apply strong_count_ok; cbn [strong]; apply lookup_insert_eq].
    cbn [Nat.eqb]. unfold arc_free. cbn [nodes slots strong fresh dropped]. rewrite lookup_insert_eq.
    by rewrite !delete_insert_id by done.
  - split; cbn [slots strong nodes fresh dropped]; try done; [rewrite length_app; simpl; lia|]. intros o Ho. apply ok_fresh0. lia.
Qed.

(** ** Every interleaving *)
Lemma advance_any ft hs i o ph : ft_ok ft hs → hs !! i = Some (o, ph) → ph ≠ Gone →
  ∃ ph' ft', advance ph o ft = (Ok ph', ft') ∧ ft_ok ft' (<[i := (o, ph')]> hs).
Proof.
  intros Hok Hi Hg. destruct ph as [| |[]| | |]; [..|done].
  - destruct (advance_held _ _ _ _ Hok Hi). eauto.
  - destruct (advance_tested _ _ _ _ Hok Hi). eauto.
  - destruct (advance_last _ _ _ _ Hok Hi) as (? & ? & ? & ?). eauto.
  - destruct (advance_checked _ _ _ _ Hok Hi). eauto.
  - destruct (advance_removed _ _ _ _ Hok Hi) as (? & ? & ? & ?). eauto.
  - destruct (advance_failed _ _ _ _ Hok Hi). eauto.
Qed.

Lemma alloc_any ft hs opts v : ft_ok ft hs →
  (∃ f ft', ftable_alloc opts v ft = (Ok f, ft') ∧ ft_ok ft' (hs ++ [(f_obj f, Held)])) ∨
  (∃ ft', ftable_alloc opts v ft = (Err FileTableOverflow, ft') ∧ ft_ok ft' hs ∧ Forall is_Some (slots ft)).
Proof.
  intros Hok. destruct (list_find (λ s, s = None) (slots ft)) as [[i x]|] eqn:Hf.
  - left. pose proof Hf as (_ & -> & _)%list_find_Some. destruct (alloc_slot _ _ opts v _ Hok Hf) as [Hr Ho]. eauto.
  - right. destruct (alloc_full _ _ opts v Hok Hf) as [Hr Ho]. eexists. split_and!; [done..|].
    apply list_find_None in Hf. eapply Forall_impl; [exact Hf|]. intros []; naive_solver.
Qed.

Lemma ftable_new_ok : ft_ok (ftable_new (P := P) (K := K) (I := I)) [].
Proof.
  assert (∀ n o, in_table o (replicate n None) = 0) as Ht by (intros n o; induction n; [done|]; simpl; unfold in_table in *; by rewrite filter_cons_False).
  split; cbn [slots strong nodes fresh dropped ftable_new]; intros; rewrite ?Ht, ?lookup_empty; (done || lia).
Qed.

Lemma hstep_ok serial (s s' : state) : ft_ok s.1 s.2 → hstep serial s s' → ft_ok s'.1 s'.2.
Proof.
  intros Hok Hst. destruct Hst as [ft hs opts v f ft' Hr|ft hs opts v e ft' Hr|ft hs i o ft' Hi Hr|ft hs i o ph ph' ft' Hi Hg _ Hr]; cbn [fst snd] in *.
  - destruct (alloc_any _ _ opts v Hok) as [(? & ? & Hr' & ?)|(? & Hr' & _)]; rewrite Hr in Hr'; by simplify_eq.
  - destruct (alloc_any _ _ opts v Hok) as [(? & ? & Hr' & ?)|(? & Hr' & ? & _)]; rewrite Hr in Hr'; by simplify_eq.
  - destruct (clone_ok _ _ _ _ Hok Hi) as [Hr' ?]. rewrite Hr in Hr'. by simplify_eq.
  - destruct (advance_any _ _ _ _ _ Hok Hi Hg) as (? & ? & Hr' & ?). rewrite Hr in Hr'. by simplify_eq.
Qed.

Lemma hreach_ok serial (s : state) : rtc (hstep serial) (ftable_new, []) s → ft_ok s.1 s.2.
Proof.
  intros Hr. eapply (rtc_ind_r (λ s : state, ft_ok s.1 s.2) (ftable_new, [])); [apply ftable_new_ok| |exact Hr].
  intros x y _ Hs Hx. by eapply hstep_ok.
Qed.

(** C17: whatever order the threads of the machine allocate, copy and drop
    files in, with the steps of every destructor interleaved: no call panics;
    a file somebody holds is alive, and in exactly one slot of the table until
    its last holder has taken it out; a file is destroyed exactly when nobody
    holds it and no slot has it, and then once; and allocation fails only when
    every slot is taken. *)
Theorem ftable_safe ft hs : rtc (hstep false) (ftable_new, []) (ft, hs) →
  (∀ i o ph, hs !! i = Some (o, ph) → ph ≠ Gone →
     is_Some (nodes ft !! o) ∧ (∃ ph' ft', advance ph o ft = (Ok ph', ft')) ∧
     (ph = Held → in_table o (slots ft) = 1 ∧ ∃ ft', arc_clone o ft = (Ok (), ft'))) ∧
  (∀ o, nodes ft !! o = None ↔ holders o hs = 0 ∧ in_table o (slots ft) = 0) ∧
  length (dropped ft) + size (nodes ft) = fresh ft ∧
  (∀ opts v, (∃ f ft', ftable_alloc opts v ft = (Ok f, ft')) ∨
     (∃ ft', ftable_alloc opts v ft = (Err FileTableOverflow, ft')) ∧ Forall is_Some (slots ft)).
Proof.
  intros Hok%hreach_ok. cbn [fst snd] in Hok. pose proof Hok as []. split_and!; [| |done|].
  - intros i o ph Hi Hg. pose proof (holders_pos _ _ _ _ Hi Hg) as HH. split_and!.
    + apply ok_nodes0. by rewrite (strong_pos _ _ _ Hok) by lia.
    + destruct (advance_any _ _ _ _ _ Hok Hi Hg) as (? & ? & ? & _). eauto.
    + intros ->. split; [apply (ok_phase0 _ _ _ Hi)|]. destruct (clone_ok _ _ _ _ Hok Hi). eauto.
  - intros o. rewrite <- Nat.eq_add_0. rewrite eq_None_not_Some, ok_nodes0, ok_count0. cbv zeta.
    case_match; bool_to_prop; [|split; [naive_solver|lia]]. split; [done|]. by intros _ [? ?].
  - intros opts v. destruct (alloc_any _ _ opts v Hok) as [(? & ? & ? & _)|(? & ? & _ & ?)]; eauto 10.
Qed.

(** ** Drops that overlap

    Two holders that read the count before either has given up its reference
    both leave the file in the table: it stays there for good. *)
Lemma leaked_step (s s' : state) o i : ft_ok s.1 s.2 → holders o s.2 = 0 → slots s.1 !! i = Some (Some o) → hstep false s s' →
  holders o s'.2 = 0 ∧ slots s'.1 !! i = Some (Some o).
Proof.
  intros Hok Hh Hs Hst.
  destruct Hst as [ft hs opts v f ft' Hr|ft hs opts v e ft' Hr|ft hs j o' ft' Hj Hr|ft hs j o' ph ph' ft' Hj Hg _ Hr]; cbn [fst snd] in *.
  - destruct (list_find (λ s, s = None) (slots ft)) as [[j x]|] eqn:Hf.
    + pose proof Hf as (Hjx & -> & _)%list_find_Some. destruct (alloc_slot _ _ opts v _ Hok Hf) as [Hr' _]. rewrite Hr in Hr'. simplify_eq/=.
      rewrite list_lookup_insert_ne by congruence. split; [|done]. rewrite holders_snoc, Hh, decide_False; [done|].
      intros [<- _]. pose proof (ok_fresh _ _ Hok _ (Nat.le_refl _)) as Hz.
      pose proof (in_table_insert (slots ft) i _ None (fresh ft) Hs) as Hin. rewrite decide_True, decide_False in Hin by done. lia.
    + destruct (alloc_full _ _ opts v Hok Hf) as [Hr' _]. rewrite Hr in Hr'. done.
  - destruct (list_find (λ s, s = None) (slots ft)) as [[j x]|] eqn:Hf.
    + pose proof Hf as (Hjx & -> & _)%list_find_Some. destruct (alloc_slot _ _ opts v _ Hok Hf) as [Hr' _]. rewrite Hr in Hr'. done.
    + destruct (alloc_full _ _ opts v Hok Hf) as [Hr' _]. rewrite Hr in Hr'. by simplify_eq/=.
  - destruct (clone_ok _ _ _ _ Hok Hj) as [Hr' _]. rewrite Hr in Hr'. simplify_eq/=. split; [|done].
    rewrite holders_snoc, Hh, decide_False; [done|]. intros [-> _]. pose proof (holders_pos _ _ _ _ Hj ltac:(done)). lia.
  - assert (o' ≠ o) as Hne by (intros ->; pose proof (holders_pos _ _ _ _ Hj Hg); lia).
    rewrite (holders_other _ _ _ _ _ _ Hj) by done. split; [done|]. destruct ph as [| |[]| | |]; [..|done].
    + destruct (advance_held _ _ _ _ Hok Hj) as [Hr' _]. rewrite Hr in Hr'. by simplify_eq/=.
    + destruct (advance_tested _ _ _ _ Hok Hj) as [Hr' _]. rewrite Hr in Hr'. by simplify_eq/=.
    + destruct (advance_last _ _ _ _ Hok Hj) as (k & Hk & Hr' & _). rewrite Hr in Hr'. simplify_eq/=. rewrite list_lookup_insert_ne; [done|]. congruence.
    + destruct (advance_checked _ _ _ _ Hok Hj) as [Hr' _]. rewrite Hr in Hr'. by simplify_eq/=.
    + destruct (advance_removed _ _ _ _ Hok Hj) as (v & _ & Hr' & _). rewrite Hr in Hr'. by simplify_eq/=.
    + destruct (advance_failed _ _ _ _ Hok Hj) as [Hr' _]. rewrite Hr in Hr'. by simplify_eq/=.
Qed.

Lemma leaked_forever (s s' : state) o i : ft_ok s.1 s.2 → holders o s.2 = 0 → slots s.1 !! i = Some (Some o) → rtc (hstep false) s s' →
  slots s'.1 !! i = Some (Some o).
Proof.
  intros Hok Hh Hs Hr. induction Hr as [s|s t s' Hst _ IH]; [done|]. destruct (leaked_step _ _ _ _ Hok Hh Hs Hst) as [? ?].
  apply IH; [by eapply hstep_ok|done|done].
Qed.

(** ** Drops that do not overlap *)
Definition idle (ph : phase) : bool := match ph with Held | Gone => true | _ => false end.
Record serial_ok (s : state) : Prop := {
  so_one i j o p q : i ≠ j → s.2 !! i = Some (o, p) → s.2 !! j = Some (o, q) → idle p = false → idle q = true;
  so_more i o p : s.2 !! i = Some (o, p) → p = Checked false ∨ p = Failed → 2 ≤ holders o s.2;
  so_table o : in_table o (slots s.1) = 1 → 0 < holders o s.2 }.

Lemma serial_snoc ft hs ft' o : serial_ok (ft, hs) →
  (∀ o', o' ≠ o → in_table o' (slots ft') = in_table o' (slots ft)) → serial_ok (ft', hs ++ [(o, Held)]).
Proof.
  intros [H1 H2 H3] Ht. cbn [fst snd] in *. split; cbn [fst snd].
  - intros i j o' p q Hij [[_ Hi]|[-> Hp]]%lookup_snoc_Some [[_ Hj]|[-> Hq]]%lookup_snoc_Some Hidle; simplify_eq; try done. by eapply H1.
  - intros i o' p [[_ Hi]|[-> Hp]]%lookup_snoc_Some Hc; [|naive_solver]. rewrite holders_snoc. specialize (H2 _ _ _ Hi Hc). lia.
  - intros o' Hin. rewrite holders_snoc. destruct (decide (o' = o)) as [->|Hne]; [rewrite decide_True by done; lia|].
    rewrite Ht in Hin by done. specialize (H3 _ Hin). lia.
Qed.

Lemma serial_move ft hs i o ph ph' ft' : serial_ok (ft, hs) → hs !! i = Some (o, ph) → ph ≠ Gone →
  (ph = Held → ∀ j q, hs !! j = Some (o, q) → q = Held ∨ q = Gone) → ph' ≠ Held →
  (∀ o', o' ≠ o → in_table o' (slots ft') = in_table o' (slots ft)) →
  (ph' = Checked false ∨ ph' = Failed → 2 ≤ holders o hs) →
  (in_table o (slots ft') = 1 → 0 < holders o (<[i := (o, ph')]> hs)) →
  serial_ok (ft', <[i := (o, ph')]> hs).
Proof.
  intros [H1 H2 H3] Hi Hg Hser Hnh Ht Hm Htab. cbn [fst snd] in *.
  assert (∀ j q, j ≠ i → hs !! j = Some (o, q) → idle q = true) as Hoth.
  { intros j q Hj Hq. destruct (decide (ph = Held)) as [He|Hn]; [by destruct (Hser He j q Hq) as [->| ->]|].
    eapply (H1 i j); [done|exact Hi|exact Hq|]. by destruct ph. }
  split; cbn [fst snd].
  - intros j k o' p q Hjk [(-> & -> & ->)|[Hj Hp]]%phase_others [(-> & Ho & ->)|[Hk Hq]]%phase_others Hidle; [done|by eapply (Hoth k)| |by eapply (H1 j k)].
    subst o'. rewrite (Hoth _ _ Hj Hp) in Hidle. done.
  - intros j o' p [(-> & -> & ->)|[Hj Hp]]%phase_others Hc.
    + rewrite (holders_same _ _ _ ph) by (done || naive_solver). by apply Hm.
    + destruct (decide (o' = o)) as [->|Hne]; [pose proof (Hoth _ _ Hj Hp); naive_solver|]. rewrite (holders_other _ _ _ _ _ _ Hi) by done. by eapply H2.
  - intros o' Hin. destruct (decide (o' = o)) as [->|Hne]; [by apply Htab|]. rewrite (holders_other _ _ _ _ _ _ Hi) by done. apply H3. by rewrite <- Ht.
Qed.

Lemma serial_step (s s' : state) : ft_ok s.1 s.2 → serial_ok s → hstep true s s' → serial_ok s'.
Proof.
  intros Hok Hso Hst.
  destruct Hst as [ft hs opts v f ft' Hr|ft hs opts v e ft' Hr|ft hs i o ft' Hi Hr|ft hs i o ph ph' ft' Hi Hg Hser Hr]; cbn [fst snd] in *.
  - destruct (list_find (λ s, s = None) (slots ft)) as [[j x]|] eqn:Hf.
    + pose proof Hf as (Hjx & -> & _)%list_find_Some. destruct (alloc_slot _ _ opts v _ Hok Hf) as [Hr' _]. rewrite Hr in Hr'. simplify_eq/=.
      eapply serial_snoc; [done|]. intros o' Hne. cbn [slots]. pose proof (in_table_insert _ _ _ (Some (fresh ft)) o' Hjx) as Hin.
      rewrite !decide_False in Hin by naive_solver. lia.
    + destruct (alloc_full _ _ opts v Hok Hf) as [Hr' _]. rewrite Hr in Hr'. done.
  - destruct (list_find (λ s, s = None) (slots ft)) as [[j x]|] eqn:Hf.
    + pose proof Hf as (Hjx & -> & _)%list_find_Some. destruct (alloc_slot _ _ opts v _ Hok Hf) as [Hr' _]. rewrite Hr in Hr'. done.
    + destruct (alloc_full _ _ opts v Hok Hf) as [Hr' _]. rewrite Hr in Hr'. simplify_eq/=. by destruct Hso.
  - destruct (clone_ok _ _ _ _ Hok Hi) as [Hr' _]. rewrite Hr in Hr'. simplify_eq/=. by eapply serial_snoc.
  - pose proof (holders_pos _ _ _ _ Hi Hg) as HH. specialize (Hser eq_refl). pose proof Hso as [_ Hmore Htab]. cbn [fst snd] in *.
    destruct ph as [| |[]| | |]; [..|done].
    + destruct (advance_held _ _ _ _ Hok Hi) as [Hr' _]. rewrite Hr in Hr'. injection Hr' as -> ->. eapply serial_move; [done|done|done|done|done|done|naive_solver|].
      intros _. by rewrite (holders_same _ _ _ Held).
    + destruct (advance_tested _ _ _ _ Hok Hi) as [Hr' _]. rewrite Hr in Hr'. injection Hr' as -> ->. eapply serial_move; [done|done|done|done|done|done|..].
      * intros [[=E]|[=]]. bool_to_prop. lia.
      * intros _. by rewrite (holders_same _ _ _ Tested).
    + destruct (advance_last _ _ _ _ Hok Hi) as (k & Hk & Hr' & _). rewrite Hr in Hr'. injection Hr' as -> ->.
      eapply serial_move; [done|done|done|done|done| |naive_solver|]; cbn [slots].
      * intros o' Hne. pose proof (in_table_insert _ _ _ None o' Hk) as Hin. rewrite !decide_False in Hin by naive_solver. lia.
      * intros _. by rewrite (holders_same _ _ _ (Checked true)).
    + destruct (advance_checked _ _ _ _ Hok Hi) as [Hr' _]. rewrite Hr in Hr'. injection Hr' as -> ->. eapply serial_move; [done|done|done|done|done|done|..].
      * intros _. apply (Hmore _ _ _ Hi). by left.
      * intros _. by rewrite (holders_same _ _ _ (Checked false)).
    + destruct (advance_removed _ _ _ _ Hok Hi) as (v & _ & Hr' & _). rewrite Hr in Hr'. injection Hr' as -> ->.
      eapply serial_move; [done|done|done|done|done|done|naive_solver|]; cbn [slots]. intros Ht. pose proof (ok_phase _ _ Hok _ _ _ Hi) as [? _]. lia.
    + destruct (advance_failed _ _ _ _ Hok Hi) as [Hr' _]. rewrite Hr in Hr'. injection Hr' as -> ->.
      eapply serial_move; [done|done|done|done|done|done|naive_solver|]. intros _. pose proof (holders_gone _ _ _ _ Hi Hg).
      pose proof (Hmore _ _ _ Hi ltac:(by right)). lia.
Qed.

Lemma hreach_serial (s : state) : rtc (hstep true) (ftable_new, []) s → ft_ok s.1 s.2 ∧ serial_ok s.
Proof.
  intros Hr. eapply (rtc_ind_r (λ s : state, ft_ok s.1 s.2 ∧ serial_ok s) (ftable_new, [])); [| |exact Hr].
  - split; [apply ftable_new_ok|]. split; cbn [fst snd]; [done|done|]. intros o. cbn [slots ftable_new].
    pose proof (ok_fresh _ _ ftable_new_ok o). cbn [slots ftable_new fresh] in *. lia.
  - intros x y _ Hs [Hx Hx']. split; [by eapply hstep_ok|by eapply serial_step].
Qed.

(** Without overlapping drops the table holds exactly the files in use, so a
    slot is free again as soon as its file is. *)
Theorem ftable_exact ft hs : rtc (hstep true) (ftable_new, []) (ft, hs) → ∀ o, in_table o (slots ft) = 1 → 0 < holders o hs.
Proof. intros [_ [_ _ H]]%hreach_serial. exact H. Qed.
End safety.

(** ** Whole drops

    When a destructor runs without interruption its effect is that of one
    step.  [ft_at ft L]: the descriptors in use refer to the files [L]. *)
Definition held (L : list nat) : list (nat * phase) := (λ o, (o, Held)) <$> L.
Definition uses (o : nat) (L : list nat) : nat := length (filter (λ x, x = o) L).
Definition ft_at {P K I} (ft : FTable (P := P) (K := K) (I := I)) (L : list nat) : Prop :=
  ft_ok ft (held L) ∧ ∀ o, in_table o (slots ft) = 1 → o ∈ L.

Lemma bind_mret_inv {E S A B} (m : M E S A) (g : A → B) s y s' : (x ← m; mret (g x)) s = (Ok y, s') → ∃ x, m s = (Ok x, s') ∧ g x = y.
Proof. unfold mbind, M_bind, mret, M_ret. destruct (m s) as [[x| |] t]; intros [=]; simplify_eq. eauto. Qed.

Section whole.
Context {P K I : Type}.
Implicit Types (ft : FTable (P := P) (K := K) (I := I)) (hs : list (nat * phase)) (L : list nat).

Lemma ft_ok_perm ft hs hs' : hs ≡ₚ hs' → ft_ok ft hs → ft_ok ft hs'.
Proof.
  intros Hp []. assert (∀ o, holders o hs' = holders o hs) as Hh by (intros o; unfold holders; by rewrite Hp).
  split; [done|intros o; rewrite Hh; apply ok_count0|done|done|done|intros o; rewrite Hh; apply ok_fresh0|].
  intros i o ph Hi. rewrite Hh. assert ((o, ph) ∈ hs) as [j Hj]%list_elem_of_lookup by (rewrite Hp; by eapply list_elem_of_lookup_2). by eapply ok_phase0.
Qed.

Lemma ft_ok_gone ft hs o : ft_ok ft ((o, Gone) :: hs) → ft_ok ft hs.
Proof.
  intros []. assert (∀ o', holders o' ((o, Gone) :: hs) = holders o' hs) as Hh.
  { intros o'. unfold holders. rewrite filter_cons_False; [done|]. simpl. naive_solver. }
  split; [done|intros o'; rewrite <- Hh; apply ok_count0|done|done|done|intros o'; rewrite <- Hh; apply ok_fresh0|].
  intros i o' ph Hi. rewrite <- Hh. by apply (ok_phase0 (S i)).
Qed.

Lemma holders_held o L : holders o (held L) = uses o L.
Proof.
  unfold holders, uses, held. induction L as [|x L IH]; [done|]. rewrite fmap_cons, !filter_cons. simpl.
  destruct (decide (x = o)), (decide _); simpl; naive_solver.
Qed.

Lemma uses_pos o L : 0 < uses o L ↔ o ∈ L.
Proof.
  unfold uses. split.
  - destruct (filter _ L) as [|x l] eqn:E; [simpl; lia|]. intros _. assert (x ∈ filter (λ x, x = o) L) as [-> ?]%list_elem_of_filter by (rewrite E; left). done.
  - intros Ho. assert (o ∈ filter (λ x, x = o) L) as Hin by by apply list_elem_of_filter. destruct (filter _ L); [by apply not_elem_of_nil in Hin|simpl; lia].
Qed.

Lemma ft_at_perm ft L L' : L ≡ₚ L' → ft_at ft L → ft_at ft L'.
Proof.
  intros Hp [Hok Ht]. split; [eapply ft_ok_perm; [|exact Hok]; unfold held; by rewrite Hp|]. intros o Ho. rewrite <- Hp. by apply Ht.
Qed.

Global Instance ft_at_proper ft : Proper ((≡ₚ) ==> iff) (ft_at ft).
Proof. intros L L' HL. split; by apply ft_at_perm. Qed.

Lemma ft_at_new : ft_at (ftable_new (P := P) (K := K) (I := I)) [].
Proof. split; [apply ftable_new_ok|]. intros o. pose proof (ok_fresh _ _ (ftable_new_ok (P := P) (K := K) (I := I)) o). cbn [slots ftable_new fresh] in *. lia. Qed.

Lemma held_snoc L o : held (L ++ [o]) = held L ++ [(o, Held)].
Proof. unfold held. by rewrite fmap_snoc. Qed.

Lemma at_table ft L o : ft_at ft L → o ∈ L ↔ in_table o (slots ft) = 1.
Proof.
  intros [Hok Ht]. split; [|apply Ht]. intros [i Hi]%list_elem_of_lookup. apply (ok_phase _ _ Hok i o Held). unfold held. by rewrite list_lookup_fmap, Hi.
Qed.

Lemma at_live ft L o : ft_at ft L → o ∈ L ↔ is_Some (nodes ft !! o).
Proof.
  intros [[] Ht]. rewrite ok_nodes0, ok_count0, holders_held, <- uses_pos. cbv zeta. specialize (ok_once0 o). specialize (Ht o).
  case_match; bool_to_prop; [split; [lia|by intros [? ?]]|]. split; [done|]. intros _.
  destruct (decide (in_table o (slots ft) = 1)) as [H1|]; [by apply uses_pos, Ht|lia].
Qed.

Lemma at_clone ft L o : ft_at ft L → o ∈ L → ∃ ft', arc_clone o ft = (Ok (), ft') ∧ ft_at ft' (o :: L) ∧ nodes ft' = nodes ft ∧ dropped ft' = dropped ft.
Proof.
  intros [Hok Ht] Ho. apply list_elem_of_lookup in Ho as [i Hi]. assert (held L !! i = Some (o, Held)) as Hi' by (unfold held; by rewrite list_lookup_fmap, Hi).
  destruct (clone_ok _ _ _ _ Hok Hi') as [Hr Hok']. eexists. split_and!; [exact Hr| |done|done]. apply (ft_at_perm _ (L ++ [o])); [solve_Permutation|].
  split; [by rewrite held_snoc|]. intros o' Ho'. apply elem_of_app. left. by apply Ht.
Qed.

(** As many files as slots in use. *)
Lemma in_table_omap sl o : in_table o sl = uses o (omap id sl).
Proof.
  unfold in_table, uses. induction sl as [|[x|] sl IH]; [done| |].
  - change (omap id (Some x :: sl)) with (x :: omap id sl). rewrite !filter_cons.
    destruct (decide (Some x = Some o)), (decide (x = o)); simplify_eq; cbn [length]; lia.
  - change (omap id (None :: sl)) with (omap id sl). by rewrite filter_cons_False.
Qed.

Lemma uses_NoDup (l : list nat) : (∀ o, uses o l ≤ 1) → NoDup l.
Proof.
  induction l as [|x l IH]; intros Hl; [constructor|]. constructor.
  - intros Hx%uses_pos. specialize (Hl x). unfold uses in *. rewrite filter_cons_True in Hl by done. simpl in Hl. lia.
  - apply IH. intros o. specialize (Hl o). unfold uses in *. rewrite filter_cons in Hl. destruct (decide (x = o)); simpl in Hl; lia.
Qed.

Lemma at_size ft L : ft_at ft L → size (nodes ft) = length (omap id (slots ft)).
Proof.
  intros Hat. pose proof Hat as [[_ _ _ Hone _ _ _] _].
  assert (NoDup (omap id (slots ft))) as Hnd by (apply uses_NoDup; intros o; rewrite <- in_table_omap; apply Hone).
  rewrite <- (size_list_to_set (C := gset nat)) by done. rewrite <- size_dom. f_equal. apply leibniz_equiv. intros o.
  rewrite elem_of_dom, elem_of_list_to_set, <- uses_pos, <- in_table_omap, <- at_live, at_table by done. specialize (Hone o). lia.
Qed.

Lemma omap_id_full (sl : list (option nat)) : length (omap id sl) ≤ length sl ∧ (length (omap id sl) = length sl ↔ Forall is_Some sl).
Proof.
  induction sl as [|x sl [IH1 IH2]]; [done|]. rewrite Forall_cons, <- IH2. destruct x as [x|].
  - change (omap id (Some x :: sl)) with (x :: omap id sl). cbn [length]. split; [lia|]. split; [intros [=]; by split; eauto|intros [_ ->]; done].
  - change (omap id (None :: sl)) with (omap id sl). cbn [length]. split; [lia|]. split; [lia|]. by intros [[? ?] _].
Qed.

Lemma at_alloc ft L opts v : ft_at ft L →
  (∃ f ft', ftable_alloc opts v ft = (Ok f, ft') ∧ f = mkFile (fresh ft) (om_read opts) (om_write opts) (om_cloexec opts) (om_nonblock opts) (om_append opts) ∧
     ft_at ft' (f_obj f :: L) ∧ (f_obj f ∉ L) ∧ size (nodes ft) < NFILE ∧ fresh ft' = S (fresh ft) ∧ nodes ft' = <[f_obj f := v]> (nodes ft) ∧ dropped ft' = dropped ft) ∨
  (∃ ft', ftable_alloc opts v ft = (Err FileTableOverflow, ft') ∧ ft_at ft' L ∧ nodes ft' = nodes ft ∧ size (nodes ft) = NFILE ∧
     dropped ft' = dropped ft ++ [(false, v)]).
Proof.
  intros Hat. pose proof (at_size _ _ Hat) as Hsz. pose proof Hat as [Hok Ht]. pose proof (omap_id_full (slots ft)) as [Hle Hall].
  rewrite (ok_slots _ _ Hok) in Hle, Hall. destruct (list_find (λ s, s = None) (slots ft)) as [[i x]|] eqn:Hf.
  - left. pose proof Hf as (Hi & -> & _)%list_find_Some. destruct (alloc_slot _ _ opts v _ Hok Hf) as [Hr Hok']. do 2 eexists. split_and!; [exact Hr|done| | | |done|done|done].
    + cbn [f_obj]. apply (ft_at_perm _ (L ++ [fresh ft])); [solve_Permutation|]. split; [by rewrite held_snoc|]. intros o Ho. cbn [slots] in Ho.
      pose proof (in_table_insert _ _ _ (Some (fresh ft)) o Hi) as Hin. rewrite decide_False in Hin by done. apply elem_of_app.
      destruct (decide (Some (fresh ft) = Some o)) as [[= ->]|]; [right; left|left; apply Ht; lia].
    + cbn [f_obj]. rewrite <- uses_pos, <- holders_held. pose proof (ok_fresh _ _ Hok _ (Nat.le_refl _)). lia.
    + destruct (decide (length (omap id (slots ft)) = NFILE)) as [He|]; [|lia]. apply Hall in He. rewrite Forall_lookup in He. by destruct (He _ _ Hi).
  - right. destruct (alloc_full _ _ opts v Hok Hf) as [Hr Hok']. eexists. split_and!; [exact Hr|by split|done| |done].
    rewrite Hsz. apply Hall. apply list_find_None in Hf. eapply Forall_impl; [exact Hf|]. intros []; naive_solver.
Qed.

(** The last holder destroys the file; any other leaves it alone. *)
Lemma at_drop ft L o : ft_at ft (o :: L) → ∃ ft', file_drop o ft = (Ok (), ft') ∧ ft_at ft' L ∧
  if decide (o ∈ L) then nodes ft' = nodes ft ∧ dropped ft' = dropped ft
  else ∃ v, nodes ft !! o = Some v ∧ nodes ft' = delete o (nodes ft) ∧ dropped ft' = dropped ft ++ [(is_node v, v)].
Proof.
  intros [Hok Ht]. assert (holders o (held (o :: L)) = S (uses o L)) as Hh by (rewrite holders_held; unfold uses; by rewrite filter_cons_True).
  assert (held (o :: L) !! 0 = Some (o, Held)) as H0 by done. destruct (advance_held _ _ _ _ Hok H0) as [Hr0 Hok0].
  apply (bind_mret_inv _ (λ _, Tested)) in Hr0 as ([] & Hc0 & _). unfold file_drop. rewrite (bind_ok _ _ _ _ _ Hc0).
  change (<[0 := (o, ?q)]> (held (o :: L))) with ((o, q) :: held L) in Hok0.
  destruct (advance_tested _ _ 0 o Hok0 eq_refl) as [Hr1 Hok1]. change ((o, Tested) :: held L) with (<[0 := (o, Tested)]> (held (o :: L))) in Hr1, Hok1.
  rewrite (holders_same _ _ _ Held) in Hr1, Hok1 by done.
  rewrite Hh in Hr1, Hok1. apply bind_mret_inv in Hr1 as (b & Hc & [= ->]). rewrite (bind_ok _ _ _ _ _ Hc).
  change (<[0 := (o, ?q)]> (<[0 := (o, Tested)]> (held (o :: L)))) with ((o, q) :: held L) in Hok1.
  pose proof (uses_pos o L) as Hu. case_decide as Ho.
  - destruct (uses o L) as [|k] eqn:Ek; [apply Hu in Ho; lia|]. cbn [Nat.eqb] in *. rewrite (bind_ok (mret ()) _ _ _ _ eq_refl).
    destruct (advance_checked _ _ 0 o Hok1 eq_refl) as [Hr2 Hok2]. apply bind_mret_inv in Hr2 as (b & Hu2 & Hb). destruct b; [done|].
    rewrite (bind_ok _ _ _ _ _ Hu2). change (<[0 := (o, ?q)]> ((o, ?r) :: held L)) with ((o, q) :: held L) in Hok2.
    destruct (advance_failed _ _ 0 o Hok2 eq_refl) as [Hr3 Hok3]. apply (bind_mret_inv _ (λ _, Gone)) in Hr3 as ([] & Hd & _).
    eexists. split_and!; [exact Hd| |done|done]. split; [by eapply ft_ok_gone|]. intros o' Ho'. apply Ht in Ho' as [->|]%elem_of_cons; done.
  - assert (uses o L = 0) as Ez by (destruct (uses o L); [done|]; exfalso; apply Ho, Hu; lia). rewrite Ez in *. cbn [Nat.eqb] in *.
    destruct (advance_last _ _ 0 o Hok1 eq_refl) as (j & Hj & Hr2 & Hok2). apply (bind_mret_inv _ (λ _, Removed)) in Hr2 as ([] & Hrm & _).
    rewrite (bind_ok _ _ _ _ _ Hrm). change (<[0 := (o, ?q)]> ((o, ?r) :: held L)) with ((o, q) :: held L) in Hok2.
    destruct (advance_removed _ _ 0 o Hok2 eq_refl) as (v & Hv & Hr3 & Hok3). apply bind_mret_inv in Hr3 as (b & Hu2 & Hb). destruct b; [|done].
    rewrite (bind_ok _ _ _ _ _ Hu2). eexists. split_and!; [done| |by exists v]. split; [by eapply ft_ok_gone|]. cbn [slots].
    intros o' Ho'. assert (o' ≠ o) as Hne.
    { intros ->. pose proof (ok_phase _ _ Hok2 0 o Removed eq_refl) as [Hz _]. cbn [slots] in Hz. lia. }
    pose proof (in_table_insert _ _ _ None o' Hj) as Hin. rewrite !decide_False in Hin by naive_solver.
    assert (o' ∈ o :: L) as [->|]%elem_of_cons by (apply Ht; lia); done.
Qed.
End whole.

(** Two drops of the same file that overlap: the slot is lost for good. *)
Theorem overlapping_drops_leak : ∃ (ft : FTable (P := ()) (K := ()) (I := ())) hs,
  rtc (hstep false) (ftable_new, []) (ft, hs) ∧ hs = [(0, Gone); (0, Gone)] ∧ nodes ft !! 0 = Some VNone ∧
  ∀ ft' hs', rtc (hstep false) (ft, hs) (ft', hs') → slots ft' !! 0 = Some (Some 0).
Proof.
  set (step ph ft := (advance (P := ()) (K := ()) (I := ()) ph 0 ft).2).
  set (f0 := (ftable_alloc OMode_new VNone (ftable_new (P := ()) (K := ()) (I := ()))).2). set (f1 := (arc_clone 0 f0).2).
  set (f2 := step Failed f1). set (f3 := step Failed f2).
  assert (rtc (hstep false) (ftable_new, []) (f3, [(0, Gone); (0, Gone)])) as Hr.
  { eapply rtc_l; [apply (hs_alloc false _ _ OMode_new VNone (mkFile 0 false false false false false) f0); vm_compute; reflexivity|].
    eapply rtc_l; [apply (hs_clone false f0 _ 0 0 f1); vm_compute; reflexivity|].
    eapply rtc_l; [apply (hs_drop false f1 _ 0 0 Held Tested f1); [done|done|done|vm_compute; reflexivity]|].
    eapply rtc_l; [apply (hs_drop false f1 _ 0 0 Tested (Checked false) f1); [done|done|done|vm_compute; reflexivity]|].
    eapply rtc_l; [apply (hs_drop false f1 _ 1 0 Held Tested f1); [done|done|done|vm_compute; reflexivity]|].
    eapply rtc_l; [apply (hs_drop false f1 _ 1 0 Tested (Checked false) f1); [done|done|done|vm_compute; reflexivity]|].
    eapply rtc_l; [apply (hs_drop false f1 _ 0 0 (Checked false) Failed f1); [done|done|done|vm_compute; reflexivity]|].
    eapply rtc_l; [apply (hs_drop false f1 _ 1 0 (Checked false) Failed f1); [done|done|done|vm_compute; reflexivity]|].
    eapply rtc_l; [apply (hs_drop false f1 _ 0 0 Failed Gone f2); [done|done|done|vm_compute; reflexivity]|].
    eapply rtc_l; [apply (hs_drop false f2 _ 1 0 Failed Gone f3); [done|done|done|vm_compute; reflexivity]|]. apply rtc_refl. }
  exists f3, [(0, Gone); (0, Gone)]. split_and!; [exact Hr|done|by vm_compute|].
  intros ft' hs' Hr'. apply (leaked_forever _ _ 0 0 (hreach_ok _ _ Hr)) in Hr'; [done|done|by vm_compute].
Qed.

(** One file with two holders. *)
Lemma ftable_safe_witness : ∃ (ft : FTable (P := ()) (K := ()) (I := ())) hs, rtc (hstep false) (ftable_new, []) (ft, hs) ∧ hs !! 1 = Some (0, Held) ∧
  ∃ ft', arc_clone 0 ft = (Ok (), ft').
Proof.
  set (f0 := (ftable_alloc OMode_new VNone (ftable_new (P := ()) (K := ()) (I := ()))).2). set (f1 := (arc_clone 0 f0).2).
  assert (rtc (hstep false) (ftable_new, []) (f1, [(0, Held); (0, Held)])) as Hr.
  { eapply rtc_l; [apply (hs_alloc false _ _ OMode_new VNone (mkFile 0 false false false false false) f0); vm_compute; reflexivity|].
    eapply rtc_l; [apply (hs_clone false f0 _ 0 0 f1); vm_compute; reflexivity|]. apply rtc_refl. }
  exists f1, [(0, Held); (0, Held)]. split; [exact Hr|]. split; [reflexivity|].
  destruct (ftable_safe _ _ Hr) as [Hh _]. destruct (Hh 1 0 Held eq_refl ltac:(discriminate)) as (_ & _ & Hc). exact (proj2 (Hc eq_refl)).
Defined.
