(* ===== verification/Fds.v ===== *)
(** * Descriptors

    The tables of open files of the processes and the system calls that work
    on them: [fdalloc], [dup], [dup2], [close], [pipe] and the last part of
    [open] and [socket] in [kernel/src/syscall.rs], the copy made by [fork],
    the descriptors closed by [exec] and by [exit].  Each call runs on the
    table of files of FTable.v, with every copy and every implicit drop the
    code makes; advisory locks are those of Fcntl.v.

    [spec] describes the same calls by the tables alone: no counts, no drops,
    no table of files.  The refinement theorem says that a program cannot tell
    the difference, and that a file lives exactly as long as a descriptor
    refers to it. *)

From stdpp Require Import base tactics numbers gmap list relations.
From S2P Require Import Prelude Params Errors SysArgs Fcntl FsLayout FsItable FileNode FTable.
Local Open Scope nat_scope.

Abbreviation ofile := (list (option File)).

(** [File::clear_cloexec]. *)
Definition clear_cloexec (f : File) : File := mkFile (f_obj f) (f_readable f) (f_writable f) false (f_nonblock f) (f_append f).

Section fds.
Context {P K I : Type}.
Abbreviation VF := (VFile P K I).

(** Processes by number, the table of files, the inodes they refer to and the
    table of locks. *)
Record Fds := mkFds {
  procs : gmap nat ofile;
  ftab : FTable (P := P) (K := K) (I := I);
  itab : list (option MInode);
  ltab : LockTable;
}.
Abbreviation FD := (M Error Fds).

Definition on_ft {A} (m : M Error (FTable (P := P) (K := K) (I := I)) A) : FD A := λ s,
  let '(r, ft) := m (ftab s) in (r, mkFds (procs s) ft (itab s) (ltab s)).
(** [Cpus::myproc().unwrap().data_mut().ofile]. *)
Definition get_ofile (p : nat) : FD ofile := λ s, match procs s !! p with Some l => (Ok l, s) | None => (Panic, s) end.
Definition put_ofile (p : nat) (l : ofile) : FD () := λ s, (Ok (), mkFds (<[p := l]> (procs s)) (ftab s) (itab s) (ltab s)).
Definition lift {A} (r : Result A) : FD A := λ s, (r, s).

(** The implicit drop of an [Option<File>]. *)
Definition drop_opt (x : option File) : FD () := match x with Some f => on_ft (file_drop (f_obj f)) | None => mret () end.

Definition fdalloc (p : nat) (f : File) : FD nat :=
  l ← get_ofile p;
  match list_find (λ x, x = None) l with
  | Some (fd, _) => _ ← put_ofile p (<[fd := Some f]> l); mret fd
  | None => _ ← drop_opt (Some f); m_err FileDescriptorTooLarge
  end.

Definition sys_dup (p : nat) (regs : list Z) : FD nat :=
  l ← get_ofile p;
  x ← lift (file_from_arg l regs 0);
  f ← on_ft (file_clone x.1);
  fdalloc p f.

Definition sys_dup2 (p : nat) (regs : list Z) : FD nat :=
  src_fd ← lift (argraw regs 0);
  dst_fd ← lift (argraw regs 1);
  if (src_fd =? dst_fd)%Z then mret (Z.to_nat dst_fd) else
  l ← get_ofile p;
  match l !! Z.to_nat src_fd with
  | None => m_err FileDescriptorTooLarge
  | Some None => m_err BadFileDescriptor
  | Some (Some f) =>
      src ← on_ft (file_clone f);
      let dst := clear_cloexec src in
      match l !! Z.to_nat dst_fd with
      | None => _ ← drop_opt (Some dst); m_err FileDescriptorTooLarge
      | Some old => _ ← put_ofile p (<[Z.to_nat dst_fd := Some dst]> l); _ ← drop_opt old; mret (Z.to_nat dst_fd)
      end
  end.

(** [File::lock_key]: device and number of the inode of a file. *)
Definition lock_key (nodes : gmap nat VF) (t : list (option MInode)) (o : nat) : option (Z * Z) :=
  match nodes !! o with
  | Some (VInode (mkFNod _ ip)) | Some (VDevice (mkDNod _ _ ip)) =>
      match t !! ip with Some (Some mi) => Some (mi_dev mi, mi_inum mi) | _ => None end
  | _ => None
  end.

Definition release_locks (p : nat) (key : option (Z * Z)) (lt : LockTable) : LockTable :=
  match key with Some (dev, inum) => clear_locks dev inum (Z.of_nat p) lt | None => lt end.

Definition sys_close (p : nat) (regs : list Z) : FD nat :=
  l ← get_ofile p;
  x ← lift (file_from_arg l regs 0);
  let '(f, fd) := x in
  _ ← put_ofile p (<[fd := None]> l);
  s ← m_get;
  _ ← m_put (mkFds (procs s) (ftab s) (itab s) (release_locks p (lock_key (nodes (ftab s)) (itab s) (f_obj f)) (ltab s)));
  _ ← drop_opt (Some f);
  mret 0.

(** The end of [open] and [socket]: a file for the [VFile] they have made. *)
Definition open_file (p : nat) (opts : OMode) (v : VF) : FD nat :=
  f ← on_ft (ftable_alloc opts v);
  fdalloc p f.

(** [Pipe::alloc]. *)
Definition pipe_alloc (v0 v1 : VF) : FD (File * File) := λ s,
  match on_ft (ftable_alloc (set_read true OMode_new) v0) s with
  | (Ok f0, s) =>
      match on_ft (ftable_alloc (set_write true OMode_new) v1) s with
      | (Ok f1, s) => (Ok (f0, f1), s)
      | (Err e, s) => (_ ← drop_opt (Some f0); m_err e) s
      | (Panic, s) => (Panic, s)
      end
  | (Err e, s) => (Err e, s)
  | (Panic, s) => (Panic, s)
  end.

(** [ofile[fd].take()], and the drop of what was there. *)
Definition take_fd (p fd : nat) : FD () :=
  l ← get_ofile p;
  match l !! fd with
  | Some x => _ ← put_ofile p (<[fd := None]> l); drop_opt x
  | None => m_panic
  end.

(** [pipe] once its argument is read; [copied]: what the two copies of
    descriptors to the caller returned. *)
Definition pipe_fds (p : nat) (rf wf : File) (copied : bool * bool) : FD nat := λ s,
  match fdalloc p rf s with
  | (Ok fd0, s) =>
      match fdalloc p wf s with
      | (Ok fd1, s) =>
          if (copied.1 && copied.2)%bool then (Ok 0, s)
          else (_ ← take_fd p fd0; _ ← take_fd p fd1; m_err BadVirtAddr) s
      | (Err e, s) => (_ ← take_fd p fd0; m_err e) s
      | (Panic, s) => (Panic, s)
      end
  | (Err e, s) => (_ ← drop_opt (Some wf); m_err e) s
  | (Panic, s) => (Panic, s)
  end.
Definition sys_pipe (p : nat) (v0 v1 : VF) (copied : bool * bool) : FD nat :=
  fs ← pipe_alloc v0 v1; pipe_fds p fs.1 fs.2 copied.

(** [fork] and [clone]: [clone_from_slice] into the table of the child. *)
Fixpoint clone_slots (l : ofile) : FD ofile :=
  match l with
  | [] => mret []
  | None :: l => r ← clone_slots l; mret (None :: r)
  | Some f :: l => f ← on_ft (file_clone f); r ← clone_slots l; mret (Some f :: r)
  end.
Definition fork_files (p c : nat) : FD nat :=
  l ← get_ofile p; r ← clone_slots l; _ ← put_ofile c r; mret 0.

(** The loops of [exec] and [exit]. *)
Definition exec_files (p : nat) : FD nat :=
  l ← get_ofile p;
  _ ← m_for (seq 0 (length l)) (λ fd, l ← get_ofile p;
        match l !! fd with
        | Some (Some f) => if f_cloexec f then take_fd p fd else mret ()
        | _ => mret ()
        end);
  mret 0.
Definition exit_files (p : nat) : FD nat :=
  l ← get_ofile p;
  _ ← m_for (seq 0 (length l)) (take_fd p);
  mret 0.

(** ** What the calls promise *)
Abbreviation tables := (gmap nat ofile).
Definition objs (l : ofile) : list nat := f_obj <$> omap id l.
Definition all_objs (T : tables) : list nat := mjoin (objs ∘ snd <$> map_to_list T).
Definition open_files (T : tables) : gset nat := list_to_set (all_objs T).

Inductive fd_op :=
| ODup (regs : list Z)
| ODup2 (regs : list Z)
| OClose (regs : list Z)
| OOpen (opts : OMode) (v : VF)
| OPipe (v0 v1 : VF) (copied : bool * bool)
| OFork (c : nat)
| OExec
| OExit.

Definition run (p : nat) (op : fd_op) : FD nat :=
  match op with
  | ODup regs => sys_dup p regs
  | ODup2 regs => sys_dup2 p regs
  | OClose regs => sys_close p regs
  | OOpen opts v => open_file p opts v
  | OPipe v0 v1 copied => sys_pipe p v0 v1 copied
  | OFork c => fork_files p c
  | OExec => exec_files p
  | OExit => exit_files p
  end.

(** The lowest free descriptor. *)
Definition spec_fdalloc (T : tables) (p : nat) (l : ofile) (f : File) : Result nat * tables :=
  match list_find (λ x, x = None) l with
  | Some (fd, _) => (Ok fd, <[p := <[fd := Some f]> l]> T)
  | None => (Err FileDescriptorTooLarge, T)
  end.
Definition free_fds (l : ofile) : nat := length (filter (λ x, x = None) l).
Definition new_file (o : nat) (opts : OMode) : File :=
  mkFile o (om_read opts) (om_write opts) (om_cloexec opts) (om_nonblock opts) (om_append opts).

(** Outcome and tables of a call of process [p] with descriptors [l], when the
    next files are [o] and [S o]. *)
Definition spec (T : tables) (p : nat) (l : ofile) (o : nat) (op : fd_op) : Result nat * tables :=
  match op with
  | ODup regs =>
      match file_from_arg l regs 0 with
      | Ok (f, _) => spec_fdalloc T p l f
      | Err e => (Err e, T)
      | Panic => (Panic, T)
      end
  | ODup2 regs =>
      match argraw regs 0, argraw regs 1 with
      | Ok src, Ok dst =>
          if (src =? dst)%Z then (Ok (Z.to_nat dst), T)
          else match l !! Z.to_nat src, l !! Z.to_nat dst with
               | None, _ => (Err FileDescriptorTooLarge, T)
               | Some None, _ => (Err BadFileDescriptor, T)
               | Some (Some f), Some _ => (Ok (Z.to_nat dst), <[p := <[Z.to_nat dst := Some (clear_cloexec f)]> l]> T)
               | Some (Some f), None => (Err FileDescriptorTooLarge, T)
               end
      | _, _ => (Panic, T)
      end
  | OClose regs =>
      match file_from_arg l regs 0 with
      | Ok (_, fd) => (Ok 0, <[p := <[fd := None]> l]> T)
      | Err e => (Err e, T)
      | Panic => (Panic, T)
      end
  | OOpen opts _ =>
      if size (open_files T) =? NFILE then (Err FileTableOverflow, T) else spec_fdalloc T p l (new_file o opts)
  | OPipe _ _ copied =>
      if NFILE <=? size (open_files T) + 1 then (Err FileTableOverflow, T)
      else if free_fds l <=? 1 then (Err FileDescriptorTooLarge, T)
      else if (copied.1 && copied.2)%bool then
        let '(_, T1) := spec_fdalloc T p l (new_file o (set_read true OMode_new)) in
        match T1 !! p with
        | Some l1 => (Ok 0, (spec_fdalloc T1 p l1 (new_file (S o) (set_write true OMode_new))).2)
        | None => (Panic, T1)
        end
      else (Err BadVirtAddr, T)
  | OFork c => (Ok 0, <[c := l]> T)
  | OExec => (Ok 0, <[p := (λ x, match x with Some f => if f_cloexec f then None else Some f | None => None end) <$> l]> T)
  | OExit => (Ok 0, <[p := replicate (length l) None]> T)
  end.
End fds.
