(* ===== verification/FdsSpec.v ===== *)
(** * The calls on descriptors refine their specification

    The invariant: the files of the table are those of the descriptors of all
    processes, and the ones a call has in hand ([extra]).  A call is one step;
    drops of files that overlap are the subject of FTable.v. *)

From stdpp Require Import base tactics numbers gmap list relations.
From S2P Require Import Prelude Params Errors SysArgs Fcntl FsLayout FsItable FileNode FTable Fds.
Local Open Scope nat_scope.

Section tables.
Implicit Types (T : gmap nat ofile) (l : ofile).

Lemma objs_insert l fd x y : l !! fd = Some x → objs (<[fd := y]> l) ++ objs [x] ≡ₚ objs l ++ objs [y].
Proof.
  unfold objs. revert fd. induction l as [|z l IH]; intros [|fd] Hx; [done..| |].
  - simplify_eq/=. destruct x, y; simpl; solve_Permutation.
  - specialize (IH fd Hx). destruct z; simpl in *; [|done]. by rewrite IH.
Qed.

Lemma all_objs_split T p l : T !! p = Some l → all_objs T ≡ₚ objs l ++ all_objs (delete p T).
Proof. intros Hp. unfold all_objs. by rewrite <- (map_to_list_delete T p l Hp). Qed.

Lemma all_objs_insert T p l l' : T !! p = Some l → all_objs (<[p := l']> T) ++ objs l ≡ₚ all_objs T ++ objs l'.
Proof.
  intros Hp. rewrite (all_objs_split (<[p := l']> T) p l') by apply lookup_insert_eq. rewrite delete_insert_eq, (all_objs_split T p l) by done. solve_Permutation.
Qed.

Lemma all_objs_new T c l : T !! c = None → all_objs (<[c := l]> T) ≡ₚ objs l ++ all_objs T.
Proof. intros Hc. rewrite (all_objs_split _ c l) by apply lookup_insert_eq. by rewrite delete_insert_id. Qed.

Lemma objs_elem l fd f : l !! fd = Some (Some f) → f_obj f ∈ objs l.
Proof.
  intros Hl. unfold objs. apply list_elem_of_fmap. exists f. split; [done|]. apply list_elem_of_omap. exists (Some f). split; [|done].
  by eapply list_elem_of_lookup_2.
Qed.

Lemma objs_all T p l o : T !! p = Some l → o ∈ objs l → o ∈ all_objs T.
Proof. intros Hp Ho. rewrite (all_objs_split _ _ _ Hp). by apply elem_of_app; left. Qed.

Lemma objs_none n : objs (replicate n None) = [].
Proof. unfold objs. by induction n. Qed.
End tables.

Lemma perm_exchange (E E' X Y T T' L L' : list nat) :
  T' ++ L ≡ₚ T ++ L' → L' ++ X ≡ₚ L ++ Y → E ≡ₚ Y ++ E' → E ++ T ≡ₚ (X ++ E') ++ T'.
Proof.
  intros H1 H2 ->. apply (Permutation_app_inv_r (L ++ L')).
  transitivity (Y ++ E' ++ (T ++ L') ++ L); [solve_Permutation|]. rewrite <- H1.
  transitivity (E' ++ T' ++ L ++ (L ++ Y)); [solve_Permutation|]. rewrite <- H2. solve_Permutation.
Qed.

Section refine.
Context {P K I : Type}.
Implicit Types (s : Fds (P := P) (K := K) (I := I)) (l : ofile) (extra : list nat).

Record fds_ok s extra : Prop := {
  fo_len p l : procs s !! p = Some l → length l = NOFILE;
  fo_at : ft_at (ftab s) (extra ++ all_objs (procs s)) }.

Lemma fds_ok_perm s extra extra' : extra ≡ₚ extra' → fds_ok s extra → fds_ok s extra'.
Proof. intros Hp []. split; [done|]. eapply ft_at_perm; [|done]. by rewrite Hp. Qed.

Lemma get_ok s p l : procs s !! p = Some l → get_ofile p s = (Ok l, s).
Proof. unfold get_ofile. by intros ->. Qed.

(** The table of files changes under the descriptors. *)
Definition same_tables s s' : Prop := procs s' = procs s ∧ itab s' = itab s ∧ ltab s' = ltab s.

Lemma drop_ok s f extra : fds_ok s (f_obj f :: extra) → ∃ s', drop_opt (Some f) s = (Ok (), s') ∧ fds_ok s' extra ∧ same_tables s s'.
Proof.
  intros [Hlen Hat]. destruct (at_drop _ _ _ Hat) as (ft' & Hr & Hat' & _). unfold drop_opt, on_ft. rewrite Hr. eexists. split; [done|]. by split.
Qed.

Lemma drop_opt_ok s x extra : fds_ok s (objs [x] ++ extra) → ∃ s', drop_opt x s = (Ok (), s') ∧ fds_ok s' extra ∧ same_tables s s'.
Proof. destruct x as [f|]; [apply drop_ok|]. intros Hok. by exists s. Qed.

Lemma file_clone_ok s f extra : fds_ok s extra → f_obj f ∈ extra ++ all_objs (procs s) →
  ∃ s', on_ft (file_clone f) s = (Ok f, s') ∧ fds_ok s' (f_obj f :: extra) ∧ same_tables s s' ∧ fresh (ftab s') = fresh (ftab s).
Proof.
  intros [Hlen Hat] Ho. destruct (at_clone _ _ _ Hat Ho) as (ft' & Hr & Hat' & _). unfold on_ft, file_clone. rewrite (bind_ok _ _ _ _ _ Hr). cbn.
  eexists. split; [done|]. split_and!; [by split|by split|]. cbn [ftab].
  unfold arc_clone, strong_count, set_strong, mbind, M_bind in Hr. destruct (strong (ftab s) !! f_obj f); by simplify_eq.
Qed.

(** Writing a descriptor moves a file from the hand into the table, and what
    was there into the hand. *)
Lemma put_ok s p l fd x y extra extra' : fds_ok s extra → procs s !! p = Some l → l !! fd = Some x → extra ≡ₚ objs [y] ++ extra' →
  let s' := mkFds (<[p := <[fd := y]> l]> (procs s)) (ftab s) (itab s) (ltab s) in
  put_ofile p (<[fd := y]> l) s = (Ok (), s') ∧ fds_ok s' (objs [x] ++ extra').
Proof.
  intros [Hlen Hat] Hp Hx He. split; [done|]. split; cbn [procs ftab].
  - intros p' l' [[<- <-]|[_ Hp']]%lookup_insert_Some; [rewrite length_insert|]; eauto.
  - eapply ft_at_perm; [|exact Hat]. pose proof (all_objs_insert _ _ _ (<[fd := y]> l) Hp) as H1. pose proof (objs_insert l fd x y Hx) as H2.
    by eapply perm_exchange.
Qed.

(** A call ends with outcome [r] and tables [T], with [extra] in hand. *)
Definition yields {A} (m : M Error (Fds (P := P) (K := K) (I := I)) A) s (r : Result A) (T : gmap nat ofile) extra : Prop :=
  ∃ s', m s = (r, s') ∧ procs s' = T ∧ fds_ok s' extra ∧ itab s' = itab s ∧ ltab s' = ltab s.

Lemma yields_drop s f extra e (A : Type) : fds_ok s (f_obj f :: extra) →
  yields (A := A) (_ ← drop_opt (Some f); m_err e) s (Err e) (procs s) extra.
Proof. intros Hok. destruct (drop_ok _ _ _ Hok) as (s' & Hr & Hok' & ? & ? & ?). exists s'. by rewrite (bind_ok _ _ _ _ _ Hr). Qed.

Lemma fdalloc_ok s p l f extra : fds_ok s (f_obj f :: extra) → procs s !! p = Some l →
  yields (fdalloc p f) s (spec_fdalloc (procs s) p l f).1 (spec_fdalloc (procs s) p l f).2 extra.
Proof.
  intros Hok Hp. unfold fdalloc, spec_fdalloc, yields. rewrite (bind_ok _ _ _ _ _ (get_ok _ _ _ Hp)).
  destruct (list_find (λ x, x = None) l) as [[fd x]|] eqn:Hf; [|by apply yields_drop].
  pose proof Hf as (Hx & -> & _)%list_find_Some. destruct (put_ok s p l fd None (Some f) _ extra Hok Hp Hx) as [Hr Hok']; [done|].
  rewrite (bind_ok _ _ _ _ _ Hr). eexists. by split_and!.
Qed.

Lemma lift_bind {A B} (r : Result A) (k : A → M Error (Fds (P := P) (K := K) (I := I)) B) s :
  (x ← lift r; k x) s = match r with Ok x => k x s | Err e => (Err e, s) | Panic => (Panic, s) end.
Proof. unfold lift, mbind, M_bind. by destruct r. Qed.

Lemma from_arg_ok l regs f fd : file_from_arg l regs 0 = Ok (f, fd) → l !! fd = Some (Some f).
Proof.
  unfold file_from_arg. destruct (argraw regs 0) as [a| |]; bind_simpl; [|done|done].
  destruct (l !! Z.to_nat a) as [[x|]|] eqn:E; intros [=]. by simplify_eq.
Qed.

Lemma from_arg_open s p l regs f fd extra : fds_ok s extra → procs s !! p = Some l → file_from_arg l regs 0 = Ok (f, fd) →
  f_obj f ∈ extra ++ all_objs (procs s).
Proof. intros Hok Hp Ha%from_arg_ok%objs_elem. apply elem_of_app. right. by eapply objs_all. Qed.

Abbreviation spec' := (spec (P := P) (K := K) (I := I)).

Lemma sys_dup_ok s p l o regs : fds_ok s [] → procs s !! p = Some l →
  yields (sys_dup p regs) s (spec' (procs s) p l o (ODup regs)).1 (spec' (procs s) p l o (ODup regs)).2 [].
Proof.
  intros Hok Hp. unfold sys_dup, spec, yields. rewrite (bind_ok _ _ _ _ _ (get_ok _ _ _ Hp)), lift_bind.
  destruct (file_from_arg l regs 0) as [[f fd]|e|] eqn:Ha; [|by exists s..].
  destruct (file_clone_ok s f _ Hok ltac:(by eapply from_arg_open)) as (s1 & Hr & Hok1 & (Hp1 & Hi1 & Hl1) & _). cbn [fst].
  rewrite (bind_ok _ _ _ _ _ Hr). destruct (fdalloc_ok s1 p l f [] Hok1) as (s2 & Hr2 & Hp2 & Hok2 & Hi2 & Hl2); [by rewrite Hp1|].
  rewrite Hp1 in Hr2, Hp2. exists s2. split_and!; [done..|congruence|congruence].
Qed.

Lemma sys_dup2_ok s p l o regs : fds_ok s [] → procs s !! p = Some l → length regs = 6 →
  yields (sys_dup2 p regs) s (spec' (procs s) p l o (ODup2 regs)).1 (spec' (procs s) p l o (ODup2 regs)).2 [].
Proof.
  intros Hok Hp Hregs. unfold sys_dup2, spec, yields. rewrite !lift_bind.
  assert (∃ a b, argraw regs 0 = Ok a ∧ argraw regs 1 = Ok b) as (src & dst & -> & ->).
  { destruct regs as [|a [|b regs]]; [done..|]. by exists a, b. }
  rewrite lift_bind. destruct (src =? dst)%Z; [by exists s|]. rewrite (bind_ok _ _ _ _ _ (get_ok _ _ _ Hp)).
  destruct (l !! Z.to_nat src) as [[f|]|] eqn:Hs; [|by exists s..].
  assert (f_obj f ∈ [] ++ all_objs (procs s)) as Hf by (eapply objs_all; [done|by eapply objs_elem]).
  destruct (file_clone_ok s f _ Hok Hf) as (s1 & Hr & Hok1 & (Hp1 & Hi1 & Hl1) & _). rewrite (bind_ok _ _ _ _ _ Hr).
  destruct (l !! Z.to_nat dst) as [old|] eqn:Hd.
  - destruct (put_ok s1 p l (Z.to_nat dst) old (Some (clear_cloexec f)) _ [] Hok1) as [Hr2 Hok2]; [by rewrite Hp1|done|done|].
    rewrite (bind_ok _ _ _ _ _ Hr2). destruct (drop_opt_ok _ _ _ Hok2) as (s3 & Hr3 & Hok3 & Hp3 & Hi3 & Hl3).
    rewrite (bind_ok _ _ _ _ _ Hr3). exists s3. cbn [fst snd procs itab ltab] in *. split_and!; [done|congruence|done|congruence|congruence].
  - destruct (yields_drop s1 (clear_cloexec f) [] FileDescriptorTooLarge nat Hok1) as (s2 & Hr2 & Hp2 & Hok2 & Hi2 & Hl2).
    exists s2. cbn [fst snd]. split_and!; [done|congruence|done|congruence|congruence].
Qed.

Lemma sys_close_ok s p l o regs : fds_ok s [] → procs s !! p = Some l → ∃ s',
  sys_close p regs s = ((spec' (procs s) p l o (OClose regs)).1, s') ∧ procs s' = (spec' (procs s) p l o (OClose regs)).2 ∧
  fds_ok s' [] ∧ itab s' = itab s ∧
  ltab s' = match file_from_arg l regs 0 with
            | Ok (f, _) => release_locks p (lock_key (nodes (ftab s)) (itab s) (f_obj f)) (ltab s)
            | _ => ltab s
            end.
Proof.
  intros Hok Hp. unfold sys_close, spec. rewrite (bind_ok _ _ _ _ _ (get_ok _ _ _ Hp)), lift_bind.
  destruct (file_from_arg l regs 0) as [[f fd]|e|] eqn:Ha; [|by exists s..].
  destruct (put_ok s p l fd (Some f) None _ [] Hok Hp) as [Hr Hok1]; [by eapply from_arg_ok|done|].
  rewrite (bind_ok _ _ _ _ _ Hr), (bind_ok m_get _ _ _ _ eq_refl), (bind_ok (m_put _) _ _ _ _ eq_refl). cbn [procs ftab itab ltab].
  set (s2 := mkFds _ _ _ (release_locks _ _ _)). assert (fds_ok s2 [f_obj f]) as Hok2 by (destruct Hok1; by split).
  destruct (drop_ok s2 f [] Hok2) as (s3 & Hr3 & Hok3 & Hp3 & Hi3 & Hl3). rewrite (bind_ok _ _ _ _ _ Hr3). exists s3. by split_and!.
Qed.

(** ** New files *)
Lemma live_size s extra : fds_ok s extra → size (nodes (ftab s)) = size (list_to_set (extra ++ all_objs (procs s)) : gset nat).
Proof.
  intros [_ Hat]. rewrite <- size_dom. f_equal. apply leibniz_equiv. intros o. rewrite elem_of_dom, elem_of_list_to_set. symmetry. by apply at_live.
Qed.

Lemma alloc_file_ok s opts v extra : fds_ok s extra →
  if size (list_to_set (extra ++ all_objs (procs s)) : gset nat) =? NFILE then
    yields (on_ft (ftable_alloc opts v)) s (Err FileTableOverflow) (procs s) extra
  else ∃ s', on_ft (ftable_alloc opts v) s = (Ok (new_file (fresh (ftab s)) opts), s') ∧ same_tables s s' ∧
    fds_ok s' (fresh (ftab s) :: extra) ∧ (fresh (ftab s) ∉ extra ++ all_objs (procs s)) ∧ fresh (ftab s') = S (fresh (ftab s)).
Proof.
  intros Hok. rewrite <- (live_size _ _ Hok). pose proof Hok as [Hlen Hat].
  destruct (at_alloc _ _ opts v Hat) as [(f & ft' & Hr & -> & Hat' & Hfr & Hsz & Hfr' & _)|(ft' & Hr & Hat' & _ & Hsz & _)].
  - nat_test (size (nodes (ftab s)) =? NFILE) false. unfold on_ft. rewrite Hr. eexists. split_and!; [done|by split|by split|done|done].
  - nat_test (size (nodes (ftab s)) =? NFILE) true. unfold yields, on_ft. rewrite Hr. eexists. by split_and!.
Qed.

Lemma open_file_ok s p l opts v : fds_ok s [] → procs s !! p = Some l →
  yields (open_file p opts v) s (spec' (procs s) p l (fresh (ftab s)) (OOpen opts v)).1 (spec' (procs s) p l (fresh (ftab s)) (OOpen opts v)).2 [].
Proof.
  intros Hok Hp. unfold open_file, spec, open_files. pose proof (alloc_file_ok s opts v [] Hok) as Ha. cbn [app] in Ha. case_match.
  - destruct Ha as (s' & Hr & ?). exists s'. by rewrite (bind_err _ _ _ _ _ Hr).
  - destruct Ha as (s1 & Hr & (Hp1 & Hi1 & Hl1) & Hok1 & _). unfold yields. rewrite (bind_ok _ _ _ _ _ Hr).
    destruct (fdalloc_ok s1 p l (new_file (fresh (ftab s)) opts) [] Hok1) as (s2 & Hr2 & Hp2 & Hok2 & Hi2 & Hl2); [by rewrite Hp1|].
    rewrite Hp1 in Hr2, Hp2. exists s2. split_and!; [done..|congruence|congruence].
Qed.

(** ** [pipe] *)
Lemma live_bound s extra : fds_ok s extra → size (list_to_set (extra ++ all_objs (procs s)) : gset nat) ≤ NFILE.
Proof.
  intros Hok. rewrite <- (live_size _ _ Hok). destruct Hok as [_ Hat]. rewrite (at_size _ _ Hat). destruct Hat as [[Hsl _ _ _ _ _ _] _].
  rewrite <- Hsl. apply omap_id_full.
Qed.

Lemma fdalloc_cases (l : ofile) f :
  (free_fds l = 0 ∧ list_find (λ x, x = None) l = None) ∨
  (∃ fd, list_find (λ x, x = None) l = Some (fd, None) ∧ l !! fd = Some None ∧ S (free_fds (<[fd := Some f]> l)) = free_fds l).
Proof.
  destruct (list_find (λ x, x = None) l) as [[fd x]|] eqn:Hf; [right|left].
  - pose proof Hf as (Hx & -> & _)%list_find_Some. exists fd. split_and!; [done..|].
    pose proof (count_insert (λ x : option File, x = None) l fd None (Some f) Hx) as Hc. unfold free_fds.
    rewrite decide_True, decide_False in Hc by done. lia.
  - split; [|done]. apply list_find_None in Hf. unfold free_fds. by rewrite filter_none.
Qed.

Lemma take_fd_ok s p l fd x extra : fds_ok s extra → procs s !! p = Some l → l !! fd = Some x →
  yields (take_fd p fd) s (Ok ()) (<[p := <[fd := None]> l]> (procs s)) extra.
Proof.
  intros Hok Hp Hx. unfold take_fd, yields. rewrite (bind_ok _ _ _ _ _ (get_ok _ _ _ Hp)), Hx.
  destruct (put_ok s p l fd x None _ extra Hok Hp Hx) as [Hr Hok1]; [done|]. rewrite (bind_ok _ _ _ _ _ Hr).
  destruct (drop_opt_ok _ _ _ Hok1) as (s2 & Hr2 & Hok2 & Hp2 & Hi2 & Hl2). by exists s2.
Qed.

Lemma restore (T : gmap nat ofile) p l fd y : T !! p = Some l → l !! fd = Some None → <[p := <[fd := None]> (<[fd := y]> l)]> (<[p := <[fd := y]> l]> T) = T.
Proof. intros Hp Hx. rewrite list_insert_insert_eq, list_insert_id by done. by rewrite insert_insert_eq, insert_id. Qed.

Lemma pipe_fds_ok s p l o0 o1 copied : fds_ok s [o1; o0] → procs s !! p = Some l →
  let rf := new_file o0 (set_read true OMode_new) in let wf := new_file o1 (set_write true OMode_new) in
  let T1 := (spec_fdalloc (procs s) p l rf).2 in
  if free_fds l <=? 1 then yields (pipe_fds p rf wf copied) s (Err FileDescriptorTooLarge) (procs s) []
  else ∃ l1, T1 !! p = Some l1 ∧
    if (copied.1 && copied.2)%bool then yields (pipe_fds p rf wf copied) s (Ok 0) (spec_fdalloc T1 p l1 wf).2 []
    else yields (pipe_fds p rf wf copied) s (Err BadVirtAddr) (procs s) [].
Proof.
  intros Hok Hp rf wf T1. pose proof (fds_ok_perm _ _ [o0; o1] ltac:(apply perm_swap) Hok) as Hok0.
  destruct (fdalloc_ok s p l rf [o1] Hok0 Hp) as (s1 & Hr1 & Hp1 & Hok1 & Hi1 & Hl1). fold T1 in Hp1. unfold yields, pipe_fds.
  destruct (fdalloc_cases l rf) as [[Hz Hf]|(fd0 & Hf & Hx & Hc)]; unfold spec_fdalloc in Hr1; rewrite Hf in Hr1; cbn [fst snd] in *.
  - assert (T1 = procs s) as HT by (unfold T1, spec_fdalloc; by rewrite Hf). clearbody T1. rewrite HT in *. clear T1 HT.
    rewrite Hz, Hr1. destruct (yields_drop s1 wf [] FileDescriptorTooLarge nat Hok1) as (s2 & Hr2 & Hp2 & Hok2 & Hi2 & Hl2).
    exists s2. split_and!; [done|congruence|done|congruence|congruence].
  - assert (T1 = <[p := <[fd0 := Some rf]> l]> (procs s)) as HT by (unfold T1, spec_fdalloc; by rewrite Hf). clearbody T1. rewrite HT in *. clear T1 HT.
    rewrite Hr1. set (l1 := <[fd0 := Some rf]> l) in *. assert (procs s1 !! p = Some l1) as Hpl by (rewrite Hp1; apply lookup_insert_eq).
    destruct (fdalloc_ok s1 p l1 wf [] Hok1 Hpl) as (s2 & Hr2 & Hp2 & Hok2 & Hi2 & Hl2).
    assert (l1 !! fd0 = Some (Some rf)) as Hfd0 by (apply list_lookup_insert_eq; by eapply lookup_lt_Some).
    destruct (fdalloc_cases l1 wf) as [[Hz1 Hf1]|(fd1 & Hf1 & Hx1 & Hc1)]; unfold spec_fdalloc in Hr2, Hp2; rewrite Hf1 in Hr2, Hp2; cbn [fst snd] in *.
    + replace (free_fds l <=? 1) with true by (symmetry; apply Nat.leb_le; lia). rewrite Hr2.
      destruct (take_fd_ok s2 p l1 fd0 (Some rf) [] Hok2) as (s3 & Hr3 & Hp3 & Hok3 & Hi3 & Hl3); [by rewrite Hp2|done|].
      rewrite (bind_ok _ _ _ _ _ Hr3). exists s3. rewrite Hp2, Hp1 in Hp3. split_and!; [done| |done|congruence|congruence].
      rewrite Hp3. by apply restore.
    + replace (free_fds l <=? 1) with false by (symmetry; apply Nat.leb_gt; lia). exists l1. split; [apply lookup_insert_eq|]. rewrite Hr2.
      rewrite Hp1 in Hp2. unfold spec_fdalloc. rewrite Hf1. cbn [snd]. destruct (copied.1 && copied.2)%bool.
      { exists s2. split_and!; [done..|congruence|congruence]. }
      assert (fd0 ≠ fd1) as Hne by (intros ->; congruence).
      set (l2 := <[fd1 := Some wf]> l1) in *. assert (procs s2 !! p = Some l2) as Hpl2 by (rewrite Hp2; apply lookup_insert_eq).
      destruct (take_fd_ok s2 p l2 fd0 (Some rf) [] Hok2 Hpl2) as (s3 & Hr3 & Hp3 & Hok3 & Hi3 & Hl3); [unfold l2; by rewrite list_lookup_insert_ne|].
      assert (procs s3 !! p = Some (<[fd0 := None]> l2)) as Hpl3 by (rewrite Hp3; apply lookup_insert_eq).
      destruct (take_fd_ok s3 p _ fd1 (Some wf) [] Hok3 Hpl3) as (s4 & Hr4 & Hp4 & Hok4 & Hi4 & Hl4).
      { rewrite list_lookup_insert_ne by done. apply list_lookup_insert_eq. by eapply lookup_lt_Some. }
      rewrite (bind_ok _ _ _ _ _ Hr3), (bind_ok _ _ _ _ _ Hr4). exists s4. split_and!; [done| |done|congruence|congruence].
      rewrite Hp4, Hp3, Hp2, !insert_insert_eq. unfold l2, l1 in *.
      rewrite (list_insert_insert_ne _ fd0 fd1), !list_insert_insert_eq by done. rewrite list_lookup_insert_ne in Hx1 by done.
      by rewrite (list_insert_id l fd0), (list_insert_id l fd1), insert_id by done.
Qed.

Lemma sys_pipe_ok s p l v0 v1 copied : fds_ok s [] → procs s !! p = Some l →
  yields (sys_pipe p v0 v1 copied) s (spec' (procs s) p l (fresh (ftab s)) (OPipe v0 v1 copied)).1
    (spec' (procs s) p l (fresh (ftab s)) (OPipe v0 v1 copied)).2 [].
Proof.
  intros Hok Hp. unfold sys_pipe, spec, open_files. pose proof (live_bound _ _ Hok) as Hb. cbn [app] in Hb.
  pose proof (alloc_file_ok s (set_read true OMode_new) v0 [] Hok) as Ha. cbn [app] in Ha. set (o0 := fresh (ftab s)) in *.
  set (n := size _) in *. destruct (n =? NFILE) eqn:En; bool_to_prop.
  { replace (NFILE <=? n + 1) with true by (symmetry; apply Nat.leb_le; lia). destruct Ha as (s' & Hr & ?). exists s'. by rewrite (bind_err _ _ _ FileTableOverflow s') by (unfold pipe_alloc; by rewrite Hr). }
  destruct Ha as (s1 & Hr1 & (Hp1 & Hi1 & Hl1) & Hok1 & Hnew & Hfr).
  pose proof (alloc_file_ok s1 (set_write true OMode_new) v1 _ Hok1) as Ha. rewrite Hp1, Hfr in Ha.
  assert (size (list_to_set ([o0] ++ all_objs (procs s)) : gset nat) = n + 1) as Hn1.
  { cbn [app]. rewrite list_to_set_cons, size_union, size_singleton; [unfold n; lia|]. set_solver. }
  rewrite Hn1 in Ha. destruct (n + 1 =? NFILE) eqn:En1; bool_to_prop.
  - replace (NFILE <=? n + 1) with true by (symmetry; apply Nat.leb_le; lia). destruct Ha as (s2 & Hr2 & Hp2 & Hok2 & Hi2 & Hl2).
    destruct (yields_drop s2 (new_file o0 (set_read true OMode_new)) [] FileTableOverflow (File * File) Hok2) as (s3 & Hr3 & Hp3 & Hok3 & Hi3 & Hl3).
    exists s3. rewrite (bind_err _ _ _ FileTableOverflow s3) by (unfold pipe_alloc; by rewrite Hr1, Hr2). cbn [fst snd]. split_and!; [done|congruence|done|congruence|congruence].
  - replace (NFILE <=? n + 1) with false by (symmetry; apply Nat.leb_gt; lia). destruct Ha as (s2 & Hr2 & (Hp2 & Hi2 & Hl2) & Hok2 & _).
    assert (procs s2 = procs s) as Hps by congruence. assert (procs s2 !! p = Some l) as Hp' by by rewrite Hps.
    pose proof (pipe_fds_ok s2 p l o0 (S o0) copied Hok2 Hp') as Hpf. cbv zeta in Hpf. rewrite Hps in Hpf. unfold yields in *.
    rewrite (bind_ok _ _ _ (new_file o0 (set_read true OMode_new), new_file (S o0) (set_write true OMode_new)) s2) by (unfold pipe_alloc; by rewrite Hr1, Hr2).
    rewrite Hi2, Hi1, Hl2, Hl1 in Hpf. cbn [fst snd].
    destruct (free_fds l <=? 1); [done|]. destruct Hpf as (l1 & HT & Hpf). destruct (spec_fdalloc (procs s) p l _) as [r1 T1]. cbn [snd] in *. rewrite HT.
    by destruct (copied.1 && copied.2)%bool.
Qed.

(** ** [fork] *)
Lemma clone_slots_ok (l : ofile) : ∀ s extra, fds_ok s extra → (∀ o, o ∈ objs l → o ∈ extra ++ all_objs (procs s)) →
  ∃ s', clone_slots l s = (Ok l, s') ∧ fds_ok s' (objs l ++ extra) ∧ same_tables s s'.
Proof.
  induction l as [|[f|] l IH]; intros s extra Hok Hl; [by exists s| |].
  - destruct (file_clone_ok s f _ Hok) as (s1 & Hr & Hok1 & (Hp1 & Hi1 & Hl1) & _); [apply Hl; left|]. cbn [clone_slots]. rewrite (bind_ok _ _ _ _ _ Hr).
    destruct (IH s1 _ Hok1) as (s2 & Hr2 & Hok2 & Hp2 & Hi2 & Hl2).
    { intros o Ho. rewrite Hp1. right. apply Hl. by right. }
    rewrite (bind_ok _ _ _ _ _ Hr2). exists s2. split_and!; [done| |split_and!; congruence].
    eapply fds_ok_perm; [|exact Hok2]. change (objs (Some f :: l)) with (f_obj f :: objs l). solve_Permutation.
  - destruct (IH s extra Hok) as (s2 & Hr2 & Hok2 & Hs); [intros o Ho; by apply Hl|]. cbn [clone_slots]. rewrite (bind_ok _ _ _ _ _ Hr2). by exists s2.
Qed.

(** The child's table is a new one: absent, or empty. *)
Definition new_proc (T : gmap nat ofile) (c : nat) : Prop := T !! c = None ∨ T !! c = Some (replicate NOFILE None).

Lemma fork_ok s p l o c : fds_ok s [] → procs s !! p = Some l → new_proc (procs s) c →
  yields (fork_files p c) s (spec' (procs s) p l o (OFork c)).1 (spec' (procs s) p l o (OFork c)).2 [].
Proof.
  intros Hok Hp Hc. unfold fork_files, spec, yields. rewrite (bind_ok _ _ _ _ _ (get_ok _ _ _ Hp)).
  destruct (clone_slots_ok l s [] Hok) as (s1 & Hr & Hok1 & Hp1 & Hi1 & Hl1); [intros o' Ho; by eapply objs_all|].
  rewrite (bind_ok _ _ _ _ _ Hr), (bind_ok (put_ofile c l) _ _ _ _ eq_refl). eexists. split_and!; [done|cbn [procs snd]; congruence| |done|done].
  destruct Hok1 as [Hlen Hat]. rewrite Hp1, app_nil_r in *. split; cbn [procs ftab].
  - intros p' l' [[<- <-]|[_ Hp']]%lookup_insert_Some; eauto.
  - eapply ft_at_perm; [|exact Hat]. cbn [app]. destruct Hc as [Hc|Hc]; [by rewrite all_objs_new|].
    pose proof (all_objs_insert _ _ _ l Hc) as Hi. rewrite objs_none, app_nil_r in Hi. rewrite Hi. solve_Permutation.
Qed.

(** ** The loops of [exec] and [exit] *)
Lemma slots_loop p (body : nat → M Error (Fds (P := P) (K := K) (I := I)) ()) (g : option File → option File) :
  (∀ s l fd x, fds_ok s [] → procs s !! p = Some l → l !! fd = Some x → yields (body fd) s (Ok ()) (<[p := <[fd := g x]> l]> (procs s)) []) →
  ∀ n i s l, fds_ok s [] → procs s !! p = Some l → i + n = length l →
    yields (m_for (seq i n) body) s (Ok ()) (<[p := take i l ++ (g <$> drop i l)]> (procs s)) [].
Proof.
  intros Hb n. induction n as [|n IH]; intros i s l Hok Hp Hn.
  - exists s. rewrite take_ge, drop_ge, app_nil_r, insert_id by (done || lia). by split_and!.
  - destruct (lookup_lt_is_Some_2 l i) as [x Hx]; [lia|]. destruct (Hb s l i x Hok Hp Hx) as (s1 & Hr & Hp1 & Hok1 & Hi1 & Hl1).
    assert (i < length l) as Hlt by lia.
    destruct (IH (S i) s1 (<[i := g x]> l) Hok1) as (s2 & Hr2 & Hp2 & Hok2 & Hi2 & Hl2); [rewrite Hp1; apply lookup_insert_eq|rewrite length_insert; lia|].
    unfold yields. cbn [seq m_for]. rewrite (bind_ok _ _ _ _ _ Hr). exists s2. split_and!; [done| |done|congruence|congruence].
    rewrite Hp2, Hp1, insert_insert_eq. f_equal. rewrite drop_insert_lt by lia. rewrite (drop_S l x i) by done.
    rewrite (take_S_r _ i (g x)) by (apply list_lookup_insert_eq; lia). rewrite take_insert_ge by lia. by rewrite <- app_assoc.
Qed.

Lemma exit_ok s p l o : fds_ok s [] → procs s !! p = Some l →
  yields (exit_files p) s (spec' (procs s) p l o OExit).1 (spec' (procs s) p l o OExit).2 [].
Proof.
  intros Hok Hp. unfold exit_files, spec, yields. rewrite (bind_ok _ _ _ _ _ (get_ok _ _ _ Hp)).
  destruct (slots_loop p (take_fd p) (λ _, None)) with (n := length l) (i := 0) (s := s) (l := l) as (s1 & Hr & Hp1 & H1); [|done..|].
  { intros s' l' fd x Hok' Hp' Hx. by eapply take_fd_ok. }
  rewrite (bind_ok _ _ _ _ _ Hr). exists s1. split_and!; [done| |apply H1..]. rewrite Hp1. cbn [take app drop snd]. f_equal.
  clear. by induction l as [|x l IH]; simpl; [|f_equal].
Qed.

Lemma exec_ok s p l o : fds_ok s [] → procs s !! p = Some l →
  yields (exec_files p) s (spec' (procs s) p l o OExec).1 (spec' (procs s) p l o OExec).2 [].
Proof.
  intros Hok Hp. unfold exec_files, spec, yields. rewrite (bind_ok _ _ _ _ _ (get_ok _ _ _ Hp)). cbn [fst snd].
  set (g := λ x : option File, _). match goal with |- context [m_for _ ?b] => set (body := b) end.
  destruct (slots_loop p body g) with (n := length l) (i := 0) (s := s) (l := l) as (s1 & Hr & Hp1 & H1); [|done..|].
  { intros s' l' fd x Hok' Hp' Hx. unfold body, yields. rewrite (bind_ok _ _ _ _ _ (get_ok _ _ _ Hp')), Hx.
    assert (yields (mret ()) s' (Ok ()) (<[p := <[fd := x]> l']> (procs s')) []) as Hid by (exists s'; by rewrite list_insert_id, insert_id).
    destruct x as [f|]; cbn [g]; [|exact Hid]. destruct (f_cloexec f); [by eapply take_fd_ok|exact Hid]. }
  rewrite (bind_ok _ _ _ _ _ Hr). exists s1. by split_and!; [..|apply H1|apply H1|apply H1].
Qed.

(** ** Programs *)
Definition fds_init : Fds (P := P) (K := K) (I := I) := mkFds {[1 := replicate NOFILE None]} ftable_new [] [].
Definition op_valid s (p : nat) (op : fd_op (P := P) (K := K) (I := I)) : Prop :=
  match op with
  | ODup regs | ODup2 regs | OClose regs => length regs = 6
  | OFork c => new_proc (procs s) c
  | _ => True
  end.

(** Calls of any process, and whatever happens to inodes and locks between
    them. *)
Inductive fd_step : Fds (P := P) (K := K) (I := I) → Fds (P := P) (K := K) (I := I) → Prop :=
| fd_call s p op r s' : is_Some (procs s !! p) → op_valid s p op → run p op s = (r, s') → fd_step s s'
| fd_env s t lt : fd_step s (mkFds (procs s) (ftab s) t lt).

(** The locks a call releases. *)
Definition locks_after s (p : nat) (l : ofile) (op : fd_op (P := P) (K := K) (I := I)) : LockTable :=
  match op with
  | OClose regs =>
      match file_from_arg l regs 0 with
      | Ok (f, _) => release_locks p (lock_key (nodes (ftab s)) (itab s) (f_obj f)) (ltab s)
      | _ => ltab s
      end
  | _ => ltab s
  end.

Lemma run_ok s p l op : fds_ok s [] → procs s !! p = Some l → op_valid s p op →
  ∃ s', run p op s = ((spec (procs s) p l (fresh (ftab s)) op).1, s') ∧ procs s' = (spec (procs s) p l (fresh (ftab s)) op).2 ∧
    ltab s' = locks_after s p l op ∧ fds_ok s' [].
Proof.
  intros Hok Hp Hv. destruct op as [regs|regs|regs|opts v|v0 v1 copied|c| |]; cbn [op_valid] in Hv.
  - destruct (sys_dup_ok s p l (fresh (ftab s)) regs Hok Hp) as (s' & ? & ? & ? & _ & ?). by exists s'.
  - destruct (sys_dup2_ok s p l (fresh (ftab s)) regs Hok Hp Hv) as (s' & ? & ? & ? & _ & ?). by exists s'.
  - destruct (sys_close_ok s p l (fresh (ftab s)) regs Hok Hp) as (s' & ? & ? & ? & _ & ?). by exists s'.
  - destruct (open_file_ok s p l opts v Hok Hp) as (s' & ? & ? & ? & _ & ?). by exists s'.
  - destruct (sys_pipe_ok s p l v0 v1 copied Hok Hp) as (s' & ? & ? & ? & _ & ?). by exists s'.
  - destruct (fork_ok s p l (fresh (ftab s)) c Hok Hp Hv) as (s' & ? & ? & ? & _ & ?). by exists s'.
  - destruct (exec_ok s p l (fresh (ftab s)) Hok Hp) as (s' & ? & ? & ? & _ & ?). by exists s'.
  - destruct (exit_ok s p l (fresh (ftab s)) Hok Hp) as (s' & ? & ? & ? & _ & ?). by exists s'.
Qed.

Lemma fds_init_ok : fds_ok fds_init [].
Proof.
  split; cbn [procs ftab fds_init]; [intros p l [_ <-]%lookup_singleton_Some; apply length_replicate|].
  rewrite <- insert_empty, all_objs_new by done. rewrite objs_none. cbn [app]. unfold all_objs. rewrite map_to_list_empty. apply ft_at_new.
Qed.

Lemma fd_reach_ok s : rtc fd_step fds_init s → fds_ok s [].
Proof.
  intros Hr. eapply (rtc_ind_r (λ s, fds_ok s []) fds_init); [apply fds_init_ok| |exact Hr].
  intros x y _ Hs Hx. destruct Hs as [x p op r y [l Hp] Hv Hrun|x t lt]; [|by destruct Hx].
  destruct (run_ok _ _ _ _ Hx Hp Hv) as (y' & Hrun' & _ & _ & Hy). rewrite Hrun in Hrun'. by simplify_eq.
Qed.

Lemma from_arg_total (l : ofile) regs : length regs = 6 → file_from_arg l regs 0 ≠ Panic.
Proof. intros Hr. destruct regs as [|a regs]; [done|]. unfold file_from_arg. simpl. by destruct (l !! Z.to_nat a) as [[]|]. Qed.

Lemma spec_total s p l o op : procs s !! p = Some l → op_valid s p op → (spec (procs s) p l o op).1 ≠ Panic.
Proof.
  assert (∀ T f, (spec_fdalloc T p l f).1 ≠ Panic) as Hfd by (intros T f; unfold spec_fdalloc; by destruct (list_find _ _) as [[]|]).
  intros Hp Hv. destruct op as [regs|regs|regs|opts v|v0 v1 copied|c| |]; cbn [op_valid spec] in *; try done.
  - pose proof (from_arg_total l regs Hv). by destruct (file_from_arg l regs 0) as [[f fd]| |].
  - destruct regs as [|a [|b regs]]; [done..|]. simpl. destruct (a =? b)%Z; [done|]. by destruct (l !! Z.to_nat a) as [[]|], (l !! Z.to_nat b).
  - pose proof (from_arg_total l regs Hv). by destruct (file_from_arg l regs 0) as [[f fd]| |].
  - by case_match.
  - do 2 (case_match; [done|]). case_match; [|done].
    assert (is_Some ((spec_fdalloc (procs s) p l (new_file o (set_read true OMode_new))).2 !! p)) as [l1 Hl1].
    { unfold spec_fdalloc. destruct (list_find _ _) as [[]|]; cbn [snd]; rewrite ?lookup_insert_eq, ?Hp; eauto. }
    destruct (spec_fdalloc (procs s) p l _) as [r1 T1]. cbn [snd] in Hl1. by rewrite Hl1.
Qed.

(** C15: the system calls on descriptors, for any number of processes that
    fork, exec and exit, when the calls happen one after the other: each call,
    with the dropping of files it causes, is one step, so no two processes
    drop a file at the same time (when they do, a slot of the file table can
    be lost for good: [overlapping_drops_leak] of FTable.v).  Each call has
    exactly the outcome and the effect on the descriptor tables of its
    specification - the lowest free descriptor, both ends of a pipe or
    neither, a child with its parent's files, an error only for the reasons
    named there - and never panics; a file is alive exactly while some
    descriptor of some process refers to it and is destroyed once; and only
    closing a descriptor releases locks. *)
Theorem fds_refine s : rtc fd_step fds_init s →
  (∀ o, is_Some (nodes (ftab s) !! o) ↔ o ∈ open_files (procs s)) ∧
  length (dropped (ftab s)) + size (open_files (procs s)) = fresh (ftab s) ∧
  (∀ p l op, procs s !! p = Some l → op_valid s p op →
     let '(r, T) := spec (procs s) p l (fresh (ftab s)) op in
     r ≠ Panic ∧ ∃ s', run p op s = (r, s') ∧ procs s' = T ∧ ltab s' = locks_after s p l op).
Proof.
  intros Hok%fd_reach_ok. split_and!.
  - intros o. destruct Hok as [_ Hat]. unfold open_files. rewrite elem_of_list_to_set. symmetry. by apply (at_live _ _ _ Hat).
  - pose proof (live_size _ _ Hok) as Hsz. cbn [app] in Hsz. unfold open_files. rewrite <- Hsz. destruct Hok as [_ [[] _]]. done.
  - intros p l op Hp Hv. pose proof (spec_total s p l (fresh (ftab s)) op Hp Hv) as Ht. destruct (run_ok _ _ _ _ Hok Hp Hv) as (s' & Hr & Hp' & Hl & _).
    destruct (spec (procs s) p l (fresh (ftab s)) op) as [r T]. eauto.
Qed.

(** A process that exits keeps its locks: nobody releases them. *)
Theorem exit_keeps_locks s p l : rtc fd_step fds_init s → procs s !! p = Some l →
  ∃ s', run p OExit s = (Ok 0, s') ∧ procs s' !! p = Some (replicate (length l) None) ∧ ltab s' = ltab s.
Proof.
  intros Hok%fd_reach_ok Hp. destruct (run_ok s p l OExit Hok Hp) as (s' & Hr & Hp' & Hl & _); [done|]. exists s'. split_and!; [done| |done].
  rewrite Hp'. apply lookup_insert_eq.
Qed.
End refine.

(** A file opened by the first process, then duplicated. *)
Lemma fds_refine_witness : ∃ s : Fds (P := ()) (K := ()) (I := ()), rtc fd_step fds_init s ∧ open_files (procs s) = {[0]} ∧
  ∃ s', run 1 (ODup [0; 0; 0; 0; 0; 0]%Z) s = (Ok 1, s').
Proof.
  set (s := (run 1 (OOpen OMode_new VNone) (fds_init (P := ()) (K := ()) (I := ()))).2).
  assert (rtc fd_step fds_init s) as Hr.
  { eapply rtc_l; [|apply rtc_refl]. apply (fd_call _ 1 (OOpen OMode_new VNone) (Ok 0)); [eexists; reflexivity|exact Logic.I|vm_compute; reflexivity]. }
  exists s. split; [exact Hr|]. split; [vm_compute; reflexivity|].
  destruct (fds_refine s Hr) as (_ & _ & Hc).
  destruct (Hc 1 (<[0 := Some (mkFile 0 false false false false false)]> (replicate 16 None)) (ODup [0; 0; 0; 0; 0; 0]%Z)) as [_ (s' & Hs & _)];
    [vm_compute; reflexivity|reflexivity|]. exists s'. exact Hs.
Defined.
