(* ===== verification/Task.v ===== *)
(** * Kernel tasks

    [kernel/src/task.rs]: the executor of futures of each CPU, with its ready
    queue, its tasks and the wakers of the clock.  A future is known by its
    [poll], which acts on the shared state; [prog] is the code of such an
    action, one constructor per access to an atomic or per region under a
    lock, so that interrupts and other CPUs can come between them.

    The functions as the code runs them without interruption come first
    ([spawn_on], [run_ready_tasks_cpu], [on_tick_cpu]); the second half splits
    them into steps of executors, clock interrupts and other threads. *)

From stdpp Require Import base tactics numbers gmap list relations.
From S2P Require Import Prelude Params Errors.
Local Open Scope nat_scope.

(** [struct ReadyQueue]. *)
Definition READYQ_SIZE : nat := 256.
Record ReadyQueue := mkReadyQ { q_buf : list Z; q_head : nat; q_tail : nat; q_len : nat }.
Definition ReadyQueue_new : ReadyQueue := mkReadyQ (replicate READYQ_SIZE 0%Z) 0 0 0.

Definition ready_is_empty (q : ReadyQueue) : bool := q_len q =? 0.
Definition ready_push (id : Z) (q : ReadyQueue) : Result (bool * ReadyQueue) :=
  if q_len q =? READYQ_SIZE then Ok (false, q)
  else if negb (q_tail q <? length (q_buf q)) then Panic
  else Ok (true, mkReadyQ (<[q_tail q := id]> (q_buf q)) (q_head q) ((q_tail q + 1) mod READYQ_SIZE) (q_len q + 1)).
Definition ready_pop (q : ReadyQueue) : Result (option Z * ReadyQueue) :=
  if q_len q =? 0 then Ok (None, q)
  else match q_buf q !! q_head q with
       | None => Panic
       | Some raw => Ok (Some raw, mkReadyQ (q_buf q) ((q_head q + 1) mod READYQ_SIZE) (q_tail q) (q_len q - 1))
       end.

(** [struct TaskWaker]. *)
Record Waker := mkWaker { w_cpu : nat; w_id : Z }.
Global Instance waker_eq_dec : EqDecision Waker.
Proof. solve_decision. Defined.

Section task.
Context {F : Type}.

(** [struct ExecutorState], and the statics of one CPU: [READY], [EXEC],
    [POLLS], [TICK_SEQ] and [TICK_WAKERS]. *)
Record ExecutorState := mkExec { tasks : gmap Z F; waker_cache : gmap Z Waker }.
Record CpuTasks := mkCpu {
  READY : ReadyQueue;
  EXEC : option ExecutorState;
  POLLS : Z;
  TICK_SEQ : Z;
  TICK_WAKERS : option (list Waker);
}.
Record Kern := mkKern { NEXT_ID : Z; cpus : list CpuTasks }.
Abbreviation KM := (M Error Kern).

Definition kern_new : Kern := mkKern 0 (replicate NCPU (mkCpu ReadyQueue_new None 0 0 None)).

Definition get_cpu (c : nat) : KM CpuTasks := λ k, match cpus k !! c with Some x => (Ok x, k) | None => (Panic, k) end.
Definition set_cpu (c : nat) (x : CpuTasks) : KM () := λ k, (Ok (), mkKern (NEXT_ID k) (<[c := x]> (cpus k))).
Definition set_ready (q : ReadyQueue) (x : CpuTasks) : CpuTasks := mkCpu q (EXEC x) (POLLS x) (TICK_SEQ x) (TICK_WAKERS x).
Definition set_exec (e : ExecutorState) (x : CpuTasks) : CpuTasks := mkCpu (READY x) (Some e) (POLLS x) (TICK_SEQ x) (TICK_WAKERS x).
Definition set_wakers (ws : list Waker) (x : CpuTasks) : CpuTasks := mkCpu (READY x) (EXEC x) (POLLS x) (TICK_SEQ x) (Some ws).
Definition lift_r {A} (r : Result A) : KM A := λ k, (r, k).

(** [EXEC[cpu].get().expect(..)] and [TICK_WAKERS[cpu].get().expect(..)]. *)
Definition get_exec (x : CpuTasks) : KM ExecutorState := match EXEC x with Some e => mret e | None => m_panic end.
Definition get_wakers (x : CpuTasks) : KM (list Waker) := match TICK_WAKERS x with Some l => mret l | None => m_panic end.

(** [TaskId::new]. *)
Definition task_id_new : KM Z := λ k, (Ok (NEXT_ID k), mkKern (u64 (NEXT_ID k + 1)) (cpus k)).

(** [ExecutorState::insert_task]. *)
Definition insert_task (c : nat) (id : Z) (f : F) : KM () :=
  x ← get_cpu c;
  e ← get_exec x;
  _ ← set_cpu c (set_exec (mkExec (<[id := f]> (tasks e)) (waker_cache e)) x);
  match tasks e !! id with Some _ => m_panic | None => mret () end.

(** [TaskWaker::wake_task]; [spawn_on] pushes in the same way. *)
Definition wake_task (w : Waker) : KM () :=
  x ← get_cpu (w_cpu w);
  r ← lift_r (ready_push (w_id w) (READY x));
  if (r.1 : bool) then set_cpu (w_cpu w) (set_ready r.2 x) else m_panic.

Definition load_seq (c : nat) : KM Z := x ← get_cpu c; mret (TICK_SEQ x).
Definition push_waker (c : nat) (w : Waker) : KM () :=
  x ← get_cpu c;
  ws ← get_wakers x;
  set_cpu c (set_wakers (ws ++ [w]) x).

(** [init_cpu]. *)
Definition init_cpu (c : nat) : KM () :=
  x ← get_cpu c;
  _ ← match EXEC x with Some _ => m_panic | None => set_cpu c (set_exec (mkExec ∅ ∅) x) end;
  x ← get_cpu c;
  match TICK_WAKERS x with Some _ => m_panic | None => set_cpu c (set_wakers [] x) end.

(** ** Code that runs in steps *)
Inductive prog (A : Type) :=
| Ret (a : A)
| NewId (k : Z → prog A)
| InsertTask (c : nat) (id : Z) (f : F) (k : prog A)
| Wake (w : Waker) (k : prog A)
| LoadSeq (c : nat) (k : Z → prog A)
| PushWaker (c : nat) (w : Waker) (k : prog A)
| Fault.
Arguments Ret {A} a.
Arguments NewId {A} k.
Arguments InsertTask {A} c id f k.
Arguments Wake {A} w k.
Arguments LoadSeq {A} c k.
Arguments PushWaker {A} c w k.
Arguments Fault {A}.

Fixpoint prog_bind {A B} (g : A → prog B) (p : prog A) : prog B :=
  match p with
  | Ret a => g a
  | NewId k => NewId (λ z, prog_bind g (k z))
  | InsertTask c id f k => InsertTask c id f (prog_bind g k)
  | Wake w k => Wake w (prog_bind g k)
  | LoadSeq c k => LoadSeq c (λ z, prog_bind g (k z))
  | PushWaker c w k => PushWaker c w (prog_bind g k)
  | Fault => Fault
  end.
Global Instance prog_ret : MRet prog := λ A a, Ret a.
Global Instance prog_mbind : MBind prog := λ A B g p, prog_bind g p.

(** One step of such code, and all of it. *)
Definition prog_step {A} (p : prog A) : KM (prog A) :=
  match p with
  | Ret a => mret (Ret a)
  | NewId k => id ← task_id_new; mret (k id)
  | InsertTask c id f k => _ ← insert_task c id f; mret k
  | Wake w k => _ ← wake_task w; mret k
  | LoadSeq c k => z ← load_seq c; mret (k z)
  | PushWaker c w k => _ ← push_waker c w; mret k
  | Fault => m_panic
  end.
Fixpoint run_prog {A} (p : prog A) : KM A :=
  match p with
  | Ret a => mret a
  | NewId k => id ← task_id_new; run_prog (k id)
  | InsertTask c id f k => _ ← insert_task c id f; run_prog k
  | Wake w k => _ ← wake_task w; run_prog k
  | LoadSeq c k => z ← load_seq c; run_prog (k z)
  | PushWaker c w k => _ ← push_waker c w; run_prog k
  | Fault => m_panic
  end.

(** [Task::new] and [spawn_on]. *)
Definition spawn_on (c : nat) (f : F) : prog () :=
  NewId (λ id, InsertTask c id f (Wake (mkWaker c id) (Ret ()))).

Definition ready_is_empty_cpu (c : nat) : KM bool := x ← get_cpu c; mret (ready_is_empty (READY x)).

(** ** The executor *)
Context (poll : F → Waker → prog (option F)).

(** The regions of [run_ready_tasks_cpu]: taking the next number, taking its
    task and waker, and what follows a poll, [None] being [Poll::Ready]. *)
Definition pop_ready (c : nat) : KM (option Z) :=
  x ← get_cpu c;
  r ← lift_r (ready_pop (READY x));
  _ ← set_cpu c (set_ready r.2 x);
  mret r.1.
Definition count_poll (c : nat) : KM () :=
  x ← get_cpu c;
  set_cpu c (mkCpu (READY x) (EXEC x) (u64 (POLLS x + 1)) (TICK_SEQ x) (TICK_WAKERS x)).
Definition take_task (c : nat) (id : Z) : KM (option (F * Waker)) :=
  x ← get_cpu c;
  e ← get_exec x;
  match tasks e !! id with
  | None => mret None
  | Some f =>
      let w := default (mkWaker c id) (waker_cache e !! id) in
      _ ← set_cpu c (set_exec (mkExec (delete id (tasks e)) (<[id := w]> (waker_cache e))) x);
      mret (Some (f, w))
  end.
Definition after_poll (c : nat) (id : Z) (r : option F) : KM () :=
  x ← get_cpu c;
  e ← get_exec x;
  set_cpu c (set_exec match r with
    | None => mkExec (tasks e) (delete id (waker_cache e))
    | Some f => mkExec (<[id := f]> (tasks e)) (waker_cache e)
    end x).

(** [false]: the fuel has run out, which [run_ends] excludes. *)
Fixpoint run_loop (fuel c budget ran : nat) : KM bool :=
  match fuel with
  | 0 => mret false
  | S fuel =>
      if (negb (budget =? 0) && (budget <=? ran))%bool then mret true else
      i ← pop_ready c;
      match i with
      | None => mret true
      | Some id =>
          _ ← count_poll c;
          t ← take_task c id;
          match t with
          | None => run_loop fuel c budget ran
          | Some (f, w) =>
              r ← run_prog (poll f w);
              _ ← after_poll c id r;
              run_loop fuel c budget (S ran)
          end
      end
  end.
Definition run_ready_tasks_cpu (fuel c budget : nat) : KM bool :=
  x ← get_cpu c; _ ← get_exec x; run_loop fuel c budget 0.

(** [poll_count_total]. *)
Definition poll_count_total (k : Kern) : Z := foldl (λ sum x, u64 (sum + POLLS x)) 0%Z (cpus k).

(** ** The clock *)
Definition inc_seq (c : nat) : KM () :=
  x ← get_cpu c;
  set_cpu c (mkCpu (READY x) (EXEC x) (POLLS x) (u64 (TICK_SEQ x + 1)) (TICK_WAKERS x)).
Definition clear_wakers (c : nat) : KM () := x ← get_cpu c; set_cpu c (set_wakers [] x).
Definition on_tick_cpu (c : nat) : KM () :=
  _ ← inc_seq c;
  x ← get_cpu c;
  ws ← get_wakers x;
  _ ← m_for ws wake_task;
  clear_wakers c.

(** ** Everything at once *)

(** Where an executor and a clock interrupt are. *)
Inductive ephase := Idle | Got (id : Z) | Polling (id : Z) (f : F) (p : prog (option F)).
Inductive tphase := TIdle | TSeq | TLoop (ws : list Waker).

Definition exec_step (c : nat) (ph : ephase) : KM ephase :=
  match ph with
  | Idle => i ← pop_ready c; mret match i with Some id => Got id | None => Idle end
  | Got id =>
      _ ← count_poll c;
      t ← take_task c id;
      mret match t with Some (f, w) => Polling id f (poll f w) | None => Idle end
  | Polling id f (Ret r) => _ ← after_poll c id r; mret Idle
  | Polling id f p => p ← prog_step p; mret (Polling id f p)
  end.
Definition tick_step (c : nat) (t : tphase) : KM tphase :=
  match t with
  | TIdle => _ ← inc_seq c; mret TSeq
  | TSeq => x ← get_cpu c; ws ← get_wakers x; mret (TLoop ws)
  | TLoop (w :: ws) => _ ← wake_task w; mret (TLoop ws)
  | TLoop [] => _ ← clear_wakers c; mret TIdle
  end.

Record Sys := mkSys { kern : Kern; ex : list ephase; ti : list tphase; threads : list (prog ()) }.
Inductive label := LExec (c : nat) | LTick (c : nat) | LThread (i : nat) | LCall.
Global Instance label_eq_dec : EqDecision label.
Proof. solve_decision. Defined.

(** A push to the list of wakers waits for the interrupt that holds its lock. *)
Definition waits {A} (t : list tphase) (p : prog A) : bool :=
  match p with PushWaker c _ _ => match t !! c with Some (TLoop _) => true | _ => false end | _ => false end.
Definition e_waits (t : list tphase) (ph : ephase) : bool := match ph with Polling _ _ p => waits t p | _ => false end.

(** An interrupt is served before its CPU goes on; [calls] are the pieces of
    code other threads run. *)
Inductive step (calls : prog () → Prop) : Sys → label → Sys → Prop :=
| s_exec k e t th c ph ph' k' : e !! c = Some ph → t !! c = Some TIdle → e_waits t ph = false →
    exec_step c ph k = (Ok ph', k') → step calls (mkSys k e t th) (LExec c) (mkSys k' (<[c := ph']> e) t th)
| s_tick k e t th c ph ph' k' : t !! c = Some ph → tick_step c ph k = (Ok ph', k') →
    step calls (mkSys k e t th) (LTick c) (mkSys k' e (<[c := ph']> t) th)
| s_thread k e t th i p p' k' : th !! i = Some p → waits t p = false → prog_step p k = (Ok p', k') →
    step calls (mkSys k e t th) (LThread i) (mkSys k' e t (<[i := p']> th))
| s_call k e t th p : calls p → step calls (mkSys k e t th) LCall (mkSys k e t (th ++ [p])).

Inductive steps (calls : prog () → Prop) : Sys → list label → Sys → Prop :=
| steps_nil s : steps calls s [] s
| steps_snoc s l s' a s'' : steps calls s l s' → step calls s' a s'' → steps calls s (l ++ [a]) s''.
End task.
Arguments ExecutorState F : clear implicits.
Arguments CpuTasks F : clear implicits.
Arguments Kern F : clear implicits.
Arguments Sys F : clear implicits.
Arguments prog F A : clear implicits.
Arguments ephase F : clear implicits.
Arguments Ret {F A} a.
Arguments NewId {F A} k.
Arguments InsertTask {F A} c id f k.
Arguments Wake {F A} w k.
Arguments LoadSeq {F A} c k.
Arguments PushWaker {F A} c w k.
Arguments Fault {F A}.

(** ** [SleepTicks] *)
Record SleepTicks := mkSleep { sl_cpu : nat; sl_target : Z }.

Definition sleep_ticks (cpu : nat) (n : Z) : prog SleepTicks SleepTicks :=
  LoadSeq cpu (λ now, if (now + n <=? USIZE_MAX)%Z then Ret (mkSleep cpu (now + n)) else Fault).

(** [SleepTicks::poll], from its second load, from its push, and whole. *)
Definition sleep_recheck (f : SleepTicks) : prog SleepTicks (option SleepTicks) :=
  LoadSeq (sl_cpu f) (λ now2, if (sl_target f <=? now2)%Z then Ret None else Ret (Some f)).
Definition sleep_register (f : SleepTicks) (w : Waker) : prog SleepTicks (option SleepTicks) :=
  PushWaker (sl_cpu f) w (sleep_recheck f).
Definition sleep_poll (f : SleepTicks) (w : Waker) : prog SleepTicks (option SleepTicks) :=
  LoadSeq (sl_cpu f) (λ now, if (sl_target f <=? now)%Z then Ret None else sleep_register f w).

(** A thread on [here] that spawns a task sleeping [n] ticks on [c]:
    [spawn_on(c, Task::new(sleep_ticks(n)))]. *)
Definition nap (here c : nat) (n : Z) : prog SleepTicks () := f ← sleep_ticks here n; spawn_on c f.

(** ** The executor returns to the scheduler

    Whatever the futures do, a run with a budget ends: between two polls only
    numbers of finished tasks are taken off the queue. *)
Section ends.
Context {F : Type} (poll : F → Waker → prog F (option F)).

Definition lens (k : Kern F) : Prop := ∀ c x, cpus k !! c = Some x → q_len (READY x) ≤ READYQ_SIZE.
Definition len_of (k : Kern F) (c : nat) : nat := match cpus k !! c with Some x => q_len (READY x) | None => 0 end.

Lemma lens_insert k n c x : lens k → q_len (READY x) ≤ READYQ_SIZE → lens (mkKern n (<[c := x]> (cpus k))).
Proof. intros Hk Hx c' x' H. apply list_lookup_insert_Some in H as [(-> & <- & _)|[_ H]]; [done|by eapply Hk]. Qed.

Lemma push_len id q q' : q_len q ≤ READYQ_SIZE → ready_push id q = Ok (true, q') → q_len q' ≤ READYQ_SIZE.
Proof. unfold ready_push. intros. case_all. bool_to_prop. cbn. lia. Qed.

Lemma pop_len q r q' : ready_pop q = Ok (r, q') → q_len q' + match r with Some _ => 1 | None => 0 end = q_len q.
Proof. unfold ready_pop. intros. case_all. bool_to_prop. cbn. lia. Qed.

Lemma lens_bind {A B} (m : M Error (Kern F) A) (g : A → M Error (Kern F) B) k :
  lens (m k).2 → (∀ a k', m k = (Ok a, k') → lens k' → lens (g a k').2) → lens ((m ≫= g) k).2.
Proof. unfold mbind, M_bind. destruct (m k) as [[a|e|] k'] eqn:E; cbn; intros Hk Hg; [by apply Hg|done|done]. Qed.

(** Code that starts with [get_cpu] and stores the same CPU with another
    queue. *)
Lemma lens_at {B} (g : CpuTasks F → M Error (Kern F) B) c k :
  lens k → (∀ x, q_len (READY x) ≤ READYQ_SIZE → lens (g x k).2) → lens ((get_cpu c ≫= g) k).2.
Proof.
  intros Hk Hg. unfold mbind, M_bind, get_cpu. destruct (cpus k !! c) as [x|] eqn:E; cbn; [|done]. apply Hg. by eapply Hk.
Qed.

Ltac lens_op := intros Hk; apply lens_at; [done|intros x Hx];
  unfold mbind, M_bind, set_cpu, get_exec, get_wakers, lift_r, m_panic, mret, M_ret; repeat (case_match; simplify_eq/=); try done; try (by apply lens_insert).

Lemma lens_wake w k : lens k → lens (wake_task w k).2.
Proof. unfold wake_task. lens_op. apply lens_insert; [done|]. match goal with p : bool * ReadyQueue |- _ => destruct p as [[] q] end; [|done]. by eapply push_len. Qed.
Lemma lens_insert_task c id f k : lens k → lens (insert_task c id f k).2.
Proof. unfold insert_task. lens_op. Qed.
Lemma lens_push_waker c w k : lens k → lens (push_waker (F := F) c w k).2.
Proof. unfold push_waker. lens_op. Qed.
Lemma lens_load c k : lens k → lens (load_seq (F := F) c k).2.
Proof. unfold load_seq. lens_op. Qed.
Lemma lens_take c id k : lens k → lens (take_task (F := F) c id k).2.
Proof. unfold take_task. lens_op. Qed.
Lemma lens_after c id r k : lens k → lens (after_poll (F := F) c id r k).2.
Proof. unfold after_poll. lens_op. Qed.

Lemma lens_prog {A} (p : prog F A) k : lens k → lens (run_prog p k).2.
Proof.
  revert k. induction p as [a|q IH|c id f p IH|w p IH|c q IH|c w p IH|]; intros k Hk; cbn [run_prog]; try done; apply lens_bind; auto.
  - by apply lens_insert_task.
  - by apply lens_wake.
  - by apply lens_load.
  - by apply lens_push_waker.
Qed.

Lemma len_of_bound k c : lens k → len_of k c ≤ READYQ_SIZE.
Proof. intros Hk. unfold len_of. destruct (cpus k !! c) eqn:E; [by eapply Hk|lia]. Qed.

Lemma pop_ready_len c k i k' : lens k → pop_ready (F := F) c k = (Ok i, k') →
  lens k' ∧ len_of k' c + match i with Some _ => 1 | None => 0 end = len_of k c.
Proof.
  intros Hk. unfold pop_ready, mbind, M_bind, get_cpu, set_cpu, lift_r, mret, M_ret, len_of. destruct (cpus k !! c) as [x|] eqn:E; cbn; [|done].
  destruct (ready_pop (READY x)) as [[r q]| |] eqn:Er; cbn; [|done|done]. intros [= -> <-]. pose proof (pop_len _ _ _ Er) as Hl. split.
  - apply lens_insert; [done|]. cbn. specialize (Hk _ _ E). lia.
  - cbn. rewrite list_lookup_insert_eq by (by eapply lookup_lt_Some). done.
Qed.

Lemma count_poll_len c k k' : lens k → count_poll (F := F) c k = (Ok (), k') → lens k' ∧ len_of k' c = len_of k c.
Proof.
  intros Hk. unfold count_poll, mbind, M_bind, get_cpu, set_cpu, len_of. destruct (cpus k !! c) as [x|] eqn:E; cbn; [|done]. intros [= <-]. split.
  - apply lens_insert; [done|]. apply (Hk _ _ E).
  - cbn. by rewrite list_lookup_insert_eq by (by eapply lookup_lt_Some).
Qed.

Lemma take_none c id k k' : take_task (F := F) c id k = (Ok None, k') → k' = k.
Proof. unfold take_task, mbind, M_bind, get_cpu, get_exec, mret, M_ret, m_panic. intros. by case_all. Qed.

Lemma run_ends fuel c budget ran k : lens k → 0 < budget → (budget - ran) * S READYQ_SIZE + len_of k c < fuel →
  (run_loop poll fuel c budget ran k).1 ≠ Ok false.
Proof.
  revert ran k. induction fuel as [|fuel IH]; intros ran k Hk Hb Hf; [by apply Nat.nlt_0_r in Hf|]. cbn [run_loop].
  destruct (negb (budget =? 0) && (budget <=? ran))%bool eqn:Eb; [done|]. rewrite (proj2 (Nat.eqb_neq budget 0)) in Eb by lia. cbn in Eb. bool_to_prop.
  unfold mbind, M_bind. destruct (pop_ready c k) as [[i| |] k1] eqn:E1; [|done|done]. destruct (pop_ready_len _ _ _ _ Hk E1) as [Hk1 Hl1].
  destruct i as [id|]; [|done]. destruct (count_poll c k1) as [[[]| |] k2] eqn:E2; [|done|done]. destruct (count_poll_len _ _ _ Hk1 E2) as [Hk2 Hl2].
  pose proof (lens_take c id k2 Hk2) as Hk3. destruct (take_task c id k2) as [[t| |] k3] eqn:E3; [|done|done]. destruct t as [[f w]|].
  - pose proof (lens_prog (poll f w) k3 Hk3) as Hk4. destruct (run_prog (poll f w) k3) as [[r| |] k4]; [|done|done].
    pose proof (lens_after c id r k4 Hk4) as Hk5. destruct (after_poll c id r k4) as [[u| |] k5]; [|done|done]. cbn in Hk5.
    apply IH; [done|done|]. pose proof (len_of_bound _ c Hk5). replace (budget - ran) with (S (budget - S ran)) in Hf by lia. cbn [Nat.mul] in Hf. lia.
  - apply take_none in E3 as ->. apply IH; [done|done|]. lia.
Qed.

(** The scheduler calls the executor with a budget of 32: that many polls and
    the stale numbers between them. *)
Theorem run_ready_tasks_ends c budget k : lens k → 0 < budget →
  (run_ready_tasks_cpu poll (budget * S READYQ_SIZE + S READYQ_SIZE) c budget k).1 ≠ Ok false.
Proof.
  intros Hk Hb. unfold run_ready_tasks_cpu, mbind, M_bind, get_cpu, get_exec, mret, M_ret, m_panic.
  destruct (cpus k !! c) as [x|] eqn:E; cbn; [|done]. destruct (EXEC x); cbn; [|done]. apply run_ends; [done|done|].
  pose proof (len_of_bound _ c Hk). lia.
Qed.
End ends.
