(* ===== verification/TaskLive.v ===== *)
(** * Sleeping tasks wake up

    The executors of Task.v with tasks that sleep.  [astep] is the same
    machine with queues as lists and every piece of code by the place it has
    reached; [refines] relates the two.  Its invariant says that a wake-up is
    never lost and never doubled: the number of a waiting task is in its ready
    queue, in the list of the clock it waits for, or in somebody's hands, and
    in one of them only. *)

From stdpp Require Import base tactics numbers gmap list relations functions.
From S2P Require Import Prelude Params Errors Task.
Local Open Scope nat_scope.

(** ** The ready queue is a list *)
Definition ready_list (q : ReadyQueue) : list Z := ring READYQ_SIZE (q_buf q) (q_head q) (q_len q).
Definition ready_wf (q : ReadyQueue) : Prop := ring_wf READYQ_SIZE (q_buf q) (q_head q) (q_tail q) (q_len q).

Lemma length_ready_list q : length (ready_list q) = q_len q.
Proof. apply length_ring. Qed.

Lemma ready_push_spec id q : ready_wf q →
  if decide (length (ready_list q) < READYQ_SIZE)
  then ∃ q', ready_push id q = Ok (true, q') ∧ ready_wf q' ∧ ready_list q' = ready_list q ++ [id]
  else ready_push id q = Ok (false, q).
Proof.
  intros Hwf. rewrite length_ready_list. unfold ready_push. case_decide as Hd.
  - destruct (ring_store _ _ _ _ _ id Hwf Hd) as (Hwf' & Hlt & Hc).
    rewrite (proj2 (Nat.eqb_neq _ _)), (proj2 (Nat.ltb_lt _ _)) by (done || lia). by eexists.
  - destruct Hwf. by rewrite (proj2 (Nat.eqb_eq _ _)) by lia.
Qed.

Lemma ready_pop_spec q : ready_wf q →
  match ready_list q with
  | [] => ready_pop q = Ok (None, q)
  | id :: rest => ∃ q', ready_pop q = Ok (Some id, q') ∧ ready_wf q' ∧ ready_list q' = rest
  end.
Proof.
  unfold ready_wf, ready_list, ready_pop. intros Hwf. destruct (q_len q) as [|n] eqn:Hn; [done|].
  destruct (ring_take _ _ _ _ _ Hwf) as (x & Hx & Hwf' & Hc). rewrite Hc, Hx. cbn [Nat.eqb]. rewrite Nat.sub_succ, Nat.sub_0_r. by eexists.
Qed.

(** ** The machine by its lists *)
Abbreviation task := SleepTicks.
Record cv := mkCv { rdy : list Z; tks : gmap Z task; sq : Z; wk : list Waker }.
(** The places of a poll: before its first load, before the push, before the
    second load, and with its result. *)
Inductive place := Start | Reg | Chk | Pend | Done.
Inductive hand := HIdle | HGot (id : Z) | HPoll (id : Z) (f : task) (p : place).
Inductive thr := ThNap (here c : nat) (n : Z) | ThNew (c : nat) (f : task) | ThIns (c : nat) (id : Z) (f : task) | ThPush (c : nat) (id : Z) | ThEnd | ThFault.
Record abs := mkAbs { nid : Z; cp : nat → cv; ha : nat → hand; tp : nat → tphase; ths : list thr }.

Definition with_rdy (r : list Z) (v : cv) : cv := mkCv r (tks v) (sq v) (wk v).
Definition with_tks (t : gmap Z task) (v : cv) : cv := mkCv (rdy v) t (sq v) (wk v).
Definition with_sq (z : Z) (v : cv) : cv := mkCv (rdy v) (tks v) z (wk v).
Definition with_wk (l : list Waker) (v : cv) : cv := mkCv (rdy v) (tks v) (sq v) l.
Definition on_cpu (c : nat) (g : cv → cv) (cp : nat → cv) : nat → cv := <[c := g (cp c)]> cp.
Definition push_id (c : nat) (id : Z) : (nat → cv) → nat → cv := on_cpu c (λ v, with_rdy (rdy v ++ [id]) v).
Definition in_loop (t : tphase) : bool := match t with TLoop _ => true | _ => false end.

Inductive astep : abs → label → abs → Prop :=
| a_idle n V H T th c : c < NCPU → H c = HIdle → T c = TIdle → rdy (V c) = [] → astep (mkAbs n V H T th) (LExec c) (mkAbs n V H T th)
| a_pop n V H T th c id r : c < NCPU → H c = HIdle → T c = TIdle → rdy (V c) = id :: r →
    astep (mkAbs n V H T th) (LExec c) (mkAbs n (on_cpu c (with_rdy r) V) (<[c := HGot id]> H) T th)
| a_take n V H T th c id f : c < NCPU → H c = HGot id → T c = TIdle → tks (V c) !! id = Some f →
    astep (mkAbs n V H T th) (LExec c) (mkAbs n (on_cpu c (λ v, with_tks (delete id (tks v)) v) V) (<[c := HPoll id f Start]> H) T th)
| a_stale n V H T th c id : c < NCPU → H c = HGot id → T c = TIdle → tks (V c) !! id = None →
    astep (mkAbs n V H T th) (LExec c) (mkAbs n V (<[c := HIdle]> H) T th)
| a_load n V H T th c id f : c < NCPU → H c = HPoll id f Start → T c = TIdle → sl_cpu f < NCPU →
    astep (mkAbs n V H T th) (LExec c)
      (mkAbs n V (<[c := HPoll id f (if (sl_target f <=? sq (V (sl_cpu f)))%Z then Done else Reg)]> H) T th)
| a_reg n V H T th c id f : c < NCPU → H c = HPoll id f Reg → T c = TIdle → sl_cpu f < NCPU → in_loop (T (sl_cpu f)) = false →
    astep (mkAbs n V H T th) (LExec c)
      (mkAbs n (on_cpu (sl_cpu f) (λ v, with_wk (wk v ++ [mkWaker c id]) v) V) (<[c := HPoll id f Chk]> H) T th)
| a_check n V H T th c id f : c < NCPU → H c = HPoll id f Chk → T c = TIdle → sl_cpu f < NCPU →
    astep (mkAbs n V H T th) (LExec c)
      (mkAbs n V (<[c := HPoll id f (if (sl_target f <=? sq (V (sl_cpu f)))%Z then Done else Pend)]> H) T th)
| a_pend n V H T th c id f : c < NCPU → H c = HPoll id f Pend → T c = TIdle →
    astep (mkAbs n V H T th) (LExec c) (mkAbs n (on_cpu c (λ v, with_tks (<[id := f]> (tks v)) v) V) (<[c := HIdle]> H) T th)
| a_done n V H T th c id f : c < NCPU → H c = HPoll id f Done → T c = TIdle →
    astep (mkAbs n V H T th) (LExec c) (mkAbs n V (<[c := HIdle]> H) T th)
| a_inc n V H T th c : c < NCPU → T c = TIdle →
    astep (mkAbs n V H T th) (LTick c) (mkAbs n (on_cpu c (λ v, with_sq (u64 (sq v + 1)) v) V) H (<[c := TSeq]> T) th)
| a_lock n V H T th c : c < NCPU → T c = TSeq → astep (mkAbs n V H T th) (LTick c) (mkAbs n V H (<[c := TLoop (wk (V c))]> T) th)
| a_wake n V H T th c w ws : c < NCPU → T c = TLoop (w :: ws) → w_cpu w < NCPU → length (rdy (V (w_cpu w))) < READYQ_SIZE →
    astep (mkAbs n V H T th) (LTick c) (mkAbs n (push_id (w_cpu w) (w_id w) V) H (<[c := TLoop ws]> T) th)
| a_clear n V H T th c : c < NCPU → T c = TLoop [] →
    astep (mkAbs n V H T th) (LTick c) (mkAbs n (on_cpu c (with_wk []) V) H (<[c := TIdle]> T) th)
| a_nap n V H T th i here c m : th !! i = Some (ThNap here c m) → here < NCPU →
    astep (mkAbs n V H T th) (LThread i) (mkAbs n V H T
      (<[i := if (sq (V here) + m <=? USIZE_MAX)%Z then ThNew c (mkSleep here (sq (V here) + m)) else ThFault]> th))
| a_new n V H T th i c f : th !! i = Some (ThNew c f) →
    astep (mkAbs n V H T th) (LThread i) (mkAbs (u64 (n + 1)) V H T (<[i := ThIns c n f]> th))
| a_ins n V H T th i c id f : th !! i = Some (ThIns c id f) → c < NCPU → tks (V c) !! id = None →
    astep (mkAbs n V H T th) (LThread i) (mkAbs n (on_cpu c (λ v, with_tks (<[id := f]> (tks v)) v) V) H T (<[i := ThPush c id]> th))
| a_push n V H T th i c id : th !! i = Some (ThPush c id) → c < NCPU → length (rdy (V c)) < READYQ_SIZE →
    astep (mkAbs n V H T th) (LThread i) (mkAbs n (push_id c id V) H T (<[i := ThEnd]> th))
| a_end n V H T th i : th !! i = Some ThEnd → astep (mkAbs n V H T th) (LThread i) (mkAbs n V H T th)
| a_call n V H T th here c m : here < NCPU → c < NCPU → (0 ≤ m < 2 ^ 63)%Z →
    astep (mkAbs n V H T th) LCall (mkAbs n V H T (th ++ [ThNap here c m])).

(** ** The code refines it *)
Definition poll_code (f : task) (w : Waker) (p : place) : prog task (option task) :=
  match p with Start => sleep_poll f w | Reg => sleep_register f w | Chk => sleep_recheck f | Pend => Ret (Some f) | Done => Ret None end.
Definition hand_code (c : nat) (h : hand) : ephase task :=
  match h with HIdle => Idle | HGot id => Got id | HPoll id f p => Polling id f (poll_code f (mkWaker c id) p) end.
Definition thr_code (t : thr) : prog task () :=
  match t with
  | ThNap here c n => nap here c n
  | ThNew c f => spawn_on c f
  | ThIns c id f => InsertTask c id f (Wake (mkWaker c id) (Ret ()))
  | ThPush c id => Wake (mkWaker c id) (Ret ())
  | ThEnd => Ret ()
  | ThFault => Fault
  end.

Record cpu_is (c : nat) (x : CpuTasks task) (v : cv) : Prop := {
  ci_wf : ready_wf (READY x);
  ci_rdy : ready_list (READY x) = rdy v;
  ci_exec : ∃ cache, EXEC x = Some (mkExec (tks v) cache) ∧ ∀ id w, cache !! id = Some w → w = mkWaker c id;
  ci_seq : TICK_SEQ x = sq v;
  ci_wk : TICK_WAKERS x = Some (wk v) }.
Definition kern_is (k : Kern task) (n : Z) (V : nat → cv) : Prop :=
  NEXT_ID k = n ∧ length (cpus k) = NCPU ∧ ∀ c x, cpus k !! c = Some x → cpu_is c x (V c).
Record refines (s : Sys task) (a : abs) : Prop := {
  rf_kern : kern_is (kern s) (nid a) (cp a);
  rf_ex : length (ex s) = NCPU ∧ ∀ c, c < NCPU → ex s !! c = Some (hand_code c (ha a c));
  rf_ti : length (ti s) = NCPU ∧ ∀ c, c < NCPU → ti s !! c = Some (tp a c);
  rf_th : threads s = thr_code <$> ths a }.

(** The calls other threads make. *)
Definition naps (p : prog task ()) : Prop := ∃ here c n, here < NCPU ∧ c < NCPU ∧ (0 ≤ n < 2 ^ 63)%Z ∧ p = nap here c n.

(** All CPUs after [init_cpu]. *)
Definition sys_new : Sys task :=
  mkSys (m_for (seq 0 NCPU) init_cpu kern_new).2 (replicate NCPU Idle) (replicate NCPU TIdle) [].
Definition abs_new : abs := mkAbs 0 (λ _, mkCv [] ∅ 0 []) (λ _, HIdle) (λ _, TIdle) [].

Lemma refines_new : refines sys_new abs_new.
Proof.
  split.
  - split_and!; [done|done|]. intros c x Hx. do 8 (destruct c as [|c]; [injection Hx as <-; split; [by split; vm_compute; lia|done|by exists ∅|done|done]|]). done.
  - split; [done|]. intros c Hc. cbn [ex sys_new ha abs_new hand_code]. by apply lookup_replicate_2.
  - split; [done|]. intros c Hc. by apply lookup_replicate_2.
  - done.
Qed.

Section regions.
Context (k : Kern task) (n : Z) (V : nat → cv) (Hk : kern_is k n V).

Lemma get_cpu_is c : c < NCPU → ∃ x, get_cpu c k = (Ok x, k) ∧ cpu_is c x (V c).
Proof.
  destruct Hk as (_ & Hl & Hc). intros Hlt. destruct (lookup_lt_is_Some_2 (cpus k) c) as [x Hx]; [by rewrite Hl|]. exists x. unfold get_cpu. rewrite Hx. auto.
Qed.

Lemma get_cpu_out c : ¬ c < NCPU → get_cpu c k = (Panic, k).
Proof. destruct Hk as (_ & Hl & _). intros Hge. unfold get_cpu. rewrite lookup_ge_None_2; [done|lia]. Qed.

Lemma set_cpu_is c x g : cpu_is c x (g (V c)) → ∃ k', set_cpu c x k = (Ok (), k') ∧ kern_is k' n (on_cpu c g V).
Proof.
  destruct Hk as (Hn & Hl & Hc). intros Hx. eexists. split; [done|]. unfold on_cpu. split_and!; [done|by cbn [cpus]; rewrite length_insert|].
  cbn [cpus]. intros c' x' Hx'. destruct (decide (c' = c)) as [->|Hne].
  - apply list_lookup_insert_Some in Hx' as [(_ & <- & _)|[? _]]; [|done]. by rewrite fn_lookup_insert.
  - rewrite list_lookup_insert_ne in Hx' by done. rewrite fn_lookup_insert_ne by done. auto.
Qed.

Lemma load_seq_is c : c < NCPU → load_seq c k = (Ok (sq (V c)), k).
Proof. intros Hc. destruct (get_cpu_is c Hc) as (x & Hx & []). unfold load_seq. rewrite (bind_ok _ _ _ _ _ Hx). by rewrite <- ci_seq0. Qed.

Lemma wake_task_is w : w_cpu w < NCPU →
  if decide (length (rdy (V (w_cpu w))) < READYQ_SIZE)
  then ∃ k', wake_task w k = (Ok (), k') ∧ kern_is k' n (push_id (w_cpu w) (w_id w) V) else (wake_task w k).1 = Panic.
Proof.
  intros Hc. destruct (get_cpu_is _ Hc) as (x & Hx & [Hwf Hr (e & He & Hca) Hs Hw]). unfold wake_task. rewrite (bind_ok _ _ _ _ _ Hx).
  pose proof (ready_push_spec (w_id w) _ Hwf) as Hp. rewrite Hr in Hp. case_decide.
  - destruct Hp as (q' & -> & Hwf' & Hr'). apply (set_cpu_is _ _ (λ v, with_rdy (rdy v ++ [w_id w]) v)). split; cbn; [done|by rewrite Hr'|eauto|done|done].
  - by rewrite Hp.
Qed.

Lemma task_id_new_is : ∃ k', task_id_new k = (Ok n, k') ∧ kern_is k' (u64 (n + 1)) V.
Proof. destruct Hk as (Hn & Hl & Hc). unfold task_id_new. rewrite Hn. eexists. split; [done|]. by split_and!. Qed.

Lemma insert_task_is c id f : c < NCPU →
  match tks (V c) !! id with
  | None => ∃ k', insert_task c id f k = (Ok (), k') ∧ kern_is k' n (on_cpu c (λ v, with_tks (<[id := f]> (tks v)) v) V)
  | Some _ => (insert_task c id f k).1 = Panic
  end.
Proof.
  intros Hc. destruct (get_cpu_is _ Hc) as (x & Hx & [Hwf Hr (e & He & Hca) Hs Hw]). unfold insert_task, get_exec. rewrite (bind_ok _ _ _ _ _ Hx), He.
  rewrite (bind_ok (mret _) _ _ _ _ eq_refl). cbn [tasks waker_cache].
  destruct (set_cpu_is c (set_exec (mkExec (<[id:=f]> (tks (V c))) e) x) (λ v, with_tks (<[id := f]> (tks v)) v)) as (k' & Hk' & Hi'); [by split; cbn; eauto|].
  rewrite (bind_ok _ _ _ _ _ Hk'). destruct (tks (V c) !! id); [done|]. by exists k'.
Qed.

Lemma push_waker_is c w : c < NCPU → ∃ k', push_waker c w k = (Ok (), k') ∧ kern_is k' n (on_cpu c (λ v, with_wk (wk v ++ [w]) v) V).
Proof.
  intros Hc. destruct (get_cpu_is _ Hc) as (x & Hx & [Hwf Hr He Hs Hw]). unfold push_waker, get_wakers. rewrite (bind_ok _ _ _ _ _ Hx), Hw.
  rewrite (bind_ok (mret _) _ _ _ _ eq_refl). apply (set_cpu_is _ _ (λ v, with_wk (wk v ++ [w]) v)). by split.
Qed.

Lemma pop_ready_is c : c < NCPU →
  match rdy (V c) with
  | [] => ∃ k', pop_ready c k = (Ok None, k') ∧ kern_is k' n (on_cpu c id V)
  | id :: r => ∃ k', pop_ready c k = (Ok (Some id), k') ∧ kern_is k' n (on_cpu c (with_rdy r) V)
  end.
Proof.
  intros Hc. destruct (get_cpu_is _ Hc) as (x & Hx & [Hwf Hr He Hs Hw]). unfold pop_ready. rewrite (bind_ok _ _ _ _ _ Hx).
  pose proof (ready_pop_spec _ Hwf) as Hp. rewrite Hr in Hp. destruct (rdy (V c)) as [|i r] eqn:E.
  - rewrite Hp. cbn [lift_r]. destruct (set_cpu_is c (set_ready (READY x) x) id) as (k' & Hk' & Hi'); [by split; cbn; rewrite ?Hr, ?E|].
    exists k'. split; [|done]. rewrite (bind_ok (lift_r _) _ _ _ _ eq_refl). by rewrite (bind_ok _ _ _ _ _ Hk').
  - destruct Hp as (q' & -> & Hwf' & Hr'). destruct (set_cpu_is c (set_ready q' x) (with_rdy r)) as (k' & Hk' & Hi'); [by split|].
    exists k'. split; [|done]. rewrite (bind_ok (lift_r _) _ _ _ _ eq_refl). by rewrite (bind_ok _ _ _ _ _ Hk').
Qed.

Lemma count_poll_is c : c < NCPU → ∃ k', count_poll c k = (Ok (), k') ∧ kern_is k' n (on_cpu c id V).
Proof.
  intros Hc. destruct (get_cpu_is _ Hc) as (x & Hx & [Hwf Hr He Hs Hw]). unfold count_poll. rewrite (bind_ok _ _ _ _ _ Hx).
  apply (set_cpu_is c _ id). by split.
Qed.

Lemma take_task_is c id : c < NCPU →
  match tks (V c) !! id with
  | None => take_task c id k = (Ok None, k)
  | Some f => ∃ k', take_task c id k = (Ok (Some (f, mkWaker c id)), k') ∧ kern_is k' n (on_cpu c (λ v, with_tks (delete id (tks v)) v) V)
  end.
Proof.
  intros Hc. destruct (get_cpu_is _ Hc) as (x & Hx & [Hwf Hr (e & He & Hca) Hs Hw]). unfold take_task, get_exec. rewrite (bind_ok _ _ _ _ _ Hx), He.
  rewrite (bind_ok (mret _) _ _ _ _ eq_refl). cbn [tasks waker_cache]. destruct (tks (V c) !! id) as [f|] eqn:Ef; [|done].
  assert (default (mkWaker c id) (e !! id) = mkWaker c id) as -> by (destruct (e !! id) eqn:E; [by apply Hca in E as ->|done]).
  destruct (set_cpu_is c (set_exec (mkExec (delete id (tks (V c))) (<[id := mkWaker c id]> e)) x) (λ v, with_tks (delete id (tks v)) v)) as (k' & Hk' & Hi').
  { split; cbn; [done|done| |done|done]. eexists. split; [done|]. intros i w [[<- <-]|[_ Hi]]%lookup_insert_Some; auto. }
  exists k'. split; [|done]. by rewrite (bind_ok _ _ _ _ _ Hk').
Qed.

Lemma after_poll_is c id r : c < NCPU → ∃ k', after_poll c id r k = (Ok (), k') ∧
  kern_is k' n (on_cpu c (match r with Some f => λ v, with_tks (<[id := f]> (tks v)) v | None => λ v, v end) V).
Proof.
  intros Hc. destruct (get_cpu_is _ Hc) as (x & Hx & [Hwf Hr (e & He & Hca) Hs Hw]). unfold after_poll, get_exec. rewrite (bind_ok _ _ _ _ _ Hx), He.
  rewrite (bind_ok (mret _) _ _ _ _ eq_refl). cbn [tasks waker_cache]. apply set_cpu_is. destruct r; split; cbn; eauto.
  eexists. split; [done|]. intros i w [_ Hi]%lookup_delete_Some. auto.
Qed.

Lemma inc_seq_is c : c < NCPU → ∃ k', inc_seq c k = (Ok (), k') ∧ kern_is k' n (on_cpu c (λ v, with_sq (u64 (sq v + 1)) v) V).
Proof.
  intros Hc. destruct (get_cpu_is _ Hc) as (x & Hx & [Hwf Hr He Hs Hw]). unfold inc_seq. rewrite (bind_ok _ _ _ _ _ Hx).
  apply (set_cpu_is c _ (λ v, with_sq (u64 (sq v + 1)) v)). split; cbn; by rewrite ?Hs.
Qed.

Lemma clear_wakers_is c : c < NCPU → ∃ k', clear_wakers c k = (Ok (), k') ∧ kern_is k' n (on_cpu c (with_wk []) V).
Proof.
  intros Hc. destruct (get_cpu_is _ Hc) as (x & Hx & [Hwf Hr He Hs Hw]). unfold clear_wakers. rewrite (bind_ok _ _ _ _ _ Hx).
  apply (set_cpu_is c _ (with_wk [])). by split.
Qed.
End regions.

Lemma kern_is_ext k n V V' : (∀ c, V c = V' c) → kern_is k n V → kern_is k n V'.
Proof. intros He (Hn & Hl & Hc). split_and!; [done|done|]. intros c x Hx. rewrite <- He. auto. Qed.

Lemma on_cpu_lookup c g V c' : on_cpu c g V c' = if decide (c' = c) then g (V c) else V c'.
Proof. unfold on_cpu. case_decide as H; [subst; by rewrite fn_lookup_insert|by rewrite fn_lookup_insert_ne]. Qed.

Lemma on_cpu_same c g V c' : (∀ v, g v = v) → on_cpu c g V c' = V c'.
Proof. intros Hg. rewrite on_cpu_lookup. case_decide; subst; auto. Qed.

(** The numbers of CPUs are in range. *)
Definition thr_ok (t : thr) : Prop :=
  match t with
  | ThNap here c n => here < NCPU ∧ c < NCPU ∧ (0 ≤ n < 2 ^ 63)%Z
  | ThNew c f | ThIns c _ f => c < NCPU ∧ sl_cpu f < NCPU
  | ThPush c _ => c < NCPU
  | _ => True
  end.
Record in_range (a : abs) : Prop := {
  ir_tks c id f : tks (cp a c) !! id = Some f → sl_cpu f < NCPU;
  ir_ha c id f p : ha a c = HPoll id f p → sl_cpu f < NCPU;
  ir_wk c w : w ∈ wk (cp a c) → w_cpu w < NCPU;
  ir_tp c ws w : tp a c = TLoop ws → w ∈ ws → w_cpu w < NCPU;
  ir_th i t : ths a !! i = Some t → thr_ok t }.

Lemma fn_insert_Some {A} (f : nat → A) c x c' y : (<[c := x]> f) c' = y → (c' = c ∧ x = y) ∨ (c' ≠ c ∧ f c' = y).
Proof. destruct (decide (c' = c)) as [->|]; [rewrite fn_lookup_insert|rewrite fn_lookup_insert_ne by done]; auto. Qed.

Lemma fn_insert_dec {A} (f : nat → A) c x c' : (<[c := x]> f) c' = if decide (c' = c) then x else f c'.
Proof. case_decide as E; [subst; apply fn_lookup_insert|by apply fn_lookup_insert_ne]. Qed.

(** What a state after a step says of the state before. *)
Ltac back :=
  repeat match goal with
  | H : (<[_ := _]> _) _ = _ |- _ => apply fn_insert_Some in H as [[-> H]|[? H]]; simplify_eq/=
  | H : <[_ := _]> _ !! _ = Some _ |- _ => first [apply lookup_insert_Some in H as [[<- H]|[? H]] | apply list_lookup_insert_Some in H as [(<- & H & _)|[? H]]]; simplify_eq/=
  | H : delete _ _ !! _ = Some _ |- _ => apply lookup_delete_Some in H as [? H]
  | H : (_ ++ [_]) !! _ = Some _ |- _ => apply lookup_snoc_Some in H as [[? H]|[-> H]]; simplify_eq/=
  | H : _ ∈ _ ++ [_] |- _ => apply elem_of_app in H as [H|H%list_elem_of_singleton]; simplify_eq/=
  | H : context [on_cpu ?c ?g ?V ?c'] |- _ => rewrite (on_cpu_lookup c g V c') in H
  | H : context [insert ?c ?x ?f ?c'] |- _ => rewrite (fn_insert_dec f c x c') in H
  | |- context [insert ?c ?x ?f ?c'] => rewrite (fn_insert_dec f c x c')
  | H : context [push_id] |- _ => unfold push_id in H
  | H : context [decide (?x = ?y)] |- _ => destruct (decide (x = y)); [subst x || subst y || idtac|]; cbn [with_rdy with_tks with_sq with_wk rdy tks sq wk] in H
  | |- context [on_cpu ?c ?g ?V ?c'] => rewrite (on_cpu_lookup c g V c')
  | |- context [push_id] => unfold push_id
  | |- context [decide (?x = ?y)] => destruct (decide (x = y)); [subst x || subst y || idtac|]; cbn [with_rdy with_tks with_sq with_wk rdy tks sq wk]
  end.

Lemma in_range_new : in_range abs_new.
Proof. by split; cbn; try set_solver. Qed.

Lemma in_range_step a l a' : in_range a → astep a l a' → in_range a'.
Proof.
  intros [Ht Hh Hw Hp Hth] Hs.
  destruct Hs; cbn [nid cp ha tp ths] in *; try match goal with H : @lookup nat thr (list thr) _ _ _ = Some _ |- _ => pose proof (Hth _ _ H) as Hti end;
    (split; cbn [nid cp ha tp ths]; [intros ??? Hx|intros ???? Hx|intros ?? Hx|intros ??? Hx Hy|intros ?? Hx]; back; simplify_eq/=; eauto with set_solver);
    repeat case_match; simplify_eq/=; naive_solver.
Qed.

Lemma bind_map_ok {E S A B C} (m : M E S A) (g : A → B) (h : B → M E S C) s a s' : m s = (Ok a, s') → ((m ≫= λ z, mret (g z)) ≫= h) s = h (g a) s'.
Proof. intros Hm. apply bind_ok. by rewrite (bind_ok _ _ _ _ _ Hm). Qed.

Lemma list_fn_insert {A B} (code : nat → A → B) (l : list B) (f : nat → A) c x : length l = NCPU → c < NCPU →
  (∀ c, c < NCPU → l !! c = Some (code c (f c))) → ∀ c', c' < NCPU → <[c := code c x]> l !! c' = Some (code c' ((<[c := x]> f) c')).
Proof.
  intros Hl Hc Hf c' Hc'. destruct (decide (c' = c)) as [->|Hne].
  - rewrite list_lookup_insert_eq by lia. by rewrite fn_lookup_insert.
  - rewrite list_lookup_insert_ne by done. rewrite fn_lookup_insert_ne by done. auto.
Qed.

Section refinement.
Context (s : Sys task) (n : Z) (V : nat → cv) (H : nat → hand) (T : nat → tphase) (th : list thr).
Context (Hr : refines s (mkAbs n V H T th)) (Hi : in_range (mkAbs n V H T th)).

Lemma refines_exec c k' n' V' h : c < NCPU → kern_is k' n' V' →
  refines (mkSys k' (<[c := hand_code c h]> (ex s)) (ti s) (threads s)) (mkAbs n' V' (<[c := h]> H) T th).
Proof.
  intros Hc Hk. destruct Hr as [_ [Hl He] Ht Hth]. split; cbn [kern ex ti threads nid cp ha tp ths] in *; [done| |done|done].
  split; [by rewrite length_insert|]. by apply (list_fn_insert hand_code).
Qed.

Lemma refines_tick c k' n' V' t : c < NCPU → kern_is k' n' V' →
  refines (mkSys k' (ex s) (<[c := t]> (ti s)) (threads s)) (mkAbs n' V' H (<[c := t]> T) th).
Proof.
  intros Hc Hk. destruct Hr as [_ He [Hl Ht] Hth]. split; cbn [kern ex ti threads nid cp ha tp ths] in *; [done|done| |done].
  split; [by rewrite length_insert|]. by apply (list_fn_insert (λ _ t, t)).
Qed.

Lemma refines_thread i k' n' V' t : kern_is k' n' V' →
  refines (mkSys k' (ex s) (ti s) (<[i := thr_code t]> (threads s))) (mkAbs n' V' H T (<[i := t]> th)).
Proof.
  intros Hk. destruct Hr as [_ He Ht Hth]. split; cbn [kern ex ti threads nid cp ha tp ths] in *; [done|done|done|].
  by rewrite Hth, list_fmap_insert.
Qed.

Lemma tick_of c : c < NCPU → ti s !! c = Some (T c).
Proof. intros Hc. by apply (rf_ti _ _ Hr). Qed.

Lemma exec_of c : c < NCPU → ex s !! c = Some (hand_code c (H c)).
Proof. intros Hc. by apply (rf_ex _ _ Hr). Qed.

Lemma kern_of : kern_is (kern s) n V.
Proof. apply (rf_kern _ _ Hr). Qed.

(** An executor's step never fails. *)
Lemma exec_refines c : c < NCPU → T c = TIdle → e_waits (ti s) (hand_code c (H c)) = false →
  ∃ h k' a', exec_step sleep_poll c (hand_code c (H c)) (kern s) = (Ok (hand_code c h), k') ∧ astep (mkAbs n V H T th) (LExec c) a' ∧
    refines (mkSys k' (<[c := hand_code c h]> (ex s)) (ti s) (threads s)) a'.
Proof.
  intros Hc HT Hw. pose proof kern_of as Hk. pose proof (ir_ha _ Hi c) as Hf. cbn [ha] in Hf.
  destruct (H c) as [|id|id f p] eqn:HH; cbn [hand_code].
  - pose proof (pop_ready_is _ _ _ Hk c Hc) as Hp. destruct (rdy (V c)) as [|id r] eqn:Er; destruct Hp as (k' & Hp & Hk').
    + exists HIdle, k'. eexists. split_and!; [by cbn [exec_step]; rewrite (bind_ok _ _ _ _ _ Hp)|by apply a_idle|].
      rewrite list_insert_id by (rewrite exec_of by done; by rewrite HH). destruct Hr as [_ He Ht Hth]. split; [|done..].
      eapply kern_is_ext, Hk'. intros. by apply on_cpu_same.
    + exists (HGot id), k'. eexists. split_and!; [by cbn [exec_step]; rewrite (bind_ok _ _ _ _ _ Hp)|by eapply a_pop|by apply refines_exec].
  - destruct (count_poll_is _ _ _ Hk c Hc) as (k1 & Hp & Hk1). cbn [exec_step]. rewrite (bind_ok _ _ _ _ _ Hp).
    apply (kern_is_ext _ _ _ V) in Hk1; [|intros; by apply on_cpu_same]. pose proof (take_task_is _ _ _ Hk1 c id Hc) as Hq.
    destruct (tks (V c) !! id) as [f|] eqn:Ef.
    + destruct Hq as (k' & Hq & Hk'). exists (HPoll id f Start), k'. eexists.
      split_and!; [by rewrite (bind_ok _ _ _ _ _ Hq)|by eapply a_take|by apply refines_exec].
    + exists HIdle, k1. eexists. split_and!; [by rewrite (bind_ok _ _ _ _ _ Hq)|by eapply a_stale|by apply refines_exec].
  - specialize (Hf _ _ _ eq_refl). destruct p; cbn [poll_code exec_step sleep_poll sleep_register sleep_recheck prog_step].
    + exists (HPoll id f (if (sl_target f <=? sq (V (sl_cpu f)))%Z then Done else Reg)), (kern s). eexists.
      split_and!; [|by eapply a_load|by apply refines_exec]. rewrite (bind_map_ok _ _ _ _ _ _ (load_seq_is _ _ _ Hk _ Hf)).
      by case_match.
    + destruct (push_waker_is _ _ _ Hk (sl_cpu f) (mkWaker c id) Hf) as (k' & Hp & Hk'). exists (HPoll id f Chk), k'. eexists.
      split_and!; [by rewrite (bind_map_ok _ _ _ _ _ _ Hp)|eapply a_reg; try done|by apply refines_exec].
      cbn [hand_code poll_code e_waits waits sleep_register] in Hw. rewrite tick_of in Hw by done. by destruct (T (sl_cpu f)).
    + exists (HPoll id f (if (sl_target f <=? sq (V (sl_cpu f)))%Z then Done else Pend)), (kern s). eexists.
      split_and!; [|by eapply a_check|by apply refines_exec]. rewrite (bind_map_ok _ _ _ _ _ _ (load_seq_is _ _ _ Hk _ Hf)).
      by case_match.
    + destruct (after_poll_is _ _ _ Hk c id (Some f) Hc) as (k' & Hp & Hk'). exists HIdle, k'. eexists.
      split_and!; [by rewrite (bind_ok _ _ _ _ _ Hp)|by eapply a_pend|by apply refines_exec].
    + destruct (after_poll_is _ _ _ Hk c id None Hc) as (k' & Hp & Hk'). exists HIdle, k'. eexists.
      split_and!; [by rewrite (bind_ok _ _ _ _ _ Hp)|by eapply a_done|apply refines_exec; [done|]].
      eapply kern_is_ext, Hk'. intros. by apply on_cpu_same.
Qed.

(** The clock's fails only when a queue is full. *)
Lemma tick_refines c : c < NCPU →
  (∃ t k' a', tick_step c (T c) (kern s) = (Ok t, k') ∧ astep (mkAbs n V H T th) (LTick c) a' ∧
     refines (mkSys k' (ex s) (<[c := t]> (ti s)) (threads s)) a') ∨
  (∃ w ws, T c = TLoop (w :: ws) ∧ ¬ length (rdy (V (w_cpu w))) < READYQ_SIZE ∧ (tick_step c (T c) (kern s)).1 = Panic).
Proof.
  intros Hc. pose proof kern_of as Hk. pose proof (ir_tp _ Hi c) as Hw. cbn [tp] in Hw. destruct (T c) as [| |[|w ws]] eqn:HT; cbn [tick_step].
  - left. destruct (inc_seq_is _ _ _ Hk c Hc) as (k' & Hp & Hk'). exists TSeq, k'. eexists.
    split_and!; [by rewrite (bind_ok _ _ _ _ _ Hp)|by apply a_inc|by apply refines_tick].
  - left. destruct (get_cpu_is _ _ _ Hk c Hc) as (x & Hx & Hci). exists (TLoop (wk (V c))), (kern s). eexists.
    split_and!; [|by apply a_lock|by apply refines_tick]. rewrite (bind_ok _ _ _ _ _ Hx). unfold get_wakers. by rewrite (ci_wk _ _ _ Hci).
  - left. destruct (clear_wakers_is _ _ _ Hk c Hc) as (k' & Hp & Hk'). exists TIdle, k'. eexists.
    split_and!; [by rewrite (bind_ok _ _ _ _ _ Hp)|by apply a_clear|by apply refines_tick].
  - specialize (Hw _ w eq_refl ltac:(set_solver)). pose proof (wake_task_is _ _ _ Hk w Hw) as Hp. case_decide as Hd.
    + left. destruct Hp as (k' & Hp & Hk'). exists (TLoop ws), k'. eexists.
      split_and!; [by rewrite (bind_ok _ _ _ _ _ Hp)|by eapply a_wake|by apply refines_tick].
    + right. exists w, ws. split_and!; [done|done|]. unfold mbind, M_bind. destruct (wake_task w (kern s)) as [r ?]. cbn in Hp. by rewrite Hp.
Qed.

(** So does that of a thread, unless a number of a task is used twice. *)
Lemma thread_refines i t : th !! i = Some t →
  (∃ t' k' a', prog_step (thr_code t) (kern s) = (Ok (thr_code t'), k') ∧ astep (mkAbs n V H T th) (LThread i) a' ∧
     refines (mkSys k' (ex s) (ti s) (<[i := thr_code t']> (threads s))) a') ∨
  ((prog_step (thr_code t) (kern s)).1 = Panic ∧
   match t with
   | ThPush c id => ¬ length (rdy (V c)) < READYQ_SIZE
   | ThIns c id f => is_Some (tks (V c) !! id)
   | ThFault => True
   | _ => False
   end).
Proof.
  intros Hti. pose proof kern_of as Hk. pose proof (ir_th _ Hi i _ Hti) as Hok. destruct t as [here c m|c f|c id f|c id| |]; cbn [thr_code] in *.
  - left. destruct Hok as (Hh & Hc & Hm). exists (if (sq (V here) + m <=? USIZE_MAX)%Z then ThNew c (mkSleep here (sq (V here) + m)) else ThFault), (kern s).
    eexists. split_and!; [|by eapply a_nap|by apply refines_thread].
    change (nap here c m) with (LoadSeq here (λ now, prog_bind (spawn_on c) (if (now + m <=? USIZE_MAX)%Z then Ret (mkSleep here (now + m)) else Fault))).
    cbn [prog_step]. rewrite (bind_ok _ _ _ _ _ (load_seq_is _ _ _ Hk _ Hh)). by case_match.
  - left. destruct (task_id_new_is _ _ _ Hk) as (k' & Hp & Hk'). exists (ThIns c n f), k'. eexists.
    split_and!; [by cbn [prog_step spawn_on]; rewrite (bind_ok _ _ _ _ _ Hp)|by eapply a_new|by apply refines_thread].
  - destruct Hok as [Hc Hf]. pose proof (insert_task_is _ _ _ Hk c id f Hc) as Hp. destruct (tks (V c) !! id) eqn:Ef.
    + right. split; [|done]. cbn [prog_step]. unfold mbind, M_bind. destruct (insert_task c id f (kern s)) as [r ?]. cbn in Hp. by rewrite Hp.
    + left. destruct Hp as (k' & Hp & Hk'). exists (ThPush c id), k'. eexists.
      split_and!; [by cbn [prog_step]; rewrite (bind_ok _ _ _ _ _ Hp)|by eapply a_ins|by apply refines_thread].
  - pose proof (wake_task_is _ _ _ Hk (mkWaker c id) Hok) as Hp. cbn [w_cpu w_id] in Hp. case_decide as Hd.
    + left. destruct Hp as (k' & Hp & Hk'). exists ThEnd, k'. eexists.
      split_and!; [by cbn [prog_step]; rewrite (bind_ok _ _ _ _ _ Hp)|by eapply a_push|by apply refines_thread].
    + right. split; [|done]. cbn [prog_step]. unfold mbind, M_bind. destruct (wake_task _ (kern s)) as [r ?]. cbn in Hp. by rewrite Hp.
  - left. exists ThEnd, (kern s). eexists. split_and!; [done|by apply a_end|]. rewrite list_insert_id; [by destruct s|].
    rewrite (rf_th _ _ Hr). cbn [ths]. by rewrite list_lookup_fmap, Hti.
  - right. done.
Qed.
End refinement.

Lemma step_refines s l s' a : refines s a → in_range a → step sleep_poll naps s l s' → ∃ a', astep a l a' ∧ refines s' a'.
Proof.
  intros Hr Hi Hs. destruct a as [n V H T th]. destruct Hs as [k e t ths c ph ph' k' He Ht Hw Hx|k e t ths c ph ph' k' Ht Hx|k e t ths i p p' k' Hti Hw Hx|k e t ths p Hp].
  - assert (c < NCPU) as Hc by (rewrite <- (proj1 (rf_ex _ _ Hr)); by eapply lookup_lt_Some).
    pose proof (exec_of _ _ _ _ _ _ Hr c Hc) as He'. pose proof (tick_of _ _ _ _ _ _ Hr c Hc) as Ht'. cbn [ex ti] in *. simplify_eq.
    destruct (exec_refines _ _ _ _ _ _ Hr Hi c Hc ltac:(done) Hw) as (h & k2 & a' & Hx' & Ha & Hr'). cbn [kern] in *. rewrite Hx in Hx'. simplify_eq. eauto.
  - assert (c < NCPU) as Hc by (rewrite <- (proj1 (rf_ti _ _ Hr)); by eapply lookup_lt_Some).
    pose proof (tick_of _ _ _ _ _ _ Hr c Hc) as Ht'. cbn [ti] in *. simplify_eq.
    destruct (tick_refines _ _ _ _ _ _ Hr Hi c Hc) as [(h & k2 & a' & Hx' & Ha & Hr')|(w & ws & _ & _ & Hx')]; cbn [kern] in *; rewrite Hx in Hx'; simplify_eq; eauto.
  - pose proof (rf_th _ _ Hr) as Hth. cbn [threads Task.threads TaskLive.ths] in Hth. subst ths. rewrite list_lookup_fmap in Hti.
    destruct (th !! i) as [t0|] eqn:E; [|done]. injection Hti as <-.
    destruct (thread_refines _ _ _ _ _ _ Hr Hi i t0 E) as [(h & k2 & a' & Hx' & Ha & Hr')|[Hx' _]]; cbn [kern] in *; rewrite Hx in Hx'; simplify_eq; eauto.
  - destruct Hp as (here & c & m & Hh & Hc & Hm & ->). eexists. split; [by apply (a_call _ _ _ _ _ here c m)|].
    destruct Hr as [Hk He Ht Hth]. cbn in *. split; cbn; [done|done|done|]. by rewrite Hth, fmap_app.
Qed.

(** ** The invariant *)

(** The wakers the clock of [s] will still wake. *)
Definition eff (a : abs) (s : nat) : list Waker := match tp a s with TLoop ws => ws | _ => wk (cp a s) end.

(** Who has a task, and who has the right to have it polled. *)
Inductive owner := OTask (c : nat) | OHand (c : nat) | OThr (i : nat).
Definition owns (a : abs) (x : owner) (id : Z) : Prop :=
  match x with
  | OTask c => is_Some (tks (cp a c) !! id)
  | OHand c => ∃ f p, ha a c = HPoll id f p
  | OThr i => ∃ c f, ths a !! i = Some (ThIns c id f)
  end.
Inductive loc := LRdy | LWk (s : nat) | LHand | LThr (i : nat).
Definition at_loc (a : abs) (x : loc) (k : nat * Z) : Prop :=
  match x with
  | LRdy => k.2 ∈ rdy (cp a k.1)
  | LWk s => mkWaker k.1 k.2 ∈ eff a s
  | LHand => ha a k.1 = HGot k.2 ∨ ∃ f p, ha a k.1 = HPoll k.2 f p ∧ (p = Start ∨ p = Reg)
  | LThr i => (∃ f, ths a !! i = Some (ThIns k.1 k.2 f)) ∨ ths a !! i = Some (ThPush k.1 k.2)
  end.
Definition uniq {X K} (R : X → K → Prop) : Prop := ∀ x y k, R x k → R y k → x = y.

Lemma uniq_sub {X K} (R R' : X → K → Prop) : uniq R → (∀ x k, R' x k → R x k) → uniq R'.
Proof. intros Hu Hs x y k Hx Hy. eauto. Qed.
Lemma uniq_move {X K} (R R' : X → K → Prop) x0 x1 k0 : uniq R → R x0 k0 →
  (∀ x k, R' x k → (R x k ∧ (k = k0 → x ≠ x0)) ∨ (k = k0 ∧ x = x1)) → uniq R'.
Proof.
  intros Hu H0 Hs x y k Hx Hy. destruct (Hs _ _ Hx) as [[? ?]|[? ?]], (Hs _ _ Hy) as [[? ?]|[? ?]]; subst; [by eauto| | |done]; exfalso; naive_solver.
Qed.
Lemma uniq_new {X K} (R R' : X → K → Prop) x1 k0 : uniq R → (∀ x, ¬ R x k0) → (∀ x k, R' x k → R x k ∨ (k = k0 ∧ x = x1)) → uniq R'.
Proof.
  intros Hu H0 Hs x y k Hx Hy. destruct (Hs _ _ Hx) as [?|[? ?]], (Hs _ _ Hy) as [?|[? ?]]; subst; [by eauto|by exfalso; eapply H0|by exfalso; eapply H0|done].
Qed.

(** A task that waits will be woken: it is queued, or its clock has its waker
    and has not reached the target or is at work. *)
Definition token (a : abs) (c : nat) (id : Z) (f : task) : Prop :=
  id ∈ rdy (cp a c) ∨ (mkWaker c id ∈ eff a (sl_cpu f) ∧ ((sq (cp a (sl_cpu f)) < sl_target f)%Z ∨ tp a (sl_cpu f) ≠ TIdle)).
Definition poll_ok (a : abs) (c : nat) (id : Z) (f : task) (p : place) : Prop :=
  match p with
  | Start | Reg => True
  | Chk => id ∈ rdy (cp a c) ∨ mkWaker c id ∈ eff a (sl_cpu f)
  | Pend => token a c id f
  | Done => (sl_target f ≤ sq (cp a (sl_cpu f)))%Z
  end.

Record inv (m : nat) (a : abs) : Prop := {
  iv_nid : (0 ≤ nid a ≤ Z.of_nat m)%Z;
  iv_sq c : (0 ≤ sq (cp a c) ≤ Z.of_nat m)%Z;
  iv_own : uniq (owns a);
  iv_own_id x id : owns a x id → (0 ≤ id < nid a)%Z;
  iv_loc : uniq (at_loc a);
  iv_loc_id x k : at_loc a x k → (0 ≤ k.2 < nid a)%Z;
  iv_rdy c : NoDup (rdy (cp a c));
  iv_eff s : NoDup (eff a s);
  iv_tks c id f : tks (cp a c) !! id = Some f → token a c id f ∨ ha a c = HGot id ∨ ∃ i, ths a !! i = Some (ThPush c id);
  iv_poll c id f p : ha a c = HPoll id f p → poll_ok a c id f p;
  iv_nofault : ThFault ∉ ths a }.

Lemma inv_new : inv 0 abs_new.
Proof.
  assert (∀ x id, ¬ owns abs_new x id) as Ho by (intros [] id; cbn; rewrite ?lookup_empty; [by intros [? [=]]|naive_solver|naive_solver]).
  assert (∀ x k, ¬ at_loc abs_new x k) as Hl by (intros [] k; cbn; [set_solver|set_solver|naive_solver|naive_solver]).
  split; try done; try (by intros; constructor).
  - intros x y k Hx. by destruct (Ho x k).
  - intros x id Hx. by destruct (Ho x id).
  - intros x y k Hx. by destruct (Hl x k).
  - intros x k Hx. by destruct (Hl x k).
  - cbn. set_solver.
Qed.

Lemma u64_succ z m : (0 ≤ z ≤ Z.of_nat m → Z.of_nat (S m) < 2 ^ 63 → u64 (z + 1) = z + 1)%Z.
Proof. intros Hz Hm. apply wrap_small. lia. Qed.

Ltac opened :=
  unfold is_Some in *;
  repeat match goal with
  | H : ∃ _, _ |- _ => destruct H
  | H : _ ∧ _ |- _ => destruct H
  | H : _ ∨ _ |- _ => destruct H
  | _ => progress back
  | _ => progress simplify_eq/=
  end.

Ltac at_cases := intros [] [kc ki] Hx; cbn [at_loc cp ha tp ths fst snd] in *; unfold eff in *; cbn [tp cp] in *; opened.
Ltac moved := first [right; split; congruence | left; split; [solve [eauto 10]|intros; congruence]].

Section inv_step.
Context (m : nat) (Hm : (Z.of_nat (S m) < 2 ^ 63)%Z).

Lemma numbers_step a l a' : inv m a → astep a l a' →
  (nid a ≤ nid a' ≤ nid a + 1)%Z ∧ (∀ c, sq (cp a c) ≤ sq (cp a' c) ≤ sq (cp a c) + 1)%Z.
Proof.
  intros [Hn Hs _ _ _ _ _ _ _ _ _] Ha. destruct Ha; cbn [nid cp] in *; split; intros; back; rewrite ?(u64_succ _ m) by (eauto || lia); cbn; lia.
Qed.

Lemma own_moves a l a' : inv m a → astep a l a' →
  (∀ x id, owns a' x id → owns a x id) ∨
  (∃ x0 x1 k0, owns a x0 k0 ∧ ∀ x id, owns a' x id → (owns a x id ∧ (id = k0 → x ≠ x0)) ∨ (id = k0 ∧ x = x1)) ∨
  (∃ x1, nid a' = (nid a + 1)%Z ∧ ∀ x id, owns a' x id → owns a x id ∨ (id = nid a ∧ x = x1)).
Proof.
  intros [Hn _ _ _ _ _ _ _ _ _ _] Ha. destruct Ha; cbn [nid] in *.
  all: try (left; intros [] id0 Hx; cbn [owns cp ha tp ths] in *; opened; eauto; repeat case_match; naive_solver; fail).
  - right; left. exists (OTask c), (OHand c), id. split; [by eexists|]. intros [] id0 Hx; cbn [owns cp ha tp ths] in *; opened; moved.
  - right; left. exists (OHand c), (OTask c), id. split; [by do 2 eexists|]. intros [] id0 Hx; cbn [owns cp ha tp ths] in *; opened; moved.
  - right; right. exists (OThr i). split; [by apply (u64_succ _ m)|]. intros [] id0 Hx; cbn [owns cp ha tp ths] in *; opened; eauto.
  - right; left. exists (OThr i), (OTask c), id. split; [by do 2 eexists|]. intros [] id0 Hx; cbn [owns cp ha tp ths] in *; opened; moved.
Qed.

Lemma own_step a l a' : inv m a → astep a l a' → uniq (owns a') ∧ ∀ x id, owns a' x id → (0 ≤ id < nid a')%Z.
Proof.
  intros Hinv Ha. pose proof (numbers_step _ _ _ Hinv Ha) as [Hn' _].
  destruct (own_moves _ _ _ Hinv Ha) as [Hs|[(x0 & x1 & k0 & H0 & Hs)|(x1 & He & Hs)]]; destruct Hinv as [Hn _ Hu Hid _ _ _ _ _ _ _].
  - split; [by eapply uniq_sub|]. intros x id Hx%Hs%Hid. lia.
  - split; [by eapply uniq_move|]. intros x id [[Hx%Hid _]|[-> _]]%Hs; [lia|]. apply Hid in H0. lia.
  - split; [eapply uniq_new; [done| |done]; intros x Hx%Hid; lia|]. intros x id [Hx%Hid|[-> _]]%Hs; lia.
Qed.

Lemma loc_step a l a' : inv m a → astep a l a' → uniq (at_loc a') ∧ ∀ x k, at_loc a' x k → (0 ≤ k.2 < nid a')%Z.
Proof.
  intros Hinv Ha. pose proof (numbers_step _ _ _ Hinv Ha) as [Hn' _]. destruct Hinv as [Hn _ _ _ Hu Hid Hnd Hnw _ _ _].
  assert ((∀ x id, at_loc a' x id → at_loc a x id) ∨
    (∃ x0 x1 k0, at_loc a x0 k0 ∧ ∀ x k, at_loc a' x k → (at_loc a x k ∧ (k = k0 → x ≠ x0)) ∨ (k = k0 ∧ x = x1)) ∨
    (∃ x1 k0, k0.2 = nid a ∧ nid a' = (nid a + 1)%Z ∧ ∀ x k, at_loc a' x k → at_loc a x k ∨ (k = k0 ∧ x = x1))) as Hc.
  { destruct Ha; cbn [nid] in *.
    all: try (left; at_cases; eauto 10; repeat case_match; naive_solver; fail).
    - right; left. exists LRdy, LHand, (c, id). specialize (Hnd c). cbn [cp] in Hnd. rewrite H3 in Hnd. apply NoDup_cons_1_1 in Hnd as Hnin.
      split; [cbn; rewrite H3; set_solver|]. at_cases; try moved. left. rewrite H3. split; [set_solver|congruence].
    - right; left. exists LHand, (LWk (sl_cpu f)), (c, id). split; [right; by eauto|]. at_cases; try moved. destruct (T (sl_cpu f)); [..|done]; opened; moved.
    - right; left. destruct w as [wc wi]. exists (LWk c), LRdy, (wc, wi). specialize (Hnw c). unfold eff in Hnw. cbn [tp] in Hnw. rewrite H1 in Hnw.
      apply NoDup_cons_1_1 in Hnw as Hnin. split; [cbn; unfold eff; cbn; rewrite H1; set_solver|]. at_cases; try moved.
      left. rewrite H1. split; [set_solver|congruence].
    - right; right. exists (LThr i), (c, n). split_and!; [done|by apply (u64_succ _ m)|]. at_cases; eauto 10.
    - right; left. exists (LThr i), LRdy, (c, id). split; [by right|]. at_cases; moved. }
  destruct Hc as [Hs|[(x0 & x1 & k0 & H0 & Hs)|(x1 & k0 & Hk & He & Hs)]].
  - split; [by eapply uniq_sub|]. intros x k Hx%Hs%Hid. lia.
  - split; [by eapply uniq_move|]. intros x k [[Hx%Hid _]|[-> _]]%Hs; [lia|]. apply Hid in H0. lia.
  - split; [eapply uniq_new; [done| |done]; intros x Hx%Hid; lia|]. intros x k [Hx%Hid|[-> _]]%Hs; lia.
Qed.

Lemma nodup_step a l a' : inv m a → astep a l a' → (∀ c, NoDup (rdy (cp a' c))) ∧ (∀ s, NoDup (eff a' s)).
Proof.
  intros [_ _ _ _ Hu _ Hnd Hnw _ _ _] Ha.
  assert (∀ c id, at_loc a LRdy (c, id) → (∀ s, ¬ at_loc a (LWk s) (c, id)) ∧ ¬ at_loc a LHand (c, id) ∧ ∀ i, ¬ at_loc a (LThr i) (c, id)) as Hr.
  { intros c id Hx. split_and!; intros; intros Hy; by pose proof (Hu _ _ _ Hx Hy). }
  assert (∀ s c id, at_loc a (LWk s) (c, id) → ¬ at_loc a LHand (c, id)) as Hw by (intros s c id Hx Hy; by pose proof (Hu _ _ _ Hx Hy)).
  unfold eff in *. destruct Ha; cbn [nid cp ha tp ths] in *; (split; [intros c'|intros s']); back; eauto using NoDup_nil_2; try done.
  - specialize (Hnd c). rewrite H3 in Hnd. by apply NoDup_cons_1_2 in Hnd.
  - destruct (T (sl_cpu f)) as [| |] eqn:ET; [..|done].
    all: apply nodup_snoc; [specialize (Hnw (sl_cpu f)); by rewrite ET in Hnw|]; intros Hx; eapply (Hw (sl_cpu f) c id); [by cbn; unfold eff; cbn; rewrite ET|right; eauto].
  - specialize (Hnw c). by rewrite H1 in Hnw.
  - specialize (Hnw c). by rewrite H1 in Hnw.
  - apply nodup_snoc; [done|]. intros Hx. apply (proj1 (Hr _ _ Hx) c). cbn. unfold eff; cbn. rewrite H1. destruct w; set_solver.
  - specialize (Hnw c). rewrite H1 in Hnw. by apply NoDup_cons_1_2 in Hnw.
  - apply nodup_snoc; [done|]. intros Hx. apply (proj2 (proj2 (Hr _ _ Hx)) i). by right.
Qed.

End inv_step.

(** What is queued stays queued until it is taken; what the clock has to wake
    stays there until it is queued. *)
Lemma rdy_step a l a' c id : astep a l a' → id ∈ rdy (cp a c) → id ∈ rdy (cp a' c) ∨ (l = LExec c ∧ ha a' c = HGot id).
Proof.
  intros Ha Hx. destruct Ha; cbn [cp ha] in *; rewrite ?on_cpu_lookup; unfold push_id; rewrite ?on_cpu_lookup; try case_decide; subst; cbn; auto.
  - rewrite H3 in Hx. apply elem_of_cons in Hx as [->|Hx]; [right|by left]. by rewrite fn_lookup_insert.
  - left. set_solver.
  - left. set_solver.
Qed.

Lemma eff_step a l a' s w : astep a l a' → w ∈ eff a s → w ∈ eff a' s ∨ w_id w ∈ rdy (cp a' (w_cpu w)).
Proof.
  intros Ha Hx. unfold eff in *. destruct Ha; cbn [cp tp] in *; auto; unfold push_id; rewrite ?fn_insert_dec, ?on_cpu_lookup.
  - left. by case_decide; subst.
  - left. by case_decide; subst.
  - left. case_decide; subst; [|done]. destruct (T (sl_cpu f)); cbn; set_solver.
  - left. by case_decide; subst.
  - left. case_decide; subst; [|done]. by rewrite H1 in Hx.
  - left. case_decide; subst; [|done]. by rewrite H1 in Hx.
  - destruct (decide (s = c)) as [->|]; [|by left; case_decide; subst]. rewrite H1 in Hx. apply elem_of_cons in Hx as [->|Hx]; [right|by left].
    rewrite decide_True by done. cbn. set_solver.
  - left. case_decide; subst; [|done]. by rewrite H1 in Hx.
  - left. by case_decide; subst.
  - left. by case_decide; subst.
Qed.

Lemma tick_cond a l a' s w z : astep a l a' → w ∈ eff a s → (sq (cp a s) < z)%Z ∨ tp a s ≠ TIdle → (sq (cp a' s) < z)%Z ∨ tp a' s ≠ TIdle.
Proof.
  intros Ha Hx Hc. unfold eff in Hx. destruct Ha; cbn [cp tp] in *; auto; unfold push_id; rewrite ?fn_insert_dec, ?on_cpu_lookup; try case_decide; subst; cbn; auto.
  - case_decide; [by right|done].
  - case_decide; [by right|done].
  - rewrite H1 in Hx. by apply not_elem_of_nil in Hx.
Qed.

Section tokens.
Context (m : nat) (Hm : (Z.of_nat (S m) < 2 ^ 63)%Z).

Lemma token_keep a l a' c id f : astep a l a' → token a c id f → token a' c id f ∨ (l = LExec c ∧ ha a' c = HGot id).
Proof.
  intros Ha [Hx|[Hx Hc]].
  - destruct (rdy_step _ _ _ _ _ Ha Hx) as [?|?]; [|by right]. by left; left.
  - pose proof (tick_cond _ _ _ _ _ _ Ha Hx Hc) as Hc'. destruct (eff_step _ _ _ _ _ Ha Hx) as [Hx'|Hx']; left; [by right|by left].
Qed.

Lemma hand_keep a l a' c : astep a l a' → l ≠ LExec c → ha a' c = ha a c.
Proof.
  intros Ha Hl. destruct Ha; cbn [ha]; auto; rewrite fn_lookup_insert_ne by congruence; done.
Qed.

Lemma thr_keep a l a' i t : astep a l a' → ths a !! i = Some t → l ≠ LThread i → ths a' !! i = Some t.
Proof.
  intros Ha Ht Hl. destruct Ha; cbn [ths] in *; auto; first [by rewrite list_lookup_insert_ne by congruence|by apply lookup_app_l_Some].
Qed.

(** The tasks of a CPU change by its executor and by the threads that spawn. *)
Lemma tks_step a l a' c id f : astep a l a' → tks (cp a' c) !! id = Some f →
  (tks (cp a c) !! id = Some f ∧ (l = LExec c → ha a c ≠ HGot id)) ∨ (l = LExec c ∧ ha a c = HPoll id f Pend) ∨
  (∃ i, ths a !! i = Some (ThIns c id f) ∧ ths a' !! i = Some (ThPush c id)).
Proof.
  intros Ha Hx. destruct Ha; cbn [cp ha ths] in *; unfold push_id in *; rewrite ?on_cpu_lookup in Hx; try (case_decide; subst; cbn in Hx);
    try (left; split; [done|]; intros ?; simplify_eq; congruence).
  - apply lookup_delete_Some in Hx as [Hne Hx]. left. split; [done|congruence].
  - apply lookup_insert_Some in Hx as [[-> ->]|[Hne Hx]]; [by right; left|]. left. split; [done|congruence].
  - apply lookup_insert_Some in Hx as [[-> ->]|[Hne Hx]]; [|by left]. right; right. exists i. split; [done|].
    apply list_lookup_insert_eq. by eapply lookup_lt_Some.
Qed.

Lemma hand_step a l a' c id f p : astep a l a' → ha a' c = HPoll id f p →
  (l ≠ LExec c ∧ ha a c = HPoll id f p) ∨
  (l = LExec c ∧ match p with
    | Start => ha a c = HGot id ∧ tks (cp a c) !! id = Some f
    | Reg => ha a c = HPoll id f Start ∧ (sq (cp a (sl_cpu f)) < sl_target f)%Z
    | Chk => ha a c = HPoll id f Reg ∧ mkWaker c id ∈ eff a' (sl_cpu f)
    | Pend => ha a c = HPoll id f Chk ∧ (sq (cp a (sl_cpu f)) < sl_target f)%Z
    | Done => (ha a c = HPoll id f Start ∨ ha a c = HPoll id f Chk) ∧ (sl_target f ≤ sq (cp a' (sl_cpu f)))%Z
    end).
Proof.
  intros Ha Hx. destruct Ha; cbn [cp ha] in *; try (left; split; [congruence|done]).
  all: try (destruct (decide (c = c0)) as [->|]; [rewrite fn_lookup_insert in Hx|rewrite fn_lookup_insert_ne in Hx by done; left; split; [congruence|done]]); try congruence.
  - injection Hx as -> -> <-. auto.
  - right. split; [done|]. case_match; injection Hx as -> -> <-; bool_to_prop; split; auto; lia.
  - right. split; [done|]. injection Hx as -> -> <-. split; [done|]. unfold eff. cbn [tp cp]. rewrite on_cpu_lookup, decide_True by done.
    destruct (T (sl_cpu f)); [..|done]; cbn; set_solver.
  - right. split; [done|]. case_match; injection Hx as -> -> <-; bool_to_prop; split; auto; lia.
Qed.

Lemma push_step a a' i c id : astep a (LThread i) a' → ths a !! i = Some (ThPush c id) → id ∈ rdy (cp a' c).
Proof.
  inversion 1; subst; cbn [ths cp] in *; intros; simplify_eq. unfold push_id. rewrite on_cpu_lookup, decide_True by done. cbn. set_solver.
Qed.

Lemma tks_inv_step a l a' c id f : inv m a → astep a l a' → tks (cp a' c) !! id = Some f →
  token a' c id f ∨ ha a' c = HGot id ∨ ∃ i, ths a' !! i = Some (ThPush c id).
Proof.
  intros Hi Ha Hx. destruct (tks_step _ _ _ _ _ _ Ha Hx) as [[Ho Hl]|[[Hl Hh]|(i & _ & Hp)]]; [|apply (iv_poll _ _ Hi) in Hh|by eauto].
  - destruct (iv_tks _ _ Hi _ _ _ Ho) as [Ht|[Hh|(i & Hp)]].
    + destruct (token_keep _ _ _ _ _ _ Ha Ht) as [?|[_ ?]]; auto.
    + right; left. rewrite (hand_keep _ _ _ _ Ha); [done|naive_solver].
    + destruct (decide (l = LThread i)) as [->|Hne]; [left; left; by eapply push_step|]. right; right. exists i. by eapply thr_keep.
  - destruct (token_keep _ _ _ _ _ _ Ha Hh) as [?|[_ ?]]; auto.
Qed.

Lemma poll_inv_step a l a' c id f p : inv m a → astep a l a' → ha a' c = HPoll id f p → poll_ok a' c id f p.
Proof.
  intros Hi Ha Hx. destruct (numbers_step m Hm _ _ _ Hi Ha) as [_ Hsq].
  assert (∀ s, id ∈ rdy (cp a c) ∨ mkWaker c id ∈ eff a s → id ∈ rdy (cp a' c) ∨ mkWaker c id ∈ eff a' s) as Hreg.
  { intros s [Hr|Hr]; [destruct (rdy_step _ _ _ _ _ Ha Hr) as [?|[_ ?]]; [by left|congruence]|].
    destruct (eff_step _ _ _ _ _ Ha Hr); [by right|by left]. }
  assert (token a c id f → token a' c id f) as Htok by (intros Ht; destruct (token_keep _ _ _ _ _ _ Ha Ht) as [?|[_ ?]]; [done|congruence]).
  destruct (hand_step _ _ _ _ _ _ _ Ha Hx) as [[Hl Hh]|[-> Hh]].
  - apply (iv_poll _ _ Hi) in Hh. destruct p; cbn in *; auto. specialize (Hsq (sl_cpu f)). lia.
  - destruct p; cbn; auto; [right; by destruct Hh|destruct Hh as [Hh Hlt]|by destruct Hh]. apply (iv_poll _ _ Hi) in Hh. apply Htok.
    destruct Hh as [Hh|Hh]; [by left|right; auto].
Qed.

Lemma fault_step a l a' : inv m a → in_range a → astep a l a' → ThFault ∉ ths a'.
Proof.
  intros Hi Hr Ha. pose proof (iv_nofault _ _ Hi) as Hn. pose proof (iv_sq _ _ Hi) as Hsq. pose proof (ir_th _ Hr) as Hth.
  assert (∀ (th : list thr) i t, ThFault ∉ th → t ≠ ThFault → ThFault ∉ <[i := t]> th) as Hins.
  { intros th i t Ht Hne [j Hj]%list_elem_of_lookup. apply list_lookup_insert_Some in Hj as [(_ & ? & _)|[_ Hj]]; [done|]. by apply list_elem_of_lookup_2 in Hj. }
  destruct Ha; cbn [ths cp] in *; auto; try (by apply Hins).
  - apply Hins; [done|]. destruct (Hth _ _ H0) as (_ & _ & Hb). specialize (Hsq here).
    unfold USIZE_MAX. rewrite (proj2 (Z.leb_le _ _)); [done|lia].
  - set_solver.
Qed.

Theorem inv_step a l a' : inv m a → in_range a → astep a l a' → inv (S m) a'.
Proof.
  intros Hi Hr Ha. destruct (numbers_step m Hm _ _ _ Hi Ha) as [Hn Hs]. destruct (own_step m Hm _ _ _ Hi Ha). destruct (loc_step m Hm _ _ _ Hi Ha).
  destruct (nodup_step m Hm _ _ _ Hi Ha). pose proof (iv_nid _ _ Hi). pose proof (iv_sq _ _ Hi) as Hs0. split; try done.
  - lia.
  - intros c. specialize (Hs c). specialize (Hs0 c). lia.
  - intros. by eapply tks_inv_step.
  - intros. by eapply poll_inv_step.
  - by eapply fault_step.
Qed.
End tokens.

(** ** A due task is finished after a bounded number of steps *)

(** The steps its executor still needs when task [id] comes up. *)
Definition place_cost (p : place) : nat := match p with Start => 6 | Reg => 5 | Chk => 4 | Pend | Done => 3 end.
Definition hand_cost (h : hand) : nat := match h with HIdle => 0 | HGot _ => 7 | HPoll _ _ p => place_cost p end.
Definition queued (a : abs) (c : nat) (id : Z) (d : nat) : Prop :=
  ∃ i, rdy (cp a c) !! i = Some id ∧ d = 8 * (i + 1) + hand_cost (ha a c).
Definition due (a : abs) (c : nat) (id : Z) (f : task) (d : nat) : Prop :=
  (sl_target f ≤ sq (cp a (sl_cpu f)))%Z ∧
  ((tks (cp a c) !! id = Some f ∧ ((ha a c = HGot id ∧ d = 7) ∨ queued a c id d)) ∨
   (∃ p, ha a c = HPoll id f p ∧ match p with Pend => queued a c id d | _ => d = place_cost p end)).
Definition gone (a : abs) (id : Z) : Prop := (0 ≤ id < nid a)%Z ∧ ∀ x, ¬ owns a x id.

Lemma rdy_at a l a' c i id : astep a l a' → rdy (cp a c) !! i = Some id →
  ((l ≠ LExec c ∨ ha a c ≠ HIdle) ∧ rdy (cp a' c) !! i = Some id) ∨
  (l = LExec c ∧ match i with 0 => ha a' c = HGot id | S i => rdy (cp a' c) !! i = Some id ∧ ∃ id', ha a' c = HGot id' end).
Proof.
  intros Ha Hx. destruct Ha; cbn [cp ha] in *; unfold push_id; rewrite ?on_cpu_lookup; try case_decide; subst; cbn;
    try (left; split; [first [left; congruence|right; congruence|destruct (decide (c = c0)) as [->|]; [right; congruence|left; congruence]]|first [done|by apply lookup_app_l_Some]]).
  - destruct (decide (c = c0)) as [->|]; [by rewrite H3 in Hx|]. left. split; [left; congruence|done].
  - right. split; [done|]. rewrite fn_lookup_insert. rewrite H3 in Hx. destruct i; cbn in *; [by simplify_eq|]. eauto.
  - left. split; [|done]. destruct (decide (c0 = sl_cpu f)) as [->|]; [right|left]; congruence.
Qed.

(** The cost of an executor in the middle of a poll goes down. *)
Lemma hand_cost_step a a' c : astep a (LExec c) a' → ha a c ≠ HIdle → hand_cost (ha a' c) < hand_cost (ha a c).
Proof.
  intros Ha Hn. inversion Ha; subst; cbn [ha] in *; try congruence; rewrite fn_lookup_insert;
    match goal with H : _ = HGot _ |- _ => rewrite H | H : _ = HPoll _ _ _ |- _ => rewrite H end; repeat case_match; cbn; lia.
Qed.

Lemma queued_step a l a' c id d : astep a l a' → queued a c id d →
  (l ≠ LExec c ∧ queued a' c id d) ∨ (l = LExec c ∧ ((∃ d', d' < d ∧ queued a' c id d') ∨ (ha a' c = HGot id ∧ 7 < d))).
Proof.
  intros Ha (i & Hi & ->). destruct (decide (l = LExec c)) as [->|Hl].
  - right. split; [done|]. destruct (rdy_at _ _ _ _ _ _ Ha Hi) as [[[?|Hh] Hi']|(_ & Hc)]; [done| |].
    + left. eexists. split; [|by exists i]. pose proof (hand_cost_step _ _ _ Ha Hh). lia.
    + destruct i as [|i]; [right; split; [done|lia]|]. destruct Hc as (Hi' & id' & Hh). left. eexists. split; [|by exists i]. rewrite Hh. cbn. lia.
  - left. split; [done|]. exists i. rewrite (hand_keep _ _ _ _ Ha Hl). destruct (rdy_at _ _ _ _ _ _ Ha Hi) as [[_ ?]|[? _]]; done.
Qed.

(** Only the executor that has a task takes it away. *)
Lemma tks_keep a l a' c id f : astep a l a' → tks (cp a c) !! id = Some f →
  (tks (cp a' c) !! id = Some f ∧ (ha a c = HGot id → l ≠ LExec c)) ∨ (l = LExec c ∧ ha a c = HGot id ∧ ha a' c = HPoll id f Start) ∨
  (l = LExec c ∧ ∃ f', ha a c = HPoll id f' Pend) ∨ (∃ i f', l = LThread i ∧ ths a !! i = Some (ThIns c id f')).
Proof.
  intros Ha Hx. destruct Ha; cbn [cp ha ths] in *; unfold push_id in *; rewrite ?on_cpu_lookup; try (case_decide; subst; cbn);
    try (left; split; [done|intros ?; congruence]).
  - destruct (decide (id0 = id)) as [->|]; [right; left; rewrite fn_lookup_insert; by simplify_eq|].
    left. rewrite lookup_delete_ne by done. split; [done|congruence].
  - destruct (decide (id0 = id)) as [->|]; [right; right; left; eauto|]. left. rewrite lookup_insert_ne by done. split; [done|congruence].
  - destruct (decide (id0 = id)) as [->|]; [right; right; right; eauto|]. left. rewrite lookup_insert_ne by done. split; [done|congruence].
Qed.

Ltac same_hand := match goal with E : ?x = HPoll _ _ _, E' : ?x = HPoll _ _ _ |- _ => rewrite E in E'; simplify_eq end.

Section due.
Context (m : nat) (Hm : (Z.of_nat (S m) < 2 ^ 63)%Z).

Lemma gone_step a l a' id : inv m a → astep a l a' → gone a id → gone a' id.
Proof.
  intros Hi Ha [Hid Hno]. destruct (numbers_step m Hm _ _ _ Hi Ha) as [Hn _]. split; [lia|]. intros x Hx.
  destruct (own_moves m Hm _ _ _ Hi Ha) as [Hs|[(x0 & x1 & k0 & H0 & Hs)|(x1 & He & Hs)]].
  - apply Hs in Hx. by eapply Hno.
  - destruct (Hs _ _ Hx) as [[? _]|[? _]]; subst; by eapply Hno.
  - destruct (Hs _ _ Hx) as [?|[? _]]; [by eapply Hno|lia].
Qed.

Lemma done_gone a a' c id f : inv m a → astep a (LExec c) a' → ha a c = HPoll id f Done → gone a' id.
Proof.
  intros Hi Ha Hh. assert (owns a (OHand c) id) as Ho by (by do 2 eexists). pose proof (iv_own_id _ _ Hi _ _ Ho) as Hid.
  destruct (numbers_step m Hm _ _ _ Hi Ha) as [Hn _]. split; [lia|]. pose proof (iv_own _ _ Hi) as Hu.
  inversion Ha; subst; cbn [ha] in *; try congruence. intros x Hx.
  assert (owns (mkAbs n V H T th) x id ∧ x ≠ OHand c) as [Hx' Hne].
  { destruct x; cbn [owns cp ha ths] in *; [done| |done]. destruct Hx as (f' & p & Hx). apply fn_insert_Some in Hx as [[-> ?]|[Hne Hx]]; [done|].
    split; [eauto|congruence]. }
  apply Hne. by eapply Hu.
Qed.

Lemma due_step a l a' c id f d : inv m a → astep a l a' → due a c id f d →
  (l ≠ LExec c ∧ due a' c id f d) ∨ (l = LExec c ∧ ((∃ d', d' < d ∧ due a' c id f d') ∨ gone a' id)).
Proof.
  intros Hi Ha [Hsq Hd]. destruct (numbers_step m Hm _ _ _ Hi Ha) as [_ Hsq']. specialize (Hsq' (sl_cpu f)). pose proof (iv_own _ _ Hi) as Hu.
  assert (sl_target f ≤ sq (cp a' (sl_cpu f)))%Z as Hsq2 by lia. destruct Hd as [[Ht Hd]|(p & Hh & Hd)].
  - destruct (tks_keep _ _ _ _ _ _ Ha Ht) as [[Ht' Hng]|[(-> & Hg & Hh')|[(_ & f' & Hp)|(i & f' & _ & Hp)]]].
    + destruct Hd as [[Hh ->]|Hq].
      * left. split; [auto|]. split; [done|]. left. split; [done|]. left. rewrite (hand_keep _ _ _ _ Ha); auto.
      * destruct (queued_step _ _ _ _ _ _ Ha Hq) as [[Hl Hq']|[-> [(d' & Hlt & Hq')|[Hh' Hlt]]]].
        -- left. split; [done|]. split; [done|]. auto.
        -- right. split; [done|]. left. exists d'. split; [done|]. split; [done|]. auto.
        -- right. split; [done|]. left. exists 7. split; [done|]. split; [done|]. auto.
    + right. split; [done|]. left. exists 6. split; [destruct Hd as [[_ ->]|(? & _ & ->)]; rewrite ?Hg; cbn; lia|]. split; [done|]. right. by exists Start.
    + assert (OTask c = OHand c) by (eapply Hu; [by eexists|by do 2 eexists]). done.
    + assert (OTask c = OThr i) by (eapply Hu; [by eexists|by do 2 eexists]). done.
  - destruct (decide (l = LExec c)) as [->|Hl].
    + right. split; [done|]. destruct p; [..|right; by eapply done_gone].
      * left. exists 3. split; [subst; cbn; lia|]. split; [done|]. right. exists Done. split; [|done]. inversion Ha; subst; cbn [ha cp] in *; try congruence.
        rewrite fn_lookup_insert. same_hand. by rewrite (proj2 (Z.leb_le _ _)).
      * left. exists 4. split; [subst; cbn; lia|]. split; [done|]. right. exists Chk. split; [|done]. inversion Ha; subst; cbn [ha cp] in *; try congruence.
        rewrite fn_lookup_insert. by same_hand.
      * left. exists 3. split; [subst; cbn; lia|]. split; [done|]. right. exists Done. split; [|done]. inversion Ha; subst; cbn [ha cp] in *; try congruence.
        rewrite fn_lookup_insert. same_hand. by rewrite (proj2 (Z.leb_le _ _)).
      * left. assert (ha a' c = HIdle ∧ tks (cp a' c) !! id = Some f) as [Hh' Ht'].
        { inversion Ha; subst; cbn [ha cp] in *; try congruence. rewrite fn_lookup_insert, on_cpu_lookup, decide_True by done. same_hand. cbn. by rewrite lookup_insert_eq. }
        destruct (queued_step _ _ _ _ _ _ Ha Hd) as [[? _]|[_ [(d' & Hlt & Hq')|[Hh2 _]]]]; [done| |congruence].
        exists d'. split; [done|]. split; [done|]. left. auto.
    + left. split; [done|]. split; [done|]. right. exists p. rewrite (hand_keep _ _ _ _ Ha Hl). split; [done|]. destruct p; try done.
      destruct (queued_step _ _ _ _ _ _ Ha Hd) as [[_ ?]|[? _]]; done.
Qed.
End due.

(** ** The machine *)
Definition seq_of (s : Sys task) (c : nat) : option Z := TICK_SEQ <$> cpus (kern s) !! c.
Definition task_of (s : Sys task) (c : nat) (id : Z) : option task := x ← cpus (kern s) !! c; e ← EXEC x; tasks e !! id.
(** Task [id] of CPU [c] is not finished: it waits, or is being polled. *)
Definition has_task (s : Sys task) (c : nat) (id : Z) (f : task) : Prop :=
  task_of s c id = Some f ∨ ∃ p, ex s !! c = Some (Polling id f p).
(** The call that spawned it has put it in the queue. *)
Definition spawned (s : Sys task) (c : nat) (id : Z) : Prop := ∀ i, threads s !! i ≠ Some (Wake (mkWaker c id) (Ret ())).
Definition execs (c : nat) (l : list label) : nat := length (filter (λ x, x = LExec c) l).
(** Every step there is to take succeeds. *)
Definition runs (s : Sys task) : Prop :=
  (∀ c ph, ex s !! c = Some ph → ti s !! c = Some TIdle → e_waits (ti s) ph = false → ∃ ph' k', exec_step sleep_poll c ph (kern s) = (Ok ph', k')) ∧
  (∀ c t, ti s !! c = Some t → ∃ t' k', tick_step c t (kern s) = (Ok t', k')) ∧
  (∀ i p, threads s !! i = Some p → ∃ p' k', prog_step p (kern s) = (Ok p', k')).

Lemma sleep_reach_inv L s : steps sleep_poll naps sys_new L s → (Z.of_nat (length L) < 2 ^ 63)%Z → ∃ a, refines s a ∧ in_range a ∧ inv (length L) a.
Proof.
  intros Hs. remember sys_new as s0 eqn:E. induction Hs as [s|s l s' x s'' Hs IH Hst]; subst; intros Hl.
  - exists abs_new. split_and!; [apply refines_new|apply in_range_new|apply inv_new].
  - rewrite length_app in Hl |- *. cbn in Hl |- *. destruct (IH eq_refl) as (a & Hr & Hi & Hv); [lia|].
    destruct (step_refines _ _ _ _ Hr Hi Hst) as (a' & Ha & Hr'). exists a'. rewrite Nat.add_1_r. split_and!; [done|by eapply in_range_step|].
    eapply inv_step; [lia|done|done|done].
Qed.

Lemma seq_refines s a c now : refines s a → seq_of s c = Some now → now = sq (cp a c) ∧ c < NCPU.
Proof.
  intros [(_ & Hl & Hk) _ _ _] Hs. unfold seq_of in Hs. destruct (cpus (kern s) !! c) as [x|] eqn:Hx; [|done]. injection Hs as <-.
  split; [by eapply ci_seq, Hk|]. rewrite <- Hl. by eapply lookup_lt_Some.
Qed.

Lemma has_task_refines s a c id f : refines s a → has_task s c id f → tks (cp a c) !! id = Some f ∨ ∃ p, ha a c = HPoll id f p.
Proof.
  intros [(_ & Hl & Hk) [Hle He] _ _] [Ht|(p & Hp)].
  - left. unfold task_of in Ht. destruct (cpus (kern s) !! c) as [x|] eqn:Hx; [|done]. destruct (Hk _ _ Hx) as [_ _ (cache & Hex & _) _ _]. cbn in Ht. by rewrite Hex in Ht.
  - right. assert (c < NCPU) as Hc by (rewrite <- Hle; by eapply lookup_lt_Some). specialize (He _ Hc). rewrite Hp in He. destruct (ha a c); simplify_eq/=. eauto.
Qed.

Lemma gone_task s a c id f : refines s a → gone a id → ¬ has_task s c id f.
Proof. intros Hr [_ Hno] [Ht|(p & Hp)]%(has_task_refines _ _ _ _ _ Hr); [apply (Hno (OTask c))|apply (Hno (OHand c))]; [by eexists|by do 2 eexists]. Qed.

(** Once its target is reached and the interrupt is over, a task is due. *)
Lemma task_due m s a c id f : refines s a → inv m a → has_task s c id f → spawned s c id →
  (sl_target f ≤ sq (cp a (sl_cpu f)))%Z → tp a (sl_cpu f) = TIdle → c < NCPU → ∃ d, d < 8 * (READYQ_SIZE + 1) ∧ due a c id f d.
Proof.
  intros Hr Hi Ht Hsp Hsq Htp Hc.
  assert (token a c id f → ∃ d, d < 8 * (READYQ_SIZE + 1) ∧ queued a c id d) as Htok.
  { intros [[i Hx]%list_elem_of_lookup|[_ [?|?]]]; [|lia|done]. destruct (get_cpu_is _ _ _ (rf_kern _ _ Hr) c Hc) as (x & _ & Hx').
    assert (i < READYQ_SIZE) as Hlt.
    { apply lookup_lt_Some in Hx. rewrite <- (ci_rdy _ _ _ Hx'), length_ready_list in Hx. pose proof (ring_len _ _ _ _ _ (ci_wf _ _ _ Hx')). lia. }
    eexists. split; [|by exists i]. assert (hand_cost (ha a c) ≤ 7) by (destruct (ha a c) as [| |? ? []]; cbn; lia). lia. }
  destruct (has_task_refines _ _ _ _ _ Hr Ht) as [Hk|(p & Hp)].
  - destruct (iv_tks _ _ Hi _ _ _ Hk) as [Hto|[Hg|(i & Hi')]].
    + destruct (Htok Hto) as (d & Hd & Hq). exists d. split; [done|]. split; [done|]. auto.
    + exists 7. split; [unfold READYQ_SIZE; lia|]. split; [done|]. auto.
    + exfalso. apply (Hsp i). rewrite (rf_th _ _ Hr), list_lookup_fmap, Hi'. done.
  - assert (p = Pend ∨ p ≠ Pend) as [->|Hne] by (destruct p; auto).
    + destruct (Htok (iv_poll _ _ Hi _ _ _ _ Hp)) as (d & Hd & Hq). exists d. split; [done|]. split; [done|]. right. by exists Pend.
    + exists (place_cost p). split; [destruct p; unfold READYQ_SIZE; cbn; lia|]. split; [done|]. right. exists p. by destruct p.
Qed.

Lemma due_run m s a c id f d l s' : refines s a → in_range a → inv m a → due a c id f d →
  steps sleep_poll naps s l s' → (Z.of_nat (m + length l) < 2 ^ 63)%Z →
  ∃ a', refines s' a' ∧ in_range a' ∧ inv (m + length l) a' ∧ (gone a' id ∨ ∃ d', due a' c id f d' ∧ d' + execs c l ≤ d).
Proof.
  intros Hr Hi Hv Hd Hs. induction Hs as [s|s l s' x s'' Hs IH Hst]; intros Hl.
  - exists a. rewrite Nat.add_0_r. split_and!; try done. right. exists d. split; [done|]. cbn. lia.
  - rewrite length_app in Hl |- *. cbn in Hl |- *. destruct IH as (a' & Hr' & Hi' & Hv' & Hc); [done|lia|].
    destruct (step_refines _ _ _ _ Hr' Hi' Hst) as (a2 & Ha & Hr2). assert (Z.of_nat (S (m + length l)) < 2 ^ 63)%Z as Hb by lia.
    exists a2. rewrite Nat.add_assoc, Nat.add_1_r. split_and!; [done|by eapply in_range_step|by eapply inv_step|].
    destruct Hc as [Hg|(d' & Hd' & Hle)]; [left; by eapply gone_step|]. unfold execs in *. rewrite list.filter_app, length_app, filter_cons.
    destruct (due_step _ Hb _ _ _ _ _ _ _ Hv' Ha Hd') as [[Hne Hd2]|[-> [(d2 & Hlt & Hd2)|Hg]]]; [| |by left].
    + right. exists d'. split; [done|]. rewrite decide_False by done. cbn. lia.
    + right. exists d2. split; [done|]. rewrite decide_True by done. cbn. lia.
Qed.

Lemma nodup_bound (l : list Z) n : NoDup l → (∀ x, x ∈ l → (0 ≤ x < n)%Z) → length l ≤ Z.to_nat n.
Proof.
  intros Hn Hx. rewrite <- (length_seqZ 0 n). apply submseteq_length, NoDup_submseteq; [done|]. intros x Hin. apply elem_of_seqZ. specialize (Hx _ Hin). lia.
Qed.

(** With no more tasks than slots, a queue has room for whoever is not in it. *)
Lemma room m a c id x : inv m a → at_loc a x (c, id) → x ≠ LRdy → (nid a ≤ Z.of_nat READYQ_SIZE)%Z → length (rdy (cp a c)) < READYQ_SIZE.
Proof.
  intros Hi Hx Hne Hn. assert (length (rdy (cp a c) ++ [id]) ≤ Z.to_nat (nid a)) as Hb.
  { apply nodup_bound.
    - apply nodup_snoc; [apply (iv_rdy _ _ Hi)|]. intros Hin. apply Hne. by eapply (iv_loc _ _ Hi _ LRdy (c, id)).
    - intros z [Hz| ->%list_elem_of_singleton]%elem_of_app; [apply (iv_loc_id _ _ Hi LRdy (c, z) Hz)|apply (iv_loc_id _ _ Hi _ _ Hx)]. }
  rewrite length_app in Hb. cbn in Hb. lia.
Qed.

Lemma runs_inv m s a : refines s a → in_range a → inv m a → (NEXT_ID (kern s) ≤ Z.of_nat READYQ_SIZE)%Z → runs s.
Proof.
  intros Hr Hi Hv Hn. rewrite (proj1 (rf_kern _ _ Hr)) in Hn. destruct a as [n V H T th]. split_and!.
  - intros c ph He Ht Hw. assert (c < NCPU) as Hc by (rewrite <- (proj1 (rf_ex _ _ Hr)); by eapply lookup_lt_Some).
    rewrite (exec_of _ _ _ _ _ _ Hr c Hc) in He. rewrite (tick_of _ _ _ _ _ _ Hr c Hc) in Ht. simplify_eq.
    destruct (exec_refines _ _ _ _ _ _ Hr Hi c Hc ltac:(done) Hw) as (h & k2 & a' & Hx' & _). eauto.
  - intros c t Ht. assert (c < NCPU) as Hc by (rewrite <- (proj1 (rf_ti _ _ Hr)); by eapply lookup_lt_Some).
    rewrite (tick_of _ _ _ _ _ _ Hr c Hc) in Ht. simplify_eq.
    destruct (tick_refines _ _ _ _ _ _ Hr Hi c Hc) as [(h & k2 & a' & Hx' & _)|([wc wi] & ws & HT & Hfull & _)]; [by eauto|].
    exfalso. apply Hfull. eapply (room _ _ _ wi (LWk c) Hv); [|done|done]. cbn. unfold eff. cbn. rewrite HT. set_solver.
  - intros i p Hp. rewrite (rf_th _ _ Hr), list_lookup_fmap in Hp. destruct (th !! i) as [t|] eqn:Et; cbn in Hp; rewrite Et in Hp; [|done]. injection Hp as <-.
    destruct (thread_refines _ _ _ _ _ _ Hr Hi i t Et) as [(t' & k2 & a' & Hx' & _)|[_ Hbad]]; [by eauto|]. exfalso. destruct t as [| |c id f|c id| |]; try done.
    + assert (OThr i = OTask c) by (eapply (iv_own _ _ Hv); [by do 2 eexists|done]). done.
    + apply Hbad. eapply (room _ _ _ id (LThr i) Hv); [by right|done|done].
    + apply (iv_nofault _ _ Hv). by eapply list_elem_of_lookup_2.
Qed.

(** C18: tasks that sleep, spawned from anywhere on any CPU, with executors,
    clock interrupts and spawning threads interleaved at every access to a
    shared variable.  In every state reached in fewer than [2 ^ 63] steps: no
    sleep ends before its target tick; if no more tasks have been created than
    a ready queue holds, no step of anybody panics; and once the clock a task
    sleeps on has reached its target and the interrupt is over, the task is
    finished within [8 * (READYQ_SIZE + 1)] steps of its executor, whatever
    the rest of the machine does meanwhile, and stays finished. *)
Theorem sleep_ticks_correct L s : steps sleep_poll naps sys_new L s → (Z.of_nat (length L) < 2 ^ 63)%Z →
  (∀ c id f now, ex s !! c = Some (Polling id f (Ret None)) → seq_of s (sl_cpu f) = Some now → (sl_target f ≤ now)%Z) ∧
  ((NEXT_ID (kern s) ≤ Z.of_nat READYQ_SIZE)%Z → runs s) ∧
  (∀ c id f now l s', has_task s c id f → spawned s c id →
     seq_of s (sl_cpu f) = Some now → (sl_target f ≤ now)%Z → ti s !! sl_cpu f = Some TIdle →
     steps sleep_poll naps s l s' → (Z.of_nat (length L + length l) < 2 ^ 63)%Z → 8 * (READYQ_SIZE + 1) ≤ execs c l →
     ∀ g, ¬ has_task s' c id g).
Proof.
  intros Hs Hl. destruct (sleep_reach_inv _ _ Hs Hl) as (a & Hr & Hi & Hv). split_and!.
  - intros c id f now He Hq. destruct (seq_refines _ _ _ _ Hr Hq) as [-> _]. destruct (rf_ex _ _ Hr) as [Hle Hex].
    assert (c < NCPU) as Hc by (rewrite <- Hle; by eapply lookup_lt_Some). rewrite Hex in He by done.
    destruct (ha a c) as [| |id' f' p] eqn:Eh; [done|done|]. pose proof (iv_poll _ _ Hv _ _ _ _ Eh) as Hp. cbn in He. destruct p; simplify_eq/=. done.
  - by eapply runs_inv.
  - intros c id f now l s' Ht Hsp Hq Hnow Hti Hs' Hb Hn g. destruct (seq_refines _ _ _ _ Hr Hq) as [-> Hlt]. rewrite (proj2 (rf_ti _ _ Hr)) in Hti by done. injection Hti as Hti.
    assert (c < NCPU) as Hc.
    { destruct Ht as [Ht|(p & Hp)]; [|rewrite <- (proj1 (rf_ex _ _ Hr)); by eapply lookup_lt_Some]. unfold task_of in Ht.
      destruct (cpus (kern s) !! c) eqn:E; [|done]. rewrite <- (proj1 (proj2 (rf_kern _ _ Hr))). by eapply lookup_lt_Some. }
    destruct (task_due _ _ _ _ _ _ Hr Hv Ht Hsp Hnow Hti Hc) as (d & Hd & Hdue).
    destruct (due_run _ _ _ _ _ _ _ _ _ Hr Hi Hv Hdue Hs' Hb) as (a' & Hr' & _ & _ & [Hg|(d' & _ & Hle)]); [by eapply gone_task|lia].
Qed.

(** A schedule can be run. *)
Definition try_step (l : label) (s : Sys task) : option (Sys task) :=
  match l with
  | LExec c =>
      match ex s !! c, ti s !! c with
      | Some ph, Some TIdle =>
          if e_waits (ti s) ph then None else
          match exec_step sleep_poll c ph (kern s) with
          | (Ok ph', k') => Some (mkSys k' (<[c := ph']> (ex s)) (ti s) (threads s))
          | _ => None
          end
      | _, _ => None
      end
  | LTick c =>
      match ti s !! c with
      | Some t => match tick_step c t (kern s) with (Ok t', k') => Some (mkSys k' (ex s) (<[c := t']> (ti s)) (threads s)) | _ => None end
      | None => None
      end
  | LThread i =>
      match threads s !! i with
      | Some p => if waits (ti s) p then None else
          match prog_step p (kern s) with (Ok p', k') => Some (mkSys k' (ex s) (ti s) (<[i := p']> (threads s))) | _ => None end
      | None => None
      end
  | LCall => None
  end.
Definition try_steps (l : list label) (s : Sys task) : option (Sys task) := foldl (λ o x, o ≫= try_step x) (Some s) l.

Lemma try_step_ok l s s' : try_step l s = Some s' → step sleep_poll naps s l s'.
Proof. destruct s as [k e t th]. unfold try_step. cbn [ex ti kern threads]. intros H. repeat case_match; simplify_eq; by econstructor. Qed.

Lemma try_steps_ok s0 L s l s' : steps sleep_poll naps s0 L s → try_steps l s = Some s' → steps sleep_poll naps s0 (L ++ l) s'.
Proof.
  intros Hs. revert s'. induction l as [|x l IH] using rev_ind; intros s' Ht; [rewrite app_nil_r; by injection Ht as <-|].
  unfold try_steps in *. rewrite foldl_app in Ht. cbn in Ht. destruct (foldl _ (Some s) l) as [s1|]; [|done].
  rewrite app_assoc. eapply steps_snoc; [by apply IH|by apply try_step_ok].
Qed.

(** A task of CPU 0 that sleeps one tick, the tick, and its executor. *)
Lemma sleep_ticks_correct_witness : ∃ L s l s', steps sleep_poll naps sys_new L s ∧ has_task s 0 0 (mkSleep 0 1) ∧
  steps sleep_poll naps s l s' ∧ ∀ g, ¬ has_task s' 0 0 g.
Proof.
  set (s0 := mkSys (kern sys_new) (ex sys_new) (ti sys_new) [nap 0 0 1]).
  set (L1 := replicate 4 (LThread 0) ++ replicate 3 (LTick 0)). set (l := replicate (8 * (READYQ_SIZE + 1)) (LExec 0)).
  set (s := default sys_new (try_steps L1 s0)). set (s' := default sys_new (try_steps l s)).
  assert (steps sleep_poll naps sys_new ([LCall] ++ L1) s) as Hs.
  { apply (try_steps_ok _ _ s0); [|vm_compute; reflexivity]. apply (steps_snoc _ _ _ [] sys_new); [constructor|]. apply (s_call _ _ _ _ _ []). exists 0, 0, 1%Z. unfold NCPU. split_and!; (lia || done). }
  assert (steps sleep_poll naps s l s') as Hs' by (apply (try_steps_ok _ [] s l s'); [constructor|vm_compute; reflexivity]).
  assert (has_task s 0 0 (mkSleep 0 1)) as Ht by (left; by vm_compute).
  exists ([LCall] ++ L1), s, l, s'. split; [exact Hs|]. split; [exact Ht|]. split; [exact Hs'|].
  apply (proj2 (proj2 (sleep_ticks_correct _ _ Hs ltac:(by vm_compute))) 0 0%Z (mkSleep 0 1) 1%Z l s'); [exact Ht| |by vm_compute|by vm_compute|by vm_compute|exact Hs'|by vm_compute|].
  - intros i. assert (threads s = [Ret ()]) as E by (vm_compute; reflexivity). rewrite E. by destruct i as [|i].
  - vm_compute. reflexivity.
Defined.
