(* ===== verification/Socket.v ===== *)
(** * Unix sockets and socket addresses

    [kernel/src/socket.rs]: streams made of two channels, listeners, the
    registry of names, and the socket operations over them; the textual
    addresses of internet sockets.  An [Arc] is a number: a socket lives while
    it is in [u_socks], a name in the registry refers to it weakly, and
    dropping a stream gives up its two ends of the channels of Mpmc.v.

    A call on a blocking socket (the default) runs until it returns or sleeps:
    [Sleeps], or [IoSleep i] for a write that has sent [i] bytes.  A sleeping
    [read] or [accept] has changed nothing and is the same call again when it
    is woken, a sleeping [write] is the call for the rest of its bytes.

    [uspec] describes the calls without channels, semaphores, counts and
    registry: sockets with names, queues of connections, and bytes on their
    way. *)

From stdpp Require Import base tactics numbers gmap list.
From S2P Require Import Prelude Errors UserMem SemTable Mpmc Pipe.
Local Open Scope Z_scope.

Definition AF_UNIX : Z := 1.
Definition AF_INET : Z := 2.
Definition SOCK_STREAM : Z := 1.
Definition SOCK_DGRAM : Z := 2.
Definition STREAM_BUF : Z := 512.
Definition BACKLOG_MAX : Z := 16.

(** [validate]. *)
Definition validate (domain stype : Z) : Result () :=
  if domain =? AF_UNIX then if negb (stype =? SOCK_STREAM) then Err InvalidArgument else Ok ()
  else if domain =? AF_INET then if negb (stype =? SOCK_STREAM) && negb (stype =? SOCK_DGRAM) then Err InvalidArgument else Ok ()
  else Err InvalidArgument.

(** [struct UnixStream]: the channel it receives from and the one it sends
    to. *)
Record UnixStream := mkStream { s_rx : nat; s_tx : nat }.
Global Instance stream_eq_dec : EqDecision UnixStream.
Proof. solve_decision. Defined.

(** [enum SocketState], [struct UnixSocketInner]. *)
Inductive SocketState := Unbound | Listening (l : nat) | Connected (s : UnixStream).
Record UnixSocket := mkUSock { u_name : option (list Z); u_state : SocketState }.

(** The channels, listeners and sockets there are, and [UNIX_REGISTRY]. *)
Record UNet := mkUNet {
  u_chans : gmap nat (Chan Z);
  u_lists : gmap nat (Chan UnixStream);
  u_socks : gmap nat UnixSocket;
  UNIX_REGISTRY : gmap (list Z) nat;
  u_next : nat;
}.
Abbreviation UM := (M Error UNet).

Definition unet_new : UNet := mkUNet ∅ ∅ ∅ ∅ 0.
Definition set_chans (f : gmap nat (Chan Z) → gmap nat (Chan Z)) (n : UNet) : UNet :=
  mkUNet (f (u_chans n)) (u_lists n) (u_socks n) (UNIX_REGISTRY n) (u_next n).
Definition set_lists (f : gmap nat (Chan UnixStream) → gmap nat (Chan UnixStream)) (n : UNet) : UNet :=
  mkUNet (u_chans n) (f (u_lists n)) (u_socks n) (UNIX_REGISTRY n) (u_next n).
Definition set_socks (f : gmap nat UnixSocket → gmap nat UnixSocket) (n : UNet) : UNet :=
  mkUNet (u_chans n) (u_lists n) (f (u_socks n)) (UNIX_REGISTRY n) (u_next n).
Definition set_registry (f : gmap (list Z) nat → gmap (list Z) nat) (n : UNet) : UNet :=
  mkUNet (u_chans n) (u_lists n) (u_socks n) (f (UNIX_REGISTRY n)) (u_next n).

Definition u_modify (f : UNet → UNet) : UM () := λ n, (Ok (), f n).
Definition u_fresh : UM nat := λ n, (Ok (u_next n), mkUNet (u_chans n) (u_lists n) (u_socks n) (UNIX_REGISTRY n) (S (u_next n))).
Definition get_sock (id : nat) : UM UnixSocket := λ n, match u_socks n !! id with Some s => (Ok s, n) | None => (Panic, n) end.
Definition put_sock (id : nat) (s : UnixSocket) : UM () := u_modify (set_socks <[id := s]>).

(** Calls that may sleep. *)
Abbreviation BM A := (UNet → blocking Error A * UNet).
Definition b_bind {A B} (m : BM A) (f : A → BM B) : BM B := λ n,
  match m n with
  | (Returns (Ok x), n) => f x n
  | (Returns (Err e), n) => (Returns (Err e), n)
  | (Returns Panic, n) => (Returns Panic, n)
  | (Sleeps, n) => (Sleeps, n)
  end.
Definition b_lift {A} (m : UM A) : BM A := λ n, let '(r, n') := m n in (Returns r, n').

(** ** Streams *)

(** [UnixStream::pair]. *)
Definition stream_pair : UM (UnixStream * UnixStream) :=
  a ← u_fresh;
  _ ← u_modify (set_chans <[a := sync_channel STREAM_BUF]>);
  b ← u_fresh;
  _ ← u_modify (set_chans <[b := sync_channel STREAM_BUF]>);
  mret (mkStream a b, mkStream b a).

(** The destructors of its two ends. *)
Definition stream_drop (s : UnixStream) : UM () :=
  u_modify (set_chans (λ m, alter sender_drop (s_tx s) (alter receiver_drop (s_rx s) m))).

Section memory.
Context {Mem : Type} `{UserMem Mem}.
Implicit Types (mem : Mem) (c : Chan Z).

(** The second part of [UnixStream::read]: what has arrived already. *)
Fixpoint read_rest mem (dst : Z) (i todo : nat) c : Result nat * (Mem * Chan Z) :=
  match todo with
  | O => (Ok i, (mem, c))
  | S todo =>
      match try_recv c with
      | (Ok ch, c') =>
          match copyout mem dst [ch] with
          | (Ok (), mem') => read_rest mem' (dst + 1) (i + 1) todo c'
          | (Err e, mem') => (Err e, (mem', c'))
          | (Panic, mem') => (Panic, (mem', c'))
          end
      | (_, c') => (Ok i, (mem, c'))
      end
  end.

(** [UnixStream::read]: the first byte may be waited for. *)
Definition stream_read mem (dst : Z) (n : nat) c : blocking Error nat * (Mem * Chan Z) :=
  match n with
  | O => (Returns (Ok O), (mem, c))
  | S n =>
      match recv c with
      | (Sleeps, c') => (Sleeps, (mem, c'))
      | (Returns (Ok ch), c') =>
          match copyout mem dst [ch] with
          | (Ok (), mem') => let '(r, st) := read_rest mem' (dst + 1) 1 n c' in (Returns r, st)
          | (Err e, mem') => (Returns (Err e), (mem', c'))
          | (Panic, mem') => (Returns Panic, (mem', c'))
          end
      | (Returns _, c') => (Returns (Ok O), (mem, c'))
      end
  end.

(** [UnixStream::read_nonblock], [write] and [write_nonblock] are the loops of
    the pipe. *)
Definition stream_read_nonblock mem (dst : Z) (n : nat) c : Result nat * (Mem * Chan Z) := read_nonblock_loop mem dst 0 n c.
Definition stream_write (killed : bool) mem (src : Z) (n : nat) c : io_res * Chan Z := write_loop killed mem src 0 n c.
Definition stream_write_nonblock mem (src : Z) (n : nat) c : Result nat * Chan Z := write_nonblock_loop mem src 0 n c.
End memory.

Definition stream_poll_readable (rx : Chan Z) : bool := has_data rx || receiver_is_closed rx.
Definition stream_poll_writable (tx : Chan Z) : Result bool := if sender_is_closed tx then Ok false else can_send tx.

(** ** Listeners *)
Definition listener_new (backlog : Z) : Chan UnixStream := sync_channel (Z.min (Z.max backlog 1) BACKLOG_MAX).

Definition get_list (l : nat) : UM (Chan UnixStream) := λ n, match u_lists n !! l with Some c => (Ok c, n) | None => (Panic, n) end.
Definition put_list (l : nat) (c : Chan UnixStream) : UM () := u_modify (set_lists <[l := c]>).

(** [UnixListener::enqueue] and [accept]; a stream that cannot be sent is
    dropped, one that is waiting to be sent is not. *)
Definition enqueue (nonblock killed : bool) (l : nat) (s : UnixStream) : BM () :=
  b_bind (b_lift (get_list l)) (λ c n,
    let '(r, c') := if nonblock then let '(r, c') := try_send s c in (Returns r, c') else send killed s c in
    match r with
    | Returns (Ok ()) => (Returns (Ok ()), set_lists <[l := c']> n)
    | Returns (Err e) => b_lift (_ ← stream_drop s; m_err e) (set_lists <[l := c']> n)
    | Returns Panic => (Returns Panic, set_lists <[l := c']> n)
    | Sleeps => (Sleeps, set_lists <[l := c']> n)
    end).
Definition list_accept (nonblock : bool) (l : nat) : BM UnixStream :=
  b_bind (b_lift (get_list l)) (λ c n,
    let '(r, c') := if nonblock then let '(r, c') := try_recv c in (Returns r, c') else recv c in
    (r, set_lists <[l := c']> n)).

(** ** Sockets *)
Definition unix_new : UM nat := id ← u_fresh; _ ← put_sock id (mkUSock None Unbound); mret id.
Definition from_stream (s : UnixStream) : UM nat := id ← u_fresh; _ ← put_sock id (mkUSock None (Connected s)); mret id.

(** [Weak::upgrade] of what the registry has for a name. *)
Definition upgrade (path : list Z) (n : UNet) : option (nat * UnixSocket) :=
  id ← UNIX_REGISTRY n !! path; s ← u_socks n !! id; mret (id, s).

Definition unix_bind (id : nat) (path : list Z) : UM () :=
  if bool_decide (path = []) then m_err InvalidArgument else
  s ← get_sock id;
  if bool_decide (is_Some (u_name s)) then m_err InvalidArgument else
  match u_state s with
  | Unbound =>
      n ← m_get;
      match upgrade path n with
      | Some _ => m_err AlreadyExists
      | None =>
          _ ← u_modify (set_registry <[path := id]>);
          put_sock id (mkUSock (Some path) Unbound)
      end
  | _ => m_err InvalidArgument
  end.

Definition unix_listen (id : nat) (backlog : Z) : UM () :=
  s ← get_sock id;
  if bool_decide (u_name s = None) then m_err InvalidArgument else
  match u_state s with
  | Unbound =>
      if backlog =? 0 then m_err InvalidArgument else
      l ← u_fresh;
      _ ← put_list l (listener_new backlog);
      put_sock id (mkUSock (u_name s) (Listening l))
  | _ => m_err InvalidArgument
  end.

(** [UnixSocket::accept], and the socket [File::accept] makes of its result. *)
Definition unix_accept (nonblock : bool) (id : nat) : BM UnixStream :=
  b_bind (b_lift (get_sock id)) (λ s,
    match u_state s with Listening l => list_accept nonblock l | _ => b_lift (m_err InvalidArgument) end).
Definition accept_socket (nonblock : bool) (id : nat) : BM nat :=
  b_bind (unix_accept nonblock id) (λ s, b_lift (from_stream s)).

(** [lookup_listener]: a name whose socket is gone is removed. *)
Definition lookup_listener (path : list Z) : UM nat :=
  n ← m_get;
  match UNIX_REGISTRY n !! path with
  | None => m_err NotFound
  | Some _ =>
      match upgrade path n with
      | None => _ ← u_modify (set_registry (delete path)); m_err NotFound
      | Some (_, s) => match u_state s with Listening l => mret l | _ => m_err NotConnected end
      end
  end.

(** [connect] up to the point where its two streams are made, and from there:
    a caller that fails drops its end. *)
Definition connect_begin (id : nat) (path : list Z) : UM (nat * (UnixStream * UnixStream)) :=
  if bool_decide (path = []) then m_err InvalidArgument else
  s ← get_sock id;
  match u_state s with
  | Unbound =>
      l ← lookup_listener path;
      p ← stream_pair;
      mret (l, p)
  | _ => m_err InvalidArgument
  end.
Definition connect_streams (nonblock killed : bool) (id l : nat) (client server : UnixStream) : BM () := λ n,
  match enqueue nonblock killed l server n with
  | (Returns (Ok ()), n) => b_lift (s ← get_sock id; put_sock id (mkUSock (u_name s) (Connected client))) n
  | (Returns (Err e), n) => b_lift (_ ← stream_drop client; m_err e) n
  | (Returns Panic, n) => (Returns Panic, n)
  | (Sleeps, n) => (Sleeps, n)
  end.
Definition unix_connect (nonblock killed : bool) (id : nat) (path : list Z) : BM () :=
  b_bind (b_lift (connect_begin id path)) (λ '(l, (client, server)), connect_streams nonblock killed id l client server).

(** The stream of a connected socket, for reading and writing. *)
Definition get_stream (id : nat) : UM UnixStream :=
  s ← get_sock id;
  match u_state s with Connected st => mret st | Listening _ => m_err InvalidArgument | Unbound => m_err NotConnected end.
Definition get_chan (i : nat) : UM (Chan Z) := λ n, match u_chans n !! i with Some c => (Ok c, n) | None => (Panic, n) end.

Section rw.
Context {Mem : Type} `{UserMem Mem}.

(** [UnixSocket::read] and [write]. *)
Definition unix_read (nonblock : bool) (id : nat) (mem : Mem) (dst : Z) (n : nat) (u : UNet) : blocking Error nat * (Mem * UNet) :=
  match (s ← get_stream id; c ← get_chan (s_rx s); mret (s, c)) u with
  | (Ok (s, c), u) =>
      let '(r, (mem', c')) :=
        if nonblock then let '(r, st) := stream_read_nonblock mem dst n c in (Returns r, st)
        else stream_read mem dst n c in
      (r, (mem', set_chans <[s_rx s := c']> u))
  | (Err e, u) => (Returns (Err e), (mem, u))
  | (Panic, u) => (Returns Panic, (mem, u))
  end.
Definition unix_write (nonblock killed : bool) (id : nat) (mem : Mem) (src : Z) (n : nat) (u : UNet) : io_res * UNet :=
  match (s ← get_stream id; c ← get_chan (s_tx s); mret (s, c)) u with
  | (Ok (s, c), u) =>
      let '(r, c') :=
        if nonblock then let '(r, c') := stream_write_nonblock mem src n c in (IoDone r, c')
        else stream_write killed mem src n c in
      (r, set_chans <[s_tx s := c']> u)
  | (Err e, u) => (IoDone (Err e), u)
  | (Panic, u) => (IoDone Panic, u)
  end.
End rw.

(** [UnixSocket::poll]. *)
Definition POLL_IN : Z := 1.
Definition POLL_OUT : Z := 2.
Definition POLL_HUP : Z := 8.
Definition flag_if (b : bool) (f : Z) (v : Z) : Z := if b then Z.lor v f else v.
Definition unix_poll (id : nat) (events : Z) (readable writable : bool) : UM Z :=
  s ← get_sock id;
  match u_state s with
  | Connected st =>
      rx ← get_chan (s_rx st);
      tx ← get_chan (s_tx st);
      mret (flag_if (writable && sender_is_closed tx) POLL_HUP
           (flag_if (readable && receiver_is_closed rx) POLL_HUP
           (flag_if (writable && negb (Z.land events POLL_OUT =? 0) && match stream_poll_writable tx with Ok b => b | _ => false end) POLL_OUT
           (flag_if (readable && negb (Z.land events POLL_IN =? 0) && stream_poll_readable rx) POLL_IN 0))))
  | Listening l =>
      c ← get_list l;
      mret (flag_if (readable && negb (Z.land events POLL_IN =? 0) && has_data c) POLL_IN 0)
  | Unbound => mret 0
  end.

(** The last reference to a socket is dropped: no weak reference can be
    upgraded any more; then [Drop for UnixSocket] and the drop of its state. *)
Definition drop_begin (id : nat) : UM UnixSocket :=
  s ← get_sock id;
  _ ← u_modify (set_socks (delete id));
  mret s.
Definition drop_name (s : UnixSocket) : UM () :=
  match u_name s with Some path => u_modify (set_registry (delete path)) | None => mret () end.
Definition drop_state (s : UnixSocket) : UM () :=
  match u_state s with
  | Unbound => mret ()
  | Connected st => stream_drop st
  | Listening l => c ← get_list l; _ ← u_modify (set_lists (delete l)); m_for (ch_buf c) stream_drop
  end.
Definition unix_drop (id : nat) : UM () :=
  s ← drop_begin id;
  _ ← drop_name s;
  drop_state s.

(** ** The specification *)

(** A socket has a name and waits, listens with a queue of connections, or is
    one end of a connection. *)
Inductive akind := AU | AL (q : list UnixStream) (cap : nat) | AC (s : UnixStream).
Record asock := mkASock { a_name : option (list Z); a_kind : akind }.
Record anet := mkANet { a_socks : gmap nat asock; a_bytes : gmap nat (list Z); a_next : nat }.
Definition anet_new : anet := mkANet ∅ ∅ 0.

Definition ends (k : akind) : list UnixStream := match k with AU => [] | AL q _ => q | AC s => [s] end.
Definition held (a : anet) : list UnixStream := mjoin ((λ p, ends (a_kind p.2)) <$> map_to_list (a_socks a)).
(** Somebody holds the end that reads from [i], or the one that writes to it. *)
Definition has_reader (a : anet) (i : nat) : bool := bool_decide (Exists (λ s, s_rx s = i) (held a)).
Definition has_writer (a : anet) (i : nat) : bool := bool_decide (Exists (λ s, s_tx s = i) (held a)).
Definition in_flight (a : anet) (i : nat) : list Z := default [] (a_bytes a !! i).
Definition socket_named (a : anet) (path : list Z) : option (nat * asock) :=
  head (filter (λ p, a_name p.2 = Some path) (map_to_list (a_socks a))).

Definition set_asock (id : nat) (t : asock) (a : anet) : anet := mkANet (<[id := t]> (a_socks a)) (a_bytes a) (a_next a).
Definition skip_ids (k : nat) (a : anet) : anet := mkANet (a_socks a) (a_bytes a) (k + a_next a).

Inductive uop :=
| UNew | UBind (id : nat) (path : list Z) | UListen (id : nat) (backlog : Z)
| UConnect (nonblock killed : bool) (id : nat) (path : list Z) | UAccept (nonblock : bool) (id : nat) | UClose (id : nat).
Definition b_zero {A} (m : BM A) : BM nat := b_bind m (λ _ n, (Returns (Ok 0%nat), n)).
Definition urun (op : uop) : BM nat :=
  match op with
  | UNew => b_lift unix_new
  | UBind id path => b_zero (b_lift (unix_bind id path))
  | UListen id backlog => b_zero (b_lift (unix_listen id backlog))
  | UConnect nonblock killed id path => b_zero (unix_connect nonblock killed id path)
  | UAccept nonblock id => accept_socket nonblock id
  | UClose id => b_zero (b_lift (unix_drop id))
  end.
Definition op_socket (op : uop) : option nat :=
  match op with UNew => None | UBind id _ | UListen id _ | UConnect _ _ id _ | UAccept _ id | UClose id => Some id end.

(** What a call that has to wait does. *)
Definition must_wait {A} (nonblock : bool) : blocking Error A := if nonblock then Returns (Err WouldBlock) else Sleeps.

Definition spec_connect (a : anet) (nonblock killed : bool) (id : nat) (t : asock) (path : list Z) : blocking Error nat * anet :=
  match a_kind t with
  | AU =>
      match socket_named a path with
      | None => (Returns (Err NotFound), a)
      | Some (id', t') =>
          match a_kind t' with
          | AL q cap =>
              let c := a_next a in
              if negb nonblock && killed then (Returns (Err Interrupted), skip_ids 2 a)
              else if (length q <? cap)%nat then
                (Returns (Ok 0%nat), set_asock id (mkASock (a_name t) (AC (mkStream c (S c))))
                        (set_asock id' (mkASock (a_name t') (AL (q ++ [mkStream (S c) c]) cap)) (skip_ids 2 a)))
              else (must_wait nonblock, skip_ids 2 a)
          | _ => (Returns (Err NotConnected), a)
          end
      end
  | _ => (Returns (Err InvalidArgument), a)
  end.
Definition uspec (a : anet) (op : uop) : blocking Error nat * anet :=
  match op with
  | UNew => (Returns (Ok (a_next a)), set_asock (a_next a) (mkASock None AU) (skip_ids 1 a))
  | UBind id path =>
      match a_socks a !! id, path with
      | Some (mkASock None AU), _ :: _ =>
          match socket_named a path with
          | Some _ => (Returns (Err AlreadyExists), a)
          | None => (Returns (Ok 0%nat), set_asock id (mkASock (Some path) AU) a)
          end
      | _, _ => (Returns (Err InvalidArgument), a)
      end
  | UListen id backlog =>
      match a_socks a !! id with
      | Some (mkASock (Some path) AU) =>
          if backlog =? 0 then (Returns (Err InvalidArgument), a)
          else (Returns (Ok 0%nat), set_asock id (mkASock (Some path) (AL [] (Z.to_nat (Z.min (Z.max backlog 1) BACKLOG_MAX)))) (skip_ids 1 a))
      | _ => (Returns (Err InvalidArgument), a)
      end
  | UConnect nonblock killed id path =>
      match a_socks a !! id, path with
      | Some t, _ :: _ => spec_connect a nonblock killed id t path
      | _, _ => (Returns (Err InvalidArgument), a)
      end
  | UAccept nonblock id =>
      match a_socks a !! id with
      | Some (mkASock name (AL (s :: q) cap)) =>
          (Returns (Ok (a_next a)), set_asock (a_next a) (mkASock None (AC s)) (set_asock id (mkASock name (AL q cap)) (skip_ids 1 a)))
      | Some (mkASock name (AL [] cap)) => (must_wait nonblock, a)
      | _ => (Returns (Err InvalidArgument), a)
      end
  | UClose id => (Returns (Ok 0%nat), mkANet (delete id (a_socks a)) (a_bytes a) (a_next a))
  end.

(** The end of the connection a socket is. *)
Definition aend (a : anet) (id : nat) : Result UnixStream :=
  match a_kind <$> a_socks a !! id with Some (AC s) => Ok s | Some (AL _ _) => Err InvalidArgument | Some AU => Err NotConnected | None => Panic end.
(** A write takes what fits; what does not fit a non-blocking call drops, while
    a blocking one sleeps until it can go on with it. *)
Definition spec_write (a : anet) (nonblock killed : bool) (id : nat) (bs : list Z) : io_res * anet :=
  match aend a id with
  | Ok s =>
      let q := in_flight a (s_tx s) in
      let room := (Z.to_nat STREAM_BUF - length q)%nat in
      if negb (has_reader a (s_tx s)) || negb nonblock && killed then (IoDone (Ok 0%nat), a)
      else
        let a' := mkANet (a_socks a) (<[s_tx s := q ++ take room bs]> (a_bytes a)) (a_next a) in
        if (length bs <=? room)%nat then (IoDone (Ok (length bs)), a')
        else if negb nonblock then (IoSleep room, a')
        else if (room =? 0)%nat then (IoDone (Err WouldBlock), a)
        else (IoDone (Ok room), a')
  | Err e => (IoDone (Err e), a)
  | Panic => (IoDone Panic, a)
  end.
Definition spec_read (a : anet) (nonblock : bool) (id n : nat) : blocking Error (list Z) * anet :=
  match aend a id with
  | Ok s =>
      let q := in_flight a (s_rx s) in
      if ((0 <? n)%nat && (length q =? 0)%nat && has_writer a (s_rx s))%bool then (must_wait nonblock, a)
      else (Returns (Ok (take n q)), mkANet (a_socks a) (<[s_rx s := drop n q]> (a_bytes a)) (a_next a))
  | Err e => (Returns (Err e), a)
  | Panic => (Returns Panic, a)
  end.
(** How many bytes a read got. *)
Definition b_length (r : blocking Error (list Z)) : blocking Error nat :=
  match r with Returns (Ok bs) => Returns (Ok (length bs)) | Returns (Err e) => Returns (Err e) | Returns Panic => Returns Panic | Sleeps => Sleeps end.

(** ** Addresses: [parse_socket_addr] *)

(** [str::split] at a byte. *)
Fixpoint split_at (sep : Z) (cur s : list Z) : list (list Z) :=
  match s with
  | [] => [cur]
  | b :: s => if b =? sep then cur :: split_at sep [] s else split_at sep (cur ++ [b]) s
  end.
Definition split (sep : Z) (s : list Z) : list (list Z) := split_at sep [] s.

(** [u8::from_str] and [u16::from_str]: an optional [+] and decimal digits,
    none of the partial values above [max]. *)
Fixpoint parse_digits (max acc : Z) (s : list Z) : option Z :=
  match s with
  | [] => Some acc
  | b :: s =>
      if (48 <=? b) && (b <=? 57) then
        let v := acc * 10 + (b - 48) in if v >? max then None else parse_digits max v s
      else None
  end.
Definition parse_uint (max : Z) (s : list Z) : option Z :=
  match s with
  | [] => None
  | b :: t => if b =? 43 then match t with [] => None | _ => parse_digits max 0 t end else parse_digits max 0 s
  end.

Fixpoint parse_octets (parts : list (list Z)) (idx : nat) (octets : list Z) : Result (nat * list Z) :=
  match parts with
  | [] => Ok (idx, octets)
  | part :: parts =>
      if (4 <=? idx)%nat then Err InvalidArgument else
      match parse_uint 255 part with
      | None => Err InvalidArgument
      | Some v => parse_octets parts (S idx) (<[idx := v]> octets)
      end
  end.
Definition parse_ipv4_str (s : list Z) : Result (list Z) :=
  r ← parse_octets (split 46 s) 0 [0; 0; 0; 0];
  if negb (r.1 =? 4)%nat then Err InvalidArgument else Ok r.2.

Definition parse_socket_addr (path : list Z) : Result (list Z * Z) :=
  match split 58 path with
  | [ip_str; port_str] =>
      match parse_uint 65535 port_str with
      | None => Err InvalidArgument
      | Some port =>
          ip ← (if bool_decide (ip_str = []) then Ok [0; 0; 0; 0] else parse_ipv4_str ip_str);
          Ok (ip, port)
      end
  | _ => Err InvalidArgument
  end.

(** Addresses in decimal: [1.2.3.4:80]. *)
Fixpoint decimal (fuel : nat) (n : Z) : list Z :=
  match fuel with
  | O => []
  | S fuel => (if n <? 10 then [] else decimal fuel (n / 10)) ++ [48 + n mod 10]
  end.
Definition print_addr (ip : Z * Z * Z * Z) (port : Z) : list Z :=
  let '(a, b, c, d) := ip in
  decimal 3 a ++ 46 :: decimal 3 b ++ 46 :: decimal 3 c ++ 46 :: decimal 3 d ++ 58 :: decimal 5 port.

Lemma parse_digits_snoc max acc s x : 48 ≤ x ≤ 57 →
  parse_digits max acc (s ++ [x]) = (v ← parse_digits max acc s; if v * 10 + (x - 48) >? max then None else Some (v * 10 + (x - 48))).
Proof.
  intros Hx. revert acc. induction s as [|b s IH]; intros acc; cbn.
  - by rewrite (proj2 (Z.leb_le 48 x)), (proj2 (Z.leb_le x 57)) by lia.
  - destruct ((48 <=? b) && (b <=? 57)); [|done]. destruct (_ >? max); [done|]. apply IH.
Qed.
Lemma decimal_digits fuel n : 0 ≤ n → Forall (λ b, 48 ≤ b ≤ 57) (decimal fuel n).
Proof.
  revert n. induction fuel as [|fuel IH]; intros n Hn; cbn; [done|]. apply Forall_app. split; [|apply Forall_singleton; Z.to_euclidean_division_equations; lia].
  destruct (n <? 10); [done|]. apply IH. Z.to_euclidean_division_equations; lia.
Qed.
Lemma parse_decimal max fuel n : 0 ≤ n ≤ max → n < 10 ^ Z.of_nat fuel → parse_digits max 0 (decimal fuel n) = Some n.
Proof.
  revert n. induction fuel as [|fuel IH]; intros n Hn Hlt; [cbn in *; f_equal; lia|].
  rewrite Nat2Z.inj_succ, Z.pow_succ_r in Hlt by lia. cbn [decimal]. rewrite parse_digits_snoc by (Z.to_euclidean_division_equations; lia).
  assert (parse_digits max 0 (if n <? 10 then [] else decimal fuel (n / 10)) = Some (n / 10)) as ->.
  { destruct (Z.ltb_spec n 10); [by rewrite Z.div_small by lia|]. apply IH; Z.to_euclidean_division_equations; lia. }
  cbn. rewrite Z.gtb_ltb. replace (n / 10 * 10 + (48 + n mod 10 - 48)) with n by (Z.to_euclidean_division_equations; lia).
  by rewrite (proj2 (Z.ltb_ge _ _)) by lia.
Qed.
Lemma uint_decimal max fuel n : (0 < fuel)%nat → 0 ≤ n ≤ max → n < 10 ^ Z.of_nat fuel → parse_uint max (decimal fuel n) = Some n.
Proof.
  intros Hf Hn Hlt. pose proof (decimal_digits fuel n (proj1 Hn)) as Hd.
  transitivity (parse_digits max 0 (decimal fuel n)); [|by apply parse_decimal].
  destruct fuel as [|fuel]; [lia|]. destruct (decimal (S fuel) n) as [|b s] eqn:E; [by apply app_nil in E as [_ E]|].
  apply Forall_cons in Hd as [Hb _]. unfold parse_uint. by rewrite (proj2 (Z.eqb_neq b 43)) by lia.
Qed.

Lemma split_at_word sep cur s : sep ∉ s → split_at sep cur s = [cur ++ s].
Proof.
  revert cur. induction s as [|b s IH]; intros cur Hs; cbn; [by rewrite app_nil_r|]. apply not_elem_of_cons in Hs as [Hb Hs].
  rewrite (proj2 (Z.eqb_neq _ _)) by done. by rewrite IH, <- app_assoc.
Qed.
Lemma split_at_sep sep cur s rest : sep ∉ s → split_at sep cur (s ++ sep :: rest) = (cur ++ s) :: split_at sep [] rest.
Proof.
  revert cur. induction s as [|b s IH]; intros cur Hs; cbn; [by rewrite Z.eqb_refl, app_nil_r|]. apply not_elem_of_cons in Hs as [Hb Hs].
  rewrite (proj2 (Z.eqb_neq b _)) by done. by rewrite IH, <- app_assoc.
Qed.

Lemma not_digit sep s : Forall (λ b, 48 ≤ b ≤ 57) s → sep < 48 ∨ 57 < sep → sep ∉ s.
Proof. intros Hs Hsep Hin. rewrite Forall_forall in Hs. specialize (Hs _ Hin). lia. Qed.

(** [bind] and [connect] read every address as it is written. *)
Lemma addr_roundtrip a b c d port : 0 ≤ a ≤ 255 → 0 ≤ b ≤ 255 → 0 ≤ c ≤ 255 → 0 ≤ d ≤ 255 → 0 ≤ port ≤ 65535 →
  parse_socket_addr (print_addr (a, b, c, d) port) = Ok ([a; b; c; d], port).
Proof.
  intros Ha Hb Hc Hd Hp.
  pose proof decimal_digits as Hdig.
  set (ip := decimal 3 a ++ 46 :: decimal 3 b ++ 46 :: decimal 3 c ++ 46 :: decimal 3 d).
  assert (print_addr (a, b, c, d) port = ip ++ 58 :: decimal 5 port) as -> by (subst ip; cbn [print_addr]; by repeat (rewrite <- ?app_assoc; cbn [app])).
  assert (58 ∉ ip) as Hip by (subst ip; repeat (rewrite ?not_elem_of_app, ?not_elem_of_cons; split_and!); try done; (apply not_digit; [apply Hdig; lia|lia])).
  unfold parse_socket_addr, split. rewrite split_at_sep, split_at_word by (done || (apply not_digit; [apply Hdig; lia|lia])). cbn [app]. rewrite uint_decimal by lia.
  rewrite bool_decide_false by (subst ip; by destruct (decimal 3 a)).
  unfold parse_ipv4_str, split. subst ip. rewrite !split_at_sep, split_at_word by (apply not_digit; [apply Hdig; lia|lia]).
  cbn [app parse_octets Nat.leb]. by rewrite !uint_decimal by lia.
Qed.
