(* ===== verification/SocketSpec.v ===== *)
(** * Unix sockets refine their specification

    [unix_ok] relates the channels, listeners and registry of Socket.v to the
    sockets, queues and bytes of its specification.  Every call returns what
    the specification says and keeps the relation; ends of connections come in
    pairs and are never shared. *)

From stdpp Require Import base tactics numbers gmap list.
From S2P Require Import Prelude Errors UserMem SemTable Mpmc Pipe Socket.
Local Open Scope nat_scope.

(** A socket of the specification has an end. *)
Definition holds (a : anet) (s : UnixStream) : Prop := ∃ id t, a_socks a !! id = Some t ∧ s ∈ ends (a_kind t).

Lemma elem_held a s : s ∈ held a ↔ holds a s.
Proof.
  unfold held, holds. rewrite list_elem_of_join. setoid_rewrite list_elem_of_fmap. split.
  - intros (l & Hs & [id t] & -> & Hl). apply elem_of_map_to_list in Hl. eauto.
  - intros (id & t & Ht & Hs). exists (ends (a_kind t)). split; [done|]. exists (id, t). split; [done|]. by apply elem_of_map_to_list.
Qed.

Lemma reader_spec a i : has_reader a i = true ↔ ∃ s, holds a s ∧ s_rx s = i.
Proof. unfold has_reader. rewrite bool_decide_eq_true, Exists_exists. by setoid_rewrite elem_held. Qed.
Lemma writer_spec a i : has_writer a i = true ↔ ∃ s, holds a s ∧ s_tx s = i.
Proof. unfold has_writer. rewrite bool_decide_eq_true, Exists_exists. by setoid_rewrite elem_held. Qed.

(** Channel [c] carries what the specification has on the way to [i]. *)
Record chan_is (a : anet) (i : nat) (c : Chan Z) : Prop := {
  cs_rcnt : ch_rcnt c = if has_reader a i then 1%Z else 0%Z;
  cs_scnt : ch_scnt c = if has_writer a i then 1%Z else 0%Z;
  cs_open : has_reader a i = true → chan_ok STREAM_BUF c ∧ ch_buf c = in_flight a i;
  cs_closed : has_reader a i = false → sem_closed (ch_sem c) = true }.
Record list_is (q : list UnixStream) (cap : nat) (c : Chan UnixStream) : Prop := {
  li_buf : ch_buf c = q;
  li_ok : chan_ok (Z.of_nat cap) c;
  li_scnt : ch_scnt c = 1%Z;
  li_rcnt : ch_rcnt c = 1%Z }.
Definition state_is (n : UNet) (st : SocketState) (k : akind) : Prop :=
  match st, k with
  | Unbound, AU => True
  | Connected s, AC s' => s = s'
  | Listening l, AL q cap => l < u_next n ∧ ∃ c, u_lists n !! l = Some c ∧ list_is q cap c
  | _, _ => False
  end.

Record unix_ok (n : UNet) (a : anet) : Prop := {
  uo_next : u_next n = a_next a;
  uo_some id t : a_socks a !! id = Some t → id < a_next a ∧ ∃ s, u_socks n !! id = Some s ∧ u_name s = a_name t ∧ state_is n (u_state s) (a_kind t);
  uo_none id : a_socks a !! id = None → u_socks n !! id = None;
  uo_lists id id' s s' l : u_socks n !! id = Some s → u_socks n !! id' = Some s' → u_state s = Listening l → u_state s' = Listening l → id = id';
  uo_names path id : UNIX_REGISTRY n !! path = Some id ↔ ∃ t, a_socks a !! id = Some t ∧ a_name t = Some path;
  uo_rx i : has_reader a i = true → ∃ c, u_chans n !! i = Some c ∧ chan_is a i c;
  uo_tx i : has_writer a i = true → ∃ c, u_chans n !! i = Some c ∧ chan_is a i c;
  uo_bytes i : a_next a ≤ i → a_bytes a !! i = None;
  uo_lt s : holds a s → s_rx s < a_next a ∧ s_tx s < a_next a ∧ s_rx s ≠ s_tx s;
  uo_own id t : a_socks a !! id = Some t → NoDup (s_rx <$> ends (a_kind t)) ∧ NoDup (s_tx <$> ends (a_kind t));
  uo_disj id id' t t' s s' : id ≠ id' → a_socks a !! id = Some t → a_socks a !! id' = Some t' → s ∈ ends (a_kind t) → s' ∈ ends (a_kind t') → s_rx s ≠ s_rx s' ∧ s_tx s ≠ s_tx s';
  uo_pair s s' : holds a s → holds a s' → s_rx s = s_tx s' → s_tx s = s_rx s' }.

Lemma unix_ok_new : unix_ok unet_new anet_new.
Proof.
  assert (∀ s, ¬ holds anet_new s) as Hn by (by intros s (id & t & Ht & _)).
  assert (∀ i, has_reader anet_new i = false ∧ has_writer anet_new i = false) as Hrw by done.
  split; cbn [a_socks a_bytes a_next u_socks u_chans UNIX_REGISTRY u_next anet_new unet_new]; try done.
  - intros path id. by split; [|intros (t & ? & _)].
  - intros s Hs. by apply Hn in Hs.
  - intros s s' Hs. by apply Hn in Hs.
Qed.

(** ** Names *)
Lemma named_spec n a path : unix_ok n a →
  match socket_named a path with
  | Some (id, t) => a_socks a !! id = Some t ∧ a_name t = Some path ∧ UNIX_REGISTRY n !! path = Some id
  | None => UNIX_REGISTRY n !! path = None
  end.
Proof.
  intros Hok. unfold socket_named. destruct (filter _ _) as [|[id t] l] eqn:E; cbn.
  - apply eq_None_not_Some. intros [id Hid]. apply (uo_names _ _ Hok) in Hid as (t & Ht & Hn).
    assert ((id, t) ∈ filter (λ p, a_name p.2 = Some path) (map_to_list (a_socks a))) as Hin by (apply list_elem_of_filter; split; [done|by apply elem_of_map_to_list]).
    rewrite E in Hin. by apply not_elem_of_nil in Hin.
  - assert ((id, t) ∈ filter (λ p, a_name p.2 = Some path) (map_to_list (a_socks a))) as [Hn Hin]%list_elem_of_filter by (rewrite E; set_solver).
    apply elem_of_map_to_list in Hin. split_and!; [done|done|]. apply (uo_names _ _ Hok). eauto.
Qed.

Lemma upgrade_spec n a path : unix_ok n a →
  match socket_named a path with
  | Some (id, t) => ∃ s, upgrade path n = Some (id, s) ∧ u_socks n !! id = Some s ∧ u_name s = a_name t ∧ state_is n (u_state s) (a_kind t)
  | None => upgrade path n = None
  end.
Proof.
  intros Hok. pose proof (named_spec n a path Hok) as Hn. destruct (socket_named a path) as [[id t]|]; unfold upgrade.
  - destruct Hn as (Ht & Hp & Hr). destruct (uo_some _ _ Hok _ _ Ht) as (_ & s & Hs & Hn' & Hst). exists s. rewrite Hr. cbn. by rewrite Hs.
  - by rewrite Hn.
Qed.

(** ** Ends do not change *)
Lemma holds_same a a' : (∀ s, holds a' s ↔ holds a s) → ∀ i, has_reader a' i = has_reader a i ∧ has_writer a' i = has_writer a i.
Proof.
  intros Hh i. split; apply eq_iff_eq_true; rewrite ?reader_spec, ?writer_spec; by setoid_rewrite Hh.
Qed.

Lemma chan_is_same a a' i c : has_reader a' i = has_reader a i → has_writer a' i = has_writer a i → in_flight a' i = in_flight a i → chan_is a i c → chan_is a' i c.
Proof. intros Hr Hw Hf [H1 H2 H3 H4]. split; rewrite ?Hr, ?Hw, ?Hf; done. Qed.

Lemma holds_set a id t s : holds (set_asock id t a) s ↔ s ∈ ends (a_kind t) ∨ ∃ id' t', id' ≠ id ∧ a_socks a !! id' = Some t' ∧ s ∈ ends (a_kind t').
Proof.
  unfold holds. cbn [a_socks set_asock]. split.
  - intros (id' & t' & [[<- <-]|[Hne Ht]]%lookup_insert_Some & Hs); [by left|right; eauto].
  - intros [Hs|(id' & t' & Hne & Ht & Hs)]; [exists id, t; by rewrite lookup_insert_eq|]. exists id', t'. by rewrite lookup_insert_ne.
Qed.

Lemma holds_at a id t s : a_socks a !! id = Some t → holds a s ↔ s ∈ ends (a_kind t) ∨ ∃ id' t', id' ≠ id ∧ a_socks a !! id' = Some t' ∧ s ∈ ends (a_kind t').
Proof.
  intros Ht. rewrite <- (holds_set a id t s). unfold holds, set_asock. cbn [a_socks]. by rewrite insert_id.
Qed.

(** A call that leaves every end where it is. *)
Lemma ok_frame n a n' a' : unix_ok n a → u_next n' = a_next a' → a_next a ≤ a_next a' →
  (∀ s, holds a' s ↔ holds a s) → (∀ i, i < a_next a → u_chans n' !! i = u_chans n !! i) → a_bytes a' = a_bytes a →
  (∀ id t, a_socks a' !! id = Some t → id < a_next a' ∧ ∃ s, u_socks n' !! id = Some s ∧ u_name s = a_name t ∧ state_is n' (u_state s) (a_kind t)) →
  (∀ id, a_socks a' !! id = None → u_socks n' !! id = None) →
  (∀ id id' s s' l, u_socks n' !! id = Some s → u_socks n' !! id' = Some s' → u_state s = Listening l → u_state s' = Listening l → id = id') →
  (∀ path id, UNIX_REGISTRY n' !! path = Some id ↔ ∃ t, a_socks a' !! id = Some t ∧ a_name t = Some path) →
  (∀ id t, a_socks a' !! id = Some t → NoDup (s_rx <$> ends (a_kind t)) ∧ NoDup (s_tx <$> ends (a_kind t))) →
  (∀ id id' t t' s s', id ≠ id' → a_socks a' !! id = Some t → a_socks a' !! id' = Some t' → s ∈ ends (a_kind t) → s' ∈ ends (a_kind t') → s_rx s ≠ s_rx s' ∧ s_tx s ≠ s_tx s') →
  unix_ok n' a'.
Proof.
  intros Hok Hn Hle Hh Hc Hb Hs Hno Hl Hnm Ho Hd. pose proof (holds_same _ _ Hh) as Hrw.
  assert (∀ i c, chan_is a i c → chan_is a' i c) as Hci.
  { intros i c Hi. destruct (Hrw i). eapply chan_is_same; [done|done| |done]. unfold in_flight. by rewrite Hb. }
  assert (∀ i, has_reader a i = true ∨ has_writer a i = true → i < a_next a) as Hlt.
  { intros i [(s & Hs' & <-)%reader_spec|(s & Hs' & <-)%writer_spec]; by apply (uo_lt _ _ Hok) in Hs' as (? & ? & _). }
  split; try done.
  - intros i Hi. rewrite (proj1 (Hrw i)) in Hi. destruct (uo_rx _ _ Hok i Hi) as (c & Hc' & Hi'). exists c. rewrite Hc by auto. auto.
  - intros i Hi. rewrite (proj2 (Hrw i)) in Hi. destruct (uo_tx _ _ Hok i Hi) as (c & Hc' & Hi'). exists c. rewrite Hc by auto. auto.
  - intros i Hi. rewrite Hb. apply (uo_bytes _ _ Hok). lia.
  - intros s Hs'%Hh%(uo_lt _ _ Hok). lia.
  - intros s s' H1%Hh H2%Hh. by apply (uo_pair _ _ Hok).
Qed.

(** One socket changes, not its ends. *)
Lemma ok_set n a n' id s' t' nx : unix_ok n a →
  ends (a_kind t') = match a_socks a !! id with Some t => ends (a_kind t) | None => [] end →
  u_next n' = nx → a_next a ≤ nx → id < nx → u_chans n' = u_chans n → u_socks n' = <[id := s']> (u_socks n) →
  (∀ l, l < a_next a → u_lists n' !! l = u_lists n !! l) → u_name s' = a_name t' → state_is n' (u_state s') (a_kind t') →
  (∀ l, u_state s' = Listening l → ∀ id2 s2, id2 ≠ id → u_socks n !! id2 = Some s2 → u_state s2 ≠ Listening l) →
  (∀ path id2, UNIX_REGISTRY n' !! path = Some id2 ↔ if decide (id2 = id) then a_name t' = Some path else UNIX_REGISTRY n !! path = Some id2) →
  unix_ok n' (mkANet (<[id := t']> (a_socks a)) (a_bytes a) nx).
Proof.
  intros Hok He Hn Hle Hid Hc Hs Hl Hnm Hst Hu Hr.
  assert (∀ st k, state_is n st k → state_is n' st k) as Hsi.
  { intros [] []; cbn; try done. intros (Hlt & c & Hc' & Hi). split; [rewrite Hn, (uo_next _ _ Hok) in *; lia|]. exists c. split; [|done].
    rewrite Hl; [done|]. by rewrite <- (uo_next _ _ Hok). }
  assert (∀ id2 t2, (<[id := t']> (a_socks a)) !! id2 = Some t2 → ends (a_kind t2) = [] ∨ ∃ t3, a_socks a !! id2 = Some t3 ∧ ends (a_kind t2) = ends (a_kind t3)) as Hen.
  { intros id2 t2 [[<- <-]|[Hne Ht]]%lookup_insert_Some; [|eauto]. rewrite He. destruct (a_socks a !! id); eauto. }
  eapply ok_frame; [exact Hok|..]; cbn [a_socks a_bytes a_next]; try done.
  - intros s. fold (set_asock id t' a). transitivity (holds (set_asock id t' a) s); [done|]. rewrite holds_set, He. destruct (a_socks a !! id) as [t|] eqn:Et; [by rewrite (holds_at a id t)|].
    split; [intros [?%not_elem_of_nil|(id' & t2 & _ & ? & ?)]; [done|by exists id', t2]|]. intros (id' & t2 & Ht & Hs'). right. exists id', t2. split; [congruence|done].
  - intros i _. by rewrite Hc.
  - intros id2 t2 [[<- <-]|[Hne Ht]]%lookup_insert_Some; rewrite Hs; [rewrite lookup_insert_eq; eauto|].
    rewrite lookup_insert_ne by done. destruct (uo_some _ _ Hok _ _ Ht) as (Hlt & s2 & ? & ? & ?). split; [lia|]. exists s2. auto.
  - intros id2 [Ht Hne]%lookup_insert_None. rewrite Hs, lookup_insert_ne by done. by apply (uo_none _ _ Hok).
  - intros id1 id2 s1 s2 l H1 H2 E1 E2. rewrite Hs in H1, H2. apply lookup_insert_Some in H1 as [[<- <-]|[Hne1 H1]], H2 as [[<- <-]|[Hne2 H2]].
    + done.
    + exfalso. by eapply Hu.
    + exfalso. by eapply Hu.
    + by eapply (uo_lists _ _ Hok).
  - intros path id2. rewrite Hr. case_decide as Hd.
    + subst. rewrite lookup_insert_eq. naive_solver.
    + rewrite lookup_insert_ne by done. apply (uo_names _ _ Hok).
  - intros id2 t2 Ht. destruct (Hen _ _ Ht) as [->|(t3 & Ht3 & ->)]; [split; constructor|by apply (uo_own _ _ Hok _ _ Ht3)].
  - intros id1 id2 t1 t2 s1 s2 Hne H1 H2 E1 E2. destruct (Hen _ _ H1) as [E|(t3 & Ht3 & E)]; rewrite E in E1; [by apply not_elem_of_nil in E1|].
    destruct (Hen _ _ H2) as [E'|(t4 & Ht4 & E')]; rewrite E' in E2; [by apply not_elem_of_nil in E2|]. by eapply (uo_disj _ _ Hok id1 id2).
Qed.

(** ** Dropping ends *)
Definition drop_ends (r w : bool) (c : Chan Z) : Chan Z :=
  let c := if r then receiver_drop c else c in if w then sender_drop c else c.
Definition drop_all (E : list UnixStream) (m : gmap nat (Chan Z)) : gmap nat (Chan Z) :=
  foldl (λ m s, alter sender_drop (s_tx s) (alter receiver_drop (s_rx s) m)) m E.

Lemma drops_ok E n : m_for E stream_drop n = (Ok (), set_chans (drop_all E) n).
Proof.
  revert n. induction E as [|s E IH]; intros n; [by destruct n|]. cbn [m_for]. rewrite (bind_ok (stream_drop s) _ _ _ _ eq_refl). by rewrite IH.
Qed.

Lemma drop_all_lookup E m i : NoDup (s_rx <$> E) → NoDup (s_tx <$> E) →
  drop_all E m !! i = drop_ends (bool_decide (i ∈ s_rx <$> E)) (bool_decide (i ∈ s_tx <$> E)) <$> m !! i.
Proof.
  revert m. induction E as [|s E IH]; intros m Hr Ht; cbn [drop_all foldl fmap list_fmap] in *; [by destruct (m !! i)|].
  change (foldl _ ?m E) with (drop_all E m). rewrite IH by (by eapply NoDup_cons_1_2). apply NoDup_cons_1_1 in Hr, Ht.
  destruct (decide (i = s_tx s)) as [->|Hi].
  - rewrite lookup_alter_eq. rewrite (bool_decide_eq_false_2 (s_tx s ∈ s_tx <$> E)), (bool_decide_eq_true_2 (s_tx s ∈ s_tx s :: _)) by (done || set_solver).
    destruct (decide (s_tx s = s_rx s)) as [He|Hne].
    + rewrite He, lookup_alter_eq. rewrite (bool_decide_eq_false_2 (s_rx s ∈ s_rx <$> E)), (bool_decide_eq_true_2 (s_rx s ∈ s_rx s :: _)) by (done || set_solver).
      by destruct (m !! s_rx s).
    + rewrite lookup_alter_ne by done. assert (bool_decide (s_tx s ∈ s_rx s :: (s_rx <$> E)) = bool_decide (s_tx s ∈ s_rx <$> E)) as ->.
      { apply bool_decide_ext. rewrite elem_of_cons. naive_solver. }
      destruct (m !! s_tx s) as [c|]; cbn; [|done]. by destruct (bool_decide _).
  - rewrite lookup_alter_ne by done. assert (bool_decide (i ∈ s_tx s :: (s_tx <$> E)) = bool_decide (i ∈ s_tx <$> E)) as ->.
    { apply bool_decide_ext. rewrite elem_of_cons. naive_solver. }
    destruct (decide (i = s_rx s)) as [->|Hi2].
    + rewrite lookup_alter_eq. rewrite (bool_decide_eq_false_2 (s_rx s ∈ s_rx <$> E)), (bool_decide_eq_true_2 (s_rx s ∈ s_rx s :: _)) by (done || set_solver).
      by destruct (m !! s_rx s).
    + rewrite lookup_alter_ne by done. do 2 f_equal. apply bool_decide_ext. rewrite elem_of_cons. naive_solver.
Qed.

(** What the specification sees of it. *)
Lemma chan_is_drop a a' i c r w : chan_is a i c → a_bytes a' = a_bytes a →
  has_reader a' i = (has_reader a i && negb r)%bool → has_writer a' i = (has_writer a i && negb w)%bool →
  (r = true → has_reader a i = true) → (w = true → has_writer a i = true) → chan_is a' i (drop_ends r w c).
Proof.
  intros [Hr Hw Ho Hc] Hb Er Ew Hr' Hw'. unfold in_flight in *. destruct c as [sem buf sc rc]. cbn in *.
  destruct r, w; rewrite ?Hr', ?Hw' in * by done; rewrite ?andb_true_r, ?andb_false_r in *; subst; (split; unfold in_flight; rewrite ?Er, ?Ew, ?Hb; cbn; try done).
  intros Hx. destruct (Ho Hx) as [[? ? ? ?] ?]. by split; [split|].
Qed.

(** ** The calls *)
Lemma set_lists_id n l c : u_lists n !! l = Some c → set_lists <[l := c]> n = n.
Proof. intros Hl. destruct n as [ch ls so re nx]. unfold set_lists. cbn in *. by rewrite insert_id. Qed.

Lemma set_chans_id n i c : u_chans n !! i = Some c → set_chans <[i := c]> n = n.
Proof. intros Hl. destruct n as [ch ls so re nx]. unfold set_chans. cbn in *. by rewrite insert_id. Qed.

Section calls.
Context (n : UNet) (a : anet) (Hok : unix_ok n a).

Definition sound (op : uop) : Prop := ∃ n', urun op n = ((uspec a op).1, n') ∧ unix_ok n' (uspec a op).2.

Lemma get_sock_ok id t : a_socks a !! id = Some t →
  ∃ s, get_sock id n = (Ok s, n) ∧ u_socks n !! id = Some s ∧ u_name s = a_name t ∧ state_is n (u_state s) (a_kind t).
Proof. intros Ht. destruct (uo_some _ _ Hok _ _ Ht) as (_ & s & Hs & Hn & Hst). exists s. unfold get_sock. by rewrite Hs. Qed.

Lemma fresh_sock : a_socks a !! a_next a = None.
Proof. apply eq_None_not_Some. intros [t Ht]. apply (uo_some _ _ Hok) in Ht as [? _]. lia. Qed.

Lemma next_is : u_next n = a_next a.
Proof. apply (uo_next _ _ Hok). Qed.

Definition ret0 (r : blocking Error ()) : blocking Error nat :=
  match r with Returns (Ok _) => Returns (Ok 0) | Returns (Err e) => Returns (Err e) | Returns Panic => Returns Panic | Sleeps => Sleeps end.
Lemma zero_sound op m r n' : urun op = b_zero m → m n = (r, n') → (uspec a op).1 = ret0 r → unix_ok n' (uspec a op).2 → sound op.
Proof. intros Hu Hm Hr Hk. exists n'. split; [|done]. rewrite Hu, Hr. unfold b_zero, b_bind. rewrite Hm. by destruct r as [[[]| |]|]. Qed.
Lemma lift_run {A} (m : UM A) r n' : m n = (r, n') → b_lift m n = (Returns r, n').
Proof. unfold b_lift. by intros ->. Qed.
Lemma unit_sound op m r n' : urun op = b_zero (b_lift m) → m n = (r, n') → (uspec a op).1 = ret0 (Returns r) → unix_ok n' (uspec a op).2 → sound op.
Proof. intros Hu Hm. eapply zero_sound; [done|by apply lift_run]. Qed.

Lemma new_sound : sound UNew.
Proof.
  eexists. split; [unfold urun, b_lift, unix_new, u_fresh, put_sock, u_modify, mbind, M_bind, mret, M_ret; cbn; by rewrite next_is|].
  cbn [uspec snd]. unfold set_asock, skip_ids. cbn [a_socks a_bytes a_next].
  eapply (ok_set n a _ (a_next a) (mkUSock None Unbound)); [exact Hok|by rewrite fresh_sock|done|lia|lia|done|done|done|done|done|done|].
  intros path id. cbn. case_decide as Hd; [|done]. subst. split; [|done]. intros (t & Ht & _)%(uo_names _ _ Hok). by rewrite fresh_sock in Ht.
Qed.

Lemma bind_sound id path t : a_socks a !! id = Some t → sound (UBind id path).
Proof.
  intros Ht. destruct (get_sock_ok id t Ht) as (s & Hg & Hs & Hn & Hst). destruct (uo_some _ _ Hok _ _ Ht) as [Hlt _].
  pose proof (upgrade_spec n a path Hok) as Hup. pose proof (named_spec n a path Hok) as Hnm.
  assert (∃ r n', unix_bind id path n = (r, n') ∧ (uspec a (UBind id path)).1 = ret0 (Returns r) ∧ unix_ok n' (uspec a (UBind id path)).2) as (r & n' & Hr & Hsp & Hk); [|by eapply unit_sound].
  cbn [uspec]. rewrite Ht. unfold unix_bind. destruct path as [|b path]; [rewrite bool_decide_eq_true_2 by done; destruct t as [[] []]; by exists (Err InvalidArgument), n|].
  rewrite bool_decide_eq_false_2 by done. rewrite (bind_ok _ _ _ _ _ Hg). destruct t as [[nm|] k]; cbn [a_name a_kind] in *; rewrite Hn.
  { rewrite bool_decide_eq_true_2 by done. by exists (Err InvalidArgument), n. }
  rewrite bool_decide_eq_false_2 by (by intros []). destruct (u_state s) as [|l|st], k as [|q cap|st']; try done; try (by exists (Err InvalidArgument), n).
  rewrite (bind_ok m_get _ _ _ _ eq_refl). destruct (socket_named a (b :: path)) as [[id' t']|]; [destruct Hup as (s' & -> & _); by exists (Err AlreadyExists), n|].
  rewrite Hup. do 2 eexists. split; [done|]. split; [done|]. cbn [snd]. unfold set_asock.
  eapply (ok_set n a _ id (mkUSock (Some (b :: path)) Unbound)); [exact Hok|by rewrite Ht|apply next_is|done|done|done|done|done|done|done|done|].
  intros p id2. cbn. case_decide as Hd.
  - subst. split; [|intros [= <-]; apply lookup_insert_eq]. intros [[<- _]|[_ (t2 & Ht2 & Hp)%(uo_names _ _ Hok)]]%lookup_insert_Some; [done|]. by simplify_eq.
  - rewrite lookup_insert_Some. split; [intros [[_ ?]|[_ ?]]; done|]. intros Hp. right. split; [|done]. congruence.
Qed.

Lemma listen_sound id backlog t : a_socks a !! id = Some t → (0 ≤ backlog)%Z → sound (UListen id backlog).
Proof.
  intros Ht Hb. destruct (get_sock_ok id t Ht) as (s & Hg & Hs & Hn & Hst). destruct (uo_some _ _ Hok _ _ Ht) as [Hlt _].
  assert (∃ r n', unix_listen id backlog n = (r, n') ∧ (uspec a (UListen id backlog)).1 = ret0 (Returns r) ∧ unix_ok n' (uspec a (UListen id backlog)).2) as (r & n' & Hr & Hsp & Hk); [|by eapply unit_sound].
  cbn [uspec]. rewrite Ht. unfold unix_listen. rewrite (bind_ok _ _ _ _ _ Hg). destruct t as [[nm|] k]; cbn [a_name a_kind] in *; rewrite Hn.
  2: { rewrite bool_decide_eq_true_2 by done. by exists (Err InvalidArgument), n. }
  rewrite bool_decide_eq_false_2 by done. destruct (u_state s) as [|l|st], k as [|q cap|st']; try done; try (by exists (Err InvalidArgument), n).
  destruct (backlog =? 0)%Z eqn:E; [by exists (Err InvalidArgument), n|]. bool_to_prop.
  do 2 eexists. split; [unfold u_fresh, put_list, put_sock, u_modify, mbind, M_bind; cbn; reflexivity|]. split; [done|]. cbn [snd]. unfold set_asock, skip_ids. cbn [a_socks a_bytes a_next].
  eapply (ok_set n a _ id (mkUSock (Some nm) (Listening (u_next n)))); [exact Hok|by rewrite Ht|cbn; by rewrite next_is|cbn; lia|cbn; lia|done|done| |done| | |].
  - intros l Hl. cbn. by rewrite lookup_insert_ne by (rewrite next_is; lia).
  - cbn. split; [lia|]. rewrite lookup_insert_eq. eexists. split; [done|]. unfold listener_new, BACKLOG_MAX. split; cbn; [done| |done|done]. split; cbn; lia.
  - intros l [= <-] id2 s2 _ H2 E2. assert (is_Some (a_socks a !! id2)) as [t2 Ht2].
    { apply not_eq_None_Some. intros E3. apply (uo_none _ _ Hok) in E3. congruence. }
    destruct (uo_some _ _ Hok _ _ Ht2) as (_ & s3 & Hs3 & _ & Hst3). simplify_eq. rewrite E2 in Hst3. destruct (a_kind t2); try done. cbn in Hst3. lia.
  - intros p id2. cbn. case_decide as Hd; [|done]. subst. rewrite (uo_names _ _ Hok). rewrite Ht. naive_solver.
Qed.

(** The first connection of the queue of [id] becomes a socket of its own. *)
Section accept.
Context (id : nat) (nm : option (list Z)) (st : UnixStream) (q : list UnixStream) (cap : nat).
Context (Ht : a_socks a !! id = Some (mkASock nm (AL (st :: q) cap))).
Let socks' := <[a_next a := mkASock None (AC st)]> (<[id := mkASock nm (AL q cap)]> (a_socks a)).

Lemma accept_socks id2 t2 : socks' !! id2 = Some t2 ↔
  (id2 = a_next a ∧ t2 = mkASock None (AC st)) ∨ (id2 = id ∧ t2 = mkASock nm (AL q cap)) ∨ (id2 ≠ id ∧ id2 ≠ a_next a ∧ a_socks a !! id2 = Some t2).
Proof. destruct (uo_some _ _ Hok _ _ Ht) as [Hlt _]. subst socks'. rewrite !lookup_insert_Some. assert (a_next a ≠ id) by lia. naive_solver. Qed.

Lemma accept_holds s2 : holds (mkANet socks' (a_bytes a) (S (a_next a))) s2 ↔ holds a s2.
Proof.
  rewrite (holds_at a id _ s2 Ht). unfold holds. cbn [a_socks a_kind ends]. setoid_rewrite accept_socks. rewrite elem_of_cons. split.
  - intros (id2 & t2 & [(-> & ->)|[(-> & ->)|(Hne & Hne2 & H2)]] & Hin); cbn in Hin; [left; left; set_solver|left; by right|right; eauto].
  - intros [[->|Hin]|(id2 & t2 & Hne & H2 & Hin)].
    + exists (a_next a), (mkASock None (AC st)). split; [by left|cbn; set_solver].
    + exists id, (mkASock nm (AL q cap)). split; [right; by left|done].
    + exists id2, t2. pose proof fresh_sock as Hf. split; [|done]. right. right. split_and!; [done| |done]. intros ->. congruence.
Qed.

Lemma accept_names p id2 : UNIX_REGISTRY n !! p = Some id2 ↔ ∃ t, socks' !! id2 = Some t ∧ a_name t = Some p.
Proof.
  rewrite (uo_names _ _ Hok). setoid_rewrite accept_socks. pose proof fresh_sock as Hf. split.
  - intros (t2 & H2 & Hp). destruct (decide (id2 = id)) as [->|Hne]; [simplify_eq; eauto 10|].
    exists t2. split; [|done]. right. right. split_and!; [done| |done]. intros ->. congruence.
  - intros (t2 & [(-> & ->)|[(-> & ->)|(Hne & Hne2 & H2)]] & Hp); [done|by eexists|by eexists].
Qed.

Lemma accept_disj : ∀ id1 id2 t1 t2 s1 s2, id1 ≠ id2 → socks' !! id1 = Some t1 → socks' !! id2 = Some t2 →
  s1 ∈ ends (a_kind t1) → s2 ∈ ends (a_kind t2) → s_rx s1 ≠ s_rx s2 ∧ s_tx s1 ≠ s_tx s2.
Proof.
  destruct (uo_own _ _ Hok _ _ Ht) as [Hnr Hnt]. cbn [a_kind ends fmap list_fmap] in Hnr, Hnt.
  assert (∀ s2, s2 ∈ q → s_rx st ≠ s_rx s2 ∧ s_tx st ≠ s_tx s2) as Hnq.
  { intros s2 Hin. apply NoDup_cons_1_1 in Hnr, Hnt. split; [intros E; apply Hnr|intros E; apply Hnt]; rewrite E; by apply list_elem_of_fmap_2. }
  assert (∀ id2 t2 s1 s2, id2 ≠ id → a_socks a !! id2 = Some t2 → s1 = st ∨ s1 ∈ q → s2 ∈ ends (a_kind t2) → s_rx s1 ≠ s_rx s2 ∧ s_tx s1 ≠ s_tx s2) as Hod.
  { intros id2 t2 s1 s2 Hne H2 H1 Hin. eapply (uo_disj _ _ Hok id id2); [done|exact Ht|exact H2|cbn; by apply elem_of_cons|done]. }
  intros id1 id2 t1 t2 s1 s2 Hne [(-> & ->)|[(-> & ->)|(Hn1 & Hm1 & H1)]]%accept_socks [(-> & ->)|[(-> & ->)|(Hn2 & Hm2 & H2)]]%accept_socks E1 E2; try done; cbn in E1, E2.
  - apply list_elem_of_singleton in E1 as ->. by apply Hnq.
  - apply list_elem_of_singleton in E1 as ->. eapply Hod; eauto.
  - apply list_elem_of_singleton in E2 as ->. destruct (Hnq _ E1). auto.
  - eapply (Hod id2); eauto.
  - apply list_elem_of_singleton in E2 as ->. destruct (Hod id1 t1 st s1) as [? ?]; auto.
  - destruct (Hod id1 t1 s2 s1) as [? ?]; auto.
  - by eapply (uo_disj _ _ Hok id1 id2).
Qed.
End accept.

Lemma accept_sound nb id t : a_socks a !! id = Some t → sound (UAccept nb id).
Proof.
  intros Ht. destruct (get_sock_ok id t Ht) as (s & Hg & Hs & Hn & Hst). destruct (uo_some _ _ Hok _ _ Ht) as [Hlt _].
  unfold sound. cbn [urun uspec]. rewrite Ht. unfold accept_socket, unix_accept, b_bind. rewrite (lift_run _ _ _ Hg).
  destruct t as [nm k]. cbn [a_name a_kind] in *. destruct (u_state s) as [|l|st] eqn:Es, k as [|q cap|st']; try done;
    try (by exists n).
  destruct Hst as (Hll & c & Hc & [Hbuf Hcok Hsc Hrc]). unfold list_accept, b_bind, b_lift, get_list. rewrite Hc.
  destruct q as [|st q].
  - exists n. assert (try_recv c = (Err WouldBlock, c)) as Htr by (unfold try_recv; by rewrite Hbuf, Hsc).
    assert (recv c = (Sleeps, c)) as Hre by (unfold recv; by rewrite Hbuf, Hsc).
    split; [|done]. rewrite Htr, Hre. destruct nb; by rewrite set_lists_id.
  - destruct (recv_ok _ _ _ _ Hcok Hbuf) as (c' & Hre & Htr & Hcok' & Hbuf' & Hsc' & Hrc'). rewrite Hre, Htr.
    assert ((if nb then (Returns (Ok st), c') else (Returns (Ok st), c')) = (Returns (E := Error) (Ok st), c')) as -> by (by destruct nb).
    eexists. split; [unfold from_stream, u_fresh, put_sock, u_modify, mbind, M_bind, mret, M_ret; cbn; by rewrite next_is|].
    cbn [snd]. unfold set_asock, skip_ids. cbn [a_socks a_bytes a_next Nat.add]. pose proof fresh_sock as Hf. rewrite ?next_is.
    pose proof (accept_socks id nm st q cap Ht) as Hsk.
    destruct (uo_own _ _ Hok _ _ Ht) as [Hnr Hnt]. cbn [a_kind ends fmap list_fmap] in Hnr, Hnt.
    eapply ok_frame; [exact Hok|..]; cbn [a_socks a_bytes a_next u_next u_chans u_socks UNIX_REGISTRY u_lists set_lists set_socks set_registry]; try done; try lia.
    + by apply (accept_holds id nm st q cap Ht).
    + intros id2 t2 [(-> & ->)|[(-> & ->)|(Hne & Hne2 & H2)]]%Hsk.
      * split; [lia|]. rewrite lookup_insert_eq. by eexists.
      * split; [lia|]. rewrite lookup_insert_ne by lia. exists s. split_and!; [done|done|]. rewrite Es. cbn. rewrite next_is in Hll. split; [lia|]. rewrite lookup_insert_eq. exists c'. split; [done|]. split; congruence.
      * destruct (uo_some _ _ Hok _ _ H2) as (Hlt2 & s2 & Hs2 & Hn2 & Hst2). split; [lia|]. rewrite lookup_insert_ne by done. exists s2. split_and!; [done|done|].
        destruct (u_state s2) as [|l2|] eqn:Es2, (a_kind t2); try done. destruct Hst2 as (Hl2 & c2 & Hc2 & Hi2). cbn. rewrite next_is in Hl2. split; [lia|]. exists c2. split; [|done].
        rewrite lookup_insert_ne; [done|]. intros <-. by apply Hne, (uo_lists _ _ Hok _ _ _ _ _ Hs2 Hs Es2 Es).
    + intros id2 [[H2 ?]%lookup_insert_None ?]%lookup_insert_None. rewrite lookup_insert_ne by done. by apply (uo_none _ _ Hok).
    + intros id1 id2 s1 s2 l2 [[<- <-]|[_ H1]]%lookup_insert_Some [[<- <-]|[_ H2]]%lookup_insert_Some; try done. by apply (uo_lists _ _ Hok).
    + by apply (accept_names id nm st q cap Ht).
    + intros id2 t2 [(-> & ->)|[(-> & ->)|(Hne & Hne2 & H2)]]%Hsk; cbn.
      * split; apply NoDup_singleton.
      * split; by eapply NoDup_cons_1_2.
      * by apply (uo_own _ _ Hok _ _ H2).
    + by apply (accept_disj id nm st q cap Ht).
Qed.

(** What [close] leaves. *)
Lemma readers_left id t i : a_socks a !! id = Some t →
  let a' := mkANet (delete id (a_socks a)) (a_bytes a) (a_next a) in
  has_reader a' i = (has_reader a i && negb (bool_decide (i ∈ s_rx <$> ends (a_kind t))))%bool ∧
  has_writer a' i = (has_writer a i && negb (bool_decide (i ∈ s_tx <$> ends (a_kind t))))%bool.
Proof.
  intros Ht a'. assert (∀ s, holds a' s ↔ ∃ id' t', id' ≠ id ∧ a_socks a !! id' = Some t' ∧ s ∈ ends (a_kind t')) as Hh.
  { intros s. unfold holds. subst a'. cbn [a_socks]. setoid_rewrite lookup_delete_Some. naive_solver. }
  split; apply eq_iff_eq_true; rewrite andb_true_iff, negb_true_iff, bool_decide_eq_false, ?reader_spec, ?writer_spec; setoid_rewrite Hh; setoid_rewrite (holds_at a id t _ Ht); split.
  - intros (s & (id' & t' & Hne & Ht' & Hs) & <-). split; [eauto 10|]. intros (s' & E & Hs')%list_elem_of_fmap. by destruct (uo_disj _ _ Hok id id' t t' s' s) as [? _].
  - intros [(s & [Hs|Hs] & <-) Hni]; [exfalso; apply Hni; by apply list_elem_of_fmap_2|eauto].
  - intros (s & (id' & t' & Hne & Ht' & Hs) & <-). split; [eauto 10|]. intros (s' & E & Hs')%list_elem_of_fmap. by destruct (uo_disj _ _ Hok id id' t t' s' s) as [_ ?].
  - intros [(s & [Hs|Hs] & <-) Hni]; [exfalso; apply Hni; by apply list_elem_of_fmap_2|eauto].
Qed.

Lemma ends_here id t i : a_socks a !! id = Some t →
  (bool_decide (i ∈ s_rx <$> ends (a_kind t)) = true → has_reader a i = true) ∧ (bool_decide (i ∈ s_tx <$> ends (a_kind t)) = true → has_writer a i = true).
Proof.
  intros Ht. split; intros (s & -> & Hs)%bool_decide_eq_true%list_elem_of_fmap; [apply reader_spec|apply writer_spec]; exists s; (split; [by exists id, t|done]).
Qed.

Lemma sock_close_ok id t n' : a_socks a !! id = Some t → u_next n' = u_next n → u_chans n' = drop_all (ends (a_kind t)) (u_chans n) → u_socks n' = delete id (u_socks n) →
  (∀ id2 s2 l, id2 ≠ id → u_socks n !! id2 = Some s2 → u_state s2 = Listening l → u_lists n' !! l = u_lists n !! l) →
  UNIX_REGISTRY n' = match a_name t with Some p => delete p (UNIX_REGISTRY n) | None => UNIX_REGISTRY n end →
  unix_ok n' (mkANet (delete id (a_socks a)) (a_bytes a) (a_next a)).
Proof.
  intros Ht Hn Hc Hs Hl Hr. set (a' := mkANet _ _ _). destruct (uo_own _ _ Hok _ _ Ht) as [Hnr Hnt].
  assert (∀ i c, u_chans n !! i = Some c → chan_is a i c → ∃ c', u_chans n' !! i = Some c' ∧ chan_is a' i c') as Hci.
  { intros i c Hi Hci. rewrite Hc, drop_all_lookup, Hi by done. eexists. split; [done|]. destruct (readers_left id t i Ht), (ends_here id t i Ht).
    by eapply chan_is_drop. }
  assert (∀ s, holds a' s → holds a s) as Hh.
  { intros s (id' & t' & Ht' & Hin). unfold a' in Ht'. cbn [a_socks] in Ht'. apply lookup_delete_Some in Ht' as [_ Ht']. by exists id', t'. }
  split; unfold a'; cbn [a_socks a_bytes a_next].
  - by rewrite Hn, next_is.
  - intros id2 t2 [Hne Ht2]%lookup_delete_Some. destruct (uo_some _ _ Hok _ _ Ht2) as (Hlt & s2 & Hs2 & Hn2 & Hst2). split; [done|]. exists s2. rewrite Hs, lookup_delete_ne by done.
    split_and!; [done|done|]. destruct (u_state s2) as [|l2|] eqn:Es2, (a_kind t2); try done. cbn in *. rewrite Hn. by rewrite (Hl id2 s2).
  - intros id2 H2. rewrite Hs. apply lookup_delete_None in H2 as [->|H2]; [apply lookup_delete_eq|]. apply lookup_delete_None. right. by apply (uo_none _ _ Hok).
  - intros id1 id2 s1 s2 l. rewrite Hs. intros [_ H1]%lookup_delete_Some [_ H2]%lookup_delete_Some. by apply (uo_lists _ _ Hok).
  - intros path id2. setoid_rewrite lookup_delete_Some. transitivity (UNIX_REGISTRY n !! path = Some id2 ∧ id ≠ id2).
    + rewrite Hr. destruct (a_name t) as [p|] eqn:Ep.
      * rewrite lookup_delete_Some. split; intros [H1 H2]; [split; [done|]; intros <-|split; [|done]; intros <-].
        -- apply (uo_names _ _ Hok) in H2 as (t2 & H2 & H3). by simplify_eq.
        -- apply H2. assert (UNIX_REGISTRY n !! p = Some id) as H3 by (apply (uo_names _ _ Hok); eauto). congruence.
      * split; [|by intros []]. intros H1. split; [done|]. intros <-. apply (uo_names _ _ Hok) in H1 as (t2 & H2 & H3). by simplify_eq.
    + rewrite (uo_names _ _ Hok). naive_solver.
  - intros i Hi. fold a' in Hi. destruct (readers_left id t i Ht) as [Er _]. unfold a' in Hi. rewrite Er in Hi. apply andb_true_iff in Hi as [Hi _].
    destruct (uo_rx _ _ Hok _ Hi) as (c & ? & ?). by eapply Hci.
  - intros i Hi. destruct (readers_left id t i Ht) as [_ Er]. unfold a' in Hi. rewrite Er in Hi. apply andb_true_iff in Hi as [Hi _].
    destruct (uo_tx _ _ Hok _ Hi) as (c & ? & ?). by eapply Hci.
  - apply (uo_bytes _ _ Hok).
  - intros s Hs'%Hh. by apply (uo_lt _ _ Hok).
  - intros id2 t2 [_ H2]%lookup_delete_Some. by apply (uo_own _ _ Hok _ _ H2).
  - intros id1 id2 t1 t2 s1 s2 Hne [_ H1]%lookup_delete_Some [_ H2]%lookup_delete_Some. by apply (uo_disj _ _ Hok id1 id2).
  - intros s1 s2 H1%Hh H2%Hh. by apply (uo_pair _ _ Hok).
Qed.

Lemma close_sound id t : a_socks a !! id = Some t → sound (UClose id).
Proof.
  intros Ht. destruct (get_sock_ok id t Ht) as (s & Hg & Hs & Hn & Hst).
  assert (∃ n', unix_drop id n = (Ok (), n') ∧ unix_ok n' (uspec a (UClose id)).2) as (n' & Hr & Hk); [|by eapply unit_sound].
  cbn [uspec snd]. unfold unix_drop. erewrite (bind_ok (drop_begin id)) by (unfold drop_begin; by rewrite (bind_ok _ _ _ _ _ Hg)).
  unfold drop_name, drop_state. rewrite Hn. set (n1 := set_socks (delete id) n). set (n2 := match a_name t with Some p => set_registry (delete p) n1 | None => n1 end).
  erewrite (bind_ok _ _ n1 () n2) by (subst n2; by destruct (a_name t)).
  assert (u_next n2 = u_next n ∧ u_chans n2 = u_chans n ∧ u_socks n2 = delete id (u_socks n) ∧ u_lists n2 = u_lists n ∧
    UNIX_REGISTRY n2 = match a_name t with Some p => delete p (UNIX_REGISTRY n) | None => UNIX_REGISTRY n end) as (E1 & E2 & E3 & E4 & E5) by (subst n2; by destruct (a_name t)).
  destruct (u_state s) as [|l|st] eqn:Es, (a_kind t) as [|q cap|st'] eqn:Ek; try done.
  - exists n2. split; [done|]. eapply (sock_close_ok id t n2); rewrite ?Ek; try done. intros. by rewrite E4.
  - destruct Hst as (Hll & c & Hc & [Hbuf _ _ _]). unfold get_list. exists (set_chans (drop_all q) (set_lists (delete l) n2)). split.
    { unfold mbind at 1, M_bind. rewrite E4, Hc. rewrite (bind_ok (u_modify _) _ _ _ _ eq_refl). rewrite Hbuf. apply drops_ok. }
    eapply (sock_close_ok id t); rewrite ?Ek; try done; cbn.
    + by rewrite E2.
    + intros id2 s2 l2 Hne H2 El. rewrite E4. rewrite lookup_delete_ne; [done|]. intros <-. by apply Hne, (uo_lists _ _ Hok _ _ _ _ _ H2 Hs El Es).
  - cbn in Hst. subst st'. exists (set_chans (drop_all [st]) n2). split; [done|]. eapply (sock_close_ok id t); rewrite ?Ek; try done; cbn; [by rewrite E2|]. intros. by rewrite E4.
Qed.

(** A new connection from [id] to the listener [id']. *)
Section connect.
Context (id id' : nat) (t t' : asock) (q : list UnixStream) (cap : nat).
Context (Ht : a_socks a !! id = Some t) (Hk : a_kind t = AU) (Ht' : a_socks a !! id' = Some t') (Hk' : a_kind t' = AL q cap).
Let c := a_next a.
Let client := mkStream c (S c).
Let server := mkStream (S c) c.
Let a' := set_asock id (mkASock (a_name t) (AC client)) (set_asock id' (mkASock (a_name t') (AL (q ++ [server]) cap)) (skip_ids 2 a)).

Lemma connect_ne : id ≠ id'.
Proof. intros ->. congruence. Qed.

Lemma connect_socks id2 t2 : a_socks a' !! id2 = Some t2 ↔
  (id2 = id ∧ t2 = mkASock (a_name t) (AC client)) ∨ (id2 = id' ∧ t2 = mkASock (a_name t') (AL (q ++ [server]) cap)) ∨
  (id2 ≠ id ∧ id2 ≠ id' ∧ a_socks a !! id2 = Some t2).
Proof. pose proof connect_ne. unfold a', set_asock, skip_ids. cbn [a_socks]. rewrite !lookup_insert_Some. naive_solver. Qed.

Lemma connect_holds s : holds a' s ↔ s = client ∨ s = server ∨ holds a s.
Proof.
  rewrite (holds_at a id t s Ht), Hk. cbn [ends]. split.
  - intros (id2 & t2 & [(-> & ->)|[(-> & ->)|(Hn & Hn' & H2)]]%connect_socks & Hs); cbn in Hs.
    + left. set_solver.
    + apply elem_of_app in Hs as [Hs|Hs]; [|right; left; set_solver]. right; right; right. exists id', t'. rewrite Hk'. by pose proof connect_ne.
    + right; right; right. eauto.
  - intros [->|[->|[?%not_elem_of_nil|(id2 & t2 & Hn & H2 & Hs)]]]; [| |done|].
    + eexists id, _. rewrite connect_socks. split; [by left|]. cbn. set_solver.
    + eexists id', _. rewrite connect_socks. split; [by right; left|]. cbn. set_solver.
    + destruct (decide (id2 = id')) as [->|Hn'].
      * eexists id', _. rewrite connect_socks. split; [by right; left|]. cbn. simplify_eq. rewrite Hk' in Hs. cbn in Hs. set_solver.
      * exists id2, t2. rewrite connect_socks. split; [|done]. auto 10.
Qed.

Lemma connect_readers i :
  has_reader a' i = (bool_decide (i = c) || bool_decide (i = S c) || has_reader a i)%bool ∧
  has_writer a' i = (bool_decide (i = c) || bool_decide (i = S c) || has_writer a i)%bool.
Proof.
  split; apply eq_iff_eq_true; rewrite !orb_true_iff, !bool_decide_eq_true, ?reader_spec, ?writer_spec; setoid_rewrite connect_holds; naive_solver.
Qed.

Lemma old_numbers i : has_reader a i = true ∨ has_writer a i = true → i < c.
Proof. intros [(s & Hs & <-)%reader_spec|(s & Hs & <-)%writer_spec]; by apply (uo_lt _ _ Hok) in Hs as (? & ? & _). Qed.

Lemma connect_old s : holds a s → s_rx s < c ∧ s_tx s < c.
Proof. intros Hx. by apply (uo_lt _ _ Hok) in Hx as (? & ? & _). Qed.

Lemma connect_chans chans : chans = <[S c := sync_channel STREAM_BUF]> (<[c := sync_channel STREAM_BUF]> (u_chans n)) →
  ∀ i, has_reader a' i = true ∨ has_writer a' i = true → ∃ x, chans !! i = Some x ∧ chan_is a' i x.
Proof.
  intros Ec.
  assert (∀ i, i < c → has_reader a' i = has_reader a i ∧ has_writer a' i = has_writer a i) as Hrw.
  { intros i Hi. destruct (connect_readers i) as [-> ->]. rewrite !bool_decide_eq_false_2 by lia. done. }
  intros i Hi. destruct (decide (i < c)) as [Hlti|Hge].
  - destruct (Hrw i Hlti) as [E1 E2]. rewrite E1, E2 in Hi.
    assert (∃ x, u_chans n !! i = Some x ∧ chan_is a i x) as (x & Hx & Hci) by (destruct Hi; [by apply (uo_rx _ _ Hok)|by apply (uo_tx _ _ Hok)]).
    exists x. rewrite Ec, !lookup_insert_ne by lia. split; [done|]. by eapply chan_is_same.
  - assert (i = c ∨ i = S c) as Hi2.
    { destruct (connect_readers i) as [E1 E2]. rewrite E1, E2, !orb_true_iff, !bool_decide_eq_true in Hi. destruct Hi as [[[?|?]|Hi]|[[?|?]|Hi]]; auto; exfalso; apply Hge, old_numbers; auto. }
    exists (sync_channel STREAM_BUF). split; [rewrite Ec; destruct Hi2 as [->| ->]; [by rewrite lookup_insert_ne, lookup_insert_eq by lia|by rewrite lookup_insert_eq]|].
    assert (has_reader a' i = true ∧ has_writer a' i = true) as [E1 E2].
    { destruct (connect_readers i) as [-> ->]. rewrite !orb_true_iff, !bool_decide_eq_true. auto. }
    split; rewrite ?E1, ?E2; try done. intros _. split; [by split|]. unfold in_flight. cbn [a_bytes a' set_asock skip_ids]. rewrite (uo_bytes _ _ Hok); [done|]. fold c. lia.
Qed.

Lemma connect_disj id1 id2 t1 t2 x1 x2 : id1 ≠ id2 → a_socks a' !! id1 = Some t1 → a_socks a' !! id2 = Some t2 →
  x1 ∈ ends (a_kind t1) → x2 ∈ ends (a_kind t2) → s_rx x1 ≠ s_rx x2 ∧ s_tx x1 ≠ s_tx x2.
Proof.
  pose proof connect_old as Hold. pose proof connect_ne as Hne.
  assert (∀ id2 t2 x, a_socks a' !! id2 = Some t2 → x ∈ ends (a_kind t2) →
    (id2 = id ∧ x = client) ∨ (id2 = id' ∧ x = server) ∨ (∃ t3, a_socks a !! id2 = Some t3 ∧ x ∈ ends (a_kind t3))) as Hcl.
  { intros id3 t3 x [(-> & ->)|[(-> & ->)|(_ & _ & H3)]]%connect_socks Hx; cbn in Hx; [left; set_solver| |by eauto].
    apply elem_of_app in Hx as [Hx|Hx%list_elem_of_singleton]; [right; right; exists t'; by rewrite Hk'|by auto]. }
  intros Hne12 H1 H2 E1 E2.
  destruct (Hcl _ _ _ H1 E1) as [[-> ->]|[[-> ->]|(t3 & H3 & E3)]], (Hcl _ _ _ H2 E2) as [[-> ->]|[[-> ->]|(t4 & H4 & E4)]]; try done; cbn; try lia.
  - destruct (Hold x2) as [? ?]; [by exists id2, t4|lia].
  - destruct (Hold x2) as [? ?]; [by exists id2, t4|lia].
  - destruct (Hold x1) as [? ?]; [by exists id1, t3|lia].
  - destruct (Hold x1) as [? ?]; [by exists id1, t3|lia].
  - by eapply (uo_disj _ _ Hok id1 id2).
Qed.

Lemma connect_ok n' s s' l lc : u_socks n !! id = Some s → u_socks n !! id' = Some s' → u_state s' = Listening l → l < c → list_is (q ++ [server]) cap lc →
  u_next n' = S (S c) → u_chans n' = <[S c := sync_channel STREAM_BUF]> (<[c := sync_channel STREAM_BUF]> (u_chans n)) →
  u_lists n' = <[l := lc]> (u_lists n) → u_socks n' = <[id := mkUSock (u_name s) (Connected client)]> (u_socks n) → UNIX_REGISTRY n' = UNIX_REGISTRY n →
  unix_ok n' a'.
Proof.
  intros Hs Hs' Es' Hl Hlc En Ec El Eso Er. pose proof connect_ne as Hne.
  destruct (uo_some _ _ Hok _ _ Ht) as (Hlt & s1 & Hs1 & Hn1 & _). simplify_eq. destruct (uo_some _ _ Hok _ _ Ht') as (Hlt' & s2 & Hs2 & Hn2 & _). simplify_eq.
  pose proof connect_old as Hold. pose proof (connect_chans _ Ec) as Hch.
  assert (∀ x, x ∈ q → s_rx x < c ∧ s_tx x < c) as Hq by (intros x Hx; apply Hold; exists id', t'; by rewrite Hk').
  split.
  - done.
  - intros id2 t2 [(-> & ->)|[(-> & ->)|(Hn & Hn' & H2)]]%connect_socks.
    + split; [cbn; lia|]. rewrite Eso, lookup_insert_eq. by eexists.
    + split; [cbn; lia|]. rewrite Eso, lookup_insert_ne by done. exists s'. split_and!; [done|done|]. rewrite Es'. cbn. rewrite En, El, lookup_insert_eq. split; [lia|]. by exists lc.
    + destruct (uo_some _ _ Hok _ _ H2) as (Hlt2 & s3 & Hs3 & Hn3 & Hst3). split; [cbn; lia|]. rewrite Eso, lookup_insert_ne by done. exists s3. split_and!; [done|done|].
      destruct (u_state s3) as [|l3|] eqn:Es3, (a_kind t2); try done. destruct Hst3 as (Hl3 & c3 & Hc3 & Hi3). rewrite next_is in Hl3. fold c in Hl3. cbn. rewrite En. split; [lia|]. exists c3.
      split; [|done]. rewrite El, lookup_insert_ne; [done|]. intros <-. by apply Hn', (uo_lists _ _ Hok _ _ _ _ _ Hs3 Hs' Es3 Es').
  - intros id2. unfold a', set_asock, skip_ids. cbn [a_socks]. intros [[H2 Hn']%lookup_insert_None Hn]%lookup_insert_None. rewrite Eso, lookup_insert_ne by done. by apply (uo_none _ _ Hok).
  - intros id1 id2 x1 x2 l2. rewrite Eso. intros [[<- <-]|[_ H1]]%lookup_insert_Some [[<- <-]|[_ H2]]%lookup_insert_Some; try done. by apply (uo_lists _ _ Hok).
  - intros p id2. rewrite Er, (uo_names _ _ Hok). setoid_rewrite connect_socks. split.
    + intros (t2 & H2 & Hp). destruct (decide (id2 = id)) as [->|]; [|destruct (decide (id2 = id')) as [->|]]; simplify_eq; eauto 10.
    + intros (t2 & [(-> & ->)|[(-> & ->)|(Hn & Hn' & H2)]] & Hp); eauto.
  - intros i Hi. apply Hch. by left.
  - intros i Hi. apply Hch. by right.
  - intros i Hi. cbn in Hi |- *. apply (uo_bytes _ _ Hok). lia.
  - intros x [->|[->|Hx]]%connect_holds; [cbn; fold c; lia|cbn; fold c; lia|]. destruct (uo_lt _ _ Hok _ Hx) as (? & ? & ?). cbn. lia.
  - intros id2 t2 [(-> & ->)|[(-> & ->)|(Hn & Hn' & H2)]]%connect_socks; cbn.
    + split; apply NoDup_singleton.
    + destruct (uo_own _ _ Hok _ _ Ht') as [Hr Hw]. rewrite Hk' in Hr, Hw. cbn in Hr, Hw. rewrite !fmap_app. cbn.
      split; apply nodup_snoc; try done; intros (x & E & Hx)%list_elem_of_fmap; apply Hq in Hx; lia.
    + by apply (uo_own _ _ Hok _ _ H2).
  - exact connect_disj.
  - intros x1 x2 [->|[->|H1]]%connect_holds [->|[->|H2]]%connect_holds; cbn; try lia; try done.
    + destruct (Hold x2 H2). lia.
    + destruct (Hold x2 H2). lia.
    + destruct (Hold x1 H1). lia.
    + destruct (Hold x1 H1). lia.
    + by apply (uo_pair _ _ Hok).
Qed.
End connect.

Lemma skip_ok k n' : u_next n' = k + u_next n → (∀ i, i < a_next a → u_chans n' !! i = u_chans n !! i) → u_lists n' = u_lists n → u_socks n' = u_socks n →
  UNIX_REGISTRY n' = UNIX_REGISTRY n → unix_ok n' (skip_ids k a).
Proof.
  intros En Ec El Es Er. eapply ok_frame; [exact Hok|..]; cbn; try done; try lia; rewrite ?Es, ?Er.
  - by rewrite En, next_is.
  - intros id t Ht. destruct (uo_some _ _ Hok _ _ Ht) as (Hlt & s & Hs & Hn & Hst). split; [lia|]. exists s. split_and!; [done|done|].
    destruct (u_state s), (a_kind t); try done. cbn in *. rewrite En, El. destruct Hst as (? & ?). split; [lia|done].
  - apply (uo_none _ _ Hok).
  - apply (uo_lists _ _ Hok).
  - apply (uo_names _ _ Hok).
  - apply (uo_own _ _ Hok).
  - apply (uo_disj _ _ Hok).
Qed.

(** The state once [connect] has made its streams. *)
Definition client_end : UnixStream := mkStream (a_next a) (S (a_next a)).
Definition server_end : UnixStream := mkStream (S (a_next a)) (a_next a).
Definition paired : UNet :=
  mkUNet (<[S (a_next a) := sync_channel STREAM_BUF]> (<[a_next a := sync_channel STREAM_BUF]> (u_chans n)))
    (u_lists n) (u_socks n) (UNIX_REGISTRY n) (S (S (a_next a))).

Lemma connect_begin_ok id t b path : a_socks a !! id = Some t →
  (∃ e, connect_begin id (b :: path) n = (Err e, n) ∧
     ∀ nb kl, spec_connect a nb kl id t (b :: path) = (Returns (Err e), a)) ∨
  ∃ id' t' s' l lc q cap,
    connect_begin id (b :: path) n = (Ok (l, (client_end, server_end)), paired) ∧
    a_kind t = AU ∧ socket_named a (b :: path) = Some (id', t') ∧ a_kind t' = AL q cap ∧ a_socks a !! id' = Some t' ∧
    u_socks n !! id' = Some s' ∧ u_name s' = a_name t' ∧ u_state s' = Listening l ∧ l < u_next n ∧
    u_lists n !! l = Some lc ∧ list_is q cap lc.
Proof.
  intros Ht. destruct (get_sock_ok id t Ht) as (s & Hg & Hs & Hn & Hst).
  pose proof (upgrade_spec n a (b :: path) Hok) as Hup. pose proof (named_spec n a (b :: path) Hok) as Hnm.
  unfold connect_begin, spec_connect. rewrite bool_decide_eq_false_2 by done. rewrite (bind_ok _ _ _ _ _ Hg).
  destruct (u_state s) as [|l|st] eqn:Es, (a_kind t) as [|q cap|st'] eqn:Ek; try done; try (left; by exists InvalidArgument).
  unfold lookup_listener. destruct (socket_named a (b :: path)) as [[id' t']|].
  2: { left. exists NotFound. split; [|done]. unfold mbind, M_bind. cbn [m_get]. by rewrite Hnm. }
  destruct Hup as (s' & Hu & Hs' & Hn' & Hst'). destruct Hnm as (Ht' & _ & Hreg).
  destruct (u_state s') as [|l|st] eqn:Es', (a_kind t') as [|q cap|st'] eqn:Ek'; try done;
    try (left; exists NotConnected; split; [|done]; unfold mbind, M_bind; cbn [m_get]; rewrite Hreg, Hu, Es'; done).
  destruct Hst' as (Hll & lc & Hlc & Hli). right. exists id', t', s', l, lc, q, cap. split_and!; try done.
  rewrite (bind_ok _ _ n l n) by (unfold mbind, M_bind; cbn [m_get]; by rewrite Hreg, Hu, Es').
  unfold stream_pair, u_fresh, u_modify, set_chans, mbind, M_bind. cbn. by rewrite next_is.
Qed.

(** Handing over the server's end: it is queued, refused, or has to wait. *)
Lemma enqueue_ok nb kl l lc q cap n1 s : list_is q cap lc → u_lists n1 !! l = Some lc →
  if (negb nb && kl)%bool then enqueue nb kl l s n1 = b_lift (_ ← stream_drop s; m_err Interrupted) n1
  else if (length q <? cap)%nat then
    ∃ lc', enqueue nb kl l s n1 = (Returns (Ok ()), set_lists <[l := lc']> n1) ∧ list_is (q ++ [s]) cap lc'
  else enqueue nb kl l s n1 = if nb then b_lift (_ ← stream_drop s; m_err WouldBlock) n1 else (Sleeps, n1).
Proof.
  intros [Hbuf Hcok Hsc Hrc] Hl. unfold enqueue, b_bind.
  assert (b_lift (get_list l) n1 = (Returns (Ok lc), n1)) as -> by (unfold b_lift, get_list; by rewrite Hl).
  assert (∀ c, c = lc → set_lists <[l := c]> n1 = n1) as Hid by (intros ? ->; by apply set_lists_id).
  assert (set_sem lc (ch_sem lc) = lc) as Hss by (by destruct lc).
  assert (length q + room lc = cap) as Hroom by (destruct Hcok as [H0 _ _ H1]; rewrite Hbuf in H1; unfold room; lia).
  destruct (negb nb && kl)%bool eqn:Ekl.
  { destruct nb, kl; try done. unfold send, send_acquire, sem_wait. by rewrite Hid. }
  destruct (length q <? cap)%nat eqn:Eq; bool_to_prop.
  - destruct (send_ok _ _ s Hcok) as (lc' & Hse & Htr & Hcok' & Hbuf' & _ & Hsc' & Hrc'); [lia|]. exists lc'.
    split; [|split; [by rewrite Hbuf', Hbuf|done|congruence|congruence]]. rewrite Htr. destruct nb; [done|]. destruct kl; [done|]. by rewrite Hse.
  - destruct (send_full _ _ s Hcok) as [Hse Htr]; [lia|]. rewrite Htr. destruct nb; [by rewrite Hid|]. destruct kl; [done|]. by rewrite Hse, Hid.
Qed.

Lemma connect_sound nb kl id path t : a_socks a !! id = Some t → sound (UConnect nb kl id path).
Proof.
  intros Ht. destruct (get_sock_ok id t Ht) as (s & Hg & Hs & Hn & Hst). destruct (uo_some _ _ Hok _ _ Ht) as [Hlt _].
  assert (∃ r n', unix_connect nb kl id path n = (r, n') ∧ (uspec a (UConnect nb kl id path)).1 = ret0 r ∧
            unix_ok n' (uspec a (UConnect nb kl id path)).2) as (r & n' & Hr & Hsp & Hk); [|by eapply zero_sound].
  cbn [uspec]. rewrite Ht. destruct path as [|b path]; [by exists (Returns (Err InvalidArgument)), n|].
  unfold unix_connect, b_bind. unfold b_lift at 1.
  destruct (connect_begin_ok id t b path Ht) as [(e & -> & Hsp)|(id' & t' & s' & l & lc & q & cap & -> & Ek & Hnm & Ek' & Ht' & Hs' & Hn' & Es' & Hll & Hlc & Hli)].
  { rewrite Hsp. by exists (Returns (Err e)), n. }
  unfold spec_connect. rewrite Ek, Hnm, Ek'. unfold connect_streams.
  assert (∀ e, unix_ok (b_lift (_ ← stream_drop client_end; m_err (A := ()) e) (b_lift (_ ← stream_drop server_end; m_err (A := ()) e) paired).2).2 (skip_ids 2 a)) as Hdrop.
  { intros e. apply skip_ok; unfold b_lift, stream_drop, u_modify, set_chans, mbind, M_bind, m_err; cbn; try done; [by rewrite next_is|]. intros i Hi. rewrite !lookup_alter_ne by lia. by rewrite !lookup_insert_ne by lia. }
  pose proof (enqueue_ok nb kl l lc q cap paired server_end Hli Hlc) as He. destruct (negb nb && kl)%bool.
  { rewrite He. eexists _, _. split; [reflexivity|]. split; [done|]. exact (Hdrop Interrupted). }
  destruct (length q <? cap)%nat.
  - destruct He as (lc' & -> & Hli'). eexists (Returns (Ok ())), _. split; [|split; [done|]].
    + unfold b_lift, mbind, M_bind, get_sock. cbn [u_socks set_lists paired]. rewrite Hs. reflexivity.
    + cbn [snd fst]. by eapply (connect_ok id id' t t' q cap Ht Ek Ht' Ek' _ s s' l lc'); try done; rewrite <- next_is.
  - rewrite He. destruct nb.
    + eexists _, _. split; [reflexivity|]. split; [done|]. exact (Hdrop WouldBlock).
    + eexists Sleeps, _. split; [reflexivity|]. split; [done|]. apply skip_ok; cbn; try done; [by rewrite next_is|].
      intros i Hi. by rewrite !lookup_insert_ne by lia.
Qed.

(** ** Reading and writing *)
Context {Mem : Type} `{UserMemLaws Mem}.

Lemma get_stream_ok id t : a_socks a !! id = Some t →
  get_stream id n = (aend a id, n).
Proof.
  intros Ht. destruct (get_sock_ok id t Ht) as (s & Hg & Hs & Hn & Hst). unfold get_stream, aend. rewrite (bind_ok _ _ _ _ _ Hg), Ht. cbn.
  destruct (u_state s), (a_kind t); try done. by cbn in Hst; subst.
Qed.

Lemma aend_holds id s : aend a id = Ok s → holds a s.
Proof. unfold aend. destruct (a_socks a !! id) as [t|] eqn:Et; cbn; [|done]. destruct (a_kind t) eqn:Ek; try done. intros [= ->]. exists id, t. rewrite Ek. split; [done|cbn; set_solver]. Qed.

(** Bytes move in one channel. *)
Lemma bytes_ok i c l : has_reader a i = true → chan_ok STREAM_BUF c → ch_buf c = l →
  (∀ c0, u_chans n !! i = Some c0 → ch_scnt c = ch_scnt c0 ∧ ch_rcnt c = ch_rcnt c0) →
  unix_ok (set_chans <[i := c]> n) (mkANet (a_socks a) (<[i := l]> (a_bytes a)) (a_next a)).
Proof.
  intros Hr Hc Hb Hcnt. set (a' := mkANet _ _ _).
  assert (∀ i, has_reader a' i = has_reader a i ∧ has_writer a' i = has_writer a i) as Hrw by (intros j; split; reflexivity).
  assert (i < a_next a) as Hlt by (apply reader_spec in Hr as (s & Hs & <-); by apply (uo_lt _ _ Hok) in Hs as (? & _)).
  assert (∀ j c0, u_chans n !! j = Some c0 → chan_is a j c0 → ∃ c', u_chans (set_chans <[i := c]> n) !! j = Some c' ∧ chan_is a' j c') as Hci.
  { intros j c0 Hj Hci. cbn. destruct (decide (j = i)) as [->|Hne].
    - exists c. rewrite lookup_insert_eq. split; [done|]. destruct (Hcnt _ Hj) as [E1 E2]. destruct Hci as [H1 H2 H3 H4].
      split; rewrite ?(proj1 (Hrw i)), ?(proj2 (Hrw i)); [congruence|congruence| |congruence]. intros _. split; [done|]. unfold in_flight. cbn. by rewrite lookup_insert_eq.
    - exists c0. rewrite lookup_insert_ne by done. split; [done|]. eapply chan_is_same; [apply Hrw|apply Hrw| |done]. unfold in_flight. cbn. by rewrite lookup_insert_ne. }
  destruct Hok as [H1 H2 H3 H4 H5 H6 H7 H8 H9 H10 H11 H12]. split; try done.
  - intros j Hj. destruct (H6 j Hj) as (c0 & ? & ?). by eapply Hci.
  - intros j Hj. destruct (H7 j Hj) as (c0 & ? & ?). by eapply Hci.
  - intros j Hj. cbn in *. rewrite lookup_insert_ne by lia. by apply H8.
Qed.

(** A channel that takes no byte: its reader is gone, or the caller of a
    blocking write is being killed. *)
Lemma write_refused (nb kl : bool) mem src k (c : Chan Z) bs :
  sem_closed (ch_sem c) = true ∨ (nb = false ∧ kl = true) → copyin mem src k = Ok bs →
  (if nb then let '(r, c') := stream_write_nonblock mem src k c in (IoDone r, c') else stream_write kl mem src k c)
    = (IoDone (Ok 0), c).
Proof.
  intros Hcl Hcp. unfold stream_write_nonblock, stream_write. destruct k as [|k]; [by destruct nb|]. cbn.
  destruct (copyin_byte_ok _ _ _ _ Hcp) as (b & bs' & _ & -> & _).
  unfold try_send, try_acquire, sem_try_wait, send, send_acquire, sem_wait.
  destruct nb; [destruct Hcl as [->|[? _]]; [|done]; by destruct c|]. destruct kl; [by destruct c|].
  destruct Hcl as [->|[_ ?]]; [|done]. by destruct c.
Qed.

(** One call on an open channel. *)
Lemma stream_write_ok (nb kl : bool) mem src k c bs : chan_ok STREAM_BUF c → copyin mem src k = Ok bs → (negb nb && kl)%bool = false →
  ∃ c', (if nb then let '(r, c') := stream_write_nonblock mem src k c in (IoDone r, c') else stream_write kl mem src k c)
      = (if (k <=? room c)%nat then IoDone (Ok k) else if negb nb then IoSleep (room c)
         else if (room c =? 0)%nat then IoDone (Err WouldBlock) else IoDone (Ok (room c)), c') ∧
    chan_ok STREAM_BUF c' ∧ ch_buf c' = ch_buf c ++ take (room c) bs ∧ ch_scnt c' = ch_scnt c ∧ ch_rcnt c' = ch_rcnt c.
Proof.
  intros Hco Hcp Hkl. unfold stream_write_nonblock, stream_write. destruct nb; cbn [negb andb] in *.
  - destruct (write_nonblock_loop_spec _ mem src 0 k c bs Hco Hcp) as (c' & -> & H'). exists c'. split; [|done]. cbn [Nat.add].
    by destruct (k <=? room c), (room c =? 0).
  - subst kl. destruct (write_loop_spec _ mem src 0 k c bs Hco Hcp) as (c' & -> & H'). by exists c'.
Qed.

Lemma write_sound nb kl id t mem src k bs : a_socks a !! id = Some t → copyin mem src k = Ok bs →
  ∃ n', unix_write nb kl id mem src k n = ((spec_write a nb kl id bs).1, n') ∧ unix_ok n' (spec_write a nb kl id bs).2.
Proof.
  intros Ht Hcp. unfold unix_write, spec_write. unfold mbind at 1, M_bind at 1. rewrite (get_stream_ok id t Ht).
  destruct (aend a id) as [s|e|] eqn:Ea; [|by exists n|by exists n]. pose proof (aend_holds _ _ Ea) as Hh.
  assert (has_writer a (s_tx s) = true) as Hw by (apply writer_spec; eauto). destruct (uo_tx _ _ Hok _ Hw) as (c & Hc & Hci).
  unfold get_chan, mbind, M_bind, mret, M_ret. rewrite Hc. pose proof (copyin_length _ _ _ _ Hcp) as Hlen.
  destruct (negb (has_reader a (s_tx s)) || negb nb && kl)%bool eqn:Ecl.
  { rewrite (write_refused nb kl mem src k c bs); [|apply orb_prop in Ecl as [E|E]; [left; apply (cs_closed _ _ _ Hci); by destruct (has_reader _ _)|right; by destruct nb, kl]|done].
    exists n. cbn [fst snd]. by rewrite set_chans_id. }
  apply orb_false_elim in Ecl as [Er Ekl]. apply negb_false_iff in Er. destruct (cs_open _ _ _ Hci Er) as [Hco Hbuf].
  destruct (stream_write_ok nb kl mem src k c bs Hco Hcp Ekl) as (c' & -> & Hco' & Hb' & Hs' & Hr').
  assert (Z.to_nat STREAM_BUF - length (in_flight a (s_tx s)) = room c) as -> by (destruct Hco as [Hz1 _ _ Hz2]; rewrite <- Hbuf; unfold room; lia).
  assert (unix_ok (set_chans <[s_tx s := c']> n) (mkANet (a_socks a) (<[s_tx s := in_flight a (s_tx s) ++ take (room c) bs]> (a_bytes a)) (a_next a))) as Hk.
  { apply bytes_ok; [done|done|by rewrite Hb', Hbuf|]. intros c0 Hc0. simplify_eq. done. }
  eexists. rewrite Hlen. destruct (k <=? room c); [split; [done|exact Hk]|]. destruct (negb nb); [split; [done|exact Hk]|].
  destruct (Nat.eqb_spec (room c) 0) as [e|_]; (split; [done|]); [|exact Hk]. cbn [snd].
  rewrite e in Hk. cbn in Hk. rewrite app_nil_r in Hk. destruct a as [so by' nx]. unfold in_flight in *. cbn in *.
  destruct (by' !! s_tx s) as [q|] eqn:Eq; [by rewrite insert_id in Hk|]. exfalso. destruct Hco as [Hz1 _ _ Hz2]. cbn in Hbuf.
  rewrite Hbuf in Hz2. unfold room in e. cbn in Hz2. unfold STREAM_BUF in Hz2. lia.
Qed.

(** Once one byte has been read, the rest of a blocking read does not block. *)
Lemma read_rest_nonblock todo mem dst i (c : Chan Z) : 0 < i → read_rest mem dst i todo c = read_nonblock_loop mem dst i todo c.
Proof.
  revert mem dst i c. induction todo as [|todo IH]; intros mem dst i c Hi; [done|]. cbn.
  rewrite (proj2 (Nat.eqb_neq i 0)) by lia. destruct (try_recv c) as [[ch|e|] c']; [|by destruct e|done].
  destruct (copyout mem dst [ch]) as [[[]| |] mem']; [|done..]. apply IH. lia.
Qed.

(** A blocking read is a non-blocking one, except that it sleeps. *)
Lemma stream_read_ok (nb : bool) mem dst k (c : Chan Z) :
  (if nb then let '(r, st) := stream_read_nonblock mem dst k c in (Returns r, st) else stream_read mem dst k c)
    = if negb nb && (0 <? k)%nat && (length (ch_buf c) =? 0)%nat && (ch_scnt c >? 0)%Z then (Sleeps, (mem, c))
      else (Returns (stream_read_nonblock mem dst k c).1, (stream_read_nonblock mem dst k c).2).
Proof.
  unfold stream_read_nonblock, stream_read. destruct nb; cbn [negb andb]; [by destruct (read_nonblock_loop _ _ _ _ _)|].
  destruct k as [|k]; [done|]. cbn. unfold recv, try_recv. destruct (ch_buf c) as [|ch rest]; cbn.
  - destruct (ch_scnt c >? 0)%Z; done.
  - assert (∀ e s, sem_post (ch_sem c) = (Err e, s) → e = InvalidArgument) as He by (intros e s; unfold sem_post; repeat case_match; congruence).
    destruct (sem_post (ch_sem c)) as [[[]|e|] s] eqn:Ep; [|by rewrite (He _ _ eq_refl)|done].
    destruct (copyout mem dst [ch]) as [[[]| |] mem']; [|done..]. rewrite read_rest_nonblock by lia.
    by destruct (read_nonblock_loop _ _ _ _ _).
Qed.

Lemma read_sound nb id t mem dst k : a_socks a !! id = Some t → copyin mem dst 0 = Ok [] → writable mem dst k →
  ∃ mem' n', unix_read nb id mem dst k n = (b_length (spec_read a nb id k).1, (mem', n')) ∧ unix_ok n' (spec_read a nb id k).2 ∧
    ∀ bs, (spec_read a nb id k).1 = Returns (Ok bs) → copyin mem' dst (length bs) = Ok bs.
Proof.
  intros Ht Hcp Hwr. unfold unix_read, spec_read. unfold mbind at 1, M_bind at 1. rewrite (get_stream_ok id t Ht).
  destruct (aend a id) as [s|e|] eqn:Ea; [|by exists mem, n|by exists mem, n]. pose proof (aend_holds _ _ Ea) as Hh.
  assert (has_reader a (s_rx s) = true) as Hr by (apply reader_spec; eauto). destruct (uo_rx _ _ Hok _ Hr) as (c & Hc & Hci).
  unfold get_chan. unfold mbind at 1, M_bind, mret, M_ret. rewrite Hc. destruct (cs_open _ _ _ Hci Hr) as [Hco Hbuf]. pose proof (cs_scnt _ _ _ Hci) as Hsc.
  destruct (read_nonblock_loop_spec _ mem dst k c [] Hco Hcp) as (c' & mem' & Hrun & Hco' & Hb' & Hcp' & Hs' & Hr'); [by rewrite Z.add_0_r|].
  cbn [length app] in Hrun, Hcp'. rewrite Z.add_0_r in Hrun. rewrite stream_read_ok. unfold stream_read_nonblock. rewrite Hrun.
  assert (unix_ok (set_chans <[s_rx s := c']> n) (mkANet (a_socks a) (<[s_rx s := drop k (in_flight a (s_rx s))]> (a_bytes a)) (a_next a))) as Hk.
  { apply bytes_ok; [done|done|by rewrite Hb', Hbuf|]. intros c0 Hc0. simplify_eq. done. }
  assert ((ch_scnt c >? 0)%Z = has_writer a (s_rx s)) as Hw by (rewrite Hsc; by destruct (has_writer _ _)). rewrite Hw.
  rewrite Hbuf in *. set (q := in_flight a (s_rx s)) in *.
  assert (length (take k q) = k `min` length q) as Hlt by apply length_take.
  destruct ((0 <? k) && (length q =? 0) && has_writer a (s_rx s))%nat%bool eqn:E.
  - rewrite !andb_true_iff in E. destruct E as [[E1 E2] E3]. rewrite E1, E2, E3. bool_to_prop.
    destruct nb; cbn [negb andb must_wait fst snd b_length].
    2: { exists mem, n. split; [by rewrite set_chans_id|]. split; [exact Hok|done]. }
    exists mem', (set_chans <[s_rx s := c']> n). rewrite E3 in Hsc. rewrite Hsc.
    rewrite (proj2 (Nat.leb_gt _ _)), (proj2 (Nat.eqb_eq (length (take k q)) 0)) by lia. cbn. split; [done|]. split; [|done].
    destruct q as [|? ?] eqn:Eq; [|done]. rewrite drop_nil in Hk, Hb'. assert (c' = c) as ->.
    { destruct k as [|k]; [lia|]. cbn in Hrun. unfold try_recv in Hrun. rewrite Hbuf, Hsc in Hrun. cbn in Hrun. by injection Hrun as _ <-. }
    by rewrite set_chans_id.
  - rewrite <- !andb_assoc, andb_assoc in E. rewrite <- !andb_assoc, (andb_assoc (0 <? k)), E, andb_false_r.
    exists mem', (set_chans <[s_rx s := c']> n). cbn [fst snd b_length]. split; [|split; [exact Hk|intros bs [= <-]; exact Hcp']]. do 2 f_equal.
    destruct (Nat.leb_spec k (length q)), (Nat.eqb_spec (length (take k q)) 0); cbn [orb]; try done; destruct (Z.leb_spec (ch_scnt c) 0); try done.
    exfalso. rewrite Hsc in *. destruct (has_writer a (s_rx s)); [|lia]. rewrite (proj2 (Nat.ltb_lt 0 k)), (proj2 (Nat.eqb_eq (length q) 0)) in E by lia. done.
Qed.
End calls.

(** Every call a program makes on live sockets. *)
Definition op_ok (a : anet) (op : uop) : Prop :=
  (∀ id, op_socket op = Some id → is_Some (a_socks a !! id)) ∧ match op with UListen _ b => (0 ≤ b)%Z | _ => True end.

Lemma op_sound n a op : unix_ok n a → op_ok a op → sound n a op.
Proof.
  intros Hok [Hid Hb]. destruct op as [|id path|id b|nb kl id path|nb id|id]; [by apply new_sound|..]; destruct (Hid id eq_refl) as [t Ht].
  - by eapply bind_sound.
  - by eapply listen_sound.
  - by eapply connect_sound.
  - by eapply accept_sound.
  - by eapply close_sound.
Qed.

(** C@: Unix sockets.  The initial states are related, and from related states
    every call on a live socket, blocking or not, by any process, does exactly
    what the specification says, without a panic, and leads to related states:
    names are unique among live sockets and free again when their socket is
    closed; [connect] reaches the socket listening on a name and [accept] takes
    connections in their order; what is written on one end is read on the
    other, in order, up to 512 bytes ahead; a reader gets the bytes sent before
    its peer closed and then the end of file.  Where a non-blocking call answers
    [WouldBlock] a blocking one sleeps: [read] and [accept] before they have
    changed anything, [write] after the bytes that fit.  In every related state
    an end of a connection is held by one socket or queue, and its peer is the
    only one that writes what it reads.  Scope: a call is one step from its
    start to its return or its first sleep, and closing a socket is one step
    (a name can be lost when a destructor is interrupted by a [bind]); what a
    [connect] that slept does after its wake-up is not described. *)
Theorem unix_sockets_refine {Mem} `{UserMemLaws Mem} :
  unix_ok unet_new anet_new ∧
  ∀ n a, unix_ok n a →
    (∀ op, op_ok a op → ∃ n', urun op n = ((uspec a op).1, n') ∧ unix_ok n' (uspec a op).2) ∧
    (∀ nb kl id (mem : Mem) src k bs, is_Some (a_socks a !! id) → copyin mem src k = Ok bs →
       ∃ n', unix_write nb kl id mem src k n = ((spec_write a nb kl id bs).1, n') ∧ unix_ok n' (spec_write a nb kl id bs).2) ∧
    (∀ nb id (mem : Mem) dst k, is_Some (a_socks a !! id) → copyin mem dst 0 = Ok [] → writable mem dst k →
       ∃ mem' n', unix_read nb id mem dst k n = (b_length (spec_read a nb id k).1, (mem', n')) ∧ unix_ok n' (spec_read a nb id k).2 ∧
         ∀ bs, (spec_read a nb id k).1 = Returns (Ok bs) → copyin mem' dst (length bs) = Ok bs) ∧
    (∀ s s', holds a s → holds a s' → s_tx s = s_rx s' → s_rx s = s_tx s').
Proof.
  split; [apply unix_ok_new|]. intros n a Hok. split_and!.
  - intros op Hop. by apply op_sound.
  - intros nb kl id mem src k bs [t Ht]. by eapply write_sound.
  - intros nb id mem dst k [t Ht]. by eapply read_sound.
  - intros s s' Hs Hs' E. symmetry. by apply (uo_pair _ _ Hok s' s).
Qed.

(** A client connects to a server, sends two bytes, and the server reads
    them and then the end of file. *)
Definition demo_calls : list uop := [UNew; UNew; UBind 0 [97%Z]; UListen 0 4; UConnect false false 1 [97%Z]; UAccept false 0].
Definition demo_net : anet := foldl (λ a op, (uspec a op).2) anet_new demo_calls.
Definition demo_mem : FlatMem := (<[10 := 104]> (<[11 := 105]> (<[20 := 0]> (<[21 := 0]> (<[22 := 0]> ∅)))))%Z.
Definition demo_sent : anet := (uspec (spec_write demo_net false false 1 [104; 105]%Z).2 (UClose 1)).2.

Fixpoint ops_ok (a : anet) (ops : list uop) : Prop :=
  match ops with [] => True | op :: ops => op_ok a op ∧ ops_ok (uspec a op).2 ops end.

Ltac live := vm_compute; eexists; reflexivity.

Lemma unix_sockets_refine_witness :
  ∃ n, unix_ok n demo_net ∧ (∃ n', unix_write false false 1 demo_mem 10 2 n = (IoDone (Ok 2), n')) ∧
  ∃ n2, unix_ok n2 demo_sent ∧ (∃ mem' n3, unix_read false 5 demo_mem 20 3 n2 = (Returns (Ok 2), (mem', n3)) ∧ copyin mem' 20 2 = Ok [104; 105]%Z) ∧
  ∃ mem' n4, unix_read false 5 demo_mem 20 3 n = (Sleeps, (mem', n4)).
Proof.
  destruct (unix_sockets_refine (Mem := FlatMem)) as [H0 Hstep].
  assert (∀ ops n a, unix_ok n a → ops_ok a ops → ∃ n', unix_ok n' (foldl (λ a op, (uspec a op).2) a ops)) as Hrun.
  { intros ops. induction ops as [|op ops IH]; intros n a Hok Hops; [by exists n|]. destruct Hops as [Hop Hops].
    destruct (proj1 (Hstep _ _ Hok) op Hop) as (n' & _ & Hok'). by apply (IH n'). }
  destruct (Hrun demo_calls _ _ H0) as [n Hok].
  { repeat (split; [split; [intros ? E; inversion E; subst; live|cbn; lia]|]). done. }
  exists n. split; [done|]. destruct (Hstep _ _ Hok) as (_ & Hw & Hr0 & _).
  destruct (Hw false false 1 demo_mem 10%Z 2 [104; 105]%Z) as (n' & Ew & Hok'); [live|done|].
  split; [exists n'; rewrite Ew; by vm_compute|].
  destruct (Hrun [UClose 1] _ _ Hok') as [n2 Hok2]; [split; [split; [intros ? [= <-]; live|done]|done]|].
  exists n2. split; [done|]. destruct (Hstep _ _ Hok2) as (_ & _ & Hr & _).
  assert (writable demo_mem 20 3) as Hwr.
  { intros i Hi. assert (i = 20 ∨ i = 21 ∨ i = 22)%Z as [-> |[-> | ->]] by lia; live. }
  destruct (Hr0 false 5 demo_mem 20%Z 3) as (mem0 & n4 & Er0 & _); [live|done|exact Hwr|].
  split; [|exists mem0, n4; rewrite Er0; by vm_compute].
  destruct (Hr false 5 demo_mem 20%Z 3) as (mem' & n3 & Er & _ & Hc); [live|done|exact Hwr|].
  exists mem', n3. split; [rewrite Er; by vm_compute|]. apply (Hc [104; 105]%Z). by vm_compute.
Defined.

(** Two sockets race for a name: the last reference to the first is gone when
    the second binds the name, and the destructor of the first then removes
    the entry of the second: a live socket listens on a name nobody finds. *)
Example name_lost_in_race :
  (a ← unix_new; b ← unix_new; _ ← unix_bind a [97%Z];
   s ← drop_begin a;
   _ ← unix_bind b [97%Z]; _ ← unix_listen b 1;
   _ ← drop_name s; _ ← drop_state s;
   c ← unix_new; connect_begin c [97%Z]) unet_new
  = (Err NotFound, mkUNet ∅ {[2 := listener_new 1]} {[1 := mkUSock (Some [97%Z]) (Listening 2); 3 := mkUSock None Unbound]} ∅ 4).
Proof. by vm_compute. Qed.
